(* ===== verification/_CoqProject ===== *)
-Q . S2P
Prelude.v
Snapshot.v
Tlb.v
TlbMru.v
TlbVmap.v
TlbSpec.v
TlbRefine.v
TlbOps.v
TlbClaims.v
Crc.v
OneWire.v
W1Ds2502.v
W1Ds2505.v
W1Sgi.v
OneWireBus.v
OneWireParts.v
OneWireClaims.v
CpuTimer.v
CpuTimerClaims.v
CpuCore.v
CpuDecode.v
CpuExec.v
CpuInstr.v
CpuPages.v
TlbShape.v
CpuLaws.v
CpuInv.v
CpuInvMem.v
CpuInvInstr.v
CpuNew.v
CpuRam.v
CpuClaims.v
CpuEvents.v
Eeprom.v
EepromClaims.v
HpTimer.v
HpTimerProofs.v
HpTimerClaims.v
BlockNode.v
BlockProofs.v
BlockClaims.v
Packet.v
PacketProofs.v
Frag.v
NetClaims.v
TcpConn.v
TcpProofs.v
TcpClaims.v
CpuCache.v
CacheProofs.v
CacheInv.v
CacheMem.v
CacheFetch.v
CacheClaims.v
CacheTags.v
CacheLaws.v
GFifo.v
GFifoSpec.v
GFifoProofs.v
GFifoClaims.v
Scsi.v
ScsiClaims.v
ScsiTargets.v
Calendar.v
RtcOffset.v
Ds1687.v
Ds1x86.v
RtcClaims.v
SFlash.v
SFlashClaims.v
ChunkStore.v
ChunkClaims.v
DevMap.v
DevMapClaims.v
PpMem.v
PpMemClaims.v
PpWindowClaims.v
Ip22Mem.v
Ip22MemClaims.v
