(* ===== verification/Prelude.v ===== *)
(** * A verification of the IRIS workstation emulator

    IRIS emulates SGI MIPS workstations (Indy, Indigo2, O2, Octane).  An
    interpreter runs guest instructions against a core, a TLB and a cache; the
    cache talks to a physical bus on which the memory controllers and devices
    sit; devices keep their state across runs in NVRAM files, disk overlays and
    snapshots; timers are driven by a host thread.  This library models the
    parts that carry the machine's own logic and are not host glue, in the
    order the guest depends on them:

    - the TLB (src/src/cpu/mips_tlb.rs): [Tlb] is the model, [TlbMru] and
      [TlbVmap] its two accelerators (the recency lists and the page map),
      [TlbSpec] the joint TLB of the architecture, [TlbRefine] the refinement,
      [TlbOps] the operations that change it and reachability, [TlbShape] what
      holds for any guest, architected page masks or not, [TlbClaims] the
      theorems;
    - the CPU (src/src/cpu/mips_core.rs, mips_exec.rs, mips_isa.rs):
      [CpuTimer] is Count, Compare and the IP7 interrupt, [CpuCore] the
      registers, CP0 and exception delivery, [CpuDecode] the decoder, [CpuExec]
      translation, fetch and data access, [CpuInstr] the instruction handlers
      and the step, [CpuNew] construction.  [CpuSegments] is the address map of
      the architecture, [CpuPages] the uniformity of translation over a page,
      [CpuLaws] the contracts of the TLB and the memory system, [CpuInv],
      [CpuInvMem] and [CpuInvInstr] the invariant, [CpuRam] a machine to
      evaluate on, [CpuClaims], [CpuEvents] and [CpuTimerClaims] the theorems;
    - the write-back caches (src/src/cpu/mips_cache_v2.rs): [CpuCache] is the
      model, for the geometries of the R4400, the R5000 and the R10000;
      [CacheProofs] its address arithmetic and the contract of the memory
      behind it ([RamBus]), [CacheInv] the coherence invariant with its
      preservation by invalidations, write-backs and fills, [CacheMem] loads
      and stores, [CacheClean] cleaning by range and whole, [CacheFetch]
      instruction fetch, [CacheOps] the CACHE instruction, [CacheClaims] and
      [CacheTags] the theorems, [CacheLaws] the caches as an instance of the
      executor's interface;
    - memory: the decode table of the physical bus (src/src/ppmem/devmap.rs, the
      fill of src/src/physical.rs) is [DevMap], with [DevMapProofs] its
      invariant and [DevMapClaims]; the RAM banks and the window of host
      mappings over them (src/src/ppmem/ppmem.rs) are [PpMem], with
      [PpMemProofs], [PpMemClaims] and [PpWindowClaims]; the registers of the
      Indy and Indigo2 that place the banks (src/src/dev/mc.rs,
      src/src/ip22_bus.rs) are [Ip22Mem], which uses the table through the class
      [DecodeTable] that [Ip22MemProofs] discharges with [DevMap], and
      [Ip22MemClaims] composes the three;
    - the one-wire bus (src/src/dev/w1/): [OneWire] the bus, [W1Ds2502],
      [W1Ds2505] and [W1Sgi] the parts and the board identity they hold, [Crc]
      their checksums, [OneWireBus] and [OneWireParts] the protocol-level
      lemmas, [OneWireClaims] the theorems;
    - the serial EEPROM (src/src/dev/eeprom_93c56.rs): [Eeprom],
      [EepromProofs], [EepromClaims];
    - the timer manager (src/src/hptimer.rs): [HpTimer], [HpTimerProofs],
      [HpTimerClaims];
    - the register FIFO of the graphics boards (src/src/gfifo.rs): [GFifo] has
      its methods as programs of atomic accesses, [GFifoSpec] the threads and
      the queue they should see, [GFifoProofs] a rely-guarantee logic and the
      invariant, [GFifoClaims] the theorems;
    - disk images (src/src/block_node.rs, src/src/cow_disk.rs): [BlockNode],
      [BlockProofs], [BlockClaims];
    - the SCSI disks and CD-ROM drives over those images (src/src/scsi.rs, the
      tray of src/src/block_node.rs): [Scsi] has every command a target
      answers, [ScsiClaims] the theorems about a disk, proved against the class
      [DiskLaws] of what an image promises, [ScsiTargets] those about trays,
      mode pages and selected block lengths;
    - the gateway of the emulated network (src/src/net/): [Packet] encodes and
      parses frames, [Frag] reassembles datagrams, [TcpConn] terminates the
      guest's TCP connections; [PacketProofs], [FragProofs] and [TcpProofs]
      hold the lemmas, [NetClaims] and [TcpClaims] the theorems;
    - the real-time clocks: [Calendar] is the Gregorian calendar by its rules,
      [RtcOffset] the configured offset (src/src/config.rs), [Ds1687] the clock
      of the O2 (src/src/dev/ds1687.rs), [Ds1x86] the clock and NVRAM of the
      Indy (src/src/dev/ds1x86.rs, src/src/nv_storage.rs); [Ds1687Claims],
      [Ds1x86Claims] and [RtcClaims] have the theorems;
    - the boot flash of the O2 (src/src/dev/sflash.rs): [SFlash] and
      [SFlashClaims];
    - snapshots: their scalars (src/src/snapshot.rs) are [Snapshot], the store
      of memory images (src/src/chunk_store.rs) is [ChunkStore], with
      [ChunkClaims].

    A module named here has a file of its own, except that [CpuSegments] is in
    CpuPages.v, [CacheClean] in CacheFetch.v, [CacheOps] in CacheClaims.v,
    [FragProofs] in NetClaims.v, [Ds1687Claims] and [Ds1x86Claims] in
    RtcClaims.v, and [CpuTimerProofs], [EepromProofs], [DevMapProofs],
    [PpMemProofs] and [Ip22MemProofs] are in the files of their theorems.

    ** How code becomes definitions

    A Rust struct is a record with the same fields, an enum an inductive type,
    a method a function that returns the new state.  A machine integer is a
    [Z] in its range, wrapped where the source wraps.  An index out of bounds,
    a failed [unwrap] or another panic is [None]; an [io::Result] is a value of
    a result type.  The interpreter's methods are computations in a state
    monad ([CpuExec.M]); its TLB, cache and bus, traits in the source, are
    type classes ([TlbOps], [MemOps], [BusOps]) with laws ([TlbLaws],
    [MemLaws], [BusLaws]), which the modelled TLB, the pass-through cache, the
    write-back caches and a RAM discharge.  The arrays of a cache are maps from
    the index to the element, an absent element being the one the constructor
    puts there.  Threads are steps of a relation, one per critical
    section, so a run is any interleaving of them ([HpTimer.hp_step],
    [CpuTimer]); where the code synchronises by atomics alone a step is one
    access ([GFifoSpec.step]), in sequentially consistent order.  The host's
    clock, its files and the iteration order of its hash sets are arguments.

    ** What the theorems show

    - Types and invariants: the executor over the real caches keeps every
      value in its width; every state of the CPU reachable by steps and interrupts has
      its registers in their width, its cached translations backed by the TLB
      and its mode-dependent functions in step with Status; the TLB's shadows,
      lists and page map agree with its entries; the timer arena never loses a
      callback or reuses a live slot.
    - Refinement and equivalence: the TLB with its accelerators answers as a
      scan of the architectural entries; the micro- and nano-TLB answer as the
      slow path; the EEPROM's pin machine executes the chip's command set; a
      disk with an overlay is an array of bytes through any sequence of
      requests, commits, rollbacks and restarts, and the SCSI disk over it
      answers its block commands as that array; the two-level caches of the
      R4400 and the R10000 over a memory are that memory, through any sequence
      of loads, stores, fetches and CACHE operations that preserve data, and
      cleaning them brings the memory up to date; the register FIFO is
      linearizable, a broadcast queue with all-or-nothing pushes; the decoded tags answer
      Index_Load_Tag as the TagLo words of the architecture do; the boot flash
      executes its command set on an array whose bits programming only clears;
      the three calendars of the clocks are the Gregorian one; the sparse decode
      table is a table of one device per 4 KB, whatever host calls fail; a RAM
      bank is an array of bytes, most significant first.
    - Memory placement: after any writes to the MEMCFG registers the table holds
      the banks where they say and nowhere else, the bitmap of the fast path is
      set for exactly the regions that banks fill, and the table and the window
      lead to the same byte of the same bank ([memory_paths_agree]) where a
      bank's base is a multiple of its mirror period.
    - Clocks: a clock set through its registers, as a driver does it, shows
      that time and runs on from it ([ds1687_set_runs], [ds1x86_set_runs]); the
      Indy's clock starts at the host's time with the offset ([ds1x86_seeded]).
    - Safety: code without access to coprocessor 0 changes no privileged state
      and reaches no address outside its segments; a write-protected EEPROM
      keeps its contents under any pin activity ([eeprom_protected]); a deadline is delivered once;
      a timer callback runs only for a live, expired timer; a random TLB write
      spares the wired entries; a TCP connection relays both streams in order,
      without gaps, acknowledging only what it holds, and closes only when both
      are complete.
    - Termination and liveness: a step of a well-formed machine has a result;
      the timer worker never sleeps past a timer it is not already due to run;
      a drained register FIFO is seen to be empty and has room.
    - Round trips: a TCP frame parses to the header and data it was built from,
      and a fragmented datagram is reassembled whatever the order of arrival;
      ERET returns from an exception; TLB, EEPROM and disk-overlay
      states survive being saved and loaded, and so do the NVRAM and the flash
      array through their files; a memory image saved as chunks is read back
      after any other saves, crashes and collections that know of it; the reply streams of the one-wire
      parts decode to their contents.
    - Behaviours of the code that differ from its documentation or its intent
      are theorems as well: the cache-attribute table installed in a fresh TLB
      ([set_cache_attrs_splits_vmap_and_scan]), the drift of Count under
      frequent reads ([frequent_reads_run_fast]), the worker put to sleep by a
      stale queue entry ([hp_stale_head_stalls]), the sidecar a commit leaves
      ([commit_leaves_stale_sidecar]), the data of a refused EEPROM write taken
      as commands ([refused_write_reparsed]), the TCP connection that a closed
      window stalls for good ([zero_window_stalls]), the R5000's caches that
      hide bus errors ([r5000_never_reports]), the disk that stores blocks of a
      selected length elsewhere than it reads them ([resized_disk_misplaces]),
      the WRITE BUFFER that stops the program ([short_write_buffer_panics]), the
      page length a CD-ROM drive gets wrong ([cdrom_pages_misframed]), the clock
      register that stops the program ([month_write_panics]) and those that
      set the clock back ([alarm_write_loses_time]) or a century off
      ([ds1687_field_write_forgets_century]), the file no collection of chunks
      removes ([orphan_survives_gc]), the bank that is two different bytes on the
      two paths ([unaligned_bank_paths_differ]), the banks of which half is
      shown ([synthesized_bank_is_half]), the device a bank displaces for good
      ([device_lost_under_bank]).

    ** Bounds and fuel

    Recursion that is not structural carries fuel, and each is enough: the
    recency-list scan has one step per entry ([SCAN_FUEL]; on a well-formed
    TLB the list is a path, so it ends), the one-wire replies one step per
    page of the largest part ([PAGES_FUEL], [STATUS_FUEL]), the allocation scan
    of a disk one step per sector of the request and two more
    ([BlockNode.run_end]), the checksum's fold three turns ([Packet.fold_loop]),
    the option scan one step per byte ([Packet.mss_loop]), the loop that fills
    a TCP window two turns per frame of the budget ([TcpConn.fill_fuel]; that it
    always ends is part of [TcpClaims.tcp_relays_in_order]), the search for a year
    one step per 365 days and one more ([Ds1x86.year_loop]), the loop over a
    memory bank one turn per word, each turn taking at least one
    ([ChunkStore.put_loop]), the loops over the decode table one turn per page
    and two more ([DevMap.turns]), the placing of a mirrored bank one turn per
    period and one more ([PpMem.place]), the cover of a region one turn per
    mapping and one more ([PpMem.covered_to], exact by
    [PpWindowClaims.covered_to_spec]), the plan of a remap one turn per slot
    ([Ip22Mem.apply_plan]).  The spinning loops
    of the register FIFO are unrolled by any number of turns, an argument of
    the call; its theorems hold for every number.  A WAIT instruction loops as long as the host shows
    it no interrupt: its fuel is the list of what the host was seen to do, and
    the theorem that a step returns covers every modelled instruction but WAIT.  The timer manager's theorems hold for the first 2^32
    additions, after which a slot's generation can repeat.

    ** Not modelled

    Host I/O errors, other than a missing or short file and the failing calls
    of the decode table.  Of the caches, the builds with transparent caching (tcache), check bits
    (cache-ecc) or fused decode slots (opcodefusion), and that the two-way
    R5000 is transparent: the theorem is about the inclusive hierarchies.  The
    FPU's arithmetic (delegated to the host), the JIT, breakpoints, watchpoints and tracing of the CPU; CHD images, whose
    format is a third-party library's; the park-or-spin split of a timer wait;
    the host sockets and services behind the gateway, its address translation
    tables and the Ethernet controllers; the memory controllers but for MEMCFG,
    the dispatch of the bus to devices, the I/O controllers, the
    SCSI bus and its controllers, audio and graphics devices (of which only the
    register FIFO is modelled);
    the machine's wiring, configuration and user interface. *)

From Stdlib Require Export ZArith Lia.
From stdpp Require Export prelude gmap.
From stdpp Require Export list.

#[global] Open Scope Z_scope.

(** ** Machine integers

    Rust's fixed-width integers are modelled as [Z] in [0, 2^w); every
    operation that can leave that range wraps explicitly. *)

Definition wrap (w x : Z) : Z := x mod 2 ^ w.

Definition u8 (x : Z) : Z := wrap 8 x.
Definition u16 (x : Z) : Z := wrap 16 x.
Definition u32 (x : Z) : Z := wrap 32 x.
Definition u64 (x : Z) : Z := wrap 64 x.

(** Two's-complement reading of the low [w] bits ([as i16], [as i32], ...). *)
Definition signed (w x : Z) : Z :=
  let m := wrap w x in if m <? 2 ^ (w - 1) then m else m - 2 ^ w.

Definition i8 (x : Z) : Z := signed 8 x.
Definition i16 (x : Z) : Z := signed 16 x.
Definition i32 (x : Z) : Z := signed 32 x.
Definition i64 (x : Z) : Z := signed 64 x.

(** Rust's [!x] at width [w]. *)
Definition bnot (w x : Z) : Z := Z.land (Z.lnot x) (Z.ones w).

(** Rust's [x << n] at width [w]: the bits shifted out are lost. *)
Definition shl (w x n : Z) : Z := wrap w (Z.shiftl x n).

(** [b as u8] and the like. *)
Definition bool_to_Z (b : bool) : Z := if b then 1 else 0.

(** [(x & m) != 0] *)
Definition has (x m : Z) : bool := negb (Z.land x m =? 0).

(** The value fits in [w] unsigned bits. *)
Definition fits (w x : Z) : Prop := 0 <= x < 2 ^ w.

#[global] Instance fits_dec w x : Decision (fits w x).
Proof. unfold fits. apply _. Defined.

Declare Scope word_scope.
Delimit Scope word_scope with word.
Notation "x '.&' y" := (Z.land x y) (at level 40, left associativity) : word_scope.
Notation "x '.|' y" := (Z.lor x y) (at level 50, left associativity) : word_scope.
Notation "x '.^' y" := (Z.lxor x y) (at level 50, left associativity) : word_scope.
Notation "x '.>>' n" := (Z.shiftr x n) (at level 39, left associativity) : word_scope.
Notation "x '.<<' n" := (Z.shiftl x n) (at level 39, left associativity) : word_scope.
#[global] Open Scope word_scope.

(** ** Range lemmas *)

Create HintDb word discriminated.

Lemma wrap_fits w x : 0 <= w -> fits w (wrap w x).
Proof. intros. unfold fits, wrap. apply Z.mod_pos_bound. lia. Qed.

Lemma wrap_small w x : fits w x -> wrap w x = x.
Proof. intros. apply Z.mod_small. assumption. Qed.

Lemma wrap_idemp w x : 0 <= w -> wrap w (wrap w x) = wrap w x.
Proof. intros. apply wrap_small, wrap_fits. assumption. Qed.

Lemma fits_mono w w' x : fits w x -> w <= w' -> fits w' x.
Proof.
  intros [? ?] ?. split; [assumption|].
  destruct (Z.lt_ge_cases w 0).
  - rewrite Z.pow_neg_r in * by lia. lia.
  - pose proof (Z.pow_le_mono_r 2 w w'). lia.
Qed.

Lemma fits_testbit w x i : fits w x -> w <= i -> 0 <= w -> Z.testbit x i = false.
Proof.
  intros [? ?] ? ?. destruct (Z.eq_dec x 0) as [->|]; [apply Z.testbit_0_l|].
  apply Z.bits_above_log2; [assumption|].
  pose proof (Z.log2_lt_pow2 x w). lia.
Qed.

Lemma testbit_fits w x :
  0 <= w -> 0 <= x -> (forall i, w <= i -> Z.testbit x i = false) -> fits w x.
Proof.
  intros Hw Hx Hi. split; [assumption|].
  replace x with (wrap w x); [apply Z.mod_pos_bound; lia|].
  unfold wrap. rewrite <- Z.land_ones by assumption.
  apply Z.bits_inj'. intros n Hn. rewrite Z.land_spec.
  destruct (Z.lt_ge_cases n w).
  - rewrite Z.ones_spec_low by lia. apply andb_true_r.
  - rewrite Hi by assumption. reflexivity.
Qed.

Lemma land_fits_l w x y : 0 <= w -> fits w x -> fits w (Z.land x y).
Proof.
  intros Hw Hx. apply testbit_fits; [assumption|apply Z.land_nonneg; left; apply Hx|].
  intros. rewrite Z.land_spec, (fits_testbit w x) by assumption. reflexivity.
Qed.

Lemma land_fits_r w x y : 0 <= w -> fits w y -> fits w (Z.land x y).
Proof. intros. rewrite Z.land_comm. apply land_fits_l; assumption. Qed.

Lemma lor_fits w x y : 0 <= w -> fits w x -> fits w y -> fits w (Z.lor x y).
Proof.
  intros Hw Hx Hy. apply testbit_fits; [assumption|apply Z.lor_nonneg; split; [apply Hx|apply Hy]|].
  intros. rewrite Z.lor_spec, (fits_testbit w x), (fits_testbit w y) by assumption. reflexivity.
Qed.

Lemma lxor_fits w x y : 0 <= w -> fits w x -> fits w y -> fits w (Z.lxor x y).
Proof.
  intros Hw Hx Hy. apply testbit_fits; [assumption|apply Z.lxor_nonneg; split; intros _; [apply Hy|apply Hx]|].
  intros. rewrite Z.lxor_spec, (fits_testbit w x), (fits_testbit w y) by assumption. reflexivity.
Qed.

Lemma shiftr_fits w x n : 0 <= n -> fits w x -> fits w (Z.shiftr x n).
Proof.
  intros Hn [Hx Hx']. split; [apply Z.shiftr_nonneg; assumption|].
  rewrite Z.shiftr_div_pow2 by assumption.
  pose proof (Z.pow_pos_nonneg 2 n). pose proof (Z.div_le_upper_bound x (2 ^ n) x). nia.
Qed.

Lemma bnot_fits w x : 0 <= w -> fits w (bnot w x).
Proof.
  intros. unfold bnot. rewrite Z.land_ones by assumption.
  apply Z.mod_pos_bound. lia.
Qed.

#[export] Hint Resolve wrap_fits wrap_small fits_mono land_fits_l land_fits_r lor_fits
  shiftr_fits bnot_fits : word.

(** ** Bits *)

Lemma u32_sub a b : u32 (u32 a - u32 b) = u32 (a - b).
Proof. unfold u32, wrap. rewrite Zminus_mod_idemp_l, Zminus_mod_idemp_r. done. Qed.

Lemma u32_add_l a b : u32 (u32 a + b) = u32 (a + b).
Proof. unfold u32, wrap. by rewrite Zplus_mod_idemp_l. Qed.

Lemma u32_add_r a b : u32 (a + u32 b) = u32 (a + b).
Proof. unfold u32, wrap. by rewrite Zplus_mod_idemp_r. Qed.

Lemma wrap_testbit w x i :
  0 <= w -> Z.testbit (wrap w x) i = (i <? w) && Z.testbit x i.
Proof.
  intros Hw. unfold wrap. destruct (Z.ltb_spec i w) as [Hi|Hi]; simpl.
  - apply Z.mod_pow2_bits_low. assumption.
  - apply Z.mod_pow2_bits_high. lia.
Qed.

Lemma ones_testbit w i : 0 <= w -> 0 <= i -> Z.testbit (Z.ones w) i = (i <? w).
Proof.
  intros. destruct (Z.ltb_spec i w).
  - apply Z.ones_spec_low. lia.
  - apply Z.ones_spec_high. lia.
Qed.

Lemma shiftl_testbit x n i :
  0 <= i -> 0 <= n -> Z.testbit (Z.shiftl x n) i = (n <=? i) && Z.testbit x (i - n).
Proof.
  intros. rewrite Z.shiftl_spec by assumption. destruct (Z.leb_spec n i); [reflexivity|].
  apply Z.testbit_neg_r. lia.
Qed.

Lemma pow2_testbit k i : 0 <= k -> Z.testbit (2 ^ k) i = (k =? i).
Proof. intros. apply Z.pow2_bits_eqb. assumption. Qed.

(** Testing a single-bit mask is testing the bit. *)
Lemma has_pow2 x i : 0 <= i -> has x (2 ^ i) = Z.testbit x i.
Proof.
  intros Hi. unfold has. destruct (Z.testbit x i) eqn:E.
  - apply negb_true_iff, Z.eqb_neq. intros H0.
    assert (Z.testbit (x .& 2 ^ i) i = true) as H1
      by (rewrite Z.land_spec, E, pow2_testbit by lia; simpl; apply Z.eqb_refl).
    by rewrite H0, Z.testbit_0_l in H1.
  - apply negb_false_iff, Z.eqb_eq, Z.bits_inj'. intros j Hj.
    rewrite Z.land_spec, pow2_testbit, Z.testbit_0_l by lia.
    destruct (Z.eqb_spec i j) as [<-|]; [by rewrite E|apply andb_false_r].
Qed.

(** Joining a block-aligned base with an offset inside the block. *)
Lemma lor_block q b r : 0 <= b -> fits b r -> Z.lor (q * 2 ^ b) r = q * 2 ^ b + r.
Proof.
  intros Hb Hr.
  assert (Hl : Z.land (q * 2 ^ b) r = 0).
  { rewrite <- Z.shiftl_mul_pow2 by assumption. apply Z.bits_inj'. intros i Hi.
    rewrite Z.land_spec, Z.testbit_0_l, shiftl_testbit by lia.
    destruct (Z.leb_spec b i); simpl; [|reflexivity].
    rewrite (fits_testbit b r) by (done || lia). apply andb_false_r. }
  rewrite <- Z.lxor_lor by exact Hl. symmetry. apply Z.add_nocarry_lxor. exact Hl.
Qed.

(** [zbits] proves an equality of [Z] bit by bit: it pushes [Z.testbit] to
    the leaves (each instance whose side conditions hold), splits on every
    comparison of positions and closes the boolean residue. *)
Ltac zbits_rewrite :=
  repeat match goal with
  | |- context [Z.testbit (Z.land ?a ?b) ?i] => rewrite (Z.land_spec a b i)
  | |- context [Z.testbit (Z.lor ?a ?b) ?i] => rewrite (Z.lor_spec a b i)
  | |- context [Z.testbit (Z.lxor ?a ?b) ?i] => rewrite (Z.lxor_spec a b i)
  | |- context [Z.testbit (Z.ldiff ?a ?b) ?i] => rewrite (Z.ldiff_spec a b i)
  | |- context [Z.testbit 0 ?i] => rewrite (Z.testbit_0_l i)
  | |- context [Z.testbit ?a ?i] => rewrite (Z.testbit_neg_r a i) by lia
  | |- context [Z.testbit (wrap ?w ?a) ?i] => rewrite (wrap_testbit w a i) by lia
  | |- context [Z.testbit (Z.ones ?w) ?i] => rewrite (ones_testbit w i) by lia
  | |- context [Z.testbit (Z.lnot ?a) ?i] => rewrite (Z.lnot_spec a i) by lia
  | |- context [Z.testbit (Z.shiftl ?a ?n) ?i] => rewrite (shiftl_testbit a n i) by lia
  | |- context [Z.testbit (Z.shiftr ?a ?n) ?i] => rewrite (Z.shiftr_spec a n i) by lia
  | |- context [Z.testbit (2 ^ ?k) ?i] => rewrite (pow2_testbit k i) by lia
  end.

Ltac zbits_split :=
  repeat match goal with
  | |- context [?a <? ?b] => destruct (Z.ltb_spec a b); try lia
  | |- context [?a <=? ?b] => destruct (Z.leb_spec a b); try lia
  | |- context [?a =? ?b] => destruct (Z.eqb_spec a b); try lia
  end.

Ltac zbits_finish :=
  simpl; rewrite ?andb_true_r, ?andb_false_r, ?orb_false_r, ?orb_true_r;
  try reflexivity; try lia; try (f_equal; lia).

(** Some positions are only known to be non-negative after a split, so pushing
    and splitting alternate. *)
Ltac zbits_push := do 3 (zbits_rewrite; zbits_split).

Ltac zbits := apply Z.bits_inj'; intros ?i ?Hi; zbits_push; zbits_finish.

(** ** Signed readings *)

Lemma signed_range w x : 0 < w -> - 2 ^ (w - 1) <= signed w x < 2 ^ (w - 1).
Proof.
  intros Hw. unfold signed. pose proof (wrap_fits w x ltac:(lia)) as [? ?].
  assert (2 ^ w = 2 * 2 ^ (w - 1)) by (rewrite <- Z.pow_succ_r by lia; f_equal; lia).
  destruct (Z.ltb_spec (wrap w x) (2 ^ (w - 1))); lia.
Qed.

Lemma signed_congr w x : 0 <= w -> wrap w (signed w x) = wrap w x.
Proof.
  intros. unfold signed. case_match; [apply wrap_idemp; assumption|].
  unfold wrap. rewrite Zminus_mod, Z_mod_same_full, Z.sub_0_r.
  rewrite !Zmod_mod. reflexivity.
Qed.

(** ** Options and lists *)

(** Array read: [None] is Rust's out-of-bounds panic. *)
Definition aget {A} (l : list A) (i : Z) : option A :=
  if 0 <=? i then l !! Z.to_nat i else None.

(** Array write: [None] is the panic. *)
Definition aset {A} (l : list A) (i : Z) (x : A) : option (list A) :=
  if (0 <=? i) && (i <? Z.of_nat (length l)) then Some (<[Z.to_nat i := x]> l) else None.

Lemma aget_Some {A} (l : list A) i :
  0 <= i < Z.of_nat (length l) -> exists x, aget l i = Some x.
Proof.
  intros [? ?]. unfold aget. rewrite (proj2 (Z.leb_le 0 i)) by assumption.
  destruct (lookup_lt_is_Some_2 l (Z.to_nat i)) as [x Hx]; [lia|]. eauto.
Qed.

Lemma aget_inv {A} (l : list A) i x :
  aget l i = Some x -> 0 <= i < Z.of_nat (length l) /\ l !! Z.to_nat i = Some x.
Proof.
  unfold aget. destruct (Z.leb_spec 0 i); [|discriminate]. intros Hx. split; [|assumption].
  apply lookup_lt_Some in Hx. lia.
Qed.

Lemma aset_Some {A} (l : list A) i x :
  0 <= i < Z.of_nat (length l) -> aset l i x = Some (<[Z.to_nat i := x]> l).
Proof.
  intros [? ?]. unfold aset.
  rewrite (proj2 (Z.leb_le 0 i)), (proj2 (Z.ltb_lt i (Z.of_nat (length l)))) by assumption.
  reflexivity.
Qed.

Lemma aset_inv {A} (l l' : list A) i x :
  aset l i x = Some l' ->
  0 <= i < Z.of_nat (length l) /\ l' = <[Z.to_nat i := x]> l.
Proof.
  unfold aset. destruct (Z.leb_spec 0 i); [|discriminate].
  destruct (Z.ltb_spec i (Z.of_nat (length l))); [|discriminate].
  simpl. intros [= <-]. auto.
Qed.

Lemma aget_aset_eq {A} (l l' : list A) i x :
  aset l i x = Some l' -> aget l' i = Some x.
Proof.
  intros [Hi ->]%aset_inv. unfold aget. rewrite (proj2 (Z.leb_le 0 i)) by lia.
  apply list_lookup_insert_eq. lia.
Qed.

Lemma aget_aset_ne {A} (l l' : list A) i j x :
  aset l i x = Some l' -> i <> j -> aget l' j = aget l j.
Proof.
  intros [Hi ->]%aset_inv Hne. unfold aget. destruct (Z.leb_spec 0 j); [|reflexivity].
  apply list_lookup_insert_ne. lia.
Qed.

Lemma aget_insert {A} (l : list A) i j x y :
  aget l i = Some y -> aget (<[Z.to_nat i := x]> l) j = if decide (j = i) then Some x else aget l j.
Proof.
  intros [Hi _]%aget_inv. unfold aget. destruct (Z.leb_spec 0 j) as [Hj|Hj].
  - case_decide as Hji; [subst; apply list_lookup_insert_eq; lia|]. apply list_lookup_insert_ne. lia.
  - rewrite decide_False by lia. reflexivity.
Qed.

Lemma aget_app_one {A} (l : list A) i x :
  aget (l ++ [x]) i = if decide (i = Z.of_nat (length l)) then Some x else aget l i.
Proof.
  unfold aget. destruct (Z.leb_spec 0 i) as [Hi|Hi]; [|by rewrite decide_False by lia].
  case_decide as Hd.
  - subst. rewrite Nat2Z.id. rewrite lookup_app_r by lia. by rewrite Nat.sub_diag.
  - destruct (Nat.lt_ge_cases (Z.to_nat i) (length l)); [by rewrite lookup_app_l by lia|].
    rewrite !lookup_ge_None_2; [done|lia|rewrite length_app; cbn; lia].
Qed.

(** ** Integer ranges *)

Lemma seqZ_snoc m n : 0 <= n -> seqZ m (n + 1) = seqZ m n ++ [m + n].
Proof. intros. rewrite seqZ_app by lia. done. Qed.

(** ** Record update

    [r <| field := v |>] and [r <| field ::= f |>].  A record gives its eta
    expansion once ([Settable]); the setter of a field is that expansion with
    the field's projection replaced. *)

Class Settable (R : Type) := eta_of : R -> R.

Class Setter {R E : Type} (getter : R -> E) := set_field : (E -> E) -> R -> R.
Arguments set_field {R E} getter {_} f r /.

Ltac find_setter getter :=
  match type of getter with
  | ?R -> _ =>
      let eta_inst_ := constr:(_ : Settable R) in
      let eta_body_ := eval cbv beta delta [eta_of] in eta_inst_ in
      let eta_body_ := eval hnf in eta_body_ in
      match eval pattern getter in eta_body_ with
      | ?g _ => let setter_ := eval cbv beta in (fun f => g (fun r => f (getter r))) in exact setter_
      end
  end.

#[global] Hint Extern 1 (@Setter _ _ ?getter) => find_setter getter : typeclass_instances.

Notation "x <| proj ::= f |>" := (set_field proj f x)
  (at level 8, f at level 99, left associativity, format "x <| proj  ::=  f |>").
Notation "x <| proj := v |>" := (set_field proj (fun _ => v) x)
  (at level 8, v at level 99, left associativity, format "x <| proj  :=  v |>").
