(* ===== verification/Snapshot.v ===== *)
(** * Snapshot scalars: hex strings in TOML values

    The helpers of src/src/snapshot.rs every device's [save_state] and
    [load_state] go through: integers are written as fixed-width hexadecimal
    strings, slices as arrays of them, and read back leniently (a missing or
    unreadable element leaves the destination as it was).

    [Value] is the data type of the [toml] crate's values, with the variants
    the helpers distinguish; Rust strings are lists of characters. *)

From Stdlib Require Import Ascii String.
From S2P Require Import Prelude.

Module Snapshot.

#[warnings="-register-all"]
Inductive Value : Type :=
| VString (s : list ascii)
| VInteger (i : Z)
| VFloat
| VBoolean (b : bool)
| VDatetime
| VArray (l : list Value)
| VTable (l : list (list ascii * Value)).

(** ** Formatting *)

(** The lower-case hexadecimal digit of a nibble. *)
Definition hex_digit (d : Z) : ascii :=
  ascii_of_nat (Z.to_nat (if d <? 10 then 48 + d else 87 + d)).

(** The low [n] hexadecimal digits of [v], most significant first: what
    [format!("{:0nx}", v)] prints for a [v] below 16^n. *)
Fixpoint hex_digits (n : nat) (v : Z) : list ascii :=
  match n with
  | O => []
  | S n' => hex_digits n' (v .>> 4) ++ [hex_digit (v .& 15)]
  end.

Definition zero_x : list ascii := ["0"%char; "x"%char].

Definition hex_u64 (v : Z) : Value := VString (zero_x ++ hex_digits 16 v).
Definition hex_u32 (v : Z) : Value := VString (zero_x ++ hex_digits 8 v).
Definition hex_u16 (v : Z) : Value := VString (zero_x ++ hex_digits 4 v).
Definition hex_u8 (v : Z) : Value := VString (zero_x ++ hex_digits 2 v).

Definition u64_slice_to_toml (slice : list Z) : Value := VArray (map hex_u64 slice).
Definition u32_slice_to_toml (slice : list Z) : Value := VArray (map hex_u32 slice).
Definition u16_slice_to_toml (slice : list Z) : Value := VArray (map hex_u16 slice).
Definition u8_slice_to_toml (slice : list Z) : Value := VArray (map hex_u8 slice).

(** ** Parsing *)

(** [char::to_digit(16)] *)
Definition to_digit (c : ascii) : option Z :=
  let n := Z.of_nat (nat_of_ascii c) in
  if (48 <=? n) && (n <=? 57) then Some (n - 48)
  else if (97 <=? n) && (n <=? 102) then Some (n - 87)
  else if (65 <=? n) && (n <=? 70) then Some (n - 55)
  else None.

(** The digit loop of [u64::from_str_radix(_, 16)]: checked multiply and add. *)
Fixpoint parse_digits (acc : Z) (s : list ascii) : option Z :=
  match s with
  | [] => Some acc
  | c :: s' =>
      d ← to_digit c;
      let a := acc * 16 + d in
      if a <? 2 ^ 64 then parse_digits a s' else None
  end.

(** [u64::from_str_radix(s, 16).ok()]: an empty string and a lone sign are
    errors, a leading [+] is accepted. *)
Definition from_str_radix16 (s : list ascii) : option Z :=
  match s with
  | [] => None
  | ["+"%char] => None
  | "+"%char :: s' => parse_digits 0 s'
  | s => parse_digits 0 s
  end.

(** [s.trim_start_matches("0x")] strips the prefix as often as it repeats. *)
Fixpoint trim_0x (s : list ascii) : list ascii :=
  match s with
  | "0"%char :: "x"%char :: s' => trim_0x s'
  | s => s
  end.

Definition toml_u64 (v : Value) : option Z :=
  match v with
  | VString s => from_str_radix16 (trim_0x s)
  | VInteger i => Some (u64 i)
  | _ => None
  end.

Definition toml_u32 (v : Value) : option Z :=
  match v with
  | VString s => u32 <$> from_str_radix16 (trim_0x s)
  | VInteger i => Some (u32 i)
  | _ => None
  end.

Definition toml_u16 (v : Value) : option Z :=
  match v with
  | VString s => u16 <$> from_str_radix16 (trim_0x s)
  | VInteger i => Some (u16 i)
  | _ => None
  end.

Definition toml_u8 (v : Value) : option Z :=
  match v with
  | VString s => u8 <$> from_str_radix16 (trim_0x s)
  | VInteger i => Some (u8 i)
  | _ => None
  end.

Definition toml_bool (v : Value) : option bool :=
  match v with VBoolean b => Some b | _ => None end.

(** The loop shared by the [load_*_slice] functions: element [i] of the array
    replaces [dst[i]] when it parses; elements past the end of [dst] are
    dropped and missing ones leave [dst] alone. *)
Fixpoint load_items (parse : Value -> option Z) (arr : list Value) (dst : list Z) : list Z :=
  match arr, dst with
  | item :: arr', d :: dst' => default d (parse item) :: load_items parse arr' dst'
  | _, _ => dst
  end.

Definition load_slice (parse : Value -> option Z) (v : Value) (dst : list Z) : list Z :=
  match v with VArray arr => load_items parse arr dst | _ => dst end.

Definition load_u64_slice : Value -> list Z -> list Z := load_slice toml_u64.
Definition load_u32_slice : Value -> list Z -> list Z := load_slice toml_u32.
Definition load_u16_slice : Value -> list Z -> list Z := load_slice toml_u16.
Definition load_u8_slice : Value -> list Z -> list Z := load_slice toml_u8.

(** First field of a table with the given key. *)
Definition get_field (table : Value) (key : list ascii) : option Value :=
  match table with
  | VTable l => snd <$> find (fun kv => bool_decide (fst kv = key)) l
  | _ => None
  end.

(** ** Round trips *)

Lemma to_digit_hex_digit d : 0 <= d < 16 -> to_digit (hex_digit d) = Some d.
Proof.
  intros Hd. rewrite <- (Z2Nat.id d) by lia.
  assert (Hn : (Z.to_nat d < 16)%nat) by lia. clear Hd. revert Hn.
  generalize (Z.to_nat d) as n. intros n Hn.
  do 16 (destruct n as [|n]; [reflexivity|]). lia.
Qed.

Lemma hex_digits_length n v : length (hex_digits n v) = n.
Proof.
  revert v. induction n as [|n IH]; intros v; simpl; [reflexivity|].
  rewrite length_app, IH. simpl. lia.
Qed.

Lemma hex_digits_ne_x n v c : c ∈ hex_digits n v -> c <> "x"%char /\ c <> "+"%char.
Proof.
  revert v. induction n as [|n IH]; intros v; simpl; [set_solver|].
  rewrite elem_of_app. intros [Hc|Hc]; [eauto|].
  apply list_elem_of_singleton in Hc. subst c.
  pose proof (Z.land_ones v 4 ltac:(lia)) as Hl. change (Z.ones 4) with 15 in Hl.
  pose proof (Z.mod_pos_bound v (2 ^ 4) ltac:(lia)).
  pose proof (to_digit_hex_digit (v .& 15) ltac:(lia)) as Hd.
  split; intros Heq; rewrite Heq in Hd; discriminate.
Qed.

Lemma trim_0x_hex s : Forall (fun c => c <> "x"%char) s -> trim_0x (zero_x ++ s) = s.
Proof.
  intros Hs. simpl. destruct s as [|a [|b s]]; try reflexivity.
  - destruct a as [[] [] [] [] [] [] [] []]; reflexivity.
  - inversion Hs as [|? ? _ Hs']; subst. inversion Hs' as [|? ? Hb _]; subst.
    destruct a as [[] [] [] [] [] [] [] []]; try reflexivity.
    destruct b as [[] [] [] [] [] [] [] []]; try reflexivity.
    exfalso. apply Hb. reflexivity.
Qed.

Lemma parse_digits_app acc s1 s2 :
  parse_digits acc (s1 ++ s2) = a ← parse_digits acc s1; parse_digits a s2.
Proof.
  revert acc. induction s1 as [|c s1 IH]; intros acc; simpl; [reflexivity|].
  destruct (to_digit c); simpl; [|reflexivity]. case_match; [apply IH|reflexivity].
Qed.

(** Printing [n] digits and parsing them back appends their value to the
    accumulator. *)
Lemma parse_hex_digits n acc v :
  0 <= acc -> fits (4 * Z.of_nat n) v -> acc * 16 ^ Z.of_nat n + v < 2 ^ 64 ->
  parse_digits acc (hex_digits n v) = Some (acc * 16 ^ Z.of_nat n + v).
Proof.
  revert acc v. induction n as [|n IH]; intros acc v Hacc Hv Hlt.
  - unfold fits in Hv. simpl in *. f_equal. lia.
  - destruct Hv as [Hv0 Hv1].
    replace (4 * Z.of_nat (S n)) with (Z.succ (Z.succ (Z.succ (Z.succ (4 * Z.of_nat n))))) in Hv1 by lia.
    rewrite !Z.pow_succ_r in Hv1 by lia.
    rewrite Nat2Z.inj_succ, Z.pow_succ_r in Hlt by lia.
    assert (Hsh : v .>> 4 = v / 16) by (rewrite Z.shiftr_div_pow2 by lia; reflexivity).
    assert (Hla : v .& 15 = v mod 16).
    { change 15 with (Z.ones 4). rewrite Z.land_ones by lia. reflexivity. }
    pose proof (Z.div_mod v 16 ltac:(lia)) as Hdm. pose proof (Z.mod_pos_bound v 16 ltac:(lia)) as Hmb.
    assert (0 <= v / 16) by (apply Z.div_pos; lia).
    pose proof (Z.pow_pos_nonneg 16 (Z.of_nat n) ltac:(lia) ltac:(lia)) as Hp16.
    set (p := 16 ^ Z.of_nat n) in *.
    simpl hex_digits. rewrite parse_digits_app, Hsh, Hla.
    rewrite IH; [|assumption|split; [assumption|apply Z.div_lt_upper_bound; lia]|fold p; nia].
    fold p. simpl. rewrite to_digit_hex_digit by lia. simpl.
    rewrite Nat2Z.inj_succ, Z.pow_succ_r by lia. fold p.
    replace ((acc * p + v / 16) * 16 + v mod 16) with (acc * (16 * p) + v) by lia.
    change 18446744073709551616 with (2 ^ 64).
    rewrite (proj2 (Z.ltb_lt _ _)) by lia. reflexivity.
Qed.

Lemma from_str_radix16_hex n v :
  (0 < n <= 16)%nat -> fits (4 * Z.of_nat n) v ->
  from_str_radix16 (trim_0x (zero_x ++ hex_digits n v)) = Some v.
Proof.
  intros Hn Hv. rewrite trim_0x_hex.
  2:{ apply Forall_forall. intros c Hc. eapply hex_digits_ne_x, Hc. }
  pose proof (hex_digits_length n v) as Hlen. pose proof (hex_digits_ne_x n v) as Hne.
  assert (Hp : parse_digits 0 (hex_digits n v) = Some v).
  { rewrite parse_hex_digits; [f_equal; lia|lia|assumption|].
    pose proof (fits_mono _ 64 _ Hv ltac:(lia)) as [? ?]. lia. }
  destruct (hex_digits n v) as [|c s]; [simpl in Hlen; lia|].
  unfold from_str_radix16. rewrite <- Hp.
  destruct (Hne c (list_elem_of_here _ _)) as [_ Hc].
  destruct c as [[] [] [] [] [] [] [] []]; try reflexivity. exfalso. apply Hc. reflexivity.
Qed.

Lemma toml_hex_u64 v : fits 64 v -> toml_u64 (hex_u64 v) = Some v.
Proof. intros. apply (from_str_radix16_hex 16); [lia|assumption]. Qed.

Lemma toml_hex_narrow (n : nat) (w : Z) v :
  (0 < n <= 16)%nat -> w = 4 * Z.of_nat n -> fits w v ->
  wrap w <$> from_str_radix16 (trim_0x (zero_x ++ hex_digits n v)) = Some v.
Proof.
  intros Hn -> Hv. rewrite from_str_radix16_hex by assumption. simpl.
  by rewrite wrap_small.
Qed.

Lemma toml_hex_u32 v : fits 32 v -> toml_u32 (hex_u32 v) = Some v.
Proof. intros. apply (toml_hex_narrow 8 32); [lia|reflexivity|assumption]. Qed.

Lemma toml_hex_u16 v : fits 16 v -> toml_u16 (hex_u16 v) = Some v.
Proof. intros. apply (toml_hex_narrow 4 16); [lia|reflexivity|assumption]. Qed.

Lemma toml_hex_u8 v : fits 8 v -> toml_u8 (hex_u8 v) = Some v.
Proof. intros. apply (toml_hex_narrow 2 8); [lia|reflexivity|assumption]. Qed.

(** Loading what was saved restores the slice, whatever the destination held;
    a longer destination keeps its tail. *)
Lemma load_items_map parse show slice dst :
  Forall (fun v => parse (show v) = Some v) slice ->
  (length slice <= length dst)%nat ->
  load_items parse (map show slice) dst = slice ++ drop (length slice) dst.
Proof.
  intros Hp. revert dst. induction Hp as [|v slice Hv Hs IH]; intros [|d dst] Hlen; simpl in *;
    try reflexivity; try lia.
  rewrite Hv. simpl. f_equal. apply IH. lia.
Qed.

Lemma load_items_length parse arr dst : length (load_items parse arr dst) = length dst.
Proof.
  revert dst. induction arr as [|a arr IH]; intros [|d dst]; simpl; try reflexivity.
  f_equal. apply IH.
Qed.

Lemma load_u64_slice_save slice dst :
  Forall (fits 64) slice -> length slice = length dst ->
  load_u64_slice (u64_slice_to_toml slice) dst = slice.
Proof.
  intros Hs Hl. simpl. rewrite load_items_map; [|eapply Forall_impl; [exact Hs|apply toml_hex_u64]|lia].
  rewrite drop_ge, app_nil_r by lia. reflexivity.
Qed.

Lemma load_u16_slice_save slice dst :
  Forall (fits 16) slice -> length slice = length dst ->
  load_u16_slice (u16_slice_to_toml slice) dst = slice.
Proof.
  intros Hs Hl. simpl. rewrite load_items_map; [|eapply Forall_impl; [exact Hs|apply toml_hex_u16]|lia].
  rewrite drop_ge, app_nil_r by lia. reflexivity.
Qed.

End Snapshot.
