(* ===== verification/Tlb.v ===== *)
(** * The joint TLB (src/src/cpu/mips_tlb.rs)

    The model of [MipsTlb]: the architectural entries, their pre-decoded
    shadows, the four MRU lists and the [vmap] array indexed by VA[31:13],
    with every operation of the [Tlb] trait that [MipsTlb] implements
    ([translate], [write], [read], [probe], [set_cache_attrs], [power_on],
    [save_state], [load_state]) and the [PassthroughTlb] used in tests.

    Conventions.  [u64]/[u8]/[usize] are [Z]; fixed-size arrays are lists; an
    array access out of range, which panics in Rust, is [None] in the option
    monad.  [vmap] has 2^19 bytes, so it is a finite map in which a slot that
    is absent holds [VMAP_MISS].  The MRU walk is the loop of the source with
    fuel [TLB_MAX_ENTRIES + 1]; a list the fuel does not cover is cyclic, and
    [None] then stands for the loop that does not terminate. *)

From S2P Require Import Prelude Snapshot.
Import Snapshot.

Module Tlb.

Definition TLB_NUM_ENTRIES : Z := 48.
Definition TLB_MAX_ENTRIES : Z := 64.

(** [CacheAttr], the meaning of an EntryLo C field. *)
Inductive CacheAttr := Uncached | Cacheable | CacheableCoherent.

#[global] Instance CacheAttr_eq_dec : EqDecision CacheAttr.
Proof. solve_decision. Defined.

Definition CacheAttr_code (a : CacheAttr) : Z :=
  match a with Uncached => 2 | Cacheable => 3 | CacheableCoherent => 5 end.

Inductive AccessType := Fetch | Read | Write | Debug.

#[global] Instance AccessType_eq_dec : EqDecision AccessType.
Proof. solve_decision. Defined.

Definition AccessType_index (a : AccessType) : Z :=
  match a with Fetch => 0 | Read => 1 | Write => 2 | Debug => 3 end.

(** A two-element array [ [T; 2] ] indexed by the even/odd selector. *)
Definition pick {A} (p : A * A) (idx : Z) : A := if idx =? 0 then fst p else snd p.

Record TlbEntry := mkTlbEntry {
  page_mask : Z;
  entry_hi : Z;
  entry_lo : Z * Z;
  selector_bit_shift : Z;
  vcmp32 : Z;
  vpn_hi32 : Z;
  vcmp64 : Z;
  vpn_hi64 : Z;
  offset_mask : Z;
  pfn_base : Z * Z;
}.

#[global] Instance TlbEntry_eq_dec : EqDecision TlbEntry.
Proof. solve_decision. Defined.

Definition VCMP32_MASK : Z := 0xFFFFE000.
Definition VCMP64_MASK : Z := 0xC00000FFFFFFE000.
Definition PFN_MASK : Z := 0xFFFFFFFFFF000.

Definition entry_new : TlbEntry := {|
  page_mask := 0; entry_hi := 0; entry_lo := (0, 0);
  selector_bit_shift := 12;
  vcmp32 := bnot 64 0x1FFF .& VCMP32_MASK; vpn_hi32 := 0;
  vcmp64 := bnot 64 0x1FFF .& VCMP64_MASK; vpn_hi64 := 0;
  offset_mask := 0xFFF; pfn_base := (0, 0) |}.

Definition is_valid_even (e : TlbEntry) : bool := has (fst (entry_lo e)) 0x2.
Definition is_valid_odd (e : TlbEntry) : bool := has (snd (entry_lo e)) 0x2.
Definition is_global (e : TlbEntry) : bool := has (entry_hi e) 0x1000.
Definition asid (e : TlbEntry) : Z := u8 (entry_hi e .& 0xFF).
Definition vpn2 (e : TlbEntry) : Z := (entry_hi e .>> 13) .& 0x7FFFFFF.
Definition region (e : TlbEntry) : Z := u8 ((entry_hi e .>> 62) .& 0x3).

Inductive TlbResult :=
| Hit (phys_addr : Z) (cache_attr : CacheAttr) (dirty global : bool)
| Miss (vpn2 : Z)
| Invalid (vpn2 : Z)
| Modified (vpn2 : Z).

#[global] Instance TlbResult_eq_dec : EqDecision TlbResult.
Proof. solve_decision. Defined.

Definition VMAP_SIZE : Z := 524288.
Definition VMAP_MISS : Z := 0xFF.
Definition VMAP_MULTI : Z := 0x80.
Definition VMAP_IDX_MASK : Z := 0x7F.
Definition MRU_NONE : Z := 0xFF.
Definition MRU_LISTS : Z := 4.

Definition DEFAULT_C_ATTR : list CacheAttr :=
  [Uncached; Uncached; Uncached; Cacheable; Uncached; CacheableCoherent; Uncached; Uncached].

Record ShadowEntry := mkShadow {
  s_vcmp32 : Z;
  s_vpn_hi32 : Z;
  s_vcmp64 : Z;
  s_vpn_hi64 : Z;
  s_pfn_base : Z * Z;
  s_offset_mask : Z;
  s_valid_dirty : Z * Z;
  s_cache_attr : CacheAttr * CacheAttr;
  s_asid : Z;
  s_global : bool;
  s_selector_bit_shift : Z;
}.

#[global] Instance ShadowEntry_eq_dec : EqDecision ShadowEntry.
Proof. solve_decision. Defined.

Definition shadow_invalid : ShadowEntry := {|
  s_vcmp32 := 0; s_vpn_hi32 := bnot 64 0; s_vcmp64 := 0; s_vpn_hi64 := bnot 64 0;
  s_pfn_base := (0, 0); s_offset_mask := 0xFFF; s_valid_dirty := (0, 0);
  s_cache_attr := (Uncached, Uncached); s_asid := 0; s_global := false;
  s_selector_bit_shift := 12 |}.

(** bit 0 = valid, bit 1 = dirty *)
Definition valid_dirty_of (lo : Z) : Z :=
  bool_to_Z (has lo 0x2) .| shl 8 (bool_to_Z (has lo 0x4)) 1.

(** [c_attr[(lo >> 3) & 7]]: the index is below 8, the table has 8 elements. *)
Definition decode_cache_attr (c_attr : list CacheAttr) (lo : Z) : option CacheAttr :=
  aget c_attr ((lo .>> 3) .& 0x7).

Definition from_entry (e : TlbEntry) (c_attr : list CacheAttr) : option ShadowEntry :=
  ca0 ← decode_cache_attr c_attr (fst (entry_lo e));
  ca1 ← decode_cache_attr c_attr (snd (entry_lo e));
  Some {|
    s_vcmp32 := vcmp32 e; s_vpn_hi32 := vpn_hi32 e;
    s_vcmp64 := vcmp64 e; s_vpn_hi64 := vpn_hi64 e;
    s_pfn_base := pfn_base e; s_offset_mask := offset_mask e;
    s_valid_dirty := (valid_dirty_of (fst (entry_lo e)), valid_dirty_of (snd (entry_lo e)));
    s_cache_attr := (ca0, ca1);
    s_asid := asid e; s_global := is_global e;
    s_selector_bit_shift := selector_bit_shift e |}.

Record MipsTlb := mkTlb {
  entries : list TlbEntry;
  shadow : list ShadowEntry;
  mru_head : list Z;
  mru_next : list (list Z);
  num_entries : Z;
  c_attr : list CacheAttr;
  vmap : gmap Z Z;
}.

Definition with_mru (t : MipsTlb) (h : list Z) (n : list (list Z)) : MipsTlb :=
  {| entries := entries t; shadow := shadow t; mru_head := h; mru_next := n;
     num_entries := num_entries t; c_attr := c_attr t; vmap := vmap t |}.

Definition with_vmap (t : MipsTlb) (v : gmap Z Z) : MipsTlb :=
  {| entries := entries t; shadow := shadow t; mru_head := mru_head t;
     mru_next := mru_next t; num_entries := num_entries t; c_attr := c_attr t; vmap := v |}.

Definition with_slot (t : MipsTlb) (es : list TlbEntry) (ss : list ShadowEntry) : MipsTlb :=
  {| entries := es; shadow := ss; mru_head := mru_head t; mru_next := mru_next t;
     num_entries := num_entries t; c_attr := c_attr t; vmap := vmap t |}.

(** ** MRU lists *)

(** The canonical list 0 -> 1 -> ... -> n-1; every other element of [tail] is
    what the array held before ([MRU_NONE] in a new TLB). *)
Definition mru_chain (n : Z) (old : list Z) : list Z :=
  imap (fun i x => if Z.of_nat i <? n - 1 then u8 (Z.of_nat i + 1)
                   else if Z.of_nat i =? n - 1 then MRU_NONE else x) old.

Definition mru_reset (t : MipsTlb) : MipsTlb :=
  with_mru t (replicate (Z.to_nat MRU_LISTS) 0) (mru_chain (num_entries t) <$> mru_next t).

(** The value [new] builds, its assertion passed. *)
Definition new_tlb (n : Z) : MipsTlb :=
  let none := replicate (Z.to_nat TLB_MAX_ENTRIES) MRU_NONE in
  {| entries := replicate (Z.to_nat TLB_MAX_ENTRIES) entry_new;
     shadow := replicate (Z.to_nat TLB_MAX_ENTRIES) shadow_invalid;
     mru_head := replicate (Z.to_nat MRU_LISTS) 0;
     mru_next := replicate (Z.to_nat MRU_LISTS) (mru_chain n none);
     num_entries := n;
     c_attr := DEFAULT_C_ATTR;
     vmap := ∅ |}.

Definition new (n : Z) : option MipsTlb :=
  if (1 <? n) && (n <=? TLB_MAX_ENTRIES) then Some (new_tlb n) else None.

(** Move [target] to the front of [list]; [prev] is its predecessor. *)
Definition mru_promote (t : MipsTlb) (list target prev : Z) : option MipsTlb :=
  if prev =? MRU_NONE then Some t
  else
    next ← aget (mru_next t) list;
    head ← aget (mru_head t) list;
    after ← aget next target;
    next1 ← aset next prev after;
    next2 ← aset next1 target head;
    nexts ← aset (mru_next t) list next2;
    heads ← aset (mru_head t) list target;
    Some (with_mru t heads nexts).

(** ** The vmap *)

Definition vget (m : gmap Z Z) (slot : Z) : Z := default VMAP_MISS (m !! slot).

(** [usize] arithmetic is 64-bit; [mask + 1] wraps only for an all-ones mask. *)
Definition vmap_range (e : TlbEntry) : Z * Z :=
  let mask := page_mask e .| 0x1FFF in
  let count := Z.max (u64 (mask + 1) .>> 13) 1 in
  let start := (u32 (entry_hi e) .>> 13) .& bnot 64 (count - 1) in
  (start, count).

Definition vmap_clear (m : gmap Z Z) (start count : Z) : gmap Z Z :=
  foldl (fun m i =>
    let slot := u64 (start + i) in
    if slot <? VMAP_SIZE then <[slot := VMAP_MISS]> m else m) m (seqZ 0 count).

Definition vmap_fill_range (m : gmap Z Z) (entry_idx start count : Z) : gmap Z Z :=
  let tag := u8 entry_idx in
  foldl (fun m i =>
    let slot := u64 (start + i) in
    if slot <? VMAP_SIZE then
      <[slot := if vget m slot =? VMAP_MISS then tag else tag .| VMAP_MULTI]> m
    else m) m (seqZ 0 count).

(** One turn of the loop of [vmap_replace] over the other live entries. *)
Definition vmap_reclaim (es : list TlbEntry) (index old_start old_end : Z)
    (m : gmap Z Z) (i : Z) : option (gmap Z Z) :=
  if i =? index then Some m
  else
    e ← aget es i;
    let '(start, count) := vmap_range e in
    let hi_end := start + count in
    let lo := Z.max start old_start in
    let hi := Z.min hi_end old_end in
    Some (if lo <? hi then vmap_fill_range m i lo (hi - lo) else m).

Fixpoint vmap_reclaim_all (es : list TlbEntry) (index old_start old_end : Z)
    (m : gmap Z Z) (idxs : list Z) : option (gmap Z Z) :=
  match idxs with
  | [] => Some m
  | i :: idxs' =>
      m' ← vmap_reclaim es index old_start old_end m i;
      vmap_reclaim_all es index old_start old_end m' idxs'
  end.

Definition vmap_replace (t : MipsTlb) (index : Z) (old_range : Z * Z) : option MipsTlb :=
  let '(old_start, old_count) := old_range in
  let m0 := vmap_clear (vmap t) old_start old_count in
  let old_end := old_start + old_count in
  m1 ← vmap_reclaim_all (entries t) index old_start old_end m0 (seqZ 0 (num_entries t));
  e ← aget (entries t) index;
  let '(new_start, new_count) := vmap_range e in
  Some (with_vmap t (vmap_fill_range m1 index new_start new_count)).

(** ** Lookup *)

(** The (compare mask, tag) pair for the addressing mode. *)
Definition s_vcmp (is_64bit : bool) (s : ShadowEntry) : Z * Z :=
  if is_64bit then (s_vcmp64 s, s_vpn_hi64 s) else (s_vcmp32 s, s_vpn_hi32 s).

Definition s_vpn_match (is_64bit : bool) (s : ShadowEntry) (va : Z) : bool :=
  let '(vcmp, vpn_hi) := s_vcmp is_64bit s in (va .& vcmp) =? vpn_hi.

Definition s_asid_match (s : ShadowEntry) (as_ : Z) : bool := s_global s || (s_asid s =? as_).

(** What a matching shadow entry answers: Invalid, Modified or Hit. *)
Definition s_answer (s : ShadowEntry) (va : Z) (at_ : AccessType) : TlbResult :=
  let idx := (va .>> s_selector_bit_shift s) .& 1 in
  let vd := pick (s_valid_dirty s) idx in
  if (vd .& 0x1) =? 0 then Invalid (va .>> 13)
  else
    let dirty := has vd 0x2 in
    if bool_decide (at_ = Write) && negb dirty then Modified (va .>> 13)
    else Hit (pick (s_pfn_base s) idx .| (va .& s_offset_mask s))
             (pick (s_cache_attr s) idx) dirty (s_global s).

(** The MRU-ordered fallback scan: the [while cur != MRU_NONE] loop. *)
Fixpoint mru_scan (fuel : nat) (t : MipsTlb) (is_64bit : bool) (va as_ : Z)
    (at_ : AccessType) (prev cur : Z) : option (MipsTlb * TlbResult) :=
  if cur =? MRU_NONE then Some (t, Miss (va .>> 13))
  else
    match fuel with
    | O => None
    | S fuel' =>
        let list := AccessType_index at_ in
        nexts ← aget (mru_next t) list;
        next ← aget nexts cur;
        s ← aget (shadow t) cur;
        if negb (s_vpn_match is_64bit s va) then mru_scan fuel' t is_64bit va as_ at_ cur next
        else if negb (s_global s) && negb (s_asid s =? as_) then
          mru_scan fuel' t is_64bit va as_ at_ cur next
        else
          t' ← mru_promote t list cur prev;
          Some (t', s_answer s va at_)
    end.

Definition SCAN_FUEL : nat := Z.to_nat TLB_MAX_ENTRIES.

Definition scan (t : MipsTlb) (is_64bit : bool) (va as_ : Z) (at_ : AccessType)
    : option (MipsTlb * TlbResult) :=
  head ← aget (mru_head t) (AccessType_index at_);
  mru_scan SCAN_FUEL t is_64bit va as_ at_ MRU_NONE head.

(** [translate] as built with the default [tlbvmap] feature. *)
Definition translate (is_64bit : bool) (t : MipsTlb) (va as_ : Z) (at_ : AccessType)
    : option (MipsTlb * TlbResult) :=
  let vmap_idx := u32 va .>> 13 in
  let slot := vget (vmap t) vmap_idx in
  if slot =? VMAP_MISS then Some (t, Miss (va .>> 13))
  else
    let multi := has slot VMAP_MULTI in
    let entry_idx := slot .& VMAP_IDX_MASK in
    s ← aget (shadow t) entry_idx;
    if s_vpn_match is_64bit s va && s_asid_match s as_ then Some (t, s_answer s va at_)
    else if negb multi then Some (t, Miss (va .>> 13))
    else scan t is_64bit va as_ at_.

(** ** Writing and reading entries *)

Fixpoint trailing_ones_upto (n : nat) (x : Z) : Z :=
  match n with
  | O => 0
  | S n' => if Z.testbit x 0 then 1 + trailing_ones_upto n' (x .>> 1) else 0
  end.

(** [u64::trailing_ones] *)
Definition trailing_ones (x : Z) : Z := trailing_ones_upto 64 x.

(** The derived fields [write] and [load_state] compute from the
    architectural ones. *)
Definition derive (pm hi : Z) (lo : Z * Z) : TlbEntry :=
  let mask := pm .| 0x1FFF in
  let shift := u8 (trailing_ones mask - 1) in
  let off := u64 (shl 64 1 shift - 1) in
  let c32 := bnot 64 mask .& VCMP32_MASK in
  let c64 := bnot 64 mask .& VCMP64_MASK in
  let pfn_mask := PFN_MASK .& bnot 64 off in
  {| page_mask := pm; entry_hi := hi; entry_lo := lo;
     selector_bit_shift := shift;
     vcmp32 := c32; vpn_hi32 := hi .& c32;
     vcmp64 := c64; vpn_hi64 := hi .& c64;
     offset_mask := off;
     pfn_base := (shl 64 (fst lo) 6 .& pfn_mask, shl 64 (snd lo) 6 .& pfn_mask) |}.

Definition write (t : MipsTlb) (index : Z) (entry : TlbEntry) : option MipsTlb :=
  if index <? num_entries t then
    let e := derive (page_mask entry) (entry_hi entry) (entry_lo entry) in
    old ← aget (entries t) index;
    let old_range := vmap_range old in
    es ← aset (entries t) index e;
    s ← from_entry e (c_attr t);
    ss ← aset (shadow t) index s;
    vmap_replace (with_slot t es ss) index old_range
  else Some t.

Definition read (t : MipsTlb) (index : Z) : option TlbEntry :=
  if index <? num_entries t then aget (entries t) index else Some entry_new.

(** The index of the first shadow, of all of them, that matches. *)
Fixpoint probe_from (i : Z) (ss : list ShadowEntry) (va as_ : Z) (is_64bit : bool) : Z :=
  match ss with
  | [] => 0x80000000
  | s :: ss' =>
      if negb (s_vpn_match is_64bit s va) then probe_from (i + 1) ss' va as_ is_64bit
      else if negb (s_global s) && negb (s_asid s =? as_) then
        probe_from (i + 1) ss' va as_ is_64bit
      else u32 i
  end.

Definition probe (t : MipsTlb) (va as_ : Z) (is_64bit : bool) : Z :=
  probe_from 0 (shadow t) va as_ is_64bit.

(** Rebuild the shadows of the live entries from [entries] and [c_attr]. *)
Fixpoint rebuild_shadows (n : nat) (es : list TlbEntry) (ca : list CacheAttr)
    (ss : list ShadowEntry) : option (list ShadowEntry) :=
  match n, es, ss with
  | O, _, _ => Some ss
  | S n', e :: es', _ :: ss' =>
      s ← from_entry e ca;
      rest ← rebuild_shadows n' es' ca ss';
      Some (s :: rest)
  | S _, _, _ => None
  end.

Definition set_cache_attrs (t : MipsTlb) (table : list CacheAttr) : option MipsTlb :=
  ss ← rebuild_shadows (Z.to_nat (num_entries t)) (entries t) table (shadow t);
  Some {| entries := entries t; shadow := ss; mru_head := mru_head t; mru_next := mru_next t;
          num_entries := num_entries t; c_attr := table; vmap := vmap t |}.

Definition power_on (t : MipsTlb) : MipsTlb :=
  mru_reset {|
    entries := replicate (Z.to_nat TLB_MAX_ENTRIES) entry_new;
    shadow := replicate (Z.to_nat TLB_MAX_ENTRIES) shadow_invalid;
    mru_head := mru_head t; mru_next := mru_next t;
    num_entries := num_entries t; c_attr := c_attr t; vmap := ∅ |}.

(** ** Snapshots *)

Definition entry_words (e : TlbEntry) : list Z :=
  [page_mask e; entry_hi e; fst (entry_lo e); snd (entry_lo e)].

Definition save_state (t : MipsTlb) : Value :=
  VArray (map (fun e => u64_slice_to_toml (entry_words e))
              (take (Z.to_nat (num_entries t)) (entries t))).

(** One saved item read into four words, absent words reading zero. *)
Definition entry_of_item (item : Value) : TlbEntry :=
  match load_u64_slice item [0; 0; 0; 0] with
  | [w0; w1; w2; w3] => derive w0 w1 (w2, w3)
  | _ => entry_new
  end.

(** [for (i, item) in arr.iter().enumerate() { if i >= num_entries { break } .. }] *)
Fixpoint load_entries (n : nat) (arr : list Value) (es : list TlbEntry) : list TlbEntry :=
  match n, arr, es with
  | S n', item :: arr', _ :: es' => entry_of_item item :: load_entries n' arr' es'
  | _, _, _ => es
  end.

Fixpoint fill_all (es : list TlbEntry) (m : gmap Z Z) (idxs : list Z) : option (gmap Z Z) :=
  match idxs with
  | [] => Some m
  | i :: idxs' =>
      e ← aget es i;
      let '(start, count) := vmap_range e in
      fill_all es (vmap_fill_range m i start count) idxs'
  end.

Definition load_state (t : MipsTlb) (v : Value) : option MipsTlb :=
  let es := match v with
            | VArray arr => load_entries (Z.to_nat (num_entries t)) arr (entries t)
            | _ => entries t
            end in
  ss ← rebuild_shadows (Z.to_nat (num_entries t)) es (c_attr t) (shadow t);
  let t1 := mru_reset (with_slot t es ss) in
  m ← fill_all es ∅ (seqZ 0 (num_entries t));
  Some (with_vmap t1 m).

(** ** The passthrough TLB *)

Record PassthroughTlb := { max_identity_addr : Z }.

Definition passthrough_default : PassthroughTlb := {| max_identity_addr := 0x20000000 |}.

Definition passthrough_translate (t : PassthroughTlb) (va : Z) : TlbResult :=
  let masked_addr := va .& 0x1FFFFFFF in
  if va <? max_identity_addr t then Hit masked_addr Uncached true true
  else Miss (va .>> 13).

Definition passthrough_probe (t : PassthroughTlb) (va as_ : Z) : Z := 0x80000000.

End Tlb.
