(* ===== verification/TlbMru.v ===== *)
(** * The MRU lists of the TLB

    Each access type has a singly-linked list threaded through [mru_next].
    This file shows that the fallback scan walks it safely (no out-of-range
    access, no endless loop), that it stops at the first matching slot of the
    list, and that [mru_promote] only reorders the list. *)

From S2P Require Import Prelude Tlb.
Import Tlb.

Module TlbMru.

(** [path next cur l]: following [next] from [cur] visits exactly [l]. *)
Inductive path (next : list Z) : Z -> list Z -> Prop :=
| path_nil : path next MRU_NONE []
| path_cons c n l :
    c <> MRU_NONE -> aget next c = Some n -> path next n l -> path next c (c :: l).

Lemma path_head next c l : path next c l -> c <> MRU_NONE -> exists l', l = c :: l'.
Proof. destruct 1; [done|eauto]. Qed.

Lemma path_range next c l x : path next c l -> x ∈ l -> 0 <= x < Z.of_nat (length next).
Proof.
  induction 1 as [|c n l Hc Hn Hp IH]; [set_solver|].
  intros [->|Hx]%elem_of_cons; [|auto]. by apply aget_inv in Hn as [? _].
Qed.

(** A path does not look at slots it does not visit. *)
Lemma path_ext next next' c l :
  path next c l -> (forall x, x ∈ l -> aget next' x = aget next x) -> path next' c l.
Proof.
  induction 1 as [|c n l Hc Hn Hp IH]; intros He; [constructor|].
  econstructor; [assumption| |apply IH; intros; apply He; set_solver].
  rewrite He; [assumption|set_solver].
Qed.

(** A path that visits [l1 ++ x :: l2] reaches [l2] from [x]'s successor. *)
Lemma path_split next c l1 x l2 :
  path next c (l1 ++ x :: l2) ->
  x <> MRU_NONE /\ exists n, aget next x = Some n /\ path next n l2.
Proof.
  revert c. induction l1 as [|y l1 IH]; intros c Hp; inversion Hp; subst; eauto.
Qed.

(** Redirecting the link out of [p] joins the part before it to a new tail. *)
Lemma path_redirect next next' c l1 p l2 l3 a :
  path next c (l1 ++ p :: l2) -> NoDup (l1 ++ [p]) ->
  aget next' p = Some a -> path next' a l3 ->
  (forall x, x ∈ l1 -> aget next' x = aget next x) ->
  path next' c (l1 ++ p :: l3).
Proof.
  revert c. induction l1 as [|y l1 IH]; intros c Hp Hnd Ha Hl3 He; simpl in *;
    inversion Hp as [|? n ? Hc Hn Hp']; subst.
  - econstructor; eassumption.
  - apply NoDup_cons in Hnd as [Hy Hnd].
    econstructor; [assumption| |apply IH; try eassumption; set_solver].
    rewrite He by set_solver. exact Hn.
Qed.

(** [list_ok n head next]: the list visits every live slot exactly once. *)
Definition list_ok (n head : Z) (next : list Z) : Prop :=
  length next = Z.to_nat TLB_MAX_ENTRIES /\
  exists l, path next head l /\ l ≡ₚ seqZ 0 n.

Definition lists_ok (n : Z) (heads : list Z) (nexts : list (list Z)) : Prop :=
  length heads = Z.to_nat MRU_LISTS /\ length nexts = Z.to_nat MRU_LISTS /\
  forall k h nx, heads !! k = Some h -> nexts !! k = Some nx -> list_ok n h nx.

Lemma lists_ok_get n heads nexts at_ :
  lists_ok n heads nexts ->
  exists h nx, aget heads (AccessType_index at_) = Some h /\
    aget nexts (AccessType_index at_) = Some nx /\ list_ok n h nx.
Proof.
  intros (Hh & Hn & Hok).
  assert (Hr : 0 <= AccessType_index at_ < 4) by (destruct at_; simpl; lia).
  destruct (aget_Some heads (AccessType_index at_)) as [h Hgh]; [rewrite Hh; exact Hr|].
  destruct (aget_Some nexts (AccessType_index at_)) as [nx Hgn]; [rewrite Hn; exact Hr|].
  exists h, nx. split_and!; [assumption..|].
  apply aget_inv in Hgh as [_ ?], Hgn as [_ ?]. eauto.
Qed.

(** ** Promotion *)

(** Writing one list back keeps the others well formed. *)
Lemma lists_ok_set n heads nexts i h nx heads' nexts' :
  lists_ok n heads nexts -> list_ok n h nx ->
  aset heads i h = Some heads' -> aset nexts i nx = Some nexts' ->
  lists_ok n heads' nexts'.
Proof.
  intros (Hh & Hn & Hok) Hnew [Hi ->]%aset_inv [Hi' ->]%aset_inv.
  split_and!; [by rewrite length_insert..|].
  intros k h' nx' Hk Hk'. destruct (decide (k = Z.to_nat i)) as [->|Hne].
  - rewrite list_lookup_insert_eq in Hk by lia. rewrite list_lookup_insert_eq in Hk' by lia.
    by simplify_eq.
  - rewrite list_lookup_insert_ne in Hk by congruence.
    rewrite list_lookup_insert_ne in Hk' by congruence. eauto.
Qed.

(** [mru_promote] of [target] behind [prev] succeeds and yields the list with
    [target] in front; it changes nothing but the MRU arrays. *)
Lemma mru_promote_mid t at_ h nx l1 prev target l2 :
  let k := AccessType_index at_ in
  lists_ok (num_entries t) (mru_head t) (mru_next t) ->
  aget (mru_head t) k = Some h -> aget (mru_next t) k = Some nx ->
  path nx h (l1 ++ prev :: target :: l2) -> NoDup (l1 ++ prev :: target :: l2) ->
  l1 ++ prev :: target :: l2 ≡ₚ seqZ 0 (num_entries t) ->
  length nx = Z.to_nat TLB_MAX_ENTRIES ->
  exists hs ns, mru_promote t k target prev = Some (with_mru t hs ns) /\
    lists_ok (num_entries t) hs ns.
Proof.
  intros k Hok Hh Hn Hp Hnd Hperm Hlen.
  destruct (path_split _ _ _ _ _ Hp) as (Hprev & m & Hn1 & Hp1).
  inversion Hp1 as [|? after ? Htgt Hafter Hp2]; subst m.
  unfold mru_promote. rewrite (proj2 (Z.eqb_neq _ _)) by assumption.
  rewrite Hn, Hh. simpl. rewrite Hafter. simpl.
  pose proof (path_range _ _ _ prev Hp ltac:(set_solver)) as Hrp.
  pose proof (path_range _ _ _ target Hp ltac:(set_solver)) as Hrt.
  destruct (aset nx prev after) as [nx1|] eqn:E1; [|rewrite aset_Some in E1 by assumption; done].
  assert (length nx1 = length nx) as Hl1 by (apply aset_inv in E1 as [_ ->]; apply length_insert).
  destruct (aset nx1 target h) as [nx2|] eqn:E2;
    [|rewrite aset_Some in E2 by (rewrite Hl1; assumption); done].
  assert (length nx2 = length nx) as Hl2
    by (apply aset_inv in E2 as [_ ->]; rewrite length_insert; exact Hl1).
  pose proof (aget_inv _ _ _ Hn) as [Hkn _]. pose proof (aget_inv _ _ _ Hh) as [Hkh _].
  simpl. rewrite E2. simpl. rewrite !aset_Some by assumption. simpl.
  eexists _, _. split; [reflexivity|].
  eapply lists_ok_set; [exact Hok| |by apply aset_Some|by apply aset_Some].
  split; [congruence|]. exists (target :: l1 ++ prev :: l2). split.
  2:{ rewrite <- Hperm. change (target :: l1 ++ prev :: l2) with ([target] ++ l1 ++ [prev] ++ l2).
      change (l1 ++ prev :: target :: l2) with (l1 ++ [prev] ++ [target] ++ l2). solve_Permutation. }
  assert (Hne : prev <> target /\ target ∉ l1 /\ prev ∉ l1 /\ target ∉ l2 /\ prev ∉ l2).
  { apply NoDup_app in Hnd as (_ & Hd & Hnd). apply NoDup_cons in Hnd as [Ha Hnd].
    apply NoDup_cons in Hnd as [Hb _]. set_solver. }
  destruct Hne as (Hne & Hn1l1 & Hpl1 & Hn1l2 & Hpl2).
  econstructor; [assumption|by eapply aget_aset_eq|].
  eapply path_redirect; [exact Hp| | | |].
  - apply NoDup_app in Hnd as (Hnd1 & _ & _). apply NoDup_app. split_and!; [assumption| |].
    + intros x Hx. rewrite list_elem_of_singleton. by intros ->.
    + apply NoDup_singleton.
  - rewrite (aget_aset_ne _ _ _ _ _ E2) by congruence. by eapply aget_aset_eq.
  - eapply path_ext; [exact Hp2|]. intros x Hx.
    rewrite (aget_aset_ne _ _ _ _ _ E2) by set_solver.
    rewrite (aget_aset_ne _ _ _ _ _ E1) by set_solver. reflexivity.
  - intros x Hx. rewrite (aget_aset_ne _ _ _ _ _ E2) by set_solver.
    rewrite (aget_aset_ne _ _ _ _ _ E1) by set_solver. reflexivity.
Qed.

(** ** The scan *)

Section scan.
Context (t : MipsTlb) (is64 : bool) (va as_ : Z) (at_ : AccessType) (h : Z) (nx : list Z).
Context (Hok : lists_ok (num_entries t) (mru_head t) (mru_next t)).
Context (Hh : aget (mru_head t) (AccessType_index at_) = Some h).
Context (Hn : aget (mru_next t) (AccessType_index at_) = Some nx).
Context (Hlen : length nx = Z.to_nat TLB_MAX_ENTRIES).
Context (Hsh : length (shadow t) = Z.to_nat TLB_MAX_ENTRIES).

(** The slot's shadow matches the lookup. *)
Definition slot_matches (x : Z) : Prop :=
  exists s, aget (shadow t) x = Some s /\ s_vpn_match is64 s va = true /\ s_asid_match s as_ = true.

(** The outcome of a scan over the slots [l]. *)
Definition scan_outcome (l : list Z) (r : TlbResult) : Prop :=
  (r = Miss (va .>> 13) /\ forall x, x ∈ l -> ~ slot_matches x) \/
  (exists x s, x ∈ l /\ aget (shadow t) x = Some s /\ s_vpn_match is64 s va = true /\
    s_asid_match s as_ = true /\ r = s_answer s va at_).

Lemma scan_skip fuel l1 prev cur l2 :
  (forall x, aget (shadow t) cur = Some x ->
     s_vpn_match is64 x va && s_asid_match x as_ = false) ->
  path nx h (l1 ++ cur :: l2) ->
  exists next, path nx next l2 /\
    mru_scan (S fuel) t is64 va as_ at_ prev cur = mru_scan fuel t is64 va as_ at_ cur next.
Proof.
  intros Hno Hp. destruct (path_split _ _ _ _ _ Hp) as (Hc & next & Hnext & Hp').
  pose proof (path_range _ _ _ cur Hp ltac:(set_solver)) as Hr.
  destruct (aget_Some (shadow t) cur) as [s Hs]; [rewrite Hsh, <- Hlen; exact Hr|].
  exists next. split; [assumption|]. simpl.
  rewrite (proj2 (Z.eqb_neq _ _)) by assumption. rewrite Hn. simpl. rewrite Hnext. simpl.
  rewrite Hs. simpl. specialize (Hno s Hs). unfold s_asid_match in Hno.
  destruct (s_vpn_match is64 s va); simpl in *; [|reflexivity].
  destruct (s_global s); simpl in *; [done|]. by rewrite Hno.
Qed.

(** Walking from [cur] with enough fuel, having already passed [l1 ++ [prev]],
    the scan returns an outcome over the remaining slots. *)
Lemma mru_scan_ok l2 : forall fuel l1 prev cur,
  (length l2 <= fuel)%nat ->
  (l1 = [] /\ prev = MRU_NONE \/ exists l0, l1 = l0 ++ [prev]) ->
  path nx h (l1 ++ l2) -> path nx cur l2 -> NoDup (l1 ++ l2) ->
  l1 ++ l2 ≡ₚ seqZ 0 (num_entries t) ->
  exists hs ns r, mru_scan fuel t is64 va as_ at_ prev cur = Some (with_mru t hs ns, r) /\
    lists_ok (num_entries t) hs ns /\ scan_outcome l2 r.
Proof.
  assert (Hself : with_mru t (mru_head t) (mru_next t) = t) by (by destruct t).
  induction l2 as [|c l2 IH]; intros fuel l1 prev cur Hfuel Hpre Hp Hpc Hnd Hperm.
  { inversion Hpc; subst. exists (mru_head t), (mru_next t), (Miss (va .>> 13)).
    rewrite Hself. split_and!; [|assumption|left; split; [done|set_solver]].
    destruct fuel; reflexivity. }
  inversion Hpc as [|? n ? Hc Hnx Hpn]; subst. destruct fuel as [|fuel]; [simpl in Hfuel; lia|].
  pose proof (path_range _ _ _ c Hp ltac:(set_solver)) as Hr.
  destruct (aget_Some (shadow t) c) as [s Hs]; [rewrite Hsh, <- Hlen; exact Hr|].
  destruct (s_vpn_match is64 s va && s_asid_match s as_) eqn:Hm.
  - clear IH. apply andb_prop in Hm as [Hm1 Hm2].
    assert (Hout : scan_outcome (c :: l2) (s_answer s va at_)).
    { right. exists c, s. split_and!; [set_solver|done..]. }
    assert (Hpr : exists hs ns, mru_promote t (AccessType_index at_) c prev = Some (with_mru t hs ns) /\
              lists_ok (num_entries t) hs ns).
    { destruct Hpre as [[-> ->]|[l0 ->]].
      - exists (mru_head t), (mru_next t). rewrite Hself. auto.
      - rewrite <- app_assoc in Hp, Hnd, Hperm. simpl in Hp, Hnd, Hperm.
        eapply mru_promote_mid; eassumption. }
    destruct Hpr as (hs & ns & Hpr & Hok'). exists hs, ns, (s_answer s va at_).
    split_and!; [|assumption|assumption]. simpl.
    rewrite (proj2 (Z.eqb_neq _ _)) by assumption. rewrite Hn. simpl. rewrite Hnx. simpl.
    rewrite Hs. simpl. rewrite Hm1. simpl. unfold s_asid_match in Hm2.
    destruct (s_global s); simpl in *; rewrite ?Hm2; simpl; by rewrite Hpr.
  - edestruct (scan_skip fuel l1 prev c l2) as (next & Hpn' & ->).
    { intros x Hx. by simplify_eq. } { exact Hp. }
    destruct (IH fuel (l1 ++ [c]) c next) as (hs & ns & r & -> & Hok' & Hout).
    { simpl in Hfuel. lia. } { right. by exists l1. } { by rewrite <- app_assoc. }
    { assumption. } { by rewrite <- app_assoc. } { by rewrite <- app_assoc. }
    exists hs, ns, r. split_and!; [done|assumption|].
    destruct Hout as [[-> Hno]|(x & s' & Hx & ?)]; [left|right].
    + split; [done|]. intros x [->|Hx]%elem_of_cons; [|auto].
      intros (s' & ? & ? & ?). simplify_eq. by rewrite H0, H1 in Hm.
    + exists x, s'. split; [set_solver|assumption].
Qed.

End scan.

Lemma scan_ok t is64 va as_ at_ :
  num_entries t <= TLB_MAX_ENTRIES ->
  lists_ok (num_entries t) (mru_head t) (mru_next t) ->
  length (shadow t) = Z.to_nat TLB_MAX_ENTRIES ->
  exists hs ns r, scan t is64 va as_ at_ = Some (with_mru t hs ns, r) /\
    lists_ok (num_entries t) hs ns /\
    scan_outcome t is64 va as_ at_ (seqZ 0 (num_entries t)) r.
Proof.
  intros Hmax Hok Hsh.
  destruct (lists_ok_get _ _ _ at_ Hok) as (h & nx & Hh & Hn & Hlen & l & Hp & Hperm).
  unfold scan. rewrite Hh. cbn [mbind option_bind].
  destruct (mru_scan_ok t is64 va as_ at_ h nx Hok Hh Hn Hlen Hsh l SCAN_FUEL [] MRU_NONE h)
    as (hs & ns & r & -> & Hok' & Hout).
  - rewrite Hperm, length_seqZ. unfold SCAN_FUEL, TLB_MAX_ENTRIES in *. lia.
  - by left.
  - exact Hp.
  - exact Hp.
  - rewrite app_nil_l, Hperm. apply NoDup_seqZ.
  - exact Hperm.
  - exists hs, ns, r. split_and!; [done|assumption|].
    destruct Hout as [[-> Hno]|(x & s & Hx & ?)]; [left|right].
    + split; [done|]. intros x Hx. apply Hno. by rewrite Hperm.
    + exists x, s. by rewrite <- Hperm.
Qed.

(** ** Canonical lists *)

Lemma mru_chain_lookup n old i x :
  old !! i = Some x ->
  mru_chain n old !! i = Some (if Z.of_nat i <? n - 1 then u8 (Z.of_nat i + 1)
                   else if Z.of_nat i =? n - 1 then MRU_NONE else x).
Proof. intros Hx. unfold mru_chain. rewrite list_lookup_imap, Hx. reflexivity. Qed.

Lemma mru_chain_path n old (k : nat) :
  0 < n <= TLB_MAX_ENTRIES -> length old = Z.to_nat TLB_MAX_ENTRIES -> Z.of_nat k < n ->
  path (mru_chain n old) (n - 1 - Z.of_nat k) (seqZ (n - 1 - Z.of_nat k) (Z.of_nat k + 1)).
Proof.
  unfold TLB_MAX_ENTRIES. intros Hn Hlen. induction k as [|k IH]; intros Hk.
  - rewrite seqZ_cons by lia. replace (n - 1 - Z.of_nat 0) with (n - 1) by lia.
    destruct (lookup_lt_is_Some_2 old (Z.to_nat (n - 1))) as [x Hx]; [lia|].
    econstructor; [unfold MRU_NONE; lia| |].
    + unfold aget. rewrite (proj2 (Z.leb_le _ _)) by lia. rewrite (mru_chain_lookup _ _ _ _ Hx).
      rewrite (proj2 (Z.ltb_ge _ _)) by lia. rewrite (proj2 (Z.eqb_eq _ _)) by lia. reflexivity.
    + rewrite seqZ_nil by lia. constructor.
  - rewrite seqZ_cons by lia.
    destruct (lookup_lt_is_Some_2 old (Z.to_nat (n - 1 - Z.of_nat (S k)))) as [x Hx]; [lia|].
    econstructor; [unfold MRU_NONE; lia| |].
    + unfold aget. rewrite (proj2 (Z.leb_le _ _)) by lia. rewrite (mru_chain_lookup _ _ _ _ Hx).
      rewrite (proj2 (Z.ltb_lt _ _)) by lia. reflexivity.
    + specialize (IH ltac:(lia)). unfold u8. rewrite wrap_small by (unfold fits; lia).
      replace (Z.of_nat (Z.to_nat (n - 1 - Z.of_nat (S k))) + 1) with (n - 1 - Z.of_nat k) by lia.
      replace (Z.succ (n - 1 - Z.of_nat (S k))) with (n - 1 - Z.of_nat k) by lia.
      replace (Z.pred (Z.of_nat (S k) + 1)) with (Z.of_nat k + 1) by lia. exact IH.
Qed.

Lemma mru_chain_ok n old :
  0 < n <= TLB_MAX_ENTRIES -> length old = Z.to_nat TLB_MAX_ENTRIES ->
  list_ok n 0 (mru_chain n old).
Proof.
  intros Hn Hlen. split; [unfold mru_chain; by rewrite length_imap|].
  exists (seqZ 0 n). split; [|done].
  pose proof (mru_chain_path n old (Z.to_nat (n - 1)) Hn Hlen ltac:(lia)) as Hp.
  replace (n - 1 - Z.of_nat (Z.to_nat (n - 1))) with 0 in Hp by lia.
  replace (Z.of_nat (Z.to_nat (n - 1)) + 1) with n in Hp by lia. exact Hp.
Qed.

Lemma lists_ok_chain n olds :
  0 < n <= TLB_MAX_ENTRIES -> length olds = Z.to_nat MRU_LISTS ->
  Forall (fun o => length o = Z.to_nat TLB_MAX_ENTRIES) olds ->
  lists_ok n (replicate (Z.to_nat MRU_LISTS) 0) (mru_chain n <$> olds).
Proof.
  intros Hn Hl HF. split_and!; [apply length_replicate|by rewrite length_fmap|].
  intros k h nx Hk Hk'. apply lookup_replicate in Hk as [-> _].
  apply list_lookup_fmap_Some in Hk' as (o & -> & Ho).
  apply mru_chain_ok; [assumption|]. by eapply Forall_lookup_1 in HF.
Qed.

End TlbMru.
