(* ===== verification/TlbVmap.v ===== *)
(** * The O(1) lookup table of the TLB

    [vmap] maps VA[31:13] to the entry that covers it.  This file shows what
    clearing and filling a range does slot by slot, that an entry whose page
    mask is a legal page size can only match addresses whose slot lies in its
    [vmap_range], that [vmap_replace] keeps every written entry claimed, and
    that it keeps each slot exact: empty, one index or [VMAP_MULTI] according
    to whether no, one or several entries cover it. *)

From S2P Require Import Prelude Tlb.
Import Tlb.

Module TlbVmap.

#[local] Arguments vmap_range : simpl never.

(** ** Sweeping a range of slots *)

Definition sweep (g : Z -> Z) (start : Z) (m : gmap Z Z) (i : Z) : gmap Z Z :=
  let slot := u64 (start + i) in
  if slot <? VMAP_SIZE then <[slot := g (vget m slot)]> m else m.

Definition in_range (start count s : Z) : bool :=
  (start <=? s) && (s <? start + count) && (s <? VMAP_SIZE).

Lemma in_range_true start count s :
  in_range start count s = true <-> start <= s < start + count /\ s < VMAP_SIZE.
Proof. unfold in_range. lia. Qed.

Lemma vget_insert m i x j : vget (<[i:=x]> m) j = if decide (i = j) then x else vget m j.
Proof. unfold vget. rewrite lookup_insert. by case_decide. Qed.

Lemma sweep_get g m start (n : nat) s :
  0 <= start -> start + Z.of_nat n <= 2 ^ 64 ->
  vget (foldl (sweep g start) m (seqZ 0 (Z.of_nat n))) s =
    if in_range start (Z.of_nat n) s then g (vget m s) else vget m s.
Proof.
  intros Hs. induction n as [|n IH]; intros Hn.
  - simpl. destruct (in_range start (Z.of_nat 0) s) eqn:E; [|reflexivity].
    apply in_range_true in E. lia.
  - rewrite seqZ_S, foldl_snoc, Z.add_0_l. unfold sweep at 1, u64.
    rewrite wrap_small by (unfold fits; lia).
    assert (Hin : in_range start (Z.of_nat (S n)) s =
      in_range start (Z.of_nat n) s || (bool_decide (start + Z.of_nat n = s) && (s <? VMAP_SIZE))).
    { unfold in_range. case_bool_decide; zbits_split; simpl; try reflexivity; lia. }
    specialize (IH ltac:(lia)).
    destruct (Z.ltb_spec (start + Z.of_nat n) VMAP_SIZE) as [Hlt|Hge].
    + rewrite vget_insert. case_decide as Heq.
      * subst s. rewrite IH, Hin, bool_decide_eq_true_2, (proj2 (Z.ltb_lt _ _)) by done.
        rewrite orb_true_r. destruct (in_range _ _ _) eqn:E; [|reflexivity].
        apply in_range_true in E. lia.
      * rewrite IH, Hin, bool_decide_eq_false_2 by done. by rewrite orb_false_r.
    + rewrite IH, Hin. case_bool_decide as E; simpl; [|by rewrite orb_false_r].
      subst s. rewrite (proj2 (Z.ltb_ge _ _)) by assumption. by rewrite orb_false_r.
Qed.

(** What a fill writes into one slot. *)
Definition claim (idx v : Z) : Z := if v =? VMAP_MISS then u8 idx else u8 idx .| VMAP_MULTI.

Lemma vmap_clear_get m start count s :
  0 <= start -> 0 <= count -> start + count <= 2 ^ 64 ->
  vget (vmap_clear m start count) s =
    if in_range start count s then VMAP_MISS else vget m s.
Proof.
  intros. unfold vmap_clear. rewrite <- (Z2Nat.id count) by assumption.
  exact (sweep_get (fun _ => VMAP_MISS) m start (Z.to_nat count) s ltac:(lia) ltac:(lia)).
Qed.

Lemma vmap_fill_range_get m idx start count s :
  0 <= start -> 0 <= count -> start + count <= 2 ^ 64 ->
  vget (vmap_fill_range m idx start count) s =
    if in_range start count s then claim idx (vget m s) else vget m s.
Proof.
  intros. unfold vmap_fill_range. rewrite <- (Z2Nat.id count) by assumption.
  exact (sweep_get (claim idx) m start (Z.to_nat count) s ltac:(lia) ltac:(lia)).
Qed.

(** ** Claims *)

(** The slot value [v] leads a lookup to entry [j] or to the full scan. *)
Definition claimed (j v : Z) : Prop := v <> VMAP_MISS /\ (has v VMAP_MULTI = false -> v = j).

(** A slot value names a live entry or is empty. *)
Definition slot_ok (n v : Z) : Prop :=
  v = VMAP_MISS \/ v <> VMAP_MISS /\ 0 <= v .& VMAP_IDX_MASK < n.

Lemma multi_facts idx :
  0 <= idx < TLB_MAX_ENTRIES ->
  u8 idx = idx /\ has idx VMAP_MULTI = false /\ has (idx .| VMAP_MULTI) VMAP_MULTI = true /\
  idx <> VMAP_MISS /\ idx .| VMAP_MULTI <> VMAP_MISS /\
  idx .& VMAP_IDX_MASK = idx /\ (idx .| VMAP_MULTI) .& VMAP_IDX_MASK = idx.
Proof.
  unfold TLB_MAX_ENTRIES. intros Hi. rewrite <- (Z2Nat.id idx) by lia.
  assert (Hn : (Z.to_nat idx < 64)%nat) by lia. revert Hn. clear Hi.
  generalize (Z.to_nat idx) as n. intros n Hn.
  do 64 (destruct n as [|n]; [vm_compute; repeat split; discriminate|]). lia.
Qed.

Lemma claim_claimed j v : 0 <= j < TLB_MAX_ENTRIES -> claimed j (claim j v).
Proof.
  intros Hj. destruct (multi_facts j Hj) as (Hu & Hm & Hm' & Hne & Hne' & _).
  unfold claim, claimed. rewrite Hu. case_match; [auto|]. split; [assumption|]. by rewrite Hm'.
Qed.

Lemma claim_stable i j v :
  0 <= i < TLB_MAX_ENTRIES -> claimed j v -> claimed j (claim i v).
Proof.
  intros Hi [Hv _]. destruct (multi_facts i Hi) as (Hu & _ & Hm' & _ & Hne' & _).
  unfold claim, claimed. rewrite (proj2 (Z.eqb_neq _ _)) by assumption. rewrite Hu.
  split; [assumption|]. by rewrite Hm'.
Qed.

Lemma claim_slot_ok n i v : 0 <= i < n -> n <= TLB_MAX_ENTRIES -> slot_ok n (claim i v).
Proof.
  intros Hi Hn. destruct (multi_facts i ltac:(lia)) as (Hu & _ & _ & Hne & Hne' & Hx & Hx').
  unfold claim. rewrite Hu. case_match; right; rewrite ?Hx, ?Hx'; auto.
Qed.

(** [exact P v]: the slot value [v] is right for a slot that exactly the
    entries in [P] cover: empty for none, the bare index for one, and for two
    or more the index of one of them with [VMAP_MULTI]. *)
Definition exact (P : Z -> Prop) (v : Z) : Prop :=
  (v = VMAP_MISS /\ forall j, ~ P j) \/
  (v <> VMAP_MISS /\ has v VMAP_MULTI = false /\ forall j, P j <-> j = v) \/
  (v <> VMAP_MISS /\ has v VMAP_MULTI = true /\ P (v .& VMAP_IDX_MASK) /\
     exists j, P j /\ j <> v .& VMAP_IDX_MASK).

#[global] Instance exact_proper : Proper (pointwise_relation Z iff ==> eq ==> iff) exact.
Proof.
  assert (Hone : forall P Q, pointwise_relation Z iff P Q -> forall v, exact P v -> exact Q v).
  { intros P Q HPQ v [[-> H]|[(H1 & H2 & H3)|(H1 & H2 & H3 & j & H4 & H5)]].
    - left. split; [done|]. intros j Hj. by apply (H j), HPQ.
    - right; left. split_and!; [done..|]. intros j. rewrite <- H3. symmetry. apply HPQ.
    - right; right. split_and!; [done..|by apply HPQ|]. exists j. split; [by apply HPQ|done]. }
  intros P Q HPQ v ? <-. split; apply Hone; [done|]. intros j. symmetry. apply HPQ.
Qed.

Lemma exact_miss P : (forall j, ~ P j) -> exact P VMAP_MISS.
Proof. by left. Qed.

(** Filling a slot adds the entry to those that cover it. *)
Lemma claim_exact (P : Z -> Prop) i v :
  0 <= i < TLB_MAX_ENTRIES -> ~ P i -> exact P v -> exact (fun j => P j \/ j = i) (claim i v).
Proof.
  intros Hi HP Hv. destruct (multi_facts i Hi) as (Hu & Hm & Hm' & Hne & Hne' & Hx & Hx').
  unfold claim. rewrite Hu. destruct Hv as [[-> H]|[(H1 & H2 & H3)|(H1 & H2 & H3 & j & H4 & H5)]].
  - right; left. rewrite Z.eqb_refl. split_and!; [done..|]. naive_solver.
  - rewrite (proj2 (Z.eqb_neq _ _)) by done. right; right. rewrite Hx'. split_and!; [done..|by right|].
    exists v. split; [left; by apply H3|]. intros ->. by apply HP, H3.
  - rewrite (proj2 (Z.eqb_neq _ _)) by done. right; right. rewrite Hx'. split_and!; [done..|by right|].
    exists j. split; [by left|]. by intros ->.
Qed.

(** ** Ranges *)

Lemma vmap_range_bounds e start count :
  vmap_range e = (start, count) ->
  0 <= start < VMAP_SIZE /\ 1 <= count <= 2 ^ 51 .
Proof.
  unfold vmap_range. intros [= <- <-]. split.
  - apply (land_fits_l 19); [lia|]. rewrite Z.shiftr_div_pow2 by lia.
    pose proof (wrap_fits 32 (entry_hi e) ltac:(lia)) as [? ?]. unfold u32, fits in *.
    split; [apply Z.div_pos; lia|]. apply Z.div_lt_upper_bound; lia.
  - rewrite Z.shiftr_div_pow2 by lia.
    pose proof (wrap_fits 64 ((page_mask e .| 8191) + 1) ltac:(lia)) as [? ?]. unfold u64.
    assert (wrap 64 ((page_mask e .| 8191) + 1) / 2 ^ 13 <= 2 ^ 51)
      by (apply Z.div_le_upper_bound; lia). lia.
Qed.

(** The slot [s] lies in the range of entry [e]. *)
Definition covers (e : TlbEntry) (s : Z) : Prop :=
  let '(start, count) := vmap_range e in start <= s < start + count /\ s < VMAP_SIZE.

(** A PageMask that names a page size: contiguous ones from bit 13 up to at
    most bit 24, the field CP0 implements (4 KB to 16 MB pages). *)
Definition legal_mask (pm : Z) : Prop := exists k, 0 <= k <= 12 /\ pm .| 0x1FFF = Z.ones (13 + k).

Lemma legal_count pm k :
  0 <= k <= 50 -> pm .| 0x1FFF = Z.ones (13 + k) ->
  Z.max (u64 ((pm .| 0x1FFF) + 1) .>> 13) 1 = 2 ^ k.
Proof.
  intros Hk ->. rewrite Z.ones_equiv.
  replace (Z.pred (2 ^ (13 + k)) + 1) with (2 ^ (13 + k)) by lia.
  pose proof (Z.pow_lt_mono_r 2 (13 + k) 64). unfold u64.
  rewrite wrap_small by (split; [apply Z.pow_nonneg; lia|lia]).
  rewrite Z.shiftr_div_pow2, Z.pow_add_r by lia.
  rewrite Z.mul_comm, Z.div_mul by lia.
  pose proof (Z.pow_pos_nonneg 2 k). lia.
Qed.

Lemma VCMP32_MASK_bits i : 13 <= i < 32 -> Z.testbit VCMP32_MASK i = true.
Proof.
  intros. change VCMP32_MASK with (Z.ldiff (Z.ones 32) (Z.ones 13)).
  rewrite Z.ldiff_spec, !ones_testbit by lia.
  rewrite (proj2 (Z.ltb_lt _ _)), (proj2 (Z.ltb_ge _ _)) by lia. reflexivity.
Qed.

Lemma VCMP64_MASK_bits i : 13 <= i < 40 -> Z.testbit VCMP64_MASK i = true.
Proof.
  intros. change VCMP64_MASK with (Z.lor (Z.shiftl 3 62) (Z.ldiff (Z.ones 40) (Z.ones 13))).
  rewrite Z.lor_spec, Z.ldiff_spec, !ones_testbit by lia.
  rewrite (proj2 (Z.ltb_lt _ _)), (proj2 (Z.ltb_ge _ _)) by lia. apply orb_true_r.
Qed.

(** Equal tags under a compare mask that includes bits 13+k..31 put the two
    addresses in the same aligned block of 2^k slots. *)
Lemma tag_eq_block k mask va hi :
  0 <= k <= 50 ->
  (forall i, 13 + k <= i < 32 -> Z.testbit mask i = true) ->
  va .& mask = hi .& mask ->
  (u32 va .>> 13) .>> k = (u32 hi .>> 13) .>> k.
Proof.
  intros Hk Hm Heq. apply Z.bits_inj'. intros i Hi. unfold u32.
  rewrite !Z.shiftr_spec, !wrap_testbit by lia.
  destruct (Z.ltb_spec (i + k + 13) 32) as [Hlt|Hge]; [simpl|reflexivity].
  assert (Hb : Z.testbit (va .& mask) (i + k + 13) = Z.testbit (hi .& mask) (i + k + 13))
    by (by rewrite Heq).
  by rewrite !Z.land_spec, Hm, !andb_true_r in Hb by lia.
Qed.

(** The aligned start of a range. *)
Lemma range_start x k :
  0 <= k <= 50 -> fits 19 x -> x .& bnot 64 (2 ^ k - 1) = (x / 2 ^ k) * 2 ^ k.
Proof.
  intros Hk Hx. replace (2 ^ k - 1) with (Z.ones k) by (rewrite Z.ones_equiv; lia).
  rewrite <- Z.shiftl_mul_pow2, <- Z.shiftr_div_pow2 by lia. unfold bnot.
  apply Z.bits_inj'. intros i Hi.
  rewrite shiftl_testbit, !Z.land_spec, Z.lnot_spec, !ones_testbit by lia.
  destruct (Z.leb_spec k i); simpl.
  - rewrite (proj2 (Z.ltb_ge _ _)) by lia. rewrite Z.shiftr_spec by lia.
    replace (i - k + k) with i by lia. simpl.
    destruct (Z.ltb_spec i 64); [apply andb_true_r|].
    rewrite (fits_testbit 19 x i Hx) by lia. reflexivity.
  - rewrite (proj2 (Z.ltb_lt i k)) by lia. simpl. apply andb_false_r.
Qed.

(** ** Matching implies coverage *)

Lemma mask_bits pm k i :
  0 <= k <= 50 -> pm .| 0x1FFF = Z.ones (13 + k) -> 0 <= i < 64 ->
  Z.testbit (bnot 64 (pm .| 0x1FFF)) i = negb (i <? 13 + k).
Proof.
  intros Hk -> Hi. unfold bnot. rewrite Z.land_spec, Z.lnot_spec, !ones_testbit by lia.
  rewrite (proj2 (Z.ltb_lt i 64)) by lia. apply andb_true_r.
Qed.

Lemma match_covers pm hi lo is64 va s ca :
  legal_mask pm ->
  from_entry (derive pm hi lo) ca = Some s ->
  s_vpn_match is64 s va = true ->
  covers (derive pm hi lo) (u32 va .>> 13).
Proof.
  intros (k & Hk & Hpm) Hs Hm. unfold from_entry in Hs. simplify_option_eq.
  assert (Hblk : (u32 va .>> 13) .>> k = (u32 hi .>> 13) .>> k).
  { unfold s_vpn_match, s_vcmp in Hm. destruct is64; simpl in Hm; apply Z.eqb_eq in Hm.
    - eapply tag_eq_block; [lia| |exact Hm]. intros i Hi. rewrite Z.land_spec.
      rewrite (mask_bits pm k), VCMP64_MASK_bits by lia.
      rewrite (proj2 (Z.ltb_ge _ _)) by lia. reflexivity.
    - eapply tag_eq_block; [lia| |exact Hm]. intros i Hi. rewrite Z.land_spec.
      rewrite (mask_bits pm k), VCMP32_MASK_bits by lia.
      rewrite (proj2 (Z.ltb_ge _ _)) by lia. reflexivity. }
  unfold covers, vmap_range. simpl page_mask. simpl entry_hi.
  rewrite (legal_count pm k) by (done || lia).
  assert (Hf : forall x, fits 19 (u32 x .>> 13)).
  { intros x. rewrite Z.shiftr_div_pow2 by lia. pose proof (wrap_fits 32 x ltac:(lia)) as [? ?].
    unfold u32. split; [apply Z.div_pos; lia|apply Z.div_lt_upper_bound; lia]. }
  rewrite range_start by (lia || apply Hf). rewrite !(Z.shiftr_div_pow2 _ k) in Hblk by lia.
  rewrite <- Hblk. pose proof (Hf va) as [? ?].
  pose proof (Z.pow_pos_nonneg 2 k ltac:(lia) ltac:(lia)).
  pose proof (Z.div_mod (u32 va .>> 13) (2 ^ k) ltac:(lia)).
  pose proof (Z.mod_pos_bound (u32 va .>> 13) (2 ^ k) ltac:(lia)).
  unfold VMAP_SIZE. nia.
Qed.

(** ** Replacing an entry *)

(** A live entry [j] other than [index] keeps, or regains, its claim. *)
Lemma reclaim_all_spec es index os oe n idxs m m' :
  (forall i, i ∈ idxs -> 0 <= i < n) -> n <= TLB_MAX_ENTRIES ->
  0 <= os -> oe <= 2 ^ 64 ->
  vmap_reclaim_all es index os oe m idxs = Some m' ->
  (forall s, slot_ok n (vget m s)) ->
  (forall s, slot_ok n (vget m' s)) /\
  (forall j s, claimed j (vget m s) -> claimed j (vget m' s)) /\
  (forall j e s, j ∈ idxs -> j <> index -> aget es j = Some e -> covers e s ->
     os <= s < oe -> claimed j (vget m' s)).
Proof.
  revert m. induction idxs as [|i idxs IH]; intros m Hr Hn Hos Hoe Hm Hok.
  { simpl in Hm. injection Hm as <-. split_and!; [done|done|set_solver]. }
  simpl in Hm. destruct (vmap_reclaim es index os oe m i) as [m1|] eqn:E1; simpl in Hm; [|done].
  assert (Hi : 0 <= i < n) by (apply Hr; set_solver).
  assert (H1 : (forall s, slot_ok n (vget m1 s)) /\
    (forall j s, claimed j (vget m s) -> claimed j (vget m1 s)) /\
    (forall e s, i <> index -> aget es i = Some e -> covers e s -> os <= s < oe ->
       claimed i (vget m1 s))).
  { unfold vmap_reclaim in E1. revert E1. destruct (Z.eqb_spec i index); intros E1.
    { injection E1 as <-. split_and!; [done|done|]. by intros. }
    destruct (aget es i) as [e|] eqn:Ee; cbn [mbind option_bind] in E1; [|done]. revert E1.
    destruct (vmap_range e) as [st ct] eqn:Er.
    destruct (vmap_range_bounds e st ct Er) as [Hst Hct].
    destruct (Z.ltb_spec (Z.max st os) (Z.min (st + ct) oe)) as [Hlt|Hge];
      intros E1; injection E1 as <-.
    - assert (Hg : forall s, _) by (exact (fun s => vmap_fill_range_get m i (Z.max st os)
        (Z.min (st + ct) oe - Z.max st os) s ltac:(lia) ltac:(lia) ltac:(lia))).
      split_and!.
      + intros s. rewrite Hg. case_match; [|done]. apply claim_slot_ok; lia.
      + intros j s Hc. rewrite Hg. case_match; [|done]. apply claim_stable; [lia|done].
      + intros e' s _ [= <-] Hcov Hs. rewrite Hg. unfold covers in Hcov. rewrite Er in Hcov.
        rewrite (proj2 (in_range_true _ _ _)) by lia. apply claim_claimed. lia.
    - split_and!; [done|done|]. intros e' s _ [= <-] Hcov Hs.
      unfold covers in Hcov. rewrite Er in Hcov. lia. }
  destruct H1 as (Hok1 & Hst1 & Hcl1).
  destruct (IH m1) as (Hok' & Hst' & Hcl'); try done; [intros; apply Hr; set_solver|].
  split_and!; [done|auto|].
  intros j e s [->|Hj]%elem_of_cons Hne He Hc Hs; [apply Hst'; eauto|eauto].
Qed.

Lemma reclaim_all_total es index os oe idxs m :
  (forall i, i ∈ idxs -> 0 <= i < Z.of_nat (length es)) ->
  exists m', vmap_reclaim_all es index os oe m idxs = Some m'.
Proof.
  revert m. induction idxs as [|i idxs IH]; intros m Hr; simpl; [eauto|].
  unfold vmap_reclaim. destruct (i =? index); simpl; [apply IH; intros; apply Hr; set_solver|].
  destruct (aget_Some es i) as [e ->]; [apply Hr; set_solver|]. simpl.
  destruct (vmap_range e). simpl. apply IH. intros. apply Hr. set_solver.
Qed.

(** [vmap_replace] succeeds and leaves the table sound: the new entry is
    claimed on its range, every other live entry keeps its claims, and no
    slot names a dead entry. *)
Lemma vmap_replace_spec t index e_old e :
  0 <= index < num_entries t -> num_entries t <= TLB_MAX_ENTRIES ->
  length (entries t) = Z.to_nat TLB_MAX_ENTRIES ->
  aget (entries t) index = Some e ->
  (forall s, slot_ok (num_entries t) (vget (vmap t) s)) ->
  exists m, vmap_replace t index (vmap_range e_old) = Some (with_vmap t m) /\
    (forall s, slot_ok (num_entries t) (vget m s)) /\
    (forall s, covers e s -> claimed index (vget m s)) /\
    (forall j ej s, 0 <= j < num_entries t -> j <> index -> aget (entries t) j = Some ej ->
       covers ej s -> claimed j (vget (vmap t) s) -> claimed j (vget m s)).
Proof.
  intros Hi Hn Hlen He Hok. unfold vmap_replace.
  destruct (vmap_range e_old) as [os oc] eqn:Eo.
  destruct (vmap_range_bounds _ _ _ Eo) as [Hos Hoc].
  set (m0 := vmap_clear (vmap t) os oc).
  assert (Hm0 : forall s, vget m0 s = if in_range os oc s then VMAP_MISS else vget (vmap t) s)
    by (intros; apply vmap_clear_get; unfold VMAP_SIZE in *; lia).
  assert (Hidx : forall i, i ∈ seqZ 0 (num_entries t) -> 0 <= i < num_entries t)
    by (intros i Hx%elem_of_seqZ; lia).
  destruct (reclaim_all_total (entries t) index os (os + oc) (seqZ 0 (num_entries t)) m0)
    as [m1 Hm1]; [intros i Hx; specialize (Hidx i Hx); rewrite Hlen; unfold TLB_MAX_ENTRIES in *; lia|].
  rewrite Hm1. cbn [mbind option_bind]. rewrite He. cbn [mbind option_bind].
  destruct (reclaim_all_spec _ _ os (os + oc) _ _ m0 m1 Hidx Hn ltac:(lia)
              ltac:(unfold VMAP_SIZE in *; lia) Hm1) as (Hok1 & Hst1 & Hcl1).
  { intros s. rewrite Hm0. case_match; [by left|done]. }
  destruct (vmap_range e) as [ns nc] eqn:En.
  destruct (vmap_range_bounds _ _ _ En) as [Hns Hnc].
  assert (Hg : forall s, _) by (exact (fun s => vmap_fill_range_get m1 index ns nc s
    ltac:(lia) ltac:(lia) ltac:(unfold VMAP_SIZE in *; lia))).
  eexists. split; [reflexivity|]. split_and!.
  - intros s. rewrite Hg. case_match; [apply claim_slot_ok; lia|done].
  - intros s Hc. rewrite Hg. unfold covers in Hc. rewrite En in Hc.
    rewrite (proj2 (in_range_true _ _ _)) by lia. apply claim_claimed. lia.
  - intros j ej s Hj Hne Hej Hcov Hcl. rewrite Hg.
    assert (claimed j (vget m1 s)).
    { destruct (in_range os oc s) eqn:Er.
      - apply in_range_true in Er. eapply Hcl1; [|done|exact Hej|done|lia]. apply elem_of_seqZ. lia.
      - apply Hst1. by rewrite Hm0, Er. }
    case_match; [apply claim_stable; [lia|done]|done].
Qed.

(** Filling the table from scratch claims every live entry. *)
Lemma fill_all_spec es n idxs m m' :
  (forall i, i ∈ idxs -> 0 <= i < n) -> n <= TLB_MAX_ENTRIES ->
  fill_all es m idxs = Some m' ->
  (forall s, slot_ok n (vget m s)) ->
  (forall s, slot_ok n (vget m' s)) /\
  (forall j s, claimed j (vget m s) -> claimed j (vget m' s)) /\
  (forall j e s, j ∈ idxs -> aget es j = Some e -> covers e s -> claimed j (vget m' s)).
Proof.
  revert m. induction idxs as [|i idxs IH]; intros m Hr Hn Hm Hok.
  { simpl in Hm. injection Hm as <-. split_and!; [done|done|set_solver]. }
  cbn [fill_all] in Hm. destruct (aget es i) as [e|] eqn:Ee; cbn [mbind option_bind] in Hm; [|done].
  revert Hm. destruct (vmap_range e) as [st ct] eqn:Er. intros Hm.
  destruct (vmap_range_bounds e st ct Er) as [Hst Hct].
  assert (Hi : 0 <= i < n) by (apply Hr; set_solver).
  assert (Hg : forall s, _) by (exact (fun s => vmap_fill_range_get m i st ct s
    ltac:(lia) ltac:(lia) ltac:(unfold VMAP_SIZE in *; lia))).
  destruct (IH (vmap_fill_range m i st ct)) as (Hok' & Hst' & Hcl'); try done.
  { intros; apply Hr; set_solver. }
  { intros s. rewrite Hg. case_match; [apply claim_slot_ok; lia|done]. }
  split_and!; [done| |].
  - intros j s Hc. apply Hst'. rewrite Hg. case_match; [apply claim_stable; [lia|done]|done].
  - intros j e' s [->|Hj]%elem_of_cons He' Hc; [|eauto].
    simplify_eq. apply Hst'. rewrite Hg. unfold covers in Hc. rewrite Er in Hc.
    rewrite (proj2 (in_range_true _ _ _)) by lia. apply claim_claimed. lia.
Qed.

(** The entry in slot [j] of [es] covers the vmap slot [s]. *)
Definition owns (es : list TlbEntry) (s j : Z) : Prop := exists e, aget es j = Some e /\ covers e s.

Lemma covers_in_range e start count s :
  vmap_range e = (start, count) -> covers e s <-> in_range start count s = true.
Proof. intros Hr. unfold covers. rewrite Hr. by rewrite in_range_true. Qed.

(** One fill adds its entry to the owners of the slots it passes. *)
Lemma fill_exact (P : Z -> Prop) m i start count s :
  0 <= i < TLB_MAX_ENTRIES -> 0 <= start -> 0 <= count -> start + count <= 2 ^ 64 ->
  (in_range start count s = true -> ~ P i) -> exact P (vget m s) ->
  exact (fun j => P j \/ j = i /\ in_range start count s = true)
        (vget (vmap_fill_range m i start count) s).
Proof.
  intros Hi Hs Hc Hsc HP He. rewrite vmap_fill_range_get by done.
  destruct (in_range start count s) eqn:E.
  - eapply exact_proper; [|done|apply claim_exact; [done|by apply HP|exact He]]. intros j. naive_solver.
  - eapply exact_proper; [|done|exact He]. intros j. naive_solver.
Qed.

Lemma fill_all_exact es idxs m m' (P : Z -> Prop) s :
  (forall i, i ∈ idxs -> 0 <= i < TLB_MAX_ENTRIES) -> NoDup idxs -> (forall i, i ∈ idxs -> ~ P i) ->
  fill_all es m idxs = Some m' -> exact P (vget m s) ->
  exact (fun j => P j \/ j ∈ idxs /\ owns es s j) (vget m' s).
Proof.
  revert m P. induction idxs as [|i idxs IH]; intros m P Hr Hnd HP Hm He.
  { simpl in Hm. injection Hm as <-. eapply exact_proper; [|done|exact He]. intros j. set_solver. }
  cbn [fill_all] in Hm. destruct (aget es i) as [e|] eqn:Ee; cbn [mbind option_bind] in Hm; [|done].
  revert Hm. destruct (vmap_range e) as [st ct] eqn:Er. intros Hm.
  destruct (vmap_range_bounds e st ct Er) as [Hst Hct]. apply NoDup_cons in Hnd as [Hni Hnd].
  assert (Hi : 0 <= i < TLB_MAX_ENTRIES) by (apply Hr; set_solver).
  pose proof (fill_exact P m i st ct s Hi ltac:(lia) ltac:(lia) ltac:(unfold VMAP_SIZE in *; lia)
    (fun _ => HP i ltac:(set_solver)) He) as He1.
  eapply exact_proper; [|done|eapply IH; [..|exact Hm|exact He1]].
  - intros j. rewrite <- (covers_in_range e st ct s Er). rewrite elem_of_cons. unfold owns. naive_solver.
  - intros; apply Hr; set_solver.
  - done.
  - intros j Hj [Hp|[-> _]]; [by apply (HP j); [set_solver|]|done].
Qed.

Lemma reclaim_all_exact es index os oc idxs m m' (P : Z -> Prop) s :
  (forall i, i ∈ idxs -> 0 <= i < TLB_MAX_ENTRIES) -> NoDup idxs -> 0 <= os -> os + oc <= 2 ^ 64 ->
  (in_range os oc s = true -> forall i, i ∈ idxs -> ~ P i) ->
  vmap_reclaim_all es index os (os + oc) m idxs = Some m' -> exact P (vget m s) ->
  exact (fun j => P j \/ j ∈ idxs /\ j <> index /\ in_range os oc s = true /\ owns es s j) (vget m' s).
Proof.
  intros Hr Hnd Hos Hoc. revert m P Hr Hnd. induction idxs as [|i idxs IH]; intros m P Hr Hnd HP Hm He.
  { simpl in Hm. injection Hm as <-. eapply exact_proper; [|done|exact He]. intros j. set_solver. }
  simpl in Hm. destruct (vmap_reclaim es index os (os + oc) m i) as [m1|] eqn:E1; simpl in Hm; [|done].
  apply NoDup_cons in Hnd as [Hni Hnd].
  assert (Hi : 0 <= i < TLB_MAX_ENTRIES) by (apply Hr; set_solver).
  assert (He1 : exact (fun j => P j \/ j = i /\ i <> index /\ in_range os oc s = true /\ owns es s i) (vget m1 s)).
  { unfold vmap_reclaim in E1. revert E1. destruct (Z.eqb_spec i index); intros E1.
    { injection E1 as <-. eapply exact_proper; [|done|exact He]. intros j. naive_solver. }
    destruct (aget es i) as [e|] eqn:Ee; cbn [mbind option_bind] in E1; [|done]. revert E1.
    destruct (vmap_range e) as [st ct] eqn:Er. destruct (vmap_range_bounds e st ct Er) as [Hst Hct].
    assert (Hown : owns es s i <-> in_range st ct s = true).
    { unfold owns. rewrite Ee, <- (covers_in_range e st ct s Er). naive_solver. }
    intros E1. injection E1 as <-.
    destruct (Z.ltb_spec (Z.max st os) (Z.min (st + ct) (os + oc))) as [Hlt|Hge].
    - eapply exact_proper; [|done|apply fill_exact; [done|lia|lia|lia| |exact He]].
      + intros j. rewrite Hown, !in_range_true. intuition lia.
      + rewrite in_range_true. intros Hin. apply HP; [apply in_range_true; lia|set_solver].
    - eapply exact_proper; [|done|exact He]. intros j. rewrite Hown, !in_range_true. intuition lia. }
  eapply exact_proper; [|done|eapply IH; [..|exact Hm|exact He1]].
  - intros j. rewrite elem_of_cons. naive_solver.
  - intros; apply Hr; set_solver.
  - done.
  - intros Hin j Hj [Hp|[-> _]]; [by apply (HP Hin j); [set_solver|]|done].
Qed.

(** After [vmap_replace] a slot is exact for the entries as they are now, if
    it was for the entries before. *)
Lemma vmap_replace_exact t es_old index e_old e t' s :
  0 <= index < num_entries t -> num_entries t <= TLB_MAX_ENTRIES ->
  aget es_old index = Some e_old -> aget (entries t) index = Some e ->
  (forall j, j <> index -> aget (entries t) j = aget es_old j) ->
  vmap_replace t index (vmap_range e_old) = Some t' ->
  exact (fun j => 0 <= j < num_entries t /\ owns es_old s j) (vget (vmap t) s) ->
  exact (fun j => 0 <= j < num_entries t /\ owns (entries t) s j) (vget (vmap t') s).
Proof.
  intros Hi Hn Hold He Hne. unfold vmap_replace.
  destruct (vmap_range e_old) as [os oc] eqn:Eo.
  destruct (vmap_range_bounds _ _ _ Eo) as [Hos Hoc].
  destruct (vmap_reclaim_all _ _ _ _ _ _) as [m1|] eqn:Hm1; [|done]. cbn [mbind option_bind].
  rewrite He. cbn [mbind option_bind]. destruct (vmap_range e) as [ns nc] eqn:En.
  destruct (vmap_range_bounds _ _ _ En) as [Hns Hnc]. intros [= <-] Hex. cbn [vmap with_vmap].
  assert (Hoth : forall j, j <> index -> owns (entries t) s j <-> owns es_old s j)
    by (intros j Hj; unfold owns; by rewrite Hne).
  set (P := fun j => in_range os oc s = false /\ 0 <= j < num_entries t /\ owns es_old s j).
  assert (H1 : exact (fun j => P j \/ j ∈ seqZ 0 (num_entries t) /\ j <> index /\
                in_range os oc s = true /\ owns (entries t) s j) (vget m1 s)).
  { eapply reclaim_all_exact; [..|exact Hm1|].
    - intros i Hx%elem_of_seqZ. lia.
    - apply NoDup_seqZ.
    - lia.
    - unfold VMAP_SIZE in *. lia.
    - intros Hin i _ [Hf _]. congruence.
    - rewrite vmap_clear_get by (unfold VMAP_SIZE in *; lia). destruct (in_range os oc s) eqn:E.
      + apply exact_miss. intros j [? _]. congruence.
      + eapply exact_proper; [|done|exact Hex]. intros j. unfold P. naive_solver. }
  assert (Hown : owns es_old s index <-> in_range os oc s = true).
  { unfold owns. rewrite Hold, <- (covers_in_range e_old os oc s Eo). naive_solver. }
  assert (Hnew : owns (entries t) s index <-> in_range ns nc s = true).
  { unfold owns. rewrite He, <- (covers_in_range e ns nc s En). naive_solver. }
  eapply exact_proper; [|done|apply fill_exact; [lia..|unfold VMAP_SIZE in *; lia| |exact H1]].
  - intros j. cbn beta. destruct (decide (j = index)) as [->|Hj].
    + rewrite Hnew. unfold P. rewrite Hown. destruct (in_range os oc s); naive_solver.
    + rewrite !(Hoth j Hj), elem_of_seqZ. unfold P.
      destruct (in_range os oc s); naive_solver lia.
  - intros _ [(Hf & _ & Ho)|(_ & Hx & _)]; [|done]. apply Hown in Ho. congruence.
Qed.

Lemma fill_all_total es idxs m :
  (forall i, i ∈ idxs -> 0 <= i < Z.of_nat (length es)) ->
  exists m', fill_all es m idxs = Some m'.
Proof.
  revert m. induction idxs as [|i idxs IH]; intros m Hr; simpl; [eauto|].
  destruct (aget_Some es i) as [e ->]; [apply Hr; set_solver|]. simpl.
  destruct (vmap_range e). apply IH. intros. apply Hr. set_solver.
Qed.

End TlbVmap.
