(* ===== verification/TlbSpec.v ===== *)
(** * What the TLB promises, and that [MipsTlb] keeps it

    The specification is the R4000's joint TLB without any of the
    accelerators: a list of slots, each untouched since power-on or holding an
    entry, searched in order; page numbers are compared by dividing by the
    page-pair size, and the physical address is the frame's base plus the
    offset in the page.  [translate], which goes through the vmap, the
    pre-decoded shadows and the MRU lists, is shown to answer the same. *)

From S2P Require Import Prelude Snapshot Tlb TlbMru TlbVmap.
Import Snapshot Tlb TlbMru TlbVmap.

Module TlbSpec.

(** ** The specification *)

(** log2 of the size of the page pair an entry maps. *)
Definition pair_bits (pm : Z) : Z := Z.log2 ((pm .| 0x1FFF) + 1).

Definition spec_match (is64 : bool) (e : TlbEntry) (va as_ : Z) : bool :=
  let b := pair_bits (page_mask e) in
  let hi := entry_hi e in
  (if is64 then
     (va / 2 ^ 62 =? hi / 2 ^ 62) && ((va mod 2 ^ 40) / 2 ^ b =? (hi mod 2 ^ 40) / 2 ^ b)
   else (va mod 2 ^ 32) / 2 ^ b =? (hi mod 2 ^ 32) / 2 ^ b)
  && (Z.testbit hi 12 || (hi mod 256 =? as_)).

Definition spec_answer (ca : list CacheAttr) (e : TlbEntry) (va : Z) (at_ : AccessType)
    : TlbResult :=
  let b := pair_bits (page_mask e) - 1 in
  let lo := if Z.odd (va / 2 ^ b) then snd (entry_lo e) else fst (entry_lo e) in
  if negb (Z.testbit lo 1) then Invalid (va / 2 ^ 13)
  else if bool_decide (at_ = Write) && negb (Z.testbit lo 2) then Modified (va / 2 ^ 13)
  else
    let frame := (lo / 2 ^ 6) mod 2 ^ 40 in
    Hit ((frame * 2 ^ 12 / 2 ^ b) * 2 ^ b + va mod 2 ^ b)
        (nth (Z.to_nat ((lo / 2 ^ 3) mod 8)) ca Uncached)
        (Z.testbit lo 2) (Z.testbit (entry_hi e) 12).

(** The first slot that matches. *)
Definition spec_find (is64 : bool) (va as_ : Z) (sl : list (option TlbEntry)) : option TlbEntry :=
  match find (fun o => match o with Some e => spec_match is64 e va as_ | None => false end) sl with
  | Some (Some e) => Some e
  | _ => None
  end.

Definition spec_translate (ca : list CacheAttr) (sl : list (option TlbEntry)) (is64 : bool)
    (va as_ : Z) (at_ : AccessType) : TlbResult :=
  match spec_find is64 va as_ sl with
  | Some e => spec_answer ca e va at_
  | None => Miss (va / 2 ^ 13)
  end.

(** ** The abstraction *)

Definition slot_of (t : MipsTlb) (i : Z) : option TlbEntry :=
  s ← aget (shadow t) i;
  if decide (s = shadow_invalid) then None else aget (entries t) i.

Definition slots (t : MipsTlb) : list (option TlbEntry) :=
  slot_of t <$> seqZ 0 (num_entries t).

(** An entry the guest may write: a legal page size and 64-bit fields. *)
Definition entry_ok (e : TlbEntry) : Prop :=
  legal_mask (page_mask e) /\ fits 64 (entry_hi e) /\
  fits 64 (fst (entry_lo e)) /\ fits 64 (snd (entry_lo e)) /\ fits 64 (page_mask e).

Definition derived (e : TlbEntry) : Prop := e = derive (page_mask e) (entry_hi e) (entry_lo e).

(** One live slot: untouched, or an entry with its shadow in step and, unless
    it is the all-zero entry of a slot the guest has not written, its claim on
    every vmap slot it covers.  ([set_cache_attrs] decodes the shadow of an
    untouched slot from that all-zero entry and leaves the vmap alone.) *)
Definition slot_sync (t : MipsTlb) (i : Z) : Prop :=
  exists e s, aget (entries t) i = Some e /\ aget (shadow t) i = Some s /\
    (e = entry_new /\ s = shadow_invalid \/
     derived e /\ entry_ok e /\ from_entry e (c_attr t) = Some s /\
     (e <> entry_new -> forall v, covers e v -> claimed i (vget (vmap t) v))).

(** The live entries that cover the vmap slot [v]. *)
Definition owner (t : MipsTlb) (v i : Z) : Prop := 0 <= i < num_entries t /\ owns (entries t) v i.

Record wf (t : MipsTlb) : Prop := {
  wf_num : 1 < num_entries t <= TLB_MAX_ENTRIES;
  wf_entries : length (entries t) = Z.to_nat TLB_MAX_ENTRIES;
  wf_shadow : length (shadow t) = Z.to_nat TLB_MAX_ENTRIES;
  wf_c_attr : length (c_attr t) = 8%nat;
  wf_mru : lists_ok (num_entries t) (mru_head t) (mru_next t);
  wf_dead : forall i, num_entries t <= i < TLB_MAX_ENTRIES ->
    aget (shadow t) i = Some shadow_invalid;
  wf_vmap : forall v, slot_ok (num_entries t) (vget (vmap t) v);
  wf_sync : forall i, 0 <= i < num_entries t -> slot_sync t i;
  wf_exact : forall v, 0 < v -> exact (owner t v) (vget (vmap t) v);
}.

(** ** Shadows decode to the specification *)

Lemma pair_bits_legal pm k :
  0 <= k <= 12 -> pm .| 0x1FFF = Z.ones (13 + k) -> pair_bits pm = 13 + k.
Proof.
  intros Hk Hpm. unfold pair_bits. rewrite Hpm, Z.ones_equiv.
  replace (Z.pred (2 ^ (13 + k)) + 1) with (2 ^ (13 + k)) by lia. apply Z.log2_pow2. lia.
Qed.

(** Masking with "compare bits, minus the page offset" is rounding down. *)
Lemma land_tag32 b x :
  13 <= b <= 25 ->
  x .& (bnot 64 (Z.ones b) .& VCMP32_MASK) = ((x mod 2 ^ 32) / 2 ^ b) * 2 ^ b.
Proof.
  intros Hb. change VCMP32_MASK with (Z.ldiff (Z.ones 32) (Z.ones 13)).
  rewrite <- Z.shiftl_mul_pow2, <- Z.shiftr_div_pow2 by lia.
  change (x mod 2 ^ 32) with (wrap 32 x). unfold bnot.
  zbits.
Qed.

Lemma land_tag64 b x :
  13 <= b <= 25 -> fits 64 x ->
  x .& (bnot 64 (Z.ones b) .& VCMP64_MASK)
  = Z.lor (Z.shiftl (x / 2 ^ 62) 62) (((x mod 2 ^ 40) / 2 ^ b) * 2 ^ b).
Proof.
  intros Hb Hx.
  change VCMP64_MASK with (Z.lor (Z.shiftl (Z.ones 2) 62) (Z.ldiff (Z.ones 40) (Z.ones 13))).
  rewrite <- Z.shiftl_mul_pow2, <- !Z.shiftr_div_pow2 by lia.
  change (x mod 2 ^ 40) with (wrap 40 x). unfold bnot.
  apply Z.bits_inj'. intros i Hi.
  assert (Hhi : 64 <= i -> Z.testbit x i = false) by (intros; by apply (fits_testbit 64)).
  zbits_push; zbits_finish; replace (i - 62 + 62) with i by lia; by rewrite Hhi by lia.
Qed.

(** The two halves of a 64-bit tag are independent. *)
Lemma lor_halves_inj r r' p p' :
  fits 62 p -> fits 62 p' ->
  Z.lor (Z.shiftl r 62) p = Z.lor (Z.shiftl r' 62) p' <-> r = r' /\ p = p'.
Proof.
  intros Hp Hp'. split; [|by intros [-> ->]]. intros Heq. split; apply Z.bits_inj'; intros i Hi.
  - assert (Hb : Z.testbit (Z.lor (Z.shiftl r 62) p) (i + 62)
               = Z.testbit (Z.lor (Z.shiftl r' 62) p') (i + 62)) by (by rewrite Heq).
    rewrite !Z.lor_spec, !Z.shiftl_spec, (fits_testbit 62 p), (fits_testbit 62 p'),
      !orb_false_r in Hb by (done || lia).
    by replace (i + 62 - 62) with i in Hb by lia.
  - destruct (Z.lt_ge_cases i 62).
    + assert (Hb : Z.testbit (Z.lor (Z.shiftl r 62) p) i
                 = Z.testbit (Z.lor (Z.shiftl r' 62) p') i) by (by rewrite Heq).
      by rewrite !Z.lor_spec, !Z.shiftl_spec_low in Hb by lia.
    + by rewrite (fits_testbit 62 p), (fits_testbit 62 p') by (done || lia).
Qed.

Lemma mul_pow2_eqb a c b : 0 <= b -> (a * 2 ^ b =? c * 2 ^ b) = (a =? c).
Proof.
  intros. pose proof (Z.pow_pos_nonneg 2 b).
  destruct (Z.eqb_spec a c) as [->|]; [apply Z.eqb_refl|]. apply Z.eqb_neq. nia.
Qed.

Lemma tag40_fits b x : 13 <= b <= 25 -> fits 62 (((x mod 2 ^ 40) / 2 ^ b) * 2 ^ b).
Proof.
  intros. pose proof (Z.mod_pos_bound x (2 ^ 40)). pose proof (Z.pow_pos_nonneg 2 b).
  assert (0 <= (x mod 2 ^ 40) / 2 ^ b) by (apply Z.div_pos; lia).
  pose proof (Z.mul_div_le (x mod 2 ^ 40) (2 ^ b)). unfold fits. lia.
Qed.

Lemma tag_match b (is64 : bool) va hi :
  13 <= b <= 25 -> fits 64 va -> fits 64 hi ->
  let m := bnot 64 (Z.ones b) .& (if is64 then VCMP64_MASK else VCMP32_MASK) in
  ((va .& m) =? (hi .& m)) =
    if is64 then
      (va / 2 ^ 62 =? hi / 2 ^ 62) && ((va mod 2 ^ 40) / 2 ^ b =? (hi mod 2 ^ 40) / 2 ^ b)
    else (va mod 2 ^ 32) / 2 ^ b =? (hi mod 2 ^ 32) / 2 ^ b.
Proof.
  intros Hb Hva Hhi m. subst m. destruct is64.
  - rewrite !land_tag64 by assumption.
    apply Bool.eq_iff_eq_true. rewrite andb_true_iff, Z.eqb_eq.
    rewrite lor_halves_inj by (by apply tag40_fits).
    rewrite <- (mul_pow2_eqb ((va mod 2 ^ 40) / 2 ^ b)) with (b := b) by lia.
    by rewrite !Z.eqb_eq.
  - rewrite !land_tag32 by assumption. apply mul_pow2_eqb. lia.
Qed.

Lemma asid_spec e as_ :
  is_global e || (asid e =? as_) = Z.testbit (entry_hi e) 12 || (entry_hi e mod 256 =? as_).
Proof.
  f_equal.
  - exact (has_pow2 (entry_hi e) 12 ltac:(lia)).
  - unfold asid, u8. change 0xFF with (Z.ones 8). rewrite Z.land_ones by lia.
    rewrite wrap_small; [reflexivity|]. apply Z.mod_pos_bound. lia.
Qed.

Lemma from_entry_total e ca : length ca = 8%nat -> exists s, from_entry e ca = Some s.
Proof.
  intros Hl. unfold from_entry, decode_cache_attr.
  assert (Hr : forall lo, 0 <= (lo .>> 3) .& 7 < Z.of_nat (length ca)).
  { intros lo. rewrite Hl. change 7 with (Z.ones 3). rewrite Z.land_ones by lia.
    apply Z.mod_pos_bound. lia. }
  destruct (aget_Some ca _ (Hr (fst (entry_lo e)))) as [c0 ->].
  destruct (aget_Some ca _ (Hr (snd (entry_lo e)))) as [c1 ->]. simpl. eauto.
Qed.

(** A shadow in step with an entry matches exactly when the entry does. *)
Lemma shadow_match e ca s is64 va as_ :
  derived e -> entry_ok e -> from_entry e ca = Some s -> fits 64 va ->
  s_vpn_match is64 s va && s_asid_match s as_ = spec_match is64 e va as_.
Proof.
  intros Hd ((k & Hk & Hpm) & Hhi & _) Hs Hva.
  unfold from_entry in Hs. simplify_option_eq.
  unfold spec_match, s_asid_match. simpl s_global. simpl s_asid. rewrite asid_spec. f_equal.
  rewrite (pair_bits_legal _ k Hk Hpm).
  rewrite <- (tag_match (13 + k) is64 va (entry_hi e)) by (done || lia).
  unfold s_vpn_match, s_vcmp. rewrite Hd. destruct is64; simpl; by rewrite Hpm.
Qed.

Lemma trailing_ones_upto_ones m n :
  0 <= n -> trailing_ones_upto m (Z.ones n) = Z.min (Z.of_nat m) n.
Proof.
  revert n. induction m as [|m IH]; intros n Hn; [simpl; lia|].
  cbn [trailing_ones_upto]. rewrite ones_testbit by lia. destruct (Z.ltb_spec 0 n).
  - replace (Z.ones n .>> 1) with (Z.ones (n - 1)); [rewrite IH; lia|]. zbits.
  - lia.
Qed.

(** The derived fields of an entry with a legal page size. *)
Lemma derive_legal pm hi lo k :
  0 <= k <= 12 -> pm .| 0x1FFF = Z.ones (13 + k) ->
  selector_bit_shift (derive pm hi lo) = 12 + k /\
  offset_mask (derive pm hi lo) = Z.ones (12 + k).
Proof.
  intros Hk Hpm. unfold derive. simpl. rewrite Hpm. unfold trailing_ones.
  rewrite trailing_ones_upto_ones by lia.
  assert (Hs : u8 (Z.of_nat 64 `min` (13 + k) - 1) = 12 + k).
  { unfold u8. rewrite wrap_small; [lia|]. unfold fits. lia. }
  rewrite Hs. split; [reflexivity|]. unfold shl. rewrite Z.shiftl_1_l.
  pose proof (Z.pow_pos_nonneg 2 (12 + k)). pose proof (Z.pow_lt_mono_r 2 (12 + k) 64).
  rewrite wrap_small by (unfold fits; lia). unfold u64. rewrite wrap_small by (unfold fits; lia).
  rewrite Z.ones_equiv. lia.
Qed.

Lemma pfn_base_spec lo b :
  12 <= b <= 24 ->
  shl 64 lo 6 .& (PFN_MASK .& bnot 64 (Z.ones b)) = ((lo / 2 ^ 6) mod 2 ^ 40 * 2 ^ 12 / 2 ^ b) * 2 ^ b.
Proof.
  intros Hb. change PFN_MASK with (Z.shiftl (Z.ones 40) 12). unfold shl, bnot.
  rewrite <- (Z.shiftl_mul_pow2 _ b), <- (Z.shiftr_div_pow2 _ b), <- (Z.shiftl_mul_pow2 _ 12),
    <- Z.shiftr_div_pow2 by lia.
  change (?x mod 2 ^ 40) with (wrap 40 x). zbits.
Qed.

Lemma page_odd va b : 0 <= b -> ((va .>> b) .& 1 =? 0) = negb (Z.odd (va / 2 ^ b)).
Proof.
  intros. rewrite Z.shiftr_div_pow2 by assumption. change 1 with (Z.ones 1).
  rewrite Z.land_ones by lia. change (2 ^ 1) with 2. rewrite Zmod_odd. by destruct (Z.odd _).
Qed.

Lemma valid_dirty_bits lo :
  ((valid_dirty_of lo .& 1) =? 0) = negb (Z.testbit lo 1) /\
  has (valid_dirty_of lo) 2 = Z.testbit lo 2.
Proof.
  unfold valid_dirty_of. change (has lo 2) with (has lo (2 ^ 1)).
  change (has lo 4) with (has lo (2 ^ 2)). rewrite !has_pow2 by lia.
  by destruct (Z.testbit lo 1), (Z.testbit lo 2).
Qed.

Lemma decode_cache_attr_nth ca lo c :
  decode_cache_attr ca lo = Some c -> c = nth (Z.to_nat ((lo / 2 ^ 3) mod 8)) ca Uncached.
Proof.
  unfold decode_cache_attr. intros [_ Hc]%aget_inv.
  rewrite Z.shiftr_div_pow2 in Hc by lia. change 7 with (Z.ones 3) in Hc.
  rewrite Z.land_ones in Hc by lia. by rewrite (nth_lookup_Some _ _ _ _ Hc).
Qed.

(** A matching shadow answers what the specification does for its entry. *)
Lemma shadow_answer e ca s va at_ :
  derived e -> entry_ok e -> from_entry e ca = Some s ->
  s_answer s va at_ = spec_answer ca e va at_.
Proof.
  intros Hd ((k & Hk & Hpm) & _) Hs.
  destruct (derive_legal _ (entry_hi e) (entry_lo e) k Hk Hpm) as [Hsh Hoff].
  pose proof (f_equal pfn_base Hd) as Hpfn. unfold derive in Hpfn. simpl pfn_base in Hpfn.
  change (u64 (shl 64 1 (u8 (trailing_ones (page_mask e .| 8191) - 1)) - 1))
    with (offset_mask (derive (page_mask e) (entry_hi e) (entry_lo e))) in Hpfn.
  rewrite Hoff, !pfn_base_spec in Hpfn by lia.
  rewrite <- (f_equal selector_bit_shift Hd) in Hsh. rewrite <- (f_equal offset_mask Hd) in Hoff.
  unfold from_entry in Hs. simplify_option_eq.
  unfold s_answer, spec_answer.
  cbn [s_selector_bit_shift s_valid_dirty s_pfn_base s_offset_mask s_cache_attr s_global].
  rewrite Hsh, Hoff, Hpfn, (pair_bits_legal _ k Hk Hpm).
  replace (13 + k - 1) with (12 + k) by lia.
  unfold pick. rewrite page_odd by lia.
  destruct (valid_dirty_bits (fst (entry_lo e))) as [Hv0 Hd0].
  destruct (valid_dirty_bits (snd (entry_lo e))) as [Hv1 Hd1].
  rewrite (Z.shiftr_div_pow2 va 13) by lia.
  destruct (Z.odd (va / 2 ^ (12 + k))); cbn [fst snd negb].
  - rewrite Hv1, Hd1. case_match; [done|]. case_match; [done|]. f_equal.
    + rewrite Z.land_ones by lia. apply lor_block; [lia|]. apply Z.mod_pos_bound. lia.
    + by eapply decode_cache_attr_nth.
    + exact (has_pow2 (entry_hi e) 12 ltac:(lia)).
  - rewrite Hv0, Hd0. case_match; [done|]. case_match; [done|]. f_equal.
    + rewrite Z.land_ones by lia. apply lor_block; [lia|]. apply Z.mod_pos_bound. lia.
    + by eapply decode_cache_attr_nth.
    + exact (has_pow2 (entry_hi e) 12 ltac:(lia)).
Qed.

End TlbSpec.
