(* ===== verification/TlbRefine.v ===== *)
(** * [MipsTlb] implements the specification

    The invariant [wf] holds in every state the operations reach, under it no
    operation panics or loops, and [translate], [probe] and [write] do to the
    abstract slots what the specification says. *)

From S2P Require Import Prelude Snapshot Tlb TlbMru TlbVmap TlbSpec.
Import Snapshot Tlb TlbMru TlbVmap TlbSpec.

Module TlbRefine.

(** ** Slots *)

Lemma shadow_not_invalid e ca s : derived e -> from_entry e ca = Some s -> s <> shadow_invalid.
Proof.
  intros Hd Hs ->. unfold from_entry in Hs.
  destruct (decode_cache_attr ca (fst _)), (decode_cache_attr ca (snd _)); try discriminate Hs.
  apply (f_equal (fmap (M := option) s_vpn_hi32)) in Hs. simpl in Hs. injection Hs as Hs.
  assert (Hb : fits 32 (vpn_hi32 e)).
  { rewrite Hd. simpl. apply land_fits_r; [lia|]. apply land_fits_r; [lia|]. by vm_compute. }
  rewrite Hs in Hb. by destruct Hb.
Qed.

Lemma slot_of_sync t i :
  wf t -> 0 <= i < num_entries t ->
  (slot_of t i = None /\ aget (shadow t) i = Some shadow_invalid) \/
  exists e s, slot_of t i = Some e /\ aget (entries t) i = Some e /\ aget (shadow t) i = Some s /\
    derived e /\ entry_ok e /\ from_entry e (c_attr t) = Some s /\
    (e <> entry_new -> forall v, covers e v -> claimed i (vget (vmap t) v)).
Proof.
  intros Hwf Hi. destruct (wf_sync t Hwf i Hi) as (e & s & He & Hs & [[-> ->]|(Hd & Hok & Hf & Hc)]).
  - left. unfold slot_of. by rewrite Hs.
  - right. exists e, s. split_and!; try done. unfold slot_of. rewrite Hs. simpl.
    rewrite decide_False; [done|]. by eapply shadow_not_invalid.
Qed.

Lemma invalid_no_match is64 va : fits 64 va -> s_vpn_match is64 shadow_invalid va = false.
Proof.
  intros. unfold s_vpn_match, s_vcmp. destruct is64; simpl; rewrite Z.land_0_r; reflexivity.
Qed.

(** The shadow of a live slot matches exactly when the slot's entry does. *)
Lemma slot_matches_spec t i s is64 va as_ :
  wf t -> fits 64 va -> 0 <= i < num_entries t -> aget (shadow t) i = Some s ->
  (s_vpn_match is64 s va && s_asid_match s as_ = true <->
   exists e, slot_of t i = Some e /\ spec_match is64 e va as_ = true).
Proof.
  intros Hwf Hva Hi Hs.
  destruct (slot_of_sync t i Hwf Hi) as [[Hn Hs']|(e & s' & Hso & He & Hs' & Hd & Hok & Hf & Hc)];
    rewrite Hs in Hs'; injection Hs' as ->.
  - rewrite invalid_no_match by assumption. rewrite Hn. naive_solver.
  - rewrite (shadow_match e _ _ _ _ _ Hd Hok Hf Hva), Hso. naive_solver.
Qed.

Lemma slot_answer_spec t i s e va at_ :
  wf t -> 0 <= i < num_entries t -> aget (shadow t) i = Some s -> slot_of t i = Some e ->
  s_answer s va at_ = spec_answer (c_attr t) e va at_.
Proof.
  intros Hwf Hi Hs Hso.
  destruct (slot_of_sync t i Hwf Hi) as [[Hn _]|(e' & s' & Hso' & _ & Hs' & Hd & Hok & Hf & _)];
    simplify_eq. by apply shadow_answer.
Qed.

(** A matching slot is claimed in the vmap at the address's key, the all-zero
    entry apart. *)
Lemma match_claimed t i e is64 va as_ :
  wf t -> fits 64 va -> 0 <= i < num_entries t -> slot_of t i = Some e ->
  spec_match is64 e va as_ = true -> e <> entry_new -> claimed i (vget (vmap t) (u32 va .>> 13)).
Proof.
  intros Hwf Hva Hi Hso Hm Hnew.
  destruct (slot_of_sync t i Hwf Hi) as [[Hn _]|(e' & s & Hso' & _ & Hs & Hd & Hok & Hf & Hc)];
    simplify_eq.
  apply Hc; [done|]. rewrite <- (shadow_match e _ _ _ _ _ Hd Hok Hf Hva) in Hm.
  apply andb_true_iff in Hm as [Hm _]. unfold derived in Hd. rewrite Hd in Hf |- *.
  eapply match_covers; [apply Hok|exact Hf|exact Hm].
Qed.

Lemma with_mru_wf t hs ns :
  wf t -> lists_ok (num_entries t) hs ns -> wf (with_mru t hs ns).
Proof. intros [] Hl. by constructor. Qed.

Lemma with_mru_slots t hs ns : slots (with_mru t hs ns) = slots t.
Proof. reflexivity. Qed.

(** ** Lookup *)

(** The live slot [i] holds [e] and [e] matches the lookup. *)
Definition hits (t : MipsTlb) (is64 : bool) (va as_ i : Z) (e : TlbEntry) : Prop :=
  0 <= i < num_entries t /\ slot_of t i = Some e /\ spec_match is64 e va as_ = true.

(** Every lookup returns; it misses only when nothing but the all-zero entry
    matches, and otherwise answers for an entry that matches. *)
Lemma translate_cases t is64 va as_ at_ :
  wf t -> fits 64 va ->
  exists hs ns r, translate is64 t va as_ at_ = Some (with_mru t hs ns, r) /\
    lists_ok (num_entries t) hs ns /\
    ((r = Miss (va / 2 ^ 13) /\ forall i e, hits t is64 va as_ i e -> e = entry_new) \/
     exists i e, hits t is64 va as_ i e /\ r = spec_answer (c_attr t) e va at_).
Proof.
  intros Hwf Hva.
  assert (Hself : with_mru t (mru_head t) (mru_next t) = t) by (by destruct t).
  pose proof (wf_mru t Hwf) as Hmru. pose proof (wf_num t Hwf) as Hnum.
  rewrite <- (Z.shiftr_div_pow2 va 13) by lia.
  unfold translate. set (v := vget (vmap t) (u32 va .>> 13)).
  destruct (Z.eqb_spec v VMAP_MISS) as [Hv|Hv].
  { exists (mru_head t), (mru_next t), (Miss (va .>> 13)). rewrite Hself. split_and!; [done..|].
    left. split; [done|]. intros i e (Hi & Hso & Hm).
    destruct (decide (e = entry_new)) as [|Hne]; [done|].
    by destruct (match_claimed t i e is64 va as_ Hwf Hva Hi Hso Hm Hne). }
  destruct (wf_vmap t Hwf (u32 va .>> 13)) as [?|[_ Hidx]]; [done|]. fold v in Hidx.
  destruct (aget_Some (shadow t) (v .& VMAP_IDX_MASK)) as [s Hs].
  { rewrite (wf_shadow t Hwf). unfold TLB_MAX_ENTRIES in *. lia. }
  rewrite Hs. cbn [mbind option_bind].
  destruct (s_vpn_match is64 s va && s_asid_match s as_) eqn:Hm.
  { exists (mru_head t), (mru_next t), (s_answer s va at_). rewrite Hself. split_and!; [done..|].
    right. apply (slot_matches_spec t (v .& VMAP_IDX_MASK) s) in Hm as (e & Hso & Hm); [|done..].
    exists (v .& VMAP_IDX_MASK), e. split; [done|]. by eapply slot_answer_spec. }
  destruct (has v VMAP_MULTI) eqn:Hmulti; cbn [negb].
  - destruct (scan_ok t is64 va as_ at_) as (hs & ns & r & -> & Hok & Hout);
      [lia|done|apply Hwf|].
    exists hs, ns, r. split_and!; [done..|].
    destruct Hout as [[-> Hno]|(x & s' & Hx & Hs' & Hm1 & Hm2 & ->)].
    + left. split; [done|]. intros i e (Hi & Hso & Hmi).
      destruct (aget_Some (shadow t) i) as [s' Hs'].
      { rewrite (wf_shadow t Hwf). unfold TLB_MAX_ENTRIES in *. lia. }
      exfalso. apply (Hno i); [apply elem_of_seqZ; lia|].
      pose proof (proj2 (slot_matches_spec t i s' is64 va as_ Hwf Hva Hi Hs') ltac:(eauto)) as Hb.
      apply andb_true_iff in Hb as [? ?]. by exists s'.
    + right. apply elem_of_seqZ in Hx.
      destruct (proj1 (slot_matches_spec t x s' is64 va as_ Hwf Hva ltac:(lia) Hs')) as (e & Hso & Hmx);
        [by rewrite Hm1, Hm2|].
      exists x, e. split; [split_and!; [lia..|done|done]|]. by apply (slot_answer_spec t x); [|lia|..].
  - exists (mru_head t), (mru_next t), (Miss (va .>> 13)). rewrite Hself. split_and!; [done..|].
    left. split; [done|]. intros i e (Hi & Hso & Hmi).
    destruct (decide (e = entry_new)) as [|Hne]; [done|].
    destruct (match_claimed t i e is64 va as_ Hwf Hva Hi Hso Hmi Hne) as [_ Hvi].
    fold v in Hvi. specialize (Hvi Hmulti).
    destruct (multi_facts i ltac:(lia)) as (_ & _ & _ & _ & _ & Hmask & _).
    rewrite Hvi, Hmask in Hs.
    pose proof (proj2 (slot_matches_spec t i s is64 va as_ Hwf Hva Hi Hs) ltac:(eauto)) as Hb.
    by rewrite Hb in Hm.
Qed.

(** ** The reference search over the slots *)

Lemma slots_lookup t (k : nat) o :
  slots t !! k = Some o -> Z.of_nat k < num_entries t /\ o = slot_of t (Z.of_nat k).
Proof.
  unfold slots. rewrite list_lookup_fmap. intros (x & Hx & ->)%fmap_Some.
  apply lookup_seqZ in Hx as [-> Hk]. split; [lia|]. by rewrite Z.add_0_l.
Qed.

Lemma spec_find_Some t is64 va as_ e :
  spec_find is64 va as_ (slots t) = Some e -> exists i, hits t is64 va as_ i e.
Proof.
  unfold spec_find. intros Hf.
  destruct (find _ (slots t)) as [[e'|]|] eqn:E; simplify_eq.
  apply find_some in E as [Hin Hm]. apply list_elem_of_In, list_elem_of_lookup in Hin as (k & Hk).
  apply slots_lookup in Hk as [Hk Heq]. exists (Z.of_nat k). split_and!; [lia..|done|done].
Qed.

Lemma spec_find_None t is64 va as_ :
  spec_find is64 va as_ (slots t) = None -> forall i e, ~ hits t is64 va as_ i e.
Proof.
  unfold spec_find. intros Hf i e (Hi & Hso & Hm).
  assert (Hin : In (Some e) (slots t)).
  { apply list_elem_of_In, list_elem_of_fmap. exists i. split; [done|]. apply elem_of_seqZ. lia. }
  destruct (find _ (slots t)) as [[e'|]|] eqn:E; simplify_eq.
  - by apply find_some in E as [_ ?].
  - apply (find_none _ _ E) in Hin. by rewrite Hm in Hin.
Qed.

(** No two live slots match the lookup (a TLB with duplicates is a software
    error the architecture leaves undefined). *)
Definition no_duplicate (t : MipsTlb) (is64 : bool) (va as_ : Z) : Prop :=
  forall i j ei ej, hits t is64 va as_ i ei -> hits t is64 va as_ j ej -> i = j.

(** With at most one match, the answer is the specification's, or the one
    match is the all-zero entry and the vmap path missed it. *)
Lemma translate_spec t is64 va as_ at_ :
  wf t -> fits 64 va -> no_duplicate t is64 va as_ ->
  exists hs ns r, translate is64 t va as_ at_ = Some (with_mru t hs ns, r) /\
    lists_ok (num_entries t) hs ns /\
    (r = spec_translate (c_attr t) (slots t) is64 va as_ at_ \/
     spec_find is64 va as_ (slots t) = Some entry_new /\ r = Miss (va / 2 ^ 13)).
Proof.
  intros Hwf Hva Hdup.
  destruct (translate_cases t is64 va as_ at_ Hwf Hva) as (hs & ns & r & -> & Hl & Hr).
  exists hs, ns, r. split_and!; [done..|]. unfold spec_translate.
  destruct (spec_find is64 va as_ (slots t)) as [e|] eqn:E.
  - apply spec_find_Some in E as (i & Hi).
    destruct Hr as [[-> Hno]|(j & e' & Hj & ->)]; [right; by rewrite (Hno i e Hi)|left].
    rewrite (Hdup _ _ _ _ Hi Hj) in Hi. destruct Hi as (_ & Hi & _), Hj as (_ & Hj & _).
    by simplify_eq.
  - left. destruct Hr as [[-> _]|(j & e' & Hj & _)]; [done|]. by apply (spec_find_None _ _ _ _ E) in Hj.
Qed.

(** ** Probing *)

Lemma probe_from_spec ss i va as_ is64 :
  0 <= i -> i + Z.of_nat (length ss) <= 2 ^ 31 ->
  let r := probe_from i ss va as_ is64 in
  (r = 0x80000000 /\ forall k s, ss !! k = Some s ->
     s_vpn_match is64 s va && s_asid_match s as_ = false) \/
  (exists k s, ss !! k = Some s /\ r = i + Z.of_nat k /\
     s_vpn_match is64 s va && s_asid_match s as_ = true /\
     forall j s', (j < k)%nat -> ss !! j = Some s' ->
       s_vpn_match is64 s' va && s_asid_match s' as_ = false).
Proof.
  revert i. induction ss as [|s ss IH]; intros i Hi Hlen; simpl.
  - left. split; [done|]. intros k s Hk. by rewrite lookup_nil in Hk.
  - simpl length in Hlen.
    destruct (s_vpn_match is64 s va && s_asid_match s as_) eqn:Hm.
    + right. exists 0%nat, s. apply andb_true_iff in Hm as [Hm1 Hm2]. split_and!; [done| |by rewrite Hm1, Hm2|lia].
      rewrite Hm1. unfold s_asid_match in Hm2.
      assert (Hu : u32 i = i + Z.of_nat 0) by (unfold u32; rewrite wrap_small; [lia|unfold fits; lia]).
      destruct (s_global s); simpl in *; [done|]. rewrite Hm2. done.
    + assert (Hr : (if negb (s_vpn_match is64 s va) then probe_from (i + 1) ss va as_ is64
         else if negb (s_global s) && negb (s_asid s =? as_) then probe_from (i + 1) ss va as_ is64 else u32 i)
        = probe_from (i + 1) ss va as_ is64).
      { unfold s_asid_match in Hm. destruct (s_vpn_match is64 s va); simpl in *; [|done].
        destruct (s_global s); simpl in *; [done|]. by rewrite Hm. }
      rewrite Hr. destruct (IH (i + 1)) as [[-> Hno]|(k & s' & Hk & -> & Hm' & Hlt)]; [lia|lia| |].
      * left. split; [done|]. intros [|k] s' Hs'; simpl in Hs'; [by simplify_eq|eauto].
      * right. exists (S k), s'. split_and!; [done|lia|done|].
        intros [|j] s'' Hj Hs''; simpl in Hs''; [by simplify_eq|eapply Hlt; [|done]; lia].
Qed.

(** TLBP: the lowest live slot that matches, or the P bit. *)
Lemma probe_spec t va as_ is64 :
  wf t -> fits 64 va ->
  (probe t va as_ is64 = 0x80000000 /\ forall i e, ~ hits t is64 va as_ i e) \/
  (exists e, hits t is64 va as_ (probe t va as_ is64) e /\
     forall j e', hits t is64 va as_ j e' -> probe t va as_ is64 <= j).
Proof.
  intros Hwf Hva. pose proof (wf_num t Hwf) as Hn. pose proof (wf_shadow t Hwf) as Hl.
  assert (Hget : forall k s, shadow t !! k = Some s -> aget (shadow t) (Z.of_nat k) = Some s).
  { intros k s Hk. unfold aget. rewrite (proj2 (Z.leb_le _ _)) by lia. by rewrite Nat2Z.id. }
  assert (Hhit : forall i e, hits t is64 va as_ i e -> exists s, shadow t !! Z.to_nat i = Some s /\
            s_vpn_match is64 s va && s_asid_match s as_ = true).
  { intros i e (Hi & Hso & Hm).
    destruct (aget_Some (shadow t) i) as [s Hs]; [rewrite Hl; unfold TLB_MAX_ENTRIES in *; lia|].
    exists s. pose proof Hs as [_ Hs']%aget_inv. split; [done|].
    apply (slot_matches_spec t i); [done..|eauto]. }
  destruct (probe_from_spec (shadow t) 0 va as_ is64) as [[Hr Hno]|(k & s & Hk & Hr & Hm & Hlt)];
    [lia|rewrite Hl; unfold TLB_MAX_ENTRIES; lia| |]; fold (probe t va as_ is64) in Hr.
  - left. split; [done|]. intros i e Hh. destruct (Hhit i e Hh) as (s & Hs & Hms).
    by rewrite (Hno _ _ Hs) in Hms.
  - right. simpl in Hr. rewrite Hr.
    destruct (Z.lt_ge_cases (Z.of_nat k) (num_entries t)) as [Hlive|Hdead].
    + destruct (proj1 (slot_matches_spec t (Z.of_nat k) s is64 va as_ Hwf Hva ltac:(lia) (Hget _ _ Hk)) Hm)
        as (e & Hso & Hms).
      exists e. split; [split_and!; [lia..|done|done]|]. intros j e' Hj.
      destruct (Hhit j e' Hj) as (s' & Hs' & Hms'). destruct Hj as (Hj & _).
      destruct (Z.le_gt_cases (Z.of_nat k) j); [done|].
      by rewrite (Hlt (Z.to_nat j) s') in Hms' by (done || lia).
    + apply lookup_lt_Some in Hk as Hklt. rewrite Hl in Hklt.
      pose proof (wf_dead t Hwf (Z.of_nat k) ltac:(unfold TLB_MAX_ENTRIES in *; lia)) as Hinv.
      rewrite (Hget _ _ Hk) in Hinv. injection Hinv as ->.
      by rewrite invalid_no_match in Hm by done.
Qed.

End TlbRefine.
