(* ===== verification/TlbOps.v ===== *)
(** * The TLB's state-changing operations

    Every operation keeps the invariant [wf], none of them panics, and each
    does to the abstract slots what its name says; states reachable from
    power-on are therefore always searched correctly.  The claims about the
    TLB are stated at the end. *)

From S2P Require Import Prelude Snapshot Tlb TlbMru TlbVmap TlbSpec TlbRefine.
Import Snapshot Tlb TlbMru TlbVmap TlbSpec TlbRefine.

Module TlbOps.

(** ** Initial states *)

Lemma aget_replicate {A} (n : nat) (x : A) i : 0 <= i < Z.of_nat n -> aget (replicate n x) i = Some x.
Proof.
  intros. unfold aget. rewrite (proj2 (Z.leb_le _ _)) by lia. apply lookup_replicate_2. lia.
Qed.

(** The all-zero entry covers only the first 8 KB. *)
Lemma entry_new_covers v : covers entry_new v -> v = 0.
Proof.
  unfold covers. change (vmap_range entry_new) with (0, 1). cbn iota. lia.
Qed.

(** A TLB whose slots are all untouched and whose vmap is empty. *)
Lemma blank_wf t :
  1 < num_entries t <= TLB_MAX_ENTRIES ->
  entries t = replicate (Z.to_nat TLB_MAX_ENTRIES) entry_new ->
  shadow t = replicate (Z.to_nat TLB_MAX_ENTRIES) shadow_invalid ->
  length (c_attr t) = 8%nat -> vmap t = ∅ ->
  lists_ok (num_entries t) (mru_head t) (mru_next t) -> wf t.
Proof.
  intros Hn He Hs Hc Hv Hl. constructor; try done.
  - by rewrite He, length_replicate.
  - by rewrite Hs, length_replicate.
  - intros i Hi. rewrite Hs. apply aget_replicate. unfold TLB_MAX_ENTRIES in *. lia.
  - intros v. rewrite Hv. by left.
  - intros i Hi. exists entry_new, shadow_invalid. rewrite He, Hs.
    split_and!; [apply aget_replicate; unfold TLB_MAX_ENTRIES in *; lia..|by left].
  - intros v Hv0. rewrite Hv. apply exact_miss. intros j (Hj & e & Hej & Hcov). rewrite He in Hej.
    rewrite aget_replicate in Hej by (unfold TLB_MAX_ENTRIES in *; lia). injection Hej as <-.
    by apply (entry_new_covers v) in Hcov; lia.
Qed.

Lemma new_wf n t : new n = Some t -> wf t.
Proof.
  unfold new. destruct ((1 <? n) && (n <=? TLB_MAX_ENTRIES)) eqn:E; [|done]. intros [= <-].
  assert (1 < n <= TLB_MAX_ENTRIES) by lia. apply blank_wf; try done.
  unfold new_tlb. cbn [mru_head mru_next num_entries]. rewrite <- fmap_replicate. apply lists_ok_chain; [lia|apply length_replicate|].
  apply Forall_replicate, length_replicate.
Qed.

Lemma lists_ok_lengths n hs ns :
  lists_ok n hs ns -> Forall (fun o => length o = Z.to_nat TLB_MAX_ENTRIES) ns.
Proof.
  intros (Hh & Hn & Hok). apply Forall_lookup. intros k nx Hk.
  destruct (lookup_lt_is_Some_2 hs k) as [h Hh'].
  { apply lookup_lt_Some in Hk. by rewrite Hh, <- Hn. }
  by destruct (Hok k h nx Hh' Hk) as [? _].
Qed.

Lemma mru_reset_ok t :
  wf t -> lists_ok (num_entries t) (replicate (Z.to_nat MRU_LISTS) 0)
            (mru_chain (num_entries t) <$> mru_next t).
Proof.
  intros Hwf. pose proof (wf_num t Hwf). pose proof (wf_mru t Hwf) as Hl.
  apply lists_ok_chain; [lia|apply Hl|by eapply lists_ok_lengths].
Qed.

Lemma power_on_wf t : wf t -> wf (power_on t).
Proof.
  intros Hwf. unfold power_on, mru_reset. simpl. apply blank_wf; simpl; try done;
    [apply Hwf|apply Hwf|by apply mru_reset_ok].
Qed.

Lemma power_on_slots t i : slot_of (power_on t) i = None.
Proof.
  unfold slot_of.
  change (shadow (power_on t)) with (replicate (Z.to_nat TLB_MAX_ENTRIES) shadow_invalid).
  destruct (aget (replicate _ shadow_invalid) i) as [s|] eqn:E; [|done].
  apply aget_inv in E as [_ [-> _]%lookup_replicate]. cbn [mbind option_bind].
  by rewrite decide_True.
Qed.

(** ** Writing an entry *)

Lemma entry_ok_derive e :
  entry_ok e ->
  let e' := derive (page_mask e) (entry_hi e) (entry_lo e) in entry_ok e' /\ derived e'.
Proof. by intros. Qed.

Lemma write_live t index e :
  wf t -> 0 <= index < num_entries t -> entry_ok e ->
  let e' := derive (page_mask e) (entry_hi e) (entry_lo e) in
  exists s m, from_entry e' (c_attr t) = Some s /\
    write t index e = Some (with_vmap (with_slot t (<[Z.to_nat index := e']> (entries t))
                                         (<[Z.to_nat index := s]> (shadow t))) m) /\
    (forall v, slot_ok (num_entries t) (vget m v)) /\
    (forall v, covers e' v -> claimed index (vget m v)) /\
    (forall j ej v, 0 <= j < num_entries t -> j <> index -> aget (entries t) j = Some ej ->
       covers ej v -> claimed j (vget (vmap t) v) -> claimed j (vget m v)) /\
    (forall v, 0 < v -> exact (fun j => 0 <= j < num_entries t /\
       owns (<[Z.to_nat index := e']> (entries t)) v j) (vget m v)).
Proof.
  intros Hwf Hi Hok e'. pose proof (wf_num t Hwf) as Hn. pose proof (wf_entries t Hwf) as Hle.
  pose proof (wf_shadow t Hwf) as Hls.
  assert (Hile : 0 <= index < Z.of_nat (length (entries t)))
    by (rewrite Hle; unfold TLB_MAX_ENTRIES in *; lia).
  assert (Hils : 0 <= index < Z.of_nat (length (shadow t)))
    by (rewrite Hls; unfold TLB_MAX_ENTRIES in *; lia).
  destruct (aget_Some (entries t) index Hile) as [old Hold].
  destruct (from_entry_total e' (c_attr t) (wf_c_attr t Hwf)) as [s Hs].
  unfold write. rewrite (proj2 (Z.ltb_lt _ _)) by lia. fold e'.
  rewrite Hold. cbn [mbind option_bind]. rewrite (aset_Some (entries t)) by done.
  cbn [mbind option_bind]. rewrite Hs. cbn [mbind option_bind].
  rewrite (aset_Some (shadow t)) by done. cbn [mbind option_bind].
  set (t1 := with_slot t (<[Z.to_nat index := e']> (entries t)) (<[Z.to_nat index := s]> (shadow t))).
  assert (He1 : forall j, aget (entries t1) j = if decide (j = index) then Some e' else aget (entries t) j).
  { intros j. case_decide as Hj.
    - subst j. eapply aget_aset_eq. by apply aset_Some.
    - eapply aget_aset_ne; [by apply aset_Some|congruence]. }
  destruct (vmap_replace_spec t1 index old e') as (m & Hm & Hm1 & Hm2 & Hm3).
  { done. } { simpl. lia. } { simpl. by rewrite length_insert. }
  { rewrite He1. by rewrite decide_True. } { apply Hwf. }
  exists s, m. split_and!; [done|done|done|done| |].
  - intros j ej v Hj Hne Hej. apply Hm3; [done|done|]. rewrite He1. by rewrite decide_False.
  - intros v Hv. apply (vmap_replace_exact t1 (entries t) index old e' (with_vmap t1 m)); try done.
    + simpl. lia.
    + rewrite He1. by rewrite decide_True.
    + intros j Hj. rewrite He1. by rewrite decide_False.
    + by apply (wf_exact t Hwf).
Qed.

(** [write] keeps the invariant and replaces exactly the named slot; an index
    past the live entries is ignored. *)
Lemma write_spec t index e :
  wf t -> 0 <= index -> entry_ok e ->
  exists t', write t index e = Some t' /\ wf t' /\
    num_entries t' = num_entries t /\ c_attr t' = c_attr t /\
    forall i, 0 <= i < num_entries t ->
      slot_of t' i = if decide (i = index)
                     then Some (derive (page_mask e) (entry_hi e) (entry_lo e)) else slot_of t i.
Proof.
  intros Hwf Hi Hok. destruct (Z.lt_ge_cases index (num_entries t)) as [Hlt|Hge].
  2:{ exists t. unfold write. rewrite (proj2 (Z.ltb_ge _ _)) by lia. split_and!; [done..|].
      intros i Hi'. rewrite decide_False by lia. done. }
  destruct (write_live t index e Hwf ltac:(lia) Hok) as (s & m & Hs & Hw & Hm1 & Hm2 & Hm3 & Hm4).
  set (e' := derive (page_mask e) (entry_hi e) (entry_lo e)) in *.
  set (t' := with_vmap _ m) in Hw.
  pose proof (wf_num t Hwf) as Hn. pose proof (wf_entries t Hwf) as Hle.
  pose proof (wf_shadow t Hwf) as Hls.
  assert (He1 : forall j, aget (entries t') j = if decide (j = index) then Some e' else aget (entries t) j).
  { intros j. case_decide as Hj.
    - subst j. eapply aget_aset_eq. apply aset_Some. rewrite Hle. unfold TLB_MAX_ENTRIES in *. lia.
    - eapply aget_aset_ne; [apply aset_Some|congruence]. rewrite Hle. unfold TLB_MAX_ENTRIES in *. lia. }
  assert (Hs1 : forall j, aget (shadow t') j = if decide (j = index) then Some s else aget (shadow t) j).
  { intros j. case_decide as Hj.
    - subst j. eapply aget_aset_eq. apply aset_Some. rewrite Hls. unfold TLB_MAX_ENTRIES in *. lia.
    - eapply aget_aset_ne; [apply aset_Some|congruence]. rewrite Hls. unfold TLB_MAX_ENTRIES in *. lia. }
  exists t'. split_and!; [done| |done|done|].
  - constructor; try (simpl; rewrite ?length_insert; by apply Hwf).
    + intros i Hi'. rewrite Hs1, decide_False by (simpl in Hi'; lia). by apply (wf_dead t Hwf).
    + exact Hm1.
    + intros j Hj. simpl in Hj. destruct (decide (j = index)) as [->|Hne].
      * exists e', s. rewrite He1, Hs1, !decide_True by done. split_and!; [done..|].
        right. split_and!; [done..|]. intros _. exact Hm2.
      * destruct (wf_sync t Hwf j Hj) as (ej & sj & Hej & Hsj & Hor). exists ej, sj.
        rewrite He1, Hs1, !decide_False by done. split_and!; [done..|].
        destruct Hor as [?|(Hd & Hok' & Hf & Hc)]; [by left|right]. split_and!; [done..|].
        intros Hnew v Hcv. by apply (Hm3 j ej); [| | | |apply Hc].
    + exact Hm4.
  - intros i Hi'. unfold slot_of at 1. rewrite Hs1, He1. case_decide; simpl.
    + rewrite decide_False; [done|].
      apply (shadow_not_invalid e' (c_attr t)); [reflexivity|exact Hs].
    + done.
Qed.

(** ** Snapshots *)

Lemma entry_new_ok : entry_ok entry_new /\ derived entry_new.
Proof.
  split; [|by vm_compute]. split; [exists 0; by vm_compute|]. by vm_compute.
Qed.

(** Every live slot of a well-formed TLB holds a derived, acceptable entry. *)
Lemma live_entry_ok t i :
  wf t -> 0 <= i < num_entries t ->
  exists e, aget (entries t) i = Some e /\ entry_ok e /\ derived e.
Proof.
  intros Hwf Hi. destruct (wf_sync t Hwf i Hi) as (e & s & He & _ & [[-> _]|(Hd & Hok & _)]).
  - exists entry_new. split; [done|]. apply entry_new_ok.
  - by exists e.
Qed.

Lemma rebuild_shadows_spec n es ca ss :
  (n <= length es)%nat -> (n <= length ss)%nat -> length ca = 8%nat ->
  exists ss', rebuild_shadows n es ca ss = Some ss' /\ length ss' = length ss /\
    (forall i e, (i < n)%nat -> es !! i = Some e -> exists s, from_entry e ca = Some s /\ ss' !! i = Some s) /\
    (forall i, (n <= i)%nat -> ss' !! i = ss !! i).
Proof.
  intros He Hs Hc. revert es ss He Hs. induction n as [|n IH]; intros es ss He Hs.
  { exists ss. split_and!; [by destruct es, ss|done|lia|done]. }
  destruct es as [|e es]; [simpl in He; lia|]. destruct ss as [|s0 ss]; [simpl in Hs; lia|].
  destruct (from_entry_total e ca Hc) as [s Hf].
  destruct (IH es ss) as (ss' & Hr & Hl & Hlo & Hhi); [simpl in *; lia..|].
  exists (s :: ss'). cbn [rebuild_shadows]. rewrite Hf. cbn [mbind option_bind]. rewrite Hr.
  cbn [mbind option_bind]. split_and!; [done|simpl; lia| |].
  - intros [|i] e' Hi Hg; simpl in *; [|apply Hlo; [lia|done]]. simplify_eq. by exists s.
  - intros [|i] Hi; [lia|]. simpl. apply Hhi. lia.
Qed.

Lemma load_entries_length n arr es : length (load_entries n arr es) = length es.
Proof.
  revert arr es. induction n as [|n IH]; intros [|a arr] [|e es]; simpl; try done. by rewrite IH.
Qed.

Lemma load_entries_lookup n arr es i :
  load_entries n arr es !! i =
    (if decide (i < n)%nat then
       match arr !! i, es !! i with
       | Some a, Some _ => Some (entry_of_item a)
       | _, o => o
       end
     else es !! i).
Proof.
  revert arr es i. induction n as [|n IH]; intros arr es i.
  { rewrite decide_False by lia. by destruct arr, es. }
  destruct arr as [|a arr].
  { simpl. case_decide; by destruct (es !! i). }
  destruct es as [|e es]; simpl.
  { case_decide; by destruct ((a :: arr) !! i). }
  destruct i as [|i]; simpl; [done|]. rewrite IH.
  destruct (decide (i < n)%nat), (decide (S i < S n)%nat); try lia; done.
Qed.

(** The items a snapshot may hold: each decodes to an acceptable entry. *)
Definition items_ok (v : Value) : Prop :=
  match v with VArray arr => Forall (fun a => entry_ok (entry_of_item a)) arr | _ => True end.

Lemma entry_of_item_derived a : derived (entry_of_item a).
Proof.
  unfold entry_of_item. pose proof entry_new_ok as [_ Hd].
  repeat (case_match; try done).
Qed.

(** The entries a load leaves behind. *)
Definition loaded (t : MipsTlb) (v : Value) : list TlbEntry :=
  match v with
  | VArray arr => load_entries (Z.to_nat (num_entries t)) arr (entries t)
  | _ => entries t
  end.

Lemma loaded_ok t v i e :
  wf t -> items_ok v -> 0 <= i < num_entries t -> aget (loaded t v) i = Some e ->
  entry_ok e /\ derived e.
Proof.
  intros Hwf Hv Hi He. destruct (live_entry_ok t i Hwf Hi) as (e0 & He0 & Hok0 & Hd0).
  apply aget_inv in He0 as [_ He0]. apply aget_inv in He as [_ He].
  destruct v; simpl in He; try (simplify_eq; done).
  rewrite load_entries_lookup, He0 in He. case_decide; [|lia].
  destruct (l !! Z.to_nat i) as [a|] eqn:E; simplify_eq; [|done].
  split; [|apply entry_of_item_derived]. simpl in Hv. by eapply Forall_lookup_1 in Hv.
Qed.

Lemma load_state_spec t v :
  wf t -> items_ok v ->
  exists t', load_state t v = Some t' /\ wf t' /\
    num_entries t' = num_entries t /\ c_attr t' = c_attr t /\ entries t' = loaded t v /\
    forall i, 0 <= i < num_entries t -> slot_of t' i = aget (loaded t v) i.
Proof.
  intros Hwf Hv. pose proof (wf_num t Hwf) as Hn. pose proof (wf_entries t Hwf) as Hle.
  pose proof (wf_shadow t Hwf) as Hls.
  assert (Hll : length (loaded t v) = Z.to_nat TLB_MAX_ENTRIES).
  { unfold loaded. destruct v; try done. by rewrite load_entries_length. }
  destruct (rebuild_shadows_spec (Z.to_nat (num_entries t)) (loaded t v) (c_attr t) (shadow t))
    as (ss & Hr & Hlss & Hlo & Hhi); [unfold TLB_MAX_ENTRIES in *; lia..|apply Hwf|].
  destruct (fill_all_total (loaded t v) (seqZ 0 (num_entries t)) ∅) as [m Hm].
  { intros i Hi%elem_of_seqZ. unfold TLB_MAX_ENTRIES in *. lia. }
  destruct (fill_all_spec (loaded t v) (num_entries t) (seqZ 0 (num_entries t)) ∅ m) as (Hm1 & _ & Hm2).
  { intros i Hi%elem_of_seqZ. lia. } { lia. } { done. } { intros s. by left. }
  unfold load_state. fold (loaded t v). rewrite Hr. cbn [mbind option_bind]. rewrite Hm.
  cbn [mbind option_bind]. eexists. split; [done|]. set (t' := with_vmap _ m).
  assert (Hslot : forall i, 0 <= i < num_entries t -> exists e s, aget (loaded t v) i = Some e /\
     aget ss i = Some s /\ entry_ok e /\ derived e /\ from_entry e (c_attr t) = Some s).
  { intros i Hi. destruct (aget_Some (loaded t v) i) as [e He]; [unfold TLB_MAX_ENTRIES in *; lia|].
    destruct (loaded_ok t v i e Hwf Hv Hi He) as [Hok Hd].
    pose proof He as [_ He']%aget_inv. destruct (Hlo (Z.to_nat i) e) as (s & Hs & Hs'); [lia|done|].
    exists e, s. split_and!; try done. unfold aget. by rewrite (proj2 (Z.leb_le _ _)) by lia. }
  split_and!; try done.
  - constructor; simpl; try done; try (by apply Hwf).
    + congruence.
    + by apply mru_reset_ok.
    + intros i Hi. unfold aget. rewrite (proj2 (Z.leb_le _ _)) by lia. rewrite Hhi by lia.
      pose proof (wf_dead t Hwf i Hi) as [_ Hd]%aget_inv. done.
    + intros i Hi. destruct (Hslot i Hi) as (e & s & He & Hs & Hok & Hd & Hf).
      exists e, s. split_and!; [done..|]. right. split_and!; [done..|].
      intros _ w Hw. apply (Hm2 i e); [apply elem_of_seqZ; lia|done|done].
    + intros w _. eapply exact_proper; [|done|eapply (fill_all_exact _ _ _ _ (fun _ => False)); [..|exact Hm|]].
      * intros j. unfold owner. rewrite elem_of_seqZ. simpl. naive_solver lia.
      * intros i Hi%elem_of_seqZ. unfold TLB_MAX_ENTRIES in *. lia.
      * apply NoDup_seqZ.
      * naive_solver.
      * apply exact_miss; naive_solver.
  - intros i Hi. destruct (Hslot i Hi) as (e & s & He & Hs & Hok & Hd & Hf).
    unfold slot_of. simpl. rewrite Hs, He. simpl. rewrite decide_False; [done|].
    by eapply (shadow_not_invalid e).
Qed.

(** Installing an attribute table keeps the invariant: the shadows are those
    of the entries under the new table, the untouched slots' included. *)
Lemma set_cache_attrs_spec t table :
  wf t -> length table = 8%nat ->
  exists t', set_cache_attrs t table = Some t' /\ wf t' /\
    num_entries t' = num_entries t /\ c_attr t' = table /\ entries t' = entries t.
Proof.
  intros Hwf Hlt. pose proof (wf_num t Hwf) as Hn. pose proof (wf_entries t Hwf) as Hle.
  pose proof (wf_shadow t Hwf) as Hls.
  destruct (rebuild_shadows_spec (Z.to_nat (num_entries t)) (entries t) table (shadow t))
    as (ss & Hr & Hlss & Hlo & Hhi); [unfold TLB_MAX_ENTRIES in *; lia..|done|].
  unfold set_cache_attrs. rewrite Hr. cbn [mbind option_bind]. eexists. split; [done|].
  split_and!; try done. constructor; simpl; try done; try (by apply Hwf).
  - congruence.
  - intros i Hi. unfold aget. rewrite (proj2 (Z.leb_le _ _)) by lia. rewrite Hhi by lia.
    pose proof (wf_dead t Hwf i Hi) as [_ Hd]%aget_inv. done.
  - intros i Hi. destruct (wf_sync t Hwf i Hi) as (e & s0 & He & _ & Hor).
    pose proof He as [_ He']%aget_inv. destruct (Hlo (Z.to_nat i) e) as (s & Hs & Hs'); [lia|done|].
    exists e, s. split_and!; [done| |right].
    { unfold aget. simpl. by rewrite (proj2 (Z.leb_le _ _)) by lia. }
    destruct Hor as [[-> _]|(Hd & Hok & _ & Hc)]; [|done].
    destruct entry_new_ok as [Hok Hd]. by split_and!.
Qed.

(** An acceptable entry survives being printed and parsed. *)
Lemma entry_of_item_words e :
  entry_ok e -> derived e -> entry_of_item (u64_slice_to_toml (entry_words e)) = e.
Proof.
  intros (_ & H1 & H2 & H3 & H0) Hd. unfold entry_of_item.
  rewrite load_u64_slice_save; [|by repeat apply Forall_cons_2; try apply Forall_nil_2|done].
  unfold entry_words. rewrite <- surjective_pairing. by symmetry.
Qed.

Lemma save_items_ok t : wf t -> items_ok (save_state t).
Proof.
  intros Hwf. simpl. apply Forall_forall. intros a Ha.
  apply list_elem_of_fmap in Ha as (e & -> & He). apply list_elem_of_lookup in He as (k & Hk).
  apply lookup_take_Some in Hk as [Hk Hlt].
  destruct (live_entry_ok t (Z.of_nat k) Hwf ltac:(lia)) as (e' & He' & Hok & Hd).
  apply aget_inv in He' as [_ He']. rewrite Nat2Z.id in He'. simplify_eq.
  by rewrite entry_of_item_words.
Qed.

(** Loading a saved TLB gives back every live entry. *)
Lemma loaded_save t t0 i :
  wf t -> wf t0 -> num_entries t0 = num_entries t -> 0 <= i < num_entries t ->
  aget (loaded t0 (save_state t)) i = aget (entries t) i.
Proof.
  intros Hwf Hwf0 Hn Hi. destruct (live_entry_ok t i Hwf Hi) as (e & He & Hok & Hd).
  destruct (live_entry_ok t0 i Hwf0 ltac:(lia)) as (e0 & He0 & _).
  rewrite He. apply aget_inv in He as [_ He]. apply aget_inv in He0 as [_ He0].
  unfold aget. rewrite (proj2 (Z.leb_le _ _)) by lia.
  unfold loaded, save_state. rewrite load_entries_lookup, decide_True by lia.
  rewrite list_lookup_fmap, lookup_take_lt, He by lia. simpl. rewrite He0.
  f_equal. by apply entry_of_item_words.
Qed.

(** ** Reachable states *)

(** What the executor does to its TLB: install the CPU model's attribute table
    (its constructor), look up, write an entry of an architectural page size
    (TLBWI/TLBWR), power-cycle, restore a snapshot. *)
Inductive tlb_step : MipsTlb -> MipsTlb -> Prop :=
| step_translate t is64 va as_ at_ t' r :
    fits 64 va -> translate is64 t va as_ at_ = Some (t', r) -> tlb_step t t'
| step_write t index e t' :
    0 <= index -> entry_ok e -> write t index e = Some t' -> tlb_step t t'
| step_attrs t table t' :
    length table = 8%nat -> set_cache_attrs t table = Some t' -> tlb_step t t'
| step_power_on t : tlb_step t (power_on t)
| step_load t v t' : items_ok v -> load_state t v = Some t' -> tlb_step t t'.

Inductive reachable : MipsTlb -> Prop :=
| reach_new n t : new n = Some t -> reachable t
| reach_step t t' : reachable t -> tlb_step t t' -> reachable t'.

Lemma tlb_step_wf t t' : wf t -> tlb_step t t' -> wf t'.
Proof.
  intros Hwf Hst. destruct Hst as [t is64 va as_ at_ t' r Hva Ht|t index e t' Hi Hok Hw|t ca t' Hca Ha| |t v t' Hv Hl].
  - destruct (translate_cases t is64 va as_ at_ Hwf Hva) as (hs & ns & r' & Ht' & Hl & _).
    simplify_eq. by apply with_mru_wf.
  - destruct (write_spec t index e Hwf Hi Hok) as (t1 & Hw' & Hwf' & _). by simplify_eq.
  - destruct (set_cache_attrs_spec t ca Hwf Hca) as (t1 & Ha' & Hwf' & _). by simplify_eq.
  - by apply power_on_wf.
  - destruct (load_state_spec t v Hwf Hv) as (t1 & Hl' & Hwf' & _). by simplify_eq.
Qed.

Lemma reachable_wf t : reachable t -> wf t.
Proof. induction 1; [by eapply new_wf|by eapply tlb_step_wf]. Qed.

End TlbOps.
