(* ===== verification/TlbClaims.v ===== *)
(** * The TLB's theorems

    What a client of [MipsTlb] may rely on in any state reachable from
    construction by installing an attribute table, lookups, entry writes,
    power cycles and snapshot restores, with the lookups' answers given by the
    specification of TlbSpec.v.  The entries written and restored have an
    architectural page size (4 KB to 16 MB); nothing is said of a TLB holding
    another mask. *)

From Stdlib Require Import Sorting.Sorted.
From S2P Require Import Prelude Snapshot Tlb TlbMru TlbVmap TlbSpec TlbRefine TlbOps.
Import Snapshot Tlb TlbMru TlbVmap TlbSpec TlbRefine TlbOps.

Module TlbClaims.

(** The live slots that match a lookup, in index order. *)
Definition match_indices (t : MipsTlb) (is64 : bool) (va as_ : Z) : list Z :=
  filter (fun i => match slot_of t i with Some e => spec_match is64 e va as_ | None => false end = true)
         (seqZ 0 (num_entries t)).

Lemma match_indices_hits t is64 va as_ i :
  i ∈ match_indices t is64 va as_ <-> exists e, hits t is64 va as_ i e.
Proof.
  unfold match_indices, hits. rewrite list_elem_of_filter, elem_of_seqZ.
  destruct (slot_of t i) as [e|]; naive_solver lia.
Qed.

Lemma few_matches_no_duplicate t is64 va as_ :
  (length (match_indices t is64 va as_) <= 1)%nat -> no_duplicate t is64 va as_.
Proof.
  intros Hl i j ei ej Hi Hj.
  assert (Hi' : i ∈ match_indices t is64 va as_) by (apply match_indices_hits; eauto).
  assert (Hj' : j ∈ match_indices t is64 va as_) by (apply match_indices_hits; eauto).
  destruct (match_indices t is64 va as_) as [|x [|y l]]; simpl in Hl; [set_solver| |lia].
  set_solver.
Qed.

(** The head of an increasing list is its least element. *)
Lemma match_indices_head t is64 va as_ i l :
  match_indices t is64 va as_ = i :: l -> forall j, j ∈ l -> i < j.
Proof.
  intros Hl j Hj.
  assert (Hs : StronglySorted Z.lt (seqZ 0 (num_entries t))).
  { unfold seqZ. generalize (Z.to_nat (num_entries t)) as n. intros n.
    generalize 0%nat as b. induction n as [|n IH]; intros b; simpl; constructor; [apply IH|].
    apply Forall_forall. intros x Hx%list_elem_of_fmap. destruct Hx as (y & -> & Hy%elem_of_seq). lia. }
  assert (Hf : StronglySorted Z.lt (match_indices t is64 va as_)).
  { unfold match_indices. induction Hs as [|x xs Hs IH Hx]; [constructor|].
    rewrite filter_cons. case_decide; [|done]. constructor; [done|].
    apply Forall_forall. intros y [_ Hy]%list_elem_of_filter. rewrite Forall_forall in Hx. auto. }
  rewrite Hl in Hf. apply StronglySorted_inv in Hf as [_ Hf]. rewrite Forall_forall in Hf. auto.
Qed.

(** ** A concrete TLB for the witnesses: an R4400-sized TLB in which a global
    16 KB-page pair at VPN 0x40000000 and a 4 KB pair of ASID 7 at 0x2000 were
    written, and the same with the attribute table installed first, as the
    executor's constructor does. *)

Definition demo_entry : TlbEntry :=
  {| page_mask := 0x6000; entry_hi := 0x40001000; entry_lo := (0x1F, 0x41B);
     selector_bit_shift := 0; vcmp32 := 0; vpn_hi32 := 0; vcmp64 := 0; vpn_hi64 := 0;
     offset_mask := 0; pfn_base := (0, 0) |}.

Definition demo_entry2 : TlbEntry :=
  {| page_mask := 0; entry_hi := 0x2007; entry_lo := (0x9A, 0x98);
     selector_bit_shift := 0; vcmp32 := 0; vpn_hi32 := 0; vcmp64 := 0; vpn_hi64 := 0;
     offset_mask := 0; pfn_base := (0, 0) |}.

Definition demo_tlb : MipsTlb :=
  default (new_tlb 48) (t ← new 48; t ← write t 5 demo_entry; write t 9 demo_entry2).


Lemma demo_entry_ok : entry_ok demo_entry.
Proof. split; [exists 2; by vm_compute|by vm_compute]. Qed.

Lemma demo_entry2_ok : entry_ok demo_entry2.
Proof. split; [exists 0; by vm_compute|by vm_compute]. Qed.

Lemma demo_reachable : reachable demo_tlb.
Proof.
  assert (H0 : reachable (new_tlb 48)) by (by apply (reach_new 48)).
  destruct (write_spec (new_tlb 48) 5 demo_entry (reachable_wf _ H0) ltac:(lia) demo_entry_ok)
    as (t1 & Hw1 & Hwf1 & _).
  assert (H1 : reachable t1).
  { eapply reach_step; [exact H0|]. eapply step_write; [|exact demo_entry_ok|exact Hw1]. lia. }
  destruct (write_spec t1 9 demo_entry2 Hwf1 ltac:(lia) demo_entry2_ok) as (t2 & Hw2 & _).
  replace demo_tlb with t2.
  - eapply reach_step; [exact H1|]. eapply step_write; [|exact demo_entry2_ok|exact Hw2]. lia.
  - unfold demo_tlb. change (new 48) with (Some (new_tlb 48)). cbn [mbind option_bind].
    rewrite Hw1. cbn [mbind option_bind]. by rewrite Hw2.
Qed.


(** ** Claims *)



(** With any number of matching entries (duplicates included) every lookup
    in a reachable state returns; it misses when no live entry matches, and
    otherwise answers for an entry that does match, unless every matching
    entry is the all-zero one. *)
Theorem translate_total t is64 va as_ at_ :
  reachable t -> fits 64 va ->
  exists t' r, translate is64 t va as_ at_ = Some (t', r) /\ slots t' = slots t /\
    (match_indices t is64 va as_ = [] -> r = Miss (va / 2 ^ 13)) /\
    (match_indices t is64 va as_ <> [] -> exists i e, i ∈ match_indices t is64 va as_ /\
       slot_of t i = Some e /\ (r = spec_answer (c_attr t) e va at_ \/
         e = entry_new /\ r = Miss (va / 2 ^ 13))).
Proof.
  intros Hr Hva.
  destruct (translate_cases t is64 va as_ at_ (reachable_wf t Hr) Hva) as (hs & ns & r & Ht & _ & Hc).
  exists (with_mru t hs ns), r. split_and!; [done|done|..].
  - intros He. destruct Hc as [[-> _]|(i & e & Hh & _)]; [done|].
    assert (Hin : i ∈ match_indices t is64 va as_) by (apply match_indices_hits; eauto).
    rewrite He in Hin. by apply not_elem_of_nil in Hin.
  - intros Hne. destruct Hc as [[-> Hno]|(i & e & Hh & ->)].
    + destruct (match_indices t is64 va as_) as [|i l] eqn:E; [done|].
      destruct (proj1 (match_indices_hits t is64 va as_ i)) as [e He]; [rewrite E; set_solver|].
      exists i, e. split_and!; [set_solver|by destruct He as (_ & ? & _)|right]. by rewrite (Hno i e He).
    + exists i, e. split; [apply match_indices_hits; eauto|]. destruct Hh as (_ & ? & _). by split; [|left].
Qed.

Lemma translate_total_witness :
  exists t' r, translate true demo_tlb 0x3000 8 Write = Some (t', r) /\
    slots t' = slots demo_tlb /\ r = Miss 1.
Proof.
  destruct (translate_total demo_tlb true 0x3000 8 Write demo_reachable) as (t' & r & Ht & Hs & Hm & _).
  - split; [lia|reflexivity].
  - exists t', r. split; [exact Ht|]. split; [exact Hs|]. apply Hm. vm_compute. reflexivity.
Defined.

(** The vmap never changes an answer: in a reachable state with at most one
    matching entry, not the all-zero one, [translate] and the plain MRU scan it can be built without
    return the same result. *)
Theorem vmap_transparent t is64 va as_ at_ :
  reachable t -> fits 64 va -> (length (match_indices t is64 va as_) <= 1)%nat ->
  spec_find is64 va as_ (slots t) <> Some entry_new ->
  exists t1 t2 r, translate is64 t va as_ at_ = Some (t1, r) /\
    scan t is64 va as_ at_ = Some (t2, r).
Proof.
  intros Hr Hva Hl Hnew. pose proof (reachable_wf t Hr) as Hwf. pose proof (wf_num t Hwf).
  pose proof (few_matches_no_duplicate _ _ _ _ Hl) as Hdup.
  destruct (translate_spec t is64 va as_ at_ Hwf Hva Hdup) as (hs & ns & r0 & Ht & _ & [->|[? _]]); [|done].
  destruct (scan_ok t is64 va as_ at_) as (hs2 & ns2 & r & Hs & _ & Hout); [lia|apply Hwf..|].
  eexists _, _, r. split; [|exact Hs]. rewrite Ht. do 2 f_equal. unfold spec_translate.
  destruct Hout as [[-> Hno]|(x & s & Hx%elem_of_seqZ & Hs' & Hm1 & Hm2 & ->)].
  - destruct (spec_find is64 va as_ (slots t)) as [e|] eqn:E; [|by rewrite Z.shiftr_div_pow2].
    apply spec_find_Some in E as (i & Hi & Hso & Hm). exfalso. apply (Hno i); [apply elem_of_seqZ; lia|].
    destruct (aget_Some (shadow t) i) as [s Hs']; [rewrite (wf_shadow t Hwf); unfold TLB_MAX_ENTRIES in *; lia|].
    exists s. split; [done|]. apply andb_true_iff. apply (slot_matches_spec t i); eauto.
  - destruct (proj1 (slot_matches_spec t x s is64 va as_ Hwf Hva ltac:(lia) Hs')) as (e & Hso & Hm);
      [by rewrite Hm1, Hm2|].
    rewrite (slot_answer_spec t x s e) by (done || lia).
    destruct (spec_find is64 va as_ (slots t)) as [e'|] eqn:E.
    + apply spec_find_Some in E as (i & Hi). rewrite (Hdup i x e' e Hi) in Hi by (split; [lia|done]).
      destruct Hi as (_ & Hi & _). by simplify_eq.
    + exfalso. eapply (spec_find_None _ _ _ _ E x e). split; [lia|done].
Qed.

Lemma vmap_transparent_witness :
  exists t1 t2 r, translate false demo_tlb 0x2ABC 7 Fetch = Some (t1, r) /\
    scan demo_tlb false 0x2ABC 7 Fetch = Some (t2, r).
Proof.
  apply (vmap_transparent demo_tlb false 0x2ABC 7 Fetch demo_reachable).
  - split; [lia|reflexivity].
  - vm_compute. lia.
  - vm_compute. discriminate.
Defined.

(** TLBP answers the lowest live slot whose entry matches, or the P bit
    (0x8000_0000) when none does; the dead tail of the arrays never matches. *)
Theorem probe_lowest_match t va as_ is64 :
  reachable t -> fits 64 va ->
  probe t va as_ is64 = match match_indices t is64 va as_ with [] => 0x80000000 | i :: _ => i end.
Proof.
  intros Hr Hva. destruct (probe_spec t va as_ is64 (reachable_wf t Hr) Hva) as [[-> Hno]|(e & Hh & Hmin)].
  - destruct (match_indices t is64 va as_) as [|i l] eqn:E; [done|].
    destruct (proj1 (match_indices_hits t is64 va as_ i)) as [e He]; [rewrite E; set_solver|].
    by destruct (Hno i e).
  - assert (Hin : probe t va as_ is64 ∈ match_indices t is64 va as_) by (apply match_indices_hits; eauto).
    destruct (match_indices t is64 va as_) as [|i l] eqn:E; [set_solver|].
    destruct (proj1 (match_indices_hits t is64 va as_ i)) as [e' He']; [rewrite E; set_solver|].
    specialize (Hmin i e' He'). apply elem_of_cons in Hin as [?|Hin]; [done|].
    pose proof (match_indices_head _ _ _ _ _ _ E _ Hin). lia.
Qed.

Lemma probe_lowest_match_witness : probe demo_tlb 0x2000 7 false = 9.
Proof.
  rewrite (probe_lowest_match demo_tlb 0x2000 7 false demo_reachable).
  - vm_compute. reflexivity.
  - split; [lia|reflexivity].
Defined.

(** writing an acceptable entry to slot [index] of a reachable TLB succeeds,
    replaces exactly that slot (with its derived fields recomputed) and leaves
    every other slot alone; an index past the live entries changes nothing. *)
Theorem write_replaces_slot t index e :
  reachable t -> 0 <= index -> entry_ok e ->
  exists t', write t index e = Some t' /\ reachable t' /\
    forall i, 0 <= i < num_entries t ->
      slot_of t' i = if decide (i = index)
                     then Some (derive (page_mask e) (entry_hi e) (entry_lo e)) else slot_of t i.
Proof.
  intros Hr Hi Hok. destruct (write_spec t index e (reachable_wf t Hr) Hi Hok) as (t' & Hw & _ & _ & _ & Hs).
  exists t'. split_and!; [done| |done]. eapply reach_step; [exact Hr|]. by eapply step_write.
Qed.

Lemma write_replaces_slot_witness :
  exists t', write demo_tlb 5 demo_entry2 = Some t' /\
    slot_of t' 5 = Some (derive 0 0x2007 (0x9A, 0x98)) /\ slot_of t' 9 = slot_of demo_tlb 9.
Proof.
  destruct (write_replaces_slot demo_tlb 5 demo_entry2 demo_reachable ltac:(lia) demo_entry2_ok)
    as (t' & Hw & _ & Hs).
  exists t'. split; [exact Hw|]. split.
  - rewrite (Hs 5); [reflexivity|vm_compute; split; [discriminate|reflexivity]].
  - rewrite (Hs 9); [reflexivity|vm_compute; split; [discriminate|reflexivity]].
Defined.

(** C21: in every reachable state, the executor's installation of its attribute
    table included, what checks 2 to 4 of find_consistency_violations look for
    holds: array sizes are right; each MRU list visits every live slot exactly
    once; every live shadow is the re-derivation of its entry (or the slot is
    untouched); slots past the live count never match; and every vmap slot
    after the first is exact: VMAP_MISS when no live entry covers it, the bare
    index when one does, VMAP_MULTI with the index of one of them when several
    do.  The first vmap slot, which the all-zero entries of unwritten slots
    cover without having claimed it, still leads to every other entry that
    covers it.  Duplicate entries (check 1) are the guest's own doing and are
    not excluded; page masks are architectural. *)
Theorem reachable_invariant t : reachable t -> wf t.
Proof. exact (reachable_wf t). Qed.

Lemma reachable_invariant_witness : wf demo_tlb.
Proof. apply reachable_invariant. exact demo_reachable. Defined.

(** C22: restoring a saved TLB into a TLB of the same size gives back every live
    entry, and saving again gives the same snapshot. *)
Theorem save_load_roundtrip t t0 :
  reachable t -> reachable t0 -> num_entries t0 = num_entries t ->
  exists t', load_state t0 (save_state t) = Some t' /\ reachable t' /\
    (forall i, 0 <= i < num_entries t -> slot_of t' i = aget (entries t) i) /\
    save_state t' = save_state t.
Proof.
  intros Hr Hr0 Hn. pose proof (reachable_wf t Hr) as Hwf. pose proof (reachable_wf t0 Hr0) as Hwf0.
  pose proof (save_items_ok t Hwf) as Hok.
  destruct (load_state_spec t0 (save_state t) Hwf0 Hok) as (t' & Hl & Hwf' & Hn' & _ & He & Hs).
  exists t'. split_and!; [done| | |].
  - eapply reach_step; [exact Hr0|]. by eapply step_load.
  - intros i Hi. rewrite Hs by lia. by apply loaded_save.
  - unfold save_state. f_equal. f_equal. rewrite Hn', Hn. apply list_eq. intros k.
    destruct (decide (k < Z.to_nat (num_entries t))%nat) as [Hk|Hk].
    + rewrite !lookup_take_lt by lia. rewrite He.
      pose proof (loaded_save t t0 (Z.of_nat k) Hwf Hwf0 Hn ltac:(lia)) as Hg.
      unfold aget in Hg. rewrite (proj2 (Z.leb_le _ _)), Nat2Z.id in Hg by lia. exact Hg.
    + rewrite !lookup_take_ge by lia. done.
Qed.

Lemma save_load_roundtrip_witness :
  exists t', load_state (new_tlb 48) (save_state demo_tlb) = Some t' /\
    slot_of t' 5 = aget (entries demo_tlb) 5 /\ save_state t' = save_state demo_tlb.
Proof.
  destruct (save_load_roundtrip demo_tlb (new_tlb 48) demo_reachable) as (t' & Hl & _ & Hs & Hsv).
  - apply (reach_new 48). reflexivity.
  - vm_compute. reflexivity.
  - exists t'. split; [exact Hl|]. split; [|exact Hsv].
    apply Hs. vm_compute. split; [discriminate|reflexivity].
Defined.

(** The exception in the lookup theorem is real: installing the CPU model's
    cache-attribute table on a new TLB (what the executor's constructor does)
    rebuilds the shadows of the untouched slots from their all-zero entries
    but leaves the vmap empty, so for address 0 and ASID 0 the vmap path
    answers Miss while the MRU scan, and TLBP, find slot 0. *)
Theorem set_cache_attrs_splits_vmap_and_scan :
  let t := set_cache_attrs (new_tlb 48) DEFAULT_C_ATTR in
  (t ← t; snd <$> translate false t 0 0 Read) = Some (Miss 0) /\
  (t ← t; snd <$> scan t false 0 0 Read) = Some (Invalid 0) /\
  ((fun t => probe t 0 0 false) <$> t) = Some 0 /\
  probe (new_tlb 48) 0 0 false = 0x80000000.
Proof. vm_compute. repeat split. Qed.

End TlbClaims.
