(* ===== verification/Crc.v ===== *)
(** * The Dallas/Maxim CRCs (src/src/dev/w1/crc.rs)

    CRC-8 and CRC-16 as the one-wire parts compute them, bit by bit, with the
    facts their users rely on: the residue of a message closed by its own
    check, and that corrupting one byte always changes the check. *)

From S2P Require Import Prelude.

Module Crc.

(** One turn of [crc8]'s inner loop, on the pair [(crc, b)]. *)
Definition crc8_bit (p : Z * Z) : Z * Z :=
  let '(crc, b) := p in
  let mix := (crc .^ b) .& 1 in
  let crc := crc .>> 1 in
  let crc := if negb (mix =? 0) then crc .^ 0x8c else crc in
  (crc, b .>> 1).

Definition crc8_byte (crc b : Z) : Z := fst (Nat.iter 8 crc8_bit (crc, b)).

Definition crc8 (data : list Z) : Z := foldl crc8_byte 0 data.

(** One turn of [crc16]'s inner loop. *)
Definition crc16_bit (crc : Z) : Z :=
  if negb (crc .& 1 =? 0) then (crc .>> 1) .^ 0xa001 else crc .>> 1.

Definition crc16_byte (crc b : Z) : Z := Nat.iter 8 crc16_bit (crc .^ b).

Definition crc16 (seed : Z) (data : list Z) : Z := foldl crc16_byte seed data.

(** [u16::to_le_bytes] *)
Definition to_le_bytes16 (x : Z) : list Z := [u8 x; u8 (x .>> 8)].

Definition bytes (l : list Z) : Prop := Forall (fits 8) l.

Lemma bytes_check l : forallb (fun x => (0 <=? x) && (x <? 256)) l = true -> bytes l.
Proof.
  intros Hl. apply Forall_forall. intros x Hx%list_elem_of_In. rewrite forallb_forall in Hl.
  specialize (Hl x Hx). apply andb_true_iff in Hl as [? ?]. split; lia.
Qed.

(** ** The inner loops as functions of [crc ^ b] *)

Lemma shiftr1_lxor x y : (x .^ y) .>> 1 = (x .>> 1) .^ (y .>> 1).
Proof. apply Z.shiftr_lxor. Qed.

(** A reflected CRC's shift, over any polynomial; [w] is its width and the
    polynomial has degree [w], so bit [w - 1] of the reflected word is set. *)
Definition reflected (poly x : Z) : Z :=
  if negb (x .& 1 =? 0) then (x .>> 1) .^ poly else x .>> 1.

Lemma land1_odd x : (x .& 1 =? 0) = negb (Z.odd x).
Proof.
  change 1 with (Z.ones 1). rewrite Z.land_ones by lia. change (2 ^ 1) with 2.
  rewrite Zmod_odd. by destruct (Z.odd x).
Qed.

Lemma reflected_lxor poly x y : reflected poly (x .^ y) = reflected poly x .^ reflected poly y.
Proof.
  unfold reflected. rewrite !land1_odd, shiftr1_lxor, <- !Z.bit0_odd, Z.lxor_spec.
  generalize (x .>> 1) (y .>> 1). intros a b.
  destruct (Z.testbit x 0), (Z.testbit y 0); simpl; apply Z.bits_inj'; intros i Hi;
    rewrite ?Z.lxor_spec; destruct (Z.testbit a i), (Z.testbit b i), (Z.testbit poly i); done.
Qed.

Lemma reflected_iter_lxor poly n x y :
  Nat.iter n (reflected poly) (x .^ y) = Nat.iter n (reflected poly) x .^ Nat.iter n (reflected poly) y.
Proof. induction n as [|n IH]; [done|]. simpl. by rewrite IH, reflected_lxor. Qed.

(** Bits the shift only moves down. *)
Lemma reflected_iter_shiftl poly n x : Nat.iter n (reflected poly) (x .<< Z.of_nat n) = x.
Proof.
  revert x. induction n as [|n IH]; intros x; [by rewrite Z.shiftl_0_r|].
  replace (x .<< Z.of_nat (S n)) with ((x .<< 1) .<< Z.of_nat n)
    by (rewrite Z.shiftl_shiftl by lia; f_equal; lia).
  simpl. rewrite IH. unfold reflected. rewrite land1_odd, <- Z.bit0_odd, Z.shiftl_spec_low by lia.
  simpl. by rewrite Z.shiftr_shiftl_l, Z.shiftl_0_r by lia.
Qed.

Section reflected.
Variables (w poly : Z).
Hypothesis Hw : 0 < w.
Hypothesis Hpoly : fits w poly.
Hypothesis Htop : Z.testbit poly (w - 1) = true.

Lemma reflected_fits x : fits w x -> fits w (reflected poly x).
Proof.
  intros Hx. pose proof (shiftr_fits w x 1 ltac:(lia) Hx). unfold reflected.
  case_match; [apply lxor_fits; done || lia|done].
Qed.

(** The bit shifted out is the top bit of the result. *)
Lemma reflected_top x : fits w x -> Z.testbit (reflected poly x) (w - 1) = Z.odd x.
Proof.
  intros Hx. assert (Hs : Z.testbit (x .>> 1) (w - 1) = false).
  { rewrite Z.shiftr_spec by lia. apply (fits_testbit w); [done|lia..]. }
  unfold reflected. rewrite land1_odd. destruct (Z.odd x); simpl; [|done].
  by rewrite Z.lxor_spec, Hs, Htop.
Qed.

Lemma reflected_inj x y : fits w x -> fits w y -> reflected poly x = reflected poly y -> x = y.
Proof.
  intros Hx Hy He. pose proof (f_equal (fun z => Z.testbit z (w - 1)) He) as Ho. simpl in Ho.
  rewrite !reflected_top in Ho by done.
  assert (Hd : x .>> 1 = y .>> 1).
  { unfold reflected in He. rewrite !land1_odd, Ho in He. destruct (Z.odd y); simpl in He; [|done].
    apply (f_equal (fun z => z .^ poly)) in He.
    by rewrite !Z.lxor_assoc, Z.lxor_nilpotent, !Z.lxor_0_r in He. }
  rewrite <- !Z.div2_spec in Hd.
  pose proof (Z.div2_odd x). pose proof (Z.div2_odd y). rewrite Ho, Hd in *. congruence.
Qed.

Lemma reflected_iter n x :
  fits w x -> fits w (Nat.iter n (reflected poly) x) /\
  forall y, fits w y -> Nat.iter n (reflected poly) x = Nat.iter n (reflected poly) y -> x = y.
Proof.
  intros Hx. assert (Hf : forall n z, fits w z -> fits w (Nat.iter n (reflected poly) z))
    by (intros m z Hz; induction m; [done|]; by apply reflected_fits).
  split; [auto|]. intros y Hy He. induction n as [|n IH]; [done|].
  simpl in He. apply reflected_inj in He; auto.
Qed.
End reflected.

(** The bit loop of [crc8] only sees the exclusive or of its two arguments. *)
Definition crc8_shift : Z -> Z := reflected 0x8c.

Lemma crc8_bit_xor c b :
  fst (crc8_bit (c, b)) .^ snd (crc8_bit (c, b)) = crc8_shift (c .^ b).
Proof.
  unfold crc8_bit, crc8_shift, reflected. simpl. rewrite shiftr1_lxor.
  case_match; [|done]. rewrite !Z.lxor_assoc. f_equal. apply Z.lxor_comm.
Qed.

Lemma crc8_iter_xor n c b :
  let p := Nat.iter n crc8_bit (c, b) in
  fst p .^ snd p = Nat.iter n crc8_shift (c .^ b) /\ snd p = b .>> Z.of_nat n.
Proof.
  induction n as [|n [IH1 IH2]]; [by rewrite Z.shiftr_0_r|]. simpl Nat.iter.
  destruct (Nat.iter n crc8_bit (c, b)) as [c' b'] eqn:E. simpl in IH1, IH2. split.
  - rewrite <- IH1. apply crc8_bit_xor.
  - simpl. rewrite IH2, Z.shiftr_shiftr by lia. f_equal. lia.
Qed.

Lemma crc8_byte_xor c b : fits 8 b -> crc8_byte c b = Nat.iter 8 crc8_shift (c .^ b).
Proof.
  intros Hb. unfold crc8_byte. destruct (crc8_iter_xor 8 c b) as [<- ->].
  rewrite Z.shiftr_div_pow2, (Z.div_small b) by (done || lia). by rewrite Z.lxor_0_r.
Qed.

Lemma crc8_table x :
  fits 8 x -> fits 8 (Nat.iter 8 crc8_shift x) /\
  forall y, fits 8 y -> Nat.iter 8 crc8_shift x = Nat.iter 8 crc8_shift y -> x = y.
Proof. apply reflected_iter; [done|by split|done]. Qed.

Lemma crc8_byte_fits c b : fits 8 c -> fits 8 b -> fits 8 (crc8_byte c b).
Proof. intros. rewrite crc8_byte_xor by done. apply crc8_table, lxor_fits; (done || lia). Qed.

Lemma crc8_from_fits c data : fits 8 c -> bytes data -> fits 8 (foldl crc8_byte c data).
Proof.
  intros Hc Hd. revert c Hc. induction Hd as [|b data Hb Hd IH]; intros c Hc; [done|].
  simpl. apply IH. by apply crc8_byte_fits.
Qed.

Lemma crc8_fits data : bytes data -> fits 8 (crc8 data).
Proof. apply crc8_from_fits. by split. Qed.

(** A message followed by its CRC-8 checks to zero. *)
Lemma crc8_close data : bytes data -> crc8 (data ++ [crc8 data]) = 0.
Proof.
  intros Hd. unfold crc8. rewrite foldl_app. simpl.
  rewrite crc8_byte_xor by (apply crc8_fits; done). by rewrite Z.lxor_nilpotent.
Qed.

(** ** CRC-16 *)

Lemma crc16_table x :
  fits 16 x -> fits 16 (Nat.iter 8 crc16_bit x) /\
  forall y, fits 16 y -> Nat.iter 8 crc16_bit x = Nat.iter 8 crc16_bit y -> x = y.
Proof. apply (reflected_iter 16 0xa001); [done|by split|done]. Qed.

Lemma crc16_byte_fits c b : fits 16 c -> fits 8 b -> fits 16 (crc16_byte c b).
Proof.
  intros. apply crc16_table, lxor_fits; [lia|done|]. by apply (fits_mono 8).
Qed.

Lemma crc16_fits c data : fits 16 c -> bytes data -> fits 16 (crc16 c data).
Proof.
  intros Hc Hd. revert c Hc. induction Hd as [|b data Hb Hd IH]; intros c Hc; [done|].
  simpl. apply IH. by apply crc16_byte_fits.
Qed.

Lemma crc16_app c l1 l2 : crc16 c (l1 ++ l2) = crc16 (crc16 c l1) l2.
Proof. apply foldl_app. Qed.

Lemma split_byte c : fits 16 c -> c = ((c / 2 ^ 8) .<< 8) .^ (c mod 2 ^ 8).
Proof.
  intros _. rewrite <- Z.shiftr_div_pow2 by lia. change (c mod 2 ^ 8) with (wrap 8 c). zbits.
  rewrite xorb_false_r. f_equal. lia.
Qed.

(** Feeding the inverted low byte, then the inverted high byte: the state is
    gone and a constant is left. *)
Lemma crc16_residue c : fits 16 c -> crc16 c (to_le_bytes16 (bnot 16 c)) = 0xb001.
Proof.
  intros Hc. assert (Hlo : u8 (bnot 16 c) = (c mod 2 ^ 8) .^ 0xff).
  { change (c mod 2 ^ 8) with (wrap 8 c). change 0xff with (Z.ones 8). unfold u8, bnot. zbits. }
  assert (Hhi : u8 (bnot 16 c .>> 8) = (c / 2 ^ 8) .^ 0xff).
  { rewrite <- Z.shiftr_div_pow2 by lia. change 0xff with (Z.ones 8). unfold u8, bnot.
    apply Z.bits_inj'. intros i Hi.
    assert (Hz : 8 <= i -> Z.testbit c (i + 8) = false) by (intros; apply (fits_testbit 16); [done|lia..]).
    zbits_push; zbits_finish; by rewrite Hz by lia. }
  unfold crc16, to_le_bytes16. simpl foldl. rewrite Hlo, Hhi. unfold crc16_byte.
  change crc16_bit with (reflected 0xa001).
  rewrite (split_byte c Hc) at 1. rewrite Z.lxor_assoc, <- (Z.lxor_assoc (c mod 2 ^ 8)), Z.lxor_nilpotent, Z.lxor_0_l.
  rewrite (reflected_iter_lxor _ 8 ((c / 2 ^ 8) .<< 8) 255).
  change ((c / 2 ^ 8) .<< 8) with ((c / 2 ^ 8) .<< Z.of_nat 8). rewrite (reflected_iter_shiftl 0xa001 8).
  rewrite (Z.lxor_comm (c / 2 ^ 8) 255), Z.lxor_assoc, <- (Z.lxor_assoc _ 255), (Z.lxor_comm _ (c / 2 ^ 8)),
    <- Z.lxor_assoc, Z.lxor_nilpotent, Z.lxor_0_l.
  reflexivity.
Qed.

(** A message closed by its inverted CRC-16, low byte first, leaves 0xb001. *)
Lemma crc16_close seed data :
  fits 16 seed -> bytes data ->
  crc16 seed (data ++ to_le_bytes16 (bnot 16 (crc16 seed data))) = 0xb001.
Proof. intros Hs Hd. rewrite crc16_app. apply crc16_residue. by apply crc16_fits. Qed.

(** ** Detection of a corrupted byte *)

Section detect.
Variables (w : Z) (step : Z -> Z -> Z).
Hypothesis step_fits : forall c b, fits w c -> fits 8 b -> fits w (step c b).
Hypothesis step_inj_c : forall c c' b, fits w c -> fits w c' -> fits 8 b -> step c b = step c' b -> c = c'.
Hypothesis step_inj_b : forall c b b', fits w c -> fits 8 b -> fits 8 b' -> step c b = step c b' -> b = b'.

Lemma fold_step_fits l c : fits w c -> bytes l -> fits w (foldl step c l).
Proof. intros Hc Hl. revert c Hc. induction Hl; intros c Hc; simpl; auto. Qed.

Lemma fold_step_inj l c c' :
  fits w c -> fits w c' -> bytes l -> foldl step c l = foldl step c' l -> c = c'.
Proof.
  intros Hc Hc' Hl. revert c c' Hc Hc'. induction Hl as [|b l Hb Hl IH]; intros c c' Hc Hc' He; [done|].
  simpl in He. eapply step_inj_c; [done|done|exact Hb|]. apply IH; auto.
Qed.

Lemma fold_step_detects l1 l2 b b' c :
  fits w c -> bytes l1 -> bytes l2 -> fits 8 b -> fits 8 b' -> b <> b' ->
  foldl step c (l1 ++ b :: l2) <> foldl step c (l1 ++ b' :: l2).
Proof.
  intros Hc Hl1 Hl2 Hb Hb' Hne He. rewrite !foldl_app in He. simpl in He.
  pose proof (fold_step_fits l1 c Hc Hl1).
  apply fold_step_inj in He; [|auto..]. apply Hne. by eapply step_inj_b.
Qed.
End detect.

(** Exclusive or with a fixed word is injective. *)
Lemma lxor_inj_l a b c : a .^ b = a .^ c -> b = c.
Proof.
  intros H. apply (f_equal (Z.lxor a)) in H. by rewrite <- !Z.lxor_assoc, Z.lxor_nilpotent, !Z.lxor_0_l in H.
Qed.

Lemma lxor_inj_r a b c : b .^ a = c .^ a -> b = c.
Proof. rewrite (Z.lxor_comm b), (Z.lxor_comm c). apply lxor_inj_l. Qed.

Lemma crc8_detects l1 l2 b b' :
  bytes l1 -> bytes l2 -> fits 8 b -> fits 8 b' -> b <> b' ->
  crc8 (l1 ++ b :: l2) <> crc8 (l1 ++ b' :: l2).
Proof.
  apply (fold_step_detects 8); [apply crc8_byte_fits| | |by split].
  - intros c c' x Hc Hc' Hx. rewrite !crc8_byte_xor by done. intros He.
    apply (lxor_inj_r x), crc8_table; [apply lxor_fits; done || lia..|done].
  - intros c x x' Hc Hx Hx'. rewrite !crc8_byte_xor by done. intros He.
    apply (lxor_inj_l c), crc8_table; [apply lxor_fits; done || lia..|done].
Qed.

Lemma crc16_detects seed l1 l2 b b' :
  fits 16 seed -> bytes l1 -> bytes l2 -> fits 8 b -> fits 8 b' -> b <> b' ->
  crc16 seed (l1 ++ b :: l2) <> crc16 seed (l1 ++ b' :: l2).
Proof.
  assert (H8 : forall x, fits 8 x -> fits 16 x) by (intros; by apply (fits_mono 8)).
  apply (fold_step_detects 16); [apply crc16_byte_fits| |].
  - intros c c' x Hc Hc' Hx He. apply (lxor_inj_r x), crc16_table; [apply lxor_fits; auto || lia..|done].
  - intros c x x' Hc Hx Hx' He. apply (lxor_inj_l c), crc16_table; [apply lxor_fits; auto || lia..|done].
Qed.

End Crc.
