(* ===== verification/OneWire.v ===== *)
(** * The one-wire (MicroLAN) bus and its parts (src/src/dev/w1/)

    [Bus] is the state machine of bus.rs, one bit slot per call; [slot] of
    slot.rs turns a register write into a reset or a bit slot.  What the two
    memory parts share ends the file.

    A [dyn Part] is a record of its two methods.  Arrays index-checked by Rust
    return [option]; string arguments are their bytes. *)

From S2P Require Import Prelude Crc.
Import Crc.

Module OneWire.

Record Part := {
  rom : list Z;
  reply : Z -> Z -> option (list Z);
}.

(** [self.rom()[i / 8] >> (i % 8) & 1 != 0]; a ROM has eight bytes. *)
Definition rom_bit (p : Part) (i : Z) : bool :=
  match aget (rom p) (i / 8) with
  | Some b => negb ((b .>> (i mod 8)) .& 1 =? 0)
  | None => false
  end.

Inductive Phase :=
| PhRom
| PhReadRom (i : Z)
| PhMatch (i : Z)
| PhSearch (bit step : Z)
| PhFunc
| PhAddr
| PhStream (i : Z)
| PhDead.

Record Bus := mkBus {
  parts : list Part;
  sel : list bool;
  replies : list (list Z);
  phase : Phase;
  acc : Z;
  nbits : Z;
  cmd : Z;
}.

Definition bus_new : Bus :=
  {| parts := []; sel := []; replies := []; phase := PhDead; acc := 0; nbits := 0; cmd := 0 |}.

Definition add (b : Bus) (p : Part) : Bus :=
  {| parts := parts b ++ [p]; sel := sel b ++ [false]; replies := replies b; phase := phase b;
     acc := acc b; nbits := nbits b; cmd := cmd b |}.

Definition roms (b : Bus) : list (list Z) := map rom (parts b).

Definition reset (b : Bus) : Bus * bool :=
  ({| parts := parts b; sel := map (fun _ => true) (sel b); replies := []; phase := PhRom;
      acc := 0; nbits := 0; cmd := cmd b |},
   negb (bool_decide (parts b = []))).

Definition set_phase (b : Bus) (p : Phase) : Bus :=
  {| parts := parts b; sel := sel b; replies := replies b; phase := p;
     acc := acc b; nbits := nbits b; cmd := cmd b |}.

Definition set_sel (b : Bus) (s : list bool) : Bus :=
  {| parts := parts b; sel := s; replies := replies b; phase := phase b;
     acc := acc b; nbits := nbits b; cmd := cmd b |}.

Definition set_acc (b : Bus) (a n : Z) : Bus :=
  {| parts := parts b; sel := sel b; replies := replies b; phase := phase b;
     acc := a; nbits := n; cmd := cmd b |}.

Definition set_cmd (b : Bus) (c : Z) : Bus :=
  {| parts := parts b; sel := sel b; replies := replies b; phase := phase b;
     acc := acc b; nbits := nbits b; cmd := c |}.

Definition set_replies (b : Bus) (r : list (list Z)) : Bus :=
  {| parts := parts b; sel := sel b; replies := r; phase := phase b;
     acc := acc b; nbits := nbits b; cmd := cmd b |}.

(** Collect [want] bits, least significant first. *)
Definition take_bits (b : Bus) (bit : bool) (want : Z) : Bus * option Z :=
  let a := acc b .| shl 32 (bool_to_Z bit) (nbits b) in
  let n := nbits b + 1 in
  if n =? want then (set_acc b 0 0, Some a) else (set_acc b a n, None).

(** The wired-AND of [f] over the selected parts. *)
Definition and_over (b : Bus) (f : Part -> bool) : bool :=
  forallb (fun '(p, s) => negb s || f p) (zip (parts b) (sel b)).

Definition deselect_mismatch (b : Bus) (i : Z) (bit : bool) : Bus :=
  set_sel b (zip_with (fun p s => s && eqb (rom_bit p i) bit) (parts b) (sel b)).

Definition after_selection (b : Bus) : Phase :=
  if existsb id (sel b) then PhFunc else PhDead.

(** The replies of the selected parts, or [None] when one of them refuses. *)
Fixpoint collect_replies (c ta : Z) (l : list (Part * bool)) : option (list (list Z)) :=
  match l with
  | [] => Some []
  | (p, s) :: l' =>
      if s : bool then
        r ← reply p c ta;
        rs ← collect_replies c ta l';
        Some (r :: rs)
      else collect_replies c ta l'
  end.

(** Byte [byte] of a stream, bit [sh]; past its end the wire floats high. *)
Definition stream_bit (byte sh : Z) (r : list Z) : bool :=
  match aget r byte with
  | None => true
  | Some x => negb ((x .>> sh) .& 1 =? 0)
  end.

(** One bit slot: the level on the wire. *)
Definition bus_slot (b : Bus) (bit : bool) : Bus * bool :=
  match phase b with
  | PhDead => (b, true)
  | PhRom =>
      match take_bits b bit 8 with
      | (b, Some c) =>
          let c := u8 c in
          (set_phase b (if c =? 0x33 then PhReadRom 0
                        else if c =? 0x55 then PhMatch 0
                        else if c =? 0xcc then PhFunc
                        else if c =? 0xf0 then PhSearch 0 0
                        else PhDead), bit)
      | (b, None) => (b, bit)
      end
  | PhReadRom i =>
      let level := and_over b (fun p => rom_bit p i) in
      (set_phase b (if i + 1 =? 64 then PhFunc else PhReadRom (i + 1)), level)
  | PhMatch i =>
      let b := deselect_mismatch b i bit in
      (set_phase b (if i + 1 =? 64 then after_selection b else PhMatch (i + 1)), bit)
  | PhSearch i step =>
      if step =? 0 then
        let l := and_over b (fun p => rom_bit p i) in
        (set_phase b (PhSearch i 1), l)
      else if step =? 1 then
        let l := and_over b (fun p => negb (rom_bit p i)) in
        (set_phase b (PhSearch i 2), l)
      else
        let b := deselect_mismatch b i bit in
        (set_phase b (if i + 1 =? 64 then after_selection b else PhSearch (i + 1) 0), bit)
  | PhFunc =>
      match take_bits b bit 8 with
      | (b, Some c) => (set_phase (set_cmd b (u8 c)) PhAddr, bit)
      | (b, None) => (b, bit)
      end
  | PhAddr =>
      match take_bits b bit 16 with
      | (b, Some a) =>
          match collect_replies (cmd b) (u16 a) (zip (parts b) (sel b)) with
          | Some rs => (set_phase (set_replies b rs) (PhStream 0), bit)
          | None => (set_phase b PhDead, bit)
          end
      | (b, None) => (b, bit)
      end
  | PhStream i =>
      let byte := i / 8 in
      let sh := i mod 8 in
      let level := forallb (stream_bit byte sh) (replies b) in
      (set_phase b (PhStream (i + 1)), level)
  end.

(** ** The register cell (slot.rs) *)

Definition RESET_PULSE : Z := 400.
Definition ONE_PULSE : Z := 40.

Definition fields (val : Z) : Z * Z :=
  (u32 ((val .>> 10) .& 0x3ff), u32 ((val .>> 2) .& 0xff)).

Definition slot (b : Bus) (pulse sample : Z) : Bus * bool :=
  if RESET_PULSE <=? pulse then
    let '(b, present) := reset b in (b, negb present)
  else bus_slot b (pulse <? ONE_PULSE).

(** ** What the memory parts share *)

(** [dst[at..at + src.len()].copy_from_slice(src)] *)
Definition splice (at_ : Z) (src dst : list Z) : option (list Z) :=
  if at_ + Z.of_nat (length src) <=? Z.of_nat (length dst) then
    Some (take (Z.to_nat at_) dst ++ src ++ drop (Z.to_nat at_ + length src) dst)
  else None.

(** [&l[a..b]] with the bounds in range. *)
Definition slice (l : list Z) (a b : Z) : list Z :=
  take (Z.to_nat (b - a)) (drop (Z.to_nat a) l).

(** The little-endian bytes of a word, [n] of them. *)
Fixpoint le_bytes (n : nat) (x : Z) : list Z :=
  match n with
  | O => []
  | S n' => u8 x :: le_bytes n' (x .>> 8)
  end.

(** Family code, the low 48 bits of the serial, CRC-8 of the seven bytes. *)
Definition make_rom (family serial : Z) : list Z :=
  let seven := family :: take 6 (le_bytes 8 serial) in
  seven ++ [crc8 seven].

(** An erased memory of [size] bytes with the first bytes of [image] in its
    first [room]. *)
Definition make_data (size room : Z) (image : list Z) : list Z :=
  let n := Nat.min (length image) (Z.to_nat room) in
  take n image ++ replicate (Z.to_nat size - n) 0xff.

Definition PAGE : Z := 32.

End OneWire.
