(* ===== verification/W1Ds2502.v ===== *)
(** * The DS2502 and DS2501 add-only memories (src/src/dev/w1/ds2502.rs)

    [reply] is the byte stream the part sends after a memory command. *)

From S2P Require Import Prelude Crc OneWire.
Import Crc OneWire.

Module Ds2502.

Definition DATA_SIZE : Z := 128.
Definition STATUS_FACTORY : Z := 7.

Record Ds2502 := {
  rom_ : list Z;
  data : list Z;
  programmable : Z;
}.

Definition build (family serial : Z) (image : list Z) (pages : Z) : Ds2502 :=
  let programmable := pages * PAGE in
  {| rom_ := make_rom family serial; data := make_data DATA_SIZE programmable image;
     programmable := programmable |}.

Definition new (family serial : Z) (image : list Z) : Ds2502 := build family serial image 4.
Definition ds2501 (family serial : Z) (image : list Z) : Ds2502 := build family serial image 2.

(** The [while at < DATA_SIZE] loop: each page followed by its CRC-8. *)
Fixpoint crc_pages (fuel : nat) (d : list Z) (at_ : Z) : list Z :=
  match fuel with
  | O => []
  | S fuel' =>
      if at_ <? DATA_SIZE then
        let end_ := (at_ / PAGE + 1) * PAGE in
        slice d at_ end_ ++ [crc8 (slice d at_ end_)] ++ crc_pages fuel' d end_
      else []
  end.

(** A turn ends at a page boundary above its start: four turns at most. *)
Definition PAGES_FUEL : nat := 5.

Definition status (ta : Z) : list Z :=
  map (fun i => if i =? STATUS_FACTORY then 0x00 else 0xff) (seqZ ta (STATUS_FACTORY + 1 - ta)).

Definition reply (p : Ds2502) (cmd ta : Z) : option (list Z) :=
  if (cmd =? 0xf0) || (cmd =? 0xc3) then
    let a := ta .& (DATA_SIZE - 1) in
    let hdr := [crc8 [cmd; u8 a; 0]] in
    if cmd =? 0xf0 then
      Some (hdr ++ drop (Z.to_nat a) (data p) ++ [crc8 (drop (Z.to_nat a) (data p))])
    else Some (hdr ++ crc_pages PAGES_FUEL (data p) a)
  else if cmd =? 0xaa then
    let hdr := [crc8 [cmd; u8 ta; u8 (ta .>> 8)]] in
    if ta <=? STATUS_FACTORY then Some (hdr ++ status ta ++ [crc8 (status ta)])
    else Some hdr
  else None.

Definition part (p : Ds2502) : Part := {| OneWire.rom := rom_ p; OneWire.reply := reply p |}.

End Ds2502.
