(* ===== verification/W1Ds2505.v ===== *)
(** * The DS2505 add-only memory (src/src/dev/w1/ds2505.rs)

    [reply] is the byte stream the part sends after a memory command. *)

From S2P Require Import Prelude Crc OneWire.
Import Crc OneWire.

Module Ds2505.

Definition DATA_SIZE : Z := 2048.
Definition STATUS_PAGE : Z := 8.

Record Ds2505 := {
  rom_ : list Z;
  data : list Z;
}.

Definition new (family serial : Z) (image : list Z) : Ds2505 :=
  {| rom_ := make_rom family serial; data := make_data DATA_SIZE DATA_SIZE image |}.

(** A CRC-16 as the part sends it: inverted, low byte first. *)
Definition inverted (crc : Z) : list Z := to_le_bytes16 (bnot 16 crc).

(** The Read Status loop; [c] is the running CRC-16. *)
Fixpoint status_pages (fuel : nat) (at_ c : Z) : list Z :=
  match fuel with
  | O => []
  | S fuel' =>
      if at_ <? DATA_SIZE then
        let end_ := (at_ / STATUS_PAGE + 1) * STATUS_PAGE in
        let page := replicate (Z.to_nat (end_ - at_)) 0xff in
        page ++ inverted (crc16 c page) ++ status_pages fuel' end_ 0
      else []
  end.

(** The Extended Read Memory loop. *)
Fixpoint extended_pages (fuel : nat) (d hdr : list Z) (at_ : Z) (first : bool) : list Z :=
  match fuel with
  | O => []
  | S fuel' =>
      if at_ <? DATA_SIZE then
        let end_ := (at_ / PAGE + 1) * PAGE in
        let seed := if first then crc16 0 hdr else 0 in
        [0xff] ++ inverted (crc16 seed [0xff]) ++
        slice d at_ end_ ++ inverted (crc16 0 (slice d at_ end_)) ++
        extended_pages fuel' d hdr end_ false
      else []
  end.

(** 2048/8 status pages, 2048/32 data pages, and the final test. *)
Definition STATUS_FUEL : nat := 257.
Definition PAGES_FUEL : nat := 65.

Definition reply (p : Ds2505) (cmd ta : Z) : option (list Z) :=
  let a := ta .& (DATA_SIZE - 1) in
  let hdr := [cmd; u8 a; u8 (a .>> 8)] in
  if cmd =? 0xf0 then
    let d := drop (Z.to_nat a) (data p) in
    Some (d ++ inverted (crc16 (crc16 0 hdr) d))
  else if cmd =? 0xaa then Some (status_pages STATUS_FUEL a (crc16 0 hdr))
  else if cmd =? 0xa5 then Some (extended_pages PAGES_FUEL (data p) hdr a true)
  else None.

Definition part (p : Ds2505) : Part := {| OneWire.rom := rom_ p; OneWire.reply := reply p |}.

End Ds2505.
