(* ===== verification/W1Sgi.v ===== *)
(** * The records SGI boards keep in their parts (src/src/dev/w1/sgi.rs) *)

From S2P Require Import Prelude Crc OneWire W1Ds2502 W1Ds2505.
Import Crc OneWire.

Module Sgi.

Record BoardRecord := {
  barcode : list Z;
  part_no : list Z;
  revision : list Z;
  name : list Z;
}.

Definition BARCODE_AT : Z := 1.
Definition BARCODE_LEN : Z := 10.
Definition PART_LEN : Z := 12.
Definition PART_BASE_AT : Z := 21.
Definition PART_BASE_LEN : Z := 9.
Definition PART_DASH_AT : Z := 35.
Definition REVISION_AT : Z := 38.
Definition REVISION_LEN : Z := 4.
Definition FLAGS_AT : Z := 42.
Definition FLAGS_LEN : Z := 6.
Definition NAME_AT : Z := 48.
Definition NAME_LEN : Z := 14.

(** [Ok(())] is [true]. *)
Definition check_field (value : list Z) (width : Z) : bool :=
  negb ((Z.of_nat (length value) =? 0) || (width <? Z.of_nat (length value))) &&
  negb (existsb (fun c => negb ((0x20 <=? c) && (c <=? 0x7e)) || (c =? 0x3a) || (c =? 0x3b)) value).

Definition is_ascii_digit (c : Z) : bool := (0x30 <=? c) && (c <=? 0x39).

Definition check (r : BoardRecord) : bool :=
  if negb (Z.of_nat (length (part_no r)) =? PART_LEN) ||
     negb (forallb (fun c => is_ascii_digit c || (c =? 0x2d)) (part_no r)) then false
  else check_field (barcode r) BARCODE_LEN && check_field (revision r) REVISION_LEN &&
       check_field (name r) NAME_LEN.

(** Close page [page] with the inverted CRC-16 of its first thirty bytes. *)
Definition close_page (img : list Z) (page : Z) : option (list Z) :=
  let at_ := slice img (page * PAGE) ((page + 1) * PAGE) in
  let c := bnot 16 (crc16 0 (take (Z.to_nat (PAGE - 2)) at_)) in
  splice (page * PAGE + (PAGE - 2)) (to_le_bytes16 c) img.

(** [None] is the panic on a record that does not pass [check]. *)
Definition image (r : BoardRecord) : option (list Z) :=
  if check r then
    let img := 0x01 :: replicate 63 0x20 in
    img ← splice BARCODE_AT (barcode r) img;
    img ← splice PART_BASE_AT (take (Z.to_nat PART_BASE_LEN) (part_no r)) img;
    img ← splice PART_DASH_AT (drop (Z.to_nat PART_BASE_LEN) (part_no r)) img;
    img ← splice REVISION_AT (revision r) img;
    img ← splice FLAGS_AT (replicate (Z.to_nat FLAGS_LEN) 0xff) img;
    img ← splice NAME_AT (name r) img;
    img ← close_page img 0;
    close_page img 1
  else None.

Definition board_record_part (r : BoardRecord) (serial : Z) : option Ds2505.Ds2505 :=
  img ← image r; Some (Ds2505.new 0x0b serial img).

(** The station address is a six-byte array. *)
Definition ethernet_page (mac : list Z) : list Z :=
  let page := [0x0a; 0; 0; 0; 0] ++ reverse mac in
  page ++ to_le_bytes16 (bnot 16 (crc16 0 page)) ++ replicate 19 0.

Definition ethernet_address_part (mac : list Z) (serial : Z) : Ds2502.Ds2502 :=
  Ds2502.ds2501 0x91 serial (ethernet_page mac).

(** [u64::from_le_bytes] *)
Fixpoint from_le (l : list Z) : Z :=
  match l with
  | [] => 0
  | b :: l' => b + 2 ^ 8 * from_le l'
  end.

Definition o2_ethernet_address_part (mac : list Z) : Ds2502.Ds2502 :=
  Ds2502.new 0x09 (from_le (mac ++ [0; 0])) (reverse mac).

Definition ETHERNET_PART_SERIAL : Z := 0x5e7454d55000.

End Sgi.
