(* ===== verification/OneWireBus.v ===== *)
(** * The one-wire bus against its protocol

    Masters talk to [Bus] one slot at a time; here are the sequences of slots
    that make up a transaction (a command byte, a ROM, an address, a read) and
    what each does to the state: which parts stay selected and what the wire
    carries. *)

From S2P Require Import Prelude Crc OneWire.
Import Crc OneWire.

Module OneWireBus.

(** ** The invariant *)

Definition part_ok (p : Part) : Prop := length (rom p) = 8%nat /\ bytes (rom p).

(** The number of bits a phase collects. *)
Definition wanted (ph : Phase) : Z :=
  match ph with PhRom | PhFunc => 8 | PhAddr => 16 | _ => 0 end.

Definition phase_ok (ph : Phase) : Prop :=
  match ph with
  | PhReadRom i | PhMatch i => 0 <= i < 64
  | PhSearch i step => 0 <= i < 64 /\ 0 <= step <= 2
  | PhStream i => 0 <= i
  | _ => True
  end.

Record bus_ok (b : Bus) : Prop := {
  ok_parts : Forall part_ok (parts b);
  ok_sel : length (sel b) = length (parts b);
  ok_phase : phase_ok (phase b);
  ok_acc : fits (nbits b) (acc b);
  ok_nbits : 0 <= nbits b /\ (nbits b = 0 \/ nbits b < wanted (phase b));
  ok_cmd : fits 8 (cmd b);
}.

Lemma acc_step x n : 0 <= n < 32 -> fits n x -> forall bit,
  fits (n + 1) (x .| shl 32 (bool_to_Z bit) n).
Proof.
  intros Hn Hx bit. apply lor_fits; [lia|apply (fits_mono n); [done|lia]|].
  destruct bit; simpl; unfold shl; [rewrite Z.shiftl_1_l|rewrite Z.shiftl_0_l].
  - pose proof (Z.pow_lt_mono_r 2 n (n + 1)). pose proof (Z.pow_le_mono_r 2 (n + 1) 32).
    pose proof (Z.pow_pos_nonneg 2 n).
    rewrite wrap_small by (unfold fits; lia). unfold fits. lia.
  - pose proof (Z.pow_pos_nonneg 2 (n + 1)). rewrite wrap_small by (split; [lia|reflexivity]). unfold fits. lia.
Qed.

Lemma bus_new_ok : bus_ok bus_new.
Proof. split; simpl; try done. lia. Qed.

Lemma add_ok b p : bus_ok b -> part_ok p -> bus_ok (add b p).
Proof.
  intros [] Hp. split; simpl; try done.
  - by apply Forall_app_2; [|constructor].
  - rewrite !length_app. simpl. lia.
Qed.

Lemma reset_ok b : bus_ok b -> bus_ok (fst (reset b)).
Proof.
  intros []. split; simpl; try done.
  - by rewrite length_map.
  - lia.
Qed.

(** Collecting a bit keeps the invariant under any phase that follows. *)
Lemma take_bits_ok b bit want ph c :
  bus_ok b -> (want = 8 \/ want = 16) -> wanted (phase b) = want -> phase_ok ph -> fits 8 c ->
  forall rs s, length s = length (parts b) ->
  match take_bits b bit want with
  | (b', Some _) => bus_ok (set_phase (set_cmd (set_replies (set_sel b' s) rs) c) ph)
  | (b', None) => bus_ok b'
  end.
Proof.
  intros [? ? ? Hacc [Hn0 Hn] ?] Hw Hwant Hph Hc rs s Hs. unfold take_bits.
  destruct (Z.eqb_spec (nbits b + 1) want) as [He|Hne].
  - split; simpl; try done. lia.
  - split; simpl; try done; [apply acc_step; [lia|done]|lia].
Qed.

Lemma set_phase_ok b ph s :
  bus_ok b -> wanted (phase b) = 0 -> length s = length (parts b) -> phase_ok ph ->
  bus_ok (set_phase (set_sel b s) ph).
Proof.
  intros [? ? ? Hacc [Hn0 Hn] ?] Hw Hs Hph. assert (Hz : nbits b = 0) by lia.
  split; simpl; try done. lia.
Qed.

Lemma deselect_length b i bit :
  length (sel b) = length (parts b) ->
  length (zip_with (fun p s => s && eqb (rom_bit p i) bit) (parts b) (sel b)) = length (parts b).
Proof. intros H. rewrite length_zip_with, H. lia. Qed.

(** Every bit slot keeps the invariant. *)
Lemma bus_slot_ok b bit : bus_ok b -> bus_ok (fst (bus_slot b bit)).
Proof.
  intros Hok. pose proof (ok_sel b Hok) as Hsel. pose proof (ok_phase b Hok) as Hph.
  assert (Hcur : wanted (phase b) = 0 -> forall ph, phase_ok ph -> bus_ok (set_phase b ph)).
  { intros Hw ph Hp. exact (set_phase_ok b ph (sel b) Hok Hw Hsel Hp). }
  unfold bus_slot. destruct (phase b) as [|i|i|i step| | |i|] eqn:E; simpl in Hph.
  - pose proof (fun ph (Hp : phase_ok ph) => take_bits_ok b bit 8 ph (cmd b) Hok ltac:(auto) ltac:(by rewrite E)
      Hp (ok_cmd b Hok) (replies b) (sel b) Hsel) as H.
    unfold take_bits in *. destruct (nbits b + 1 =? 8); simpl; [|by apply (H PhDead)].
    repeat case_match; by apply H.
  - apply Hcur; [done|]. case_match; simpl; [done|]. lia.
  - unfold deselect_mismatch. apply set_phase_ok; [done|by rewrite E|by apply deselect_length|].
    case_match; simpl; [unfold after_selection; by case_match|lia].
  - repeat case_match; simpl; try (apply Hcur; simpl; [done|lia]).
    + apply set_phase_ok; [done|by rewrite E|by apply deselect_length|].
      unfold after_selection. by case_match.
    + apply set_phase_ok; [done|by rewrite E|by apply deselect_length|]. simpl. lia.
  - pose proof (fun c (Hc : fits 8 c) => take_bits_ok b bit 8 PhAddr c Hok ltac:(auto) ltac:(by rewrite E)
      I Hc (replies b) (sel b) Hsel) as H.
    unfold take_bits in *. destruct (nbits b + 1 =? 8); simpl; [apply (H (u8 _)), wrap_fits; lia|].
    exact (H 0 ltac:(by split)).
  - pose proof (fun ph (Hp : phase_ok ph) (rs : list (list Z)) => take_bits_ok b bit 16 ph (cmd b) Hok ltac:(auto) ltac:(by rewrite E)
      Hp (ok_cmd b Hok) rs (sel b) Hsel) as H.
    unfold take_bits in *. destruct (nbits b + 1 =? 16); simpl; [|exact (H PhDead I [])].
    destruct (collect_replies _ _ _) as [rs|]; simpl;
      [exact (H (PhStream 0) ltac:(simpl; lia) rs)|exact (H PhDead I (replies b))].
  - apply Hcur; [done|]. simpl. lia.
  - done.
Qed.

(** ** Sending words *)

Definition drive (f : Z -> bool) (b : Bus) (l : list Z) : Bus :=
  foldl (fun b i => fst (bus_slot b (f i))) b l.

(** The [w] low bits of [x], least significant first. *)
Definition write_word (b : Bus) (w x : Z) : Bus := drive (Z.testbit x) b (seqZ 0 w).

Lemma drive_snoc f b n : 0 <= n ->
  drive f b (seqZ 0 (n + 1)) = fst (bus_slot (drive f b (seqZ 0 n)) (f n)).
Proof. intros. unfold drive. rewrite seqZ_snoc by done. by rewrite foldl_app. Qed.

Lemma acc_bit x n : 0 <= n < 32 ->
  (x mod 2 ^ n) .| shl 32 (bool_to_Z (Z.testbit x n)) n = x mod 2 ^ (n + 1).
Proof.
  intros Hn. change (x mod 2 ^ n) with (wrap n x). change (x mod 2 ^ (n + 1)) with (wrap (n + 1) x).
  unfold shl. destruct (Z.testbit x n) eqn:E; simpl;
    [rewrite Z.shiftl_1_l|rewrite Z.shiftl_0_l]; apply Z.bits_inj'; intros i Hi;
    assert (Hin : i = n -> Z.testbit x i = Z.testbit x n) by (by intros ->);
    rewrite E in Hin; zbits_push; zbits_finish; by rewrite Hin by lia.
Qed.

(** While fewer bits than wanted have come, they only accumulate. *)
Lemma bus_slot_collect b bit :
  0 <= nbits b -> nbits b + 1 < wanted (phase b) ->
  fst (bus_slot b bit) = set_acc b (acc b .| shl 32 (bool_to_Z bit) (nbits b)) (nbits b + 1).
Proof.
  intros Hn0 Hn. unfold bus_slot, take_bits.
  destruct (phase b); simpl in Hn; try lia; rewrite (proj2 (Z.eqb_neq _ _)) by lia; done.
Qed.

Lemma collect_loop b x n :
  nbits b = 0 -> acc b = 0 -> 0 <= n -> n < wanted (phase b) -> wanted (phase b) <= 32 ->
  drive (Z.testbit x) b (seqZ 0 n) = set_acc b (x mod 2 ^ n) n.
Proof.
  intros Hb0 Ha0 Hn Hw Hmax. revert Hw. pattern n. apply natlike_ind; [|clear n Hn; intros n Hn IH|exact Hn]; intros Hw.
  - change (2 ^ 0) with 1. rewrite Z.mod_1_r. destruct b; simpl in *. by subst.
  - unfold Z.succ in *. rewrite drive_snoc, IH by lia. rewrite bus_slot_collect by (simpl; lia).
    simpl. rewrite acc_bit by lia. done.
Qed.

(** The slot that completes the word. *)
Lemma write_word_last b w x :
  wanted (phase b) = w -> 0 < w <= 32 -> nbits b = 0 -> acc b = 0 ->
  exists c bit, write_word b w x = fst (bus_slot c bit) /\ phase c = phase b /\
    take_bits c bit w = (b, Some (x mod 2 ^ w)).
Proof.
  intros Hw Hw32 Hn Ha. exists (set_acc b (x mod 2 ^ (w - 1)) (w - 1)), (Z.testbit x (w - 1)).
  split_and!; [|done|].
  - unfold write_word. replace w with (w - 1 + 1) at 1 by lia. rewrite drive_snoc by lia.
    by rewrite collect_loop by lia.
  - unfold take_bits. simpl. rewrite acc_bit by lia.
    replace (w - 1 + 1) with w by lia. rewrite Z.eqb_refl. destruct b; simpl in *. by subst.
Qed.

(** A bus between words: nothing collected. *)
Definition idle (b : Bus) : Prop := nbits b = 0 /\ acc b = 0.

Definition rom_command (x : Z) : Phase :=
  if x =? 0x33 then PhReadRom 0 else if x =? 0x55 then PhMatch 0
  else if x =? 0xcc then PhFunc else if x =? 0xf0 then PhSearch 0 0 else PhDead.

Lemma write_rom_command b x :
  idle b -> phase b = PhRom -> fits 8 x -> write_word b 8 x = set_phase b (rom_command x).
Proof.
  intros [Hn Ha] Hp Hx. destruct (write_word_last b 8 x) as (c & bit & -> & Hc & Ht); [by rewrite Hp|lia|done..|].
  unfold bus_slot. rewrite Hc, Hp, Ht. simpl. f_equal.
  rewrite (Z.mod_small x) by exact Hx. unfold u8. by rewrite wrap_small by done.
Qed.

Lemma write_func b x :
  idle b -> phase b = PhFunc -> fits 8 x -> write_word b 8 x = set_phase (set_cmd b x) PhAddr.
Proof.
  intros [Hn Ha] Hp Hx. destruct (write_word_last b 8 x) as (c & bit & -> & Hc & Ht); [by rewrite Hp|lia|done..|].
  unfold bus_slot. rewrite Hc, Hp, Ht. simpl. do 2 f_equal.
  rewrite (Z.mod_small x) by exact Hx. unfold u8. by rewrite wrap_small by done.
Qed.

Lemma write_addr b x :
  idle b -> phase b = PhAddr -> fits 16 x ->
  write_word b 16 x =
    match collect_replies (cmd b) x (zip (parts b) (sel b)) with
    | Some rs => set_phase (set_replies b rs) (PhStream 0)
    | None => set_phase b PhDead
    end.
Proof.
  intros [Hn Ha] Hp Hx. destruct (write_word_last b 16 x) as (c & bit & -> & Hc & Ht); [by rewrite Hp|lia|done..|].
  unfold bus_slot. rewrite Hc, Hp, Ht.
  rewrite (Z.mod_small x) by exact Hx. unfold u16. rewrite wrap_small by done. by case_match.
Qed.

(** ** Selecting parts *)

(** The ROM of [p] starts with the bits [f 0 .. f (n-1)]. *)
Definition agrees (f : Z -> bool) (n : Z) (p : Part) : bool :=
  forallb (fun i => eqb (rom_bit p i) (f i)) (seqZ 0 n).

Definition narrow (f : Z -> bool) (n : Z) (b : Bus) : list bool :=
  zip_with (fun p s => s && agrees f n p) (parts b) (sel b).

Lemma agrees_succ f n p : 0 <= n -> agrees f (n + 1) p = agrees f n p && eqb (rom_bit p n) (f n).
Proof. intros. unfold agrees. rewrite seqZ_snoc, forallb_app by lia. simpl. by rewrite andb_true_r. Qed.

Lemma narrow_0 f b : length (sel b) = length (parts b) -> narrow f 0 b = sel b.
Proof.
  unfold narrow. generalize (sel b) (parts b). intros s. induction s as [|x s IH]; intros [|p ps] Hl;
    simpl in *; try lia; try done. rewrite IH by lia. by rewrite andb_true_r.
Qed.

Lemma narrow_succ f n b :
  0 <= n ->
  zip_with (fun p s => s && eqb (rom_bit p n) (f n)) (parts b) (narrow f n b) = narrow f (n + 1) b.
Proof.
  intros Hn. unfold narrow. generalize (sel b) (parts b). intros s ps. revert s.
  induction ps as [|p ps IH]; intros [|x s]; simpl; try done.
  by rewrite IH, agrees_succ, andb_assoc by done.
Qed.

Lemma match_loop f b n :
  phase b = PhMatch 0 -> length (sel b) = length (parts b) -> 0 <= n < 64 ->
  drive f b (seqZ 0 n) = set_phase (set_sel b (narrow f n b)) (PhMatch n).
Proof.
  intros Hp Hl [Hn Hn64]. revert Hn64. pattern n. apply natlike_ind; [|clear n Hn; intros n Hn IH|exact Hn]; intros Hn64.
  - rewrite narrow_0 by done. destruct b; simpl in *. by subst.
  - unfold Z.succ in *. rewrite drive_snoc, IH by lia. unfold bus_slot. simpl.
    rewrite (proj2 (Z.eqb_neq _ _)) by lia. unfold deselect_mismatch, set_sel, set_phase. simpl.
    by rewrite narrow_succ by done.
Qed.

Definition selection_phase (s : list bool) : Phase := if existsb id s then PhFunc else PhDead.

(** Match ROM leaves selected exactly the selected parts with that ROM. *)
Lemma match_rom_spec f b :
  phase b = PhMatch 0 -> length (sel b) = length (parts b) ->
  drive f b (seqZ 0 64) = set_phase (set_sel b (narrow f 64 b)) (selection_phase (narrow f 64 b)).
Proof.
  intros Hp Hl. change 64 with (63 + 1) at 1. rewrite drive_snoc, match_loop by (done || lia).
  unfold bus_slot. simpl. unfold deselect_mismatch, set_sel, set_phase, after_selection. simpl.
  by rewrite (narrow_succ f 63).
Qed.

(** One bit of a search: two read slots, then the master's choice. *)
Definition search_bit (choice : bool) (b : Bus) : Bus * (bool * bool) :=
  let '(b, l0) := bus_slot b true in
  let '(b, l1) := bus_slot b true in
  (fst (bus_slot b choice), (l0, l1)).

Definition search (f : Z -> bool) (b : Bus) (l : list Z) : Bus :=
  foldl (fun b i => fst (search_bit (f i) b)) b l.

Lemma search_snoc f b n : 0 <= n ->
  search f b (seqZ 0 (n + 1)) = fst (search_bit (f n) (search f b (seqZ 0 n))).
Proof. intros. unfold search. rewrite seqZ_snoc by done. by rewrite foldl_app. Qed.

Lemma search_bit_step b i choice :
  phase b = PhSearch i 0 ->
  search_bit choice b =
    (let b' := deselect_mismatch b i choice in
     set_phase b' (if i + 1 =? 64 then after_selection b' else PhSearch (i + 1) 0),
     (and_over b (fun p => rom_bit p i), and_over b (fun p => negb (rom_bit p i)))).
Proof.
  intros Hp. unfold search_bit, bus_slot at 1. rewrite Hp. simpl. unfold bus_slot. simpl.
  done.
Qed.

Lemma search_loop f b n :
  phase b = PhSearch 0 0 -> length (sel b) = length (parts b) -> 0 <= n < 64 ->
  search f b (seqZ 0 n) = set_phase (set_sel b (narrow f n b)) (PhSearch n 0).
Proof.
  intros Hp Hl [Hn Hn64]. revert Hn64. pattern n. apply natlike_ind; [|clear n Hn; intros n Hn IH|exact Hn]; intros Hn64.
  - rewrite narrow_0 by done. destruct b; simpl in *. by subst.
  - unfold Z.succ in *. rewrite search_snoc, IH, (search_bit_step _ n) by (done || lia). simpl.
    rewrite (proj2 (Z.eqb_neq _ _)) by lia. unfold deselect_mismatch, set_sel, set_phase. simpl.
    by rewrite narrow_succ by done.
Qed.

Lemma search_rom_spec f b :
  phase b = PhSearch 0 0 -> length (sel b) = length (parts b) ->
  search f b (seqZ 0 64) = set_phase (set_sel b (narrow f 64 b)) (selection_phase (narrow f 64 b)).
Proof.
  intros Hp Hl. change 64 with (63 + 1) at 1.
  rewrite search_snoc, search_loop, (search_bit_step _ 63) by (done || lia). simpl.
  unfold deselect_mismatch, set_sel, set_phase, after_selection. simpl.
  by rewrite (narrow_succ f 63).
Qed.

(** ** Reading *)

Fixpoint read_bits (n : nat) (b : Bus) : list bool :=
  match n with
  | O => []
  | S n' => let '(b', l) := bus_slot b true in l :: read_bits n' b'
  end.

Lemma read_stream n : forall b i, phase b = PhStream i ->
  read_bits n b = map (fun k => forallb (stream_bit (k / 8) (k mod 8)) (replies b)) (seqZ i (Z.of_nat n)).
Proof.
  induction n as [|n IH]; intros b i Hp; [done|].
  rewrite seqZ_cons by lia. simpl read_bits. unfold bus_slot. rewrite Hp.
  rewrite (IH _ (Z.succ i)) by done. simpl. f_equal. do 2 f_equal. lia.
Qed.

Lemma read_rom_loop n : forall b i, phase b = PhReadRom i -> i + Z.of_nat n = 64 ->
  read_bits n b = map (fun k => and_over b (fun p => rom_bit p k)) (seqZ i (Z.of_nat n)).
Proof.
  induction n as [|n IH]; intros b i Hp Hi; [done|].
  rewrite seqZ_cons by lia. simpl read_bits. unfold bus_slot. rewrite Hp.
  replace (Z.pred (Z.of_nat (S n))) with (Z.of_nat n) by lia. simpl map.
  destruct (Z.eqb_spec (i + 1) 64).
  - by replace n with O by lia.
  - by rewrite (IH _ (Z.succ i)) by (simpl; f_equal; lia).
Qed.

Definition byte_bits (x : Z) : list bool := map (Z.testbit x) (seqZ 0 8).

Lemma shift_bit x i : 0 <= i -> negb ((x .>> i) .& 1 =? 0) = Z.testbit x i.
Proof.
  intros. rewrite land1_odd, negb_involutive, <- Z.bit0_odd, Z.shiftr_spec by lia. f_equal.
Qed.

(** The bits a stream sends are its bytes' bits, least significant first. *)
Lemma stream_bits r :
  map (fun k => stream_bit (k / 8) (k mod 8) r) (seqZ 0 (8 * Z.of_nat (length r)))
  = concat (map byte_bits r).
Proof.
  induction r as [|x r IH] using rev_ind; [done|].
  rewrite length_app. simpl length. replace (8 * Z.of_nat (length r + 1)) with (8 * Z.of_nat (length r) + 8) by lia.
  rewrite seqZ_app, map_app, map_app, concat_app by lia. f_equal.
  - rewrite <- IH. apply map_ext_in. intros k Hk%list_elem_of_In%elem_of_seqZ. unfold stream_bit, aget.
    assert (0 <= k / 8 < Z.of_nat (length r))
      by (split; [apply Z.div_pos; lia|apply Z.div_lt_upper_bound; lia]).
    rewrite (proj2 (Z.leb_le _ _)), lookup_app_l by lia. done.
  - cbn [map concat]. rewrite app_nil_r. unfold byte_bits.
    change (seqZ (0 + 8 * Z.of_nat (length r)) 8) with (map (fun k => Z.of_nat k + (0 + 8 * Z.of_nat (length r))) (seq 0 8)).
    change (seqZ 0 8) with (map (fun k => Z.of_nat k + 0) (seq 0 8)).
    rewrite !map_map. apply map_ext_in. intros k Hk%in_seq. unfold stream_bit, aget.
    assert (Hd : (Z.of_nat k + (0 + 8 * Z.of_nat (length r))) / 8 = Z.of_nat (length r)).
    { symmetry. apply Z.div_unique with (Z.of_nat k); lia. }
    assert (Hm : (Z.of_nat k + (0 + 8 * Z.of_nat (length r))) mod 8 = Z.of_nat k).
    { symmetry. apply Z.mod_unique with (Z.of_nat (length r)); lia. }
    rewrite Hd, Hm, (proj2 (Z.leb_le _ _)), Nat2Z.id, lookup_app_r, Nat.sub_diag by lia. simpl.
    rewrite shift_bit by lia. f_equal. lia.
Qed.

(** ** ROMs *)

Lemma rom_bits_inj p q :
  part_ok p -> part_ok q -> agrees (rom_bit q) 64 p = true -> rom p = rom q.
Proof.
  intros [Hlp Hbp] [Hlq Hbq] Ha. unfold agrees in Ha. rewrite forallb_forall in Ha.
  assert (Hbit : forall i, 0 <= i < 64 -> rom_bit p i = rom_bit q i).
  { intros i Hi. apply eqb_prop, Ha, list_elem_of_In, elem_of_seqZ. lia. }
  apply list_eq. intros k. destruct (decide (k < 8)%nat) as [Hk|Hk].
  - destruct (lookup_lt_is_Some_2 (rom p) k) as [x Hx]; [lia|].
    destruct (lookup_lt_is_Some_2 (rom q) k) as [y Hy]; [lia|]. rewrite Hx, Hy. f_equal.
    unfold bytes in *. rewrite Forall_lookup in Hbp, Hbq.
    specialize (Hbp _ _ Hx). specialize (Hbq _ _ Hy). apply Z.bits_inj'. intros i Hi.
    destruct (Z.lt_ge_cases i 8); [|by rewrite (fits_testbit 8 x), (fits_testbit 8 y) by (done || lia)].
    specialize (Hbit (8 * Z.of_nat k + i) ltac:(lia)). unfold rom_bit, aget in Hbit.
    assert (Hd : (8 * Z.of_nat k + i) / 8 = Z.of_nat k) by (symmetry; apply Z.div_unique with i; lia).
    assert (Hm : (8 * Z.of_nat k + i) mod 8 = i) by (symmetry; apply Z.mod_unique with (Z.of_nat k); lia).
    rewrite Hd, Hm, (proj2 (Z.leb_le _ _)), Nat2Z.id, Hx, Hy, !shift_bit in Hbit by lia. done.
  - rewrite !lookup_ge_None_2 by lia. done.
Qed.

Lemma agrees_refl p n : agrees (rom_bit p) n p = true.
Proof. unfold agrees. apply forallb_forall. intros i _. apply eqb_reflx. Qed.

Lemma agrees_rom p q :
  part_ok p -> part_ok q -> agrees (rom_bit q) 64 p = bool_decide (rom p = rom q).
Proof.
  intros Hp Hq. case_bool_decide as Hr.
  - unfold agrees. apply forallb_forall. intros i _. unfold rom_bit. rewrite Hr. apply eqb_reflx.
  - destruct (agrees (rom_bit q) 64 p) eqn:E; [|done]. exfalso. by apply Hr, rom_bits_inj.
Qed.

(** After a reset, sending the ROM of [q] selects the parts that carry it. *)
Lemma narrow_after_reset b q :
  bus_ok b -> part_ok q ->
  narrow (rom_bit q) 64 (fst (reset b)) = map (fun p => bool_decide (rom p = rom q)) (parts b).
Proof.
  intros Hok Hq. unfold narrow. simpl. pose proof (ok_parts b Hok) as HF. pose proof (ok_sel b Hok) as Hl.
  revert HF Hl. generalize (sel b) (parts b). intros s ps. revert s.
  induction ps as [|p ps IH]; intros [|x s] HF Hl; simpl in *; try lia; try done.
  inversion HF; subst. rewrite IH by (done || lia). by rewrite agrees_rom.
Qed.

Lemma collect_unique (c ta : Z) q r ps :
  reply q c ta = Some r -> q ∈ ps -> NoDup (map rom ps) ->
  collect_replies c ta (zip ps (map (fun p => bool_decide (rom p = rom q)) ps)) = Some [r].
Proof.
  intros Hr. assert (Hnone : forall ps, rom q ∉ map rom ps ->
    collect_replies c ta (zip ps (map (fun p => bool_decide (rom p = rom q)) ps)) = Some []).
  { clear. induction ps as [|p ps IH]; intros Hn; [done|]. simpl in *.
    rewrite bool_decide_eq_false_2 by set_solver. apply IH. set_solver. }
  induction ps as [|p ps IH]; intros Hin Hnd; [set_solver|]. simpl in *. apply NoDup_cons in Hnd as [Hp Hnd].
  apply elem_of_cons in Hin as [<-|Hin].
  - rewrite bool_decide_eq_true_2, Hr, Hnone by done. done.
  - rewrite bool_decide_eq_false_2; [by apply IH|]. intros He. apply Hp. rewrite He.
    apply list_elem_of_In, in_map, list_elem_of_In, Hin.
Qed.

End OneWireBus.
