(* ===== verification/OneWireParts.v ===== *)
(** * The one-wire parts and SGI's records

    The streams the memories send decode, with every CRC checked the way a
    master checks it, to the memory's contents; a record that passes its check
    is laid out at the documented offsets with both pages closed. *)

From S2P Require Import Prelude Crc OneWire W1Ds2502 W1Ds2505 W1Sgi OneWireBus.
Import Crc OneWire OneWireBus.

Module OneWireParts.

Lemma length_le_bytes n x : length (le_bytes n x) = n.
Proof. revert x. induction n; intros; simpl; auto. Qed.

Lemma le_bytes_bytes n x : bytes (le_bytes n x).
Proof. revert x. induction n; intros; simpl; constructor; [apply wrap_fits; lia|]. apply IHn. Qed.

Lemma bytes_take n l : bytes l -> bytes (take n l).
Proof. apply Forall_take. Qed.

Lemma bytes_drop n l : bytes l -> bytes (drop n l).
Proof. apply Forall_drop. Qed.

Lemma bytes_app l1 l2 : bytes l1 -> bytes l2 -> bytes (l1 ++ l2).
Proof. apply Forall_app_2. Qed.

Lemma bytes_replicate n x : fits 8 x -> bytes (replicate n x).
Proof. intros. by apply Forall_replicate. Qed.

Lemma to_le_bytes16_bytes x : bytes (to_le_bytes16 x).
Proof. repeat constructor; apply wrap_fits; lia. Qed.

Lemma bytes_slice l a b : bytes l -> bytes (slice l a b).
Proof. intros. by apply bytes_take, bytes_drop. Qed.

Lemma bytes_nil : bytes [].
Proof. constructor. Qed.

Create HintDb onewire discriminated.
#[export] Hint Resolve bytes_take bytes_drop bytes_app bytes_replicate to_le_bytes16_bytes
  bytes_slice le_bytes_bytes bytes_nil crc8_fits : onewire.

(** Every part the constructors make has an eight-byte ROM that checks. *)
Lemma make_rom_ok family serial :
  fits 8 family ->
  length (make_rom family serial) = 8%nat /\ bytes (make_rom family serial) /\
  crc8 (make_rom family serial) = 0.
Proof.
  intros Hf. unfold make_rom.
  assert (Hs : bytes (family :: take 6 (le_bytes 8 serial))) by (constructor; [done|apply bytes_take, le_bytes_bytes]).
  split_and!; [done| |by apply crc8_close].
  apply bytes_app; [done|]. repeat constructor; by apply crc8_fits.
Qed.

Lemma make_data_length size room image :
  0 <= room <= size -> length (make_data size room image) = Z.to_nat size.
Proof. intros. unfold make_data. rewrite length_app, length_take, length_replicate. lia. Qed.

Lemma make_data_bytes size room image : bytes image -> bytes (make_data size room image).
Proof. intros. unfold make_data. apply bytes_app; [auto with onewire|]. by apply bytes_replicate. Qed.

(** The image is read back from the start of the memory, the rest erased. *)
Lemma make_data_lookup size room image k :
  0 <= room <= size -> (k < Z.to_nat size)%nat ->
  make_data size room image !! k =
    if decide (k < Nat.min (length image) (Z.to_nat room))%nat then image !! k else Some 0xff.
Proof.
  intros Hr Hk. unfold make_data. case_decide.
  - rewrite lookup_app_l by (rewrite length_take; lia). by rewrite lookup_take_lt by lia.
  - rewrite lookup_app_r by (rewrite length_take; lia). rewrite lookup_replicate_2; [done|].
    rewrite length_take. lia.
Qed.

(** ** Slices *)

Lemma slice_length l a b : 0 <= a <= b -> b <= Z.of_nat (length l) -> length (slice l a b) = Z.to_nat (b - a).
Proof. intros. unfold slice. rewrite length_take, length_drop. lia. Qed.

Lemma slice_drop l a b :
  0 <= a <= b -> slice l a b ++ drop (Z.to_nat b) l = drop (Z.to_nat a) l.
Proof.
  intros. unfold slice. replace (Z.to_nat b) with (Z.to_nat a + Z.to_nat (b - a))%nat by lia.
  rewrite <- drop_drop. apply take_drop.
Qed.

Lemma page_end at_ sz : 0 < sz -> 0 <= at_ ->
  at_ < (at_ / sz + 1) * sz <= at_ + sz /\ ((at_ / sz + 1) * sz) mod sz = 0 /\
  (at_ / sz + 1) * sz - at_ = sz - at_ mod sz.
Proof.
  intros Hs Ha. pose proof (Z.div_mod at_ sz ltac:(lia)). pose proof (Z.mod_pos_bound at_ sz Hs).
  split_and!; [nia|nia|apply Z.mod_mul; lia|nia].
Qed.

(** ** A master reading pages closed by a CRC-8 *)

Fixpoint unpage (fuel : nat) (len : nat) (s : list Z) : option (list Z) :=
  match s, fuel with
  | [], _ => Some []
  | _, O => None
  | _, S fuel' =>
      match drop len s with
      | c :: rest =>
          if crc8 (take len s ++ [c]) =? 0 then
            payload ← unpage fuel' (Z.to_nat PAGE) rest; Some (take len s ++ payload)
          else None
      | [] => None
      end
  end.

(** A page at least one byte long and its check, then whatever follows. *)
Lemma unpage_step fuel page rest :
  page <> [] -> bytes page ->
  unpage (S fuel) (length page) (page ++ crc8 page :: rest) =
    (payload ← unpage fuel (Z.to_nat PAGE) rest; Some (page ++ payload)).
Proof.
  intros Hne Hb. destruct page as [|x page]; [done|].
  cbn [unpage app]. change (x :: (page ++ crc8 (x :: page) :: rest)) with ((x :: page) ++ crc8 (x :: page) :: rest).
  rewrite drop_app_length, take_app_length. by rewrite crc8_close.
Qed.

Lemma crc_pages_unpage fuel : forall d at_,
  length d = Z.to_nat Ds2502.DATA_SIZE -> bytes d -> 0 <= at_ <= Ds2502.DATA_SIZE ->
  Ds2502.DATA_SIZE <= (at_ / PAGE + Z.of_nat fuel) * PAGE ->
  unpage fuel (Z.to_nat (PAGE - at_ mod PAGE)) (Ds2502.crc_pages (S fuel) d at_)
    = Some (drop (Z.to_nat at_) d).
Proof.
  unfold Ds2502.DATA_SIZE. induction fuel as [|fuel IH]; intros d at_ Hl Hb Ha Hf.
  - assert (Hat : at_ = 128) by (pose proof (Z.mul_div_le at_ PAGE); unfold PAGE in *; lia). subst at_.
    simpl. rewrite drop_ge by lia. done.
  - destruct (page_end at_ PAGE) as ((He1 & He2) & Hmod & Hlen); [unfold PAGE; lia|lia|].
    remember (S fuel) as n eqn:Hn. cbn [Ds2502.crc_pages]. subst n. unfold Ds2502.DATA_SIZE.
    destruct (Z.ltb_spec at_ 128) as [Hlt|Hge].
    + set (e := (at_ / PAGE + 1) * PAGE) in *.
      assert (He : e <= 128). { subst e. unfold PAGE in *. lia. }
      assert (Hpl : length (slice d at_ e) = Z.to_nat (PAGE - at_ mod PAGE)) by (rewrite slice_length; lia).
      rewrite <- Hpl. cbn [app]. rewrite unpage_step; [|intros Hnil; rewrite Hnil in Hpl; simpl in Hpl; lia|auto with onewire].
      assert (Hdiv : e / PAGE = at_ / PAGE + 1) by (subst e; apply Z.div_mul; unfold PAGE; lia).
      assert (Hp32 : Z.to_nat PAGE = Z.to_nat (PAGE - e mod PAGE)) by (rewrite Hmod; f_equal; lia).
      rewrite Hp32, IH by (try done; rewrite ?Hdiv; unfold PAGE in *; lia). simpl.
      by rewrite slice_drop by lia.
    + replace at_ with 128 by lia. rewrite drop_ge by lia. done.
Qed.

(** ** A master reading a DS2505's pages, each with its redirection byte *)

Fixpoint unpage_ext (fuel : nat) (len : nat) (hdr s : list Z) : option (list Z) :=
  match s, fuel with
  | [], _ => Some []
  | _, O => None
  | _, S fuel' =>
      let page := take len (drop 3 s) in
      let check := take 2 (drop len (drop 3 s)) in
      if (crc16 0 (hdr ++ take 3 s) =? 0xb001) && (crc16 0 (page ++ check) =? 0xb001) then
        payload ← unpage_ext fuel' (Z.to_nat PAGE) [] (drop 2 (drop len (drop 3 s)));
        Some (page ++ payload)
      else None
  end.

Lemma crc16_close2 hdr seed x :
  bytes hdr -> fits 8 x -> seed = crc16 0 hdr ->
  crc16 0 (hdr ++ x :: Ds2505.inverted (crc16 seed [x])) = 0xb001.
Proof.
  intros Hh Hx ->. rewrite crc16_app.
  apply (crc16_close (crc16 0 hdr) [x]); [by apply crc16_fits|repeat constructor; apply Hx].
Qed.

Lemma unpage_ext_step fuel hdr page rest :
  bytes hdr -> bytes page ->
  unpage_ext (S fuel) (length page) hdr
    ([0xff] ++ Ds2505.inverted (crc16 (crc16 0 hdr) [0xff]) ++
     page ++ Ds2505.inverted (crc16 0 page) ++ rest) =
    (payload ← unpage_ext fuel (Z.to_nat PAGE) [] rest; Some (page ++ payload)).
Proof.
  intros Hh Hp.
  set (i1 := Ds2505.inverted (crc16 (crc16 0 hdr) [0xff])).
  set (i2 := Ds2505.inverted (crc16 0 page)).
  assert (H1 : crc16 0 (hdr ++ [0xff] ++ i1) = 0xb001)
    by (apply (crc16_close2 hdr (crc16 0 hdr) 0xff); [done|by split|done]).
  assert (H2 : crc16 0 (page ++ i2) = 0xb001) by (by apply crc16_close).
  destruct i1 as [|a [|b [|? ?]]] eqn:E1; [done|done| |done].
  destruct i2 as [|a' [|b' [|? ?]]] eqn:E2; [done|done| |done].
  cbn [app]. unfold unpage_ext at 1; fold unpage_ext. cbn [take drop].
  rewrite drop_0, drop_app_length, take_app_length, take_0. cbn [take drop].
  rewrite drop_0. simpl app in H1. by rewrite H1, take_0, H2.
Qed.

Lemma extended_unpage fuel : forall d hdr (first : bool) at_,
  length d = Z.to_nat Ds2505.DATA_SIZE -> bytes d -> bytes hdr -> 0 <= at_ <= Ds2505.DATA_SIZE ->
  Ds2505.DATA_SIZE <= (at_ / PAGE + Z.of_nat fuel) * PAGE ->
  unpage_ext fuel (Z.to_nat (PAGE - at_ mod PAGE)) (if first then hdr else [])
    (Ds2505.extended_pages (S fuel) d hdr at_ first)
    = Some (drop (Z.to_nat at_) d).
Proof.
  unfold Ds2505.DATA_SIZE. induction fuel as [|fuel IH]; intros d hdr first at_ Hl Hb Hh Ha Hf.
  - assert (Hat : at_ = 2048) by (pose proof (Z.mul_div_le at_ PAGE); unfold PAGE in *; lia). subst at_.
    simpl. rewrite drop_ge by lia. done.
  - destruct (page_end at_ PAGE) as ((He1 & He2) & Hmod & Hlen); [unfold PAGE; lia|lia|].
    remember (S fuel) as n eqn:Hn. cbn [Ds2505.extended_pages]. subst n. unfold Ds2505.DATA_SIZE.
    destruct (Z.ltb_spec at_ 2048) as [Hlt|Hge].
    + set (e := (at_ / PAGE + 1) * PAGE) in *.
      assert (He : e <= 2048). { subst e. unfold PAGE in *. lia. }
      assert (Hpl : length (slice d at_ e) = Z.to_nat (PAGE - at_ mod PAGE)) by (rewrite slice_length; lia).
      assert (Hdiv : e / PAGE = at_ / PAGE + 1) by (subst e; apply Z.div_mul; unfold PAGE; lia).
      assert (Hp32 : Z.to_nat PAGE = Z.to_nat (PAGE - e mod PAGE)) by (rewrite Hmod; f_equal; lia).
      rewrite <- Hpl.
      replace (if first then crc16 0 hdr else 0) with (crc16 0 (if first then hdr else [])) by (by destruct first).
      rewrite unpage_ext_step by (destruct first; auto with onewire).
      rewrite Hp32, (IH d hdr false e) by (try done; rewrite ?Hdiv; unfold PAGE in *; lia). simpl.
      by rewrite slice_drop by lia.
    + replace at_ with 2048 by lia. rewrite drop_ge by lia. done.
Qed.

(** ** Splicing fields into a record *)

Lemma splice_ok at_ src dst :
  0 <= at_ -> at_ + Z.of_nat (length src) <= Z.of_nat (length dst) ->
  exists l, splice at_ src dst = Some l /\ length l = length dst /\
    (bytes src -> bytes dst -> bytes l) /\
    forall k, l !! k = if decide (Z.to_nat at_ <= k < Z.to_nat at_ + length src)%nat
                       then src !! (k - Z.to_nat at_)%nat else dst !! k.
Proof.
  intros Ha Hl. unfold splice. rewrite (proj2 (Z.leb_le _ _)) by lia. eexists. split; [done|]. split_and!.
  - rewrite !length_app, length_take, length_drop. lia.
  - intros. auto with onewire.
  - intros k. assert (Ht : length (take (Z.to_nat at_) dst) = Z.to_nat at_) by (rewrite length_take; lia).
    case_decide as Hk.
    + rewrite lookup_app_r, lookup_app_l by lia. by rewrite Ht.
    + destruct (decide (k < Z.to_nat at_)%nat).
      * rewrite lookup_app_l, lookup_take_lt by lia. done.
      * rewrite lookup_app_r, lookup_app_r by lia. rewrite lookup_drop. f_equal. lia.
Qed.

Lemma slice_lookup l a b k :
  0 <= a <= b -> (k < Z.to_nat (b - a))%nat -> slice l a b !! k = l !! (Z.to_nat a + k)%nat.
Proof. intros. unfold slice. rewrite lookup_take_lt by lia. by rewrite lookup_drop. Qed.

Lemma slice_ext l l' a b :
  0 <= a <= b -> (forall k, (Z.to_nat a <= k < Z.to_nat b)%nat -> l !! k = l' !! k) ->
  slice l a b = slice l' a b.
Proof.
  intros Hab He. apply list_eq. intros k. destruct (decide (k < Z.to_nat (b - a))%nat).
  - rewrite !slice_lookup by lia. apply He. lia.
  - unfold slice. rewrite !lookup_take_ge by lia. done.
Qed.

Lemma close_page_ok img page :
  length img = 64%nat -> bytes img -> 0 <= page <= 1 ->
  exists l, Sgi.close_page img page = Some l /\ length l = 64%nat /\ bytes l /\
    (forall k, ~ (32 * page + 30 <= Z.of_nat k < 32 * page + 32) -> l !! k = img !! k) /\
    crc16 0 (slice l (32 * page) (32 * page + 32)) = 0xb001.
Proof.
  intros Hl Hb Hp. unfold Sgi.close_page, PAGE.
  set (body := take (Z.to_nat (32 - 2)) (slice img (page * 32) ((page + 1) * 32))).
  set (chk := to_le_bytes16 (bnot 16 (crc16 0 body))).
  destruct (splice_ok (page * 32 + (32 - 2)) chk img) as (l & -> & Hll & Hbl & Hk);
    [lia|simpl; lia|]. exists l. split_and!; [done|lia|apply Hbl; [apply to_le_bytes16_bytes|done]| |].
  - intros k Hne. rewrite Hk, decide_False; [done|]. simpl. lia.
  - replace (slice l (32 * page) (32 * page + 32)) with (body ++ chk);
      [apply crc16_close; [by split|subst body; auto with onewire]|].
    assert (Hbl30 : length body = 30%nat) by (subst body; rewrite length_take, slice_length; lia).
    apply list_eq. intros k. destruct (decide (k < 32)%nat) as [Hk32|Hk32].
    + rewrite slice_lookup, Hk by lia. destruct (decide (k < 30)%nat) as [Hk30|Hk30].
      * rewrite lookup_app_l by lia. rewrite decide_False by (simpl; lia).
        subst body. rewrite lookup_take_lt, slice_lookup by lia. f_equal. lia.
      * rewrite lookup_app_r by lia. rewrite decide_True by (simpl; lia). f_equal. lia.
    + rewrite !lookup_ge_None_2; [done|rewrite slice_length; lia|rewrite length_app, Hbl30; simpl; lia].
Qed.

Lemma check_field_ok value width :
  Sgi.check_field value width = true ->
  Z.of_nat (length value) <= width /\ bytes value.
Proof.
  unfold Sgi.check_field. rewrite andb_true_iff, !negb_true_iff, orb_false_iff, Z.eqb_neq, Z.ltb_ge.
  intros [[_ Hw] Hx]. split; [done|]. apply Forall_forall. intros x Hin%list_elem_of_In.
  assert (Hc : (negb ((0x20 <=? x) && (x <=? 0x7e)) || (x =? 0x3a) || (x =? 0x3b)) = false).
  { destruct (_ || _ || _) eqn:E; [|done]. rewrite <- Hx. symmetry. apply existsb_exists. eauto. }
  apply orb_false_iff in Hc as [[Hc _]%orb_false_iff _].
  apply negb_false_iff, andb_true_iff in Hc as [? ?]. split; lia.
Qed.

Lemma check_ok r :
  Sgi.check r = true ->
  length (Sgi.part_no r) = 12%nat /\ bytes (Sgi.part_no r) /\
  (Z.of_nat (length (Sgi.barcode r)) <= 10 /\ bytes (Sgi.barcode r)) /\
  (Z.of_nat (length (Sgi.revision r)) <= 4 /\ bytes (Sgi.revision r)) /\
  (Z.of_nat (length (Sgi.name r)) <= 14 /\ bytes (Sgi.name r)).
Proof.
  unfold Sgi.check, Sgi.PART_LEN. case_match eqn:E; [done|].
  apply orb_false_iff in E as [Hl%negb_false_iff%Z.eqb_eq Hd%negb_false_iff].
  rewrite !andb_true_iff. intros [[[? ?]%check_field_ok [? ?]%check_field_ok] [? ?]%check_field_ok].
  split_and!; try done; [lia|]. apply Forall_forall. intros x Hin%list_elem_of_In.
  rewrite forallb_forall in Hd. specialize (Hd x Hin).
  apply orb_true_iff in Hd as [Hd|Hd]; [|split; lia].
  unfold Sgi.is_ascii_digit in Hd. apply andb_true_iff in Hd as [? ?]. split; lia.
Qed.

(** [at_field f at l]: the record holds the bytes of [f] from offset [at]. *)
Definition at_field (f : list Z) (at_ : Z) (l : list Z) : Prop :=
  forall k x, f !! k = Some x -> l !! (Z.to_nat at_ + k)%nat = Some x.

(** Splicing elsewhere leaves a field alone. *)
Lemma at_field_splice f at_ a src dst l :
  splice a src dst = Some l -> 0 <= a -> 0 <= at_ ->
  at_ + Z.of_nat (length f) <= a \/ a + Z.of_nat (length src) <= at_ ->
  at_field f at_ dst -> at_field f at_ l.
Proof.
  intros Hs Ha Hat Hd Hf k x Hx. pose proof (lookup_lt_Some _ _ _ Hx).
  unfold splice in Hs. case_match eqn:E; [|done]. apply Z.leb_le in E.
  destruct (splice_ok a src dst Ha E) as (l' & Hs' & _ & _ & Hk).
  unfold splice in Hs'. rewrite (proj2 (Z.leb_le _ _)) in Hs' by done. simplify_eq.
  rewrite Hk, decide_False by lia. by apply Hf.
Qed.

Lemma at_field_new f a dst l : splice a f dst = Some l -> 0 <= a -> at_field f a l.
Proof.
  intros Hs Ha k x Hx. pose proof (lookup_lt_Some _ _ _ Hx).
  unfold splice in Hs. case_match eqn:E; [|done]. apply Z.leb_le in E.
  destruct (splice_ok a f dst Ha E) as (l' & Hs' & _ & _ & Hk).
  unfold splice in Hs'. rewrite (proj2 (Z.leb_le _ _)) in Hs' by done. simplify_eq.
  rewrite Hk, decide_True by lia. by replace (Z.to_nat a + k - Z.to_nat a)%nat with k by lia.
Qed.

(** Closing the pages leaves the fields alone. *)
Lemma at_field_ext f at_ dst l :
  at_field f at_ dst ->
  (forall k, (Z.to_nat at_ <= k < Z.to_nat at_ + length f)%nat -> l !! k = dst !! k) -> at_field f at_ l.
Proof. intros Hf He k x Hx. pose proof (lookup_lt_Some _ _ _ Hx). rewrite He by lia. by apply Hf. Qed.

(** One more field into a 64-byte record. *)
Lemma splice_field a src dst :
  0 <= a -> a + Z.of_nat (length src) <= 64 -> length dst = 64%nat -> bytes src -> bytes dst ->
  exists l, splice a src dst = Some l /\ length l = 64%nat /\ bytes l /\ at_field src a l.
Proof.
  intros Ha Hl Hd Hs Hb. destruct (splice_ok a src dst Ha ltac:(lia)) as (l & E & Hll & Hbl & _).
  exists l. split_and!; [done|lia|auto|by eapply at_field_new].
Qed.

Ltac splice_next :=
  match goal with
  | |- context [splice ?a ?s ?d] =>
      let l := fresh "l" in let E := fresh "E" in let Hl := fresh "Hl" in
      let Hb := fresh "Hb" in let Hf := fresh "Hf" in
      destruct (splice_field a s d) as (l & E & Hl & Hb & Hf);
        [done|rewrite ?length_take, ?length_drop; simpl length; lia|done|auto with onewire|done|];
      rewrite E; cbn [mbind option_bind]
  end.

Ltac field_kept :=
  repeat first [eassumption | eapply at_field_splice;
    [eassumption|done|done|rewrite ?length_take, ?length_drop; simpl length; lia|]].

(** A checked record always has an image, with every field in its place and
    both pages closed. *)
Lemma image_ok r :
  Sgi.check r = true ->
  exists img, Sgi.image r = Some img /\ length img = 64%nat /\ bytes img /\
    crc16 0 (slice img 0 32) = 0xb001 /\ crc16 0 (slice img 32 64) = 0xb001 /\
    at_field (Sgi.barcode r) 1 img /\ at_field (take 9 (Sgi.part_no r)) 21 img /\
    at_field (drop 9 (Sgi.part_no r)) 35 img /\ at_field (Sgi.revision r) 38 img /\
    at_field (replicate 6 0xff) 42 img /\ at_field (Sgi.name r) 48 img.
Proof.
  intros Hc. destruct (check_ok r Hc) as (Hp & Hpb & [Hbl Hbb] & [Hrl Hrb] & [Hnl Hnb]).
  unfold Sgi.image. rewrite Hc.
  change Sgi.BARCODE_AT with 1. change Sgi.PART_BASE_AT with 21. change Sgi.PART_DASH_AT with 35.
  change Sgi.REVISION_AT with 38. change Sgi.FLAGS_AT with 42. change Sgi.NAME_AT with 48.
  change (Z.to_nat Sgi.PART_BASE_LEN) with 9%nat. change (Z.to_nat Sgi.FLAGS_LEN) with 6%nat.
  set (i0 := 1 :: replicate 63 32). assert (Hi0 : length i0 = 64%nat) by done.
  assert (Hi0b : bytes i0) by (constructor; [by split|by apply bytes_replicate]).
  assert (Hff : bytes (replicate 6 0xff)) by (by apply bytes_replicate).
  do 6 splice_next.
  destruct (close_page_ok l4 0) as (l5 & -> & Hl5 & Hb5 & Hk5 & Hc5); [done..|lia|]. cbn [mbind option_bind].
  destruct (close_page_ok l5 1) as (l6 & -> & Hl6 & Hb6 & Hk6 & Hc6); [done..|lia|].
  exists l6. split_and!; try done.
  - rewrite <- Hc5. f_equal. apply slice_ext; [lia|]. intros k Hk. apply Hk6. lia.
  - apply (at_field_ext _ _ l4); [field_kept|]. intros k Hk. rewrite Hk6, Hk5; [done|lia..].
  - apply (at_field_ext _ _ l4); [field_kept|]. intros k. rewrite length_take. intros Hk. rewrite Hk6, Hk5; [done|lia..].
  - apply (at_field_ext _ _ l4); [field_kept|]. intros k. rewrite length_drop. intros Hk. rewrite Hk6, Hk5; [done|lia..].
  - apply (at_field_ext _ _ l4); [field_kept|]. intros k Hk. rewrite Hk6, Hk5; [done|lia..].
  - apply (at_field_ext _ _ l4); [field_kept|]. intros k. rewrite length_replicate. intros Hk. rewrite Hk6, Hk5; [done|lia..].
  - apply (at_field_ext _ _ l4); [field_kept|]. intros k Hk. rewrite Hk6, Hk5; [done|lia..].
Qed.

End OneWireParts.
