(* ===== verification/OneWireClaims.v ===== *)
(** * The one-wire subsystem's theorems *)

From S2P Require Import Prelude Crc OneWire W1Ds2502 W1Ds2505 W1Sgi OneWireBus OneWireParts.
Import Crc OneWire OneWireBus OneWireParts.

Module OneWireClaims.

(** The octane's Ethernet part and a board's record, for the witnesses. *)
Definition demo_mac : list Z := [0x08; 0x00; 0x69; 0x12; 0x34; 0x56].

Definition demo_record : Sgi.BoardRecord :=
  {| Sgi.barcode := [69; 77; 85; 70; 48; 48];
     Sgi.part_no := [48; 51; 48; 45; 48; 56; 57; 49; 45; 48; 48; 51];
     Sgi.revision := [65]; Sgi.name := [70; 80; 49] |}.

Definition mac_part : Part :=
  Ds2502.part (Sgi.ethernet_address_part demo_mac Sgi.ETHERNET_PART_SERIAL).

Definition board_part : Part :=
  match Sgi.board_record_part demo_record 0x1234 with
  | Some p => Ds2505.part p
  | None => mac_part
  end.

Definition demo_bus : Bus := add (add bus_new mac_part) board_part.

Lemma mac_part_ok : part_ok mac_part.
Proof. split; [reflexivity|]. apply bytes_check. reflexivity. Qed.

Lemma board_part_ok : part_ok board_part.
Proof. split; [reflexivity|]. apply bytes_check. reflexivity. Qed.

Lemma demo_bus_ok : bus_ok demo_bus.
Proof. apply add_ok; [apply add_ok; [exact bus_new_ok|exact mac_part_ok]|exact board_part_ok]. Qed.

(** A bus built by [bus_new] and [add], then driven through the register cell. *)
Inductive bus_reachable : Bus -> Prop :=
| reach_new : bus_reachable bus_new
| reach_add b p : bus_reachable b -> part_ok p -> bus_reachable (add b p)
| reach_slot b pulse sample : bus_reachable b -> bus_reachable (fst (slot b pulse sample)).

(** Whatever parts are added and whatever pulses the master sends, the bus
    stays well formed: one select flag per part, ROM bit positions below 64
    (no ROM byte is read out of range), fewer bits collected than the phase
    wants and an accumulator that fits them. *)
Theorem bus_invariant b : bus_reachable b -> bus_ok b.
Proof.
  induction 1 as [|b p Hb IH Hp|b pulse sample Hb IH]; [exact bus_new_ok|by apply add_ok|].
  unfold slot. case_match; [by apply reset_ok|by apply bus_slot_ok].
Qed.

Lemma bus_invariant_witness : bus_ok (fst (slot (fst (slot demo_bus 500 0)) 6 13)).
Proof.
  apply bus_invariant. do 2 apply reach_slot.
  apply reach_add; [apply reach_add; [apply reach_new|exact mac_part_ok]|exact board_part_ok].
Defined.

Lemma selected_some q ps :
  existsb id (map (fun p => bool_decide (rom p = rom q)) ps) = bool_decide (rom q ∈ map rom ps).
Proof.
  apply eq_iff_eq_true. rewrite existsb_exists, bool_decide_eq_true. split.
  - intros (x & (p & <- & Hp)%in_map_iff & Hx). apply bool_decide_eq_true in Hx. rewrite <- Hx.
    by apply list_elem_of_In, in_map.
  - intros (p & Hp & Hin)%list_elem_of_In%in_map_iff. exists true. split; [|done].
    apply in_map_iff. exists p. split; [by apply bool_decide_eq_true|done].
Qed.

(** Reset, Match ROM (0x55) and the 64 bits of a ROM leave selected exactly
    the parts that carry that ROM; the bus then waits for a function command
    if there is one and goes dead otherwise. *)
Theorem match_rom_selects b q :
  bus_ok b -> part_ok q ->
  let b' := drive (rom_bit q) (write_word (fst (reset b)) 8 0x55) (seqZ 0 64) in
  sel b' = map (fun p => bool_decide (rom p = rom q)) (parts b) /\
  phase b' = if bool_decide (rom q ∈ roms b) then PhFunc else PhDead.
Proof.
  intros Hok Hq. rewrite write_rom_command by done.
  rewrite match_rom_spec by (simpl; rewrite ?length_map; try done; apply Hok).
  change (narrow (rom_bit q) 64 (set_phase (fst (reset b)) (rom_command 85)))
    with (narrow (rom_bit q) 64 (fst (reset b))).
  rewrite narrow_after_reset by done. cbn [sel phase set_phase set_sel]. split; [done|].
  unfold selection_phase, roms. by rewrite selected_some.
Qed.

Lemma match_rom_selects_witness :
  let b' := drive (rom_bit board_part) (write_word (fst (reset demo_bus)) 8 0x55) (seqZ 0 64) in
  sel b' = [false; true] /\ phase b' = PhFunc.
Proof.
  destruct (match_rom_selects demo_bus board_part demo_bus_ok board_part_ok) as [H1 H2].
  split; [rewrite H1; vm_compute; reflexivity|rewrite H2; vm_compute; reflexivity].
Defined.

(** during Search ROM, after the master has taken the branches [f 0 ..
    f (n-1)], the next two read slots carry the AND of the selected parts' bit
    and of its complement, where the parts selected are those whose ROM starts
    with the branches taken; after 64 branches the bus is as Match ROM leaves
    it. *)
Theorem search_rom_narrows b f n :
  bus_ok b -> 0 <= n < 64 ->
  let b0 := write_word (fst (reset b)) 8 0xf0 in
  snd (search_bit (f n) (search f b0 (seqZ 0 n))) =
    (forallb (fun p => negb (agrees f n p) || rom_bit p n) (parts b),
     forallb (fun p => negb (agrees f n p) || negb (rom_bit p n)) (parts b)) /\
  search f b0 (seqZ 0 64) =
    drive f (write_word (fst (reset b)) 8 0x55) (seqZ 0 64).
Proof.
  intros Hok Hn. rewrite !write_rom_command by done.
  change (rom_command 240) with (PhSearch 0 0). change (rom_command 85) with (PhMatch 0).
  assert (Hl : length (sel (fst (reset b))) = length (parts b)) by (simpl; rewrite length_map; apply Hok).
  split; [|rewrite search_rom_spec, match_rom_spec by (simpl in *; done || lia); done].
  cbv zeta. rewrite search_loop by (simpl in *; done || lia). rewrite (search_bit_step _ n) by done. cbn [snd].
  assert (Ha : forall g, and_over (set_phase (set_sel (set_phase (fst (reset b)) (PhSearch 0 0))
      (narrow f n (set_phase (fst (reset b)) (PhSearch 0 0)))) (PhSearch n 0)) g =
      forallb (fun p => negb (agrees f n p) || g p) (parts b)).
  { intros g. unfold and_over, narrow. simpl in *. revert Hl. generalize (sel b) (parts b). intros s ps. revert s.
    induction ps as [|p ps IH]; intros [|x s] Hl; simpl in *; try done. by rewrite IH by lia. }
  by rewrite !Ha.
Qed.

Lemma search_rom_narrows_witness :
  let b0 := write_word (fst (reset demo_bus)) 8 0xf0 in
  snd (search_bit false (search (rom_bit mac_part) b0 (seqZ 0 1))) = (false, false).
Proof.
  destruct (search_rom_narrows demo_bus (fun i => if i =? 1 then false else rom_bit mac_part i) 1 demo_bus_ok) as [H _];
    [lia|]. vm_compute in H. vm_compute. exact H.
Defined.

(** with distinct ROMs on the wire, a whole read transaction (reset, Match
    ROM, the part's ROM, a function command the part answers, a 16-bit address)
    followed by read slots carries exactly the part's reply, byte by byte,
    least significant bit first; the other parts do not disturb it. *)
Theorem read_transaction b q c ta r :
  bus_ok b -> q ∈ parts b -> NoDup (roms b) -> fits 8 c -> fits 16 ta -> reply q c ta = Some r ->
  read_bits (8 * length r)
    (write_word (write_word
      (drive (rom_bit q) (write_word (fst (reset b)) 8 0x55) (seqZ 0 64)) 8 c) 16 ta)
  = concat (map byte_bits r).
Proof.
  intros Hok Hq Hnd Hc Hta Hr.
  assert (Hqok : part_ok q) by (pose proof (ok_parts b Hok) as HF; rewrite Forall_forall in HF; by apply HF).
  rewrite (write_rom_command (fst (reset b)) 0x55) by done.
  rewrite match_rom_spec by (simpl; rewrite ?length_map; try done; apply Hok).
  change (narrow (rom_bit q) 64 (set_phase (fst (reset b)) (rom_command 85)))
    with (narrow (rom_bit q) 64 (fst (reset b))).
  rewrite narrow_after_reset by done.
  set (s := map (fun p => bool_decide (rom p = rom q)) (parts b)).
  assert (Hs : selection_phase s = PhFunc).
  { unfold selection_phase, s. rewrite selected_some, bool_decide_eq_true_2; [done|].
    by apply list_elem_of_In, in_map, list_elem_of_In. }
  rewrite Hs, write_func, write_addr by done.
  cbn [parts sel cmd set_phase set_sel set_cmd reset fst]. subst s. unfold roms in Hnd.
  rewrite (collect_unique c ta q r) by done.
  rewrite (read_stream _ _ 0) by done. cbn [replies set_phase set_replies].
  rewrite <- stream_bits. replace (Z.of_nat (8 * length r)) with (8 * Z.of_nat (length r)) by lia.
  apply map_ext. intros k. simpl. apply andb_true_r.
Qed.

Lemma read_transaction_witness :
  exists r, reply mac_part 0xf0 5 = Some r /\
    read_bits (8 * length r)
      (write_word (write_word
        (drive (rom_bit mac_part) (write_word (fst (reset demo_bus)) 8 0x55) (seqZ 0 64)) 8 0xf0) 16 5)
    = concat (map byte_bits r) /\ slice r 1 7 = reverse demo_mac.
Proof.
  eexists. split; [reflexivity|]. split; [|reflexivity].
  apply (read_transaction demo_bus mac_part 0xf0 5); [exact demo_bus_ok|..].
  - simpl. left.
  - refine (bool_decide_unpack _ _). vm_compute. exact I.
  - by split.
  - by split.
  - reflexivity.
Defined.

(** When a selected part refuses the function command, the wire stays
    released (every slot reads one) until the next reset. *)
Theorem refused_until_reset b c ta bits :
  bus_ok b -> phase b = PhFunc -> idle b -> fits 8 c -> fits 16 ta ->
  collect_replies c ta (zip (parts b) (sel b)) = None ->
  let b' := write_word (write_word b 8 c) 16 ta in
  forall bit, bus_slot (foldl (fun b x => fst (bus_slot b x)) b' bits) bit = (b', true).
Proof.
  intros Hok Hp [Hn Ha] Hc Hta Hr b' bit. subst b'.
  rewrite write_func by done. rewrite write_addr by done. simpl. rewrite Hr.
  set (d := set_phase _ PhDead).
  assert (Hd : foldl (fun b x => fst (bus_slot b x)) d bits = d) by (induction bits; done).
  by rewrite Hd.
Qed.

Lemma refused_until_reset_witness :
  let b := write_word (fst (reset demo_bus)) 8 0xcc in
  let b' := write_word (write_word b 8 0x0f) 16 0 in
  bus_slot (foldl (fun b x => fst (bus_slot b x)) b' [true; false]) true = (b', true).
Proof.
  intros b b'. apply (refused_until_reset b 0x0f 0 [true; false]).
  - repeat apply bus_slot_ok. apply reset_ok, demo_bus_ok.
  - reflexivity.
  - split; reflexivity.
  - by split.
  - by split.
  - reflexivity.
Defined.

(** The DS2502's Read Data/Generate CRC stream is its header check followed
    by pages that decode, each page's CRC-8 verified, to the memory from the
    (masked) address to its end; Read Memory is the same data under one
    CRC-8. *)
Theorem ds2502_stream_decodes p ta :
  length (Ds2502.data p) = 128%nat -> bytes (Ds2502.data p) -> fits 16 ta ->
  let a := ta mod 128 in
  let d := drop (Z.to_nat a) (Ds2502.data p) in
  (exists s, Ds2502.reply p 0xc3 ta = Some (crc8 [0xc3; a; 0] :: s) /\
     unpage 4 (Z.to_nat (32 - a mod 32)) s = Some d) /\
  (exists s, Ds2502.reply p 0xf0 ta = Some (crc8 [0xf0; a; 0] :: s) /\ take (length d) s = d /\ crc8 s = 0).
Proof.
  intros Hl Hb Hta a d.
  assert (Hc3 : Ds2502.reply p 0xc3 ta = Some (crc8 [0xc3; u8 (ta .& (Ds2502.DATA_SIZE - 1)); 0]
    :: Ds2502.crc_pages Ds2502.PAGES_FUEL (Ds2502.data p) (ta .& (Ds2502.DATA_SIZE - 1)))) by reflexivity.
  assert (Hm : Z.land ta (Ds2502.DATA_SIZE - 1) = a)
    by (change (Ds2502.DATA_SIZE - 1) with (Z.ones 7); by rewrite Z.land_ones by lia).
  pose proof (Z.mod_pos_bound ta 128 ltac:(lia)) as Hr.
  assert (Hu : u8 a = a) by (apply wrap_small; unfold fits; subst a; lia).
  rewrite Hm, Hu in Hc3. split.
  - eexists. split; [exact Hc3|]. change Ds2502.PAGES_FUEL with (S 4).
    change 32 with PAGE. apply crc_pages_unpage; [done|done|unfold Ds2502.DATA_SIZE; subst a; lia|].
    assert (0 <= a / PAGE) by (apply Z.div_pos; subst a; unfold PAGE; lia). unfold Ds2502.DATA_SIZE, PAGE in *. lia.
  - exists (d ++ [crc8 d]). split; [|split; [apply take_app_length|apply crc8_close; by apply bytes_drop]].
    unfold Ds2502.reply. rewrite Hm, Hu. reflexivity.
Qed.

Lemma ds2502_stream_decodes_witness :
  exists s, Ds2502.reply (Ds2502.new 0x09 1 demo_mac) 0xc3 0x100 = Some (crc8 [0xc3; 0; 0] :: s) /\
    unpage 4 32 s = Some (demo_mac ++ replicate 122 0xff).
Proof.
  destruct (ds2502_stream_decodes (Ds2502.new 0x09 1 demo_mac) 0x100) as [H _].
  - reflexivity.
  - apply make_data_bytes. apply bytes_check. reflexivity.
  - by split.
  - exact H.
Defined.

(** The DS2505's Extended Read Memory stream decodes, with the command
    header in the first check and every page's two CRC-16s verified (residue
    0xb001), to the memory from the (masked) address to its end. *)
Theorem ds2505_stream_decodes p ta :
  length (Ds2505.data p) = 2048%nat -> bytes (Ds2505.data p) -> fits 16 ta ->
  let a := ta mod 2048 in
  exists s, Ds2505.reply p 0xa5 ta = Some s /\
    unpage_ext 64 (Z.to_nat (32 - a mod 32)) [0xa5; a mod 256; a / 256] s
      = Some (drop (Z.to_nat a) (Ds2505.data p)).
Proof.
  intros Hl Hb Hta a.
  assert (Ha5 : Ds2505.reply p 0xa5 ta =
    let a := ta .& (Ds2505.DATA_SIZE - 1) in
    Some (Ds2505.extended_pages Ds2505.PAGES_FUEL (Ds2505.data p) [0xa5; u8 a; u8 (a .>> 8)] a true)) by reflexivity.
  assert (Hm : Z.land ta (Ds2505.DATA_SIZE - 1) = a)
    by (change (Ds2505.DATA_SIZE - 1) with (Z.ones 11); by rewrite Z.land_ones by lia).
  pose proof (Z.mod_pos_bound ta 2048 ltac:(lia)) as Hr. fold a in Hr. rewrite Hm in Ha5. cbv zeta in Ha5.
  assert (Hu : u8 (a .>> 8) = a / 256).
  { rewrite Z.shiftr_div_pow2 by lia. apply wrap_small. change (2 ^ 8) with 256.
    split; [apply Z.div_pos; lia|apply Z.div_lt_upper_bound; lia]. }
  rewrite Hu in Ha5. change (u8 a) with (a mod 256) in Ha5. eexists. split; [exact Ha5|].
  change 32 with PAGE. change Ds2505.PAGES_FUEL with (S 64).
  apply (extended_unpage 64 (Ds2505.data p) [165; a mod 256; a / 256] true); [done|done| | |].
  - pose proof (Z.mod_pos_bound a 256 ltac:(lia)).
    assert (0 <= a / 256 < 256) by (split; [apply Z.div_pos; lia|apply Z.div_lt_upper_bound; lia]).
    repeat constructor; (lia || by split).
  - unfold Ds2505.DATA_SIZE. lia.
  - assert (0 <= a / PAGE) by (apply Z.div_pos; [lia|unfold PAGE; lia]). unfold Ds2505.DATA_SIZE, PAGE in *. lia.
Qed.

Lemma ds2505_stream_decodes_witness :
  exists s, Ds2505.reply (Ds2505.new 0x0b 1 demo_mac) 0xa5 0x7e1 = Some s /\
    unpage_ext 64 31 [0xa5; 0xe1; 7] s = Some (replicate 31 0xff).
Proof.
  apply (ds2505_stream_decodes (Ds2505.new 0x0b 1 demo_mac) 0x7e1).
  - reflexivity.
  - apply make_data_bytes. apply bytes_check. reflexivity.
  - by split.
Defined.

(** A board record that passes [check] always has an image: 64 bytes, the
    barcode, the two halves of the part number, the revision, the flags and
    the name at their offsets, and each 32-byte page checking to 0xb001. *)
Theorem board_image_layout r :
  Sgi.check r = true ->
  exists img, Sgi.image r = Some img /\ length img = 64%nat /\ bytes img /\
    crc16 0 (slice img 0 32) = 0xb001 /\ crc16 0 (slice img 32 64) = 0xb001 /\
    at_field (Sgi.barcode r) 1 img /\ at_field (take 9 (Sgi.part_no r)) 21 img /\
    at_field (drop 9 (Sgi.part_no r)) 35 img /\ at_field (Sgi.revision r) 38 img /\
    at_field (replicate 6 0xff) 42 img /\ at_field (Sgi.name r) 48 img.
Proof. exact (image_ok r). Qed.

Lemma board_image_layout_witness :
  exists img, Sgi.image demo_record = Some img /\ length img = 64%nat /\ crc16 0 (slice img 0 32) = 0xb001.
Proof.
  destruct (board_image_layout demo_record) as (img & H1 & H2 & _ & H3 & _); [reflexivity|].
  exists img. exact (conj H1 (conj H2 H3)).
Defined.

(** A message closed by its CRC checks to the expected residue (0 for
    CRC-8, 0xb001 for an inverted CRC-16), and changing any one byte of a
    message always changes its CRC-8 and its CRC-16. *)
Theorem crc_guards seed l1 l2 x y :
  fits 16 seed -> bytes l1 -> bytes l2 -> fits 8 x -> fits 8 y -> x <> y ->
  crc8 (l1 ++ [crc8 l1]) = 0 /\
  crc16 seed (l1 ++ to_le_bytes16 (bnot 16 (crc16 seed l1))) = 0xb001 /\
  crc8 (l1 ++ x :: l2) <> crc8 (l1 ++ y :: l2) /\
  crc16 seed (l1 ++ x :: l2) <> crc16 seed (l1 ++ y :: l2).
Proof.
  intros. split_and!; [by apply crc8_close|by apply crc16_close|by apply crc8_detects|by apply crc16_detects].
Qed.

Lemma crc_guards_witness : crc8 [1; 2; 3] <> crc8 [1; 7; 3].
Proof.
  apply (crc_guards 0 [1] [3] 2 7); [by split|..|by split|by split|discriminate];
    apply bytes_check; reflexivity.
Defined.

End OneWireClaims.
