(* ===== verification/CpuTimer.v ===== *)
(** * The virtual CP0 Count and the Compare interrupt (src/src/cpu/mips_core.rs)

    Count is not incremented: it is materialised from the wall clock whenever
    the guest looks, and the Count = Compare interrupt (IP7) has two
    deliverers that race, the CPU thread and a one-shot on the timer thread.
    A ticket decides between them: [claim_ip7] succeeds for the armed ticket
    only, once.

    The clock is an argument ([now], in nanoseconds); the timer manager is
    the set of one-shots it holds for this core, each with the ticket its
    callback captured.  A callback the timer thread has already taken off the
    queue is not in that set any more but may still run ([fire]), which is the
    race the tickets exist for.  Built without [ci_clock] and
    [developer_ip7]. *)

From S2P Require Import Prelude.

Module CpuTimer.

Definition CAUSE_IP7 : Z := 0x8000.
Definition DEFAULT_COUNT_HZ : Z := 33000000.
Definition IP7_SEQ_CONSUMED : Z := 0.
Definition NS : Z := 1000000000.

(** An armed one-shot: when it expires, and the ticket its callback holds. *)
Record OneShot := { expires : Z; ticket_of : Z }.

Record Timer := mkTimer {
  interrupts : Z;
  cycles : Z;
  cp0_count : Z;
  cp0_compare : Z;
  count_hz : Z;
  count_read_cycle : Z;
  count_anchor : Z;
  count_paused : bool;
  count_last_guest_read : Z;
  count_write_samples : bool;
  ip7_seq : Z;
  ip7_seq_shared : Z;
  fasttick_count : Z;
  timer_mgr : bool;
  timer_id : option Z;
  next_id : Z;
  shots : gmap Z OneShot;
}.

#[global] Instance eta_Timer : Settable Timer := fun r =>
  mkTimer (interrupts r) (cycles r) (cp0_count r) (cp0_compare r) (count_hz r)
    (count_read_cycle r) (count_anchor r) (count_paused r) (count_last_guest_read r)
    (count_write_samples r) (ip7_seq r) (ip7_seq_shared r) (fasttick_count r) (timer_mgr r)
    (timer_id r) (next_id r) (shots r).


(** [compare_exchange(ticket, CONSUMED)], then raise IP7. *)
Definition claim_ip7 (t : Timer) (ticket : Z) : Timer * bool :=
  if ticket =? IP7_SEQ_CONSUMED then (t, false)
  else if ip7_seq_shared t =? ticket then
    (t <| ip7_seq_shared := IP7_SEQ_CONSUMED |> <| interrupts ::= (fun i => i .| CAUSE_IP7) |> <| fasttick_count ::= (fun n => u64 (n + 1)) |>, true)
  else (t, false).

Definition ticks_of (elapsed_ns hz : Z) : Z := u64 (elapsed_ns * hz / NS).

(** [Instant::elapsed] saturates at zero. *)
Definition elapsed_ns (t : Timer) (now : Z) : Z := u64 (Z.max 0 (now - count_anchor t)).

Definition materialize_count (t : Timer) (now : Z) (deliver_crossing : bool) : Timer * Z :=
  if count_paused t then (t, u32 (cp0_count t))
  else if cycles t =? count_read_cycle t then (t, u32 (cp0_count t))
  else
    let ticks := ticks_of (elapsed_ns t now) (count_hz t) in
    let t1 :=
      if ticks =? 0 then t
      else
        let consumed_ns := u64 (ticks * NS / count_hz t) in
        let before := u32 (cp0_count t) in
        let after := u32 (before + u32 ticks) in
        let t := t <| count_anchor ::= (fun a => a + consumed_ns) |> <| cp0_count := after |> in
        let dist_to_compare := u32 (u32 (cp0_compare t) - before) in
        if deliver_crossing && negb (dist_to_compare =? 0) && (dist_to_compare <=? ticks) then
          fst (claim_ip7 t (ip7_seq t))
        else t in
    let t2 := t1 <| count_read_cycle := cycles t |> in
    (t2, u32 (cp0_count t2)).

Definition count_now (t : Timer) (now : Z) : Timer * Z := materialize_count t now true.

Definition count_peek (t : Timer) (now : Z) : Z :=
  if count_paused t then u32 (cp0_count t)
  else u32 (u32 (cp0_count t) + u32 (ticks_of (elapsed_ns t now) (count_hz t))).

Definition arm_ip7_sequence (t : Timer) : Timer :=
  let s := u64 (ip7_seq t + 1) in
  let s := if s =? IP7_SEQ_CONSUMED then 1 else s in
  t <| ip7_seq := s |> <| ip7_seq_shared := s |>.

(** Nanoseconds until a Count at [count] next equals [compare]. *)
Definition compare_delay_ns (compare count hz : Z) : Z :=
  let d := u32 (compare - count) in
  let delta := if d =? 0 then 2 ^ 32 else d in
  u64 (delta * NS / hz).

(** [tm.remove(id)] *)
Definition remove_shot (t : Timer) : Timer :=
  match timer_id t with
  | Some id => t <| timer_id := None |> <| shots ::= delete id |>
  | None => t
  end.

Definition schedule_compare_timer (t : Timer) (now : Z) : Timer :=
  let ns := compare_delay_ns (u32 (cp0_compare t)) (u32 (cp0_count t)) (count_hz t) in
  if count_paused t then t
  else if negb (timer_mgr t) then t
  else
    let t := remove_shot t in
    let id := next_id t in
    t <| shots ::= <[id := {| expires := now + ns; ticket_of := ip7_seq t |}]> |> <| timer_id := Some id |> <| next_id := id + 1 |>.

Definition disarm_compare_timer (t : Timer) : Timer :=
  if timer_mgr t then remove_shot t else t <| timer_id := None |>.

Definition reanchor_count_and_reschedule (t : Timer) (now : Z) : Timer :=
  schedule_compare_timer (t <| count_read_cycle := cycles t |> <| count_anchor := now |>) now.

Definition restore_compare_deadline (t : Timer) (now : Z) : Timer :=
  reanchor_count_and_reschedule (arm_ip7_sequence t) now.

(** [tm.disable(id)]: the shot stays but no longer fires. *)
Definition disable_shot (t : Timer) : Timer :=
  if timer_mgr t then
    match timer_id t with
    | Some id => t <| shots ::= delete id |>
    | None => t
    end
  else t.

Definition on_cpu_stop (t : Timer) (now : Z) : Timer :=
  if count_paused t then t
  else
    let ticks := ticks_of (elapsed_ns t now) (count_hz t) in
    let t := t <| cp0_count := u32 (u32 (cp0_count t) + u32 ticks) |> in
    disable_shot (t <| count_read_cycle := cycles t |> <| count_paused := true |>).

Definition on_cpu_start (t : Timer) (now : Z) : Timer :=
  reanchor_count_and_reschedule (t <| count_paused := false |>) now.

(** Guest read of Count (CP0 register 9). *)
Definition read_count (t : Timer) (now : Z) : Timer * Z :=
  let '(t, c) := count_now t now in
  (t <| count_last_guest_read := c |>, c).

(** Guest write of Count. *)
Definition write_count (t : Timer) (now value : Z) : Timer :=
  let t := t <| cp0_count := u32 value |> in
  let t := if count_write_samples t then t <| count_last_guest_read := u32 value |> else t in
  reanchor_count_and_reschedule t now.

(** What a Compare write asks for, given the materialised Count and the Count
    the guest last read. *)
Definition compare_in_future (compare count : Z) : bool :=
  negb (u32 (compare - count) =? 0) && (0 <? i32 (u32 (compare - count))).

Definition compare_missed (compare count last_read : Z) : bool :=
  negb (u32 (compare - last_read) =? 0) && (u32 (compare - last_read) <=? u32 (count - last_read)).

(** The atomic actions of a guest write of Compare, in program order; the
    timer thread may run between any two of them.  [Cause.IP7] is cleared by
    the caller. *)
Definition compare_store (t : Timer) (now value : Z) : Timer * Z :=
  let '(t, count_before) := materialize_count t now false in
  (t <| cp0_compare := u32 value |>, count_before).

Definition compare_ack (t : Timer) : Timer :=
  t <| interrupts ::= (fun i => i .& bnot 64 CAUSE_IP7) |>.

Definition compare_classify (t : Timer) (ticket count_before : Z) : Timer :=
  let compare := u32 (cp0_compare t) in
  let last_read := count_last_guest_read t in
  if compare_in_future compare count_before then t
  else if (compare =? last_read) || negb (compare_missed compare count_before last_read) then t
  else fst (claim_ip7 t ticket).

Definition write_compare (t : Timer) (now value : Z) : Timer :=
  let t := arm_ip7_sequence t in
  let ticket := ip7_seq t in
  let '(t, count_before) := compare_store t now value in
  let t := compare_ack t in
  let t := compare_classify t ticket count_before in
  schedule_compare_timer t now.

(** The one-shot's callback on the timer thread, run with the ticket it
    captured at or after its expiry: [TimerReturn::Delete] when the claim
    fails, else rescheduled a full Count wrap later. *)
Definition wrap_ns (hz : Z) : Z := u64 (2 ^ 32 * NS / hz).

Definition fire (t : Timer) (now id ticket : Z) : Timer :=
  let '(t, won) := claim_ip7 t ticket in
  if won then
    t <| shots ::= alter (fun s => {| expires := now + wrap_ns (count_hz t); ticket_of := ticket_of s |}) id |>
  else t <| shots ::= delete id |>.

End CpuTimer.
