(* ===== verification/CpuTimerClaims.v ===== *)
(** * The virtual Count's theorems *)

From S2P Require Import Prelude CpuTimer.

(** ** The Compare interrupt: tickets, classification and drift *)

Module CpuTimerProofs.

Import CpuTimer.

(** ** Tickets *)

(** After [n] arms: the last ticket issued is [n], the shared word holds it or
    is consumed, and at most one delivery happened per ticket. *)
Record seq_inv (n : Z) (t : Timer) : Prop := {
  inv_seq : ip7_seq t = n;
  inv_shared : ip7_seq_shared t = 0 \/ ip7_seq_shared t = n;
  inv_fast : 0 <= fasttick_count t <= n;
  inv_armed : n <> 0 -> ip7_seq_shared t = n -> fasttick_count t <= n - 1;
}.

Lemma claim_inv n t ticket : n < 2 ^ 64 -> seq_inv n t -> seq_inv n (fst (claim_ip7 t ticket)).
Proof.
  intros Hn [H1 H2 H3 H4]. unfold claim_ip7, IP7_SEQ_CONSUMED.
  destruct (Z.eqb_spec ticket 0) as [|Ht]; [done|].
  destruct (Z.eqb_spec (ip7_seq_shared t) ticket) as [He|]; [|done].
  assert (Hs : ip7_seq_shared t = n) by lia. specialize (H4 ltac:(lia) Hs).
  destruct t; simpl in *.
  split; simpl; [done|by left| |intros ? <-; done]. unfold u64. rewrite wrap_small by (unfold fits; lia). lia.
Qed.

(** Fields the ticket invariant does not look at. *)
Lemma seq_inv_ext n t t' :
  ip7_seq t' = ip7_seq t -> ip7_seq_shared t' = ip7_seq_shared t ->
  fasttick_count t' = fasttick_count t -> seq_inv n t -> seq_inv n t'.
Proof. intros E1 E2 E3 []. split; rewrite ?E1, ?E2, ?E3; done. Qed.

Lemma materialize_inv n t now d :
  n < 2 ^ 64 -> seq_inv n t -> seq_inv n (fst (materialize_count t now d)).
Proof.
  intros Hn H. unfold materialize_count. case_match; [done|]. case_match; [done|].
  cbv zeta. cbn [fst]. case_match; [by eapply seq_inv_ext; [..|exact H]|].
  case_match; [|by eapply seq_inv_ext; [..|exact H]].
  eapply seq_inv_ext; [..|eapply (claim_inv n); [done|eapply seq_inv_ext; [..|exact H]]]; done.
Qed.

Lemma remove_shot_inv n t : seq_inv n t -> seq_inv n (remove_shot t).
Proof. intros H. unfold remove_shot. case_match; [|done]. by eapply seq_inv_ext; [..|exact H]. Qed.

Lemma schedule_inv n t now : seq_inv n t -> seq_inv n (schedule_compare_timer t now).
Proof.
  intros H. unfold schedule_compare_timer. case_match; [done|]. case_match; [done|]. cbv zeta.
  eapply seq_inv_ext; [..|apply (remove_shot_inv n), H]; done.
Qed.

Lemma arm_inv n t : 0 <= n -> n + 1 < 2 ^ 64 -> seq_inv n t -> seq_inv (n + 1) (arm_ip7_sequence t).
Proof.
  intros Hn0 Hn [H1 H2 H3 H4]. unfold arm_ip7_sequence, IP7_SEQ_CONSUMED. rewrite H1.
  unfold u64. rewrite wrap_small by (unfold fits; lia).
  destruct (Z.eqb_spec (n + 1) 0); [lia|]. destruct t; simpl in *. split; simpl; [done|by right|lia|intros; lia].
Qed.

Lemma reanchor_inv n t now : seq_inv n t -> seq_inv n (reanchor_count_and_reschedule t now).
Proof. intros H. apply schedule_inv. by eapply seq_inv_ext; [..|exact H]. Qed.

Lemma fire_inv n t now id ticket : n < 2 ^ 64 -> seq_inv n t -> seq_inv n (fire t now id ticket).
Proof.
  intros Hn H. unfold fire. pose proof (claim_inv n t ticket Hn H) as Hc.
  destruct (claim_ip7 t ticket) as [t' won]. simpl in Hc.
  case_match; by eapply seq_inv_ext; [..|exact Hc].
Qed.

Lemma write_count_inv n t now v : seq_inv n t -> seq_inv n (write_count t now v).
Proof.
  intros H. unfold write_count. apply reanchor_inv.
  case_match; by eapply seq_inv_ext; [..|exact H].
Qed.

Lemma write_compare_inv n t now v :
  0 <= n -> n + 1 < 2 ^ 64 -> seq_inv n t -> seq_inv (n + 1) (write_compare t now v).
Proof.
  intros Hn0 Hn H. unfold write_compare, compare_store. cbv zeta.
  pose proof (materialize_inv (n + 1) (arm_ip7_sequence t) now false Hn (arm_inv n t Hn0 Hn H)) as Hm.
  destruct (materialize_count (arm_ip7_sequence t) now false) as [t1 cb]. simpl in Hm. apply schedule_inv.
  assert (Ha : seq_inv (n + 1) (compare_ack (t1 <| cp0_compare := u32 v |>)))
    by (by eapply seq_inv_ext; [..|exact Hm]).
  unfold compare_classify. case_match; [done|]. case_match; [done|]. by apply claim_inv.
Qed.

Lemma stop_inv n t now : seq_inv n t -> seq_inv n (on_cpu_stop t now).
Proof.
  intros H. unfold on_cpu_stop. case_match; [done|]. cbv zeta. unfold disable_shot.
  repeat case_match; by eapply seq_inv_ext; [..|exact H].
Qed.

(** What the two threads may do to the timer.  A callback holds a ticket some
    earlier arm issued; it may run long after its one-shot was removed. *)
Inductive timer_step : Timer -> Timer -> Prop :=
| step_retire t k : timer_step t (t <| cycles := k |>)
| step_read t now : timer_step t (fst (read_count t now))
| step_write_count t now v : timer_step t (write_count t now v)
| step_fire t now id ticket : 0 <= ticket <= ip7_seq t -> timer_step t (fire t now id ticket)
| step_stop t now : timer_step t (on_cpu_stop t now)
| step_start t now : timer_step t (on_cpu_start t now).

(** A run, with the number of deadlines the guest programmed. *)
Inductive timer_run (t0 : Timer) : Z -> Timer -> Prop :=
| run_init : timer_run t0 0 t0
| run_step n t t' : timer_run t0 n t -> timer_step t t' -> timer_run t0 n t'
| run_compare n t now v : timer_run t0 n t -> timer_run t0 (n + 1) (write_compare t now v)
| run_restore n t now : timer_run t0 n t -> timer_run t0 (n + 1) (restore_compare_deadline t now).

Definition fresh_timer (t : Timer) : Prop :=
  ip7_seq t = 0 /\ ip7_seq_shared t = 0 /\ fasttick_count t = 0.

Lemma timer_step_inv n t t' : n < 2 ^ 64 -> timer_step t t' -> seq_inv n t -> seq_inv n t'.
Proof.
  intros Hn Hs H. destruct Hs as [t k|t now|t now v|t now id ticket _|t now|t now].
  - by eapply seq_inv_ext; [..|exact H].
  - unfold read_count, count_now. pose proof (materialize_inv n t now true Hn H) as Hm.
    destruct (materialize_count t now true). by eapply seq_inv_ext; [..|exact Hm].
  - by apply write_count_inv.
  - by apply fire_inv.
  - by apply stop_inv.
  - apply reanchor_inv. by eapply seq_inv_ext; [..|exact H].
Qed.

Lemma timer_run_inv t0 n t : fresh_timer t0 -> timer_run t0 n t -> 0 <= n /\ (n < 2 ^ 64 -> seq_inv n t).
Proof.
  intros (F1 & F2 & F3). induction 1 as [|n t t' Hr [Hn IH] Hs|n t now v Hr [Hn IH]|n t now Hr [Hn IH]].
  - split; [lia|]. intros _. split; [done|by left|lia|lia].
  - split; [done|]. intros Hb. eapply timer_step_inv; eauto.
  - split; [lia|]. intros Hb. apply write_compare_inv; [lia..|]. apply IH. lia.
  - split; [lia|]. intros Hb. apply reanchor_inv, arm_inv; [lia..|]. apply IH. lia.
Qed.

(** ** Stale callbacks *)

(** States that differ only in the one-shots the manager holds. *)
Definition same_core (t t' : Timer) : Prop := t <| shots := ∅ |> = t' <| shots := ∅ |>.

#[global] Instance same_core_equiv : Equivalence same_core.
Proof. split; unfold same_core; [done|by intros ? ? ->|by intros ? ? ? -> ->]. Qed.

Lemma same_core_inv t t' : same_core t t' -> exists s, t' = t <| shots := s |>.
Proof.
  intros H. exists (shots t'). destruct t, t'. unfold same_core in H. simpl in *.
  injection H. intros. subst. done.
Qed.

Lemma same_core_shared t t' : same_core t t' -> ip7_seq_shared t = ip7_seq_shared t'.
Proof. intros H. exact (f_equal ip7_seq_shared H). Qed.

Lemma claim_core t s k :
  claim_ip7 (t <| shots := s |>) k =
    ((fst (claim_ip7 t k)) <| shots := s |>, snd (claim_ip7 t k)).
Proof. unfold claim_ip7. simpl. repeat case_match; done. Qed.

#[global] Instance claim_proper : Proper (same_core ==> eq ==> same_core) (fun t k => fst (claim_ip7 t k)).
Proof. intros t t' [s ->]%same_core_inv k ? <-. rewrite claim_core. done. Qed.

Lemma materialize_core t s now d :
  materialize_count (t <| shots := s |>) now d =
    ((fst (materialize_count t now d)) <| shots := s |>, snd (materialize_count t now d)).
Proof.
  destruct t as [i c cc cp hz rc an pz lr ws sq sh ft tm id nx so].
  unfold materialize_count, elapsed_ns. simpl.
  destruct pz; [done|]. destruct (c =? rc); [done|]. simpl.
  destruct (ticks_of (u64 (0 `max` (now - an))) hz =? 0); [done|].
  destruct (d && _ && _); [|done]. unfold claim_ip7. simpl.
  destruct (sq =? IP7_SEQ_CONSUMED); [done|]. by destruct (sh =? sq).
Qed.

#[global] Instance ack_proper : Proper (same_core ==> same_core) compare_ack.
Proof. intros t t' [s ->]%same_core_inv. done. Qed.

#[global] Instance classify_proper : Proper (same_core ==> eq ==> eq ==> same_core) compare_classify.
Proof.
  intros t t' H k ? <- c ? <-. pose proof (same_core_inv _ _ H) as [s E].
  assert (E1 : cp0_compare t' = cp0_compare t) by (by rewrite E).
  assert (E2 : count_last_guest_read t' = count_last_guest_read t) by (by rewrite E).
  unfold compare_classify. rewrite E1, E2.
  case_match; [done|]. case_match; [done|]. by apply claim_proper.
Qed.

#[global] Instance schedule_proper now : Proper (same_core ==> same_core) (fun t => schedule_compare_timer t now).
Proof.
  intros t t' [s ->]%same_core_inv. destruct t as [i c cc cp hz rc an pz lr ws sq sh ft tm id nx so].
  unfold schedule_compare_timer, remove_shot. simpl.
  destruct pz; [done|]. destruct tm; [|done]. by destruct id.
Qed.

(** A callback whose ticket is no longer the armed one changes nothing but its
    own place in the manager. *)
Lemma fire_stale t now id k : ip7_seq_shared t <> k -> same_core (fire t now id k) t.
Proof.
  intros Hk. unfold fire, claim_ip7. destruct (k =? IP7_SEQ_CONSUMED); [done|].
  rewrite (proj2 (Z.eqb_neq _ _)) by done. done.
Qed.

(** The timer thread running a batch of callbacks. *)
Definition fires (l : list (Z * Z * Z)) (t : Timer) : Timer :=
  foldl (fun t '(now, id, k) => fire t now id k) t l.

Lemma fires_stale l t :
  Forall (fun '(_, _, k) => ip7_seq_shared t <> k) l -> same_core (fires l t) t.
Proof.
  revert t. induction l as [|[[now id] k] l IH]; intros t HF; [done|]. inversion HF as [|? ? Hk HF']; subst.
  simpl. pose proof (fire_stale t now id k Hk) as Hs.
  transitivity (fire t now id k); [|done]. apply IH.
  apply Forall_impl with (1 := HF'). intros [[n' i'] k']. simpl.
  by rewrite (same_core_shared _ _ Hs).
Qed.

(** ** The Compare write with the timer thread running in between *)

Definition write_compare_racing (l1 l2 l3 : list (Z * Z * Z)) (t : Timer) (now value : Z) : Timer :=
  let t := fires l1 (arm_ip7_sequence t) in
  let ticket := ip7_seq t in
  let '(t, count_before) := compare_store t now value in
  let t := compare_ack (fires l2 t) in
  compare_classify (fires l3 t) ticket count_before.

(** The write before it schedules its own one-shot. *)
Definition write_compare_alone (t : Timer) (now value : Z) : Timer :=
  write_compare_racing [] [] [] t now value.

Lemma write_compare_split t now value :
  write_compare t now value = schedule_compare_timer (write_compare_alone t now value) now.
Proof.
  unfold write_compare, write_compare_alone, write_compare_racing. simpl.
  by destruct (compare_store (arm_ip7_sequence t) now value).
Qed.

Lemma materialize_shared t now : ip7_seq_shared (fst (materialize_count t now false)) = ip7_seq_shared t.
Proof. unfold materialize_count. simpl. repeat case_match; done. Qed.

Lemma arm_shared t : ip7_seq_shared (arm_ip7_sequence t) = ip7_seq (arm_ip7_sequence t).
Proof. done. Qed.

Lemma racing_same l1 l2 l3 t now value :
  (forall k, k ∈ l1 ++ l2 ++ l3 -> snd k <> ip7_seq (arm_ip7_sequence t)) ->
  same_core (write_compare_racing l1 l2 l3 t now value) (write_compare_alone t now value).
Proof.
  intros Hk. set (s := ip7_seq (arm_ip7_sequence t)) in *.
  assert (Hst : forall l u, (forall x, x ∈ l -> x ∈ l1 ++ l2 ++ l3) -> ip7_seq_shared u = s -> same_core (fires l u) u).
  { intros l u Hl Hu. apply fires_stale, Forall_forall. intros [[n i] k] Hin. rewrite Hu.
    intros E. apply (Hk (n, i, k)); [auto|done]. }
  assert (H1 : same_core (fires l1 (arm_ip7_sequence t)) (arm_ip7_sequence t))
    by (apply Hst; [set_solver|done]).
  unfold write_compare_racing, write_compare_alone, write_compare_racing. cbv zeta. simpl fires.
  destruct (same_core_inv _ _ (symmetry H1)) as [s1 E1]. rewrite E1.
  unfold compare_store. rewrite materialize_core.
  pose proof (materialize_shared (arm_ip7_sequence t) now) as Hms.
  destruct (materialize_count (arm_ip7_sequence t) now false) as [t1 cb]. simpl in Hms |- *.
  assert (H2 : same_core (fires l2 (t1 <| shots := s1 |> <| cp0_compare := u32 value |>)) (t1 <| cp0_compare := u32 value |>)).
  { transitivity (t1 <| shots := s1 |> <| cp0_compare := u32 value |>); [|done]. apply Hst; [set_solver|done]. }
  assert (H3 : same_core (compare_ack (fires l2 (t1 <| shots := s1 |> <| cp0_compare := u32 value |>)))
                         (compare_ack (t1 <| cp0_compare := u32 value |>))) by (by rewrite H2).
  apply classify_proper; [|done|done]. etransitivity; [|exact H3]. apply Hst; [set_solver|].
  rewrite (same_core_shared _ _ H3). exact Hms.
Qed.

(** ** Classification, on an unbounded Count *)

Lemma u32_window x : 0 <= x < 2 ^ 32 -> u32 x = x.
Proof. intros. apply wrap_small. done. Qed.

Lemma u32_neg x : - 2 ^ 32 <= x < 0 -> u32 x = x + 2 ^ 32.
Proof.
  intros. unfold u32, wrap. rewrite <- (Z.mod_add x 1) by lia. apply Z.mod_small. lia.
Qed.

Lemma in_future_spec D N :
  N - 2 ^ 31 < D < N + 2 ^ 31 -> compare_in_future (u32 D) (u32 N) = bool_decide (N < D).
Proof.
  intros H. unfold compare_in_future. rewrite u32_sub.
  destruct (Z.lt_ge_cases D N).
  - rewrite u32_neg by lia. unfold i32, signed. rewrite wrap_small by (unfold fits; lia).
    rewrite (proj2 (Z.ltb_ge (D - N + 2 ^ 32) (2 ^ (32 - 1)))) by lia.
    rewrite bool_decide_eq_false_2 by lia. apply andb_false_iff. right. apply Z.ltb_ge. lia.
  - rewrite u32_window by lia. unfold i32, signed. rewrite wrap_small by (unfold fits; lia).
    rewrite (proj2 (Z.ltb_lt (D - N) (2 ^ (32 - 1)))) by lia.
    destruct (Z.eqb_spec (D - N) 0); simpl; [by rewrite bool_decide_eq_false_2 by lia|].
    rewrite bool_decide_eq_true_2 by lia. apply Z.ltb_lt. lia.
Qed.

Lemma missed_spec D N L :
  L <= N < L + 2 ^ 31 -> N - 2 ^ 31 < D <= N ->
  compare_missed (u32 D) (u32 N) (u32 L) = bool_decide (L < D).
Proof.
  intros HL HD. unfold compare_missed. rewrite !u32_sub, (u32_window (N - L)) by lia.
  destruct (Z.lt_ge_cases D L).
  - rewrite u32_neg by lia. rewrite bool_decide_eq_false_2 by lia.
    apply andb_false_iff. right. apply Z.leb_gt. lia.
  - rewrite u32_window by lia. destruct (Z.eqb_spec (D - L) 0); simpl; [by rewrite bool_decide_eq_false_2 by lia|].
    rewrite bool_decide_eq_true_2 by lia. apply Z.leb_le. lia.
Qed.

Lemma ack_clears i : has (i .& bnot 64 CAUSE_IP7) CAUSE_IP7 = false.
Proof.
  change CAUSE_IP7 with (2 ^ 15). rewrite has_pow2 by lia. unfold bnot.
  rewrite !Z.land_spec, Z.lnot_spec, pow2_testbit by lia. apply andb_false_r.
Qed.

Lemma raise_sets i : has (i .| CAUSE_IP7) CAUSE_IP7 = true.
Proof.
  change CAUSE_IP7 with (2 ^ 15). rewrite has_pow2, Z.lor_spec, pow2_testbit by lia. apply orb_true_r.
Qed.

Lemma schedule_interrupts t now : interrupts (schedule_compare_timer t now) = interrupts t.
Proof. unfold schedule_compare_timer, remove_shot. repeat case_match; done. Qed.

(** A claim of the ticket just armed succeeds. *)
Lemma claim_wins t k : k <> 0 -> ip7_seq_shared t = k -> interrupts (fst (claim_ip7 t k)) = interrupts t .| CAUSE_IP7.
Proof.
  intros Hk Hs. unfold claim_ip7, IP7_SEQ_CONSUMED. rewrite (proj2 (Z.eqb_neq k 0)) by done.
  rewrite (proj2 (Z.eqb_eq _ _)) by done. done.
Qed.

Lemma arm_nonzero t : ip7_seq (arm_ip7_sequence t) <> 0.
Proof. unfold arm_ip7_sequence, IP7_SEQ_CONSUMED. simpl. destruct (Z.eqb_spec (u64 (ip7_seq t + 1)) 0); simpl; lia. Qed.

Lemma materialize_last_read t now :
  count_last_guest_read (fst (materialize_count t now false)) = count_last_guest_read t.
Proof. unfold materialize_count. simpl. repeat case_match; done. Qed.

(** IP7 after a Compare write: asserted exactly for a deadline already
    missed. *)
Lemma write_compare_ip7 t now value N L D :
  snd (compare_store (arm_ip7_sequence t) now value) = u32 N ->
  count_last_guest_read t = u32 L -> value = u32 D ->
  L <= N < L + 2 ^ 31 -> N - 2 ^ 31 < D < N + 2 ^ 31 ->
  has (interrupts (write_compare t now value)) CAUSE_IP7 = bool_decide (L < D <= N).
Proof.
  intros Hc Hl Hv HL HD. rewrite write_compare_split, schedule_interrupts.
  unfold write_compare_alone, write_compare_racing. simpl fires. cbv zeta. unfold compare_store in *.
  pose proof (materialize_shared (arm_ip7_sequence t) now) as Hms.
  pose proof (materialize_last_read (arm_ip7_sequence t) now) as Hml.
  destruct (materialize_count (arm_ip7_sequence t) now false) as [t1 cb]. simpl in Hc, Hms, Hml. subst cb.
  unfold compare_classify. simpl cp0_compare. simpl count_last_guest_read. rewrite Hml.
  change (count_last_guest_read (arm_ip7_sequence t)) with (count_last_guest_read t). rewrite Hl, Hv.
  assert (Hdd : u32 (u32 (u32 D)) = u32 D) by (unfold u32; by rewrite !wrap_idemp by lia).
  rewrite Hdd, in_future_spec by lia. case_bool_decide as Hf.
  { simpl. rewrite ack_clears, bool_decide_eq_false_2 by lia. done. }
  rewrite missed_spec by lia. destruct (decide (L < D)) as [Hm|Hm].
  - rewrite (bool_decide_eq_true_2 (L < D)) by done.
    assert (Hne : (u32 D =? u32 L) = false).
    { apply Z.eqb_neq. intros E. assert (E2 : u32 (u32 D - u32 L) = 0) by (rewrite E, Z.sub_diag; done).
      rewrite u32_sub, u32_window in E2 by lia. lia. }
    rewrite Hne. simpl orb. cbv iota. rewrite claim_wins; [|apply arm_nonzero|exact Hms].
    rewrite raise_sets, bool_decide_eq_true_2 by lia. done.
  - rewrite (bool_decide_eq_false_2 (L < D)) by done. rewrite orb_true_r. cbv iota. simpl.
    rewrite ack_clears, bool_decide_eq_false_2 by lia. done.
Qed.

(** ** Drift *)

(** The guest reads Count at the times [ts], retiring instructions in between
    so that every read materialises. *)
Definition read_at (t : Timer) (now : Z) : Timer :=
  fst (read_count (t <| cycles := count_read_cycle t + 1 |>) now).

(** Total ticks handed out, and where the anchor is, in unbounded terms. *)
Fixpoint reads (hz anchor total : Z) (ts : list Z) : Z * Z :=
  match ts with
  | [] => (anchor, total)
  | now :: ts' =>
      let ticks := (now - anchor) * hz / NS in
      reads hz (anchor + ticks * NS / hz) (total + ticks) ts'
  end.

Inductive increasing (lo : Z) : list Z -> Prop :=
| inc_nil : increasing lo []
| inc_cons x l : lo <= x -> increasing x l -> increasing lo (x :: l).

Definition clock_ok (hz : Z) : Prop := 0 < hz <= NS.

Lemma anchor_behind hz a now :
  clock_ok hz -> a <= now -> a <= a + (now - a) * hz / NS * NS / hz <= now.
Proof.
  unfold clock_ok, NS. intros Hhz Ha.
  set (k := (now - a) * hz / 1000000000).
  assert (0 <= k) by (apply Z.div_pos; nia).
  assert (k * 1000000000 <= (now - a) * hz) by (subst k; rewrite Z.mul_comm; apply Z.mul_div_le; lia).
  assert (0 <= k * 1000000000 / hz) by (apply Z.div_pos; lia).
  pose proof (Z.mul_div_le (k * 1000000000) hz ltac:(lia)). nia.
Qed.

(** The error bound that a sequence of [n] materialisations keeps: the ticks
    handed out are never behind the anchor and less than one nanosecond per
    materialisation ahead of it. *)
Definition drift_ok (hz a0 n a total : Z) : Prop :=
  (a - a0) * hz <= total * NS <= (a - a0 + n) * hz.

Lemma drift_step hz a0 n a total now :
  clock_ok hz -> a <= now -> drift_ok hz a0 n a total ->
  let k := (now - a) * hz / NS in
  drift_ok hz a0 (n + 1) (a + k * NS / hz) (total + k) /\
  (now - a0) * hz - NS < (total + k) * NS <= (now - a0 + n) * hz.
Proof.
  intros Hhz Ha [Hlo Hhi] k. unfold clock_ok in Hhz. unfold drift_ok.
  assert (Hk : k * NS <= (now - a) * hz < k * NS + NS).
  { pose proof (Z.div_mod ((now - a) * hz) NS ltac:(unfold NS; lia)).
    pose proof (Z.mod_pos_bound ((now - a) * hz) NS ltac:(unfold NS; lia)). subst k. lia. }
  assert (Hc : k * NS / hz * hz <= k * NS < k * NS / hz * hz + hz).
  { pose proof (Z.div_mod (k * NS) hz ltac:(lia)). pose proof (Z.mod_pos_bound (k * NS) hz ltac:(lia)). lia. }
  set (c := k * NS / hz) in *. clearbody c. clearbody k. split; split; lia.
Qed.

Lemma reads_bounds hz a0 ts : forall n a total,
  clock_ok hz -> increasing a ts -> drift_ok hz a0 n a total ->
  let '(a', total') := reads hz a total ts in
  drift_ok hz a0 (n + Z.of_nat (length ts)) a' total' /\
  (ts <> [] -> (List.last ts a - a0) * hz - NS < total' * NS
               <= (List.last ts a - a0 + (n + Z.of_nat (length ts))) * hz).
Proof.
  induction ts as [|now ts IH]; intros n a total Hhz Hinc Hd.
  - simpl. rewrite Z.add_0_r. done.
  - inversion Hinc as [|? ? Hle Hinc']; subst.
    destruct (drift_step hz a0 n a total now Hhz Hle Hd) as [Hd1 Hb1].
    pose proof (anchor_behind hz a now Hhz Hle) as Hanch.
    cbn [reads]. cbv zeta in *. set (k := (now - a) * hz / NS) in *. set (a1 := a + k * NS / hz) in *.
    assert (Hinc1 : increasing a1 ts) by (destruct Hinc' as [|x l Hx Hl]; constructor; [lia|done]).
    specialize (IH (n + 1) a1 (total + k) Hhz Hinc1 Hd1).
    destruct (reads hz a1 (total + k) ts) as [a' total'] eqn:E. destruct IH as [IH1 IH2].
    replace (n + Z.of_nat (length (now :: ts))) with (n + 1 + Z.of_nat (length ts)) by (simpl length; lia).
    split; [done|]. intros _. destruct ts as [|x ts].
    + simpl in E. simplify_eq. simpl. unfold clock_ok in Hhz. lia.
    + change (List.last (now :: x :: ts) a) with (List.last (x :: ts) a).
      replace (List.last (x :: ts) a) with (List.last (x :: ts) a1); [by apply IH2|].
      clear. revert x. induction ts as [|y ts IH]; intros x; [done|]. apply (IH y).
Qed.

(** One materialising read, in unbounded terms. *)
Lemma read_at_fields t now :
  clock_ok (count_hz t) -> count_paused t = false ->
  0 <= now - count_anchor t < 2 ^ 64 ->
  let k := (now - count_anchor t) * count_hz t / NS in
  count_anchor (read_at t now) = count_anchor t + k * NS / count_hz t /\
  cp0_count (read_at t now) = (if k =? 0 then cp0_count t else u32 (cp0_count t + k)) /\
  count_hz (read_at t now) = count_hz t /\ count_paused (read_at t now) = false.
Proof.
  intros Hhz Hp Hnow k. pose proof (anchor_behind (count_hz t) (count_anchor t) now Hhz ltac:(lia)) as Hc.
  fold k in Hc. unfold clock_ok in Hhz.
  assert (Hk : 0 <= k <= now - count_anchor t).
  { subst k. split; [apply Z.div_pos; unfold NS; nia|]. apply Z.div_le_upper_bound; [unfold NS; lia|].
    rewrite Z.mul_comm. apply Z.mul_le_mono_nonneg_r; lia. }
  assert (He : elapsed_ns t now = now - count_anchor t).
  { unfold elapsed_ns, u64. rewrite Z.max_r by lia. apply wrap_small. unfold fits. lia. }
  assert (Ht : ticks_of (elapsed_ns t now) (count_hz t) = k).
  { unfold ticks_of, u64. rewrite He. fold k. apply wrap_small. unfold fits. lia. }
  assert (Hu : u64 (k * NS / count_hz t) = k * NS / count_hz t).
  { unfold u64. apply wrap_small. unfold fits. lia. }
  unfold read_at, read_count, count_now, materialize_count. simpl. rewrite Hp.
  rewrite (proj2 (Z.eqb_neq _ _)) by lia. simpl.
  change (elapsed_ns _ now) with (elapsed_ns t now). rewrite Ht, Hu.
  destruct (Z.eqb_spec k 0) as [->|Hk0]; simpl.
  - rewrite Z.div_0_l by lia. rewrite Z.add_0_r. done.
  - assert (Hcc : u32 (u32 (cp0_count t) + u32 k) = u32 (cp0_count t + k))
      by (unfold u32, wrap; rewrite <- Zplus_mod; done).
    rewrite Hcc. destruct (negb _ && _); simpl; [|done].
    unfold claim_ip7. simpl. repeat case_match; done.
Qed.

(** The register agrees with the unbounded count modulo 2^32, as long as no
    read comes 2^64 nanoseconds after the first. *)
Lemma reads_register ts : forall t total,
  clock_ok (count_hz t) -> count_paused t = false -> increasing (count_anchor t) ts ->
  (forall x, x ∈ ts -> x - count_anchor t < 2 ^ 64) -> u32 (cp0_count t) = u32 total ->
  let t' := foldl read_at t ts in
  count_anchor t' = fst (reads (count_hz t) (count_anchor t) total ts) /\
  u32 (cp0_count t') = u32 (snd (reads (count_hz t) (count_anchor t) total ts)).
Proof.
  induction ts as [|now ts IH]; intros t total Hhz Hp Hinc Hsmall Hcount; [done|].
  inversion Hinc as [|? ? Hle Hinc']; subst.
  pose proof (Hsmall now ltac:(set_solver)) as Hs.
  destruct (read_at_fields t now Hhz Hp ltac:(lia)) as (Ha & Hc & Hh & Hp').
  pose proof (anchor_behind (count_hz t) (count_anchor t) now Hhz Hle) as Hanch.
  cbn [foldl reads]. cbv zeta in Ha, Hc |- *. set (k := (now - count_anchor t) * count_hz t / NS) in *.
  rewrite <- Ha, <- Hh. apply IH; [by rewrite Hh|done| | |].
  - rewrite Ha. destruct Hinc' as [|x l Hx Hl]; constructor; [lia|done].
  - intros x Hx. rewrite Ha. specialize (Hsmall x ltac:(set_solver)). lia.
  - rewrite Hc. destruct (Z.eqb_spec k 0) as [->|]; [by rewrite Z.add_0_r|].
    unfold u32 in *. rewrite wrap_idemp by lia. unfold wrap in *.
    rewrite (Zplus_mod (cp0_count t)), Hcount, <- Zplus_mod. done.
Qed.

End CpuTimerProofs.

Module CpuTimerClaims.

Import CpuTimer CpuTimerProofs.

(** A core at reset with a timer manager attached. *)
Definition demo_timer : Timer :=
  {| interrupts := 0; cycles := 0; cp0_count := 0; cp0_compare := 0; count_hz := DEFAULT_COUNT_HZ;
     count_read_cycle := 0; count_anchor := 0; count_paused := false; count_last_guest_read := 0;
     count_write_samples := false; ip7_seq := 0; ip7_seq_shared := 0; fasttick_count := 0;
     timer_mgr := true; timer_id := None; next_id := 1; shots := ∅ |}.

(** The same core after its first Compare write, one instruction later. *)
Definition demo_armed : Timer := (write_compare demo_timer 0 1000) <| cycles := 5 |>.

(** C23: whatever the guest does and however late the timer thread's callbacks
    run, IP7 is delivered at most once per deadline the guest programmed (a
    Compare write or a restored Compare). *)
Theorem one_delivery_per_deadline t0 n t :
  fresh_timer t0 -> timer_run t0 n t -> n < 2 ^ 64 -> fasttick_count t <= n.
Proof. intros Hf Hr Hn. apply (proj2 (timer_run_inv t0 n t Hf Hr) Hn). Qed.

Lemma one_delivery_per_deadline_witness :
  fasttick_count (fire (fst (read_count demo_armed 40000)) 50000 1 1) <= 1.
Proof.
  apply (one_delivery_per_deadline demo_timer); [done| |lia].
  apply run_step with (fst (read_count demo_armed 40000)); [|apply step_fire; vm_compute; split; discriminate].
  apply run_step with demo_armed; [|apply step_read].
  apply run_step with (write_compare demo_timer 0 1000); [|apply (step_retire _ 5)].
  apply (run_compare demo_timer 0 demo_timer 0 1000), run_init.
Defined.

(** callbacks of superseded deadlines that run in the middle of a Compare
    write, between any of its atomic actions, change nothing but the timer
    manager's own list: the interrupt the guest acknowledges is not raised
    again behind its back, and the new deadline is armed as if they had not
    run. *)
Theorem compare_write_immune l1 l2 l3 t now value :
  (forall k, k ∈ l1 ++ l2 ++ l3 -> snd k <> ip7_seq (arm_ip7_sequence t)) ->
  same_core (schedule_compare_timer (write_compare_racing l1 l2 l3 t now value) now)
            (write_compare t now value).
Proof.
  intros Hk. rewrite write_compare_split. apply schedule_proper. by apply racing_same.
Qed.

Lemma compare_write_immune_witness :
  let t := schedule_compare_timer
             (write_compare_racing [(9, 1, 1)] [(9, 1, 1)] [] demo_armed 9 5000) 9 in
  same_core t (write_compare demo_armed 9 5000) /\ interrupts t = 0.
Proof.
  intros t. assert (H : same_core t (write_compare demo_armed 9 5000)).
  { apply compare_write_immune. intros k Hk. vm_compute.
    apply elem_of_cons in Hk as [->|[->|Hk]%elem_of_cons]; [discriminate|discriminate|].
    by apply not_elem_of_nil in Hk. }
  split; [exact H|]. vm_compute. reflexivity.
Defined.

(** what a Compare write does to IP7, told on an unbounded Count.  Let the
    guest have last read Count at [L], let Count be [N] at the write and [D]
    the deadline written, everything within half a Count period: IP7 is
    pending after the write exactly when the deadline was missed, [L < D <= N].
    An acknowledgement ([D = L]), a deadline ahead of Count and one parked
    behind the last read leave it clear; nothing before the write matters. *)
Theorem compare_write_classifies t now value N L D :
  snd (compare_store (arm_ip7_sequence t) now value) = u32 N ->
  count_last_guest_read t = u32 L -> value = u32 D ->
  L <= N < L + 2 ^ 31 -> N - 2 ^ 31 < D < N + 2 ^ 31 ->
  has (interrupts (write_compare t now value)) CAUSE_IP7 = bool_decide (L < D <= N).
Proof. apply write_compare_ip7. Qed.

Lemma compare_write_classifies_witness :
  has (interrupts (write_compare (fst (read_count demo_armed 20000)) 20000 700)) CAUSE_IP7 = false /\
  has (interrupts (write_compare ((fst (read_count demo_armed 20000)) <| cycles := 6 |>) 30000 700)) CAUSE_IP7 = true.
Proof.
  split.
  - rewrite (compare_write_classifies _ 20000 700 660 660 700); [reflexivity|reflexivity|reflexivity|reflexivity|lia|lia].
  - rewrite (compare_write_classifies _ 30000 700 990 660 700); [reflexivity|reflexivity|reflexivity|reflexivity|lia|lia].
Defined.

(** a Count read that carries Count from [B] over an armed Compare deadline
    [D] raises IP7 at the crossing, and no other read raises it: after the
    read IP7 is pending if it was before or if [D] lies within the ticks just
    materialised. *)
Theorem count_read_delivers_crossing t now B D :
  count_paused t = false -> cycles t <> count_read_cycle t ->
  ip7_seq t <> 0 -> ip7_seq_shared t = ip7_seq t ->
  cp0_count t = u32 B -> cp0_compare t = u32 D -> B < D < B + 2 ^ 32 ->
  let ticks := ticks_of (elapsed_ns t now) (count_hz t) in
  has (interrupts (fst (count_now t now))) CAUSE_IP7 =
    has (interrupts t) CAUSE_IP7 || bool_decide (D <= B + ticks).
Proof.
  intros Hp Hc Hs0 Hs HB HD HBD ticks. unfold count_now, materialize_count. rewrite Hp.
  rewrite (proj2 (Z.eqb_neq _ _)) by done. fold ticks. cbv zeta. cbn [fst].
  assert (Hdist : u32 (u32 (cp0_compare t) - u32 (cp0_count t)) = D - B).
  { rewrite u32_sub, HB, HD, u32_sub. apply u32_window. lia. }
  destruct (Z.eqb_spec ticks 0) as [Ht0|Ht0].
  - simpl. rewrite Ht0, bool_decide_eq_false_2 by lia. by rewrite orb_false_r.
  - simpl cp0_compare. rewrite Hdist. rewrite (proj2 (Z.eqb_neq (D - B) 0)) by lia. simpl negb. simpl andb.
    destruct (Z.leb_spec (D - B) ticks) as [Hle|Hgt].
    + rewrite bool_decide_eq_true_2 by lia. rewrite orb_true_r.
      match goal with |- context [claim_ip7 ?u ?k] =>
        change (has (interrupts (fst (claim_ip7 u k))) CAUSE_IP7 = true) end.
      rewrite claim_wins; [apply raise_sets|done|exact Hs].
    + rewrite bool_decide_eq_false_2 by lia. rewrite orb_false_r. done.
Qed.

Lemma count_read_delivers_crossing_witness :
  has (interrupts (fst (count_now demo_armed 31000))) CAUSE_IP7 = true /\
  has (interrupts (fst (count_now demo_armed 30000))) CAUSE_IP7 = false.
Proof.
  split.
  - rewrite (count_read_delivers_crossing demo_armed 31000 0 1000);
      [reflexivity|reflexivity|discriminate|discriminate|reflexivity|reflexivity|reflexivity|lia].
  - rewrite (count_read_delivers_crossing demo_armed 30000 0 1000);
      [reflexivity|reflexivity|discriminate|discriminate|reflexivity|reflexivity|reflexivity|lia].
Defined.

(** C24: however often the guest reads Count, it never runs slow and runs fast
    by less than one nanosecond's worth per read: after reads at the times
    [ts], the last at [T], the register holds (modulo 2^32) a total that is at
    least the exact number of ticks in [T] minus a partial one, and at most
    those in [T] plus the number of reads in nanoseconds. *)
Theorem count_drift_bounded t ts :
  clock_ok (count_hz t) -> count_paused t = false -> increasing (count_anchor t) ts ->
  (forall x, x ∈ ts -> x - count_anchor t < 2 ^ 64) -> ts <> [] -> cp0_count t = 0 ->
  let T := List.last ts 0 - count_anchor t in
  exists total, u32 (cp0_count (foldl read_at t ts)) = u32 total /\
    T * count_hz t - NS < total * NS <= (T + Z.of_nat (length ts)) * count_hz t.
Proof.
  intros Hhz Hp Hinc Hs Hne Hc T.
  destruct (reads_register ts t 0 Hhz Hp Hinc Hs ltac:(by rewrite Hc)) as [_ Hreg].
  exists (snd (reads (count_hz t) (count_anchor t) 0 ts)). split; [exact Hreg|].
  pose proof (reads_bounds (count_hz t) (count_anchor t) ts 0 (count_anchor t) 0 Hhz Hinc
    ltac:(unfold drift_ok; lia)) as Hb.
  destruct (reads (count_hz t) (count_anchor t) 0 ts) as [a' total']. destruct Hb as [_ Hb].
  specialize (Hb Hne). rewrite Z.add_0_l in Hb.
  replace (List.last ts (count_anchor t)) with (List.last ts 0) in Hb; [exact Hb|].
  destruct ts as [|x ts]; [done|]. clear. revert x. induction ts as [|y ts IH]; intros x; [done|]. apply (IH y).
Qed.

Lemma count_drift_bounded_witness :
  exists total, u32 (cp0_count (foldl read_at demo_timer [31; 62; 93])) = u32 total /\
    (93 - 0) * 33000000 - NS < total * NS <= (93 - 0 + 3) * 33000000.
Proof.
  apply (count_drift_bounded demo_timer [31; 62; 93]); try reflexivity; try discriminate.
  - unfold clock_ok, NS. simpl. unfold DEFAULT_COUNT_HZ. lia.
  - repeat constructor; simpl; lia.
  - intros x Hx. simpl. assert (x <= 93) by set_solver by lia. lia.
Defined.

(** The excess is real: at the default 33 MHz, a hundred reads 31 ns apart
    leave Count at 103 although only 102 ticks have passed, because the anchor
    moves by the consumed time rounded down to a nanosecond. *)
Theorem frequent_reads_run_fast :
  cp0_count (foldl read_at demo_timer (map (fun k => 31 * k) (seqZ 1 100))) = 103 /\
  count_peek demo_timer (31 * 100) = 102.
Proof. vm_compute. split; reflexivity. Qed.

(** The one-shot armed for a deadline [delta] ticks away (2^32 for one equal
    to Count) expires when Count has advanced by [delta] or, the nanoseconds
    being rounded down, by one tick less; never later. *)
Theorem one_shot_on_time compare count hz :
  clock_ok hz ->
  let delta := if u32 (compare - count) =? 0 then 2 ^ 32 else u32 (compare - count) in
  delta - 1 <= ticks_of (compare_delay_ns compare count hz) hz <= delta.
Proof.
  intros Hhz delta. unfold clock_ok in Hhz. unfold compare_delay_ns. fold delta.
  assert (Hd : 0 < delta <= 2 ^ 32).
  { subst delta. pose proof (wrap_fits 32 (compare - count) ltac:(lia)) as [? ?].
    unfold u32. destruct (Z.eqb_spec (wrap 32 (compare - count)) 0); lia. }
  pose proof (Z.div_mod (delta * NS) hz ltac:(lia)) as Hdm.
  pose proof (Z.mod_pos_bound (delta * NS) hz ltac:(lia)) as Hr.
  set (ns := delta * NS / hz) in *.
  assert (Hns : 0 <= ns <= delta * NS) by (split; [apply Z.div_pos; unfold NS in *; lia|unfold NS in *; nia]).
  unfold u64. rewrite wrap_small by (unfold fits; unfold NS in *; lia).
  unfold ticks_of, u64. assert (Ht : delta - 1 <= ns * hz / NS <= delta).
  { split; [apply Z.div_le_lower_bound|apply Z.div_le_upper_bound]; unfold NS in *; lia. }
  rewrite wrap_small by (unfold fits; lia). exact Ht.
Qed.

Lemma one_shot_on_time_witness : ticks_of (compare_delay_ns 1000 1000 DEFAULT_COUNT_HZ) DEFAULT_COUNT_HZ <= 2 ^ 32.
Proof. apply (one_shot_on_time 1000 1000 DEFAULT_COUNT_HZ). unfold clock_ok, DEFAULT_COUNT_HZ, NS. lia. Defined.

(** Stopping the CPU freezes Count: whatever time passes while it is
    stopped, the guest resumes from the value latched at the stop, and reads
    while stopped return it. *)
Theorem stop_freezes_count t t1 t2 t3 t4 :
  count_paused t = false -> t2 <= t3 ->
  let latched := count_peek t t1 in
  count_peek (on_cpu_stop t t1) t4 = latched /\
  snd (count_now (on_cpu_stop t t1) t4) = latched /\
  count_peek (on_cpu_start (on_cpu_stop t t1) t2) t3 =
    u32 (latched + u32 (ticks_of (u64 (t3 - t2)) (count_hz t))).
Proof.
  intros Hp Ht latched.
  assert (Hstop : exists u, on_cpu_stop t t1 = u /\ u32 (cp0_count u) = latched /\
    count_paused u = true /\ count_hz u = count_hz t).
  { eexists. split; [reflexivity|]. unfold on_cpu_stop, latched, count_peek. rewrite Hp.
    unfold disable_shot. simpl. split_and!; repeat case_match; try done;
      simpl; unfold u32; by rewrite wrap_idemp by lia. }
  destruct Hstop as (u & -> & Hu & Hpu & Hhz). split_and!.
  - unfold count_peek at 1. by rewrite Hpu.
  - unfold count_now, materialize_count. by rewrite Hpu.
  - unfold on_cpu_start, reanchor_count_and_reschedule.
    assert (Hs : forall v now, count_paused (schedule_compare_timer v now) = count_paused v /\
      cp0_count (schedule_compare_timer v now) = cp0_count v /\
      count_anchor (schedule_compare_timer v now) = count_anchor v /\
      count_hz (schedule_compare_timer v now) = count_hz v).
    { intros v now. unfold schedule_compare_timer, remove_shot. repeat case_match; done. }
    unfold count_peek at 1, elapsed_ns.
    match goal with |- context [schedule_compare_timer ?v t2] => destruct (Hs v t2) as (-> & -> & -> & ->) end.
    simpl. rewrite Hu, Hhz, Z.max_r by lia. done.
Qed.

Lemma stop_freezes_count_witness :
  count_peek (on_cpu_start (on_cpu_stop demo_timer 1000) 5000000) 5000000 = 33.
Proof.
  destruct (stop_freezes_count demo_timer 1000 5000000 5000000 0) as (_ & _ & H); [reflexivity|lia|].
  rewrite H. reflexivity.
Defined.

End CpuTimerClaims.
