(* ===== verification/CpuCore.v ===== *)
(** * The MIPS core: registers, CP0 and exceptions (src/src/cpu/mips_core.rs)

    [MipsCore] with the flat fields of the source grouped into CP0, FPU and
    timer records.  Built with the default features: no [jitv2], no
    [ci_clock], no [r5ksc_triton].  Diagnostics printed on some accesses are
    left out. *)

From S2P Require Import Prelude Tlb CpuTimer.
Import Tlb.

Module CpuCore.

(** ** Status and Cause *)

Definition STATUS_IE : Z := 0x1.
Definition STATUS_EXL : Z := 0x2.
Definition STATUS_ERL : Z := 0x4.
Definition STATUS_KSU_MASK : Z := 0x18.
Definition STATUS_KSU_SHIFT : Z := 3.
Definition STATUS_UX : Z := 0x20.
Definition STATUS_SX : Z := 0x40.
Definition STATUS_KX : Z := 0x80.
Definition STATUS_IM_MASK : Z := 0xFF00.
Definition STATUS_DE : Z := 0x10000.
Definition STATUS_CE : Z := 0x20000.
Definition STATUS_SR : Z := 0x100000.
Definition STATUS_BEV : Z := 0x400000.
Definition STATUS_FR : Z := 0x4000000.
Definition STATUS_CU0 : Z := 0x10000000.
Definition STATUS_CU1 : Z := 0x20000000.
Definition STATUS_CU2 : Z := 0x40000000.
Definition STATUS_CU3 : Z := 0x80000000.

Definition CAUSE_EXCCODE_MASK : Z := 0x7C.
Definition CAUSE_EXCCODE_SHIFT : Z := 2.
Definition CAUSE_IP_MASK : Z := 0xFF00.
Definition CAUSE_IP0 : Z := 0x100.
Definition CAUSE_IP1 : Z := 0x200.
Definition CAUSE_CE_MASK : Z := 0x30000000.
Definition CAUSE_CE_SHIFT : Z := 28.
Definition CAUSE_BD : Z := 0x80000000.

Definition KSU_KERNEL : Z := 0.
Definition KSU_SUPERVISOR : Z := 1.
Definition KSU_USER : Z := 2.

Inductive PrivilegeMode := Kernel | Supervisor | User.

#[global] Instance PrivilegeMode_eq_dec : EqDecision PrivilegeMode.
Proof. solve_decision. Defined.

(** ** The nano-TLB *)

Record NanoTlbEntry := mkNano { va_tag : Z; pa_encoded : Z }.

#[global] Instance eta_NanoTlbEntry : Settable NanoTlbEntry := fun r =>
  mkNano (va_tag r) (pa_encoded r).

Definition nano_is_valid (e : NanoTlbEntry) : bool := negb (va_tag e =? 0).
Definition nano_matches (e : NanoTlbEntry) (va_page : Z) : bool := va_tag e =? (va_page .| 1).
Definition nano_phys_addr (e : NanoTlbEntry) (va : Z) : Z :=
  (pa_encoded e .& bnot 64 0xFFF) .| (va .& 0xFFF).

Definition nano_cache_attr (e : NanoTlbEntry) : CacheAttr :=
  let c := pa_encoded e .& 0x7 in
  if c =? 3 then Cacheable else if c =? 5 then CacheableCoherent else Uncached.

Definition nano_cache_attr_raw (e : NanoTlbEntry) : Z := u32 (pa_encoded e .& 0x7).

Definition nano_fill (va phys_addr : Z) (attr : CacheAttr) : NanoTlbEntry :=
  {| va_tag := (va .& bnot 64 0xFFF) .| 1;
     pa_encoded := (phys_addr .& bnot 64 0xFFF) .| CacheAttr_code attr |}.

Definition nano_fill_raw (va_page phys_addr c_field : Z) : NanoTlbEntry :=
  {| va_tag := va_page .| 1; pa_encoded := (phys_addr .& bnot 64 0xFFF) .| c_field |}.

Definition nano_invalidate (e : NanoTlbEntry) : NanoTlbEntry := e <| va_tag := 0 |>.

(** ** The data-side micro-TLB *)

Definition NUM_NUTLB_ENTRIES : nat := 256.
Definition NUTLB_INDEX_MASK : Z := 255.
Definition NUM_NUTLB_WORDS : nat := 4.
Definition NUTLB_READ : nat := 0.
Definition NUTLB_WRITE : nat := 1.

Record NuTlbEntry := mkNu { virttag : Z; nu_phys : Z }.

#[global] Instance NuTlbEntry_inhabited : Inhabited NuTlbEntry := populate (mkNu 0 0).

Definition nu_phys_addr (e : NuTlbEntry) (va : Z) : Z :=
  (nu_phys e .& bnot 64 0xFFF) .| (va .& 0xFFF).
Definition nu_cache_attr_raw (e : NuTlbEntry) : Z := u32 (nu_phys e .& 0x7).

Definition nutlb_index (va : Z) : Z := (va .>> 12) .& NUTLB_INDEX_MASK.

(** ** The register file *)

Record Cp0 := mkCp0 {
  cp0_index : Z;
  cp0_random : Z;
  cp0_random_cycle : Z;
  cp0_entrylo0 : Z;
  cp0_entrylo1 : Z;
  cp0_context : Z;
  cp0_pagemask : Z;
  cp0_wired : Z;
  cp0_badvaddr : Z;
  cp0_entryhi : Z;
  cp0_status : Z;
  cp0_cause : Z;
  cp0_epc : Z;
  cp0_prid : Z;
  cp0_config : Z;
  cp0_lladdr : Z;
  cp0_watchlo : Z;
  cp0_watchhi : Z;
  cp0_xcontext : Z;
  cp0_ecc : Z;
  cp0_cacheerr : Z;
  cp0_taglo : Z;
  cp0_taghi : Z;
  cp0_errorepc : Z;
}.

#[global] Instance eta_Cp0 : Settable Cp0 := fun r =>
  mkCp0 (cp0_index r) (cp0_random r) (cp0_random_cycle r) (cp0_entrylo0 r) (cp0_entrylo1 r)
    (cp0_context r) (cp0_pagemask r) (cp0_wired r) (cp0_badvaddr r) (cp0_entryhi r)
    (cp0_status r) (cp0_cause r) (cp0_epc r) (cp0_prid r) (cp0_config r) (cp0_lladdr r)
    (cp0_watchlo r) (cp0_watchhi r) (cp0_xcontext r) (cp0_ecc r) (cp0_cacheerr r) (cp0_taglo r)
    (cp0_taghi r) (cp0_errorepc r).

(** [host_rounding] is the host FPU's mode, set through [platform::set_fpu_mode]. *)
Record Fpu := mkFpu {
  fpr : list Z;
  fpu_fir : Z;
  fpu_fccr : Z;
  fpu_fexr : Z;
  fpu_fenr : Z;
  fpu_fcsr : Z;
  host_rounding : Z;
}.

#[global] Instance eta_Fpu : Settable Fpu := fun r =>
  mkFpu (fpr r) (fpu_fir r) (fpu_fccr r) (fpu_fexr r) (fpu_fenr r) (fpu_fcsr r)
    (host_rounding r).

Notation Timer := CpuTimer.Timer.

Record MipsCore := mkCore {
  gpr : list Z;
  hi : Z;
  lo : Z;
  pc : Z;
  in_delay_slot : bool;
  delay_slot_target : Z;
  cp0 : Cp0;
  fpu : Fpu;
  tm : Timer;
  nanotlb : list NanoTlbEntry;
  nutlb : list (list NuTlbEntry);
  nutlb_valid : list (list Z);
  ll_value : Z;
  ll_phys : Z;
  smp : bool;
  running : bool;
  halted : bool;
  tlb_entries : Z;
  reset_prid : Z;
  reset_fir : Z;
}.

#[global] Instance eta_MipsCore : Settable MipsCore := fun r =>
  mkCore (gpr r) (hi r) (lo r) (pc r) (in_delay_slot r) (delay_slot_target r) (cp0 r) (fpu r)
    (tm r) (nanotlb r) (nutlb r) (nutlb_valid r) (ll_value r) (ll_phys r) (smp r) (running r) (halted r) (tlb_entries r) (reset_prid r)
    (reset_fir r).

Definition read_gpr (c : MipsCore) (reg : Z) : Z := nth (Z.to_nat reg) (gpr c) 0.

(** Writes the register, then re-zeroes r0. *)
Definition write_gpr (c : MipsCore) (reg value : Z) : MipsCore :=
  c <| gpr ::= (fun g => <[0%nat := 0]> (<[Z.to_nat reg := value]> g)) |>.

(** ** Reset *)

Definition reset_registers (c : MipsCore) (soft : bool) (now : Z) : MipsCore :=
  let c :=
    if soft then c
    else
      let p := cp0 c in
      c <| gpr := replicate 32 0 |> <| hi := 0 |> <| lo := 0 |>
        <| cp0 := {|
             cp0_index := 0; cp0_random := tlb_entries c - 1; cp0_random_cycle := 0;
             cp0_entrylo0 := 0; cp0_entrylo1 := 0; cp0_context := 0; cp0_pagemask := 0;
             cp0_wired := cp0_wired p; cp0_badvaddr := 0; cp0_entryhi := 0;
             cp0_status := cp0_status p; cp0_cause := cp0_cause p; cp0_epc := cp0_epc p;
             cp0_prid := reset_prid c; cp0_config := cp0_config p; cp0_lladdr := cp0_lladdr p;
             cp0_watchlo := 0; cp0_watchhi := 0; cp0_xcontext := 0; cp0_ecc := 0;
             cp0_cacheerr := 0; cp0_taglo := 0; cp0_taghi := 0; cp0_errorepc := cp0_errorepc p |} |>
        <| tm := CpuTimer.disarm_compare_timer
                   ((tm c) <| CpuTimer.cp0_count := 0 |> <| CpuTimer.cp0_compare := 0 |>
                      <| CpuTimer.cycles := 0 |> <| CpuTimer.count_read_cycle := 0 |>
                      <| CpuTimer.count_anchor := now |>) |>
        <| fpu := {| fpr := replicate 32 0; fpu_fir := reset_fir c; fpu_fccr := 0; fpu_fexr := 0;
                     fpu_fenr := 0; fpu_fcsr := 0; host_rounding := 0 |} |> in
  let status := STATUS_BEV .| STATUS_ERL in
  let status := if soft then status .| STATUS_SR else status in
  c <| pc := 0xFFFFFFFFBFC00000 |>
    <| cp0 ::= (fun p => p <| cp0_wired := 0 |> <| cp0_status := status |> <| cp0_cause := 0 |>
                           <| cp0_epc := 0 |> <| cp0_errorepc := 0 |>) |>
    <| running := false |> <| halted := false |>.

Definition HOST_PARK_BIT : Z := 2 ^ 62.

Definition reset (c : MipsCore) (soft : bool) (now : Z) : MipsCore :=
  let c := reset_registers c soft now in
  c <| tm ::= (fun t => t <| CpuTimer.interrupts ::= (fun i => i .& HOST_PARK_BIT) |>) |>.

(** ** CP0 *)

(** Random counts down from the last entry to Wired, one per cycle. *)
Definition update_random (c : MipsCore) : MipsCore :=
  let current_cycles := CpuTimer.cycles (tm c) in
  let wired := cp0_wired (cp0 c) in
  let max_entry := tlb_entries c - 1 in
  let pin := c <| cp0 ::= (fun p => p <| cp0_random := max_entry |>
                                      <| cp0_random_cycle := current_cycles |>) |> in
  if max_entry <? wired then pin
  else
    let range := tlb_entries c - wired in
    if range =? 0 then pin
    else
      let delta := u64 (current_cycles - cp0_random_cycle (cp0 c)) in
      if 0 <? delta then
        let current_val := if wired <=? cp0_random (cp0 c) then cp0_random (cp0 c) else max_entry in
        let current_offset := current_val - wired in
        let step := u32 (delta mod range) in
        let new_offset := (current_offset + range - step) mod range in
        c <| cp0 ::= (fun p => p <| cp0_random := new_offset + wired |>
                                 <| cp0_random_cycle := current_cycles |>) |>
      else c.

Definition read_cp0 (c : MipsCore) (reg now : Z) : MipsCore * Z :=
  let p := cp0 c in
  match reg with
  | 0 => (c, cp0_index p)
  | 1 => let c := update_random c in (c, cp0_random (cp0 c))
  | 2 => (c, cp0_entrylo0 p .& 0x3FFFFFFF)
  | 3 => (c, cp0_entrylo1 p .& 0x3FFFFFFF)
  | 4 => (c, cp0_context p)
  | 5 => (c, cp0_pagemask p .& 0x01FFE000)
  | 6 => (c, cp0_wired p .& 0x3F)
  | 8 => (c, cp0_badvaddr p)
  | 9 => let '(t, v) := CpuTimer.read_count (tm c) now in (c <| tm := t |>, v)
  | 10 => (c, cp0_entryhi p)
  | 11 => (c, CpuTimer.cp0_compare (tm c))
  | 12 => (c, cp0_status p)
  | 13 => (c, cp0_cause p)
  | 14 => (c, cp0_epc p)
  | 15 => (c, cp0_prid p)
  | 16 => (c, cp0_config p)
  | 17 => (c, cp0_lladdr p)
  | 18 => (c, cp0_watchlo p)
  | 19 => (c, cp0_watchhi p)
  | 20 => (c, cp0_xcontext p)
  | 26 => (c, cp0_ecc p)
  | 27 => (c, cp0_cacheerr p)
  | 28 => (c, cp0_taglo p)
  | 29 => (c, cp0_taghi p)
  | 30 => (c, cp0_errorepc p)
  | _ => (c, 0)
  end.

(** The debugger's read: no side effect, Random not advanced. *)
Definition read_cp0_debug (c : MipsCore) (reg now : Z) : Z :=
  match reg with
  | 1 => cp0_random (cp0 c)
  | 9 => CpuTimer.count_peek (tm c) now
  | _ => snd (read_cp0 c reg now)
  end.

Definition CP0_INDEX_P : Z := 0x80000000.
Definition CP0_INDEX_SLOT_MASK : Z := 0x3F.
Definition ENTRYHI_MASK : Z := 0xC00000FFFFFFE0FF.

(** The second component says whether Status was written: the executor's
    callback runs then. *)
Definition write_cp0 (c : MipsCore) (reg value now : Z) : MipsCore * bool :=
  let upd f := (c <| cp0 ::= f |>, false) in
  match reg with
  | 0 => upd (fun p => p <| cp0_index := u32 value .& (CP0_INDEX_P .| CP0_INDEX_SLOT_MASK) |>)
  | 2 => upd (fun p => p <| cp0_entrylo0 := value .& 0x3FFFFFFF |>)
  | 3 => upd (fun p => p <| cp0_entrylo1 := value .& 0x3FFFFFFF |>)
  | 4 => upd (fun p => p <| cp0_context := value |>)
  | 5 => upd (fun p => p <| cp0_pagemask := value .& 0x01FFE000 |>)
  | 6 => upd (fun p => p <| cp0_wired := u32 value |> <| cp0_random := tlb_entries c - 1 |>
                         <| cp0_random_cycle := CpuTimer.cycles (tm c) |>)
  | 9 => (c <| tm ::= (fun t => CpuTimer.write_count t now value) |>, false)
  | 10 => upd (fun p => p <| cp0_entryhi := value .& ENTRYHI_MASK |>)
  | 11 => (c <| tm ::= (fun t => CpuTimer.write_compare t now value) |>
             <| cp0 ::= (fun p => p <| cp0_cause ::= (fun x => x .& bnot 32 CpuTimer.CAUSE_IP7) |>) |>, false)
  | 12 => (c <| cp0 ::= (fun p => p <| cp0_status := u32 value |>) |>, true)
  | 13 =>
      let mask := CAUSE_IP0 .| CAUSE_IP1 in
      upd (fun p => p <| cp0_cause := (cp0_cause p .& bnot 32 mask) .| (u32 value .& mask) |>)
  | 14 => upd (fun p => p <| cp0_epc := value |>)
  | 16 => upd (fun p => p <| cp0_config := (cp0_config p .& bnot 32 0x3F) .| (u32 value .& 0x3F) |>)
  | 17 => upd (fun p => p <| cp0_lladdr := value |>)
  | 18 => upd (fun p => p <| cp0_watchlo := u32 value |>)
  | 19 => upd (fun p => p <| cp0_watchhi := u32 value |>)
  | 20 => upd (fun p => p <| cp0_xcontext := value |>)
  | 26 => upd (fun p => p <| cp0_ecc := u32 value |>)
  | 27 => upd (fun p => p <| cp0_cacheerr := u32 value |>)
  | 28 => upd (fun p => p <| cp0_taglo := value |>)
  | 29 => upd (fun p => p <| cp0_taghi := u32 value |>)
  | 30 => upd (fun p => p <| cp0_errorepc := value |>)
  | _ => (c, false)
  end.

(** ** Translation caches *)

Definition nanotlb_invalidate (c : MipsCore) : MipsCore :=
  c <| nanotlb ::= map nano_invalidate |>.

Definition nutlb_clear (c : MipsCore) : MipsCore :=
  c <| nutlb_valid := replicate 2 (replicate NUM_NUTLB_WORDS 0) |>.

Definition nutlb_is_valid (c : MipsCore) (arr : nat) (idx : Z) : bool :=
  negb ((((nutlb_valid c !!! arr) !!! Z.to_nat (idx .>> 6)) .>> (idx .& 63)) .& 1 =? 0).

Definition nutlb_set_valid (c : MipsCore) (arr : nat) (idx : Z) : MipsCore :=
  c <| nutlb_valid ::= alter (alter (fun w => w .| shl 64 1 (idx .& 63)) (Z.to_nat (idx .>> 6))) arr |>.

(** ** Interrupt lines *)

Definition set_interrupt (c : MipsCore) (bit : Z) : MipsCore :=
  c <| tm ::= (fun t => t <| CpuTimer.interrupts ::= (fun i => i .| shl 64 1 (bit + 8)) |>) |>.

Definition clear_interrupt (c : MipsCore) (bit : Z) : MipsCore :=
  c <| tm ::= (fun t => t <| CpuTimer.interrupts ::= (fun i => i .& bnot 64 (shl 64 1 (bit + 8))) |>) |>.

(** ** Privilege *)

Definition get_privilege_mode (c : MipsCore) : PrivilegeMode :=
  let status := cp0_status (cp0 c) in
  if has status (STATUS_EXL .| STATUS_ERL) then Kernel
  else
    let ksu := (status .>> STATUS_KSU_SHIFT) .& 0x3 in
    if ksu =? KSU_KERNEL then Kernel
    else if ksu =? KSU_SUPERVISOR then Supervisor
    else if ksu =? KSU_USER then User
    else Kernel.

Definition is_64bit_mode (c : MipsCore) : bool :=
  match get_privilege_mode c with
  | Kernel => has (cp0_status (cp0 c)) STATUS_KX
  | Supervisor => has (cp0_status (cp0 c)) STATUS_SX
  | User => has (cp0_status (cp0 c)) STATUS_UX
  end.

Definition is_kernel_mode (c : MipsCore) : bool :=
  match get_privilege_mode c with Kernel => true | _ => false end.

Definition interrupts_enabled (c : MipsCore) : bool :=
  let status := cp0_status (cp0 c) in
  has status STATUS_IE && negb (has status STATUS_EXL) && negb (has status STATUS_ERL).

(** ** FPU registers

    [fpr[i]] panics past the 32 registers: [None].  Doubles are the 64 bits
    [from_bits] and [to_bits] pass through. *)

Definition fpr_put (c : MipsCore) (i v : Z) : option MipsCore :=
  l ← aset (fpr (fpu c)) i v;
  Some (c <| fpu ::= (fun f => f <| fpr := l |>) |>).

(** FR=1: each register is a 64-bit slot of its own. *)
Definition read_fpr_l_fr1 (c : MipsCore) (reg : Z) : option Z := aget (fpr (fpu c)) reg.
Definition write_fpr_l_fr1 (c : MipsCore) (reg v : Z) : option MipsCore := fpr_put c reg v.
Definition read_fpr_w_fr1 (c : MipsCore) (reg : Z) : option Z := u32 <$> aget (fpr (fpu c)) reg.
Definition write_fpr_w_fr1 (c : MipsCore) (reg v : Z) : option MipsCore :=
  old ← aget (fpr (fpu c)) reg;
  fpr_put c reg ((old .& 0xFFFFFFFF00000000) .| v).

(** FR=0: an even slot holds the pair, the odd register in its upper half. *)
Definition read_fpr_l_fr0 (c : MipsCore) (reg : Z) : option Z := aget (fpr (fpu c)) (reg .& bnot 32 1).
Definition write_fpr_l_fr0 (c : MipsCore) (reg v : Z) : option MipsCore := fpr_put c (reg .& bnot 32 1) v.
Definition read_fpr_w_fr0 (c : MipsCore) (reg : Z) : option Z :=
  let shift := shl 32 (reg .& 1) 5 in
  (fun slot => u32 (slot .>> shift)) <$> aget (fpr (fpu c)) (reg .& bnot 32 1).
Definition write_fpr_w_fr0 (c : MipsCore) (reg v : Z) : option MipsCore :=
  let shift := shl 32 (reg .& 1) 5 in
  slot ← aget (fpr (fpu c)) (reg .& bnot 32 1);
  fpr_put c (reg .& bnot 32 1) ((slot .& bnot 64 (shl 64 0xFFFFFFFF shift)) .| shl 64 v shift).

(** ** FPU control *)

Definition FCSR_CE : Z := 0x00020000.
Definition FCSR_CM : Z := 0x0001F000.
Definition FCSR_EM : Z := 0x00000F80.

Definition fccr_from_fcsr (fcsr : Z) : Z :=
  let cc0 := (fcsr .>> 23) .& 1 in
  let cc1_7 := (fcsr .>> 25) .& 0x7F in
  cc0 .| shl 32 cc1_7 1.

Definition fcsr_with_fccr (fcsr fccr : Z) : Z :=
  let cc0 := fccr .& 1 in
  let cc1_7 := (fccr .>> 1) .& 0x7F in
  (fcsr .& bnot 32 (0x800000 .| 0xFE000000)) .| shl 32 cc0 23 .| shl 32 cc1_7 25.

Definition read_fpu_control (c : MipsCore) (reg : Z) : Z :=
  let f := fpu c in
  match reg with
  | 0 => fpu_fir f
  | 25 => fccr_from_fcsr (fpu_fcsr f)
  | 26 => fpu_fexr f
  | 28 => fpu_fenr f
  | 31 => fpu_fcsr f .& bnot 32 0x007C0000
  | _ => 0
  end.

Definition write_fpu_control (c : MipsCore) (reg value : Z) : MipsCore :=
  match reg with
  | 25 => c <| fpu ::= (fun f => f <| fpu_fccr := value .& 0xFF |>
                                   <| fpu_fcsr := fcsr_with_fccr (fpu_fcsr f) (value .& 0xFF) |>) |>
  | 26 => c <| fpu ::= (fun f => f <| fpu_fexr := value |>) |>
  | 28 => c <| fpu ::= (fun f => f <| fpu_fenr := value |>) |>
  | 31 => c <| fpu ::= (fun f => f <| fpu_fcsr := value |> <| fpu_fccr := fccr_from_fcsr value |>
                                   <| host_rounding := value .& 0x3 |>) |>
  | _ => c
  end.

(** The FCSR bit of condition code [cc], for [cc < 8]. *)
Definition cc_bit (cc : Z) : Z := if cc =? 0 then 23 else 24 + cc.

Definition get_fpu_cc (c : MipsCore) (cc : Z) : bool :=
  if cc <? 8 then negb ((fpu_fcsr (fpu c) .>> cc_bit cc) .& 1 =? 0) else false.

Definition set_fpu_cc (c : MipsCore) (cc : Z) (value : bool) : MipsCore :=
  if 8 <=? cc then c
  else
    let bit := cc_bit cc in
    let fcsr := if value then fpu_fcsr (fpu c) .| shl 32 1 bit
                else fpu_fcsr (fpu c) .& bnot 32 (shl 32 1 bit) in
    c <| fpu ::= (fun f => f <| fpu_fcsr := fcsr |> <| fpu_fccr := fccr_from_fcsr fcsr |>) |>.

(** ** Exception delivery *)

Definition EXEC_IS_TLB_REFILL : Z := 0x10000000.
Definition EXEC_IS_XTLB_REFILL : Z := 0x20000000.
Definition EXEC_IS_CACHE_ERR : Z := 0x40000000.

Definition deliver_exception_at (c : MipsCore) (status fault_pc : Z) (bd : bool) : MipsCore :=
  if has status EXEC_IS_CACHE_ERR then
    let errorepc := if bd then u64 (fault_pc - 4) else fault_pc in
    let st := cp0_status (cp0 c) .| STATUS_ERL in
    let base := if has st STATUS_BEV then 0xFFFFFFFFBFC00200 else 0xFFFFFFFFA0000000 in
    c <| cp0 ::= (fun p => p <| cp0_errorepc := errorepc |> <| cp0_status := st |>) |>
      <| pc := base + 0x100 |> <| in_delay_slot := false |>
  else
    let is_tlb_refill := has status EXEC_IS_TLB_REFILL in
    let is_xtlb_refill := has status EXEC_IS_XTLB_REFILL in
    let was_exl := has (cp0_status (cp0 c)) STATUS_EXL in
    let cause := (cp0_cause (cp0 c) .& bnot 32 CAUSE_EXCCODE_MASK) .| (status .& CAUSE_EXCCODE_MASK) in
    let '(cause, epc) :=
      if was_exl then (cause, cp0_epc (cp0 c))
      else if bd then (cause .| CAUSE_BD, u64 (fault_pc - 4))
      else (cause .& bnot 32 CAUSE_BD, fault_pc) in
    let st := cp0_status (cp0 c) .| STATUS_EXL in
    let vector_base := if has st STATUS_BEV then 0xFFFFFFFFBFC00200 else 0xFFFFFFFF80000000 in
    let offset := if negb was_exl && is_tlb_refill then (if is_xtlb_refill then 0x080 else 0x000)
                  else 0x180 in
    c <| cp0 ::= (fun p => p <| cp0_cause := cause |> <| cp0_epc := epc |> <| cp0_status := st |>) |>
      <| pc := vector_base + offset |> <| in_delay_slot := false |>.

Definition deliver_exception (c : MipsCore) (status : Z) : MipsCore :=
  deliver_exception_at c status (pc c) (in_delay_slot c).

End CpuCore.
