(* ===== verification/CpuDecode.v ===== *)
(** * Instruction decoding (src/src/cpu/mips_isa.rs, mips_exec.rs [decode_into])

    The opcode tables and the pre-decoded instruction the interpreter caches.
    A handler function pointer is a constructor of [Handler].  [mips4] is the
    CPU model's [MIPS4] constant and [fusion] the [opcodefusion] build
    feature. *)

From S2P Require Import Prelude.

Module CpuDecode.

(** ** Opcodes *)

Definition OP_SPECIAL : Z := 0x00.
Definition OP_REGIMM : Z := 0x01.
Definition OP_J : Z := 0x02.
Definition OP_JAL : Z := 0x03.
Definition OP_BEQ : Z := 0x04.
Definition OP_BNE : Z := 0x05.
Definition OP_BLEZ : Z := 0x06.
Definition OP_BGTZ : Z := 0x07.
Definition OP_ADDI : Z := 0x08.
Definition OP_ADDIU : Z := 0x09.
Definition OP_SLTI : Z := 0x0A.
Definition OP_SLTIU : Z := 0x0B.
Definition OP_ANDI : Z := 0x0C.
Definition OP_ORI : Z := 0x0D.
Definition OP_XORI : Z := 0x0E.
Definition OP_LUI : Z := 0x0F.
Definition OP_COP0 : Z := 0x10.
Definition OP_COP1 : Z := 0x11.
Definition OP_COP1X : Z := 0x13.
Definition OP_BEQL : Z := 0x14.
Definition OP_BNEL : Z := 0x15.
Definition OP_BLEZL : Z := 0x16.
Definition OP_BGTZL : Z := 0x17.
Definition OP_DADDI : Z := 0x18.
Definition OP_DADDIU : Z := 0x19.
Definition OP_LDL : Z := 0x1A.
Definition OP_LDR : Z := 0x1B.
Definition OP_LB : Z := 0x20.
Definition OP_LH : Z := 0x21.
Definition OP_LWL : Z := 0x22.
Definition OP_LW : Z := 0x23.
Definition OP_LBU : Z := 0x24.
Definition OP_LHU : Z := 0x25.
Definition OP_LWR : Z := 0x26.
Definition OP_LWU : Z := 0x27.
Definition OP_SB : Z := 0x28.
Definition OP_SH : Z := 0x29.
Definition OP_SWL : Z := 0x2A.
Definition OP_SW : Z := 0x2B.
Definition OP_SDL : Z := 0x2C.
Definition OP_SDR : Z := 0x2D.
Definition OP_SWR : Z := 0x2E.
Definition OP_CACHE : Z := 0x2F.
Definition OP_LL : Z := 0x30.
Definition OP_LWC1 : Z := 0x31.
Definition OP_PREF : Z := 0x33.
Definition OP_LLD : Z := 0x34.
Definition OP_LDC1 : Z := 0x35.
Definition OP_LD : Z := 0x37.
Definition OP_SC : Z := 0x38.
Definition OP_SWC1 : Z := 0x39.
Definition OP_SCD : Z := 0x3C.
Definition OP_SDC1 : Z := 0x3D.
Definition OP_SD : Z := 0x3F.
Definition FUNCT_SLL : Z := 0x00.
Definition FUNCT_MOVCI : Z := 0x01.
Definition FUNCT_SRL : Z := 0x02.
Definition FUNCT_SRA : Z := 0x03.
Definition FUNCT_SLLV : Z := 0x04.
Definition FUNCT_SRLV : Z := 0x06.
Definition FUNCT_SRAV : Z := 0x07.
Definition FUNCT_JR : Z := 0x08.
Definition FUNCT_JALR : Z := 0x09.
Definition FUNCT_MOVZ : Z := 0x0A.
Definition FUNCT_MOVN : Z := 0x0B.
Definition FUNCT_SYSCALL : Z := 0x0C.
Definition FUNCT_BREAK : Z := 0x0D.
Definition FUNCT_SYNC : Z := 0x0F.
Definition FUNCT_MFHI : Z := 0x10.
Definition FUNCT_MTHI : Z := 0x11.
Definition FUNCT_MFLO : Z := 0x12.
Definition FUNCT_MTLO : Z := 0x13.
Definition FUNCT_DSLLV : Z := 0x14.
Definition FUNCT_DSRLV : Z := 0x16.
Definition FUNCT_DSRAV : Z := 0x17.
Definition FUNCT_MULT : Z := 0x18.
Definition FUNCT_MULTU : Z := 0x19.
Definition FUNCT_DIV : Z := 0x1A.
Definition FUNCT_DIVU : Z := 0x1B.
Definition FUNCT_DMULT : Z := 0x1C.
Definition FUNCT_DMULTU : Z := 0x1D.
Definition FUNCT_DDIV : Z := 0x1E.
Definition FUNCT_DDIVU : Z := 0x1F.
Definition FUNCT_ADD : Z := 0x20.
Definition FUNCT_ADDU : Z := 0x21.
Definition FUNCT_SUB : Z := 0x22.
Definition FUNCT_SUBU : Z := 0x23.
Definition FUNCT_AND : Z := 0x24.
Definition FUNCT_OR : Z := 0x25.
Definition FUNCT_XOR : Z := 0x26.
Definition FUNCT_NOR : Z := 0x27.
Definition FUNCT_SLT : Z := 0x2A.
Definition FUNCT_SLTU : Z := 0x2B.
Definition FUNCT_DADD : Z := 0x2C.
Definition FUNCT_DADDU : Z := 0x2D.
Definition FUNCT_DSUB : Z := 0x2E.
Definition FUNCT_DSUBU : Z := 0x2F.
Definition FUNCT_TGE : Z := 0x30.
Definition FUNCT_TGEU : Z := 0x31.
Definition FUNCT_TLT : Z := 0x32.
Definition FUNCT_TLTU : Z := 0x33.
Definition FUNCT_TEQ : Z := 0x34.
Definition FUNCT_TNE : Z := 0x36.
Definition FUNCT_DSLL : Z := 0x38.
Definition FUNCT_DSRL : Z := 0x3A.
Definition FUNCT_DSRA : Z := 0x3B.
Definition FUNCT_DSLL32 : Z := 0x3C.
Definition FUNCT_DSRL32 : Z := 0x3E.
Definition FUNCT_DSRA32 : Z := 0x3F.
Definition RT_BLTZ : Z := 0x00.
Definition RT_BGEZ : Z := 0x01.
Definition RT_BLTZL : Z := 0x02.
Definition RT_BGEZL : Z := 0x03.
Definition RT_TGEI : Z := 0x08.
Definition RT_TGEIU : Z := 0x09.
Definition RT_TLTI : Z := 0x0A.
Definition RT_TLTIU : Z := 0x0B.
Definition RT_TEQI : Z := 0x0C.
Definition RT_TNEI : Z := 0x0E.
Definition RT_BLTZAL : Z := 0x10.
Definition RT_BGEZAL : Z := 0x11.
Definition RT_BLTZALL : Z := 0x12.
Definition RT_BGEZALL : Z := 0x13.
Definition RS_MFC0 : Z := 0x00.
Definition RS_DMFC0 : Z := 0x01.
Definition RS_CFC0 : Z := 0x02.
Definition RS_MTC0 : Z := 0x04.
Definition RS_DMTC0 : Z := 0x05.
Definition RS_CTC0 : Z := 0x06.
Definition RS_BC0 : Z := 0x08.
Definition RS_TLB : Z := 0x10.
Definition FUNCT_TLBR : Z := 0x01.
Definition FUNCT_TLBWI : Z := 0x02.
Definition FUNCT_TLBWR : Z := 0x06.
Definition FUNCT_TLBP : Z := 0x08.
Definition FUNCT_ERET : Z := 0x18.
Definition FUNCT_WAIT : Z := 0x20.
Definition RS_MFC1 : Z := 0x00.
Definition RS_DMFC1 : Z := 0x01.
Definition RS_CFC1 : Z := 0x02.
Definition RS_MTC1 : Z := 0x04.
Definition RS_DMTC1 : Z := 0x05.
Definition RS_CTC1 : Z := 0x06.
Definition RS_BC1 : Z := 0x08.
Definition RS_S : Z := 0x10.
Definition RS_D : Z := 0x11.
Definition RS_W : Z := 0x14.
Definition RS_L : Z := 0x15.
Definition FUNCT_FADD : Z := 0x00.
Definition FUNCT_FSUB : Z := 0x01.
Definition FUNCT_FMUL : Z := 0x02.
Definition FUNCT_FDIV : Z := 0x03.
Definition FUNCT_FSQRT : Z := 0x04.
Definition FUNCT_FABS : Z := 0x05.
Definition FUNCT_FMOV : Z := 0x06.
Definition FUNCT_FNEG : Z := 0x07.
Definition FUNCT_FROUND_L : Z := 0x08.
Definition FUNCT_FTRUNC_L : Z := 0x09.
Definition FUNCT_FCEIL_L : Z := 0x0A.
Definition FUNCT_FFLOOR_L : Z := 0x0B.
Definition FUNCT_FROUND_W : Z := 0x0C.
Definition FUNCT_FTRUNC_W : Z := 0x0D.
Definition FUNCT_FCEIL_W : Z := 0x0E.
Definition FUNCT_FFLOOR_W : Z := 0x0F.
Definition FUNCT_FMOVCF : Z := 0x11.
Definition FUNCT_FMOVZ : Z := 0x12.
Definition FUNCT_FMOVN : Z := 0x13.
Definition FUNCT_FRECIP : Z := 0x15.
Definition FUNCT_FRSQRT : Z := 0x16.
Definition FUNCT_FCVT_S : Z := 0x20.
Definition FUNCT_FCVT_D : Z := 0x21.
Definition FUNCT_FCVT_W : Z := 0x24.
Definition FUNCT_FCVT_L : Z := 0x25.
Definition FUNCT_FC_F : Z := 0x30.
Definition FUNCT_FC_NGT : Z := 0x3F.
Definition FUNCT_LWXC1 : Z := 0x00.
Definition FUNCT_LDXC1 : Z := 0x01.
Definition FUNCT_SWXC1 : Z := 0x08.
Definition FUNCT_SDXC1 : Z := 0x09.
Definition FUNCT_PREFX : Z := 0x0F.
Definition FUNCT_MADD_S : Z := 0x20.
Definition FUNCT_MADD_D : Z := 0x21.
Definition FUNCT_MSUB_S : Z := 0x28.
Definition FUNCT_MSUB_D : Z := 0x29.
Definition FUNCT_NMADD_S : Z := 0x30.
Definition FUNCT_NMADD_D : Z := 0x31.
Definition FUNCT_NMSUB_S : Z := 0x38.
Definition FUNCT_NMSUB_D : Z := 0x39.

(** ** Handlers *)

Inductive Handler : Type :=
  | H_sll | H_movci | H_reserved | H_srl | H_sra | H_sllv | H_srlv | H_srav | H_jr_nop | H_jr
  | H_jalr | H_movz | H_movn | H_syscall | H_break | H_sync | H_mfhi | H_mthi | H_mflo | H_mtlo
  | H_dsllv | H_dsrlv | H_dsrav | H_mult | H_multu | H_div | H_divu | H_dmult | H_dmultu | H_ddiv
  | H_ddivu | H_add | H_addu_ls | H_addu | H_sub | H_subu_ls | H_subu | H_and | H_or | H_xor
  | H_nor | H_slt | H_sltu | H_dadd | H_daddu | H_dsub | H_dsubu | H_tge | H_tgeu | H_tlt | H_tltu
  | H_teq | H_tne | H_dsll | H_dsrl | H_dsra | H_dsll32 | H_dsrl32 | H_dsra32 | H_bltz | H_bgez
  | H_bltzl_ri | H_bgezl_ri | H_tgei | H_tgeiu | H_tlti | H_tltiu | H_teqi | H_tnei | H_bltzal
  | H_bgezal | H_bltzall | H_bgezall | H_j_nop | H_j | H_jal_nop | H_jal | H_beq_nop | H_beq
  | H_bne_nop | H_bne | H_blez | H_bgtz | H_beql | H_bnel | H_blezl | H_bgtzl | H_addi
  | H_addiu_ls | H_addiu | H_daddi | H_daddiu | H_slti | H_sltiu | H_andi | H_ori | H_xori
  | H_lui_simm32 | H_lui_imm32 | H_lui | H_cop0 | H_mfc1 | H_dmfc1 | H_cfc1 | H_mtc1 | H_dmtc1
  | H_ctc1 | H_bc1 | H_fadd_s | H_fsub_s | H_fmul_s | H_fdiv_s | H_fsqrt_s | H_fabs_s | H_fmov_s
  | H_fneg_s | H_fround_l_s | H_ftrunc_l_s | H_fceil_l_s | H_ffloor_l_s | H_fround_w_s
  | H_ftrunc_w_s | H_fceil_w_s | H_ffloor_w_s | H_fmovcf_s | H_fmovz_s | H_fmovn_s | H_frecip_s
  | H_frsqrt_s | H_fcvt_d_s | H_fcvt_w_s | H_fcvt_l_s | H_fcc_s | H_fadd_d | H_fsub_d | H_fmul_d
  | H_fdiv_d | H_fsqrt_d | H_fabs_d | H_fmov_d | H_fneg_d | H_fround_l_d | H_ftrunc_l_d
  | H_fceil_l_d | H_ffloor_l_d | H_fround_w_d | H_ftrunc_w_d | H_fceil_w_d | H_ffloor_w_d
  | H_fmovcf_d | H_fmovz_d | H_fmovn_d | H_frecip_d | H_frsqrt_d | H_fcvt_s_d | H_fcvt_w_d
  | H_fcvt_l_d | H_fcc_d | H_fcvt_s_w | H_fcvt_d_w | H_fcvt_s_l | H_fcvt_d_l | H_lwxc1 | H_ldxc1
  | H_swxc1 | H_sdxc1 | H_prefx | H_madd_s | H_madd_d | H_msub_s | H_msub_d | H_nmadd_s
  | H_nmadd_d | H_nmsub_s | H_nmsub_d | H_lb | H_lh | H_lwl | H_lw | H_lbu | H_lhu | H_lwr | H_lwu
  | H_sb | H_sh | H_swl | H_sw | H_sdl | H_sdr | H_swr | H_cache | H_ll | H_lwc1 | H_ldc1 | H_ldl
  | H_ldr | H_ld | H_sc | H_swc1 | H_sdc1 | H_sd | H_pref | H_lld | H_scd.

(** ** Pre-decoded instructions *)

Definition FLAG_NOT_DECODED : Z := 1.
Definition FLAG_IMM_IS_NEXT : Z := 2.

Record DecodedInstr := mkInstr {
  handler : option Handler;
  imm : Z;
  raw : Z;
  flags : Z;
  op : Z;
  rs : Z;
  rt : Z;
  rd : Z;
  sa : Z;
  funct : Z;
}.

#[global] Instance eta_DecodedInstr : Settable DecodedInstr := fun r =>
  mkInstr (handler r) (imm r) (raw r) (flags r) (op r) (rs r) (rt r) (rd r) (sa r) (funct r).

Definition instr_default : DecodedInstr := {|
  handler := None; imm := 0; raw := 0; flags := FLAG_NOT_DECODED;
  op := 0; rs := 0; rt := 0; rd := 0; sa := 0; funct := 0 |}.

Definition immi64 (d : DecodedInstr) : Z := imm d.
Definition imms64 (d : DecodedInstr) : Z := i32 (imm d).
Definition immu64 (d : DecodedInstr) : Z := u64 (i32 (imm d)).

Definition set_imm_se (d : DecodedInstr) (raw : Z) : DecodedInstr :=
  d <| imm := u32 (i16 (raw .& 0xFFFF)) |>.
Definition set_imm_se4 (d : DecodedInstr) (raw : Z) : DecodedInstr :=
  d <| imm := u32 (i16 (raw .& 0xFFFF) * 4) |>.
Definition set_imm_ze (d : DecodedInstr) (raw : Z) : DecodedInstr :=
  d <| imm := raw .& 0xFFFF |>.
Definition set_imm_lui (d : DecodedInstr) (raw : Z) : DecodedInstr :=
  d <| imm := shl 32 (raw .& 0xFFFF) 16 |>.
Definition set_imm_j (d : DecodedInstr) (raw : Z) : DecodedInstr :=
  d <| imm := shl 32 (raw .& 0x3FFFFFF) 2 |>.

(** Which of the setters an opcode's arm runs. *)
Inductive ImmKind := Imm_none | Imm_se | Imm_se4 | Imm_ze | Imm_lui | Imm_j.

Definition set_imm (k : ImmKind) (d : DecodedInstr) (raw : Z) : DecodedInstr :=
  match k with
  | Imm_none => d
  | Imm_se => set_imm_se d raw
  | Imm_se4 => set_imm_se4 d raw
  | Imm_ze => set_imm_ze d raw
  | Imm_lui => set_imm_lui d raw
  | Imm_j => set_imm_j d raw
  end.

(** ** Dispatch tables: the arms of [decode_into], in its order *)

Fixpoint dispatch {A} (tbl : list (Z * A)) (k : Z) (default : A) : A :=
  match tbl with
  | [] => default
  | (k', a) :: tbl => if k =? k' then a else dispatch tbl k default
  end.

Definition mips4_only (mips4 : bool) (h : Handler) : Handler := if mips4 then h else H_reserved.

Definition special_table (mips4 : bool) : list (Z * Handler) :=
  [(FUNCT_SLL, H_sll); (FUNCT_MOVCI, mips4_only mips4 H_movci); (FUNCT_SRL, H_srl);
   (FUNCT_SRA, H_sra); (FUNCT_SLLV, H_sllv); (FUNCT_SRLV, H_srlv); (FUNCT_SRAV, H_srav);
   (FUNCT_JR, H_jr); (FUNCT_JALR, H_jalr); (FUNCT_MOVZ, mips4_only mips4 H_movz);
   (FUNCT_MOVN, mips4_only mips4 H_movn); (FUNCT_SYSCALL, H_syscall); (FUNCT_BREAK, H_break);
   (FUNCT_SYNC, H_sync); (FUNCT_MFHI, H_mfhi); (FUNCT_MTHI, H_mthi); (FUNCT_MFLO, H_mflo);
   (FUNCT_MTLO, H_mtlo); (FUNCT_DSLLV, H_dsllv); (FUNCT_DSRLV, H_dsrlv); (FUNCT_DSRAV, H_dsrav);
   (FUNCT_MULT, H_mult); (FUNCT_MULTU, H_multu); (FUNCT_DIV, H_div); (FUNCT_DIVU, H_divu);
   (FUNCT_DMULT, H_dmult); (FUNCT_DMULTU, H_dmultu); (FUNCT_DDIV, H_ddiv); (FUNCT_DDIVU, H_ddivu);
   (FUNCT_ADD, H_add); (FUNCT_ADDU, H_addu); (FUNCT_SUB, H_sub); (FUNCT_SUBU, H_subu);
   (FUNCT_AND, H_and); (FUNCT_OR, H_or); (FUNCT_XOR, H_xor); (FUNCT_NOR, H_nor);
   (FUNCT_SLT, H_slt); (FUNCT_SLTU, H_sltu); (FUNCT_DADD, H_dadd); (FUNCT_DADDU, H_daddu);
   (FUNCT_DSUB, H_dsub); (FUNCT_DSUBU, H_dsubu); (FUNCT_TGE, H_tge); (FUNCT_TGEU, H_tgeu);
   (FUNCT_TLT, H_tlt); (FUNCT_TLTU, H_tltu); (FUNCT_TEQ, H_teq); (FUNCT_TNE, H_tne);
   (FUNCT_DSLL, H_dsll); (FUNCT_DSRL, H_dsrl); (FUNCT_DSRA, H_dsra); (FUNCT_DSLL32, H_dsll32);
   (FUNCT_DSRL32, H_dsrl32); (FUNCT_DSRA32, H_dsra32)].

Definition regimm_table : list (Z * (ImmKind * Handler)) :=
  [(RT_BLTZ, (Imm_se4, H_bltz)); (RT_BGEZ, (Imm_se4, H_bgez)); (RT_BLTZL, (Imm_se4, H_bltzl_ri));
   (RT_BGEZL, (Imm_se4, H_bgezl_ri)); (RT_TGEI, (Imm_se, H_tgei)); (RT_TGEIU, (Imm_se, H_tgeiu));
   (RT_TLTI, (Imm_se, H_tlti)); (RT_TLTIU, (Imm_se, H_tltiu)); (RT_TEQI, (Imm_se, H_teqi));
   (RT_TNEI, (Imm_se, H_tnei)); (RT_BLTZAL, (Imm_se4, H_bltzal));
   (RT_BGEZAL, (Imm_se4, H_bgezal)); (RT_BLTZALL, (Imm_se4, H_bltzall));
   (RT_BGEZALL, (Imm_se4, H_bgezall))].

Definition cop1_s_table (mips4 : bool) : list (Z * Handler) :=
  [(FUNCT_FADD, H_fadd_s); (FUNCT_FSUB, H_fsub_s); (FUNCT_FMUL, H_fmul_s); (FUNCT_FDIV, H_fdiv_s);
   (FUNCT_FSQRT, H_fsqrt_s); (FUNCT_FABS, H_fabs_s); (FUNCT_FMOV, H_fmov_s);
   (FUNCT_FNEG, H_fneg_s); (FUNCT_FROUND_L, H_fround_l_s); (FUNCT_FTRUNC_L, H_ftrunc_l_s);
   (FUNCT_FCEIL_L, H_fceil_l_s); (FUNCT_FFLOOR_L, H_ffloor_l_s); (FUNCT_FROUND_W, H_fround_w_s);
   (FUNCT_FTRUNC_W, H_ftrunc_w_s); (FUNCT_FCEIL_W, H_fceil_w_s); (FUNCT_FFLOOR_W, H_ffloor_w_s);
   (FUNCT_FMOVCF, mips4_only mips4 H_fmovcf_s); (FUNCT_FMOVZ, mips4_only mips4 H_fmovz_s);
   (FUNCT_FMOVN, mips4_only mips4 H_fmovn_s); (FUNCT_FRECIP, mips4_only mips4 H_frecip_s);
   (FUNCT_FRSQRT, mips4_only mips4 H_frsqrt_s); (FUNCT_FCVT_D, H_fcvt_d_s);
   (FUNCT_FCVT_W, H_fcvt_w_s); (FUNCT_FCVT_L, H_fcvt_l_s)].

Definition cop1_d_table (mips4 : bool) : list (Z * Handler) :=
  [(FUNCT_FADD, H_fadd_d); (FUNCT_FSUB, H_fsub_d); (FUNCT_FMUL, H_fmul_d); (FUNCT_FDIV, H_fdiv_d);
   (FUNCT_FSQRT, H_fsqrt_d); (FUNCT_FABS, H_fabs_d); (FUNCT_FMOV, H_fmov_d);
   (FUNCT_FNEG, H_fneg_d); (FUNCT_FROUND_L, H_fround_l_d); (FUNCT_FTRUNC_L, H_ftrunc_l_d);
   (FUNCT_FCEIL_L, H_fceil_l_d); (FUNCT_FFLOOR_L, H_ffloor_l_d); (FUNCT_FROUND_W, H_fround_w_d);
   (FUNCT_FTRUNC_W, H_ftrunc_w_d); (FUNCT_FCEIL_W, H_fceil_w_d); (FUNCT_FFLOOR_W, H_ffloor_w_d);
   (FUNCT_FMOVCF, mips4_only mips4 H_fmovcf_d); (FUNCT_FMOVZ, mips4_only mips4 H_fmovz_d);
   (FUNCT_FMOVN, mips4_only mips4 H_fmovn_d); (FUNCT_FRECIP, mips4_only mips4 H_frecip_d);
   (FUNCT_FRSQRT, mips4_only mips4 H_frsqrt_d); (FUNCT_FCVT_S, H_fcvt_s_d);
   (FUNCT_FCVT_W, H_fcvt_w_d); (FUNCT_FCVT_L, H_fcvt_l_d)].

Definition cop1_w_table : list (Z * Handler) :=
  [(FUNCT_FCVT_S, H_fcvt_s_w); (FUNCT_FCVT_D, H_fcvt_d_w)].

Definition cop1_l_table : list (Z * Handler) :=
  [(FUNCT_FCVT_S, H_fcvt_s_l); (FUNCT_FCVT_D, H_fcvt_d_l)].

Definition cop1x_table : list (Z * Handler) :=
  [(FUNCT_LWXC1, H_lwxc1); (FUNCT_LDXC1, H_ldxc1); (FUNCT_SWXC1, H_swxc1); (FUNCT_SDXC1, H_sdxc1);
   (FUNCT_PREFX, H_prefx); (FUNCT_MADD_S, H_madd_s); (FUNCT_MADD_D, H_madd_d);
   (FUNCT_MSUB_S, H_msub_s); (FUNCT_MSUB_D, H_msub_d); (FUNCT_NMADD_S, H_nmadd_s);
   (FUNCT_NMADD_D, H_nmadd_d); (FUNCT_NMSUB_S, H_nmsub_s); (FUNCT_NMSUB_D, H_nmsub_d)].

Definition cop1_table : list (Z * (ImmKind * Handler)) :=
  [(RS_MFC1, (Imm_none, H_mfc1)); (RS_DMFC1, (Imm_none, H_dmfc1)); (RS_CFC1, (Imm_none, H_cfc1));
   (RS_MTC1, (Imm_none, H_mtc1)); (RS_DMTC1, (Imm_none, H_dmtc1)); (RS_CTC1, (Imm_none, H_ctc1));
   (RS_BC1, (Imm_se4, H_bc1))].

Definition main_table (mips4 : bool) : list (Z * (ImmKind * Handler)) :=
  [(OP_J, (Imm_j, H_j)); (OP_JAL, (Imm_j, H_jal)); (OP_BEQ, (Imm_se4, H_beq));
   (OP_BNE, (Imm_se4, H_bne)); (OP_BLEZ, (Imm_se4, H_blez)); (OP_BGTZ, (Imm_se4, H_bgtz));
   (OP_BEQL, (Imm_se4, H_beql)); (OP_BNEL, (Imm_se4, H_bnel)); (OP_BLEZL, (Imm_se4, H_blezl));
   (OP_BGTZL, (Imm_se4, H_bgtzl)); (OP_ADDI, (Imm_se, H_addi)); (OP_ADDIU, (Imm_se, H_addiu));
   (OP_DADDI, (Imm_se, H_daddi)); (OP_DADDIU, (Imm_se, H_daddiu)); (OP_SLTI, (Imm_se, H_slti));
   (OP_SLTIU, (Imm_se, H_sltiu)); (OP_ANDI, (Imm_ze, H_andi)); (OP_ORI, (Imm_ze, H_ori));
   (OP_XORI, (Imm_ze, H_xori)); (OP_LUI, (Imm_lui, H_lui)); (OP_COP0, (Imm_none, H_cop0));
   (OP_LB, (Imm_se, H_lb)); (OP_LH, (Imm_se, H_lh)); (OP_LWL, (Imm_se, H_lwl));
   (OP_LW, (Imm_se, H_lw)); (OP_LBU, (Imm_se, H_lbu)); (OP_LHU, (Imm_se, H_lhu));
   (OP_LWR, (Imm_se, H_lwr)); (OP_LWU, (Imm_se, H_lwu)); (OP_SB, (Imm_se, H_sb));
   (OP_SH, (Imm_se, H_sh)); (OP_SWL, (Imm_se, H_swl)); (OP_SW, (Imm_se, H_sw));
   (OP_SDL, (Imm_se, H_sdl)); (OP_SDR, (Imm_se, H_sdr)); (OP_SWR, (Imm_se, H_swr));
   (OP_CACHE, (Imm_se, H_cache)); (OP_LL, (Imm_se, H_ll)); (OP_LWC1, (Imm_se, H_lwc1));
   (OP_LDC1, (Imm_se, H_ldc1)); (OP_LDL, (Imm_se, H_ldl)); (OP_LDR, (Imm_se, H_ldr));
   (OP_LD, (Imm_se, H_ld)); (OP_SC, (Imm_se, H_sc)); (OP_SWC1, (Imm_se, H_swc1));
   (OP_SDC1, (Imm_se, H_sdc1)); (OP_SD, (Imm_se, H_sd));
   (OP_PREF, (Imm_none, mips4_only mips4 H_pref)); (OP_LLD, (Imm_se, H_lld));
   (OP_SCD, (Imm_se, H_scd))].

(** The compares take the whole range [FUNCT_FC_F ..= FUNCT_FC_NGT]. *)
Definition decode_cop1_fmt (tbl : list (Z * Handler)) (fcc : Handler) (funct : Z) : Handler :=
  if (FUNCT_FC_F <=? funct) && (funct <=? FUNCT_FC_NGT) then fcc
  else dispatch tbl funct H_reserved.

Definition decode_cop1 (mips4 : bool) (rs funct : Z) : ImmKind * Handler :=
  if rs =? RS_S then (Imm_none, decode_cop1_fmt (cop1_s_table mips4) H_fcc_s funct)
  else if rs =? RS_D then (Imm_none, decode_cop1_fmt (cop1_d_table mips4) H_fcc_d funct)
  else if rs =? RS_W then (Imm_none, dispatch cop1_w_table funct H_reserved)
  else if rs =? RS_L then (Imm_none, dispatch cop1_l_table funct H_reserved)
  else dispatch cop1_table rs (Imm_none, H_reserved).

Definition decode_cop1x (mips4 : bool) (funct : Z) : Handler :=
  if mips4 then dispatch cop1x_table funct H_reserved else H_reserved.

(** The handler and immediate of an opcode with no fused form taken. *)
Definition decode_plain (mips4 : bool) (op rs rt funct : Z) : ImmKind * Handler :=
  if op =? OP_SPECIAL then (Imm_none, dispatch (special_table mips4) funct H_reserved)
  else if op =? OP_REGIMM then dispatch regimm_table rt (Imm_none, H_reserved)
  else if op =? OP_COP1 then decode_cop1 mips4 rs funct
  else if op =? OP_COP1X then (Imm_none, decode_cop1x mips4 funct)
  else dispatch (main_table mips4) op (Imm_none, H_reserved).

(** ** Fusion with the next word *)

Definition fusable_ops : list Z :=
  [OP_LB; OP_LBU; OP_LH; OP_LHU; OP_LW; OP_LD; OP_SB; OP_SH; OP_SW; OP_SD].

Definition is_fusable_load_store (next_raw addr_reg : Z) : bool :=
  let next_op := (next_raw .>> 26) .& 0x3F in
  let next_rs := (next_raw .>> 21) .& 0x1F in
  if negb (next_rs =? addr_reg) then false else existsb (Z.eqb next_op) fusable_ops.

(** [lui rX,hi; ori rX,rX,lo] and [lui rX,hi; addiu rX,rX,lo]: the combined
    immediate, and whether the second is the ADDIU. *)
Definition lui_fused (raw rt next : Z) : option (Z * bool) :=
  let next_op := (next .>> 26) .& 0x3F in
  let next_rs := (next .>> 21) .& 0x1F in
  let next_rt := (next .>> 16) .& 0x1F in
  let same_reg := (next_rs =? rt) && (next_rt =? rt) in
  if same_reg && (next_op =? OP_ORI) then
    Some (shl 32 (raw .& 0xFFFF) 16 .| (next .& 0xFFFF), false)
  else if same_reg && (next_op =? OP_ADDIU) then
    Some (u32 (i32 (shl 32 (raw .& 0xFFFF) 16) + i16 (next .& 0xFFFF)), true)
  else None.

(** The fused handler for [raw] followed by the word [next], with the
    immediate it leaves; [None] when the pair does not fuse. *)
Definition decode_fused (ins : DecodedInstr) (op rt rd funct next : Z) : option (DecodedInstr * Handler) :=
  let r := raw ins in
  if (op =? OP_SPECIAL) && (funct =? FUNCT_JR) then
    if next =? 0 then Some (ins, H_jr_nop) else None
  else if (op =? OP_SPECIAL) && (funct =? FUNCT_ADDU) then
    if is_fusable_load_store next rd then Some (ins, H_addu_ls) else None
  else if (op =? OP_SPECIAL) && (funct =? FUNCT_SUBU) then
    if is_fusable_load_store next rd then Some (ins, H_subu_ls) else None
  else if op =? OP_J then if next =? 0 then Some (set_imm_j ins r, H_j_nop) else None
  else if op =? OP_JAL then if next =? 0 then Some (set_imm_j ins r, H_jal_nop) else None
  else if op =? OP_BEQ then if next =? 0 then Some (set_imm_se4 ins r, H_beq_nop) else None
  else if op =? OP_BNE then if next =? 0 then Some (set_imm_se4 ins r, H_bne_nop) else None
  else if op =? OP_ADDIU then
    if is_fusable_load_store next rt then Some (ins, H_addiu_ls) else None
  else if op =? OP_LUI then
    match lui_fused r rt next with
    | Some (combined, is_addiu) =>
        Some (ins <| imm := combined |>, if is_addiu then H_lui_simm32 else H_lui_imm32)
    | None => None
    end
  else None.

Definition decode_into (fusion mips4 : bool) (ins : DecodedInstr) : DecodedInstr :=
  let r := raw ins in
  let op_ := (r .>> 26) .& 0x3F in
  let rs_ := (r .>> 21) .& 0x1F in
  let rt_ := (r .>> 16) .& 0x1F in
  let rd_ := (r .>> 11) .& 0x1F in
  let sa_ := (r .>> 6) .& 0x1F in
  let funct_ := r .& 0x3F in
  let fused :=
    if fusion && has (flags ins) FLAG_IMM_IS_NEXT then decode_fused ins op_ rt_ rd_ funct_ (imm ins)
    else None in
  let '(ins, h) :=
    match fused with
    | Some p => p
    | None =>
        let '(k, h) := decode_plain mips4 op_ rs_ rt_ funct_ in
        (set_imm k ins r, h)
    end in
  ins <| op := op_ |> <| rs := rs_ |> <| rt := rt_ |> <| rd := rd_ |> <| sa := sa_ |>
      <| funct := funct_ |> <| handler := Some h |> <| flags := 0 |>.

End CpuDecode.
