(* ===== verification/CpuExec.v ===== *)
(** * The execution engine (src/src/cpu/mips_exec.rs)

    [MipsExecutor] as a state [Exec] and its methods as computations in a
    state monad whose [None] is a Rust panic (or a WAIT that outlasts what the
    host was seen to do).  The TLB and the memory system behind it are
    interfaces, as the traits [Tlb], [MipsCache] and [BusDevice] are in the
    source; [MipsTlb] and the passthrough cache are instances.

    Built with the default features, plus [opcodefusion] as the parameter
    [fusion]; no breakpoint is armed, and diagnostics are left out. *)

From S2P Require Import Prelude Tlb CpuTimer CpuCore CpuDecode.
Import Tlb CpuCore CpuDecode.

Module CpuExec.

(** ** Status words *)

Definition EXC_INT : Z := 0.
Definition EXC_MOD : Z := 1.
Definition EXC_TLBL : Z := 2.
Definition EXC_TLBS : Z := 3.
Definition EXC_ADEL : Z := 4.
Definition EXC_ADES : Z := 5.
Definition EXC_SYS : Z := 8.
Definition EXC_BP : Z := 9.
Definition EXC_RI : Z := 10.
Definition EXC_CPU : Z := 11.
Definition EXC_OV : Z := 12.
Definition EXC_TR : Z := 13.
Definition EXC_VCEI : Z := 14.
Definition EXC_FPE : Z := 15.

Definition EXEC_COMPLETE : Z := 0.
Definition EXEC_RETRY : Z := 0x100.
Definition EXEC_BREAKPOINT : Z := 0x800.
Definition EXEC_IS_EXCEPTION : Z := 0x8000000.

Definition BUS_OK : Z := 0.
Definition BUS_BUSY : Z := 0x100.
Definition BUS_ERR : Z := 0x800001C.
Definition BUS_VCE : Z := 0x800007C.

Definition exec_exception (code : Z) : Z := EXEC_IS_EXCEPTION .| shl 32 code CAUSE_EXCCODE_SHIFT.
Definition exec_tlb_miss (code : Z) : Z :=
  EXEC_IS_EXCEPTION .| EXEC_IS_TLB_REFILL .| shl 32 code CAUSE_EXCCODE_SHIFT.
Definition exec_xtlb_miss (code : Z) : Z :=
  EXEC_IS_EXCEPTION .| EXEC_IS_TLB_REFILL .| EXEC_IS_XTLB_REFILL .| shl 32 code CAUSE_EXCCODE_SHIFT.

Definition TR_UNCACHED : Z := 2.
Definition TR_CACHEABLE : Z := 3.
Definition TR_CACHEABLE_COH : Z := 5.
Definition TR_MAPPED : Z := 8.
Definition TR_GLOBAL : Z := 16.

Record TranslateResult := mkTr { tr_phys : Z; tr_status : Z }.

Definition tr_ok (phys c_field : Z) : TranslateResult := mkTr phys c_field.
Definition tr_ok_mapped (phys c_field : Z) (global : bool) : TranslateResult :=
  mkTr phys (c_field .| TR_MAPPED .| (if global then TR_GLOBAL else 0)).
Definition tr_exc (s : Z) : TranslateResult := mkTr 0 s.
Definition is_exception (r : TranslateResult) : bool := has (tr_status r) EXEC_IS_EXCEPTION.
Definition is_cached (r : TranslateResult) : bool := negb ((tr_status r .& 0x7) =? TR_UNCACHED).

(** ** Interfaces *)

(** What a CPU model fixes, the [opcodefusion] feature, and the board's
    folding of physical addresses (set at construction, never changed). *)
Record CpuModel := {
  MIPS4 : bool;
  R10K_CACHE_OPS : bool;
  VA_BITS : Z;
  PA_BITS : Z;
  fusion : bool;
  phys_alias : option (Z * Z * Z);
  phys_mask : Z;
}.

Definition LLADDR_MASK (m : CpuModel) : Z := 2 ^ (PA_BITS m - 4) - 1.

(** The [Tlb] trait: the operations the executor calls. *)
Class TlbOps (T : Type) := {
  tlb_translate : bool -> T -> Z -> Z -> AccessType -> option (T * TlbResult);
  tlb_write : T -> Z -> TlbEntry -> option T;
  tlb_read : T -> Z -> option TlbEntry;
  tlb_probe : T -> Z -> Z -> bool -> Z;
  tlb_num_entries : T -> Z;
}.

#[export] Instance MipsTlb_ops : TlbOps MipsTlb := {|
  tlb_translate := translate;
  tlb_write := write;
  tlb_read := read;
  tlb_probe := probe;
  tlb_num_entries := num_entries;
|}.

(** The [BusDevice] trait: an access of 1, 2, 4 or 8 bytes; the status of a
    read comes with its data. *)
Class BusOps (B : Type) := {
  bus_read : B -> Z -> Z -> B * (Z * Z);
  bus_write : B -> Z -> Z -> Z -> B * Z;
  bus_write64_masked : B -> Z -> Z -> Z -> B * Z;
}.

(** The [MipsCache] trait together with the bus behind it. *)
Class MemOps (C : Type) := {
  mem_bus :: BusOps C;
  cache_fetch : C -> Z -> Z -> C * (Z * DecodedInstr);
  cache_put : C -> Z -> Z -> DecodedInstr -> C;
  cache_read : C -> Z -> Z -> Z -> C * (Z * Z);
  cache_write : C -> Z -> Z -> Z -> Z -> C * Z;
  cache_write64_masked : C -> Z -> Z -> Z -> Z -> C * Z;
  cache_op : C -> Z -> Z -> Z -> C * Z;
  cache_op_ecc : C -> Z;
  set_cache_ecc : C -> Z -> C;
  take_cache_err : C -> C * Z;
  get_llbit : C -> bool;
  set_llbit : C -> bool -> C;
  set_lladdr : C -> Z -> C;
  cas_ram : C -> Z -> Z -> Z -> Z -> C * option bool;
}.

(** ** State *)

(** [translate_sel] stands for [translate_fn], [fpr_fr] for the six FPR
    accessors, [ins] is the scratch slot of uncached fetches.  [host_now] is
    the host clock as this instruction reads it, [wait_obs] what a WAIT's
    stall loop will observe: the pending word and the nanoseconds elapsed. *)
Record Exec (T C : Type) := mkExec {
  core : MipsCore;
  tlb : T;
  cache : C;
  translate_sel : bool * PrivilegeMode;
  fpr_fr : bool;
  ins : DecodedInstr;
  host_now : Z;
  wait_obs : list (Z * Z);
}.

Arguments mkExec {T C}.
Arguments core {T C}.
Arguments tlb {T C}.
Arguments cache {T C}.
Arguments translate_sel {T C}.
Arguments fpr_fr {T C}.
Arguments ins {T C}.
Arguments host_now {T C}.
Arguments wait_obs {T C}.

#[global] Instance eta_Exec {T C} : Settable (Exec T C) := fun r =>
  mkExec (core r) (tlb r) (cache r) (translate_sel r) (fpr_fr r) (ins r) (host_now r) (wait_obs r).

(** ** The monad *)

Definition M (T C A : Type) : Type := Exec T C -> option (A * Exec T C).

#[global] Instance M_ret {T C} : MRet (M T C) := fun A x e => Some (x, e).
#[global] Instance M_bind {T C} : MBind (M T C) := fun A B f m e =>
  match m e with
  | Some (a, e') => f a e'
  | None => None
  end.

Section exec.
Context {T C : Type} `{TlbOps T} `{MemOps C} (model : CpuModel).

Notation Exec := (Exec T C).
Notation M := (M T C).

Definition gets {A} (f : Exec -> A) : M A := fun e => Some (f e, e).
Definition modify (f : Exec -> Exec) : M unit := fun e => Some (tt, f e).
Definition upd_core (f : MipsCore -> MipsCore) : M unit := modify (fun e => e <| core ::= f |>).
Definition get_core {A} (f : MipsCore -> A) : M A := gets (fun e => f (core e)).
Definition upd_cp0 (f : Cp0 -> Cp0) : M unit := upd_core (fun c => c <| cp0 ::= f |>).
Definition upd_cache (f : C -> C) : M unit := modify (fun e => e <| cache ::= f |>).

(** A memory-system operation with an answer. *)
Definition with_cache {A} (f : C -> C * A) : M A := fun e =>
  let '(c, a) := f (cache e) in Some (a, e <| cache := c |>).

Definition when_ (b : bool) (m : M unit) : M unit := if b then m else mret tt.

(** ** Cached Status state *)

Definition nanotlb_invalidate : M unit :=
  upd_core (fun c => nutlb_clear (CpuCore.nanotlb_invalidate c)).

Definition update_translate_fn : M unit :=
  modify (fun e => e <| translate_sel := (is_64bit_mode (core e), get_privilege_mode (core e)) |>).

Definition update_fpr_mode : M unit :=
  modify (fun e => e <| fpr_fr := has (cp0_status (cp0 (core e))) STATUS_FR |>).

Definition resync_privilege_state : M unit :=
  update_translate_fn;; update_fpr_mode;; nanotlb_invalidate.

(** ** Exceptions and terminals *)

Definition handle_exception (status : Z) : M Z :=
  upd_cache (fun c => set_llbit c false);;
  when_ (has status EXEC_IS_CACHE_ERR)
    (err ← with_cache take_cache_err; upd_cp0 (fun p => p <| cp0_cacheerr := err |>));;
  upd_core (fun c => deliver_exception c status);;
  resync_privilege_state;;
  mret status.

Definition branch_delay (target : Z) : M Z :=
  upd_core (fun c => c <| delay_slot_target := target |> <| in_delay_slot := true |>
                       <| pc := u64 (pc c + 4) |>);;
  mret EXEC_COMPLETE.

Definition misaligned_fetch_exception : M Z :=
  upd_core (fun c => c <| cp0 ::= (fun p => p <| cp0_badvaddr := pc c |>) |>);;
  handle_exception (exec_exception EXC_ADEL).

Definition check_pc_alignment : M Z :=
  p ← get_core pc;
  if has p 0x3 then misaligned_fetch_exception else mret EXEC_COMPLETE.

Definition handle_exec_complete : M Z :=
  in_slot ← get_core in_delay_slot;
  if in_slot : bool then
    upd_core (fun c => c <| pc := delay_slot_target c |> <| in_delay_slot := false |>);;
    p ← get_core pc;
    if has p 0x3 then misaligned_fetch_exception else mret EXEC_COMPLETE
  else
    upd_core (fun c => c <| pc := u64 (pc c + 4) |>);;
    mret EXEC_COMPLETE.

Definition handle_branch_likely_skip : M Z :=
  upd_core (fun c => c <| pc := u64 (pc c + 8) |>);;
  mret EXEC_COMPLETE.

Definition handle_branch_not_taken : M Z :=
  p ← get_core pc;
  branch_delay (u64 (p + 8)).

Definition exec_complete_pc_set : M Z := check_pc_alignment.

Definition finish_status (status : Z) : M Z :=
  if has status EXEC_IS_EXCEPTION then handle_exception status
  else if status =? EXEC_COMPLETE then handle_exec_complete
  else mret status.

Definition cpu_unusable (ce : Z) : M Z :=
  upd_cp0 (fun p => p <| cp0_cause := (cp0_cause p .& bnot 32 CAUSE_CE_MASK)
                                        .| shl 32 (ce .& 3) CAUSE_CE_SHIFT |>);;
  handle_exception (exec_exception EXC_CPU).

(** ** Address translation *)

Definition decode_cache_attr (c : Z) : Z :=
  let c := c .& 0x7 in
  if R10K_CACHE_OPS model then
    match c with 3 => TR_CACHEABLE | 4 | 5 => TR_CACHEABLE_COH | _ => TR_UNCACHED end
  else if MIPS4 model then
    match c with 0 | 1 | 3 => TR_CACHEABLE | _ => TR_UNCACHED end
  else
    match c with 3 => TR_CACHEABLE | 4 | 5 | 6 => TR_CACHEABLE_COH | _ => TR_UNCACHED end.

Definition cache_attr_table : list CacheAttr :=
  map (fun c => let a := decode_cache_attr c in
                if a =? TR_UNCACHED then Uncached
                else if a =? TR_CACHEABLE then Cacheable else CacheableCoherent)
      (seqZ 0 8).

Definition kseg0_cache_attr (c : MipsCore) : Z := decode_cache_attr (cp0_config (cp0 c)).

Definition fold_phys (pa : Z) : Z :=
  let pa :=
    match phys_alias model with
    | Some (base, size, target) => if u64 (pa - base) <? size then u64 (pa - base + target) else pa
    | None => pa
    end in
  pa .& phys_mask model.

Definition xcontext_on_miss (va_bits old_xcontext virt_addr : Z) : Z :=
  let vpn2_mask := shl 64 (shl 64 1 (va_bits - 13) - 1) 13 .& bnot 64 0xFFF in
  let ptebase := old_xcontext .& shl 64 (bnot 64 0) (va_bits - 7) in
  let badvpn2 := shl 64 ((virt_addr .& vpn2_mask) .>> 13) 4 in
  let region := (virt_addr .>> 62) .& 0x3 in
  ptebase .| shl 64 region (va_bits - 9) .| badvpn2.

Definition EH_VPN_MASK : Z := 0xC00000FFFFFFE000.

Definition update_tlb_exception_registers (virt_addr : Z) : M unit :=
  upd_cp0 (fun p =>
    p <| cp0_badvaddr := virt_addr |>
      <| cp0_entryhi := (virt_addr .& EH_VPN_MASK) .| (cp0_entryhi p .& 0xFF) |>
      <| cp0_context := (cp0_context p .& 0xFFFFFFFFFF800000)
                          .| shl 64 ((virt_addr .& 0xFFFFE000) .>> 13) 4 |>
      <| cp0_xcontext := xcontext_on_miss (VA_BITS model) (cp0_xcontext p) virt_addr |>).

Definition is_write (at_ : AccessType) : bool := bool_decide (at_ = Write).

Definition tlb_translate_impl (debug xtlb : bool) (virt_addr : Z) (at_ : AccessType)
    : M TranslateResult :=
  asid ← get_core (fun c => cp0_entryhi (cp0 c) .& 0xFF);
  result ← (fun e => '(t, r) ← tlb_translate xtlb (tlb e) virt_addr asid at_;
                     Some (r, e <| tlb := t |>));
  let tlb_miss_code := if is_write at_ then EXC_TLBS else EXC_TLBL in
  let fail s := when_ (negb debug) (update_tlb_exception_registers virt_addr);; mret (tr_exc s) in
  match result with
  | Hit phys_addr cache_attr dirty global =>
      if is_write at_ && negb dirty then fail (exec_exception EXC_MOD)
      else mret (tr_ok_mapped (fold_phys phys_addr) (CacheAttr_code cache_attr) global)
  | Miss _ => fail (if xtlb then exec_xtlb_miss tlb_miss_code else exec_tlb_miss tlb_miss_code)
  | Invalid _ => fail (exec_exception tlb_miss_code)
  | Modified _ => fail (exec_exception EXC_MOD)
  end.

(** An address the mode may not use: BadVAddr and an Address Error. *)
Definition address_error (debug : bool) (virt_addr : Z) (at_ : AccessType) : M TranslateResult :=
  when_ (negb debug) (upd_cp0 (fun p => p <| cp0_badvaddr := virt_addr |>));;
  mret (tr_exc (exec_exception (if is_write at_ then EXC_ADES else EXC_ADEL))).

Definition is_kernel (priv : PrivilegeMode) : bool :=
  match priv with Kernel => true | _ => false end.
Definition is_supervisor (priv : PrivilegeMode) : bool :=
  match priv with Supervisor => true | _ => false end.

Definition translate_32bit_impl (debug : bool) (priv : PrivilegeMode) (virt_addr : Z)
    (at_ : AccessType) : M TranslateResult :=
  let virt_addr32 := u32 virt_addr in
  let segment := virt_addr32 .>> 29 in
  c ← gets core;
  if segment <=? 3 then
    if has (cp0_status (cp0 c)) STATUS_ERL then mret (tr_ok virt_addr32 TR_UNCACHED)
    else tlb_translate_impl debug false virt_addr at_
  else if segment =? 4 then
    if is_kernel priv then mret (tr_ok (virt_addr32 .& 0x1FFFFFFF) (kseg0_cache_attr c))
    else address_error debug virt_addr at_
  else if segment =? 5 then
    if is_kernel priv then mret (tr_ok (virt_addr32 .& 0x1FFFFFFF) TR_UNCACHED)
    else address_error debug virt_addr at_
  else if segment =? 6 then
    if is_kernel priv || is_supervisor priv then tlb_translate_impl debug false virt_addr at_
    else address_error debug virt_addr at_
  else
    if is_kernel priv then tlb_translate_impl debug false virt_addr at_
    else address_error debug virt_addr at_.

Definition translate_64bit_impl (debug : bool) (priv : PrivilegeMode) (virt_addr : Z)
    (at_ : AccessType) : M TranslateResult :=
  let top_bits := virt_addr .>> 62 in
  c ← gets core;
  if top_bits =? 0 then
    if negb (virt_addr .>> 40 =? 0) then address_error debug virt_addr at_
    else if has (cp0_status (cp0 c)) STATUS_ERL then mret (tr_ok (fold_phys virt_addr) TR_UNCACHED)
    else tlb_translate_impl debug true virt_addr at_
  else if top_bits =? 1 then
    if is_kernel priv || is_supervisor priv then tlb_translate_impl debug true virt_addr at_
    else address_error debug virt_addr at_
  else if top_bits =? 2 then
    let bits_61_59 := (virt_addr .>> 59) .& 0x7 in
    if (2 <=? bits_61_59) && (bits_61_59 <=? 7) then
      if is_kernel priv then
        mret (tr_ok (fold_phys (virt_addr .& 0x07FFFFFFFFFFFFFF)) (decode_cache_attr bits_61_59))
      else address_error debug virt_addr at_
    else address_error debug virt_addr at_
  else
    if is_kernel priv then
      let addr_32 := u32 virt_addr in
      let seg := (addr_32 .>> 29) .& 0x7 in
      if virt_addr .>> 32 =? 0xFFFFFFFF then
        if seg =? 4 then mret (tr_ok (addr_32 .& 0x1FFFFFFF) (kseg0_cache_attr c))
        else if seg =? 5 then mret (tr_ok (addr_32 .& 0x1FFFFFFF) TR_UNCACHED)
        else tlb_translate_impl debug true virt_addr at_
      else tlb_translate_impl debug true virt_addr at_
    else address_error debug virt_addr at_.

Definition translate_at (debug is_64bit : bool) (priv : PrivilegeMode) (virt_addr : Z)
    (at_ : AccessType) : M TranslateResult :=
  if is_64bit then translate_64bit_impl debug priv virt_addr at_
  else translate_32bit_impl debug priv virt_addr at_.

Definition translate_impl (debug : bool) (virt_addr : Z) (at_ : AccessType) : M TranslateResult :=
  c ← gets core;
  translate_at debug (is_64bit_mode c) (if debug then Kernel else get_privilege_mode c) virt_addr at_.

Definition debug_translate (virt_addr : Z) : M TranslateResult := translate_impl true virt_addr Debug.

(** [(self.translate_fn)(self, va, at)] *)
Definition translate_fn (virt_addr : Z) (at_ : AccessType) : M TranslateResult :=
  sel ← gets translate_sel;
  translate_at false (fst sel) (snd sel) virt_addr at_.

Definition is_xtlb_address (c : MipsCore) (virt_addr : Z) : bool :=
  is_64bit_mode c && negb (virt_addr .>> 62 =? 2).

(** ** Translation caches *)

Definition nutlb_cacheable_segment (va : Z) (is_64bit : bool) : bool :=
  if negb is_64bit then true
  else negb (va .>> 62 =? 0) || (va .>> 40 =? 0).

Definition nutlb_fill (w : bool) (va : Z) (result : TranslateResult) : M unit :=
  c ← gets core;
  if has (cp0_status (cp0 c)) STATUS_ERL then mret tt
  else if negb (nutlb_cacheable_segment va (is_64bit_mode c)) then mret tt
  else
    let idx := nutlb_index va in
    let arr := if w then NUTLB_WRITE else NUTLB_READ in
    let e := {| virttag := va .& bnot 64 0xFFF;
                nu_phys := (tr_phys result .& bnot 64 0xFFF) .| (tr_status result .& 0x7) |} in
    upd_core (fun c => c <| nutlb ::= alter (<[Z.to_nat idx := e]>) arr |>);;
    upd_core (fun c => nutlb_set_valid c arr idx).

Definition nutlb_translate (w : bool) (va : Z) : M TranslateResult :=
  let idx := nutlb_index va in
  let arr := if w then NUTLB_WRITE else NUTLB_READ in
  c ← gets core;
  let e := (nutlb c !!! arr) !!! Z.to_nat idx in
  if (virttag e =? va .& bnot 64 0xFFF) && nutlb_is_valid c arr idx then
    mret (tr_ok (nu_phys_addr e va) (nu_cache_attr_raw e))
  else
    result ← translate_fn va (if w then Write else Read);
    when_ (negb (is_exception result)) (nutlb_fill w va result);;
    mret result.

Definition nano_slot (c : MipsCore) : NanoTlbEntry := nth 0 (nanotlb c) (mkNano 0 0).

Definition nanotlb_translate (at_ : AccessType) (va : Z) : M TranslateResult :=
  match at_ with
  | Read => nutlb_translate false va
  | Write => nutlb_translate true va
  | Fetch | Debug =>
      let va_page := va .& bnot 64 0xFFF in
      c ← gets core;
      let slot := nano_slot c in
      if nano_matches slot va_page then mret (tr_ok (nano_phys_addr slot va) (nano_cache_attr_raw slot))
      else
        result ← translate_fn va at_;
        when_ (negb (is_exception result))
          (upd_core (fun c => c <| nanotlb ::= <[0%nat := nano_fill_raw va_page (tr_phys result)
                                                            (tr_status result .& 0x7)]> |>));;
        mret result
  end.

(** ** Memory accesses *)

Definition align_mask_for (size : Z) : Z := size - 1.

Definition set_badvaddr (debug : bool) (va : Z) : M unit :=
  when_ (negb debug) (upd_cp0 (fun p => p <| cp0_badvaddr := va |>)).

Definition data_translate (debug : bool) (at_ : AccessType) (va : Z) : M TranslateResult :=
  if debug then translate_impl true va Debug else nanotlb_translate at_ va.

Definition read_data_impl (debug : bool) (size virt_addr : Z) : M (Z + Z) :=
  if has virt_addr (align_mask_for size) then
    set_badvaddr debug virt_addr;;
    mret (inr (exec_exception EXC_ADEL))
  else
    tr ← data_translate debug Read virt_addr;
    if is_exception tr then mret (inr (tr_status tr))
    else if is_cached tr then
      '(st, data) ← with_cache (fun c => cache_read c size virt_addr (tr_phys tr));
      if st =? BUS_OK then mret (inl data)
      else
        when_ (negb (has st EXEC_IS_CACHE_ERR)) (set_badvaddr debug virt_addr);;
        mret (inr st)
    else
      '(st, data) ← with_cache (fun c => bus_read c size (tr_phys tr));
      if st =? BUS_OK then mret (inl data)
      else
        when_ (negb (st =? BUS_BUSY)) (set_badvaddr debug virt_addr);;
        mret (inr st).

Definition write_data_impl (debug : bool) (size virt_addr val : Z) : M Z :=
  if has virt_addr (align_mask_for size) then
    set_badvaddr debug virt_addr;;
    mret (exec_exception EXC_ADES)
  else
    tr ← data_translate debug Write virt_addr;
    if is_exception tr then mret (tr_status tr)
    else if is_cached tr then
      st ← with_cache (fun c => cache_write c size virt_addr (tr_phys tr) val);
      when_ (negb (st =? BUS_OK) && negb (st =? BUS_BUSY)) (set_badvaddr debug virt_addr);;
      mret st
    else
      with_cache (fun c => bus_write c size (tr_phys tr) (wrap (8 * size) val)).

Definition write_data64_masked_impl (debug : bool) (virt_addr val mask : Z) : M Z :=
  tr ← data_translate debug Write virt_addr;
  if is_exception tr then mret (tr_status tr)
  else if is_cached tr then
    st ← with_cache (fun c => cache_write64_masked c virt_addr (tr_phys tr) val mask);
    when_ (negb (st =? BUS_OK) && negb (st =? BUS_BUSY)) (set_badvaddr debug virt_addr);;
    mret st
  else with_cache (fun c => bus_write64_masked c (tr_phys tr) val mask).

Definition read_data : Z -> Z -> M (Z + Z) := read_data_impl false.
Definition write_data : Z -> Z -> Z -> M Z := write_data_impl false.
Definition write_data64_masked : Z -> Z -> Z -> M Z := write_data64_masked_impl false.

(** A fetched slot: in the scratch instruction or in the cache. *)
Inductive FetchInstrResult :=
| FetchHit (cached : bool) (pa : Z) (d : DecodedInstr)
| FetchFail (status : Z).

Definition fetch_instr_impl (debug : bool) (virt_addr : Z) : M FetchInstrResult :=
  tr ← (if debug then translate_impl true virt_addr Fetch else nanotlb_translate Fetch virt_addr);
  if is_exception tr then mret (FetchFail (tr_status tr))
  else if is_cached tr then
    '(st, d) ← with_cache (fun c => cache_fetch c virt_addr (tr_phys tr));
    when_ (st =? exec_exception EXC_VCEI) (set_badvaddr debug virt_addr);;
    mret (if st =? EXEC_COMPLETE then FetchHit true (tr_phys tr) d else FetchFail st)
  else
    '(st, data) ← with_cache (fun c => bus_read c 4 (tr_phys tr));
    if st =? BUS_OK then
      modify (fun e => e <| ins ::= (fun i => i <| flags := FLAG_NOT_DECODED |> <| raw := data |>) |>);;
      d ← gets ins;
      mret (FetchHit false (tr_phys tr) d)
    else mret (FetchFail st).

Definition fetch_instr : Z -> M FetchInstrResult := fetch_instr_impl false.

End exec.

Arguments gets {T C A} f /.
Arguments modify {T C} f /.

(** ** The passthrough cache (src/src/cpu/mips_cache_v2.rs) *)

Record PassthroughCache (B : Type) := mkPass {
  downstream : B;
  llbit : bool;
  lladdr : Z;
  fetch_scratch : DecodedInstr;
}.
Arguments mkPass {B}.
Arguments downstream {B}.
Arguments llbit {B}.
Arguments lladdr {B}.
Arguments fetch_scratch {B}.

#[global] Instance eta_Passthrough {B} : Settable (PassthroughCache B) := fun r =>
  mkPass (downstream r) (llbit r) (lladdr r) (fetch_scratch r).

Section passthrough.
Context {B : Type} `{BusOps B}.
Notation P := (PassthroughCache B).

Definition pass_new (b : B) : P := mkPass b false 0 instr_default.

Definition pass_bus_read (c : P) (size pa : Z) : P * (Z * Z) :=
  let '(b, r) := bus_read (downstream c) size pa in (c <| downstream := b |>, r).
Definition pass_bus_write (c : P) (size pa val : Z) : P * Z :=
  let '(b, s) := bus_write (downstream c) size pa val in (c <| downstream := b |>, s).
Definition pass_bus_write64_masked (c : P) (pa val mask : Z) : P * Z :=
  let '(b, s) := bus_write64_masked (downstream c) pa val mask in (c <| downstream := b |>, s).

Definition pass_fetch (c : P) (va pa : Z) : P * (Z * DecodedInstr) :=
  let '(c, (st, data)) := pass_bus_read c 4 pa in
  if st =? BUS_OK then
    let c := c <| fetch_scratch ::= (fun i => i <| flags := FLAG_NOT_DECODED |> <| raw := data |>) |> in
    (c, (EXEC_COMPLETE, fetch_scratch c))
  else (c, (st, instr_default)).

Definition pass_read (c : P) (size va pa : Z) : P * (Z * Z) := pass_bus_read c size pa.
Definition pass_write (c : P) (size va pa val : Z) : P * Z :=
  pass_bus_write c size pa (wrap (8 * size) val).

Definition pass_write64_masked (c : P) (va pa val mask : Z) : P * Z :=
  let aligned_addr := pa .& bnot 64 7 in
  let '(c, (st, data)) := pass_bus_read c 8 aligned_addr in
  if st =? BUS_OK then
    pass_bus_write c 8 aligned_addr ((data .& bnot 64 mask) .| (val .& mask))
  else (c, st).

#[global] Instance pass_busops : BusOps P := {|
  bus_read := pass_bus_read;
  bus_write := pass_bus_write;
  bus_write64_masked := pass_bus_write64_masked;
|}.

#[global] Instance pass_memops : MemOps P := {|
  mem_bus := pass_busops;
  cache_fetch := pass_fetch;
  cache_put := fun c _ _ d => c <| fetch_scratch := d |>;
  cache_read := pass_read;
  cache_write := pass_write;
  cache_write64_masked := pass_write64_masked;
  cache_op := fun c _ _ _ => (c, 0);
  cache_op_ecc := fun _ => 0;
  set_cache_ecc := fun c _ => c;
  take_cache_err := fun c => (c, 0);
  get_llbit := llbit;
  set_llbit := fun c v => c <| llbit := v |>;
  set_lladdr := fun c a => c <| lladdr := a |>;
  cas_ram := fun c _ _ _ _ => (c, None);
|}.

End passthrough.

End CpuExec.
