(* ===== verification/CpuInstr.v ===== *)
(** * The instruction handlers (src/src/cpu/mips_exec.rs)

    One definition per [exec_*] method of the integer, branch, trap, memory,
    COP0 and TLB instructions, the fused pairs of [opcodefusion], the
    floating-point moves, loads, stores and branch, and [step_int], which runs
    one instruction.  The floating-point arithmetic, conversions and compares
    raise the coprocessor-unusable exception when Status.CU1 is clear and have
    no result when it is set.  [gpr] is read and written as a total list: the
    register numbers of a decoded instruction are five bits wide
    ([decode_into_ok]) and the list has 32 elements ([core_ok]). *)

From S2P Require Import Prelude Tlb CpuTimer CpuCore CpuDecode CpuExec.
Import Tlb CpuCore CpuDecode CpuExec.

Module CpuInstr.

(** ** Casts *)

(** [as u32 as i32 as i64 as u64] *)
Definition sext32 (x : Z) : Z := u64 (i32 x).

(** [checked_add] and the like at width [w]. *)
Definition checked (w r : Z) : option Z :=
  if (- 2 ^ (w - 1) <=? r) && (r <? 2 ^ (w - 1)) then Some r else None.

(** ** Cache operation codes *)

Definition CACH_PI : Z := 0.
Definition CACH_PD : Z := 1.
Definition CACH_SI : Z := 2.
Definition CACH_SD : Z := 3.
Definition C_ILT : Z := 0x04.
Definition C_IST : Z := 0x08.
Definition C_CDX : Z := 0x0C.
Definition C_HINV : Z := 0x10.
Definition C_HWBINV : Z := 0x14.
Definition C_HWB : Z := 0x18.
Definition C_HSV : Z := 0x1C.
Definition C_R10K_CBARRIER : Z := 0x14.
Definition C_R10K_ILD : Z := 0x18.
Definition C_R10K_ISD : Z := 0x1C.

Definition SOFT_RESET_BIT : Z := 2 ^ 63.
Definition EXT_INT_MASK : Z := 0xFC00.

Section instr.
Context {T C : Type} `{TlbOps T} `{MemOps C} (model : CpuModel).

Notation Exec := (Exec T C).
Notation M := (M T C).

Definition gpr_ (r : Z) : M Z := get_core (fun c => read_gpr c r).
Definition set_gpr (r v : Z) : M unit := upd_core (fun c => write_gpr c r v).
Definition raise (code : Z) : M Z := handle_exception (exec_exception code).

(** ** Register-register instructions *)

(** [rd <- f rs rt] and done. *)
Definition alu_rd (d : DecodedInstr) (f : Z -> Z -> Z) : M Z :=
  rs_val ← gpr_ (rs d);
  rt_val ← gpr_ (rt d);
  set_gpr (rd d) (f rs_val rt_val);;
  handle_exec_complete.

Definition exec_sll d := alu_rd d (fun _ rt_val => sext32 (shl 64 rt_val (sa d))).
Definition exec_srl d := alu_rd d (fun _ rt_val => u64 (i32 (u32 rt_val .>> sa d))).
Definition exec_sra d := alu_rd d (fun _ rt_val => u64 (i32 rt_val .>> sa d)).
Definition exec_sllv d := alu_rd d (fun rs_val rt_val => sext32 (shl 64 rt_val (rs_val .& 0x1F))).
Definition exec_srlv d := alu_rd d (fun rs_val rt_val => u64 (i32 (u32 rt_val .>> (rs_val .& 0x1F)))).
Definition exec_srav d := alu_rd d (fun rs_val rt_val => u64 (i32 rt_val .>> (rs_val .& 0x1F))).
Definition exec_addu d := alu_rd d (fun rs_val rt_val => sext32 (u32 rs_val + u32 rt_val)).
Definition exec_subu d := alu_rd d (fun rs_val rt_val => sext32 (u32 rs_val - u32 rt_val)).
Definition exec_and d := alu_rd d Z.land.
Definition exec_or d := alu_rd d Z.lor.
Definition exec_xor d := alu_rd d Z.lxor.
Definition exec_nor d := alu_rd d (fun rs_val rt_val => bnot 64 (rs_val .| rt_val)).
Definition exec_slt d := alu_rd d (fun rs_val rt_val => if i64 rs_val <? i64 rt_val then 1 else 0).
Definition exec_sltu d := alu_rd d (fun rs_val rt_val => if rs_val <? rt_val then 1 else 0).
Definition exec_daddu d := alu_rd d (fun rs_val rt_val => u64 (rs_val + rt_val)).
Definition exec_dsubu d := alu_rd d (fun rs_val rt_val => u64 (rs_val - rt_val)).
Definition exec_dsll d := alu_rd d (fun _ rt_val => shl 64 rt_val (sa d)).
Definition exec_dsrl d := alu_rd d (fun _ rt_val => rt_val .>> sa d).
Definition exec_dsra d := alu_rd d (fun _ rt_val => u64 (i64 rt_val .>> sa d)).
Definition exec_dsll32 d := alu_rd d (fun _ rt_val => shl 64 rt_val (sa d + 32)).
Definition exec_dsrl32 d := alu_rd d (fun _ rt_val => rt_val .>> (sa d + 32)).
Definition exec_dsra32 d := alu_rd d (fun _ rt_val => u64 (i64 rt_val .>> (sa d + 32))).
Definition exec_dsllv d := alu_rd d (fun rs_val rt_val => shl 64 rt_val (rs_val .& 0x3F)).
Definition exec_dsrlv d := alu_rd d (fun rs_val rt_val => rt_val .>> (rs_val .& 0x3F)).
Definition exec_dsrav d := alu_rd d (fun rs_val rt_val => u64 (i64 rt_val .>> (rs_val .& 0x3F))).

(** The trapping adds and subtracts: the result must fit [w] signed bits. *)
Definition checked_rd (d : DecodedInstr) (w : Z) (f : Z -> Z -> Z) : M Z :=
  rs_val ← gpr_ (rs d);
  rt_val ← gpr_ (rt d);
  match checked w (f (signed w rs_val) (signed w rt_val)) with
  | Some result => set_gpr (rd d) (u64 result);; handle_exec_complete
  | None => raise EXC_OV
  end.

Definition exec_add d := checked_rd d 32 Z.add.
Definition exec_sub d := checked_rd d 32 Z.sub.
Definition exec_dadd d := checked_rd d 64 Z.add.
Definition exec_dsub d := checked_rd d 64 Z.sub.

(** A conditional move. *)
Definition move_if (d : DecodedInstr) (p : Z -> bool) : M Z :=
  rs_val ← gpr_ (rs d);
  rt_val ← gpr_ (rt d);
  when_ (p rt_val) (set_gpr (rd d) rs_val);;
  handle_exec_complete.

Definition exec_movz d := move_if d (fun rt_val => rt_val =? 0).
Definition exec_movn d := move_if d (fun rt_val => negb (rt_val =? 0)).

Definition exec_movci (d : DecodedInstr) : M Z :=
  c ← gets core;
  if negb (has (cp0_status (cp0 c)) STATUS_CU1) then cpu_unusable 1
  else
    let cc := (raw d .>> 18) .& 0x7 in
    let tf := negb ((raw d .>> 16) .& 0x1 =? 0) in
    let taken := bool_decide (get_fpu_cc c cc = tf) in
    when_ taken (rs_val ← gpr_ (rs d); set_gpr (rd d) rs_val);;
    handle_exec_complete.

(** ** HI and LO *)

Definition set_hilo (h l : Z) : M unit := upd_core (fun c => c <| lo := l |> <| hi := h |>).

Definition exec_mfhi (d : DecodedInstr) : M Z :=
  v ← get_core hi; set_gpr (rd d) v;; handle_exec_complete.
Definition exec_mflo (d : DecodedInstr) : M Z :=
  v ← get_core lo; set_gpr (rd d) v;; handle_exec_complete.
Definition exec_mthi (d : DecodedInstr) : M Z :=
  v ← gpr_ (rs d); upd_core (fun c => c <| hi := v |>);; handle_exec_complete.
Definition exec_mtlo (d : DecodedInstr) : M Z :=
  v ← gpr_ (rs d); upd_core (fun c => c <| lo := v |>);; handle_exec_complete.

(** [Some (hi, lo)], or [None] to leave both alone. *)
Definition hilo (d : DecodedInstr) (f : Z -> Z -> option (Z * Z)) : M Z :=
  rs_val ← gpr_ (rs d);
  rt_val ← gpr_ (rt d);
  match f rs_val rt_val with
  | Some (h, l) => set_hilo h l;; handle_exec_complete
  | None => handle_exec_complete
  end.

Definition exec_mult d := hilo d (fun rs_val rt_val =>
  let result := i32 rs_val * i32 rt_val in Some (sext32 (result .>> 32), sext32 result)).
Definition exec_multu d := hilo d (fun rs_val rt_val =>
  let result := u32 rs_val * u32 rt_val in Some (sext32 (result .>> 32), sext32 result)).
Definition exec_div d := hilo d (fun rs_val rt_val =>
  let a := i32 rs_val in let b := i32 rt_val in
  if b =? 0 then None else Some (u64 (i32 (Z.rem a b)), u64 (i32 (Z.quot a b)))).
Definition exec_divu d := hilo d (fun rs_val rt_val =>
  let a := u32 rs_val in let b := u32 rt_val in
  if b =? 0 then None else Some (sext32 (a mod b), sext32 (a / b))).
Definition exec_dmult d := hilo d (fun rs_val rt_val =>
  let result := i64 rs_val * i64 rt_val in Some (u64 (result .>> 64), u64 result)).
Definition exec_dmultu d := hilo d (fun rs_val rt_val =>
  let result := rs_val * rt_val in Some (u64 (result .>> 64), u64 result)).
Definition exec_ddiv d := hilo d (fun rs_val rt_val =>
  let a := i64 rs_val in let b := i64 rt_val in
  if b =? 0 then None
  else if (a =? - 2 ^ 63) && (b =? -1) then None
  else Some (u64 (Z.rem a b), u64 (Z.quot a b))).
Definition exec_ddivu d := hilo d (fun rs_val rt_val =>
  if rt_val =? 0 then None else Some (rs_val mod rt_val, rs_val / rt_val)).

(** ** Traps, system calls and reserved instructions *)

Definition trap_if (b : bool) : M Z := if b then raise EXC_TR else handle_exec_complete.

Definition trap_rr (d : DecodedInstr) (p : Z -> Z -> bool) : M Z :=
  rs_val ← gpr_ (rs d); rt_val ← gpr_ (rt d); trap_if (p rs_val rt_val).
Definition trap_ri (d : DecodedInstr) (p : Z -> bool) : M Z :=
  rs_val ← gpr_ (rs d); trap_if (p rs_val).

Definition exec_tge d := trap_rr d (fun a b => i64 b <=? i64 a).
Definition exec_tgeu d := trap_rr d (fun a b => b <=? a).
Definition exec_tlt d := trap_rr d (fun a b => i64 a <? i64 b).
Definition exec_tltu d := trap_rr d (fun a b => a <? b).
Definition exec_teq d := trap_rr d (fun a b => a =? b).
Definition exec_tne d := trap_rr d (fun a b => negb (a =? b)).
Definition exec_tgei d := trap_ri d (fun a => imms64 d <=? i64 a).
Definition exec_tgeiu d := trap_ri d (fun a => immu64 d <=? a).
Definition exec_tlti d := trap_ri d (fun a => i64 a <? imms64 d).
Definition exec_tltiu d := trap_ri d (fun a => a <? immu64 d).
Definition exec_teqi d := trap_ri d (fun a => i64 a =? imms64 d).
Definition exec_tnei d := trap_ri d (fun a => negb (i64 a =? imms64 d)).

Definition exec_syscall (d : DecodedInstr) : M Z := raise EXC_SYS.
Definition exec_break (d : DecodedInstr) : M Z := raise EXC_BP.
Definition exec_sync (d : DecodedInstr) : M Z := handle_exec_complete.
Definition exec_pref (d : DecodedInstr) : M Z := handle_exec_complete.
Definition exec_reserved (d : DecodedInstr) : M Z := raise EXC_RI.

(** ** Jumps and branches *)

Definition link (r : Z) : M unit := p ← get_core pc; set_gpr r (u64 (p + 8)).

Definition exec_jr (d : DecodedInstr) : M Z := target ← gpr_ (rs d); branch_delay target.
Definition exec_jalr (d : DecodedInstr) : M Z :=
  target ← gpr_ (rs d); link (rd d);; branch_delay target.

Definition jump_target (d : DecodedInstr) (p : Z) : Z :=
  (u64 (p + 4) .& 0xFFFFFFFFF0000000) .| immi64 d.

Definition exec_j (d : DecodedInstr) : M Z := p ← get_core pc; branch_delay (jump_target d p).
Definition exec_jal (d : DecodedInstr) : M Z :=
  p ← get_core pc; link 31;; branch_delay (jump_target d p).

Definition branch_target (d : DecodedInstr) (p : Z) : Z := u64 (u64 (p + 4) + immu64 d).

(** Taken to the target, else [otherwise]. *)
Definition branch_if (d : DecodedInstr) (b : bool) (otherwise : M Z) : M Z :=
  p ← get_core pc;
  if b then branch_delay (branch_target d p) else otherwise.

Definition branch_rr (d : DecodedInstr) (p : Z -> Z -> bool) (otherwise : M Z) : M Z :=
  rs_val ← gpr_ (rs d); rt_val ← gpr_ (rt d); branch_if d (p rs_val rt_val) otherwise.
Definition branch_r (d : DecodedInstr) (p : Z -> bool) (otherwise : M Z) : M Z :=
  rs_val ← gpr_ (rs d); branch_if d (p (i64 rs_val)) otherwise.
Definition branch_link (d : DecodedInstr) (p : Z -> bool) (otherwise : M Z) : M Z :=
  rs_val ← gpr_ (rs d); link 31;; branch_if d (p (i64 rs_val)) otherwise.

Definition eq_ (a b : Z) : bool := a =? b.
Definition ne_ (a b : Z) : bool := negb (a =? b).

Definition exec_beq d := branch_rr d eq_ handle_branch_not_taken.
Definition exec_bne d := branch_rr d ne_ handle_branch_not_taken.
Definition exec_blez d := branch_r d (fun a => a <=? 0) handle_branch_not_taken.
Definition exec_bgtz d := branch_r d (fun a => 0 <? a) handle_branch_not_taken.
Definition exec_beql d := branch_rr d eq_ handle_branch_likely_skip.
Definition exec_bnel d := branch_rr d ne_ handle_branch_likely_skip.
Definition exec_blezl d := branch_r d (fun a => a <=? 0) handle_branch_likely_skip.
Definition exec_bgtzl d := branch_r d (fun a => 0 <? a) handle_branch_likely_skip.
Definition exec_bltz d := branch_r d (fun a => a <? 0) handle_branch_not_taken.
Definition exec_bgez d := branch_r d (fun a => 0 <=? a) handle_branch_not_taken.
Definition exec_bltzl_ri d := branch_r d (fun a => a <? 0) handle_branch_likely_skip.
Definition exec_bgezl_ri d := branch_r d (fun a => 0 <=? a) handle_branch_likely_skip.
Definition exec_bltzal d := branch_link d (fun a => a <? 0) handle_branch_not_taken.
Definition exec_bgezal d := branch_link d (fun a => 0 <=? a) handle_branch_not_taken.
Definition exec_bltzall d := branch_link d (fun a => a <? 0) handle_branch_likely_skip.
Definition exec_bgezall d := branch_link d (fun a => 0 <=? a) handle_branch_likely_skip.

(** The forms fused with a NOP delay slot: straight to the target, unless the
    branch is itself in a delay slot. *)
Definition jump_nop (target : Z) : M Z :=
  in_slot ← get_core in_delay_slot;
  if in_slot : bool then branch_delay target
  else upd_core (fun c => c <| pc := target |>);; exec_complete_pc_set.

Definition exec_jr_nop (d : DecodedInstr) : M Z := target ← gpr_ (rs d); jump_nop target.
Definition exec_j_nop (d : DecodedInstr) : M Z := p ← get_core pc; jump_nop (jump_target d p).
Definition exec_jal_nop (d : DecodedInstr) : M Z :=
  p ← get_core pc; link 31;; jump_nop (jump_target d p).

Definition branch_nop (d : DecodedInstr) (p : Z -> Z -> bool) : M Z :=
  rs_val ← gpr_ (rs d);
  rt_val ← gpr_ (rt d);
  if p rs_val rt_val then p ← get_core pc; jump_nop (branch_target d p)
  else
    in_slot ← get_core in_delay_slot;
    if in_slot : bool then handle_exec_complete else handle_branch_likely_skip.

Definition exec_beq_nop d := branch_nop d eq_.
Definition exec_bne_nop d := branch_nop d ne_.

(** ** Immediates *)

(** [rt <- f rs] and done. *)
Definition alu_rt (d : DecodedInstr) (f : Z -> Z) : M Z :=
  rs_val ← gpr_ (rs d); set_gpr (rt d) (f rs_val);; handle_exec_complete.

Definition checked_rt (d : DecodedInstr) (w i : Z) : M Z :=
  rs_val ← gpr_ (rs d);
  match checked w (signed w rs_val + i) with
  | Some result => set_gpr (rt d) (u64 result);; handle_exec_complete
  | None => raise EXC_OV
  end.

Definition exec_addi d := checked_rt d 32 (i32 (imms64 d)).
Definition exec_daddi d := checked_rt d 64 (imms64 d).
Definition exec_addiu d := alu_rt d (fun rs_val => sext32 (u32 rs_val + u32 (immi64 d))).
Definition exec_daddiu d := alu_rt d (fun rs_val => u64 (rs_val + immu64 d)).
Definition exec_slti d := alu_rt d (fun rs_val => if i64 rs_val <? imms64 d then 1 else 0).
Definition exec_sltiu d := alu_rt d (fun rs_val => if rs_val <? immu64 d then 1 else 0).
Definition exec_andi d := alu_rt d (fun rs_val => rs_val .& immi64 d).
Definition exec_ori d := alu_rt d (fun rs_val => rs_val .| immi64 d).
Definition exec_xori d := alu_rt d (fun rs_val => rs_val .^ immi64 d).

Definition exec_lui (d : DecodedInstr) : M Z :=
  set_gpr (rt d) (immu64 d);; handle_exec_complete.

(** LUI fused with the ORI or ADDIU of the same register. *)
Definition exec_lui_imm32 (d : DecodedInstr) : M Z :=
  in_slot ← get_core in_delay_slot;
  if in_slot : bool then
    set_gpr (rt d) (sext32 (shl 32 (raw d .& 0xFFFF) 16));; handle_exec_complete
  else set_gpr (rt d) (immu64 d);; handle_branch_likely_skip.

Definition exec_lui_simm32 (d : DecodedInstr) : M Z := exec_lui_imm32 d.

(** ** Loads and stores *)

Definition addr_of (d : DecodedInstr) : M Z := base ← gpr_ (rs d); mret (u64 (base + immu64 d)).

Definition load (d : DecodedInstr) (size : Z) (f : Z -> Z) : M Z :=
  virt_addr ← addr_of d;
  r ← read_data model size virt_addr;
  match r with
  | inl value => set_gpr (rt d) (f value);; handle_exec_complete
  | inr status => finish_status status
  end.

Definition exec_lb d := load d 1 (fun v => u64 (i8 v)).
Definition exec_lbu d := load d 1 (fun v => v).
Definition exec_lh d := load d 2 (fun v => u64 (i16 v)).
Definition exec_lhu d := load d 2 (fun v => v).
Definition exec_lw d := load d 4 (fun v => u64 (i32 v)).
Definition exec_lwu d := load d 4 (fun v => v).
Definition exec_ld d := load d 8 (fun v => v).

Definition store (d : DecodedInstr) (size : Z) : M Z :=
  virt_addr ← addr_of d;
  rt_val ← gpr_ (rt d);
  status ← write_data model size virt_addr rt_val;
  finish_status status.

Definition exec_sb d := store d 1.
Definition exec_sh d := store d 2.
Definition exec_sw d := store d 4.
Definition exec_sd d := store d 8.

(** *** Unaligned halves: the merge of memory into the register, by offset *)

Definition lwl_merge (byte_offset mem_word rt_val : Z) : Z :=
  let shift := byte_offset * 8 in
  let mask := shl 32 0xFFFFFFFF shift in
  shl 32 mem_word shift .| (rt_val .& bnot 32 mask).

Definition lwr_merge (byte_offset mem_word rt_val : Z) : Z :=
  let shift := (3 - byte_offset) * 8 in
  let mask := 0xFFFFFFFF .>> shift in
  (mem_word .>> shift) .| (rt_val .& bnot 32 mask).

Definition ldl_merge (byte_offset mem_dword rt_val : Z) : Z :=
  let shift := byte_offset * 8 in
  let mask := shl 64 0xFFFFFFFFFFFFFFFF shift in
  shl 64 mem_dword shift .| (rt_val .& bnot 64 mask).

Definition ldr_merge (byte_offset mem_dword rt_val : Z) : Z :=
  let shift := (7 - byte_offset) * 8 in
  let mask := 0xFFFFFFFFFFFFFFFF .>> shift in
  (mem_dword .>> shift) .| (rt_val .& bnot 64 mask).

Definition load_part (d : DecodedInstr) (size : Z) (f : Z -> Z -> Z -> Z) : M Z :=
  virt_addr ← addr_of d;
  r ← read_data model size (virt_addr .& bnot 64 (size - 1));
  match r with
  | inl v =>
      rt_val ← gpr_ (rt d);
      set_gpr (rt d) (f (virt_addr .& (size - 1)) v rt_val);;
      handle_exec_complete
  | inr status => finish_status status
  end.

Definition exec_lwl d := load_part d 4 (fun o v rt_val => sext32 (lwl_merge o (u32 v) (u32 rt_val))).
Definition exec_lwr d := load_part d 4 (fun o v rt_val => sext32 (lwr_merge o (u32 v) (u32 rt_val))).
Definition exec_ldl d := load_part d 8 ldl_merge.
Definition exec_ldr d := load_part d 8 ldr_merge.

(** The value and mask a partial store writes at the aligned doubleword. *)
Definition swl_parts (virt_addr rt_val : Z) : Z * Z :=
  let word_shift := (virt_addr .& 3) * 8 in
  let word_mask := 0xFFFFFFFF .>> word_shift in
  let word_val := rt_val .>> word_shift in
  let dw_shift := (4 - (virt_addr .& 4)) .<< 3 in
  (shl 64 word_val dw_shift, shl 64 word_mask dw_shift).

Definition swr_parts (virt_addr rt_val : Z) : Z * Z :=
  let word_shift := (3 - (virt_addr .& 3)) * 8 in
  let word_mask := shl 32 0xFFFFFFFF word_shift in
  let word_val := shl 32 rt_val word_shift in
  let dw_shift := (4 - (virt_addr .& 4)) .<< 3 in
  (shl 64 word_val dw_shift, shl 64 word_mask dw_shift).

Definition sdl_parts (virt_addr rt_val : Z) : Z * Z :=
  let shift := (virt_addr .& 7) * 8 in
  (rt_val .>> shift, 0xFFFFFFFFFFFFFFFF .>> shift).

Definition sdr_parts (virt_addr rt_val : Z) : Z * Z :=
  let shift := (7 - (virt_addr .& 7)) * 8 in
  (shl 64 rt_val shift, shl 64 0xFFFFFFFFFFFFFFFF shift).

Definition store_part (d : DecodedInstr) (f : Z -> Z -> Z * Z) : M Z :=
  virt_addr ← addr_of d;
  rt_val ← gpr_ (rt d);
  let '(value, mask) := f virt_addr rt_val in
  status ← write_data64_masked model (virt_addr .& bnot 64 7) value mask;
  finish_status status.

Definition exec_swl d := store_part d (fun va rt_val => swl_parts va (u32 rt_val)).
Definition exec_swr d := store_part d (fun va rt_val => swr_parts va (u32 rt_val)).
Definition exec_sdl d := store_part d sdl_parts.
Definition exec_sdr d := store_part d sdr_parts.

(** *** The load or store of a fused address calculation *)

(** The status of the access, [EXEC_COMPLETE] once a load is written back. *)
Definition fused_load (rt_reg size virt_addr : Z) (f : Z -> Z) : M Z :=
  r ← read_data model size virt_addr;
  match r with
  | inl v => set_gpr rt_reg (f v);; mret EXEC_COMPLETE
  | inr s => mret s
  end.

Definition fused_store (rt_reg size virt_addr : Z) : M Z :=
  v ← gpr_ rt_reg; write_data model size virt_addr v.

Definition fused_access (next_op rt_reg virt_addr : Z) : M Z :=
  if next_op =? OP_LB then fused_load rt_reg 1 virt_addr (fun v => u64 (i8 v))
  else if next_op =? OP_LBU then fused_load rt_reg 1 virt_addr (fun v => v)
  else if next_op =? OP_LH then fused_load rt_reg 2 virt_addr (fun v => u64 (i16 v))
  else if next_op =? OP_LHU then fused_load rt_reg 2 virt_addr (fun v => v)
  else if next_op =? OP_LW then fused_load rt_reg 4 virt_addr (fun v => u64 (i32 v))
  else if next_op =? OP_LD then fused_load rt_reg 8 virt_addr (fun v => v)
  else if next_op =? OP_SB then fused_store rt_reg 1 virt_addr
  else if next_op =? OP_SH then fused_store rt_reg 2 virt_addr
  else if next_op =? OP_SW then fused_store rt_reg 4 virt_addr
  else if next_op =? OP_SD then fused_store rt_reg 8 virt_addr
  else fun _ => None.

Definition exec_fused_addr_load_store_tail (addr next_raw : Z) : M Z :=
  in_slot ← get_core in_delay_slot;
  if in_slot : bool then handle_exec_complete
  else
    upd_core (fun c => c <| pc := u64 (pc c + 4) |>);;
    let next_op := (next_raw .>> 26) .& 0x3F in
    let rt_reg := (next_raw .>> 16) .& 0x1F in
    let offset := u64 (i16 (next_raw .& 0xFFFF)) in
    status ← fused_access next_op rt_reg (u64 (addr + offset));
    if status =? EXEC_COMPLETE then handle_exec_complete else handle_exception status.

Definition exec_addu_ls (d : DecodedInstr) : M Z :=
  rs_val ← gpr_ (rs d);
  rt_val ← gpr_ (rt d);
  let addr := sext32 (u32 rs_val + u32 rt_val) in
  set_gpr (rd d) addr;; exec_fused_addr_load_store_tail addr (imm d).

Definition exec_subu_ls (d : DecodedInstr) : M Z :=
  rs_val ← gpr_ (rs d);
  rt_val ← gpr_ (rt d);
  let addr := sext32 (u32 rs_val - u32 rt_val) in
  set_gpr (rd d) addr;; exec_fused_addr_load_store_tail addr (imm d).

Definition exec_addiu_ls (d : DecodedInstr) : M Z :=
  rs_val ← gpr_ (rs d);
  let addr := sext32 (u32 rs_val + u32 (i16 (raw d .& 0xFFFF))) in
  set_gpr (rt d) addr;; exec_fused_addr_load_store_tail addr (imm d).

(** *** Load linked and store conditional *)

Definition load_linked (d : DecodedInstr) (size : Z) (f : Z -> Z) : M Z :=
  virt_addr ← addr_of d;
  r ← read_data model size virt_addr;
  match r with
  | inl value =>
      set_gpr (rt d) (f value);;
      tr ← nanotlb_translate model Read virt_addr;
      when_ (negb (is_exception tr))
        (let lladdr := (tr_phys tr .>> 4) .& LLADDR_MASK model in
         upd_cache (fun c => set_lladdr c lladdr);;
         upd_core (fun c => c <| cp0 ::= (fun p => p <| cp0_lladdr := lladdr |>) |>
                              <| ll_value := value |> <| ll_phys := tr_phys tr |>);;
         upd_cache (fun c => set_llbit c true));;
      handle_exec_complete
  | inr status => finish_status status
  end.

Definition exec_ll d := load_linked d 4 (fun v => u64 (i32 v)).
Definition exec_lld d := load_linked d 8 (fun v => v).

Definition store_conditional (d : DecodedInstr) (size : Z) : M Z :=
  virt_addr ← addr_of d;
  ll ← gets (fun e => get_llbit (cache e));
  if negb ll then set_gpr (rt d) 0;; handle_exec_complete
  else
    tr ← nanotlb_translate model Write virt_addr;
    if is_exception tr then
      upd_cache (fun c => set_llbit c false);; finish_status (tr_status tr)
    else
      value ← gpr_ (rt d);
      c ← gets core;
      swapped ← (if smp c && (virt_addr .& (size - 1) =? 0) && (tr_phys tr =? ll_phys c)
                 then with_cache (fun m => cas_ram m size (tr_phys tr) (wrap (8 * size) (ll_value c))
                                             (wrap (8 * size) value))
                 else mret None);
      match swapped with
      | Some ok =>
          set_gpr (rt d) (bool_to_Z ok);;
          upd_cache (fun c => set_llbit c false);;
          handle_exec_complete
      | None =>
          status ← write_data model size virt_addr value;
          when_ (status =? EXEC_COMPLETE)
            (set_gpr (rt d) 1;; upd_cache (fun c => set_llbit c false));;
          finish_status status
      end.

Definition exec_sc d := store_conditional d 4.
Definition exec_scd d := store_conditional d 8.

(** ** The CACHE instruction *)

Definition cp0_usable (c : MipsCore) : bool :=
  match get_privilege_mode c with
  | Kernel => true
  | _ => has (cp0_status (cp0 c)) STATUS_CU0
  end.

Definition exec_cache (d : DecodedInstr) : M Z :=
  c ← gets core;
  if negb (cp0_usable c) then cpu_unusable 0
  else
    virt_addr ← addr_of d;
    let cache_op_ := rt d in
    let op := cache_op_ .& 0x1C in
    let sel := cache_op_ .& 3 in
    let r10k_index_op :=
      R10K_CACHE_OPS model &&
      (if op =? C_R10K_CBARRIER then sel =? CACH_PI
       else if op =? C_R10K_ILD then (sel =? CACH_PI) || (sel =? CACH_PD) || (sel =? CACH_SD)
       else if op =? C_R10K_ISD then (sel =? CACH_SI) || (sel =? CACH_SD)
       else false) in
    let needs_translation :=
      negb r10k_index_op && existsb (Z.eqb op) [C_CDX; C_HINV; C_HWBINV; C_HWB; C_HSV] in
    tr ← (if needs_translation : bool then nanotlb_translate model Read virt_addr
          else mret (tr_ok virt_addr 0));
    if is_exception tr then handle_exception (tr_status tr)
    else
      let stores_taglo := (op =? C_IST) || (r10k_index_op && (op =? C_R10K_ISD)) in
      c ← gets core;
      let phys_addr_or_taglo :=
        if stores_taglo then shl 64 (cp0_taghi (cp0 c)) 32 .| u32 (cp0_taglo (cp0 c))
        else tr_phys tr in
      when_ (R10K_CACHE_OPS model) (upd_cache (fun m => set_cache_ecc m (cp0_ecc (cp0 c))));;
      result ← with_cache (fun m => cache_op m cache_op_ virt_addr phys_addr_or_taglo);
      when_ (R10K_CACHE_OPS model && (op =? C_R10K_ILD))
        (ecc ← gets (fun e => cache_op_ecc (cache e));
         upd_cp0 (fun p => p <| cp0_ecc := ecc |>);;
         upd_cache (fun m => set_cache_ecc m ecc));;
      when_ ((op =? C_ILT) || (r10k_index_op && (op =? C_R10K_ILD)))
        (upd_cp0 (fun p => p <| cp0_taglo := result .& 0xFFFFFFFF |>
                             <| cp0_taghi := u32 (result .>> 32) |>));;
      handle_exec_complete.

(** ** COP0 *)

Definition core_read_cp0 (reg : Z) : M Z := fun e =>
  let '(c, v) := read_cp0 (core e) reg (host_now e) in Some (v, e <| core := c |>).

(** [write_cp0] with the executor's Status callback installed. *)
Definition core_write_cp0 (reg value : Z) : M unit :=
  status_written ← (fun e => let '(c, b) := write_cp0 (core e) reg value (host_now e) in
                             Some (b, e <| core := c |>));
  when_ status_written resync_privilege_state.

Definition handle_cp0_side_effects (reg : Z) : M unit :=
  when_ (reg =? 17) (upd_cp0 (fun p => p <| cp0_lladdr ::= (fun a => a .& LLADDR_MASK model) |>));;
  when_ (reg =? 10) nanotlb_invalidate;;
  when_ (reg =? 16) nanotlb_invalidate;;
  when_ (reg =? 26) (c ← gets core; upd_cache (fun m => set_cache_ecc m (cp0_ecc (cp0 c)))).

Definition cp0_is_64bit (reg : Z) : bool :=
  existsb (Z.eqb reg) [2; 3; 4; 8; 10; 14; 20; 30] || (R10K_CACHE_OPS model && (reg =? 28)).

Definition exec_mfc0 (d : DecodedInstr) : M Z :=
  value ← core_read_cp0 (rd d); set_gpr (rt d) (sext32 value);; handle_exec_complete.

Definition exec_dmfc0 (d : DecodedInstr) : M Z :=
  value ← core_read_cp0 (rd d); set_gpr (rt d) value;; handle_exec_complete.

Definition exec_mtc0 (d : DecodedInstr) : M Z :=
  rt_val ← gpr_ (rt d);
  core_write_cp0 (rd d) (if cp0_is_64bit (rd d) then rt_val else sext32 rt_val);;
  handle_cp0_side_effects (rd d);;
  handle_exec_complete.

Definition exec_dmtc0 (d : DecodedInstr) : M Z :=
  rt_val ← gpr_ (rt d);
  core_write_cp0 (rd d) rt_val;;
  handle_cp0_side_effects (rd d);;
  handle_exec_complete.

(** *** TLB instructions *)

Definition exec_tlbr : M Z :=
  c ← gets core;
  t ← gets tlb;
  let index := cp0_index (cp0 c) .& CP0_INDEX_SLOT_MASK in
  if tlb_num_entries t <=? index then mret EXEC_COMPLETE
  else
    entry ← (fun e => en ← tlb_read t index; Some (en, e));
    let g_bit := (entry_hi entry .>> 12) .& 1 in
    upd_cp0 (fun p =>
      p <| cp0_entryhi := entry_hi entry .& bnot 64 0x1000 |>
        <| cp0_entrylo0 := (fst (entry_lo entry) .& bnot 64 1) .| g_bit |>
        <| cp0_entrylo1 := (snd (entry_lo entry) .& bnot 64 1) .| g_bit |>
        <| cp0_pagemask := page_mask entry |>);;
    nanotlb_invalidate;;
    mret EXEC_COMPLETE.

Definition EH_WM : Z := 0xC00000FFFFFFE0FF.

Definition create_tlb_entry_from_cp0 (c : MipsCore) : TlbEntry :=
  let p := cp0 c in
  let g0 := has (cp0_entrylo0 p) 1 in
  let g1 := has (cp0_entrylo1 p) 1 in
  let g_combined := if g0 && g1 then 0x1000 else 0 in
  {| page_mask := cp0_pagemask p;
     entry_hi := ((cp0_entryhi p .& EH_WM) .& bnot 64 0x1000) .| g_combined;
     entry_lo := (cp0_entrylo0 p, cp0_entrylo1 p);
     selector_bit_shift := 0; vcmp32 := 0; vpn_hi32 := 0; vcmp64 := 0; vpn_hi64 := 0;
     offset_mask := 0; pfn_base := (0, 0) |}.

Definition write_tlb (index : Z) (entry : TlbEntry) : M unit := fun e =>
  t ← tlb_write (tlb e) index entry; Some (tt, e <| tlb := t |>).

Definition exec_tlbwi : M Z :=
  c ← gets core;
  t ← gets tlb;
  let index := cp0_index (cp0 c) .& CP0_INDEX_SLOT_MASK in
  if tlb_num_entries t <=? index then handle_exec_complete
  else
    write_tlb index (create_tlb_entry_from_cp0 c);;
    nanotlb_invalidate;;
    handle_exec_complete.

Definition exec_tlbwr : M Z :=
  upd_core update_random;;
  c ← gets core;
  t ← gets tlb;
  let index := cp0_random (cp0 c) mod tlb_num_entries t in
  write_tlb index (create_tlb_entry_from_cp0 c);;
  nanotlb_invalidate;;
  handle_exec_complete.

Definition exec_tlbp : M Z :=
  c ← gets core;
  t ← gets tlb;
  let virt_addr := cp0_entryhi (cp0 c) .& bnot 64 0xFF in
  let asid := cp0_entryhi (cp0 c) .& 0xFF in
  upd_cp0 (fun p => p <| cp0_index := tlb_probe t virt_addr asid (is_xtlb_address c virt_addr) |>);;
  mret EXEC_COMPLETE.

(** The stall: each observation is the pending word other threads left and
    the time since the stall began. *)
Fixpoint wait_loop (obs : list (Z * Z)) (issued : Z) : M unit :=
  match obs with
  | [] => fun _ => None
  | (pending, elapsed_ns) :: obs' =>
      modify (fun e => e <| core ::= (fun c => c <| tm ::= (fun t =>
                                t <| CpuTimer.interrupts := pending |>) |>) |> <| wait_obs := obs' |>);;
      c ← gets core;
      if has pending (SOFT_RESET_BIT .| HOST_PARK_BIT) then mret tt
      else if has ((cp0_cause (cp0 c) .| u32 pending) .& CAUSE_IP_MASK)
                  (cp0_status (cp0 c) .& STATUS_IM_MASK) then mret tt
      else
        let want := elapsed_ns / 10 in
        when_ (issued <? want)
          (upd_core (fun c => c <| tm ::= (fun t =>
             t <| CpuTimer.cycles ::= (fun n => u64 (n + (want - issued))) |>) |>));;
        wait_loop obs' (Z.max issued want)
  end.

Definition exec_wait : M Z :=
  c ← gets core;
  if negb (interrupts_enabled c) then mret EXEC_RETRY
  else
    status ← handle_exec_complete;
    obs ← gets wait_obs;
    wait_loop obs 0;;
    mret status.

Definition exec_eret : M Z :=
  c ← gets core;
  let erl := has (cp0_status (cp0 c)) STATUS_ERL in
  upd_cp0 (fun p => p <| cp0_status ::= (fun s =>
    s .& bnot 32 (if erl then STATUS_ERL else STATUS_EXL)) |>);;
  upd_cache (fun m => set_llbit m false);;
  resync_privilege_state;;
  upd_core (fun c' => c' <| pc := if erl then cp0_errorepc (cp0 c) else cp0_epc (cp0 c) |>
                         <| in_delay_slot := false |>);;
  check_pc_alignment.

Definition exec_tlb (d : DecodedInstr) : M Z :=
  if funct d =? FUNCT_TLBR then exec_tlbr;; handle_exec_complete
  else if funct d =? FUNCT_TLBWI then exec_tlbwi
  else if funct d =? FUNCT_TLBWR then exec_tlbwr
  else if funct d =? FUNCT_TLBP then exec_tlbp;; handle_exec_complete
  else if funct d =? FUNCT_ERET then exec_eret
  else if funct d =? FUNCT_WAIT then exec_wait
  else exec_reserved d.

Definition exec_cop0 (d : DecodedInstr) : M Z :=
  c ← gets core;
  if negb (cp0_usable c) then cpu_unusable 0
  else if rs d =? RS_MFC0 then exec_mfc0 d
  else if rs d =? RS_DMFC0 then exec_dmfc0 d
  else if rs d =? RS_MTC0 then exec_mtc0 d
  else if rs d =? RS_DMTC0 then exec_dmtc0 d
  else if rs d =? RS_TLB then exec_tlb d
  else exec_reserved d.

(** ** Floating point

    Every handler first checks that coprocessor 1 is usable.  The moves, loads,
    stores and the branch are translated; the arithmetic, conversions and
    compares run on the host's FPU and have no result here once they are past
    that check. *)

Definition fp_guarded (m : M Z) : M Z :=
  c ← gets core;
  if negb (has (cp0_status (cp0 c)) STATUS_CU1) then cpu_unusable 1 else m.

(** An access to an FPR through the accessors [update_fpr_mode] selected.  The
    [_d] accessors move the same 64 bits as the [_l] ones. *)
Definition fpr_read (fr1 fr0 : MipsCore -> Z -> option Z) (reg : Z) : M Z := fun e =>
  v ← (if fpr_fr e then fr1 else fr0) (core e) reg; Some (v, e).
Definition fpr_write (fr1 fr0 : MipsCore -> Z -> Z -> option MipsCore) (reg v : Z) : M unit := fun e =>
  c ← (if fpr_fr e then fr1 else fr0) (core e) reg v; Some (tt, e <| core := c |>).

Definition fpr_read_l : Z -> M Z := fpr_read read_fpr_l_fr1 read_fpr_l_fr0.
Definition fpr_write_l : Z -> Z -> M unit := fpr_write write_fpr_l_fr1 write_fpr_l_fr0.
Definition fpr_read_w : Z -> M Z := fpr_read read_fpr_w_fr1 read_fpr_w_fr0.
Definition fpr_write_w : Z -> Z -> M unit := fpr_write write_fpr_w_fr1 write_fpr_w_fr0.

Definition exec_mfc1 (d : DecodedInstr) : M Z := fp_guarded
  (value ← fpr_read_w (rd d); set_gpr (rt d) (sext32 value);; handle_exec_complete).
Definition exec_dmfc1 (d : DecodedInstr) : M Z := fp_guarded
  (value ← fpr_read_l (rd d); set_gpr (rt d) value;; handle_exec_complete).
Definition exec_cfc1 (d : DecodedInstr) : M Z := fp_guarded
  (value ← get_core (fun c => read_fpu_control c (rd d));
   set_gpr (rt d) (sext32 value);; handle_exec_complete).
Definition exec_mtc1 (d : DecodedInstr) : M Z := fp_guarded
  (rt_val ← gpr_ (rt d); fpr_write_w (rd d) (u32 rt_val);; handle_exec_complete).
Definition exec_dmtc1 (d : DecodedInstr) : M Z := fp_guarded
  (rt_val ← gpr_ (rt d); fpr_write_l (rd d) rt_val;; handle_exec_complete).

Definition exec_ctc1 (d : DecodedInstr) : M Z := fp_guarded
  (rt_val ← gpr_ (rt d);
   upd_core (fun c => write_fpu_control c (rd d) (u32 rt_val));;
   fcsr ← get_core (fun c => fpu_fcsr (fpu c));
   if (rd d =? 31) && (has fcsr FCSR_CE || has ((fcsr .& FCSR_CM) .>> 5) (fcsr .& FCSR_EM))
   then raise EXC_FPE else handle_exec_complete).

Definition exec_bc1 (d : DecodedInstr) : M Z := fp_guarded
  (p ← get_core pc;
   cc ← get_core (fun c => get_fpu_cc c ((raw d .>> 18) .& 0x7));
   let condition := if has (rt d) 1 then cc else negb cc in
   if condition : bool then branch_delay (branch_target d p)
   else if has (rt d) 2 then handle_branch_likely_skip
   else handle_branch_not_taken).

(** [base + index] of the COP1X forms. *)
Definition index_of (d : DecodedInstr) : M Z :=
  base ← gpr_ (rs d); index ← gpr_ (rt d); mret (u64 (base + index)).

Definition fp_load (addr : M Z) (size : Z) (put : Z -> M unit) : M Z := fp_guarded
  (virt_addr ← addr;
   r ← read_data model size virt_addr;
   match r with
   | inl value => put value;; handle_exec_complete
   | inr status => finish_status status
   end).

Definition fp_store (addr : M Z) (size : Z) (get : M Z) : M Z := fp_guarded
  (virt_addr ← addr;
   value ← get;
   status ← write_data model size virt_addr value;
   finish_status status).

Definition exec_lwc1 d := fp_load (addr_of d) 4 (fun v => fpr_write_w (rt d) (u32 v)).
Definition exec_ldc1 d := fp_load (addr_of d) 8 (fpr_write_l (rt d)).
Definition exec_swc1 d := fp_store (addr_of d) 4 (fpr_read_w (rt d)).
Definition exec_sdc1 d := fp_store (addr_of d) 8 (fpr_read_l (rt d)).
Definition exec_lwxc1 d := fp_load (index_of d) 4 (fun v => fpr_write_w (sa d) (u32 v)).
Definition exec_ldxc1 d := fp_load (index_of d) 8 (fpr_write_l (sa d)).
Definition exec_swxc1 d := fp_store (index_of d) 4 (fpr_read_w (rd d)).
Definition exec_sdxc1 d := fp_store (index_of d) 8 (fpr_read_l (rd d)).
Definition exec_prefx (d : DecodedInstr) : M Z := fp_guarded handle_exec_complete.

(** [fd <- fs] when [b]. *)
Definition fp_move (d : DecodedInstr) (b : M bool) (get : Z -> M Z) (put : Z -> Z -> M unit) : M Z := fp_guarded
  (taken ← b;
   when_ taken (v ← get (rd d); put (sa d) v);;
   handle_exec_complete).

Definition fp_cond (d : DecodedInstr) : M bool :=
  get_core (fun c => bool_decide (get_fpu_cc c ((raw d .>> 18) .& 0x7) = negb ((raw d .>> 16) .& 0x1 =? 0))).
Definition fp_zero (d : DecodedInstr) : M bool := v ← gpr_ (rt d); mret (v =? 0).
Definition fp_nonzero (d : DecodedInstr) : M bool := v ← gpr_ (rt d); mret (negb (v =? 0)).

Definition exec_fmov_s d := fp_move d (mret true) fpr_read_l fpr_write_l.
Definition exec_fmov_d d := fp_move d (mret true) fpr_read_l fpr_write_l.
Definition exec_fmovcf_s d := fp_move d (fp_cond d) fpr_read_w fpr_write_w.
Definition exec_fmovcf_d d := fp_move d (fp_cond d) fpr_read_l fpr_write_l.
Definition exec_fmovz_s d := fp_move d (fp_zero d) fpr_read_w fpr_write_w.
Definition exec_fmovz_d d := fp_move d (fp_zero d) fpr_read_l fpr_write_l.
Definition exec_fmovn_s d := fp_move d (fp_nonzero d) fpr_read_w fpr_write_w.
Definition exec_fmovn_d d := fp_move d (fp_nonzero d) fpr_read_l fpr_write_l.

(** The arithmetic handlers, as far as they are modelled. *)
Definition exec_fp_arith (d : DecodedInstr) : M Z := fp_guarded (fun _ => None).

(** ** Dispatch *)

Definition handler_fn (h : Handler) : DecodedInstr -> M Z :=
  match h with
  | H_sll => exec_sll | H_movci => exec_movci | H_reserved => exec_reserved
  | H_srl => exec_srl | H_sra => exec_sra | H_sllv => exec_sllv
  | H_srlv => exec_srlv | H_srav => exec_srav | H_jr_nop => exec_jr_nop
  | H_jr => exec_jr | H_jalr => exec_jalr | H_movz => exec_movz
  | H_movn => exec_movn | H_syscall => exec_syscall | H_break => exec_break
  | H_sync => exec_sync | H_mfhi => exec_mfhi | H_mthi => exec_mthi
  | H_mflo => exec_mflo | H_mtlo => exec_mtlo | H_dsllv => exec_dsllv
  | H_dsrlv => exec_dsrlv | H_dsrav => exec_dsrav | H_mult => exec_mult
  | H_multu => exec_multu | H_div => exec_div | H_divu => exec_divu
  | H_dmult => exec_dmult | H_dmultu => exec_dmultu | H_ddiv => exec_ddiv
  | H_ddivu => exec_ddivu | H_add => exec_add | H_addu_ls => exec_addu_ls
  | H_addu => exec_addu | H_sub => exec_sub | H_subu_ls => exec_subu_ls
  | H_subu => exec_subu | H_and => exec_and | H_or => exec_or
  | H_xor => exec_xor | H_nor => exec_nor | H_slt => exec_slt
  | H_sltu => exec_sltu | H_dadd => exec_dadd | H_daddu => exec_daddu
  | H_dsub => exec_dsub | H_dsubu => exec_dsubu | H_tge => exec_tge
  | H_tgeu => exec_tgeu | H_tlt => exec_tlt | H_tltu => exec_tltu
  | H_teq => exec_teq | H_tne => exec_tne | H_dsll => exec_dsll
  | H_dsrl => exec_dsrl | H_dsra => exec_dsra | H_dsll32 => exec_dsll32
  | H_dsrl32 => exec_dsrl32 | H_dsra32 => exec_dsra32 | H_bltz => exec_bltz
  | H_bgez => exec_bgez | H_bltzl_ri => exec_bltzl_ri | H_bgezl_ri => exec_bgezl_ri
  | H_tgei => exec_tgei | H_tgeiu => exec_tgeiu | H_tlti => exec_tlti
  | H_tltiu => exec_tltiu | H_teqi => exec_teqi | H_tnei => exec_tnei
  | H_bltzal => exec_bltzal | H_bgezal => exec_bgezal | H_bltzall => exec_bltzall
  | H_bgezall => exec_bgezall | H_j_nop => exec_j_nop | H_j => exec_j
  | H_jal_nop => exec_jal_nop | H_jal => exec_jal | H_beq_nop => exec_beq_nop
  | H_beq => exec_beq | H_bne_nop => exec_bne_nop | H_bne => exec_bne
  | H_blez => exec_blez | H_bgtz => exec_bgtz | H_beql => exec_beql
  | H_bnel => exec_bnel | H_blezl => exec_blezl | H_bgtzl => exec_bgtzl
  | H_addi => exec_addi | H_addiu_ls => exec_addiu_ls | H_addiu => exec_addiu
  | H_daddi => exec_daddi | H_daddiu => exec_daddiu | H_slti => exec_slti
  | H_sltiu => exec_sltiu | H_andi => exec_andi | H_ori => exec_ori
  | H_xori => exec_xori | H_lui_simm32 => exec_lui_simm32
  | H_lui_imm32 => exec_lui_imm32 | H_lui => exec_lui | H_cop0 => exec_cop0
  | H_lb => exec_lb | H_lh => exec_lh | H_lwl => exec_lwl | H_lw => exec_lw
  | H_lbu => exec_lbu | H_lhu => exec_lhu | H_lwr => exec_lwr
  | H_lwu => exec_lwu | H_sb => exec_sb | H_sh => exec_sh | H_swl => exec_swl
  | H_sw => exec_sw | H_sdl => exec_sdl | H_sdr => exec_sdr | H_swr => exec_swr
  | H_cache => exec_cache | H_ll => exec_ll | H_ldl => exec_ldl
  | H_ldr => exec_ldr | H_ld => exec_ld | H_sc => exec_sc | H_sd => exec_sd
  | H_pref => exec_pref | H_lld => exec_lld | H_scd => exec_scd
  | H_mfc1 => exec_mfc1 | H_dmfc1 => exec_dmfc1 | H_cfc1 => exec_cfc1 | H_mtc1 => exec_mtc1
  | H_dmtc1 => exec_dmtc1 | H_ctc1 => exec_ctc1 | H_bc1 => exec_bc1 | H_lwc1 => exec_lwc1
  | H_ldc1 => exec_ldc1 | H_swc1 => exec_swc1 | H_sdc1 => exec_sdc1 | H_lwxc1 => exec_lwxc1
  | H_ldxc1 => exec_ldxc1 | H_swxc1 => exec_swxc1 | H_sdxc1 => exec_sdxc1 | H_prefx => exec_prefx
  | H_fmov_s => exec_fmov_s | H_fmov_d => exec_fmov_d | H_fmovcf_s => exec_fmovcf_s
  | H_fmovcf_d => exec_fmovcf_d | H_fmovz_s => exec_fmovz_s | H_fmovz_d => exec_fmovz_d
  | H_fmovn_s => exec_fmovn_s | H_fmovn_d => exec_fmovn_d
  | _ => exec_fp_arith
  end.

Definition exec_decoded_int (d : DecodedInstr) : M Z :=
  match handler d with
  | Some h => handler_fn h d
  | None => fun _ => None
  end.

(** ** One step *)

Definition step_cycles : M unit :=
  upd_core (fun c => c <| tm ::= (fun t => t <| CpuTimer.cycles ::= (fun n => u64 (n + 1)) |>) |>).

(** [Some status]: the preamble ended the step. *)
Definition step_preamble : M (option Z) :=
  step_cycles;;
  c ← gets core;
  let pending := CpuTimer.interrupts (tm c) in
  if pending .| cp0_cause (cp0 c) =? 0 then mret None
  else if has pending SOFT_RESET_BIT then
    now ← gets host_now;
    upd_core (fun c => reset c true now);;
    resync_privilege_state;;
    upd_core (fun c => c <| in_delay_slot := false |> <| delay_slot_target := 0 |>);;
    mret (Some EXEC_RETRY)
  else
    upd_cp0 (fun p => p <| cp0_cause := (cp0_cause p .& bnot 32 EXT_INT_MASK)
                                          .| (u32 pending .& EXT_INT_MASK) |>);;
    c ← gets core;
    let ip := cp0_cause (cp0 c) .& CAUSE_IP_MASK in
    let im := cp0_status (cp0 c) .& STATUS_IM_MASK in
    if interrupts_enabled c && has ip im then s ← raise EXC_INT; mret (Some s)
    else mret None.

(** The slot [fetch_instr] returned is decoded in place if it is not yet. *)
Definition decode_slot (va : Z) (cached : bool) (pa : Z) (d : DecodedInstr) : M DecodedInstr :=
  if flags d =? 0 then mret d
  else
    let d' := decode_into (fusion model) (MIPS4 model) d in
    (if cached then upd_cache (fun c => cache_put c va pa d')
     else modify (fun e => e <| ins := d' |>));;
    mret d'.

Definition step_int : M Z :=
  early ← step_preamble;
  match early with
  | Some status => mret status
  | None =>
      p ← get_core pc;
      fetch ← fetch_instr model p;
      match fetch with
      | FetchHit cached pa d => d' ← decode_slot p cached pa d; exec_decoded_int d'
      | FetchFail status =>
          if has status EXEC_IS_EXCEPTION then handle_exception status else mret status
      end
  end.

End instr.

End CpuInstr.
