(* ===== verification/CpuPages.v ===== *)
(** * Translation is uniform over a 4 KiB page

    The translation caches keep a page's frame and rebuild addresses from it,
    so what the slow path answers for one address of a page must determine
    what it answers for the others. *)

From S2P Require Import Prelude Tlb CpuTimer CpuCore CpuDecode CpuExec.

(** ** The MIPS address space: a specification of address translation

    [segment] says what the addressing mode, the privilege and the address
    alone decide: an unmapped window (with its physical address and cache
    attribute), a segment the TLB maps, or an address error.  The executor's
    [translate_32bit_impl]/[translate_64bit_impl] are this classification
    followed by a TLB lookup ([translate_at_segment]). *)

Module CpuSegments.

Import Tlb CpuCore CpuDecode CpuExec.

Inductive Segment :=
| Unmapped (pa c : Z)
| Mapped (xtlb : bool)
| AddressError.

Section segments.
Context (model : CpuModel).

Definition kernel_only (priv : PrivilegeMode) (s : Segment) : Segment :=
  if is_kernel priv then s else AddressError.
Definition kernel_or_supervisor (priv : PrivilegeMode) (s : Segment) : Segment :=
  if is_kernel priv || is_supervisor priv then s else AddressError.

Definition segment32 (priv : PrivilegeMode) (status config va : Z) : Segment :=
  let seg := u32 va .>> 29 in
  if seg <=? 3 then
    if has status STATUS_ERL then Unmapped (u32 va) TR_UNCACHED else Mapped false
  else if seg =? 4 then
    kernel_only priv (Unmapped (u32 va .& 0x1FFFFFFF) (decode_cache_attr model config))
  else if seg =? 5 then kernel_only priv (Unmapped (u32 va .& 0x1FFFFFFF) TR_UNCACHED)
  else if seg =? 6 then kernel_or_supervisor priv (Mapped false)
  else kernel_only priv (Mapped false).

Definition ckseg (config va : Z) : Segment :=
  let seg := (u32 va .>> 29) .& 0x7 in
  if va .>> 32 =? 0xFFFFFFFF then
    if seg =? 4 then Unmapped (u32 va .& 0x1FFFFFFF) (decode_cache_attr model config)
    else if seg =? 5 then Unmapped (u32 va .& 0x1FFFFFFF) TR_UNCACHED
    else Mapped true
  else Mapped true.

Definition segment64 (priv : PrivilegeMode) (status config va : Z) : Segment :=
  let top := va .>> 62 in
  if top =? 0 then
    if negb (va .>> 40 =? 0) then AddressError
    else if has status STATUS_ERL then Unmapped (fold_phys model va) TR_UNCACHED
    else Mapped true
  else if top =? 1 then kernel_or_supervisor priv (Mapped true)
  else if top =? 2 then
    let c := (va .>> 59) .& 0x7 in
    if (2 <=? c) && (c <=? 7) then
      kernel_only priv (Unmapped (fold_phys model (va .& 0x07FFFFFFFFFFFFFF)) (decode_cache_attr model c))
    else AddressError
  else kernel_only priv (ckseg config va).

Definition segment (is64 : bool) (priv : PrivilegeMode) (status config va : Z) : Segment :=
  if is64 then segment64 priv status config va else segment32 priv status config va.

(** What a lookup result means to the access. *)
Definition of_tlb (xtlb : bool) (at_ : AccessType) (r : TlbResult) : TranslateResult :=
  let code := if is_write at_ then EXC_TLBS else EXC_TLBL in
  match r with
  | Hit pa c dirty global =>
      if is_write at_ && negb dirty then tr_exc (exec_exception EXC_MOD)
      else tr_ok_mapped (fold_phys model pa) (CacheAttr_code c) global
  | Miss _ => tr_exc (if xtlb then exec_xtlb_miss code else exec_tlb_miss code)
  | Invalid _ => tr_exc (exec_exception code)
  | Modified _ => tr_exc (exec_exception EXC_MOD)
  end.

Definition address_error_result (at_ : AccessType) : TranslateResult :=
  tr_exc (exec_exception (if is_write at_ then EXC_ADES else EXC_ADEL)).

Context {T C : Type} `{TlbOps T} `{MemOps C}.

Lemma translate_at_segment debug is64 priv va at_ (e : Exec T C) :
  translate_at model debug is64 priv va at_ e =
  match segment is64 priv (cp0_status (cp0 (core e))) (cp0_config (cp0 (core e))) va with
  | Unmapped pa c => Some (tr_ok pa c, e)
  | Mapped xtlb => tlb_translate_impl model debug xtlb va at_ e
  | AddressError => address_error debug va at_ e
  end.
Proof.
  unfold translate_at, translate_64bit_impl, translate_32bit_impl, segment, segment64, segment32,
    ckseg, kernel_only, kernel_or_supervisor, kseg0_cache_attr, mbind, M_bind, mret, M_ret, gets.
  destruct is64; repeat case_match; congruence.
Qed.

End segments.

End CpuSegments.

Module CpuPages.

Import Tlb CpuCore CpuDecode CpuExec CpuSegments.

Definition page (va : Z) : Z := va .& bnot 64 0xFFF.

(** The address [va] becomes in the frame of [pa]. *)
Definition at_page (pa va : Z) : Z := (pa .& bnot 64 0xFFF) .| (va .& 0xFFF).

Definition same_page (va va' : Z) : Prop := va .>> 12 = va' .>> 12.

Lemma same_page_bit va va' i : same_page va va' -> 12 <= i -> Z.testbit va i = Z.testbit va' i.
Proof.
  intros Hs Hi. replace i with ((i - 12) + 12) by lia.
  rewrite <- !Z.shiftr_spec by lia. by rewrite Hs.
Qed.

Lemma mask_bit i : 0 <= i -> Z.testbit 0xFFF i = (i <? 12).
Proof. intros. change 0xFFF with (Z.ones 12). by apply ones_testbit. Qed.

Lemma page_mask_bit i : 0 <= i -> Z.testbit (bnot 64 0xFFF) i = (12 <=? i) && (i <? 64).
Proof.
  intros. unfold bnot. rewrite Z.land_spec, Z.lnot_spec, mask_bit, ones_testbit by lia.
  zbits_split; reflexivity.
Qed.

Lemma at_page_bit pa va i :
  0 <= i -> fits 64 pa ->
  Z.testbit (at_page pa va) i = if i <? 12 then Z.testbit va i else Z.testbit pa i.
Proof.
  intros Hi Hpa. unfold at_page. rewrite Z.lor_spec, !Z.land_spec, page_mask_bit, mask_bit by lia.
  destruct (Z.ltb_spec i 12); destruct (Z.leb_spec 12 i); try lia; simpl.
  - by rewrite andb_false_r, andb_true_r.
  - destruct (Z.ltb_spec i 64); rewrite ?andb_true_r, ?andb_false_r, ?orb_false_r; [done|].
    by rewrite (fits_testbit 64 pa) by (done || lia).
Qed.

Lemma page_same va va' : fits 64 va -> fits 64 va' -> page va = page va' <-> same_page va va'.
Proof.
  intros Hv Hv'. split.
  - intros Hp. apply Z.bits_inj'. intros i Hi. rewrite !Z.shiftr_spec by lia.
    destruct (Z.ltb_spec (i + 12) 64).
    + assert (Hb : Z.testbit (page va) (i + 12) = Z.testbit (page va') (i + 12)) by by rewrite Hp.
      unfold page in Hb. rewrite !Z.land_spec, page_mask_bit in Hb by lia.
      destruct (Z.leb_spec 12 (i + 12)); [|lia]. destruct (Z.ltb_spec (i + 12) 64); [|lia].
      by rewrite !andb_true_r in Hb.
    + by rewrite !(fits_testbit 64) by (done || lia).
  - intros Hs. apply Z.bits_inj'. intros i Hi. unfold page. rewrite !Z.land_spec, page_mask_bit by lia.
    destruct (Z.leb_spec 12 i); [|by rewrite !andb_false_r].
    by rewrite (same_page_bit va va' i).
Qed.

Lemma at_page_self pa : fits 64 pa -> at_page pa pa = pa.
Proof.
  intros. apply Z.bits_inj'. intros i Hi. rewrite at_page_bit by done. by case_match.
Qed.

Lemma at_page_fits pa va : fits 64 pa -> fits 64 (at_page pa va).
Proof.
  intros. apply lor_fits; [lia|apply land_fits_l; [lia|done]|].
  apply (fits_mono 12); [|lia]. apply land_fits_r; [lia|]. split; [lia|done].
Qed.

Lemma at_page_arith pa va : fits 64 pa -> at_page pa va = (pa / 4096) * 4096 + va mod 4096.
Proof.
  intros Hpa. change 4096 with (2 ^ 12). rewrite <- lor_block;
    [|lia|apply Z.mod_pos_bound; lia].
  apply Z.bits_inj'. intros i Hi. rewrite at_page_bit by done.
  rewrite Z.lor_spec. rewrite <- Z.shiftr_div_pow2, <- Z.shiftl_mul_pow2 by lia.
  fold (wrap 12 va). rewrite shiftl_testbit, wrap_testbit by lia.
  destruct (Z.ltb_spec i 12); destruct (Z.leb_spec 12 i); try lia; simpl; [done|].
  rewrite Z.shiftr_spec, orb_false_r by lia. f_equal. lia.
Qed.

(** ** Physical address folding *)

(** The board's alias and mask work on whole pages. *)
Definition page_aligned (x : Z) : Prop := exists q, x = q * 4096 /\ 0 <= q < 2 ^ 52.

Record model_ok (m : CpuModel) : Prop := {
  mo_alias : match phys_alias m with
             | Some (base, size, target) => page_aligned base /\ page_aligned size /\ page_aligned target
             | None => True
             end;
  mo_mask : fits 64 (phys_mask m) /\ Z.land (phys_mask m) 0xFFF = 0xFFF;
}.

Lemma u64_shift_page x q r : 0 <= r < 4096 -> x = q * 4096 + r -> u64 x = (q mod 2 ^ 52) * 4096 + r.
Proof.
  intros Hr ->. unfold u64, wrap. change (2 ^ 64) with (2 ^ 52 * 4096).
  rewrite (Z.div_mod q (2 ^ 52)) at 1 by lia.
  replace ((2 ^ 52 * (q / 2 ^ 52) + q mod 2 ^ 52) * 4096 + r)
    with ((q mod 2 ^ 52) * 4096 + r + (q / 2 ^ 52) * (2 ^ 52 * 4096)) by ring.
  rewrite Z.mod_add by lia. apply Z.mod_small.
  pose proof (Z.mod_pos_bound q (2 ^ 52) ltac:(lia)). lia.
Qed.

Lemma land_page pa va' m :
  fits 64 pa -> Z.land m 0xFFF = 0xFFF -> at_page pa va' .& m = at_page (pa .& m) va'.
Proof.
  intros Hx Hm. apply Z.bits_inj'. intros i Hi. rewrite Z.land_spec, !at_page_bit
    by (done || by apply land_fits_l).
  destruct (Z.ltb_spec i 12); [|by rewrite Z.land_spec].
  assert (Hb : Z.testbit (m .& 0xFFF) i = true) by (rewrite Hm, mask_bit; lia).
  rewrite Z.land_spec in Hb. apply andb_true_iff in Hb as [-> _]. apply andb_true_r.
Qed.

Lemma fold_phys_page m pa va :
  model_ok m -> fits 64 pa -> fold_phys m (at_page pa va) = at_page (fold_phys m pa) va.
Proof.
  intros [Ha [Hmf Hm]] Hpa. unfold fold_phys. set (msk := phys_mask m) in *.
  assert (Hmask : forall x, fits 64 x -> at_page x va .& msk = at_page (x .& msk) va)
    by (intros; by apply land_page).
  destruct (phys_alias m) as [[[base size] target]|]; [|by apply Hmask].
  destruct Ha as ((b & -> & Hb) & (s & -> & Hs) & (t & -> & Ht)).
  pose proof (Z.div_mod pa 4096 ltac:(lia)) as Hd. pose proof (Z.mod_pos_bound pa 4096 ltac:(lia)).
  pose proof (Z.mod_pos_bound va 4096 ltac:(lia)).
  rewrite !at_page_arith by done.
  rewrite (u64_shift_page (pa - b * 4096) (pa / 4096 - b) (pa mod 4096)) by lia.
  rewrite (u64_shift_page (pa / 4096 * 4096 + va mod 4096 - b * 4096) (pa / 4096 - b) (va mod 4096)) by lia.
  set (k := (pa / 4096 - b) mod 2 ^ 52).
  replace (k * 4096 + va mod 4096 <? s * 4096) with (k * 4096 + pa mod 4096 <? s * 4096)
    by (destruct (Z.ltb_spec (k * 4096 + pa mod 4096) (s * 4096)),
          (Z.ltb_spec (k * 4096 + va mod 4096) (s * 4096)); lia).
  destruct (Z.ltb_spec (k * 4096 + pa mod 4096) (s * 4096)).
  - rewrite <- Hmask by (apply wrap_fits; lia). f_equal. rewrite at_page_arith by (apply wrap_fits; lia).
    rewrite (u64_shift_page (pa / 4096 * 4096 + va mod 4096 - b * 4096 + t * 4096)
               (pa / 4096 - b + t) (va mod 4096)) by lia.
    rewrite (u64_shift_page (pa - b * 4096 + t * 4096) (pa / 4096 - b + t) (pa mod 4096)) by lia.
    rewrite Z.div_add_l, (Z.div_small (pa mod 4096)) by lia. lia.
  - rewrite <- (at_page_arith pa va) by done. by apply Hmask.
Qed.

(** ** Segments *)

Definition at_segment (s : Segment) (va : Z) : Segment :=
  match s with
  | Unmapped pa c => Unmapped (at_page pa va) c
  | _ => s
  end.

Lemma shiftr_page va va' k : same_page va va' -> 12 <= k -> va .>> k = va' .>> k.
Proof.
  intros Hs Hk. replace k with (12 + (k - 12)) by lia. rewrite <- !Z.shiftr_shiftr by lia. by rewrite Hs.
Qed.

Lemma shiftr32_page va va' : same_page va va' -> u32 va .>> 29 = u32 va' .>> 29.
Proof.
  intros Hs. unfold u32. zbits. apply same_page_bit; [done|lia].
Qed.

Lemma u32_page va va' : same_page va va' -> u32 va' = at_page (u32 va) va'.
Proof.
  intros Hs. apply Z.bits_inj'. intros i Hi. unfold u32.
  rewrite at_page_bit, !wrap_testbit by (done || lia || (apply (fits_mono 32); [apply wrap_fits; lia|lia])).
  destruct (Z.ltb_spec i 12); destruct (Z.ltb_spec i 32); try lia; simpl; try done.
  symmetry. apply same_page_bit; [done|lia].
Qed.

Lemma self_page va va' : same_page va va' -> fits 64 va -> fits 64 va' -> va' = at_page va va'.
Proof.
  intros Hs Hv Hv'. apply Z.bits_inj'. intros i Hi. rewrite at_page_bit by done.
  case_match; [done|]. symmetry. apply same_page_bit; [done|]. by apply Z.ltb_ge.
Qed.

Lemma segment_page m is64 priv status config va va' :
  model_ok m -> fits 64 va -> fits 64 va' -> same_page va va' ->
  segment m is64 priv status config va' = at_segment (segment m is64 priv status config va) va'.
Proof.
  intros Hm Hv Hv' Hs.
  assert (Hu : fits 64 (u32 va)) by (apply (fits_mono 32); [apply wrap_fits; lia|lia]).
  unfold segment, segment32, segment64, ckseg, kernel_only, kernel_or_supervisor.
  rewrite <- (shiftr32_page va va' Hs), <- !(shiftr_page va va' _ Hs) by lia.
  rewrite (u32_page va va' Hs).
  destruct is64; repeat case_match; simplify_eq; cbn [at_segment]; try done;
    try (f_equal; apply land_page; done).
  - rewrite (self_page va va') at 1 by done. f_equal. by apply fold_phys_page.
  - f_equal. rewrite (self_page va va') at 1 by done. rewrite land_page by done.
    apply fold_phys_page; [done|]. apply land_fits_l; [lia|done].
Qed.

End CpuPages.
