(* ===== verification/TlbShape.v ===== *)
(** * The TLB for any guest: shape invariant and deterministic view

    [TlbSpec.wf] describes TLBs whose entries have architected page masks and
    whose vmap claims every live entry.  The executor needs less and meets
    more: its TLB starts with [set_cache_attrs] on a new one, and a guest may
    write any PageMask.  [shape] holds in all of these states; under it every
    lookup returns, and as long as at most one live shadow matches the answer
    is a function ([view]) of the TLB's contents that does not depend on the
    MRU order and is uniform over a page. *)

From S2P Require Import Prelude Tlb TlbMru TlbVmap TlbSpec TlbRefine TlbOps.
Import Tlb TlbMru TlbVmap TlbSpec TlbRefine TlbOps.

Module TlbShape.

Definition s_matches (is64 : bool) (va as_ : Z) (s : ShadowEntry) : bool :=
  s_vpn_match is64 s va && s_asid_match s as_.

Definition low12 (x : Z) : Z := Z.land x 0xFFF.

Record shadow_ok (s : ShadowEntry) : Prop := {
  so_shift : 12 <= s_selector_bit_shift s;
  so_off : fits 64 (s_offset_mask s) /\ low12 (s_offset_mask s) = 0xFFF;
  so_pfn0 : fits 64 (fst (s_pfn_base s)) /\ low12 (fst (s_pfn_base s)) = 0;
  so_pfn1 : fits 64 (snd (s_pfn_base s)) /\ low12 (snd (s_pfn_base s)) = 0;
  so_cmp32 : low12 (s_vcmp32 s) = 0;
  so_cmp64 : low12 (s_vcmp64 s) = 0;
}.

(** Fields in their width, derived fields in step. *)
Definition entry_shape (e : TlbEntry) : Prop :=
  derived e /\ fits 64 (page_mask e) /\ fits 64 (entry_hi e) /\
  fits 64 (fst (entry_lo e)) /\ fits 64 (snd (entry_lo e)).

Record shape (t : MipsTlb) : Prop := {
  sh_num : 1 < num_entries t <= TLB_MAX_ENTRIES;
  sh_entries_len : length (entries t) = Z.to_nat TLB_MAX_ENTRIES;
  sh_shadow_len : length (shadow t) = Z.to_nat TLB_MAX_ENTRIES;
  sh_c_attr : length (c_attr t) = 8%nat;
  sh_mru : lists_ok (num_entries t) (mru_head t) (mru_next t);
  sh_vmap : forall v, slot_ok (num_entries t) (vget (vmap t) v);
  sh_entries : forall i e, aget (entries t) i = Some e -> entry_shape e;
  sh_shadow : forall i s, aget (shadow t) i = Some s -> shadow_ok s;
}.

(** ** Derived entries have well-shaped shadows *)

Lemma low12_bits x : (forall i, 0 <= i < 12 -> Z.testbit x i = false) -> low12 x = 0.
Proof.
  intros Hb. apply Z.bits_inj'. intros i Hi. unfold low12. change 0xFFF with (Z.ones 12).
  rewrite Z.land_spec, Z.testbit_0_l, ones_testbit by lia.
  destruct (Z.ltb_spec i 12); [rewrite Hb by lia; done|apply andb_false_r].
Qed.

Lemma low12_bit0 x i : low12 x = 0 -> 0 <= i < 12 -> Z.testbit x i = false.
Proof.
  intros H Hi. assert (Hb : Z.testbit (low12 x) i = false) by (rewrite H; apply Z.testbit_0_l).
  unfold low12 in Hb. change 0xFFF with (Z.ones 12) in Hb.
  rewrite Z.land_spec, ones_testbit in Hb by lia.
  destruct (Z.ltb_spec i 12); [|lia]. by rewrite andb_true_r in Hb.
Qed.

Lemma low12_bit1 x i : low12 x = 0xFFF -> 0 <= i < 12 -> Z.testbit x i = true.
Proof.
  intros H Hi. assert (Hb : Z.testbit (low12 x) i = true).
  { rewrite H. change 0xFFF with (Z.ones 12). rewrite ones_testbit by lia. apply Z.ltb_lt. lia. }
  unfold low12 in Hb. rewrite Z.land_spec in Hb. by apply andb_true_iff in Hb as [? _].
Qed.

Lemma trailing_ones_upto_ge (m n : nat) x :
  (m <= n)%nat -> (forall i, 0 <= i < Z.of_nat m -> Z.testbit x i = true) ->
  Z.of_nat m <= trailing_ones_upto n x <= Z.of_nat n.
Proof.
  revert m x. induction n as [|n IH]; intros m x Hm Hx; cbn [trailing_ones_upto]; [lia|].
  destruct m as [|m].
  - destruct (Z.testbit x 0); [|lia].
    pose proof (IH 0%nat (x .>> 1) ltac:(lia) ltac:(intros; lia)). lia.
  - rewrite (Hx 0) by lia.
    pose proof (IH m (x .>> 1) ltac:(lia)) as IH'.
    assert (forall i, 0 <= i < Z.of_nat m -> Z.testbit (x .>> 1) i = true).
    { intros i Hi. rewrite Z.shiftr_spec by lia. apply Hx. lia. }
    specialize (IH' ltac:(done)). lia.
Qed.

Lemma derive_shift pm hi lo : 12 <= selector_bit_shift (derive pm hi lo) <= 63.
Proof.
  simpl. unfold trailing_ones.
  pose proof (trailing_ones_upto_ge 13 64 (pm .| 0x1FFF) ltac:(lia)) as Ht.
  assert (Hb : forall i, 0 <= i < Z.of_nat 13 -> Z.testbit (pm .| 0x1FFF) i = true).
  { intros i Hi. rewrite Z.lor_spec. change 0x1FFF with (Z.ones 13).
    rewrite ones_testbit by lia. destruct (Z.ltb_spec i 13); [apply orb_true_r|lia]. }
  specialize (Ht Hb). unfold u8. rewrite wrap_small by (split; [lia|]; change (2 ^ 8) with 256; lia). lia.
Qed.

Lemma derive_off pm hi lo :
  offset_mask (derive pm hi lo) = Z.ones (selector_bit_shift (derive pm hi lo)).
Proof.
  pose proof (derive_shift pm hi lo) as Hs.
  change (offset_mask (derive pm hi lo))
    with (u64 (shl 64 1 (selector_bit_shift (derive pm hi lo)) - 1)).
  set (k := selector_bit_shift _) in *. clearbody k. unfold shl, u64.
  rewrite Z.shiftl_1_l. pose proof (Z.pow_le_mono_r 2 k 63).
  pose proof (Z.pow_pos_nonneg 2 k ltac:(lia) ltac:(lia)).
  rewrite !wrap_small by (unfold fits; lia || (rewrite wrap_small by (unfold fits; lia); unfold fits; lia)).
  rewrite Z.ones_equiv. lia.
Qed.

Lemma derived_shadow_ok e ca s : derived e -> from_entry e ca = Some s -> shadow_ok s.
Proof.
  intros Hd Hf. unfold from_entry in Hf. simplify_option_eq. unfold derived in Hd.
  set (pm := page_mask e) in *. set (h := entry_hi e) in *. set (l := entry_lo e) in *.
  pose proof (derive_shift pm h l) as Hs. pose proof (derive_off pm h l) as Ho. rewrite <- Hd in Hs, Ho.
  assert (Hp : forall x, low12 (x .& (PFN_MASK .& bnot 64 (offset_mask e))) = 0).
  { intros x. apply low12_bits. intros i Hi. rewrite !Z.land_spec.
    rewrite (low12_bit0 PFN_MASK i eq_refl Hi). apply andb_false_r. }
  assert (Hc : forall x m, low12 m = 0 -> low12 (x .& m) = 0).
  { intros x m Hm. apply low12_bits. intros i Hi. rewrite Z.land_spec, (low12_bit0 m) by done.
    apply andb_false_r. }
  constructor; cbn [s_selector_bit_shift s_offset_mask s_pfn_base s_vcmp32 s_vcmp64].
  - lia.
  - rewrite Ho. split.
    + pose proof (Z.pow_le_mono_r 2 (selector_bit_shift e) 63).
      pose proof (Z.pow_pos_nonneg 2 (selector_bit_shift e)). unfold fits. rewrite Z.ones_equiv. lia.
    + unfold low12. rewrite Z.land_comm. change 0xFFF with (Z.ones 12).
      apply Z.bits_inj'. intros i Hi. rewrite Z.land_spec, !ones_testbit by lia. zbits_split; done.
  - rewrite Hd. split; [apply land_fits_l; [lia|apply wrap_fits; lia]|]. rewrite Hd in Hp. apply Hp.
  - rewrite Hd. split; [apply land_fits_l; [lia|apply wrap_fits; lia]|]. rewrite Hd in Hp. apply Hp.
  - rewrite Hd. by apply Hc.
  - rewrite Hd. by apply Hc.
Qed.

Lemma shadow_invalid_ok : shadow_ok shadow_invalid.
Proof. constructor; simpl; try done; split; try done; split; done. Qed.

(** ** The view *)

Definition scan_view (t : MipsTlb) (is64 : bool) (va as_ : Z) (at_ : AccessType) : TlbResult :=
  match find (s_matches is64 va as_) (take (Z.to_nat (num_entries t)) (shadow t)) with
  | Some s => s_answer s va at_
  | None => Miss (va .>> 13)
  end.

Definition view (t : MipsTlb) (is64 : bool) (va as_ : Z) (at_ : AccessType) : TlbResult :=
  let slot := vget (vmap t) (u32 va .>> 13) in
  if slot =? VMAP_MISS then Miss (va .>> 13)
  else
    match aget (shadow t) (slot .& VMAP_IDX_MASK) with
    | Some s =>
        if s_matches is64 va as_ s then s_answer s va at_
        else if negb (has slot VMAP_MULTI) then Miss (va .>> 13)
        else scan_view t is64 va as_ at_
    | None => Miss (va .>> 13)
    end.

(** At most one live shadow matches. *)
Definition unambiguous (t : MipsTlb) (is64 : bool) (va as_ : Z) : Prop :=
  forall i j si sj, 0 <= i < num_entries t -> 0 <= j < num_entries t ->
    aget (shadow t) i = Some si -> aget (shadow t) j = Some sj ->
    s_matches is64 va as_ si = true -> s_matches is64 va as_ sj = true -> i = j.

Lemma live_lookup t i s :
  0 <= i < num_entries t ->
  (take (Z.to_nat (num_entries t)) (shadow t)) !! Z.to_nat i = Some s <-> aget (shadow t) i = Some s.
Proof.
  intros Hi. rewrite lookup_take_lt by lia. unfold aget. by rewrite (proj2 (Z.leb_le 0 i)) by lia.
Qed.

Lemma scan_view_outcome t is64 va as_ at_ r :
  scan_outcome t is64 va as_ at_ (seqZ 0 (num_entries t)) r ->
  shape t -> unambiguous t is64 va as_ -> r = scan_view t is64 va as_ at_.
Proof.
  intros Hout Hsh Hun. unfold scan_view.
  destruct (find _ _) as [s|] eqn:E.
  - apply find_some in E as [Hin Hm].
    apply list_elem_of_In, list_elem_of_lookup in Hin as [k Hk].
    pose proof (lookup_lt_Some _ _ _ Hk) as Hlt. rewrite length_take in Hlt.
    assert (Hk' : aget (shadow t) (Z.of_nat k) = Some s).
    { apply live_lookup; [lia|]. by rewrite Nat2Z.id. }
    destruct Hout as [[-> Hno]|(x & s' & Hx%elem_of_seqZ & Hs' & Hm1 & Hm2 & ->)].
    + exfalso. apply (Hno (Z.of_nat k)); [apply elem_of_seqZ; lia|]. exists s.
      by apply andb_true_iff in Hm as [? ?].
    + rewrite (Hun (Z.of_nat k) x s s') in Hk'; try lia; try done;
        [by rewrite Hs' in Hk'; simplify_eq|]. unfold s_matches. by rewrite Hm1, Hm2.
  - destruct Hout as [[-> _]|(x & s' & Hx%elem_of_seqZ & Hs' & Hm1 & Hm2 & ->)]; [done|].
    exfalso. assert (Hf : s_matches is64 va as_ s' = false).
    { eapply find_none; [exact E|]. apply list_elem_of_In, list_elem_of_lookup.
      exists (Z.to_nat x). apply live_lookup; [lia|done]. }
    unfold s_matches in Hf. by rewrite Hm1, Hm2 in Hf.
Qed.

Lemma translate_view t is64 va as_ at_ :
  shape t ->
  exists hs ns r, translate is64 t va as_ at_ = Some (with_mru t hs ns, r) /\
    lists_ok (num_entries t) hs ns /\
    (unambiguous t is64 va as_ -> r = view t is64 va as_ at_).
Proof.
  intros Hsh.
  assert (Hself : with_mru t (mru_head t) (mru_next t) = t) by (by destruct t).
  pose proof (sh_mru t Hsh) as Hmru. pose proof (sh_num t Hsh) as Hnum.
  unfold translate, view. set (v := vget (vmap t) (u32 va .>> 13)).
  destruct (Z.eqb_spec v VMAP_MISS) as [Hv|Hv].
  { exists (mru_head t), (mru_next t), (Miss (va .>> 13)). by rewrite Hself. }
  destruct (sh_vmap t Hsh (u32 va .>> 13)) as [?|[_ Hidx]]; [done|]. fold v in Hidx.
  destruct (aget_Some (shadow t) (v .& VMAP_IDX_MASK)) as [s Hs].
  { rewrite (sh_shadow_len t Hsh). unfold TLB_MAX_ENTRIES in *. lia. }
  rewrite Hs. cbn [mbind option_bind]. fold (s_matches is64 va as_ s).
  destruct (s_matches is64 va as_ s).
  { exists (mru_head t), (mru_next t), (s_answer s va at_). by rewrite Hself. }
  destruct (negb (has v VMAP_MULTI)).
  { exists (mru_head t), (mru_next t), (Miss (va .>> 13)). by rewrite Hself. }
  destruct (scan_ok t is64 va as_ at_) as (hs & ns & r & -> & Hok & Hout); [lia|done|apply Hsh|].
  exists hs, ns, r. split_and!; [done..|]. intros Hun. by apply scan_view_outcome.
Qed.

Lemma with_mru_shape t hs ns :
  shape t -> lists_ok (num_entries t) hs ns -> shape (with_mru t hs ns).
Proof. intros [] ?. by constructor. Qed.

(** ** Uniformity over a page *)

Lemma page_bit va va' i : va .>> 12 = va' .>> 12 -> 12 <= i -> Z.testbit va i = Z.testbit va' i.
Proof.
  intros Hs Hi. replace i with ((i - 12) + 12) by lia. rewrite <- !Z.shiftr_spec by lia. by rewrite Hs.
Qed.

Lemma land_low12 va va' m : va .>> 12 = va' .>> 12 -> low12 m = 0 -> va .& m = va' .& m.
Proof.
  intros Hs Hm. apply Z.bits_inj'. intros i Hi. rewrite !Z.land_spec.
  destruct (Z.ltb_spec i 12).
  - rewrite (low12_bit0 m) by (done || lia). by rewrite !andb_false_r.
  - by rewrite (page_bit va va') by (done || lia).
Qed.

Lemma s_matches_page s is64 va va' as_ :
  shadow_ok s -> va .>> 12 = va' .>> 12 -> s_matches is64 va as_ s = s_matches is64 va' as_ s.
Proof.
  intros Hok Hs. unfold s_matches, s_vpn_match, s_vcmp.
  destruct is64; by rewrite (land_low12 va va') by (done || apply Hok).
Qed.

(** The answer for another address of the page: a hit moves to its offset. *)
Definition at_offset (r : TlbResult) (va' : Z) : TlbResult :=
  match r with
  | Hit pa c d g => Hit ((pa .& bnot 64 0xFFF) .| (va' .& 0xFFF)) c d g
  | Miss _ => Miss (va' .>> 13)
  | Invalid _ => Invalid (va' .>> 13)
  | Modified _ => Modified (va' .>> 13)
  end.

Lemma low12_mask_bit i : 0 <= i -> Z.testbit 0xFFF i = (i <? 12).
Proof. intros. change 0xFFF with (Z.ones 12). by apply ones_testbit. Qed.

Lemma frame_offset pfn off va va' :
  fits 64 off -> low12 off = 0xFFF -> fits 64 pfn -> low12 pfn = 0 -> va .>> 12 = va' .>> 12 ->
  pfn .| (va' .& off) = ((pfn .| (va .& off)) .& bnot 64 0xFFF) .| (va' .& 0xFFF).
Proof.
  intros Ho Ho' Hp Hp' Hs. apply Z.bits_inj'. intros i Hi. unfold bnot.
  rewrite !Z.lor_spec, !Z.land_spec, Z.lor_spec, Z.land_spec, Z.lnot_spec, low12_mask_bit by lia.
  rewrite ones_testbit by lia.
  destruct (Z.ltb_spec i 12); simpl.
  - rewrite (low12_bit1 off), (low12_bit0 pfn) by (done || lia). by rewrite !andb_false_r, andb_true_r.
  - rewrite (page_bit va va'), andb_false_r, orb_false_r by (done || lia).
    destruct (Z.ltb_spec i 64); [by rewrite andb_true_r|].
    by rewrite (fits_testbit 64 off), (fits_testbit 64 pfn), !andb_false_r by (done || lia).
Qed.

Lemma s_answer_page s va va' at_ :
  shadow_ok s -> va .>> 12 = va' .>> 12 -> s_answer s va' at_ = at_offset (s_answer s va at_) va'.
Proof.
  intros Hok Hs. unfold s_answer.
  assert (Hsel : va' .>> s_selector_bit_shift s = va .>> s_selector_bit_shift s).
  { pose proof (so_shift s Hok). replace (s_selector_bit_shift s) with (12 + (s_selector_bit_shift s - 12)) by lia.
    rewrite <- !Z.shiftr_shiftr by lia. by rewrite Hs. }
  rewrite Hsel. destruct (pick (s_valid_dirty s) _ .& 1 =? 0); [done|].
  destruct (bool_decide _ && _); [done|]. cbn [at_offset]. f_equal.
  destruct Hok as [_ [Ho Ho'] [Hp0 Hp0'] [Hp1 Hp1'] _ _].
  unfold pick. case_match; by apply frame_offset.
Qed.

Lemma vmap_key_page va va' : va .>> 12 = va' .>> 12 -> u32 va .>> 13 = u32 va' .>> 13.
Proof. intros Hs. unfold u32. zbits. apply page_bit; [done|lia]. Qed.

Lemma find_ext_in {A} (f g : A -> bool) l : (forall x, x ∈ l -> f x = g x) -> find f l = find g l.
Proof.
  induction l as [|x l IH]; intros Hfg; simpl; [done|]. rewrite Hfg by set_solver.
  destruct (g x); [done|]. apply IH. set_solver.
Qed.

Lemma view_page t is64 va va' as_ at_ :
  shape t -> va .>> 12 = va' .>> 12 ->
  view t is64 va' as_ at_ = at_offset (view t is64 va as_ at_) va'.
Proof.
  intros Hsh Hs. unfold view. rewrite (vmap_key_page va va' Hs).
  destruct (_ =? VMAP_MISS); [done|].
  destruct (aget (shadow t) _) as [s|] eqn:E; [|done].
  pose proof (sh_shadow t Hsh _ _ E) as Hok.
  rewrite <- (s_matches_page s is64 va va' as_ Hok Hs).
  destruct (s_matches _ _ _ s); [by apply s_answer_page|]. destruct (negb _); [done|].
  unfold scan_view.
  rewrite (find_ext_in (s_matches is64 va' as_) (s_matches is64 va as_)).
  - destruct (find _ _) as [s'|] eqn:E'; [|done]. apply s_answer_page; [|done].
    apply find_some in E' as [Hin _]. apply list_elem_of_In, list_elem_of_lookup in Hin as [k Hk].
    apply lookup_take_Some in Hk as [Hk _]. apply (sh_shadow t Hsh (Z.of_nat k)).
    unfold aget. rewrite (proj2 (Z.leb_le 0 (Z.of_nat k))) by lia. by rewrite Nat2Z.id.
  - intros s' Hin. symmetry. apply s_matches_page; [|done].
    apply list_elem_of_lookup in Hin as [k Hk]. apply lookup_take_Some in Hk as [Hk _].
    apply (sh_shadow t Hsh (Z.of_nat k)).
    unfold aget. rewrite (proj2 (Z.leb_le 0 (Z.of_nat k))) by lia. by rewrite Nat2Z.id.
Qed.

Lemma unambiguous_page t is64 va va' as_ :
  shape t -> va .>> 12 = va' .>> 12 -> unambiguous t is64 va as_ -> unambiguous t is64 va' as_.
Proof.
  intros Hsh Hs Hun i j si sj Hi Hj Hsi Hsj Hmi Hmj.
  apply (Hun i j si sj); try done; by rewrite (s_matches_page _ _ va va') by (done || by eapply sh_shadow).
Qed.

(** ** The operations keep the shape *)

Lemma replicate_get {A} (n : nat) (x y : A) i : aget (replicate n x) i = Some y -> y = x.
Proof. intros [_ Hl]%aget_inv. by apply lookup_replicate in Hl as [-> _]. Qed.

Lemma new_shape n t : new n = Some t -> shape t.
Proof.
  intros Hn. pose proof (new_wf n t Hn) as Hwf. unfold new in Hn. case_match; [|done].
  simplify_eq. destruct Hwf. constructor; try done.
  - intros i e ->%replicate_get. split; [apply entry_new_ok|]. by split_and!.
  - intros i s ->%replicate_get. apply shadow_invalid_ok.
Qed.

Lemma insert_get {A} (l : list A) k (x y : A) i :
  aget (<[k := x]> l) i = Some y -> y = x \/ aget l i = Some y.
Proof.
  intros [Hi Hl]%aget_inv. apply list_lookup_insert_Some in Hl as [(_ & -> & _)|[_ Hl]]; [by left|right].
  unfold aget. by rewrite (proj2 (Z.leb_le 0 i)) by lia.
Qed.

Lemma write_shape t index e :
  shape t -> 0 <= index -> fits 64 (page_mask e) -> fits 64 (entry_hi e) ->
  fits 64 (fst (entry_lo e)) -> fits 64 (snd (entry_lo e)) ->
  exists t', write t index e = Some t' /\ shape t' /\ num_entries t' = num_entries t.
Proof.
  intros Hsh Hi Hpm Hhi Hl0 Hl1. unfold write.
  destruct (Z.ltb_spec index (num_entries t)); [|by exists t].
  set (e' := derive _ _ _). pose proof (sh_num t Hsh).
  destruct (aget_Some (entries t) index) as [old ->];
    [rewrite (sh_entries_len t Hsh); unfold TLB_MAX_ENTRIES in *; lia|]. cbn [mbind option_bind].
  rewrite (aset_Some (entries t)) by (rewrite (sh_entries_len t Hsh); unfold TLB_MAX_ENTRIES in *; lia).
  cbn [mbind option_bind]. destruct (from_entry_total e' (c_attr t) (sh_c_attr t Hsh)) as [s Hs].
  rewrite Hs. cbn [mbind option_bind].
  rewrite (aset_Some (shadow t)) by (rewrite (sh_shadow_len t Hsh); unfold TLB_MAX_ENTRIES in *; lia).
  cbn [mbind option_bind].
  destruct (vmap_replace_spec (with_slot t (<[Z.to_nat index:=e']> (entries t))
              (<[Z.to_nat index:=s]> (shadow t))) index old e') as (m & Hm & Hm1 & _).
  - done.
  - simpl. lia.
  - simpl. rewrite length_insert. apply Hsh.
  - cbn [entries with_slot]. unfold aget. rewrite (proj2 (Z.leb_le 0 index)) by lia.
    apply list_lookup_insert_eq. rewrite (sh_entries_len t Hsh). unfold TLB_MAX_ENTRIES in *. lia.
  - apply Hsh.
  - eexists. split; [exact Hm|]. split; [|done]. destruct Hsh.
    constructor; try (simpl; rewrite ?length_insert; done).
    + intros i e0 [->|He]%insert_get; [|by eapply sh_entries0]. split; [done|]. by split_and!.
    + intros i s0 [->|Hs0]%insert_get; [|by eapply sh_shadow0]. by apply (derived_shadow_ok e' (c_attr t)).
Qed.

Lemma set_cache_attrs_shape t table :
  shape t -> length table = 8%nat ->
  exists t', set_cache_attrs t table = Some t' /\ shape t' /\ num_entries t' = num_entries t.
Proof.
  intros Hsh Ht. pose proof (sh_num t Hsh). unfold set_cache_attrs.
  destruct (rebuild_shadows_spec (Z.to_nat (num_entries t)) (entries t) table (shadow t))
    as (ss & -> & Hl & Hlo & Hhi);
    [rewrite ?sh_entries_len, ?sh_shadow_len by done; unfold TLB_MAX_ENTRIES in *; lia..|done|].
  cbn [mbind option_bind]. eexists. split; [done|]. split; [|done].
  destruct Hsh. constructor; try (simpl; rewrite ?Hl; done).
  intros i s [Hi Hs]%aget_inv. cbn [shadow] in Hs.
  destruct (Nat.lt_ge_cases (Z.to_nat i) (Z.to_nat (num_entries t))).
  - destruct (aget_Some (entries t) i) as [e He];
      [rewrite sh_entries_len0; unfold TLB_MAX_ENTRIES in *; lia|].
    pose proof (aget_inv _ _ _ He) as [_ He'].
    destruct (Hlo (Z.to_nat i) e) as (s' & Hf & Hs'); [done|done|]. rewrite Hs in Hs'. simplify_eq.
    eapply derived_shadow_ok; [|exact Hf]. by eapply sh_entries0.
  - apply (sh_shadow0 i). unfold aget. rewrite (proj2 (Z.leb_le 0 i)) by lia. by rewrite <- Hhi.
Qed.

(** What an executor makes of a TLB it is given. *)
Lemma executor_tlb_shape n t table :
  new n = Some t -> length table = 8%nat -> exists t', set_cache_attrs t table = Some t' /\ shape t'.
Proof.
  intros Hn Ht. destruct (set_cache_attrs_shape t table) as (t' & ? & ? & _); [by eapply new_shape|done|eauto].
Qed.

End TlbShape.
