(* ===== verification/CpuLaws.v ===== *)
(** * What the executor relies on: the laws of its TLB and memory system

    [TlbLaws] and [MemLaws] are the contracts the executor's theorems are
    proved against.  [MipsTlb] meets the first in every state a guest can
    bring it to; the passthrough cache meets the second over any bus whose
    reads are in range. *)

From S2P Require Import Prelude Tlb TlbMru TlbVmap TlbSpec TlbRefine TlbOps TlbShape.
From S2P Require Import CpuTimer CpuCore CpuDecode CpuExec.
Import Tlb TlbMru TlbSpec TlbShape CpuCore CpuDecode CpuExec.

Module CpuLaws.

(** ** The TLB *)

Definition entry_fits (e : TlbEntry) : Prop :=
  fits 64 (page_mask e) /\ fits 64 (entry_hi e) /\
  fits 64 (fst (entry_lo e)) /\ fits 64 (snd (entry_lo e)).

Definition result_fits (r : TlbResult) : Prop :=
  match r with Hit pa _ _ _ => fits 64 pa | _ => True end.

Class TlbLaws (T : Type) `{TlbOps T} := {
  tlb_ok : T -> Prop;
  (** The answer to a lookup and when it is the only one possible. *)
  tlb_view : T -> bool -> Z -> Z -> AccessType -> TlbResult;
  tlb_unamb : T -> bool -> Z -> Z -> Prop;
  (** A lookup returns, disturbs neither the view nor the entries, and gives
      the view's answer when that is the only one. *)
  law_translate t x va as_ at_ : tlb_ok t -> exists t' r,
    tlb_translate x t va as_ at_ = Some (t', r) /\ tlb_ok t' /\ result_fits r /\
    (forall x va as_ at_, tlb_view t' x va as_ at_ = tlb_view t x va as_ at_) /\
    (forall x va as_, tlb_unamb t' x va as_ <-> tlb_unamb t x va as_) /\
    (forall i, tlb_read t' i = tlb_read t i) /\ tlb_num_entries t' = tlb_num_entries t /\
    (tlb_unamb t x va as_ -> r = tlb_view t x va as_ at_);
  law_view_fits t x va as_ at_ : tlb_ok t -> result_fits (tlb_view t x va as_ at_);
  law_view_page t x va va' as_ at_ : tlb_ok t -> va .>> 12 = va' .>> 12 ->
    tlb_view t x va' as_ at_ = at_offset (tlb_view t x va as_ at_) va';
  law_unamb_page t x va va' as_ : tlb_ok t -> va .>> 12 = va' .>> 12 ->
    tlb_unamb t x va as_ -> tlb_unamb t x va' as_;
  law_write t i e : tlb_ok t -> 0 <= i -> entry_fits e -> exists t',
    tlb_write t i e = Some t' /\ tlb_ok t' /\ tlb_num_entries t' = tlb_num_entries t /\
    forall j, 0 <= j < tlb_num_entries t ->
      if decide (j = i)
      then exists e', tlb_read t' j = Some e' /\ page_mask e' = page_mask e /\
             entry_hi e' = entry_hi e /\ entry_lo e' = entry_lo e
      else tlb_read t' j = tlb_read t j;
  law_read t i : tlb_ok t -> 0 <= i < tlb_num_entries t -> exists e,
    tlb_read t i = Some e /\ entry_fits e;
  law_probe t va as_ x : tlb_ok t -> fits 32 (tlb_probe t va as_ x);
  law_num t : tlb_ok t -> 1 < tlb_num_entries t <= 64;
}.

Lemma s_answer_fits s va at_ : shadow_ok s -> result_fits (s_answer s va at_).
Proof.
  intros [_ [Ho _] [Hp0 _] [Hp1 _] _ _]. unfold s_answer. repeat case_match; try done.
  apply lor_fits; [lia| |apply land_fits_r; [lia|done]].
  unfold pick. by case_match.
Qed.

Lemma translate_fits t is64 va as_ at_ t' r :
  shape t -> translate is64 t va as_ at_ = Some (t', r) -> result_fits r.
Proof.
  intros Hsh Ht. unfold translate in Ht. case_match; [by simplify_eq|].
  destruct (aget (shadow t) _) as [s|] eqn:Es; [|done]. cbn [mbind option_bind] in Ht.
  case_match; [simplify_eq; eapply s_answer_fits, sh_shadow; [exact Hsh|exact Es]|].
  case_match; [by simplify_eq|].
  destruct (scan_ok t is64 va as_ at_) as (hs & ns & r' & Hs' & _ & Hout);
    [apply Hsh|apply Hsh|apply Hsh|].
  rewrite Hs' in Ht. simplify_eq.
  destruct Hout as [[-> _]|(x & s' & Hx & Hs'' & _ & _ & ->)]; [done|].
  eapply s_answer_fits, sh_shadow; [exact Hsh|exact Hs''].
Qed.

Lemma view_fits t is64 va as_ at_ : shape t -> result_fits (view t is64 va as_ at_).
Proof.
  intros Hsh. unfold view. case_match; [done|].
  destruct (aget (shadow t) _) as [s|] eqn:Es; [|done].
  case_match; [eapply s_answer_fits, sh_shadow; [exact Hsh|exact Es]|].
  case_match; [done|]. unfold scan_view. destruct (find _ _) as [s'|] eqn:E; [|done].
  apply find_some in E as [Hin _]. apply list_elem_of_In, list_elem_of_lookup in Hin as [k Hk].
  apply lookup_take_Some in Hk as [Hk _]. apply s_answer_fits, (sh_shadow t Hsh (Z.of_nat k)).
  unfold aget. rewrite (proj2 (Z.leb_le 0 (Z.of_nat k))) by lia. by rewrite Nat2Z.id.
Qed.

Lemma probe_from_fits i ss va as_ x : fits 32 (probe_from i ss va as_ x).
Proof.
  revert i. induction ss as [|s ss IH]; intros i; simpl; [split; [lia|done]|].
  repeat case_match; [done..|apply wrap_fits; lia].
Qed.

(** A write stores the derived entry in its slot and no other. *)
Lemma write_entries t i e t' :
  write t i e = Some t' -> i < num_entries t ->
  aset (entries t) i (derive (page_mask e) (entry_hi e) (entry_lo e)) = Some (entries t').
Proof.
  unfold write. intros Hw Hi. rewrite (proj2 (Z.ltb_lt i (num_entries t))) in Hw by lia.
  unfold vmap_replace in Hw. repeat case_match; simplify_option_eq; try done.
Qed.

#[export] Program Instance MipsTlb_laws : TlbLaws MipsTlb := {|
  tlb_ok := shape;
  tlb_view := view;
  tlb_unamb := unambiguous;
|}.
Next Obligation.
  intros t x va as_ at_ Hsh.
  destruct (translate_view t x va as_ at_ Hsh) as (hs & ns & r & Ht & Hl & Hr).
  exists (with_mru t hs ns), r. split_and!; [done|by apply with_mru_shape| |done..].
  by eapply translate_fits.
Qed.
Next Obligation. intros. by apply view_fits. Qed.
Next Obligation. intros. by apply view_page. Qed.
Next Obligation. intros. by eapply unambiguous_page. Qed.
Next Obligation.
  intros t i e Hsh Hi (? & ? & ? & ?). destruct (write_shape t i e) as (t' & Hw & Hs & Hn); [done..|].
  exists t'. split_and!; [done..|]. intros j Hj. simpl in *.
  rewrite <- Hn in Hj. case_decide as Heq.
  - subst j. rewrite Hn in Hj. apply write_entries in Hw; [|lia]. unfold read.
    rewrite (proj2 (Z.ltb_lt i (num_entries t'))) by lia. rewrite (aget_aset_eq _ _ _ _ Hw). by eexists.
  - unfold read. rewrite Hn in *. destruct (Z.ltb_spec j (num_entries t)); [|lia].
    destruct (Z.lt_ge_cases i (num_entries t)).
    + apply write_entries in Hw; [|done]. by apply (aget_aset_ne _ _ _ _ _ Hw).
    + unfold write in Hw. rewrite (proj2 (Z.ltb_ge i (num_entries t))) in Hw by lia. by injection Hw as ->.
Qed.
Next Obligation.
  intros t i Hsh Hi. simpl in *. pose proof (sh_num t Hsh).
  destruct (aget_Some (entries t) i) as [e He];
    [rewrite (sh_entries_len t Hsh); unfold TLB_MAX_ENTRIES in *; lia|].
  exists e. unfold read. rewrite (proj2 (Z.ltb_lt _ _)) by lia. split; [done|].
  apply (sh_entries t Hsh i e He).
Qed.
Next Obligation. intros. apply probe_from_fits. Qed.
Next Obligation. intros t Hsh. apply (sh_num t Hsh). Qed.

(** ** Instructions *)

(** The handlers that carry out a second word, kept in [imm]. *)
Definition ls_fused (h : Handler) : bool :=
  match h with H_addu_ls | H_subu_ls | H_addiu_ls => true | _ => false end.

(** [w] is a load or store the fused handlers know. *)
Definition fused_word (w : Z) : bool := existsb (Z.eqb ((w .>> 26) .& 0x3F)) fusable_ops.

Record instr_ok (d : DecodedInstr) : Prop := {
  io_imm : fits 32 (imm d);
  io_raw : fits 32 (raw d);
  io_rs : fits 5 (rs d);
  io_rt : fits 5 (rt d);
  io_rd : fits 5 (rd d);
  io_sa : fits 5 (sa d);
  io_funct : fits 6 (funct d);
  io_fused h : handler d = Some h -> ls_fused h = true -> fused_word (imm d) = true;
}.

(** A slot the cache hands out: decoded, or with a word to decode. *)
Record slot_fits (d : DecodedInstr) : Prop := {
  sf_imm : fits 32 (imm d);
  sf_raw : fits 32 (raw d);
  sf_decoded : flags d = 0 -> instr_ok d;
}.

Lemma u32_fits x : fits 32 (u32 x).
Proof. apply wrap_fits. lia. Qed.

Lemma u64_fits x : fits 64 (u64 x).
Proof. apply wrap_fits. lia. Qed.

Lemma set_imm_ok k d r :
  fits 32 (imm d) -> fits 32 r -> fits 32 (imm (set_imm k d r)) /\ raw (set_imm k d r) = raw d.
Proof.
  intros Hi Hr. split; [|by destruct k]. destruct k; simpl; try done; try apply wrap_fits; try lia.
  by apply land_fits_l; [lia|].
Qed.

Lemma lui_fused_fits r rt next c b :
  fits 32 next -> lui_fused r rt next = Some (c, b) -> fits 32 c.
Proof.
  unfold lui_fused. intros Hn Hl. repeat case_match; simplify_eq.
  - apply lor_fits; [lia|apply wrap_fits; lia|]. by apply land_fits_l; [lia|].
  - apply u32_fits.
Qed.

Lemma fusable_word w r : is_fusable_load_store w r = true -> fused_word w = true.
Proof. unfold is_fusable_load_store. by case_match. Qed.

Lemma decode_fused_ok d op rt rd funct d' h :
  fits 32 (imm d) -> fits 32 (raw d) ->
  decode_fused d op rt rd funct (imm d) = Some (d', h) ->
  fits 32 (imm d') /\ raw d' = raw d /\ (ls_fused h = true -> fused_word (imm d') = true).
Proof.
  unfold decode_fused. intros Hi Hr Hd.
  repeat case_match; simplify_eq; try done;
    try (split_and!; [done|done|by intros _; eapply fusable_word]);
    try (split_and!; [apply wrap_fits; lia|done|done]).
  all: split_and!; [|done|done]; eapply lui_fused_fits; [exact Hi|]; eassumption.
Qed.

(** A table lookup finds an entry of the table or the default. *)
Lemma dispatch_cases {A} (P : A -> Prop) tbl k d :
  P d -> Forall (fun p => P (snd p)) tbl -> P (dispatch tbl k d).
Proof. intros Hd. induction 1 as [|[k' a] tbl Ha Ht IH]; cbn; [done|]. by case_match. Qed.

Lemma plain_not_fused mips4 op rs rt funct : ls_fused (snd (decode_plain mips4 op rs rt funct)) = false.
Proof.
  assert (Hd : forall (tbl : list (Z * (ImmKind * Handler))) k,
    forallb (fun p => negb (ls_fused (snd (snd p)))) tbl = true ->
    ls_fused (snd (dispatch tbl k (Imm_none, H_reserved))) = false).
  { intros tbl k Hall. apply (dispatch_cases (fun p => ls_fused (snd p) = false)); [done|].
    apply Forall_forall. intros p Hp%list_elem_of_In. rewrite forallb_forall in Hall.
    by apply negb_true_iff, Hall. }
  assert (Hh : forall (tbl : list (Z * Handler)) k,
    forallb (fun p => negb (ls_fused (snd p))) tbl = true -> ls_fused (dispatch tbl k H_reserved) = false).
  { intros tbl k Hall. apply (dispatch_cases (fun h => ls_fused h = false)); [done|].
    apply Forall_forall. intros p Hp%list_elem_of_In. rewrite forallb_forall in Hall.
    by apply negb_true_iff, Hall. }
  unfold decode_plain, decode_cop1, decode_cop1x, decode_cop1_fmt.
  repeat case_match; cbn [snd]; try done; first [apply Hh|apply Hd]; by destruct mips4.
Qed.

Lemma decode_into_ok fusion mips4 d :
  fits 32 (imm d) -> fits 32 (raw d) -> instr_ok (decode_into fusion mips4 d).
Proof.
  intros Hi Hr. unfold decode_into.
  match goal with |- context [let '(_, _) := ?x in _] => destruct x as [d' h] eqn:E end.
  assert (Hd : fits 32 (imm d') /\ raw d' = raw d /\ (ls_fused h = true -> fused_word (imm d') = true)).
  { revert E. case_match eqn:E1.
    - intros ->. revert E1. case_match; [|done]. by apply decode_fused_ok.
    - match goal with |- context [decode_plain ?a ?b ?c ?e ?f] =>
        pose proof (plain_not_fused a b c e f) as Hnf; destruct (decode_plain a b c e f) as [k h'] end.
      cbn in Hnf. intros [= <- <-]. destruct (set_imm_ok k d (raw d) Hi Hr). split_and!; [done|done|]. congruence. }
  destruct Hd as (Hi' & Hr' & Hf').
  constructor; cbn; [done|by rewrite Hr'|..].
  6: { intros h' [= <-]. exact Hf'. }
  all: (apply land_fits_r; [lia|split; [lia|done]]).
Qed.

(** ** The memory system *)

Definition size_ok (size : Z) : Prop := size = 1 \/ size = 2 \/ size = 4 \/ size = 8.

Class BusLaws (B : Type) `{BusOps B} := {
  bus_ok : B -> Prop;
  law_bus_read b size pa b' st data : bus_ok b -> size_ok size ->
    bus_read b size pa = (b', (st, data)) -> bus_ok b' /\ fits (8 * size) data;
  law_bus_write b size pa v b' st : bus_ok b -> bus_write b size pa v = (b', st) -> bus_ok b';
  law_bus_write64 b pa v m b' st : bus_ok b -> bus_write64_masked b pa v m = (b', st) -> bus_ok b';
}.

Class MemLaws (C : Type) `{MemOps C} := {
  mem_laws_bus :: BusLaws C;
  law_fetch c va pa c' st d : bus_ok c -> cache_fetch c va pa = (c', (st, d)) -> bus_ok c' /\ slot_fits d;
  law_put c va pa d : bus_ok c -> instr_ok d -> bus_ok (cache_put c va pa d);
  law_cache_read c size va pa c' st data : bus_ok c -> size_ok size ->
    cache_read c size va pa = (c', (st, data)) -> bus_ok c' /\ fits (8 * size) data;
  law_cache_write c size va pa v c' st : bus_ok c -> size_ok size -> cache_write c size va pa v = (c', st) -> bus_ok c';
  law_cache_write64 c va pa v m c' st : bus_ok c ->
    cache_write64_masked c va pa v m = (c', st) -> bus_ok c';
  law_cache_op c op va pa c' r : bus_ok c -> cache_op c op va pa = (c', r) -> bus_ok c' /\ fits 64 r;
  law_cache_op_ecc c : bus_ok c -> fits 32 (cache_op_ecc c);
  law_set_ecc c v : bus_ok c -> bus_ok (set_cache_ecc c v);
  law_cache_err c c' v : bus_ok c -> take_cache_err c = (c', v) -> bus_ok c' /\ fits 32 v;
  law_set_llbit c b : bus_ok c -> bus_ok (set_llbit c b);
  law_get_llbit c b : get_llbit (set_llbit c b) = b;
  law_set_lladdr c a : bus_ok c -> bus_ok (set_lladdr c a);
  law_cas c size pa o n c' r : bus_ok c -> cas_ram c size pa o n = (c', r) -> bus_ok c';
}.

Section passthrough.
Context {B : Type} `{BusLaws B}.
Notation P := (PassthroughCache B).

Definition pass_ok (c : P) : Prop :=
  bus_ok (downstream c) /\ fits 32 (imm (fetch_scratch c)) /\ fits 32 (raw (fetch_scratch c)).

Lemma pass_read_ok c size pa c' st data :
  pass_ok c -> size_ok size -> pass_bus_read c size pa = (c', (st, data)) ->
  pass_ok c' /\ fits (8 * size) data.
Proof.
  intros (Hb & Hi & Hr) Hs. unfold pass_bus_read.
  destruct (bus_read _ _ _) as [b [st' d']] eqn:E. intros [= <- <- <-].
  destruct (law_bus_read _ _ _ _ _ _ Hb Hs E). by split.
Qed.

Lemma pass_write_ok c size pa v c' st :
  pass_ok c -> pass_bus_write c size pa v = (c', st) -> pass_ok c'.
Proof.
  intros (Hb & Hi & Hr). unfold pass_bus_write. destruct (bus_write _ _ _ _) as [b s] eqn:E.
  intros [= <- <-]. pose proof (law_bus_write _ _ _ _ _ _ Hb E). by split.
Qed.

#[export] Program Instance pass_bus_laws : BusLaws P := {| bus_ok := pass_ok |}.
Next Obligation. intros b size pa b' st data. apply pass_read_ok. Qed.
Next Obligation. intros b size pa v b' st. apply pass_write_ok. Qed.
Next Obligation.
  intros c pa v m c' st (Hb & Hi & Hr). simpl. unfold pass_bus_write64_masked.
  destruct (bus_write64_masked _ _ _ _) as [b s] eqn:E. intros [= <- <-].
  pose proof (law_bus_write64 _ _ _ _ _ _ Hb E). by split.
Qed.

#[export] Program Instance pass_laws : MemLaws P := {| mem_laws_bus := pass_bus_laws |}.
Next Obligation.
  intros c va pa c' st d Hok. simpl. unfold pass_fetch.
  destruct (pass_bus_read c 4 pa) as [c1 [s data]] eqn:E.
  destruct (pass_read_ok c 4 pa _ _ _ Hok ltac:(unfold size_ok; lia) E) as [(Hb & Hi & Hr) Hd].
  case_match; intros [= <- <- <-]; (split; [by split|]); constructor; cbn; try done; by split.
Qed.
Next Obligation. intros c va pa d (Hb & _) Hd. split; [done|]. split; apply Hd. Qed.
Next Obligation. intros c size va pa c' st data. apply pass_read_ok. Qed.
Next Obligation. intros c size va pa v c' st Hc _. by apply pass_write_ok. Qed.
Next Obligation.
  intros c va pa v m c' st Hok. simpl. unfold pass_write64_masked.
  destruct (pass_bus_read _ _ _) as [c1 [s d]] eqn:E.
  destruct (pass_read_ok c 8 _ _ _ _ Hok ltac:(unfold size_ok; lia) E) as [Hok' _].
  case_match; [by apply pass_write_ok|]. by intros [= <- <-].
Qed.
Next Obligation. simpl. intros c op va pa c' r Hok [= <- <-]. split; [done|]. by split. Qed.
Next Obligation. intros. by split. Qed.
Next Obligation. done. Qed.
Next Obligation. simpl. intros c c' v Hok [= <- <-]. split; [done|]. by split. Qed.
Next Obligation. intros c b (? & ? & ?). by split. Qed.
Next Obligation. done. Qed.
Next Obligation. intros c b (? & ? & ?). by split. Qed.
Next Obligation. simpl. intros c size pa o n c' r Hok [= <- <-]. done. Qed.

End passthrough.

End CpuLaws.
