(* ===== verification/CpuInv.v ===== *)
(** * The executor's invariant

    [base]: every register is in its width and the components behind the
    executor are well formed.  [sync]: the translation function and the FPR
    accessors are the ones Status asks for.  [coh]: the nano-TLB and the
    micro-TLB answer what a full translation would answer.  [inv K] is the
    three together with a predicate [K] of the mode, the address space and
    the TLB; the primitives of the executor are shown to keep it. *)

From S2P Require Import Prelude Tlb TlbShape CpuTimer CpuCore CpuDecode CpuExec CpuInstr.
From S2P Require Import CpuPages CpuLaws.
Import Tlb TlbShape CpuCore CpuDecode CpuExec CpuInstr CpuSegments CpuPages CpuLaws.

Module CpuInv.

(** ** Registers in range *)

Record cp0_ok (p : Cp0) : Prop := {
  ok_index : fits 32 (cp0_index p);
  ok_entrylo0 : fits 64 (cp0_entrylo0 p);
  ok_entrylo1 : fits 64 (cp0_entrylo1 p);
  ok_context : fits 64 (cp0_context p);
  ok_pagemask : fits 64 (cp0_pagemask p);
  ok_wired : fits 32 (cp0_wired p);
  ok_badvaddr : fits 64 (cp0_badvaddr p);
  ok_entryhi : fits 64 (cp0_entryhi p);
  ok_status : fits 32 (cp0_status p);
  ok_cause : fits 32 (cp0_cause p);
  ok_epc : fits 64 (cp0_epc p);
  ok_prid : fits 32 (cp0_prid p);
  ok_config : fits 32 (cp0_config p);
  ok_lladdr : fits 64 (cp0_lladdr p);
  ok_watchlo : fits 32 (cp0_watchlo p);
  ok_watchhi : fits 32 (cp0_watchhi p);
  ok_xcontext : fits 64 (cp0_xcontext p);
  ok_ecc : fits 32 (cp0_ecc p);
  ok_cacheerr : fits 32 (cp0_cacheerr p);
  ok_taglo : fits 64 (cp0_taglo p);
  ok_taghi : fits 32 (cp0_taghi p);
  ok_errorepc : fits 64 (cp0_errorepc p);
}.

Record timer_ok (t : Timer) : Prop := {
  ok_interrupts : fits 64 (CpuTimer.interrupts t);
  ok_cycles : fits 64 (CpuTimer.cycles t);
  ok_compare : fits 64 (CpuTimer.cp0_compare t);
}.

Record core_ok (c : MipsCore) : Prop := {
  ok_gpr_len : length (gpr c) = 32%nat;
  ok_gpr : Forall (fits 64) (gpr c);
  ok_r0 : gpr c !! 0%nat = Some 0;
  ok_hi : fits 64 (hi c);
  ok_lo : fits 64 (lo c);
  ok_pc : fits 64 (pc c);
  ok_slot_target : fits 64 (delay_slot_target c);
  ok_cp0 : cp0_ok (cp0 c);
  ok_timer : timer_ok (tm c);
  ok_entries : 1 < tlb_entries c <= 64;
  ok_random : 0 <= cp0_random (cp0 c) < tlb_entries c;
  ok_unwired : cp0_wired (cp0 c) < tlb_entries c -> cp0_wired (cp0 c) <= cp0_random (cp0 c);
  ok_prid0 : fits 32 (reset_prid c);
  ok_nano_len : length (nanotlb c) = 3%nat;
  ok_nutlb : length (nutlb c) = 2%nat /\ Forall (fun l => length l = NUM_NUTLB_ENTRIES) (nutlb c);
  ok_nutlb_valid : length (nutlb_valid c) = 2%nat /\
    Forall (fun l => length l = NUM_NUTLB_WORDS /\ Forall (fits 64) l) (nutlb_valid c);
  ok_fpr : length (fpr (fpu c)) = 32%nat /\ Forall (fits 64) (fpr (fpu c));
}.

Section inv.
Context {T C : Type} `{TlbLaws T} `{MemLaws C} (model : CpuModel) (Hmodel : model_ok model).

Notation Exec := (Exec T C).
Notation M := (M T C).

Record base (e : Exec) : Prop := {
  b_core : core_ok (core e);
  b_tlb : tlb_ok (tlb e);
  b_bus : bus_ok (cache e);
  b_num : tlb_num_entries (tlb e) = tlb_entries (core e);
  b_ins : fits 32 (imm (ins e)) /\ fits 32 (raw (ins e));
  b_obs : Forall (fun o => fits 64 (fst o)) (wait_obs e);
}.

Definition sync (e : Exec) : Prop :=
  translate_sel e = (is_64bit_mode (core e), get_privilege_mode (core e)) /\
  fpr_fr e = has (cp0_status (cp0 (core e))) STATUS_FR.

(** ** Full translation, as a function of the state *)

Definition asid_of (c : MipsCore) : Z := cp0_entryhi (cp0 c) .& 0xFF.

Definition segment_of (c : MipsCore) (va : Z) : Segment :=
  segment model (is_64bit_mode c) (get_privilege_mode c) (cp0_status (cp0 c)) (cp0_config (cp0 c)) va.

Definition full (e : Exec) (va : Z) (at_ : AccessType) : TranslateResult :=
  match segment_of (core e) va with
  | Unmapped pa c => tr_ok pa c
  | Mapped x => of_tlb model x at_ (tlb_view (tlb e) x va (asid_of (core e)) at_)
  | AddressError => address_error_result at_
  end.

(** No two TLB entries answer for [va]. *)
Definition unamb (e : Exec) (va : Z) : Prop :=
  forall x, segment_of (core e) va = Mapped x -> tlb_unamb (tlb e) x va (asid_of (core e)).

(** A full translation gives the frame [pa] and the cache attribute [c]. *)
Definition answers (e : Exec) (va : Z) (at_ : AccessType) (pa c : Z) : Prop :=
  unamb e va -> exists st, full e va at_ = mkTr pa st /\
    is_exception (mkTr pa st) = false /\ st .& 0x7 = c.

Definition nutlb_arr (w : bool) : nat := if w then NUTLB_WRITE else NUTLB_READ.
Definition nutlb_entry (c : MipsCore) (w : bool) (va : Z) : NuTlbEntry :=
  (nutlb c !!! nutlb_arr w) !!! Z.to_nat (nutlb_index va).
Definition nutlb_hit (c : MipsCore) (w : bool) (va : Z) : bool :=
  (virttag (nutlb_entry c w va) =? va .& bnot 64 0xFFF) && nutlb_is_valid c (nutlb_arr w) (nutlb_index va).

Record coh (e : Exec) : Prop := {
  coh_nano va : fits 64 va -> nano_matches (nano_slot (core e)) (page va) = true ->
    answers e va Fetch (nano_phys_addr (nano_slot (core e)) va) (nano_cache_attr_raw (nano_slot (core e)));
  coh_nu w va : fits 64 va -> nutlb_hit (core e) w va = true ->
    answers e va (if w then Write else Read)
      (nu_phys_addr (nutlb_entry (core e) w va) va) (nu_cache_attr_raw (nutlb_entry (core e) w va));
}.

(** What a full translation reads of the core. *)
Definition key (c : MipsCore) : Z * Z * Z := (cp0_status (cp0 c), cp0_config (cp0 c), asid_of c).
Definition tcaches (c : MipsCore) : list NanoTlbEntry * list (list NuTlbEntry) * list (list Z) :=
  (nanotlb c, nutlb c, nutlb_valid c).

Definition same_view (t t' : T) : Prop :=
  (forall x va as_ at_, tlb_view t' x va as_ at_ = tlb_view t x va as_ at_) /\
  (forall x va as_, tlb_unamb t' x va as_ <-> tlb_unamb t x va as_) /\
  (forall i, tlb_read t' i = tlb_read t i).

Lemma same_view_refl t : same_view t t.
Proof. by split. Qed.

(** A predicate of the mode and the TLB that lookups do not disturb. *)
Class Stable (K : Z * Z * Z -> T -> Prop) : Prop :=
  stable k t t' : same_view t t' -> K k t -> K k t'.

Definition any : Z * Z * Z -> T -> Prop := fun _ _ => True.

#[global] Instance any_stable : Stable any.
Proof. done. Qed.

Context (K : Z * Z * Z -> T -> Prop) `{!Stable K}.

Record inv (e : Exec) : Prop := {
  inv_base : base e;
  inv_sync : sync e;
  inv_coh : coh e;
  inv_key : K (key (core e)) (tlb e);
}.

(** ** Triples *)

(** From [P], [m] returns: its result satisfies [Q] and it leaves [P']. *)
Definition triple {A} (P : Exec -> Prop) (m : M A) (P' : Exec -> Prop) (Q : A -> Prop) : Prop :=
  forall e, P e -> exists a e', m e = Some (a, e') /\ P' e' /\ Q a.

Notation ok m Q := (triple inv m inv Q).

Lemma triple_bind {A B} P P' P'' (m : M A) (f : A -> M B) Q R :
  triple P m P' Q -> (forall a, Q a -> triple P' (f a) P'' R) -> triple P (m ≫= f) P'' R.
Proof.
  intros Hm Hf e HP. destruct (Hm e HP) as (a & e1 & E & HP' & HQ).
  destruct (Hf a HQ e1 HP') as (b & e2 & E2 & HP2 & HR).
  exists b, e2. split; [|done]. unfold mbind, M_bind. by rewrite E.
Qed.

Lemma triple_ret {A} P (a : A) (Q : A -> Prop) : Q a -> triple P (mret a : M A) P Q.
Proof. intros HQ e HP. by exists a, e. Qed.

Lemma triple_when P (b : bool) (m : M unit) Q :
  triple P m P Q -> Q tt -> triple P (when_ b m) P Q.
Proof. intros Hm HQ. destruct b; [done|]. by apply triple_ret. Qed.

Lemma triple_weaken {A} P (m : M A) P' (Q Q' : A -> Prop) :
  triple P m P' Q -> (forall a, Q a -> Q' a) -> triple P m P' Q'.
Proof. intros Hm HQ e HP. destruct (Hm e HP) as (a & e' & ? & ? & ?). exists a, e'. auto. Qed.

Lemma triple_gets {A} (P : Exec -> Prop) (f : Exec -> A) (Q : A -> Prop) :
  (forall e, P e -> Q (f e)) -> triple P (gets f) P Q.
Proof. intros HQ e HP. exists (f e), e. auto. Qed.

Lemma triple_modify (P P' : Exec -> Prop) f :
  (forall e, P e -> P' (f e)) -> triple P (modify f) P' (fun _ => True).
Proof. intros HP e Hpre. exists tt, (f e). auto. Qed.

(** ** Frames *)

Lemma mode_of_status c c' :
  cp0_status (cp0 c') = cp0_status (cp0 c) ->
  is_64bit_mode c' = is_64bit_mode c /\ get_privilege_mode c' = get_privilege_mode c.
Proof. intros Hs. unfold is_64bit_mode, get_privilege_mode. by rewrite Hs. Qed.

Lemma key_segment c c' va : key c' = key c -> segment_of c' va = segment_of c va.
Proof.
  intros Hk. injection Hk as Hs Hc Ha. unfold segment_of.
  destruct (mode_of_status c c' Hs) as [-> ->]. by rewrite Hs, Hc.
Qed.

Lemma answers_frame e e' va at_ pa c :
  key (core e') = key (core e) -> same_view (tlb e) (tlb e') ->
  answers e va at_ pa c -> answers e' va at_ pa c.
Proof.
  intros Hk (Hv & Hu & _) Ha Hun. assert (Has : asid_of (core e') = asid_of (core e)) by (by injection Hk).
  destruct Ha as (st & Hf & Hx).
  { intros x Hx. rewrite <- Has. apply Hu, Hun. by rewrite (key_segment (core e)). }
  exists st. split; [|done]. rewrite <- Hf. unfold full. rewrite (key_segment (core e) (core e')) by done.
  rewrite Has. case_match; [done| |done]. by rewrite Hv.
Qed.

Lemma coh_frame e e' :
  coh e -> key (core e') = key (core e) -> tcaches (core e') = tcaches (core e) ->
  same_view (tlb e) (tlb e') -> coh e'.
Proof.
  intros [Hn Hu] Hk Ht Hv. injection Ht as Ht1 Ht2 Ht3.
  split.
  - intros va Hva Hm. eapply answers_frame; [done..|]. unfold nano_slot in *. rewrite Ht1 in *. by apply Hn.
  - intros w va Hva Hm. eapply answers_frame; [done..|].
    unfold nutlb_hit, nutlb_entry, nutlb_is_valid in *. rewrite Ht2, Ht3 in *. by apply Hu.
Qed.

Lemma sync_frame e e' :
  sync e -> cp0_status (cp0 (core e')) = cp0_status (cp0 (core e)) ->
  translate_sel e' = translate_sel e -> fpr_fr e' = fpr_fr e -> sync e'.
Proof.
  intros [Hs Hf] Hst Hsel Hfr. destruct (mode_of_status _ _ Hst) as [H1' H2'].
  split; [by rewrite H1', H2', Hsel|by rewrite Hst, Hfr].
Qed.

Lemma inv_frame e e' :
  inv e -> base e' -> key (core e') = key (core e) -> tcaches (core e') = tcaches (core e) ->
  same_view (tlb e) (tlb e') -> translate_sel e' = translate_sel e -> fpr_fr e' = fpr_fr e -> inv e'.
Proof.
  intros [Hb Hs Hc HK] Hb' Hk Ht Hv Hsel Hfr. split; [done| |by eapply coh_frame|].
  - eapply sync_frame; [done|by injection Hk|done|done].
  - rewrite Hk. by eapply stable.
Qed.

(** ** Primitive updates *)

(** An update of the core that keeps it well formed. *)
Definition typed (f : MipsCore -> MipsCore) : Prop :=
  forall c, core_ok c -> core_ok (f c) /\ tlb_entries (f c) = tlb_entries c.

(** ... and leaves alone what translation depends on. *)
Definition benign (f : MipsCore -> MipsCore) : Prop :=
  forall c, core_ok c -> core_ok (f c) /\ tlb_entries (f c) = tlb_entries c /\
    key (f c) = key c /\ tcaches (f c) = tcaches c.

Lemma base_upd_core f e : typed f -> base e -> base (e <| core ::= f |>).
Proof. intros Hf []. destruct (Hf (core e)) as [? He]; [done|]. by constructor; cbn; rewrite ?He. Qed.

Lemma base_set_core e c :
  base e -> core_ok c -> tlb_entries c = tlb_entries (core e) -> base (e <| core := c |>).
Proof. intros [] ? He. by constructor; cbn; rewrite ?He. Qed.

Lemma ok_upd_core f : benign f -> ok (upd_core f) (fun _ => True).
Proof.
  intros Hf. apply triple_modify. intros e He. destruct (Hf (core e)) as (Hc & Hn & Hk & Ht);
    [apply He|].
  eapply inv_frame; [exact He| |done|done|apply same_view_refl|done|done].
  apply base_set_core; [apply He|done|done].
Qed.

Lemma ok_set_cache e c : inv e -> bus_ok c -> inv (e <| cache := c |>).
Proof.
  intros He Hc. eapply inv_frame; [exact He| |done|done|apply same_view_refl|done|done].
  destruct (inv_base e He). by constructor.
Qed.

Lemma ok_upd_cache f : (forall c, bus_ok c -> bus_ok (f c)) -> ok (upd_cache f) (fun _ => True).
Proof.
  intros Hf. apply triple_modify. intros e He. change (inv (e <| cache := f (cache e) |>)).
  apply ok_set_cache; [done|apply Hf, (inv_base e He)].
Qed.

Lemma ok_with_cache {A} (f : C -> C * A) (Q : A -> Prop) :
  (forall c c' a, bus_ok c -> f c = (c', a) -> bus_ok c' /\ Q a) -> ok (with_cache f) Q.
Proof.
  intros Hf e He. unfold with_cache. destruct (f (cache e)) as [c a'] eqn:E.
  destruct (Hf _ _ _ (b_bus _ (inv_base e He)) E). exists a', (e <| cache := c |>).
  split_and!; [done|by apply ok_set_cache|done].
Qed.

Lemma ok_get_core {A} (f : MipsCore -> A) (Q : A -> Prop) :
  (forall c, core_ok c -> Q (f c)) -> ok (get_core f) Q.
Proof. intros HQ. apply triple_gets. intros e He. apply HQ, He. Qed.

(** ** Flushes *)

Lemma flushed_nano c va : core_ok c -> nano_matches (nano_slot (CpuCore.nanotlb_invalidate c)) (page va) = false.
Proof.
  intros Hc. assert (Ht : va_tag (nano_slot (CpuCore.nanotlb_invalidate c)) = 0).
  { unfold nano_slot, CpuCore.nanotlb_invalidate. cbn. pose proof (ok_nano_len c Hc) as Hl.
    by destruct (nanotlb c). }
  unfold nano_matches. rewrite Ht. apply Z.eqb_neq. intros Hz. symmetry in Hz. apply Z.lor_eq_0_iff in Hz as [_ Hz]. done.
Qed.

Lemma nutlb_index_range va : 0 <= nutlb_index va < 256.
Proof. unfold nutlb_index. apply (land_fits_r 8); [lia|]. by split. Qed.

(** The word of the valid bitmask that holds set [idx]. *)
Lemma nutlb_word idx : 0 <= idx < 256 -> (Z.to_nat (idx .>> 6) < 4)%nat.
Proof.
  intros. rewrite Z.shiftr_div_pow2 by lia. change (2 ^ 6) with 64.
  assert (0 <= idx / 64 < 4) by (split; [apply Z.div_pos|apply Z.div_lt_upper_bound]; lia). lia.
Qed.

Lemma flushed_nu c arr idx :
  0 <= idx < 256 -> (arr < 2)%nat -> nutlb_is_valid (nutlb_clear c) arr idx = false.
Proof.
  intros Hi Ha.
  assert (Hz : replicate NUM_NUTLB_WORDS 0 !!! Z.to_nat (idx .>> 6) = 0).
  { apply list_lookup_total_correct, lookup_replicate_2. by apply nutlb_word. }
  assert (Hr : nutlb_valid (nutlb_clear c) !!! arr = replicate NUM_NUTLB_WORDS 0)
    by (destruct arr as [|[|?]]; [done..|lia]).
  unfold nutlb_is_valid. by rewrite Hr, Hz, Z.shiftr_0_l.
Qed.

Definition flush (c : MipsCore) : MipsCore := nutlb_clear (CpuCore.nanotlb_invalidate c).

Lemma flush_typed : typed flush.
Proof.
  intros c []. split; [|done]. constructor; try done; cbn.
  - by rewrite length_map.
  - split; [done|]. repeat constructor; try done.
Qed.

(** A flush establishes coherence whatever the caches held. *)
Lemma flush_inv :
  triple (fun e => base e /\ sync e /\ K (key (core e)) (tlb e)) nanotlb_invalidate inv (fun _ => True).
Proof.
  apply triple_modify. intros e (Hb & Hs & HK). split; [| | |done].
  - by apply (base_upd_core flush e flush_typed).
  - by eapply sync_frame.
  - split.
    + intros va Hva Hm. change (core _) with (flush (core e)) in Hm.
      change (nano_matches (nano_slot (CpuCore.nanotlb_invalidate (core e))) (page va) = true) in Hm.
      by rewrite flushed_nano in Hm by apply Hb.
    + intros w va Hva Hm. apply andb_true_iff in Hm as [_ Hm].
      change (nutlb_is_valid (nutlb_clear (CpuCore.nanotlb_invalidate (core e)))
                (nutlb_arr w) (nutlb_index va) = true) in Hm.
      rewrite flushed_nu in Hm; [done|apply nutlb_index_range|by destruct w; cbv; lia].
Qed.

Lemma resync_inv :
  triple (fun e => base e /\ K (key (core e)) (tlb e)) resync_privilege_state inv (fun _ => True).
Proof.
  apply (triple_bind _ (fun e => (base e /\ K (key (core e)) (tlb e)) /\ translate_sel e =
            (is_64bit_mode (core e), get_privilege_mode (core e))) _ _ _ (fun _ => True)).
  { apply triple_modify. intros e [[] HK]. by split. }
  intros _ _. apply (triple_bind _ (fun e => base e /\ sync e /\ K (key (core e)) (tlb e)) _ _ _ (fun _ => True)).
  { apply triple_modify. intros e [[[] HK] Hs]. by split. }
  intros _ _. apply flush_inv.
Qed.

Lemma triple_base_core f : typed f -> triple base (upd_core f) base (fun _ => True).
Proof. intros Hf. apply triple_modify. intros e He. by apply (base_upd_core f). Qed.

Lemma triple_base_cache f :
  (forall c, bus_ok c -> bus_ok (f c)) -> triple base (upd_cache f) base (fun _ => True).
Proof. intros Hf. apply triple_modify. intros e []. constructor; try done. by apply Hf. Qed.

Lemma triple_base_with_cache {A} (f : C -> C * A) (Q : A -> Prop) :
  (forall c c' a, bus_ok c -> f c = (c', a) -> bus_ok c' /\ Q a) -> triple base (with_cache f) base Q.
Proof.
  intros Hf e He. unfold with_cache. destruct (f (cache e)) as [c a'] eqn:E.
  destruct (Hf _ _ _ (b_bus _ He) E). exists a', (e <| cache := c |>).
  split_and!; [done| |done]. destruct He. by constructor.
Qed.

Lemma triple_pre {A} (P P' : Exec -> Prop) (m : M A) P'' Q :
  (forall e, P e -> P' e) -> triple P' m P'' Q -> triple P m P'' Q.
Proof. intros HP Hm e He. apply Hm. auto. Qed.

End inv.

End CpuInv.
