(* ===== verification/CpuInvMem.v ===== *)
(** * Translation and memory accesses keep the executor's invariant *)

From S2P Require Import Prelude Tlb TlbShape CpuTimer CpuCore CpuDecode CpuExec CpuInstr.
From S2P Require Import CpuPages CpuLaws CpuInv.
Import Tlb TlbShape CpuCore CpuDecode CpuExec CpuInstr CpuSegments CpuPages CpuLaws CpuInv.

Module CpuInvMem.

(** Ranges of bit operations, by the shape of the term. *)
Ltac fits_tac :=
  lazymatch goal with
  | |- fits ?w (wrap ?w _) => apply wrap_fits; lia
  | |- fits 32 (u32 _) => apply u32_fits
  | |- fits 64 (u64 _) => apply u64_fits
  | |- fits 64 (sext32 _) => apply u64_fits
  | |- fits 64 (u32 _) => apply (fits_mono 32); [apply u32_fits|lia]
  | |- fits ?w (shl ?w _ _) => apply wrap_fits; lia
  | |- fits _ (bnot _ _) => apply bnot_fits; lia
  | |- fits _ (Z.lor _ _) => apply lor_fits; [lia|fits_tac|fits_tac]
  | |- fits _ (Z.lxor _ _) => apply lxor_fits; [lia|fits_tac|fits_tac]
  | |- fits _ (Z.land _ _) =>
      first [apply land_fits_l; [lia|fits_tac]|apply land_fits_r; [lia|fits_tac]]
  | |- fits _ (if _ then _ else _) => case_match; fits_tac
  | |- fits _ (bool_to_Z _) => case_match; fits_tac
  | |- fits _ _ => first [done|by split|solve [eauto with word]]
  end.

(** Closes [typed]/[benign] goals for field updates: expose the record, split,
    and leave the range of each new value to the [word] hints. *)
Ltac core_fields :=
  let c := fresh "c" in let Hc := fresh "Hc" in
  intros c Hc; intros; destruct Hc as [? ? ? ? ? ? ? Hcp Htm ? ? ? ? ? ? ? ?];
  try (destruct Hcp); try (destruct Htm);
  lazymatch goal with
  | |- core_ok _ /\ _ /\ _ /\ _ => split; [|split; [|split]]
  | |- core_ok _ /\ _ => split
  end; try done;
  repeat match goal with
  | |- core_ok _ => constructor
  | |- cp0_ok _ => constructor
  | |- timer_ok _ => constructor
  end; cbn; try done; try fits_tac.

#[export] Hint Resolve u32_fits u64_fits : word.

Section mem.
Context {T C : Type} `{TlbLaws T} `{MemLaws C} (model : CpuModel) (Hmodel : model_ok model).
Context (K : Z * Z * Z -> T -> Prop) `{!Stable K}.

Notation Exec := (Exec T C).
Notation M := (M T C).
Notation inv := (inv model K).
Notation ok m Q := (triple inv m inv Q).

(** ** Results of a full translation *)

Lemma fold_phys_fits pa : fits 64 pa -> fits 64 (fold_phys model pa).
Proof. intros. unfold fold_phys. apply land_fits_r; [lia|apply Hmodel]. Qed.

Lemma attr_cases c :
  decode_cache_attr model c = TR_UNCACHED \/ decode_cache_attr model c = TR_CACHEABLE \/
  decode_cache_attr model c = TR_CACHEABLE_COH.
Proof. unfold decode_cache_attr. repeat case_match; auto. Qed.

Definition attr_ok (c : Z) : Prop := c = TR_UNCACHED \/ c = TR_CACHEABLE \/ c = TR_CACHEABLE_COH.

(** An unmapped window gives a 64-bit address and one of the three attributes. *)
Lemma segment_unmapped is64 priv status config va pa c :
  fits 64 va -> segment model is64 priv status config va = Unmapped pa c -> fits 64 pa /\ attr_ok c.
Proof.
  intros Hva. assert (Hu : fits 64 (u32 va)) by (apply (fits_mono 32); [apply u32_fits|lia]).
  unfold segment, segment32, segment64, ckseg, kernel_only, kernel_or_supervisor.
  intros Hs. repeat case_match; simplify_eq;
    (split; [auto using land_fits_l, fold_phys_fits with word lia|first [apply attr_cases|by left]]).
  all: try (apply land_fits_l; [lia|done]); try (apply fold_phys_fits; try done; apply land_fits_l; [lia|done]).
Qed.

Lemma attr_not_exception pa c : attr_ok c -> is_exception (tr_ok pa c) = false /\ c .& 0x7 = c.
Proof. by intros [->|[->| ->]]. Qed.

Lemma exc_code_exception s : has s EXEC_IS_EXCEPTION = true -> is_exception (tr_exc s) = true.
Proof. done. Qed.

Lemma address_error_exception at_ : is_exception (address_error_result at_) = true.
Proof. by destruct at_. Qed.

Lemma of_tlb_cases x at_ r :
  is_exception (of_tlb model x at_ r) = false ->
  exists pa c d g, r = Hit pa c d g /\
    of_tlb model x at_ r = tr_ok_mapped (fold_phys model pa) (CacheAttr_code c) g.
Proof.
  destruct r as [pa c d g| | |]; cbn; [|by destruct x, at_|by destruct at_|done].
  destruct (is_write at_ && negb d) eqn:E; [done|]. intros _. by exists pa, c, d, g.
Qed.

(** ** Answers are uniform over a page *)

Lemma unamb_page (e : Exec) va va' :
  base e -> fits 64 va -> fits 64 va' -> same_page va va' -> unamb model e va -> unamb model e va'.
Proof.
  intros Hb Hv Hv' Hs Hun x Hx. unfold segment_of in Hx.
  rewrite (segment_page model _ _ _ _ va va') in Hx by done.
  eapply law_unamb_page; [apply Hb|exact Hs|]. apply Hun. unfold segment_of.
  by destruct (segment model _ _ _ _ va); simplify_eq.
Qed.

Lemma answers_page (e : Exec) va va' at_ pa c :
  base e -> fits 64 va -> fits 64 va' -> same_page va va' ->
  answers model e va at_ pa c -> answers model e va' at_ (at_page pa va') c.
Proof.
  intros Hb Hv Hv' Hs Ha Hun.
  destruct Ha as (st & Hf & Hx & Hc); [by apply (unamb_page e va' va)|].
  exists st. split; [|done]. unfold full, segment_of in *.
  rewrite (segment_page model _ _ _ _ va va') by done.
  destruct (segment model _ _ _ _ va) as [pa0 c0|x|] eqn:E; cbn [at_segment].
  - unfold tr_ok in *. by simplify_eq.
  - rewrite (law_view_page _ _ va va') by (done || apply Hb).
    pose proof (law_view_fits (tlb e) x va (asid_of (core e)) at_ (b_tlb _ Hb)) as Hfit.
    assert (Hne : is_exception (of_tlb model x at_ (tlb_view (tlb e) x va (asid_of (core e)) at_)) = false)
      by (by rewrite Hf).
    apply of_tlb_cases in Hne as (pa0 & c0 & d & g & Hr & Heq). rewrite Heq in Hf. rewrite Hr in Heq, Hfit |- *.
    unfold tr_ok_mapped in *. injection Hf as <- <-. revert Heq. cbn.
    destruct (is_write at_ && negb d); [intros Hst%(f_equal tr_status); by destruct c0, g|]. intros _.
    unfold tr_ok_mapped. f_equal. by apply fold_phys_page.
  - exfalso. assert (is_exception (address_error_result at_) = false) by (by rewrite Hf).
    by rewrite address_error_exception in *.
Qed.

(** ** The slow path *)

Lemma xcontext_fits vb old va : fits 64 old -> fits 64 (xcontext_on_miss vb old va).
Proof. intros. unfold xcontext_on_miss. fits_tac. Qed.
#[local] Hint Resolve xcontext_fits : word.

Lemma update_regs_benign va :
  fits 64 va -> benign (fun c => c <| cp0 ::= (fun p =>
    p <| cp0_badvaddr := va |>
      <| cp0_entryhi := (va .& EH_VPN_MASK) .| (cp0_entryhi p .& 0xFF) |>
      <| cp0_context := (cp0_context p .& 0xFFFFFFFFFF800000) .| shl 64 ((va .& 0xFFFFE000) .>> 13) 4 |>
      <| cp0_xcontext := xcontext_on_miss (VA_BITS model) (cp0_xcontext p) va |>) |>).
Proof.
  intros Hva. core_fields.
  - unfold key, asid_of. cbn. f_equal. apply Z.bits_inj'. intros i Hi.
    rewrite !Z.land_spec, Z.lor_spec, !Z.land_spec. change 0xFF with (Z.ones 8).
    rewrite ones_testbit by lia. destruct (Z.ltb_spec i 8); [|by rewrite !andb_false_r].
    replace (Z.testbit EH_VPN_MASK i) with false; [by rewrite andb_false_r, !andb_true_r|].
    symmetry. apply (low12_bit0 EH_VPN_MASK); [done|lia].
Qed.

Lemma badvaddr_benign va : fits 64 va -> benign (fun c => c <| cp0 ::= (fun p => p <| cp0_badvaddr := va |>) |>).
Proof. intros Hva. core_fields. Qed.

Lemma same_view_sym (t t' : T) : same_view t t' -> same_view t' t.
Proof. intros (Hv & Hu & Hr). split_and!; [by intros; rewrite Hv|intros; by rewrite Hu|by intros; rewrite Hr]. Qed.

Lemma inv_set_tlb (e : Exec) t :
  inv e -> tlb_ok t -> same_view (tlb e) t -> tlb_num_entries t = tlb_num_entries (tlb e) ->
  inv (e <| tlb := t |>).
Proof.
  intros He Ht Hv Hn. eapply (inv_frame model K); [exact He| |done|done|exact Hv|done|done].
  destruct (inv_base _ _ e He). constructor; try done. cbn. congruence.
Qed.

(** A successful translation: it answers, in range, and left the core alone. *)
Definition found (e e' : Exec) (va : Z) (at_ : AccessType) (r : TranslateResult) : Prop :=
  is_exception r = false ->
  core e' = core e /\ fits 64 (tr_phys r) /\ answers model e' va at_ (tr_phys r) (tr_status r .& 0x7).

(** A translation returns with the invariant, and what it found is right. *)
Definition translates (m : M TranslateResult) (e : Exec) (va : Z) (at_ : AccessType) : Prop :=
  exists r e', m e = Some (r, e') /\ inv e' /\ found e e' va at_ r.

Lemma tlb_translate_impl_ok x va at_ e :
  inv e -> fits 64 va -> segment_of model (core e) va = Mapped x ->
  translates (tlb_translate_impl model false x va at_) e va at_.
Proof.
  intros He Hva Hseg. unfold translates, tlb_translate_impl, get_core, gets, mbind, M_bind.
  destruct (law_translate (tlb e) x va (asid_of (core e)) at_) as
    (t & res & Ht & Hok & Hfit & Hview & Hun & Hread & Hnum & Hans); [apply He|].
  unfold asid_of in Ht. rewrite Ht. cbn [mbind option_bind].
  assert (He1 : inv (e <| tlb := t |>)) by (apply inv_set_tlb; [done|done|by split|done]).
  assert (Hfail : forall s, has s EXEC_IS_EXCEPTION = true -> exists r'' e'',
    (when_ true (update_tlb_exception_registers model va) ≫= (fun _ => mret (tr_exc s) : M TranslateResult))
      (e <| tlb := t |>) = Some (r'', e'') /\ inv e'' /\ found e e'' va at_ r'').
  { intros s Hs. destruct (ok_upd_core model K _ (update_regs_benign va Hva) _ He1) as ([] & e'' & E & He'' & _).
    exists (tr_exc s), e''. unfold mbind, M_bind, when_, update_tlb_exception_registers, upd_cp0. rewrite E.
    split_and!; [done|done|]. intros Hne. by rewrite exc_code_exception in Hne. }
  destruct res as [pa c d g| | |].
  - destruct (is_write at_ && negb d) eqn:E; [by apply Hfail|].
    eexists _, _. split; [reflexivity|]. split; [done|]. intros _. split; [done|]. split; [by apply fold_phys_fits|].
    intros Hunamb. exists (tr_status (tr_ok_mapped (fold_phys model pa) (CacheAttr_code c) g)).
    split; [|by destruct c, g]. unfold full. cbn [core]. change (segment_of model _ va) with (segment_of model (core e) va).
    rewrite Hseg. cbn. rewrite Hview. rewrite <- Hans.
    + cbn. by rewrite E.
    + apply Hun. by apply (Hunamb x).
  - apply Hfail. by destruct x, at_.
  - apply Hfail. by destruct at_.
  - by apply Hfail.
Qed.

Lemma translate_fn_ok va at_ e :
  inv e -> fits 64 va -> translates (translate_fn model va at_) e va at_.
Proof.
  intros He Hva. unfold translates, translate_fn, gets, mbind, M_bind.
  destruct (inv_sync _ _ e He) as [-> _]. cbn [fst snd]. rewrite translate_at_segment.
  change (segment model (is_64bit_mode (core e)) (get_privilege_mode (core e)) _ _ va)
    with (segment_of model (core e) va).
  destruct (segment_of model (core e) va) as [pa c|x|] eqn:E.
  - eexists _, _. split; [reflexivity|]. split; [done|]. intros _.
    destruct (segment_unmapped _ _ _ _ _ _ _ Hva E) as [Hpa Hc].
    destruct (attr_not_exception pa c Hc) as [Hx Hc']. split_and!; [done|done|].
    intros _. exists c. unfold full. rewrite E. cbn. by rewrite Hc'.
  - by apply tlb_translate_impl_ok.
  - unfold address_error. destruct (ok_upd_core model K _ (badvaddr_benign va Hva) _ He) as ([] & e'' & E' & He'' & _).
    eexists _, e''. unfold mbind, M_bind, when_, upd_cp0. cbn [negb]. rewrite E'.
    split; [reflexivity|]. split; [done|]. intros Hx. by destruct at_.
Qed.

(** ** Filling the micro-TLB *)

Lemma bit_word x k : 0 <= k -> negb ((x .>> k) .& 1 =? 0) = Z.testbit x k.
Proof.
  intros. change 1 with (Z.ones 1). rewrite Z.land_ones by lia. change (2 ^ 1) with 2.
  rewrite <- Z.bit0_mod, Z.shiftr_spec by lia. rewrite Z.add_0_l. by destruct (Z.testbit x k).
Qed.

Lemma set_bit_testbit x k j :
  0 <= k < 64 -> 0 <= j -> Z.testbit (x .| shl 64 1 k) j = Z.testbit x j || (k =? j).
Proof.
  intros. rewrite Z.lor_spec. unfold shl. rewrite wrap_testbit, Z.shiftl_1_l, pow2_testbit by lia.
  destruct (Z.eqb_spec k j); [|by rewrite andb_false_r].
  by rewrite (proj2 (Z.ltb_lt j 64)) by lia.
Qed.

(** A set index is its word and its bit. *)
Lemma index_split i j :
  0 <= i < 256 -> 0 <= j < 256 -> Z.to_nat (i .>> 6) = Z.to_nat (j .>> 6) -> i .& 63 = j .& 63 -> i = j.
Proof.
  intros Hi Hj. change 63 with (Z.ones 6). rewrite !Z.land_ones, !Z.shiftr_div_pow2 by lia.
  intros. assert (i / 2 ^ 6 = j / 2 ^ 6) by (apply Z2Nat.inj; [apply Z.div_pos..|]; lia || done).
  rewrite (Z.div_mod i (2 ^ 6)), (Z.div_mod j (2 ^ 6)) by lia. congruence.
Qed.

Lemma set_valid_other c arr idx arr' idx' :
  0 <= idx < 256 -> 0 <= idx' < 256 -> (arr, idx) <> (arr', idx') ->
  nutlb_is_valid (nutlb_set_valid c arr idx) arr' idx' = nutlb_is_valid c arr' idx'.
Proof.
  intros Hi Hj Hne. unfold nutlb_is_valid, nutlb_set_valid. cbn.
  rewrite !bit_word by (apply (land_fits_r 6); [lia|by split]).
  destruct (decide (arr = arr')) as [<-|]; [|by rewrite list_lookup_total_alter_ne].
  rewrite list_lookup_total_alter. case_decide as Hd; [|done].
  rewrite list_lookup_total_alter. case_decide as Hd'; [|done]. destruct Hd' as [Hw Hlt].
  rewrite set_bit_testbit by (try apply (land_fits_r 6); (lia || by split)).
  destruct (Z.eqb_spec (idx .& 63) (idx' .& 63)) as [Hb|]; [|by rewrite orb_false_r, Hw].
  exfalso. apply Hne. f_equal. by apply index_split.
Qed.

Definition nu_fill_entry (va : Z) (r : TranslateResult) : NuTlbEntry :=
  mkNu (va .& bnot 64 0xFFF) ((tr_phys r .& bnot 64 0xFFF) .| (tr_status r .& 0x7)).

Definition nu_filled (w : bool) (va : Z) (r : TranslateResult) (c : MipsCore) : MipsCore :=
  nutlb_set_valid (c <| nutlb ::= alter (<[Z.to_nat (nutlb_index va) := nu_fill_entry va r]>) (nutlb_arr w) |>)
    (nutlb_arr w) (nutlb_index va).

Lemma nutlb_arr_lt w : (nutlb_arr w < 2)%nat.
Proof. destruct w; cbv; lia. Qed.

Lemma Forall_alter_all {A} (P : A -> Prop) f (l : list A) i :
  (forall x, P x -> P (f x)) -> Forall P l -> Forall P (alter f i l).
Proof.
  intros Hf Hl. apply Forall_lookup_2. intros j x Hj. destruct (decide (i = j)) as [<-|].
  - rewrite list_lookup_alter_eq in Hj. destruct (l !! i) as [y|] eqn:E; simplify_eq/=.
    apply Hf. by eapply Forall_lookup_1.
  - rewrite list_lookup_alter_ne in Hj by done. by eapply Forall_lookup_1.
Qed.

Lemma nu_filled_typed w va r : typed (nu_filled w va r).
Proof.
  core_fields.
  - destruct ok_nutlb0 as [Hl Hf]. rewrite length_alter. split; [done|].
    apply Forall_alter_all; [|done]. intros l Hl'. by rewrite length_insert.
  - destruct ok_nutlb_valid0 as [Hl Hf]. rewrite length_alter. split; [done|].
    apply Forall_alter_all; [|done]. intros l [Hl' Hf']. rewrite length_alter. split; [done|].
    apply Forall_alter_all; [|done]. intros x Hx. fits_tac.
Qed.

Lemma nutlb_len c w : core_ok c -> length (nutlb c !!! nutlb_arr w) = 256%nat /\ (nutlb_arr w < length (nutlb c))%nat.
Proof.
  intros Hc. destruct (ok_nutlb c Hc) as [Hl Hf]. rewrite Hl. split; [|apply nutlb_arr_lt].
  apply (Forall_lookup_total_1 _ _ _ Hf). rewrite Hl. apply nutlb_arr_lt.
Qed.

(** After a fill the hits are the new page's and the old ones. *)
Lemma nu_filled_hit w va r c w' va' :
  core_ok c -> fits 64 va -> fits 64 va' -> nutlb_hit (nu_filled w va r c) w' va' = true ->
  (w' = w /\ same_page va va' /\ nutlb_entry (nu_filled w va r c) w' va' = nu_fill_entry va r) \/
  (nutlb_hit c w' va' = true /\ nutlb_entry (nu_filled w va r c) w' va' = nutlb_entry c w' va').
Proof.
  intros Hc Hva Hva' Hh. destruct (nutlb_len c w Hc) as [Hlen Hlt].
  pose proof (nutlb_index_range va) as Hi. pose proof (nutlb_index_range va') as Hi'.
  destruct (decide ((nutlb_arr w, nutlb_index va) = (nutlb_arr w', nutlb_index va'))) as [Heq|Hne].
  - injection Heq as Ha Hx. assert (Hw : w = w') by (by destruct w, w'). subst w'. left.
    assert (He : nutlb_entry (nu_filled w va r c) w va' = nu_fill_entry va r).
    { unfold nutlb_entry, nu_filled. cbn. rewrite <- Hx, list_lookup_total_alter_eq by done.
      apply list_lookup_total_insert_eq. rewrite Hlen. lia. }
    split; [done|]. split; [|done]. apply page_same; [done|done|].
    unfold nutlb_hit in Hh. rewrite He in Hh. cbn in Hh. apply andb_true_iff in Hh as [Hp%Z.eqb_eq _]. exact Hp.
  - right. assert (He : nutlb_entry (nu_filled w va r c) w' va' = nutlb_entry c w' va').
    { unfold nutlb_entry, nu_filled. cbn. destruct (decide (nutlb_arr w = nutlb_arr w')) as [Ha|Ha].
      - rewrite <- Ha, list_lookup_total_alter_eq by done.
        apply list_lookup_total_insert_ne. intros Hx. apply Hne. f_equal; [done|lia].
      - by rewrite list_lookup_total_alter_ne. }
    split; [|done]. unfold nutlb_hit in Hh |- *. rewrite He in Hh. unfold nu_filled in Hh.
    rewrite set_valid_other in Hh; [exact Hh|done|done|done].
Qed.

Lemma filled_phys pa st va :
  fits 64 pa ->
  (((pa .& bnot 64 0xFFF) .| (st .& 0x7)) .& bnot 64 0xFFF) .| (va .& 0xFFF) = at_page pa va /\
  u32 (((pa .& bnot 64 0xFFF) .| (st .& 0x7)) .& 0x7) = st .& 0x7.
Proof.
  intros Hpa. assert (H7 : forall i, 0 <= i -> Z.testbit 0x7 i = (i <? 3))
    by (intros; change 0x7 with (Z.ones 3); by apply ones_testbit).
  split.
  - apply Z.bits_inj'. intros i Hi. rewrite at_page_bit by done.
    rewrite Z.lor_spec, !Z.land_spec, Z.lor_spec, !Z.land_spec, page_mask_bit, mask_bit, H7 by lia.
    destruct (Z.ltb_spec i 12), (Z.leb_spec 12 i); try lia; cbn [andb].
    + by rewrite !andb_false_r, andb_true_r.
    + destruct (Z.ltb_spec i 64), (Z.ltb_spec i 3); try lia; rewrite ?andb_true_r, ?andb_false_r, ?orb_false_r;
        [done|]. symmetry. by apply (fits_testbit 64); [|lia|lia].
  - unfold u32. rewrite wrap_small by (apply (fits_mono 3); [apply land_fits_r; [lia|by split]|lia]).
    apply Z.bits_inj'. intros i Hi. rewrite !Z.land_spec, Z.lor_spec, !Z.land_spec, page_mask_bit, H7 by lia.
    destruct (Z.ltb_spec i 3), (Z.leb_spec 12 i); try lia; by rewrite ?andb_true_r, ?andb_false_r.
Qed.

Lemma key_filled w va r c : key (nu_filled w va r c) = key c.
Proof. done. Qed.

Definition rw_access (w : bool) : AccessType := if w then Write else Read.

Lemma nu_filled_inv w va r (e : Exec) :
  inv e -> fits 64 va -> fits 64 (tr_phys r) ->
  answers model e va (rw_access w) (tr_phys r) (tr_status r .& 0x7) ->
  inv (e <| core ::= nu_filled w va r |>).
Proof.
  intros He Hva Hpa Hans.
  assert (Hfr : forall va at_ pa c, answers model e va at_ pa c ->
                  answers model (e <| core ::= nu_filled w va r |>) va at_ pa c).
  { intros. eapply answers_frame; [apply key_filled|apply same_view_refl|done]. }
  split; [| | |apply He].
  - apply base_upd_core; [apply nu_filled_typed|apply He].
  - eapply sync_frame; [apply He|done|done|done].
  - split.
    + intros va' Hva' Hm. eapply answers_frame; [| |by apply (coh_nano _ _ (inv_coh _ _ _ He))];
        [done|apply same_view_refl].
    + intros w' va' Hva' Hm. cbn [core] in Hm.
      change (core (e <| core ::= nu_filled w va r |>)) with (nu_filled w va r (core e)) in *.
      eapply (answers_frame _ e); [done|apply same_view_refl|].
      destruct (nu_filled_hit w va r (core e) w' va') as [(-> & Hs & ->)|[Hh ->]];
        [apply He|done|done|done| |by apply (coh_nu _ _ (inv_coh _ _ _ He))].
      unfold nu_phys_addr, nu_cache_attr_raw, nu_fill_entry. cbn [nu_phys].
      destruct (filled_phys (tr_phys r) (tr_status r) va' Hpa) as [-> ->].
      apply (answers_page e va); [apply He|done..].
Qed.

Lemma nutlb_fill_ok w va r (e : Exec) :
  inv e -> fits 64 va -> fits 64 (tr_phys r) ->
  answers model e va (rw_access w) (tr_phys r) (tr_status r .& 0x7) ->
  exists e', nutlb_fill w va r e = Some (tt, e') /\ inv e'.
Proof.
  intros He Hva Hpa Hans. unfold nutlb_fill, gets, mbind, M_bind.
  case_match; [by exists e|]. case_match; [by exists e|].
  exists (e <| core ::= nu_filled w va r |>). split; [done|]. by apply nu_filled_inv.
Qed.

(** A translation through the caches keeps the invariant, and a result that is
    not an exception is a 64-bit address. *)
Definition tr_fits (r : TranslateResult) : Prop := is_exception r = false -> fits 64 (tr_phys r).

Lemma nutlb_translate_ok w va : fits 64 va -> ok (nutlb_translate model w va) tr_fits.
Proof.
  intros Hva e He. unfold nutlb_translate, gets, mbind, M_bind at 1.
  case_match.
  - eexists _, _. split; [reflexivity|]. split; [done|]. intros _. cbn. unfold nu_phys_addr. fits_tac.
  - destruct (translate_fn_ok va (rw_access w) e He Hva) as (r1 & e1 & Et & He1 & Hf).
    unfold M_bind, when_. unfold rw_access in Et. rewrite Et. destruct (is_exception r1) eqn:Ex; cbn [negb].
    + exists r1, e1. split_and!; [done|done|]. intros ?. congruence.
    + destruct (Hf Ex) as (_ & Hpa & Hans).
      destruct (nutlb_fill_ok w va r1 e1 He1 Hva Hpa Hans) as (e2 & -> & He2).
      exists r1, e2. split_and!; [done|done|by intros _].
Qed.

(** ** The instruction slot *)

Definition nano_filled (va : Z) (r : TranslateResult) (c : MipsCore) : MipsCore :=
  c <| nanotlb ::= <[0%nat := nano_fill_raw (page va) (tr_phys r) (tr_status r .& 0x7)]> |>.

Lemma nano_filled_typed va r : typed (nano_filled va r).
Proof. core_fields. by rewrite length_insert. Qed.

(** The tag of a page carries the valid bit the page number leaves free. *)
Lemma tag_page va va' : (page va .| 1 =? page va' .| 1) = true -> page va = page va'.
Proof.
  intros Hp%Z.eqb_eq. apply Z.bits_inj'. intros i Hi.
  assert (Hb : Z.testbit (page va .| 1) i = Z.testbit (page va' .| 1) i) by by rewrite Hp.
  rewrite !Z.lor_spec in Hb. unfold page in *. rewrite !Z.land_spec, page_mask_bit in * by lia.
  destruct (Z.leb_spec 12 i); [|by rewrite !andb_false_r].
  change 1 with (Z.ones 1) in Hb. rewrite ones_testbit in Hb by lia.
  destruct (Z.ltb_spec i 1); [lia|]. by rewrite !orb_false_r in Hb.
Qed.

Lemma nano_filled_inv va r (e : Exec) :
  inv e -> fits 64 va -> fits 64 (tr_phys r) ->
  answers model e va Fetch (tr_phys r) (tr_status r .& 0x7) ->
  inv (e <| core ::= nano_filled va r |>).
Proof.
  intros He Hva Hpa Hans. split; [| | |apply He].
  - apply base_upd_core; [apply nano_filled_typed|apply He].
  - eapply sync_frame; [apply He|done|done|done].
  - split.
    + intros va' Hva' Hm. eapply (answers_frame _ e); [done|apply same_view_refl|].
      assert (Hs : nano_slot (core (e <| core ::= nano_filled va r |>)) =
                   nano_fill_raw (page va) (tr_phys r) (tr_status r .& 0x7)).
      { unfold nano_slot. cbn. pose proof (ok_nano_len _ (b_core _ (inv_base _ _ _ He))).
        by destruct (nanotlb (core e)). }
      rewrite Hs in *. unfold nano_matches in Hm. cbn in Hm. apply tag_page in Hm.
      unfold nano_phys_addr, nano_cache_attr_raw, nano_fill_raw. cbn [pa_encoded].
      destruct (filled_phys (tr_phys r) (tr_status r) va' Hpa) as [-> ->].
      apply (answers_page e va); [apply He|done|done|by apply page_same|done].
    + intros w' va' Hva' Hm. eapply (answers_frame _ e); [done|apply same_view_refl|].
      by apply (coh_nu _ _ (inv_coh _ _ _ He)).
Qed.

Lemma nanotlb_translate_ok at_ va :
  at_ <> Debug -> fits 64 va -> ok (nanotlb_translate model at_ va) tr_fits.
Proof.
  intros Hat Hva. destruct at_; [| |by apply nutlb_translate_ok..|done].
  all: try by apply nutlb_translate_ok.
  intros e He. unfold nanotlb_translate, gets, mbind, M_bind at 1. case_match.
  - eexists _, _. split; [reflexivity|]. split; [done|]. intros _. cbn. unfold nano_phys_addr. fits_tac.
  - destruct (translate_fn_ok va Fetch e He Hva) as (r1 & e1 & Et & He1 & Hf).
    unfold M_bind, when_. rewrite Et. destruct (is_exception r1) eqn:Ex; cbn [negb].
    + exists r1, e1. split_and!; [done|done|]. intros ?. congruence.
    + destruct (Hf Ex) as (_ & Hpa & Hans). eexists r1, _. split; [reflexivity|].
      split; [|by intros _]. by apply (nano_filled_inv va r1 e1).
Qed.

(** ** Accesses *)

Definition read_fits (size : Z) (r : Z + Z) : Prop :=
  match r with inl v => fits (8 * size) v | inr _ => True end.

Lemma set_badvaddr_ok va : fits 64 va -> ok (set_badvaddr false va) (fun _ => True).
Proof. intros Hva. apply (ok_upd_core model K _ (badvaddr_benign va Hva)). Qed.

Lemma read_data_ok size va :
  size_ok size -> fits 64 va -> ok (read_data model size va) (read_fits size).
Proof.
  intros Hs Hva. unfold read_data, read_data_impl. case_match.
  { apply (triple_bind _ inv _ _ _ (fun _ => True)); [by apply set_badvaddr_ok|]. intros _ _. by apply triple_ret. }
  apply (triple_bind _ inv _ _ _ tr_fits); [by apply nanotlb_translate_ok|]. intros tr Htr.
  case_match; [by apply triple_ret|]. case_match;
    (apply (triple_bind _ inv _ _ _ (fun p => fits (8 * size) (snd p)));
       [apply (ok_with_cache model K); intros c c' [st v] Hc Hr|intros [st v] Hv; case_match; [by apply triple_ret|];
        apply (triple_bind _ inv _ _ _ (fun _ => True));
          [apply triple_when; [by apply set_badvaddr_ok|done]|intros; by apply triple_ret]]).
  - by apply (law_cache_read _ _ _ _ _ _ _ Hc Hs Hr).
  - by apply (law_bus_read _ _ _ _ _ _ Hc Hs Hr).
Qed.

Lemma write_finish_ok (m : M Z) va (b : Z -> bool) :
  fits 64 va -> ok m (fun _ => True) ->
  ok (st ← m; when_ (b st) (set_badvaddr false va);; mret st) (fun _ => True).
Proof.
  intros Hva Hm. apply (triple_bind _ inv _ _ _ (fun _ => True)); [done|]. intros st _.
  apply (triple_bind _ inv _ _ _ (fun _ => True)).
  - apply triple_when; [by apply set_badvaddr_ok|done].
  - intros _ _. by apply triple_ret.
Qed.

Lemma write_data_ok size va v : size_ok size -> fits 64 va -> ok (write_data model size va v) (fun _ => True).
Proof.
  intros Hs Hva. unfold write_data, write_data_impl. case_match.
  { apply (triple_bind _ inv _ _ _ (fun _ => True)); [by apply set_badvaddr_ok|]. intros _ _. by apply triple_ret. }
  apply (triple_bind _ inv _ _ _ tr_fits); [by apply nanotlb_translate_ok|]. intros tr Htr.
  case_match; [by apply triple_ret|]. case_match.
  - apply write_finish_ok; [done|]. apply (ok_with_cache model K). intros c c' st Hc Hw.
    split; [by eapply law_cache_write|done].
  - apply (ok_with_cache model K). intros c c' st Hc Hw. split; [by eapply law_bus_write|done].
Qed.

Lemma write64_masked_ok va v m : fits 64 va -> ok (write_data64_masked model va v m) (fun _ => True).
Proof.
  intros Hva. unfold write_data64_masked, write_data64_masked_impl.
  apply (triple_bind _ inv _ _ _ tr_fits); [by apply nanotlb_translate_ok|]. intros tr Htr.
  case_match; [by apply triple_ret|]. case_match.
  - apply write_finish_ok; [done|]. apply (ok_with_cache model K). intros c c' st Hc Hw.
    split; [by eapply law_cache_write64|done].
  - apply (ok_with_cache model K). intros c c' st Hc Hw. split; [by eapply law_bus_write64|done].
Qed.

(** A fetch hands out a slot fit for decoding. *)
Definition fetch_fits (f : FetchInstrResult) : Prop :=
  match f with FetchHit _ _ d => slot_fits d | FetchFail _ => True end.

Lemma ok_set_ins f :
  (forall i, fits 32 (imm i) -> fits 32 (raw i) -> fits 32 (imm (f i)) /\ fits 32 (raw (f i))) ->
  ok (modify (fun e => e <| ins ::= f |>)) (fun _ => True).
Proof.
  intros Hf. apply triple_modify. intros e He.
  eapply (inv_frame model K); [exact He| |done|done|apply same_view_refl|done|done].
  destruct (inv_base _ _ e He) as [? ? ? ? [? ?] ?]. constructor; try done. cbn. by apply Hf.
Qed.

Lemma fetch_instr_ok va : fits 64 va -> ok (fetch_instr model va) fetch_fits.
Proof.
  intros Hva. unfold fetch_instr, fetch_instr_impl.
  apply (triple_bind _ inv _ _ _ tr_fits); [by apply nanotlb_translate_ok|]. intros tr Htr.
  case_match; [by apply triple_ret|]. case_match.
  - apply (triple_bind _ inv _ _ _ (fun p => slot_fits (snd p))).
    + apply (ok_with_cache model K). intros c c' [st d] Hc Hf. by apply (law_fetch _ _ _ _ _ _ Hc Hf).
    + intros [st d] Hd. apply (triple_bind _ inv _ _ _ (fun _ => True)).
      * apply triple_when; [by apply set_badvaddr_ok|done].
      * intros _ _. apply triple_ret. by case_match.
  - apply (triple_bind _ inv _ _ _ (fun p => fits 32 (snd p))).
    { apply (ok_with_cache model K). intros c c' [st v] Hc Hr.
      apply (law_bus_read c 4 (tr_phys tr) c' st v Hc); [unfold size_ok; lia|exact Hr]. }
    intros [st v] Hv. case_match; [|by apply triple_ret]. intros e He.
    destruct (ok_set_ins (fun i => i <| flags := FLAG_NOT_DECODED |> <| raw := v |>)) with e
      as ([] & e2 & E & He2 & _); [done|done|].
    injection E as <-. eexists _, _. split; [reflexivity|]. split; [exact He2|].
    destruct (b_ins _ (inv_base _ _ _ He)). by constructor.
Qed.

End mem.

End CpuInvMem.
