(* ===== verification/CpuInvInstr.v ===== *)
(** * Every instruction keeps the executor's invariant

    The instruction handlers of [CpuInstr] and [step_int], shown to keep
    [inv] by walking their bodies with the triples of the primitives. *)

From S2P Require Import Prelude Tlb TlbShape CpuTimer CpuCore CpuDecode CpuExec CpuInstr.
From S2P Require Import CpuPages CpuLaws CpuInv CpuInvMem.
Import Tlb TlbShape CpuCore CpuDecode CpuExec CpuInstr CpuSegments CpuPages CpuLaws CpuInv CpuInvMem.

Module CpuInvInstr.

Create HintDb cpu.

(** ** The timer stays in range *)

Lemma claim_ip7_timer t k : timer_ok t -> timer_ok (fst (CpuTimer.claim_ip7 t k)).
Proof.
  intros []. unfold CpuTimer.claim_ip7. repeat case_match; try done.
  constructor; cbn; try done. fits_tac.
Qed.

Lemma materialize_timer t now b : timer_ok t -> timer_ok (fst (CpuTimer.materialize_count t now b)).
Proof.
  intros Ht. unfold CpuTimer.materialize_count. case_match; [done|]. case_match; [done|].
  assert (Hset : forall t', timer_ok t' -> timer_ok (t' <| CpuTimer.count_read_cycle := CpuTimer.cycles t |>))
    by (intros t' []; by constructor).
  apply Hset. case_match; [done|]. cbn zeta. case_match; [apply claim_ip7_timer|]; by destruct Ht.
Qed.

Lemma materialize_u32 t now b : fits 32 (snd (CpuTimer.materialize_count t now b)).
Proof. unfold CpuTimer.materialize_count. repeat case_match; apply u32_fits. Qed.

Lemma read_count_timer t now : timer_ok t ->
  timer_ok (fst (CpuTimer.read_count t now)) /\ fits 64 (snd (CpuTimer.read_count t now)).
Proof.
  intros Ht. unfold CpuTimer.read_count, CpuTimer.count_now.
  pose proof (materialize_timer t now true Ht) as Hm. pose proof (materialize_u32 t now true) as Hu.
  destruct (CpuTimer.materialize_count t now true) as [t' v]. cbn in *.
  split; [by destruct Hm|]. by apply (fits_mono 32).
Qed.

Lemma remove_shot_timer t : timer_ok t -> timer_ok (CpuTimer.remove_shot t).
Proof. intros []. unfold CpuTimer.remove_shot. by case_match. Qed.

Lemma schedule_timer t now : timer_ok t -> timer_ok (CpuTimer.schedule_compare_timer t now).
Proof.
  intros Ht. unfold CpuTimer.schedule_compare_timer. case_match; [done|]. case_match; [done|].
  by destruct (remove_shot_timer t Ht).
Qed.

Lemma write_count_timer t now v : timer_ok t -> timer_ok (CpuTimer.write_count t now v).
Proof.
  intros []. unfold CpuTimer.write_count, CpuTimer.reanchor_count_and_reschedule.
  apply schedule_timer. by case_match.
Qed.

Lemma write_compare_timer t now v : timer_ok t -> timer_ok (CpuTimer.write_compare t now v).
Proof.
  intros Ht. unfold CpuTimer.write_compare, CpuTimer.compare_store.
  assert (Ha : timer_ok (CpuTimer.arm_ip7_sequence t)) by (by destruct Ht).
  pose proof (materialize_timer _ now false Ha) as Hm.
  destruct (CpuTimer.materialize_count _ now false) as [t' n]. cbn [fst] in Hm.
  apply schedule_timer. unfold CpuTimer.compare_classify.
  assert (Hc : timer_ok (CpuTimer.compare_ack (t' <| CpuTimer.cp0_compare := u32 v |>))).
  { destruct Hm. constructor; cbn; try done; fits_tac. }
  case_match; [done|]. case_match; [done|]. by apply claim_ip7_timer.
Qed.

Lemma disarm_timer t : timer_ok t -> timer_ok (CpuTimer.disarm_compare_timer t).
Proof.
  intros Ht. unfold CpuTimer.disarm_compare_timer. case_match; [by apply remove_shot_timer|by destruct Ht].
Qed.

(** ** Register updates *)

Lemma read_gpr_fits c r : core_ok c -> fits 64 (read_gpr c r).
Proof.
  intros Hc. unfold read_gpr. destruct (nth_lookup_or_length (gpr c) (Z.to_nat r) 0) as [Hl|Hl].
  - eapply Forall_lookup_1; [apply (ok_gpr c Hc)|exact Hl].
  - rewrite nth_overflow by done. by split.
Qed.

Lemma write_gpr_benign r v : fits 64 v -> benign (fun c => write_gpr c r v).
Proof.
  intros Hv. core_fields.
  - by rewrite !length_insert.
  - apply Forall_insert; [by apply Forall_insert|by split].
  - apply list_lookup_insert_eq. rewrite length_insert. lia.
Qed.

Lemma set_pc_benign f : (forall c, core_ok c -> fits 64 (f c)) -> benign (fun c => c <| pc := f c |>).
Proof. intros Hf c Hc. pose proof (Hf c Hc) as Hv. revert c Hc Hv. core_fields. Qed.

Lemma update_random_ok c :
  core_ok c ->
  0 <= cp0_random (cp0 (update_random c)) < tlb_entries c /\
  (cp0_wired (cp0 c) < tlb_entries c -> cp0_wired (cp0 c) <= cp0_random (cp0 (update_random c))).
Proof.
  intros Hc. pose proof (ok_entries c Hc). pose proof (ok_random c Hc). pose proof (ok_unwired c Hc).
  pose proof (ok_wired _ (ok_cp0 c Hc)) as [Hw _].
  unfold update_random. case_match eqn:E1; [cbn; lia|]. case_match; [cbn; lia|].
  case_match; [|by split]. cbn. apply Z.ltb_ge in E1.
  match goal with |- context [?a mod ?b] => pose proof (Z.mod_pos_bound a b ltac:(lia)) end. lia.
Qed.

Lemma update_random_benign : benign update_random.
Proof.
  intros c Hc. destruct (update_random_ok c Hc) as [Hr Hw].
  assert (Hx : update_random c = c \/ exists r n, update_random c =
    c <| cp0 ::= (fun p => p <| cp0_random := r |> <| cp0_random_cycle := n |>) |>).
  { unfold update_random. repeat case_match; first [by left|right; by eexists _, _]. }
  destruct Hx as [->|(r & n & Hx)]; [done|]. rewrite Hx in Hr, Hw |- *. revert c Hc Hr Hw Hx. core_fields.
Qed.

Lemma deliver_typed status : typed (fun c => deliver_exception c status).
Proof.
  intros c Hc. unfold deliver_exception, deliver_exception_at.
  assert (Hp : fits 64 (u64 (pc c - 4))) by fits_tac.
  case_match; [revert c Hc Hp|].
  - core_fields; try fits_tac. all: by repeat case_match.
  - set (cause := (cp0_cause (cp0 c) .& bnot 32 CAUSE_EXCCODE_MASK) .| (status .& CAUSE_EXCCODE_MASK)).
    assert (Hcause : fits 32 cause).
    { pose proof (ok_cause _ (ok_cp0 _ Hc)). unfold cause. fits_tac. }
    match goal with |- context [let '(_, _) := ?x in _] => destruct x as [ca ep] eqn:E end.
    assert (He : fits 32 ca /\ fits 64 ep).
    { pose proof (ok_epc _ (ok_cp0 _ Hc)). pose proof (ok_pc _ Hc).
      repeat case_match; simplify_eq; split; (done || fits_tac). }
    clear E. destruct He as [Hca Hep]. clearbody cause. revert c Hc Hp Hca Hep Hcause. core_fields.
    by repeat case_match.
Qed.

Lemma reset_typed now : typed (fun c => reset c true now).
Proof. core_fields. intros _. apply ok_random0. Qed.

(** ** CP0 accesses *)

Lemma set_tm_benign t : timer_ok t -> benign (fun c => c <| tm := t |>).
Proof. intros []. core_fields. Qed.

Lemma read_cp0_ok c reg now c' v :
  core_ok c -> read_cp0 c reg now = (c', v) ->
  (core_ok c' /\ tlb_entries c' = tlb_entries c /\ key c' = key c /\ tcaches c' = tcaches c) /\ fits 64 v.
Proof.
  intros Hc. assert (Hself : core_ok c /\ tlb_entries c = tlb_entries c /\ key c = key c /\ tcaches c = tcaches c) by done.
  pose proof (ok_cp0 c Hc) as Hp. assert (H32 : forall x, fits 32 x -> fits 64 x) by (intros; by apply (fits_mono 32)).
  unfold read_cp0. repeat case_match; try (intros [= <- <-]; split; [done|]);
    try (destruct Hp; first [done|by apply H32|fits_tac|by split]).
  all: try (apply (ok_compare _ (ok_timer c Hc))).
  - intros [= <- <-]. pose proof (read_count_timer (tm c) now (ok_timer c Hc)) as [Ht Hv].
    match goal with H : CpuTimer.read_count _ _ = _ |- _ => rewrite H in Ht, Hv end. cbn in Ht, Hv.
    split; [|done]. by apply (set_tm_benign t).
  - intros [= <- <-]. split; [by apply update_random_benign|].
    destruct (update_random_ok c Hc). pose proof (ok_entries c Hc). split; [lia|].
    apply (Z.lt_trans _ 64); [lia|done].
Qed.

Ltac reg_cases := repeat match goal with
  | |- context [match ?x with _ => _ end] => is_var x; destruct x
  end.

Lemma write_cp0_cases c reg v now :
  core_ok c -> fits 64 v ->
  let c' := fst (write_cp0 c reg v now) in
  core_ok c' /\ tlb_entries c' = tlb_entries c /\ tcaches c' = tcaches c /\
  snd (write_cp0 c reg v now) = (reg =? 12) /\
  (reg <> 12 -> cp0_status (cp0 c') = cp0_status (cp0 c)) /\
  (reg <> 12 -> reg <> 10 -> reg <> 16 -> key c' = key c).
Proof.
  intros Hc Hv. pose proof (write_count_timer (tm c) now v (ok_timer c Hc)) as Hcount.
  pose proof (write_compare_timer (tm c) now v (ok_timer c Hc)) as Hcmp.
  assert (Hu : fits 64 (u32 v)) by fits_tac.
  destruct Hc as [? ? ? ? ? ? ? [] [] ? ? ? ? ? ? ? ?].
  unfold write_cp0; reg_cases; cbn [fst snd];
  (split; [repeat match goal with
           | |- core_ok _ => constructor | |- cp0_ok _ => constructor | |- timer_ok _ => constructor end;
           cbn; first [done|fits_tac|lia|apply Hcount|apply Hcmp]
         |split; [done|split; [done|split; [done|split; [done|try done]]]]]).
Qed.

(** ** Entry to the kernel *)

Definition vectors : list Z :=
  [0xFFFFFFFFBFC00000; 0xFFFFFFFFBFC00200; 0xFFFFFFFFBFC00280; 0xFFFFFFFFBFC00300; 0xFFFFFFFFBFC00380;
   0xFFFFFFFF80000000; 0xFFFFFFFF80000080; 0xFFFFFFFF80000180; 0xFFFFFFFFA0000100].

(** In kernel mode at an exception or reset vector. *)
Definition entered (c : MipsCore) : Prop :=
  has (cp0_status (cp0 c)) (STATUS_EXL .| STATUS_ERL) = true /\
  In (pc c) vectors /\ in_delay_slot c = false.

Lemma has_lor_l s a b : has s a = true -> has s (a .| b) = true.
Proof.
  unfold has. rewrite !negb_true_iff, !Z.eqb_neq, Z.land_lor_distr_r. intros Ha Hz.
  by apply Z.lor_eq_0_iff in Hz as [Hz _].
Qed.

Lemma has_lor_r s a b : has s b = true -> has s (a .| b) = true.
Proof. rewrite Z.lor_comm. apply has_lor_l. Qed.

Lemma has_set s b : has b b = true -> has (s .| b) b = true.
Proof.
  unfold has. rewrite !negb_true_iff, !Z.eqb_neq. intros Hb Hz. apply Hb.
  apply Z.bits_inj'. intros i Hi. apply (f_equal (fun x => Z.testbit x i)) in Hz.
  rewrite !Z.land_spec, Z.lor_spec, Z.bits_0 in *. by destruct (Z.testbit s i), (Z.testbit b i).
Qed.

Lemma deliver_enters c status : entered (deliver_exception c status).
Proof.
  unfold deliver_exception, deliver_exception_at. case_match.
  - split_and!; [|cbn; case_match; cbn; tauto|done]. apply has_lor_r. by apply has_set.
  - destruct (if has (cp0_status _) _ then _ else _) as [ca ep].
    split_and!; [|cbn; repeat case_match; cbn; tauto|done]. apply has_lor_l. by apply has_set.
Qed.

(** ** Triples of the executor's methods *)

(** How an instruction ends: with the mode and the TLB as [K] has them, or in
    the kernel. *)
Definition out {T C} `{TlbLaws T} `{MemLaws C} (model : CpuModel) (K : Z * Z * Z -> T -> Prop)
    (e : Exec T C) : Prop :=
  inv model any e /\ (K (key (core e)) (tlb e) \/ entered (core e)).

Section exec.
Context {T C : Type} `{TlbLaws T} `{MemLaws C} (model : CpuModel) (Hmodel : model_ok model).
Context (K : Z * Z * Z -> T -> Prop) `{!Stable K}.

Notation Exec := (Exec T C).
Notation M := (M T C).
Notation inv := (inv model K).
Notation ok m Q := (triple inv m inv Q).
Notation keeps m := (ok (m : M _) (fun _ => True)).
Notation ends m := (triple inv (m : M _) (out model K) (fun _ => True)).

Lemma inv_any (e : Exec) : inv e -> CpuInv.inv model any e.
Proof. by intros []. Qed.

Lemma inv_out (e : Exec) : inv e -> out model K e.
Proof. intros He. split; [by apply inv_any|left; apply He]. Qed.

Lemma gpr_ok r : ok (gpr_ r : M Z) (fits 64).
Proof. apply ok_get_core. intros c Hc. by apply read_gpr_fits. Qed.

Lemma set_gpr_ok r v : fits 64 v -> keeps (set_gpr r v).
Proof. intros. by apply (ok_upd_core model K), write_gpr_benign. Qed.

Lemma pc_ok : ok (get_core pc : M Z) (fits 64).
Proof. apply ok_get_core. apply ok_pc. Qed.

Lemma core_ok' : ok (gets core : M MipsCore) core_ok.
Proof. apply triple_gets. intros e He. apply He. Qed.

Lemma slot_ok : ok (get_core in_delay_slot : M bool) (fun _ => True).
Proof. by apply ok_get_core. Qed.

Lemma ret_ok {A} (a : A) : keeps (mret a).
Proof. by apply triple_ret. Qed.

Lemma ret_ends {A} (a : A) : ends (mret a).
Proof. intros e He. exists a, e. split_and!; [done|by apply inv_out|done]. Qed.

Lemma resync_keeps (F : MipsCore -> Prop) :
  (forall c, F c -> F (flush c)) ->
  triple (fun e => base e /\ F (core e)) (resync_privilege_state : M unit)
    (fun e => CpuInv.inv model any e /\ F (core e)) (fun _ => True).
Proof.
  intros HF e [Hb He]. destruct (resync_inv model any e (conj Hb I)) as ([] & e' & E & He' & _).
  exists tt, e'. split_and!; [done|done| |done]. injection E as <-. by apply (HF (core e)).
Qed.

(** An exception ends in the kernel, from any well-formed state. *)
Lemma handle_exception_base status :
  triple base (handle_exception status : M Z) (fun e => CpuInv.inv model any e /\ entered (core e)) (fun _ => True).
Proof.
  apply (triple_bind _ base _ _ _ (fun _ => True)); [apply triple_base_cache; intros; by apply law_set_llbit|].
  intros _ _. apply (triple_bind _ base _ _ _ (fun _ => True)).
  { apply triple_when; [|done]. apply (triple_bind _ base _ _ _ (fits 32)).
    - apply triple_base_with_cache. intros c c' v Hc Ht. by apply (law_cache_err c).
    - intros v Hv. apply triple_base_core. core_fields. }
  intros _ _. apply (triple_bind _ (fun e => base e /\ entered (core e)) _ _ _ (fun _ => True)).
  { apply triple_modify. intros e He. split; [by apply (base_upd_core _ e (deliver_typed status))|apply deliver_enters]. }
  intros _ _. eapply triple_bind; [by apply (resync_keeps entered)|]. intros _ _. by apply triple_ret.
Qed.

Lemma handle_exception_ok status : ends (handle_exception status).
Proof.
  intros e He. destruct (handle_exception_base status e (inv_base _ _ _ He)) as (s & e' & E & [Hi Hen] & _).
  exists s, e'. split_and!; [done| |done]. split; [done|by right].
Qed.

Lemma flush_ok : keeps nanotlb_invalidate.
Proof. eapply triple_pre; [|by apply flush_inv]. by intros e []. Qed.

Lemma resync_ok : keeps resync_privilege_state.
Proof. eapply triple_pre; [|by apply resync_inv]. by intros e []. Qed.

Lemma llbit_ok b : keeps (upd_cache (fun c => set_llbit c b)).
Proof. apply (ok_upd_cache model K). intros. by apply law_set_llbit. Qed.

Lemma pc_step_benign n : benign (fun c => c <| pc := u64 (pc c + n) |>).
Proof. core_fields. Qed.

Lemma pc_target_benign : benign (fun c => c <| pc := delay_slot_target c |> <| in_delay_slot := false |>).
Proof. core_fields. Qed.

Lemma badvaddr_pc_benign : benign (fun c => c <| cp0 ::= (fun p => p <| cp0_badvaddr := pc c |>) |>).
Proof. core_fields. Qed.

Lemma branch_benign target : fits 64 target ->
  benign (fun c => c <| delay_slot_target := target |> <| in_delay_slot := true |> <| pc := u64 (pc c + 4) |>).
Proof. intros. core_fields. Qed.

Lemma jump_benign target : fits 64 target -> benign (fun c => c <| pc := target |>).
Proof. intros. core_fields. Qed.

Lemma ce_benign x : benign (fun c => c <| cp0 ::= (fun p => p <| cp0_cause :=
  (cp0_cause p .& bnot 32 CAUSE_CE_MASK) .| shl 32 x CAUSE_CE_SHIFT |>) |>).
Proof. core_fields. Qed.

End exec.

#[export] Hint Resolve gpr_ok set_gpr_ok pc_ok core_ok' slot_ok ret_ok handle_exception_ok flush_ok
  resync_ok llbit_ok ok_upd_core pc_step_benign pc_target_benign badvaddr_pc_benign branch_benign
  jump_benign ce_benign u32_fits u64_fits : cpu.
#[export] Hint Resolve ret_ends | 10 : cpu.
#[export] Hint Extern 1 (Stable _) => apply _ : cpu.

(** Ranges of the values the handlers compute. *)
Ltac in_range := solve [fits_tac | by split | eauto with cpu word].

(** Walks a computation: binds by the triple of their first part, then the
    branches. *)
Ltac ok_walk := cbv beta; repeat first
  [ progress intros
  | solve [eauto 3 with cpu]
  | match goal with
    | |- triple _ (mbind _ _) _ _ => eapply triple_bind; [solve [eauto 3 with cpu]|]; cbv beta
    | |- triple _ (mbind _ (when_ _ _)) _ _ =>
        eapply (triple_bind _ _ _ _ _ (fun _ => True)); [apply triple_when; [|done]|]
    | |- triple _ (if ?b then _ else _) _ _ => destruct b eqn:?
    | |- triple _ (match ?x with _ => _ end) _ _ => destruct x eqn:?
    | |- triple _ (when_ _ _) _ _ => apply triple_when; [|done]
    end ].

Section terminals.
Context {T C : Type} `{TlbLaws T} `{MemLaws C} (model : CpuModel) (Hmodel : model_ok model).
Context (K : Z * Z * Z -> T -> Prop) `{!Stable K}.
Notation M := (M T C).
Notation inv := (inv model K).
Notation keeps m := (triple inv (m : M _) inv (fun _ => True)).
Notation ends m := (triple inv (m : M _) (out model K) (fun _ => True)).

Lemma misaligned_ok : ends misaligned_fetch_exception.
Proof. unfold misaligned_fetch_exception. ok_walk. Qed.
#[local] Hint Resolve misaligned_ok : cpu.

Lemma check_pc_ok : ends check_pc_alignment.
Proof. unfold check_pc_alignment. ok_walk. Qed.

Lemma complete_ok : ends handle_exec_complete.
Proof. unfold handle_exec_complete. ok_walk. Qed.

Lemma branch_delay_ok target : fits 64 target -> ends (branch_delay target).
Proof. intros. unfold branch_delay. ok_walk. Qed.

Lemma likely_skip_ok : ends handle_branch_likely_skip.
Proof. unfold handle_branch_likely_skip. ok_walk. Qed.

Lemma not_taken_ok : ends handle_branch_not_taken.
Proof. unfold handle_branch_not_taken. ok_walk. apply branch_delay_ok. fits_tac. Qed.

#[local] Hint Resolve complete_ok : cpu.
Lemma finish_ok s : ends (finish_status s).
Proof. unfold finish_status. ok_walk. Qed.

Lemma unusable_ok ce : ends (cpu_unusable ce).
Proof. unfold cpu_unusable, upd_cp0. ok_walk. Qed.

Lemma raise_ok code : ends (raise code).
Proof. apply handle_exception_ok. Qed.

End terminals.

#[export] Hint Resolve misaligned_ok check_pc_ok complete_ok branch_delay_ok likely_skip_ok not_taken_ok
  finish_ok unusable_ok raise_ok : cpu.

(** ** Handlers *)

Section handlers.
Context {T C : Type} `{TlbLaws T} `{MemLaws C} (model : CpuModel) (Hmodel : model_ok model).
Context (K : Z * Z * Z -> T -> Prop) `{!Stable K}.
Notation M := (M T C).
Notation inv := (inv model K).
Notation keeps m := (triple inv (m : M _) inv (fun _ => True)).
Notation ends m := (triple inv (m : M _) (out model K) (fun _ => True)).

Lemma alu_rd_ok d f : (forall a b, fits 64 a -> fits 64 b -> fits 64 (f a b)) -> ends (alu_rd d f).
Proof. intros Hf. unfold alu_rd. ok_walk. Qed.

Lemma alu_rt_ok d f : (forall a, fits 64 a -> fits 64 (f a)) -> ends (alu_rt d f).
Proof. intros Hf. unfold alu_rt. ok_walk. Qed.

Lemma checked_rd_ok d w f : ends (checked_rd d w f).
Proof. unfold checked_rd. ok_walk. Qed.

Lemma checked_rt_ok d w i : ends (checked_rt d w i).
Proof. unfold checked_rt. ok_walk. Qed.

Lemma move_if_ok d p : ends (move_if d p).
Proof. unfold move_if. ok_walk. Qed.

Lemma movci_ok d : ends (exec_movci d).
Proof. unfold exec_movci. ok_walk. Qed.

Lemma hilo_benign h l : fits 64 h -> fits 64 l -> benign (fun c => c <| lo := l |> <| hi := h |>).
Proof. intros. core_fields. Qed.

Lemma hilo_ok d f :
  (forall a b h l, fits 64 a -> fits 64 b -> f a b = Some (h, l) -> fits 64 h /\ fits 64 l) -> ends (hilo d f).
Proof.
  intros Hf. unfold hilo, set_hilo. ok_walk.
  match goal with E : f _ _ = Some _ |- _ => apply Hf in E as [? ?]; [|done|done] end.
  eapply triple_bind; [by apply (ok_upd_core model K), hilo_benign|]. ok_walk.
Qed.

Lemma hi_ok : triple inv (get_core hi : M Z) inv (fits 64).
Proof. apply ok_get_core. apply ok_hi. Qed.
Lemma lo_ok : triple inv (get_core lo : M Z) inv (fits 64).
Proof. apply ok_get_core. apply ok_lo. Qed.
Lemma set_hi_benign v : fits 64 v -> benign (fun c => c <| hi := v |>).
Proof. intros. core_fields. Qed.
Lemma set_lo_benign v : fits 64 v -> benign (fun c => c <| lo := v |>).
Proof. intros. core_fields. Qed.

Lemma trap_rr_ok d p : ends (trap_rr d p).
Proof. unfold trap_rr, trap_if. ok_walk. Qed.
Lemma trap_ri_ok d p : ends (trap_ri d p).
Proof. unfold trap_ri, trap_if. ok_walk. Qed.

Lemma link_ok r : keeps (link r).
Proof. unfold link. ok_walk. Qed.
#[local] Hint Resolve link_ok : cpu.

Lemma branch_if_ok d b o : ends o -> ends (branch_if d b o).
Proof. intros. unfold branch_if. ok_walk. Qed.
#[local] Hint Resolve branch_if_ok : cpu.

Lemma branch_rr_ok d p o : ends o -> ends (branch_rr d p o).
Proof. intros. unfold branch_rr. ok_walk. Qed.
Lemma branch_r_ok d p o : ends o -> ends (branch_r d p o).
Proof. intros. unfold branch_r. ok_walk. Qed.
Lemma branch_link_ok d p o : ends o -> ends (branch_link d p o).
Proof. intros. unfold branch_link. ok_walk. Qed.

Lemma jump_nop_ok target : fits 64 target -> ends (jump_nop target).
Proof. intros. unfold jump_nop, exec_complete_pc_set. ok_walk. Qed.

Lemma immi64_fits d : instr_ok d -> fits 64 (immi64 d).
Proof. intros Hd. apply (fits_mono 32); [apply Hd|lia]. Qed.

Lemma jump_target_fits d p : instr_ok d -> fits 64 (jump_target d p).
Proof. intros. pose proof (immi64_fits d). unfold jump_target. fits_tac. Qed.
#[local] Hint Resolve jump_nop_ok jump_target_fits : cpu.

Lemma branch_nop_ok d p : ends (branch_nop d p).
Proof. unfold branch_nop. ok_walk. Qed.

(** *** Memory *)

Lemma addr_of_ok d : triple inv (addr_of d : M Z) inv (fits 64).
Proof. unfold addr_of. ok_walk. apply triple_ret. fits_tac. Qed.

Lemma small_fits size v : size_ok size -> fits (8 * size) v -> fits 64 v.
Proof. intros Hs Hv. apply (fits_mono (8 * size)); [done|]. destruct Hs as [->|[->|[->| ->]]]; lia. Qed.

Lemma load_ok d size f :
  size_ok size -> (forall v, fits 64 v -> fits 64 (f v)) -> ends (load model d size f).
Proof.
  intros Hs Hf. unfold load. eapply triple_bind; [apply addr_of_ok|]. intros va Hva.
  eapply triple_bind; [by apply read_data_ok|]. intros [v|s] Hv; [|ok_walk].
  eapply triple_bind; [|ok_walk]. apply (set_gpr_ok model K), Hf. by apply (small_fits size).
Qed.

Lemma store_ok d size : size_ok size -> ends (store model d size).
Proof.
  intros Hs. unfold store. eapply triple_bind; [apply addr_of_ok|]. intros va Hva.
  eapply triple_bind; [apply gpr_ok|]. intros v Hv.
  eapply triple_bind; [by apply write_data_ok|]. ok_walk.
Qed.

Lemma load_part_ok d size f :
  size_ok size -> (forall o v r, 0 <= o < size -> fits 64 v -> fits 64 r -> fits 64 (f o v r)) ->
  ends (load_part model d size f).
Proof.
  intros Hs Hf. unfold load_part. eapply triple_bind; [apply addr_of_ok|]. intros va Hva.
  eapply triple_bind; [apply (read_data_ok model Hmodel K); [done|fits_tac]|]. intros [v|s] Hv; [|ok_walk].
  eapply triple_bind; [apply gpr_ok|]. intros r Hr.
  eapply triple_bind; [|ok_walk]. apply (set_gpr_ok model K), Hf; [|by apply (small_fits size)|done].
  destruct Hs as [->|[->|[->| ->]]]; [apply (land_fits_r 0)|apply (land_fits_r 1)|apply (land_fits_r 2)|apply (land_fits_r 3)];
    by (lia || split).
Qed.

Lemma store_part_ok d f : ends (store_part model d f).
Proof.
  unfold store_part. eapply triple_bind; [apply addr_of_ok|]. intros va Hva.
  eapply triple_bind; [apply gpr_ok|]. intros v Hv. destruct (f va v) as [x m].
  eapply triple_bind; [apply (write64_masked_ok model Hmodel K); fits_tac|]. ok_walk.
Qed.

Lemma fused_load_ok r size va f :
  size_ok size -> fits 64 va -> (forall v, fits 64 v -> fits 64 (f v)) -> keeps (fused_load model r size va f).
Proof.
  intros Hs Hva Hf. unfold fused_load. eapply triple_bind; [by apply read_data_ok|].
  intros [v|s] Hv; [|ok_walk]. eapply triple_bind; [|ok_walk].
  apply (set_gpr_ok model K), Hf. by apply (small_fits size).
Qed.

Lemma fused_store_ok r size va : size_ok size -> fits 64 va -> keeps (fused_store model r size va).
Proof.
  intros. unfold fused_store. eapply triple_bind; [apply gpr_ok|]. intros v Hv. by apply write_data_ok.
Qed.

Lemma fused_access_ok op r va :
  fits 64 va -> existsb (Z.eqb op) fusable_ops = true -> keeps (fused_access model op r va).
Proof.
  intros Hva Hop. unfold fused_access.
  repeat (case_match; [first [apply fused_store_ok; [unfold size_ok; lia|done]|
    apply fused_load_ok; [unfold size_ok; lia|done|intros; first [done|fits_tac]]]|]).
  exfalso. cbn [existsb fusable_ops] in Hop.
  repeat match goal with H : (op =? _) = false |- _ => rewrite H in Hop; clear H end. done.
Qed.

Lemma fused_tail_ok a r : fused_word r = true -> ends (exec_fused_addr_load_store_tail model a r).
Proof.
  intros Hr. unfold exec_fused_addr_load_store_tail. ok_walk.
  eapply triple_bind; [apply fused_access_ok; [fits_tac|exact Hr]|]. ok_walk.
Qed.

(** *** Floating-point moves *)

Lemma pair_index reg : fits 5 reg -> fits 5 (reg .& bnot 32 1).
Proof. intros. by apply land_fits_l. Qed.

Lemma pair_shift reg : 0 <= shl 32 (reg .& 1) 5 < 64.
Proof.
  assert (H1' : fits 1 (reg .& 1)) by (apply land_fits_r; [lia|by split]). destruct H1'.
  unfold shl. rewrite Z.shiftl_mul_pow2 by lia. rewrite wrap_small by (unfold fits; lia). lia.
Qed.

Lemma fpr_get_ok c i : core_ok c -> fits 5 i -> exists v, aget (fpr (fpu c)) i = Some v /\ fits 64 v.
Proof.
  intros Hc [Hi Hi']. destruct (ok_fpr c Hc) as [Hl Hf].
  destruct (aget_Some (fpr (fpu c)) i) as [v Hv]; [rewrite Hl; lia|]. exists v. split; [done|].
  pose proof Hv as [_ Hv']%aget_inv. by eapply Forall_lookup_1 in Hf.
Qed.

Lemma fpr_put_ok c i v : core_ok c -> fits 5 i -> fits 64 v ->
  exists c', fpr_put c i v = Some c' /\ core_ok c' /\ tlb_entries c' = tlb_entries c /\ key c' = key c /\
    tcaches c' = tcaches c /\ cp0_status (cp0 c') = cp0_status (cp0 c).
Proof.
  intros Hc [Hi Hi'] Hv. destruct (ok_fpr c Hc) as [Hl Hf]. unfold fpr_put.
  rewrite aset_Some by (rewrite Hl; lia). cbn [mbind option_bind]. eexists. split; [done|].
  split_and!; try done. destruct Hc. constructor; try done. cbn.
  split; [by rewrite length_insert|]. by apply Forall_insert.
Qed.

Lemma fpr_read_ok fr1 fr0 reg :
  (forall c, core_ok c -> exists v, fr1 c reg = Some v /\ fits 64 v) ->
  (forall c, core_ok c -> exists v, fr0 c reg = Some v /\ fits 64 v) ->
  triple inv (fpr_read fr1 fr0 reg : M Z) inv (fits 64).
Proof.
  intros H1' H0' e He. pose proof (b_core _ (inv_base _ _ _ He)) as Hc.
  destruct (H1' _ Hc) as (v1 & E1 & ?), (H0' _ Hc) as (v0 & E0 & ?). unfold fpr_read.
  destruct (fpr_fr e); rewrite ?E1, ?E0; by eexists _, e.
Qed.

Lemma fpr_write_ok fr1 fr0 reg v :
  let good f := forall c, core_ok c -> exists c', f c reg v = Some c' /\ core_ok c' /\
    tlb_entries c' = tlb_entries c /\ key c' = key c /\ tcaches c' = tcaches c /\
    cp0_status (cp0 c') = cp0_status (cp0 c) in
  good fr1 -> good fr0 -> keeps (fpr_write fr1 fr0 reg v).
Proof.
  intros good H1' H0' e He. pose proof (b_core _ (inv_base _ _ _ He)) as Hc.
  assert (Hgo : forall c', core_ok c' -> tlb_entries c' = tlb_entries (core e) -> key c' = key (core e) ->
    tcaches c' = tcaches (core e) -> inv (e <| core := c' |>)).
  { intros c' Hc' Hn Hk Ht. eapply (inv_frame model K); [exact He| |done|done|apply same_view_refl|done|done].
    apply base_set_core; [apply He|done|done]. }
  destruct (H1' _ Hc) as (c1 & E1 & ? & ? & ? & ? & _), (H0' _ Hc) as (c0 & E0 & ? & ? & ? & ? & _).
  unfold fpr_write. destruct (fpr_fr e); rewrite ?E1, ?E0; cbn [mbind option_bind]; eexists tt, _; split_and!; eauto.
Qed.

Lemma read_l_ok reg : fits 5 reg -> triple inv (fpr_read_l reg : M Z) inv (fits 64).
Proof. intros Hr. apply fpr_read_ok; intros c Hc; apply fpr_get_ok; try done. by apply pair_index. Qed.

Lemma read_w_ok reg : fits 5 reg -> triple inv (fpr_read_w reg : M Z) inv (fits 64).
Proof.
  intros Hr. apply fpr_read_ok; intros c Hc.
  - destruct (fpr_get_ok c reg Hc Hr) as (v & E & _). unfold read_fpr_w_fr1. rewrite E.
    eexists. split; [done|]. apply (fits_mono 32); [apply u32_fits|lia].
  - destruct (fpr_get_ok c _ Hc (pair_index reg Hr)) as (v & E & _). unfold read_fpr_w_fr0. rewrite E.
    eexists. split; [done|]. apply (fits_mono 32); [apply u32_fits|lia].
Qed.

Lemma write_l_ok reg v : fits 5 reg -> fits 64 v -> keeps (fpr_write_l reg v).
Proof. intros. apply fpr_write_ok; intros c Hc; apply fpr_put_ok; try done. by apply pair_index. Qed.

Lemma write_w_ok reg v : fits 5 reg -> fits 64 v -> keeps (fpr_write_w reg v).
Proof.
  intros Hr Hv. apply fpr_write_ok; intros c Hc.
  - destruct (fpr_get_ok c reg Hc Hr) as (w & E & ?). unfold write_fpr_w_fr1. rewrite E. cbn [mbind option_bind].
    apply fpr_put_ok; [done|done|]. apply lor_fits; [lia| |done]. apply land_fits_l; [lia|done].
  - destruct (fpr_get_ok c _ Hc (pair_index reg Hr)) as (w & E & ?). unfold write_fpr_w_fr0. rewrite E.
    cbn [mbind option_bind]. apply fpr_put_ok; [done|by apply pair_index|]. apply lor_fits; [lia| |fits_tac].
    apply land_fits_l; [lia|done].
Qed.

Lemma fp_guarded_ok m : ends m -> ends (fp_guarded m).
Proof. intros Hm. unfold fp_guarded. eapply triple_bind; [apply core_ok'|]. intros c Hc. case_match; [ok_walk|done]. Qed.

Lemma fpu_control_benign reg v : benign (fun c => write_fpu_control c reg v).
Proof.
  intros c Hc. unfold write_fpu_control. destruct Hc.
  repeat case_match; split_and!; try done; by constructor.
Qed.

Lemma index_of_ok d : triple inv (index_of d : M Z) inv (fits 64).
Proof.
  unfold index_of. eapply triple_bind; [apply gpr_ok|]. intros a Ha.
  eapply triple_bind; [apply gpr_ok|]. intros b Hb. apply triple_ret. fits_tac.
Qed.

Lemma fp_load_ok addr size put :
  size_ok size -> triple inv (addr : M Z) inv (fits 64) -> (forall v, fits 64 v -> keeps (put v)) ->
  ends (fp_load model addr size put).
Proof.
  intros Hs Ha Hp. apply fp_guarded_ok. eapply triple_bind; [exact Ha|]. intros va Hva.
  eapply triple_bind; [by apply read_data_ok|]. intros [v|s] Hv; [|ok_walk].
  eapply triple_bind; [|ok_walk]. apply Hp. by apply (small_fits size).
Qed.

Lemma fp_store_ok addr size get :
  size_ok size -> triple inv (addr : M Z) inv (fits 64) -> triple inv (get : M Z) inv (fits 64) ->
  ends (fp_store model addr size get).
Proof.
  intros Hs Ha Hg. apply fp_guarded_ok. eapply triple_bind; [exact Ha|]. intros va Hva.
  eapply triple_bind; [exact Hg|]. intros v Hv. eapply triple_bind; [by apply write_data_ok|]. ok_walk.
Qed.

Lemma fp_move_ok d b get put :
  keeps b -> triple inv (get (rd d) : M Z) inv (fits 64) -> (forall v, fits 64 v -> keeps (put (sa d) v)) ->
  ends (fp_move d b get put).
Proof.
  intros Hb Hg Hp. apply fp_guarded_ok. eapply triple_bind; [exact Hb|]. intros t _.
  eapply (triple_bind _ _ _ _ _ (fun _ => True)); [|ok_walk]. apply triple_when; [|done].
  eapply triple_bind; [exact Hg|]. exact Hp.
Qed.

Lemma fp_zero_ok d : keeps (fp_zero d).
Proof. unfold fp_zero. ok_walk. Qed.
Lemma fp_nonzero_ok d : keeps (fp_nonzero d).
Proof. unfold fp_nonzero. ok_walk. Qed.
Lemma fp_cond_ok d : keeps (fp_cond d).
Proof. by apply ok_get_core. Qed.

Lemma mfc1_ok d : instr_ok d -> ends (exec_mfc1 d).
Proof.
  intros Hd. apply fp_guarded_ok. eapply triple_bind; [apply read_w_ok, Hd|]. intros v Hv. ok_walk.
Qed.

Lemma dmfc1_ok d : instr_ok d -> ends (exec_dmfc1 d).
Proof.
  intros Hd. apply fp_guarded_ok. eapply triple_bind; [apply read_l_ok, Hd|]. intros v Hv. ok_walk.
Qed.

Lemma mtc1_ok d : instr_ok d -> ends (exec_mtc1 d).
Proof.
  intros Hd. apply fp_guarded_ok. eapply triple_bind; [apply gpr_ok|]. intros v Hv.
  eapply triple_bind; [|ok_walk]. apply write_w_ok; [apply Hd|]. apply (fits_mono 32); [apply u32_fits|lia].
Qed.

Lemma dmtc1_ok d : instr_ok d -> ends (exec_dmtc1 d).
Proof.
  intros Hd. apply fp_guarded_ok. eapply triple_bind; [apply gpr_ok|]. intros v Hv.
  eapply triple_bind; [|ok_walk]. apply write_l_ok; [apply Hd|done].
Qed.

Lemma cfc1_ok d : ends (exec_cfc1 d).
Proof.
  apply fp_guarded_ok. eapply (triple_bind _ _ _ _ _ (fun _ => True)); [by apply ok_get_core|]. intros v _. ok_walk.
Qed.

Lemma ctc1_ok d : ends (exec_ctc1 d).
Proof.
  apply fp_guarded_ok. eapply triple_bind; [apply gpr_ok|]. intros v Hv.
  eapply triple_bind; [apply (ok_upd_core model K), fpu_control_benign|]. intros _ _.
  eapply (triple_bind _ _ _ _ _ (fun _ => True)); [by apply ok_get_core|]. intros f _. ok_walk.
Qed.

Lemma bc1_ok d : ends (exec_bc1 d).
Proof.
  apply fp_guarded_ok. eapply triple_bind; [apply pc_ok|]. intros q Hq.
  eapply (triple_bind _ _ _ _ _ (fun _ => True)); [by apply ok_get_core|]. intros c _.
  unfold branch_target. ok_walk.
Qed.

(** *** Load linked and store conditional *)

Lemma lladdr_benign a v pa :
  fits 64 a -> benign (fun c => c <| cp0 ::= (fun p => p <| cp0_lladdr := a |>) |> <| ll_value := v |> <| ll_phys := pa |>).
Proof. intros. core_fields. Qed.

Lemma load_linked_ok d size f :
  size_ok size -> (forall v, fits 64 v -> fits 64 (f v)) -> ends (load_linked model d size f).
Proof.
  intros Hs Hf. unfold load_linked. eapply triple_bind; [apply addr_of_ok|]. intros va Hva.
  eapply triple_bind; [by apply read_data_ok|]. intros [v|s] Hv; [|ok_walk].
  eapply triple_bind; [apply (set_gpr_ok model K), Hf; by apply (small_fits size)|]. intros _ _.
  eapply triple_bind; [by apply nanotlb_translate_ok|]. intros tr Htr.
  eapply (triple_bind _ _ _ _ _ (fun _ => True)); [|ok_walk].
  unfold when_. destruct (is_exception tr) eqn:Ex; cbn [negb]; [by apply triple_ret|].
  specialize (Htr Ex).
  eapply triple_bind; [apply (ok_upd_cache model K); intros; by apply law_set_lladdr|]. intros _ _.
  eapply triple_bind; [apply (ok_upd_core model K), lladdr_benign|ok_walk].
  apply land_fits_l; [lia|]. apply shiftr_fits; [lia|done].
Qed.

Lemma store_conditional_ok d size : size_ok size -> ends (store_conditional model d size).
Proof.
  intros Hs. unfold store_conditional. eapply triple_bind; [apply addr_of_ok|]. intros va Hva.
  eapply (triple_bind _ _ _ _ _ (fun _ => True)); [by apply triple_gets|]. intros ll _.
  assert (Hb : forall b, fits 64 (bool_to_Z b)) by (intros []; by split).
  destruct ll; cbn [negb]; [|eapply triple_bind; [apply (set_gpr_ok model K); by split|ok_walk]].
  eapply triple_bind; [by apply nanotlb_translate_ok|]. intros tr Htr. case_match; [ok_walk|].
  eapply triple_bind; [apply gpr_ok|]. intros v Hv. eapply triple_bind; [apply core_ok'|]. intros c Hc.
  eapply (triple_bind _ _ _ _ _ (fun _ => True)).
  { case_match; [|by apply triple_ret]. apply (ok_with_cache model K). intros m m' r Hm Hcas.
    split; [by eapply law_cas|done]. }
  intros [o|] _.
  - eapply triple_bind; [by apply (set_gpr_ok model K)|]. ok_walk.
  - eapply triple_bind; [by apply write_data_ok|]. intros st _.
    eapply (triple_bind _ _ _ _ _ (fun _ => True)); [|ok_walk]. apply triple_when; [|done].
    eapply triple_bind; [apply (set_gpr_ok model K); by split|]. ok_walk.
Qed.

(** *** CACHE *)

Lemma ecc_benign v : fits 32 v -> benign (fun c => c <| cp0 ::= (fun p => p <| cp0_ecc := v |>) |>).
Proof. intros. core_fields. Qed.

Lemma taglo_benign r : benign (fun c => c <| cp0 ::= (fun p =>
  p <| cp0_taglo := r .& 0xFFFFFFFF |> <| cp0_taghi := u32 (r .>> 32) |>) |>).
Proof. core_fields. Qed.

Lemma set_ecc_ok v : keeps (upd_cache (fun m => set_cache_ecc m v)).
Proof. apply (ok_upd_cache model K). intros. by apply law_set_ecc. Qed.
#[local] Hint Resolve set_ecc_ok taglo_benign ecc_benign : cpu.

Lemma exec_cache_ok d : ends (exec_cache model d).
Proof.
  unfold exec_cache. eapply triple_bind; [apply core_ok'|]. intros c Hc. case_match; [ok_walk|].
  eapply triple_bind; [apply addr_of_ok|]. intros va Hva.
  eapply (triple_bind _ _ _ _ _ (fun _ => True)).
  { case_match; [|by apply triple_ret]. eapply triple_weaken; [by apply nanotlb_translate_ok|done]. }
  intros tr _. case_match; [ok_walk|]. eapply triple_bind; [apply core_ok'|]. intros c' Hc'.
  eapply (triple_bind _ _ _ _ _ (fun _ => True)); [apply triple_when; [apply set_ecc_ok|done]|]. intros _ _.
  eapply triple_bind.
  { apply (ok_with_cache model K _ (fits 64)). intros m m' r Hm Hop. by apply (law_cache_op _ _ _ _ _ _ Hm Hop). }
  intros r Hr. eapply (triple_bind _ _ _ _ _ (fun _ => True)).
  { apply triple_when; [|done]. apply (triple_bind _ inv _ _ _ (fits 32)).
    - apply triple_gets. intros e He. apply law_cache_op_ecc, He.
    - unfold upd_cp0. ok_walk. }
  intros _ _. eapply (triple_bind _ _ _ _ _ (fun _ => True)); [|ok_walk].
  apply triple_when; [|done]. unfold upd_cp0. ok_walk.
Qed.

Lemma exec_reserved_ok d : ends (exec_reserved d).
Proof. apply raise_ok. Qed.
#[local] Hint Resolve exec_reserved_ok : cpu.

End handlers.

#[export] Hint Resolve link_ok jump_nop_ok jump_target_fits set_ecc_ok exec_reserved_ok : cpu.

(** ** Privileged instructions *)

Section privileged.
Context {T C : Type} `{TlbLaws T} `{MemLaws C} (model : CpuModel) (Hmodel : model_ok model).
Notation M := (M T C).
Notation K := (any (T := T)).
Notation inv := (inv model K).
Notation keeps m := (triple inv (m : M _) inv (fun _ => True)).
Notation ends m := (triple inv (m : M _) (out model K) (fun _ => True)).

Lemma flush_any : triple (fun e => base e /\ sync e) (nanotlb_invalidate : M unit) inv (fun _ => True).
Proof. eapply triple_pre; [|apply (flush_inv model K)]. by intros e []. Qed.

Lemma resync_any : triple base (resync_privilege_state : M unit) inv (fun _ => True).
Proof. eapply triple_pre; [|apply (resync_inv model K)]. done. Qed.

(** *** COP0 *)

Lemma core_read_cp0_ok reg : triple inv (core_read_cp0 reg : M Z) inv (fits 64).
Proof.
  intros e He. unfold core_read_cp0. destruct (read_cp0 _ _ _) as [c v'] eqn:E.
  apply read_cp0_ok in E as [(Hc & Hn & Hk & Ht) Hv]; [|apply He].
  exists v', (e <| core := c |>). split_and!; [done| |done].
  eapply (inv_frame model K); [exact He| |done|done|apply same_view_refl|done|done].
  apply base_set_core; [apply He|done|done].
Qed.

(** Between the register write and its side effects the translation caches
    may be stale, if EntryHi or Config was written. *)
Definition written (reg : Z) (e : Exec T C) : Prop :=
  base e /\ sync e /\ (reg <> 10 -> reg <> 16 -> coh model e).

Lemma core_write_cp0_ok reg v :
  fits 64 v -> triple inv (core_write_cp0 reg v : M unit) (written reg) (fun _ => True).
Proof.
  intros Hv e He. unfold core_write_cp0, mbind, M_bind at 1.
  destruct (write_cp0_cases (core e) reg v (host_now e)) as (Hc & Hn & Ht & Hb & Hst & Hk); [apply He|done|].
  destruct (write_cp0 _ _ _ _) as [c b]. cbn [fst snd] in *. subst b.
  assert (Hbase : base (e <| core := c |>)) by (apply base_set_core; [apply He|done|done]).
  unfold when_. destruct (Z.eqb_spec reg 12) as [->|Hne].
  - destruct (resync_inv model K _ (conj Hbase I)) as (u & e' & E & [] & _). by exists u, e'.
  - exists tt, (e <| core := c |>). split; [done|]. split; [|done]. split; [done|]. split.
    + eapply sync_frame; [apply He|by apply Hst|done|done].
    + intros. eapply coh_frame; [apply He|by apply Hk|done|apply same_view_refl].
Qed.

Lemma lladdr_mask_benign m : benign (fun c => c <| cp0 ::= (fun p => p <| cp0_lladdr ::= (fun a => a .& m) |>) |>).
Proof. core_fields. Qed.

Lemma written_inv reg e : reg <> 10 -> reg <> 16 -> written reg e -> inv e.
Proof. intros H10 H16 (Hb & Hs & Hc). by split; auto. Qed.

Lemma side_effects_ok reg : triple (written reg) (handle_cp0_side_effects model reg : M unit) inv (fun _ => True).
Proof.
  unfold handle_cp0_side_effects. destruct (Z.eqb_spec reg 10) as [->|H10]; [|destruct (Z.eqb_spec reg 16) as [->|H16]].
  - cbn [Z.eqb Pos.eqb when_]. intros e (Hb & Hs & _). by apply (flush_any e).
  - cbn [Z.eqb Pos.eqb when_]. intros e (Hb & Hs & _). by apply (flush_any e).
  - eapply triple_pre; [intros e; by apply written_inv|]. cbn [when_].
    eapply (triple_bind _ _ _ _ _ (fun _ => True)); [apply triple_when; [|done]|].
    { apply (ok_upd_core model K _ (lladdr_mask_benign _)). }
    ok_walk.
Qed.

Lemma mtc0_ok reg v : fits 64 v ->
  ends (core_write_cp0 reg v;; handle_cp0_side_effects model reg;; handle_exec_complete).
Proof.
  intros. eapply triple_bind; [by apply core_write_cp0_ok|]. intros _ _.
  eapply triple_bind; [apply side_effects_ok|]. ok_walk.
Qed.

(** *** TLB instructions *)

Lemma tlb_gets_ok : triple inv (gets tlb : M T) inv (fun t => tlb_ok t).
Proof. apply triple_gets. intros e He. apply He. Qed.

Lemma tlbr_benign_typed en : entry_fits en -> typed (fun c => c <| cp0 ::= (fun p =>
  p <| cp0_entryhi := entry_hi en .& bnot 64 0x1000 |>
    <| cp0_entrylo0 := (fst (entry_lo en) .& bnot 64 1) .| ((entry_hi en .>> 12) .& 1) |>
    <| cp0_entrylo1 := (snd (entry_lo en) .& bnot 64 1) .| ((entry_hi en .>> 12) .& 1) |>
    <| cp0_pagemask := page_mask en |>) |>).
Proof. intros (? & ? & ? & ?). core_fields. Qed.

Lemma typed_flush_ok f (m : M Z) :
  typed f -> (forall c, cp0_status (cp0 (f c)) = cp0_status (cp0 c)) -> keeps m ->
  keeps (upd_core f;; nanotlb_invalidate;; m).
Proof.
  intros Hf Hs Hm. apply (triple_bind _ (fun e => base e /\ sync e) _ _ _ (fun _ => True)).
  { apply triple_modify. intros e He. split; [apply base_upd_core; [done|apply He]|].
    eapply sync_frame; [apply He|apply Hs|done|done]. }
  intros _ _. eapply triple_bind; [apply flush_any|]. intros _ _. exact Hm.
Qed.

Lemma write_tlb_flush_ok i en (m : M Z) :
  0 <= i -> entry_fits en -> ends m -> ends (write_tlb i en;; nanotlb_invalidate;; m).
Proof.
  intros Hi Hen Hm. apply (triple_bind _ (fun e => base e /\ sync e) _ _ _ (fun _ => True)).
  - intros e He. unfold write_tlb.
    destruct (law_write (tlb e) i en) as (t' & -> & Hok & Hn & _); [apply He|done|done|].
    exists tt, (e <| tlb := t' |>). split; [done|]. split; [|done]. split; [|apply He].
    destruct (inv_base _ _ _ He). constructor; try done. cbn. congruence.
  - intros _ _. eapply triple_bind; [apply flush_any|]. intros _ _. exact Hm.
Qed.

Lemma read_entry_ok t i :
  tlb_ok t -> 0 <= i < tlb_num_entries t ->
  triple inv (fun e => en ← tlb_read t i; Some (en, e)) inv entry_fits.
Proof.
  intros Ht Hi e He. destruct (law_read t i Ht Hi) as (en' & -> & Hf). by exists en', e.
Qed.

Lemma slot_index_nonneg c : 0 <= cp0_index (cp0 c) .& CP0_INDEX_SLOT_MASK.
Proof. apply (land_fits_r 6); [lia|by split]. Qed.

Lemma tlbr_ok : keeps exec_tlbr.
Proof.
  unfold exec_tlbr. eapply triple_bind; [apply core_ok'|]. intros c Hc.
  eapply triple_bind; [apply tlb_gets_ok|]. intros t Ht. case_match eqn:Ei; [by apply triple_ret|].
  apply Z.leb_gt in Ei. eapply triple_bind; [apply read_entry_ok; [done|]|].
  { split; [apply slot_index_nonneg|done]. }
  intros en Hen. apply typed_flush_ok; [by apply tlbr_benign_typed|done|by apply triple_ret].
Qed.

Lemma cp0_entry_fits c : core_ok c -> entry_fits (create_tlb_entry_from_cp0 c).
Proof. intros Hc. destruct (ok_cp0 c Hc). split_and!; cbn; try done. fits_tac. Qed.

Lemma tlbwi_ok : ends exec_tlbwi.
Proof.
  unfold exec_tlbwi. eapply triple_bind; [apply core_ok'|]. intros c Hc.
  eapply triple_bind; [apply tlb_gets_ok|]. intros t Ht. case_match; [ok_walk|].
  apply write_tlb_flush_ok; [apply slot_index_nonneg|by apply cp0_entry_fits|ok_walk].
Qed.

Lemma tlbwr_ok : ends exec_tlbwr.
Proof.
  unfold exec_tlbwr. eapply triple_bind; [apply (ok_upd_core model K _ update_random_benign)|]. intros _ _.
  eapply triple_bind; [apply core_ok'|]. intros c Hc.
  eapply triple_bind; [apply tlb_gets_ok|]. intros t Ht.
  apply write_tlb_flush_ok; [|by apply cp0_entry_fits|ok_walk].
  pose proof (law_num t Ht). apply Z.mod_pos_bound. lia.
Qed.

Lemma index_benign v : fits 32 v -> benign (fun c => c <| cp0 ::= (fun p => p <| cp0_index := v |>) |>).
Proof. intros. core_fields. Qed.

Lemma tlbp_ok : keeps exec_tlbp.
Proof.
  unfold exec_tlbp. eapply triple_bind; [apply core_ok'|]. intros c Hc.
  eapply triple_bind; [apply tlb_gets_ok|]. intros t Ht.
  eapply triple_bind; [|ok_walk]. apply (ok_upd_core model K), index_benign. by apply law_probe.
Qed.

(** *** WAIT and ERET *)

Lemma cycles_benign n : benign (fun c => c <| tm ::= (fun t =>
  t <| CpuTimer.cycles ::= (fun k => u64 (k + n)) |>) |>).
Proof. core_fields. Qed.

Lemma observe_inv p obs (e : Exec T C) :
  inv e -> fits 64 p -> Forall (fun o => fits 64 (fst o)) obs ->
  inv (e <| core ::= (fun c => c <| tm ::= (fun t => t <| CpuTimer.interrupts := p |>) |>) |> <| wait_obs := obs |>).
Proof.
  intros He Hp Ho. eapply (inv_frame model K); [exact He| |done|done|apply same_view_refl|done|done].
  assert (Ht : benign (fun c => c <| tm ::= (fun t => t <| CpuTimer.interrupts := p |>) |>)) by core_fields.
  destruct (inv_base _ _ e He) as [Hc ? ? ? ? ?]. destruct (Ht _ Hc) as (? & ? & _). by constructor.
Qed.

(** A stall that ends leaves the invariant; whether it ends is up to the
    host. *)
Lemma wait_loop_inv obs issued e u e' :
  Forall (fun o => fits 64 (fst o)) obs -> inv e -> wait_loop obs issued e = Some (u, e') -> inv e'.
Proof.
  intros Ho. revert issued e. induction Ho as [|[p el] obs Hp Ho IH]; intros issued e He; [done|].
  cbn [wait_loop]. unfold modify, gets, mbind, M_bind at 1 2.
  pose proof (observe_inv p obs e He Hp Ho) as He1.
  case_match; [by intros [= <- <-]|]. case_match; [by intros [= <- <-]|].
  unfold M_bind, when_. destruct (issued <? el / 10).
  - destruct (ok_upd_core model K _ (cycles_benign (el / 10 - issued)) _ He1) as ([] & e2 & E & He2 & _).
    injection E as <-. intros Hw. eapply IH; [|exact Hw]. exact He2.
  - cbn. by apply IH.
Qed.

Lemma wait_inv e s e' : inv e -> exec_wait e = Some (s, e') -> inv e'.
Proof.
  intros He. unfold exec_wait, gets, mbind, M_bind at 1. case_match; [by intros [= <- <-]|].
  unfold M_bind. destruct (complete_ok model K e He) as (st & e1 & -> & [He1 _] & _).
  destruct (wait_loop (wait_obs e1) 0 e1) as [[u e2]|] eqn:E; [|done]. intros [= <- <-].
  eapply wait_loop_inv; [apply (inv_base _ _ _ He1)|exact He1|exact E].
Qed.

Lemma eret_status_typed m : typed (fun c => c <| cp0 ::= (fun p => p <| cp0_status ::= (fun s => s .& bnot 32 m) |>) |>).
Proof. core_fields. Qed.

Lemma eret_pc_benign v : fits 64 v -> benign (fun c => c <| pc := v |> <| in_delay_slot := false |>).
Proof. intros. core_fields. Qed.

Lemma eret_ok : ends exec_eret.
Proof.
  unfold exec_eret. eapply triple_bind; [apply core_ok'|]. intros c Hc. eapply triple_pre; [apply (inv_base model K)|].
  apply (triple_bind _ base _ _ _ (fun _ => True)).
  { apply (triple_base_core (fun c => c <| cp0 ::= _ |>)). apply eret_status_typed. }
  intros _ _. apply (triple_bind _ base _ _ _ (fun _ => True)).
  { apply triple_base_cache. intros. by apply law_set_llbit. }
  intros _ _. eapply triple_bind; [apply resync_any|]. intros _ _.
  eapply triple_bind; [|intros _ _; apply (check_pc_ok model K)].
  apply (ok_upd_core model K (fun c' => c' <| pc := _ |> <| in_delay_slot := false |>)), eret_pc_benign.
  destruct (ok_cp0 c Hc). by case_match.
Qed.

#[local] Hint Resolve core_read_cp0_ok tlbr_ok tlbwi_ok tlbwr_ok tlbp_ok eret_ok : cpu.

(** The one instruction that may not return. *)
Definition is_wait (d : DecodedInstr) : bool := (rs d =? RS_TLB) && (funct d =? FUNCT_WAIT).

Lemma exec_tlb_ok d : (funct d =? FUNCT_WAIT) = false -> ends (exec_tlb d).
Proof. intros Hw. unfold exec_tlb. rewrite Hw. ok_walk. Qed.

Lemma exec_cop0_ok d : is_wait d = false -> ends (exec_cop0 model d).
Proof.
  intros Hw. unfold exec_cop0. eapply triple_bind; [apply core_ok'|]. intros c Hc. case_match; [ok_walk|].
  case_match; [unfold exec_mfc0; ok_walk|]. case_match; [unfold exec_dmfc0; ok_walk|].
  case_match; [|case_match; [|case_match eqn:Er; [apply exec_tlb_ok; unfold is_wait in Hw; by rewrite Er in Hw|ok_walk]]].
  - unfold exec_mtc0. eapply triple_bind; [apply gpr_ok|]. intros v Hv. apply mtc0_ok. by fits_tac.
  - unfold exec_dmtc0. eapply triple_bind; [apply gpr_ok|]. intros v Hv. by apply mtc0_ok.
Qed.

End privileged.

(** ** Dispatch *)

Section dispatch.
Context {T C : Type} `{TlbLaws T} `{MemLaws C} (model : CpuModel) (Hmodel : model_ok model).
Context (K : Z * Z * Z -> T -> Prop) `{!Stable K}.
Notation M := (M T C).
Notation inv := (inv model K).
Notation keeps m := (triple inv (m : M _) inv (fun _ => True)).
Notation ends m := (triple inv (m : M _) (out model K) (fun _ => True)).

(** [K] says nothing, or that COP0 is unusable. *)
Definition guarded : Prop :=
  (forall k t, K k t) \/ (forall c t, K (key c) t -> cp0_usable c = false).

Context (Hguard : guarded).

Lemma cop0_ends d : is_wait d = false -> ends (exec_cop0 model d).
Proof.
  intros Hw e He. destruct Hguard as [HK|HK].
  - destruct (exec_cop0_ok model d Hw e (inv_any model K e He)) as (s & e' & E & [Hi _] & _).
    exists s, e'. split_and!; [done| |done]. split; [done|left; apply HK].
  - unfold exec_cop0, gets, mbind, M_bind. rewrite (HK (core e) (tlb e)) by apply He. cbn [negb].
    by apply (unusable_ok model K).
Qed.

(** *** Ranges of the results *)

Lemma sa_shift_fits d v : instr_ok d -> fits 64 v -> fits 64 (v .>> sa d).
Proof. intros Hd Hv. apply shiftr_fits; [apply Hd|done]. Qed.
Lemma sa32_shift_fits d v : instr_ok d -> fits 64 v -> fits 64 (v .>> (sa d + 32)).
Proof. intros Hd Hv. apply shiftr_fits; [|done]. destruct (io_sa d Hd). lia. Qed.
Lemma var_shift_fits a v : fits 64 v -> fits 64 (v .>> (a .& 0x3F)).
Proof. intros. apply shiftr_fits; [|done]. apply (land_fits_r 6); [lia|by split]. Qed.

Lemma divmod_fits a b : fits 64 a -> fits 64 b -> (b =? 0) = false -> fits 64 (a mod b) /\ fits 64 (a / b).
Proof.
  intros [Ha Ha'] [Hb Hb'] Hz%Z.eqb_neq. split; split.
  - apply Z.mod_pos_bound. lia.
  - pose proof (Z.mod_pos_bound a b). lia.
  - apply Z.div_pos; lia.
  - apply Z.div_lt_upper_bound; nia.
Qed.

Lemma ldl_fits o v r : fits 64 r -> fits 64 (ldl_merge o v r).
Proof. intros. unfold ldl_merge. fits_tac. Qed.

Lemma ldr_fits o v r : 0 <= o < 8 -> fits 64 v -> fits 64 r -> fits 64 (ldr_merge o v r).
Proof.
  intros Ho Hv Hr. unfold ldr_merge. apply lor_fits; [lia| |fits_tac]. apply shiftr_fits; [lia|done].
Qed.

#[local] Hint Resolve hi_ok lo_ok set_hi_benign set_lo_benign fused_tail_ok : cpu.
#[local] Hint Resolve sa_shift_fits sa32_shift_fits var_shift_fits immi64_fits : word.

Ltac value := intros; cbv beta; first [done | fits_tac | case_match; by split].

Ltac handler_tac := lazymatch goal with
  | |- triple _ (alu_rd _ _) _ _ => apply (alu_rd_ok model K); value
  | |- triple _ (alu_rt _ _) _ _ => apply (alu_rt_ok model K); value
  | |- triple _ (checked_rd _ _ _) _ _ => apply (checked_rd_ok model K)
  | |- triple _ (checked_rt _ _ _) _ _ => apply (checked_rt_ok model K)
  | |- triple _ (move_if _ _) _ _ => apply (move_if_ok model K)
  | |- triple _ (trap_rr _ _) _ _ => apply (trap_rr_ok model K)
  | |- triple _ (trap_ri _ _) _ _ => apply (trap_ri_ok model K)
  | |- triple _ (branch_rr _ _ _) _ _ => apply (branch_rr_ok model K); eauto with cpu
  | |- triple _ (branch_r _ _ _) _ _ => apply (branch_r_ok model K); eauto with cpu
  | |- triple _ (branch_link _ _ _) _ _ => apply (branch_link_ok model K); eauto with cpu
  | |- triple _ (branch_nop _ _) _ _ => apply (branch_nop_ok model K)
  | |- triple _ (load _ _ _ _) _ _ => apply (load_ok model Hmodel K); [unfold size_ok; lia|value]
  | |- triple _ (store _ _ _) _ _ => apply (store_ok model Hmodel K); unfold size_ok; lia
  | |- triple _ (store_part _ _ _) _ _ => by apply (store_part_ok model Hmodel K)
  | |- triple _ (store_conditional _ _ _) _ _ => apply (store_conditional_ok model Hmodel K); unfold size_ok; lia
  | |- triple _ (load_linked _ _ _ _) _ _ => apply (load_linked_ok model Hmodel K); [unfold size_ok; lia|value]
  | |- triple _ (load_part _ _ _ _) _ _ =>
      apply (load_part_ok model Hmodel K); [unfold size_ok; lia|intros; first [by apply ldl_fits|by apply ldr_fits|value]]
  | |- triple _ (hilo _ _) _ _ => apply (hilo_ok model K); intros ? ? ? ? ? ?; cbn zeta;
      repeat case_match; intros [= <- <-]; first [split; fits_tac|by apply divmod_fits]
  end.

Ltac unfold_handler := lazymatch goal with
  |- triple _ ?m _ _ => let h := get_head m in unfold h
  end.

(** The handlers that compute on the host's FPU. *)
Definition fp_arith (h : Handler) : bool :=
  match h with
  | H_fadd_s | H_fsub_s | H_fmul_s | H_fdiv_s | H_fsqrt_s | H_fabs_s | H_fneg_s | H_fround_l_s
  | H_ftrunc_l_s | H_fceil_l_s | H_ffloor_l_s | H_fround_w_s | H_ftrunc_w_s | H_fceil_w_s
  | H_ffloor_w_s | H_frecip_s | H_frsqrt_s | H_fcvt_d_s | H_fcvt_w_s | H_fcvt_l_s | H_fcc_s
  | H_fadd_d | H_fsub_d | H_fmul_d | H_fdiv_d | H_fsqrt_d | H_fabs_d | H_fneg_d | H_fround_l_d
  | H_ftrunc_l_d | H_fceil_l_d | H_ffloor_l_d | H_fround_w_d | H_ftrunc_w_d | H_fceil_w_d
  | H_ffloor_w_d | H_frecip_d | H_frsqrt_d | H_fcvt_s_d | H_fcvt_w_d | H_fcvt_l_d | H_fcc_d
  | H_fcvt_s_w | H_fcvt_d_w | H_fcvt_s_l | H_fcvt_d_l | H_madd_s | H_madd_d | H_msub_s | H_msub_d
  | H_nmadd_s | H_nmadd_d | H_nmsub_s | H_nmsub_d => true
  | _ => false
  end.

(** Neither WAIT nor floating-point arithmetic. *)
Definition returns (d : DecodedInstr) (h : Handler) : bool :=
  match h with H_cop0 => negb (is_wait d) | _ => negb (fp_arith h) end.

Ltac fp_tac :=
  lazymatch goal with
  | |- triple _ (fp_load _ _ _ _) _ _ => apply (fp_load_ok model Hmodel K); [unfold size_ok; lia|apply addr_of_ok || apply index_of_ok|intros]
  | |- triple _ (fp_store _ _ _ _) _ _ => apply (fp_store_ok model Hmodel K); [unfold size_ok; lia|apply addr_of_ok || apply index_of_ok|]
  | |- triple _ (fp_move _ _ _ _) _ _ =>
      apply (fp_move_ok model K); [first [apply ret_ok|apply fp_zero_ok|apply fp_nonzero_ok|apply fp_cond_ok]| |intros]
  | |- triple _ (fp_guarded _) _ _ => apply (fp_guarded_ok model K)
  end.

Ltac fp_control_tac := lazymatch goal with
  | |- triple _ (exec_mfc1 _) _ _ => by apply (mfc1_ok model K)
  | |- triple _ (exec_dmfc1 _) _ _ => by apply (dmfc1_ok model K)
  | |- triple _ (exec_cfc1 _) _ _ => apply (cfc1_ok model K)
  | |- triple _ (exec_mtc1 _) _ _ => by apply (mtc1_ok model K)
  | |- triple _ (exec_dmtc1 _) _ _ => by apply (dmtc1_ok model K)
  | |- triple _ (exec_ctc1 _) _ _ => apply (ctc1_ok model K)
  | |- triple _ (exec_bc1 _) _ _ => apply (bc1_ok model K)
  | |- triple _ (exec_prefx _) _ _ => apply (fp_guarded_ok model K), (complete_ok model K)
  end.

Ltac fpr_tac := cbv beta; lazymatch goal with
  | |- triple _ (fpr_read_l _) _ _ => by apply (read_l_ok model K)
  | |- triple _ (fpr_read_w _) _ _ => by apply (read_w_ok model K)
  | |- triple _ (fpr_write_l _ _) _ _ => apply (write_l_ok model K); [done|first [done|fits_tac]]
  | |- triple _ (fpr_write_w _ _) _ _ => apply (write_w_ok model K); [done|first [done|fits_tac]]
  end.

Lemma handler_ok h d :
  instr_ok d -> handler d = Some h -> returns d h = true -> ends (handler_fn model h d).
Proof.
  intros Hd Hh Hret. pose proof (io_fused d Hd h Hh) as Hfused.
  pose proof (io_rs d Hd). pose proof (io_rt d Hd). pose proof (io_rd d Hd). pose proof (io_sa d Hd).
  destruct h; try discriminate Hret; cbn [handler_fn]; try specialize (Hfused eq_refl).
  all: first [apply (raise_ok model K)|apply (complete_ok model K)|by apply cop0_ends, negb_true_iff|by apply exec_cache_ok|apply (movci_ok model K)|idtac].
  all: try (unfold_handler; handler_tac).
  all: try fp_control_tac.
  all: try (unfold_handler; fp_tac; fpr_tac).
  all: unfold_handler; try unfold exec_lui_imm32; ok_walk.
Qed.

(** [d] is an instruction [exec_decoded_int] carries out, in the state of [c],
    without waiting: any but WAIT and the floating-point arithmetic with
    coprocessor 1 usable. *)
Definition runs (c : MipsCore) (d : DecodedInstr) : bool :=
  match handler d with
  | Some h => returns d h || fp_arith h && negb (has (cp0_status (cp0 c)) STATUS_CU1)
  | None => false
  end.

Lemma fp_arith_fn h : fp_arith h = true -> handler_fn (T := T) (C := C) model h = exec_fp_arith.
Proof. by destruct h. Qed.

Lemma exec_decoded_ok d e :
  instr_ok d -> inv e -> runs (core e) d = true ->
  exists s e', exec_decoded_int model d e = Some (s, e') /\ out model K e'.
Proof.
  intros Hd He. unfold runs, exec_decoded_int. destruct (handler d) as [h|] eqn:Eh; [|done].
  intros [Hr|[Hf Hu]%andb_true_iff]%orb_true_iff.
  - destruct (handler_ok h d Hd Eh Hr e He) as (s & e' & E & Ho & _). by exists s, e'.
  - rewrite fp_arith_fn by done. unfold exec_fp_arith, fp_guarded, gets, mbind, M_bind. rewrite Hu.
    destruct (unusable_ok model K 1 e He) as (s & e' & E & Ho & _). by exists s, e'.
Qed.

(** WAIT included: if it returns. *)
Lemma exec_decoded_out d e s e' :
  instr_ok d -> inv e -> exec_decoded_int model d e = Some (s, e') -> out model K e'.
Proof.
  intros Hd He. destruct (runs (core e) d) eqn:Er.
  - destruct (exec_decoded_ok d e Hd He Er) as (s' & e'' & -> & He'). by intros [= <- <-].
  - unfold runs, exec_decoded_int in *. destruct (handler d) as [h|] eqn:Eh; [|done].
    apply orb_false_iff in Er as [Er Hf]. destruct (fp_arith h) eqn:Ef.
    { rewrite fp_arith_fn by done. cbn [andb] in Hf. unfold exec_fp_arith, fp_guarded, gets, mbind, M_bind. by rewrite Hf. }
    destruct h; try discriminate; cbn [handler_fn]. apply negb_false_iff, andb_true_iff in Er as [Hrs Hfn].
    unfold exec_cop0, gets, mbind, M_bind. apply Z.eqb_eq in Hrs, Hfn. rewrite Hrs.
    case_match eqn:Eu.
    + destruct (unusable_ok model K 0 e He) as (s' & e'' & -> & He' & _). by intros [= <- <-].
    + cbn [Z.eqb Pos.eqb RS_TLB RS_MFC0 RS_DMFC0 RS_MTC0 RS_DMTC0]. unfold exec_tlb. rewrite Hfn. intros Hw.
      destruct Hguard as [HK|HK]; [|by rewrite (HK (core e) (tlb e)) in Eu by apply He].
      split; [|left; apply HK]. eapply wait_inv; [|exact Hw]. by apply (inv_any model K).
Qed.

(** ** One step *)

Lemma decode_slot_ok va cached pa d :
  slot_fits d -> triple inv (decode_slot model va cached pa d : M DecodedInstr) inv instr_ok.
Proof.
  intros [Hi Hr Hd]. unfold decode_slot. case_match eqn:Ef.
  - apply triple_ret, Hd. by apply Z.eqb_eq.
  - pose proof (decode_into_ok (fusion model) (MIPS4 model) d Hi Hr) as Hok.
    apply (triple_bind _ inv _ _ _ (fun _ => True)); [|intros _ _; by apply triple_ret]. destruct cached.
    + apply (ok_upd_cache model K). intros. by apply law_put.
    + apply (ok_set_ins model K (fun _ => decode_into (fusion model) (MIPS4 model) d)). intros _ _ _.
      by destruct Hok.
Qed.

Lemma reset_pending_benign : benign (fun c => c <| in_delay_slot := false |> <| delay_slot_target := 0 |>).
Proof. core_fields. Qed.

Lemma pending_benign p : benign (fun c => c <| cp0 ::= (fun q => q <| cp0_cause :=
  (cp0_cause q .& bnot 32 EXT_INT_MASK) .| (u32 p .& EXT_INT_MASK) |>) |>).
Proof. core_fields. Qed.

(** The preamble lets the step go on, or ends it in the kernel. *)
Lemma soft_reset_ends now :
  triple inv
    (upd_core (fun c => reset c true now);; resync_privilege_state;;
     upd_core (fun c => c <| in_delay_slot := false |> <| delay_slot_target := 0 |>) : M unit)
    (fun e => CpuInv.inv model any e /\ entered (core e)) (fun _ => True).
Proof.
  set (F := fun c => has (cp0_status (cp0 c)) (STATUS_EXL .| STATUS_ERL) = true /\ In (pc c) vectors).
  apply (triple_bind _ (fun e => base e /\ F (core e)) _ _ _ (fun _ => True)).
  { apply triple_modify. intros e He. split; [apply base_upd_core; [apply reset_typed|apply He]|].
    split; [done|by left]. }
  intros _ _. eapply triple_bind; [by apply (resync_keeps model F)|]. intros _ _.
  apply triple_modify. intros e [He [Hs Hp]]. split; [|by split].
  destruct (ok_upd_core model any _ reset_pending_benign e He) as ([] & e' & E & He' & _).
  by injection E as <-.
Qed.

Lemma step_preamble_ok e :
  inv e -> exists r e', step_preamble e = Some (r, e') /\
    match r with None => inv e' | Some _ => out model K e' end.
Proof.
  intros He. unfold step_preamble, step_cycles, gets.
  destruct (ok_upd_core model K _ (cycles_benign 1) e He) as ([] & e1 & E1 & He1 & _).
  unfold mbind, M_bind at 1. rewrite E1. unfold M_bind at 1.
  case_match; [by exists None, e1|]. case_match.
  - destruct (soft_reset_ends (host_now e1) e1 He1) as ([] & e2 & E2 & [Hi Hen] & _).
    exists (Some EXEC_RETRY), e2. split; [|split; [done|by right]].
    unfold mbind, M_bind in E2 |- *. unfold upd_core, modify in E2 |- *.
    destruct (resync_privilege_state _) as [[[] e3]|]; [|done]. injection E2 as <-. done.
  - set (p := CpuTimer.interrupts (tm (core e1))).
    destruct (ok_upd_core model K _ (pending_benign p) e1 He1) as ([] & e2 & E2 & He2 & _).
    unfold upd_cp0. unfold M_bind at 1. rewrite E2. unfold M_bind at 1. case_match.
    + destruct (raise_ok model K EXC_INT e2 He2) as (s & e3 & E3 & He3 & _).
      unfold M_bind. rewrite E3. by exists (Some s), e3.
    + by exists None, e2.
Qed.

(** What a step does before it executes an instruction: it ends there, or
    hands out the instruction at the pc. *)
Definition next_instr : M (Z + DecodedInstr) :=
  early ← step_preamble;
  match early with
  | Some status => mret (inl status)
  | None =>
      p ← get_core pc;
      fetch ← fetch_instr model p;
      match fetch with
      | FetchHit cached pa d => d' ← decode_slot model p cached pa d; mret (inr d')
      | FetchFail status =>
          s ← (if has status EXEC_IS_EXCEPTION then handle_exception status else mret status); mret (inl s)
      end
  end.

Lemma step_int_next e :
  step_int model e =
  (r ← next_instr; match r with inl s => mret s | inr d => exec_decoded_int model d end) e.
Proof.
  unfold step_int, next_instr, mbind, M_bind.
  destruct (step_preamble e) as [[[s|] e1]|]; [done| |done]. unfold get_core, gets.
  destruct (fetch_instr model (pc (core e1)) e1) as [[[c pa d|s] e2]|]; [| |done].
  - by destruct (decode_slot model (pc (core e1)) c pa d e2) as [[d' e3]|].
  - destruct (has s EXEC_IS_EXCEPTION); [|done]. by destruct (handle_exception s e2) as [[s' e3]|].
Qed.

Lemma next_instr_ok e :
  inv e -> exists r e', next_instr e = Some (r, e') /\
    match r with inl _ => out model K e' | inr d => inv e' /\ instr_ok d end.
Proof.
  intros He. unfold next_instr, mbind, M_bind at 1.
  destruct (step_preamble_ok e He) as ([s|] & e1 & -> & He1); [by exists (inl s), e1|].
  unfold get_core, gets, M_bind at 1 2.
  destruct (fetch_instr_ok model Hmodel K (pc (core e1)) (ok_pc _ (b_core _ (inv_base _ _ _ He1))) e1 He1)
    as ([c pa d|s] & e2 & -> & He2 & Hf).
  - destruct (decode_slot_ok (pc (core e1)) c pa d Hf e2 He2) as (d' & e3 & E & He3 & Hd).
    unfold M_bind. rewrite E. by exists (inr d'), e3.
  - unfold M_bind. destruct (has s EXEC_IS_EXCEPTION).
    + destruct (handle_exception_ok model K s e2 He2) as (s' & e3 & -> & He3 & _). by exists (inl s'), e3.
    + exists (inl s), e2. split; [done|by apply inv_out].
Qed.

End dispatch.

End CpuInvInstr.
