(* ===== verification/CpuNew.v ===== *)
(** * Construction: [MipsCore::new] and [MipsExecutor::new]
    (src/src/cpu/mips_core.rs, src/src/cpu/mips_exec.rs)

    The executor over a [MipsTlb], for any memory system and any cache
    geometry; and that what is built meets the executor's invariant. *)

From S2P Require Import Prelude Tlb TlbShape CpuTimer CpuCore CpuDecode CpuExec CpuInstr.
From S2P Require Import CpuPages CpuLaws CpuInv CpuInvMem CpuInvInstr.
Import Tlb TlbShape CpuCore CpuDecode CpuExec CpuInstr CpuSegments CpuPages CpuLaws CpuInv CpuInvMem CpuInvInstr.

Module CpuNew.

(** The constants of a model the constructor reads. *)
Record Geometry := {
  IC_SIZE : Z;
  IC_LINE : Z;
  DC_SIZE : Z;
  DC_LINE : Z;
  L2_SIZE : Z;
  L2_LINE : Z;
  TLB_ENTRIES : Z;
  PRID : Z;
  FIR : Z;
}.

Definition CONFIG_SB : Z := 22.
Definition CONFIG_SC : Z := 17.
Definition CONFIG_BE : Z := 15.
Definition CONFIG_IC : Z := 9.
Definition CONFIG_DC : Z := 6.
Definition CONFIG_IB : Z := 5.
Definition CONFIG_DB : Z := 4.
Definition CONFIG_K0 : Z := 0.

(** [usize::trailing_zeros]: 64 for zero. *)
Fixpoint pos_trailing_zeros (p : positive) : Z :=
  match p with xO p' => 1 + pos_trailing_zeros p' | _ => 0 end.
Definition trailing_zeros (x : Z) : Z :=
  match x with Zpos p => pos_trailing_zeros p | _ => 64 end.

(** The CP0 Config register of a model. *)
Definition config_of (model : CpuModel) (g : Geometry) : Z :=
  if R10K_CACHE_OPS model then
    let log2 n := trailing_zeros (n / 4096) in
    shl 32 (log2 32768) 29 .| shl 32 (log2 32768) 26 .| shl 32 1 15
      .| (if L2_LINE g =? 128 then shl 32 1 13 else 0) .| shl 32 1 16 .| 2
  else
    shl 32 3 CONFIG_K0
      .| shl 32 (if 32 <=? DC_LINE g then 1 else 0) CONFIG_DB
      .| shl 32 (if 32 <=? IC_LINE g then 1 else 0) CONFIG_IB
      .| shl 32 (Z.max 0 (trailing_zeros (DC_SIZE g) - 12)) CONFIG_DC
      .| shl 32 (Z.max 0 (trailing_zeros (IC_SIZE g) - 12)) CONFIG_IC
      .| shl 32 1 CONFIG_BE
      .| shl 32 (if 0 <? L2_SIZE g then 0 else 1) CONFIG_SC
      .| shl 32 (match L2_LINE g with 16 => 0 | 32 => 1 | 64 => 2 | _ => 3 end) CONFIG_SB.

Definition timer_new (now : Z) : Timer :=
  CpuTimer.mkTimer 0 0 0 0 CpuTimer.DEFAULT_COUNT_HZ 0 now false 0 false 0 0 0 false None 0 ∅.

Definition core_new (now : Z) : MipsCore :=
  reset_registers
    {| gpr := replicate 32 0; hi := 0; lo := 0; pc := 0; in_delay_slot := false; delay_slot_target := 0;
       cp0 := {|
         cp0_index := 0; cp0_random := 0; cp0_random_cycle := 0; cp0_entrylo0 := 0; cp0_entrylo1 := 0;
         cp0_context := 0; cp0_pagemask := 0; cp0_wired := 0; cp0_badvaddr := 0; cp0_entryhi := 0;
         cp0_status := 0; cp0_cause := 0; cp0_epc := 0; cp0_prid := 0; cp0_config := 0x8000;
         cp0_lladdr := 0; cp0_watchlo := 0; cp0_watchhi := 0; cp0_xcontext := 0; cp0_ecc := 0;
         cp0_cacheerr := 0; cp0_taglo := 0; cp0_taghi := 0; cp0_errorepc := 0 |};
       fpu := {| fpr := replicate 32 0; fpu_fir := 0; fpu_fccr := 0; fpu_fexr := 0; fpu_fenr := 0;
                 fpu_fcsr := 0; host_rounding := 0 |};
       tm := timer_new now;
       nanotlb := replicate 3 (mkNano 0 0);
       nutlb := replicate 2 (replicate NUM_NUTLB_ENTRIES (mkNu 0 0));
       nutlb_valid := replicate 2 (replicate NUM_NUTLB_WORDS 0);
       ll_value := 0; ll_phys := 0; smp := false; running := false; halted := false;
       tlb_entries := 48; reset_prid := 0x440; reset_fir := 0x500 |} false now.

Section new.
Context {C : Type} `{MemOps C} (model : CpuModel) (g : Geometry).

(** [update_translate_fn] and [update_fpr_mode] end the constructor. *)
Definition executor_new (t : MipsTlb) (c : C) (now : Z) : option (Exec MipsTlb C) :=
  let core := core_new now in
  t ← set_cache_attrs t (cache_attr_table model);
  let core := core <| cp0 ::= (fun p => p <| cp0_config := config_of model g |>) |>
                   <| tlb_entries := TLB_ENTRIES g |> <| reset_prid := PRID g |> <| reset_fir := FIR g |>
                   <| cp0 ::= (fun p => p <| cp0_prid := PRID g |>) |>
                   <| fpu ::= (fun f => f <| fpu_fir := FIR g |>) |> in
  '(_, e) ← (update_translate_fn;; update_fpr_mode)
    (mkExec core t c (false, Kernel) false instr_default now []);
  Some e.

End new.

Record geometry_ok (g : Geometry) : Prop := {
  go_entries : 48 <= TLB_ENTRIES g <= 64;
  go_prid : fits 32 (PRID g);
}.

Lemma config_fits model g : fits 32 (config_of model g).
Proof. unfold config_of. case_match; fits_tac. Qed.

Lemma core_new_ok now : core_ok (core_new now).
Proof.
  constructor; try done.
  - cbn. repeat constructor; done.
  - split; [done|]. cbn. repeat constructor.
  - split; [done|]. cbn. repeat constructor; done.
  - split; [done|]. cbn. repeat constructor; done.
Qed.

(** The model's identity over a new core. *)
Definition identify (model : CpuModel) (g : Geometry) (c : MipsCore) : MipsCore :=
  c <| cp0 ::= (fun p => p <| cp0_config := config_of model g |>) |>
    <| tlb_entries := TLB_ENTRIES g |> <| reset_prid := PRID g |> <| reset_fir := FIR g |>
    <| cp0 ::= (fun p => p <| cp0_prid := PRID g |>) |>
    <| fpu ::= (fun f => f <| fpu_fir := FIR g |>) |>.

Lemma identify_ok model g c :
  geometry_ok g -> core_ok c -> cp0_random (cp0 c) = 47 -> cp0_wired (cp0 c) = 0 -> core_ok (identify model g c).
Proof.
  intros [Hent Hpr] [? ? ? ? ? ? ? [] [] ? ? ? ? ? ? ? ?] Hr Hw. pose proof (config_fits model g).
  constructor; try done; try constructor; try done;
    change (tlb_entries (identify model g c)) with (TLB_ENTRIES g);
    change (cp0_random (cp0 (identify model g c))) with (cp0_random (cp0 c));
    change (cp0_wired (cp0 (identify model g c))) with (cp0_wired (cp0 c)); lia.
Qed.

(** The two updates that end the constructor establish [sync]. *)
Lemma sync_after {T C} `{TlbLaws T} `{MemLaws C} (e : Exec T C) :
  exists e', (update_translate_fn;; update_fpr_mode) e = Some (tt, e') /\ sync e' /\
    core e' = core e /\ tlb e' = tlb e /\ cache e' = cache e /\ ins e' = ins e /\ wait_obs e' = wait_obs e.
Proof. eexists. split; [reflexivity|]. by repeat split. Qed.

(** Nothing valid in either translation cache. *)
Definition empty_caches (c : MipsCore) : Prop :=
  va_tag (nano_slot c) = 0 /\ nutlb_valid c = replicate 2 (replicate NUM_NUTLB_WORDS 0).

Lemma empty_coh {T C} `{TlbLaws T} `{MemLaws C} model (e : Exec T C) : empty_caches (core e) -> coh model e.
Proof.
  intros [Hn Hu]. split.
  - intros va Hva Hm. unfold nano_matches in Hm. rewrite Hn in Hm. apply Z.eqb_eq in Hm. symmetry in Hm.
    by apply Z.lor_eq_0_iff in Hm as [_ Hm].
  - intros w va Hva Hm. apply andb_true_iff in Hm as [_ Hm].
    assert (Hv : nutlb_is_valid (core e) (nutlb_arr w) (nutlb_index va) =
                 nutlb_is_valid (nutlb_clear (core e)) (nutlb_arr w) (nutlb_index va))
      by (unfold nutlb_is_valid; by rewrite Hu).
    rewrite Hv, flushed_nu in Hm; [done|apply nutlb_index_range|apply nutlb_arr_lt].
Qed.

(** The executor is built with its invariant. *)
Lemma executor_new_inv {C} `{MemLaws C} model g t (c : C) now :
  geometry_ok g -> shape t -> num_entries t = TLB_ENTRIES g -> bus_ok c ->
  exists e, executor_new model g t c now = Some e /\ inv model any e /\ core e = identify model g (core_new now).
Proof.
  intros Hg Ht Hn Hc. unfold executor_new.
  destruct (set_cache_attrs_shape t (cache_attr_table model)) as (t' & -> & Ht' & Hn'); [done|done|].
  cbn [mbind option_bind]. fold (identify model g (core_new now)).
  pose proof (identify_ok model g (core_new now) Hg (core_new_ok now) eq_refl eq_refl) as Hok.
  assert (Hem : empty_caches (identify model g (core_new now))) by done.
  assert (Hent : tlb_entries (identify model g (core_new now)) = TLB_ENTRIES g) by done.
  set (c1 := identify model g (core_new now)) in *. clearbody c1.
  destruct (sync_after (mkExec c1 t' c (false, Kernel) false instr_default now []))
    as (e & -> & Hs & Hco & Htl & Hca & Hi & Hw).
  exists e. split; [done|]. cbn in Hco, Htl, Hca, Hi, Hw. split; [|done]. split; [|done| |exact I].
  - constructor; rewrite ?Hco, ?Htl, ?Hca, ?Hi, ?Hw; try done; cbn; congruence.
  - apply empty_coh. by rewrite Hco.
Qed.

End CpuNew.
