(* ===== verification/CpuRam.v ===== *)
(** * A machine to evaluate the theorems on

    Memory as a finite map of bytes, big-endian, behind the passthrough cache
    and the R4000 TLB: the concrete executor the CPU claims are instantiated
    at. *)

From S2P Require Import Prelude Tlb TlbOps TlbShape CpuTimer CpuCore CpuDecode CpuExec CpuInstr.
From S2P Require Import CpuPages CpuLaws CpuInv CpuInvMem CpuInvInstr CpuNew.
Import Tlb TlbShape CpuCore CpuDecode CpuExec CpuInstr CpuSegments CpuPages CpuLaws CpuInv CpuInvMem CpuInvInstr CpuNew.

Module CpuRam.

Definition Ram : Type := gmap Z Z.

Definition byte_at (m : Ram) (pa : Z) : Z := wrap 8 (default 0 (m !! pa)).

(** [n] bytes from [pa], most significant first. *)
Fixpoint load_be (m : Ram) (pa : Z) (n : nat) (acc : Z) : Z :=
  match n with
  | O => acc
  | S n' => load_be m (pa + 1) n' (acc * 256 + byte_at m pa)
  end.

Fixpoint store_be (m : Ram) (pa : Z) (n : nat) (v : Z) : Ram :=
  match n with
  | O => m
  | S n' => store_be (<[pa := wrap 8 (v .>> (8 * Z.of_nat n'))]> m) (pa + 1) n' v
  end.

#[export] Instance ram_busops : BusOps Ram := {|
  bus_read := fun m size pa => (m, (BUS_OK, load_be m pa (Z.to_nat size) 0));
  bus_write := fun m size pa v => (store_be m pa (Z.to_nat size) v, BUS_OK);
  bus_write64_masked := fun m pa v mask =>
    (store_be m pa 8 ((load_be m pa 8 0 .& bnot 64 mask) .| (v .& mask)), BUS_OK);
|}.

Lemma load_be_fits m n : forall pa acc w, 0 <= w -> fits w acc -> fits (w + 8 * Z.of_nat n) (load_be m pa n acc).
Proof.
  induction n as [|n IH]; intros pa acc w Hw Hacc; [by rewrite Z.mul_0_r, Z.add_0_r|].
  cbn [load_be]. replace (w + 8 * Z.of_nat (S n)) with (w + 8 + 8 * Z.of_nat n) by lia.
  apply IH; [lia|]. destruct Hacc as [Ha Hb]. pose proof (wrap_fits 8 (default 0 (m !! pa)) ltac:(lia)) as [Hc Hd].
  unfold byte_at. split; [lia|]. rewrite Z.pow_add_r by lia. change (2 ^ 8) with 256 in *. nia.
Qed.

#[export] Program Instance ram_laws : BusLaws Ram := {| bus_ok := fun _ => True |}.
Next Obligation.
  intros b size pa b' st data _ Hs [= <- <- <-]. split; [done|].
  replace (8 * size) with (0 + 8 * Z.of_nat (Z.to_nat size)) by (destruct Hs as [->|[->|[->| ->]]]; lia).
  apply load_be_fits; [lia|by split].
Qed.
Next Obligation. done. Qed.
Next Obligation. done. Qed.

Notation Mem := (PassthroughCache Ram).
Notation Cpu := (Exec MipsTlb Mem).

(** The R4400-flavoured passthrough model of the source. *)
Definition r4k : CpuModel := {|
  MIPS4 := false; R10K_CACHE_OPS := false; VA_BITS := 40; PA_BITS := 36; fusion := false;
  phys_alias := None; phys_mask := 2 ^ 64 - 1 |}.

Definition passthrough_geometry : Geometry := {|
  IC_SIZE := 0; IC_LINE := 0; DC_SIZE := 0; DC_LINE := 0; L2_SIZE := 0; L2_LINE := 0;
  TLB_ENTRIES := 48; PRID := 0x440; FIR := 0x500 |}.

Lemma r4k_ok : model_ok r4k.
Proof. by split. Qed.

Lemma passthrough_geometry_ok : geometry_ok passthrough_geometry.
Proof. by split. Qed.

(** A new executor over [m]. *)
Definition boot (m : Ram) : option Cpu := executor_new r4k passthrough_geometry (new_tlb 48) (pass_new m) 0.

Lemma boot_inv m : exists e, boot m = Some e /\ inv r4k any e /\
  core e = identify r4k passthrough_geometry (core_new 0).
Proof.
  apply (executor_new_inv r4k passthrough_geometry (new_tlb 48) (pass_new m) 0).
  - apply passthrough_geometry_ok.
  - apply (new_shape 48). reflexivity.
  - reflexivity.
  - by split.
Qed.

(** In user mode at [p], no coprocessor usable. *)
Definition as_user (p : Z) (c : MipsCore) : MipsCore :=
  c <| pc := p |> <| cp0 ::= (fun q => q <| cp0_status := 0x10 |>) |>.

Lemma as_user_typed p : fits 64 p -> typed (as_user p).
Proof. intros Hp. core_fields. Qed.

(** ** Machines in a given state *)

Definition core0 : MipsCore := identify r4k passthrough_geometry (core_new 0).

Lemma core0_ok : core_ok core0.
Proof. apply identify_ok; [apply passthrough_geometry_ok|apply core_new_ok|reflexivity|reflexivity]. Qed.

(** The core [f] makes of a new one, its caches empty, over [t] and [m]. *)
Definition machine (f : MipsCore -> MipsCore) (t : MipsTlb) (m : Ram) : Cpu :=
  let c := flush (f core0) in
  mkExec c t (pass_new m) (is_64bit_mode c, get_privilege_mode c) (has (cp0_status (cp0 c)) STATUS_FR)
    instr_default 0 [].

Lemma machine_inv f t m : typed f -> shape t -> num_entries t = 48 -> inv r4k any (machine f t m).
Proof.
  intros Hf Ht Hn. destruct (Hf core0 core0_ok) as [Hc He]. destruct (flush_typed _ Hc) as [Hfl Hfe].
  split; [|by split| |exact I].
  - constructor; [exact Hfl|exact Ht|by split| |by split|constructor].
    change (num_entries t = tlb_entries (flush (f core0))). rewrite Hfe, He. exact Hn.
  - split.
    + intros va Hva Hm. change (core (machine f t m)) with (flush (f core0)) in Hm.
      change (nano_matches (nano_slot (CpuCore.nanotlb_invalidate (f core0))) (page va) = true) in Hm.
      by rewrite flushed_nano in Hm.
    + intros w va Hva Hm. apply andb_true_iff in Hm as [_ Hm].
      change (nutlb_is_valid (nutlb_clear (CpuCore.nanotlb_invalidate (f core0)))
                (nutlb_arr w) (nutlb_index va) = true) in Hm.
      rewrite flushed_nu in Hm; [done|apply nutlb_index_range|apply nutlb_arr_lt].
Qed.

(** Slot 3 maps the pages at 0x2000 and 0x3000, global, writable. *)
Definition page_entry : TlbEntry :=
  {| page_mask := 0; entry_hi := 0x3000; entry_lo := (0x9F, 0xDF);
     selector_bit_shift := 0; vcmp32 := 0; vpn_hi32 := 0; vcmp64 := 0; vpn_hi64 := 0;
     offset_mask := 0; pfn_base := (0, 0) |}.

Definition page_tlb : MipsTlb := default (new_tlb 48) (write (new_tlb 48) 3 page_entry).

Lemma page_tlb_shape : shape page_tlb /\ num_entries page_tlb = 48.
Proof.
  destruct (write_shape (new_tlb 48) 3 page_entry) as (t & Ht & Hs & Hn);
    [apply (new_shape 48); reflexivity|lia|by split..|].
  unfold page_tlb. rewrite Ht. split; [exact Hs|exact Hn].
Qed.

(** User code at 0x2000, in the page slot 3 maps. *)
Definition user_machine : Cpu := machine (as_user 0x2000) page_tlb ∅.

Lemma user_machine_inv : inv r4k any user_machine.
Proof.
  destruct page_tlb_shape as [Hs Hn]. apply machine_inv; [|exact Hs|exact Hn]. apply as_user_typed. by split.
Qed.

(** In kernel mode with Status [st], Index [i], EntryHi, EntryLo and Wired set,
    and the lines [p] pending. *)
Definition as_kernel (st i p : Z) (c : MipsCore) : MipsCore :=
  c <| cp0 ::= (fun q => q <| cp0_status := st |> <| cp0_index := i |> <| cp0_entryhi := 0x40002007 |>
                           <| cp0_entrylo0 := 0x17 |> <| cp0_entrylo1 := 0x1A |>
                           <| cp0_wired := 1 |> <| cp0_random := tlb_entries c - 1 |>) |>
    <| tm ::= (fun t => t <| CpuTimer.interrupts := p |>) |>.

Lemma as_kernel_typed st i p : fits 32 st -> fits 32 i -> fits 64 p -> typed (as_kernel st i p).
Proof. intros ? ? ?. core_fields; lia. Qed.

Definition kernel_machine (p : Z) : Cpu := machine (as_kernel 0x8001 5 p) page_tlb ∅.

Lemma kernel_machine_inv p : fits 64 p -> inv r4k any (kernel_machine p).
Proof.
  intros Hp. destruct page_tlb_shape as [Hs Hn].
  assert (Hk : typed (as_kernel 0x8001 5 p)) by (apply as_kernel_typed; [by split|by split|exact Hp]).
  exact (machine_inv _ _ _ Hk Hs Hn).
Qed.

End CpuRam.
