(* ===== verification/CpuClaims.v ===== *)
(** * What the CPU as a whole guarantees

    Reachability and totality of a step, the transparency of the translation
    caches, the isolation of unprivileged code and the exception protocol. *)

From S2P Require Import Prelude Tlb TlbOps TlbShape CpuTimer CpuCore CpuDecode CpuExec CpuInstr.
From S2P Require Import CpuPages CpuLaws CpuInv CpuInvMem CpuInvInstr CpuNew CpuRam.
Import Tlb TlbShape CpuCore CpuDecode CpuExec CpuInstr CpuSegments CpuPages CpuLaws CpuInv CpuInvMem CpuInvInstr.
Import CpuNew CpuRam.

Module CpuClaims.

(** ** Reachable states *)

Section reach.
Context {C : Type} `{MemLaws C} (model : CpuModel).

(** Other threads raise and lower interrupt lines and the host's clock runs;
    the CPU's own thread takes steps. *)
Inductive reaches (e0 : Exec MipsTlb C) : Exec MipsTlb C -> Prop :=
| reaches_refl : reaches e0 e0
| reaches_step e s e' : reaches e0 e -> step_int model e = Some (s, e') -> reaches e0 e'
| reaches_host e pending now obs :
    reaches e0 e -> fits 64 pending -> Forall (fun o => fits 64 (fst o)) obs ->
    reaches e0 (e <| core ::= (fun c => c <| tm ::= (fun t => t <| CpuTimer.interrupts := pending |>) |>) |>
                  <| wait_obs := obs |> <| host_now := now |>).

End reach.

Section step.
Context {T C : Type} `{TlbLaws T} `{MemLaws C} (model : CpuModel) (Hmodel : model_ok model).
Notation inv := (inv model any).

Lemma any_guarded : guarded (T := T) any.
Proof. by left. Qed.

Lemma host_inv (e : Exec T C) pending now obs :
  inv e -> fits 64 pending -> Forall (fun o => fits 64 (fst o)) obs ->
  inv (e <| core ::= (fun c => c <| tm ::= (fun t => t <| CpuTimer.interrupts := pending |>) |>) |>
         <| wait_obs := obs |> <| host_now := now |>).
Proof.
  intros He Hp Ho. eapply (inv_frame model any);
    [exact (observe_inv model pending obs e He Hp Ho)| |done|done|apply same_view_refl|done|done].
  destruct (inv_base _ _ _ (observe_inv model pending obs e He Hp Ho)). by constructor.
Qed.

Lemma step_inv (e : Exec T C) s e' : inv e -> step_int model e = Some (s, e') -> inv e'.
Proof.
  intros He. rewrite step_int_next. unfold mbind, M_bind.
  destruct (next_instr_ok model Hmodel any e He) as ([s'|d] & e1 & -> & Hr).
  - intros [= <- <-]. apply Hr.
  - destruct Hr as [He1 Hd]. intros Hx.
    apply (exec_decoded_out model Hmodel any any_guarded d e1 s e' Hd He1 Hx).
Qed.

End step.

(** Every state reached from the constructed executor has the invariant. *)
Lemma reached_inv {C : Type} `{MemLaws C} model g n t (c : C) now e0 e :
  model_ok model -> geometry_ok g -> new n = Some t -> num_entries t = TLB_ENTRIES g -> bus_ok c ->
  executor_new model g t c now = Some e0 -> reaches model e0 e -> inv model any e.
Proof.
  intros Hm Hg Hn Ht Hc He0 Hr.
  destruct (executor_new_inv model g t c now) as (e1 & E & He1 & _);
    [done|by apply (new_shape n)|done|done|]. rewrite He0 in E. injection E as <-.
  induction Hr as [|e s e' _ IH Hs|e p now' obs _ IH Hp Ho]; [done| |].
  - exact (step_inv model Hm e s e' IH Hs).
  - by apply host_inv.
Qed.



(** C6: a step never panics: from any state with the invariant the preamble,
    the fetch and the decode return; the instruction handed out names registers
    below 32, and the general and floating-point files it indexes hold 32; and
    it too returns, unless it is a WAIT or floating-point arithmetic with
    coprocessor 1 usable (not modelled).  A TLB, cache or FPR index out of
    range or an unreachable arm would have no result. *)
Theorem step_returns {T C : Type} `{TlbLaws T} `{MemLaws C} model (e : Exec T C) :
  model_ok model -> inv model any e ->
  exists r e1, next_instr model e = Some (r, e1) /\
    match r with
    | inl s => step_int model e = Some (s, e1)
    | inr d =>
        (fits 5 (rs d) /\ fits 5 (rt d) /\ fits 5 (rd d) /\ fits 5 (sa d) /\
         length (gpr (core e1)) = 32%nat /\ length (fpr (fpu (core e1))) = 32%nat) /\
        step_int model e = exec_decoded_int model d e1 /\
        (runs (core e1) d = true -> exists s e', step_int model e = Some (s, e') /\ inv model any e')
    end.
Proof.
  intros Hm He. destruct (next_instr_ok model Hm any e He) as (r & e1 & E & Hr).
  exists r, e1. split; [done|]. rewrite step_int_next. unfold mbind, M_bind. rewrite E.
  destruct r as [s|d]; [done|]. destruct Hr as [He1 Hok].
  pose proof (b_core _ (inv_base _ _ _ He1)) as Hc.
  split; [split_and!; [apply Hok..|apply Hc|apply (ok_fpr _ Hc)]|]. split; [done|]. intros Hd.
  destruct (exec_decoded_ok model Hm any any_guarded d e1 Hok He1 Hd) as (s & e' & Hx & [Hi _]).
  by exists s, e'.
Qed.

Lemma step_returns_witness :
  exists e : Cpu, boot ∅ = Some e /\ exists r e1, next_instr r4k e = Some (r, e1).
Proof.
  destruct (boot_inv ∅) as (e & E & He & _). exists e. split; [exact E|].
  destruct (step_returns r4k e r4k_ok He) as (r & e1 & H & _). by exists r, e1.
Defined.

(** ** Translation caches *)

Section transparent.
Context {T C : Type} `{TlbLaws T} `{MemLaws C} (model : CpuModel) (Hmodel : model_ok model).
Notation inv := (inv model any).
Notation Exec := (Exec T C).

(** The slow path, where no two entries answer, is the full translation. *)
Lemma translate_fn_full va at_ (e : Exec) :
  inv e -> unamb model e va -> exists e', translate_fn model va at_ e = Some (full model e va at_, e').
Proof.
  intros He Hun. unfold translate_fn, gets, mbind, M_bind, full.
  destruct (inv_sync _ _ e He) as [-> _]. cbn [fst snd]. rewrite translate_at_segment.
  change (segment model (is_64bit_mode (core e)) (get_privilege_mode (core e)) _ _ va)
    with (segment_of model (core e) va).
  destruct (segment_of model (core e) va) as [pa c|x|] eqn:E; [by exists e| |by eexists].
  unfold tlb_translate_impl, get_core, gets, mbind, M_bind.
  destruct (law_translate (tlb e) x va (asid_of (core e)) at_) as (t & res & Ht & _ & _ & _ & _ & _ & _ & Hans);
    [apply He|]. unfold asid_of in Ht. rewrite Ht. cbn [mbind option_bind].
  rewrite <- Hans by (by apply Hun).
  destruct res as [pa c d g| | |]; cbn [of_tlb]; [case_match|..]; by eexists.
Qed.

(** A cache hit answers with the frame and attribute of the full translation. *)
Lemma answers_full va at_ (e : Exec) pa c :
  answers model e va at_ pa c -> unamb model e va ->
  tr_phys (full model e va at_) = pa /\ is_exception (full model e va at_) = false /\
  tr_status (full model e va at_) .& 0x7 = c.
Proof. intros Ha Hun. destruct (Ha Hun) as (st & -> & Hx & Hc). done. Qed.

(** Two results mean the same to the access that asked. *)
Definition same_answer (r r' : TranslateResult) : Prop :=
  tr_phys r = tr_phys r' /\ is_exception r = is_exception r' /\
  (if is_exception r' then tr_status r = tr_status r' else tr_status r .& 0x7 = tr_status r' .& 0x7).

Lemma hit_answers va at_ (e : Exec) pa c :
  answers model e va at_ pa c -> unamb model e va -> fits 3 c -> same_answer (tr_ok pa c) (full model e va at_).
Proof.
  intros Ha Hun Hc. destruct (answers_full va at_ e pa c Ha Hun) as (Hp & Hx & Hst). unfold same_answer. rewrite Hx.
  assert (Hm : c .& 0x7 = c).
  { change 0x7 with (Z.ones 3). rewrite Z.land_ones by lia. by apply Z.mod_small. }
  split_and!; [by rewrite Hp| |cbn; by rewrite Hst].
  unfold is_exception, has. cbn [tr_status tr_ok]. apply negb_false_iff, Z.eqb_eq.
  rewrite <- Hm, <- Z.land_assoc. change (0x7 .& EXEC_IS_EXCEPTION) with 0. by rewrite Z.land_0_r.
Qed.

Lemma same_answer_refl r : same_answer r r.
Proof. unfold same_answer. by case_match. Qed.

Lemma attr3 x : fits 3 (u32 (x .& 0x7)).
Proof.
  unfold u32. rewrite wrap_small; [|apply (fits_mono 3); [|lia]]; apply land_fits_r; (lia || by split).
Qed.

Lemma fill_returns w va r (e : Exec) : exists e', nutlb_fill w va r e = Some (tt, e').
Proof. unfold nutlb_fill, gets, mbind, M_bind. repeat case_match; by eexists. Qed.

End transparent.

(** The same of any state with the invariant. *)
Lemma caches_transparent {T C : Type} `{TlbLaws T} `{MemLaws C} model (e : Exec T C) va at_ :
  inv model any e -> at_ <> Debug -> fits 64 va -> unamb model e va ->
  exists r e1 r' e2,
    nanotlb_translate model at_ va e = Some (r, e1) /\ translate_fn model va at_ e = Some (r', e2) /\
    same_answer r r'.
Proof.
  intros He Hat Hva Hun. destruct (translate_fn_full model va at_ e He Hun) as (e2 & Es).
  assert (Hdata : forall w, at_ = rw_access w -> exists r e1,
    nutlb_translate model w va e = Some (r, e1) /\ same_answer r (full model e va at_)).
  { intros w ->. unfold nutlb_translate, gets, mbind, M_bind at 1. case_match eqn:Eh.
    - eexists _, _. split; [reflexivity|]. apply hit_answers; [|done|apply attr3].
      by apply (coh_nu _ _ (inv_coh _ _ _ He) w va).
    - unfold M_bind. change (if w then Write else Read) with (rw_access w). rewrite Es.
      set (f := full model e va (rw_access w)). unfold when_. destruct (negb (is_exception f)).
      + destruct (fill_returns w va f e2) as (e3 & ->). exists f, e3. split; [done|apply same_answer_refl].
      + exists f, e2. split; [done|apply same_answer_refl]. }
  assert (Hmain : exists r e1, nanotlb_translate model at_ va e = Some (r, e1) /\
    same_answer r (full model e va at_)).
  { destruct at_; [|by apply (Hdata false)|by apply (Hdata true)|done].
    unfold nanotlb_translate, gets, mbind, M_bind at 1. case_match eqn:Eh.
    - eexists _, _. split; [reflexivity|]. apply hit_answers; [|done|apply attr3].
      by apply (coh_nano _ _ (inv_coh _ _ _ He)).
    - unfold M_bind. rewrite Es. unfold when_.
      destruct (negb (is_exception (full model e va Fetch))); eexists _, _; (split; [reflexivity|apply same_answer_refl]). }
  destruct Hmain as (r & e1 & Er & Hr). by exists r, e1, (full model e va at_), e2.
Qed.

(** C4: the nano-TLB and the micro-TLB are invisible: in every state reached
    from the constructed executor by CPU steps and other threads' changes to
    the interrupt word, a fetch, read or write of any address that no two TLB
    entries claim, going through them, gives the physical address, cache
    attribute and exception status that the slow path behind them gives. *)
Theorem translation_caches_transparent {C : Type} `{MemLaws C} model g n t (c : C) now e0 e va at_ :
  model_ok model -> geometry_ok g -> new n = Some t -> num_entries t = TLB_ENTRIES g -> bus_ok c ->
  executor_new model g t c now = Some e0 -> reaches model e0 e ->
  at_ <> Debug -> fits 64 va -> unamb model e va ->
  exists r e1 r' e2,
    nanotlb_translate model at_ va e = Some (r, e1) /\ translate_fn model va at_ e = Some (r', e2) /\
    same_answer r r'.
Proof.
  intros Hm Hg Hn Ht Hc He0 Hr. apply caches_transparent. by apply (reached_inv model g n t c now e0).
Qed.

Lemma translation_caches_transparent_witness :
  exists e : Cpu, boot ∅ = Some e /\ exists r e1 r' e2,
    nanotlb_translate r4k Fetch 0xFFFFFFFFBFC00000 e = Some (r, e1) /\
    translate_fn r4k 0xFFFFFFFFBFC00000 Fetch e = Some (r', e2) /\ same_answer r r'.
Proof.
  destruct (boot_inv ∅) as (e & E & He & Hc). exists e. split; [exact E|].
  apply (translation_caches_transparent r4k passthrough_geometry 48 (new_tlb 48) (pass_new ∅) 0 e e);
    [apply r4k_ok|apply passthrough_geometry_ok|reflexivity|reflexivity|by split|exact E|apply reaches_refl
    |done|by split|].
  intros x Hx. rewrite Hc in Hx. vm_compute in Hx. discriminate Hx.
Defined.

(** ** Unprivileged code *)

(** The mode, the address space and the TLB are those of [e0]. *)
Definition same_space {T C} `{TlbLaws T} (e0 : Exec T C) (k : Z * Z * Z) (t : T) : Prop :=
  k = key (core e0) /\ same_view (tlb e0) t.

#[export] Instance same_space_stable {T C} `{TlbLaws T} (e0 : Exec T C) : Stable (same_space e0).
Proof.
  intros k t t' (Hv & Hu & Hr) (-> & Hv0 & Hu0 & Hr0). split; [done|]. split_and!; intros.
  - by rewrite Hv, Hv0.
  - by rewrite Hu, Hu0.
  - by rewrite Hr, Hr0.
Qed.

Lemma usable_of_key c c' : key c' = key c -> cp0_usable c' = cp0_usable c.
Proof.
  intros Hk. injection Hk as Hs _ _. unfold cp0_usable. destruct (mode_of_status c c' Hs) as [_ ->].
  by rewrite Hs.
Qed.

(** C5: where COP0 is unusable (user or supervisor mode without CU0), a step
    either leaves Status, Config, the ASID, every TLB entry and so every
    translation as they were, or ends in kernel mode at an exception or reset
    vector. *)
Theorem unprivileged_step_isolated {T C : Type} `{TlbLaws T} `{MemLaws C} model (e : Exec T C) s e' :
  model_ok model -> inv model any e -> cp0_usable (core e) = false -> step_int model e = Some (s, e') ->
  (key (core e') = key (core e) /\ same_view (tlb e) (tlb e')) \/ entered (core e').
Proof.
  intros Hm He Hu Hs.
  assert (HK : inv model (same_space e) e) by (destruct He; split; [done..|split; [done|apply same_view_refl]]).
  assert (Hg : guarded (same_space e)).
  { right. intros c t [Hk _]. by rewrite (usable_of_key (core e) c). }
  rewrite step_int_next in Hs. unfold mbind, M_bind in Hs.
  destruct (next_instr_ok model Hm (same_space e) e HK) as ([s'|d] & e1 & E & Hr); rewrite E in Hs.
  - injection Hs as <- <-. apply Hr.
  - destruct Hr as [He1 Hd]. apply (exec_decoded_out model Hm (same_space e) Hg d e1 s e' Hd He1 Hs).
Qed.

Lemma unprivileged_step_isolated_witness :
  match step_int r4k user_machine with
  | Some (s, e') =>
      (key (core e') = key (core user_machine) /\ same_view (tlb user_machine) (tlb e')) \/ entered (core e')
  | None => False
  end.
Proof.
  assert (Hr : is_Some (fst <$> step_int r4k user_machine)) by (eexists; vm_compute; reflexivity).
  destruct (step_int r4k user_machine) as [[s e']|] eqn:E; [|by destruct Hr].
  apply (unprivileged_step_isolated r4k user_machine s e' r4k_ok user_machine_inv); [vm_compute; reflexivity|exact E].
Defined.

(** C16: user-mode accesses reach memory only through the TLB and only from the
    user segment: below 2^31 with 32-bit addressing, below 2^40 with 64-bit;
    anything else is an exception. *)
Theorem user_access_confined {T C : Type} `{TlbLaws T} `{MemLaws C} model (e : Exec T C) va at_ r e' :
  inv model any e -> get_privilege_mode (core e) = User -> fits 64 va ->
  translate_fn model va at_ e = Some (r, e') -> is_exception r = false ->
  (if is_64bit_mode (core e) then va < 2 ^ 40 else u32 va < 2 ^ 31) /\ has (tr_status r) TR_MAPPED = true.
Proof.
  intros He Hu Hva. unfold translate_fn, gets, mbind, M_bind.
  destruct (inv_sync _ _ e He) as [-> _]. cbn [fst snd]. rewrite translate_at_segment, Hu.
  assert (Hnoerl : has (cp0_status (cp0 (core e))) STATUS_ERL = false).
  { unfold get_privilege_mode in Hu. destruct (has _ (STATUS_EXL .| STATUS_ERL)) eqn:E; [done|].
    destruct (has _ STATUS_ERL) eqn:E2; [|done]. by rewrite (has_lor_r _ STATUS_EXL _ E2) in E. }
  assert (Hmap : forall x r e', tlb_translate_impl model false x va at_ e = Some (r, e') -> is_exception r = false ->
    has (tr_status r) TR_MAPPED = true).
  { intros x r0 e0. unfold tlb_translate_impl, get_core, gets, mbind, M_bind.
    destruct (tlb_translate _ _ _ _ _) as [[t res]|]; [|done]. cbn [mbind option_bind].
    destruct res as [pa c d g| | |]; [case_match|..]; intros [= <- <-]; try (by destruct x, at_).
    by destruct c, g. }
  assert (Hae : forall r e', address_error false va at_ e = Some (r, e') -> is_exception r = true).
  { intros r0 e0 [= <- <-]. by destruct at_. }
  unfold segment, segment64, segment32, kernel_only, kernel_or_supervisor. cbn [is_kernel is_supervisor orb].
  destruct (is_64bit_mode (core e)).
  - destruct (va .>> 62 =? 0); [|intros Ht Hx; repeat case_match; first [done|by rewrite (Hae _ _ Ht) in Hx]].
    destruct (Z.eqb_spec (va .>> 40) 0) as [Hz|]; cbn [negb]; [|intros Ht Hx; by rewrite (Hae _ _ Ht) in Hx].
    rewrite Hnoerl. intros Ht Hx. split; [|by eapply Hmap].
    rewrite Z.shiftr_div_pow2 in Hz by lia. apply Z.div_small_iff in Hz; [|lia]. destruct Hva. lia.
  - destruct (Z.leb_spec (u32 va .>> 29) 3) as [Hz|]; [|intros Ht Hx; repeat case_match; first [done|by rewrite (Hae _ _ Ht) in Hx]].
    rewrite Hnoerl. intros Ht Hx. split; [|by eapply Hmap].
    rewrite Z.shiftr_div_pow2 in Hz by lia. destruct (u32_fits va).
    pose proof (Z.mod_pos_bound (u32 va) (2 ^ 29) ltac:(lia)).
    pose proof (Z.div_mod (u32 va) (2 ^ 29) ltac:(lia)). lia.
Qed.

Lemma user_access_confined_witness :
  match translate_fn r4k 0x2ABC Read user_machine with
  | Some (r, _) => u32 0x2ABC < 2 ^ 31 /\ has (tr_status r) TR_MAPPED = true
  | None => False
  end.
Proof.
  assert (Hr : option_map (fun p => is_exception (fst p)) (translate_fn r4k 0x2ABC Read user_machine) = Some false)
    by (vm_compute; reflexivity).
  destruct (translate_fn r4k 0x2ABC Read user_machine) as [[r e']|] eqn:E; [|discriminate Hr].
  injection Hr as Hr.
  apply (user_access_confined r4k user_machine 0x2ABC Read r e' user_machine_inv);
    [vm_compute; reflexivity|by split|exact E|exact Hr].
Defined.

End CpuClaims.
