(* ===== verification/CpuEvents.v ===== *)
(** * Exceptions, interrupts and TLB instructions *)

From S2P Require Import Prelude Tlb TlbOps TlbShape CpuTimer CpuCore CpuDecode CpuExec CpuInstr.
From S2P Require Import CpuPages CpuLaws CpuInv CpuInvMem CpuInvInstr CpuNew CpuRam.
Import Tlb TlbShape CpuCore CpuDecode CpuExec CpuInstr CpuSegments CpuPages CpuLaws CpuInv CpuInvMem CpuInvInstr.
Import CpuNew CpuRam.

Module CpuEvents.

Lemma has_land_bit s b k : 0 <= k -> b = 2 ^ k -> has s b = Z.testbit s k.
Proof. intros Hk ->. by apply has_pow2. Qed.

(** Setting a clear bit and clearing it again. *)
Lemma set_clear_bit s k : 0 <= k < 32 -> fits 32 s -> Z.testbit s k = false ->
  (s .| 2 ^ k) .& bnot 32 (2 ^ k) = s.
Proof.
  intros Hk Hs Hb. apply Z.bits_inj'. intros i Hi. unfold bnot.
  rewrite !Z.land_spec, Z.lor_spec, Z.lnot_spec, ones_testbit, pow2_testbit by lia.
  destruct (Z.eqb_spec k i) as [->|]; cbn [negb andb]; [by rewrite Hb, andb_false_r|].
  rewrite orb_false_r. destruct (Z.ltb_spec i 32); [by rewrite andb_true_r|].
  by rewrite (fits_testbit 32 s) by (done || lia).
Qed.

Lemma aligned_minus4 p : fits 64 p -> has p 0x3 = false -> has (u64 (p - 4)) 0x3 = false.
Proof.
  intros Hp. unfold has. rewrite !negb_false_iff, !Z.eqb_eq. change 0x3 with (Z.ones 2).
  rewrite !Z.land_ones by lia. unfold u64, wrap. intros Hm.
  rewrite <- Znumtheory.Zmod_div_mod by (try lia; exists (2 ^ 62); lia).
  rewrite Zminus_mod, Hm. done.
Qed.

Section events.
Context {T C : Type} `{TlbLaws T} `{MemLaws C} (model : CpuModel).
Notation Exec := (Exec T C).
Notation inv := (inv model any).

(** The effect of the two resynchronising methods, in closed form. *)
Definition resynced (e : Exec) : Exec :=
  e <| translate_sel := (is_64bit_mode (core e), get_privilege_mode (core e)) |>
    <| fpr_fr := has (cp0_status (cp0 (core e))) STATUS_FR |> <| core ::= flush |>.

Lemma resync_eq (e : Exec) : resync_privilege_state e = Some (tt, resynced e).
Proof. reflexivity. Qed.

(** The state delivery starts from: LLbit is cleared and, for a cache error,
    the pending error word has been moved into CacheErr. *)
Definition latched (status : Z) (e : Exec) : Exec :=
  let e := e <| cache ::= (fun c => set_llbit c false) |> in
  if has status EXEC_IS_CACHE_ERR then
    let '(c, err) := take_cache_err (cache e) in
    (e <| cache := c |>) <| core ::= (fun k => k <| cp0 ::= (fun p => p <| cp0_cacheerr := err |>) |>) |>
  else e.

Definition excepted (status : Z) (e : Exec) : Exec :=
  resynced ((latched status e) <| core ::= (fun c => deliver_exception c status) |>).

Lemma handle_exception_latched status (e : Exec) : handle_exception status e = Some (status, excepted status e).
Proof.
  unfold handle_exception, excepted, latched, mbind, M_bind, when_, upd_cache, modify.
  destruct (has status EXEC_IS_CACHE_ERR); [|reflexivity].
  unfold with_cache. change (cache (e <| cache ::= _ |>)) with (set_llbit (cache e) false).
  by destruct (take_cache_err (set_llbit (cache e) false)) as [c err].
Qed.

(** Latching touches neither the registers a handler sees nor the TLB. *)
Lemma latched_frame status (e : Exec) :
  tlb (latched status e) = tlb e /\
  exists err, core (latched status e) = (core e) <| cp0 ::= (fun p => p <| cp0_cacheerr := err |>) |>.
Proof.
  unfold latched. destruct (has status EXEC_IS_CACHE_ERR).
  - destruct (take_cache_err _) as [c err]. split; [done|]. by exists err.
  - split; [done|]. exists (cp0_cacheerr (cp0 (core e))). destruct e as [[? ? ? ? ? ? []]]. reflexivity.
Qed.

Lemma latched_ok (e : Exec) status : inv e -> core_ok (core (latched status e)).
Proof.
  intros He. pose proof (inv_base _ _ _ He) as Hb. unfold latched.
  destruct (has status EXEC_IS_CACHE_ERR); [|apply Hb].
  destruct (take_cache_err _) as [c err] eqn:E.
  destruct (law_cache_err (set_llbit (cache e) false) c err) as [_ Herr];
    [apply law_set_llbit, Hb|exact E|]. pose proof (b_core _ Hb) as Hc.
  destruct Hc as [? ? ? ? ? ? ? [] ? ? ? ? ? ? ? ? ?]. constructor; try done.
Qed.

Lemma handle_exception_eq status (e : Exec) :
  has status EXEC_IS_CACHE_ERR = false -> handle_exception status e =
    Some (status, resynced (e <| cache ::= (fun c => set_llbit c false) |> <| core ::= (fun c => deliver_exception c status) |>)).
Proof. intros Hc. rewrite handle_exception_latched. unfold excepted, latched. by rewrite Hc. Qed.

Definition ereted (e : Exec) : Exec :=
  let c := core e in
  let erl := has (cp0_status (cp0 c)) STATUS_ERL in
  let e1 := resynced (e <| core ::= (fun c => c <| cp0 ::= (fun p => p <| cp0_status ::= (fun s =>
              s .& bnot 32 (if erl then STATUS_ERL else STATUS_EXL)) |>) |>) |>
              <| cache ::= (fun m => set_llbit m false) |>) in
  e1 <| core ::= (fun c' => c' <| pc := if erl then cp0_errorepc (cp0 c) else cp0_epc (cp0 c) |>
                               <| in_delay_slot := false |>) |>.

Lemma exec_eret_eq (e : Exec) : exec_eret e = check_pc_alignment (ereted e).
Proof. reflexivity. Qed.

Lemma check_pc_aligned (e : Exec) : has (pc (core e)) 0x3 = false -> check_pc_alignment e = Some (EXEC_COMPLETE, e).
Proof. intros Hp. unfold check_pc_alignment, get_core, gets, mbind, M_bind. by rewrite Hp. Qed.

Lemma no_exl_erl c :
  has (cp0_status (cp0 c)) (STATUS_EXL .| STATUS_ERL) = false ->
  has (cp0_status (cp0 c)) STATUS_EXL = false /\ has (cp0_status (cp0 c)) STATUS_ERL = false.
Proof.
  intros Hn. split; [destruct (has _ STATUS_EXL) eqn:E|destruct (has _ STATUS_ERL) eqn:E]; try done.
  - by rewrite (has_lor_l _ _ _ E) in Hn.
  - by rewrite (has_lor_r _ _ _ E) in Hn.
Qed.

(** The level an exception raises. *)
Definition raised (status : Z) : Z := if has status EXEC_IS_CACHE_ERR then STATUS_ERL else STATUS_EXL.

Lemma has_exl_only status s :
  has s STATUS_ERL = false -> has status EXEC_IS_CACHE_ERR = false -> has (s .| raised status) STATUS_ERL = false.
Proof.
  intros Hl Hce. unfold raised. rewrite Hce. unfold has in *. rewrite Z.land_lor_distr_l.
  change (STATUS_EXL .& STATUS_ERL) with 0. by rewrite Z.lor_0_r.
Qed.

(** Where delivery leaves the address to return to. *)
Definition return_pc (c : MipsCore) : Z :=
  if has (cp0_status (cp0 c)) STATUS_ERL then cp0_errorepc (cp0 c) else cp0_epc (cp0 c).

(** What delivery does outside EXL and ERL, field by field. *)
Lemma deliver_fresh c status :
  core_ok c -> has (cp0_status (cp0 c)) STATUS_EXL = false -> has (cp0_status (cp0 c)) STATUS_ERL = false ->
  let c' := deliver_exception c status in
  cp0_status (cp0 c') = cp0_status (cp0 c) .| raised status /\
  return_pc c' = (if in_delay_slot c then u64 (pc c - 4) else pc c) /\
  (has status EXEC_IS_CACHE_ERR = false ->
     has (cp0_cause (cp0 c')) CAUSE_BD = in_delay_slot c /\
     cp0_cause (cp0 c') .& CAUSE_EXCCODE_MASK = status .& CAUSE_EXCCODE_MASK) /\
  gpr c' = gpr c /\ hi c' = hi c /\ lo c' = lo c.
Proof.
  intros Hc Hexl Herl. unfold deliver_exception, deliver_exception_at, raised, return_pc.
  assert (Hst : fits 32 (cp0_status (cp0 c))) by apply (ok_cp0 _ Hc).
  destruct (has status EXEC_IS_CACHE_ERR).
  { cbn [cp0 cp0_status cp0_errorepc gpr hi lo set_field]. rewrite has_set by done. by split_and!. }
  rewrite Hexl.
  assert (Hno : has (cp0_status (cp0 c) .| STATUS_EXL) STATUS_ERL = false).
  { unfold has in *. rewrite Z.land_lor_distr_l. change (STATUS_EXL .& STATUS_ERL) with 0. by rewrite Z.lor_0_r. }
  set (x := (cp0_cause (cp0 c) .& bnot 32 CAUSE_EXCCODE_MASK) .| (status .& CAUSE_EXCCODE_MASK)).
  assert (Hcode : x .& CAUSE_EXCCODE_MASK = status .& CAUSE_EXCCODE_MASK).
  { unfold x. rewrite Z.land_lor_distr_l, <- !Z.land_assoc.
    change (bnot 32 CAUSE_EXCCODE_MASK .& CAUSE_EXCCODE_MASK) with 0.
    change (CAUSE_EXCCODE_MASK .& CAUSE_EXCCODE_MASK) with CAUSE_EXCCODE_MASK. by rewrite Z.land_0_r. }
  clearbody x. destruct (in_delay_slot c); cbn [cp0 cp0_status cp0_epc cp0_errorepc cp0_cause gpr hi lo set_field];
    cbn [cp0_status cp0_epc cp0_errorepc]; split_and!; try reflexivity; try (by rewrite Hno).
  - intros _. split; [by apply has_set|]. cbn. rewrite Z.land_lor_distr_l, Hcode.
    change (CAUSE_BD .& CAUSE_EXCCODE_MASK) with 0. apply Z.lor_0_r.
  - intros _. split.
    + cbn. unfold has. rewrite <- Z.land_assoc. change (bnot 32 CAUSE_BD .& CAUSE_BD) with 0. by rewrite Z.land_0_r.
    + cbn. rewrite <- Z.land_assoc. change (bnot 32 CAUSE_BD .& CAUSE_EXCCODE_MASK) with CAUSE_EXCCODE_MASK. exact Hcode.
Qed.

(** ERET clears the level the exception raised. *)
Lemma eret_status status s : fits 32 s -> has s STATUS_EXL = false -> has s STATUS_ERL = false ->
  (s .| raised status) .& bnot 32 (if has (s .| raised status) STATUS_ERL then STATUS_ERL else STATUS_EXL) = s.
Proof.
  intros Hs Hx Hl. unfold raised. destruct (has status EXEC_IS_CACHE_ERR).
  - rewrite has_set by done. change STATUS_ERL with (2 ^ 2) in *. apply set_clear_bit; [lia|done|]. by rewrite <- has_pow2.
  - assert (Hno : has (s .| STATUS_EXL) STATUS_ERL = false).
    { unfold has in *. rewrite Z.land_lor_distr_l. change (STATUS_EXL .& STATUS_ERL) with 0. by rewrite Z.lor_0_r. }
    rewrite Hno. change STATUS_EXL with (2 ^ 1) in *. apply set_clear_bit; [lia|done|]. by rewrite <- has_pow2.
Qed.

End events.

(** C19: an exception taken outside exception and error level, a cache error
    included, enters the kernel at a vector, with its code in Cause and BD
    telling a delay slot unless it is a cache error, and touches no general
    register, HI, LO or TLB entry.  Whatever its handler does, once Status, EPC
    and ErrorEPC are what delivery left, ERET resumes at the instruction (at
    the branch, when it was in a delay slot) with the Status, translation mode
    and FPR mode of the interrupted code, the handler's registers and TLB, and
    LLbit clear.  The interrupted pc is word aligned: a return to a misaligned
    one raises another address error. *)
Theorem exception_eret_returns {T C : Type} `{TlbLaws T} `{MemLaws C} model (e : Exec T C) status :
  inv model any e -> has (cp0_status (cp0 (core e))) (STATUS_EXL .| STATUS_ERL) = false ->
  has (pc (core e)) 0x3 = false ->
  exists e1, handle_exception status e = Some (status, e1) /\ entered (core e1) /\
    (has status EXEC_IS_CACHE_ERR = false ->
       cp0_cause (cp0 (core e1)) .& CAUSE_EXCCODE_MASK = status .& CAUSE_EXCCODE_MASK /\
       has (cp0_cause (cp0 (core e1))) CAUSE_BD = in_delay_slot (core e)) /\
    gpr (core e1) = gpr (core e) /\ hi (core e1) = hi (core e) /\ lo (core e1) = lo (core e) /\ tlb e1 = tlb e /\
    forall e2 : Exec T C,
      cp0_status (cp0 (core e2)) = cp0_status (cp0 (core e1)) ->
      cp0_epc (cp0 (core e2)) = cp0_epc (cp0 (core e1)) ->
      cp0_errorepc (cp0 (core e2)) = cp0_errorepc (cp0 (core e1)) ->
      exists e3, exec_eret e2 = Some (EXEC_COMPLETE, e3) /\
        pc (core e3) = (if in_delay_slot (core e) then u64 (pc (core e) - 4) else pc (core e)) /\
        in_delay_slot (core e3) = false /\ cp0_status (cp0 (core e3)) = cp0_status (cp0 (core e)) /\
        translate_sel e3 = translate_sel e /\ fpr_fr e3 = fpr_fr e /\
        gpr (core e3) = gpr (core e2) /\ hi (core e3) = hi (core e2) /\ lo (core e3) = lo (core e2) /\
        tlb e3 = tlb e2 /\ cache e3 = set_llbit (cache e2) false.
Proof.
  intros He Hst Hpc. destruct (no_exl_erl _ Hst) as [Hx Hl].
  pose proof (b_core _ (inv_base _ _ _ He)) as Hc0.
  destruct (latched_frame status e) as [Htlb (err & Hlat)].
  pose proof (handle_exception_latched status e) as Hexc.
  set (c := core (latched status e)) in *.
  assert (Hsame : pc c = pc (core e) /\ in_delay_slot c = in_delay_slot (core e) /\
    cp0_status (cp0 c) = cp0_status (cp0 (core e)) /\ gpr c = gpr (core e) /\ hi c = hi (core e) /\ lo c = lo (core e))
    by (by rewrite Hlat).
  destruct Hsame as (Hpc' & Hds & Hs0 & Hg0 & Hh0 & Hlo0).
  assert (Hret : let d := deliver_exception c status in
    cp0_status (cp0 d) = cp0_status (cp0 (core e)) .| raised status /\
    return_pc d = (if in_delay_slot (core e) then u64 (pc (core e) - 4) else pc (core e)) /\
    (has status EXEC_IS_CACHE_ERR = false -> has (cp0_cause (cp0 d)) CAUSE_BD = in_delay_slot (core e) /\
       cp0_cause (cp0 d) .& CAUSE_EXCCODE_MASK = status .& CAUSE_EXCCODE_MASK) /\
    gpr d = gpr (core e) /\ hi d = hi (core e) /\ lo d = lo (core e)).
  { rewrite <- Hds, <- Hpc', <- Hs0, <- Hg0, <- Hh0, <- Hlo0. apply deliver_fresh; rewrite ?Hs0; try done.
    by apply (latched_ok model). }
  destruct Hret as (Hs1 & Hrp & Hcau & Hg & Hh & Hlo).
  pose proof (deliver_enters c status) as Hen. pose proof (ok_status _ (ok_cp0 _ Hc0)) as Hfit.
  set (d := deliver_exception c status) in *.
  assert (Hcore : core (excepted status e) = flush d) by reflexivity.
  assert (Htl : tlb (excepted status e) = tlb e) by (change (tlb (latched status e) = tlb e); exact Htlb).
  exists (excepted status e). split; [done|]. rewrite Hcore. clearbody d.
  split_and!; [done|intros Hce; by destruct (Hcau Hce)|done..|].
  intros e2 H1' H2' H3'.
  assert (Hrp2 : return_pc (core e2) = return_pc d) by (unfold return_pc; by rewrite H1', H2', H3').
  assert (Hst2 : cp0_status (cp0 (core (ereted e2))) = cp0_status (cp0 (core e))).
  { cbn. rewrite H1'. cbn. rewrite Hs1. by apply eret_status. }
  assert (Hpc2 : pc (core (ereted e2)) = return_pc (core e2)) by reflexivity.
  exists (ereted e2). split_and!; try done.
  - rewrite exec_eret_eq. apply check_pc_aligned. rewrite Hpc2, Hrp2, Hrp. case_match; [|done].
    apply aligned_minus4; [apply Hc0|done].
  - by rewrite Hpc2, Hrp2, Hrp.
  - destruct (inv_sync _ _ _ He) as [-> _].
    destruct (mode_of_status (core e) (core (ereted e2)) Hst2) as [<- <-]. reflexivity.
  - destruct (inv_sync _ _ _ He) as [_ ->]. rewrite <- Hst2. reflexivity.
Qed.

(** The handler here counts the system call in r8 and returns. *)
Lemma exception_eret_returns_witness :
  exists e1 e3, handle_exception (exec_exception EXC_SYS) user_machine = Some (exec_exception EXC_SYS, e1) /\
    exec_eret (e1 <| core ::= (fun c => write_gpr c 8 1) |>) = Some (EXEC_COMPLETE, e3) /\
    pc (core e3) = 0x2000 /\ read_gpr (core e3) 8 = 1.
Proof.
  destruct (exception_eret_returns r4k user_machine (exec_exception EXC_SYS) user_machine_inv)
    as (e1 & H1 & _ & _ & Hg & _ & _ & _ & Hret); [vm_compute; reflexivity..|].
  destruct (Hret (e1 <| core ::= (fun c => write_gpr c 8 1) |>)) as (e3 & H3 & Hpc & _ & _ & _ & _ & Hg3 & _);
    [reflexivity..|].
  exists e1, e3. split; [exact H1|]. split; [exact H3|]. rewrite Hpc. split; [vm_compute; reflexivity|].
  unfold read_gpr. rewrite Hg3. change (nth 8 (gpr (write_gpr (core e1) 8 1)) 0 = 1).
  unfold write_gpr. cbn [gpr set_field]. rewrite Hg. vm_compute. reflexivity.
Defined.

(** ** Interrupts *)

(** Line [i] of the eight is raised: a software line (8, 9) in Cause, an
    external one (10 to 15) in the word other threads write. *)
Definition line_raised (c : MipsCore) (i : Z) : Prop :=
  if 10 <=? i then Z.testbit (CpuTimer.interrupts (tm c)) i = true
  else Z.testbit (cp0_cause (cp0 c)) i = true.

(** An interrupt is due: IE (bit 0) set, EXL (1) and ERL (2) clear, and some
    line both raised and unmasked in Status. *)
Definition interrupt_due (c : MipsCore) : Prop :=
  let s := cp0_status (cp0 c) in
  Z.testbit s 0 = true /\ Z.testbit s 1 = false /\ Z.testbit s 2 = false /\
  exists i, 8 <= i <= 15 /\ Z.testbit s i = true /\ line_raised c i.

(** Cause with the external lines of the pending word. *)
Definition merged_cause (c : MipsCore) : Z :=
  (cp0_cause (cp0 c) .& bnot 32 EXT_INT_MASK) .| (u32 (CpuTimer.interrupts (tm c)) .& EXT_INT_MASK).

Lemma merged_line c i : 8 <= i <= 15 -> Z.testbit (merged_cause c) i = true <-> line_raised c i.
Proof.
  intros Hi. unfold merged_cause, line_raised, bnot, u32.
  assert (Hm : Z.testbit EXT_INT_MASK i = (10 <=? i)).
  { assert (Hc : i = 8 \/ i = 9 \/ i = 10 \/ i = 11 \/ i = 12 \/ i = 13 \/ i = 14 \/ i = 15) by lia.
    by destruct_or! Hc; subst i. }
  rewrite Z.lor_spec, !Z.land_spec, Z.lnot_spec, ones_testbit, wrap_testbit, Hm by lia.
  rewrite (proj2 (Z.ltb_lt i 32)) by lia.
  destruct (10 <=? i); cbn [andb negb]; by rewrite ?andb_true_r, ?andb_false_r, ?orb_false_r.
Qed.

(** Two masked words meet when they share a bit of the mask. *)
Lemma masked_meet x y :
  has (x .& 0xFF00) (y .& 0xFF00) = true <->
  exists i, 8 <= i <= 15 /\ Z.testbit x i = true /\ Z.testbit y i = true.
Proof.
  assert (Hm : forall i, 0 <= i -> Z.testbit 0xFF00 i = (8 <=? i) && (i <=? 15)).
  { intros i Hi. change 0xFF00 with (Z.shiftl (Z.ones 8) 8). rewrite shiftl_testbit by lia.
    destruct (Z.leb_spec 8 i); [|done]. rewrite ones_testbit by lia. cbn [andb]. lia. }
  unfold has. rewrite negb_true_iff, Z.eqb_neq. split.
  - intros Hz. set (m := (x .& 0xFF00) .& (y .& 0xFF00)) in *.
    assert (Hpos : 0 < m).
    { assert (0 <= m) by (apply Z.land_nonneg; left; apply Z.land_nonneg; right; lia). lia. }
    pose proof (Z.bit_log2 m Hpos) as Hb. pose proof (Z.log2_nonneg m) as Hk. exists (Z.log2 m).
    revert Hb Hk. generalize (Z.log2 m) as k. intros k Hb Hk. unfold m in Hb.
    rewrite !Z.land_spec, Hm in Hb by lia.
    apply andb_true_iff in Hb as [[? ?]%andb_true_iff [? _]%andb_true_iff].
    split_and!; [lia|lia|done|done].
  - intros (i & Hi & Hx & Hy) Hz.
    assert (Hb : Z.testbit ((x .& 0xFF00) .& (y .& 0xFF00)) i = true).
    { rewrite !Z.land_spec, Hx, Hy, Hm by lia. cbn [andb]. lia. }
    by rewrite Hz, Z.bits_0 in Hb.
Qed.

Lemma due_test c :
  interrupts_enabled c && has (merged_cause c .& CAUSE_IP_MASK) (cp0_status (cp0 c) .& STATUS_IM_MASK) = true <->
  interrupt_due c.
Proof.
  unfold interrupts_enabled, interrupt_due.
  change STATUS_IE with (2 ^ 0). change STATUS_EXL with (2 ^ 1). change STATUS_ERL with (2 ^ 2).
  change CAUSE_IP_MASK with 0xFF00. change STATUS_IM_MASK with 0xFF00.
  rewrite !has_pow2 by lia. rewrite !andb_true_iff, !negb_true_iff, masked_meet.
  split.
  - intros [[[? ?] ?] (i & Hi & Hc & Hs)]. split_and!; [done..|]. exists i. split_and!; [lia|lia|done|].
    by apply merged_line.
  - intros (? & ? & ? & i & Hi & Hs & Hr). split_and!; [done..|]. exists i. split_and!; [lia|lia| |done].
    by apply merged_line.
Qed.

(** The general exception vector Status selects. *)
Definition general_vector (c : MipsCore) : Z :=
  if Z.testbit (cp0_status (cp0 c)) 22 then 0xFFFFFFFFBFC00380 else 0xFFFFFFFF80000180.

Lemma deliver_int c :
  has (cp0_status (cp0 c)) STATUS_EXL = false ->
  pc (deliver_exception c (exec_exception EXC_INT)) = general_vector c.
Proof.
  intros Hexl. unfold deliver_exception, deliver_exception_at, general_vector.
  change (has (exec_exception EXC_INT) EXEC_IS_CACHE_ERR) with false.
  change (has (exec_exception EXC_INT) EXEC_IS_TLB_REFILL) with false.
  change (has (exec_exception EXC_INT) EXEC_IS_XTLB_REFILL) with false. rewrite Hexl. cbn [negb andb].
  assert (Hb : has (cp0_status (cp0 c) .| STATUS_EXL) STATUS_BEV = Z.testbit (cp0_status (cp0 c)) 22).
  { change STATUS_BEV with (2 ^ 22). change STATUS_EXL with (2 ^ 1).
    rewrite has_pow2, Z.lor_spec, pow2_testbit by lia. apply orb_false_r. }
  rewrite Hb. by destruct (in_delay_slot c), (Z.testbit _ 22).
Qed.

(** C20: with no soft reset pending, the preamble of a step takes an interrupt
    exactly when interrupts are enabled (IE set, EXL and ERL clear) and some
    line is raised, in the pending word for the external six, in Cause for
    the software two, and unmasked in Status.  It then ends at the general
    vector Status.BEV selects, in exception level, with code 0 in Cause, BD
    telling a delay slot, and EPC at the instruction it did not execute, or at
    the branch before it (pc - 4) in a delay slot.  Otherwise it goes on to
    fetch with pc, Status, EPC and the general registers as they were. *)
Theorem interrupt_taken_iff {T C : Type} `{TlbLaws T} `{MemLaws C} model (e : Exec T C) :
  inv model any e -> has (CpuTimer.interrupts (tm (core e))) SOFT_RESET_BIT = false ->
  exists r e', step_preamble e = Some (r, e') /\
    ((interrupt_due (core e) /\ r = Some (exec_exception EXC_INT) /\
      pc (core e') = general_vector (core e) /\ in_delay_slot (core e') = false /\
      cp0_status (cp0 (core e')) = cp0_status (cp0 (core e)) .| STATUS_EXL /\
      cp0_cause (cp0 (core e')) .& CAUSE_EXCCODE_MASK = 0 /\
      has (cp0_cause (cp0 (core e'))) CAUSE_BD = in_delay_slot (core e) /\
      cp0_epc (cp0 (core e')) = (if in_delay_slot (core e) then u64 (pc (core e) - 4) else pc (core e)) /\
      gpr (core e') = gpr (core e)) \/
     (~ interrupt_due (core e) /\ r = None /\
      pc (core e') = pc (core e) /\ in_delay_slot (core e') = in_delay_slot (core e) /\
      cp0_status (cp0 (core e')) = cp0_status (cp0 (core e)) /\
      cp0_epc (cp0 (core e')) = cp0_epc (cp0 (core e)) /\ gpr (core e') = gpr (core e))).
Proof.
  intros He Hsr. pose proof (b_core _ (inv_base _ _ _ He)) as Hc.
  pose proof (due_test (core e)) as Hiff.
  set (due := interrupts_enabled (core e) && _) in Hiff.
  set (c1 := (core e) <| tm ::= (fun t => t <| CpuTimer.cycles ::= (fun n => u64 (n + 1)) |>) |>).
  set (c2 := c1 <| cp0 ::= (fun p => p <| cp0_cause := merged_cause (core e) |>) |>).
  assert (Hc2 : core_ok c2).
  { apply (pending_benign (CpuTimer.interrupts (tm (core e))) c1). by apply (cycles_benign 1). }
  assert (Hpre : step_preamble e =
    if CpuTimer.interrupts (tm (core e)) .| cp0_cause (cp0 (core e)) =? 0 then Some (None, e <| core := c1 |>)
    else if due
    then (s ← raise EXC_INT; mret (Some s)) (e <| core := c2 |>)
    else Some (None, e <| core := c2 |>)).
  { unfold step_preamble, step_cycles, upd_cp0, upd_core, modify, gets, mbind, M_bind at 1 2.
    change (CpuTimer.interrupts (tm (core (e <| core ::= _ |>)))) with (CpuTimer.interrupts (tm (core e))).
    change (cp0_cause (cp0 (core (e <| core ::= _ |>)))) with (cp0_cause (cp0 (core e))).
    case_match; [done|]. rewrite Hsr. unfold M_bind at 1 2.
    change (interrupts_enabled _ && has _ _) with due. by case_match. }
  rewrite Hpre. clear Hpre.
  destruct (Z.eqb_spec (CpuTimer.interrupts (tm (core e)) .| cp0_cause (cp0 (core e))) 0) as [Hz|Hz].
  - apply Z.lor_eq_0_iff in Hz as [Hp Hca].
    assert (Hno : due = false) by (unfold due, merged_cause; rewrite Hp, Hca; apply andb_false_r).
    eexists _, _. split; [done|]. right. split; [|done]. rewrite <- Hiff, Hno. done.
  - destruct due eqn:Hd.
    2:{ eexists _, _. split; [done|]. right. split; [|done]. by rewrite <- Hiff. }
    pose proof (proj1 Hiff eq_refl) as Hdue. subst due.
    apply andb_true_iff in Hd as [Hen _]. apply andb_true_iff in Hen as [Hen Herl].
    apply andb_true_iff in Hen as [_ Hexl]. apply negb_true_iff in Hexl, Herl.
    unfold raise, mbind, M_bind. rewrite handle_exception_eq by done. eexists _, _. split; [reflexivity|]. left.
    destruct (deliver_fresh c2 (exec_exception EXC_INT) Hc2 Hexl Herl) as (Hs & Hepc & Hcau & Hg & _).
    destruct (Hcau eq_refl) as [Hbd Hcode]. pose proof (deliver_int c2 Hexl) as Hv.
    unfold return_pc in Hepc. rewrite Hs, has_exl_only in Hepc by done.
    pose proof (deliver_enters c2 (exec_exception EXC_INT)) as (_ & _ & Hnd).
    by split_and!.
Qed.

Lemma interrupt_taken_iff_witness :
  exists e', step_preamble (kernel_machine 0x8000) = Some (Some (exec_exception EXC_INT), e') /\
    pc (core e') = 0xFFFFFFFF80000180 /\ cp0_epc (cp0 (core e')) = 0xFFFFFFFFBFC00000.
Proof.
  destruct (interrupt_taken_iff r4k (kernel_machine 0x8000) (kernel_machine_inv 0x8000 ltac:(by split)))
    as (r & e' & H1 & [(_ & -> & Hv & _ & _ & _ & _ & Hepc & _)|(Hno & _)]); [vm_compute; reflexivity| |].
  - exists e'. split; [exact H1|]. split; [rewrite Hv; vm_compute; reflexivity|].
    rewrite Hepc. vm_compute. reflexivity.
  - exfalso. apply Hno. split_and!; [vm_compute; reflexivity..|]. exists 15.
    split; [lia|]. split; vm_compute; reflexivity.
Defined.

(** ** TLB instructions *)

Section tlb.
Context {T C : Type} `{TlbLaws T} `{MemLaws C} (model : CpuModel).
Notation Exec := (Exec T C).
Notation inv := (inv model any).

(** Completing an instruction leaves the TLB and Index alone, even when the
    next pc turns out to be misaligned. *)
Lemma complete_frame (e : Exec) :
  exists s e', handle_exec_complete e = Some (s, e') /\ tlb e' = tlb e /\
    cp0_index (cp0 (core e')) = cp0_index (cp0 (core e)).
Proof.
  unfold handle_exec_complete, get_core, gets, upd_core, modify, mbind, M_bind at 1.
  case_match; [|by eexists _, _]. unfold M_bind. case_match; [|by eexists _, _].
  unfold misaligned_fetch_exception, upd_core, modify, mbind, M_bind.
  rewrite handle_exception_eq by done. eexists _, _. split; [reflexivity|]. split; [reflexivity|].
  unfold excepted, deliver_exception, deliver_exception_at. cbn -[has exec_exception]. by repeat case_match.
Qed.

Lemma random_in_range c n :
  core_ok c -> n = tlb_entries c -> cp0_wired (cp0 c) < n ->
  cp0_wired (cp0 c) <= cp0_random (cp0 (update_random c)) mod n < n.
Proof.
  intros Hc -> Hw. destruct (update_random_ok c Hc) as [Hr Hu]. specialize (Hu Hw).
  rewrite Z.mod_small by lia. lia.
Qed.

End tlb.

(** TLBWR never overwrites a wired entry: when Wired is below the size of
    the TLB it succeeds and every slot below Wired reads back unchanged. *)
Theorem tlbwr_spares_wired {T C : Type} `{TlbLaws T} `{MemLaws C} model (e : Exec T C) :
  inv model any e -> cp0_wired (cp0 (core e)) < tlb_entries (core e) ->
  exists s e', exec_tlbwr e = Some (s, e') /\
    forall i, 0 <= i < cp0_wired (cp0 (core e)) -> tlb_read (tlb e') i = tlb_read (tlb e) i.
Proof.
  intros He Hw. pose proof (inv_base _ _ _ He) as Hb. pose proof (b_core _ Hb) as Hc.
  destruct (update_random_benign (core e) Hc) as (Hc' & _).
  pose proof (random_in_range (core e) (tlb_num_entries (tlb e)) Hc (b_num _ Hb) ltac:(rewrite (b_num _ Hb); done)) as Hr.
  set (i := cp0_random (cp0 (update_random (core e))) mod tlb_num_entries (tlb e)) in *.
  destruct (law_write (tlb e) i (create_tlb_entry_from_cp0 (update_random (core e)))) as (t' & Ht & _ & _ & Hread);
    [apply Hb|destruct (ok_wired _ (ok_cp0 _ Hc)); lia|by apply cp0_entry_fits|].
  unfold exec_tlbwr, upd_core, modify, gets, mbind, M_bind at 1 2 3. unfold write_tlb.
  unfold M_bind at 1. change (tlb (e <| core ::= update_random |>)) with (tlb e).
  change (core (e <| core ::= update_random |>)) with (update_random (core e)). fold i. rewrite Ht.
  cbn [mbind option_bind]. unfold nanotlb_invalidate, upd_core, modify, M_bind.
  match goal with |- context [handle_exec_complete ?x] => destruct (complete_frame x) as (s & e' & -> & Htlb & _) end.
  exists s, e'. split; [done|]. intros j Hj. rewrite Htlb.
  destruct (ok_wired _ (ok_cp0 _ Hc)). specialize (Hread j ltac:(lia)). rewrite decide_False in Hread by lia. exact Hread.
Qed.

Lemma tlbwr_spares_wired_witness :
  exists s e', exec_tlbwr (kernel_machine 0) = Some (s, e') /\
    tlb_read (tlb e') 0 = tlb_read (tlb (kernel_machine 0)) 0.
Proof.
  destruct (tlbwr_spares_wired r4k (kernel_machine 0) (kernel_machine_inv 0 ltac:(by split)))
    as (s & e' & H1 & H2); [vm_compute; reflexivity|].
  exists s, e'. split; [exact H1|]. apply (H2 0). vm_compute. split; [discriminate|reflexivity].
Defined.

End CpuEvents.
