(* ===== verification/Eeprom.v ===== *)
(** * The 93C56 serial EEPROM (src/src/dev/eeprom_93c56.rs)

    128 words of 16 bits behind four pins: chip select, clock, data in and
    data out.  [tick] is the state machine, advanced on each rising edge of the
    clock while the chip is selected.  Indexing is checked as in the source:
    [None] is the panic of an index past the array. *)

From Stdlib Require Import Ascii.
From S2P Require Import Prelude Snapshot.
Import Snapshot.

Module Eeprom.

Inductive State : Type := Standby | Idle | Opcode | Address | DataIn | DataOut.

#[export] Instance State_eq_dec : EqDecision State.
Proof. solve_decision. Defined.

Record Eeprom93c56 : Type := mkEeprom {
  data : list Z;
  state : State;
  cs : bool;
  sk : bool;
  di : bool;
  do_pin : bool;
  shifter : Z;
  bit_count : Z;
  opcode : Z;
  address : Z;
  write_enable : bool;
}.

#[global] Instance eta_Eeprom : Settable Eeprom93c56 := fun r =>
  mkEeprom (data r) (state r) (cs r) (sk r) (di r) (do_pin r) (shifter r) (bit_count r)
    (opcode r) (address r) (write_enable r).

Definition with_log_module : Eeprom93c56 := {|
  data := replicate 128 0xFFFF; state := Standby;
  cs := false; sk := false; di := false; do_pin := true;
  shifter := 0; bit_count := 0; opcode := 0; address := 0; write_enable := false |}.

(** ** Pins *)

Definition set_cs (e : Eeprom93c56) (val : bool) : Eeprom93c56 :=
  if eqb (cs e) val then e
  else
    let e := e <| cs := val |> in
    if negb (cs e) then e <| state := Standby |> <| do_pin := true |>
    else e <| state := Idle |>.

(** One more bit received, most significant first. *)
Definition shift_in (e : Eeprom93c56) : Eeprom93c56 :=
  e <| shifter := shl 32 (shifter e) 1 .| bool_to_Z (di e) |> <| bit_count := u32 (bit_count e + 1) |>.

Definition begin_data_in (e : Eeprom93c56) : Eeprom93c56 :=
  if write_enable e then e <| state := DataIn |> <| bit_count := 0 |> <| shifter := 0 |>
  else e <| state := Idle |>.

(** The command decoded when the eighth address bit is in. *)
Definition decode_command (e : Eeprom93c56) : option Eeprom93c56 :=
  if opcode e =? 2 then
    word ← aget (data e) (address e .& 0x7F);
    Some (e <| state := DataOut |> <| shifter := word .& 0xFFFF |> <| bit_count := 0 |> <| do_pin := false |>)
  else if opcode e =? 1 then Some (begin_data_in e)
  else if opcode e =? 3 then
    if write_enable e then
      d ← aset (data e) (address e .& 0x7F) 0xFFFF;
      Some (e <| data := d |> <| state := Idle |>)
    else Some (e <| state := Idle |>)
  else if opcode e =? 0 then
    let cmd_bits := (address e .>> 6) .& 0x3 in
    if cmd_bits =? 0 then Some (e <| write_enable := false |> <| state := Idle |>)
    else if cmd_bits =? 1 then Some (begin_data_in e)
    else if cmd_bits =? 2 then
      Some ((if write_enable e then e <| data ::= map (fun _ => 0xFFFF) |> else e) <| state := Idle |>)
    else if cmd_bits =? 3 then Some (e <| write_enable := true |> <| state := Idle |>)
    else Some (e <| state := Idle |>)
  else Some (e <| state := Idle |>).

Definition tick (e : Eeprom93c56) : option Eeprom93c56 :=
  match state e with
  | Standby => Some e
  | Idle => Some (if di e then e <| state := Opcode |> <| bit_count := 0 |> <| shifter := 0 |> else e)
  | Opcode =>
      let e := shift_in e in
      Some (if bit_count e =? 2 then
              e <| opcode := shifter e .& 0x3 |> <| state := Address |> <| bit_count := 0 |> <| shifter := 0 |>
            else e)
  | Address =>
      let e := shift_in e in
      if bit_count e =? 8 then decode_command (e <| address := shifter e .& 0xFF |>) else Some e
  | DataIn =>
      let e := shift_in e in
      if bit_count e =? 16 then
        let word := shifter e .& 0xFFFF in
        d ← (if opcode e =? 1 then aset (data e) (address e .& 0x7F) word
             else if (opcode e =? 0) && ((address e .>> 6) .& 0x3 =? 1) then Some (map (fun _ => word) (data e))
             else Some (data e));
        Some (e <| data := d |> <| state := Idle |>)
      else Some e
  | DataOut =>
      if bit_count e <? 16 then
        let val := (shifter e .>> (15 - bit_count e)) .& 1 in
        Some (e <| do_pin := negb (val =? 0) |> <| bit_count := u32 (bit_count e + 1) |>)
      else Some (e <| do_pin := true |> <| state := Idle |>)
  end.

Definition set_sk (e : Eeprom93c56) (val : bool) : option Eeprom93c56 :=
  if eqb (sk e) val then Some e
  else
    let rising := val && negb (sk e) in
    let e := e <| sk := val |> in
    if cs e && rising then tick e else Some e.

Definition set_di (e : Eeprom93c56) (val : bool) : Eeprom93c56 := e <| di := val |>.

Definition get_do (e : Eeprom93c56) : bool := do_pin e.

(** ** Access behind the protocol *)

Definition cachsz (e : Eeprom93c56) : option Z := aget (data e) 0x11.

Definition set_word (e : Eeprom93c56) (addr val : Z) : option Eeprom93c56 :=
  d ← aset (data e) addr val; Some (e <| data := d |>).

Definition set_cachsz (e : Eeprom93c56) (pages : Z) : option Eeprom93c56 := set_word e 0x11 pages.

Record Mac : Type := mkMac { mac0 : Z; mac1 : Z; mac2 : Z; mac3 : Z; mac4 : Z; mac5 : Z }.

Definition backdoor_set_mac (e : Eeprom93c56) (m : Mac) : option Eeprom93c56 :=
  e ← set_word e 0x7D (shl 16 (mac0 m) 8 .| mac1 m);
  e ← set_word e 0x7E (shl 16 (mac2 m) 8 .| mac3 m);
  set_word e 0x7F (shl 16 (mac4 m) 8 .| mac5 m).

(** The words [a .. b] of the array; slicing past its end panics. *)
Definition words (e : Eeprom93c56) (a b : nat) : option (list Z) :=
  if decide (b <= length (data e))%nat then Some (take (b - a) (drop a (data e))) else None.

Definition backdoor_set_mac_if_blank (e : Eeprom93c56) (m : Mac) : option (Eeprom93c56 * bool) :=
  w ← words e 0x7D 0x80;
  if bool_decide (w = replicate 3 0xFFFF) then e' ← backdoor_set_mac e m; Some (e', true)
  else Some (e, false).

(** ** The IP28 defaults *)

Definition rotate_left8 (x : Z) : Z := shl 8 x 1 .| (x .>> 7).

Fixpoint ip28_sum (i : nat) (l : list Z) (checksum : Z) : Z :=
  match l with
  | [] => checksum
  | word :: l' =>
      let c := checksum .^ u8 word in
      let c := match i with O => c | _ => c .^ u8 (word .>> 8) end in
      ip28_sum (S i) l' (rotate_left8 c)
  end.

Definition update_ip28_checksum (e : Eeprom93c56) : option Eeprom93c56 :=
  let checksum := ip28_sum 0 (data e) 0xA5 in
  w ← aget (data e) 0;
  set_word e 0 ((w .& 0xFF) .| shl 16 checksum 8).

(** The default strings and where they go. *)
Definition ip28_defaults : list (nat * list Z) :=
  [ (2%nat, [103]); (116%nat, [57; 54; 48; 48]); (121%nat, [48]);
    (122%nat, [80; 83; 84; 56; 80; 68; 84]); (178%nat, [89]); (232%nat, [56; 48]);
    (235%nat, [48]); (236%nat, [121]); (239%nat, [121]); (242%nat, [49]) ].

Definition ip28_bytes : list Z :=
  foldl (fun bytes '(offset, value) => list_inserts offset value bytes)
    (<[1%nat := 9]> (replicate 256 0)) ip28_defaults.

Fixpoint be_words (bytes : list Z) : list Z :=
  match bytes with
  | hi :: lo :: bytes' => (shl 16 hi 8 .| lo) :: be_words bytes'
  | _ => []
  end.

(** The words overwritten one by one while both sides last. *)
Fixpoint overwrite (dst src : list Z) : list Z :=
  match dst, src with
  | _ :: dst', x :: src' => x :: overwrite dst' src'
  | _, _ => dst
  end.

Definition initialize_ip28_if_erased (e : Eeprom93c56) : option (Eeprom93c56 * bool) :=
  w ← words e 0 0x7D;
  if existsb (fun word => negb (word =? 0xFFFF)) w then Some (e, false)
  else
    mac ← words e 0x7D 0x80;
    let d := overwrite (data e) (be_words ip28_bytes) in
    if decide (length d = 0x80)%nat then
      e' ← update_ip28_checksum (e <| data := take 0x7D d ++ mac |>);
      Some (e', true)
    else None.

(** ** Persistence *)

(** The file [save] writes, and what [load] makes of one. *)
Definition save (e : Eeprom93c56) : list Z :=
  concat (map (fun w => [u8 (w .>> 8); u8 w]) (data e)).

Definition load (e : Eeprom93c56) (bytes : list Z) : Eeprom93c56 :=
  e <| data ::= (fun d => overwrite d (be_words bytes)) |>.

(** [with_path] with the file's contents, when there is one. *)
Definition with_path (file : option (list Z)) : Eeprom93c56 :=
  match file with Some bytes => load with_log_module bytes | None => with_log_module end.

Definition key_data : list ascii := ["d"; "a"; "t"; "a"]%char.
Definition key_write_enable : list ascii :=
  ["w"; "r"; "i"; "t"; "e"; "_"; "e"; "n"; "a"; "b"; "l"; "e"]%char.

Definition save_state_owned (e : Eeprom93c56) : Value :=
  VTable [(key_data, u16_slice_to_toml (data e)); (key_write_enable, VBoolean (write_enable e))].

Definition load_state_mut (e : Eeprom93c56) (v : Value) : Eeprom93c56 :=
  let d := match get_field v key_data with Some s => load_u16_slice s (data e) | None => data e end in
  let w := match get_field v key_write_enable with
           | Some b => match toml_bool b with Some x => x | None => write_enable e end
           | None => write_enable e
           end in
  {| data := d; state := Standby; cs := false; sk := false; di := false; do_pin := true;
     shifter := 0; bit_count := 0; opcode := 0; address := 0; write_enable := w |}.

End Eeprom.
