(* ===== verification/EepromClaims.v ===== *)
(** * The 93C56's theorems *)

From Stdlib Require Import Ascii.
From S2P Require Import Prelude Snapshot Eeprom.

(** ** The 93C56 against its command set

    A host drives the pins bit by bit; here are its command sequences, the
    chip they are meant to operate (a memory and a write latch), and the
    lemmas that take the pin-level machine through a command. *)

Module EepromProofs.

Import Snapshot Eeprom.

#[local] Arguments set_sk : simpl never.
#[local] Arguments tick : simpl never.
#[local] Arguments decode_command : simpl never.
#[local] Arguments Z.testbit : simpl never.
#[local] Arguments Z.land : simpl never.

(** ** The host *)

(** One clock with [b] on data in. *)
Definition clock (e : Eeprom93c56) (b : bool) : option Eeprom93c56 :=
  e ← set_sk (set_di e b) true; set_sk e false.

(** [n] bits of [v], most significant first, from bit [k] on. *)
Definition send (v n : Z) (e : Eeprom93c56) (ks : list Z) : option Eeprom93c56 :=
  foldl (fun o k => e ← o; clock e (Z.testbit v (n - 1 - k))) (Some e) ks.

Definition send_word (v n : Z) (e : Eeprom93c56) : option Eeprom93c56 := send v n e (seqZ 0 n).

(** [n] bits clocked out, sampled after each rising edge. *)
Fixpoint receive (n : nat) (e : Eeprom93c56) (acc : Z) : option (Eeprom93c56 * Z) :=
  match n with
  | O => Some (e, acc)
  | S n' =>
      e ← set_sk e true;
      let acc := acc * 2 + bool_to_Z (get_do e) in
      e ← set_sk e false;
      receive n' e acc
  end.

Inductive Cmd : Type :=
| READ (a : Z) | WRITE (a d : Z) | ERASE (a : Z)
| WRDS (x : Z) | WRAL (x d : Z) | ERAL (x : Z) | WREN (x : Z).

Definition cmd_opcode (c : Cmd) : Z :=
  match c with READ _ => 2 | WRITE _ _ => 1 | ERASE _ => 3 | _ => 0 end.

Definition cmd_address (c : Cmd) : Z :=
  match c with
  | READ a | WRITE a _ | ERASE a => a
  | WRDS x => x | WRAL x _ => 0x40 + x | ERAL x => 0x80 + x | WREN x => 0xC0 + x
  end.

Definition cmd_data (c : Cmd) : option Z :=
  match c with WRITE _ d | WRAL _ d => Some d | _ => None end.

Definition cmd_ok (c : Cmd) : Prop :=
  match c with
  | READ a | ERASE a => fits 8 a
  | WRITE a d => fits 8 a /\ fits 16 d
  | WRDS x | ERAL x | WREN x => fits 6 x
  | WRAL x d => fits 6 x /\ fits 16 d
  end.

(** Chip select low then high, start bit, opcode, address, data either way. *)
Definition issue (e : Eeprom93c56) (c : Cmd) : option (Eeprom93c56 * option Z) :=
  e ← send_word 1 1 (set_cs (set_cs e false) true);
  e ← send_word (cmd_opcode c) 2 e;
  e ← send_word (cmd_address c) 8 e;
  match c with
  | READ _ => '(e, w) ← receive 16 e 0; Some (e, Some w)
  | _ => e ← (match cmd_data c with Some d => send_word d 16 e | None => Some e end); Some (e, None)
  end.

Definition issue_all (e : Eeprom93c56) (cs : list Cmd) : option (Eeprom93c56 * list (option Z)) :=
  foldl (fun o c => '(e, out) ← o; '(e, r) ← issue e c; Some (e, out ++ [r])) (Some (e, [])) cs.

(** ** The chip *)

Definition Chip : Type := list Z * bool.

Definition chip_step (m : Chip) (c : Cmd) : Chip * option Z :=
  let '(w, we) := m in
  match c with
  | READ a => (m, w !! Z.to_nat (a mod 128))
  | WRITE a d => ((if we then <[Z.to_nat (a mod 128) := d]> w else w, we), None)
  | ERASE a => ((if we then <[Z.to_nat (a mod 128) := 0xFFFF]> w else w, we), None)
  | WRDS _ => ((w, false), None)
  | WRAL _ d => ((if we then replicate (length w) d else w, we), None)
  | ERAL _ => ((if we then replicate (length w) 0xFFFF else w, we), None)
  | WREN _ => ((w, true), None)
  end.

(** The commands that send data do so with the latch open. *)
Fixpoint allowed (we : bool) (cs : list Cmd) : bool :=
  match cs with
  | [] => true
  | c :: cs' =>
      match cmd_data c with Some _ => we | None => true end &&
      allowed (match c with WREN _ => true | WRDS _ => false | _ => we end) cs'
  end.

Fixpoint chip_run (m : Chip) (cs : list Cmd) : Chip * list (option Z) :=
  match cs with
  | [] => (m, [])
  | c :: cs' => let '(m, r) := chip_step m c in let '(m, rs) := chip_run m cs' in (m, r :: rs)
  end.

(** ** Clocking *)

Definition words_ok (d : list Z) : Prop := length d = 128%nat /\ Forall (fits 16) d.

(** A chip whose clock is low. *)
Definition ready (e : Eeprom93c56) : Prop := words_ok (data e) /\ sk e = false.

Lemma set_sk_high e : sk e = false -> cs e = true -> set_sk e true = tick (e <| sk := true |>).
Proof. intros Hs Hc. unfold set_sk. rewrite Hs. cbn. by rewrite Hc. Qed.

Lemma clock_eq e b :
  sk e = false -> cs e = true ->
  clock e b = (e ← tick (e <| di := b |> <| sk := true |>); set_sk e false).
Proof. intros Hs Hc. unfold clock. by rewrite set_sk_high. Qed.

Lemma set_sk_low e : sk e = true -> set_sk e false = Some (e <| sk := false |>).
Proof. intros Hs. unfold set_sk. rewrite Hs. cbn. by rewrite andb_false_r. Qed.

(** The states that collect bits, and how many. *)
Definition collects (s : State) : option Z :=
  match s with Opcode => Some 2 | Address => Some 8 | DataIn => Some 16 | _ => None end.

Definition collecting (s : State) (v n k : Z) (e : Eeprom93c56) : Prop :=
  state e = s /\ cs e = true /\ sk e = false /\ bit_count e = k /\ shifter e = v .>> (n - k).

Lemma shift_step v n k b :
  fits n v -> 0 <= k < n -> n <= 16 -> b = Z.testbit v (n - 1 - k) ->
  shl 32 (v .>> (n - k)) 1 .| bool_to_Z b = v .>> (n - (k + 1)).
Proof.
  intros Hv Hk Hn ->. unfold shl. rewrite wrap_small.
  2: { assert (0 <= v .>> (n - k) < 2 ^ 31) as [? ?]; [|rewrite Z.shiftl_mul_pow2 by lia; split; lia].
    apply (fits_mono n); [apply shiftr_fits; [lia|done]|lia]. }
  apply Z.bits_inj'. intros i Hi. rewrite Z.lor_spec, Z.shiftl_spec, (Z.shiftr_spec v (n - (k + 1))) by lia.
  destruct (Z.eq_dec i 0) as [->|].
  - rewrite (Z.testbit_neg_r _ (0 - 1)) by lia.
    replace (0 + (n - (k + 1))) with (n - 1 - k) by lia. by destruct (Z.testbit v (n - 1 - k)).
  - rewrite Z.shiftr_spec by lia. replace (i - 1 + (n - k)) with (i + (n - (k + 1))) by lia.
    replace (Z.testbit (bool_to_Z _) i) with false; [apply orb_false_r|].
    destruct (Z.testbit v (n - 1 - k)); symmetry; [|apply Z.testbit_0_l].
    change (bool_to_Z true) with (2 ^ 0). rewrite pow2_testbit by lia. by apply Z.eqb_neq.
Qed.

(** A word not begun. *)
Lemma collecting_start s v n e :
  0 <= n -> fits n v -> state e = s -> cs e = true -> sk e = false -> bit_count e = 0 -> shifter e = 0 ->
  collecting s v n 0 e.
Proof.
  intros Hn Hv ? ? ? ? Hs. split_and!; [done..|]. rewrite Hs. symmetry. rewrite Z.sub_0_r, Z.shiftr_div_pow2 by done.
  by apply Z.div_small.
Qed.

(** Everything but the shift register and the pins. *)
Definition frame (e e' : Eeprom93c56) : Prop :=
  data e' = data e /\ write_enable e' = write_enable e /\ opcode e' = opcode e /\ address e' = address e.

Lemma frame_refl e : frame e e.
Proof. done. Qed.

Lemma frame_trans e1 e2 e3 : frame e1 e2 -> frame e2 e3 -> frame e1 e3.
Proof. intros (? & ? & ? & ?) (? & ? & ? & ?). unfold frame. split_and!; congruence. Qed.

Lemma u32_small k : 0 <= k < 32 -> u32 k = k.
Proof. intros. unfold u32. apply wrap_small. split; lia. Qed.

(** A bit that is not the last one is shifted in. *)
Lemma collect_bit s v n k e :
  collects s = Some n -> fits n v -> 0 <= k -> k + 1 < n -> collecting s v n k e ->
  exists e', clock e (Z.testbit v (n - 1 - k)) = Some e' /\ collecting s v n (k + 1) e' /\ frame e e'.
Proof.
  intros Hn Hv Hk Hkn (Hs & Hc & Hsk & Hb & Hsh). rewrite clock_eq by done.
  assert (Hn16 : n <= 16) by (destruct s; cbn in Hn; naive_solver lia).
  set (e1 := e <| di := Z.testbit v (n - 1 - k) |> <| sk := true |>).
  assert (Hin : shift_in e1 = e1 <| shifter := v .>> (n - (k + 1)) |> <| bit_count := k + 1 |>).
  { unfold shift_in, e1. cbn -[Z.testbit Z.shiftr]. rewrite Hsh, Hb.
    by rewrite (shift_step v n k), u32_small by (done || lia). }
  assert (Ht : tick e1 = Some (shift_in e1)).
  { unfold tick. change (state e1) with (state e). rewrite Hs.
    destruct s; cbn in Hn; try discriminate Hn; injection Hn as <-.
    all: rewrite Hin; cbn -[Z.testbit Z.shiftr]; by rewrite (proj2 (Z.eqb_neq (k + 1) _)) by lia. }
  rewrite Hin in Ht.
  rewrite Ht. cbn [mbind option_bind]. rewrite set_sk_low by done.
  eexists. split; [reflexivity|]. by split_and!.
Qed.

Lemma collect_prefix s v n e m :
  collects s = Some n -> fits n v -> 0 <= m < n -> collecting s v n 0 e ->
  exists e', send v n e (seqZ 0 m) = Some e' /\ collecting s v n m e' /\ frame e e'.
Proof.
  intros Hn Hv [Hm0 Hm] He. revert Hm. pattern m. apply natlike_ind; [intros _; by exists e| |done].
  intros k Hk IH Hkn. destruct IH as (e1 & Hs1 & Hc1 & Hf1); [lia|].
  destruct (collect_bit s v n k e1 Hn Hv Hk ltac:(lia) Hc1) as (e2 & Hs2 & Hc2 & Hf2).
  exists e2. split_and!; [|done|by apply (frame_trans e e1)].
  unfold send in *. change (Z.succ k) with (k + 1). rewrite seqZ_snoc, foldl_app by done. by rewrite Hs1.
Qed.

(** The last bit: the word is complete when the state acts on it. *)
Lemma send_word_last s v n e :
  collects s = Some n -> fits n v -> 0 < n -> collecting s v n 0 e ->
  exists e1, collecting s v n (n - 1) e1 /\ frame e e1 /\
    send_word v n e = clock e1 (Z.testbit v 0).
Proof.
  intros Hn Hv H0 He. destruct (collect_prefix s v n e (n - 1) Hn Hv ltac:(lia) He) as (e1 & Hs & Hc & Hf).
  exists e1. split_and!; [done..|]. unfold send_word, send in *.
  assert (Hseq : seqZ 0 n = seqZ 0 (n - 1) ++ [0 + (n - 1)]) by (rewrite <- seqZ_snoc by lia; f_equal; lia).
  rewrite Hseq, foldl_app, Hs. cbn [foldl mbind option_bind].
  by replace (n - 1 - (0 + (n - 1))) with 0 by lia.
Qed.

(** The chip with a complete word [v] of [n] bits in its shift register. *)
Definition complete (e : Eeprom93c56) (v n : Z) : Eeprom93c56 :=
  e <| di := Z.testbit v 0 |> <| sk := true |> <| shifter := v |> <| bit_count := n |>.

Lemma last_shift v n e :
  fits n v -> 0 < n <= 16 -> bit_count e = n - 1 -> shifter e = v .>> (n - (n - 1)) ->
  shift_in (e <| di := Z.testbit v 0 |> <| sk := true |>) = complete e v n.
Proof.
  intros Hv Hn Hb Hs. unfold shift_in, complete. cbn -[Z.testbit Z.shiftr]. rewrite Hb, Hs.
  rewrite (shift_step v n (n - 1)) by (done || lia || (f_equal; lia)).
  rewrite u32_small by lia. replace (n - (n - 1 + 1)) with 0 by lia.
  rewrite Z.shiftr_0_r. by replace (n - 1 + 1) with n by lia.
Qed.


(** ** The three phases of a command *)

(** Selected and waiting for the start bit. *)
Definition selected (e : Eeprom93c56) : Prop := state e = Idle /\ cs e = true /\ sk e = false.

Lemma select_ok e : sk e = false ->
  selected (set_cs (set_cs e false) true) /\
  data (set_cs (set_cs e false) true) = data e /\ write_enable (set_cs (set_cs e false) true) = write_enable e.
Proof. intros Hs. unfold set_cs, selected. destruct (cs e) eqn:Hc; cbn; [by split_and!|]. rewrite Hc. by split_and!. Qed.

Lemma start_bit e : selected e -> exists e', send_word 1 1 e = Some e' /\ collecting Opcode 0 2 0 e' /\
  data e' = data e /\ write_enable e' = write_enable e.
Proof.
  intros (Hs & Hc & Hk). change (send_word 1 1 e) with (clock e true). rewrite clock_eq by done.
  unfold tick. change (state (e <| di := true |> <| sk := true |>)) with (state e). rewrite Hs. cbn [di set_field mbind option_bind].
  rewrite set_sk_low by done. eexists. by split_and!.
Qed.

Lemma opcode_phase e op : fits 2 op -> collecting Opcode op 2 0 e ->
  exists e', send_word op 2 e = Some e' /\ collecting Address 0 8 0 e' /\ opcode e' = op /\
    data e' = data e /\ write_enable e' = write_enable e.
Proof.
  intros Hv He. destruct (send_word_last Opcode op 2 e eq_refl Hv ltac:(lia) He)
    as (e1 & (Hs & Hc & Hk & Hb & Hsh) & (Hd & Hw & _ & _) & ->).
  rewrite clock_eq by done. unfold tick. change (state (e1 <| di := _ |> <| sk := true |>)) with (state e1). rewrite Hs.
  rewrite (last_shift op 2 e1) by (done || lia). cbn -[Z.testbit Z.land].
  rewrite set_sk_low by done. eexists. split; [reflexivity|]. unfold collecting. cbn -[Z.testbit Z.land].
  change 0x3 with (Z.ones 2). rewrite Z.land_ones, Z.mod_small by (done || lia). by split_and!.
Qed.

(** The command decoded at the last address bit, with the chip's memory and
    latch as before. *)
Lemma address_phase e a : fits 8 a -> collecting Address a 8 0 e ->
  exists e1, send_word a 8 e = (e ← decode_command e1; set_sk e false) /\
    address e1 = a /\ cs e1 = true /\ sk e1 = true /\ opcode e1 = opcode e /\
    data e1 = data e /\ write_enable e1 = write_enable e.
Proof.
  intros Hv He. destruct (send_word_last Address a 8 e eq_refl Hv ltac:(lia) He)
    as (e1 & (Hs & Hc & Hk & Hb & Hsh) & (Hd & Hw & Ho & _) & ->).
  rewrite clock_eq by done. unfold tick. change (state (e1 <| di := _ |> <| sk := true |>)) with (state e1). rewrite Hs.
  rewrite (last_shift a 8 e1) by (done || lia). cbn -[Z.testbit Z.land decode_command].
  change 0xFF with (Z.ones 8). rewrite Z.land_ones, Z.mod_small by (done || lia).
  eexists. split; [reflexivity|]. cbn. by split_and!.
Qed.

(** Data in: the sixteenth bit stores the word. *)
Lemma data_phase e d : fits 16 d -> collecting DataIn d 16 0 e ->
  exists e1, send_word d 16 e =
    (w ← (if opcode e =? 1 then aset (data e) (address e .& 0x7F) d
          else if (opcode e =? 0) && ((address e .>> 6) .& 0x3 =? 1) then Some (map (fun _ => d) (data e))
          else Some (data e)); Some (e1 <| data := w |>)) /\
    sk e1 = false /\ write_enable e1 = write_enable e.
Proof.
  intros Hv He. destruct (send_word_last DataIn d 16 e eq_refl Hv ltac:(lia) He)
    as (e1 & (Hs & Hc & Hk & Hb & Hsh) & (Hd & Hw & Ho & Ha) & ->).
  rewrite clock_eq by done. unfold tick. change (state (e1 <| di := _ |> <| sk := true |>)) with (state e1). rewrite Hs.
  rewrite (last_shift d 16 e1) by (done || lia). cbn -[Z.shiftr].
  change 0xFFFF with (Z.ones 16). rewrite Z.land_ones, Z.mod_small by (done || lia). rewrite Hd, Ho, Ha.
  lazymatch goal with |- context [if opcode e =? 1 then ?a else ?b] =>
    destruct (if opcode e =? 1 then a else b) as [w|] end; cbn [mbind option_bind]; [|by exists e1].
  rewrite set_sk_low by done.
  exists (e1 <| di := Z.testbit d 0 |> <| shifter := d |> <| bit_count := 16 |> <| state := Idle |>
             <| opcode := opcode e |> <| address := address e |>). split_and!; [|done..].
  unfold set_field. cbn. by rewrite Hk.
Qed.

(** Data out: the remaining bits of the word, most significant first. *)
Lemma receive_loop n : forall e w acc,
  state e = DataOut -> cs e = true -> sk e = false -> fits 16 w -> shifter e = w ->
  bit_count e = 16 - Z.of_nat n -> (n <= 16)%nat ->
  exists e', receive n e acc = Some (e', acc * 2 ^ Z.of_nat n + w mod 2 ^ Z.of_nat n) /\ sk e' = false /\
    data e' = data e /\ write_enable e' = write_enable e.
Proof.
  induction n as [|n IH]; intros e w acc Hs Hc Hk Hw Hsh Hb Hn.
  - exists e. cbn. rewrite Z.mod_1_r, Z.mul_1_r, Z.add_0_r. by split_and!.
  - cbn [receive]. rewrite set_sk_high by done. unfold tick.
    change (state (e <| sk := true |>)) with (state e). rewrite Hs. cbn -[Z.shiftr Z.sub].
    rewrite Hb, Hsh. rewrite (proj2 (Z.ltb_lt _ _)) by lia. cbn -[Z.shiftr Z.sub].
    rewrite set_sk_low by done. cbn [mbind option_bind].
    replace (15 - (16 - Z.of_nat (S n))) with (Z.of_nat n) by lia.
    match goal with |- context [receive n ?x ?a] => destruct (IH x w a) as (e' & -> & H1 & H2 & H3) end; try done.
    { cbn -[Z.sub]. rewrite u32_small by lia. lia. }
    { lia. }
    exists e'. split_and!; [|done..]. do 2 f_equal. cbn [get_do do_pin set_field].
    rewrite Nat2Z.inj_succ, Z.pow_succ_r, Z.mul_assoc by lia.
    change 1 with (Z.ones 1). rewrite Z.land_ones by lia. rewrite Z.shiftr_div_pow2 by lia. change (2 ^ 1) with 2.
    rewrite (Z.mul_comm 2 (2 ^ Z.of_nat n)), Z.rem_mul_r by lia.
    destruct (Z.eqb_spec ((w / 2 ^ Z.of_nat n) mod 2) 0) as [->|]; cbn [negb bool_to_Z]; [lia|].
    pose proof (Z.mod_pos_bound (w / 2 ^ Z.of_nat n) 2). replace ((w / 2 ^ Z.of_nat n) mod 2) with 1 by lia. lia.
Qed.

(** ** Commands *)

Lemma cmd_fits c : cmd_ok c -> fits 2 (cmd_opcode c) /\ fits 8 (cmd_address c).
Proof. destruct c; cbn; unfold fits; intros; split; lia. Qed.

(** Up to the address every command runs alike. *)
Lemma command_phase e c : ready e -> cmd_ok c ->
  exists e1, (e ← send_word 1 1 (set_cs (set_cs e false) true);
              e ← send_word (cmd_opcode c) 2 e; send_word (cmd_address c) 8 e)
      = (e ← decode_command e1; set_sk e false) /\
    address e1 = cmd_address c /\ opcode e1 = cmd_opcode c /\ cs e1 = true /\ sk e1 = true /\
    data e1 = data e /\ write_enable e1 = write_enable e.
Proof.
  intros [_ Hk] Hc. destruct (cmd_fits c Hc) as [Ho Ha]. destruct (select_ok e Hk) as (Hs & Hd0 & Hw0).
  destruct (start_bit _ Hs) as (e1 & -> & He1 & Hd1 & Hw1).
  destruct (opcode_phase e1 (cmd_opcode c) Ho) as (e2 & H2 & He2 & Hop & Hd2 & Hw2).
  { destruct He1 as (? & ? & ? & ? & ?). by apply collecting_start. }
  destruct (address_phase e2 (cmd_address c) Ha) as (e3 & H3 & Had & Hcs & Hsk & Hop3 & Hd3 & Hw3).
  { destruct He2 as (? & ? & ? & ? & ?). by apply collecting_start. }
  exists e3. cbn [mbind option_bind]. rewrite H2. cbn [mbind option_bind]. rewrite H3.
  split_and!; congruence.
Qed.

Lemma issue_phases e c e1 :
  (e ← send_word 1 1 (set_cs (set_cs e false) true);
   e ← send_word (cmd_opcode c) 2 e; send_word (cmd_address c) 8 e) = e1 ->
  issue e c = (e ← e1;
    match c with
    | READ _ => '(e, w) ← receive 16 e 0; Some (e, Some w)
    | _ => e ← (match cmd_data c with Some d => send_word d 16 e | None => Some e end); Some (e, None)
    end).
Proof.
  intros <-. unfold issue.
  destruct (send_word 1 1 _) as [e2|]; [|done]. cbn [mbind option_bind].
  destruct (send_word (cmd_opcode c) 2 e2) as [e3|]; [|done]. cbn [mbind option_bind]. done.
Qed.

Lemma low7 a : a .& 0x7F = a mod 128.
Proof. change 0x7F with (Z.ones 7). by rewrite Z.land_ones. Qed.

Lemma top2 a k x : a = k * 2 ^ 6 + x -> fits 6 x -> 0 <= k < 4 -> (a .>> 6) .& 0x3 = k.
Proof.
  intros -> Hx Hk. change 0x3 with (Z.ones 2). rewrite Z.land_ones, Z.shiftr_div_pow2 by lia.
  rewrite Z.div_add_l, (Z.div_small x), Z.add_0_r by (done || lia). apply Z.mod_small. lia.
Qed.

Lemma set_words_ok d i x : words_ok d -> fits 16 x -> words_ok (<[i := x]> d).
Proof. intros [Hl Hd] Hx. split; [by rewrite length_insert|by apply Forall_insert]. Qed.

Lemma fill_words_ok d x : words_ok d -> fits 16 x -> words_ok (replicate (length d) x).
Proof. intros [Hl Hd] Hx. rewrite Hl. split; [done|]. by apply Forall_replicate. Qed.

Lemma map_replicate {A B} (l : list A) (x : B) : map (fun _ => x) l = replicate (length l) x.
Proof. induction l as [|y l IH]; [done|]. cbn. by rewrite IH. Qed.

Lemma store_word d a x : words_ok d -> aset d (a .& 0x7F) x = Some (<[Z.to_nat (a mod 128) := x]> d).
Proof.
  intros [Hl _]. rewrite low7. apply aset_Some. rewrite Hl.
  pose proof (Z.mod_pos_bound a 128). lia.
Qed.

Lemma fetch_word d a : words_ok d ->
  exists w, aget d (a .& 0x7F) = Some w /\ d !! Z.to_nat (a mod 128) = Some w /\ fits 16 w.
Proof.
  intros [Hl Hd]. rewrite low7. pose proof (Z.mod_pos_bound a 128 ltac:(lia)).
  destruct (lookup_lt_is_Some_2 d (Z.to_nat (a mod 128))) as [w Hw]; [lia|].
  exists w. split_and!; [|done|by eapply Forall_lookup_1].
  unfold aget. by rewrite (proj2 (Z.leb_le _ _)) by lia.
Qed.

(** What is left of a command after the address, as the chip's step. *)
Lemma issue_spec e c :
  ready e -> cmd_ok c -> (cmd_data c <> None -> write_enable e = true) ->
  exists e', issue e c = Some (e', snd (chip_step (data e, write_enable e) c)) /\ ready e' /\
    (data e', write_enable e') = fst (chip_step (data e, write_enable e) c).
Proof.
  intros Hr Hc Hwe. destruct (command_phase e c Hr Hc) as (e1 & Hcmd & Ha & Ho & Hcs & Hsk & Hd & Hw).
  rewrite (issue_phases e c _ Hcmd). destruct Hr as [Hok Hk]. rewrite <- Hd, <- Hw in *. clear Hcmd Hd Hw Hk e.
  unfold decode_command. rewrite Ho, Ha. destruct c as [a|a d|a|x|x d|x|x]; cbn [cmd_opcode cmd_address] in *.
  - destruct (fetch_word _ a Hok) as (w & Hget & Hl & Hfw). cbn -[receive Z.land]. rewrite Hget. cbn -[receive Z.land].
    rewrite set_sk_low by done. cbn -[receive Z.land].
    change 0xFFFF with (Z.ones 16). rewrite Z.land_ones, Z.mod_small by (done || lia).
    match goal with |- context [receive 16 ?x 0] =>
      destruct (receive_loop 16 x w 0) as (e' & -> & Hsk' & Hd' & Hw') end; try done.
    cbn -[Z.pow]. rewrite Hl, Z.mod_small by done. exists e'. unfold ready. rewrite Hd', Hw'. by split_and!.
  - destruct Hc as [Hfa Hfd]. unfold begin_data_in. rewrite Hwe by done. cbn -[send_word Z.land].
    rewrite set_sk_low by done. cbn -[send_word Z.land].
    match goal with |- context [send_word d 16 ?x] =>
      destruct (data_phase x d Hfd ltac:(by apply collecting_start)) as (e' & -> & Hsk' & Hw') end.
    cbn -[Z.land] in *. rewrite Ho, Ha, store_word by done. cbn. eexists. split; [reflexivity|].
    split; [split; [by apply set_words_ok|done]|]. cbn. by rewrite Hw', Hwe.
  - destruct (write_enable e1) eqn:Hwe1; cbn -[Z.land].
    + rewrite store_word by done. cbn. rewrite set_sk_low by done. eexists. split; [reflexivity|].
      split; [split; [by apply set_words_ok|done]|]. cbn. by rewrite Hwe1.
    + rewrite set_sk_low by done. eexists. split; [reflexivity|]. split; [by split|]. cbn. by rewrite Hwe1.
  - rewrite (top2 x 0 x) by (done || lia). cbn. rewrite set_sk_low by done. eexists. by split_and!.
  - destruct Hc as [Hfx Hfd]. rewrite (top2 (0x40 + x) 1 x) by (done || lia). unfold begin_data_in. rewrite Hwe by done.
    cbn -[send_word Z.land Z.shiftr]. rewrite set_sk_low by done. cbn -[send_word Z.land Z.shiftr].
    match goal with |- context [send_word d 16 ?x] =>
      destruct (data_phase x d Hfd ltac:(by apply collecting_start)) as (e' & -> & Hsk' & Hw') end.
    cbn -[Z.land Z.shiftr] in *. rewrite Ho, Ha, (top2 (0x40 + x) 1 x) by (done || lia). cbn. eexists. split; [reflexivity|].
    rewrite map_replicate. split; [split; [by apply fill_words_ok|done]|]. cbn. by rewrite Hw', Hwe.
  - rewrite (top2 (0x80 + x) 2 x) by (done || lia). cbn -[Z.land]. rewrite set_sk_low by (by destruct (write_enable e1)).
    eexists. split; [reflexivity|]. destruct (write_enable e1) eqn:Hwe1; cbn; rewrite ?map_replicate, ?Hwe1.
    + split; [split; [by apply fill_words_ok|done]|done].
    + by split.
  - rewrite (top2 (0xC0 + x) 3 x) by (done || lia). cbn. rewrite set_sk_low by done. eexists. by split_and!.
Qed.

End EepromProofs.

Module EepromClaims.

Import Snapshot Eeprom EepromProofs.

#[local] Arguments set_sk : simpl never.
#[local] Arguments tick : simpl never.
#[local] Arguments decode_command : simpl never.

Lemma new_ready : ready with_log_module.
Proof. split; [|done]. split; [done|]. by apply Forall_replicate. Qed.

Lemma issue_all_spec cs : forall e out,
  ready e -> Forall cmd_ok cs -> allowed (write_enable e) cs = true ->
  exists e', foldl (fun o c => '(e, out) ← o; '(e, r) ← issue e c; Some (e, out ++ [r])) (Some (e, out)) cs =
      Some (e', out ++ snd (chip_run (data e, write_enable e) cs)) /\ ready e' /\
    (data e', write_enable e') = fst (chip_run (data e, write_enable e) cs).
Proof.
  induction cs as [|c cs IH]; intros e out Hr Hok Hal.
  { exists e. cbn. by rewrite app_nil_r. }
  apply Forall_cons in Hok as [Hc Hok]. apply andb_true_iff in Hal as [Hd Hal].
  destruct (issue_spec e c Hr Hc) as (e1 & H1 & Hr1 & Hs); [by destruct (cmd_data c)|].
  destruct (IH e1 (out ++ [snd (chip_step (data e, write_enable e) c)]) Hr1 Hok) as (e2 & H2 & Hr2 & Hs2).
  { replace (write_enable e1) with (snd (fst (chip_step (data e, write_enable e) c))) by (by rewrite <- Hs).
    rewrite <- Hal. by destruct c. }
  exists e2. cbn [foldl mbind option_bind chip_run]. rewrite H1. cbn [mbind option_bind]. rewrite H2.
  destruct (chip_step _ c) as [m r]. cbn [fst snd] in *. subst m.
  destruct (chip_run (data e1, write_enable e1) cs). cbn [fst snd] in *. by rewrite <- app_assoc.
Qed.

(** C39: the pin-level machine implements the chip of the data sheet: whatever
    commands a host clocks in (data only while the write latch is open), none
    fails, the memory and the latch end as the command set says, and every
    READ clocks out the word at its address, most significant bit first. *)
Theorem eeprom_refines e cs :
  ready e -> Forall cmd_ok cs -> allowed (write_enable e) cs = true ->
  exists e', issue_all e cs = Some (e', snd (chip_run (data e, write_enable e) cs)) /\ ready e' /\
    (data e', write_enable e') = fst (chip_run (data e, write_enable e) cs).
Proof. intros. by apply issue_all_spec. Qed.

Lemma eeprom_refines_witness :
  exists e', issue_all with_log_module [WREN 0; WRITE 0x10 0xABCD; READ 0x90; WRDS 0] =
    Some (e', [None; None; Some 0xABCD; None]) /\ write_enable e' = false.
Proof.
  destruct (eeprom_refines with_log_module [WREN 0; WRITE 0x10 0xABCD; READ 0x90; WRDS 0])
    as (e' & H1 & _ & H2); [exact new_ready|repeat constructor; vm_compute; congruence|reflexivity|].
  exists e'. split; [exact H1|]. injection H2 as _ H2. exact H2.
Defined.

(** ** Arbitrary pin activity *)

Inductive Pin : Type := PinCs (b : bool) | PinSk (b : bool) | PinDi (b : bool).

Definition pin_step (e : Eeprom93c56) (p : Pin) : option Eeprom93c56 :=
  match p with PinCs b => Some (set_cs e b) | PinSk b => set_sk e b | PinDi b => Some (set_di e b) end.

Definition pins (e : Eeprom93c56) (ps : list Pin) : option Eeprom93c56 :=
  foldl (fun o p => e ← o; pin_step e p) (Some e) ps.

(** The memory is whole, and a word is only collected with the latch open. *)
Definition chip_inv (e : Eeprom93c56) : Prop :=
  words_ok (data e) /\ (state e = DataIn -> write_enable e = true).

Definition guarded (e e' : Eeprom93c56) : Prop :=
  chip_inv e' /\ (write_enable e = false -> data e' = data e).

Lemma guarded_refl e : chip_inv e -> guarded e e.
Proof. by split. Qed.

Lemma decode_guarded e : words_ok (data e) -> exists e', decode_command e = Some e' /\ guarded e e'.
Proof.
  intros Hok. unfold decode_command, begin_data_in, guarded, chip_inv.
  repeat case_match; try (eexists; by split_and!).
  - destruct (fetch_word (data e) (address e) Hok) as (w & -> & _). eexists. by split_and!.
  - rewrite store_word by done. eexists. cbn. split_and!; try done; by apply set_words_ok.
  - eexists. split; [done|]. cbn. rewrite map_replicate. split_and!; try done; by apply fill_words_ok.
Qed.

Lemma tick_guarded e : chip_inv e -> exists e', tick e = Some e' /\ guarded e e'.
Proof.
  intros [Hok Hin]. unfold tick. destruct (state e) eqn:Hs; unfold guarded, chip_inv.
  - eexists. split_and!; [done..|by rewrite Hs|done].
  - eexists. split; [done|]. destruct (di e); split_and!; try done. by rewrite Hs.
  - eexists. split; [done|]. case_match; split_and!; try done. cbn. by rewrite Hs.
  - case_match.
    + destruct (decode_guarded ((shift_in e) <| address := shifter (shift_in e) .& 0xFF |>)) as (e' & H1 & H2); [exact Hok|].
      exists e'. split; [exact H1|exact H2].
    + eexists. split; [done|]. split_and!; try done. cbn. by rewrite Hs.
  - case_match; [|eexists; split; [done|]; split_and!; try done; by intros _; apply Hin].
    set (x := shifter (shift_in e) .& 0xFFFF).
    assert (Hx : fits 16 x) by (apply land_fits_r; [lia|by split]). clearbody x.
    change (data (shift_in e)) with (data e). rewrite map_replicate, store_word by done.
    assert (Hwe : write_enable e = true) by (by apply Hin).
    repeat case_match; cbn; (eexists; split; [done|]); cbn; rewrite Hwe; split_and!; try done.
    + by apply set_words_ok.
    + by apply fill_words_ok.
  - case_match; (eexists; split; [done|]); cbn; rewrite ?Hs; by split_and!.
Qed.

Lemma pin_guarded e p : chip_inv e -> exists e', pin_step e p = Some e' /\ guarded e e'.
Proof.
  intros He. destruct p as [b|b|b]; cbn.
  - eexists. split; [done|]. destruct He. unfold set_cs, guarded, chip_inv. by repeat case_match; split_and!.
  - unfold set_sk. case_match; [by exists e|]. case_match.
    + destruct (tick_guarded (e <| sk := b |>)) as (e' & H1 & H2); [exact He|]. exists e'. split; [exact H1|exact H2].
    + by eexists.
  - by eexists.
Qed.

(** Write protection holds against any pin activity, not only well-formed
    commands: no sequence of pin changes makes the chip fail, and the memory
    can only differ afterwards if the write latch was open at some point on
    the way. *)
Theorem eeprom_protected e ps :
  chip_inv e -> exists e', pins e ps = Some e' /\ chip_inv e' /\
    (data e' = data e \/ exists ps1 e1, ps1 `prefix_of` ps /\ pins e ps1 = Some e1 /\ write_enable e1 = true).
Proof.
  intros He. induction ps as [|p ps IH] using rev_ind; [by exists e; split_and!; [..|left]|].
  destruct IH as (e1 & H1 & Hi1 & Hd). destruct (pin_guarded e1 p Hi1) as (e2 & H2 & Hi2 & Hg).
  exists e2. unfold pins in *. rewrite foldl_app, H1. split_and!; [done..|].
  destruct Hd as [Hd|(ps1 & e3 & Hp & ?)]; [|right; exists ps1, e3; split; [by apply prefix_app_r|done]].
  destruct (write_enable e1) eqn:Hw; [right|left; by rewrite Hg].
  exists ps, e1. by split_and!; [apply prefix_app_r|..].
Qed.

Lemma eeprom_protected_witness :
  exists e', pins with_log_module [PinCs true; PinDi true; PinSk true] = Some e' /\ chip_inv e' /\ data e' = data with_log_module.
Proof.
  destruct (eeprom_protected with_log_module [PinCs true; PinDi true; PinSk true]) as (e' & H1 & H2 & _);
    [split; [apply new_ready|discriminate]|].
  exists e'. split; [exact H1|]. split; [exact H2|]. vm_compute in H1. injection H1 as <-. reflexivity.
Defined.

(** A refused WRITE is not ignored to the end of the command: the chip goes
    back to waiting for a start bit after the address, so the sixteen data
    bits are taken for a command of their own.  Data 0x9800 sent to a
    protected chip reads as WREN and opens the write latch. *)
Theorem refused_write_reparsed :
  (write_enable ∘ fst <$> issue with_log_module (WRITE 0 0x9800)) = Some true.
Proof. vm_compute. reflexivity. Qed.

(** ** Persistence *)

Lemma be_words_save d : Forall (fits 16) d -> be_words (concat (map (fun w => [u8 (w .>> 8); u8 w]) d)) = d.
Proof.
  induction 1 as [|w d Hw _ IH]; [done|]. cbn. rewrite IH. f_equal.
  unfold shl, u8. rewrite (wrap_small 8 (w .>> 8)).
  - apply Z.bits_inj'. intros i Hi. rewrite Z.lor_spec, !wrap_testbit, Z.shiftl_spec by lia.
    destruct (Z.ltb_spec i 8).
    + rewrite (Z.testbit_neg_r _ (i - 8)) by lia. by rewrite andb_false_r.
    + rewrite Z.shiftr_spec by lia. replace (i - 8 + 8) with i by lia.
      destruct (Z.ltb_spec i 16); cbn; rewrite ?orb_false_r; [done|]. by rewrite (fits_testbit 16 w).
  - rewrite Z.shiftr_div_pow2 by lia. destruct Hw. split; [apply Z.div_pos; lia|apply Z.div_lt_upper_bound; lia].
Qed.

Lemma overwrite_same (dst src : list Z) : length dst = length src -> overwrite dst src = src.
Proof. revert src. induction dst as [|x dst IH]; intros [|y src] Hl; try done. cbn in *. f_equal. apply IH. lia. Qed.

(** Nothing written is lost across a stop or a snapshot: the 256-byte file
    a chip saves gives the same words when a chip is built over it, and
    restoring a snapshot into any chip gives the words and the write latch,
    with the serial interface back in standby. *)
Theorem eeprom_persists e e0 :
  words_ok (data e) -> words_ok (data e0) ->
  length (save e) = 256%nat /\ data (with_path (Some (save e))) = data e /\
  data (load_state_mut e0 (save_state_owned e)) = data e /\
  write_enable (load_state_mut e0 (save_state_owned e)) = write_enable e /\
  state (load_state_mut e0 (save_state_owned e)) = Standby.
Proof.
  intros [Hl Hd] [Hl0 _]. split_and!; try done.
  - unfold save. rewrite length_concat, map_map. cbn. clear -Hl. rewrite map_replicate, Hl. done.
  - change (overwrite (data with_log_module) (be_words (save e)) = data e).
    unfold save. rewrite be_words_save by done. apply overwrite_same. by rewrite Hl.
  - cbn. apply load_u16_slice_save; [done|congruence].
Qed.

Lemma eeprom_persists_witness :
  data (with_path (Some (save with_log_module))) = replicate 128 0xFFFF.
Proof. apply (eeprom_persists with_log_module with_log_module); apply new_ready. Defined.

(** ** The IP28 defaults *)

(** The PROM's own checksum, over the bytes of the image: the first byte is
    what the others must give. *)
Fixpoint prom_sum (i : nat) (bytes : list Z) (sum : Z) : Z :=
  match bytes with
  | hi :: lo :: bytes' =>
      let sum := match i with O => sum | _ => sum .^ hi end in
      prom_sum (S i) bytes' (rotate_left8 (sum .^ lo))
  | _ => sum
  end.

Definition prom_accepts (bytes : list Z) : Prop := head bytes = Some (prom_sum 0 bytes 0xA5).

Lemma prom_sum_words d : forall i sum,
  prom_sum i (concat (map (fun w => [u8 (w .>> 8); u8 w]) d)) sum = ip28_sum i d sum.
Proof.
  induction d as [|w d IH]; intros i sum; [done|]. cbn -[rotate_left8]. rewrite IH. do 2 f_equal.
  destruct i; [done|]. rewrite !Z.lxor_assoc. f_equal. apply Z.lxor_comm.
Qed.

Lemma rotate_fits x : fits 8 x -> fits 8 (rotate_left8 x).
Proof. intros Hx. unfold rotate_left8, shl. apply lor_fits; [lia|by apply wrap_fits|by apply shiftr_fits]. Qed.

Lemma ip28_sum_fits d : forall i sum, fits 8 sum -> fits 8 (ip28_sum i d sum).
Proof.
  induction d as [|w d IH]; intros i sum Hs; [done|]. cbn -[rotate_left8]. apply IH, rotate_fits.
  pose proof (wrap_fits 8 w ltac:(lia)). pose proof (wrap_fits 8 (w .>> 8) ltac:(lia)).
  destruct i; repeat apply lxor_fits; done || lia.
Qed.

(** The word that carries the checksum [c] over the low byte of [w]. *)
Lemma checksum_word w c : fits 8 c ->
  u8 ((w .& 0xFF) .| shl 16 c 8) = u8 w /\ u8 (((w .& 0xFF) .| shl 16 c 8) .>> 8) = c.
Proof.
  intros Hc. unfold shl, u8.
  split; apply Z.bits_inj'; intros i Hi; rewrite ?wrap_testbit by lia.
  - destruct (Z.ltb_spec i 8); [|done]. change 0xFF with (Z.ones 8).
    rewrite Z.lor_spec, Z.land_spec, ones_testbit, wrap_testbit, Z.shiftl_spec by lia.
    rewrite (Z.testbit_neg_r c) by lia. destruct (Z.ltb_spec i 8); [|lia].
    by rewrite andb_true_r, andb_false_r, orb_false_r.
  - destruct (Z.ltb_spec i 8); cbn; [|by rewrite (fits_testbit 8 c)].
    change 0xFF with (Z.ones 8).
    rewrite Z.shiftr_spec, Z.lor_spec, Z.land_spec, ones_testbit, wrap_testbit, Z.shiftl_spec by lia.
    destruct (Z.ltb_spec (i + 8) 8), (Z.ltb_spec (i + 8) 16); try lia.
    rewrite andb_false_r. cbn. f_equal. lia.
Qed.

Lemma checksum_accepted e : words_ok (data e) ->
  exists e', update_ip28_checksum e = Some e' /\ drop 1 (data e') = drop 1 (data e) /\ prom_accepts (save e').
Proof.
  intros [Hl Hd]. destruct (data e) as [|w d] eqn:He; [done|].
  unfold update_ip28_checksum, set_word. rewrite He. change (aget (w :: d) 0) with (Some w). cbn [mbind option_bind].
  set (c := ip28_sum 0 (w :: d) 0xA5).
  assert (Hc : fits 8 c) by (by apply ip28_sum_fits). destruct (checksum_word w c Hc) as [Hlo Hhi].
  rewrite aset_Some by (cbn; lia). cbn [mbind option_bind]. eexists. split; [reflexivity|]. split; [done|].
  unfold prom_accepts, save. cbn [data set_field]. rewrite prom_sum_words.
  set (x := _ .| _) in *. clearbody x. change (<[Z.to_nat 0 := x]> (w :: d)) with (x :: d).
  cbn -[rotate_left8 ip28_sum u8 Z.shiftr]. f_equal.
  rewrite Hhi. unfold c. cbn -[rotate_left8 u8]. by rewrite Hlo.
Qed.

Lemma ip28_image_length : length (be_words ip28_bytes) = 128%nat /\ Forall (fits 16) (be_words ip28_bytes).
Proof. split; [by vm_compute|]. apply (Forall_impl (fun x => (0 <=? x) && (x <? 65536) = true)).
  - apply Forall_forall. intros x Hx. revert x Hx. apply Forall_forall. by repeat constructor.
  - intros x Hx. split; lia.
Qed.

(** The IP28 initialisation only touches an erased chip: anything written
    in the first 125 words keeps the chip as it is; an erased one gets the
    defaults, keeps the Ethernet address in the last three words, and passes
    the PROM's checksum. *)
Theorem ip28_initialised e :
  words_ok (data e) ->
  if bool_decide (take 0x7D (data e) = replicate 0x7D 0xFFFF) then
    exists e', initialize_ip28_if_erased e = Some (e', true) /\
      drop 0x7D (data e') = drop 0x7D (data e) /\ prom_accepts (save e')
  else initialize_ip28_if_erased e = Some (e, false).
Proof.
  intros [Hl Hd]. unfold initialize_ip28_if_erased, words. rewrite !decide_True by lia. cbn [mbind option_bind].
  rewrite drop_0. change (0x7D - 0)%nat with 0x7D%nat.
  assert (Hany : existsb (fun word => negb (word =? 0xFFFF)) (take 0x7D (data e)) =
    negb (bool_decide (take 0x7D (data e) = replicate 0x7D 0xFFFF))).
  { apply eq_true_iff_eq. rewrite existsb_exists, negb_true_iff, bool_decide_eq_false. split.
    - intros (x & Hx & Hne) Heq. rewrite Heq in Hx. apply list_elem_of_In, elem_of_replicate in Hx as [-> _]. done.
    - intros Hne. destruct (decide (Forall (eq 0xFFFF) (take 0x7D (data e)))) as [Ha|Ha].
      + destruct Hne. apply list_eq_Forall2, Forall2_replicate_r; [by rewrite length_take; lia|].
        eapply Forall_impl; [exact Ha|by intros].
      + apply not_Forall_Exists, Exists_exists in Ha as (x & Hx & Hne'); [|apply _].
        exists x. split; [by apply list_elem_of_In|]. apply negb_true_iff, Z.eqb_neq. congruence. }
  rewrite Hany. case_bool_decide as He; cbn [negb]; [|done]. destruct ip28_image_length as [Hil Hif].
  rewrite overwrite_same by congruence. rewrite Hil, decide_True by done. cbn [mbind option_bind].
  set (img := be_words ip28_bytes) in *. clearbody img.
  rewrite (take_ge (drop 0x7D (data e))) by (rewrite length_drop; lia).
  set (e1 := e <| data := _ |>).
  destruct (checksum_accepted e1) as (e' & -> & Hdrop & Hacc).
  { split; cbn; [rewrite length_app, length_take, length_drop; lia|].
    apply Forall_app. split; [by apply Forall_take|by apply Forall_drop]. }
  exists e'. split_and!; [done| |done].
  change 0x7D%nat with (1 + 0x7C)%nat. rewrite <- !drop_drop, Hdrop. cbn [data e1 set_field].
  rewrite !drop_drop. apply drop_app_length'. rewrite length_take. lia.
Qed.

Lemma ip28_initialised_witness :
  exists e', initialize_ip28_if_erased with_log_module = Some (e', true) /\ prom_accepts (save e').
Proof.
  pose proof (ip28_initialised with_log_module (proj1 new_ready)) as H.
  rewrite bool_decide_true in H by (vm_compute; reflexivity). destruct H as (e' & H1 & _ & H2).
  exists e'. split; [exact H1|exact H2].
Defined.

End EepromClaims.
