(* ===== verification/HpTimer.v ===== *)
(** * The high-precision timer manager (src/src/hptimer.rs)

    Timers live in an arena of slots; an identifier is the slot's index and
    the generation it was allocated under.  One worker thread scans the arena
    for expired timers, queues them, and runs their callbacks one at a time
    outside the lock.  Every definition below is one critical section (one
    acquisition of the lock): other threads may run between any two of them.
    Instants and durations are nanoseconds; [None] is a panicking index. *)

From S2P Require Import Prelude.

Module HpTimer.

Inductive TimerReturn : Type :=
| Continue
| Disable
| Delete
| RescheduleOneShot (new_delay : Z)
| RescheduleRecurring (new_period : Z).

(** A callback is named by a number: closures are opaque to the manager. *)
Record TimerEntry : Type := mkEntry {
  next_expiration : Z;
  period : option Z;
  enabled : bool;
  in_fifo : bool;
  callback : option Z;
}.

Record Slot : Type := mkSlot { generation : Z; timer : option TimerEntry }.

(** [free_indices] is the source's stack with its top first. *)
Record TimerManagerInner : Type := mkInner {
  slots : list Slot;
  free_indices : list Z;
  fifo : list (Z * Z);
  stop : bool;
}.

#[global] Instance eta_TimerEntry : Settable TimerEntry := fun r =>
  mkEntry (next_expiration r) (period r) (enabled r) (in_fifo r) (callback r).
#[global] Instance eta_Slot : Settable Slot := fun r => mkSlot (generation r) (timer r).
#[global] Instance eta_Inner : Settable TimerManagerInner := fun r =>
  mkInner (slots r) (free_indices r) (fifo r) (stop r).

Definition inner_new : TimerManagerInner := mkInner [] [] [] false.

(** ** Identifiers *)

Definition make_id (generation index : Z) : Z := shl 64 generation 32 .| index.
Definition id_generation (id : Z) : Z := u32 (id .>> 32).
Definition id_index (id : Z) : Z := id .& 0xFFFFFFFF.

(** ** The arena *)

Definition allocate (m : TimerManagerInner) (entry : TimerEntry) : option (TimerManagerInner * Z) :=
  let '(index, m) :=
    match free_indices m with
    | idx :: rest => (idx, m <| free_indices := rest |>)
    | [] => (Z.of_nat (length (slots m)), m <| slots ::= (fun l => l ++ [mkSlot 0 None]) |>)
    end in
  s ← aget (slots m) index;
  let gen := u32 (generation s + 1) in
  l ← aset (slots m) index (mkSlot gen (Some entry));
  Some (m <| slots := l |>, make_id gen index).

Definition deallocate (m : TimerManagerInner) (id : Z) : TimerManagerInner * bool :=
  let idx := id_index id in
  match aget (slots m) idx with
  | Some s =>
      if (generation s =? id_generation id) && bool_decide (is_Some (timer s)) then
        (m <| slots ::= (fun l => <[Z.to_nat idx := s <| timer := None |>]> l) |>
           <| free_indices ::= (fun f => idx :: f) |>, true)
      else (m, false)
  | None => (m, false)
  end.

(** ** The public operations, the calls of [wake_up] apart *)

Definition add_one_shot (m : TimerManagerInner) (now expire_in cb : Z) : option (TimerManagerInner * Z) :=
  allocate m (mkEntry (now + expire_in) None true false (Some cb)).

Definition add_recurring (m : TimerManagerInner) (expire_at period_ cb : Z) : option (TimerManagerInner * Z) :=
  allocate m (mkEntry expire_at (Some period_) true false (Some cb)).

Definition remove (m : TimerManagerInner) (id : Z) : TimerManagerInner * bool := deallocate m id.

Definition set_enabled (m : TimerManagerInner) (id : Z) (b : bool) : TimerManagerInner * bool :=
  let idx := id_index id in
  match aget (slots m) idx with
  | Some s =>
      if generation s =? id_generation id then
        match timer s with
        | Some t => (m <| slots ::= (fun l => <[Z.to_nat idx := s <| timer := Some (t <| enabled := b |>) |>]> l) |>, true)
        | None => (m, false)
        end
      else (m, false)
  | None => (m, false)
  end.

Definition enable (m : TimerManagerInner) (id : Z) : TimerManagerInner * bool := set_enabled m id true.
Definition disable (m : TimerManagerInner) (id : Z) : TimerManagerInner * bool := set_enabled m id false.

Definition request_stop (m : TimerManagerInner) : TimerManagerInner := m <| stop := true |>.

(** ** The worker's first critical section *)

(** Step 1: expired timers that are not queued yet, in slot order. *)
Fixpoint scan (now : Z) (index : Z) (l : list Slot) : list Slot * list (Z * Z) :=
  match l with
  | [] => ([], [])
  | s :: l' =>
      let '(l'', q) := scan now (index + 1) l' in
      match timer s with
      | Some t =>
          if enabled t && negb (in_fifo t) && (next_expiration t <=? now) then
            (s <| timer := Some (t <| in_fifo := true |>) |> :: l'', (index, generation s) :: q)
          else (s :: l'', q)
      | None => (s :: l'', q)
      end
  end.

(** Step 2: the oldest queued timer, if it is still there and enabled. *)
Definition pop_expired (m : TimerManagerInner) : TimerManagerInner * option (Z * Z * option Z) :=
  match fifo m with
  | [] => (m, None)
  | (idx, gen) :: rest =>
      let m := m <| fifo := rest |> in
      match aget (slots m) idx with
      | Some s =>
          if generation s =? gen then
            match timer s with
            | Some t =>
                let '(t', call) :=
                  if enabled t then (t <| callback := None |>, Some (idx, gen, callback t)) else (t, None) in
                (m <| slots ::= (fun l => <[Z.to_nat idx := s <| timer := Some (t' <| in_fifo := false |>) |>]> l) |>, call)
            | None => (m, None)
            end
          else (m, None)
      | None => (m, None)
      end
  end.

(** Step 3: the earliest expiration among the enabled timers not queued. *)
Definition earliest (w : option Z) (s : Slot) : option Z :=
  match timer s with
  | Some t =>
      if enabled t && negb (in_fifo t) then
        match w with
        | Some w' => if next_expiration t <? w' then Some (next_expiration t) else w
        | None => Some (next_expiration t)
        end
      else w
  | None => w
  end.

Definition next_wakeup (l : list Slot) : option Z := foldl earliest None l.

Inductive PollOut : Type :=
| Stopped
| Call (idx gen : Z) (cb : option Z)
| Wait (target : option Z).

Definition poll (m : TimerManagerInner) (now : Z) : TimerManagerInner * PollOut :=
  if stop m then (m, Stopped)
  else
    let '(l, q) := scan now 0 (slots m) in
    let m := m <| slots := l |> <| fifo ::= (fun f => f ++ q) |> in
    let '(m, to_call) := pop_expired m in
    match to_call with
    | Some (idx, gen, cb) => (m, Call idx gen cb)
    | None => (m, Wait (next_wakeup (slots m)))
    end.

(** ** The worker's second critical section, after a callback returned *)

Definition MAX_CATCHUP : Z := 8.

(** The manager and, when the callback is to be called again at once, the new
    catch-up count. *)
Definition settle (m : TimerManagerInner) (idx gen cb catch_up : Z) (result : TimerReturn) (now : Z)
  : TimerManagerInner * option Z :=
  if stop m then (m, None)
  else
    match aget (slots m) idx with
    | Some s =>
        match timer s with
        | Some t =>
            if generation s =? gen then
              let put t' := m <| slots ::= (fun l => <[Z.to_nat idx := s <| timer := Some t' |>]> l) |> in
              let t := t <| callback := Some cb |> in
              match result with
              | Continue =>
                  match period t with
                  | Some p =>
                      let t := t <| next_expiration ::= (fun x => x + p) |> in
                      if (catch_up + 1 <? MAX_CATCHUP) && enabled t && (next_expiration t <=? now)
                      then (put (t <| callback := None |>), Some (catch_up + 1))
                      else (put t, None)
                  | None => (fst (deallocate (put t) (make_id gen idx)), None)
                  end
              | Disable => (put (t <| enabled := false |>), None)
              | Delete => (fst (deallocate (put t) (make_id gen idx)), None)
              | RescheduleOneShot new_delay =>
                  (put (t <| next_expiration := now + new_delay |> <| period := None |>), None)
              | RescheduleRecurring new_period =>
                  (put (t <| period := Some new_period |> <| next_expiration ::= (fun x => x + new_period) |>), None)
              end
            else (m, None)
        | None => (m, None)
        end
    | None => (m, None)
    end.

(** ** The threads together *)

(** [Polling]: about to read the clock; [Scanning]: it has read it, and has not
    taken the lock yet. *)
Inductive Worker : Type :=
| Polling
| Scanning
| Calling (idx gen cb catch_up : Z)
| Waiting (target : option Z)
| Finished.

(** [added] is the flag [new_timer_added]; [wakes] counts the threads between
    their critical section and the store to it in [wake_up]; [clock] is the
    last instant the host's monotonic clock was seen at; [seen] is the worker's
    own last reading at the top of its loop, which it scans with even when
    other threads have read the clock since. *)
Record System : Type := mkSystem {
  inner : TimerManagerInner;
  worker : Worker;
  added : bool;
  wakes : nat;
  clock : Z;
  seen : Z;
}.

#[global] Instance eta_System : Settable System := fun r =>
  mkSystem (inner r) (worker r) (added r) (wakes r) (clock r) (seen r).

Definition system_new (start : Z) : System := mkSystem inner_new Polling false 0 start start.

(** What a step shows: timers added and removed, callbacks begun and returned,
    and a callback that returned [Continue] late and is begun again at once. *)
Inductive Event : Type :=
| Tau
| Added (id cb : Z)
| Removed (id : Z)
| Began (id cb now : Z)
| Returned (id : Z) (r : TimerReturn)
| Recalled (id cb now : Z).

Definition after_poll (out : PollOut) : Worker :=
  match out with
  | Stopped => Finished
  | Call idx gen (Some cb) => Calling idx gen cb 0
  | Call _ _ None => Polling
  | Wait w => Waiting w
  end.

Definition after_settle (idx gen cb : Z) (again : option Z) : Worker :=
  match again with Some k => Calling idx gen cb k | None => Polling end.

Definition poll_event (now : Z) (out : PollOut) : Event :=
  match out with Call idx gen (Some cb) => Began (make_id gen idx) cb now | _ => Tau end.

Definition settle_event (idx gen cb : Z) (r : TimerReturn) (now : Z) (again : option Z) : Event :=
  match again with Some _ => Recalled (make_id gen idx) cb now | None => Returned (make_id gen idx) r end.

(** The flag is cleared under the lock, before the scan. *)
Definition poll_added (b : bool) (out : PollOut) : bool :=
  match out with Stopped => b | _ => false end.

Inductive hp_step : System -> Event -> System -> Prop :=
| step_add_one_shot s now expire_in cb m id :
    clock s <= now -> add_one_shot (inner s) now expire_in cb = Some (m, id) ->
    hp_step s (Added id cb) (s <| inner := m |> <| wakes ::= S |> <| clock := now |>)
| step_add_recurring s at_ p cb m id :
    add_recurring (inner s) at_ p cb = Some (m, id) ->
    hp_step s (Added id cb) (s <| inner := m |> <| wakes ::= S |>)
| step_remove s id m b :
    remove (inner s) id = (m, b) -> hp_step s (Removed id) (s <| inner := m |>)
| step_enable s id m :
    enable (inner s) id = (m, true) -> hp_step s Tau (s <| inner := m |> <| wakes ::= S |>)
| step_disable s id m b :
    disable (inner s) id = (m, b) -> hp_step s Tau (s <| inner := m |>)
| step_stop s : hp_step s Tau (s <| inner ::= request_stop |> <| wakes ::= S |>)
| step_wake_up s n :
    wakes s = S n -> hp_step s Tau (s <| wakes := n |> <| added := true |>)
| step_read s now :
    worker s = Polling -> clock s <= now ->
    hp_step s Tau (s <| worker := Scanning |> <| clock := now |> <| seen := now |>)
| step_poll s m out :
    worker s = Scanning -> poll (inner s) (seen s) = (m, out) ->
    hp_step s (poll_event (seen s) out)
      (s <| inner := m |> <| worker := after_poll out |> <| added ::= (fun b => poll_added b out) |>)
| step_return s idx gen cb catch_up r now m again :
    worker s = Calling idx gen cb catch_up -> clock s <= now ->
    settle (inner s) idx gen cb catch_up r now = (m, again) ->
    hp_step s (settle_event idx gen cb r now again)
      (s <| inner := m |> <| worker := after_settle idx gen cb again |> <| clock := now |>)
| step_wakeup s target now :
    worker s = Waiting (Some target) -> clock s <= now -> (added s = true \/ target <= now) ->
    hp_step s Tau (s <| worker := Polling |> <| clock := now |>)
| step_unpark s :
    worker s = Waiting None -> hp_step s Tau (s <| worker := Polling |>).

(** A run and what it showed, oldest event first. *)
Inductive hp_run : System -> list Event -> System -> Prop :=
| run_nil s : hp_run s [] s
| run_step s tr s1 ev s2 : hp_run s tr s1 -> hp_step s1 ev s2 -> hp_run s (tr ++ [ev]) s2.

End HpTimer.
