(* ===== verification/HpTimerProofs.v ===== *)
(** * The timer manager's invariant

    [arena]: the free list is exactly the empty slots, a queued timer is in
    the queue once and under its current generation, no callback is lost
    except to a stop, and every identifier ever handed out names a slot that
    has not gone back behind it.  The number of timers ever added is bounded
    by the 32-bit generations. *)

From S2P Require Import Prelude HpTimer.
Import HpTimer.

Module HpTimerProofs.

(** ** Identifiers *)

Lemma make_id_parts g i : fits 32 g -> fits 32 i -> id_generation (make_id g i) = g /\ id_index (make_id g i) = i.
Proof.
  intros Hg Hi. unfold make_id, id_generation, id_index, shl.
  assert (Hsh : wrap 64 (g .<< 32) = g * 2 ^ 32).
  { rewrite Z.shiftl_mul_pow2 by lia. apply wrap_small. destruct Hg. split; lia. }
  rewrite Hsh, lor_block by (done || lia). destruct Hg, Hi. split.
  - rewrite Z.shiftr_div_pow2, Z.div_add_l, Z.div_small, Z.add_0_r by lia. unfold u32. apply wrap_small. split; lia.
  - change 0xFFFFFFFF with (Z.ones 32). rewrite Z.land_ones by lia.
    rewrite Z.add_comm, Z.mod_add by lia. apply Z.mod_small. lia.
Qed.

Lemma make_id_inj g i g' i' : fits 32 g -> fits 32 i -> fits 32 g' -> fits 32 i' ->
  make_id g i = make_id g' i' -> g = g' /\ i = i'.
Proof.
  intros Hg Hi Hg' Hi' He. destruct (make_id_parts g i Hg Hi), (make_id_parts g' i' Hg' Hi').
  split; congruence.
Qed.

(** ** The invariant *)

Section arena.
Context (adds : list (Z * Z)) (w : Worker) (now : Z).

Definition count : Z := Z.of_nat (length adds).

(** A callback is in its slot, or out with the worker, or lost to a stop. *)
Definition callback_ok (stopped : bool) (i g : Z) (cb : option Z) : Prop :=
  match cb with
  | Some cb => (make_id g i, cb) ∈ adds
  | None => stopped = true \/ exists cb k, w = Calling i g cb k
  end.

Record timer_ok (q : list (Z * Z)) (stopped : bool) (i g : Z) (t : TimerEntry) : Prop := {
  t_queued : in_fifo t = true <-> (i, g) ∈ q;
  t_due : in_fifo t = true -> next_expiration t <= now;
  t_callback : callback_ok stopped i g (callback t);
}.

Definition slot_ok (q : list (Z * Z)) (stopped : bool) (i : Z) (s : Slot) : Prop :=
  0 <= generation s <= count /\
  forall t, timer s = Some t -> 1 <= generation s /\ timer_ok q stopped i (generation s) t.

(** Slot [i] has reached generation [g]. *)
Definition reached (m : TimerManagerInner) (i g : Z) : Prop :=
  exists s, aget (slots m) i = Some s /\ g <= generation s.

Record arena (m : TimerManagerInner) : Prop := {
  a_free_nodup : NoDup (free_indices m);
  a_free : forall i, i ∈ free_indices m <-> exists s, aget (slots m) i = Some s /\ timer s = None;
  a_len : Z.of_nat (length (slots m)) <= count;
  a_slot : forall i s, aget (slots m) i = Some s -> slot_ok (fifo m) (stop m) i s;
  a_fifo_nodup : NoDup (fifo m);
  a_fifo : forall i g, (i, g) ∈ fifo m -> reached m i g;
  a_call : forall i g cb k, w = Calling i g cb k ->
    (make_id g i, cb) ∈ adds /\ reached m i g /\ 1 <= g /\ (i, g) ∉ fifo m;
  a_ids : NoDup (map fst adds);
  a_adds : forall id cb, (id, cb) ∈ adds -> exists i g, id = make_id g i /\ 1 <= g /\ reached m i g;
}.

Lemma aget_fits m i s : arena m -> count < 2 ^ 32 -> aget (slots m) i = Some s -> fits 32 i.
Proof. intros Ha Hc [Hi _]%aget_inv. pose proof (a_len _ Ha). split; lia. Qed.

Lemma reached_fits m i g : arena m -> count < 2 ^ 32 -> 0 <= g -> reached m i g -> fits 32 i /\ fits 32 g.
Proof.
  intros Ha Hc Hg (s & Hs & Hle). split; [by eapply aget_fits|].
  destruct (a_slot _ Ha _ _ Hs) as [Hr _]. split; lia.
Qed.

(** *** One slot changed *)

Definition set_slot (m : TimerManagerInner) (i : Z) (s : Slot) : TimerManagerInner :=
  m <| slots ::= (fun l => <[Z.to_nat i := s]> l) |>.

Lemma set_slot_get m i s s0 j : aget (slots m) i = Some s0 ->
  aget (slots (set_slot m i s)) j = if decide (j = i) then Some s else aget (slots m) j.
Proof. intros Hs. cbn. by eapply aget_insert. Qed.

Lemma set_slot_reached m i s s0 j g : aget (slots m) i = Some s0 -> generation s0 <= generation s ->
  reached m j g -> reached (set_slot m i s) j g.
Proof.
  intros Hs Hg (sj & Hj & Hle). unfold reached. rewrite (set_slot_get _ _ _ _ _ Hs).
  case_decide; subst; eexists; (split; [done|]); simplify_eq; lia.
Qed.

(** A live timer replaced by another one in the same slot. *)
Lemma arena_put m i s t t' : arena m -> aget (slots m) i = Some s -> timer s = Some t ->
  timer_ok (fifo m) (stop m) i (generation s) t' -> arena (set_slot m i (s <| timer := Some t' |>)).
Proof.
  intros Ha Hs Ht Ht'. destruct (a_slot _ Ha _ _ Hs) as [Hg Hl].
  assert (Hreach : forall j g, reached m j g -> reached (set_slot m i (s <| timer := Some t' |>)) j g).
  { intros j g. by apply set_slot_reached with s. }
  constructor; [apply Ha| | | |apply Ha| | |apply Ha|].
  - intros j. rewrite (a_free _ Ha). setoid_rewrite (set_slot_get _ _ _ _ j Hs).
    case_decide; [subst|done]. split; intros (s1 & H1 & H2); simplify_eq.
  - cbn. rewrite length_insert. apply Ha.
  - intros j sj. rewrite (set_slot_get _ _ _ _ _ Hs). case_decide; [subst|apply (a_slot _ Ha)].
    intros [= <-]. split; [done|]. intros t1 [= <-]. split; [by destruct (Hl t Ht)|done].
  - intros j g Hq. by apply Hreach, (a_fifo _ Ha).
  - intros j g cb k Hw. destruct (a_call _ Ha _ _ _ _ Hw) as (? & ? & ? & ?). split_and!; [done|by apply Hreach|done|done].
  - intros id cb Hid. destruct (a_adds _ Ha _ _ Hid) as (j & g & ? & ? & ?). exists j, g. split_and!; [done..|by apply Hreach].
Qed.

(** A live timer removed. *)
Lemma arena_kill m i s t : arena m -> aget (slots m) i = Some s -> timer s = Some t ->
  arena ((set_slot m i (s <| timer := None |>)) <| free_indices ::= (fun f => i :: f) |>).
Proof.
  intros Ha Hs Ht. destruct (a_slot _ Ha _ _ Hs) as [Hg Hl].
  assert (Hreach : forall j g, reached m j g -> reached (set_slot m i (s <| timer := None |>)) j g).
  { intros j g. by apply set_slot_reached with s. }
  constructor; [| | | |apply Ha| | |apply Ha|].
  - cbn. apply NoDup_cons. split; [|apply Ha]. rewrite (a_free _ Ha). intros (s1 & H1 & H2). simplify_eq.
  - intros j. cbn [free_indices set_field]. rewrite elem_of_cons, (a_free _ Ha).
    setoid_rewrite (set_slot_get _ _ _ _ j Hs). case_decide; [subst|naive_solver].
    split; intros _; [by eexists|by left].
  - cbn. rewrite length_insert. apply Ha.
  - intros j sj Hj. change (aget (slots (set_slot m i (s <| timer := None |>))) j = Some sj) in Hj.
    rewrite (set_slot_get _ _ _ _ _ Hs) in Hj. case_decide; [subst|by apply (a_slot _ Ha)].
    injection Hj as <-. by split.
  - intros j g Hq. by apply Hreach, (a_fifo _ Ha).
  - intros j g cb k Hw. destruct (a_call _ Ha _ _ _ _ Hw) as (? & ? & ? & ?). split_and!; [done|by apply Hreach|done|done].
  - intros id cb Hid. destruct (a_adds _ Ha _ _ Hid) as (j & g & ? & ? & ?). exists j, g. split_and!; [done..|by apply Hreach].
Qed.

Lemma deallocate_arena m id : arena m -> arena (fst (deallocate m id)).
Proof.
  intros Ha. unfold deallocate. destruct (aget (slots m) (id_index id)) as [s|] eqn:Hs; [|done].
  destruct (generation s =? id_generation id); [|done]. cbn [andb]. case_bool_decide as Ht; [|done].
  destruct Ht as [t Ht]. by apply (arena_kill m (id_index id) s t).
Qed.

Lemma set_enabled_arena m id b : arena m -> arena (fst (set_enabled m id b)).
Proof.
  intros Ha. unfold set_enabled. destruct (aget (slots m) (id_index id)) as [s|] eqn:Hs; [|done].
  destruct (generation s =? id_generation id); [|done]. destruct (timer s) as [t|] eqn:Ht; [|done].
  apply (arena_put m (id_index id) s t); [done..|].
  destruct (a_slot _ Ha _ _ Hs) as [_ Hl]. destruct (Hl t Ht) as [_ [? ? ?]]. by constructor.
Qed.

End arena.

(** ** Allocation *)

(** The manager with slot [i] taken off the free list or appended to it. *)
Record spare (adds : list (Z * Z)) (w : Worker) (now : Z) (m0 m : TimerManagerInner) (i : Z) (s0 : Slot) : Prop := {
  sp_nodup : NoDup (free_indices m);
  sp_free : forall j, j ∈ free_indices m <-> j <> i /\ exists s, aget (slots m0) j = Some s /\ timer s = None;
  sp_len : Z.of_nat (length (slots m)) <= count adds + 1;
  sp_get : aget (slots m) i = Some s0;
  sp_gen : 0 <= generation s0 <= count adds;
  sp_empty : forall s, aget (slots m0) i = Some s -> s = s0 /\ timer s = None;
  sp_other : forall j, j <> i -> aget (slots m) j = aget (slots m0) j;
  sp_fifo : fifo m = fifo m0;
  sp_stop : stop m = stop m0;
}.

Lemma take_slot adds w now m : arena adds w now m ->
  exists i s0 m1, spare adds w now m m1 i s0 /\
    forall e, allocate m e =
      (let gen := u32 (generation s0 + 1) in
       Some (set_slot m1 i (mkSlot gen (Some e)), make_id gen i)).
Proof.
  intros Ha. unfold allocate. destruct (free_indices m) as [|i rest] eqn:Hf.
  - set (i := Z.of_nat (length (slots m))). set (m1 := m <| slots ::= (fun l => l ++ [mkSlot 0 None]) |>).
    assert (Hget : aget (slots m1) i = Some (mkSlot 0 None)).
    { unfold m1. cbn. rewrite aget_app_one. by rewrite decide_True by done. }
    exists i, (mkSlot 0 None), m1. split.
    + constructor; try done.
      * unfold m1. cbn. rewrite Hf. constructor.
      * intros j. unfold m1. cbn. rewrite Hf. split; [by intros ?%not_elem_of_nil|]. intros [_ Hj].
        apply (a_free _ _ _ _ Ha) in Hj. by rewrite Hf in Hj.
      * unfold m1. cbn. rewrite length_app. cbn. pose proof (a_len _ _ _ _ Ha). lia.
      * cbn. unfold count. lia.
      * intros s [Hlt _]%aget_inv. unfold i in Hlt. lia.
      * intros j Hj. unfold m1. cbn. rewrite aget_app_one. by rewrite decide_False by done.
    + intros e. rewrite Hget. cbn [mbind option_bind]. rewrite aset_Some; [done|].
      unfold m1, i. cbn. rewrite length_app. cbn. lia.
  - assert (Hi : i ∈ free_indices m) by (rewrite Hf; by left).
    pose proof (a_free_nodup _ _ _ _ Ha) as Hnd. rewrite Hf in Hnd. apply NoDup_cons in Hnd as [Hni Hnd].
    apply (a_free _ _ _ _ Ha) in Hi as (s0 & Hs0 & Ht0). destruct (a_slot _ _ _ _ Ha _ _ Hs0) as [Hg _].
    exists i, s0, (m <| free_indices := rest |>). split.
    + constructor; try done.
      * intros j. cbn. split.
        -- intros Hj. split; [by intros ->|]. apply (a_free _ _ _ _ Ha). rewrite Hf. by right.
        -- intros [Hji Hj]. apply (a_free _ _ _ _ Ha) in Hj. rewrite Hf in Hj. by apply elem_of_cons in Hj as [->|].
      * cbn. pose proof (a_len _ _ _ _ Ha). lia.
      * intros s Hs. by simplify_eq.
    + intros e. cbn. rewrite Hs0. cbn [mbind option_bind]. rewrite aset_Some; [done|]. by apply aget_inv in Hs0 as [? _].
Qed.

Lemma slot_ok_mono adds x w now q b i s : slot_ok adds w now q b i s -> slot_ok (x :: adds) w now q b i s.
Proof.
  intros [Hg Hl]. unfold slot_ok, count in *. cbn. split; [lia|]. intros t Ht. destruct (Hl t Ht) as [? [? ? Hc]].
  split; [done|]. constructor; [done..|]. unfold callback_ok in *. destruct (callback t); [by right|done].
Qed.

Lemma allocate_arena adds w now m e cb :
  arena adds w now m -> count adds + 1 < 2 ^ 32 -> in_fifo e = false -> callback e = Some cb ->
  exists m' i g, allocate m e = Some (m', make_id g i) /\ arena ((make_id g i, cb) :: adds) w now m' /\
    make_id g i ∉ map fst adds /\ fifo m' = fifo m /\ stop m' = stop m /\
    aget (slots m') i = Some (mkSlot g (Some e)) /\ (forall j, j <> i -> aget (slots m') j = aget (slots m) j) /\
    (forall g', reached m i g' -> g' < g) /\ forall j g', reached m j g' -> reached m' j g'.
Proof.
  intros Ha Hc Hq Hcb. destruct (take_slot adds w now m Ha) as (i & s0 & m1 & Hsp & Hall).
  pose proof Hsp as [Hnd Hfree Hlen Hget Hgen Hempty Hother Hfifo Hstop].
  assert (Hgen' : u32 (generation s0 + 1) = generation s0 + 1) by (apply wrap_small; split; lia).
  set (g := generation s0 + 1) in *. specialize (Hall e). cbn zeta in Hall. rewrite Hgen' in Hall.
  set (m' := set_slot m1 i (mkSlot g (Some e))) in *.
  assert (Hget' : forall j, aget (slots m') j = if decide (j = i) then Some (mkSlot g (Some e)) else aget (slots m) j).
  { intros j. unfold m'. rewrite (set_slot_get _ _ _ _ _ Hget). case_decide; [done|by apply Hother]. }
  assert (Hreach : forall j g', reached m j g' -> reached m' j g').
  { intros j g' (s & Hs & Hle). unfold reached. rewrite Hget'. case_decide; [subst|by exists s].
    destruct (Hempty _ Hs) as [-> _]. eexists. split; [done|]. cbn. unfold g. lia. }
  assert (Hnew : forall g', reached m i g' -> g' < g).
  { intros g' (s & Hs & Hle). destruct (Hempty _ Hs) as [-> _]. unfold g. lia. }
  assert (Hfresh : make_id g i ∉ map fst adds).
  { intros Hin. apply list_elem_of_fmap in Hin as ([id cb'] & Hid & Hin). cbn in Hid. subst id.
    destruct (a_adds _ _ _ _ Ha _ _ Hin) as (j & g' & Heq & Hg' & Hr).
    destruct (reached_fits adds w now m j g' Ha ltac:(lia) ltac:(lia) Hr) as [Hfj Hfg'].
    assert (Hfi : fits 32 i) by (apply aget_inv in Hget as [? _]; split; lia).
    destruct (make_id_inj g i g' j) as [<- <-]; [split; lia|done..|]. pose proof (Hnew _ Hr). lia. }
  exists m', i, g. split_and!; [done| |done|done|done| | |done|done].
  - constructor.
    + apply Hnd.
    + intros j. change (free_indices m') with (free_indices m1). rewrite Hfree. setoid_rewrite Hget'.
      case_decide; [subst|naive_solver]. split; [naive_solver|]. intros (s & [= <-] & ?). done.
    + unfold m', count. cbn. rewrite length_insert. unfold count in Hlen. lia.
    + intros j s. rewrite Hget'. change (fifo m') with (fifo m1). change (stop m') with (stop m1).
      rewrite Hfifo, Hstop. case_decide; [subst|intros Hs; apply slot_ok_mono; by apply (a_slot _ _ _ _ Ha)].
      intros [= <-]. unfold slot_ok, count in *. cbn. split; [unfold g in *; lia|]. intros t [= <-].
      split; [unfold g; lia|]. constructor; rewrite ?Hq, ?Hcb; [|done|by left].
      split; [done|]. intros Hin. pose proof (a_fifo _ _ _ _ Ha _ _ Hin) as Hr.
      pose proof (Hnew _ Hr). lia.
    + change (fifo m') with (fifo m1). rewrite Hfifo. apply Ha.
    + intros j g'. change (fifo m') with (fifo m1). rewrite Hfifo. intros Hin. by apply Hreach, (a_fifo _ _ _ _ Ha).
    + intros j g' cb' k Hw. destruct (a_call _ _ _ _ Ha _ _ _ _ Hw) as (? & ? & ? & ?).
      split_and!; [by right|by apply Hreach|done|]. change (fifo m') with (fifo m1). by rewrite Hfifo.
    + cbn. apply NoDup_cons. split; [done|apply Ha].
    + intros id cb'. intros [Heq|Hin]%elem_of_cons.
      * injection Heq as -> ->. exists i, g. split_and!; [done|unfold g; lia|]. unfold reached. rewrite Hget', decide_True by done. by eexists.
      * destruct (a_adds _ _ _ _ Ha _ _ Hin) as (j & g' & ? & ? & ?). exists j, g'. split_and!; [done..|by apply Hreach].
  - rewrite Hget'. by rewrite decide_True.
  - intros j Hj. rewrite Hget'. by rewrite decide_False.
Qed.

(** ** The worker *)

Lemma arena_clock adds w now now' m : now <= now' -> arena adds w now m -> arena adds w now' m.
Proof.
  intros Hn Ha. constructor; try apply Ha. intros i s Hs. destruct (a_slot _ _ _ _ Ha _ _ Hs) as [Hg Hl].
  split; [done|]. intros t Ht. destruct (Hl t Ht) as [? [? Hd ?]]. split; [done|]. constructor; [done| |done].
  intros Hq. specialize (Hd Hq). lia.
Qed.

Lemma arena_worker adds w w' now m : arena adds w now m ->
  (forall i s t, aget (slots m) i = Some s -> timer s = Some t -> callback t = None ->
    stop m = true \/ exists cb k, w' = Calling i (generation s) cb k) ->
  (forall i g cb k, w' = Calling i g cb k ->
    (make_id g i, cb) ∈ adds /\ reached m i g /\ 1 <= g /\ (i, g) ∉ fifo m) ->
  arena adds w' now m.
Proof.
  intros Ha Hcb Hcall. constructor; try apply Ha; [|done]. intros i s Hs.
  destruct (a_slot _ _ _ _ Ha _ _ Hs) as [Hg Hl]. split; [done|]. intros t Ht. destruct (Hl t Ht) as [? [? ? Hc]].
  split; [done|]. constructor; [done..|]. unfold callback_ok in *. destruct (callback t) eqn:E; [done|]. by eapply Hcb.
Qed.

Definition idle (w : Worker) : Prop := forall i g cb k, w <> Calling i g cb k.

Lemma arena_idle adds w w' now m : idle w -> idle w' -> arena adds w now m -> arena adds w' now m.
Proof.
  intros Hw Hw' Ha. apply (arena_worker adds w); [done| |intros i g cb k E; by destruct (Hw' i g cb k)].
  intros i s t Hs Ht Hc. destruct (a_slot _ _ _ _ Ha _ _ Hs) as [_ Hl]. destruct (Hl t Ht) as [_ [_ _ Hk]].
  rewrite Hc in Hk. destruct Hk as [?|(cb & k & E)]; [by left|]. by destruct (Hw i (generation s) cb k).
Qed.

(** *** Scanning *)

Definition queued (now : Z) (s : Slot) : bool :=
  match timer s with
  | Some t => enabled t && negb (in_fifo t) && (next_expiration t <=? now)
  | None => false
  end.

Definition mark (now : Z) (s : Slot) : Slot :=
  match timer s with
  | Some t => if queued now s then s <| timer := Some (t <| in_fifo := true |>) |> else s
  | None => s
  end.

Fixpoint queue_from (now k : Z) (l : list Slot) : list (Z * Z) :=
  match l with
  | [] => []
  | s :: l' => if queued now s then (k, generation s) :: queue_from now (k + 1) l' else queue_from now (k + 1) l'
  end.

Lemma scan_eq now l : forall k, scan now k l = (map (mark now) l, queue_from now k l).
Proof.
  induction l as [|s l IH]; intros k; [done|]. cbn. rewrite IH. unfold mark, queued.
  destruct (timer s) as [t|]; [|done]. by destruct (_ && _ && _).
Qed.

Lemma elem_queue_from now l : forall k i g,
  (i, g) ∈ queue_from now k l <-> exists s, aget l (i - k) = Some s /\ g = generation s /\ queued now s = true.
Proof.
  induction l as [|s l IH]; intros k i g; cbn [queue_from].
  - split; [by intros ?%not_elem_of_nil|]. intros (s & Hs & _). apply aget_inv in Hs as [? _]. cbn in *. lia.
  - assert (Hrest : (i, g) ∈ queue_from now (k + 1) l <->
      i <> k /\ exists s', aget (s :: l) (i - k) = Some s' /\ g = generation s' /\ queued now s' = true).
    { rewrite IH. unfold aget. split.
      - intros (s' & Hs' & ?). destruct (Z.leb_spec 0 (i - (k + 1))); [|done]. split; [lia|]. exists s'.
        destruct (Z.leb_spec 0 (i - k)); [|lia]. by replace (Z.to_nat (i - k)) with (S (Z.to_nat (i - (k + 1)))) by lia.
      - intros (Hne & s' & Hs' & ?). destruct (Z.leb_spec 0 (i - k)); [|done]. exists s'.
        destruct (Z.leb_spec 0 (i - (k + 1))); [|lia]. by replace (Z.to_nat (i - k)) with (S (Z.to_nat (i - (k + 1)))) in Hs' by lia. }
    assert (Hhead : aget (s :: l) (k - k) = Some s) by (by rewrite Z.sub_diag).
    destruct (queued now s) eqn:Hq; rewrite ?elem_of_cons, Hrest.
    + split; [intros [[= -> ->]|[_ ?]]; [by exists s|done]|].
      intros (s' & Hs' & -> & ?). destruct (decide (i = k)) as [->|]; [left; congruence|right; eauto].
    + split; [by intros [_ ?]|]. intros (s' & Hs' & -> & ?). split; [|eauto]. intros ->. congruence.
Qed.

Lemma queue_from_nodup now l : forall k, NoDup (queue_from now k l).
Proof.
  induction l as [|s l IH]; intros k; cbn; [constructor|]. destruct (queued now s); [|done].
  apply NoDup_cons. split; [|done]. rewrite elem_queue_from. intros (s' & Hs' & _). apply aget_inv in Hs' as [? _]. lia.
Qed.

Lemma aget_map {A B} (f : A -> B) l i : aget (map f l) i = f <$> aget l i.
Proof. unfold aget. destruct (0 <=? i); [|done]. apply list_lookup_fmap. Qed.

Lemma mark_facts now s : generation (mark now s) = generation s /\ (timer (mark now s) = None <-> timer s = None) /\
  forall t', timer (mark now s) = Some t' -> exists t, timer s = Some t /\ callback t' = callback t /\
    next_expiration t' = next_expiration t /\ in_fifo t' = in_fifo t || queued now s.
Proof.
  unfold mark. destruct (timer s) as [t|] eqn:Ht; [|by rewrite Ht].
  destruct (queued now s) eqn:Hq; cbn; rewrite ?Ht; (split_and!; [done..|]); intros t' [= <-]; exists t.
  - split_and!; try done. by rewrite orb_true_r.
  - split_and!; try done. by rewrite orb_false_r.
Qed.

Lemma queued_due now s : queued now s = true -> exists t, timer s = Some t /\ in_fifo t = false /\ next_expiration t <= now.
Proof.
  unfold queued. destruct (timer s) as [t|]; [|done]. intros [[_ Hq]%andb_true_iff Hn]%andb_true_iff.
  exists t. split_and!; [done|by apply negb_true_iff|lia].
Qed.

Definition scanned (now : Z) (m : TimerManagerInner) : TimerManagerInner :=
  m <| slots := map (mark now) (slots m) |> <| fifo ::= (fun f => f ++ queue_from now 0 (slots m)) |>.

Lemma scan_arena adds w now m : idle w -> arena adds w now m -> arena adds w now (scanned now m).
Proof.
  intros Hidle Ha.
  assert (Hget : forall i s', aget (slots (scanned now m)) i = Some s' <->
    exists s, aget (slots m) i = Some s /\ s' = mark now s).
  { intros i s'. cbn. rewrite aget_map. destruct (aget (slots m) i); cbn; naive_solver. }
  assert (Hreach : forall i g, reached m i g -> reached (scanned now m) i g).
  { intros i g (s & Hs & Hg). exists (mark now s). rewrite Hget. split; [eauto|]. by destruct (mark_facts now s) as [-> _]. }
  constructor.
  - apply Ha.
  - intros i. cbn [free_indices scanned set_field]. rewrite (a_free _ _ _ _ Ha). setoid_rewrite Hget.
    split; [intros (s & Hs & Ht)|intros (s' & (s & Hs & ->) & Ht)].
    + exists (mark now s). split; [eauto|]. by apply (mark_facts now s).
    + exists s. split; [done|]. by apply (mark_facts now s).
  - cbn. rewrite length_map. apply Ha.
  - intros i s' Hs'. apply Hget in Hs' as (s & Hs & ->). destruct (a_slot _ _ _ _ Ha _ _ Hs) as [Hg Hl].
    destruct (mark_facts now s) as (Hmg & _ & Hmt). unfold slot_ok. rewrite Hmg. split; [done|].
    intros t' Ht'. destruct (Hmt _ Ht') as (t & Ht & Hc & Hn & Hf). destruct (Hl t Ht) as [? [Hq Hd Hk]].
    split; [done|]. cbn [fifo stop scanned set_field]. constructor; [| |by rewrite Hc].
    + rewrite Hf, elem_of_app, elem_queue_from, Z.sub_0_r, orb_true_iff, Hq.
      split; (intros [?|Hx]; [by left|right]); [eauto|]. destruct Hx as (s1 & Hs1 & _ & ?). congruence.
    + rewrite Hf, Hn. intros [?|Hx]%orb_true_iff; [by apply Hd|].
      destruct (queued_due _ _ Hx) as (t1 & ? & _ & ?). congruence.
  - cbn [fifo scanned set_field]. apply NoDup_app. split_and!; [apply Ha| |apply queue_from_nodup].
    intros [i g] Hin Hx. apply elem_queue_from in Hx as (s & Hs & -> & Hx). rewrite Z.sub_0_r in Hs.
    destruct (queued_due _ _ Hx) as (t & Ht & Hf & _).
    destruct (a_slot _ _ _ _ Ha _ _ Hs) as [_ Hl]. destruct (Hl t Ht) as [_ [Hq _ _]]. apply Hq in Hin. congruence.
  - intros i g. cbn [fifo scanned set_field]. intros [Hin|Hin]%elem_of_app; [by apply Hreach, (a_fifo _ _ _ _ Ha)|].
    apply elem_queue_from in Hin as (s & Hs & -> & _). rewrite Z.sub_0_r in Hs. apply Hreach. exists s. by split.
  - intros i g cb k Hw. by destruct (Hidle i g cb k).
  - apply Ha.
  - intros id cb Hin. destruct (a_adds _ _ _ _ Ha _ _ Hin) as (i & g & ? & ? & ?). exists i, g. split_and!; [done..|by apply Hreach].
Qed.

(** *** The queue's head *)

(** The head taken off, with the timer it names (if any) marked accordingly. *)
Lemma arena_pop adds w now m i g rest f :
  arena adds w now m -> fifo m = (i, g) :: rest ->
  (forall j s, aget (slots m) j = Some s -> (j, generation s) <> (i, g) -> f j s = s) ->
  (forall s, aget (slots m) i = Some s -> generation s = g -> generation (f i s) = g /\
    match timer s with
    | None => f i s = s
    | Some t => timer (f i s) = Some (t <| in_fifo := false |>)
    end) ->
  forall l, length l = length (slots m) ->
    (forall j, aget l j = f j <$> aget (slots m) j) ->
    arena adds w now (m <| slots := l |> <| fifo := rest |>).
Proof.
  intros Ha Hf Hother Hhead l Hlen Hl.
  pose proof (a_fifo_nodup _ _ _ _ Ha) as Hnd. rewrite Hf in Hnd. apply NoDup_cons in Hnd as [Hni Hnd].
  assert (Hfs : forall j s, aget (slots m) j = Some s -> generation (f j s) = generation s /\
    (timer (f j s) = None <-> timer s = None)).
  { intros j s Hs. destruct (decide ((j, generation s) = (i, g))) as [[= -> Hg]|]; [|by rewrite Hother].
    destruct (Hhead s Hs Hg) as [Hg' Ht]. split; [congruence|]. destruct (timer s) eqn:E; by rewrite Ht, ?E. }
  assert (Hget : forall j s', aget l j = Some s' <-> exists s, aget (slots m) j = Some s /\ s' = f j s).
  { intros j s'. rewrite Hl. destruct (aget (slots m) j); cbn; naive_solver. }
  set (m' := m <| slots := l |> <| fifo := rest |>).
  assert (Hreach : forall j h, reached m j h -> reached m' j h).
  { intros j h (s & Hs & Hh). exists (f j s). cbn. rewrite Hget. split; [eauto|]. by destruct (Hfs _ _ Hs) as [-> _]. }
  constructor.
  - apply Ha.
  - intros j. cbn [free_indices slots m' set_field]. rewrite (a_free _ _ _ _ Ha). setoid_rewrite Hget.
    split; [intros (s & Hs & Ht)|intros (s' & (s & Hs & ->) & Ht)].
    + exists (f j s). split; [eauto|]. by apply (Hfs j s Hs).
    + exists s. split; [done|]. by apply (Hfs j s Hs).
  - cbn. rewrite Hlen. apply Ha.
  - intros j s' Hs'. cbn in Hs'. apply Hget in Hs' as (s & Hs & ->).
    destruct (a_slot _ _ _ _ Ha _ _ Hs) as [Hg Hk]. unfold slot_ok. destruct (Hfs _ _ Hs) as [-> _]. split; [done|].
    cbn [fifo stop m' set_field]. destruct (decide ((j, generation s) = (i, g))) as [[= -> Hgs]|Hne].
    + destruct (Hhead s Hs Hgs) as [_ Ht]. intros t'. destruct (timer s) as [t|] eqn:E; [|by rewrite Ht, E].
      rewrite Ht. intros [= <-]. destruct (Hk t eq_refl) as [? [_ _ Hc]]. split; [done|]. constructor; [|done|done].
      cbn. split; [done|]. by rewrite Hgs.
    + rewrite Hother by done. intros t Ht. destruct (Hk t Ht) as [? [Hq Hd Hc]]. split; [done|].
      constructor; [|done|done]. rewrite Hq, Hf, elem_of_cons. naive_solver.
  - done.
  - intros j h Hin. apply Hreach, (a_fifo _ _ _ _ Ha). rewrite Hf. by right.
  - intros j h cb k Hw. destruct (a_call _ _ _ _ Ha _ _ _ _ Hw) as (? & ? & ? & Hn).
    split_and!; [done|by apply Hreach|done|]. intros Hin. apply Hn. rewrite Hf. by right.
  - apply Ha.
  - intros id cb Hin. destruct (a_adds _ _ _ _ Ha _ _ Hin) as (j & h & ? & ? & ?). exists j, h. split_and!; [done..|by apply Hreach].
Qed.

(** A stale head, or one whose timer is gone. *)
Lemma arena_drop adds w now m i g rest :
  arena adds w now m -> fifo m = (i, g) :: rest ->
  (forall s, aget (slots m) i = Some s -> generation s = g -> timer s = None) ->
  arena adds w now (m <| fifo := rest |>).
Proof.
  intros Ha Hf Hst.
  assert (Hm : m <| fifo := rest |> = m <| slots := slots m |> <| fifo := rest |>) by (by destruct m).
  rewrite Hm. apply (arena_pop adds w now m i g rest (fun _ s => s)); [done..| |done|].
  - intros s Hs Hg. by rewrite (Hst s Hs Hg).
  - intros j. by destruct (aget (slots m) j).
Qed.

(** A head whose timer is live. *)
Lemma arena_unqueue adds w now m i g rest s t :
  arena adds w now m -> fifo m = (i, g) :: rest ->
  aget (slots m) i = Some s -> generation s = g -> timer s = Some t ->
  arena adds w now (set_slot (m <| fifo := rest |>) i (s <| timer := Some (t <| in_fifo := false |>) |>)).
Proof.
  intros Ha Hf Hs Hg Ht.
  set (s' := s <| timer := Some (t <| in_fifo := false |>) |>).
  assert (Hm : set_slot (m <| fifo := rest |>) i s' =
    m <| slots := <[Z.to_nat i := s']> (slots m) |> <| fifo := rest |>) by (by destruct m).
  rewrite Hm. apply (arena_pop adds w now m i g rest (fun j s0 => if decide (j = i) then s' else s0)); [done..| | | |].
  - intros j s0 Hs0 Hne. case_decide; [subst; congruence|done].
  - intros s0 Hs0 _. rewrite decide_True by done. simplify_eq. by rewrite Ht.
  - by rewrite length_insert.
  - intros j. rewrite (aget_insert _ _ _ _ _ Hs). case_decide; [by subst; rewrite Hs|by destruct (aget _ j)].
Qed.

Lemma set_slot_twice m i s1 s2 : set_slot (set_slot m i s1) i s2 = set_slot m i s2.
Proof. unfold set_slot. cbn. by rewrite list_insert_insert_eq. Qed.

(** A live timer due at [now]. *)
Definition due (m : TimerManagerInner) (now i g : Z) : Prop :=
  exists s t, aget (slots m) i = Some s /\ generation s = g /\ timer s = Some t /\ enabled t = true /\
    next_expiration t <= now.

Lemma pop_arena adds w now m m' call : idle w ->
  arena adds w now m -> stop m = false -> pop_expired m = (m', call) ->
  stop m' = false /\
  match call with
  | Some (i, g, cb) => exists cb', cb = Some cb' /\ due m now i g /\ (make_id g i, cb') ∈ adds /\
      forall k, arena adds (Calling i g cb' k) now m'
  | None => arena adds w now m'
  end.
Proof.
  intros Hw Ha Hst. unfold pop_expired. destruct (fifo m) as [|[i g] rest] eqn:Hf; [by intros [= <- <-]|].
  change (slots (m <| fifo := rest |>)) with (slots m).
  destruct (aget (slots m) i) as [s|] eqn:Hs;
    [|intros [= <- <-]; split; [done|]; apply (arena_drop adds w now m i g); [done..|by rewrite Hs]].
  destruct (Z.eqb_spec (generation s) g) as [Hg|Hg];
    [|intros [= <- <-]; split; [done|]; apply (arena_drop adds w now m i g); [done..|intros ? E; by rewrite Hs in E; simplify_eq]].
  destruct (timer s) as [t|] eqn:Ht;
    [|intros [= <- <-]; split; [done|]; apply (arena_drop adds w now m i g); [done..|intros ? E; by rewrite Hs in E; simplify_eq]].
  pose proof (arena_unqueue adds w now m i g rest s t Ha Hf Hs Hg Ht) as Hu.
  destruct (enabled t) eqn:Hen; [|by intros [= <- <-]].
  destruct (a_slot _ _ _ _ Ha _ _ Hs) as [_ Hl]. destruct (Hl t Ht) as [Hg1 [Hq Hd Hc]].
  assert (Hfi : in_fifo t = true) by (apply Hq; rewrite Hf, Hg; by left).
  destruct (callback t) as [cb|] eqn:Hcb.
  2: { destruct Hc as [?|(cb & k & ->)]; [congruence|]. by destruct (Hw i (generation s) cb k). }
  intros [= <- <-]. split; [done|]. exists cb. rewrite <- Hg in *. split_and!; [done| |done|].
  { exists s, t. split_and!; try done. by apply Hd. }
  intros k. set (m1 := set_slot (m <| fifo := rest |>) i (s <| timer := Some (t <| in_fifo := false |>) |>)) in *.
  assert (Hs1 : aget (slots m1) i = Some (s <| timer := Some (t <| in_fifo := false |>) |>)).
  { unfold m1. rewrite (set_slot_get _ _ _ s); [by rewrite decide_True|done]. }
  assert (Hcall : arena adds (Calling i (generation s) cb k) now m1).
  { apply (arena_worker adds w); [done| |].
    - intros j sj tj Hj Htj Hcj. left. destruct (a_slot _ _ _ _ Hu _ _ Hj) as [_ Hlj].
      destruct (Hlj tj Htj) as [_ [_ _ Hk]]. rewrite Hcj in Hk. destruct Hk as [?|(cb' & k' & ->)]; [done|].
      by destruct (Hw j (generation sj) cb' k').
    - intros j gj cbj kj [= <- <- <- <-]. split_and!; [done| |done|]; [eexists; by split|].
      pose proof (a_fifo_nodup _ _ _ _ Ha) as Hnd. rewrite Hf in Hnd. by apply NoDup_cons in Hnd as [? _]. }
  change (arena adds (Calling i (generation s) cb k) now
    (set_slot (m <| fifo := rest |>) i (s <| timer := Some (t <| callback := None |> <| in_fifo := false |>) |>))).
  rewrite <- (set_slot_twice _ i (s <| timer := Some (t <| in_fifo := false |>) |>)). fold m1.
  destruct (a_slot _ _ _ _ Hcall _ _ Hs1) as [_ Hl1]. destruct (Hl1 _ eq_refl) as [_ [Hq1 Hd1 Hc1]].
  assert (Hok : timer_ok adds (Calling i (generation s) cb k) now (fifo m1) (stop m1) i (generation s)
    (t <| callback := None |> <| in_fifo := false |>)) by (constructor; [done..|]; right; eauto).
  exact (arena_put _ _ _ _ _ _ _ _ Hcall Hs1 eq_refl Hok).
Qed.

(** ** After a callback *)

Lemma arena_uncall adds i g cb k now m : arena adds (Calling i g cb k) now m ->
  (forall s t, aget (slots m) i = Some s -> generation s = g -> timer s = Some t -> callback t <> None \/ stop m = true) ->
  arena adds Polling now m.
Proof.
  intros Ha Hno. apply (arena_worker adds (Calling i g cb k)); [done| |done].
  intros j s t Hs Ht Hc. destruct (a_slot _ _ _ _ Ha _ _ Hs) as [_ Hl]. destruct (Hl t Ht) as [_ [_ _ Hk]].
  rewrite Hc in Hk. destruct Hk as [?|(cb' & k' & [= -> -> -> ->])]; [by left|].
  by destruct (Hno s t Hs eq_refl Ht); [|left].
Qed.

Lemma recall adds i g cb k k' now m : arena adds (Calling i g cb k) now m -> arena adds (Calling i g cb k') now m.
Proof.
  intros Ha. apply (arena_worker adds (Calling i g cb k)); [done| |].
  - intros j s t Hs Ht Hc. destruct (a_slot _ _ _ _ Ha _ _ Hs) as [_ Hl]. destruct (Hl t Ht) as [_ [_ _ Hk]].
    rewrite Hc in Hk. destruct Hk as [?|(cb' & k0 & [= -> -> -> ->])]; [by left|right; eauto].
  - intros j h cb' k0 [= <- <- <- <-]. by apply (a_call _ _ _ _ Ha i g cb k).
Qed.

(** The timer whose callback is out put back, however it was changed. *)
Lemma arena_return adds i g cb k now m s t t' :
  arena adds (Calling i g cb k) now m -> aget (slots m) i = Some s -> generation s = g -> timer s = Some t ->
  in_fifo t' = in_fifo t -> callback t' = Some cb ->
  arena adds Polling now (set_slot m i (s <| timer := Some t' |>)).
Proof.
  intros Ha Hs Hg Ht Hf Hc. subst g. destruct (a_call _ _ _ _ Ha _ _ _ _ eq_refl) as (Hin & _ & _ & Hnq).
  destruct (a_slot _ _ _ _ Ha _ _ Hs) as [_ Hl]. destruct (Hl t Ht) as [_ [Hq _ _]].
  assert (Hnf : in_fifo t = false) by (destruct (in_fifo t); [|done]; by destruct Hnq; apply Hq).
  apply (arena_uncall adds i (generation s) cb k).
  - apply (arena_put _ _ _ _ _ _ t); [done..|]. rewrite Hnf in *. constructor.
    + by rewrite Hf.
    + by rewrite Hf.
    + by rewrite Hc.
  - intros s1 t1. rewrite (set_slot_get _ _ _ s) by done. rewrite decide_True by done. intros [= <-] _ [= <-]. left. congruence.
Qed.

Lemma settle_arena adds i g cb k r now at_ m m' again :
  arena adds (Calling i g cb k) now m -> settle m i g cb k r at_ = (m', again) ->
  arena adds (after_settle i g cb again) now m'.
Proof.
  intros Ha. unfold settle. destruct (stop m) eqn:Hst.
  { intros [= <- <-]. apply (arena_uncall adds i g cb k); [done|]. by right. }
  destruct (aget (slots m) i) as [s|] eqn:Hs.
  2: { intros [= <- <-]. apply (arena_uncall adds i g cb k); [done|]. intros s t E. by rewrite Hs in E. }
  destruct (timer s) as [t|] eqn:Ht.
  2: { intros [= <- <-]. apply (arena_uncall adds i g cb k); [done|]. intros s1 t E. rewrite Hs in E. intros; simplify_eq. }
  destruct (Z.eqb_spec (generation s) g) as [Hg|Hg].
  2: { intros [= <- <-]. apply (arena_uncall adds i g cb k); [done|]. intros s1 t1 E. rewrite Hs in E. intros; simplify_eq. }
  assert (Hput : forall t', in_fifo t' = in_fifo t -> callback t' = Some cb ->
    arena adds Polling now (set_slot m i (s <| timer := Some t' |>))) by (intros; by apply (arena_return adds i g cb k now m s t)).
  destruct r as [| | |d|p]; try by intros [= <- <-]; apply Hput.
  - cbn [period set_field]. destruct (period t) as [p|]; [|by intros [= <- <-]; apply deallocate_arena, Hput].
    destruct (_ && _ && _); [|by intros [= <- <-]; apply Hput].
    intros [= <- <-]. apply (recall adds i g cb k). apply (arena_put _ _ _ _ _ _ t); [done..|].
    destruct (a_call _ _ _ _ Ha _ _ _ _ eq_refl) as (_ & _ & _ & Hnq).
    destruct (a_slot _ _ _ _ Ha _ _ Hs) as [_ Hl]. destruct (Hl t Ht) as [_ [Hq _ _]]. rewrite Hg in *.
    assert (Hnf : in_fifo t = false) by (destruct (in_fifo t); [|done]; by destruct Hnq; apply Hq).
    rewrite Hnf in Hq. constructor; cbn; rewrite ?Hnf; [done..|]. right. eauto.
  - intros [= <- <-]. by apply deallocate_arena, Hput.
Qed.

End HpTimerProofs.
