(* ===== verification/HpTimerClaims.v ===== *)
(** * The timer manager's theorems *)

From S2P Require Import Prelude HpTimer HpTimerProofs.
Import HpTimer HpTimerProofs.

Module HpTimerClaims.

(** The timers added so far, the latest first. *)
Definition added_of (ev : Event) : option (Z * Z) :=
  match ev with Added id cb => Some (id, cb) | _ => None end.

Definition adds_of (tr : list Event) : list (Z * Z) := reverse (omap added_of tr).

Lemma adds_snoc tr ev : adds_of (tr ++ [ev]) =
  match added_of ev with Some x => x :: adds_of tr | None => adds_of tr end.
Proof. unfold adds_of. rewrite omap_app, reverse_app. cbn. by destruct (added_of ev). Qed.

(** ** Sleeping *)

(** Every timer that could expire without being queued yet is covered by the
    instant the worker sleeps to. *)
Definition covered (w : option Z) (m : TimerManagerInner) : Prop :=
  forall i s t, aget (slots m) i = Some s -> timer s = Some t -> enabled t = true -> in_fifo t = false ->
    exists target, w = Some target /\ target <= next_expiration t.

Lemma earliest_spec l : forall acc,
  (forall w0, acc = Some w0 -> exists w, foldl earliest acc l = Some w /\ w <= w0) /\
  (forall s t, s ∈ l -> timer s = Some t -> enabled t = true -> in_fifo t = false ->
    exists w, foldl earliest acc l = Some w /\ w <= next_expiration t).
Proof.
  induction l as [|s l IH]; intros acc; cbn.
  - split; [intros w0 ->; by exists w0|by intros ? ? ?%not_elem_of_nil].
  - destruct (IH (earliest acc s)) as [IH1 IH2]. split.
    + intros w0 ->. unfold earliest in *. destruct (timer s) as [t|]; [|by apply IH1].
      destruct (enabled t && negb (in_fifo t)); [|by apply IH1].
      destruct (Z.ltb_spec (next_expiration t) w0); [|by apply IH1].
      destruct (IH1 _ eq_refl) as (w & -> & ?). exists w. split; [done|lia].
    + intros s' t [->|Hin]%elem_of_cons Ht He Hf; [|by apply (IH2 s')].
      unfold earliest in *. rewrite Ht, He, Hf in *. cbn in *. destruct acc as [w0|]; [|by apply IH1].
      destruct (Z.ltb_spec (next_expiration t) w0); [by apply IH1|].
      destruct (IH1 w0 eq_refl) as (w & -> & ?). exists w. split; [done|lia].
Qed.

Lemma next_wakeup_covers m : covered (next_wakeup (slots m)) m.
Proof.
  intros i s t Hs. apply aget_inv in Hs as [_ Hs]. apply list_elem_of_lookup_2 in Hs.
  intros. by apply (proj2 (earliest_spec (slots m) None) s t).
Qed.

(** Operations that only take timers away. *)
Lemma deallocate_get m id i s t : aget (slots (fst (deallocate m id))) i = Some s -> timer s = Some t ->
  aget (slots m) i = Some s.
Proof.
  unfold deallocate. destruct (aget (slots m) (id_index id)) as [s0|] eqn:H0; [|done].
  destruct (_ && _); [|done]. cbn. rewrite (aget_insert _ _ _ _ _ H0). case_decide; [|done]. by intros [= <-].
Qed.

Lemma disable_get m id i s t : aget (slots (fst (disable m id))) i = Some s -> timer s = Some t -> enabled t = true ->
  aget (slots m) i = Some s.
Proof.
  unfold disable, set_enabled. destruct (aget (slots m) (id_index id)) as [s0|] eqn:H0; [|done].
  destruct (generation s0 =? _); [|done]. destruct (timer s0) as [t0|]; [|done]. cbn.
  rewrite (aget_insert _ _ _ _ _ H0). case_decide; [|done]. intros [= <-] [= <-]. done.
Qed.

(** ** The invariant of the whole system *)

Record sys_ok (adds : list (Z * Z)) (s : System) : Prop := {
  ok_arena : arena adds (worker s) (seen s) (inner s);
  ok_seen : seen s <= clock s;
  ok_wait : forall w, worker s = Waiting w -> added s = false -> wakes s = 0%nat -> covered w (inner s);
}.

Lemma poll_ok adds m now m' out : arena adds Scanning now m -> poll m now = (m', out) ->
  arena adds (after_poll out) now m' /\
  match out with
  | Stopped => True
  | Call i g cb => exists cb', cb = Some cb' /\ due m now i g /\ (make_id g i, cb') ∈ adds
  | Wait w => w = next_wakeup (slots m')
  end.
Proof.
  intros Ha. unfold poll. destruct (stop m) eqn:Hst.
  { intros [= <- <-]. split; [|done]. by apply (arena_idle adds Scanning). }
  rewrite scan_eq. fold (scanned now m). change (m <| slots := _ |> <| fifo ::= _ |>) with (scanned now m).
  pose proof (scan_arena adds Scanning now m ltac:(done) Ha) as Hsc.
  destruct (pop_expired (scanned now m)) as [m1 call] eqn:Hp.
  destruct (pop_arena adds Scanning now _ _ _ ltac:(done) Hsc Hst Hp) as [_ Hc].
  destruct call as [[[i g] cb]|].
  - intros [= <- <-]. destruct Hc as (cb' & -> & Hdue & Hin & Hc). split; [apply Hc|]. exists cb'. split_and!; [done| |done].
    destruct Hdue as (s' & t' & Hs' & Hg & Ht' & He & Hn). cbn in Hs'. rewrite aget_map in Hs'.
    apply fmap_Some in Hs' as (s & Hs & ->). destruct (mark_facts now s) as (Hmg & _ & Hmt).
    destruct (Hmt _ Ht') as (t & Ht & _ & Hnt & _). exists s, t. split_and!; [done|congruence|done| |congruence].
    unfold mark in Ht'. rewrite Ht in Ht'. destruct (queued now s); cbn in Ht'; simplify_eq/=; congruence.
  - intros [= <- <-]. split; [|done]. by apply (arena_idle adds Scanning).
Qed.

Lemma step_ok adds s ev s' : sys_ok adds s -> hp_step s ev s' ->
  count (match added_of ev with Some x => x :: adds | None => adds end) < 2 ^ 32 ->
  sys_ok (match added_of ev with Some x => x :: adds | None => adds end) s'.
Proof.
  intros [Ha Hse Hw] Hst Hc. destruct Hst as [s now e cb m id Hn Hadd|s at_ p cb m id Hadd|s id m b Hr|s id m He|s id m b Hd|s
    |s n Hn|s now Hwk Hn|s m out Hwk Hp|s idx gen cb k r now m again Hwk Hn Hs|s target now Hwk Hn Ht|s Hwk];
    cbn [added_of poll_event] in *.
  - unfold count in Hc. cbn in Hc.
    destruct (allocate_arena adds (worker s) (seen s) (inner s) (mkEntry (now + e) None true false (Some cb)) cb)
      as (m' & i & g & Hal & Ha' & _); [done|unfold count; lia|done|done|].
    unfold add_one_shot in Hadd. rewrite Hal in Hadd. injection Hadd as <- <-. constructor; cbn; [done|lia|done].
  - unfold count in Hc. cbn in Hc.
    destruct (allocate_arena adds (worker s) (seen s) (inner s) (mkEntry at_ (Some p) true false (Some cb)) cb)
      as (m' & i & g & Hal & Ha' & _); [done|unfold count; lia|done|done|].
    unfold add_recurring in Hadd. rewrite Hal in Hadd. injection Hadd as <- <-. by constructor.
  - replace m with (fst (deallocate (inner s) id)) by (unfold remove in Hr; by rewrite Hr).
    constructor; cbn; [by apply deallocate_arena|done|]. intros w Hwk Had Hwa i s1 t Hs1 Ht.
    apply (Hw w Hwk Had Hwa i s1 t); [by eapply deallocate_get|done].
  - replace m with (fst (set_enabled (inner s) id true)) by (unfold enable in He; by rewrite He).
    constructor; cbn; [by apply set_enabled_arena|done|done].
  - replace m with (fst (disable (inner s) id)) by (by rewrite Hd).
    constructor; cbn; [by apply set_enabled_arena|done|]. intros w Hwk Had Hwa i s1 t Hs1 Ht He.
    apply (Hw w Hwk Had Hwa i s1 t); [by eapply disable_get|done|done].
  - constructor; [|done|done]. destruct Ha. constructor; try done. cbn. intros i s1 Hs1. destruct (a_slot0 i s1 Hs1) as [Hg Hl].
    split; [done|]. intros t Ht. destruct (Hl t Ht) as [? [? ? Hk]]. split; [done|]. constructor; [done..|].
    unfold callback_ok in *. destruct (callback t); [done|by left].
  - by constructor.
  - constructor; cbn; [|lia|done]. apply (arena_clock _ _ (seen s)); [lia|]. rewrite Hwk in Ha. by apply (arena_idle adds Polling).
  - rewrite Hwk in Ha. destruct (poll_ok adds _ _ _ _ Ha Hp) as [Ha' Hout].
    replace (added_of _) with (@None (Z * Z)) in * by (by destruct out as [|? ? []|]).
    constructor; cbn; [done|done|]. intros w Hwt _ _. destruct out as [|? ? []|w']; try done. cbn in Hwt. injection Hwt as <-.
    rewrite Hout. apply next_wakeup_covers.
  - replace (added_of _) with (@None (Z * Z)) in * by (by destruct again). rewrite Hwk in Ha.
    constructor; cbn; [by eapply settle_arena|lia|]. by destruct again.
  - constructor; cbn; [|lia|done]. rewrite Hwk in Ha. by apply (arena_idle adds (Waiting (Some target))).
  - constructor; cbn; [|done|done]. rewrite Hwk in Ha. by apply (arena_idle adds (Waiting None)).
Qed.

Lemma new_ok start : sys_ok [] (system_new start).
Proof.
  constructor; [|done|done].
  assert (Hnone : forall i s, aget (@nil Slot) i = Some s -> False) by (intros ? ? [Hi _]%aget_inv; cbn in Hi; lia).
  constructor; cbn; try done; try by constructor.
  - intros i. split; [by intros ?%not_elem_of_nil|]. intros (s & Hs & _). by destruct (Hnone _ _ Hs).
  - intros i s Hs. by destruct (Hnone _ _ Hs).
  - by intros i g ?%not_elem_of_nil.
  - by intros id cb ?%not_elem_of_nil.
Qed.

Lemma run_count tr ev : count (adds_of (tr ++ [ev])) < 2 ^ 32 -> count (adds_of tr) < 2 ^ 32.
Proof. rewrite adds_snoc. destruct (added_of ev); unfold count; cbn; lia. Qed.

Lemma run_ok start tr s : hp_run (system_new start) tr s -> count (adds_of tr) < 2 ^ 32 -> sys_ok (adds_of tr) s.
Proof.
  intros Hr. remember (system_new start) as s0 eqn:E. induction Hr as [s0|s0 tr s1 ev s2 Hr IH Hs]; subst.
  - intros _. apply new_ok.
  - intros Hc. specialize (IH eq_refl (run_count _ _ Hc)). rewrite adds_snoc in *. by apply (step_ok _ s1).
Qed.

(** ** What the operations leave of the other timers *)

Definition live (m : TimerManagerInner) (i g : Z) (t : TimerEntry) : Prop :=
  exists s, aget (slots m) i = Some s /\ generation s = g /\ timer s = Some t.

(** [m'] has the slots of [m] under the same generations, and each timer in it
    was in [m] and is related to what it was. *)
Definition evolves (R : Z -> Z -> TimerEntry -> TimerEntry -> Prop) (m m' : TimerManagerInner) : Prop :=
  (forall i g, reached m i g -> reached m' i g) /\
  forall i g t', live m' i g t' -> exists t, live m i g t /\ R i g t t'.

Definition same_schedule (t t' : TimerEntry) : Prop :=
  next_expiration t' = next_expiration t /\ period t' = period t.

Definition quiet : Z -> Z -> TimerEntry -> TimerEntry -> Prop := fun _ _ => same_schedule.

Lemma evolves_refl (R : Z -> Z -> TimerEntry -> TimerEntry -> Prop) m : (forall i g t, R i g t t) -> evolves R m m.
Proof. intros HR. split; [done|]. intros i g t Ht. exists t. by split. Qed.

Lemma quiet_refl m : evolves quiet m m.
Proof. by apply evolves_refl. Qed.

Lemma quiet_trans m1 m2 m3 : evolves quiet m1 m2 -> evolves quiet m2 m3 -> evolves quiet m1 m3.
Proof.
  intros [H1 H2] [H3 H4]. split; [auto|]. intros i g t'' Ht. destruct (H4 _ _ _ Ht) as (t' & Ht' & [? ?]).
  destruct (H2 _ _ _ Ht') as (t & ? & [? ?]). exists t. split; [done|]. split; congruence.
Qed.

Lemma set_slot_evolves (R : Z -> Z -> TimerEntry -> TimerEntry -> Prop) m i s s' :
  (forall j g t, j <> i -> R j g t t) -> aget (slots m) i = Some s -> generation s' = generation s ->
  (forall t', timer s' = Some t' -> exists t, timer s = Some t /\ R i (generation s) t t') ->
  evolves R m (set_slot m i s').
Proof.
  intros HR Hs Hg Ht. split.
  - intros j g. apply (set_slot_reached m i s' s); [done|lia].
  - intros j g t' (sj & Hj & Hgj & Htj). rewrite (set_slot_get _ _ _ _ _ Hs) in Hj. case_decide.
    + subst. injection Hj as <-. destruct (Ht _ Htj) as (t & ? & ?). exists t. rewrite Hg. split; [|done]. by exists s.
    + exists t'. split; [by exists sj|by apply HR].
Qed.

Lemma deallocate_stop m id : stop (fst (deallocate m id)) = stop m.
Proof. unfold deallocate. by repeat case_match. Qed.

Lemma deallocate_evolves m id : evolves quiet m (fst (deallocate m id)).
Proof.
  unfold deallocate. destruct (aget (slots m) (id_index id)) as [s|] eqn:Hs; [|apply quiet_refl].
  destruct (_ && _); [|apply quiet_refl]. by apply (set_slot_evolves quiet m (id_index id) s).
Qed.

Lemma set_enabled_stop m id b : stop (fst (set_enabled m id b)) = stop m.
Proof. unfold set_enabled. by repeat case_match. Qed.

Lemma set_enabled_evolves m id b : evolves quiet m (fst (set_enabled m id b)).
Proof.
  unfold set_enabled. destruct (aget (slots m) (id_index id)) as [s|] eqn:Hs; [|apply quiet_refl].
  destruct (generation s =? _); [|apply quiet_refl]. destruct (timer s) as [t|] eqn:Ht; [|apply quiet_refl].
  apply (set_slot_evolves quiet m (id_index id) s); [done..|]. intros t' [= <-]. by exists t.
Qed.

Lemma scanned_evolves now m : evolves quiet m (scanned now m).
Proof.
  split.
  - intros i g (s & Hs & Hg). exists (mark now s). cbn. rewrite aget_map, Hs. split; [done|].
    by destruct (mark_facts now s) as [-> _].
  - intros i g t' (s' & Hs' & Hg & Ht'). cbn in Hs'. rewrite aget_map in Hs'. apply fmap_Some in Hs' as (s & Hs & ->).
    destruct (mark_facts now s) as (Hmg & _ & Hmt). destruct (Hmt _ Ht') as (t & Ht & _ & ? & _).
    exists t. split; [exists s; split_and!; [done|congruence|done]|]. split; [done|].
    unfold mark in Ht'. rewrite Ht in Ht'. destruct (queued now s); cbn in Ht'; simplify_eq/=; congruence.
Qed.

Lemma pop_evolves m : evolves quiet m (fst (pop_expired m)).
Proof.
  unfold pop_expired. destruct (fifo m) as [|[i g] rest]; [apply quiet_refl|].
  set (m1 := m <| fifo := rest |>). assert (Hm1 : evolves quiet m m1) by apply (quiet_refl m).
  destruct (aget (slots m1) i) as [s|] eqn:Hs; [|done]. destruct (generation s =? g); [|done].
  destruct (timer s) as [t|] eqn:Ht; [|done].
  apply (quiet_trans m m1); [done|]. destruct (enabled t); cbn [fst].
  all: apply (set_slot_evolves quiet m1 i s); [done..|]; intros t' [= <-]; by exists t.
Qed.

Lemma poll_evolves m now : evolves quiet m (fst (poll m now)).
Proof.
  unfold poll. destruct (stop m); [apply quiet_refl|]. rewrite scan_eq.
  change (m <| slots := _ |> <| fifo ::= _ |>) with (scanned now m).
  pose proof (quiet_trans _ _ _ (scanned_evolves now m) (pop_evolves (scanned now m))) as Hp.
  destruct (pop_expired (scanned now m)) as [m1 [[[i g] cb]|]]; done.
Qed.

Lemma poll_stop m now : stop (fst (poll m now)) = stop m.
Proof. unfold poll, pop_expired. destruct (stop m) eqn:E; [done|]. by repeat case_match; simplify_eq/=. Qed.

Lemma poll_due m now m' i g cb : poll m now = (m', Call i g cb) -> due m now i g -> due m' now i g.
Proof.
  intros Hp (s & t & Hs & Hg & Ht & _ & Hn). pose proof (poll_evolves m now) as [_ Hev]. rewrite Hp in Hev. cbn [fst] in Hev.
  assert (exists t', live m' i g t' /\ enabled t' = true) as (t' & Hl' & He).
  { clear Hev. unfold poll in Hp. destruct (stop m); [done|]. rewrite scan_eq in Hp. change (m <| slots := _ |> <| fifo ::= _ |>) with (scanned now m) in Hp.
    unfold pop_expired in Hp. destruct (fifo (scanned now m)) as [|[i1 g1] rest]; [done|].
    match type of Hp with context [aget ?l i1] => destruct (aget l i1) as [s1|] eqn:Hs1; [|done] end. destruct (Z.eqb_spec (generation s1) g1) as [Hg1|]; [|done].
    destruct (timer s1) as [t1|] eqn:Ht1; [|done]. destruct (enabled t1) eqn:He1; [|done]. injection Hp as <- <- <- <-.
    eexists. split; [eexists; split_and!; [cbn; rewrite (aget_insert _ _ _ _ _ Hs1), decide_True by done; reflexivity|done|reflexivity]|done]. }
  destruct (Hev _ _ _ Hl') as (t0 & (s0 & Hs0 & Hg0 & Ht0) & [Hx _]). destruct Hl' as (s' & Hs' & Hg' & Ht').
  exists s', t'. split_and!; try done. assert (t0 = t) as -> by congruence. lia.
Qed.

(** What a returned callback does to its own timer when it says [Continue]. *)
Definition advanced (i g : Z) (r : TimerReturn) (j h : Z) (t t' : TimerEntry) : Prop :=
  if decide ((j, h) = (i, g)) then
    forall p, r = Continue -> period t = Some p -> next_expiration t' = next_expiration t + p /\ period t' = Some p
  else same_schedule t t'.

Lemma stale_advanced i g r m : (forall t, ~ live m i g t) -> evolves (advanced i g r) m m.
Proof.
  intros Hd. split; [done|]. intros j h t Ht. exists t. split; [done|]. unfold advanced. case_decide as E; [|done].
  injection E as -> ->. by destruct (Hd t).
Qed.

Lemma advanced_quiet i g r m1 m2 m3 :
  evolves (advanced i g r) m1 m2 -> evolves quiet m2 m3 -> evolves (advanced i g r) m1 m3.
Proof.
  intros [H1 H2] [H3 H4]. split; [auto|]. intros j h t'' Ht. destruct (H4 _ _ _ Ht) as (t' & Ht' & [He Hp]).
  destruct (H2 _ _ _ Ht') as (t & ? & Ha). exists t. split; [done|]. unfold advanced in *. case_decide.
  - intros p Hr Hpt. rewrite He, Hp. by apply Ha.
  - destruct Ha. split; congruence.
Qed.

Lemma settle_evolves m i g cb k r now : stop m = false ->
  evolves (advanced i g r) m (fst (settle m i g cb k r now)) /\ stop (fst (settle m i g cb k r now)) = false.
Proof.
  intros Hst. unfold settle. rewrite Hst.
  destruct (aget (slots m) i) as [s|] eqn:Hs;
    [|split; [cbn [fst]; apply stale_advanced; intros t (s & E & _); congruence|done]].
  destruct (timer s) as [t|] eqn:Ht;
    [|split; [cbn [fst]; apply stale_advanced; intros t (s1 & E & _ & E'); congruence|done]].
  destruct (Z.eqb_spec (generation s) g) as [Hg|Hg];
    [|split; [cbn [fst]; apply stale_advanced; intros t1 (s1 & E & E' & _); congruence|done]].
  assert (Hput : forall t', (forall p, r = Continue -> period t = Some p ->
      next_expiration t' = next_expiration t + p /\ period t' = Some p) ->
    evolves (advanced i g r) m (set_slot m i (s <| timer := Some t' |>))).
  { intros t' Ht'. apply (set_slot_evolves _ m i s); [|done..|].
    - intros j h t1 Hj. unfold advanced. rewrite decide_False by congruence. done.
    - intros t1 [= <-]. exists t. split; [done|]. unfold advanced. by rewrite decide_True by congruence. }
  assert (Hkill : forall t', (forall p, r = Continue -> period t = Some p -> False) ->
    evolves (advanced i g r) m (fst (deallocate (set_slot m i (s <| timer := Some t' |>)) (make_id g i))) /\
    stop (fst (deallocate (set_slot m i (s <| timer := Some t' |>)) (make_id g i))) = false).
  { intros t' Hno. split; [eapply advanced_quiet; [apply Hput|apply deallocate_evolves]|].
    - intros p H1 H2. by destruct (Hno p).
    - by rewrite deallocate_stop. }
  destruct r as [| | |d|p]; try (by split; [apply Hput|]); [|by apply Hkill].
  cbn [period set_field]. destruct (period t) as [p|] eqn:Hp; [|by apply Hkill].
  destruct (_ && _ && _); (split; [apply Hput|done]); intros p' _ [= <-]; cbn; by rewrite ?Hp.
Qed.

(** A callback called again at once: it returned [Continue], its timer is still
    live and enabled, and its new expiration has passed. *)
Lemma settle_again m i g cb k r now m' k' : settle m i g cb k r now = (m', Some k') ->
  r = Continue /\ due m' now i g /\ stop m = false /\ k' = k + 1 /\ k' < MAX_CATCHUP.
Proof.
  unfold settle. destruct (stop m); [done|]. destruct (aget (slots m) i) as [s|] eqn:Hs; [|done].
  destruct (timer s) as [t|] eqn:Ht; [|done]. destruct (Z.eqb_spec (generation s) g) as [Hg|]; [|done].
  destruct r; try done. cbn [period set_field]. destruct (period t) as [p|]; [|done].
  destruct (_ && _ && _) eqn:E; [|done]. apply andb_prop in E as [[E1%Z.ltb_lt E2]%andb_prop E3%Z.leb_le].
  intros [= <- <-]. split_and!; try done. eexists _, _. split_and!; [cbn; rewrite (aget_insert _ _ _ _ _ Hs), decide_True by done; reflexivity|done|done|done|done].
Qed.

(** ** Runs *)

Lemma run_snoc_inv s tr ev s' : hp_run s (tr ++ [ev]) s' -> exists s1, hp_run s tr s1 /\ hp_step s1 ev s'.
Proof.
  intros Hr. remember (tr ++ [ev]) as l eqn:E. destruct Hr as [|s tr' s1 ev' s2 Hr Hs]; [by destruct tr|].
  apply app_inj_tail in E as [-> ->]. eauto.
Qed.

Lemma run_app_inv s tr2 : forall tr1 s', hp_run s (tr1 ++ tr2) s' -> exists s1, hp_run s tr1 s1 /\ hp_run s1 tr2 s'.
Proof.
  induction tr2 as [|ev tr2 IH] using rev_ind; intros tr1 s' Hr.
  - rewrite app_nil_r in Hr. exists s'. split; [done|constructor].
  - rewrite app_assoc in Hr. apply run_snoc_inv in Hr as (s2 & Hr & Hs). destruct (IH _ _ Hr) as (s1 & ? & ?).
    exists s1. split; [done|]. by econstructor.
Qed.

Lemma run_cons s ev s1 tr s2 : hp_step s ev s1 -> hp_run s1 tr s2 -> hp_run s (ev :: tr) s2.
Proof.
  intros Hs Hr. induction Hr as [s1|s1 tr s2 ev' s3 Hr IH Hs'].
  - apply (run_step s [] s); [constructor|done].
  - apply (run_step s (ev :: tr) s2); auto.
Qed.

Lemma allocate_live adds w now m e cb m' id i g t' :
  arena adds w now m -> count ((id, cb) :: adds) < 2 ^ 32 -> in_fifo e = false -> callback e = Some cb ->
  allocate m e = Some (m', id) -> reached m i g -> live m' i g t' -> live m i g t'.
Proof.
  intros Ha Hc Hf Hcb Hal Hr (s & Hs & Hg & Ht).
  destruct (allocate_arena adds w now m e cb) as (m1 & j & h & Hal1 & _ & _ & _ & _ & Hj & Hother & Hnew & _);
    [done|unfold count in *; cbn in *; lia|done|done|].
  rewrite Hal1 in Hal. injection Hal as <- <-. destruct (decide (i = j)) as [->|].
  - rewrite Hj in Hs. injection Hs as <-. cbn in Hg. pose proof (Hnew _ Hr). lia.
  - exists s. by rewrite <- Hother.
Qed.

(** A step leaves the schedule of the timers there were, except that a
    returned callback moves its own. *)
Lemma step_live adds s ev s' i g t' : sys_ok adds s -> hp_step s ev s' ->
  count (match added_of ev with Some x => x :: adds | None => adds end) < 2 ^ 32 ->
  0 <= g -> reached (inner s) i g -> live (inner s') i g t' -> stop (inner s') = false ->
  stop (inner s) = false /\ exists t, live (inner s) i g t /\
    match ev with
    | Returned id r =>
        if decide (id = make_id g i) then
          forall p, r = Continue -> period t = Some p -> next_expiration t' = next_expiration t + p /\ period t' = Some p
        else same_schedule t t'
    | Recalled id _ _ =>
        if decide (id = make_id g i) then
          forall p, period t = Some p -> next_expiration t' = next_expiration t + p /\ period t' = Some p
        else same_schedule t t'
    | _ => same_schedule t t'
    end.
Proof.
  intros [Ha Hse Hw] Hst Hc Hg Hr Hl Hns.
  assert (Hq : forall m, evolves quiet (inner s) m -> live m i g t' -> exists t, live (inner s) i g t /\ same_schedule t t').
  { intros m [_ Hev] Hlm. exact (Hev _ _ _ Hlm). }
  destruct Hst as [s now e cb m id Hn Hadd|s at_ p cb m id Hadd|s id m b Hrm|s id m He|s id m b Hd|s
    |s n Hn|s now Hwk Hn|s m out Hwk Hp|s idx gen cb k r now m again Hwk Hn Hs|s target now Hwk Hn Ht|s Hwk];
    cbn [inner set_field] in Hl, Hns; try (split; [done|]; by exists t').
  - split; [|exists t'; split; [|done];
      by apply (allocate_live adds (worker s) (seen s) (inner s) (mkEntry (now + e) None true false (Some cb)) cb m id)].
    destruct (allocate_arena adds (worker s) (seen s) (inner s) (mkEntry (now + e) None true false (Some cb)) cb)
      as (m1 & j & h & Hal1 & _ & _ & _ & Hs1 & _); [done|unfold count in *; cbn in *; lia|done|done|].
    unfold add_one_shot in Hadd. rewrite Hal1 in Hadd. injection Hadd as <- <-. congruence.
  - split; [|exists t'; split; [|done];
      by apply (allocate_live adds (worker s) (seen s) (inner s) (mkEntry at_ (Some p) true false (Some cb)) cb m id)].
    destruct (allocate_arena adds (worker s) (seen s) (inner s) (mkEntry at_ (Some p) true false (Some cb)) cb)
      as (m1 & j & h & Hal1 & _ & _ & _ & Hs1 & _); [done|unfold count in *; cbn in *; lia|done|done|].
    unfold add_recurring in Hadd. rewrite Hal1 in Hadd. injection Hadd as <- <-. congruence.
  - unfold remove in Hrm. pose proof (deallocate_evolves (inner s) id) as Hev. pose proof (deallocate_stop (inner s) id) as Hss.
    rewrite Hrm in Hev, Hss. cbn in Hss. split; [congruence|]. by apply (Hq m).
  - pose proof (set_enabled_evolves (inner s) id true) as Hev. pose proof (set_enabled_stop (inner s) id true) as Hss.
    unfold enable in He. rewrite He in Hev, Hss. cbn in Hss. split; [congruence|]. by apply (Hq m).
  - pose proof (set_enabled_evolves (inner s) id false) as Hev. pose proof (set_enabled_stop (inner s) id false) as Hss.
    unfold disable in Hd. rewrite Hd in Hev, Hss. cbn in Hss. split; [congruence|]. by apply (Hq m).
  - pose proof (poll_evolves (inner s) (seen s)) as Hev. pose proof (poll_stop (inner s) (seen s)) as Hss. rewrite Hp in Hev, Hss.
    cbn in Hss. split; [congruence|]. destruct (Hq m Hev Hl) as (t & ? & ?). exists t. split; [done|].
    by destruct out as [|? ? []|].
  - replace (added_of _) with (@None (Z * Z)) in Hc by (by destruct again).
    destruct (stop (inner s)) eqn:Hst; [unfold settle in Hs; rewrite Hst in Hs; injection Hs as <- <-; congruence|].
    split; [done|]. destruct (settle_evolves (inner s) idx gen cb k r now Hst) as [[_ Hev] _]. rewrite Hs in Hev.
    destruct (Hev _ _ _ Hl) as (t & Ht & Had). exists t. split; [done|]. unfold advanced in Had.
    rewrite Hwk in Ha. destruct (a_call _ _ _ _ Ha _ _ _ _ eq_refl) as (_ & Hrc & Hg1 & _).
    destruct (reached_fits adds _ _ _ idx gen Ha Hc ltac:(lia) Hrc) as [Hf1 Hf2].
    destruct (reached_fits adds _ _ _ i g Ha Hc Hg Hr) as [Hf3 Hf4].
    assert (Had' : if decide (make_id gen idx = make_id g i) then
        forall p, r = Continue -> period t = Some p -> next_expiration t' = next_expiration t + p /\ period t' = Some p
      else same_schedule t t').
    { destruct (decide ((i, g) = (idx, gen))) as [[= -> ->]|Hne]; [by rewrite decide_True|].
      rewrite decide_False; [done|]. intros E. destruct (make_id_inj gen idx g i) as [-> ->]; try done. }
    destruct again as [k'|]; [|exact Had']. destruct (settle_again _ _ _ _ _ _ _ _ _ Hs) as (-> & _). cbn [settle_event].
    case_decide; [|done]. intros p. by apply Had'.
Qed.



Lemma step_reached adds s ev s' i g : sys_ok adds s -> hp_step s ev s' ->
  count (match added_of ev with Some x => x :: adds | None => adds end) < 2 ^ 32 ->
  reached (inner s) i g -> reached (inner s') i g.
Proof.
  intros [Ha Hse Hw] Hst Hc Hr.
  destruct Hst as [s now e cb m id Hn Hadd|s at_ p cb m id Hadd|s id m b Hrm|s id m He|s id m b Hd|s
    |s n Hn|s now Hwk Hn|s m out Hwk Hp|s idx gen cb k r now m again Hwk Hn Hs|s target now Hwk Hn Ht|s Hwk]; try done; cbn [inner set_field].
  - destruct (allocate_arena adds (worker s) (seen s) (inner s) (mkEntry (now + e) None true false (Some cb)) cb)
      as (m1 & j & h & Hal1 & _ & _ & _ & _ & _ & _ & _ & Hre); [done|unfold count in *; cbn in *; lia|done|done|].
    unfold add_one_shot in Hadd. rewrite Hal1 in Hadd. injection Hadd as <- <-. by apply Hre.
  - destruct (allocate_arena adds (worker s) (seen s) (inner s) (mkEntry at_ (Some p) true false (Some cb)) cb)
      as (m1 & j & h & Hal1 & _ & _ & _ & _ & _ & _ & _ & Hre); [done|unfold count in *; cbn in *; lia|done|done|].
    unfold add_recurring in Hadd. rewrite Hal1 in Hadd. injection Hadd as <- <-. by apply Hre.
  - pose proof (deallocate_evolves (inner s) id) as [Hev _]. unfold remove in Hrm. rewrite Hrm in Hev. by apply Hev.
  - pose proof (set_enabled_evolves (inner s) id true) as [Hev _]. unfold enable in He. rewrite He in Hev. by apply Hev.
  - pose proof (set_enabled_evolves (inner s) id false) as [Hev _]. unfold disable in Hd. rewrite Hd in Hev. by apply Hev.
  - pose proof (poll_evolves (inner s) (seen s)) as [Hev _]. rewrite Hp in Hev. by apply Hev.
  - destruct (stop (inner s)) eqn:Hst; [unfold settle in Hs; rewrite Hst in Hs; by injection Hs as <- <-|].
    destruct (settle_evolves (inner s) idx gen cb k r now Hst) as [[Hev _] _]. rewrite Hs in Hev. by apply Hev.
Qed.

Lemma run_app s tr1 s1 tr2 s2 : hp_run s tr1 s1 -> hp_run s1 tr2 s2 -> hp_run s (tr1 ++ tr2) s2.
Proof.
  intros H1 H2. induction H2 as [|s1 tr2 s2 ev s3 H2 IH Hs]; [by rewrite app_nil_r|].
  rewrite app_assoc. by apply (run_step s _ s2); [apply IH|].
Qed.

Definition is_return (id : Z) (ev : Event) : bool :=
  match ev with Returned id' _ | Recalled id' _ _ => id' =? id | _ => false end.

(** How often the callback of [id] has returned. *)
Definition returns (id : Z) (tr : list Event) : Z := Z.of_nat (length (List.filter (is_return id) tr)).

Lemma returns_snoc id tr ev : returns id (tr ++ [ev]) = returns id tr + bool_to_Z (is_return id ev).
Proof. unfold returns. rewrite List.filter_app, length_app. cbn. destruct (is_return id ev); cbn; lia. Qed.

Lemma run_live start tr0 s tr s' i g :
  hp_run (system_new start) tr0 s -> hp_run s tr s' -> count (adds_of (tr0 ++ tr)) < 2 ^ 32 ->
  0 <= g -> reached (inner s) i g ->
  reached (inner s') i g /\ forall t', live (inner s') i g t' -> stop (inner s') = false ->
    stop (inner s) = false /\ exists t, live (inner s) i g t /\
      forall p, period t = Some p -> (forall r, Returned (make_id g i) r ∈ tr -> r = Continue) ->
        next_expiration t' = next_expiration t + p * returns (make_id g i) tr /\ period t' = Some p.
Proof.
  intros H0 Hr. revert H0. induction Hr as [s|s tr s1 ev s2 Hr IH Hs]; intros H0 Hc Hg Hre.
  { split; [done|]. intros t' Hl Hns. split; [done|]. exists t'. split; [done|]. intros p Hp _. split; [|done].
    cbn. unfold returns. cbn. lia. }
  rewrite app_assoc in Hc. pose proof (run_count _ _ Hc) as Hc1. destruct (IH H0 Hc1 Hg Hre) as [Hre1 IHl].
  pose proof (run_ok start _ _ (run_app _ _ _ _ _ H0 Hr) Hc1) as Hok. rewrite adds_snoc in Hc.
  split; [by apply (step_reached _ _ _ _ _ _ Hok Hs Hc)|]. intros t' Hl Hns.
  destruct (step_live _ _ _ _ _ _ _ Hok Hs Hc Hg Hre1 Hl Hns) as (Hns1 & t1 & Hl1 & Hstep).
  destruct (IHl t1 Hl1 Hns1) as (Hns0 & t & Hlt & Hrest). split; [done|]. exists t. split; [done|].
  intros p Hp Hall. destruct (Hrest p Hp) as [He Hp1]; [intros r Hin; apply Hall; apply elem_of_app; by left|].
  rewrite returns_snoc. destruct ev as [|id cb|id|id cb now|id r|id cb now]; cbn [is_return bool_to_Z];
    try (destruct Hstep as [H1 H2]; rewrite H1, H2, He; split; [lia|done]).
  all: case_decide as E.
  all: try (rewrite (proj2 (Z.eqb_neq _ _) E); destruct Hstep as [H1 H2]; rewrite H1, H2, He; cbn [bool_to_Z]; split; [lia|done]).
  - subst id. rewrite Z.eqb_refl. destruct (Hstep p) as [H1 H2]; [apply Hall, elem_of_app; right; by left|done|].
    rewrite H1, H2, He. cbn [bool_to_Z]. split; [lia|done].
  - subst id. rewrite Z.eqb_refl. destruct (Hstep p) as [H1 H2]; [done|].
    rewrite H1, H2, He. cbn [bool_to_Z]. split; [lia|done].
Qed.

Lemma deallocate_dead m i g t : fits 32 g -> fits 32 i -> ~ live (fst (deallocate m (make_id g i))) i g t.
Proof.
  intros Hg Hi (s & Hs & Hgs & Ht). unfold deallocate in Hs. destruct (make_id_parts g i Hg Hi) as [Eg Ei].
  rewrite Ei, Eg in Hs. destruct (aget (slots m) i) as [s0|] eqn:H0; [|cbn in Hs; congruence].
  destruct (Z.eqb_spec (generation s0) g); cbn [andb] in Hs; [|cbn in Hs; congruence].
  case_bool_decide as Hsome; cbn [fst] in Hs.
  - cbn in Hs. rewrite (aget_insert _ _ _ _ _ H0), decide_True in Hs by done. injection Hs as <-. done.
  - destruct Hsome. exists t. congruence.
Qed.

(** The callback a step begins: the one taken off the queue, or the one that
    returned and is called again to catch up. *)
Definition begun (ev : Event) : option (Z * Z * Z) :=
  match ev with Began id cb now | Recalled id cb now => Some (id, cb, now) | _ => None end.

(** [due] is of the state the worker leaves the lock in, callback in hand. *)
Lemma begun_inv adds s ev id cb now s' : sys_ok adds s -> hp_step s ev s' -> begun ev = Some (id, cb, now) ->
  exists i g, id = make_id g i /\ due (inner s') now i g /\ (id, cb) ∈ adds /\ stop (inner s') = false /\ now <= clock s'.
Proof.
  intros [Ha Hse _] Hs. destruct Hs as [| | | | | | | |s m out Hwk Hp|s idx gen cb' k r now' m again Hwk Hn Hs| |]; try done; cbn [inner clock set_field].
  - rewrite Hwk in Ha. destruct (poll_ok _ _ _ _ _ Ha Hp) as [_ Hout].
    destruct out as [|i g [cb'|]|]; try done. cbn [poll_event begun]. intros [= <- <- <-].
    destruct Hout as (cb0 & [= <-] & Hdue & Hin). exists i, g. split_and!; [done|by apply (poll_due _ _ _ _ _ _ Hp)|done| |done].
    pose proof (poll_stop (inner s) (seen s)) as Hss. rewrite Hp in Hss. cbn in Hss. rewrite Hss.
    destruct (stop (inner s)) eqn:E; [|done]. unfold poll in Hp. by rewrite E in Hp.
  - destruct again as [k'|]; [|done]. cbn [settle_event begun]. intros [= <- <- <-].
    destruct (settle_again _ _ _ _ _ _ _ _ _ Hs) as (-> & Hdue & Hst & _). exists idx, gen. rewrite Hwk in Ha.
    destruct (a_call _ _ _ _ Ha _ _ _ _ eq_refl) as (Hin & _). split_and!; [done|done|done| |lia].
    destruct (settle_evolves (inner s) idx gen cb' k Continue now' Hst) as [_ Hss]. by rewrite Hs in Hss.
Qed.

Lemma removed_inv s id s' : hp_step s (Removed id) s' -> exists m b, remove (inner s) id = (m, b) /\ inner s' = m.
Proof.
  intros Hs. remember (Removed id) as ev eqn:E. destruct Hs as [| |s id' m b Hrm| | | | | |? ? out|? ? ? ? ? ? ? ? again| |]; try done.
  - injection E as ->. by exists m, b.
  - by destruct out as [|? ? []|].
  - by destruct again.
Qed.

Lemma prefix_count tr1 tr2 : count (adds_of (tr1 ++ tr2)) < 2 ^ 32 -> count (adds_of tr1) < 2 ^ 32.
Proof. unfold adds_of, count. rewrite omap_app, reverse_app, length_app. lia. Qed.

Lemma elem_adds id cb tr : (id, cb) ∈ adds_of tr <-> Added id cb ∈ tr.
Proof.
  unfold adds_of. rewrite elem_of_reverse, list_elem_of_omap. split.
  - intros (ev & Hin & Hev). destruct ev; cbn in Hev; simplify_eq. done.
  - intros Hin. by eexists.
Qed.

(** C31: through any interleaving of the threads that use it with the worker
    (and fewer than 2^32 timers ever added), the manager stays consistent: the
    free list is exactly the empty slots, identifiers handed out are all
    different, a timer is in the queue exactly when it is marked so and then
    once and after its expiration, and a callback is in its slot, out with the
    worker, or was dropped by a stop. *)
Theorem hp_reachable_invariant start tr s :
  hp_run (system_new start) tr s -> count (adds_of tr) < 2 ^ 32 ->
  arena (adds_of tr) (worker s) (clock s) (inner s).
Proof. intros Hr Hc. destruct (run_ok start tr s Hr Hc) as [Ha Hse _]. by apply (arena_clock _ _ (seen s)). Qed.


(** A demonstration: one timer added, run and returned. *)
Definition demo_trace : list Event := [Added (make_id 1 0) 7; Tau; Tau; Began (make_id 1 0) 7 10; Returned (make_id 1 0) Continue].

(** Steps by evaluation. *)
Lemma add_by s at_ p cb m id ev s' :
  add_recurring (inner s) at_ p cb = Some (m, id) -> ev = Added id cb ->
  s' = s <| inner := m |> <| wakes ::= S |> -> hp_step s ev s'.
Proof. intros H -> ->. by eapply step_add_recurring. Qed.

Lemma one_shot_by s now e cb m id ev s' :
  clock s <= now -> add_one_shot (inner s) now e cb = Some (m, id) -> ev = Added id cb ->
  s' = s <| inner := m |> <| wakes ::= S |> <| clock := now |> -> hp_step s ev s'.
Proof. intros H0 H -> ->. by eapply step_add_one_shot. Qed.

Lemma wake_by s n s' : wakes s = S n -> s' = s <| wakes := n |> <| added := true |> -> hp_step s Tau s'.
Proof. intros H ->. by eapply step_wake_up. Qed.

Lemma remove_by s id m b s' : remove (inner s) id = (m, b) -> s' = s <| inner := m |> -> hp_step s (Removed id) s'.
Proof. intros H ->. by eapply step_remove. Qed.

Lemma read_by s now s' : worker s = Polling -> clock s <= now ->
  s' = s <| worker := Scanning |> <| clock := now |> <| seen := now |> -> hp_step s Tau s'.
Proof. intros H0 H1 ->. by apply step_read. Qed.

Lemma poll_by s m out ev s' :
  worker s = Scanning -> poll (inner s) (seen s) = (m, out) -> ev = poll_event (seen s) out ->
  s' = s <| inner := m |> <| worker := after_poll out |> <| added ::= (fun b => poll_added b out) |> ->
  hp_step s ev s'.
Proof. intros H0 H1 -> ->. by apply step_poll. Qed.

Lemma return_by s now r idx gen cb k m again ev s' :
  worker s = Calling idx gen cb k -> clock s <= now -> settle (inner s) idx gen cb k r now = (m, again) ->
  ev = settle_event idx gen cb r now again ->
  s' = s <| inner := m |> <| worker := after_settle idx gen cb again |> <| clock := now |> -> hp_step s ev s'.
Proof. intros H0 H1 H2 -> ->. by eapply step_return. Qed.

Ltac by_evaluation := first [cbn; lia | vm_compute; reflexivity].

Lemma demo_run : exists s, hp_run (system_new 0) demo_trace s.
Proof.
  eexists. eapply run_cons; [eapply (add_by _ 10 5 7); by_evaluation|].
  eapply run_cons; [eapply wake_by; by_evaluation|].
  eapply run_cons; [eapply (read_by _ 10); by_evaluation|].
    eapply run_cons; [eapply poll_by; by_evaluation|].
  eapply run_cons; [eapply (return_by _ 11 Continue); by_evaluation|]. constructor.
Qed.

Lemma hp_reachable_invariant_witness :
  exists s, hp_run (system_new 0) demo_trace s /\ arena (adds_of demo_trace) (worker s) (clock s) (inner s).
Proof.
  destruct demo_run as [s Hs]. exists s. split; [exact Hs|].
  apply (hp_reachable_invariant 0 demo_trace s Hs). vm_compute. reflexivity.
Defined.

(** C30: a callback the worker begins, whether taken off the queue or called
    again to catch up, belongs to a timer that was added with it; when the
    worker leaves the lock with the callback in hand that timer is live and
    enabled and its expiration is no later than the clock reading the worker
    decided by; and it has not been removed since it was added, whatever other
    threads did in between.  This is of runs in which fewer than 2^32 timers
    are ever added, so that no slot's generation wraps and an identifier of a
    removed timer does not come back to life. *)
Theorem hp_calls_live_due start tr ev id cb now s' :
  hp_run (system_new start) (tr ++ [ev]) s' -> begun ev = Some (id, cb, now) -> count (adds_of tr) < 2 ^ 32 ->
  (exists i g, id = make_id g i /\ due (inner s') now i g /\ now <= clock s') /\
  Added id cb ∈ tr /\
  forall tr1 tr2, tr = tr1 ++ Added id cb :: tr2 -> Removed id ∉ tr2.
Proof.
  intros Hfull Hev Hc. pose proof Hfull as Hr. apply run_snoc_inv in Hr as (s & Hr & Hs). pose proof (run_ok _ _ _ Hr Hc) as Hok.
  destruct (begun_inv _ _ _ _ _ _ _ Hok Hs Hev) as (i & g & -> & Hdue & Hin & Hns & Hnow).
  split_and!; [by exists i, g|by apply elem_adds|].
  assert (Hc' : count (adds_of (tr ++ [ev])) < 2 ^ 32) by (rewrite adds_snoc; by destruct ev).
  pose proof (run_ok _ _ _ Hfull Hc') as Hok'. clear Hc Hr Hs Hok s.
  intros tr1 tr2 -> [a [b ->]]%list_elem_of_split.
  set (pre := tr1 ++ Added (make_id g i) cb :: a).
  assert (Htr : (tr1 ++ Added (make_id g i) cb :: a ++ Removed (make_id g i) :: b) ++ [ev] = (pre ++ [Removed (make_id g i)]) ++ b ++ [ev]).
  { unfold pre. by rewrite <- !app_assoc; cbn; rewrite <- !app_assoc. }
  rewrite Htr in Hfull, Hc', Hok'. destruct (run_app_inv _ _ _ _ Hfull) as (sR & HrR & Hrb).
  apply run_snoc_inv in HrR as HrR'. destruct HrR' as (s0 & Hr0 & Hrm).
  destruct Hdue as (sl & t & Hsl & Hg & Ht & _). destruct (a_slot _ _ _ _ (ok_arena _ _ Hok') _ _ Hsl) as [_ Hlv].
  destruct (Hlv t Ht) as [Hg1 _]. rewrite Hg in Hg1.
  destruct (reached_fits _ _ _ _ i g (ok_arena _ _ Hok') Hc' ltac:(lia) ltac:(exists sl; split; [done|lia])) as [Hfi Hfg].
  pose proof (prefix_count _ _ Hc') as HcR. pose proof (run_count _ _ HcR) as Hc0.
  pose proof (run_ok _ _ _ Hr0 Hc0) as Hok0.
  destruct (a_adds _ _ _ _ (ok_arena _ _ Hok0) (make_id g i) cb) as (i' & g' & Hid & Hg' & Hre0).
  { apply elem_adds. unfold pre. apply elem_of_app. right. by left. }
  destruct (reached_fits _ _ _ _ i' g' (ok_arena _ _ Hok0) Hc0 ltac:(lia) Hre0) as [Hfi' Hfg'].
  destruct (make_id_inj g i g' i' Hfg Hfi Hfg' Hfi' Hid) as [<- <-].
  rewrite adds_snoc in HcR. pose proof (step_reached _ _ _ _ _ _ Hok0 Hrm HcR Hre0) as HreR.
  destruct (run_live start _ sR (b ++ [ev]) s' i g HrR Hrb Hc' ltac:(lia) HreR) as [_ Hback].
  destruct (Hback t) as (_ & t0 & Hl0 & _); [by exists sl|done|].
  apply removed_inv in Hrm as (m' & bb & Hrm & HmR). rewrite HmR in Hl0. unfold remove in Hrm.
  apply (deallocate_dead (inner s0) i g t0); [done..|]. by rewrite Hrm.
Qed.

(** C32: no wake-up is lost: whenever the worker sleeps with no notification
    pending or in flight, every enabled timer that is not already in the queue
    expires no earlier than the instant it sleeps to (and there is none when
    it sleeps indefinitely), however additions raced with its going to sleep. *)
Theorem hp_never_oversleeps start tr s w i g t :
  hp_run (system_new start) tr s -> count (adds_of tr) < 2 ^ 32 ->
  worker s = Waiting w -> added s = false -> wakes s = 0%nat ->
  live (inner s) i g t -> enabled t = true -> in_fifo t = false ->
  exists target, w = Some target /\ target <= next_expiration t.
Proof.
  intros Hr Hc Hw Ha Hwk (sl & Hs & _ & Ht) He Hf.
  by apply (ok_wait _ _ (run_ok _ _ _ Hr Hc) w Hw Ha Hwk i sl t).
Qed.

(** Asleep until the timer at 10. *)
Definition asleep_trace : list Event := [Added (make_id 1 0) 7; Tau; Tau; Tau].

Definition asleep_timer : TimerEntry := mkEntry 10 (Some 5) true false (Some 7).

Definition asleep : System :=
  mkSystem (mkInner [mkSlot 1 (Some asleep_timer)] [] [] false) (Waiting (Some 10)) false 0 3 3.

Lemma asleep_run : hp_run (system_new 0) asleep_trace asleep.
Proof.
  eapply run_cons; [eapply (add_by _ 10 5 7); by_evaluation|].
  eapply run_cons; [eapply wake_by; by_evaluation|].
  eapply run_cons; [eapply (read_by _ 3); by_evaluation|].
    eapply run_cons; [eapply poll_by; by_evaluation|]. constructor.
Qed.

Lemma asleep_live : live (inner asleep) 0 1 asleep_timer.
Proof. eexists. by split_and!. Qed.

Lemma hp_never_oversleeps_witness : exists target, worker asleep = Waiting (Some target) /\ target <= 10.
Proof.
  destruct (hp_never_oversleeps 0 asleep_trace asleep (Some 10) 0 1 asleep_timer asleep_run
    ltac:(vm_compute; reflexivity) eq_refl eq_refl eq_refl asleep_live eq_refl eq_refl) as (target & Ht & Hle).
  exists target. split; [|exact Hle]. rewrite <- Ht. reflexivity.
Defined.

(** a recurring timer does not drift: as long as its callback answers
    Continue, each return (the catch-up calls included) moves its expiration
    by exactly its period, however late the worker ran it and whatever
    happened to the other timers meanwhile. *)
Theorem hp_recurring_no_drift start tr0 s tr s' i g t t' p :
  hp_run (system_new start) tr0 s -> hp_run s tr s' -> count (adds_of (tr0 ++ tr)) < 2 ^ 32 -> 0 <= g ->
  live (inner s) i g t -> period t = Some p -> live (inner s') i g t' -> stop (inner s') = false ->
  (forall r, Returned (make_id g i) r ∈ tr -> r = Continue) ->
  next_expiration t' = next_expiration t + p * returns (make_id g i) tr.
Proof.
  intros H0 Hr Hc Hg Hl Hp Hl' Hst Hall. pose proof Hl as (sl & Hs & Hgs & Ht).
  destruct (run_live start tr0 s tr s' i g H0 Hr Hc Hg) as [_ Hback]; [exists sl; split; [done|lia]|].
  destruct (Hback t' Hl' Hst) as (_ & t1 & (sl1 & Hs1 & _ & Ht1) & Hrest).
  assert (t1 = t) as -> by congruence. by apply Hrest.
Qed.

(** Woken late: the callback runs for 10 and, to catch up, for 15. *)
Definition late_trace : list Event :=
  [Tau; Tau; Began (make_id 1 0) 7 40; Recalled (make_id 1 0) 7 40; Recalled (make_id 1 0) 7 41].

Lemma wakeup_by s target now s' : worker s = Waiting (Some target) -> clock s <= now -> target <= now ->
  s' = s <| worker := Polling |> <| clock := now |> -> hp_step s Tau s'.
Proof. intros H0 H1 H2 ->. apply (step_wakeup s target now); auto. Qed.

Lemma late_run : exists s, hp_run asleep late_trace s /\ stop (inner s) = false /\
  live (inner s) 0 1 (mkEntry 20 (Some 5) true false None).
Proof.
  eexists. split; [|split].
  - eapply run_cons; [eapply (wakeup_by _ _ 40); by_evaluation|].
    eapply run_cons; [eapply (read_by _ 40); by_evaluation|].
    eapply run_cons; [eapply poll_by; by_evaluation|].
    eapply run_cons; [eapply (return_by _ 40 Continue); by_evaluation|].
    eapply run_cons; [eapply (return_by _ 41 Continue); by_evaluation|]. constructor.
  - reflexivity.
  - eexists. by split_and!.
Qed.

(** The second of the late calls. *)
Lemma hp_calls_live_due_witness :
  Added (make_id 1 0) 7 ∈ asleep_trace /\ exists s i g, make_id 1 0 = make_id g i /\ due (inner s) 40 i g.
Proof.
  destruct late_run as (s & Hr & _ & _).
  change late_trace with ([Tau; Tau; Began (make_id 1 0) 7 40; Recalled (make_id 1 0) 7 40] ++ [Recalled (make_id 1 0) 7 41]) in Hr.
  apply run_snoc_inv in Hr as (s1 & Hr & _). pose proof (run_app _ _ _ _ _ asleep_run Hr) as Hall.
  destruct (hp_calls_live_due 0 (asleep_trace ++ [Tau; Tau; Began (make_id 1 0) 7 40]) (Recalled (make_id 1 0) 7 40) (make_id 1 0) 7 40 s1) as ((i & g & H1 & H2 & _) & H3 & _);
    [exact Hall|reflexivity|vm_compute; reflexivity|].
  split; [by left|]. by exists s1, i, g.
Defined.

Lemma hp_recurring_no_drift_witness : 20 = 10 + 5 * returns (make_id 1 0) late_trace.
Proof.
  destruct late_run as (s & Hr & Hst & Hl).
  apply (hp_recurring_no_drift 0 asleep_trace asleep late_trace s 0 1 asleep_timer _ 5 asleep_run Hr
    ltac:(vm_compute; reflexivity) ltac:(lia) asleep_live eq_refl Hl Hst).
  intros r Hin. unfold late_trace in Hin.
  repeat (apply elem_of_cons in Hin as [Hin|Hin]; [try discriminate Hin; injection Hin as ->; reflexivity|]).
  apply not_elem_of_nil in Hin. destruct Hin.
Defined.

(** An expired timer can be left waiting: when the entry at the head of
    the queue turns out to be stale (its timer was removed while queued), the
    worker goes to sleep without looking at the rest of the queue, and since a
    removal notifies nobody it may sleep indefinitely with an enabled timer
    expired in the queue. *)
Theorem hp_stale_head_stalls : exists tr s t,
  hp_run (system_new 0) tr s /\ worker s = Waiting None /\ added s = false /\ wakes s = 0%nat /\
  live (inner s) 2 1 t /\ enabled t = true /\ in_fifo t = true /\ next_expiration t < clock s.
Proof.
  eexists _, _, (mkEntry 10 None true true (Some 3)). split.
  - eapply run_cons; [eapply (one_shot_by _ 0 10 1); by_evaluation|].
    eapply run_cons; [eapply (one_shot_by _ 0 10 2); by_evaluation|].
    eapply run_cons; [eapply (one_shot_by _ 0 10 3); by_evaluation|].
    do 3 (eapply run_cons; [eapply wake_by; by_evaluation|]).
    eapply run_cons; [eapply (read_by _ 10); by_evaluation|].
    eapply run_cons; [eapply poll_by; by_evaluation|].
    eapply run_cons; [eapply (remove_by _ (make_id 1 1)); by_evaluation|].
    eapply run_cons; [eapply (return_by _ 11 Continue); by_evaluation|].
    eapply run_cons; [eapply (read_by _ 12); by_evaluation|].
    eapply run_cons; [eapply poll_by; by_evaluation|]. constructor.
  - split_and!; [reflexivity..| |reflexivity|reflexivity|reflexivity]. eexists. split_and!; reflexivity.
Qed.

End HpTimerClaims.
