(* ===== verification/BlockNode.v ===== *)
(** * Disk images and copy-on-write overlays (src/src/block_node.rs, src/src/cow_disk.rs)

    Nodes are byte-addressed images: a raw file, or an overlay file that holds
    the sectors written so far over a backing node.  The host's files are a
    finite map from paths to bytes; a node keeps the path its handle was opened
    at.  Operations that fail return the error next to the files as the failed
    operation left them.  Host I/O itself succeeds: the errors are those of
    the source and the end-of-file and missing-file errors of the operating
    system. *)

From stdpp Require Import strings sorting.
From S2P Require Import Prelude.

#[local] Open Scope Z_scope.

Module BlockNode.

Inductive IoError : Type := InvalidInput | UnexpectedEof | NotFound | PermissionDenied | NotConnected | InvalidData | OtherError.

Inductive result (A : Type) : Type := Ok (a : A) | Err (e : IoError).
Arguments Ok {A} a.
Arguments Err {A} e.

#[export] Instance result_ret : MRet result := @Ok.
#[export] Instance result_bind : MBind result := fun A B f r => match r with Ok a => f a | Err e => Err e end.

(** ** Files *)

Notation FS := (gmap string (list Z)).

Definition open (fs : FS) (path : string) : result (list Z) :=
  match fs !! path with Some f => Ok f | None => Err NotFound end.

(** [seek] and [read_exact]: nothing is read for an empty buffer. *)
Definition read_exact (f : list Z) (off len : Z) : result (list Z) :=
  if len =? 0 then Ok []
  else if off + len <=? Z.of_nat (length f) then Ok (take (Z.to_nat len) (drop (Z.to_nat off) f))
  else Err UnexpectedEof.

(** [seek] and [write_all]: a gap before the data reads as zeroes. *)
Definition write_all (f : list Z) (off : Z) (d : list Z) : list Z :=
  match d with
  | [] => f
  | _ => take (Z.to_nat off) (f ++ replicate (Z.to_nat off) 0) ++ d ++ drop (Z.to_nat off + length d) f
  end.

(** ** Ranges and sectors *)

Definition SECTOR_SIZE : Z := 512.

Definition check_range (size offset len : Z) : result unit :=
  if offset + len <? 2 ^ 64 then if size <? offset + len then Err InvalidInput else Ok tt
  else Err InvalidInput.

Definition sectors_for (offset len : Z) : Z * Z :=
  (offset / SECTOR_SIZE, (offset + len + SECTOR_SIZE - 1) / SECTOR_SIZE).

(** The sectors [first .. last - 1]. *)
Definition sectors (offset len : Z) : list Z :=
  let '(first, last) := sectors_for offset len in seqZ first (last - first).

(** [dst.copy_from_slice(src)] at an offset. *)
Definition copy_at (buf : list Z) (dst : Z) (src : list Z) : list Z :=
  take (Z.to_nat dst) buf ++ src ++ drop (Z.to_nat dst + length src) buf.

Definition slice (l : list Z) (from n : Z) : list Z := take (Z.to_nat n) (drop (Z.to_nat from) l).

(** ** Nodes *)

Inductive Node : Type :=
| RawNode (path : string) (writable : bool) (size : Z)
| CowNode (backing : option Node) (base_path : option string) (overlay_path : string) (dirty : gset Z) (size : Z).

Definition node_size (n : Node) : Z := match n with RawNode _ _ size | CowNode _ _ _ _ size => size end.

Definition raw_open (fs : FS) (path : string) (writable : bool) : result Node :=
  f ← open fs path; Ok (RawNode path writable (Z.of_nat (length f))).

(** The part of the request [[offset, offset + len)] that lies in [lba]. *)
Definition overlap (offset len lba : Z) : Z * Z :=
  let s_off := lba * SECTOR_SIZE in
  (Z.max offset s_off, Z.min (offset + len) (s_off + SECTOR_SIZE)).

(** One whole sector: from the overlay, else from below, else zeroes. *)
Definition read_sector (fs : FS) (below : Z -> Z -> result (list Z)) (overlay_path : string)
    (dirty : gset Z) (lba : Z) : result (list Z) :=
  if decide (lba ∈ dirty) then f ← open fs overlay_path; read_exact f (lba * SECTOR_SIZE) SECTOR_SIZE
  else below (lba * SECTOR_SIZE) SECTOR_SIZE.

Definition read_step (sector : Z -> result (list Z)) (offset len : Z) (buf : result (list Z)) (lba : Z)
  : result (list Z) :=
  buf ← buf;
  s ← sector lba;
  let '(start, stop) := overlap offset len lba in
  Ok (copy_at buf (start - offset) (slice s (start - lba * SECTOR_SIZE) (stop - start))).

Fixpoint node_read (fs : FS) (n : Node) (offset len : Z) : result (list Z) :=
  match n with
  | RawNode path _ size =>
      check_range size offset len ≫= fun _ => f ← open fs path; read_exact f offset len
  | CowNode backing _ overlay_path dirty size =>
      let below := match backing with
                   | Some b => node_read fs b
                   | None => fun _ n => Ok (replicate (Z.to_nat n) 0)
                   end in
      check_range size offset len ≫= fun _ =>
      if len =? 0 then Ok []
      else foldl (read_step (read_sector fs below overlay_path dirty) offset len)
             (Ok (replicate (Z.to_nat len) 0)) (sectors offset len)
  end.

Definition backing_read (fs : FS) (backing : option Node) : Z -> Z -> result (list Z) :=
  match backing with
  | Some b => node_read fs b
  | None => fun _ n => Ok (replicate (Z.to_nat n) 0)
  end.

(** The read-modify-write of one sector. *)
Definition write_step (backing : option Node) (overlay_path : string) (offset : Z) (buf : list Z)
    (st : FS * gset Z * result unit) (lba : Z) : FS * gset Z * result unit :=
  let '(fs, dirty, r) := st in
  match r with
  | Err e => st
  | Ok _ =>
      match read_sector fs (backing_read fs backing) overlay_path dirty lba with
      | Err e => (fs, dirty, Err e)
      | Ok sector =>
          let '(start, stop) := overlap offset (Z.of_nat (length buf)) lba in
          let sector := copy_at sector (start - lba * SECTOR_SIZE) (slice buf (start - offset) (stop - start)) in
          match open fs overlay_path with
          | Err e => (fs, dirty, Err e)
          | Ok f => (<[overlay_path := write_all f (lba * SECTOR_SIZE) sector]> fs, {[lba]} ∪ dirty, Ok tt)
          end
      end
  end.

Definition node_write (fs : FS) (n : Node) (offset : Z) (buf : list Z) : FS * Node * result unit :=
  let len := Z.of_nat (length buf) in
  match check_range (node_size n) offset len with
  | Err e => (fs, n, Err e)
  | Ok _ =>
      match n with
      | RawNode path writable size =>
          if writable then
            match open fs path with
            | Err e => (fs, n, Err e)
            | Ok f => (<[path := write_all f offset buf]> fs, n, Ok tt)
            end
          else (fs, n, if len =? 0 then Ok tt else Err OtherError)
      | CowNode backing base_path overlay_path dirty size =>
          if len =? 0 then (fs, n, Ok tt)
          else
            let '(fs, dirty, r) := foldl (write_step backing overlay_path offset buf) (fs, dirty, Ok tt) (sectors offset len) in
            (fs, CowNode backing base_path overlay_path dirty size, r)
      end
  end.

Definition node_discard (fs : FS) (n : Node) (offset len : Z) : FS * Node * result unit :=
  match check_range (node_size n) offset len with
  | Err e => (fs, n, Err e)
  | Ok _ =>
      match n with
      | RawNode _ _ _ => node_write fs n offset (replicate (Z.to_nat len) 0)
      | CowNode backing base_path overlay_path dirty size =>
          if len =? 0 then (fs, n, Ok tt)
          else (fs, CowNode backing base_path overlay_path (dirty ∖ list_to_set (sectors offset len)) size, Ok tt)
      end
  end.

(** ** Allocation status *)

Inductive BlockState : Type := Data | Zero | Allocated.

#[export] Instance BlockState_eq_dec : EqDecision BlockState.
Proof. solve_decision. Defined.

Record BlockStatus : Type := { state : BlockState; backing_offset : option Z; status_len : Z }.

Definition sector_state (backing : option Node) (dirty : gset Z) (lba : Z) : BlockState :=
  if decide (lba ∈ dirty) then Data else match backing with Some _ => Allocated | None => Zero end.

(** The last sector of the run that starts at [lba]; a request has at most
    one more sector than it has sectors' worth of bytes. *)
Fixpoint run_end (fuel : nat) (st : Z -> BlockState) (end_ : Z) (s : BlockState) (lba : Z) : Z :=
  match fuel with
  | O => lba
  | S fuel' =>
      let next := lba + 1 in
      if (end_ <=? next * SECTOR_SIZE) || negb (bool_decide (st next = s)) then lba
      else run_end fuel' st end_ s next
  end.

Definition block_status (n : Node) (offset len : Z) : result BlockStatus :=
  check_range (node_size n) offset len ≫= fun _ =>
  match n with
  | RawNode _ _ _ => Ok {| state := Data; backing_offset := None; status_len := len |}
  | CowNode backing _ _ dirty _ =>
      if len =? 0 then Ok {| state := Data; backing_offset := None; status_len := 0 |}
      else
        let '(first, _) := sectors_for offset len in
        let st := sector_state backing dirty in
        let s := st first in
        let lba := run_end (Z.to_nat (len / SECTOR_SIZE + 2)) st (offset + len) s first in
        let covered := Z.min ((lba + 1) * SECTOR_SIZE) (offset + len) - offset in
        Ok {| state := s; backing_offset := match s with Allocated => Some offset | _ => None end;
              status_len := covered |}
  end.

Definition dirty_count (n : Node) : nat :=
  match n with CowNode _ _ _ dirty _ => size dirty | RawNode _ _ _ => 0 end.

(** ** The dirty-sector sidecar *)

Fixpoint le_bytes (n : nat) (v : Z) : list Z :=
  match n with O => [] | S n' => u8 v :: le_bytes n' (v .>> 8) end.

Fixpoint le_value (l : list Z) : Z :=
  match l with [] => 0 | b :: l' => b + 256 * le_value l' end.

Definition sidecar_path_for (overlay_path : string) : string := overlay_path +:+ ".dirty".

(** [path.with_extension("dirty.tmp")] of a sidecar's path. *)
Definition sidecar_tmp (overlay_path : string) : string := overlay_path +:+ ".dirty.tmp".

Fixpoint load_sectors (count : Z) (l : list Z) : gset Z :=
  match l with
  | b0 :: b1 :: b2 :: b3 :: b4 :: b5 :: b6 :: b7 :: l' =>
      if 0 <? count then {[le_value [b0; b1; b2; b3; b4; b5; b6; b7]]} ∪ load_sectors (count - 1) l' else ∅
  | _ => ∅
  end.

(** The set is allocated for the count the file names before its sectors are
    read, which the host may refuse for a count no file could hold; a sidecar
    that [save_dirty_sidecar] wrote names the sectors that follow. *)
Definition load_dirty_sidecar (fs : FS) (path : string) : gset Z :=
  match fs !! path with
  | None => ∅
  | Some f =>
      match read_exact f 0 8 with
      | Err _ => ∅
      | Ok c => load_sectors (le_value c) (drop 8 f)
      end
  end.

(** The set is written in the order [order] the host's set iterates in, to a
    temporary file renamed over the sidecar. *)
Definition save_dirty_sidecar (fs : FS) (overlay_path : string) (order : list Z) : FS :=
  let f := le_bytes 8 (Z.of_nat (length order)) ++ concat (map (le_bytes 8) order) in
  let tmp := sidecar_tmp overlay_path in
  delete tmp (<[sidecar_path_for overlay_path := f]> (<[tmp := f]> fs)).

(** ** Opening, flushing, committing *)

Definition derive_base_path (overlay_path : string) : option string :=
  let n := (String.length overlay_path - 8)%nat in
  if decide (String.substring n 8 overlay_path = ".overlay" /\ (8 <= String.length overlay_path)%nat)
  then Some (String.substring 0 n overlay_path) else None.

Definition cow_new (fs : FS) (backing : option Node) (overlay_path : string) (size : Z) : FS * Node :=
  let fs := match fs !! overlay_path with Some _ => fs | None => <[overlay_path := []]> fs end in
  let dirty := load_dirty_sidecar fs (sidecar_path_for overlay_path) in
  (fs, CowNode backing (derive_base_path overlay_path) overlay_path dirty size).

Definition with_base_path (n : Node) (base_path : string) : Node :=
  match n with
  | CowNode backing _ overlay_path dirty size => CowNode backing (Some base_path) overlay_path dirty size
  | _ => n
  end.

(** [order] is the order the host's hash set of a given content iterates in. *)
Fixpoint node_flush (order : gset Z -> list Z) (fs : FS) (n : Node) : FS :=
  match n with
  | RawNode _ _ _ => fs
  | CowNode backing _ overlay_path dirty _ =>
      let fs := save_dirty_sidecar fs overlay_path (order dirty) in
      match backing with Some b => node_flush order fs b | None => fs end
  end.

Definition commit_step (overlay_path base_path : string) (st : FS * result nat) (lba : Z) : FS * result nat :=
  let '(fs, r) := st in
  match r with
  | Err _ => st
  | Ok committed =>
      match (f ← open fs overlay_path; read_exact f (lba * SECTOR_SIZE) SECTOR_SIZE) with
      | Err e => (fs, Err e)
      | Ok buf =>
          match open fs base_path with
          | Err e => (fs, Err e)
          | Ok base => (<[base_path := write_all base (lba * SECTOR_SIZE) buf]> fs, Ok (S committed))
          end
      end
  end.

Definition node_commit (order : gset Z -> list Z) (fs : FS) (n : Node) : FS * Node * result nat :=
  match n with
  | RawNode _ _ _ => (fs, n, Ok 0%nat)
  | CowNode backing base_path overlay_path dirty size =>
      match base_path with
      | None => (fs, n, Err OtherError)
      | Some base =>
          match open fs base with
          | Err e => (fs, n, Err e)
          | Ok _ =>
              let '(fs, r) := foldl (commit_step overlay_path base) (fs, Ok 0%nat) (order dirty) in
              match r with
              | Err e => (fs, n, Err e)
              | Ok committed =>
                  (<[overlay_path := []]> fs, CowNode backing base_path overlay_path ∅ size, Ok committed)
              end
          end
      end
  end.

Definition node_rollback (fs : FS) (n : Node) : FS * Node :=
  match n with
  | RawNode _ _ _ => (fs, n)
  | CowNode backing base_path overlay_path _ size =>
      (delete (sidecar_path_for overlay_path) (<[overlay_path := []]> fs),
       CowNode backing base_path overlay_path ∅ size)
  end.

Definition export_overlay (fs : FS) (n : Node) (dest : string) : FS * result (list Z) :=
  match n with
  | RawNode _ _ _ => (fs, Ok [])
  | CowNode _ _ overlay_path dirty _ =>
      match open fs overlay_path with
      | Err e => (delete dest fs, Err e)
      | Ok f => (<[dest := f]> fs, Ok (merge_sort Z.le (elements dirty)))
      end
  end.

(** The copy removes its destination first, so a source that is the overlay
    itself is lost. *)
Definition import_overlay (fs : FS) (n : Node) (source : string) (dirty : list Z) : FS * Node * result unit :=
  match n with
  | RawNode _ _ _ => (fs, n, Ok tt)
  | CowNode backing base_path overlay_path _ size =>
      let adopt f := (<[overlay_path := f]> fs, CowNode backing base_path overlay_path (list_to_set dirty) size, Ok tt) in
      match fs !! source with
      | Some f => if decide (source = overlay_path) then (delete overlay_path fs, n, Err NotFound) else adopt f
      | None => adopt []
      end
  end.

(** ** Mounting *)

Inductive ImageKind : Type := Disk | Cdrom.

#[export] Instance ImageKind_eq_dec : EqDecision ImageKind.
Proof. solve_decision. Defined.

(** [open_image] of a path whose extension is not [.chd]. *)
Definition open_file_image (fs : FS) (path : string) (kind : ImageKind) (overlay : bool)
    (overlay_path : option string) : FS * result Node :=
  let cdrom := bool_decide (kind = Cdrom) in
  if overlay && negb cdrom then
    let overlay_path := match overlay_path with Some p => p | None => path +:+ ".overlay" end in
    match raw_open fs path false with
    | Err e => (fs, Err e)
    | Ok backing =>
        let '(fs, n) := cow_new fs (Some backing) overlay_path (node_size backing) in
        (fs, Ok (with_base_path n path))
    end
  else (fs, raw_open fs path (negb cdrom)).

End BlockNode.
