(* ===== verification/BlockProofs.v ===== *)
(** * What a disk image holds

    [byte_of] reads an image as a function from offsets to bytes; [wf] is what
    opening and writing keep true of an overlay and the files under it. *)

From stdpp Require Import strings sorting.
From S2P Require Import Prelude BlockNode.
Import BlockNode.

#[local] Open Scope Z_scope.

Module BlockProofs.

#[local] Arguments SECTOR_SIZE : simpl never.

(** ** Bytes *)

Definition fbyte (f : list Z) (i : Z) : Z := default 0 (aget f i).

Lemma fbyte_lookup f i : 0 <= i -> fbyte f i = default 0 (f !! Z.to_nat i).
Proof. intros Hi. unfold fbyte, aget. by rewrite (proj2 (Z.leb_le 0 i)). Qed.

(** A run of a list, as the bytes at its offsets. *)
Lemma slice_bytes (l : list Z) off n : 0 <= off -> 0 <= n -> off + n <= Z.of_nat (length l) ->
  take (Z.to_nat n) (drop (Z.to_nat off) l) = map (fbyte l) (seqZ off n).
Proof.
  intros Ho Hn Hl. apply list_eq. intros k. destruct (decide (k < Z.to_nat n)%nat) as [Hk|Hk].
  - rewrite lookup_take_lt, lookup_drop by done. rewrite list_lookup_fmap, lookup_seqZ_lt by lia.
    cbn. rewrite fbyte_lookup by lia. replace (Z.to_nat (off + Z.of_nat k)) with (Z.to_nat off + k)%nat by lia.
    destruct (lookup_lt_is_Some_2 l (Z.to_nat off + k)) as [x Hx]; [lia|]. by rewrite Hx.
  - rewrite !lookup_ge_None_2; [done|rewrite length_map, length_seqZ; lia|rewrite length_take; lia].
Qed.

Lemma copy_at_bytes buf dst src i : 0 <= dst -> dst + Z.of_nat (length src) <= Z.of_nat (length buf) ->
  fbyte (copy_at buf dst src) i =
    if decide (dst <= i < dst + Z.of_nat (length src)) then fbyte src (i - dst) else fbyte buf i.
Proof.
  intros Hd Hl. unfold fbyte, aget. destruct (Z.leb_spec 0 i) as [Hi|Hi]; [|by rewrite decide_False by lia].
  unfold copy_at. case_decide as Hin.
  - rewrite lookup_app_r by (rewrite length_take; lia). rewrite length_take, Nat.min_l by lia.
    rewrite lookup_app_l by lia. rewrite (proj2 (Z.leb_le _ _)) by lia. do 2 f_equal. lia.
  - destruct (decide (i < dst)).
    + rewrite lookup_app_l by (rewrite length_take; lia). by rewrite lookup_take_lt by lia.
    + rewrite lookup_app_r by (rewrite length_take; lia). rewrite length_take, Nat.min_l by lia.
      rewrite lookup_app_r by lia. rewrite lookup_drop. do 2 f_equal. lia.
Qed.

Lemma copy_at_length buf dst src : 0 <= dst -> dst + Z.of_nat (length src) <= Z.of_nat (length buf) ->
  length (copy_at buf dst src) = length buf.
Proof. intros Hd Hl. unfold copy_at. rewrite !length_app, length_take, length_drop. lia. Qed.

Lemma write_all_bytes f off d i : 0 <= off -> 0 <= i ->
  fbyte (write_all f off d) i =
    if decide (off <= i < off + Z.of_nat (length d)) then fbyte d (i - off) else fbyte f i.
Proof.
  intros Ho Hi. unfold write_all. destruct d as [|x d]; [by rewrite decide_False by (cbn; lia)|].
  set (d' := x :: d). rewrite !(fbyte_lookup _ i) by done.
  assert (Hlen : length (take (Z.to_nat off) (f ++ replicate (Z.to_nat off) 0)) = Z.to_nat off).
  { rewrite length_take, length_app, length_replicate. lia. }
  case_decide as Hin.
  - rewrite lookup_app_r by lia. rewrite Hlen, lookup_app_l by lia. rewrite fbyte_lookup by lia. do 2 f_equal. lia.
  - destruct (decide (i < off)).
    + rewrite lookup_app_l by lia. rewrite lookup_take_lt by lia.
      destruct (decide (Z.to_nat i < length f)%nat); [by rewrite lookup_app_l by lia|].
      rewrite lookup_app_r by lia. rewrite lookup_replicate_2 by lia. by rewrite lookup_ge_None_2 by lia.
    + rewrite lookup_app_r by lia. rewrite Hlen, lookup_app_r, lookup_drop by lia. do 2 f_equal. lia.
Qed.

Lemma write_all_length f off d : 0 <= off -> d <> [] ->
  Z.of_nat (length (write_all f off d)) = Z.max (Z.of_nat (length f)) (off + Z.of_nat (length d)).
Proof.
  intros Ho Hd. unfold write_all. destruct d as [|x d]; [done|].
  rewrite !length_app, length_take, length_drop, length_app, length_replicate. lia.
Qed.

Lemma map_seqZ_length (g : Z -> Z) off n : 0 <= n -> Z.of_nat (length (map g (seqZ off n))) = n.
Proof. intros. rewrite length_map, length_seqZ. lia. Qed.

Lemma fbyte_map (g : Z -> Z) off n i : 0 <= i < n -> fbyte (map g (seqZ off n)) i = g (off + i).
Proof.
  intros Hi. rewrite fbyte_lookup, list_lookup_fmap, lookup_seqZ_lt by lia. cbn. f_equal. lia.
Qed.

(** Two buffers with the same bytes are the same. *)
Lemma fbyte_ext l l' : length l = length l' -> (forall i, 0 <= i < Z.of_nat (length l) -> fbyte l i = fbyte l' i) -> l = l'.
Proof.
  intros Hl Hb. apply list_eq. intros k. destruct (decide (k < length l)%nat) as [Hk|Hk].
  - specialize (Hb (Z.of_nat k) ltac:(lia)). rewrite !fbyte_lookup, Nat2Z.id in Hb by lia.
    destruct (lookup_lt_is_Some_2 l k Hk) as [x Hx]. destruct (lookup_lt_is_Some_2 l' k ltac:(lia)) as [y Hy].
    rewrite Hx, Hy in Hb |- *. cbn in Hb. by subst.
  - rewrite !lookup_ge_None_2 by lia. done.
Qed.

(** ** Images *)

Lemma Node_ind' (P : Node -> Prop) :
  (forall path writable size, P (RawNode path writable size)) ->
  (forall backing base_path overlay_path dirty size, (forall b, backing = Some b -> P b) ->
    P (CowNode backing base_path overlay_path dirty size)) ->
  forall n, P n.
Proof.
  intros Hraw Hcow. fix IH 1. intros [path writable size|backing base_path overlay_path dirty size]; [apply Hraw|].
  apply Hcow. intros b Hb. destruct backing as [b'|]; [|discriminate Hb]. injection Hb as <-. apply IH.
Qed.

Fixpoint byte_of (fs : FS) (n : Node) (i : Z) : Z :=
  match n with
  | RawNode path _ _ => fbyte (default [] (fs !! path)) i
  | CowNode backing _ overlay_path dirty _ =>
      if decide (i / SECTOR_SIZE ∈ dirty) then fbyte (default [] (fs !! overlay_path)) i
      else match backing with Some b => byte_of fs b i | None => 0 end
  end.

(** The files an image reads. *)
Fixpoint paths (n : Node) : list string :=
  match n with
  | RawNode path _ _ => [path]
  | CowNode backing _ overlay_path _ _ => overlay_path :: match backing with Some b => paths b | None => [] end
  end.

(** Every dirty sector is wholly in the overlay and in the image. *)
Definition held (f : list Z) (dirty : gset Z) (size : Z) : Prop :=
  forall lba, lba ∈ dirty -> 0 <= lba /\ (lba + 1) * SECTOR_SIZE <= Z.of_nat (length f) /\ (lba + 1) * SECTOR_SIZE <= size.

Fixpoint wf (fs : FS) (n : Node) : Prop :=
  match n with
  | RawNode path _ size => size < 2 ^ 63 /\ exists f, fs !! path = Some f /\ size = Z.of_nat (length f)
  | CowNode backing _ overlay_path dirty size =>
      0 <= size < 2 ^ 63 /\ size mod SECTOR_SIZE = 0 /\
      (exists f, fs !! overlay_path = Some f /\ held f dirty size) /\
      match backing with
      | Some b => wf fs b /\ size <= node_size b /\ overlay_path ∉ paths b
      | None => True
      end
  end.

Lemma check_range_ok size off len : 0 <= size < 2 ^ 63 -> 0 <= off -> 0 <= len ->
  check_range size off len = if decide (off + len <= size) then Ok tt else Err InvalidInput.
Proof.
  intros Hs Ho Hl. unfold check_range. destruct (Z.ltb_spec (off + len) (2 ^ 64)) as [H1|H1].
  - destruct (Z.ltb_spec size (off + len)); [by rewrite decide_False by lia|by rewrite decide_True by lia].
  - by rewrite decide_False by lia.
Qed.

Lemma sector_of lba i : lba * SECTOR_SIZE <= i < (lba + 1) * SECTOR_SIZE <-> i / SECTOR_SIZE = lba.
Proof. unfold SECTOR_SIZE. split; [intros; symmetry; apply (Z.div_unique i 512 lba (i - lba * 512)); lia|]. intros <-.
  pose proof (Z.div_mod i 512). pose proof (Z.mod_pos_bound i 512). lia. Qed.

Lemma map_seqZ_ext (g h : Z -> Z) off n : (forall i, off <= i < off + n -> g i = h i) -> map g (seqZ off n) = map h (seqZ off n).
Proof. intros Hgh. apply map_ext_in. intros i Hi. apply list_elem_of_In, elem_of_seqZ in Hi. apply Hgh. lia. Qed.

Lemma zeros_map off n : replicate (Z.to_nat n) 0 = map (fun _ => 0) (seqZ off n).
Proof. rewrite <- (length_seqZ off n). generalize (seqZ off n). intros l. induction l as [|x l IH]; [done|]. cbn. by rewrite IH. Qed.

(** One sector, given what the backing reads. *)
Lemma read_sector_ok fs below overlay_path dirty size f (g : Z -> Z) lba :
  fs !! overlay_path = Some f -> held f dirty size -> 0 <= lba ->
  (lba ∉ dirty -> below (lba * SECTOR_SIZE) SECTOR_SIZE = Ok (map g (seqZ (lba * SECTOR_SIZE) SECTOR_SIZE))) ->
  read_sector fs below overlay_path dirty lba =
    Ok (map (fun i => if decide (i / SECTOR_SIZE ∈ dirty) then fbyte f i else g i) (seqZ (lba * SECTOR_SIZE) SECTOR_SIZE)).
Proof.
  intros Hf Hh Hl Hb. unfold read_sector.
  assert (Hin : forall i, lba * SECTOR_SIZE <= i < lba * SECTOR_SIZE + SECTOR_SIZE -> i / SECTOR_SIZE = lba).
  { intros i Hi. apply sector_of. lia. }
  destruct (decide (lba ∈ dirty)) as [Hd|Hd].
  - destruct (Hh lba Hd) as (_ & Hlen & _). unfold open. rewrite Hf. cbn [mbind result_bind]. unfold read_exact.
    change (SECTOR_SIZE =? 0) with false. rewrite (proj2 (Z.leb_le _ _)) by lia. f_equal.
    rewrite slice_bytes by (unfold SECTOR_SIZE in *; lia). apply map_seqZ_ext. intros i Hi. by rewrite (Hin i Hi), decide_True.
  - rewrite Hb by done. f_equal. apply map_seqZ_ext. intros i Hi. by rewrite (Hin i Hi), decide_False.
Qed.

(** The loop of a read, sector by sector. *)
Lemma read_loop (sector : Z -> result (list Z)) (g : Z -> Z) off len m :
  0 <= off -> 0 < len -> 0 <= m -> off / SECTOR_SIZE + m <= (off + len + SECTOR_SIZE - 1) / SECTOR_SIZE ->
  (forall lba, off / SECTOR_SIZE <= lba < off / SECTOR_SIZE + m ->
    sector lba = Ok (map g (seqZ (lba * SECTOR_SIZE) SECTOR_SIZE))) ->
  exists buf, foldl (read_step sector off len) (Ok (replicate (Z.to_nat len) 0)) (seqZ (off / SECTOR_SIZE) m) = Ok buf /\
    Z.of_nat (length buf) = len /\
    forall i, 0 <= i < len -> off + i < (off / SECTOR_SIZE + m) * SECTOR_SIZE -> fbyte buf i = g (off + i).
Proof.
  intros Ho Hlen Hm. set (first := off / SECTOR_SIZE). pattern m. apply natlike_ind; [| |done].
  - intros _ _. exists (replicate (Z.to_nat len) 0). split_and!; [done|rewrite length_replicate; lia|].
    intros i Hi Hlt. exfalso. pose proof (proj2 (sector_of first off) eq_refl). lia.
  - clear m Hm. intros m Hm IH Hlast Hsec. destruct IH as (buf & Hfold & Hlb & Hbytes); [lia|intros; apply Hsec; lia|].
    change (Z.succ m) with (m + 1). rewrite seqZ_snoc, foldl_app, Hfold by done. set (lba := first + m).
    assert (Hlba : lba * SECTOR_SIZE < off + len).
    { assert (lba < (off + len + SECTOR_SIZE - 1) / SECTOR_SIZE) by lia. unfold SECTOR_SIZE in *.
      pose proof (Z.div_mod (off + len + 512 - 1) 512). pose proof (Z.mod_pos_bound (off + len + 512 - 1) 512). lia. }
    assert (Hend : off < (lba + 1) * SECTOR_SIZE).
    { pose proof (proj2 (sector_of first off) eq_refl). unfold lba, SECTOR_SIZE in *. lia. }
    cbn [foldl]. unfold read_step at 1. cbn [mbind result_bind]. rewrite Hsec by lia. fold lba. cbn [mbind result_bind].
    unfold overlap. set (start := Z.max off (lba * SECTOR_SIZE)).
    set (stop := Z.min (off + len) (lba * SECTOR_SIZE + SECTOR_SIZE)).
    assert (Hss : off <= start /\ lba * SECTOR_SIZE <= start /\ start < stop /\ stop <= off + len /\
      stop <= (lba + 1) * SECTOR_SIZE) by (unfold start, stop, SECTOR_SIZE in *; lia).
    assert (Hsl : slice (map g (seqZ (lba * SECTOR_SIZE) SECTOR_SIZE)) (start - lba * SECTOR_SIZE) (stop - start) =
      map g (seqZ start (stop - start))).
    { apply fbyte_ext; unfold slice.
      - rewrite length_take, length_drop, !length_map, !length_seqZ. lia.
      - intros i Hi. rewrite slice_bytes by (rewrite ?map_seqZ_length by (unfold SECTOR_SIZE; lia); lia).
        rewrite length_take, length_drop, length_map, length_seqZ in Hi.
        rewrite !fbyte_map by lia. f_equal. lia. }
    rewrite Hsl. eexists. split; [reflexivity|].
    assert (Hlen' : Z.of_nat (length (map g (seqZ start (stop - start)))) = stop - start) by (apply map_seqZ_length; lia).
    split; [rewrite copy_at_length; lia|]. intros i Hi Hlt. rewrite copy_at_bytes by lia. rewrite Hlen'.
    case_decide as Hin; [rewrite fbyte_map by lia; f_equal; lia|].
    apply Hbytes; [done|]. unfold start, stop, lba, SECTOR_SIZE in *. lia.
Qed.

(** Enough loop steps to cover the request. *)
Lemma sectors_cover off len : 0 <= off -> 0 < len ->
  let last := (off + len + SECTOR_SIZE - 1) / SECTOR_SIZE in
  off / SECTOR_SIZE < last /\ off + len <= last * SECTOR_SIZE /\ (last - 1) * SECTOR_SIZE < off + len.
Proof.
  intros Ho Hl last. unfold last, SECTOR_SIZE.
  pose proof (Z.div_mod (off + len + 512 - 1) 512). pose proof (Z.mod_pos_bound (off + len + 512 - 1) 512).
  pose proof (Z.div_mod off 512). pose proof (Z.mod_pos_bound off 512). lia.
Qed.

(** A sector of the request is a sector of the image. *)
Lemma sector_in_size off len size lba : 0 <= off -> 0 < len -> off + len <= size -> size mod SECTOR_SIZE = 0 ->
  off / SECTOR_SIZE <= lba < (off + len + SECTOR_SIZE - 1) / SECTOR_SIZE -> 0 <= lba /\ (lba + 1) * SECTOR_SIZE <= size.
Proof.
  intros Ho Hl Hs Hm Hlba. destruct (sectors_cover off len Ho Hl) as (_ & _ & H3).
  unfold SECTOR_SIZE in *. pose proof (Z.div_pos off 512). pose proof (Z.div_mod size 512).
  assert (lba * 512 < 512 * (size / 512)) by nia. lia.
Qed.

Lemma wf_size fs n : wf fs n -> 0 <= node_size n < 2 ^ 63.
Proof. destruct n; cbn; [intros (? & f & _ & ->); lia|by intros (? & _)]. Qed.

Theorem node_read_spec fs n off len : wf fs n -> 0 <= off -> 0 <= len ->
  node_read fs n off len =
    if decide (off + len <= node_size n) then Ok (map (byte_of fs n) (seqZ off len)) else Err InvalidInput.
Proof.
  intros Hwf. revert off len Hwf.
  induction n as [path writable size|backing base_path overlay_path dirty size IH] using Node_ind';
    intros off len Hwf Ho Hl; pose proof (wf_size _ _ Hwf) as Hsz; cbn [node_read node_size] in *.
  - rewrite check_range_ok by done. case_decide as Hr; [|done]. destruct Hwf as (_ & f & Hf & ->).
    cbn [mbind result_bind]. unfold open. rewrite Hf. cbn [mbind result_bind byte_of]. rewrite Hf. cbn [default from_option].
    unfold read_exact. destruct (Z.eqb_spec len 0) as [->|]; [done|].
    rewrite (proj2 (Z.leb_le _ _)) by lia. by rewrite slice_bytes by lia.
  - rewrite check_range_ok by done. case_decide as Hr; [|done]. cbn [mbind result_bind].
    destruct (Z.eqb_spec len 0) as [->|Hl0]; [done|]. destruct Hwf as (_ & Hmod & (f & Hf & Hh) & Hb).
    set (g := byte_of fs (CowNode backing base_path overlay_path dirty size)).
    destruct (read_loop (read_sector fs (backing_read fs backing) overlay_path dirty) g off len
      ((off + len + SECTOR_SIZE - 1) / SECTOR_SIZE - off / SECTOR_SIZE)) as (buf & Hbuf & Hlen & Hbytes); try lia.
    + destruct (sectors_cover off len Ho ltac:(lia)) as (? & _). lia.
    + intros lba Hlba. destruct (sector_in_size off len size lba) as [Hl1 Hl2]; try lia.
      rewrite (read_sector_ok fs _ overlay_path dirty size f
        (fun i => match backing with Some b => byte_of fs b i | None => 0 end)); [|done..|].
      * f_equal. apply map_seqZ_ext. intros i _. unfold g. cbn [byte_of]. by rewrite Hf.
      * intros _. destruct backing as [b|].
        -- cbn [backing_read]. destruct Hb as (Hwb & Hsb & _).
           rewrite (IH b eq_refl) by (done || unfold SECTOR_SIZE; lia). by rewrite decide_True by lia.
        -- cbn [backing_read]. by rewrite (zeros_map (lba * SECTOR_SIZE)).
    + change (foldl _ _ _) with (foldl (read_step (read_sector fs (backing_read fs backing) overlay_path dirty) off len)
        (Ok (replicate (Z.to_nat len) 0)) (seqZ (off / SECTOR_SIZE) ((off + len + SECTOR_SIZE - 1) / SECTOR_SIZE - off / SECTOR_SIZE))).
      rewrite Hbuf. f_equal. apply fbyte_ext; [pose proof (map_seqZ_length g off len); lia|].
      intros i Hi. destruct (sectors_cover off len Ho ltac:(lia)) as (_ & Hcov & _).
      rewrite fbyte_map, Hbytes by lia. done.
Qed.

(** ** Writes *)

(** Writing a file no image reads changes nothing. *)
Lemma byte_of_other fs path f n i : path ∉ paths n -> byte_of (<[path := f]> fs) n i = byte_of fs n i.
Proof.
  induction n as [p w size|backing base_path overlay_path dirty size IH] using Node_ind'; cbn [paths byte_of]; intros Hp.
  - rewrite lookup_insert_ne; [done|]. set_solver.
  - apply not_elem_of_cons in Hp as [Hne Hp]. rewrite lookup_insert_ne by congruence. case_decide; [done|].
    destruct backing as [b|]; [|done]. by apply IH.
Qed.

Lemma wf_other fs path f n : path ∉ paths n -> wf fs n -> wf (<[path := f]> fs) n.
Proof.
  induction n as [p w size|backing base_path overlay_path dirty size IH] using Node_ind'; cbn [paths wf]; intros Hp.
  - rewrite lookup_insert_ne; [done|]. set_solver.
  - apply not_elem_of_cons in Hp as [Hne Hp]. rewrite lookup_insert_ne by congruence.
    intros (? & ? & ? & Hb). do 3 (split; [done|]). destruct backing as [b|]; [|done].
    destruct Hb as (? & ? & ?). split; [by apply IH|done].
Qed.

(** A sector of an overlay, read through the stack. *)
Lemma cow_sector fs backing base_path overlay_path dirty size lba :
  let n := CowNode backing base_path overlay_path dirty size in
  wf fs n -> 0 <= lba -> (lba + 1) * SECTOR_SIZE <= size ->
  read_sector fs (backing_read fs backing) overlay_path dirty lba =
    Ok (map (byte_of fs n) (seqZ (lba * SECTOR_SIZE) SECTOR_SIZE)).
Proof.
  intros n (Hsz & Hmod & (f & Hf & Hh) & Hb) Hl1 Hl2.
  rewrite (read_sector_ok fs _ overlay_path dirty size f
      (fun i => match backing with Some b => byte_of fs b i | None => 0 end)); [|done..|].
  - f_equal. apply map_seqZ_ext. intros i _. cbn [byte_of n]. by rewrite Hf.
  - intros _. destruct backing as [b|]; cbn [backing_read].
    + destruct Hb as (Hwb & Hsb & _). rewrite node_read_spec by (done || unfold SECTOR_SIZE; lia).
      by rewrite decide_True by lia.
    + by rewrite (zeros_map (lba * SECTOR_SIZE)).
Qed.

(** The merge of a request's bytes into a sector's old bytes. *)
Lemma merge_sector (g : Z -> Z) off buf lba :
  let len := Z.of_nat (length buf) in
  0 <= off -> 0 < len -> off / SECTOR_SIZE <= lba < (off + len + SECTOR_SIZE - 1) / SECTOR_SIZE ->
  let '(start, stop) := overlap off len lba in
  let new := copy_at (map g (seqZ (lba * SECTOR_SIZE) SECTOR_SIZE)) (start - lba * SECTOR_SIZE)
    (slice buf (start - off) (stop - start)) in
  Z.of_nat (length new) = SECTOR_SIZE /\
  forall i, i / SECTOR_SIZE = lba -> fbyte new (i - lba * SECTOR_SIZE) =
    if decide (off <= i < off + len) then fbyte buf (i - off) else g i.
Proof.
  intros len Ho Hlen Hlba. destruct (sectors_cover off len Ho Hlen) as (_ & _ & Hc3). unfold overlap.
  set (start := Z.max off (lba * SECTOR_SIZE)). set (stop := Z.min (off + len) (lba * SECTOR_SIZE + SECTOR_SIZE)).
  assert (Hss : off <= start /\ lba * SECTOR_SIZE <= start /\ start < stop /\ stop <= off + len /\
    stop <= (lba + 1) * SECTOR_SIZE).
  { pose proof (proj2 (sector_of (off / SECTOR_SIZE) off) eq_refl). unfold start, stop, SECTOR_SIZE in *. lia. }
  set (old := map g _).
  assert (Hold : Z.of_nat (length old) = SECTOR_SIZE) by (apply map_seqZ_length; unfold SECTOR_SIZE; lia).
  set (piece := slice buf _ _).
  assert (Hpiece : piece = map (fbyte buf) (seqZ (start - off) (stop - start))) by (apply slice_bytes; lia).
  assert (Hpl : Z.of_nat (length piece) = stop - start) by (rewrite Hpiece; apply map_seqZ_length; lia).
  split; [rewrite copy_at_length; lia|]. intros i Hi%sector_of.
  rewrite copy_at_bytes, Hpl by lia. destruct (decide (start <= i < stop)) as [Hin|Hin].
  - rewrite !decide_True by lia. rewrite Hpiece, fbyte_map by lia. f_equal. lia.
  - rewrite !decide_False by (unfold start, stop in *; lia). unfold old. rewrite fbyte_map by lia. f_equal. lia.
Qed.

(** A sector put into the overlay file and marked dirty. *)
Lemma put_sector fs backing base_path overlay_path dirty size f lba new :
  let n := CowNode backing base_path overlay_path dirty size in
  let fs' := <[overlay_path := write_all f (lba * SECTOR_SIZE) new]> fs in
  let n' := CowNode backing base_path overlay_path ({[lba]} ∪ dirty) size in
  wf fs n -> fs !! overlay_path = Some f -> 0 <= lba -> (lba + 1) * SECTOR_SIZE <= size ->
  Z.of_nat (length new) = SECTOR_SIZE ->
  wf fs' n' /\
  forall i, 0 <= i -> byte_of fs' n' i =
    if decide (i / SECTOR_SIZE = lba) then fbyte new (i - lba * SECTOR_SIZE) else byte_of fs n i.
Proof.
  intros n fs' n' (Hsz & Hmod & (f0 & Hf0 & Hh) & Hb) Hf Hl1 Hl2 Hnl. rewrite Hf in Hf0. injection Hf0 as <-.
  assert (Hne : new <> []) by (intros E; rewrite E in Hnl; cbn in Hnl; unfold SECTOR_SIZE in Hnl; lia).
  split.
  - cbn [wf n']. unfold fs'. rewrite lookup_insert_eq. do 2 (split; [done|]). split.
    + eexists. split; [done|]. intros l. rewrite elem_of_union, elem_of_singleton.
      rewrite write_all_length by (unfold SECTOR_SIZE in *; done || lia).
      intros [->|Hd]; [lia|]. destruct (Hh l Hd) as (? & ? & ?). lia.
    + destruct backing as [b|]; [|done]. destruct Hb as (? & ? & ?). split; [by apply wf_other|done].
  - intros i Hi. cbn [byte_of n' n]. unfold fs'. rewrite lookup_insert_eq, Hf. cbn [default from_option id].
    rewrite write_all_bytes by (unfold SECTOR_SIZE in *; lia). rewrite Hnl.
    rewrite (decide_ext (lba * SECTOR_SIZE ≤ i < lba * SECTOR_SIZE + SECTOR_SIZE) (i / SECTOR_SIZE = lba))
      by (rewrite <- sector_of; lia).
    rewrite (decide_ext (i / SECTOR_SIZE ∈ {[lba]} ∪ dirty) (i / SECTOR_SIZE = lba \/ i / SECTOR_SIZE ∈ dirty))
      by (rewrite elem_of_union, elem_of_singleton; done).
    repeat case_decide; try tauto. destruct backing as [b|]; [|done].
    destruct Hb as (_ & _ & Hnp). by rewrite byte_of_other.
Qed.

(** One sector written. *)
Lemma write_step_ok fs backing base_path overlay_path dirty size off buf lba :
  let n := CowNode backing base_path overlay_path dirty size in
  let n' := CowNode backing base_path overlay_path ({[lba]} ∪ dirty) size in
  wf fs n -> 0 <= off -> 0 < Z.of_nat (length buf) -> off + Z.of_nat (length buf) <= size ->
  off / SECTOR_SIZE <= lba < (off + Z.of_nat (length buf) + SECTOR_SIZE - 1) / SECTOR_SIZE ->
  exists f', write_step backing overlay_path off buf (fs, dirty, Ok tt) lba =
      (<[overlay_path := f']> fs, {[lba]} ∪ dirty, Ok tt) /\
    wf (<[overlay_path := f']> fs) n' /\
    forall i, 0 <= i -> byte_of (<[overlay_path := f']> fs) n' i =
      if decide (i / SECTOR_SIZE = lba /\ off <= i < off + Z.of_nat (length buf)) then fbyte buf (i - off) else byte_of fs n i.
Proof.
  intros n n' Hwf Ho Hlen Hend Hlba. pose proof Hwf as (Hsz & Hmod & (f & Hf & Hh) & Hb).
  destruct (sector_in_size off (Z.of_nat (length buf)) size lba) as [Hl1 Hl2]; [lia..|].
  pose proof (merge_sector (byte_of fs n) off buf lba Ho Hlen Hlba) as Hm.
  unfold write_step. rewrite (cow_sector _ _ base_path _ _ size) by done. fold n.
  destruct (overlap off (Z.of_nat (length buf)) lba) as [start stop]. destruct Hm as [Hnl Hnb].
  unfold open. rewrite Hf. set (new := copy_at _ _ _) in *.
  destruct (put_sector fs backing base_path overlay_path dirty size f lba new) as [Hwf' Hbytes]; [done..|].
  eexists. split; [reflexivity|]. split; [done|]. intros i Hi. fold n' in Hbytes. rewrite (Hbytes i Hi).
  destruct (decide (i / SECTOR_SIZE = lba)) as [E|E].
  - rewrite Hnb by done. repeat case_decide; tauto.
  - by rewrite decide_False by tauto.
Qed.

(** The loop of a write, sector by sector. *)
Lemma write_loop fs backing base_path overlay_path dirty size off buf m :
  let n := CowNode backing base_path overlay_path dirty size in
  let first := off / SECTOR_SIZE in
  wf fs n -> 0 <= off -> 0 < Z.of_nat (length buf) -> off + Z.of_nat (length buf) <= size ->
  0 <= m -> first + m <= (off + Z.of_nat (length buf) + SECTOR_SIZE - 1) / SECTOR_SIZE ->
  exists fs' dirty', foldl (write_step backing overlay_path off buf) (fs, dirty, Ok tt) (seqZ first m) = (fs', dirty', Ok tt) /\
    let n' := CowNode backing base_path overlay_path dirty' size in
    wf fs' n' /\ (forall p, p <> overlay_path -> fs' !! p = fs !! p) /\ dirty' = list_to_set (seqZ first m) ∪ dirty /\
    forall i, 0 <= i -> byte_of fs' n' i =
      if decide (off <= i < off + Z.of_nat (length buf) /\ i < (first + m) * SECTOR_SIZE) then fbyte buf (i - off)
      else byte_of fs n i.
Proof.
  intros n first Hwf Ho Hlen Hend Hm. pattern m. apply natlike_ind; [| |done]; clear m Hm.
  - intros _. exists fs, dirty. split; [done|]. split_and!; [done|done|set_solver|]. intros i Hi.
    rewrite decide_False; [done|]. pose proof (proj2 (sector_of first off) eq_refl). lia.
  - intros m Hm IH Hlast. destruct IH as (fs1 & dirty1 & Hfold & Hwf1 & Hfiles & Hd & Hbytes); [lia|].
    change (Z.succ m) with (m + 1). rewrite seqZ_snoc, foldl_app, Hfold by done. cbn [foldl].
    destruct (write_step_ok fs1 backing base_path overlay_path dirty1 size off buf (first + m))
      as (f' & Hstep & Hwf' & Hb'); [done..|fold first; lia|].
    rewrite Hstep. eexists _, _. split; [reflexivity|]. split_and!; [done| | |].
    + intros p Hp. rewrite lookup_insert_ne by congruence. by apply Hfiles.
    + rewrite Hd, list_to_set_app_L. cbn. set_solver.
    + intros i Hi. rewrite (Hb' i Hi), (Hbytes i Hi). pose proof (sector_of (first + m) i) as Hso.
      unfold SECTOR_SIZE in *. repeat case_decide; try done; exfalso; lia.
Qed.

Theorem cow_write_spec fs backing base_path overlay_path dirty size off buf :
  let n := CowNode backing base_path overlay_path dirty size in
  wf fs n -> 0 <= off -> off + Z.of_nat (length buf) <= size ->
  exists fs' dirty', let n' := CowNode backing base_path overlay_path dirty' size in
    node_write fs n off buf = (fs', n', Ok tt) /\ wf fs' n' /\
    (forall p, p <> overlay_path -> fs' !! p = fs !! p) /\
    dirty' = (if decide (buf = []) then ∅ else list_to_set (sectors off (Z.of_nat (length buf)))) ∪ dirty /\
    forall i, 0 <= i -> byte_of fs' n' i =
      if decide (off <= i < off + Z.of_nat (length buf)) then fbyte buf (i - off) else byte_of fs n i.
Proof.
  intros n Hwf Ho Hend. pose proof (wf_size _ _ Hwf) as Hsz. cbn in Hsz. unfold node_write. cbn [node_size n].
  rewrite check_range_ok by lia. rewrite (decide_True (P := _ <= _)) by lia. destruct buf as [|x buf'].
  - exists fs, dirty. split; [done|]. split_and!; [done|done|set_solver|]. intros i Hi. by rewrite decide_False by (cbn; lia).
  - set (buf := x :: buf') in *. assert (Hlen : 0 < Z.of_nat (length buf)) by (cbn; lia).
    rewrite (proj2 (Z.eqb_neq _ _)) by lia. rewrite (decide_False (P := buf = [])) by done.
    destruct (sectors_cover off _ Ho Hlen) as (Hc1 & Hc2 & _).
    destruct (write_loop fs backing base_path overlay_path dirty size off buf
      ((off + Z.of_nat (length buf) + SECTOR_SIZE - 1) / SECTOR_SIZE - off / SECTOR_SIZE))
      as (fs' & dirty' & Hfold & Hwf' & Hfiles & Hd & Hbytes); [done..|lia|lia|].
    change (sectors off _) with (seqZ (off / SECTOR_SIZE)
      ((off + Z.of_nat (length buf) + SECTOR_SIZE - 1) / SECTOR_SIZE - off / SECTOR_SIZE)).
    rewrite Hfold. exists fs', dirty'. split; [done|]. split_and!; [done..|]. intros i Hi. rewrite (Hbytes i Hi).
    repeat case_decide; try done; exfalso; lia.
Qed.

(** ** The sidecar *)

Lemma le_bytes_count n v : length (le_bytes n v) = n.
Proof. revert v. induction n as [|n IH]; intros v; cbn; [done|by rewrite IH]. Qed.

Lemma le_value_bytes n v : 0 <= v < 256 ^ Z.of_nat n -> le_value (le_bytes n v) = v.
Proof.
  revert v. induction n as [|n IH]; intros v Hv; [cbn in *; lia|]. cbn [le_bytes le_value].
  rewrite Nat2Z.inj_succ, Z.pow_succ_r in Hv by lia. rewrite Z.shiftr_div_pow2 by lia. change (2 ^ 8) with 256.
  pose proof (Z.div_mod v 256). pose proof (Z.mod_pos_bound v 256).
  rewrite IH by (split; [apply Z.div_pos; lia|apply Z.div_lt_upper_bound; lia]).
  unfold u8, wrap. change (2 ^ 8) with 256. lia.
Qed.

Definition is_u64 (v : Z) : Prop := 0 <= v < 2 ^ 64.

Lemma load_sectors_saved order : Forall is_u64 order ->
  load_sectors (Z.of_nat (length order)) (concat (map (le_bytes 8) order)) = list_to_set order.
Proof.
  induction 1 as [|v order Hv _ IH]; [done|]. cbn [map concat length list_to_set].
  pose proof (le_bytes_count 8 v) as Hl. pose proof (le_value_bytes 8 v) as Hval.
  destruct (le_bytes 8 v) as [|b0 [|b1 [|b2 [|b3 [|b4 [|b5 [|b6 [|b7 [|? ?]]]]]]]]]; try discriminate Hl.
  cbn [app load_sectors]. rewrite (proj2 (Z.ltb_lt _ _)) by lia. rewrite Hval by done.
  replace (Z.of_nat (S (length order)) - 1) with (Z.of_nat (length order)) by lia. by rewrite IH.
Qed.

Lemma string_length_app (s t : string) : String.length (s +:+ t) = (String.length s + String.length t)%nat.
Proof. induction s as [|c s IH]; [done|]. cbn [String.length Nat.add]. by rewrite <- IH. Qed.

(** A name and the same name with a suffix differ. *)
Lemma suffix_ne (s t : string) : t <> "" -> s +:+ t <> s.
Proof.
  intros Ht E. apply (f_equal String.length) in E. rewrite string_length_app in E.
  destruct t; [done|]. cbn in E. lia.
Qed.

Lemma sidecar_ne ov : sidecar_path_for ov <> ov /\ sidecar_tmp ov <> ov /\ sidecar_tmp ov <> sidecar_path_for ov.
Proof.
  unfold sidecar_path_for, sidecar_tmp. split; [by apply suffix_ne|]. split; [by apply suffix_ne|].
  intros E. apply (f_equal String.length) in E. rewrite !string_length_app in E. cbn in E. lia.
Qed.

Lemma save_dirty_other fs ov order p : p <> sidecar_path_for ov -> p <> sidecar_tmp ov ->
  save_dirty_sidecar fs ov order !! p = fs !! p.
Proof. intros H1 H2. unfold save_dirty_sidecar. by rewrite lookup_delete_ne, !lookup_insert_ne by congruence. Qed.

Lemma load_saved fs ov order : Forall is_u64 order -> is_u64 (Z.of_nat (length order)) ->
  load_dirty_sidecar (save_dirty_sidecar fs ov order) (sidecar_path_for ov) = list_to_set order.
Proof.
  intros Ho Hl. unfold load_dirty_sidecar, save_dirty_sidecar.
  rewrite lookup_delete_ne by (by apply sidecar_ne). rewrite lookup_insert_eq.
  set (f := le_bytes 8 _ ++ _). unfold read_exact. cbn [Z.eqb].
  assert (Hf : Z.of_nat (length f) >= 8) by (unfold f; rewrite length_app, le_bytes_count; lia).
  rewrite (proj2 (Z.leb_le _ _)) by lia. change (Z.to_nat 8) with 8%nat. change (Z.to_nat 0) with 0%nat. rewrite drop_0.
  unfold f. rewrite take_app_length', drop_app_length' by (by rewrite le_bytes_count).
  rewrite le_value_bytes by done. by apply load_sectors_saved.
Qed.

(** ** Committing *)

(** The commit loop copies the listed sectors and nothing else. *)
Lemma commit_loop ov base f b fs lbas k :
  ov <> base -> fs !! ov = Some f -> fs !! base = Some b ->
  Forall (fun lba => 0 <= lba /\ (lba + 1) * SECTOR_SIZE <= Z.of_nat (length f) /\
    (lba + 1) * SECTOR_SIZE <= Z.of_nat (length b)) lbas ->
  exists b', foldl (commit_step ov base) (fs, Ok k) lbas = (<[base := b']> fs, Ok (k + length lbas)%nat) /\
    length b' = length b /\
    forall i, 0 <= i -> fbyte b' i = if decide (i / SECTOR_SIZE ∈ lbas) then fbyte f i else fbyte b i.
Proof.
  intros Hne Hf. revert fs b k Hf. induction lbas as [|lba lbas IH]; intros fs b k Hf Hb Hall.
  - exists b. cbn. rewrite insert_id, Nat.add_0_r by done. split_and!; [done..|]. intros i _.
    by rewrite decide_False by apply not_elem_of_nil.
  - apply Forall_cons in Hall as [(Hl0 & Hl1 & Hl2) Hall]. cbn [foldl commit_step]. unfold open at 1.
    rewrite Hf. cbn [mbind result_bind]. unfold read_exact. change (SECTOR_SIZE =? 0) with false.
    rewrite (proj2 (Z.leb_le _ _)) by lia. unfold open. rewrite Hb.
    rewrite slice_bytes by (unfold SECTOR_SIZE in *; lia). set (new := map (fbyte f) _).
    assert (Hnl : Z.of_nat (length new) = SECTOR_SIZE) by (apply map_seqZ_length; unfold SECTOR_SIZE; lia).
    assert (Hnn : new <> []) by (intros E; rewrite E in Hnl; cbn in Hnl; unfold SECTOR_SIZE in Hnl; lia).
    set (b1 := write_all b (lba * SECTOR_SIZE) new).
    assert (Hb1 : length b1 = length b).
    { apply Nat2Z.inj. unfold b1. rewrite write_all_length by (done || unfold SECTOR_SIZE in *; lia). lia. }
    destruct (IH (<[base := b1]> fs) b1 (S k)) as (b' & Hfold & Hlen & Hbytes).
    + by rewrite lookup_insert_ne.
    + apply lookup_insert_eq.
    + eapply Forall_impl; [exact Hall|]. cbn. rewrite Hb1. done.
    + exists b'. rewrite Hfold, insert_insert_eq. split; [|split].
      * cbn [length]. by rewrite Nat.add_succ_r.
      * lia.
      * intros i Hi. rewrite (Hbytes i Hi). unfold b1. rewrite write_all_bytes, Hnl by (unfold SECTOR_SIZE in *; lia).
        rewrite (decide_ext (i / SECTOR_SIZE ∈ lba :: lbas) (i / SECTOR_SIZE = lba \/ i / SECTOR_SIZE ∈ lbas))
          by (by rewrite elem_of_cons).
        rewrite (decide_ext (lba * SECTOR_SIZE ≤ i < lba * SECTOR_SIZE + SECTOR_SIZE) (i / SECTOR_SIZE = lba))
          by (rewrite <- sector_of; lia).
        destruct (decide (i / SECTOR_SIZE ∈ lbas)), (decide (i / SECTOR_SIZE = lba)) as [E|E];
          repeat case_decide; try done; try tauto.
        apply sector_of in E. unfold new. rewrite fbyte_map by lia. f_equal. lia.
Qed.

End BlockProofs.
