(* ===== verification/BlockClaims.v ===== *)
(** * What a mounted disk promises

    A disk mounted copy-on-write ([open_file_image]) is driven by a sequence of
    requests; the specification is an array of bytes with its last committed
    copy. *)

From stdpp Require Import strings sorting.
From S2P Require Import Prelude BlockNode BlockProofs.
Import BlockNode BlockProofs.

#[local] Open Scope Z_scope.

Module BlockClaims.

#[local] Arguments SECTOR_SIZE : simpl never.

(** ** Requests *)

Inductive Request : Type :=
| Read (off len : Z)
| Write (off : Z) (buf : list Z)
| Discard (off len : Z)
| Flush
| Commit
| Rollback
| Restart.

(** Offsets and lengths are unsigned. *)
Definition request_ok (r : Request) : Prop :=
  match r with Read off len | Discard off len => 0 <= off /\ 0 <= len | Write off _ => 0 <= off | _ => True end.

#[export] Instance request_ok_dec r : Decision (request_ok r).
Proof. destruct r; apply _. Defined.

Definition unit_reply (r : result unit) : result (list Z) := match r with Ok _ => Ok [] | Err e => Err e end.

Section Machine.

Context (order : gset Z -> list Z) (path ov : string).

(** A restart drops the node, which flushes it, and mounts the image again. *)
Definition disk_step (st : FS * Node) (r : Request) : FS * Node * result (list Z) :=
  let '(fs, n) := st in
  match r with
  | Read off len => (fs, n, node_read fs n off len)
  | Write off buf => let '(fs, n, r) := node_write fs n off buf in (fs, n, unit_reply r)
  | Discard off len => let '(fs, n, r) := node_discard fs n off len in (fs, n, unit_reply r)
  | Flush => (node_flush order fs n, n, Ok [])
  | Commit => let '(fs, n, r) := node_commit order fs n in (fs, n, match r with Ok _ => Ok [] | Err e => Err e end)
  | Rollback => let '(fs, n) := node_rollback fs n in (fs, n, Ok [])
  | Restart =>
      let '(fs, r) := open_file_image (node_flush order fs n) path Disk true (Some ov) in
      match r with Ok n => (fs, n, Ok []) | Err e => (fs, n, Err e) end
  end.

Fixpoint disk_run (st : FS * Node) (rs : list Request) : FS * Node * list (result (list Z)) :=
  match rs with
  | [] => (st, [])
  | r :: rs => let '(st, o) := disk_step st r in let '(st, os) := disk_run st rs in (st, o :: os)
  end.

End Machine.

(** ** The array of bytes *)

Record Flat : Type := { durable : list Z; current : list Z }.

Definition in_range (s : Flat) (off len : Z) : bool := bool_decide (off + len <= Z.of_nat (length (current s))).

(** A discard reverts the sectors it touches to what was last committed. *)
Definition revert (s : Flat) (off len : Z) : list Z :=
  map (fun i => if decide (0 < len /\ off / SECTOR_SIZE <= i / SECTOR_SIZE /\ i / SECTOR_SIZE * SECTOR_SIZE < off + len)
                then fbyte (durable s) i else fbyte (current s) i)
    (seqZ 0 (Z.of_nat (length (current s)))).

Definition flat_step (s : Flat) (r : Request) : Flat * result (list Z) :=
  match r with
  | Read off len => (s, if in_range s off len then Ok (slice (current s) off len) else Err InvalidInput)
  | Write off buf =>
      if in_range s off (Z.of_nat (length buf)) then ({| durable := durable s; current := copy_at (current s) off buf |}, Ok [])
      else (s, Err InvalidInput)
  | Discard off len =>
      if in_range s off len then ({| durable := durable s; current := revert s off len |}, Ok []) else (s, Err InvalidInput)
  | Flush | Restart => (s, Ok [])
  | Commit => ({| durable := current s; current := current s |}, Ok [])
  | Rollback => ({| durable := durable s; current := durable s |}, Ok [])
  end.

Fixpoint flat_run (s : Flat) (rs : list Request) : Flat * list (result (list Z)) :=
  match rs with
  | [] => (s, [])
  | r :: rs => let '(s, o) := flat_step s r in let '(s, os) := flat_run s rs in (s, o :: os)
  end.

(** ** The simulation *)

Section Simulation.

Context (order : gset Z -> list Z) (path ov : string).
Hypothesis Horder : forall d, order d ≡ₚ elements d.
Hypothesis Hpath : path <> ov /\ path <> sidecar_path_for ov /\ path <> sidecar_tmp ov.

Inductive mounted : FS * Node -> Flat -> Prop :=
| mounted_intro fs dirty size s :
    let n := CowNode (Some (RawNode path false size)) (Some path) ov dirty size in
    wf fs n -> fs !! path = Some (durable s) -> size = Z.of_nat (length (durable s)) ->
    current s = map (byte_of fs n) (seqZ 0 size) -> mounted (fs, n) s.

Ltac mounted_inv H :=
  let dirty := fresh "dirty" in let n' := fresh "n'" in
  inversion H as [? dirty ? ? n' Hwf Hb -> Hc]; subst n'; subst.

(** An image over the base file, given its overlay's bytes. *)
Lemma mounted_wf fs f dirty (b : list Z) :
  let size := Z.of_nat (length b) in
  fs !! path = Some b -> fs !! ov = Some f -> held f dirty size -> size mod SECTOR_SIZE = 0 -> size < 2 ^ 63 ->
  wf fs (CowNode (Some (RawNode path false size)) (Some path) ov dirty size).
Proof.
  intros size Hb Hf Hh Hm Hs. cbn [wf node_size paths]. split; [lia|]. split; [done|]. split; [by exists f|].
  split; [split; [done|by exists b]|]. split; [lia|]. intros E%list_elem_of_singleton. destruct Hpath. congruence.
Qed.

Lemma wf_inv fs dirty size :
  wf fs (CowNode (Some (RawNode path false size)) (Some path) ov dirty size) ->
  size < 2 ^ 63 /\ size mod SECTOR_SIZE = 0 /\ (exists f, fs !! ov = Some f /\ held f dirty size).
Proof. intros ((_ & ?) & ? & ? & _). done. Qed.

(** The overlay, its sidecar and the base are different files. *)
Ltac paths_differ := destruct Hpath as (? & ? & ?), (sidecar_ne ov) as (? & ? & ?); congruence.

Lemma mounted_length fs n s : mounted (fs, n) s ->
  length (current s) = length (durable s) /\ node_size n = Z.of_nat (length (durable s)) /\
  Z.of_nat (length (durable s)) < 2 ^ 63 /\ Z.of_nat (length (durable s)) mod SECTOR_SIZE = 0.
Proof.
  intros Hm. mounted_inv Hm. rewrite Hc. apply wf_inv in Hwf as (? & ? & _).
  split; [rewrite length_map, length_seqZ; lia|done].
Qed.

Lemma mounted_frame fs fs' n s : fs' !! path = fs !! path -> fs' !! ov = fs !! ov -> mounted (fs, n) s -> mounted (fs', n) s.
Proof.
  intros Hp Ho. intros Hm. mounted_inv Hm.
  pose proof (wf_inv _ _ _ Hwf) as (? & ? & f & Hf & Hh).
  constructor; [|congruence|done|].
  - apply (mounted_wf _ f); try done; congruence.
  - rewrite Hc. apply map_seqZ_ext. intros i _. cbn [byte_of]. by rewrite Hp, Ho.
Qed.

Lemma bytes_of_list (l : list Z) : map (fbyte l) (seqZ 0 (Z.of_nat (length l))) = l.
Proof. rewrite <- slice_bytes by lia. rewrite Nat2Z.id. change (Z.to_nat 0) with 0%nat. by rewrite drop_0, firstn_all. Qed.

(** With nothing dirty the image is its base. *)
Lemma mounted_clean fs f b : fs !! path = Some b -> fs !! ov = Some f ->
  Z.of_nat (length b) mod SECTOR_SIZE = 0 -> Z.of_nat (length b) < 2 ^ 63 ->
  let size := Z.of_nat (length b) in
  mounted (fs, CowNode (Some (RawNode path false size)) (Some path) ov ∅ size) {| durable := b; current := b |}.
Proof.
  intros Hb Hf Hm Hs size. constructor; [|done|done|].
  - by apply (mounted_wf _ f).
  - cbn [current byte_of]. rewrite Hb. cbn [default from_option id]. rewrite <- (bytes_of_list b) at 1.
    by apply map_seqZ_ext.
Qed.

Lemma current_bytes fs n s i : mounted (fs, n) s -> 0 <= i < node_size n -> fbyte (current s) i = byte_of fs n i.
Proof.
  intros Hm. mounted_inv Hm. cbn [node_size]. intros Hi. rewrite Hc, fbyte_map by lia. done.
Qed.

Lemma sim_read fs n s off len : mounted (fs, n) s -> 0 <= off -> 0 <= len ->
  node_read fs n off len = if in_range s off len then Ok (slice (current s) off len) else Err InvalidInput.
Proof.
  intros Hm Ho Hl. pose proof (mounted_length _ _ _ Hm) as (Hlc & Hsz & _).
  assert (Hwf : wf fs n) by (by inversion Hm).
  rewrite node_read_spec by done. unfold in_range. rewrite Hlc, <- Hsz.
  case_decide as Hr; [rewrite bool_decide_true by done|by rewrite bool_decide_false by done].
  f_equal. unfold slice. rewrite slice_bytes by lia. apply map_seqZ_ext. intros i Hi. symmetry. apply (current_bytes _ _ _ _ Hm). lia.
Qed.

Lemma range_refused fs n s off len : mounted (fs, n) s -> 0 <= off -> 0 <= len ->
  check_range (node_size n) off len = if in_range s off len then Ok tt else Err InvalidInput.
Proof.
  intros Hm Ho Hl. pose proof (mounted_length _ _ _ Hm) as (Hlc & Hsz & Hlt & _). rewrite check_range_ok by lia.
  unfold in_range. rewrite Hlc, Hsz. by case_decide; [rewrite bool_decide_true|rewrite bool_decide_false].
Qed.

Lemma sim_write fs n s off buf : mounted (fs, n) s -> 0 <= off ->
  let '(fs', n', r) := node_write fs n off buf in
  let '(s', o) := flat_step s (Write off buf) in
  unit_reply r = o /\ mounted (fs', n') s'.
Proof.
  intros Hm Ho. pose proof (range_refused _ _ _ off (Z.of_nat (length buf)) Hm Ho ltac:(lia)) as Hr. cbn [flat_step].
  destruct (in_range s off (Z.of_nat (length buf))) eqn:Hin; [|unfold node_write; by rewrite Hr].
  pose proof (mounted_length _ _ _ Hm) as (Hlc & _ & _). apply bool_decide_eq_true in Hin.
  pose proof (fun i => current_bytes _ _ _ i Hm) as Hcb.
  mounted_inv Hm. cbn [node_size] in Hcb.
  destruct (cow_write_spec fs (Some (RawNode path false (Z.of_nat (length (durable s))))) (Some path) ov dirty
    (Z.of_nat (length (durable s))) off buf) as (fs' & dirty' & -> & Hwf' & Hfiles & _ & Hbytes); [done|done|lia|].
  split; [done|]. constructor; [done| |done|]; cbn [durable current].
  - rewrite Hfiles by (destruct Hpath; congruence). done.
  - apply fbyte_ext; [rewrite copy_at_length, length_map, length_seqZ by lia; lia|].
    rewrite copy_at_length by lia. intros i Hi. rewrite copy_at_bytes, fbyte_map by lia.
    rewrite Z.add_0_l, (Hbytes i) by lia. case_decide; [done|]. apply Hcb. lia.
Qed.

Lemma elem_of_sectors off len lba : lba ∈ sectors off len <-> off / SECTOR_SIZE <= lba /\ lba * SECTOR_SIZE < off + len.
Proof.
  unfold sectors, sectors_for. rewrite elem_of_seqZ. unfold SECTOR_SIZE.
  pose proof (Z.div_mod (off + len + 512 - 1) 512). pose proof (Z.mod_pos_bound (off + len + 512 - 1) 512). lia.
Qed.

Lemma held_subset f d d' size : d' ⊆ d -> held f d size -> held f d' size.
Proof. intros Hs Hh lba Hl. apply Hh. by apply Hs. Qed.

Lemma sim_discard fs n s off len : mounted (fs, n) s -> 0 <= off -> 0 <= len ->
  let '(fs', n', r) := node_discard fs n off len in
  let '(s', o) := flat_step s (Discard off len) in
  unit_reply r = o /\ mounted (fs', n') s'.
Proof.
  intros Hm Ho Hl. pose proof (range_refused _ _ _ off len Hm Ho Hl) as Hr. cbn [flat_step]. unfold node_discard. rewrite Hr.
  destruct (in_range s off len) eqn:Hin; [|done].
  pose proof (mounted_length _ _ _ Hm) as (Hlc & _ & _). apply bool_decide_eq_true in Hin.
  pose proof (fun i => current_bytes _ _ _ i Hm) as Hcb.
  mounted_inv Hm. cbn [node_size] in Hcb.
  pose proof (wf_inv _ _ _ Hwf) as (? & ? & f & Hf & Hh).
  destruct (Z.eqb_spec len 0) as [->|Hl0].
  - split; [done|]. replace {| durable := durable s; current := revert s off 0 |} with s; [done|].
    destruct s as [d c]; cbn in *. f_equal. rewrite <- (bytes_of_list c) at 1. unfold revert. cbn.
    apply map_seqZ_ext. intros i _. by rewrite decide_False by lia.
  - split; [done|]. constructor; [|done|done|].
    + apply (mounted_wf _ f); try done. apply (held_subset _ dirty); [set_solver|done].
    + cbn [current]. unfold revert. rewrite Hlc. apply map_seqZ_ext. intros i Hi. rewrite Hcb by lia.
      cbn [byte_of]. rewrite Hf, Hb. cbn [default from_option id].
      rewrite (decide_ext (i / SECTOR_SIZE ∈ dirty ∖ _)
        (i / SECTOR_SIZE ∈ dirty /\ ~ (off / SECTOR_SIZE <= i / SECTOR_SIZE /\ i / SECTOR_SIZE * SECTOR_SIZE < off + len)))
        by (by rewrite elem_of_difference, elem_of_list_to_set, elem_of_sectors).
      assert (0 < len) by lia. repeat case_decide; done || tauto.
Qed.

Lemma order_set d : list_to_set (order d) = d.
Proof. rewrite (Horder d). apply list_to_set_elements_L. Qed.

Lemma order_in d lba : lba ∈ order d <-> lba ∈ d.
Proof. rewrite (Horder d). apply elem_of_elements. Qed.

(** Distinct sectors of an image are few enough to be counted in 64 bits. *)
Lemma held_fits f d size : held f d size -> size < 2 ^ 63 -> Forall is_u64 (order d) /\ is_u64 (Z.of_nat (length (order d))).
Proof.
  intros Hh Hs.
  assert (Hb : forall lba, lba ∈ order d -> 0 <= lba < 2 ^ 63).
  { intros lba Hin%order_in. destruct (Hh _ Hin) as (? & _ & ?). unfold SECTOR_SIZE in *. lia. }
  split.
  - apply Forall_forall. intros lba Hin. specialize (Hb lba Hin). unfold is_u64. lia.
  - assert (Hsub : order d ⊆+ seqZ 0 (2 ^ 63)).
    { apply NoDup_submseteq; [rewrite (Horder d); apply NoDup_elements|]. intros lba Hin%Hb. apply elem_of_seqZ. lia. }
    apply submseteq_length in Hsub. rewrite length_seqZ in Hsub. unfold is_u64. lia.
Qed.

Lemma flush_frame fs dirty size p : p <> sidecar_path_for ov -> p <> sidecar_tmp ov ->
  node_flush order fs (CowNode (Some (RawNode path false size)) (Some path) ov dirty size) !! p = fs !! p.
Proof. intros. cbn [node_flush]. by apply save_dirty_other. Qed.

Lemma sim_flush fs n s : mounted (fs, n) s -> mounted (node_flush order fs n, n) s.
Proof.
  intros Hm. apply (mounted_frame fs); [| |done]; mounted_inv Hm; apply flush_frame; paths_differ.
Qed.

Lemma sim_restart fs n s : mounted (fs, n) s ->
  open_file_image (node_flush order fs n) path Disk true (Some ov) = (node_flush order fs n, Ok n).
Proof.
  intros Hm. pose proof (sim_flush _ _ _ Hm) as Hm'. mounted_inv Hm. apply wf_inv in Hwf as (Hs & _ & f & Hf & Hh).
  unfold open_file_image. cbn [bool_decide negb andb]. unfold raw_open, open.
  rewrite flush_frame by tauto. rewrite Hb. cbn [mbind result_bind]. unfold cow_new.
  rewrite flush_frame by (paths_differ). rewrite Hf. cbn [node_size with_base_path].
  do 4 f_equal. cbn [node_flush]. destruct (held_fits _ _ _ Hh Hs). rewrite load_saved by done. apply order_set.
Qed.

Lemma sim_rollback fs n s : mounted (fs, n) s -> mounted (node_rollback fs n) {| durable := durable s; current := durable s |}.
Proof.
  intros Hm. pose proof (mounted_length _ _ _ Hm) as (_ & _ & Hs & Hmod). mounted_inv Hm. cbn [node_rollback].
  destruct Hpath as (Hp1 & Hp2 & _). apply (mounted_clean _ []); try done.
  - by rewrite lookup_delete_ne, lookup_insert_ne by congruence.
  - rewrite lookup_delete_ne by (paths_differ). apply lookup_insert_eq.
Qed.

Lemma sim_commit fs n s : mounted (fs, n) s ->
  let fs' := <[ov := []]> (<[path := current s]> fs) in
  exists n', node_commit order fs n = (fs', n', Ok (dirty_count n)) /\
    mounted (fs', n') {| durable := current s; current := current s |}.
Proof.
  intros Hm. pose proof (mounted_length _ _ _ Hm) as (Hlc & _ & Hs & Hmod). pose proof (fun i => current_bytes _ _ _ i Hm) as Hcb.
  mounted_inv Hm. apply wf_inv in Hwf as (_ & _ & f & Hf & Hh). destruct Hpath as (Hp1 & _).
  unfold node_commit, open. rewrite Hb.
  destruct (commit_loop ov path f (durable s) fs (order dirty) 0) as (b' & -> & Hlen & Hbytes); [done..| |].
  { apply Forall_forall. intros lba Hin%order_in. by apply Hh. }
  assert (Hcur : current s = b').
  { apply fbyte_ext; [lia|]. intros i Hi. rewrite (Hbytes i) by lia. rewrite Hcb by (cbn [node_size]; lia).
    cbn [byte_of]. rewrite Hf, Hb. cbn [default from_option id].
    by rewrite (decide_ext (i / SECTOR_SIZE ∈ order dirty) (i / SECTOR_SIZE ∈ dirty)) by apply order_in. }
  rewrite Hcur. eexists. split; [cbn [dirty_count Nat.add]; by rewrite (Horder dirty)|].
  rewrite <- Hlen. apply (mounted_clean _ []); try (done || by rewrite Hlen).
  - rewrite lookup_insert_ne by congruence. apply lookup_insert_eq.
  - apply lookup_insert_eq.
Qed.

Lemma sim_step st s r : mounted st s -> request_ok r ->
  let '(st', o) := disk_step order path ov st r in
  let '(s', o') := flat_step s r in o = o' /\ mounted st' s'.
Proof.
  destruct st as [fs n]. intros Hm Hr. destruct r as [off len|off buf|off len| | | |]; cbn [disk_step flat_step request_ok] in *.
  - destruct Hr. split; [by apply sim_read|done].
  - pose proof (sim_write fs n s off buf Hm Hr) as Hw. destruct (node_write fs n off buf) as [[fs' n'] r]. exact Hw.
  - pose proof (sim_discard fs n s off len Hm (proj1 Hr) (proj2 Hr)) as Hw. destruct (node_discard fs n off len) as [[fs' n'] r]. exact Hw.
  - split; [done|]. by apply sim_flush.
  - destruct (sim_commit _ _ _ Hm) as (n' & -> & Hm'). done.
  - pose proof (sim_rollback _ _ _ Hm) as Hm'. destruct (node_rollback fs n) as [fs' n']. done.
  - rewrite (sim_restart _ _ _ Hm). split; [done|]. by apply sim_flush.
Qed.

Lemma sim_run st s rs : mounted st s -> Forall request_ok rs ->
  let '(st', os) := disk_run order path ov st rs in
  let '(s', os') := flat_run s rs in os = os' /\ mounted st' s'.
Proof.
  revert st s. induction rs as [|r rs IH]; intros st s Hm Hall; cbn [disk_run flat_run]; [done|].
  apply Forall_cons in Hall as [Hr Hall]. pose proof (sim_step st s r Hm Hr) as Hstep.
  destruct (disk_step order path ov st r) as [st1 o], (flat_step s r) as [s1 o']. destruct Hstep as [-> Hm1].
  specialize (IH st1 s1 Hm1 Hall). destruct (disk_run order path ov st1 rs), (flat_run s1 rs). destruct IH as [-> ?]. done.
Qed.

(** Mounting an image for the first time. *)
Lemma mount_fresh fs b : fs !! path = Some b -> fs !! ov = None -> fs !! sidecar_path_for ov = None ->
  Z.of_nat (length b) mod SECTOR_SIZE = 0 -> Z.of_nat (length b) < 2 ^ 63 ->
  exists fs' n, open_file_image fs path Disk true (Some ov) = (fs', Ok n) /\ mounted (fs', n) {| durable := b; current := b |}.
Proof.
  intros Hb Hov Hsc Hmod Hs. unfold open_file_image. cbn [bool_decide negb andb]. unfold raw_open, open. rewrite Hb.
  cbn [mbind result_bind]. unfold cow_new. rewrite Hov. eexists _, _. split; [reflexivity|]. cbn [with_base_path node_size].
  unfold load_dirty_sidecar. rewrite lookup_insert_ne by (paths_differ). rewrite Hsc.
  destruct Hpath as (Hp1 & _). apply (mounted_clean _ []); try done.
  - by rewrite lookup_insert_ne by congruence.
  - apply lookup_insert_eq.
Qed.

(** ** What a request leaves alone *)

Lemma step_frame fs n s r p : mounted (fs, n) s -> request_ok r ->
  p <> path -> p <> ov -> p <> sidecar_path_for ov -> p <> sidecar_tmp ov ->
  let '(fs', n', _) := disk_step order path ov (fs, n) r in fs' !! p = fs !! p.
Proof.
  intros Hm Hr H1 H2 H3 H4. destruct r as [off len|off buf|off len| | | |]; cbn [disk_step request_ok] in *.
  - done.
  - pose proof (range_refused _ _ _ off (Z.of_nat (length buf)) Hm Hr ltac:(lia)) as Hcr.
    destruct (in_range s off (Z.of_nat (length buf))) eqn:Hin; [|unfold node_write; by rewrite Hcr].
    pose proof (mounted_length _ _ _ Hm) as (Hlc & _ & _). apply bool_decide_eq_true in Hin. mounted_inv Hm.
    edestruct cow_write_spec as (fs' & dirty' & -> & _ & Hfiles & _); [exact Hwf|exact Hr|lia|]. by apply Hfiles.
  - unfold node_discard. destruct (check_range (node_size n) off len); [|done]. mounted_inv Hm. by destruct (len =? 0).
  - mounted_inv Hm. by apply flush_frame.
  - destruct (sim_commit _ _ _ Hm) as (n' & -> & _). by rewrite !lookup_insert_ne by congruence.
  - mounted_inv Hm. cbn [node_rollback]. by rewrite lookup_delete_ne, lookup_insert_ne by congruence.
  - rewrite (sim_restart _ _ _ Hm). mounted_inv Hm. by apply flush_frame.
Qed.

Lemma run_frame st s rs p : mounted st s -> Forall request_ok rs ->
  p <> path -> p <> ov -> p <> sidecar_path_for ov -> p <> sidecar_tmp ov ->
  let '(fs', n', _) := disk_run order path ov st rs in fs' !! p = fst st !! p.
Proof.
  intros Hm Hall H1 H2 H3 H4. revert st s Hm. induction Hall as [|r rs Hr _ IH]; intros [fs n] s Hm; cbn [disk_run]; [done|].
  pose proof (sim_step (fs, n) s r Hm Hr) as Hs. pose proof (step_frame fs n s r p Hm Hr H1 H2 H3 H4) as Hf.
  destruct (disk_step order path ov (fs, n) r) as [[fs1 n1] o]. destruct (flat_step s r) as [s1 o']. destruct Hs as [_ Hm1].
  specialize (IH _ _ Hm1). destruct (disk_run order path ov (fs1, n1) rs) as [[fs2 n2] os]. cbn [fst] in *. congruence.
Qed.

Lemma flat_run_durable s rs : Forall (fun r => r <> Commit) rs -> durable (fst (flat_run s rs)) = durable s.
Proof.
  intros Hall. revert s. induction Hall as [|r rs Hr _ IH]; intros s; cbn [flat_run]; [done|].
  destruct (flat_step s r) as [s1 o] eqn:E. specialize (IH s1). destruct (flat_run s1 rs). cbn [fst] in *. rewrite IH.
  destruct r; cbn in E; repeat case_match; by injection E as <- _.
Qed.

(** An overlay put back over the same base gives the same image. *)
Lemma sim_import fs n s dest fs1 dl fs2 n2 s2 :
  mounted (fs, n) s -> export_overlay fs n dest = (fs1, Ok dl) -> dest <> ov ->
  mounted (fs2, n2) s2 -> durable s2 = durable s -> fs2 !! dest = fs1 !! dest ->
  exists fs3 n3, import_overlay fs2 n2 dest dl = (fs3, n3, Ok tt) /\ mounted (fs3, n3) s.
Proof.
  intros Hm He Hne Hm2 Hd Hfile. pose proof (mounted_length _ _ _ Hm) as (_ & _ & Hs & Hmod).
  assert (Hov : exists f dirty, fs !! ov = Some f /\ held f dirty (Z.of_nat (length (durable s))) /\
    fs1 !! dest = Some f /\ (list_to_set dl : gset Z) = dirty /\
    current s = map (fun i => if decide (i / SECTOR_SIZE ∈ dirty) then fbyte f i else fbyte (durable s) i)
      (seqZ 0 (Z.of_nat (length (durable s))))).
  { mounted_inv Hm. apply wf_inv in Hwf as (_ & _ & f & Hf & Hh). unfold export_overlay, open in He. rewrite Hf in He.
    injection He as <- <-. exists f, dirty. rewrite lookup_insert_eq. split_and!; try done.
    - rewrite merge_sort_Permutation. apply list_to_set_elements_L.
    - rewrite Hc. apply map_seqZ_ext. intros i _. cbn [byte_of]. by rewrite Hf, Hb. }
  clear Hm. destruct Hov as (f & dirty & _ & Hh & Hf1 & <- & Hcur).
  mounted_inv Hm2. rewrite Hd in *. unfold import_overlay. rewrite Hfile, Hf1, decide_False by done.
  eexists _, _. split; [reflexivity|]. destruct Hpath as (Hp1 & _).
  assert (Hlook : forall g : list Z, <[ov := g]> fs2 !! path = Some (durable s)) by (intros; by rewrite lookup_insert_ne by congruence).
  constructor; [|apply Hlook|done|].
  - apply (mounted_wf _ f); try done. apply lookup_insert_eq.
  - rewrite Hcur. apply map_seqZ_ext. intros i _. cbn [byte_of]. by rewrite lookup_insert_eq, Hlook.
Qed.

Lemma sectors_one lba : sectors (lba * SECTOR_SIZE) SECTOR_SIZE = [lba].
Proof.
  unfold sectors, sectors_for, SECTOR_SIZE. rewrite Z.div_mul by done.
  replace ((lba * 512 + 512 + 512 - 1) / 512) with (lba + 1) by (apply (Z.div_unique _ 512 _ 511); lia).
  replace (lba + 1 - lba) with 1 by lia. unfold seqZ. cbn. f_equal; lia.
Qed.

(** Reading a sector the sidecar claims from an overlay emptied under it. *)
Lemma read_stale fs dirty size lba : fs !! ov = Some [] -> lba ∈ dirty -> 0 <= lba -> (lba + 1) * SECTOR_SIZE <= size ->
  size < 2 ^ 63 ->
  node_read fs (CowNode (Some (RawNode path false size)) (Some path) ov dirty size) (lba * SECTOR_SIZE) SECTOR_SIZE =
    Err UnexpectedEof.
Proof.
  intros Hf Hin Hl Hend Hs. cbn [node_read]. rewrite sectors_one. unfold SECTOR_SIZE in *.
  rewrite check_range_ok, decide_True by lia. cbn [mbind result_bind Z.eqb foldl]. unfold read_step. cbn [mbind result_bind].
  unfold read_sector. rewrite decide_True by done. unfold open. rewrite Hf. cbn [mbind result_bind].
  unfold read_exact. cbn [length]. change (SECTOR_SIZE =? 0) with false.
  by rewrite (proj2 (Z.leb_gt _ _)) by (unfold SECTOR_SIZE; cbn; lia).
Qed.

Lemma mounted_export fs n s dest fs1 dl : mounted (fs, n) s -> export_overlay fs n dest = (fs1, Ok dl) ->
  dest <> path -> dest <> ov -> mounted (fs1, n) s.
Proof.
  intros Hm He H1 H2. apply (mounted_frame fs); [| |done]; mounted_inv Hm; unfold export_overlay in He;
    destruct (open fs ov); injection He as <-; try done; by rewrite lookup_insert_ne.
Qed.


(** The image mounted again over an emptied overlay. *)
Lemma remount_emptied fs b : fs !! path = Some b -> fs !! ov = Some [] ->
  open_file_image fs path Disk true (Some ov) =
    (fs, Ok (CowNode (Some (RawNode path false (Z.of_nat (length b)))) (Some path) ov (load_dirty_sidecar fs (sidecar_path_for ov)) (Z.of_nat (length b)))).
Proof.
  intros Hb Hov. unfold open_file_image. cbn [bool_decide negb andb]. unfold raw_open, open. rewrite Hb.
  cbn [mbind result_bind]. unfold cow_new. by rewrite Hov.
Qed.

Lemma emptied_sidecar fs b : load_dirty_sidecar (<[ov := []]> (<[path := b]> fs)) (sidecar_path_for ov) = load_dirty_sidecar fs (sidecar_path_for ov).
Proof. unfold load_dirty_sidecar. by rewrite !lookup_insert_ne by paths_differ. Qed.

End Simulation.

(** ** Allocation status *)

(** The scan stops at the last sector of the run, given steps enough to reach
    the end of the request. *)
Lemma run_end_spec fuel st end_ s lba : st lba = s -> lba * SECTOR_SIZE < end_ -> end_ <= (lba + 1 + Z.of_nat fuel) * SECTOR_SIZE ->
  let r := run_end fuel st end_ s lba in
  lba <= r /\ r * SECTOR_SIZE < end_ /\ (forall l, lba <= l <= r -> st l = s) /\
  (end_ <= (r + 1) * SECTOR_SIZE \/ st (r + 1) <> s).
Proof.
  revert lba. induction fuel as [|fuel IH]; intros lba Hs Hlt Hfuel; cbn [run_end].
  - split_and!; [lia|done| |left; lia]. intros l Hl. by replace l with lba by lia.
  - destruct (Z.leb_spec end_ ((lba + 1) * SECTOR_SIZE)) as [Hend|Hend]; cbn [orb].
    { split_and!; [lia|done| |by left]. intros l Hl. by replace l with lba by lia. }
    case_bool_decide as Hn; cbn [negb].
    + destruct (IH (lba + 1)) as (H1 & H2 & H3 & H4); [done|lia|lia|]. split_and!; [lia|done| |done].
      intros l Hl. destruct (decide (l = lba)) as [->|]; [done|]. apply H3. lia.
    + split_and!; [lia|done| |by right]. intros l Hl. by replace l with lba by lia.
Qed.

(** ** The claims *)

(** C29: refinement.  A disk mounted copy-on-write over an image of whole
    sectors answers every sequence of reads, writes, discards, flushes, commits,
    rollbacks and clean restarts as an array of bytes does, errors included;
    and the image file only ever holds what was last committed, whatever order
    the dirty set iterates in. *)
Theorem disk_refines_flat (order : gset Z -> list Z) path ov (fs : FS) b rs :
  (forall d, order d ≡ₚ elements d) ->
  path <> ov /\ path <> sidecar_path_for ov /\ path <> sidecar_tmp ov ->
  fs !! path = Some b -> fs !! ov = None -> fs !! sidecar_path_for ov = None ->
  Z.of_nat (length b) mod SECTOR_SIZE = 0 -> Z.of_nat (length b) < 2 ^ 63 -> Forall request_ok rs ->
  exists fs0 n0, open_file_image fs path Disk true (Some ov) = (fs0, Ok n0) /\
    let '(fs', n', os) := disk_run order path ov (fs0, n0) rs in
    let '(s', os') := flat_run {| durable := b; current := b |} rs in
    os = os' /\ fs' !! path = Some (durable s').
Proof.
  intros Ho Hp Hb Hov Hsc Hm Hs Hall. destruct (mount_fresh path ov Hp fs b) as (fs0 & n0 & Hopen & Hmt); [done..|].
  exists fs0, n0. split; [done|]. pose proof (sim_run order path ov Ho Hp _ _ rs Hmt Hall) as Hrun.
  destruct (disk_run order path ov (fs0, n0) rs) as [[fs' n'] os], (flat_run _ rs) as [s' os'].
  destruct Hrun as [-> Hm']. by inversion Hm'.
Qed.

(** Round trip.  An overlay exported for a snapshot and imported back after
    any requests but a commit restores every byte the disk held when it was
    exported. *)
Theorem snapshot_restores (order : gset Z -> list Z) path ov fs n s dest fs1 dl rs :
  (forall d, order d ≡ₚ elements d) ->
  path <> ov /\ path <> sidecar_path_for ov /\ path <> sidecar_tmp ov ->
  dest <> path /\ dest <> ov /\ dest <> sidecar_path_for ov /\ dest <> sidecar_tmp ov ->
  mounted path ov (fs, n) s -> export_overlay fs n dest = (fs1, Ok dl) ->
  Forall request_ok rs -> Forall (fun r => r <> Commit) rs ->
  let '(fs2, n2, _) := disk_run order path ov (fs1, n) rs in
  exists fs3 n3, import_overlay fs2 n2 dest dl = (fs3, n3, Ok tt) /\
    forall off len, 0 <= off -> 0 <= len -> node_read fs3 n3 off len = node_read fs n off len.
Proof.
  intros Ho Hp (Hd1 & Hd2 & Hd3 & Hd4) Hm He Hall Hnc.
  pose proof (mounted_export path ov Hp _ _ _ _ _ _ Hm He Hd1 Hd2) as Hm1.
  pose proof (sim_run order path ov Ho Hp _ _ rs Hm1 Hall) as Hrun.
  pose proof (run_frame order path ov Ho Hp _ _ rs dest Hm1 Hall Hd1 Hd2 Hd3 Hd4) as Hframe.
  pose proof (flat_run_durable s rs Hnc) as Hdur.
  destruct (disk_run order path ov (fs1, n) rs) as [[fs2 n2] os], (flat_run s rs) as [s2 os']. destruct Hrun as [_ Hm2].
  destruct (sim_import path ov Hp fs n s dest fs1 dl fs2 n2 s2) as (fs3 & n3 & Hi & Hm3); [done..|].
  exists fs3, n3. split; [done|]. intros off len Hoff Hlen.
  by rewrite (sim_read path ov fs3 n3 s), (sim_read path ov fs n s).
Qed.

(** C40: what a crash after a commit leaves.  From any state of a mounted disk,
    a commit writes the disk to its base and empties the overlay but keeps the
    sidecar that the last flush wrote, whenever that was; the image mounted
    again takes every sector of that sidecar from the emptied overlay, so that
    reading one is an unexpected end of file, although the base holds the data
    and the node that committed reads it.  A rollback from the same state
    removes the sidecar, and the image mounted again reads as its base
    everywhere. *)
Theorem commit_leaves_stale_sidecar (order : gset Z -> list Z) path ov fs n s :
  (forall d, order d ≡ₚ elements d) ->
  path <> ov /\ path <> sidecar_path_for ov /\ path <> sidecar_tmp ov ->
  mounted path ov (fs, n) s ->
  (exists fs2 n2 n3, node_commit order fs n = (fs2, n2, Ok (dirty_count n)) /\ fs2 !! path = Some (current s) /\
    open_file_image fs2 path Disk true (Some ov) = (fs2, Ok n3) /\
    forall lba, lba ∈ load_dirty_sidecar fs (sidecar_path_for ov) -> 0 <= lba -> (lba + 1) * SECTOR_SIZE <= Z.of_nat (length (current s)) ->
      node_read fs2 n2 (lba * SECTOR_SIZE) SECTOR_SIZE = Ok (slice (current s) (lba * SECTOR_SIZE) SECTOR_SIZE) /\
      node_read fs2 n3 (lba * SECTOR_SIZE) SECTOR_SIZE = Err UnexpectedEof) /\
  (exists fs2 n2 n3, node_rollback fs n = (fs2, n2) /\ fs2 !! path = Some (durable s) /\
    open_file_image fs2 path Disk true (Some ov) = (fs2, Ok n3) /\
    forall off len, 0 <= off -> 0 <= len -> off + len <= Z.of_nat (length (durable s)) ->
      node_read fs2 n3 off len = Ok (slice (durable s) off len)).
Proof.
  intros Ho Hp Hm. pose proof (mounted_length path ov _ _ _ Hm) as (Hlc & _ & Hs & Hmod). split.
  - destruct (sim_commit order path ov Ho Hp _ _ _ Hm) as (n2 & Hc & Hm2). set (fs2 := <[ov := []]> _) in *.
    assert (Hp2 : fs2 !! path = Some (current s)) by (by inversion Hm2).
    pose proof (remount_emptied path ov fs2 _ Hp2 (lookup_insert_eq _ _ _)) as Hopen.
    eexists fs2, n2, _. split_and!; [done|done|exact Hopen|]. intros lba Hin Hl0 Hl1.
    rewrite (sim_read path ov _ _ _ _ _ Hm2) by (unfold SECTOR_SIZE; lia). unfold in_range. cbn [current].
    rewrite bool_decide_true by lia. split; [done|]. apply read_stale; [apply lookup_insert_eq| |done|done|lia].
    unfold fs2. by rewrite (emptied_sidecar path ov Hp fs).
  - pose proof (sim_rollback path ov Hp _ _ _ Hm) as Hm2. destruct (node_rollback fs n) as [fs2 n2] eqn:Er.
    assert (Hf2 : fs2 !! path = Some (durable s)) by (by inversion Hm2).
    assert (Hf3 : fs2 !! ov = Some [] /\ fs2 !! sidecar_path_for ov = None).
    { inversion Hm; subst. cbn in Er. injection Er as <- _. destruct (sidecar_ne ov) as (? & _).
      rewrite lookup_delete_eq, lookup_delete_ne by congruence. by rewrite lookup_insert_eq. }
    destruct Hf3 as [Hov Hsc]. eexists fs2, n2, _. split_and!; [done|done|by apply (remount_emptied path ov)|].
    intros off len Hoff Hlen Hend. assert (load_dirty_sidecar fs2 (sidecar_path_for ov) = ∅) as -> by (unfold load_dirty_sidecar; by rewrite Hsc).
    rewrite (sim_read path ov _ _ _ _ _ (mounted_clean path ov Hp fs2 [] _ Hf2 Hov Hmod Hs)) by done.
    unfold in_range. cbn [current]. by rewrite bool_decide_true by lia.
Qed.

(** functional behaviour.  [block_status] answers with the longest run of
    the request whose sectors are in the same state: it is never empty, it says
    where the bytes come from, and the sector after it, if the request goes
    on, is in another state. *)
Theorem block_status_longest_run fs backing base ov dirty size off len :
  let n := CowNode backing base ov dirty size in
  wf fs n -> 0 <= off -> 0 < len -> off + len <= size ->
  exists st, block_status n off len = Ok st /\ 0 < status_len st <= len /\
    (forall i, off <= i < off + status_len st ->
      match state st with
      | Data => i / SECTOR_SIZE ∈ dirty
      | Allocated => exists b o, backing = Some b /\ backing_offset st = Some o /\ byte_of fs n i = byte_of fs b (o + (i - off))
      | Zero => byte_of fs n i = 0
      end) /\
    (status_len st = len \/
      ((off + status_len st) mod SECTOR_SIZE = 0 /\
       sector_state backing dirty ((off + status_len st) / SECTOR_SIZE) <> state st)).
Proof.
  intros n Hwf Ho Hl Hend. pose proof (wf_size _ _ Hwf) as Hsz. cbn [node_size n] in Hsz. unfold block_status. cbn [node_size n].
  rewrite check_range_ok, decide_True by lia. cbn [mbind result_bind]. rewrite (proj2 (Z.eqb_neq _ _)) by lia.
  cbn [sectors_for]. set (first := off / SECTOR_SIZE). pose proof (proj2 (sector_of first off) eq_refl) as Hfirst.
  set (st := sector_state backing dirty). pose proof (Z.div_mod len SECTOR_SIZE ltac:(done)).
  pose proof (Z.mod_pos_bound len SECTOR_SIZE ltac:(done)).
  destruct (run_end_spec (Z.to_nat (len / SECTOR_SIZE + 2)) st (off + len) (st first) first) as (H1 & H2 & H3 & H4); [done|lia| |].
  { assert (0 <= len / SECTOR_SIZE) by (apply Z.div_pos; [lia|done]). unfold SECTOR_SIZE in *. lia. }
  set (r := run_end _ st _ _ _) in *. eexists. split; [reflexivity|]. cbn [status_len state backing_offset].
  assert (Hrun : forall i, off <= i < off + (Z.min ((r + 1) * SECTOR_SIZE) (off + len) - off) -> st (i / SECTOR_SIZE) = st first).
  { intros i Hi. apply H3. pose proof (proj2 (sector_of (i / SECTOR_SIZE) i) eq_refl). unfold SECTOR_SIZE in *. lia. }
  split; [unfold SECTOR_SIZE in *; lia|]. split.
  - intros i Hi. specialize (Hrun i Hi). rewrite <- Hrun. unfold st, sector_state. cbn [byte_of n].
    destruct (decide (i / SECTOR_SIZE ∈ dirty)); [done|]. destruct backing as [b|]; [|done].
    exists b, off. split; [done|]. split; [done|]. f_equal. lia.
  - destruct (Z.le_gt_cases (off + len) ((r + 1) * SECTOR_SIZE)); [left; lia|right]. destruct H4 as [?|H4]; [lia|].
    replace (off + (Z.min ((r + 1) * SECTOR_SIZE) (off + len) - off)) with ((r + 1) * SECTOR_SIZE) by lia.
    unfold SECTOR_SIZE in *. rewrite Z.mod_mul, Z.div_mul by done. done.
Qed.

(** ** Witnesses *)

(** A two-sector image [d], its overlay [o] holding the first sector. *)
Definition example_base : list Z := replicate 1024 7.
Definition example_fs : FS := {[ "d" := example_base ]}.
Definition example_overlay_fs : FS := <["o" := replicate 512 9]> example_fs.
Definition example_node : Node := CowNode (Some (RawNode "d" false 1024)) (Some "d") "o" {[0]} 1024.
Definition example_flat : Flat :=
  {| durable := example_base; current := map (byte_of example_overlay_fs example_node) (seqZ 0 1024) |}.

Lemma example_wf : wf example_overlay_fs example_node.
Proof.
  apply (mounted_wf "d" "o" ltac:(done) example_overlay_fs (replicate 512 9) {[0]} example_base); try reflexivity.
  intros lba ->%elem_of_singleton. vm_compute. done.
Qed.

Lemma example_mounted : mounted "d" "o" (example_overlay_fs, example_node) example_flat.
Proof. apply mounted_intro; [apply example_wf|reflexivity..]. Qed.

Lemma disk_refines_flat_witness :
  exists fs0 n0, open_file_image example_fs "d" Disk true (Some "o") = (fs0, Ok n0) /\
    let rs := [Write 510 [1; 2; 3; 4]; Read 508 8; Commit; Restart; Read 1020 8; Rollback] in
    let '(fs', n', os) := disk_run elements "d" "o" (fs0, n0) rs in
    let '(s', os') := flat_run {| durable := example_base; current := example_base |} rs in
    os = os' /\ fs' !! "d" = Some (durable s').
Proof.
  apply (disk_refines_flat elements "d" "o" example_fs example_base); try done.
  repeat constructor; cbn; lia.
Defined.

Lemma snapshot_restores_witness :
  exists fs1 dl, export_overlay example_overlay_fs example_node "s" = (fs1, Ok dl) /\
    let '(fs2, n2, _) := disk_run elements "d" "o" (fs1, example_node) [Write 510 [1; 2; 3; 4]; Flush] in
    exists fs3 n3, import_overlay fs2 n2 "s" dl = (fs3, n3, Ok tt) /\
      forall off len, 0 <= off -> 0 <= len ->
        node_read fs3 n3 off len = node_read example_overlay_fs example_node off len.
Proof.
  eexists _, _. split; [reflexivity|].
  apply (snapshot_restores elements "d" "o" example_overlay_fs example_node example_flat "s"); try done.
  - apply example_mounted.
  - repeat constructor; cbn; lia.
  - repeat constructor; discriminate.
Defined.

(** A flush, then a write to another sector, then the commit. *)
Lemma commit_leaves_stale_sidecar_witness :
  exists fs n fs2 n2 n3 r, disk_run elements "d" "o" (example_overlay_fs, example_node) [Flush; Write 600 [1]] = (fs, n, r) /\
    node_commit elements fs n = (fs2, n2, Ok 2%nat) /\ open_file_image fs2 "d" Disk true (Some "o") = (fs2, Ok n3) /\
    node_read fs2 n3 0 512 = Err UnexpectedEof.
Proof.
  pose proof (sim_run elements "d" "o" ltac:(done) ltac:(done) _ _ [Flush; Write 600 [1]] example_mounted) as Hrun.
  destruct (disk_run elements "d" "o" (example_overlay_fs, example_node) [Flush; Write 600 [1]]) as [[fs n] r] eqn:Er.
  destruct (flat_run example_flat [Flush; Write 600 [1]]) as [s' os'] eqn:Es.
  destruct Hrun as [_ Hm]; [repeat constructor; cbn; lia|].
  destruct (commit_leaves_stale_sidecar elements "d" "o" fs n s') as [(fs2 & n2 & n3 & Hc & _ & Hop & Hr) _]; [done|done|exact Hm|].
  exists fs, n, fs2, n2, n3, r. split; [done|]. split; [|split; [done|]].
  - rewrite Hc. do 2 f_equal. vm_compute in Er. injection Er as _ <- _. reflexivity.
  - refine (proj2 (Hr 0 _ _ _)); [|done|].
    + vm_compute in Er. injection Er as <- _ _. by apply (bool_decide_unpack _).
    + injection Es as <- _. vm_compute. discriminate.
Defined.

Lemma block_status_longest_run_witness :
  exists st, block_status example_node 100 900 = Ok st /\ 0 < status_len st <= 900 /\
    (forall i, 100 <= i < 100 + status_len st ->
      match state st with
      | Data => i / SECTOR_SIZE ∈ ({[0]} : gset Z)
      | Allocated => exists b o, Some (RawNode "d" false 1024) = Some b /\ backing_offset st = Some o /\
          byte_of example_overlay_fs example_node i = byte_of example_overlay_fs b (o + (i - 100))
      | Zero => byte_of example_overlay_fs example_node i = 0
      end) /\
    (status_len st = 900 \/
      ((100 + status_len st) mod SECTOR_SIZE = 0 /\
       sector_state (Some (RawNode "d" false 1024)) {[0]} ((100 + status_len st) / SECTOR_SIZE) <> state st)).
Proof.
  apply (block_status_longest_run example_overlay_fs); [|lia..].
  apply example_wf.
Defined.

End BlockClaims.
