(* ===== verification/Packet.v ===== *)
(** * Ethernet, ARP, IPv4, ICMP, UDP and TCP packets (src/src/net/packet.rs)

    Views over received bytes and builders of frames.  A frame is a list of
    bytes; offsets and lengths are natural numbers.  A view checks on parsing
    that every field it exposes is there, so its accessors read with a default
    that is never used on a parsed view ([PacketProofs] shows it).  Addresses
    are the lists of their octets. *)

From S2P Require Import Prelude.

#[local] Open Scope Z_scope.

Module Packet.

Definition BROADCAST_MAC : list Z := replicate 6 0xff.

Definition ETHERTYPE_IPV4 : Z := 0x0800.
Definition ETHERTYPE_ARP : Z := 0x0806.

Definition PROTO_ICMP : Z := 1.
Definition PROTO_TCP : Z := 6.
Definition PROTO_UDP : Z := 17.

Definition ETH_HDR : nat := 14.
Definition IPV4_HDR : nat := 20.
Definition UDP_HDR : nat := 8.
Definition TCP_HDR : nat := 20.
Definition ETH_MIN : nat := 60.
Definition MTU : nat := 1500.
Definition TCP_MSS : Z := u16 (Z.of_nat (MTU - IPV4_HDR - TCP_HDR)).

(** ** Fields *)

Definition rd (b : list Z) (o : nat) : Z := default 0 (b !! o).

(** [from_be_bytes] *)
Definition be16 (b : list Z) (o : nat) : Z := rd b o .<< 8 .| rd b (o + 1).
Definition be32 (b : list Z) (o : nat) : Z :=
  rd b o .<< 24 .| rd b (o + 1) .<< 16 .| rd b (o + 2) .<< 8 .| rd b (o + 3).

(** [to_be_bytes] *)
Definition to_be16 (v : Z) : list Z := [u8 (v .>> 8); u8 v].
Definition to_be32 (v : Z) : list Z := [u8 (v .>> 24); u8 (v .>> 16); u8 (v .>> 8); u8 v].

(** [b[o .. o + len].copy_from_slice(src)] *)
Fixpoint put (b : list Z) (o : nat) (src : list Z) : list Z :=
  match src with [] => b | x :: src' => put (<[o := x]> b) (S o) src' end.

Definition put16 (b : list Z) (o : nat) (v : Z) : list Z := put b o (to_be16 v).
Definition put32 (b : list Z) (o : nat) (v : Z) : list Z := put b o (to_be32 v).
Definition range (b : list Z) (from to : nat) : list Z := take (to - from) (drop from b).
Definition ip_at (b : list Z) (o : nat) : list Z := [rd b o; rd b (o + 1); rd b (o + 2); rd b (o + 3)].
Definition mac_at (b : list Z) (o : nat) : list Z := range b o (o + 6).

(** ** Checksums *)

Fixpoint sum16 (acc : Z) (data : list Z) : Z :=
  match data with
  | hi :: lo :: data' => sum16 (u32 (acc + (hi .<< 8 .| lo))) data'
  | [last] => u32 (acc + last .<< 8)
  | [] => acc
  end.

(** A 32-bit sum is folded in at most two turns. *)
Fixpoint fold_loop (fuel : nat) (acc : Z) : Z :=
  match fuel with
  | O => acc
  | S fuel' => if acc .>> 16 =? 0 then acc else fold_loop fuel' ((acc .& 0xffff) + (acc .>> 16))
  end.

Definition fold (acc : Z) : Z := bnot 16 (u16 (fold_loop 3 acc)).

Definition checksum (data : list Z) : Z := fold (sum16 0 data).

Definition pseudo_checksum (src dst : list Z) (proto : Z) (segment : list Z) : Z :=
  let acc := sum16 (sum16 0 src) dst in
  let acc := u32 (acc + proto) in
  let acc := u32 (acc + u32 (Z.of_nat (length segment))) in
  fold (sum16 acc segment).

(** ** Ethernet *)

Record Ether : Type := { eth_b : list Z }.

Definition ether_parse (b : list Z) : option Ether :=
  if (ETH_HDR <=? length b)%nat then Some {| eth_b := b |} else None.
Definition eth_dst (e : Ether) : list Z := mac_at (eth_b e) 0.
Definition eth_src (e : Ether) : list Z := mac_at (eth_b e) 6.
Definition ethertype (e : Ether) : Z := be16 (eth_b e) 12.
Definition eth_payload (e : Ether) : list Z := drop ETH_HDR (eth_b e).

Definition write_ether (dst src : list Z) (ethertype : Z) : list Z := dst ++ src ++ to_be16 ethertype.

Definition pad (f : list Z) : list Z := f ++ replicate (ETH_MIN - length f) 0.

Definition ether (dst src : list Z) (ethertype : Z) (payload : list Z) : list Z :=
  pad (write_ether dst src ethertype ++ payload).

(** ** ARP *)

Definition ARP_REQUEST : Z := 1.
Definition ARP_REPLY : Z := 2.
Definition ARP_LEN : nat := 28.

Record Arp : Type := { arp_b : list Z }.

Definition arp_parse (b : list Z) : option Arp :=
  if (ARP_LEN <=? length b)%nat && (be16 b 0 =? 1) && (be16 b 2 =? ETHERTYPE_IPV4) && (rd b 4 =? 6) && (rd b 5 =? 4)
  then Some {| arp_b := b |} else None.
Definition arp_op (a : Arp) : Z := be16 (arp_b a) 6.
Definition sender_mac (a : Arp) : list Z := mac_at (arp_b a) 8.
Definition sender_ip (a : Arp) : list Z := ip_at (arp_b a) 14.
Definition target_mac (a : Arp) : list Z := mac_at (arp_b a) 18.
Definition target_ip (a : Arp) : list Z := ip_at (arp_b a) 24.

Definition eth_arp (e : Ether) : option Arp :=
  if ethertype e =? ETHERTYPE_ARP then arp_parse (eth_payload e) else None.

Definition arp (op : Z) (s_mac s_ip t_mac t_ip : list Z) : list Z :=
  let a := replicate ARP_LEN 0 in
  let a := put16 a 0 1 in
  let a := put16 a 2 ETHERTYPE_IPV4 in
  let a := <[4%nat := 6]> a in
  let a := <[5%nat := 4]> a in
  let a := put16 a 6 op in
  let a := put a 8 s_mac in
  let a := put a 14 s_ip in
  let a := put a 18 t_mac in
  let a := put a 24 t_ip in
  let dst := if op =? ARP_REQUEST then BROADCAST_MAC else t_mac in
  ether dst s_mac ETHERTYPE_ARP a.

(** ** IPv4 *)

Definition IP_MF : Z := 0x2000.
Definition IP_OFFSET_MASK : Z := 0x1fff.

Record Ipv4 : Type := { ip_b : list Z; hlen : nat; end_ : nat }.

Definition ipv4_parse (b : list Z) : option Ipv4 :=
  if (length b <? IPV4_HDR)%nat || negb (rd b 0 .>> 4 =? 4) then None
  else
    let hl := (Z.to_nat (rd b 0 .& 0x0f) * 4)%nat in
    let total := Z.to_nat (be16 b 2) in
    if (hl <? IPV4_HDR)%nat || (length b <? hl)%nat || (total <? hl)%nat then None
    else Some {| ip_b := b; hlen := hl; end_ := Nat.min total (length b) |}.

Definition ip_id (i : Ipv4) : Z := be16 (ip_b i) 4.
Definition more_fragments (i : Ipv4) : bool := negb (be16 (ip_b i) 6 .& IP_MF =? 0).
Definition frag_offset (i : Ipv4) : nat := (Z.to_nat (be16 (ip_b i) 6 .& IP_OFFSET_MASK) * 8)%nat.
Definition is_fragment (i : Ipv4) : bool := more_fragments i || negb (frag_offset i =? 0)%nat.
Definition ttl (i : Ipv4) : Z := rd (ip_b i) 8.
Definition ip_proto (i : Ipv4) : Z := rd (ip_b i) 9.
Definition ip_src (i : Ipv4) : list Z := ip_at (ip_b i) 12.
Definition ip_dst (i : Ipv4) : list Z := ip_at (ip_b i) 16.
Definition ip_header (i : Ipv4) : list Z := take (hlen i) (ip_b i).
Definition ip_payload (i : Ipv4) : list Z := range (ip_b i) (hlen i) (end_ i).
Definition checksum_ok (i : Ipv4) : bool := checksum (ip_header i) =? 0.

Definition eth_ipv4 (e : Ether) : option Ipv4 :=
  if ethertype e =? ETHERTYPE_IPV4 then ipv4_parse (eth_payload e) else None.

(** ** TCP *)

Definition FIN : Z := 0x01.
Definition SYN : Z := 0x02.
Definition RST : Z := 0x04.
Definition PSH : Z := 0x08.
Definition ACK : Z := 0x10.
Definition SYN_ACK : Z := 0x12.
Definition FIN_ACK : Z := 0x11.
Definition RST_ACK : Z := 0x14.
Definition PSH_ACK : Z := 0x18.

(** [TcpFlags::has] *)
Definition has_flag (flags f : Z) : bool := flags .& f =? f.

Record Tcp : Type := { tcp_b : list Z; tcp_hlen : nat }.

Definition tcp_parse (b : list Z) : option Tcp :=
  if (length b <? TCP_HDR)%nat then None
  else
    let hl := (Z.to_nat (rd b 12 .>> 4) * 4)%nat in
    if (TCP_HDR <=? hl)%nat && (hl <=? length b)%nat then Some {| tcp_b := b; tcp_hlen := hl |} else None.

Definition tcp_sport (t : Tcp) : Z := be16 (tcp_b t) 0.
Definition tcp_dport (t : Tcp) : Z := be16 (tcp_b t) 2.
Definition tcp_seq (t : Tcp) : Z := be32 (tcp_b t) 4.
Definition tcp_ack (t : Tcp) : Z := be32 (tcp_b t) 8.
Definition tcp_flags (t : Tcp) : Z := rd (tcp_b t) 13 .& 0x3f.
Definition tcp_window (t : Tcp) : Z := be16 (tcp_b t) 14.
Definition tcp_payload (t : Tcp) : list Z := drop (tcp_hlen t) (tcp_b t).
Definition seq_len (t : Tcp) : Z :=
  u32 (u32 (Z.of_nat (length (tcp_payload t))) + bool_to_Z (has_flag (tcp_flags t) SYN) + bool_to_Z (has_flag (tcp_flags t) FIN)).

(** The option list, walked from its start; an option takes at least one byte. *)
Fixpoint mss_loop (fuel : nat) (opts : list Z) (i : nat) : option Z :=
  match fuel with
  | O => None
  | S fuel' =>
      match opts !! i with
      | None => None
      | Some kind =>
          if kind =? 0 then None
          else if kind =? 1 then mss_loop fuel' opts (i + 1)
          else
            l ← opts !! (i + 1)%nat;
            let len := Z.to_nat l in
            if (len <? 2)%nat || (length opts <? i + len)%nat then None
            else if (kind =? 2) && (len =? 4)%nat then Some (be16 opts (i + 2))
            else mss_loop fuel' opts (i + len)
      end
  end.

Definition tcp_mss (t : Tcp) : option Z :=
  let opts := range (tcp_b t) TCP_HDR (tcp_hlen t) in mss_loop (length opts) opts 0.

Record TcpHeader : Type := {
  sport : Z;
  dport : Z;
  seq : Z;
  ack : Z;
  flags : Z;
  window : Z;
  mss : option Z;
}.

(** ** UDP and ICMP *)

Record Udp : Type := { udp_b : list Z }.

Definition udp_parse (b : list Z) : option Udp :=
  if (length b <? UDP_HDR)%nat then None
  else
    let len := Z.to_nat (be16 b 4) in
    let e := if (UDP_HDR <=? len)%nat && (len <=? length b)%nat then len else length b in
    Some {| udp_b := take e b |}.

Definition udp_sport (u : Udp) : Z := be16 (udp_b u) 0.
Definition udp_dport (u : Udp) : Z := be16 (udp_b u) 2.
Definition udp_payload (u : Udp) : list Z := drop UDP_HDR (udp_b u).

Record Icmp : Type := { icmp_b : list Z }.

Definition icmp_parse (b : list Z) : option Icmp :=
  if (8 <=? length b)%nat then Some {| icmp_b := b |} else None.

Definition ip_tcp (i : Ipv4) : option Tcp :=
  if (ip_proto i =? PROTO_TCP) && negb (is_fragment i) then tcp_parse (ip_payload i) else None.
Definition ip_udp (i : Ipv4) : option Udp :=
  if (ip_proto i =? PROTO_UDP) && negb (is_fragment i) then udp_parse (ip_payload i) else None.
Definition ip_icmp (i : Ipv4) : option Icmp :=
  if (ip_proto i =? PROTO_ICMP) && negb (is_fragment i) then icmp_parse (ip_payload i) else None.

(** ** Building datagrams *)

Record Ipv4Route : Type := { dst_mac : list Z; src_mac : list Z; src : list Z; dst : list Z }.

(** Ethernet and IPv4 headers of a datagram with [l4_len] bytes to follow. *)
Definition ip_start (r : Ipv4Route) (proto id frag : Z) (l4_len : nat) : list Z :=
  let h := replicate IPV4_HDR 0 in
  let h := <[0%nat := 0x45]> h in
  let h := put16 h 2 (u16 (Z.of_nat (IPV4_HDR + l4_len))) in
  let h := put16 h 4 id in
  let h := put16 h 6 frag in
  let h := <[8%nat := 64]> h in
  let h := <[9%nat := proto]> h in
  let h := put h 12 (src r) in
  let h := put h 16 (dst r) in
  write_ether (dst_mac r) (src_mac r) ETHERTYPE_IPV4 ++ put16 h 10 (checksum h).

Definition route_raw (r : Ipv4Route) (proto id : Z) (payload : list Z) : list Z :=
  pad (ip_start r proto id 0 (length payload) ++ payload).

Definition route_icmp (r : Ipv4Route) (id ty code : Z) (rest body : list Z) : list Z :=
  let m := [ty; code; 0; 0] ++ rest ++ body in
  pad (ip_start r PROTO_ICMP id 0 (8 + length body) ++ put16 m 2 (checksum m)).

Definition write_udp (s d : list Z) (sp dp : Z) (payload : list Z) : list Z :=
  let m := to_be16 sp ++ to_be16 dp ++ to_be16 (u16 (Z.of_nat (UDP_HDR + length payload))) ++ [0; 0] ++ payload in
  let c := pseudo_checksum s d PROTO_UDP m in
  put16 m 6 (if c =? 0 then 0xffff else c).

Definition route_udp (r : Ipv4Route) (id sp dp : Z) (payload : list Z) : list Z :=
  pad (ip_start r PROTO_UDP id 0 (UDP_HDR + length payload) ++ write_udp (src r) (dst r) sp dp payload).

Definition CHUNK : nat := (MTU - IPV4_HDR) / 8 * 8.

(** [chunks(CHUNK)] with their offsets; each turn takes at least one byte. *)
Fixpoint chunks_from (fuel : nat) (o : nat) (l : list Z) : list (nat * list Z) :=
  match fuel, l with
  | S fuel', _ :: _ => (o, take CHUNK l) :: chunks_from fuel' (o + CHUNK) (drop CHUNK l)
  | _, _ => []
  end.

Definition fragment (r : Ipv4Route) (id : Z) (total : nat) (c : nat * list Z) : list Z :=
  let '(offset, chunk) := c in
  let more := (offset + length chunk <? total)%nat in
  let frag := u16 (Z.of_nat (offset / 8)) .| (if more then IP_MF else 0) in
  pad (ip_start r PROTO_UDP id frag (length chunk) ++ chunk).

Definition udp_fragments (r : Ipv4Route) (id sp dp : Z) (payload : list Z) : list (list Z) :=
  if (UDP_HDR + length payload <=? MTU - IPV4_HDR)%nat then [route_udp r id sp dp payload]
  else
    let dgram := write_udp (src r) (dst r) sp dp payload in
    map (fragment r id (length dgram)) (chunks_from (length dgram) 0 dgram).

Definition route_tcp (r : Ipv4Route) (id : Z) (h : TcpHeader) (payload : list Z) : list Z :=
  let opt_len := match mss h with Some _ => 4%nat | None => 0%nat end in
  let hdr := (TCP_HDR + opt_len)%nat in
  let t := replicate hdr 0 in
  let t := put16 t 0 (sport h) in
  let t := put16 t 2 (dport h) in
  let t := put32 t 4 (seq h) in
  let t := put32 t 8 (ack h) in
  let t := <[12%nat := shl 8 (u8 (Z.of_nat (hdr / 4))) 4]> t in
  let t := <[13%nat := flags h]> t in
  let t := put16 t 14 (window h) in
  let t := match mss h with Some m => put16 (<[21%nat := 4]> (<[20%nat := 2]> t)) 22 m | None => t end in
  let f := t ++ payload in
  let c := pseudo_checksum (src r) (dst r) PROTO_TCP f in
  pad (ip_start r PROTO_TCP id 0 (hdr + length payload) ++ put16 f 16 c).

End Packet.
