(* ===== verification/PacketProofs.v ===== *)
(** * What a built frame says when it is parsed

    Byte order, the Internet checksum as a residue modulo 65535, and the parse
    of a datagram with any transport payload, which the theorems about TCP
    segments, UDP datagrams and fragments share. *)

From S2P Require Import Prelude Packet.
Import Packet.

#[local] Open Scope Z_scope.

Module PacketProofs.

Definition byte (x : Z) : Prop := 0 <= x < 256.
Definition is_u16 (x : Z) : Prop := 0 <= x < 65536.
Definition is_u32 (x : Z) : Prop := 0 <= x < 2 ^ 32.

(** ** Byte order *)

Lemma word_of_bytes hi lo : byte lo -> hi .<< 8 .| lo = hi * 256 + lo.
Proof. intros Hl. rewrite Z.shiftl_mul_pow2 by lia. by apply lor_block. Qed.

Lemma u8_byte x : byte (u8 x).
Proof. apply Z.mod_pos_bound. lia. Qed.

Lemma be16_split v : is_u16 v -> u8 (v .>> 8) .<< 8 .| u8 v = v.
Proof.
  intros Hv. rewrite word_of_bytes by apply u8_byte. unfold u8, wrap, is_u16 in *. rewrite Z.shiftr_div_pow2 by lia.
  change (2 ^ 8) with 256. pose proof (Z.div_mod v 256). pose proof (Z.div_lt_upper_bound v 256 256).
  rewrite (Z.mod_small (v / 256)) by (pose proof (Z.div_pos v 256); lia). lia.
Qed.

Lemma long_of_bytes a b c d : byte b -> byte c -> byte d ->
  a .<< 24 .| b .<< 16 .| c .<< 8 .| d = ((a * 256 + b) * 256 + c) * 256 + d.
Proof.
  unfold byte. intros Hb Hc Hd. rewrite !Z.shiftl_mul_pow2 by lia.
  rewrite (lor_block a 24) by (unfold fits; lia).
  replace (a * 2 ^ 24 + b * 2 ^ 16) with ((a * 256 + b) * 2 ^ 16) by lia. rewrite lor_block by (unfold fits; lia).
  replace ((a * 256 + b) * 2 ^ 16 + c * 2 ^ 8) with (((a * 256 + b) * 256 + c) * 2 ^ 8) by lia.
  rewrite lor_block by (unfold fits; lia). lia.
Qed.

Lemma be32_split v : is_u32 v ->
  u8 (v .>> 24) .<< 24 .| u8 (v .>> 16) .<< 16 .| u8 (v .>> 8) .<< 8 .| u8 v = v.
Proof.
  unfold is_u32. intros Hv. rewrite long_of_bytes by apply u8_byte. unfold u8, wrap. rewrite !Z.shiftr_div_pow2 by lia.
  change (2 ^ 24) with (256 * 256 * 256). change (2 ^ 16) with (256 * 256). change (2 ^ 8) with 256.
  rewrite <- !Z.div_div by lia. Z.to_euclidean_division_equations. lia.
Qed.

(** ** Checksums *)

(** The sum of a buffer's 16-bit words. *)
Fixpoint wsum (l : list Z) : Z :=
  match l with
  | hi :: lo :: l' => (hi .<< 8 .| lo) + wsum l'
  | [last] => last .<< 8
  | [] => 0
  end.

(** Induction two elements at a time. *)
Lemma pair_ind (P : list Z -> Prop) : P [] -> (forall x, P [x]) -> (forall x y l, P l -> P (x :: y :: l)) -> forall l, P l.
Proof.
  intros H0 H1 H2. fix IH 1. intros [|x [|y l]]; [done|apply H1|]. apply H2. apply IH.
Qed.

Lemma wsum_bound l : Forall byte l -> 0 <= wsum l /\ 2 * wsum l <= 65535 * (Z.of_nat (length l) + 1).
Proof.
  induction l as [|x|x y l IH] using pair_ind; intros Hb; cbn [wsum length].
  - lia.
  - apply Forall_cons in Hb as [Hx _]. rewrite Z.shiftl_mul_pow2 by lia. unfold byte in Hx. lia.
  - apply Forall_cons in Hb as [Hx Hb]. apply Forall_cons in Hb as [Hy Hb]. rewrite word_of_bytes by done.
    specialize (IH Hb). unfold byte in *. lia.
Qed.

Lemma sum16_wsum l acc : Forall byte l -> 0 <= acc -> acc + wsum l < 2 ^ 32 -> sum16 acc l = acc + wsum l.
Proof.
  revert acc. induction l as [|x|x y l IH] using pair_ind; intros acc Hb Ha Hs; cbn [wsum sum16] in *.
  - lia.
  - apply Forall_cons in Hb as [Hx _]. unfold u32. apply wrap_small. unfold fits.
    rewrite Z.shiftl_mul_pow2 in * by lia. unfold byte in Hx. lia.
  - apply Forall_cons in Hb as [Hx Hb]. apply Forall_cons in Hb as [Hy Hb]. pose proof (wsum_bound l Hb) as Hw.
    assert (Hxy : 0 <= x .<< 8 .| y) by (rewrite word_of_bytes by done; unfold byte in *; lia).
    unfold u32. rewrite wrap_small by (unfold fits; lia). rewrite IH by (done || lia). lia.
Qed.

Lemma wsum_app l m : Nat.Even (length l) -> wsum (l ++ m) = wsum l + wsum m.
Proof.
  induction l as [|x|x y l IH] using pair_ind; intros He; cbn [wsum app length] in *.
  - done.
  - destruct He as [k Hk]. lia.
  - rewrite IH; [lia|]. destruct He as [k Hk]. exists (k - 1)%nat. lia.
Qed.

(** Filling in a zero checksum field adds its value to the sum. *)
Lemma wsum_put16 l o c : is_u16 c -> Nat.Even o -> l !! o = Some 0 -> l !! S o = Some 0 -> wsum (put16 l o c) = wsum l + c.
Proof.
  intros Hc He H0 H1. pose proof (lookup_lt_Some _ _ _ H1) as Hlen.
  assert (Ht : length (take o l) = o) by (rewrite length_take; lia).
  assert (Hd0 : drop o l !! 0%nat = Some 0) by (by rewrite lookup_drop, Nat.add_0_r).
  assert (Hd1 : drop o l !! 1%nat = Some 0) by (by rewrite lookup_drop, Nat.add_1_r).
  rewrite <- (take_drop o l). clear H0 H1.
  destruct (drop o l) as [|x [|y m]]; try done. injection Hd0 as ->. injection Hd1 as ->.
  unfold put16, to_be16. cbn [put].
  rewrite (insert_app_r_alt (take o l)) by lia. rewrite Ht, Nat.sub_diag. cbn [insert list_insert].
  rewrite insert_app_r_alt by lia. rewrite Ht. replace (S o - o)%nat with 1%nat by lia. cbn [insert list_insert].
  rewrite !wsum_app by (by rewrite Ht). cbn [wsum]. rewrite be16_split by done. change (0 .<< 8 .| 0) with 0. lia.
Qed.

(** Folding keeps the residue modulo 65535 and tells zero from 65535. *)
Definition residue (acc : Z) : Z := if acc =? 0 then 0 else 1 + (acc - 1) mod 65535.

Lemma residue_small acc : is_u16 acc -> residue acc = acc.
Proof.
  unfold is_u16, residue. intros Ha. destruct (Z.eqb_spec acc 0); [done|]. rewrite Z.mod_small by lia. lia.
Qed.

Lemma fold_step acc : 0 <= acc -> 65536 <= acc ->
  let acc' := (acc .& 0xffff) + (acc .>> 16) in acc' = acc mod 65536 + acc / 65536 /\ residue acc' = residue acc.
Proof.
  intros Ha Hs acc'. unfold acc'. change 0xffff with (Z.ones 16). rewrite Z.land_ones, Z.shiftr_div_pow2 by lia.
  change (2 ^ 16) with 65536. split; [done|].
  pose proof (Z.div_mod acc 65536 ltac:(lia)) as Hd. pose proof (Z.mod_pos_bound acc 65536 ltac:(lia)).
  pose proof (Z.div_le_lower_bound acc 65536 1 ltac:(lia) ltac:(lia)).
  set (q := acc / 65536) in *. set (m := acc mod 65536) in *. clearbody q m. unfold residue.
  rewrite !(proj2 (Z.eqb_neq _ _)) by lia. replace (acc - 1) with ((m + q - 1) + q * 65535) by lia.
  by rewrite Z.mod_add by lia.
Qed.

Lemma fold_loop_step fuel acc : 0 <= acc ->
  fold_loop (S fuel) acc = if decide (acc < 65536) then acc else fold_loop fuel ((acc .& 0xffff) + (acc .>> 16)).
Proof.
  intros Ha. cbn [fold_loop]. rewrite Z.shiftr_div_pow2 by lia. change (2 ^ 16) with 65536.
  case_decide as Hd; [by rewrite Z.div_small by lia|].
  pose proof (Z.div_le_lower_bound acc 65536 1 ltac:(lia) ltac:(lia)). by rewrite (proj2 (Z.eqb_neq _ _)) by lia.
Qed.

Lemma fold_spec acc : 0 <= acc < 2 ^ 32 -> fold acc = 65535 - residue acc.
Proof.
  intros Ha. unfold fold.
  assert (Hloop : fold_loop 3 acc = residue acc).
  { rewrite fold_loop_step by lia. case_decide as H0; [symmetry; apply residue_small; unfold is_u16; lia|].
    destruct (fold_step acc) as [E1 R1]; [lia..|]. rewrite <- R1. set (a1 := (acc .& 0xffff) + (acc .>> 16)) in *.
    assert (Ha1 : 0 <= a1 <= 131070) by (rewrite E1; Z.to_euclidean_division_equations; lia). clearbody a1.
    rewrite fold_loop_step by lia. case_decide as H1; [symmetry; apply residue_small; unfold is_u16; lia|].
    destruct (fold_step a1) as [E2 R2]; [lia..|]. rewrite <- R2. set (a2 := (a1 .& 0xffff) + (a1 .>> 16)) in *.
    assert (Ha2 : 0 <= a2 < 65536) by (rewrite E2; Z.to_euclidean_division_equations; lia). clearbody a2.
    rewrite fold_loop_step, decide_True by lia. symmetry. by apply residue_small. }
  rewrite Hloop. assert (Hr : 0 <= residue acc <= 65535).
  { unfold residue. destruct (Z.eqb_spec acc 0); [lia|]. pose proof (Z.mod_pos_bound (acc - 1) 65535). lia. }
  unfold u16. rewrite wrap_small by (unfold fits; lia). unfold bnot.
  rewrite Z.land_ones by lia. unfold Z.lnot. rewrite <- Z.sub_1_r. symmetry. apply (Z.mod_unique_pos _ _ (-1)); lia.
Qed.

Lemma fold_range acc : 0 <= acc < 2 ^ 32 -> is_u16 (fold acc).
Proof.
  intros Ha. rewrite fold_spec by done. unfold is_u16, residue. destruct (Z.eqb_spec acc 0); [lia|].
  pose proof (Z.mod_pos_bound (acc - 1) 65535). lia.
Qed.

(** A sum that includes its own checksum folds to zero. *)
Lemma fold_closes acc : 0 <= acc < 2 ^ 32 - 65536 -> fold (acc + fold acc) = 0.
Proof.
  intros Ha. pose proof (fold_range acc) as Hr. rewrite (fold_spec (_ + _)) by (unfold is_u16 in Hr; lia).
  rewrite fold_spec by lia. unfold residue. destruct (Z.eqb_spec acc 0) as [->|Hn]; [done|].
  pose proof (Z.div_mod (acc - 1) 65535 ltac:(lia)) as Hd. pose proof (Z.mod_pos_bound (acc - 1) 65535 ltac:(lia)).
  set (m := (acc - 1) mod 65535) in *. set (q := (acc - 1) / 65535) in *. clearbody m q.
  rewrite (proj2 (Z.eqb_neq _ _)) by lia.
  replace (acc + (65535 - (1 + m)) - 1) with (65534 + q * 65535) by lia. rewrite Z.mod_add by lia. done.
Qed.

(** ** Datagrams *)

Record route_ok (r : Ipv4Route) : Prop := {
  ro_dst_mac : length (dst_mac r) = 6%nat /\ Forall byte (dst_mac r);
  ro_src_mac : length (src_mac r) = 6%nat /\ Forall byte (src_mac r);
  ro_src : length (src r) = 4%nat /\ Forall byte (src r);
  ro_dst : length (dst r) = 4%nat /\ Forall byte (dst r);
}.

Ltac list_of_length l H :=
  let rec go l := match type of H with
    | length l = 0%nat => destruct l; [|discriminate H]
    | length l = S _ => let x := fresh "x" in let l' := fresh "l" in
        destruct l as [|x l']; [discriminate H|]; cbn [length] in H; apply Nat.succ_inj in H; go l'
    end in go l.

Lemma to_be16_bytes v : Forall byte (to_be16 v).
Proof. repeat constructor; apply u8_byte. Qed.

(** The IPv4 header [ip_start] builds, before its checksum. *)
Definition ip_header_of (r : Ipv4Route) (proto id frag : Z) (l4_len : nat) : list Z :=
  [0x45; 0] ++ to_be16 (u16 (Z.of_nat (IPV4_HDR + l4_len))) ++ to_be16 id ++ to_be16 frag ++ [64; proto; 0; 0] ++ src r ++ dst r.

Lemma ip_start_eq r proto id frag l4_len : route_ok r ->
  let h := ip_header_of r proto id frag l4_len in
  ip_start r proto id frag l4_len = write_ether (dst_mac r) (src_mac r) ETHERTYPE_IPV4 ++ put16 h 10 (checksum h).
Proof.
  intros [_ _ [Hs _] [Hd _]] h. destruct r as [dm sm s d]; cbn [src dst] in *.
  list_of_length s Hs. list_of_length d Hd. reflexivity.
Qed.

Lemma ip_header_of_bytes r proto id frag l4_len : route_ok r -> byte proto ->
  length (ip_header_of r proto id frag l4_len) = 20%nat /\ Forall byte (ip_header_of r proto id frag l4_len).
Proof.
  intros [_ _ [Hs Hsb] [Hd Hdb]] Hp. unfold ip_header_of. split.
  - rewrite !length_app, Hs, Hd. done.
  - repeat (apply Forall_app; split); try done; try apply to_be16_bytes; repeat constructor; unfold byte in *; lia.
Qed.

Lemma put_bytes l o d : Forall byte l -> Forall byte d -> Forall byte (put l o d).
Proof.
  revert l o. induction d as [|x d IH]; intros l o Hl Hd; [done|]. apply Forall_cons in Hd as [Hx Hd]. cbn [put].
  apply IH; [|done]. by apply Forall_insert.
Qed.

Lemma put_length l o d : length (put l o d) = length l.
Proof. revert l o. induction d as [|x d IH]; intros l o; [done|]. cbn [put]. by rewrite IH, length_insert. Qed.

Lemma put16_length l o v : length (put16 l o v) = length l.
Proof. apply put_length. Qed.

Lemma sum_nonneg acc l : Forall byte l -> 0 <= acc -> acc + wsum l < 2 ^ 32 -> 0 <= sum16 acc l < 2 ^ 32.
Proof. intros Hl Ha Hs. rewrite sum16_wsum by done. pose proof (wsum_bound l Hl). lia. Qed.

(** A buffer whose zero field is filled with the checksum sums to zero. *)
Lemma sum_closes acc h o : Forall byte h -> 0 <= acc -> acc + wsum h < 2 ^ 32 - 65536 ->
  Nat.Even o -> h !! o = Some 0 -> h !! S o = Some 0 ->
  fold (sum16 acc (put16 h o (fold (sum16 acc h)))) = 0.
Proof.
  intros Hb Ha Hs He H0 H1. pose proof (wsum_bound h Hb) as [Hw _]. rewrite (sum16_wsum h) by (done || lia).
  pose proof (fold_range (acc + wsum h) ltac:(lia)) as Hr.
  assert (Hp : wsum (put16 h o (fold (acc + wsum h))) = wsum h + fold (acc + wsum h)) by (by apply wsum_put16).
  rewrite sum16_wsum; [|apply put_bytes; [done|apply to_be16_bytes]|done|rewrite Hp; unfold is_u16 in Hr; lia].
  rewrite Hp, Z.add_assoc. apply fold_closes. lia.
Qed.

Lemma checksum_closes h o : Forall byte h -> Z.of_nat (length h) <= 65535 -> Nat.Even o -> h !! o = Some 0 -> h !! S o = Some 0 ->
  checksum (put16 h o (checksum h)) = 0.
Proof.
  intros Hb Hl He H0 H1. apply sum_closes; try done. pose proof (wsum_bound h Hb). lia.
Qed.

(** What a receiver of the frame sees of its envelope. *)
Record arrives (f : list Z) (r : Ipv4Route) (proto id frag : Z) (l4 : list Z) (i : Ipv4) : Prop := {
  ar_ether : exists e, ether_parse f = Some e /\ eth_dst e = dst_mac r /\ eth_src e = src_mac r /\ eth_ipv4 e = Some i;
  ar_src : ip_src i = src r;
  ar_dst : ip_dst i = dst r;
  ar_proto : ip_proto i = proto;
  ar_id : ip_id i = id;
  ar_frag : be16 (ip_b i) 6 = frag;
  ar_payload : ip_payload i = l4;
  ar_checksum : checksum_ok i = true;
}.

Lemma datagram_arrives r proto id frag l4 : route_ok r -> byte proto -> is_u16 id -> is_u16 frag ->
  Z.of_nat (IPV4_HDR + length l4) < 65536 ->
  exists i, arrives (pad (ip_start r proto id frag (length l4) ++ l4)) r proto id frag l4 i.
Proof.
  intros Hr Hp Hid Hfr Hl. pose proof (ip_header_of_bytes r proto id frag (length l4) Hr Hp) as [Hhl Hhb].
  assert (Hclose : checksum (put16 (ip_header_of r proto id frag (length l4)) 10 (checksum (ip_header_of r proto id frag (length l4)))) = 0).
  { apply checksum_closes; [done|lia|by exists 5%nat| |]; unfold ip_header_of; done. }
  rewrite ip_start_eq by done. set (c := checksum (ip_header_of _ _ _ _ _)) in *. clearbody c.
  assert (Htot : u16 (Z.of_nat (IPV4_HDR + length l4)) = Z.of_nat (IPV4_HDR + length l4)).
  { unfold u16. apply wrap_small. unfold fits. lia. }
  unfold ip_header_of in *. rewrite Htot in *. set (tot := Z.of_nat _) in *.
  assert (Htot16 : is_u16 tot) by (unfold is_u16, tot; lia).
  destruct Hr as [[Hdm _] [Hsm _] [Hs Hsb] [Hd Hdb]]. destruct r as [dm sm s d]; cbn [src dst src_mac dst_mac] in *.
  list_of_length dm Hdm. list_of_length sm Hsm. list_of_length s Hs. list_of_length d Hd.
  set (h := put16 _ 10 c) in *.
  assert (Hh : exists y0 y1, h = [0x45; 0] ++ to_be16 tot ++ to_be16 id ++ to_be16 frag ++ [64; proto; y0; y1] ++
    [x11; x12; x13; x14] ++ [x15; x16; x17; x18]) by (do 2 eexists; reflexivity).
  destruct Hh as (y0 & y1 & Hh). clearbody h. unfold pad. set (zs := replicate _ 0). clearbody zs.
  set (b := h ++ l4 ++ zs). assert (Hlb : length b = (20 + (length l4 + length zs))%nat) by (unfold b; by rewrite !length_app, Hh).
  exists {| ip_b := b; hlen := 20; end_ := 20 + length l4 |}.
  assert (Hb16 : be16 b 2 = tot /\ be16 b 4 = id /\ be16 b 6 = frag).
  { unfold b. rewrite Hh. split_and!; by apply be16_split. }
  destruct Hb16 as (Hb2 & Hb4 & Hb6).
  constructor; cbn [ip_src ip_dst ip_proto ip_id ip_b]; try (unfold b; rewrite Hh; reflexivity); try done.
  - eexists. split; [reflexivity|]. split; [reflexivity|]. split; [reflexivity|]. unfold eth_ipv4.
    change (ethertype _ =? ETHERTYPE_IPV4) with true. cbv iota. unfold eth_payload. cbn [eth_b].
    change (drop ETH_HDR _) with ((h ++ l4) ++ zs). rewrite <- app_assoc. fold b. unfold ipv4_parse.
    rewrite (proj2 (Nat.ltb_ge _ _)) by (rewrite Hlb; unfold IPV4_HDR; lia).
    assert (Hb0 : rd b 0 = 0x45) by (unfold b; rewrite Hh; reflexivity). rewrite Hb0, Hb2. cbn [orb].
    change (0x45 .>> 4 =? 4) with true. cbn [negb]. change (Z.to_nat (0x45 .& 0x0f) * 4)%nat with 20%nat.
    unfold tot. rewrite Nat2Z.id. rewrite (proj2 (Nat.ltb_ge 20 IPV4_HDR)) by (unfold IPV4_HDR; lia).
    rewrite (proj2 (Nat.ltb_ge (length b) 20)) by lia. rewrite (proj2 (Nat.ltb_ge _ 20)) by (unfold IPV4_HDR; lia).
    cbn [orb]. do 2 f_equal. rewrite Hlb. unfold IPV4_HDR. lia.
  - unfold ip_payload, range. cbn [ip_b hlen end_]. replace (20 + length l4 - 20)%nat with (length l4) by lia.
    unfold b. rewrite drop_app_length' by (by rewrite Hh). by rewrite take_app_length.
  - unfold checksum_ok, ip_header. cbn [ip_b hlen]. unfold b. rewrite take_app_length' by (by rewrite Hh).
    by rewrite Hclose.
Qed.

(** ** Segments *)

Record header_ok (h : TcpHeader) : Prop := {
  ho_sport : is_u16 (sport h);
  ho_dport : is_u16 (dport h);
  ho_seq : is_u32 (seq h);
  ho_ack : is_u32 (ack h);
  ho_flags : 0 <= flags h < 64;
  ho_window : is_u16 (window h);
  ho_mss : match mss h with Some m => is_u16 m | None => True end;
}.

Definition tcp_hdr_len (h : TcpHeader) : nat := match mss h with Some _ => 24%nat | None => 20%nat end.

(** The TCP header [route_tcp] builds, before its checksum. *)
Definition tcp_header_of (h : TcpHeader) : list Z :=
  to_be16 (sport h) ++ to_be16 (dport h) ++ to_be32 (seq h) ++ to_be32 (ack h) ++
  [Z.of_nat (tcp_hdr_len h) * 4; flags h] ++ to_be16 (window h) ++ [0; 0; 0; 0] ++
  match mss h with Some m => [2; 4] ++ to_be16 m | None => [] end.

Lemma route_tcp_eq r id h payload :
  let f := tcp_header_of h ++ payload in
  route_tcp r id h payload = pad (ip_start r PROTO_TCP id 0 (length f) ++ put16 f 16 (pseudo_checksum (src r) (dst r) PROTO_TCP f)).
Proof. destruct h as [? ? ? ? ? ? [m|]]; reflexivity. Qed.

Lemma tcp_header_of_ok h : header_ok h -> length (tcp_header_of h) = tcp_hdr_len h /\ Forall byte (tcp_header_of h).
Proof.
  intros [_ _ _ _ Hf _ _]. destruct h as [? ? ? ? f ? [m|]]; (split; [reflexivity|]);
    repeat constructor; try apply u8_byte; unfold byte; cbn in *; lia.
Qed.

(** The checksum over the pseudo-header is the checksum of the segment from an
    accumulator that only depends on its length. *)
Lemma pseudo_closes s d proto f o : length s = 4%nat -> length d = 4%nat -> Forall byte s -> Forall byte d -> byte proto ->
  Forall byte f -> Z.of_nat (length f) < 65536 -> Nat.Even o -> f !! o = Some 0 -> f !! S o = Some 0 ->
  pseudo_checksum s d proto (put16 f o (pseudo_checksum s d proto f)) = 0.
Proof.
  intros Hs Hd Hsb Hdb Hp Hf Hl He H0 H1. unfold pseudo_checksum. rewrite put16_length.
  pose proof (wsum_bound s Hsb) as [? Hws]. pose proof (wsum_bound d Hdb) as [? Hwd]. rewrite Hs in Hws. rewrite Hd in Hwd.
  pose proof (wsum_bound f Hf) as [? Hwf]. unfold byte in Hp.
  rewrite (sum16_wsum s 0) by (done || lia). rewrite (sum16_wsum d) by (done || lia).
  unfold u32. rewrite (wrap_small 32 (Z.of_nat _)) by (unfold fits; lia).
  rewrite (wrap_small 32 (_ + proto)) by (unfold fits; lia). rewrite (wrap_small 32) by (unfold fits; lia).
  apply sum_closes; try done; lia.
Qed.

(** Filling in the checksum keeps the rest of the header. *)
Lemma tcp_put_checksum h payload c : exists y0 y1, put16 (tcp_header_of h ++ payload) 16 c =
  (to_be16 (sport h) ++ to_be16 (dport h) ++ to_be32 (seq h) ++ to_be32 (ack h) ++
   [Z.of_nat (tcp_hdr_len h) * 4; flags h] ++ to_be16 (window h) ++ [y0; y1; 0; 0] ++
   match mss h with Some m => [2; 4] ++ to_be16 m | None => [] end) ++ payload.
Proof. do 2 eexists. destruct h as [? ? ? ? ? ? [m|]]; reflexivity. Qed.

Lemma segment_parses h payload c : header_ok h ->
  exists t, tcp_parse (put16 (tcp_header_of h ++ payload) 16 c) = Some t /\
    tcp_sport t = sport h /\ tcp_dport t = dport h /\ tcp_seq t = seq h /\ tcp_ack t = ack h /\
    tcp_flags t = flags h /\ tcp_window t = window h /\ tcp_mss t = mss h /\ tcp_payload t = payload.
Proof.
  intros [H1 H2 H3 H4 H5 H6 H7]. destruct (tcp_put_checksum h payload c) as (y0 & y1 & ->).
  destruct h as [sp dp sq ak fl wn ms]; cbn [sport dport seq ack flags window mss] in *.
  assert (Hfl : fl .& 0x3f = fl).
  { change 0x3f with (Z.ones 6). rewrite Z.land_ones by lia. apply Z.mod_small. lia. }
  assert (Hb : forall v, is_u16 v -> u8 (v .>> 8) .<< 8 .| u8 v = v) by apply be16_split.
  unfold tcp_hdr_len; cbn [mss]. destruct ms as [m|].
  - exists {| tcp_b := (to_be16 sp ++ to_be16 dp ++ to_be32 sq ++ to_be32 ak ++ [96; fl] ++ to_be16 wn ++ [y0; y1; 0; 0] ++
      [2; 4] ++ to_be16 m) ++ payload; tcp_hlen := 24 |}.
    split; [reflexivity|]. split; [exact (Hb sp H1)|]. split; [exact (Hb dp H2)|].
    split; [exact (be32_split sq H3)|]. split; [exact (be32_split ak H4)|]. split; [exact Hfl|]. split; [exact (Hb wn H6)|].
    split; [|reflexivity]. unfold tcp_mss. change (Some (u8 (m .>> 8) .<< 8 .| u8 m) = Some m). by rewrite Hb.
  - exists {| tcp_b := (to_be16 sp ++ to_be16 dp ++ to_be32 sq ++ to_be32 ak ++ [80; fl] ++ to_be16 wn ++ [y0; y1; 0; 0] ++ []) ++ payload;
      tcp_hlen := 20 |}.
    split; [reflexivity|]. split; [exact (Hb sp H1)|]. split; [exact (Hb dp H2)|].
    split; [exact (be32_split sq H3)|]. split; [exact (be32_split ak H4)|]. split; [exact Hfl|]. split; [exact (Hb wn H6)|].
    split; reflexivity.
Qed.

End PacketProofs.
