(* ===== verification/Frag.v ===== *)
(** * IPv4 reassembly (src/src/net/frag.rs)

    Fragments in flight, keyed by source, identification and protocol.  The
    ordered map of a datagram's fragments is a list sorted by offset; the
    clock is an argument. *)

From S2P Require Import Prelude Packet.
Import Packet.

#[local] Open Scope Z_scope.

Module Frag.

(** Five seconds, in nanoseconds. *)
Definition REASSEMBLY_TIMEOUT : Z := 5000000000.

Record Partial : Type := { frags : list (nat * list Z); total : option nat; last : Z }.

(** [BTreeMap::insert] *)
Fixpoint frag_insert (o : nat) (d : list Z) (l : list (nat * list Z)) : list (nat * list Z) :=
  match l with
  | [] => [(o, d)]
  | (o', d') :: l' =>
      if (o <? o')%nat then (o, d) :: l
      else if (o =? o')%nat then (o, d) :: l'
      else (o', d') :: frag_insert o d l'
  end.

(** The fragments joined from [out], unless there is a gap or an overlap. *)
Fixpoint join (out : list Z) (l : list (nat * list Z)) : option (list Z) :=
  match l with
  | [] => Some out
  | (off, d) :: l' => if (off =? length out)%nat then join (out ++ d) l' else None
  end.

Definition partial_add (p : Partial) (now : Z) (offset : nat) (data : list Z) (more : bool) : Partial * option (list Z) :=
  let p := {| frags := frag_insert offset data (frags p);
              total := if more then total p else Some (offset + length data)%nat;
              last := now |} in
  (p, t ← total p; out ← join [] (frags p); if (length out =? t)%nat then Some out else None).

Notation Key := (list Z * Z * Z)%type.

Notation Reassembler := (gmap Key Partial).

(** [Instant::elapsed] saturates at zero. *)
Definition fresh (now : Z) (p : Partial) : Prop := Z.max 0 (now - last p) < REASSEMBLY_TIMEOUT.

#[export] Instance fresh_dec now p : Decision (fresh now p) := Z_lt_dec _ _.

Definition reassembler_add (m : Reassembler) (now : Z) (ip : Ipv4) : Reassembler * option (list Z) :=
  let m := filter (fun kp => fresh now (snd kp)) m in
  let key := (ip_src ip, ip_id ip, ip_proto ip) in
  let p := default {| frags := []; total := None; last := now |} (m !! key) in
  let '(p, whole) := partial_add p now (frag_offset ip) (ip_payload ip) (more_fragments ip) in
  match whole with
  | None => (<[key := p]> m, None)
  | Some w => (delete key m, Some w)
  end.

End Frag.
