(* ===== verification/NetClaims.v ===== *)
(** * The gateway's packets: theorems

    What a receiver reads of a frame the gateway builds, and the reassembly of
    fragmented datagrams. *)

From S2P Require Import Prelude Packet PacketProofs Frag.

(** ** Fragments and their reassembly

    The fragments of a datagram are contiguous; the map of those received is
    the datagram's list of fragments filtered by what has arrived, whatever
    the order and however often. *)

Module FragProofs.

Import Packet PacketProofs Frag.
#[local] Open Scope Z_scope.

(** Non-empty pieces, one after another from [o]. *)
Fixpoint contig (o : nat) (cs : list (nat * list Z)) : Prop :=
  match cs with
  | [] => True
  | (o', d) :: cs' => o' = o /\ d <> [] /\ contig (o + length d) cs'
  end.

Lemma contig_ge o cs c : contig o cs -> c ∈ cs -> (o <= fst c)%nat.
Proof.
  revert o. induction cs as [|[o' d] cs IH]; intros o Hc Hin; [by apply not_elem_of_nil in Hin|].
  destruct Hc as (-> & _ & Hc). apply elem_of_cons in Hin as [->|Hin]; [done|]. specialize (IH _ Hc Hin). lia.
Qed.

Lemma contig_unique o cs c c' : contig o cs -> c ∈ cs -> c' ∈ cs -> fst c = fst c' -> c = c'.
Proof.
  revert o. induction cs as [|[o' d] cs IH]; intros o Hc Hin Hin' E; [by apply not_elem_of_nil in Hin|].
  destruct Hc as (-> & Hd & Hc). apply elem_of_cons in Hin as [->|Hin]; apply elem_of_cons in Hin' as [->|Hin']; try done.
  - pose proof (contig_ge _ _ _ Hc Hin'). destruct d; [done|]. cbn in *. lia.
  - pose proof (contig_ge _ _ _ Hc Hin). destruct d; [done|]. cbn in *. lia.
  - by apply (IH _ Hc).
Qed.

Lemma filter_ext_in {A} (P Q : A -> Prop) `{!forall c, Decision (P c)} `{!forall c, Decision (Q c)} (l : list A) :
  (forall c, c ∈ l -> P c <-> Q c) -> filter P l = filter Q l.
Proof.
  induction l as [|c l IH]; intros HPQ; [done|]. rewrite !filter_cons.
  rewrite (decide_ext (P c) (Q c)) by (apply HPQ; by left). rewrite IH; [done|]. intros c' Hc'. apply HPQ. by right.
Qed.

(** Receiving a piece adds it to those received. *)
Lemma insert_filter o cs (P : nat * list Z -> Prop) `{!forall c, Decision (P c)} c :
  contig o cs -> c ∈ cs ->
  frag_insert (fst c) (snd c) (filter P cs) = filter (fun c' => P c' \/ c' = c) cs.
Proof.
  revert o. induction cs as [|[o' d'] cs IH]; intros o Hc Hin; [by apply not_elem_of_nil in Hin|].
  destruct Hc as (-> & Hd & Hc). destruct c as [oc dc]. cbn [fst snd] in *.
  assert (Hlen : (0 < length d')%nat) by (destruct d'; [done|cbn; lia]).
  apply elem_of_cons in Hin as [[= -> ->]|Hin].
  - rewrite (filter_cons (fun c' => P c' \/ c' = (o, d'))). rewrite decide_True by (by right).
    assert (Hrest : filter (fun c' => P c' \/ c' = (o, d')) cs = filter P cs).
    { apply filter_ext_in. intros c' Hin'. split; [|by left]. intros [Hp|E]; [exact Hp|]. subst c'.
      pose proof (contig_ge _ _ _ Hc Hin'). cbn in *. lia. }
    rewrite Hrest, filter_cons. case_decide.
    + cbn [frag_insert]. by rewrite Nat.ltb_irrefl, Nat.eqb_refl.
    + destruct (filter P cs) as [|[o2 d2] l] eqn:E; [done|]. cbn [frag_insert].
      assert (Ho2 : (o + length d' <= o2)%nat).
      { apply (contig_ge _ cs (o2, d2) Hc). assert (Hm : (o2, d2) ∈ filter P cs) by (rewrite E; by left).
        by apply list_elem_of_filter in Hm as [_ Hm]. }
      by rewrite (proj2 (Nat.ltb_lt _ _)) by lia.
  - pose proof (contig_ge _ _ _ Hc Hin) as Hoc. cbn in Hoc. rewrite !filter_cons.
    assert (Hne : (o, d') <> (oc, dc)) by (intros E; injection E as -> ->; lia).
    rewrite (decide_ext (P (o, d') \/ (o, d') = (oc, dc)) (P (o, d'))) by tauto.
    case_decide; [|by apply (IH _ Hc)]. cbn [frag_insert].
    rewrite (proj2 (Nat.ltb_ge _ _)) by lia. rewrite (proj2 (Nat.eqb_neq _ _)) by lia. f_equal. by apply (IH _ Hc).
Qed.

Lemma last_elem {A} (l : list A) x : list.last l = Some x -> x ∈ l.
Proof. intros [l' ->]%last_Some. apply elem_of_app. right. by left. Qed.

Lemma list_filter_all {A} (P : A -> Prop) `{!forall c, Decision (P c)} (l : list A) : Forall P l -> filter P l = l.
Proof. induction 1 as [|c l Hc _ IH]; [done|]. by rewrite filter_cons, decide_True, IH. Qed.

(** Joining everything gives the bytes; a missing piece before one that is
    there is a gap. *)
Lemma join_all out cs : contig (length out) cs -> join out cs = Some (out ++ concat (map snd cs)).
Proof.
  revert out. induction cs as [|[o d] cs IH]; intros out Hc; cbn [join map concat snd]; [by rewrite app_nil_r|].
  destruct Hc as (-> & _ & Hc). rewrite Nat.eqb_refl, IH by (by rewrite length_app). by rewrite app_assoc.
Qed.

Lemma join_gap out cs (P : nat * list Z -> Prop) `{!forall c, Decision (P c)} :
  contig (length out) cs -> (exists c, c ∈ cs /\ ~ P c) -> (exists c, list.last cs = Some c /\ P c) ->
  join out (filter P cs) = None.
Proof.
  revert out. induction cs as [|[o d] cs IH]; intros out Hc [c [Hin Hn]] [l [Hl HPl]]; [done|].
  destruct Hc as (-> & Hd & Hc). rewrite filter_cons. case_decide as HP.
  - cbn [join]. rewrite Nat.eqb_refl. destruct cs as [|c2 cs].
    { exfalso. apply list_elem_of_singleton in Hin as ->. done. }
    apply IH; [by rewrite length_app| |by exists l].
    exists c. split; [|done]. apply elem_of_cons in Hin as [->|?]; done.
  - destruct (filter P cs) as [|[o2 d2] rest] eqn:E.
    + exfalso. destruct cs as [|c2 cs]; [cbn in Hl; by injection Hl as <-|].
      assert (Hm : l ∈ filter P (c2 :: cs)) by (apply list_elem_of_filter; split; [done|]; apply last_elem; exact Hl).
      rewrite E in Hm. by apply not_elem_of_nil in Hm.
    + cbn [join]. assert (Ho2 : (length out + length d <= o2)%nat).
      { apply (contig_ge _ cs (o2, d2) Hc). assert (Hm : (o2, d2) ∈ filter P cs) by (rewrite E; by left).
        by apply list_elem_of_filter in Hm as [_ Hm]. }
      assert (Hlen : (0 < length d)%nat) by (destruct d; [done|cbn; lia]).
      by rewrite (proj2 (Nat.eqb_neq _ _)) by lia.
Qed.

(** Only the last piece reaches the end. *)
Lemma contig_end o cs c : contig o cs -> c ∈ cs ->
  (fst c + length (snd c) <= o + length (concat (map snd cs)))%nat /\
  ((fst c + length (snd c) = o + length (concat (map snd cs)))%nat <-> list.last cs = Some c).
Proof.
  revert o. induction cs as [|[o' d] cs IH]; intros o Hc Hin; [by apply not_elem_of_nil in Hin|].
  destruct Hc as (-> & Hd & Hc). cbn [map concat snd]. rewrite length_app. apply elem_of_cons in Hin as [->|Hin].
  - cbn [fst snd]. split; [lia|]. destruct cs as [|[o2 d2] cs]; [cbn; split; [done|lia]|].
    destruct Hc as (-> & Hd2 & Hc). split; [|intros E].
    + intros E. exfalso. cbn [map concat snd] in E. rewrite length_app in E. destruct d2; [done|]. cbn in E. lia.
    + exfalso. assert (Hin : (o, d) ∈ ((o + length d)%nat, d2) :: cs) by (apply last_elem; exact E).
      pose proof (contig_ge (o + length d) (((o + length d)%nat, d2) :: cs) (o, d) ltac:(by split) Hin). destruct d; [done|]. cbn in *. lia.
  - destruct (IH _ Hc Hin) as [H1 H2]. split; [lia|]. rewrite <- Nat.add_assoc in H2. rewrite H2.
    destruct cs; [by apply not_elem_of_nil in Hin|]. done.
Qed.

Section Datagram.

Context (cs : list (nat * list Z)) (dgram : list Z).
Hypothesis Hcontig : contig 0 cs.
Hypothesis Hcs : cs <> [].
Hypothesis Hdgram : concat (map snd cs) = dgram.

(** [p] holds the pieces [got] of the datagram. *)
Definition holds (got : list (nat * list Z)) (p : Partial) : Prop :=
  frags p = filter (fun c => c ∈ got) cs /\
  total p = match list.last cs with Some c => if decide (c ∈ got) then Some (length dgram) else None | None => None end.

Definition all_got (got : list (nat * list Z)) : Prop := Forall (fun c => c ∈ got) cs.

#[export] Instance all_got_dec got : Decision (all_got got).
Proof. apply _. Defined.

Lemma last_piece : exists l, list.last cs = Some l /\ l ∈ cs.
Proof.
  destruct (list.last cs) as [l|] eqn:E; [exists l; split; [done|by apply last_elem]|]. by apply last_None in E.
Qed.

Lemma holds_add got p now c : holds got p -> c ∈ cs ->
  let '(p', out) := partial_add p now (fst c) (snd c) (fst c + length (snd c) <? length dgram)%nat in
  holds (c :: got) p' /\ last p' = now /\ out = if decide (all_got (c :: got)) then Some dgram else None.
Proof.
  intros [Hf Ht] Hin. destruct last_piece as (l & Hl & Hlin). unfold partial_add. cbn [frags total last].
  destruct (contig_end 0 cs c Hcontig Hin) as [Hle Hend]. rewrite Hdgram in Hle, Hend. cbn [Nat.add] in Hle, Hend.
  assert (Hf' : frag_insert (fst c) (snd c) (frags p) = filter (fun c' => c' ∈ c :: got) cs).
  { rewrite Hf, (insert_filter 0) by done. apply filter_ext_in. intros c' _. rewrite elem_of_cons. tauto. }
  set (tot := if (fst c + length (snd c) <? length dgram)%nat then _ else _).
  assert (Htot : tot = if decide (l ∈ c :: got) then Some (length dgram) else None).
  { unfold tot. rewrite Ht, Hl. rewrite (decide_ext (l ∈ c :: got) (l = c \/ l ∈ got)) by (by rewrite elem_of_cons).
    destruct (Nat.ltb_spec (fst c + length (snd c)) (length dgram)) as [Hlt|Hge].
    - assert (Hne : l <> c) by (intros ->; apply Hend in Hl; lia). by repeat case_decide; try tauto.
    - assert (Heq : list.last cs = Some c) by (apply Hend; lia). rewrite Hl in Heq. injection Heq as ->.
      rewrite decide_True by (by left). f_equal. lia. }
  rewrite Hf', Htot. split; [|split; [done|]].
  - split; [done|]. cbn [total]. by rewrite Hl.
  - destruct (decide (all_got (c :: got))) as [Ha|Hna].
    + assert (Hal : l ∈ c :: got) by (unfold all_got in Ha; rewrite Forall_forall in Ha; by apply Ha).
      rewrite decide_True by done. cbn [mbind option_bind].
      rewrite (list_filter_all _ cs Ha). rewrite (join_all [] cs Hcontig), Hdgram. cbn [mbind option_bind app].
      by rewrite Nat.eqb_refl.
    + case_decide as Hal; [|done]. cbn [mbind option_bind].
      rewrite (join_gap [] cs _ Hcontig); [done| |by exists l].
      apply not_Forall_Exists, Exists_exists in Hna; [|apply _]. destruct Hna as (c' & Hc' & Hn). by exists c'.
Qed.

(** ** The reassembler *)

Context (key : Key) (t0 : Z).

Definition key_of (i : Ipv4) : Key := (ip_src i, ip_id i, ip_proto i).
Definition piece_of (i : Ipv4) : nat * list Z := (frag_offset i, ip_payload i).

(** An event in the window: a packet of another datagram or a piece of this one. *)
Definition event_ok (ev : Z * Ipv4) : Prop :=
  t0 <= fst ev < t0 + REASSEMBLY_TIMEOUT /\
  (key_of (snd ev) = key -> piece_of (snd ev) ∈ cs /\
    more_fragments (snd ev) = (frag_offset (snd ev) + length (ip_payload (snd ev)) <? length dgram)%nat).

(** The pieces of this datagram among the events, newest first. *)
Fixpoint pieces (es : list (Z * Ipv4)) : list (nat * list Z) :=
  match es with
  | [] => []
  | ev :: es' => pieces es' ++ (if decide (key_of (snd ev) = key) then [piece_of (snd ev)] else [])
  end.

Lemma pieces_snoc es ev : pieces (es ++ [ev]) =
  (if decide (key_of (snd ev) = key) then [piece_of (snd ev)] else []) ++ pieces es.
Proof.
  induction es as [|ev' es IH]; cbn [pieces app]; [by rewrite app_nil_r|]. by rewrite IH, app_assoc.
Qed.

Definition tracks (got : list (nat * list Z)) (m : Reassembler) : Prop :=
  match m !! key with
  | None => got = []
  | Some p => holds got p /\ t0 <= last p < t0 + REASSEMBLY_TIMEOUT
  end.

Definition feed (m : Reassembler) (es : list (Z * Ipv4)) : Reassembler :=
  foldl (fun m ev => fst (reassembler_add m (fst ev) (snd ev))) m es.

Lemma holds_nil now : holds [] {| frags := []; total := None; last := now |}.
Proof.
  destruct last_piece as (l & Hl & _). split; cbn [frags total].
  - symmetry. clear. induction cs as [|c l IH]; [done|]. rewrite filter_cons, decide_False by apply not_elem_of_nil. done.
  - by rewrite Hl, decide_False by apply not_elem_of_nil.
Qed.

Lemma tracks_filter got m now : t0 <= now < t0 + REASSEMBLY_TIMEOUT -> tracks got m ->
  tracks got (filter (fun kp => fresh now (snd kp)) m).
Proof.
  intros Hn Hm. unfold tracks in *. destruct (m !! key) as [p|] eqn:E.
  - destruct Hm as [Hh Hl]. rewrite (proj2 (map_lookup_filter_Some _ m key p)); [done|].
    split; [done|]. unfold fresh. cbn [snd]. unfold REASSEMBLY_TIMEOUT in *. lia.
  - rewrite map_lookup_filter, E. done.
Qed.

Lemma tracks_step got m ev : event_ok ev -> tracks got m -> ~ all_got got ->
  let '(m', out) := reassembler_add m (fst ev) (snd ev) in
  if decide (key_of (snd ev) = key) then
    let got' := piece_of (snd ev) :: got in
    out = (if decide (all_got got') then Some dgram else None) /\ (~ all_got got' -> tracks got' m')
  else tracks got m'.
Proof.
  intros [Ht Hk] Hm Hna. destruct ev as [now i]. cbn [fst snd] in *. unfold reassembler_add.
  apply (tracks_filter _ _ now) in Hm; [|done]. set (m1 := filter _ m) in *. clearbody m1. clear m.
  change (ip_src i, ip_id i, ip_proto i) with (key_of i).
  destruct (decide (key_of i = key)) as [Ek|Ek].
  - rewrite Ek. destruct (Hk Ek) as [Hin Hmore]. set (p := default _ (m1 !! key)).
    assert (Hp : holds got p).
    { unfold p, tracks in *. destruct (m1 !! key); [by destruct Hm|]. subst got. apply holds_nil. }
    pose proof (holds_add got p now (piece_of i) Hp Hin) as Hadd. unfold piece_of in Hadd. cbn [fst snd] in Hadd.
    rewrite Hmore. destruct (partial_add p now _ _ _) as [p' out]. destruct Hadd as (Hh & Hl & ->).
    fold (piece_of i) in *. destruct (decide (all_got (piece_of i :: got))) as [Ha|Ha]; [by split|].
    split; [done|]. intros _. unfold tracks. rewrite lookup_insert_eq. split; [done|]. rewrite Hl. done.
  - destruct (partial_add _ now _ _ _) as [p' out]. unfold tracks in *.
    destruct out; [rewrite lookup_delete_ne by done|rewrite lookup_insert_ne by done]; done.
Qed.

Lemma feed_tracks m es : m !! key = None -> Forall event_ok es -> ~ all_got (pieces es) -> tracks (pieces es) (feed m es).
Proof.
  intros Hm. induction es as [|ev es IH] using rev_ind; intros Hok Hna.
  - unfold tracks. cbn. by rewrite Hm.
  - apply Forall_app in Hok as [Hok [Hev _]%Forall_cons]. unfold feed. rewrite foldl_app. cbn [foldl]. fold (feed m es).
    assert (Hna' : ~ all_got (pieces es)).
    { intros Ha. apply Hna. rewrite pieces_snoc. unfold all_got in *. eapply Forall_impl; [exact Ha|]. cbn.
      intros c Hc. apply elem_of_app. by right. }
    specialize (IH Hok Hna'). pose proof (tracks_step _ _ ev Hev IH Hna') as Hstep.
    destruct (reassembler_add (feed m es) (fst ev) (snd ev)) as [m' out]. cbn [fst]. rewrite pieces_snoc in *.
    case_decide; [|exact Hstep]. destruct Hstep as [_ Hstep]. by apply Hstep.
Qed.

Lemma elem_pieces es c : c ∈ pieces es <-> exists ev, ev ∈ es /\ key_of (snd ev) = key /\ piece_of (snd ev) = c.
Proof.
  induction es as [|ev es IH]; cbn [pieces].
  - split; [by intros []%not_elem_of_nil|]. intros (ev & []%not_elem_of_nil & _).
  - rewrite elem_of_app, IH. split.
    + intros [(ev' & Hin & H)|Hin]; [exists ev'; split; [by right|done]|].
      case_decide; [|by apply not_elem_of_nil in Hin]. apply list_elem_of_singleton in Hin as ->. exists ev. split; [by left|done].
    + intros (ev' & [->|Hin]%elem_of_cons & Hk & Hp); [right|left; by exists ev'].
      rewrite decide_True by done. rewrite Hp. by left.
Qed.

End Datagram.

(** ** The fragments of a datagram *)

Lemma CHUNK_pos : CHUNK = (8 * 185)%nat.
Proof. reflexivity. Qed.

#[local] Arguments CHUNK : simpl never.

Lemma chunks_contig fuel o l : (length l <= fuel)%nat ->
  contig o (chunks_from fuel o l) /\ concat (map snd (chunks_from fuel o l)) = l.
Proof.
  revert o l. induction fuel as [|fuel IH]; intros o l Hl; [destruct l; [done|cbn in Hl; lia]|].
  destruct l as [|x l]; [done|]. cbn [chunks_from]. pose proof CHUNK_pos. cbn [length] in Hl.
  set (l' := x :: l) in *. assert (Hl' : length l' = S (length l)) by done.
  cbn [map concat snd contig]. destruct (decide (length l' <= CHUNK)%nat) as [Hs|Hs].
  - rewrite (take_ge l') by lia. rewrite (drop_ge l') by lia.
    destruct fuel; cbn [chunks_from map concat contig]; rewrite app_nil_r; done.
  - destruct (IH (o + CHUNK)%nat (drop CHUNK l')) as [H1 H2]; [rewrite length_drop; lia|].
    rewrite length_take, Nat.min_l by lia. rewrite H2, take_drop. split; [|done]. split; [done|]. split; [|done].
    intros E. apply (f_equal length) in E. rewrite length_take in E. cbn [length] in E. lia.
Qed.

Lemma chunks_aligned fuel o l c : c ∈ chunks_from fuel o l -> exists k, fst c = (o + 8 * k)%nat.
Proof.
  revert o l. induction fuel as [|fuel IH]; intros o l Hin; [by apply not_elem_of_nil in Hin|].
  destruct l as [|x l]; [by apply not_elem_of_nil in Hin|]. cbn [chunks_from] in Hin.
  apply elem_of_cons in Hin as [->|Hin]; [exists 0%nat; cbn [fst]; lia|].
  destruct (IH _ _ Hin) as [k ->]. pose proof CHUNK_pos. exists (185 + k)%nat. lia.
Qed.

Lemma chunks_short fuel o l c : c ∈ chunks_from fuel o l -> (length (snd c) <= CHUNK)%nat.
Proof.
  revert o l. induction fuel as [|fuel IH]; intros o l Hin; [by apply not_elem_of_nil in Hin|].
  destruct l as [|x l]; [by apply not_elem_of_nil in Hin|]. cbn [chunks_from] in Hin.
  apply elem_of_cons in Hin as [->|Hin]; [cbn [snd]; rewrite length_take; lia|by apply IH in Hin].
Qed.

(** The fragment field, taken apart. *)
Lemma frag_field q (more : bool) : 0 <= q < 8192 ->
  let frag := u16 q .| (if more then IP_MF else 0) in
  is_u16 frag /\ frag .& IP_OFFSET_MASK = q /\ negb (frag .& IP_MF =? 0) = more.
Proof.
  intros Hq frag. assert (Hfrag : frag = (bool_to_Z more) * 2 ^ 13 + q).
  { unfold frag, u16. rewrite wrap_small by (unfold fits; lia). rewrite Z.lor_comm.
    destruct more; cbn [bool_to_Z]; [|by rewrite Z.lor_0_l; lia].
    change IP_MF with (1 * 2 ^ 13). apply lor_block; [lia|unfold fits; lia]. }
  clearbody frag. subst frag. split; [unfold is_u16; destruct more; cbn [bool_to_Z]; lia|]. split.
  - change IP_OFFSET_MASK with (Z.ones 13). rewrite Z.land_ones by lia. rewrite Z.add_comm, Z.mod_add by lia.
    apply Z.mod_small. lia.
  - change IP_MF with (2 ^ 13). destruct more; cbn [bool_to_Z].
    + apply negb_true_iff, Z.eqb_neq. intros E. apply (f_equal (fun x => Z.testbit x 13)) in E. revert E.
      rewrite Z.land_spec, Z.bits_0. rewrite Z.pow2_bits_true by lia. rewrite andb_true_r.
      replace (1 * 2 ^ 13 + q) with (q + 1 * 2 ^ 13) by lia.
      rewrite (proj2 (Z.testbit_true (q + 1 * 2 ^ 13) 13 ltac:(lia))); [done|].
      rewrite Z.div_add by lia. by rewrite (Z.div_small q) by lia.
    + apply negb_false_iff, Z.eqb_eq. apply Z.bits_inj'. intros i Hi. rewrite Z.land_spec, Z.bits_0.
      destruct (decide (i = 13)) as [->|Hne]; [|rewrite Z.pow2_bits_false by lia; apply andb_false_r].
      by rewrite (fits_testbit 13) by (unfold fits; lia).
Qed.

Definition frame_ip (f : list Z) : option Ipv4 := e ← ether_parse f; eth_ipv4 e.

Lemma arrives_ip f r proto id frag l4 i : arrives f r proto id frag l4 i -> frame_ip f = Some i.
Proof. intros [(e & He & _ & _ & Hi)]. unfold frame_ip. by rewrite He. Qed.

Lemma fragment_arrives r id dgram c : route_ok r -> is_u16 id -> Z.of_nat (length dgram) < 65536 ->
  c ∈ chunks_from (length dgram) 0 dgram ->
  exists i, frame_ip (fragment r id (length dgram) c) = Some i /\ key_of i = (src r, id, PROTO_UDP) /\ piece_of i = c /\
    more_fragments i = (fst c + length (snd c) <? length dgram)%nat /\ checksum_ok i = true.
Proof.
  intros Hr Hid Hl Hin. destruct (chunks_contig (length dgram) 0 dgram ltac:(lia)) as [Hc Hcat].
  destruct (contig_end 0 _ c Hc Hin) as [Hend _]. rewrite Hcat in Hend. cbn [Nat.add] in Hend.
  destruct (chunks_aligned _ _ _ _ Hin) as [k Hk]. destruct c as [off d]; cbn [fst snd Nat.add] in *.
  assert (Hq : (off / 8)%nat = k) by (rewrite Hk, Nat.mul_comm; by apply Nat.div_mul).
  unfold fragment. rewrite Hq. destruct (frag_field (Z.of_nat k) (off + length d <? length dgram)%nat) as (Hf & Hoff & Hmore); [lia|].
  set (frag := u16 _ .| _) in *. clearbody frag.
  assert (Hd : Z.of_nat (IPV4_HDR + length d) < 65536).
  { pose proof (chunks_short _ _ _ _ Hin) as Hd. cbn [snd] in Hd.
    pose proof CHUNK_pos. unfold IPV4_HDR. lia. }
  destruct (datagram_arrives r PROTO_UDP id frag d Hr ltac:(done) Hid Hf Hd) as [i Hi].
  exists i. split; [by apply (arrives_ip _ _ _ _ _ _ _ Hi)|]. destruct Hi as [_ Hs _ Hp Hi Hfr Hpl Hck].
  unfold key_of, piece_of, frag_offset, more_fragments. rewrite Hs, Hp, Hi, Hfr, Hpl, Hoff, Nat2Z.id. split; [done|].
  split; [f_equal; lia|done].
Qed.

(** ** UDP datagrams *)

Lemma write_udp_parses s d sp dp payload : is_u16 sp -> is_u16 dp -> Z.of_nat (UDP_HDR + length payload) < 65536 ->
  length (write_udp s d sp dp payload) = (UDP_HDR + length payload)%nat /\
  exists u, udp_parse (write_udp s d sp dp payload) = Some u /\ udp_sport u = sp /\ udp_dport u = dp /\ udp_payload u = payload.
Proof.
  intros Hsp Hdp Hl. unfold write_udp. set (m := to_be16 sp ++ _). set (c := if _ =? 0 then _ else _). clearbody c.
  split; [rewrite put16_length; done|].
  assert (Htot : u16 (Z.of_nat (UDP_HDR + length payload)) = Z.of_nat (UDP_HDR + length payload)).
  { unfold u16. apply wrap_small. unfold fits. lia. }
  assert (Hput : exists y0 y1, put16 m 6 c = (to_be16 sp ++ to_be16 dp ++ to_be16 (Z.of_nat (UDP_HDR + length payload)) ++ [y0; y1]) ++ payload).
  { do 2 eexists. unfold m. rewrite Htot. reflexivity. }
  destruct Hput as (y0 & y1 & ->). set (b := (_ ++ _) ++ payload).
  assert (Hlb : length b = (UDP_HDR + length payload)%nat) by reflexivity.
  assert (Hb4 : be16 b 4 = Z.of_nat (UDP_HDR + length payload)) by (apply be16_split; unfold is_u16; lia).
  exists {| udp_b := b |}. split.
  - unfold udp_parse. rewrite Hb4, Nat2Z.id, Hlb. rewrite (proj2 (Nat.ltb_ge _ _)) by lia.
    rewrite !(proj2 (Nat.leb_le _ _)) by lia. cbn [andb]. by rewrite take_ge by lia.
  - split; [exact (be16_split sp Hsp)|]. split; [exact (be16_split dp Hdp)|]. reflexivity.
Qed.

End FragProofs.

Module NetClaims.

Import Packet PacketProofs Frag FragProofs.
#[local] Open Scope Z_scope.

(** C28: round trip.  A TCP segment built into a frame is parsed back, through
    Ethernet and IPv4, to the same addresses, ports, sequence numbers, flags,
    window, maximum segment size and payload, without the padding of a short
    frame; its IPv4 header checksum verifies and so does the TCP checksum over
    the pseudo-header. *)
Theorem tcp_frame_roundtrip r id h payload :
  route_ok r -> is_u16 id -> header_ok h -> Forall byte payload ->
  Z.of_nat (IPV4_HDR + (tcp_hdr_len h + length payload)) < 65536 ->
  exists e i t, ether_parse (route_tcp r id h payload) = Some e /\ eth_dst e = dst_mac r /\ eth_src e = src_mac r /\
    eth_ipv4 e = Some i /\ ip_src i = src r /\ ip_dst i = dst r /\ ip_id i = id /\ checksum_ok i = true /\
    pseudo_checksum (ip_src i) (ip_dst i) (ip_proto i) (ip_payload i) = 0 /\
    ip_tcp i = Some t /\ tcp_sport t = sport h /\ tcp_dport t = dport h /\ tcp_seq t = seq h /\ tcp_ack t = ack h /\
    tcp_flags t = flags h /\ tcp_window t = window h /\ tcp_mss t = mss h /\ tcp_payload t = payload.
Proof.
  intros Hr Hid Hh Hb Hl. destruct (tcp_header_of_ok h Hh) as [Hhl Hhb]. rewrite route_tcp_eq.
  set (f := tcp_header_of h ++ payload). set (c := pseudo_checksum _ _ _ f).
  assert (Hf : length (put16 f 16 c) = length f) by apply put16_length.
  assert (Hlf : length f = (tcp_hdr_len h + length payload)%nat) by (unfold f; by rewrite length_app, Hhl).
  destruct (segment_parses h payload c Hh) as (t & Ht & Hfields). fold f in Ht.
  destruct (datagram_arrives r PROTO_TCP id 0 (put16 f 16 c) Hr ltac:(done) Hid ltac:(done)) as [i Hi]; [by rewrite Hf, Hlf|].
  rewrite Hf in Hi. destruct Hi as [(e & He & Hd & Hs & Hei) Hsrc Hdst Hp Hi Hfr Hpl Hck].
  exists e, i, t. split_and!; try done; try apply Hfields.
  - rewrite Hsrc, Hdst, Hp, Hpl. destruct Hr as [_ _ [Hs4 Hsb] [Hd4 Hdb]].
    apply pseudo_closes; try done; [by apply Forall_app|rewrite Hlf; lia|by exists 8%nat].
  - unfold ip_tcp, is_fragment, more_fragments, frag_offset. rewrite Hp, Hfr, Hpl. exact Ht.
Qed.

(** ** Fragments *)

Section Fragments.

Context (r : Ipv4Route) (id : Z) (dgram : list Z) (t0 : Z).
Hypothesis Hr : route_ok r.
Hypothesis Hid : is_u16 id.
Hypothesis Hlen : Z.of_nat (length dgram) < 65536.

Let cs : list (nat * list Z) := chunks_from (length dgram) 0 dgram.
Let frames : list (list Z) := map (fragment r id (length dgram)) cs.
Let key : Key := (src r, id, PROTO_UDP).

(** A packet in the window that is not a forgery of this datagram. *)
Definition genuine (ev : Z * Ipv4) : Prop :=
  t0 <= fst ev < t0 + REASSEMBLY_TIMEOUT /\ (key_of (snd ev) = key -> exists f, f ∈ frames /\ frame_ip f = Some (snd ev)).

Definition missing (es : list (Z * Ipv4)) : Prop := exists f, f ∈ frames /\ forall j, frame_ip f = Some j -> j ∉ map snd es.

Lemma genuine_piece ev : genuine ev -> key_of (snd ev) = key ->
  exists c, c ∈ cs /\ piece_of (snd ev) = c /\ frame_ip (fragment r id (length dgram) c) = Some (snd ev) /\
    more_fragments (snd ev) = (fst c + length (snd c) <? length dgram)%nat.
Proof.
  intros [_ Hf] Hk. destruct (Hf Hk) as (f & (c & -> & Hc)%list_elem_of_fmap & Hi).
  destruct (fragment_arrives r id dgram c Hr Hid Hlen Hc) as (i & Hi' & _ & Hp & Hm & _).
  rewrite Hi in Hi'. injection Hi' as <-. by exists c.
Qed.

Lemma genuine_ok ev : genuine ev -> event_ok cs dgram key t0 ev.
Proof.
  intros Hg. split; [apply Hg|]. intros Hk. destruct (genuine_piece ev Hg Hk) as (c & Hc & Hp & _ & Hm).
  rewrite Hm, <- Hp. by rewrite <- Hp in Hc.
Qed.

Lemma missing_pieces es : Forall genuine es -> missing es <-> ~ all_got cs (pieces key es).
Proof.
  intros Hg. rewrite Forall_forall in Hg. unfold all_got. split.
  - intros (f & (c & -> & Hc)%list_elem_of_fmap & Hmiss) Hall. rewrite Forall_forall in Hall.
    apply Hall, elem_pieces in Hc as (ev & Hin & Hk & Hp).
    destruct (genuine_piece ev (Hg ev Hin) Hk) as (c' & _ & Hp' & Hi & _). rewrite Hp in Hp'. subst c'.
    apply (Hmiss _ Hi). by apply list_elem_of_fmap_2.
  - intros (c & Hc & Hn)%not_Forall_Exists%Exists_exists; [|apply _].
    exists (fragment r id (length dgram) c). split; [by apply list_elem_of_fmap_2|].
    destruct (fragment_arrives r id dgram c Hr Hid Hlen Hc) as (i & Hi & Hk & Hp & _).
    intros j Hj (ev & -> & Hin)%list_elem_of_fmap. rewrite Hi in Hj. injection Hj as ->.
    apply Hn, elem_pieces. by exists ev.
Qed.

Lemma reassembles m pre now i : m !! key = None -> cs <> [] -> Forall genuine (pre ++ [(now, i)]) -> key_of i = key ->
  missing pre ->
  let out := snd (reassembler_add (feed m pre) now i) in
  (missing (pre ++ [(now, i)]) -> out = None) /\ (~ missing (pre ++ [(now, i)]) -> out = Some dgram).
Proof.
  intros Hm Hcs Hg Hk Hmiss out. destruct (chunks_contig (length dgram) 0 dgram ltac:(lia)) as [Hc Hcat]. fold cs in Hc, Hcat.
  pose proof Hg as [Hpre [Hi _]%Forall_cons]%Forall_app. apply missing_pieces in Hmiss; [|done].
  assert (Hok : Forall (event_ok cs dgram key t0) pre) by (eapply Forall_impl; [exact Hpre|apply genuine_ok]).
  pose proof (feed_tracks cs dgram Hc Hcs Hcat key t0 m pre Hm Hok Hmiss) as Htr.
  pose proof (tracks_step cs dgram Hc Hcs Hcat key t0 _ _ (now, i) (genuine_ok _ Hi) Htr Hmiss) as Hstep.
  unfold out. cbn [fst snd] in Hstep. destruct (reassembler_add (feed m pre) now i) as [m' o]. cbn [snd].
  rewrite decide_True in Hstep by done. destruct Hstep as [-> _].
  rewrite missing_pieces by done. rewrite pieces_snoc. cbn [snd]. rewrite decide_True by done. cbn [app].
  case_decide; split; intros ?; done || tauto.
Qed.

End Fragments.

(** C27: round trip.  A UDP datagram sent in fragments is put together again
    from its fragments in any order, repeated or not and mixed with other
    traffic, within the time-out: the reassembler answers with nothing while
    a fragment is missing and with the datagram, whose ports and payload parse
    back, at the packet that completes it. *)
Theorem fragments_reassemble (r : Ipv4Route) (id sp dp : Z) (payload : list Z) (m : gmap (list Z * Z * Z) Partial) (t0 : Z)
    (pre : list (Z * Ipv4)) (now : Z) (i : Ipv4) :
  route_ok r -> is_u16 id -> is_u16 sp -> is_u16 dp -> Z.of_nat (UDP_HDR + length payload) < 65536 ->
  (MTU - IPV4_HDR < UDP_HDR + length payload)%nat ->
  let dgram := write_udp (src r) (dst r) sp dp payload in
  let frames := udp_fragments r id sp dp payload in
  let missing es := exists f, f ∈ frames /\ forall j, frame_ip f = Some j -> j ∉ map snd es in
  m !! (src r, id, PROTO_UDP) = None ->
  Forall (fun ev => t0 <= fst ev < t0 + REASSEMBLY_TIMEOUT /\
    (key_of (snd ev) = (src r, id, PROTO_UDP) -> exists f, f ∈ frames /\ frame_ip f = Some (snd ev))) (pre ++ [(now, i)]) ->
  key_of i = (src r, id, PROTO_UDP) -> missing pre ->
  (missing (pre ++ [(now, i)]) -> snd (reassembler_add (feed m pre) now i) = None) /\
  (~ missing (pre ++ [(now, i)]) -> snd (reassembler_add (feed m pre) now i) = Some dgram) /\
  exists u, udp_parse dgram = Some u /\ udp_sport u = sp /\ udp_dport u = dp /\ udp_payload u = payload.
Proof.
  intros Hr Hid Hsp Hdp Hl Hmtu dgram frames miss Hm Hg Hk Hmiss.
  destruct (write_udp_parses (src r) (dst r) sp dp payload Hsp Hdp Hl) as [Hlen Hparse]. fold dgram in Hlen, Hparse.
  assert (Hfr : frames = map (fragment r id (length dgram)) (chunks_from (length dgram) 0 dgram)).
  { unfold frames, udp_fragments. by rewrite (proj2 (Nat.leb_gt _ _)) by lia. }
  clearbody frames dgram. subst frames.
  destruct (reassembles r id dgram t0 Hr Hid ltac:(lia) m pre now i) as [H1 H2]; try done.
  destruct dgram as [|x l]; [|done]. cbn in Hlen. unfold UDP_HDR in Hlen. lia.
Qed.

(** ** Witnesses *)

Definition ex_route : Ipv4Route :=
  {| dst_mac := [8; 0; 0x69; 1; 2; 3]; src_mac := [2; 0; 0; 0; 0; 1]; src := [192; 168; 0; 1]; dst := [192; 168; 0; 2] |}.
Definition ex_header : TcpHeader :=
  {| sport := 80; dport := 1025; seq := 4294967295; ack := 17; flags := SYN_ACK; window := 65535; mss := Some TCP_MSS |}.

Lemma ex_route_ok : route_ok ex_route.
Proof. constructor; (split; [reflexivity|]); repeat constructor; unfold byte; lia. Qed.

Lemma tcp_frame_roundtrip_witness :
  exists e i t, ether_parse (route_tcp ex_route 7 ex_header [1; 2; 3]) = Some e /\ eth_dst e = dst_mac ex_route /\
    eth_src e = src_mac ex_route /\ eth_ipv4 e = Some i /\ ip_src i = src ex_route /\ ip_dst i = dst ex_route /\ ip_id i = 7 /\
    checksum_ok i = true /\ pseudo_checksum (ip_src i) (ip_dst i) (ip_proto i) (ip_payload i) = 0 /\
    ip_tcp i = Some t /\ tcp_sport t = 80 /\ tcp_dport t = 1025 /\ tcp_seq t = 4294967295 /\ tcp_ack t = 17 /\
    tcp_flags t = SYN_ACK /\ tcp_window t = 65535 /\ tcp_mss t = Some TCP_MSS /\ tcp_payload t = [1; 2; 3].
Proof.
  apply (tcp_frame_roundtrip ex_route 7 ex_header [1; 2; 3]); [apply ex_route_ok|done| | |reflexivity].
  - constructor; unfold is_u16, is_u32; cbn; lia || done.
  - repeat constructor; unfold byte; lia.
Defined.

(** A datagram of two fragments, the second of which arrives first. *)
Definition ex_payload : list Z := replicate 2000 7.
Definition ex_frames : list (list Z) := udp_fragments ex_route 1 2 3 ex_payload.
Definition ex_ip (k : nat) : Ipv4 := default {| ip_b := []; hlen := 0; end_ := 0 |} (ex_frames !! k ≫= frame_ip).

#[local] Arguments ex_ip : simpl never.

Lemma ex_frames_eq : exists f0 f1, ex_frames = [f0; f1] /\ frame_ip f0 = Some (ex_ip 0) /\ frame_ip f1 = Some (ex_ip 1).
Proof.
  exists (default [] (ex_frames !! 0%nat)), (default [] (ex_frames !! 1%nat)). split_and!; vm_compute; reflexivity.
Qed.

Lemma ex_ips_differ : ex_ip 0 <> ex_ip 1.
Proof. intros E. apply (f_equal more_fragments) in E. vm_compute in E. discriminate E. Qed.

Lemma fragments_reassemble_witness :
  snd (reassembler_add (feed ∅ [(0, ex_ip 1)]) 1 (ex_ip 0)) = Some (write_udp (src ex_route) (dst ex_route) 2 3 ex_payload).
Proof.
  destruct ex_frames_eq as (f0 & f1 & Hf & H0 & H1). unfold ex_frames in Hf.
  destruct (fragments_reassemble ex_route 1 2 3 ex_payload ∅ 0 [(0, ex_ip 1)] 1 (ex_ip 0)) as (_ & Hall & _); rewrite ?Hf.
  - apply ex_route_ok.
  - done.
  - done.
  - done.
  - vm_compute. reflexivity.
  - apply Nat.ltb_lt. vm_compute. reflexivity.
  - done.
  - repeat constructor; cbn [fst snd]; unfold REASSEMBLY_TIMEOUT; try lia; intros _;
      [exists f1|exists f0]; (split; [rewrite !elem_of_cons; tauto|done]).
  - vm_compute. reflexivity.
  - exists f0. split; [by left|]. intros j. rewrite H0. intros E. injection E as <-. cbn [map snd]. rewrite list_elem_of_singleton. apply ex_ips_differ.
  - rewrite Hf in Hall. apply Hall. intros (f & Hin & Hmiss). cbn [map snd app] in Hmiss.
    apply elem_of_cons in Hin as [E|E]; [|apply list_elem_of_singleton in E]; subst f; [apply (Hmiss _ H0)|apply (Hmiss _ H1)]; rewrite !elem_of_cons; tauto.
Defined.

End NetClaims.
