(* ===== verification/TcpConn.v ===== *)
(** * The gateway's TCP endpoint (src/src/net/tcp.rs)

    [TcpConn] terminates a guest's connection and relays it to a backend, a
    host socket or a service of the gateway.  The backend is an interface
    ([BackendOps]): a host socket belongs to the operating system; a service
    is the instance [ServiceConn].  A call interrupted by a signal is retried
    until it ends otherwise, so it is not an outcome here, and the front slice
    of a ring buffer is the whole buffer.  One call reads the clock once; times
    are nanoseconds.  The initial sequence number is an argument.  A frame is
    the header and data that [route_tcp] encodes. *)

From S2P Require Import Prelude Packet.
Import Packet.

#[local] Open Scope Z_scope.

Module TcpConn.

Definition RCV_BUF : nat := Z.to_nat 65535.
Definition SND_BUF : nat := Z.to_nat 65535.
Definition DEFAULT_MSS : Z := 536.
Definition MS : Z := 1000000.
Definition RTO_INITIAL : Z := 200 * MS.
Definition RTO_MAX : Z := 4000 * MS.
Definition GIVE_UP : Z := 60000 * MS.
Definition TIME_WAIT : Z := 4000 * MS.
Definition HALF_CLOSED_IDLE : Z := 120000 * MS.

Inductive State : Type := Connecting | SynSent | SynReceived | Established | Closed.

#[export] Instance State_eq_dec : EqDecision State.
Proof. solve_decision. Defined.

(** ** Backends *)

Inductive IoOut (A : Type) : Type := IoOk (a : A) | WouldBlock | NotConnected | Failed.
Arguments IoOk {A} a.
Arguments WouldBlock {A}.
Arguments NotConnected {A}.
Arguments Failed {A}.

(** [poll_connect] is [Some true] once connected and [Some false] on failure;
    [bread] answers with the bytes read, none at the end of the stream. *)
Class BackendOps (B : Type) := {
  poll_connect : B -> Z -> B * option bool;
  bwrite : B -> list Z -> B * IoOut nat;
  bread : B -> nat -> B * IoOut (list Z);
  shutdown_write : B -> B;
}.

(** A service of the gateway. *)
Class TcpServiceOps (S : Type) := {
  greeting : S -> S * list Z;
  svc_input : S -> list Z -> S * list Z;
  pull : S -> nat -> S * list Z;
  done : S -> bool;
  guest_closed : S -> S;
}.

Record ServiceConn (S : Type) : Type := { svc : S; out : list Z }.
Arguments svc {S}.
Arguments out {S}.
Arguments Build_ServiceConn {S}.

Definition service_new {S} `{TcpServiceOps S} (s : S) : ServiceConn S :=
  let '(s, o) := greeting s in {| svc := s; out := o |}.

Definition service_write {S} `{TcpServiceOps S} (s : ServiceConn S) (data : list Z) : ServiceConn S * IoOut nat :=
  let '(v, reply) := svc_input (svc s) data in ({| svc := v; out := out s ++ reply |}, IoOk (length data)).

Definition service_read {S} `{TcpServiceOps S} (s : ServiceConn S) (n : nat) : ServiceConn S * IoOut (list Z) :=
  let s := match out s with
           | [] => let '(v, more) := pull (svc s) n in {| svc := v; out := more |}
           | _ => s
           end in
  match out s with
  | [] => (s, if done (svc s) then IoOk [] else WouldBlock)
  | o => ({| svc := svc s; out := drop n o |}, IoOk (take n o))
  end.

#[export] Instance service_backend {S} `{TcpServiceOps S} : BackendOps (ServiceConn S) := {
  poll_connect := fun s _ => (s, Some true);
  bwrite := service_write;
  bread := service_read;
  shutdown_write := fun s => {| svc := guest_closed (svc s); out := out s |};
}.

(** RFC 868 time: four bytes, then close. *)
Definition TimeService : Type := list Z.

#[export] Instance time_service : TcpServiceOps TimeService := {
  greeting := fun t => (t, t);
  svc_input := fun t _ => (t, []);
  pull := fun t _ => (t, []);
  done := fun _ => true;
  guest_closed := fun t => t;
}.

(** ** The connection *)

Record Endpoints : Type := {
  guest_mac : list Z;
  guest_ip : list Z;
  guest_port : Z;
  remote_ip : list Z;
  remote_port : Z;
}.

Record TcpConn (B : Type) : Type := mkConn {
  ends : Endpoints;
  state : State;
  backend : B;
  iss : Z;
  snd_una : Z;
  snd_nxt : Z;
  snd_max : Z;
  unacked : list Z;
  peer_win : Z;
  peer_mss : Z;
  rto : Z;
  rto_deadline : option Z;
  last_progress : Z;
  irs : Z;
  rcv_nxt : Z;
  to_backend : list Z;
  adv_win : Z;
  guest_fin : bool;
  backend_shut : bool;
  backend_eof : bool;
  fin_sent : bool;
  last_use : Z;
  closed_at : option Z;
  reset : bool;
}.
Arguments mkConn {B}.
Arguments ends {B}. Arguments state {B}. Arguments backend {B}. Arguments iss {B}. Arguments snd_una {B}.
Arguments snd_nxt {B}. Arguments snd_max {B}. Arguments unacked {B}. Arguments peer_win {B}. Arguments peer_mss {B}.
Arguments rto {B}. Arguments rto_deadline {B}. Arguments last_progress {B}. Arguments irs {B}. Arguments rcv_nxt {B}.
Arguments to_backend {B}. Arguments adv_win {B}. Arguments guest_fin {B}. Arguments backend_shut {B}.
Arguments backend_eof {B}. Arguments fin_sent {B}. Arguments last_use {B}. Arguments closed_at {B}. Arguments reset {B}.

#[global] Instance eta_TcpConn {B} : Settable (TcpConn B) := fun r =>
  mkConn (ends r) (state r) (backend r) (iss r) (snd_una r) (snd_nxt r) (snd_max r) (unacked r) (peer_win r) (peer_mss r)
    (rto r) (rto_deadline r) (last_progress r) (irs r) (rcv_nxt r) (to_backend r) (adv_win r) (guest_fin r)
    (backend_shut r) (backend_eof r) (fin_sent r) (last_use r) (closed_at r) (reset r).

(** What [input] reads of a parsed segment. *)
Record Segment : Type := {
  s_seq : Z;
  s_ack : Z;
  s_flags : Z;
  s_window : Z;
  s_mss : option Z;
  s_payload : list Z;
}.

Definition segment_of (t : Tcp) : Segment :=
  {| s_seq := tcp_seq t; s_ack := tcp_ack t; s_flags := tcp_flags t; s_window := tcp_window t; s_mss := tcp_mss t;
     s_payload := tcp_payload t |}.

Record Frame : Type := { f_route : Ipv4Route; f_hdr : TcpHeader; f_data : list Z }.

Definition frame_bytes (f : Frame) : list Z := route_tcp (f_route f) 0 (f_hdr f) (f_data f).

(** [a] is after [b] in sequence space. *)
Definition seq_gt (a b : Z) : bool := 0 <? i32 (u32 (a - b)).

Section Conn.

Context {B : Type} `{BackendOps B} (gw_mac : list Z).

Notation Conn := (TcpConn B).

Definition guest_mss (m : option Z) : Z := Z.min (default DEFAULT_MSS m) TCP_MSS.

Definition accept (now isn : Z) (e : Endpoints) (syn : Segment) (b : B) : Conn :=
  {| ends := e; state := Connecting; backend := b; iss := isn; snd_una := isn; snd_nxt := isn; snd_max := isn; unacked := [];
     peer_win := s_window syn; peer_mss := guest_mss (s_mss syn); rto := RTO_INITIAL; rto_deadline := None;
     last_progress := now; irs := s_seq syn; rcv_nxt := u32 (s_seq syn + 1); to_backend := []; adv_win := Z.of_nat RCV_BUF;
     guest_fin := false; backend_shut := false; backend_eof := false; fin_sent := false; last_use := now;
     closed_at := None; reset := false |}.

Definition open (now isn : Z) (e : Endpoints) (b : B) : Conn :=
  {| ends := e; state := SynSent; backend := b; iss := isn; snd_una := isn; snd_nxt := u32 (isn + 1); snd_max := u32 (isn + 1);
     unacked := []; peer_win := 0; peer_mss := DEFAULT_MSS; rto := RTO_INITIAL; rto_deadline := Some (now + RTO_INITIAL);
     last_progress := now; irs := 0; rcv_nxt := 0; to_backend := []; adv_win := Z.of_nat RCV_BUF;
     guest_fin := false; backend_shut := false; backend_eof := false; fin_sent := false; last_use := now;
     closed_at := None; reset := false |}.

Definition rcv_win (c : Conn) : Z := u16 (Z.of_nat (RCV_BUF - length (to_backend c))).

Definition in_flight (c : Conn) : Z := u32 (snd_nxt c - snd_una c).

Definition is_done (now : Z) (c : Conn) : bool :=
  bool_decide (state c = Closed) && match closed_at c with Some t => TIME_WAIT <? Z.max 0 (now - t) | None => false end.

Definition seg (c : Conn) (sq fl : Z) (data : list Z) : Frame :=
  let e := ends c in
  {| f_route := {| dst_mac := guest_mac e; src_mac := gw_mac; src := remote_ip e; dst := guest_ip e |};
     f_hdr := {| sport := remote_port e; dport := guest_port e; seq := sq;
                 ack := if has_flag fl ACK then rcv_nxt c else 0; flags := fl; window := rcv_win c;
                 mss := if has_flag fl SYN then Some TCP_MSS else None |};
     f_data := data |}.

Definition arm_rto (now : Z) (c : Conn) : Conn :=
  match rto_deadline c with None => c <| rto_deadline := Some (now + rto c) |> | Some _ => c end.

Definition syn (c : Conn) : Frame := seg c (iss c) SYN [].

(** ** Segments from the guest *)

(** Writes until the backend takes no more; each turn takes at least a byte. *)
Fixpoint flush_loop (fuel : nat) (now : Z) (c : Conn) : Conn :=
  match fuel, to_backend c with
  | S fuel', _ :: _ =>
      let '(b, r) := bwrite (backend c) (to_backend c) in
      let c := c <| backend := b |> in
      match r with
      | IoOk O => c
      | IoOk n => flush_loop fuel' now (c <| to_backend ::= drop n |> <| last_use := now |>)
      | WouldBlock | NotConnected => c
      | Failed => c <| reset := true |>
      end
  | _, _ => c
  end.

Definition flush_to_backend (now : Z) (c : Conn) : Conn :=
  let c := flush_loop (length (to_backend c)) now c in
  if guest_fin c && (length (to_backend c) =? 0)%nat && negb (backend_shut c) then
    c <| backend ::= shutdown_write |> <| backend_shut := true |>
  else c.

Definition close_if_done (now : Z) (c : Conn) : Conn :=
  if bool_decide (state c = Established) && guest_fin c && fin_sent c && (snd_una c =? snd_max c) &&
     (length (to_backend c) =? 0)%nat
  then c <| state := Closed |> <| closed_at := Some now |> else c.

Definition take_ack (now : Z) (c : Conn) (t : Segment) : Conn :=
  if has_flag (s_flags t) ACK then
    let a := s_ack t in
    let c :=
      if seq_gt a (snd_una c) && negb (seq_gt a (snd_max c)) then
        let acked := Z.to_nat (u32 (a - snd_una c)) in
        let c := c <| unacked ::= drop (Nat.min acked (length (unacked c))) |> <| snd_una := a |> in
        let c := if seq_gt a (snd_nxt c) then c <| snd_nxt := a |> else c in
        c <| rto := RTO_INITIAL |>
          <| rto_deadline := if snd_una c =? snd_nxt c then None else Some (now + RTO_INITIAL) |>
          <| last_progress := now |>
      else c in
    c <| peer_win := s_window t |>
  else c.

Definition take_data (c : Conn) (t : Segment) : Conn :=
  let data := s_payload t in
  let behind := u32 (rcv_nxt c - s_seq t) in
  if (0 <=? i32 behind) && (behind <? Z.of_nat (length data)) && negb (guest_fin c) then
    let fresh := drop (Z.to_nat behind) data in
    let room := (RCV_BUF - length (to_backend c))%nat in
    let n := Nat.min (length fresh) room in
    c <| to_backend ::= (fun l => l ++ take n fresh) |> <| rcv_nxt ::= (fun x => u32 (x + u32 (Z.of_nat n))) |>
  else c.

Definition take_fin (c : Conn) (t : Segment) : Conn :=
  let fin_seq := u32 (s_seq t + u32 (Z.of_nat (length (s_payload t)))) in
  if (fin_seq =? rcv_nxt c) && negb (guest_fin c) then c <| rcv_nxt ::= (fun x => u32 (x + 1)) |> <| guest_fin := true |> else c.

(** The part of [input] after the handshake. *)
Definition input_stream (now : Z) (c : Conn) (t : Segment) : Conn * list Frame :=
  let c := take_ack now c t in
  let '(c, ack_needed) := match s_payload t with [] => (c, false) | _ => (take_data c t, true) end in
  let '(c, ack_needed) := if has_flag (s_flags t) FIN then (take_fin c t, true) else (c, ack_needed) in
  let c := flush_to_backend now c in
  let '(c, o) :=
    if ack_needed then let c := c <| adv_win := rcv_win c |> in (c, [seg c (snd_nxt c) ACK []]) else (c, []) in
  (close_if_done now c, o).

Definition input (now : Z) (c : Conn) (t : Segment) : Conn * list Frame :=
  let c := c <| last_use := now |> in
  let fl f := has_flag (s_flags t) f in
  if fl RST then (c <| state := Closed |> <| closed_at := Some now |>, [])
  else
    match state c with
    | Connecting => (c, [])
    | SynSent =>
        if fl SYN && fl ACK && (s_ack t =? u32 (iss c + 1)) then
          let c := c <| irs := s_seq t |> <| rcv_nxt := u32 (s_seq t + 1) |> <| snd_una := s_ack t |>
                     <| peer_win := s_window t |> <| peer_mss := guest_mss (s_mss t) |> <| state := Established |>
                     <| rto := RTO_INITIAL |> <| rto_deadline := None |> <| last_progress := now |> in
          (c, [seg c (snd_nxt c) ACK []])
        else if fl SYN || fl ACK then (c <| reset := true |>, [])
        else (c, [])
    | SynReceived =>
        if fl SYN && negb (fl ACK) then (c, [seg c (iss c) SYN_ACK []])
        else if fl ACK && (s_ack t =? u32 (iss c + 1)) then
          input_stream now (c <| state := Established |> <| snd_una := s_ack t |> <| rto := RTO_INITIAL |>
                              <| rto_deadline := None |> <| last_progress := now |>) t
        else (c, [])
    | Established | Closed =>
        if fl SYN then (c, [seg c (snd_nxt c) ACK []]) else input_stream now c t
    end.

(** [input] of a segment whose data an application gateway rewrote. *)
Definition input_rewritten (now : Z) (c : Conn) (t : Segment) (rewritten : list Z) : Conn * list Frame :=
  let original := length (s_payload t) in
  if negb (bool_decide (state c = Established)) || negb (s_seq t =? rcv_nxt c) || guest_fin c ||
     (RCV_BUF - length (to_backend c) <? Nat.max (length rewritten) original)%nat
  then input now c t
  else
    input now (c <| to_backend ::= (fun l => l ++ rewritten) |>
                 <| rcv_nxt ::= (fun x => u32 (x + u32 (Z.of_nat original))) |>) t.

(** ** Timers and data from the backend *)

Definition sent_to (c : Conn) (e : Z) : Conn :=
  let c := c <| snd_nxt := e |> in if seq_gt e (snd_max c) then c <| snd_max := e |> else c.

Definition backoff (now : Z) (c : Conn) : Conn :=
  let r := Z.min (rto c * 2) RTO_MAX in c <| rto := r |> <| rto_deadline := Some (now + r) |>.

Definition abort (now : Z) (c : Conn) : Conn * list Frame :=
  let c := c <| state := Closed |> <| closed_at := Some now |> <| reset := false |> in
  (c, [seg c (snd_nxt c) RST_ACK []]).

Definition expired (now : Z) (c : Conn) : bool := match rto_deadline c with Some d => d <=? now | None => false end.

(** Resend from [snd_nxt] what is buffered, then read more from the backend.
    [None] is a loop that does not end. *)
Fixpoint fill (fuel : nat) (now : Z) (budget : nat) (c : Conn) (o : list Frame) : option (Conn * list Frame) :=
  match fuel with
  | O => None
  | S fuel' =>
      if (budget <=? length o)%nat then Some (c, o)
      else
        let sent := Z.to_nat (in_flight c) in
        let window_room := (Z.to_nat (peer_win c) - Z.to_nat (in_flight c))%nat in
        let mss := Z.to_nat (peer_mss c) in
        if (window_room =? 0)%nat then Some (c, o)
        else if (sent <? length (unacked c))%nat then
          let n := Nat.min (Nat.min (length (unacked c) - sent) mss) window_room in
          let chunk := take n (drop sent (unacked c)) in
          let o := o ++ [seg c (snd_nxt c) PSH_ACK chunk] in
          let c := sent_to c (u32 (snd_nxt c + u32 (Z.of_nat n))) in
          fill fuel' now budget (arm_rto now c) o
        else if backend_eof c || fin_sent c || (SND_BUF <=? length (unacked c))%nat then Some (c, o)
        else
          let n := Nat.min (Nat.min mss window_room) (SND_BUF - length (unacked c)) in
          let '(b, r) := bread (backend c) n in
          let c := c <| backend := b |> in
          match r with
          | IoOk [] => Some (c <| backend_eof := true |>, o)
          | IoOk data => fill fuel' now budget (c <| unacked ::= (fun l => l ++ data) |> <| last_use := now |>) o
          | WouldBlock => Some (c, o)
          | NotConnected | Failed => Some (c <| reset := true |>, o)
          end
  end.

(** A turn of the loop sends a frame or reads what the next turn sends. *)
Definition fill_fuel (budget : nat) : nat := (2 * budget + 2)%nat.

Definition retransmit (now : Z) (c : Conn) : Conn * list Frame :=
  let '(c, o) :=
    match unacked c with
    | byte :: _ =>
        if (peer_win c =? 0) && negb (fin_sent c) then
          (sent_to c (u32 (snd_una c + 1)), [seg c (snd_una c) ACK [byte]])
        else (c <| snd_nxt := snd_una c |>, [])
    | [] =>
        let c := c <| snd_nxt := snd_una c |> in
        if fin_sent c then (sent_to c (u32 (snd_una c + 1)), [seg c (snd_una c) FIN_ACK []]) else (c, [])
    end in
  (backoff now c, o).

(** The part of [poll] that runs on an established connection. *)
Definition poll_established (now : Z) (budget : nat) (c : Conn) : option (Conn * list Frame) :=
  let c := flush_to_backend now c in
  let win := rcv_win c in
  let '(c, o) :=
    if (0 <? budget)%nat && ((adv_win c + TCP_MSS <=? win) || ((win =? Z.of_nat RCV_BUF) && (adv_win c <? win))) then
      let c := c <| adv_win := win |> in (c, [seg c (snd_nxt c) ACK []])
    else (c, []) in
  if expired now c && (GIVE_UP <? Z.max 0 (now - last_progress c)) then Some (abort now c)
  else
    let '(c, o') := if expired now c then retransmit now c else (c, []) in
    '(c, o) ← fill (fill_fuel budget) now budget c (o ++ o');
    let '(c, o) :=
      if backend_eof c && negb (fin_sent c) && (length (unacked c) =? 0)%nat && (length o <? budget)%nat then
        let o := o ++ [seg c (snd_nxt c) FIN_ACK []] in
        (arm_rto now ((sent_to c (u32 (snd_nxt c + 1))) <| fin_sent := true |>), o)
      else (c, o) in
    if (guest_fin c || fin_sent c) && (HALF_CLOSED_IDLE <? Z.max 0 (now - last_use c)) then Some (abort now c)
    else Some (close_if_done now c, o).

Definition poll (now : Z) (budget : nat) (c : Conn) : option (Conn * list Frame) :=
  if reset c then Some (abort now c)
  else
    match state c with
    | Connecting =>
        let '(b, r) := poll_connect (backend c) now in
        let c := c <| backend := b |> in
        match r with
        | None => Some (c, [])
        | Some true =>
            let c := c <| state := SynReceived |> in
            let c := sent_to c (u32 (iss c + 1)) in
            let c := c <| rto_deadline := Some (now + rto c) |> in
            Some (c, [seg c (iss c) SYN_ACK []])
        | Some false =>
            let e := ends c in
            let h := {| sport := remote_port e; dport := guest_port e; seq := 0; ack := rcv_nxt c; flags := RST_ACK;
                        window := 0; mss := None |} in
            let r := {| dst_mac := guest_mac e; src_mac := gw_mac; src := remote_ip e; dst := guest_ip e |} in
            Some (c <| state := Closed |> <| closed_at := Some now |>, [{| f_route := r; f_hdr := h; f_data := [] |}])
        end
    | SynSent | SynReceived =>
        if expired now c then
          if GIVE_UP / 4 <? Z.max 0 (now - last_progress c) then Some (abort now c)
          else
            let fl := if bool_decide (state c = SynSent) then SYN else SYN_ACK in
            Some (backoff now c, [seg c (iss c) fl []])
        else Some (c, [])
    | Closed => Some (c, [])
    | Established => poll_established now budget c
    end.

End Conn.

End TcpConn.
