(* ===== verification/TcpProofs.v ===== *)
(** * The TCP endpoint's streams

    A backend that logs what it took and gave; what the connection's counters
    say about those logs ([recv_inv], [send_inv]); and that every step keeps
    it. *)

From S2P Require Import Prelude Packet TcpConn.
Import Packet TcpConn.

#[local] Open Scope Z_scope.

Module TcpProofs.

(** ** Logged backends *)

(** A write takes at most what it was given, a read returns at most what was
    asked for. *)
Class BackendLaws (B : Type) `{BackendOps B} : Prop := {
  bwrite_bound b l b' n : bwrite b l = (b', IoOk n) -> (n <= length l)%nat;
  bread_bound b n b' d : bread b n = (b', IoOk d) -> (length d <= n)%nat;
}.

(** What a backend was written and gave; [ended] when the last read it answered
    was of the end of its stream: no bytes, for a buffer that had room. *)
Record Logged (B : Type) : Type := { raw : B; taken : list Z; given : list Z; ended : bool }.
Arguments raw {B}. Arguments taken {B}. Arguments given {B}. Arguments ended {B}. Arguments Build_Logged {B}.

Definition read_ended (n : nat) (r : IoOut (list Z)) (was : bool) : bool :=
  match r with IoOk [] => (0 <? n)%nat | IoOk _ => false | _ => was end.

Definition fresh {B} (b : B) : Logged B := Build_Logged b [] [] false.

#[export] Instance logged_backend {B} `{BackendOps B} : BackendOps (Logged B) := {
  poll_connect := fun l now => let '(b, r) := poll_connect (raw l) now in (Build_Logged b (taken l) (given l) (ended l), r);
  bwrite := fun l d => let '(b, r) := bwrite (raw l) d in
    (Build_Logged b (taken l ++ match r with IoOk n => take n d | _ => [] end) (given l) (ended l), r);
  bread := fun l n => let '(b, r) := bread (raw l) n in
    (Build_Logged b (taken l) (given l ++ match r with IoOk d => d | _ => [] end) (read_ended n r (ended l)), r);
  shutdown_write := fun l => Build_Logged (shutdown_write (raw l)) (taken l) (given l) (ended l);
}.

#[export] Instance service_laws {S} `{TcpServiceOps S} : BackendLaws (ServiceConn S).
Proof.
  split.
  - intros b l b' n. cbn. unfold service_write. destruct (svc_input (svc b) l). intros [= _ <-]. done.
  - intros b n b' d. cbn. unfold service_read.
    destruct (match out b with [] => _ | _ => b end) as [v o]. cbn [out svc]. destruct o as [|x o].
    + destruct (done v); intros [= _ <-]. cbn. lia.
    + intros [= _ <-]. rewrite length_take. lia.
Qed.

(** ** Sequence space *)

Lemma i32_small x : - 2 ^ 31 <= x < 2 ^ 31 -> i32 (u32 x) = x.
Proof.
  intros Hx. unfold i32, signed, u32. rewrite wrap_idemp by lia. unfold wrap.
  destruct (Z.ltb_spec (x mod 2 ^ 32) (2 ^ (32 - 1))) as [H|H]; Z.to_euclidean_division_equations; lia.
Qed.

(** Sequence numbers compare as the stream offsets they stand for. *)
Lemma seq_gt_offsets b x y : - 2 ^ 31 <= x - y < 2 ^ 31 -> seq_gt (u32 (b + x)) (u32 (b + y)) = (y <? x).
Proof.
  intros Hxy. unfold seq_gt. rewrite u32_sub. replace (b + x - (b + y)) with (x - y) by lia. rewrite i32_small by done.
  destruct (Z.ltb_spec y x); [by apply Z.ltb_lt; lia|by apply Z.ltb_ge; lia].
Qed.

(** A 32-bit number is an offset within half the space of a given one. *)
Lemma offset_near b u v : 0 <= v < 2 ^ 32 -> exists x, v = u32 (b + x) /\ - 2 ^ 31 <= x - u < 2 ^ 31.
Proof.
  intros Hv. exists (u + i32 (u32 (v - (b + u)))). split.
  - unfold i32, signed, u32. rewrite wrap_idemp by lia. unfold wrap.
    destruct (Z.ltb_spec ((v - (b + u)) mod 2 ^ 32) (2 ^ (32 - 1))); Z.to_euclidean_division_equations; lia.
  - pose proof (Z.mod_pos_bound (v - (b + u)) (2 ^ 32) ltac:(lia)). unfold i32, signed, u32. rewrite wrap_idemp by lia. unfold wrap.
    destruct (Z.ltb_spec ((v - (b + u)) mod 2 ^ 32) (2 ^ (32 - 1))); lia.
Qed.

Lemma u32_eqb b x y : - 2 ^ 32 < x - y < 2 ^ 32 -> (u32 (b + x) =? u32 (b + y)) = (x =? y).
Proof.
  intros Hxy. unfold u32, wrap.
  destruct (Z.eqb_spec x y) as [->|Hne]; [apply Z.eqb_refl|]. apply Z.eqb_neq. Z.to_euclidean_division_equations. lia.
Qed.

Lemma u32_diff b x y : 0 <= x - y < 2 ^ 32 -> u32 (u32 (b + x) - u32 (b + y)) = x - y.
Proof. intros Hxy. rewrite u32_sub. replace (b + x - (b + y)) with (x - y) by lia. apply wrap_small. done. Qed.

Section Streams.

Context {B : Type} `{HB : BackendOps B} {HL : BackendLaws B} (gw_mac : list Z).

Notation Conn := (TcpConn (Logged B)).

(** ** From the guest to the backend *)

(** Bytes of the guest's stream taken so far. *)
Definition rcvd (c : Conn) : Z := Z.of_nat (length (taken (backend c) ++ to_backend c)).

Record recv_inv (G : list Z) (girs : Z) (c : Conn) : Prop := {
  ri_held : taken (backend c) ++ to_backend c = take (Z.to_nat (rcvd c)) G;
  ri_nxt : rcv_nxt c = u32 (girs + 1 + (rcvd c + bool_to_Z (guest_fin c)));
  ri_fin : guest_fin c = true -> rcvd c = Z.of_nat (length G);
  ri_room : (length (to_backend c) <= RCV_BUF)%nat;
}.

(** The guest's segments carry its stream, from near where the connection is. *)
Definition faithful (G : list Z) (girs : Z) (c : Conn) (t : Segment) : Prop :=
  exists a, 0 <= a /\ a + Z.of_nat (length (s_payload t)) <= Z.of_nat (length G) /\
    s_seq t = u32 (girs + 1 + a) /\
    s_payload t = take (length (s_payload t)) (drop (Z.to_nat a) G) /\
    - 2 ^ 30 <= rcvd c - a < 2 ^ 30 /\ Z.of_nat (length (s_payload t)) < 2 ^ 30 /\
    (has_flag (s_flags t) FIN = true -> a + Z.of_nat (length (s_payload t)) = Z.of_nat (length G)).

(** Changes that leave the stream from the guest where it was. *)
Record same_recv (c c' : Conn) : Prop := {
  sr_held : taken (backend c') ++ to_backend c' = taken (backend c) ++ to_backend c;
  sr_nxt : rcv_nxt c' = rcv_nxt c;
  sr_fin : guest_fin c' = guest_fin c;
  sr_room : (length (to_backend c') <= length (to_backend c))%nat;
}.

Lemma same_recv_refl c : same_recv c c.
Proof. by split. Qed.

Lemma same_recv_trans c c' c'' : same_recv c c' -> same_recv c' c'' -> same_recv c c''.
Proof. intros [? ? ? ?] [? ? ? ?]. split; congruence || lia. Qed.

Lemma recv_same G girs c c' : same_recv c c' -> recv_inv G girs c -> recv_inv G girs c'.
Proof.
  intros [Hh Hn Hf Hr] [H1 H2 H3 H4]. assert (Hrc : rcvd c' = rcvd c) by (unfold rcvd; by rewrite Hh).
  split; rewrite ?Hrc, ?Hf, ?Hn, ?Hh; done || lia.
Qed.

Lemma rcvd_le G girs c : recv_inv G girs c -> 0 <= rcvd c <= Z.of_nat (length G).
Proof.
  intros [Hh _ _ _]. apply (f_equal length) in Hh. rewrite length_take in Hh. unfold rcvd in *. lia.
Qed.

Lemma take_data_recv G girs c t : recv_inv G girs c -> faithful G girs c t -> recv_inv G girs (take_data c t).
Proof.
  intros Hi (a & Ha0 & Hal & Hseq & Hpl & Hnear & Hlen & _). pose proof (rcvd_le _ _ _ Hi) as Hr.
  pose proof Hi as [Hh Hn Hf Hroom]. unfold take_data. rewrite Hn, Hseq.
  destruct (guest_fin c) eqn:Eg; [by rewrite andb_false_r|]. cbn [bool_to_Z negb] in *.
  rewrite Z.add_0_r in Hn |- *. rewrite andb_true_r.
  rewrite u32_sub. replace (girs + 1 + rcvd c - (girs + 1 + a)) with (rcvd c - a) by lia. rewrite i32_small by lia.
  destruct (Z.leb_spec 0 (rcvd c - a)) as [H0|H0]; [|done]. cbn [andb].
  assert (Hu : u32 (rcvd c - a) = rcvd c - a) by (apply wrap_small; unfold fits; lia). rewrite Hu.
  destruct (Z.ltb_spec (rcvd c - a) (Z.of_nat (length (s_payload t)))) as [H1|H1]; [|done].
  set (fresh := drop (Z.to_nat (rcvd c - a)) (s_payload t)).
  assert (Hfresh : fresh = take (length fresh) (drop (Z.to_nat (rcvd c)) G)).
  { unfold fresh. rewrite Hpl at 1. rewrite skipn_firstn_comm, drop_drop, length_drop.
    do 2 f_equal; lia. }
  set (n := Nat.min (length fresh) (RCV_BUF - length (to_backend c))).
  assert (Hn' : take n fresh = take n (drop (Z.to_nat (rcvd c)) G)).
  { etransitivity; [apply (f_equal (take n)); exact Hfresh|]. rewrite take_take. f_equal. unfold n. lia. }
  assert (Hln : length (take n fresh) = n) by (rewrite length_take; unfold n; lia).
  assert (Hrc : rcvd (c <| to_backend ::= (fun l => l ++ take n fresh) |> <| rcv_nxt ::= (fun x => u32 (x + u32 (Z.of_nat n))) |>) =
    rcvd c + Z.of_nat n) by (unfold rcvd; cbn; rewrite !length_app, Hln; lia).
  split; rewrite ?Hrc; cbn.
  - rewrite app_assoc, Hh, Hn'. rewrite Z2Nat.inj_add, Nat2Z.id by lia. by rewrite take_take_drop.
  - rewrite u32_add_r, Hn, u32_add_l, Eg. cbn [bool_to_Z]. f_equal. lia.
  - by rewrite Eg.
  - rewrite length_app, Hln. unfold n. lia.
Qed.

Lemma take_data_rcvd c t : rcvd c <= rcvd (take_data c t) <= rcvd c + Z.of_nat (length (s_payload t)).
Proof.
  unfold take_data. case_match; [|lia]. unfold rcvd. cbn. rewrite !length_app, length_take, length_drop. lia.
Qed.

Lemma take_fin_recv G girs c t a : recv_inv G girs c -> s_seq t = u32 (girs + 1 + a) ->
  a + Z.of_nat (length (s_payload t)) = Z.of_nat (length G) -> - 2 ^ 31 <= rcvd c - a < 2 ^ 31 ->
  Z.of_nat (length (s_payload t)) < 2 ^ 30 -> recv_inv G girs (take_fin c t).
Proof.
  intros Hi Hseq Hend Hnear Hlen. pose proof Hi as [Hh Hn Hf Hroom]. unfold take_fin. rewrite Hn, Hseq.
  rewrite u32_add_l, u32_add_r, <- Z.add_assoc, Hend.
  destruct (guest_fin c) eqn:Eg; [by rewrite andb_false_r|]. cbn [bool_to_Z negb] in *. rewrite Z.add_0_r in Hn |- *. rewrite andb_true_r.
  rewrite u32_eqb by lia. destruct (Z.eqb_spec (Z.of_nat (length G)) (rcvd c)) as [E|E]; [|done].
  assert (Hrc : rcvd (c <| rcv_nxt ::= (fun x => u32 (x + 1)) |> <| guest_fin := true |>) = rcvd c) by done.
  split; rewrite ?Hrc; cbn; try done.
  rewrite Hn, u32_add_l. f_equal. lia.
Qed.

(** ** From the backend to the guest: what the steps above keep *)

Record same_send (c c' : Conn) : Prop := {
  ss_iss : iss c' = iss c;
  ss_una : snd_una c' = snd_una c;
  ss_nxt : snd_nxt c' = snd_nxt c;
  ss_max : snd_max c' = snd_max c;
  ss_unacked : unacked c' = unacked c;
  ss_fin : fin_sent c' = fin_sent c;
  ss_eof : backend_eof c' = backend_eof c;
  ss_state : state c' = state c;
  ss_rto : rto_deadline c' = rto_deadline c;
  ss_given : given (backend c') = given (backend c);
}.

Lemma same_send_refl c : same_send c c.
Proof. by split. Qed.

Lemma same_send_trans c c' c'' : same_send c c' -> same_send c' c'' -> same_send c c''.
Proof. intros [] []. split; congruence. Qed.

(** Handing bytes to the backend moves them from the buffer to its log. *)
Lemma flush_loop_same fuel now c : same_recv c (flush_loop fuel now c) /\ same_send c (flush_loop fuel now c).
Proof.
  revert c. induction fuel as [|fuel IH]; intros c; [by split|]. cbn [flush_loop].
  destruct (to_backend c) as [|x l] eqn:Etb; [by split|]. rewrite <- Etb. cbn [bwrite logged_backend].
  destruct (bwrite (raw (backend c)) (to_backend c)) as [b r] eqn:E.
  destruct r as [[|n]| | |]; try (split; split; cbn; rewrite ?app_nil_r; done).
  apply bwrite_bound in E. set (c1 := _ <| last_use := now |>). destruct (IH c1) as [H1 H2].
  split; [apply (same_recv_trans _ c1); [|done]|apply (same_send_trans _ c1); [|done]].
  - split; cbn; try done; [|rewrite length_drop; lia]. rewrite <- app_assoc. by rewrite take_drop.
  - by split.
Qed.

Lemma flush_same now c : same_recv c (flush_to_backend now c) /\ same_send c (flush_to_backend now c).
Proof.
  unfold flush_to_backend. destruct (flush_loop_same (length (to_backend c)) now c) as [H1 H2].
  set (c1 := flush_loop _ now c) in *. clearbody c1. case_match; [|done].
  split; [apply (same_recv_trans _ c1); [done|by split]|apply (same_send_trans _ c1); [done|by split]].
Qed.

(** Bytes the backend gave, and how many of them the guest acknowledged. *)
Definition gave (c : Conn) : Z := Z.of_nat (length (given (backend c))).
Definition acked (c : Conn) : Z := gave c - Z.of_nat (length (unacked c)).

(** Sequence number [off] of our stream; the SYN is before offset 0. *)
Definition at_off (c : Conn) (off : Z) : Z := u32 (iss c + 1 + off).

(** The counters of an open connection: [u] is acknowledged, [n] comes next,
    [m] was sent; the FIN counts for one. *)
Record open_at (c : Conn) (u n m : Z) : Prop := {
  oa_una : snd_una c = at_off c u;
  oa_nxt : snd_nxt c = at_off c n;
  oa_max : snd_max c = at_off c m;
  oa_buf : unacked c = drop (Z.to_nat (acked c)) (given (backend c));
  oa_ord : 0 <= acked c <= u /\ u <= n <= m /\ m <= gave c + bool_to_Z (fin_sent c);
  oa_u : u = acked c \/ (u = acked c + 1 /\ fin_sent c = true /\ rto_deadline c = None);
  oa_fin : fin_sent c = true -> unacked c = [] /\ backend_eof c = true;
  oa_len : (length (unacked c) <= SND_BUF)%nat;
  oa_finmax : fin_sent c = true -> m = gave c + 1;
}.

Inductive send_inv (c : Conn) : Prop :=
| si_idle : state c = Connecting \/ state c = Closed -> snd_una c = iss c -> snd_nxt c = iss c -> snd_max c = iss c ->
    unacked c = [] -> given (backend c) = [] -> fin_sent c = false -> send_inv c
| si_syn : state c = SynSent \/ state c = SynReceived \/ state c = Closed -> snd_una c = iss c -> snd_nxt c = at_off c 0 ->
    snd_max c = at_off c 0 -> unacked c = [] -> given (backend c) = [] -> fin_sent c = false -> send_inv c
| si_open u n m : state c = Established \/ state c = Closed -> open_at c u n m -> send_inv c.

Lemma open_same c c' u n m : same_send c c' -> open_at c u n m -> open_at c' u n m.
Proof.
  intros [] []. assert (Hg : gave c' = gave c) by (unfold gave; congruence).
  assert (Ha : acked c' = acked c) by (unfold acked; congruence). unfold at_off in *.
  split; unfold at_off; rewrite ?Hg, ?Ha, ?ss_fin0, ?ss_rto0, ?ss_unacked0, ?ss_eof0, ?ss_iss0, ?ss_given0; congruence || done.
Qed.

Lemma send_same c c' : same_send c c' -> send_inv c -> send_inv c'.
Proof.
  intros Hs. inversion 1 as [Hst ? ? ? ? ? ?|Hst ? ? ? ? ? ?|u n m Hst Ho].
  - destruct Hs. apply si_idle; congruence || (destruct Hst; [left|right]; congruence).
  - destruct Hs. unfold at_off in *. apply si_syn; unfold at_off; congruence.
  - apply (si_open _ u n m); [destruct Hs, Hst; [left|right]; congruence|by apply (open_same c)].
Qed.

(** ** Acknowledgements *)

Lemma open_span c u n m : open_at c u n m -> m - u <= 65536.
Proof.
  intros [_ _ _ _ Ho _ Hf Hl]. unfold acked in *. destruct (fin_sent c) eqn:E; cbn [bool_to_Z] in Ho.
  - destruct (Hf eq_refl) as [Hu _]. rewrite Hu in Ho. cbn [length] in Ho. lia.
  - unfold SND_BUF in Hl. lia.
Qed.

(** An acknowledgement of [x] in [(u, m]] drops what it covers. *)
Lemma open_ack now c u n m x t : open_at c u n m -> s_ack t = at_off c x -> u < x <= m ->
  let k := Nat.min (Z.to_nat (x - u)) (length (unacked c)) in
  let nx := Z.max n x in
  open_at (c <| unacked ::= drop k |> <| snd_una := s_ack t |> <| snd_nxt := at_off c nx |> <| rto := RTO_INITIAL |>
             <| rto_deadline := if x =? nx then None else Some (now + RTO_INITIAL) |> <| last_progress := now |>) x nx m.
Proof.
  intros [H1 H2 H3 H4 H5 H6 H7 H8] Ha Hx k nx. unfold acked, gave in *.
  assert (Hk : (k <= length (unacked c))%nat) by (unfold k; lia).
  split; cbn; unfold acked, gave, at_off in *; cbn; rewrite ?length_drop; try done.
  - rewrite H4 at 1. rewrite drop_drop. f_equal. lia.
  - split; [lia|]. split; lia.
  - destruct (fin_sent c) eqn:E; cbn [bool_to_Z] in *.
    + destruct (H7 eq_refl) as [Hu _]. rewrite Hu in *. cbn [length] in *. right.
      split; [lia|]. split; [done|]. assert (x = nx) by lia. by rewrite (proj2 (Z.eqb_eq _ _)).
    + left. unfold k. lia.
  - intros Hf. destruct (H7 Hf) as [-> ?]. by rewrite drop_nil.
  - lia.
Qed.

Definition grows (c c' : Conn) : Prop :=
  iss c' = iss c /\ exists d, given (backend c') = given (backend c) ++ d /\ (fin_sent c = true -> d = [] /\ fin_sent c' = true).

Lemma same_grows c c' : same_send c c' -> grows c c'.
Proof. intros []. split; [done|]. exists []. rewrite app_nil_r. split; [done|]. intros ?. split; [done|congruence]. Qed.

Lemma grows_trans c c' c'' : grows c c' -> grows c' c'' -> grows c c''.
Proof.
  intros [H1 (d1 & H2 & H3)] [H4 (d2 & H5 & H6)]. split; [congruence|]. exists (d1 ++ d2). split; [by rewrite H5, H2, app_assoc|].
  intros Hf. destruct (H3 Hf) as [-> Hf']. destruct (H6 Hf') as [-> ?]. done.
Qed.

Definition seg_ok (t : Segment) : Prop := 0 <= s_ack t < 2 ^ 32.

(** The next sequence number is not touched by the updates around it. *)
Ltac nxt_of c :=
  match goal with |- context [seq_gt _ (snd_nxt ?c')] => change (snd_nxt c') with (snd_nxt c) end.

Lemma take_ack_open now c t u n m : open_at c u n m -> seg_ok t -> exists u' n', open_at (take_ack now c t) u' n' m.
Proof.
  intros Ho Hs. pose proof (open_span _ _ _ _ Ho) as Hspan. pose proof Ho as [H1 H2 H3 _ H5 _ _ _]. unfold take_ack.
  destruct (has_flag (s_flags t) ACK); [|by exists u, n].
  destruct (offset_near (iss c + 1) u (s_ack t) Hs) as (x & Hx & Hnear).
  assert (Hg1 : seq_gt (s_ack t) (snd_una c) = (u <? x)) by (rewrite Hx, H1; unfold at_off; apply seq_gt_offsets; lia).
  rewrite Hg1. destruct (Z.ltb_spec u x) as [Hux|Hux]; cbn [andb].
  2: { exists u, n. apply (open_same c); [by split|done]. }
  assert (Hg2 : seq_gt (s_ack t) (snd_max c) = (m <? x)) by (rewrite Hx, H3; unfold at_off; apply seq_gt_offsets; lia).
  rewrite Hg2. destruct (Z.ltb_spec m x) as [Hmx|Hmx]; cbn [negb].
  { exists u, n. apply (open_same c); [by split|done]. }
  pose proof (open_ack now c u n m x t Ho ltac:(done) ltac:(lia)) as Hack. cbn zeta in Hack.
  assert (Hacked : u32 (s_ack t - snd_una c) = x - u) by (rewrite Hx, H1; unfold at_off; apply u32_diff; lia).
  assert (Hg3 : seq_gt (s_ack t) (snd_nxt c) = (n <? x)) by (rewrite Hx, H2; unfold at_off; apply seq_gt_offsets; lia).
  exists x, (Z.max n x). rewrite Hacked. nxt_of c. rewrite Hg3.
  eapply open_same; [|exact Hack]. destruct (Z.ltb_spec n x) as [Hnx|Hnx].
  - rewrite Z.max_r by lia. split; cbn; try done. by rewrite !Z.eqb_refl.
  - rewrite Z.max_l by lia. split; cbn; try done. rewrite Hx, H2. unfold at_off. by rewrite u32_eqb by lia.
Qed.

Lemma take_ack_send now c t : send_inv c -> u32 (iss c) = iss c -> seg_ok t -> state c = Established \/ state c = Closed ->
  send_inv (take_ack now c t) /\ state (take_ack now c t) = state c.
Proof.
  intros Hi Hiss Hs Hst.
  assert (Hstate : state (take_ack now c t) = state c).
  { unfold take_ack. repeat case_match; reflexivity. }
  split; [|done]. destruct Hi as [Hst' H1 H2 H3 H4 H5 H6|Hst' H1 H2 H3 H4 H5 H6|u n m Hst' Ho].
  - apply (send_same c); [|by apply si_idle]. unfold take_ack. destruct (has_flag _ _); [|apply same_send_refl].
    rewrite H1, H3. rewrite andb_negb_r. by split.
  - unfold take_ack. destruct (has_flag _ _); [|by apply si_syn].
    destruct (offset_near (iss c) 0 (s_ack t) Hs) as (x & Hx & Hnear).
    assert (Hg1 : seq_gt (s_ack t) (snd_una c) = (0 <? x)).
    { assert (Hu : snd_una c = u32 (iss c + 0)) by (rewrite Z.add_0_r; congruence). rewrite Hx, Hu. by apply seq_gt_offsets. }
    rewrite Hg1. destruct (Z.ltb_spec 0 x) as [H0x|H0x]; cbn [andb]; [|apply (send_same c); [by split|by apply si_syn]].
    assert (Hg2 : seq_gt (s_ack t) (snd_max c) = (1 <? x)).
    { rewrite Hx, H3. unfold at_off. rewrite Z.add_0_r. apply seq_gt_offsets. lia. }
    rewrite Hg2. destruct (Z.ltb_spec 1 x) as [H1x|H1x]; cbn [negb]; [apply (send_same c); [by split|by apply si_syn]|].
    assert (x = 1) as -> by lia. assert (Hn : snd_nxt c = s_ack t) by (rewrite H2, Hx; unfold at_off; f_equal; lia).
    assert (Hg3 : seq_gt (s_ack t) (snd_nxt c) = false).
    { rewrite Hn. unfold seq_gt. by rewrite Z.sub_diag. }
    nxt_of c. rewrite Hg3. apply (si_open _ 0 0 0); [exact Hst|].
    split; unfold acked, gave, at_off; cbn; rewrite ?H4, ?H5, ?H6, ?drop_nil; cbn; try done; try lia.
    rewrite Hx. f_equal. lia.
  - destruct (take_ack_open now c t u n m Ho Hs) as (u' & n' & Ho'). apply (si_open _ u' n' m); [by rewrite Hstate|done].
Qed.

(** ** Frames *)

(** Data is the backend's stream where the sequence number says it is; our FIN
    follows all of it. *)
Record frame_ok (G : list Z) (girs : Z) (c : Conn) (f : Frame) : Prop := {
  fo_data : f_data f <> [] -> exists a, 0 <= a /\ a + Z.of_nat (length (f_data f)) <= gave c /\ seq (f_hdr f) = at_off c a /\
    f_data f = take (length (f_data f)) (drop (Z.to_nat a) (given (backend c)));
  fo_fin : has_flag (flags (f_hdr f)) FIN = true -> f_data f = [] /\ fin_sent c = true /\ seq (f_hdr f) = at_off c (gave c);
  fo_ack : has_flag (flags (f_hdr f)) ACK = true ->
    exists k, 0 <= k <= rcvd c + bool_to_Z (guest_fin c) /\ ack (f_hdr f) = u32 (girs + 1 + k);
}.

(** The stream from the guest only grows. *)
Definition recv_grows (c c' : Conn) : Prop :=
  rcvd c <= rcvd c' /\ (guest_fin c = true -> guest_fin c' = true).

Lemma frame_grows G girs c c' f : grows c c' -> recv_grows c c' -> frame_ok G girs c f -> frame_ok G girs c' f.
Proof.
  intros [Hiss (d & Hg & Hf)] [Hr Hrf] [H1 H2 H3]. unfold at_off, gave in *. split; unfold at_off, gave.
  - intros Hd. destruct (H1 Hd) as (a & Ha & Hl & Hs & He). exists a. rewrite Hiss, Hg, length_app. split_and!; try done; [lia|].
    rewrite drop_app_le by lia. rewrite take_app_le by (rewrite length_drop; lia). done.
  - intros Hfin. destruct (H2 Hfin) as (He & Hs & Hq). destruct (Hf Hs) as [-> Hs']. rewrite Hg, app_nil_r, Hiss. done.
  - intros Ha. destruct (H3 Ha) as (k & Hk & Hq). exists k. split; [|done].
    destruct (guest_fin c) eqn:E; [rewrite (Hrf eq_refl); cbn [bool_to_Z] in *; lia|].
    cbn [bool_to_Z] in *. destruct (guest_fin c'); cbn [bool_to_Z]; lia.
Qed.

(** A segment without data or FIN. *)
Lemma plain_ok G girs c sq fl : recv_inv G girs c -> has_flag fl FIN = false -> frame_ok G girs c (seg gw_mac c sq fl []).
Proof.
  intros Hi Hf. split; cbn; [done|by rewrite Hf|]. intros ->. exists (rcvd c + bool_to_Z (guest_fin c)).
  pose proof (rcvd_le _ _ _ Hi). destruct Hi as [_ Hn _ _]. split; [destruct (guest_fin c); cbn [bool_to_Z]; lia|done].
Qed.

Lemma same_recv_grows c c' : same_recv c c' -> recv_grows c c'.
Proof. intros [Hh _ Hf _]. unfold recv_grows, rcvd. rewrite Hh, Hf. split; [lia|done]. Qed.

Lemma recv_grows_trans c c' c'' : recv_grows c c' -> recv_grows c' c'' -> recv_grows c c''.
Proof. intros [? ?] [? ?]. split; [lia|tauto]. Qed.

(** ** Steps *)

Definition conn_inv (G : list Z) (girs : Z) (c : Conn) : Prop :=
  recv_inv G girs c /\ send_inv c /\ u32 (iss c) = iss c.

Definition step_ok (G : list Z) (girs : Z) (c c' : Conn) (o : list Frame) : Prop :=
  conn_inv G girs c' /\ grows c c' /\ recv_grows c c' /\ Forall (frame_ok G girs c') o.

Lemma step_trans G girs c c1 c' o : grows c c1 -> recv_grows c c1 -> step_ok G girs c1 c' o -> step_ok G girs c c' o.
Proof.
  intros H1 H2 (Hi & Hg & Hr & Ho). split; [done|]. split; [by apply (grows_trans _ c1)|]. split; [by apply (recv_grows_trans _ c1)|done].
Qed.

(** Steps that touch neither stream. *)
Lemma step_same G girs c c' o : conn_inv G girs c -> same_send c c' -> same_recv c c' -> Forall (frame_ok G girs c') o ->
  step_ok G girs c c' o.
Proof.
  intros (Hr & Hs & Hi) Hss Hsr Ho. unfold step_ok, conn_inv. split_and!; [by apply (recv_same _ _ c)|by apply (send_same c)|by rewrite (ss_iss _ _ Hss)| | |done].
  - by apply same_grows.
  - by apply same_recv_grows.
Qed.

(** An open connection that is closed stays what it is. *)
Lemma closed_send c c' : send_inv c -> state c' = Closed -> same_send (c <| state := Closed |>) c' -> send_inv c'.
Proof.
  intros Hi Hst Hss. apply (send_same (c <| state := Closed |>)); [done|]. clear Hss.
  destruct Hi as [? ? ? ? ? ? ?|? ? ? ? ? ? ?|u n m ? []].
  - apply si_idle; cbn; auto.
  - apply si_syn; cbn; auto.
  - apply (si_open _ u n m); [by right|]. by split.
Qed.

Lemma close_step G girs now c o : conn_inv G girs c -> Forall (frame_ok G girs c) o -> step_ok G girs c (close_if_done now c) o.
Proof.
  intros (Hr & Hs & Hi) Ho. unfold step_ok, conn_inv, close_if_done. case_match.
  - set (c' := c <| state := Closed |> <| closed_at := Some now |>).
    assert (Hg : grows c c') by (split; [done|]; exists []; rewrite app_nil_r; done).
    assert (Hrg : recv_grows c c') by (apply same_recv_grows; by split).
    split_and!; [apply (recv_same _ _ c); [by split|done]|apply (closed_send c); [done|done|by split]|done|done|done|].
    eapply Forall_impl; [exact Ho|]. intros f. by apply frame_grows.
  - split_and!; try done. by apply same_grows.
Qed.

Lemma take_ack_recv now c t : same_recv c (take_ack now c t) /\ grows c (take_ack now c t) /\ iss (take_ack now c t) = iss c.
Proof.
  unfold take_ack. split_and!; repeat case_match; try (by split); try done;
    (split; [done|]; exists []; rewrite app_nil_r; done).
Qed.

Lemma take_data_send c t : same_send c (take_data c t).
Proof. unfold take_data. case_match; by split. Qed.

Lemma take_fin_send c t : same_send c (take_fin c t).
Proof. unfold take_fin. case_match; by split. Qed.

(** The data and the FIN of a segment. *)
Lemma take_stream_recv G girs c t : recv_inv G girs c -> faithful G girs c t ->
  let c1 := match s_payload t with [] => c | _ => take_data c t end in
  let c2 := if has_flag (s_flags t) FIN then take_fin c1 t else c1 in
  recv_inv G girs c2 /\ same_send c c2 /\ recv_grows c c2.
Proof.
  intros Hi Hf c1 c2. pose proof Hf as (a & Ha0 & Hal & Hseq & _ & Hnear & Hlen & Hfin).
  assert (Hc1 : recv_inv G girs c1 /\ same_send c c1 /\ rcvd c <= rcvd c1 <= rcvd c + Z.of_nat (length (s_payload t)) /\ guest_fin c1 = guest_fin c).
  { unfold c1. destruct (s_payload t) eqn:E; [split_and!; [done|apply same_send_refl|lia|lia|done]|]. rewrite <- E in *.
    split_and!; [by apply take_data_recv|apply take_data_send|apply take_data_rcvd|apply take_data_rcvd|].
    unfold take_data. by case_match. }
  destruct Hc1 as (Hi1 & Hs1 & Hr1 & Hg1). clearbody c1. unfold c2.
  destruct (has_flag (s_flags t) FIN) eqn:E; [|split_and!; [done|done|split; [lia|congruence]]].
  split_and!.
  - apply (take_fin_recv _ _ _ _ a); [done|done|by apply Hfin|lia|lia].
  - apply (same_send_trans _ c1); [done|apply take_fin_send].
  - unfold take_fin, recv_grows. case_match; unfold rcvd in *; cbn; (split; [lia|]); congruence || done.
Qed.

Lemma faithful_same G girs c c' t : rcvd c' = rcvd c -> faithful G girs c t -> faithful G girs c' t.
Proof. unfold faithful. by intros ->. Qed.

Lemma same_rcvd c c' : same_recv c c' -> rcvd c' = rcvd c.
Proof. intros [Hh _ _ _]. unfold rcvd. by rewrite Hh. Qed.

Lemma input_stream_step G girs now c t : conn_inv G girs c -> faithful G girs c t -> seg_ok t ->
  state c = Established \/ state c = Closed ->
  let '(c', o) := input_stream gw_mac now c t in step_ok G girs c c' o /\ (state c' = state c \/ state c' = Closed).
Proof.
  intros (Hr & Hs & Hi) Hf Ht Hst. unfold input_stream.
  destruct (take_ack_send now c t Hs Hi Ht Hst) as [Hs1 Hst1]. destruct (take_ack_recv now c t) as (Hsr1 & Hg1 & Hi1).
  set (c1 := take_ack now c t) in *. clearbody c1.
  apply (recv_same _ _ _ _ Hsr1) in Hr. apply (faithful_same _ _ _ c1 _ (same_rcvd _ _ Hsr1)) in Hf.
  destruct (take_stream_recv G girs c1 t Hr Hf) as (Hr2 & Hss2 & Hrg2).
  set (d := match s_payload t with [] => c1 | _ => take_data c1 t end) in *.
  set (c2 := if has_flag (s_flags t) FIN then take_fin d t else d) in *.
  assert (Hpair : exists k, match s_payload t with [] => (c1, false) | _ :: _ => (take_data c1 t, true) end = (d, k))
    by (unfold d; destruct (s_payload t); by eexists).
  destruct Hpair as [k ->].
  assert (Hpair2 : exists k', (if has_flag (s_flags t) FIN then (take_fin d t, true) else (d, k)) = (c2, k'))
    by (unfold c2; destruct (has_flag (s_flags t) FIN); by eexists).
  destruct Hpair2 as [k' ->]. clearbody c2. destruct (flush_same now c2) as [Hsr3 Hss3].
  set (c3 := flush_to_backend now c2) in *. clearbody c3.
  assert (Hss : same_send c1 c3) by (by apply (same_send_trans _ c2)).
  assert (Hrg : recv_grows c c3).
  { apply (recv_grows_trans _ c1); [by apply same_recv_grows|]. apply (recv_grows_trans _ c2); [done|]. by apply same_recv_grows. }
  assert (Hi3 : conn_inv G girs c3).
  { split; [by apply (recv_same _ _ c2)|]. split; [by apply (send_same c1)|]. rewrite (ss_iss _ _ Hss). congruence. }
  assert (Hg : grows c c3) by (apply (grows_trans _ c1); [done|by apply same_grows]).
  assert (Hst3 : state c3 = state c) by (rewrite (ss_state _ _ Hss); done).
  match goal with |- context [if k' then ?x else ?y] => set (r := if k' then x else y) end.
  assert (Hout : let '(c4, o) := r in step_ok G girs c3 c4 o /\ state c4 = state c3).
  { unfold r. destruct k'; (split; [|done]); apply step_same; try done; try (by split).
    constructor; [|constructor]. apply plain_ok; [|done]. apply (recv_same _ _ c3); [by split|apply Hi3]. }
  destruct r as [c4 o]. destruct Hout as [H4 Hst4]. split.
  - apply (step_trans _ _ _ c3); [done|done|]. destruct H4 as (Hi4 & Hg4 & Hrg4 & Ho4).
    apply (step_trans _ _ _ c4); [done|done|]. by apply close_step.
  - unfold close_if_done. case_match; [by right|left; congruence].
Qed.

(** [n] segments in, and the handshake around them. *)
Lemma input_step G girs now c t : conn_inv G girs c -> state c <> SynSent -> faithful G girs c t -> seg_ok t ->
  let '(c', o) := input gw_mac now c t in step_ok G girs c c' o /\ state c' <> SynSent.
Proof.
  intros Hc Hns Hf Ht. unfold input. set (c0 := c <| last_use := now |>).
  assert (H0 : step_ok G girs c c0 []) by (apply step_same; [done|by split|by split|constructor]).
  change (state c) with (state c0) in Hns. apply (faithful_same _ _ _ c0) in Hf; [|done]. clearbody c0.
  destruct H0 as (Hc0 & Hg0 & Hrg0 & _).
  assert (Hgo : forall r : Conn * list Frame, (let '(c', o) := r in step_ok G girs c0 c' o /\ state c' <> SynSent) ->
    let '(c', o) := r in step_ok G girs c c' o /\ state c' <> SynSent).
  { intros [c' o] [? ?]. split; [by apply (step_trans _ _ _ c0)|done]. }
  apply Hgo. clear Hgo. pose proof Hc0 as (Hr & Hs & Hi).
  destruct (has_flag (s_flags t) RST).
  { split; [|done]. set (c' := c0 <| state := Closed |> <| closed_at := Some now |>). unfold step_ok, conn_inv.
    split_and!; [apply (recv_same _ _ c0); [by split|done]|apply (closed_send c0); [done|done|by split]|done| | |constructor].
    - split; [done|]. exists []. by rewrite app_nil_r.
    - apply same_recv_grows. by split. }
  destruct (state c0) eqn:Est; try done.
  - split; [|congruence]. apply step_same; [done|by split|by split|constructor].
  - destruct (has_flag (s_flags t) SYN && negb (has_flag (s_flags t) ACK)).
    { split; [|congruence]. apply step_same; [done|by split|by split|]. constructor; [by apply plain_ok|constructor]. }
    destruct (has_flag (s_flags t) ACK && (s_ack t =? u32 (iss c0 + 1))) eqn:Ea.
    + set (c1 := c0 <| state := Established |> <| snd_una := s_ack t |> <| rto := RTO_INITIAL |> <| rto_deadline := None |> <| last_progress := now |>).
      apply andb_prop in Ea as [_ Ea%Z.eqb_eq].
      assert (Hs1 : send_inv c1).
      { destruct Hs as [[?|?]| [?|[?|?]] Hu Hn Hm Hb Hgv Hff|? ? ? [?|?]]; try congruence.
        apply (si_open _ 0 0 0); [by left|].
        split; unfold acked, gave, at_off in *; cbn; rewrite ?Hb, ?Hgv, ?Hff, ?drop_nil, ?Ea; cbn; try done; try lia.
        all: rewrite ?Hn, ?Hm; done || (f_equal; lia). }
      assert (Hc1 : conn_inv G girs c1) by (split; [apply (recv_same _ _ c0); [by split|done]|by split]).
      apply (faithful_same _ _ _ c1) in Hf; [|done].
      pose proof (input_stream_step G girs now c1 t Hc1 Hf Ht ltac:(by left)) as Hst.
      destruct (input_stream gw_mac now c1 t) as [c' o]. destruct Hst as [Hst Hst']. split; [|destruct Hst' as [->| ->]; done].
      apply (step_trans _ _ _ c1); [|apply same_recv_grows; by split|done].
      split; [done|]. exists []. by rewrite app_nil_r.
    + split; [|congruence]. apply step_same; [done|by split|by split|constructor].
  - destruct (has_flag (s_flags t) SYN).
    { split; [|congruence]. apply step_same; [done|by split|by split|]. constructor; [by apply plain_ok|constructor]. }
    pose proof (input_stream_step G girs now c0 t Hc0 Hf Ht ltac:(by left)) as Hst.
    destruct (input_stream gw_mac now c0 t) as [c' o]. destruct Hst as [Hst Hst']. split; [done|]. destruct Hst' as [->| ->]; congruence.
  - destruct (has_flag (s_flags t) SYN).
    { split; [|congruence]. apply step_same; [done|by split|by split|]. constructor; [by apply plain_ok|constructor]. }
    pose proof (input_stream_step G girs now c0 t Hc0 Hf Ht ltac:(by right)) as Hst.
    destruct (input_stream gw_mac now c0 t) as [c' o]. destruct Hst as [Hst Hst']. split; [done|]. destruct Hst' as [->| ->]; congruence.
Qed.

(** ** Sending *)

Lemma sent_to_eq c e m : snd_max c = at_off c m -> - 2 ^ 31 <= e - m < 2 ^ 31 ->
  sent_to c (at_off c e) = c <| snd_nxt := at_off c e |> <| snd_max := at_off c (Z.max m e) |>.
Proof.
  intros Hm He. unfold sent_to. cbn zeta. change (snd_max (c <| snd_nxt := at_off c e |>)) with (snd_max c). rewrite Hm.
  assert (Hg : seq_gt (at_off c e) (at_off c m) = (m <? e)) by (unfold at_off; by apply seq_gt_offsets). rewrite Hg.
  destruct (Z.ltb_spec m e).
  - by rewrite Z.max_r by lia.
  - rewrite Z.max_l by lia. rewrite <- Hm. by destruct c.
Qed.

(** The pointers moved within what may be sent. *)
Lemma open_move c u n m n' m' : open_at c u n m -> u <= n' <= m' -> m' <= gave c + bool_to_Z (fin_sent c) -> m <= m' ->
  open_at (c <| snd_nxt := at_off c n' |> <| snd_max := at_off c m' |>) u n' m'.
Proof.
  intros [H1 H2 H3 H4 H5 H6 H7 H8 H9] Hn Hm Hmm. unfold acked, gave, at_off in *.
  split; unfold acked, gave, at_off; cbn; try done; [lia|]. intros Hf. specialize (H9 Hf). rewrite Hf in Hm. cbn [bool_to_Z] in Hm. lia.
Qed.

Lemma open_sent_to c u n m e : open_at c u n m -> u <= e <= gave c + bool_to_Z (fin_sent c) ->
  open_at (sent_to c (at_off c e)) u e (Z.max m e).
Proof.
  intros Ho He. pose proof (open_span _ _ _ _ Ho) as Hsp. pose proof Ho as [_ _ Hm _ Hord Hu Hf Hl].
  assert (Hb : gave c + bool_to_Z (fin_sent c) - u <= 65536).
  { unfold acked in *. destruct (fin_sent c) eqn:E; cbn [bool_to_Z] in *.
    - destruct (Hf eq_refl) as [Hnil _]. rewrite Hnil in Hord. cbn in Hord. lia.
    - unfold SND_BUF in Hl. lia. }
  rewrite (sent_to_eq c e m) by (done || lia). apply (open_move c u n m); [done|lia|lia|lia].
Qed.

(** The timer may run whenever our FIN is not acknowledged. *)
Lemma open_timer c u n m d r : open_at c u n m -> u = acked c -> open_at (c <| rto := r |> <| rto_deadline := d |>) u n m.
Proof.
  intros [H1 H2 H3 H4 H5 H6 H7 H8] Hu. unfold acked, gave, at_off in *. split; unfold acked, gave, at_off; cbn; try done. by left.
Qed.

Lemma open_armed now c u n m : open_at c u n m -> u = acked c -> open_at (arm_rto now c) u n m.
Proof.
  intros Ho Hu. unfold arm_rto. destruct (rto_deadline c); [done|].
  apply (open_same (c <| rto := rto c |> <| rto_deadline := Some (now + rto c) |>)); [by split|by apply open_timer].
Qed.

Lemma open_unsent c u n m : open_at c u n m -> (Z.to_nat (in_flight c) < length (unacked c))%nat \/ fin_sent c = false ->
  u = acked c /\ in_flight c = n - u /\ (fin_sent c = true -> False).
Proof.
  intros Ho Hor. pose proof (open_span _ _ _ _ Ho) as Hsp. destruct Ho as [H1 H2 H3 H4 H5 H6 H7 H8].
  assert (Hfin : fin_sent c = true -> False).
  { intros Hf. destruct (H7 Hf) as [Hn _]. rewrite Hn in Hor. destruct Hor as [Hlt|]; [cbn in Hlt; lia|congruence]. }
  split; [destruct H6 as [?|(_ & Hf & _)]; [done|by apply Hfin in Hf]|]. split; [|done].
  unfold in_flight. rewrite H1, H2. unfold at_off. apply u32_diff. lia.
Qed.

(** Bytes read from the backend join the buffer. *)
Lemma open_read c c' d u n m : open_at c u n m -> fin_sent c = false -> fin_sent c' = false -> iss c' = iss c ->
  snd_una c' = snd_una c -> snd_nxt c' = snd_nxt c -> snd_max c' = snd_max c -> given (backend c') = given (backend c) ++ d ->
  unacked c' = unacked c ++ d -> (length (unacked c') <= SND_BUF)%nat -> open_at c' u n m.
Proof.
  intros [H1 H2 H3 H4 H5 H6 H7 H8] Hf Hf' Hi Ha Hn Hm Hg Hu Hl. unfold acked, gave, at_off in *.
  assert (He : Z.of_nat (length (given (backend c'))) - Z.of_nat (length (unacked c')) =
    Z.of_nat (length (given (backend c))) - Z.of_nat (length (unacked c))) by (rewrite Hg, Hu, !length_app; lia).
  split; unfold acked, gave, at_off; rewrite ?Hi, ?He; try congruence; try done.
  - rewrite Hu, H4, Hg at 1. by rewrite drop_app_le by lia.
  - rewrite Hg, length_app, Hf'. rewrite Hf in H5. cbn [bool_to_Z] in *. lia.
  - left. destruct H6 as [?|(_ & ? & _)]; congruence.
Qed.

(** ** Steps of an open connection that send *)

Record sends (G : list Z) (girs : Z) (c c' : Conn) (o : list Frame) : Prop := {
  sn_open : exists u n m, open_at c' u n m;
  sn_state : state c' = state c;
  sn_recv : same_recv c c';
  sn_grows : grows c c';
  sn_frames : Forall (frame_ok G girs c') o;
}.

Lemma sends_trans G girs c c1 c2 o1 o2 : sends G girs c c1 o1 -> sends G girs c1 c2 o2 -> sends G girs c c2 (o1 ++ o2).
Proof.
  intros [_ Hs1 Hr1 Hg1 Hf1] [Ho Hs2 Hr2 Hg2 Hf2]. split; [done|congruence|by apply (same_recv_trans _ c1)|by apply (grows_trans _ c1)|].
  apply Forall_app. split; [|done]. eapply Forall_impl; [exact Hf1|]. intros f. apply frame_grows; [done|by apply same_recv_grows].
Qed.

Lemma sends_refl G girs c u n m : open_at c u n m -> sends G girs c c [].
Proof. intros Ho. split; [by exists u, n, m|done|apply same_recv_refl|by apply same_grows|constructor]. Qed.

(** Data at its place in the backend's stream. *)
Lemma data_ok G girs c c0 a k fl : recv_inv G girs c0 -> same_recv c0 c -> has_flag fl FIN = false -> iss c = iss c0 ->
  0 <= a -> a + Z.of_nat k <= gave c ->
  frame_ok G girs c (seg gw_mac c0 (at_off c a) fl (take k (drop (Z.to_nat a) (given (backend c))))).
Proof.
  intros Hi Hr Hf Hs Ha Hk. unfold gave in *.
  assert (Hl : length (take k (drop (Z.to_nat a) (given (backend c)))) = k) by (rewrite length_take, length_drop; lia).
  split; cbn [seg f_data f_hdr flags seq ack].
  - intros _. exists a. rewrite Hl. unfold gave. done.
  - by rewrite Hf.
  - intros ->. exists (rcvd c + bool_to_Z (guest_fin c)). pose proof (recv_same _ _ _ _ Hr Hi) as Hi'.
    pose proof (rcvd_le _ _ _ Hi'). destruct Hi' as [_ Hn _ _]. split; [destruct (guest_fin c); cbn [bool_to_Z]; lia|].
    by rewrite <- (sr_nxt _ _ Hr).
Qed.

(** Our FIN, after everything the backend gave. *)
Lemma fin_ok G girs c c0 : recv_inv G girs c0 -> same_recv c0 c -> fin_sent c = true ->
  frame_ok G girs c (seg gw_mac c0 (at_off c (gave c)) FIN_ACK []).
Proof.
  intros Hi Hr Hf. split; cbn; [done|done|]. intros _. exists (rcvd c + bool_to_Z (guest_fin c)).
  pose proof (recv_same _ _ _ _ Hr Hi) as Hi'. pose proof (rcvd_le _ _ _ Hi'). destruct Hi' as [_ Hn _ _].
  split; [destruct (guest_fin c); cbn [bool_to_Z]; lia|]. by rewrite <- (sr_nxt _ _ Hr).
Qed.

Lemma at_off_add c a k : u32 (at_off c a + k) = at_off c (a + k).
Proof. unfold at_off. rewrite u32_add_l. f_equal. lia. Qed.

Lemma sent_to_keeps c e : same_recv c (sent_to c e) /\ grows c (sent_to c e) /\ state (sent_to c e) = state c /\
  fin_sent (sent_to c e) = fin_sent c /\ backend (sent_to c e) = backend c /\ unacked (sent_to c e) = unacked c /\
  iss (sent_to c e) = iss c /\ rto_deadline (sent_to c e) = rto_deadline c.
Proof.
  unfold sent_to. case_match; split_and!; try done; try (by split); (split; [done|]); exists []; by rewrite app_nil_r.
Qed.

(** A segment of [k] bytes from the buffer, from [p] on. *)
Lemma send_chunk G girs c u n m p k fl : open_at c u n m -> recv_inv G girs c -> u = acked c -> fin_sent c = false ->
  has_flag fl FIN = false -> u <= p -> p + Z.of_nat k <= gave c ->
  sends G girs c (sent_to c (at_off c (p + Z.of_nat k))) [seg gw_mac c (at_off c p) fl (take k (drop (Z.to_nat (p - u)) (unacked c)))].
Proof.
  intros Ho Hi Hu Hf Hfl Hp Hk. pose proof Ho as [_ _ _ Hb Hord _ _ _].
  pose proof (open_sent_to c u n m (p + Z.of_nat k) Ho) as Ho1.
  destruct (sent_to_keeps c (at_off c (p + Z.of_nat k))) as (Hr & Hg & Hst & Hfs & Hbk & Hua & His & _).
  set (c1 := sent_to c _) in *. clearbody c1. split; [|done|done|done|].
  - exists u, (p + Z.of_nat k), (Z.max m (p + Z.of_nat k)). apply Ho1. rewrite Hf. cbn [bool_to_Z]. lia.
  - constructor; [|constructor]. rewrite Hb, drop_drop. replace (Z.to_nat (acked c) + Z.to_nat (p - u))%nat with (Z.to_nat p) by lia.
    rewrite <- Hbk. replace (at_off c p) with (at_off c1 p) by (unfold at_off; by rewrite His).
    apply data_ok; try done; [lia|]. unfold gave. by rewrite Hbk.
Qed.

(** A timer that changes while our FIN is not acknowledged. *)
Lemma sends_timer G girs c c' o d r : sends G girs c c' o -> fin_sent c' = false \/ rto_deadline c' <> None ->
  sends G girs c (c' <| rto := r |> <| rto_deadline := d |>) o.
Proof.
  intros [(u & n & m & Ho) Hs Hr Hg Hf] Hfin. set (c1 := c' <| rto := r |> <| rto_deadline := d |>).
  assert (Hsr : same_recv c' c1) by by split.
  assert (Hgr : grows c' c1) by (split; [done|]; exists []; by rewrite app_nil_r).
  split; [exists u, n, m; apply open_timer; [done|]|done|by apply (same_recv_trans _ c')|by apply (grows_trans _ c')|].
  - destruct (oa_u _ _ _ _ Ho) as [?|(_ & ? & ?)]; [done|destruct Hfin; congruence].
  - eapply Forall_impl; [exact Hf|]. intros f. apply frame_grows; [done|by apply same_recv_grows].
Qed.

Lemma arm_is_timer now (c : Conn) : arm_rto now c = c <| rto := rto c |> <| rto_deadline := Some (default (now + rto c) (rto_deadline c)) |>.
Proof. unfold arm_rto. destruct c as [? ? ? ? ? ? ? ? ? ? ? [d|] ? ? ? ? ? ? ? ? ? ? ? ?]; reflexivity. Qed.

(** One read: what the backend answered. *)
Lemma read_sends G girs c u n m k b r c' d : open_at c u n m -> fin_sent c = false ->
  bread (backend c) k = (b, r) -> (k <= SND_BUF - length (unacked c))%nat ->
  d = match r with IoOk d => d | _ => [] end -> backend c' = b -> unacked c' = unacked c ++ d ->
  same_recv (c <| backend := b |>) c' -> iss c' = iss c -> snd_una c' = snd_una c -> snd_nxt c' = snd_nxt c ->
  snd_max c' = snd_max c -> fin_sent c' = false -> state c' = state c ->
  open_at c' u n m /\ sends G girs c c' [].
Proof.
  intros Ho Hf Hrd Hk Hd Hb Hu Hr Hi Ha Hn Hm Hf' Hs. cbn [bread logged_backend] in Hrd.
  destruct (bread (raw (backend c)) k) as [b0 r0] eqn:E. injection Hrd as <- <-.
  assert (Hl : (length d <= k)%nat).
  { rewrite Hd. destruct r0; [by apply bread_bound in E| | |]; cbn; lia. }
  assert (Hgv : given (backend c') = given (backend c) ++ d) by (rewrite Hb; cbn; by rewrite Hd).
  pose proof (oa_len _ _ _ _ Ho) as Hlen.
  assert (Ho' : open_at c' u n m).
  { apply (open_read c c' d); try done. rewrite Hu, length_app. lia. }
  split; [done|]. split; [by exists u, n, m|done| | |constructor].
  - destruct Hr as [Hr1 Hr2 Hr3 Hr4]. by split.
  - split; [done|]. exists d. split; [done|congruence].
Qed.

(** Turns the loop that fills the window may still take. *)
Definition turns (budget : nat) (c : Conn) (o : list Frame) : nat :=
  (2 * (budget - length o) + if (Z.to_nat (in_flight c) <? length (unacked c))%nat then 0 else 1)%nat.

Lemma fill_sends G girs now budget fuel : forall c o u n m, open_at c u n m -> recv_inv G girs c ->
  (turns budget c o < fuel)%nat ->
  exists c' o', fill gw_mac fuel now budget c o = Some (c', o ++ o') /\ sends G girs c c' o'.
Proof.
  induction fuel as [|fuel IH]; intros c o u n m Ho Hi Hfuel; [lia|]. cbn [fill].
  assert (Hstop : exists c' o', Some (c, o) = Some (c', o ++ o') /\ sends G girs c c' o').
  { exists c, []. rewrite app_nil_r. split; [done|by apply (sends_refl _ _ _ u n m)]. }
  destruct (Nat.leb_spec budget (length o)) as [Hbud|Hbud]; [done|].
  destruct (Z.to_nat (peer_win c) - Z.to_nat (in_flight c) =? 0)%nat; [done|].
  unfold turns in Hfuel. destruct (Nat.ltb_spec (Z.to_nat (in_flight c)) (length (unacked c))) as [Hlt|Hge].
  - destruct (open_unsent c u n m Ho (or_introl Hlt)) as (Hu & Hfl & Hfin).
    assert (Hf : fin_sent c = false) by (destruct (fin_sent c); [by destruct Hfin|done]).
    set (k := Nat.min _ _). assert (Hk : (k <= length (unacked c) - Z.to_nat (in_flight c))%nat) by (unfold k; lia). clearbody k.
    pose proof (oa_nxt _ _ _ _ Ho) as Hnx. rewrite Hnx, u32_add_r, at_off_add, Hfl in *.
    pose proof (oa_ord _ _ _ _ Ho) as Hord. assert (Hgv : n + Z.of_nat k <= gave c) by (unfold acked in *; lia).
    pose proof (send_chunk G girs c u n m n k PSH_ACK Ho Hi Hu Hf eq_refl ltac:(lia) Hgv) as Hs.
    destruct (sent_to_keeps c (at_off c (n + Z.of_nat k))) as (_ & _ & _ & Hf1 & _).
    apply (sends_timer _ _ _ _ _ (Some (default (now + rto (sent_to c (at_off c (n + Z.of_nat k)))) (rto_deadline (sent_to c (at_off c (n + Z.of_nat k))))))
      (rto (sent_to c (at_off c (n + Z.of_nat k))))) in Hs; [|left; congruence]. rewrite <- arm_is_timer in Hs.
    set (c1 := arm_rto now _) in *. set (f := seg _ _ _ _ _) in *. clearbody c1 f.
    pose proof Hs as [(u1 & n1 & m1 & Ho1) _ Hr1 _ _].
    destruct (IH c1 (o ++ [f]) u1 n1 m1 Ho1 (recv_same _ _ _ _ Hr1 Hi)) as (c' & o' & -> & Hs').
    { unfold turns. rewrite length_app. cbn [length]. case_match; lia. }
    exists c', (f :: o'). rewrite <- app_assoc. split; [done|]. by apply (sends_trans _ _ _ c1 _ [f]).
  - destruct (backend_eof c || fin_sent c || (SND_BUF <=? length (unacked c))%nat) eqn:Eb; [done|].
    apply orb_false_iff in Eb as [Eb _]. apply orb_false_iff in Eb as [_ Hf].
    set (k := Nat.min _ _). assert (Hk : (k <= SND_BUF - length (unacked c))%nat) by (unfold k; lia). clearbody k.
    destruct (bread (backend c) k) as [b r] eqn:Er.
    assert (Hend : forall c', backend c' = b -> unacked c' = unacked c ++ [] -> r = IoOk [] \/ (forall d, r <> IoOk d) ->
      same_recv (c <| backend := b |>) c' -> iss c' = iss c -> snd_una c' = snd_una c -> snd_nxt c' = snd_nxt c ->
      snd_max c' = snd_max c -> fin_sent c' = false -> state c' = state c ->
      exists c'' o', Some (c', o) = Some (c'', o ++ o') /\ sends G girs c c'' o').
    { intros c' Hb Hua Hr. intros. exists c', []. rewrite app_nil_r. split; [done|].
      apply (read_sends G girs c u n m k b r c' []); try done. destruct r; try done. destruct Hr as [[= ->]|Hr]; [done|by destruct (Hr a)]. }
    destruct r as [[|x d]| | |]; try (apply Hend; cbn; rewrite ?app_nil_r; try done; (by left) || (by right) || (by split)).
    set (c1 := _ <| last_use := now |>).
    destruct (read_sends G girs c u n m k b _ c1 (x :: d) Ho Hf Er Hk) as [Ho1 Hs1]; try done.
    pose proof Hs1 as [_ _ Hr1 _ _].
    destruct (IH c1 o u n m Ho1 (recv_same _ _ _ _ Hr1 Hi)) as (c' & o' & -> & Hs').
    { unfold turns. assert (Hin : in_flight c1 = in_flight c) by done. rewrite Hin.
      assert (Hl : length (unacked c1) = (length (unacked c) + S (length d))%nat) by (cbn; by rewrite length_app).
      destruct (open_unsent c u n m Ho (or_intror Hf)) as (Hu & Hfl & _). pose proof (oa_ord _ _ _ _ Ho) as Hord.
      rewrite Hf in Hord. cbn [bool_to_Z] in Hord. unfold acked in *.
      case_match eqn:E; [lia|]. apply Nat.ltb_ge in E. lia. }
    exists c', o'. split; [done|]. by apply (sends_trans _ _ _ c1 _ []).
Qed.

Lemma sends_backoff G girs now c c' o : sends G girs c c' o -> fin_sent c' = false \/ rto_deadline c' <> None ->
  sends G girs c (backoff now c') o.
Proof. apply sends_timer. Qed.

(** Going back to the first byte not acknowledged. *)
Lemma open_rewind c u n m : open_at c u n m -> open_at (c <| snd_nxt := snd_una c |>) u u m.
Proof.
  intros Ho. pose proof (oa_ord _ _ _ _ Ho) as Hord. rewrite (oa_una _ _ _ _ Ho).
  replace (c <| snd_nxt := at_off c u |>) with (c <| snd_nxt := at_off c u |> <| snd_max := at_off c m |>).
  - apply (open_move c u n m); [done|lia|lia|lia].
  - rewrite <- (oa_max _ _ _ _ Ho). by destruct c.
Qed.

Lemma sends_rewind G girs c u n m : open_at c u n m -> sends G girs c (c <| snd_nxt := snd_una c |>) [].
Proof.
  intros Ho. split; [exists u, u, m; by apply (open_rewind _ _ n)|done|by split| |constructor].
  split; [done|]. exists []. by rewrite app_nil_r.
Qed.

(** Our FIN goes out, or goes out again. *)
Lemma send_fin G girs c u n m : open_at c u n m -> recv_inv G girs c -> u = acked c -> unacked c = [] -> fin_sent c = true ->
  n = u -> sends G girs c (sent_to c (at_off c (n + 1))) [seg gw_mac c (at_off c n) FIN_ACK []].
Proof.
  intros Ho Hi Hu Hb Hf ->. pose proof (open_sent_to c u u m (u + 1) Ho) as Ho1.
  assert (Hug : u = gave c) by (unfold acked in Hu; rewrite Hb in Hu; cbn [length] in Hu; lia).
  destruct (sent_to_keeps c (at_off c (u + 1))) as (Hr & Hg & Hst & Hfs & Hbk & Hua & His & _).
  set (c1 := sent_to c _) in *. clearbody c1. split; [|done|done|done|].
  - exists u, (u + 1), (Z.max m (u + 1)). apply Ho1. rewrite Hf. cbn [bool_to_Z]. lia.
  - constructor; [|constructor]. replace (at_off c u) with (at_off c1 (gave c1)).
    + apply fin_ok; [done|done|congruence].
    + rewrite Hug. unfold at_off, gave. by rewrite His, Hbk.
Qed.

Lemma retransmit_sends G girs now c u n m : open_at c u n m -> recv_inv G girs c -> rto_deadline c <> None ->
  let '(c', o) := retransmit gw_mac now c in sends G girs c c' o.
Proof.
  intros Ho Hi Hd. assert (Hu : u = acked c) by (destruct (oa_u _ _ _ _ Ho) as [?|(_ & _ & ?)]; congruence).
  pose proof (oa_una _ _ _ _ Ho) as Hun. pose proof (oa_ord _ _ _ _ Ho) as Hord. unfold retransmit.
  destruct (unacked c) as [|byte l] eqn:Eb.
  - set (c1 := c <| snd_nxt := snd_una c |>). pose proof (sends_rewind G girs c u n m Ho) as H1. fold c1 in H1.
    destruct (fin_sent c1) eqn:Ef; [|apply sends_backoff; [done|by left]].
    change (snd_una c) with (snd_una c1). change (snd_una c) with (snd_una c1) in Hun.
    pose proof (open_rewind c u n m Ho) as Ho1. fold c1 in Ho1.
    assert (Hun1 : snd_una c1 = at_off c1 u) by done. rewrite Hun1, at_off_add.
    apply sends_backoff.
    + apply (sends_trans _ _ _ c1 _ [] _ H1). apply (send_fin _ _ _ u u m); try done. apply (recv_same _ _ c); [by split|done].
    + right. destruct (sent_to_keeps c1 (at_off c1 (u + 1))) as (_ & _ & _ & _ & _ & _ & _ & ->). done.
  - assert (Hf : fin_sent c = false).
    { destruct (fin_sent c) eqn:E; [|done]. destruct (oa_fin _ _ _ _ Ho E). congruence. }
    destruct ((peer_win c =? 0) && negb (fin_sent c)); [|apply sends_backoff; [by apply (sends_rewind _ _ _ u n m)|by left]].
    pose proof (send_chunk G girs c u n m u 1 ACK Ho Hi Hu Hf eq_refl ltac:(lia)) as Hs.
    rewrite Z.sub_diag, Eb in Hs. rewrite Hun, at_off_add. apply sends_backoff.
    + apply Hs. unfold acked in Hu. rewrite Eb in Hu. cbn [length] in Hu. lia.
    + left. destruct (sent_to_keeps c (at_off c (u + 1))) as (_ & _ & _ & -> & _). done.
Qed.

(** ** Polling *)

Lemma step_then G girs c c1 c' o1 o2 : step_ok G girs c c1 o1 -> step_ok G girs c1 c' o2 -> step_ok G girs c c' (o1 ++ o2).
Proof.
  intros (_ & Hg1 & Hr1 & Ho1) (Hi & Hg2 & Hr2 & Ho2). unfold step_ok.
  split_and!; [done|by apply (grows_trans _ c1)|by apply (recv_grows_trans _ c1)|]. apply Forall_app. split; [|done].
  eapply Forall_impl; [exact Ho1|]. intros f. by apply frame_grows.
Qed.

Lemma sends_step G girs c c' o : conn_inv G girs c -> state c = Established -> sends G girs c c' o ->
  step_ok G girs c c' o /\ state c' = Established.
Proof.
  intros (Hr & _ & Hi) Hst [(u & n & m & Ho) Hs Hsr Hg Hf]. split; [|congruence]. unfold step_ok, conn_inv.
  split_and!; try done; [by apply (recv_same _ _ c)|apply (si_open _ u n m); [left; congruence|done]|destruct Hg; congruence|by apply same_recv_grows].
Qed.

Lemma abort_step G girs now c : conn_inv G girs c ->
  let '(c', o) := abort gw_mac now c in step_ok G girs c c' o /\ state c' <> SynSent.
Proof.
  intros (Hr & Hs & Hi). unfold abort. set (c' := c <| state := Closed |> <| closed_at := Some now |> <| reset := false |>).
  assert (Hr' : recv_inv G girs c') by (apply (recv_same _ _ c); [by split|done]).
  split; [|done]. unfold step_ok, conn_inv. split_and!; [done|apply (closed_send c); [done|done|by split]|done| | |].
  - split; [done|]. exists []. by rewrite app_nil_r.
  - apply same_recv_grows. by split.
  - constructor; [by apply plain_ok|constructor].
Qed.

Lemma established_open c : send_inv c -> state c = Established -> exists u n m, open_at c u n m.
Proof. intros [[?|?]|[?|[?|?]]|u n m _ Ho] Hst; try congruence. by exists u, n, m. Qed.

(** Our FIN is due: all the backend gave is acknowledged. *)
Lemma open_fin now c u n m : open_at c u n m -> backend_eof c = true -> fin_sent c = false -> unacked c = [] ->
  n = u /\ u = acked c /\ m = n /\ open_at (arm_rto now (c <| fin_sent := true |> <| snd_max := at_off c (n + 1) |>)) u n (n + 1).
Proof.
  intros Ho Ee Ef Eb. pose proof (oa_ord _ _ _ _ Ho) as Hord.
  assert (Hu : u = acked c) by (destruct (oa_u _ _ _ _ Ho) as [?|(_ & ? & _)]; congruence).
  assert (Hn : n = u) by (rewrite Ef in Hord; unfold acked in *; rewrite Eb in *; cbn [length bool_to_Z] in *; lia).
  assert (Hm : m = n) by (rewrite Ef in Hord; unfold acked in *; rewrite Eb in *; cbn [length bool_to_Z] in *; lia).
  split_and!; [done|done|done|]. apply open_armed; [|done].
  destruct Ho as [H1 H2 H3 H4 H5 H6 H7 H8]. unfold acked, gave, at_off in *. rewrite Ef in H5. cbn [bool_to_Z] in H5.
  split; unfold acked, gave, at_off; cbn; try done; [lia|by left|]. rewrite Eb in *. cbn [length] in *. lia.
Qed.

Lemma arm_sent_fin now (c : Conn) e : seq_gt e (snd_max c) = true ->
  arm_rto now ((sent_to c e) <| fin_sent := true |>) = sent_to (arm_rto now (c <| fin_sent := true |> <| snd_max := e |>)) e.
Proof. intros He. rewrite !arm_is_timer. unfold sent_to. cbn. rewrite He. by destruct (seq_gt e e). Qed.

(** The FIN that follows the backend's end of file. *)
Lemma fin_step G girs now c budget o : conn_inv G girs c -> state c = Established ->
  let '(c', o') := if backend_eof c && negb (fin_sent c) && (length (unacked c) =? 0)%nat && (length o <? budget)%nat
    then (arm_rto now ((sent_to c (u32 (snd_nxt c + 1))) <| fin_sent := true |>), o ++ [seg gw_mac c (snd_nxt c) FIN_ACK []])
    else (c, o) in
  exists o2, o' = o ++ o2 /\ step_ok G girs c c' o2 /\ state c' = Established.
Proof.
  intros Hc Hst. pose proof Hc as (Hr & Hs & Hi). destruct (established_open c Hs Hst) as (u & n & m & Ho).
  match goal with |- context [if ?b then _ else _] => destruct b eqn:E end.
  2: { exists []. rewrite app_nil_r. split; [done|]. split; [|done]. apply step_same; [done|apply same_send_refl|apply same_recv_refl|constructor]. }
  apply andb_prop in E as [E _]. apply andb_prop in E as [E Eb%Nat.eqb_eq%nil_length_inv]. apply andb_prop in E as [Ee Ef%negb_true_iff].
  destruct (open_fin now c u n m Ho Ee Ef Eb) as (Hn & Hu & Hm & Hof).
  exists [seg gw_mac c (snd_nxt c) FIN_ACK []]. split; [done|]. rewrite (oa_nxt _ _ _ _ Ho), at_off_add.
  rewrite arm_sent_fin by (rewrite (oa_max _ _ _ _ Ho), Hm; unfold at_off; rewrite seq_gt_offsets by lia; apply Z.ltb_lt; lia).
  set (cf := arm_rto now (c <| fin_sent := true |> <| snd_max := at_off c (n + 1) |>)) in *.
  assert (Hcf : iss cf = iss c /\ backend cf = backend c /\ unacked cf = unacked c /\ fin_sent cf = true /\ state cf = state c /\ same_recv c cf /\
    seg gw_mac c (at_off c n) FIN_ACK [] = seg gw_mac cf (at_off cf n) FIN_ACK [] /\ at_off c (n + 1) = at_off cf (n + 1)).
  { unfold cf. rewrite arm_is_timer. by split_and!. }
  clearbody cf. destruct Hcf as (His & Hbk & Hua & Hff & Hsf & Hrf & -> & ->).
  assert (Hrc : recv_inv G girs cf) by (by apply (recv_same _ _ c)).
  assert (Hcf : conn_inv G girs cf) by (split; [done|split; [apply (si_open _ u n (n + 1)); [left; congruence|done]|congruence]]).
  pose proof (send_fin G girs cf u n (n + 1) Hof Hrc ltac:(unfold acked, gave in *; congruence) ltac:(congruence) Hff Hn) as Hsn.
  apply (sends_step _ _ cf) in Hsn; [|done|congruence]. destruct Hsn as [Hsn Hst']. split; [|done].
  apply (step_trans _ _ _ cf); [|by apply same_recv_grows|done].
  split; [done|]. exists []. rewrite app_nil_r. split; congruence.
Qed.

(** How a poll of an open connection ends. *)
Inductive poll_end (now : Z) (c : Conn) (o : list Frame) : Prop :=
| pe_abort c1 : (c, o) = abort gw_mac now c1 -> poll_end now c o
| pe_close c1 : state c1 = Established -> c = close_if_done now c1 -> poll_end now c o.

Lemma poll_end_state now c o : poll_end now c o -> state c <> SynSent.
Proof.
  intros [c1 He|c1 Hst ->]; [injection He as -> _; done|]. unfold close_if_done. case_match; [done|congruence].
Qed.

(** Giving up after a step. *)
Lemma abort_after G girs now c c1 o1 : step_ok G girs c c1 o1 ->
  exists c' o, Some (abort gw_mac now c1) = Some (c', o) /\ step_ok G girs c c' o /\ poll_end now c' o.
Proof.
  intros (Hc1 & Hg & Hr & _). pose proof (abort_step G girs now c1 Hc1) as Ha. destruct (abort gw_mac now c1) as [c' o] eqn:E.
  destruct Ha as [Ha ?]. exists c', o. split; [done|]. split; [by apply (step_trans _ _ _ c1)|by apply (pe_abort _ _ _ c1)].
Qed.

(** The window is offered again. *)
Lemma update_step G girs (upd : bool) c : conn_inv G girs c ->
  let '(c', o) := if upd then let c := c <| adv_win := rcv_win c |> in (c, [seg gw_mac c (snd_nxt c) ACK []]) else (c, []) in
  step_ok G girs c c' o /\ state c' = state c.
Proof.
  intros Hc. destruct upd; (split; [|done]); (apply step_same; [done|by split|by split|]); constructor; [|constructor].
  apply plain_ok; [|done]. apply (recv_same _ _ c); [by split|apply Hc].
Qed.

(** The retransmission timer ran out, or did not. *)
Lemma timeout_step G girs now c : conn_inv G girs c -> state c = Established ->
  let '(c', o) := if expired now c then retransmit gw_mac now c else (c, []) in
  step_ok G girs c c' o /\ state c' = Established.
Proof.
  intros Hc Hst. destruct (established_open c ltac:(apply Hc) Hst) as (u & n & m & Ho).
  destruct (expired now c) eqn:Ex; [|apply sends_step; [done|done|by apply (sends_refl _ _ _ u n m)]].
  pose proof (retransmit_sends G girs now c u n m Ho ltac:(apply Hc)) as Hrt. destruct (retransmit gw_mac now c) as [c' o].
  apply sends_step; [done|done|]. apply Hrt. intros Hn. unfold expired in Ex. by rewrite Hn in Ex.
Qed.

(** The window is filled within the fuel. *)
Lemma fill_step G girs now budget c o : conn_inv G girs c -> state c = Established ->
  exists c' o', fill gw_mac (fill_fuel budget) now budget c o = Some (c', o ++ o') /\ step_ok G girs c c' o' /\ state c' = Established.
Proof.
  intros Hc Hst. destruct (established_open c ltac:(apply Hc) Hst) as (u & n & m & Ho).
  destruct (fill_sends G girs now budget (fill_fuel budget) c o u n m Ho ltac:(apply Hc)) as (c' & o' & Hf & Hs).
  - unfold turns, fill_fuel. case_match; lia.
  - exists c', o'. split; [done|]. by apply sends_step.
Qed.

Lemma poll_established_step G girs now budget c : conn_inv G girs c -> state c = Established ->
  exists c' o, poll_established gw_mac now budget c = Some (c', o) /\ step_ok G girs c c' o /\ poll_end now c' o.
Proof.
  intros Hc Hst. unfold poll_established. destruct (flush_same now c) as [Hr0 Hs0].
  assert (H1 : step_ok G girs c (flush_to_backend now c) []) by (apply step_same; [done|done|done|constructor]).
  assert (Hst1 : state (flush_to_backend now c) = Established) by (rewrite (ss_state _ _ Hs0); done).
  set (c1 := flush_to_backend now c) in *. clearbody c1. clear Hr0 Hs0.
  match goal with |- context [if ?b then (_ <| adv_win := _ |>, _) else _] =>
    pose proof (update_step G girs b c1 (proj1 H1)) as H2; destruct (if b then _ else _) as [c2 o2] end.
  destruct H2 as [H2 Hst2]. rewrite Hst1 in Hst2. apply (step_then _ _ _ _ _ _ _ H1) in H2. cbn [app] in H2.
  destruct (expired now c2 && (GIVE_UP <? Z.max 0 (now - last_progress c2))); [by apply (abort_after _ _ _ _ _ o2)|].
  pose proof (timeout_step G girs now c2 (proj1 H2) Hst2) as H3.
  destruct (if expired now c2 then _ else _) as [c3 o3]. destruct H3 as [H3 Hst3]. apply (step_then _ _ _ _ _ _ _ H2) in H3.
  destruct (fill_step G girs now budget c3 (o2 ++ o3) (proj1 H3) Hst3) as (c4 & o4 & -> & H4 & Hst4).
  apply (step_then _ _ _ _ _ _ _ H3) in H4. cbn [mbind option_bind].
  pose proof (fin_step G girs now c4 budget ((o2 ++ o3) ++ o4) (proj1 H4) Hst4) as H5.
  match type of H5 with let '(_, _) := ?r in _ => destruct r as [c5 o5] end. destruct H5 as (o6 & -> & H5 & Hst5).
  apply (step_then _ _ _ _ _ _ _ H4) in H5. pose proof H5 as (Hc5 & Hg5 & Hr5 & Ho5).
  destruct ((guest_fin c5 || fin_sent c5) && (HALF_CLOSED_IDLE <? Z.max 0 (now - last_use c5))).
  { by apply (abort_after _ _ _ _ _ (((o2 ++ o3) ++ o4) ++ o6)). }
  eexists _, _. split; [done|]. split; [apply (step_trans _ _ _ c5); [done|done|by apply close_step]|by apply (pe_close _ _ _ c5)].
Qed.

(** The host answered the connection. *)
Lemma connected_step G girs now c : conn_inv G girs c -> state c = Connecting ->
  let c1 := sent_to (c <| state := SynReceived |>) (u32 (iss c + 1)) in
  let c2 := c1 <| rto_deadline := Some (now + rto c1) |> in
  step_ok G girs c c2 [seg gw_mac c2 (iss c2) SYN_ACK []] /\ state c2 = SynReceived.
Proof.
  intros (Hr & Hs & Hi) Hst. cbn zeta. destruct (sent_to_keeps (c <| state := SynReceived |>) (u32 (iss c + 1))) as (Hr1 & Hg1 & Hst1 & Hf1 & Hb1 & Hu1 & Hi1 & _).
  destruct Hs as [_ H1 H2 H3 H4 H5 H6|[?|[?|?]]|? ? ? [?|?]]; try congruence.
  assert (Hpt : snd_nxt (sent_to (c <| state := SynReceived |>) (u32 (iss c + 1))) = at_off c 0 /\
    snd_max (sent_to (c <| state := SynReceived |>) (u32 (iss c + 1))) = at_off c 0 /\
    snd_una (sent_to (c <| state := SynReceived |>) (u32 (iss c + 1))) = iss c).
  { assert (Hg : seq_gt (u32 (iss c + 1)) (snd_max c) = true).
    { assert (Hm : snd_max c = u32 (iss c + 0)) by (rewrite Z.add_0_r; congruence). rewrite Hm. by apply seq_gt_offsets. }
    unfold sent_to. cbn. rewrite Hg. cbn. unfold at_off. rewrite Z.add_0_r. done. }
  set (c1 := sent_to _ _) in *. clearbody c1. destruct Hpt as (Hn & Hm & Ha).
  assert (Hsr : same_recv c (c1 <| rto_deadline := Some (now + rto c1) |>)) by (destruct Hr1; by split).
  split; [|done]. unfold step_ok, conn_inv. split_and!.
  - by apply (recv_same _ _ c).
  - apply si_syn; cbn; rewrite ?Hi1, ?Hb1, ?Hu1, ?Hf1; try done; [by right; left|..]; unfold at_off; cbn; by rewrite Hi1.
  - cbn. by rewrite Hi1.
  - split; [done|]. exists []. rewrite app_nil_r. cbn. rewrite Hb1. split; [done|]. cbn in *. congruence.
  - by apply same_recv_grows.
  - constructor; [|constructor]. apply plain_ok; [by apply (recv_same _ _ c)|done].
Qed.

Lemma poll_step G girs now budget c : conn_inv G girs c -> state c <> SynSent ->
  exists c' o, poll gw_mac now budget c = Some (c', o) /\ step_ok G girs c c' o /\ state c' <> SynSent.
Proof.
  intros Hc Hns. pose proof Hc as (Hr & Hs & Hi). unfold poll.
  assert (H0 : step_ok G girs c c []) by (apply step_same; [done|apply same_send_refl|apply same_recv_refl|constructor]).
  assert (Hend : forall r, (exists c' o, r = Some (c', o) /\ step_ok G girs c c' o /\ poll_end now c' o) ->
    exists c' o, r = Some (c', o) /\ step_ok G girs c c' o /\ state c' <> SynSent).
  { intros r (c' & o & ? & ? & ?). exists c', o. split_and!; [done|done|by apply (poll_end_state now _ o)]. }
  destruct (reset c); [by apply Hend, (abort_after _ _ _ _ c [])|]. destruct (state c) eqn:Est; try done.
  - cbn [poll_connect logged_backend]. destruct (poll_connect (raw (backend c)) now) as [b r].
    set (c1 := c <| backend := _ |>).
    assert (H1 : step_ok G girs c c1 []) by (apply step_same; [done|by split|by split|constructor]).
    assert (Est1 : state c1 = Connecting) by done. clearbody c1. destruct r as [[|]|].
    + destruct (connected_step G girs now c1 (proj1 H1) Est1) as [H2 Est2]. eexists _, _. split; [done|].
      apply (step_then _ _ _ _ _ _ _ H1) in H2. split; [exact H2|]. intros Hx. discriminate (eq_trans (eq_sym Est2) Hx).
    + eexists _, _. split; [done|]. split; [|done]. destruct H1 as ((Hr1 & Hs1 & Hi1) & Hg1 & Hrg1 & _).
      set (c2 := c1 <| state := Closed |> <| closed_at := Some now |>).
      assert (Hr2 : recv_inv G girs c2) by (apply (recv_same _ _ c1); [by split|done]).
      apply (step_trans _ _ _ c1); [done|done|]. unfold step_ok, conn_inv.
      split_and!; [done|apply (closed_send c1); [done|done|by split]|done| |apply same_recv_grows; by split|].
      * split; [done|]. exists []. by rewrite app_nil_r.
      * constructor; [|constructor]. apply (plain_ok _ _ _ 0 RST_ACK) in Hr2 as [F1 F2 F3]; [|done]. split; [done|done|exact F3].
    + exists c1, []. split; [done|]. split; [done|congruence].
  - destruct (expired now c) eqn:Ex; [|exists c, []; split; [done|split; [done|congruence]]].
    destruct (GIVE_UP / 4 <? Z.max 0 (now - last_progress c)); [by apply Hend, (abort_after _ _ _ _ c [])|].
    eexists _, _. split; [done|]. split; [|cbn; congruence]. rewrite bool_decide_false by done.
    unfold step_ok, conn_inv. split_and!; [apply (recv_same _ _ c); [by split|done]| |done| |apply same_recv_grows; by split|].
    + destruct Hs as [[?|?]| |? ? ? [?|?]]; try congruence. by apply si_syn.
    + split; [done|]. exists []. by rewrite app_nil_r.
    + constructor; [|constructor]. apply (frame_grows _ _ c); [|apply same_recv_grows; by split|by apply plain_ok].
      split; [done|]. exists []. by rewrite app_nil_r.
  - by apply Hend, poll_established_step.
  - exists c, []. split; [done|]. split; [done|congruence].
Qed.

End Streams.

End TcpProofs.
