(* ===== verification/TcpClaims.v ===== *)
(** * What the TCP endpoint promises

    Runs of a connection against a guest that sends its stream and any backend:
    both streams arrive in order and complete; and the case in which the
    endpoint waits forever. *)

From S2P Require Import Prelude Packet TcpConn TcpProofs.
Import Packet TcpConn TcpProofs.

#[local] Open Scope Z_scope.

Module TcpClaims.

Section Runs.

Context {B : Type} `{HB : BackendOps B} {HL : BackendLaws B} (gw_mac : list Z).

Notation Conn := (TcpConn (Logged B)).

(** ** Runs *)

(** A connection opened towards the guest that the guest has not answered. *)
Inductive waits : Conn -> Prop :=
| w_open now isn e b : 0 <= isn < 2 ^ 32 -> waits (open now isn e (fresh b))
| w_poll now budget c c' o : waits c -> poll gw_mac now budget c = Some (c', o) -> state c' = SynSent -> waits c'.

(** A guest that opens the connection with sequence number [girs] and sends the
    stream [G]: the connection, the segments it took and the frames it made. *)
Inductive reach (G : list Z) (girs : Z) : Conn -> list Segment -> list Frame -> Prop :=
| r_accept now isn e t b : 0 <= isn < 2 ^ 32 -> s_seq t = girs -> reach G girs (accept now isn e t (fresh b)) [] []
| r_answer now c c' t o : waits c -> s_seq t = girs -> has_flag (s_flags t) RST = false -> input gw_mac now c t = (c', o) ->
    state c' = Established -> reach G girs c' [] o
| r_input now c c' t ins os o : reach G girs c ins os -> faithful G girs c t -> seg_ok t -> input gw_mac now c t = (c', o) ->
    reach G girs c' (ins ++ [t]) (os ++ o)
| r_poll now budget c c' ins os o : reach G girs c ins os -> poll gw_mac now budget c = Some (c', o) ->
    reach G girs c' ins (os ++ o).

(** The invariant of an unanswered connection. *)
Record waiting (c : Conn) : Prop := {
  wt_state : state c = SynSent;
  wt_send : send_inv c;
  wt_iss : u32 (iss c) = iss c;
  wt_taken : taken (backend c) = [];
  wt_held : to_backend c = [];
  wt_fin : guest_fin c = false;
}.

Lemma waits_waiting c : waits c -> waiting c.
Proof.
  induction 1 as [now isn e b Hisn|now budget c c' o _ IH Hp Hst].
  - assert (Hu : u32 isn = isn) by (by apply wrap_small). split; try done.
    apply si_syn; cbn; try done; [by left|..]; unfold at_off; cbn; f_equal; lia.
  - destruct IH as [H1 H2 H3 H4 H5 H6]. unfold poll in Hp. rewrite H1 in Hp. destruct (reset c); [by injection Hp as <- _|].
    destruct (expired now c); [|by injection Hp as <- _].
    destruct (GIVE_UP / 4 <? Z.max 0 (now - last_progress c)); injection Hp as <- _; [done|].
    split; try done. destruct H2 as [[?|?]| |? ? ? [?|?]]; try congruence. by apply si_syn.
Qed.

Lemma accept_inv G girs now isn e t (b : B) : 0 <= isn < 2 ^ 32 -> s_seq t = girs -> conn_inv G girs (accept now isn e t (fresh b)).
Proof.
  intros Hisn Hs. assert (Hu : u32 isn = isn) by (by apply wrap_small). split_and!; [| |done].
  - split; cbn; try done; [|unfold RCV_BUF; lia]. rewrite Hs. unfold rcvd. cbn. f_equal. lia.
  - apply si_idle; cbn; auto.
Qed.

(** The guest's SYN and ACK make an unanswered connection an open one. *)
Lemma answer_inv G now c c' t o : waiting c -> has_flag (s_flags t) RST = false -> input gw_mac now c t = (c', o) ->
  state c' = Established -> conn_inv G (s_seq t) c' /\ Forall (frame_ok G (s_seq t) c') o.
Proof.
  intros [H1 H2 H3 H4 H5 H6] Hr Hin Hst. unfold input in Hin. rewrite Hr in Hin. cbn in Hin. rewrite H1 in Hin.
  destruct (has_flag (s_flags t) SYN && has_flag (s_flags t) ACK && (s_ack t =? u32 (iss c + 1))) eqn:E.
  2: { destruct (has_flag (s_flags t) SYN || has_flag (s_flags t) ACK); injection Hin as <- _; cbn in Hst; congruence. }
  apply andb_prop in E as [_ Ea%Z.eqb_eq]. injection Hin as Hc Ho.
  assert (Hi : conn_inv G (s_seq t) c').
  { subst c'. split_and!; [| |done].
    - match goal with |- recv_inv _ _ ?x => assert (Hrc : rcvd x = 0) by (unfold rcvd; cbn; by rewrite H4, H5) end.
      split; rewrite ?Hrc; cbn; rewrite ?H4, ?H5, ?H6; try done; cbn; lia || (f_equal; lia).
    - destruct H2 as [[?|?]|_ Hu Hn Hm Hb Hg Hf|? ? ? [?|?]]; try congruence. apply (si_open _ 0 0 0); [by left|].
      split; unfold acked, gave, at_off in *; cbn; rewrite ?Hb, ?Hg, ?Hf, ?Ea; cbn; try done; try lia.
      f_equal. lia. }
  split; [done|]. subst o. constructor; [|constructor]. subst c'. by apply plain_ok; [apply Hi|].
Qed.

Lemma reach_inv G girs c ins os : reach G girs c ins os ->
  conn_inv G girs c /\ state c <> SynSent /\ Forall (frame_ok G girs c) os.
Proof.
  induction 1 as [now isn e t b Hisn Hs|now c c' t o Hw Hs Hr Hin Hst|now c c' t ins os o _ (Hc & Hst & Ho) Hf Ht Hin|
    now budget c c' ins os o _ (Hc & Hst & Ho) Hp].
  - split_and!; [by apply accept_inv|done|constructor].
  - subst girs. destruct (answer_inv G now c c' t o (waits_waiting c Hw) Hr Hin Hst). split_and!; [done|congruence|done].
  - pose proof (input_step gw_mac G girs now c t Hc Hst Hf Ht) as Hstep. rewrite Hin in Hstep.
    destruct Hstep as [(Hi & Hg & Hrg & Ho') Hst']. split_and!; [done|done|]. apply Forall_app. split; [|done].
    eapply Forall_impl; [exact Ho|]. intros f. by apply frame_grows.
  - destruct (poll_step gw_mac G girs now budget c Hc Hst) as (c1 & o1 & Hp1 & (Hi & Hg & Hrg & Ho') & Hst').
    rewrite Hp in Hp1. injection Hp1 as <- <-. split_and!; [done|done|]. apply Forall_app. split; [|done].
    eapply Forall_impl; [exact Ho|]. intros f. by apply frame_grows.
Qed.

(** C25: in every run, the backend has been written, and the connection holds,
    a prefix of the guest's stream, in order and without gaps; every frame
    that went to the guest acknowledges only bytes written or held, carries
    data that is the backend's stream at the place its sequence number names,
    and a FIN only after all of it, even across a wrap of the sequence space;
    and the next poll returns, whatever the clock and the budget. *)
Theorem tcp_relays_in_order G girs c ins os : reach G girs c ins os ->
  (exists rest, G = taken (backend c) ++ to_backend c ++ rest) /\
  Forall (frame_ok G girs c) os /\
  forall now budget, exists c' o, poll gw_mac now budget c = Some (c', o).
Proof.
  intros Hr. destruct (reach_inv _ _ _ _ _ Hr) as (Hc & Hst & Ho). split_and!; [|done|].
  - exists (drop (Z.to_nat (rcvd c)) G). destruct Hc as ([Hh _ _ _] & _). rewrite app_assoc, Hh. by rewrite take_drop.
  - intros now budget. destruct (poll_step gw_mac G girs now budget c Hc Hst) as (c' & o & ? & _). by exists c', o.
Qed.

(** ** Closing *)

Definition no_rst (fl : Z) : Prop := has_flag fl RST = false.














(** *** The end of the backend's stream *)

(** What a step that reads nothing leaves alone. *)
Record unread (c c' : Conn) : Prop := {
  ur_eof : backend_eof c' = backend_eof c;
  ur_mss : peer_mss c' = peer_mss c;
  ur_ended : ended (backend c') = ended (backend c);
}.

#[local] Instance unread_preorder : PreOrder unread.
Proof. split; [by split|]. intros c1 c2 c3 [] []. split; congruence. Qed.
















End Runs.

(** ** A run *)

(** The guest asks the time service of the gateway and says "hi"; our initial
    sequence number is three before the wrap. *)
Definition demo_mac : list Z := [2; 0; 0; 0; 0; 1].

Definition demo_ends : Endpoints :=
  {| guest_mac := [8; 0; 105; 1; 2; 3]; guest_ip := [10; 0; 2; 15]; guest_port := 1024; remote_ip := [10; 0; 2; 2]; remote_port := 37 |}.

Definition demo_G : list Z := [104; 105].

Definition demo_isn : Z := 2 ^ 32 - 3.

Definition segm (sq a fl win : Z) (data : list Z) : Segment :=
  {| s_seq := sq; s_ack := a; s_flags := fl; s_window := win; s_mss := None; s_payload := data |}.

Definition Time : Type := TcpConn (Logged (ServiceConn TimeService)).

Definition after_input (now : Z) (t : Segment) (x : Time * list Segment * list Frame) : Time * list Segment * list Frame :=
  let '(c, ins, os) := x in let '(c', o) := input demo_mac now c t in (c', ins ++ [t], os ++ o).

Definition after_poll (now : Z) (budget : nat) (x : Time * list Segment * list Frame) : Time * list Segment * list Frame :=
  let '(c, ins, os) := x in match poll demo_mac now budget c with Some (c', o) => (c', ins, os ++ o) | None => x end.

(** The connection accepted with the window the guest offers. *)
Definition demo_start (win : Z) : Time * list Segment * list Frame :=
  (accept 0 demo_isn demo_ends (segm 100 0 SYN win []) (fresh (service_new [1; 2; 3; 4])), [], []).

Definition demo_end : Time * list Segment * list Frame :=
  after_input 6 (segm 103 3 FIN_ACK 8192 [])
    (after_poll 5 4 (after_input 4 (segm 103 2 ACK 8192 [])
      (after_poll 3 4 (after_input 2 (segm 101 (2 ^ 32 - 2) PSH_ACK 8192 demo_G) (after_poll 1 4 (demo_start 8192)))))).

Definition reached (x : Time * list Segment * list Frame) : Prop := reach demo_mac demo_G 100 x.1.1 x.1.2 x.2.

Lemma reached_poll now budget x : reached x -> reached (after_poll now budget x).
Proof.
  destruct x as [[c ins] os]. unfold reached. cbn [fst snd]. intros Hr. unfold after_poll.
  destruct (poll demo_mac now budget c) as [[c' o]|] eqn:E; [|done]. by apply (r_poll _ _ _ now budget c).
Qed.

Lemma reached_input now t x : reached x -> faithful demo_G 100 x.1.1 t -> seg_ok t -> reached (after_input now t x).
Proof.
  destruct x as [[c ins] os]. unfold reached. cbn [fst snd]. intros Hr Hf Ht. unfold after_input.
  destruct (input demo_mac now c t) as [c' o] eqn:E. by apply (r_input _ _ _ now c).
Qed.

Lemma reached_start win : reached (demo_start win).
Proof. apply r_accept; [unfold demo_isn; lia|done]. Qed.

(** An offset at which a concrete segment is the guest's. *)
Ltac at_offset a := exists a; vm_compute; repeat split; discriminate || congruence.

Lemma demo_reached : reached demo_end.
Proof.
  unfold demo_end. apply reached_input; [|at_offset 2|by vm_compute].
  apply reached_poll, reached_input; [|at_offset 2|by vm_compute].
  apply reached_poll, reached_input; [|at_offset 0|by vm_compute].
  apply reached_poll, reached_start.
Qed.

Lemma tcp_relays_in_order_witness :
  length demo_end.2 = 5%nat /\ Forall (frame_ok demo_G 100 demo_end.1.1) demo_end.2.
Proof.
  split; [by vm_compute|]. apply (tcp_relays_in_order demo_mac demo_G 100 demo_end.1.1 demo_end.1.2 demo_end.2). exact demo_reached.
Defined.


(** ** A segment size of zero *)

(** The same guest, whose SYN names a segment size of zero; the time service
    still has its four bytes. *)
Definition zero_start : Time * list Segment * list Frame :=
  (accept 0 demo_isn demo_ends {| s_seq := 100; s_ack := 0; s_flags := SYN; s_window := 8192; s_mss := Some 0; s_payload := [] |}
    (fresh (service_new [1; 2; 3; 4])), [], []).

Definition zero_end : Time * list Segment * list Frame :=
  after_input 4 (segm 103 (2 ^ 32 - 1) FIN_ACK 8192 [])
    (after_poll 3 4 (after_input 2 (segm 101 (2 ^ 32 - 2) PSH_ACK 8192 demo_G) (after_poll 1 4 zero_start))).

(** A guest that names a segment size of zero is told the connection is over
    with nothing delivered: the endpoint reads into an empty buffer, takes the
    zero bytes it gets for the end of the backend's stream, sends its FIN and
    closes in order while the backend holds everything it had to say. *)
Theorem zero_mss_loses_stream :
  let c := zero_end.1.1 in
  reached zero_end /\ Forall (fun f => no_rst (flags (f_hdr f))) zero_end.2 /\ state c = Closed /\ backend_eof c = true /\
  ended (backend c) = false /\ given (backend c) = [] /\ out (raw (backend c)) = [1; 2; 3; 4].
Proof.
  cbn zeta. split; [|by vm_compute; split_and!; try done; repeat constructor].
  unfold zero_end. apply reached_input; [|at_offset 2|by vm_compute].
  apply reached_poll, reached_input; [|at_offset 0|by vm_compute]. apply reached_poll. apply r_accept; [unfold demo_isn; lia|done].
Qed.

(** ** A closed window *)

(** With a closed window and nothing in flight no timer runs, and a poll
    changes and sends nothing. *)
Lemma closed_window_waits {B} `{BackendOps B} gw now budget (c : TcpConn B) : state c = Established -> reset c = false ->
  to_backend c = [] -> guest_fin c = false -> fin_sent c = false -> backend_eof c = false -> adv_win c = 65535 ->
  rto_deadline c = None -> peer_win c = 0 -> poll gw now budget c = Some (c, []).
Proof.
  intros Hst Hre Htb Hgf Hfs Heof Haw Hrto Hpw. unfold poll, poll_established. rewrite Hre, Hst.
  assert (Hfl : flush_to_backend now c = c) by (unfold flush_to_backend; rewrite Htb; cbn [length flush_loop]; by rewrite Hgf).
  assert (Hw : rcv_win c = 65535) by (unfold rcv_win; rewrite Htb; reflexivity).
  cbn zeta. rewrite Hfl, Hw, Haw. replace (65535 + TCP_MSS <=? 65535) with false by reflexivity.
  rewrite Z.ltb_irrefl, !andb_false_r. cbn [orb]. rewrite ?andb_false_r. unfold expired. rewrite Hrto. cbn [andb].
  assert (Hfill : fill gw (fill_fuel budget) now budget c [] = Some (c, [])).
  { unfold fill_fuel. rewrite Nat.add_comm. cbn [Nat.add fill]. rewrite Hpw. cbn [Z.to_nat Nat.sub].
    by destruct (budget <=? length [])%nat. }
  cbn [app]. rewrite Hfill. cbn [mbind option_bind]. rewrite Heof; cbn [andb]; rewrite Hgf, Hfs. cbn [andb orb].
  unfold close_if_done. rewrite Hgf, andb_false_r. done.
Qed.

(** The guest offers two bytes, acknowledges them and closes its window. *)
Definition demo_stalled : Time * list Segment * list Frame :=
  after_input 4 (segm 103 0 ACK 0 [])
    (after_poll 3 4 (after_input 2 (segm 101 (2 ^ 32 - 2) PSH_ACK 2 demo_G) (after_poll 1 4 (demo_start 2)))).

(** An open connection stalls for good when the guest acknowledges all
    that is in flight and closes its window in the same segment: two bytes of
    the service's answer wait, no timer runs, and every poll at every later
    time leaves the connection as it is and sends nothing, so no probe asks
    for the window that a lost update would have opened. *)
Theorem zero_window_stalls :
  let c := demo_stalled.1.1 in
  reached demo_stalled /\ state c = Established /\ out (raw (backend c)) = [3; 4] /\
  forall now budget, poll demo_mac now budget c = Some (c, []).
Proof.
  cbn zeta. split_and!; [|by vm_compute|by vm_compute|].
  - unfold demo_stalled. apply reached_input; [|at_offset 2|by vm_compute].
    apply reached_poll, reached_input; [|at_offset 0|by vm_compute]. apply reached_poll, reached_start.
  - intros now budget. apply closed_window_waits; by vm_compute.
Qed.

End TcpClaims.
