(* ===== verification/CpuCache.v ===== *)
(** * The write-back caches (src/src/cpu/mips_cache_v2.rs)

    [CpuCache] is the cache of the R4400, the R5000 and the R10000: primary
    instruction and data caches and, but for the R5000, a secondary cache that
    includes them and owns the decoded-instruction slots.  Its const generics
    are the fields of [Geom]; [R4400], [R5000] and [R10000] are the source's
    type aliases.

    The build is the default one, without the [tcache], [cache-ecc] and
    [opcodefusion] features, so a line is never marked slow and no check bits
    are forced.  Arrays are finite maps with the default the source fills them
    with.  The host is little-endian, as the source's views of a doubleword
    assume.  Memory that a device offers by pointer ([mem_ptr]) is read through
    [read_block], which reads the same words.  Every call passes [false] for
    the [cascade] argument of the invalidations, so it is left out. *)

From S2P Require Import Prelude CpuDecode CpuExec CpuInstr.
Import CpuDecode CpuExec CpuInstr.

#[local] Open Scope Z_scope.
#[local] Open Scope word_scope.

Module CpuCache.

Definition EXC_IBE : Z := 6.
Definition C_IINV : Z := 0x00.

(** ** Geometry *)

Inductive Model : Type := MR4400 | MR5000 | MR10000.

#[export] Instance Model_eq_dec : EqDecision Model.
Proof. solve_decision. Defined.

(** Shifts instead of sizes: a line is [2 ^ line_shift] bytes, a way has
    [2 ^ sets_shift] lines. *)
Record Geom : Type := mkGeom {
  ic_line_shift : Z;
  ic_sets_shift : Z;
  ic_ways : Z;
  dc_line_shift : Z;
  dc_sets_shift : Z;
  dc_ways : Z;
  l2_line_shift : Z;
  l2_lines_shift : Z;
  has_l2 : bool;
  model : Model;
}.

Definition R4400 : Geom := mkGeom 4 10 1 4 10 1 7 13 true MR4400.
Definition R5000 : Geom := mkGeom 5 9 2 5 9 2 7 0 false MR5000.
Definition R10000 : Geom := mkGeom 6 9 1 5 10 1 7 13 true MR10000.

(** ** Tags *)

Definition L1_PTAG_SHIFT : Z := 12.
Definition L1_PTAG_MASK : Z := 0xFFFFFF.
Definition L1_INDEX_MASK : Z := 0xFFF.
Definition L2_PTAG_SHIFT : Z := 17.
Definition L2_PTAG_MASK : Z := 0x7FFFF.
Definition L2_INDEX_MASK : Z := 0x1FFFF.
Definition L2_PIDX_VADDR_SHIFT : Z := 12.
Definition L2_PIDX_VADDR_MASK : Z := 7.
Definition L1D_CS_INVALID : Z := 0.
Definition L1D_CS_SHARED : Z := 1.
Definition L1D_CS_CLEAN_EXCLUSIVE : Z := 2.
Definition L1D_CS_DIRTY_EXCLUSIVE : Z := 3.
Definition L2_CS_INVALID : Z := 0.
Definition L2_CS_CLEAN_EXCLUSIVE : Z := 4.
Definition L2_CS_DIRTY_EXCLUSIVE : Z := 5.
Definition L2_CS_SHARED : Z := 6.
Definition L2_CS_DIRTY_SHARED : Z := 7.
Definition L1D_TAG_CS_SHIFT : Z := 24.
Definition L1D_TAG_W_SHIFT : Z := 27.
Definition SLOW : Z := 2.

(** A primary tag: 0, or the page of the line with bit 0 set. *)
Definition L1ITag : Type := Z.

Definition page_tag (phys : Z) : Z := (phys .& bnot 64 0xFFF) .| 1.

Definition i_valid (phys : Z) : L1ITag := page_tag phys.
Definition i_matches_phys (t : L1ITag) (phys : Z) : bool := t =? page_tag phys.
Definition i_is_valid (t : L1ITag) : bool := negb (t .& 1 =? 0).
Definition i_line_addr (t : L1ITag) : Z := t .& bnot 64 0xFFF.

Record L1DTag : Type := mkD { d_ptag : Z; d_cs : Z; d_dirty : bool }.

#[global] Instance eta_L1DTag : Settable L1DTag := fun r => mkD (d_ptag r) (d_cs r) (d_dirty r).

Definition d_default : L1DTag := mkD 0 0 false.
Definition d_valid (phys cs : Z) (dirty : bool) : L1DTag := mkD (page_tag phys) cs dirty.
Definition d_matches_phys (t : L1DTag) (phys : Z) : bool := d_ptag t =? page_tag phys.
Definition d_matches_line (t : L1DTag) (phys : Z) : bool := d_ptag t .& bnot 64 SLOW =? page_tag phys.
Definition d_is_valid (t : L1DTag) : bool := negb (d_ptag t .& 1 =? 0).
Definition d_line_addr (t : L1DTag) : Z := d_ptag t .& bnot 64 0xFFF.

Record L2Tag : Type := mkS { s_ptag : Z; s_pidx : Z; s_cs : Z; s_has_code : bool }.

#[global] Instance eta_L2Tag : Settable L2Tag := fun r => mkS (s_ptag r) (s_pidx r) (s_cs r) (s_has_code r).

Definition s_default : L2Tag := mkS 0 0 0 false.

Definition l1d_tag_to_phys (t : L1DTag) (index_addr : Z) : Z := d_line_addr t .| (index_addr .& L1_INDEX_MASK).
Definition l2_tag_to_phys (t : L2Tag) (index_addr : Z) : Z := (s_ptag t .<< L2_PTAG_SHIFT) .| (index_addr .& L2_INDEX_MASK).

(** ** Check bits and TagLo *)

(** [count_ones] of the low [n] bits. *)
Fixpoint count_ones (n : nat) (v : Z) : Z :=
  match n with O => 0 | S n' => count_ones n' (v .>> 1) + (v .& 1) end.

Definition even_parity (v : Z) : Z := count_ones 32 v .& 1.

Definition L2_TAG_ECC_MASKS : list Z := [0x1ff1111; 0x045222f; 0x10a40ff; 0x09184f0; 0x0620f42; 0x114ff04; 0x0a8f888].

Definition l2_tag_ecc (tag : Z) : Z :=
  foldl (fun ecc '(i, m) => ecc .| (even_parity (tag .& m) .<< i)) 0 (zip (seqZ 0 7) L2_TAG_ECC_MASKS).

Definition is_secondary (sel : Z) : bool := (sel =? CACH_SI) || (sel =? CACH_SD).

(** What a cache that keeps TagLo words stores on Index_Store_Tag, ... *)
Definition r4k_store_taglo (r5k : bool) (sel taglo : Z) : Z :=
  if is_secondary sel then
    let s := (taglo .>> 10) .& 7 in
    let state := if 4 <=? s then s else 0 in
    (taglo .& 0xFFFFE000) .| (state .<< 10) .| (taglo .& 0x380)
  else
    let p := (taglo .>> 6) .& 3 in
    if p =? 0 then 0
    else
      let pstate := if sel =? CACH_PI then 2 else if (p =? 1) && r5k then 2 else p in
      (taglo .& 0xFFFFFF00) .| (pstate .<< 6).

(** ... and what it then answers to Index_Load_Tag. *)
Definition r4k_load_taglo (r5k : bool) (sel stored : Z) : Z :=
  if is_secondary sel then
    let fields := (((stored .>> 10) .& 7) .<< 22) .| (((stored .>> 7) .& 7) .<< 19) .| (stored .>> 13) in
    stored .| l2_tag_ecc fields
  else
    let pstate := (stored .>> 6) .& 3 in
    let p := even_parity (stored .>> 8) .^
      (if r5k then 0 else if sel =? CACH_PI then bool_to_Z (negb (pstate =? 0)) else even_parity pstate) in
    stored .| p.

(** ** State *)

Record CpuCache (B : Type) : Type := mkCache {
  downstream : B;
  ic_tags : gmap Z L1ITag;
  dc_tags : gmap Z L1DTag;
  dc_data : gmap Z Z;
  l2_tags : gmap Z L2Tag;
  l2_data : gmap Z Z;
  l2_instrs : gmap Z DecodedInstr;
  llbit : bool;
  lladdr : Z;
  ic_instrs : gmap Z DecodedInstr;
  ic_lru : gmap Z Z;
  dc_lru : gmap Z Z;
  ic_raw : gmap Z Z;
  ecc : Z;
}.
Arguments mkCache {B}. Arguments downstream {B}. Arguments ic_tags {B}. Arguments dc_tags {B}. Arguments dc_data {B}.
Arguments l2_tags {B}. Arguments l2_data {B}. Arguments l2_instrs {B}. Arguments llbit {B}. Arguments lladdr {B}.
Arguments ic_instrs {B}. Arguments ic_lru {B}. Arguments dc_lru {B}. Arguments ic_raw {B}. Arguments ecc {B}.

#[global] Instance eta_CpuCache {B} : Settable (CpuCache B) := fun r =>
  mkCache (downstream r) (ic_tags r) (dc_tags r) (dc_data r) (l2_tags r) (l2_data r) (l2_instrs r) (llbit r) (lladdr r)
    (ic_instrs r) (ic_lru r) (dc_lru r) (ic_raw r) (ecc r).

(** A new array element is zero, or an instruction not decoded. *)
Definition cell {A} (d : A) (m : gmap Z A) (i : Z) : A := default d (m !! i).

(** The store of two instruction words over a slot. *)
Definition slot_word (d : DecodedInstr) (w : Z) : DecodedInstr := d <| flags := FLAG_NOT_DECODED |> <| raw := w |>.

Definition hi_word (chunk : Z) : Z := u32 (chunk .>> 32).
Definition lo_word (chunk : Z) : Z := u32 chunk.

(** Slots [base + 2i] and [base + 2i + 1] take the words of chunk [i]. *)
Fixpoint set_slots (m : gmap Z DecodedInstr) (base : Z) (chunks : list Z) : gmap Z DecodedInstr :=
  match chunks with
  | [] => m
  | x :: l =>
      let m := <[base := slot_word (cell instr_default m base) (hi_word x)]> m in
      let m := <[base + 1 := slot_word (cell instr_default m (base + 1)) (lo_word x)]> m in
      set_slots m (base + 2) l
  end.

(** Consecutive chunks of a data array. *)
Fixpoint set_chunks (m : gmap Z Z) (base : Z) (chunks : list Z) : gmap Z Z :=
  match chunks with [] => m | x :: l => set_chunks (<[base := x]> m) (base + 1) l end.

Definition get_chunks (m : gmap Z Z) (base n : Z) : list Z := map (fun i => cell 0 m (base + i)) (seqZ 0 n).

(** The packed LRU bitmap of a two-way cache. *)
Definition lru_get (bm : gmap Z Z) (set : Z) : bool := negb ((cell 0 bm (set .>> 6) .>> (set .& 63)) .& 1 =? 0).

Definition lru_set (bm : gmap Z Z) (set val : Z) : gmap Z Z :=
  let mask := 1 .<< (set .& 63) in
  <[set .>> 6 := (cell 0 bm (set .>> 6) .& bnot 64 mask) .| (val .<< (set .& 63))]> bm.

(** [for i in 0..n]. *)
Definition for_each {S} (n : Z) (f : S -> Z -> S) (s : S) : S := foldl f s (seqZ 0 n).

Section Cache.

Context (g : Geom) {B : Type} `{BusOps B}.

Notation C := (CpuCache B).

Definition IS_R5K : bool := bool_decide (model g = MR5000).
Definition HAS_VCE : bool := bool_decide (model g = MR4400).
Definition R10K_CACHE_OPS : bool := bool_decide (model g = MR10000).

Definition new (b : B) : C := mkCache b ∅ ∅ ∅ ∅ ∅ ∅ false 0 ∅ ∅ ∅ ∅ 0.

Definition itag (c : C) (i : Z) : L1ITag := cell 0 (ic_tags c) i.
Definition dtag (c : C) (i : Z) : L1DTag := cell d_default (dc_tags c) i.
Definition stag (c : C) (i : Z) : L2Tag := cell s_default (l2_tags c) i.
Definition set_itag (c : C) (i : Z) (t : L1ITag) : C := c <| ic_tags ::= <[i := t]> |>.
Definition set_dtag (c : C) (i : Z) (t : L1DTag) : C := c <| dc_tags ::= <[i := t]> |>.
Definition set_stag (c : C) (i : Z) (t : L2Tag) : C := c <| l2_tags ::= <[i := t]> |>.

(** [get_index] of the three caches; [(1 << k) - 1] is [Z.ones k]. *)
Definition ic_index (a : Z) : Z := (a .>> ic_line_shift g) .& Z.ones (ic_sets_shift g).
Definition dc_index (a : Z) : Z := (a .>> dc_line_shift g) .& Z.ones (dc_sets_shift g).
Definition l2_index (a : Z) : Z := (a .>> l2_line_shift g) .& Z.ones (l2_lines_shift g).

Definition dc_chunks : Z := 2 ^ (dc_line_shift g - 3).
Definition l2_chunks : Z := 2 ^ (l2_line_shift g - 3).
Definition dc_bytes : Z := 2 ^ (dc_line_shift g + dc_sets_shift g) * dc_ways g.
Definition line_base (shift a : Z) : Z := a .& bnot 64 (Z.ones shift).

Definition l2_ptag (phys : Z) : Z := (phys .>> L2_PTAG_SHIFT) .& L2_PTAG_MASK.
Definition pidx (virt : Z) : Z := (virt .>> L2_PIDX_VADDR_SHIFT) .& L2_PIDX_VADDR_MASK.

(** ** The data array *)

(** Element [j] of the data array seen as elements of [size] bytes. *)
Definition view_get (m : gmap Z Z) (size j : Z) : Z := wrap (8 * size) (cell 0 m (j / (8 / size)) .>> (8 * size * (j mod (8 / size)))).

Definition view_set (m : gmap Z Z) (size j v : Z) : gmap Z Z :=
  let k := j / (8 / size) in
  let sh := 8 * size * (j mod (8 / size)) in
  <[k := (cell 0 m k .& bnot 64 (Z.ones (8 * size) .<< sh)) .| (wrap (8 * size) v .<< sh)]> m.

(** The element a big-endian access of [size] bytes at [masked] names. *)
Definition element (size masked : Z) : Z :=
  if size =? 8 then masked .>> 3
  else if size =? 4 then (masked .>> 2) .^ 1
  else if size =? 2 then (masked .>> 1) .^ 3
  else masked .^ 7.

Definition dc_read (c : C) (size addr : Z) : Z := view_get (dc_data c) size (element size (addr .& (dc_bytes - 1))).

Definition dc_write (c : C) (size addr v : Z) : C :=
  c <| dc_data ::= (fun m => view_set m size (element size (addr .& (dc_bytes - 1))) v) |>.

Definition dc_data_addr (eidx virt : Z) : Z := (eidx .<< dc_line_shift g) .| (virt .& Z.ones (dc_line_shift g)).

Definition mark_l1d_dirty (c : C) (eidx : Z) : C := set_dtag c eidx ((dtag c eidx) <| d_dirty := true |>).

(** ** The bus, a block at a time *)

Fixpoint read_block (b : B) (a : Z) (n : nat) : B * (Z * list Z) :=
  match n with
  | O => (b, (BUS_OK, []))
  | S n' =>
      let '(b, (s, hi)) := bus_read b 4 a in
      if negb (s =? BUS_OK) then (b, (s, []))
      else
        let '(b, (s, lo)) := bus_read b 4 (u64 (a + 4)) in
        if negb (s =? BUS_OK) then (b, (s, []))
        else let '(b, (s, l)) := read_block b (u64 (a + 8)) n' in (b, (s, ((hi .<< 32) .| lo) :: l))
  end.

Fixpoint write_block (b : B) (a : Z) (buf : list Z) : B * Z :=
  match buf with
  | [] => (b, BUS_OK)
  | v :: l =>
      let '(b, s) := bus_write b 4 a (hi_word v) in
      if negb (s =? BUS_OK) then (b, s)
      else
        let '(b, s) := bus_write b 4 (u64 (a + 4)) (lo_word v) in
        if negb (s =? BUS_OK) then (b, s) else write_block b (u64 (a + 8)) l
  end.

Definition down_write_block (c : C) (a : Z) (buf : list Z) : C * Z :=
  let '(b, s) := write_block (downstream c) a buf in (c <| downstream := b |>, s).

Definition down_read_block (c : C) (a n : Z) : C * (Z * list Z) :=
  let '(b, r) := read_block (downstream c) a (Z.to_nat n) in (c <| downstream := b |>, r).

(** ** Invalidation *)

(** The first primary index of a secondary line used under [pidx]. *)
Definition l2_idx_to_l1_base_idx (l2_idx pidx line_shift sets_shift : Z) : Z :=
  let phys_sub_bits := (l2_idx .<< l2_line_shift g) .& 0xFFF in
  let virt_index_bits := (pidx .<< L2_PIDX_VADDR_SHIFT) .| phys_sub_bits in
  (virt_index_bits .>> line_shift) .& Z.ones sets_shift.

Definition invalidate_l1i_line (c : C) (idx : Z) : C := set_itag c idx 0.

(** The load-linked bit survives: [check_and_clear_llbit] compares the lines
    and does nothing. *)
Definition invalidate_l1d_line (c : C) (idx : Z) : C := set_dtag c idx d_default.

(** The primary instruction lines of a secondary line. *)
Definition drop_l1i_of (l2_idx pidx phys_base : Z) (c : C) : C :=
  let base := l2_idx_to_l1_base_idx l2_idx pidx (ic_line_shift g) (ic_sets_shift g) in
  for_each (2 ^ (l2_line_shift g - ic_line_shift g)) (fun c i =>
    let idx := (base + i) .& Z.ones (ic_sets_shift g) in
    if i_matches_phys (itag c idx) (phys_base + (i .<< ic_line_shift g)) then invalidate_l1i_line c idx else c) c.

(** [f] on each primary data line of a secondary line. *)
Definition each_l1d_of (f : C -> Z -> C) (l2_idx pidx phys_base : Z) (c : C) : C :=
  let base := l2_idx_to_l1_base_idx l2_idx pidx (dc_line_shift g) (dc_sets_shift g) in
  for_each (2 ^ (l2_line_shift g - dc_line_shift g)) (fun c i =>
    let idx := (base + i) .& Z.ones (dc_sets_shift g) in
    if d_matches_line (dtag c idx) (phys_base + (i .<< dc_line_shift g)) then f c idx else c) c.

Definition invalidate_l2_line (c : C) (idx : Z) : C :=
  let t := stag c idx in
  if s_cs t =? L2_CS_INVALID then set_stag c idx s_default
  else
    let phys_base := l2_tag_to_phys t (idx .<< l2_line_shift g) in
    let c := if negb IS_R5K then
               each_l1d_of invalidate_l1d_line idx (s_pidx t) phys_base (drop_l1i_of idx (s_pidx t) phys_base c)
             else c in
    set_stag c idx s_default.

(** ** Write-back *)

(** After the line has gone to the next level. *)
Definition demote (t : L1DTag) : L1DTag :=
  let t := t <| d_dirty := false |> in
  if d_cs t =? L1D_CS_DIRTY_EXCLUSIVE then t <| d_cs := L1D_CS_CLEAN_EXCLUSIVE |> else t.

Definition dirtied (cs : Z) : Z :=
  if cs =? L2_CS_CLEAN_EXCLUSIVE then L2_CS_DIRTY_EXCLUSIVE else if cs =? L2_CS_SHARED then L2_CS_DIRTY_SHARED else cs.

(** The part of [writeback_l1d_line] before the cascade; the boolean says
    whether the secondary cache took the line. *)
Definition writeback_l1d (c : C) (idx : Z) : C * bool :=
  let t := dtag c idx in
  if negb (d_dirty t) then (c, false)
  else
    let phys := l1d_tag_to_phys t (idx .<< dc_line_shift g) in
    let si := l2_index phys in
    let st := stag c si in
    let data := get_chunks (dc_data c) (idx .<< (dc_line_shift g - 3)) dc_chunks in
    if IS_R5K && (negb (has_l2 g) || (s_cs st =? L2_CS_INVALID) || negb (s_ptag st =? l2_ptag phys)) then
      let c := (down_write_block c (line_base (dc_line_shift g) phys) data).1 in
      (set_dtag c idx (demote (dtag c idx)), false)
    else if negb IS_R5K && negb (s_ptag st =? l2_ptag phys) then (c, false)
    else
      let off := (phys .& Z.ones (l2_line_shift g)) .>> 3 in
      let c := c <| l2_data ::= (fun m => set_chunks m ((si .<< (l2_line_shift g - 3)) + off) data) |> in
      let c := if negb IS_R5K then
                 c <| l2_instrs ::= (fun m => set_slots m ((si .<< (l2_line_shift g - 2)) + off * 2) data) |>
               else c in
      let c := set_stag c si (st <| s_cs := dirtied (s_cs st) |>) in
      (set_dtag c idx (demote (dtag c idx)), true).

Definition writeback_l2_line (c : C) (idx : Z) : C * bool :=
  let t := stag c idx in
  let phys := l2_tag_to_phys t (idx .<< l2_line_shift g) in
  let c := if negb IS_R5K then each_l1d_of (fun c i => (writeback_l1d c i).1) idx (s_pidx t) phys c else c in
  let t := stag c idx in
  let cs := s_cs t in
  if negb (cs =? L2_CS_DIRTY_EXCLUSIVE) && negb (cs =? L2_CS_DIRTY_SHARED) then (c, true)
  else
    let data := get_chunks (l2_data c) (idx .<< (l2_line_shift g - 3)) l2_chunks in
    let '(c, s) := down_write_block c phys data in
    if negb (s =? BUS_OK) then (c, false)
    else
      let new_cs := if cs =? L2_CS_DIRTY_EXCLUSIVE then L2_CS_CLEAN_EXCLUSIVE else L2_CS_SHARED in
      (set_stag c idx (t <| s_cs := new_cs |>), true).

Definition l2_holds (c : C) (phys : Z) : bool :=
  let t := stag c (l2_index phys) in negb (s_cs t =? L2_CS_INVALID) && (s_ptag t =? l2_ptag phys).

Definition writeback_l2_line_phys (c : C) (phys : Z) : C :=
  if l2_holds c phys then (writeback_l2_line c (l2_index phys)).1 else c.

Definition writeback_l1d_line (c : C) (idx : Z) (cascade : bool) : C :=
  let phys := l1d_tag_to_phys (dtag c idx) (idx .<< dc_line_shift g) in
  let '(c, took) := writeback_l1d c idx in
  if took && cascade then writeback_l2_line_phys c phys else c.

(** A secondary hit under another virtual index, on the R10000. *)
Definition realias_l2_line (c : C) (idx new_pidx : Z) : C :=
  let t := stag c idx in
  let phys_base := l2_tag_to_phys t (idx .<< l2_line_shift g) in
  let c := drop_l1i_of idx (s_pidx t) phys_base c in
  let c := each_l1d_of (fun c i => invalidate_l1d_line (writeback_l1d c i).1 i) idx (s_pidx t) phys_base c in
  set_stag c idx ((stag c idx) <| s_pidx := new_pidx |>).

(** ** Fills *)

Definition fill_l2_line (c : C) (phys virt : Z) : C * bool :=
  let si := l2_index phys in
  let c := invalidate_l2_line (writeback_l2_line c si).1 si in
  let '(c, (s, data)) := down_read_block c (line_base (l2_line_shift g) phys) l2_chunks in
  let c := c <| l2_data ::= (fun m => set_chunks m (si .<< (l2_line_shift g - 3)) data) |> in
  if negb (s =? BUS_OK) then (c, false)
  else
    let c := if negb IS_R5K then c <| l2_instrs ::= (fun m => set_slots m (si .<< (l2_line_shift g - 2)) data) |> else c in
    (set_stag c si (mkS (l2_ptag phys) (pidx virt) L2_CS_CLEAN_EXCLUSIVE true), true).

(** The secondary cache has the line under this virtual index, or [Some] status. *)
Definition ensure_l2 (c : C) (virt phys vce err : Z) : C * option Z :=
  if l2_holds c phys then
    if negb IS_R5K && negb (pidx virt =? s_pidx (stag c (l2_index phys))) then
      if HAS_VCE then (c, Some vce) else (realias_l2_line c (l2_index phys) (pidx virt), None)
    else (c, None)
  else let '(c, ok) := fill_l2_line c phys virt in (c, if ok then None else Some err).

(** [fill_l1d_line_raw]: the way filled, or a status above 1. *)
Definition fill_l1d_line (c : C) (virt phys : Z) : C * Z :=
  let set := dc_index virt in
  let way := if IS_R5K then bool_to_Z (lru_get (dc_lru c) set) else 0 in
  let idx := if IS_R5K then set .| (way .<< dc_sets_shift g) else set in
  let c := invalidate_l1d_line (writeback_l1d c idx).1 idx in
  let '(c, st) := if has_l2 g then ensure_l2 c virt phys BUS_VCE BUS_ERR else (c, None) in
  match st with
  | Some status => (c, status)
  | None =>
      let base := line_base (dc_line_shift g) phys in
      let '(c, data) :=
        if has_l2 g then
          (c, get_chunks (l2_data c) ((l2_index phys .<< (l2_line_shift g - 3)) + ((base .& Z.ones (l2_line_shift g)) .>> 3)) dc_chunks)
        else let '(c, (_, data)) := down_read_block c base dc_chunks in (c, data) in
      let c := c <| dc_data ::= (fun m => set_chunks m (idx .<< (dc_line_shift g - 3)) data) |> in
      let c := set_dtag c idx (d_valid phys L1D_CS_CLEAN_EXCLUSIVE false) in
      let c := if IS_R5K then c <| dc_lru ::= (fun m => lru_set m (idx .& Z.ones (dc_sets_shift g)) (way .^ 1)) |> else c in
      (c, way)
  end.

Definition ensure_l1d_line (c : C) (virt phys : Z) : C * Z :=
  if IS_R5K then
    let set := dc_index virt in
    if d_matches_phys (dtag c set) phys then (c <| dc_lru ::= (fun m => lru_set m set 1) |>, 0)
    else if d_matches_phys (dtag c (set .| (1 .<< dc_sets_shift g))) phys then (c <| dc_lru ::= (fun m => lru_set m set 0) |>, 1)
    else fill_l1d_line c virt phys
  else if d_matches_phys (dtag c (dc_index virt)) phys then (c, 0) else fill_l1d_line c virt phys.

(** ** Loads and stores *)

(** [read] and [write] of a direct-mapped cache use the virtual address as the
    data address; a two-way cache derives it from the way. *)
Definition access (c : C) (virt phys : Z) : C * (Z * Z) :=
  if negb IS_R5K then
    let idx := dc_index virt in
    if d_matches_phys (dtag c idx) phys then (c, (0, virt)) else let '(c, r) := fill_l1d_line c virt phys in (c, (r, virt))
  else
    let '(c, way) := ensure_l1d_line c virt phys in (c, (way, dc_data_addr (dc_index virt .| (way .<< dc_sets_shift g)) virt)).

Definition eidx_of (virt way : Z) : Z := if IS_R5K then dc_index virt .| (way .<< dc_sets_shift g) else dc_index virt.

Definition read (c : C) (size virt phys : Z) : C * (Z * Z) :=
  let '(c, (r, da)) := access c virt phys in if 1 <? r then (c, (r, 0)) else (c, (BUS_OK, dc_read c size da)).

Definition write (c : C) (size virt phys val : Z) : C * Z :=
  let '(c, (r, da)) := access c virt phys in
  if 1 <? r then (c, r) else (mark_l1d_dirty (dc_write c size da val) (eidx_of virt r), BUS_OK).

Definition write64_masked (c : C) (virt phys val mask : Z) : C * Z :=
  let '(c, (r, da)) := access c virt phys in
  if 1 <? r then (c, r)
  else
    let current := dc_read c 8 da in
    (mark_l1d_dirty (dc_write c 8 da ((current .& bnot 64 mask) .| (val .& mask))) (eidx_of virt r), BUS_OK).

(** ** Instruction fetch *)

Definition ic_instrs_per_line : Z := 2 ^ (ic_line_shift g - 2).

Definition hit_l1i (c : C) (virt phys : Z) : option Z :=
  let set := ic_index virt in
  head (filter (fun e => i_matches_phys (itag c e) phys = true) (map (fun w => set .| (w .<< ic_sets_shift g)) (seqZ 0 (ic_ways g)))).

Definition snapshot_l1i_line (c : C) (eidx phys : Z) : C :=
  let word := (phys .& Z.ones (l2_line_shift g) .& bnot 64 (Z.ones (ic_line_shift g))) .>> 2 in
  let src := (l2_index phys .<< (l2_line_shift g - 2)) + word in
  for_each ic_instrs_per_line (fun c i =>
    c <| ic_raw ::= <[eidx * ic_instrs_per_line + i := raw (cell instr_default (l2_instrs c) (src + i))]> |>) c.

(** A two-way cache owns its decode slots: words [i] of line [base]. *)
Definition fill_ic_instrs (c : C) (eidx phys : Z) : C :=
  let slot_base := eidx .<< (ic_line_shift g - 2) in
  if has_l2 g then
    let sub := (phys .& (Z.ones (l2_line_shift g) .& bnot 64 (Z.ones (ic_line_shift g)))) .>> 3 in
    let data := get_chunks (l2_data c) ((l2_index phys .<< (l2_line_shift g - 3)) + sub) (ic_instrs_per_line / 2) in
    c <| ic_instrs ::= (fun m => set_slots m slot_base data) |>
  else
    let base := line_base (ic_line_shift g) phys in
    for_each ic_instrs_per_line (fun c i =>
      let '(b, (s, data)) := bus_read (downstream c) 4 (base + i * 4) in
      let w := if s =? BUS_OK then data else 0 in
      c <| downstream := b |>
        <| ic_instrs ::= (fun m => <[slot_base + i := slot_word (cell instr_default m (slot_base + i)) w]> m) |>) c.

Definition fill_l1i_line (c : C) (index_addr phys : Z) : C * Z :=
  let set := ic_index index_addr in
  let eidx :=
    if IS_R5K then default (set .| (bool_to_Z (lru_get (ic_lru c) set) .<< ic_sets_shift g)) (hit_l1i c index_addr phys) else set in
  let c := invalidate_l1i_line c eidx in
  let '(c, st) := if has_l2 g then ensure_l2 c index_addr phys (exec_exception EXC_VCEI) (exec_exception EXC_IBE) else (c, None) in
  match st with
  | Some status => (c, status)
  | None =>
      let c := if IS_R5K then
                 let c := fill_ic_instrs c eidx phys in
                 c <| ic_lru ::= (fun m => lru_set m set ((eidx .>> ic_sets_shift g) .^ 1)) |>
               else c in
      let c := if negb IS_R5K && has_l2 g then snapshot_l1i_line c eidx phys else c in
      (set_itag c eidx (i_valid phys), eidx .>> ic_sets_shift g)
  end.

(** Where the decode slot of a resident instruction is. *)
Definition l2_slot (phys : Z) : Z := (phys .& Z.ones (l2_line_shift g + l2_lines_shift g)) .>> 2.
Definition ic_slot (eidx virt : Z) : Z := (eidx .<< (ic_line_shift g - 2)) .| ((virt .>> 2) .& Z.ones (ic_line_shift g - 2)).

Definition fetch (c : C) (virt phys : Z) : C * (Z * DecodedInstr) :=
  let set := ic_index virt in
  let way1 := set .| (1 .<< ic_sets_shift g) in
  if IS_R5K then
    let hit c eidx := (c, (EXEC_COMPLETE, cell instr_default (ic_instrs c) (ic_slot eidx virt))) in
    if i_matches_phys (itag c set) phys then hit (c <| ic_lru ::= (fun m => lru_set m set 1) |>) set
    else if i_matches_phys (itag c way1) phys then hit (c <| ic_lru ::= (fun m => lru_set m set 0) |>) way1
    else
      let '(c, way) := fill_l1i_line c virt phys in
      if 1 <? way then (c, (way, instr_default)) else hit c (set .| (way .<< ic_sets_shift g))
  else
    let '(c, s) := if i_matches_phys (itag c set) phys then (c, 0) else fill_l1i_line c virt phys in
    if negb (s =? 0) then (c, (s, instr_default)) else (c, (EXEC_COMPLETE, cell instr_default (l2_instrs c) (l2_slot phys))).

(** The decoder writes the slot that [fetch] pointed at. *)
Definition put (c : C) (virt phys : Z) (d : DecodedInstr) : C :=
  if IS_R5K then c <| ic_instrs ::= <[ic_slot (default (ic_index virt) (hit_l1i c virt phys)) virt := d]> |>
  else c <| l2_instrs ::= <[l2_slot phys := d]> |>.

Definition l1i_word (c : C) (eidx i : Z) : Z :=
  if IS_R5K then raw (cell instr_default (ic_instrs c) ((eidx .<< (ic_line_shift g - 2)) + i))
  else cell 0 (ic_raw c) (eidx * ic_instrs_per_line + i).

Definition writeback_l1i_line (c : C) (eidx base : Z) : C :=
  let chunks := map (fun k => (l1i_word c eidx (2 * k) .<< 32) .| l1i_word c eidx (2 * k + 1)) (seqZ 0 (ic_instrs_per_line / 2)) in
  if has_l2 g && l2_holds c base then
    let si := l2_index base in
    let off := (base .& Z.ones (l2_line_shift g)) .>> 3 in
    let c := c <| l2_data ::= (fun m => set_chunks m ((si .<< (l2_line_shift g - 3)) + off) chunks) |> in
    let c := if negb IS_R5K then c <| l2_instrs ::= (fun m => set_slots m ((si .<< (l2_line_shift g - 2)) + off * 2) chunks) |> else c in
    set_stag c si ((stag c si) <| s_cs ::= dirtied |>)
  else (down_write_block c base chunks).1.

(** ** The CACHE instruction *)

Definition hit_l1d (c : C) (virt phys : Z) : option Z :=
  let set := dc_index virt in
  head (filter (fun e => d_matches_line (dtag c e) phys = true) (map (fun w => set .| (w .<< dc_sets_shift g)) (seqZ 0 (dc_ways g)))).

Definition hit_l2 (c : C) (phys : Z) : option Z := if has_l2 g && l2_holds c phys then Some (l2_index phys) else None.

Definition r10k_way_index (addr line_shift lines_shift : Z) : Z :=
  let half := 1 .<< (lines_shift - 1) in ((addr .>> line_shift) .& (half - 1)) .| ((addr .& 1) .<< (lines_shift - 1)).

Definition r10k_way_slot (addr slots : Z) : Z := let half := slots / 2 in ((addr .>> 3) .& (half - 1)) .| ((addr .& 1) * half).

(** Index_Load_Tag: the tags as TagLo. *)
Definition load_tag_l2 (t : L2Tag) : Z :=
  let state := if 4 <=? s_cs t then s_cs t else 0 in
  let fields := (state .<< 22) .| (s_pidx t .<< 19) .| s_ptag t in
  let e := if HAS_VCE then l2_tag_ecc fields else 0 in
  (s_ptag t .<< 13) .| (state .<< 10) .| (s_pidx t .<< 7) .| e.

Definition load_tag_l1i (t : L1ITag) : Z :=
  let raw_ptag := (t .>> L1_PTAG_SHIFT) .& L1_PTAG_MASK in
  let pstate := if i_is_valid t then 2 else 0 in
  let p := even_parity raw_ptag .^ (if IS_R5K then 0 else bool_to_Z (i_is_valid t)) in
  (raw_ptag .<< 8) .| (pstate .<< 6) .| p.

Definition load_tag_l1d (t : L1DTag) : Z :=
  let raw_ptag := (d_ptag t .>> L1_PTAG_SHIFT) .& L1_PTAG_MASK in
  let pstate :=
    if d_cs t =? L1D_CS_SHARED then 1
    else if d_cs t =? L1D_CS_CLEAN_EXCLUSIVE then if d_dirty t then 3 else 2
    else if d_cs t =? L1D_CS_DIRTY_EXCLUSIVE then 3
    else 0 in
  let p := even_parity raw_ptag .^ (if IS_R5K then 0 else even_parity pstate) in
  (raw_ptag .<< 8) .| (pstate .<< 6) .| p.

(** Index_Store_Tag: TagLo as a tag. *)
Definition store_tag_l2 (tag_lo : Z) : L2Tag :=
  let state := (tag_lo .>> 10) .& 7 in
  mkS ((tag_lo .>> 13) .& L2_PTAG_MASK) ((tag_lo .>> 7) .& L2_PIDX_VADDR_MASK) (if 4 <=? state then state else L2_CS_INVALID) false.

Definition store_tag_l1i (tag_lo : Z) : L1ITag :=
  let ptag_line := ((tag_lo .>> 8) .& L1_PTAG_MASK) .<< L1_PTAG_SHIFT in
  if negb ((tag_lo .>> 6) .& 3 =? 0) then i_valid ptag_line else 0.

Definition store_tag_l1d (tag_lo : Z) : L1DTag :=
  let ptag_line := ((tag_lo .>> 8) .& L1_PTAG_MASK) .<< L1_PTAG_SHIFT in
  let pstate := (tag_lo .>> 6) .& 3 in
  let cs := if pstate =? 0 then L1D_CS_INVALID
            else if pstate =? 1 then if IS_R5K then L1D_CS_CLEAN_EXCLUSIVE else L1D_CS_SHARED
            else if pstate =? 2 then L1D_CS_CLEAN_EXCLUSIVE
            else L1D_CS_DIRTY_EXCLUSIVE in
  if negb (cs =? L1D_CS_INVALID) then d_valid ptag_line cs (cs =? L1D_CS_DIRTY_EXCLUSIVE) else d_default.

Inductive Target : Type := TInsn | TData | TL2.

Definition target_of (sel : Z) : Target := if sel =? CACH_PI then TInsn else if sel =? CACH_PD then TData else TL2.

(** The line an operation names by index. *)
Definition op_index (t : Target) (operation virt phys : Z) : Z :=
  let r10k_index := R10K_CACHE_OPS && ((operation =? C_IINV) || (operation =? C_ILT) || (operation =? C_IST)) in
  match t with
  | TL2 => if r10k_index then r10k_way_index virt (l2_line_shift g) (l2_lines_shift g)
           else l2_index (if operation =? C_IST then virt else phys)
  | TInsn => if r10k_index then r10k_way_index virt (ic_line_shift g) (ic_sets_shift g)
             else if IS_R5K then ic_index virt .| (((virt .>> 14) .& 1) .<< ic_sets_shift g) else ic_index virt
  | TData => if r10k_index then r10k_way_index virt (dc_line_shift g) (dc_sets_shift g)
             else if IS_R5K then dc_index virt .| (((virt .>> 14) .& 1) .<< dc_sets_shift g) else dc_index virt
  end.

Definition writeback_invalidate_l1d (c : C) (idx : Z) : C := invalidate_l1d_line (writeback_l1d_line c idx false) idx.
Definition writeback_invalidate_l2 (c : C) (idx : Z) : C := invalidate_l2_line (writeback_l2_line c idx).1 idx.

Definition on_hit (o : option Z) (f : C -> Z -> C) (c : C) : C := match o with Some i => f c i | None => c end.

(** The R4000 operations. *)
Definition r4k_op (c : C) (t : Target) (operation virt phys : Z) : C * Z :=
  let idx := op_index t operation virt phys in
  if operation =? C_IINV then
    (match t with TInsn => invalidate_l1i_line c idx | TData => writeback_invalidate_l1d c idx | TL2 => writeback_invalidate_l2 c idx end, 0)
  else if operation =? C_ILT then
    (c, match t with TInsn => load_tag_l1i (itag c idx) | TData => load_tag_l1d (dtag c idx) | TL2 => load_tag_l2 (stag c idx) end)
  else if operation =? C_IST then
    let tag_lo := u32 phys in
    (match t with
     | TInsn => set_itag (invalidate_l1i_line c idx) idx (store_tag_l1i tag_lo)
     | TData => set_dtag (invalidate_l1d_line c idx) idx (store_tag_l1d tag_lo)
     | TL2 => set_stag (invalidate_l2_line c idx) idx (store_tag_l2 tag_lo)
     end, 0)
  else if operation =? C_CDX then
    (match t with
     | TInsn => c
     | TData => set_dtag (writeback_l1d_line c idx false) idx (d_valid phys L1D_CS_DIRTY_EXCLUSIVE true)
     | TL2 => set_stag (writeback_invalidate_l2 c idx) idx (mkS (l2_ptag phys) (pidx virt) L2_CS_DIRTY_EXCLUSIVE false)
     end, 0)
  else if operation =? C_HINV then
    (match t with
     | TInsn => on_hit (hit_l1i c virt phys) invalidate_l1i_line c
     | TData => on_hit (hit_l1d c virt phys) invalidate_l1d_line c
     | TL2 => on_hit (hit_l2 c phys) invalidate_l2_line c
     end, 0)
  else if operation =? C_HWBINV then
    (match t with
     | TInsn => (fill_l1i_line c virt phys).1
     | TData => on_hit (hit_l1d c virt phys) writeback_invalidate_l1d c
     | TL2 => on_hit (hit_l2 c phys) writeback_invalidate_l2 c
     end, 0)
  else if operation =? C_HWB then
    (match t with
     | TInsn => on_hit (hit_l1i c virt phys) (fun c e => writeback_l1i_line c e (line_base (ic_line_shift g) phys)) c
     | TData => on_hit (hit_l1d c virt phys) (fun c e => writeback_l1d_line c e false) c
     | TL2 => on_hit (hit_l2 c phys) (fun c i => (writeback_l2_line c i).1) c
     end, 0)
  else if operation =? C_HSV then
    (match t with
     | TL2 => if s_ptag (stag c idx) =? l2_ptag phys then set_stag c idx ((stag c idx) <| s_pidx := pidx virt |>) else c
     | _ => c
     end, 0)
  else (c, 0).

Definition cache_op (c : C) (op virt phys : Z) : C * Z :=
  let sel := op .& 3 in
  let operation := op .& 0x1C in
  if R10K_CACHE_OPS && (operation =? C_R10K_CBARRIER) && (sel =? CACH_PI) then (c, 0)
  else if R10K_CACHE_OPS && (operation =? C_R10K_ILD) && ((sel =? CACH_PI) || (sel =? CACH_PD) || (sel =? CACH_SD)) then
    (c, if (sel =? CACH_SD) && has_l2 g
        then cell 0 (l2_data c) (r10k_way_slot virt (2 ^ (l2_line_shift g + l2_lines_shift g - 3)))
        else cell 0 (dc_data c) (r10k_way_slot virt (dc_bytes / 8)))
  else if R10K_CACHE_OPS && (operation =? C_R10K_ISD) && is_secondary sel then
    (if has_l2 g then c <| l2_data ::= <[r10k_way_slot virt (2 ^ (l2_line_shift g + l2_lines_shift g - 3)) := u64 phys]> |> else c, 0)
  else if is_secondary sel && negb (has_l2 g) then (c, 0)
  else r4k_op c (target_of sel) operation virt phys.

(** ** Cleaning *)

Definition writeback_dc_eidx (c : C) (eidx : Z) : C * Z :=
  if d_dirty (dtag c eidx) then (writeback_l1d_line c eidx true, 1) else (c, 0).

(** Every index a physical line can have in a virtually indexed cache. *)
Definition writeback_dc_phys_line (c : C) (phys_line : Z) : C * Z :=
  let base_idx := dc_index phys_line in
  let low := 12 - dc_line_shift g in
  let num_aliases := 2 ^ Z.max 0 (dc_sets_shift g - low) in
  let alias_mask := (num_aliases - 1) .<< low in
  for_each num_aliases (fun cn alias =>
    let set := (base_idx .& bnot 64 alias_mask) .| (alias .<< low) in
    for_each (dc_ways g) (fun '(c, n) way =>
      let eidx := set .| (way .<< dc_sets_shift g) in
      if d_dirty (dtag c eidx) && d_matches_line (dtag c eidx) phys_line then (writeback_l1d_line c eidx true, n + 1) else (c, n)) cn) (c, 0).

(** Lines of [2 ^ shift] bytes from [start] to the one below [stop]. *)
Definition lines_between (shift start stop : Z) : Z := (stop - start + 2 ^ shift - 1) / 2 ^ shift.

Definition writeback_range (c : C) (virt : option Z) (phys size : Z) : C * Z :=
  if size =? 0 then (c, 0)
  else
    let start := line_base (dc_line_shift g) phys in
    let stop := phys + size in
    let n := lines_between (dc_line_shift g) start stop in
    let cn :=
      match virt with
      | Some va => for_each n (fun '(c, k) i =>
          let off := i .<< dc_line_shift g in
          match hit_l1d c (line_base (dc_line_shift g) va + off) (start + off) with
          | Some eidx => let '(c, d) := writeback_dc_eidx c eidx in (c, k + d)
          | None => (c, k)
          end) (c, 0)
      | None => for_each n (fun '(c, k) i => let '(c, d) := writeback_dc_phys_line c (start + (i .<< dc_line_shift g)) in (c, k + d)) (c, 0)
      end in
    if has_l2 g then
      let start := line_base (l2_line_shift g) phys in
      for_each (lines_between (l2_line_shift g) start stop) (fun '(c, k) i =>
        match hit_l2 c (start + (i .<< l2_line_shift g)) with
        | Some idx =>
            let cs := s_cs (stag c idx) in
            if (cs =? L2_CS_DIRTY_EXCLUSIVE) || (cs =? L2_CS_DIRTY_SHARED) then ((writeback_l2_line c idx).1, k + 1) else (c, k)
        | None => (c, k)
        end) cn
    else cn.

Definition writeback_all (c : C) : C :=
  let c := for_each (dc_ways g * 2 ^ dc_sets_shift g) (fun c e => if d_is_valid (dtag c e) then writeback_l1d_line c e false else c) c in
  if has_l2 g then for_each (2 ^ l2_lines_shift g) (fun c i => (writeback_l2_line c i).1) c else c.

Definition power_on (c : C) : C :=
  let blank (m : gmap Z DecodedInstr) := (fun d => slot_word d 0) <$> m in
  c <| ic_tags := ∅ |> <| dc_tags := ∅ |> <| dc_data := ∅ |> <| l2_tags := ∅ |> <| l2_data := ∅ |>
    <| ic_instrs ::= (fun m => if IS_R5K then blank m else m) |> <| l2_instrs ::= (fun m => if IS_R5K then m else blank m) |>
    <| ic_lru ::= (fun m => if IS_R5K then ∅ else m) |> <| dc_lru ::= (fun m => if IS_R5K then ∅ else m) |>
    <| llbit := false |> <| lladdr := 0 |>.

Definition down_read (c : C) (size pa : Z) : C * (Z * Z) :=
  let '(b, r) := bus_read (downstream c) size pa in (c <| downstream := b |>, r).
Definition down_write (c : C) (size pa val : Z) : C * Z :=
  let '(b, s) := bus_write (downstream c) size pa val in (c <| downstream := b |>, s).
Definition down_write64_masked (c : C) (pa val mask : Z) : C * Z :=
  let '(b, s) := bus_write64_masked (downstream c) pa val mask in (c <| downstream := b |>, s).

End Cache.

(** The executor's view of a cache of this geometry.  The check bits, the
    cache error and the compare-and-swap of RAM are other builds'. *)
Definition cache_busops {B} `{BusOps B} : BusOps (CpuCache B) := {|
  bus_read := down_read;
  bus_write := down_write;
  bus_write64_masked := down_write64_masked;
|}.

Definition cache_memops (g : Geom) {B} `{BusOps B} : MemOps (CpuCache B) := {|
  mem_bus := cache_busops;
  cache_fetch := fetch g;
  cache_put := put g;
  cache_read := read g;
  cache_write := write g;
  cache_write64_masked := write64_masked g;
  CpuExec.cache_op := cache_op g;
  cache_op_ecc := fun _ => 0;
  set_cache_ecc := fun c v => c <| ecc := u8 v |>;
  take_cache_err := fun c => (c, 0);
  get_llbit := llbit;
  set_llbit := fun c v => c <| llbit := v |>;
  set_lladdr := fun c a => c <| lladdr := a |>;
  cas_ram := fun c _ _ _ _ => (c, None);
|}.

End CpuCache.
