(* ===== verification/CacheProofs.v ===== *)
(** * The caches as memory

    The addresses that indices and tags stand for, lines as lists of chunks,
    block transfers, and [RamBus], what the caches rely on of the memory
    behind them. *)

From S2P Require Import Prelude CpuDecode CpuExec CpuInstr CpuCache.
Import CpuDecode CpuExec CpuInstr CpuCache.

#[local] Open Scope Z_scope.
#[local] Open Scope word_scope.

Module CacheProofs.

(** ** Addresses *)

(** The models whose secondary cache includes the primary ones. *)
Definition inclusive (g : Geom) : Prop := g = R4400 \/ g = R10000.

(** A physical address. *)
Definition phys_ok (a : Z) : Prop := 0 <= a < 2 ^ 36.

Lemma land_bnot_ones k x : 0 <= k -> fits 64 x -> x .& bnot 64 (Z.ones k) = x - x mod 2 ^ k.
Proof.
  intros Hk Hx. rewrite <- (Z.land_ones x k Hk). symmetry. apply Z.bits_inj'. intros i Hi.
  assert (Hsub : x - Z.land x (Z.ones k) = Z.ldiff x (Z.land x (Z.ones k))).
  { apply Z.sub_nocarry_ldiff. apply Z.bits_inj'. intros j Hj. rewrite Z.ldiff_spec, Z.land_spec, Z.bits_0. by destruct (Z.testbit x j), (Z.testbit (Z.ones k) j). }
  rewrite Hsub. unfold bnot. rewrite Z.ldiff_spec, !Z.land_spec, Z.lnot_spec by lia.
  rewrite (ones_testbit 64) by lia. destruct (Z.ltb_spec i 64).
  - destruct (Z.testbit x i), (Z.testbit (Z.ones k) i); done.
  - by rewrite (fits_testbit 64 x i) by (done || lia).
Qed.

Lemma page_tag_eq a : fits 64 a -> page_tag a = a / 4096 * 4096 + 1.
Proof.
  intros Ha. unfold page_tag. change 0xFFF with (Z.ones 12). rewrite land_bnot_ones by (done || lia).
  assert (Hq : a - a mod 2 ^ 12 = a / 2 ^ 12 * 2 ^ 12) by (rewrite Z.mod_eq by done; lia).
  rewrite Hq. change 4096 with (2 ^ 12). apply lor_block; [lia|]. by split.
Qed.

Lemma phys_fits a : phys_ok a -> fits 64 a.
Proof. unfold phys_ok, fits. intros [? ?]. split; [done|]. etransitivity; [eassumption|]. by apply Z.pow_lt_mono_r. Qed.

#[local] Hint Resolve phys_fits : core.

Lemma page_tag_inj a b : fits 64 a -> fits 64 b -> page_tag a = page_tag b <-> a / 4096 = b / 4096.
Proof. intros Ha Hb. rewrite !page_tag_eq by done. lia. Qed.

Lemma page_tag_fast a : fits 64 a -> page_tag a .& bnot 64 SLOW = page_tag a.
Proof.
  intros Ha. assert (Hf : fits 64 (page_tag a)).
  { unfold page_tag. apply lor_fits; [done|by apply land_fits_l|done]. }
  rewrite page_tag_eq in * by done. set (t := a / 4096) in *. apply Z.bits_inj'. intros i Hi. unfold bnot, SLOW.
  rewrite !Z.land_spec, Z.lnot_spec by done. rewrite (ones_testbit 64) by lia.
  destruct (Z.ltb_spec i 64); [|by rewrite (fits_testbit 64 _ i) by (done || lia)]. rewrite andb_true_r.
  change 2 with (2 ^ 1). rewrite pow2_testbit by done. destruct (Z.eqb_spec 1 i) as [<-|]; [|by rewrite andb_true_r].
  rewrite andb_false_r. symmetry. rewrite Z.testbit_odd, Z.shiftr_div_pow2 by done.
  replace ((t * 4096 + 1) / 2 ^ 1) with (2 * (t * 1024)) by (Z.to_euclidean_division_equations; lia).
  by rewrite Z.odd_mul.
Qed.

Lemma page_tag_valid a : fits 64 a -> negb (page_tag a .& 1 =? 0) = true.
Proof.
  intros Ha. rewrite page_tag_eq by done. change 1 with (Z.ones 1) at 2. rewrite Z.land_ones by done.
  replace ((a / 4096 * 4096 + 1) mod 2 ^ 1) with 1; [done|]. Z.to_euclidean_division_equations. lia.
Qed.

Lemma tag_page_of a : fits 64 a -> page_tag a .& bnot 64 0xFFF = a / 4096 * 4096.
Proof.
  intros Ha. rewrite page_tag_eq by done. change 0xFFF with (Z.ones 12).
  rewrite land_bnot_ones by (done || (unfold fits in *; Z.to_euclidean_division_equations; lia)).
  Z.to_euclidean_division_equations. lia.
Qed.

Lemma land_ones_shift a k n : 0 <= k -> 0 <= n -> (a .>> k) .& Z.ones n = (a / 2 ^ k) mod 2 ^ n.
Proof. intros Hk Hn. by rewrite Z.land_ones, Z.shiftr_div_pow2 by done. Qed.

(** The index a line used under virtual index [p] has in the data cache. *)
Definition vaddr (p a : Z) : Z := p * 4096 + a mod 4096.

(** The two geometries, and powers of their shifts as numbers. *)
Ltac geom Hg := destruct Hg as [->| ->];
  cbn [R4400 R10000 ic_line_shift ic_sets_shift dc_line_shift dc_sets_shift l2_line_shift l2_lines_shift] in *.

Ltac pow2 := repeat match goal with
  | |- context [2 ^ ?k] => let v := eval vm_compute in (2 ^ k) in change (2 ^ k) with v
  | H : context [2 ^ ?k] |- _ => let v := eval vm_compute in (2 ^ k) in change (2 ^ k) with v in H end.

Ltac divmod := pow2; Z.to_euclidean_division_equations; lia.

Lemma dc_index_eq g a : inclusive g -> dc_index g a = (a / 2 ^ dc_line_shift g) mod 2 ^ dc_sets_shift g.
Proof. intros Hg. unfold dc_index. apply land_ones_shift; by geom Hg. Qed.

Lemma l2_index_eq g a : inclusive g -> l2_index g a = (a / 2 ^ l2_line_shift g) mod 2 ^ l2_lines_shift g.
Proof. intros Hg. unfold l2_index. apply land_ones_shift; by geom Hg. Qed.

Lemma l2_ptag_eq a : phys_ok a -> l2_ptag a = a / 2 ^ 17.
Proof.
  intros [? ?]. unfold l2_ptag, L2_PTAG_SHIFT. change L2_PTAG_MASK with (Z.ones 19). rewrite land_ones_shift by done.
  apply Z.mod_small. divmod.
Qed.

Lemma pidx_eq v : pidx v = (v / 4096) mod 8.
Proof. unfold pidx, L2_PIDX_VADDR_SHIFT. change L2_PIDX_VADDR_MASK with (Z.ones 3). by rewrite land_ones_shift. Qed.

Lemma pidx_range v : 0 <= pidx v < 8.
Proof. rewrite pidx_eq. by apply Z.mod_pos_bound. Qed.

(** Index and tag name a line. *)
Lemma same_line g a b : inclusive g -> phys_ok a -> phys_ok b -> l2_index g a = l2_index g b -> l2_ptag a = l2_ptag b ->
  a / 2 ^ l2_line_shift g = b / 2 ^ l2_line_shift g.
Proof.
  intros Hg Ha Hb. rewrite !l2_index_eq, !l2_ptag_eq by done. unfold phys_ok in *. geom Hg; divmod.
Qed.

Lemma line_index g a b : inclusive g -> a / 2 ^ l2_line_shift g = b / 2 ^ l2_line_shift g -> l2_index g a = l2_index g b.
Proof. intros Hg He. rewrite !l2_index_eq by done. by rewrite He. Qed.

Lemma line_ptag g a b : inclusive g -> phys_ok a -> phys_ok b -> a / 2 ^ l2_line_shift g = b / 2 ^ l2_line_shift g -> l2_ptag a = l2_ptag b.
Proof. intros Hg Ha Hb He. rewrite !l2_ptag_eq by done. geom Hg; divmod. Qed.

Lemma same_block g p q a b : inclusive g -> a / 4096 = b / 4096 -> dc_index g (vaddr p a) = dc_index g (vaddr q b) -> a / 2 ^ dc_line_shift g = b / 2 ^ dc_line_shift g.
Proof. intros Hg He. rewrite !dc_index_eq by done. unfold vaddr. geom Hg; divmod. Qed.

Lemma block_line g a b : inclusive g -> a / 2 ^ dc_line_shift g = b / 2 ^ dc_line_shift g -> a / 2 ^ l2_line_shift g = b / 2 ^ l2_line_shift g.
Proof. intros Hg He. geom Hg; divmod. Qed.

Lemma block_page g a b : inclusive g -> a / 2 ^ dc_line_shift g = b / 2 ^ dc_line_shift g -> a / 4096 = b / 4096.
Proof. intros Hg He. geom Hg; divmod. Qed.

Lemma block_vaddr g p a b : inclusive g -> a / 2 ^ dc_line_shift g = b / 2 ^ dc_line_shift g ->
  dc_index g (vaddr p a) = dc_index g (vaddr p b).
Proof. intros Hg He. rewrite !dc_index_eq by done. unfold vaddr. geom Hg; divmod. Qed.

(** The address a data-cache tag and its index stand for. *)
Lemma l1d_phys g p a t : inclusive g -> 0 <= p < 8 -> phys_ok a -> a mod 2 ^ dc_line_shift g = 0 -> d_ptag t = page_tag a ->
  l1d_tag_to_phys t (dc_index g (vaddr p a) .<< dc_line_shift g) = a.
Proof.
  intros Hg Hp Ha Hal Ht. unfold l1d_tag_to_phys, d_line_addr. rewrite Ht, tag_page_of by auto.
  unfold L1_INDEX_MASK. change 0xFFF with (Z.ones 12). rewrite Z.land_ones, Z.shiftl_mul_pow2 by (geom Hg; done).
  rewrite dc_index_eq by done. change 4096 with (2 ^ 12) at 1 2. rewrite lor_block; [|done|apply Z.mod_pos_bound; done].
  unfold vaddr. geom Hg; divmod.
Qed.

(** The address a secondary tag and its index stand for. *)
Lemma l2_phys g a t : inclusive g -> phys_ok a -> a mod 2 ^ l2_line_shift g = 0 -> s_ptag t = l2_ptag a ->
  l2_tag_to_phys t (l2_index g a .<< l2_line_shift g) = a.
Proof.
  intros Hg Ha Hal Ht. unfold l2_tag_to_phys, L2_PTAG_SHIFT. rewrite Ht, l2_ptag_eq by done.
  change L2_INDEX_MASK with (Z.ones 17). rewrite Z.land_ones, !Z.shiftl_mul_pow2 by (geom Hg; done).
  rewrite l2_index_eq by done. rewrite lor_block; [|done|apply Z.mod_pos_bound; done]. geom Hg; divmod.
Qed.

(** Sub-line [k] of a secondary line used under [p]. *)
Lemma sub_index g p a k : inclusive g -> 0 <= p < 8 -> phys_ok a -> a mod 2 ^ l2_line_shift g = 0 ->
  0 <= k < 2 ^ (l2_line_shift g - dc_line_shift g) ->
  (l2_idx_to_l1_base_idx g (l2_index g a) p (dc_line_shift g) (dc_sets_shift g) + k) .& Z.ones (dc_sets_shift g) =
  dc_index g (vaddr p (a + k * 2 ^ dc_line_shift g)).
Proof.
  intros Hg Hp Ha Hal Hk. unfold l2_idx_to_l1_base_idx, L2_PIDX_VADDR_SHIFT. change 0xFFF with (Z.ones 12).
  rewrite !Z.land_ones, !Z.shiftr_div_pow2, !Z.shiftl_mul_pow2 by (geom Hg; done).
  rewrite lor_block; [|done|apply Z.mod_pos_bound; done]. rewrite dc_index_eq, l2_index_eq by done. unfold vaddr.
  geom Hg; divmod.
Qed.

(** The index under which a virtual address reaches a line. *)
Lemma virt_index g v a : inclusive g -> 0 <= v -> v mod 4096 = a mod 4096 -> dc_index g v = dc_index g (vaddr (pidx v) a).
Proof. intros Hg Hv He. rewrite !dc_index_eq, pidx_eq by done. unfold vaddr. geom Hg; divmod. Qed.

(** The same for instruction lines. *)
Lemma ic_index_eq g a : inclusive g -> ic_index g a = (a / 2 ^ ic_line_shift g) mod 2 ^ ic_sets_shift g.
Proof. intros Hg. unfold ic_index. apply land_ones_shift; by geom Hg. Qed.

Lemma sub_iindex g p a k : inclusive g -> 0 <= p < 8 -> phys_ok a -> a mod 2 ^ l2_line_shift g = 0 ->
  0 <= k < 2 ^ (l2_line_shift g - ic_line_shift g) ->
  (l2_idx_to_l1_base_idx g (l2_index g a) p (ic_line_shift g) (ic_sets_shift g) + k) .& Z.ones (ic_sets_shift g) =
  ic_index g (vaddr p (a + k * 2 ^ ic_line_shift g)).
Proof.
  intros Hg Hp Ha Hal Hk. unfold l2_idx_to_l1_base_idx, L2_PIDX_VADDR_SHIFT. change 0xFFF with (Z.ones 12).
  rewrite !Z.land_ones, !Z.shiftr_div_pow2, !Z.shiftl_mul_pow2 by (geom Hg; done).
  rewrite lor_block; [|done|apply Z.mod_pos_bound; done]. rewrite ic_index_eq, l2_index_eq by done. unfold vaddr.
  geom Hg; divmod.
Qed.

Lemma virt_iindex g v a : inclusive g -> 0 <= v -> v mod 4096 = a mod 4096 -> ic_index g v = ic_index g (vaddr (pidx v) a).
Proof. intros Hg Hv He. rewrite !ic_index_eq, pidx_eq by done. unfold vaddr. geom Hg; divmod. Qed.

Lemma same_iline g p q a b : inclusive g -> a / 4096 = b / 4096 -> ic_index g (vaddr p a) = ic_index g (vaddr q b) -> a / 2 ^ l2_line_shift g = b / 2 ^ l2_line_shift g.
Proof. intros Hg He. rewrite !ic_index_eq by done. unfold vaddr. geom Hg; divmod. Qed.

(** Instruction line [k] of a secondary line. *)
Lemma line_iblock g a x : inclusive g -> phys_ok a -> a mod 2 ^ l2_line_shift g = 0 -> x / 2 ^ l2_line_shift g = a / 2 ^ l2_line_shift g ->
  let k := (x - a) / 2 ^ ic_line_shift g in let y := a + k * 2 ^ ic_line_shift g in
  0 <= k < 2 ^ (l2_line_shift g - ic_line_shift g) /\ phys_ok y /\ x / 4096 = y / 4096 /\ forall p, ic_index g (vaddr p x) = ic_index g (vaddr p y).
Proof.
  intros Hg Ha Hal He. cbn zeta. unfold phys_ok in *. split; [geom Hg; divmod|]. split; [geom Hg; divmod|]. split; [geom Hg; divmod|].
  intros p. rewrite !ic_index_eq by done. unfold vaddr. geom Hg; divmod.
Qed.

(** The doubleword of an address within its line. *)
Definition off1 (g : Geom) (a : Z) : Z := (a mod 2 ^ dc_line_shift g) / 8.
Definition off2 (g : Geom) (a : Z) : Z := (a mod 2 ^ l2_line_shift g) / 8.

Lemma off1_range g a : inclusive g -> 0 <= off1 g a < dc_chunks g.
Proof. intros Hg. unfold off1, dc_chunks. geom Hg; divmod. Qed.

Lemma off2_range g a : inclusive g -> 0 <= off2 g a < l2_chunks g.
Proof. intros Hg. unfold off2, l2_chunks. geom Hg; divmod. Qed.

(** A block of the secondary line, doubleword by doubleword. *)
Lemma off2_block g x a : inclusive g -> x / 2 ^ l2_line_shift g = a / 2 ^ l2_line_shift g -> a mod 2 ^ dc_line_shift g = 0 ->
  off2 g a <= off2 g x < off2 g a + dc_chunks g <-> x / 2 ^ dc_line_shift g = a / 2 ^ dc_line_shift g.
Proof. intros Hg. unfold off2, dc_chunks. geom Hg; divmod. Qed.

Lemma off2_off1 g x a : inclusive g -> x / 2 ^ dc_line_shift g = a / 2 ^ dc_line_shift g -> a mod 2 ^ dc_line_shift g = 0 ->
  off2 g x = off2 g a + off1 g x.
Proof. intros Hg. unfold off1, off2. geom Hg; divmod. Qed.

Lemma off2_fit g a : inclusive g -> a mod 2 ^ dc_line_shift g = 0 -> off2 g a + dc_chunks g <= l2_chunks g.
Proof. intros Hg. unfold off2, dc_chunks, l2_chunks. geom Hg; divmod. Qed.

(** ** Arrays *)

Lemma cell_insert {A} (d : A) m i x j : cell d (<[i := x]> m) j = if j =? i then x else cell d m j.
Proof.
  unfold cell. destruct (Z.eqb_spec j i) as [->|Hne]; [by rewrite lookup_insert_eq|by rewrite lookup_insert_ne].
Qed.

Lemma cell_empty {A} (d : A) j : cell d ∅ j = d.
Proof. unfold cell. by rewrite lookup_empty. Qed.

Lemma set_chunks_cell l : forall m base j, cell 0 (set_chunks m base l) j =
  if (base <=? j) && (j <? base + Z.of_nat (length l)) then default 0 (l !! Z.to_nat (j - base)) else cell 0 m j.
Proof.
  induction l as [|x l IH]; intros m base j; cbn [set_chunks length].
  - destruct (Z.leb_spec base j), (Z.ltb_spec j (base + Z.of_nat 0)); cbn [andb]; done || lia.
  - rewrite IH, cell_insert. destruct (Z.eqb_spec j base) as [->|Hne].
    + destruct (Z.leb_spec (base + 1) base); [lia|]. cbn [andb]. destruct (Z.leb_spec base base); [|lia].
      destruct (Z.ltb_spec base (base + Z.of_nat (S (length l)))); [|lia]. cbn [andb]. by rewrite Z.sub_diag.
    + destruct (Z.leb_spec (base + 1) j), (Z.leb_spec base j); cbn [andb]; try lia.
      replace (base + 1 + Z.of_nat (length l)) with (base + Z.of_nat (S (length l))) by lia. case_match; [|done].
      replace (Z.to_nat (j - base)) with (S (Z.to_nat (j - (base + 1)))) by lia. done.
Qed.

Lemma get_chunks_length m b n : 0 <= n -> Z.of_nat (length (get_chunks m b n)) = n.
Proof. intros Hn. unfold get_chunks. rewrite length_map, length_seqZ. lia. Qed.

Lemma get_chunks_lookup m b n k : 0 <= k < n -> get_chunks m b n !! Z.to_nat k = Some (cell 0 m (b + k)).
Proof.
  intros Hk. unfold get_chunks. rewrite list_lookup_fmap, lookup_seqZ_lt by lia. cbn. do 3 f_equal. lia.
Qed.

(** A block copied from one array to another. *)
Lemma copy_cell m m' base b n j : 0 <= n -> cell 0 (set_chunks m base (get_chunks m' b n)) j =
  if (base <=? j) && (j <? base + n) then cell 0 m' (b + (j - base)) else cell 0 m j.
Proof.
  intros Hn. rewrite set_chunks_cell, get_chunks_length by done. case_match eqn:E; [|done].
  apply andb_prop in E as [E1%Z.leb_le E2%Z.ltb_lt]. by rewrite get_chunks_lookup by lia.
Qed.

(** A doubleword of a line of a data array. *)
Definition lcell (m : gmap Z Z) (n i o : Z) : Z := cell 0 m (i * n + o).

Lemma lcell_neq n i o i' o' : 0 <= o < n -> 0 <= o' < n -> i * n + o = i' * n + o' -> i = i' /\ o = o'.
Proof. intros Ho Ho' He. assert (i = i') by nia. split; [done|nia]. Qed.

Lemma copy_lcell m m' n i off k b j o : 0 <= off -> 0 <= k -> off + k <= n -> 0 <= o < n ->
  lcell (set_chunks m (i * n + off) (get_chunks m' b k)) n j o =
  if (j =? i) && (off <=? o) && (o <? off + k) then cell 0 m' (b + (o - off)) else lcell m n j o.
Proof.
  intros Hoff Hk Hn Ho. unfold lcell. rewrite copy_cell by done.
  destruct (Z.eqb_spec j i) as [->|Hne]; cbn [andb].
  - destruct (Z.leb_spec (i * n + off) (i * n + o)), (Z.leb_spec off o); cbn [andb]; try lia.
    destruct (Z.ltb_spec (i * n + o) (i * n + off + k)), (Z.ltb_spec o (off + k)); try lia. f_equal. lia.
  - case_match eqn:E; [|done]. apply andb_prop in E as [E1%Z.leb_le E2%Z.ltb_lt]. exfalso.
    destruct (Z.lt_total i j) as [H|[H|H]]; [nia|done|nia].
Qed.

(** A loop keeps what each turn keeps. *)
Lemma for_each_ind {S} (P : Z -> S -> Prop) (f : S -> Z -> S) n s : 0 <= n -> P 0 s ->
  (forall i s, 0 <= i < n -> P i s -> P (i + 1) (f s i)) -> P n (for_each n f s).
Proof.
  intros Hn H0 Hs. unfold for_each. cut (forall k, 0 <= k -> k <= n -> P k (foldl f s (seqZ 0 k))); [auto with lia|].
  intros k Hk. pattern k. apply natlike_ind; [done| |done]. intros i Hi IH Hin. unfold Z.succ.
  rewrite seqZ_snoc, foldl_app by done. cbn. apply Hs; [lia|]. apply IH. lia.
Qed.

(** The blocks of a secondary line. *)
Lemma line_blocks g a x : inclusive g -> a mod 2 ^ l2_line_shift g = 0 -> x / 2 ^ l2_line_shift g = a / 2 ^ l2_line_shift g ->
  exists j, 0 <= j < 2 ^ (l2_line_shift g - dc_line_shift g) /\ x / 2 ^ dc_line_shift g = (a + j * 2 ^ dc_line_shift g) / 2 ^ dc_line_shift g.
Proof. intros Hg Hal He. exists ((x - a) / 2 ^ dc_line_shift g). geom Hg; divmod. Qed.

Lemma block_in_line g a j : inclusive g -> phys_ok a -> a mod 2 ^ l2_line_shift g = 0 -> 0 <= j < 2 ^ (l2_line_shift g - dc_line_shift g) ->
  phys_ok (a + j * 2 ^ dc_line_shift g) /\ (a + j * 2 ^ dc_line_shift g) / 2 ^ l2_line_shift g = a / 2 ^ l2_line_shift g.
Proof. intros Hg Ha Hal Hj. unfold phys_ok in *. geom Hg; divmod. Qed.

(** ** Memory behind the cache *)

(** What the cache relies on of the bus: [ram] addresses hold the last word
    written to them, in units of the 128 bytes a secondary line has; whatever
    else answers on the bus leaves them alone. *)
Class RamBus (B : Type) `{BusOps B} := {
  ram : Z -> bool;
  word_at : B -> Z -> Z;
  ram_phys a : ram a = true -> phys_ok a;
  ram_line a b : a / 128 = b / 128 -> ram a = ram b;
  word_fits b a : fits 32 (word_at b a);
  ram_read b a : ram a = true -> a mod 4 = 0 -> bus_read b 4 a = (b, (BUS_OK, word_at b a));
  ram_write b a v : ram a = true -> a mod 4 = 0 -> fits 32 v ->
    exists b', bus_write b 4 a v = (b', BUS_OK) /\ word_at b' a = v /\
      forall x, ram x = true -> x mod 4 = 0 -> x <> a -> word_at b' x = word_at b x;
  read_fits b a b' s d : bus_read b 4 a = (b', (s, d)) -> fits 32 d;
  dev_read b a b' r : ram a = false -> bus_read b 4 a = (b', r) -> forall x, ram x = true -> x mod 4 = 0 -> word_at b' x = word_at b x;
  dev_write b a v b' r : ram a = false -> a mod 4 = 0 -> bus_write b 4 a v = (b', r) -> forall x, ram x = true -> x mod 4 = 0 -> word_at b' x = word_at b x;
}.

Section Bus.

Context {B : Type} `{HB : BusOps B} {HR : RamBus B}.

Definition mem64 (b : B) (a : Z) : Z := (word_at b a .<< 32) .| word_at b (a + 4).

Lemma join_fits hi lo : fits 32 hi -> fits 32 lo -> fits 64 ((hi .<< 32) .| lo).
Proof.
  intros H1 H2. apply lor_fits; [done| |by eapply fits_mono]. rewrite Z.shiftl_mul_pow2 by done. unfold fits in *. lia.
Qed.

Lemma mem64_fits b a : fits 64 (mem64 b a).
Proof. apply join_fits; apply word_fits. Qed.

(** What a block read returns, whoever answers. *)
Lemma read_block_fits n : forall b a b' s l, read_block b a n = (b', (s, l)) -> Forall (fits 64) l /\ (length l <= n)%nat.
Proof.
  induction n as [|n IH]; intros b a b' s l Hr; cbn [read_block] in Hr; [injection Hr as _ _ <-; split; [constructor|done]|].
  destruct (bus_read b 4 a) as [b1 [s1 hi]] eqn:E1. destruct (negb (s1 =? BUS_OK)); [injection Hr as _ _ <-; split; [constructor|cbn; lia]|].
  destruct (bus_read b1 4 _) as [b2 [s2 lo]] eqn:E2. destruct (negb (s2 =? BUS_OK)); [injection Hr as _ _ <-; split; [constructor|cbn; lia]|].
  destruct (read_block b2 _ n) as [b3 [s3 l3]] eqn:E3. injection Hr as _ _ <-. destruct (IH _ _ _ _ _ E3) as [Hf Hl].
  split; [constructor; [|done]|cbn; lia]. apply join_fits; by eapply read_fits.
Qed.

Lemma join_words v : fits 64 v -> (hi_word v .<< 32) .| lo_word v = v.
Proof.
  intros Hv. unfold hi_word, lo_word, u32, wrap. rewrite Z.shiftl_mul_pow2, Z.shiftr_div_pow2 by done.
  unfold fits in Hv. rewrite (Z.mod_small (v / 2 ^ 32)) by divmod.
  rewrite lor_block; [|done|apply Z.mod_pos_bound; done]. divmod.
Qed.

Lemma u64_small x : 0 <= x < 2 ^ 64 -> u64 x = x.
Proof. intros. by apply wrap_small. Qed.

(** Reads of a block: RAM answers with its contents, anything else leaves RAM
    as it was. *)
Lemma read_block_ram n : forall b a, a mod 8 = 0 -> 0 <= a -> a + 8 * Z.of_nat n <= 2 ^ 36 ->
  (forall x, a <= x < a + 8 * Z.of_nat n -> ram x = true) ->
  read_block b a n = (b, (BUS_OK, map (fun k => mem64 b (a + 8 * k)) (seqZ 0 (Z.of_nat n)))).
Proof.
  induction n as [|n IH]; intros b a Hal Ha Hb Hram; [done|]. cbn [read_block].
  rewrite ram_read by (try apply Hram; divmod). cbn [negb Z.eqb]. rewrite Z.eqb_refl. cbn [negb].
  rewrite u64_small by (pow2; lia). rewrite ram_read by (try apply Hram; divmod). rewrite Z.eqb_refl. cbn [negb].
  rewrite u64_small by (pow2; lia). rewrite IH by (try (intros; apply Hram; lia); pow2; divmod).
  rewrite (seqZ_cons 0 (Z.of_nat (S n))) by lia. cbn [map]. unfold mem64 at 2. rewrite Z.mul_0_r, Z.add_0_r. do 3 f_equal.
  replace (Z.pred (Z.of_nat (S n))) with (Z.of_nat n) by lia. change (Z.succ 0) with (1 + 0). rewrite <- (fmap_add_seqZ 1 0).
  etransitivity; [|exact (list_fmap_compose (Z.add 1) (fun k => mem64 b (a + 8 * k)) (seqZ 0 (Z.of_nat n)))].
  apply map_ext. intros k. cbn. f_equal. lia.
Qed.

Lemma read_block_dev n : forall b a b' r, (forall x, a <= x < a + 8 * Z.of_nat n -> ram x = false) ->
  0 <= a -> a + 8 * Z.of_nat n <= 2 ^ 36 -> read_block b a n = (b', r) -> forall x, ram x = true -> x mod 4 = 0 -> word_at b' x = word_at b x.
Proof.
  induction n as [|n IH]; intros b a b' r Hd Ha Hb Hr x Hx Hx4; [by injection Hr as <- _|]. cbn [read_block] in Hr.
  destruct (bus_read b 4 a) as [b1 [s1 hi]] eqn:E1. pose proof (dev_read _ _ _ _ (Hd a ltac:(lia)) E1 x Hx Hx4) as W1.
  destruct (negb (s1 =? BUS_OK)); [by injection Hr as <- _|].
  rewrite u64_small in Hr by (pow2; lia). destruct (bus_read b1 4 (a + 4)) as [b2 [s2 lo]] eqn:E2.
  pose proof (dev_read _ _ _ _ (Hd (a + 4) ltac:(lia)) E2 x Hx Hx4) as W2.
  destruct (negb (s2 =? BUS_OK)); [injection Hr as <- _; congruence|].
  rewrite u64_small in Hr by (pow2; lia). destruct (read_block b2 (a + 8) n) as [b3 [s3 l]] eqn:E3. injection Hr as <- _.
  rewrite (IH b2 (a + 8) b3 (s3, l)); [congruence|intros; apply Hd; lia|lia|lia|done|done|done].
Qed.

Lemma write_block_ram l : forall b a, a mod 8 = 0 -> 0 <= a -> a + 8 * Z.of_nat (length l) <= 2 ^ 36 ->
  (forall x, a <= x < a + 8 * Z.of_nat (length l) -> ram x = true) -> Forall (fits 64) l ->
  exists b', write_block b a l = (b', BUS_OK) /\
    (forall x, ram x = true -> x mod 4 = 0 -> x < a \/ a + 8 * Z.of_nat (length l) <= x -> word_at b' x = word_at b x) /\
    (forall k, 0 <= k < Z.of_nat (length l) -> mem64 b' (a + 8 * k) = default 0 (l !! Z.to_nat k)).
Proof.
  induction l as [|v l IH]; intros b a Hal Ha Hb Hram Hl; cbn [length] in *; [exists b; split_and!; [done|done|lia]|].
  apply Forall_cons in Hl as [Hv Hl]. cbn [write_block].
  assert (Hw : forall x, fits 32 (u32 x)) by (intros; by apply wrap_fits).
  destruct (ram_write b a (hi_word v)) as (b1 & -> & W1 & F1); [apply Hram; lia|divmod|apply Hw|]. rewrite Z.eqb_refl. cbn [negb].
  rewrite u64_small by (pow2; lia).
  destruct (ram_write b1 (a + 4) (lo_word v)) as (b2 & -> & W2 & F2); [apply Hram; lia|divmod|apply Hw|]. rewrite Z.eqb_refl. cbn [negb].
  rewrite u64_small by (pow2; lia).
  destruct (IH b2 (a + 8)) as (b' & -> & F & M); [divmod|lia|lia|intros; apply Hram; lia|done|].
  exists b'. split_and!; [done| |].
  - intros x Hx Hx4 Hr. rewrite F by (done || lia). rewrite F2 by (done || lia). apply F1; done || lia.
  - intros k Hk. destruct (decide (k = 0)) as [->|Hne].
    + rewrite Z.mul_0_r, Z.add_0_r. cbn. unfold mem64. rewrite (F a), (F (a + 4)) by (try apply Hram; divmod).
      rewrite W2, (F2 a) by (try apply Hram; divmod). rewrite W1. by apply join_words.
    + replace (a + 8 * k) with (a + 8 + 8 * (k - 1)) by lia. rewrite M by lia.
      replace (Z.to_nat k) with (S (Z.to_nat (k - 1))) by lia. done.
Qed.

Lemma write_block_dev l : forall b a b' r, (forall x, a <= x < a + 8 * Z.of_nat (length l) -> ram x = false) ->
  a mod 8 = 0 -> 0 <= a -> a + 8 * Z.of_nat (length l) <= 2 ^ 36 -> write_block b a l = (b', r) -> forall x, ram x = true -> x mod 4 = 0 -> word_at b' x = word_at b x.
Proof.
  induction l as [|v l IH]; intros b a b' r Hd Hal Ha Hb Hr x Hx Hx4; cbn [length] in *; [by injection Hr as <- _|]. cbn [write_block] in Hr.
  destruct (bus_write b 4 a (hi_word v)) as [b1 s1] eqn:E1. pose proof (dev_write _ _ _ _ _ (Hd a ltac:(lia)) ltac:(divmod) E1 x Hx Hx4) as W1.
  destruct (negb (s1 =? BUS_OK)); [by injection Hr as <- _|].
  rewrite u64_small in Hr by (pow2; lia). destruct (bus_write b1 4 (a + 4) (lo_word v)) as [b2 s2] eqn:E2.
  pose proof (dev_write _ _ _ _ _ (Hd (a + 4) ltac:(lia)) ltac:(divmod) E2 x Hx Hx4) as W2.
  destruct (negb (s2 =? BUS_OK)); [injection Hr as <- _; congruence|].
  rewrite u64_small in Hr by (pow2; lia). rewrite (IH b2 (a + 8) b' r); [congruence|intros; apply Hd; lia|divmod|lia|lia|done|done|done].
Qed.

End Bus.

End CacheProofs.
