(* ===== verification/CacheInv.v ===== *)
(** * The invariant of an inclusive cache

    [content] is memory as the hierarchy holds it; [inv] says that tags name
    the lines they hold, that the secondary cache includes the primary one
    under the virtual index its tag records, and that a clean line agrees with
    the level below.  Write-backs, invalidations and fills keep [inv] and
    leave [content] alone. *)

From S2P Require Import Prelude CpuDecode CpuExec CpuInstr CpuCache CacheProofs.
Import CpuDecode CpuExec CpuInstr CpuCache CacheProofs.

#[local] Open Scope Z_scope.
#[local] Open Scope word_scope.

Module CacheInv.

(** Which secondary lines the processor has used under which virtual index. *)
Class Tints : Type := tint : Z -> Z -> Prop.

Section Inv.

Context (g : Geom) (Hg : inclusive g) {B : Type} `{HB : BusOps B} {HR : RamBus B} {T : Tints}.

Notation C := (CpuCache B).

Lemma not_r5k : IS_R5K g = false.
Proof. unfold IS_R5K. destruct Hg as [->| ->]; reflexivity. Qed.

Lemma has_l2_true : has_l2 g = true.
Proof. by destruct Hg as [->| ->]. Qed.

(** ** What the hierarchy holds *)

Notation H2 := (l2_holds g).
Notation si := (l2_index g).

(** The primary line under which an address can be held. *)
Definition place (c : C) (a : Z) : Z := dc_index g (vaddr (s_pidx (stag c (si a))) a).

Definition H1 (c : C) (a : Z) : bool := H2 c a && d_matches_line (dtag c (place c a)) a.

Definition dcell (c : C) (d o : Z) : Z := lcell (dc_data c) (dc_chunks g) d o.
Definition scell (c : C) (i o : Z) : Z := lcell (l2_data c) (l2_chunks g) i o.

(** The doubleword at [a], aligned, as a load would see it. *)
Definition content (c : C) (a : Z) : Z :=
  if H1 c a then dcell c (place c a) (off1 g a)
  else if H2 c a then scell c (si a) (off2 g a)
  else mem64 (downstream c) a.

Definition clean_l2 (t : L2Tag) : bool := negb (s_cs t =? L2_CS_DIRTY_EXCLUSIVE) && negb (s_cs t =? L2_CS_DIRTY_SHARED).

Record inv (c : C) : Prop := {
  iv_l2 i : s_cs (stag c i) <> L2_CS_INVALID ->
    exists a, phys_ok a /\ a mod 2 ^ l2_line_shift g = 0 /\ si a = i /\ s_ptag (stag c i) = l2_ptag a;
  iv_cs i : s_cs (stag c i) = 0 \/ 4 <= s_cs (stag c i) <= 7;
  iv_pidx i : 0 <= s_pidx (stag c i) < 8;
  iv_l1 d : d_is_valid (dtag c d) = true ->
    exists a, phys_ok a /\ a mod 2 ^ dc_line_shift g = 0 /\ H2 c a = true /\ place c a = d /\ d_ptag (dtag c d) = page_tag a;
  iv_dirty d : d_dirty (dtag c d) = true -> d_is_valid (dtag c d) = true;
  iv_clean1 a : phys_ok a -> H1 c a = true -> d_dirty (dtag c (place c a)) = false ->
    dcell c (place c a) (off1 g a) = scell c (si a) (off2 g a);
  iv_clean2 a : ram a = true -> a mod 8 = 0 -> H2 c a = true -> clean_l2 (stag c (si a)) = true ->
    scell c (si a) (off2 g a) = mem64 (downstream c) a;
  iv_fits1 k : fits 64 (cell 0 (dc_data c) k);
  iv_fits2 k : fits 64 (cell 0 (l2_data c) k);
  iv_tint a : phys_ok a -> H2 c a = true -> tint (a / 2 ^ l2_line_shift g) (s_pidx (stag c (si a)));
}.

(** The block of [a] is in the primary cache and the level below may not have it. *)
Definition dirty1 (c : C) (a : Z) : Prop := H1 c a = true /\ d_dirty (dtag c (place c a)) = true.

(** A block dirty afterwards was dirty before, over the same secondary data. *)
Definition still (c c' : C) : Prop := forall a, phys_ok a -> dirty1 c' a ->
  dirty1 c a /\ scell c' (si a) (off2 g a) = scell c (si a) (off2 g a).

(** RAM reads the same, and what the levels below the primary cache have of it
    is what they had, or catches up. *)
Record keeps (c c' : C) : Prop := {
  kp_content a : ram a = true -> a mod 8 = 0 -> content c' a = content c a;
  kp_still : still c c';
}.

#[export] Instance keeps_preorder : PreOrder keeps.
Proof.
  split; [by split; [|intros a _]|]. intros c1 c2 c3 [K1 S1] [K2 S2]. split; [intros a Ha Hal; by rewrite K2, K1|].
  intros a Ha [D2 E2]%S2; [|done]. apply S1 in D2 as [D1 E1]; [|done]. split; [done|congruence].
Qed.

(** What the levels below the primary cache have of the doubleword at [a]. *)
Definition below (c : C) (a : Z) : Z := if H2 c a then scell c (si a) (off2 g a) else mem64 (downstream c) a.

Lemma below_clean c a : inv c -> phys_ok a -> ~ dirty1 c a -> below c a = content c a.
Proof.
  intros Hi Ha Hd. unfold below, content, dirty1 in *. destruct (H1 c a) eqn:E; [|done].
  assert (H2 c a = true) as -> by (by apply andb_prop in E as [? _]). symmetry. apply (iv_clean1 c Hi); [done|done|].
  apply not_true_is_false. auto.
Qed.

Lemma keeps_below c c' a : inv c' -> keeps c c' -> ram a = true -> a mod 8 = 0 -> below c' a = below c a \/ below c' a = content c a.
Proof.
  intros Hi' [K S] Ha Hal. assert (Hd : dirty1 c' a \/ ~ dirty1 c' a).
  { unfold dirty1. destruct (H1 c' a), (d_dirty (dtag c' (place c' a))); [by left|right; by intros [? ?]..]. }
  destruct Hd as [Hd|Hd]; [left|right; rewrite below_clean by (done || by apply ram_phys); by apply K].
  destruct (S a (ram_phys _ Ha) Hd) as [[D1 _] E]. destruct Hd as [D2 _]. unfold below.
  by rewrite (proj1 (andb_prop _ _ D1)), (proj1 (andb_prop _ _ D2)).
Qed.

(** The same lines are held in the same places. *)
Record same_lines (c c' : C) : Prop := {
  sl_dptag d : d_ptag (dtag c' d) = d_ptag (dtag c d);
  sl_ptag i : s_ptag (stag c' i) = s_ptag (stag c i);
  sl_pidx i : s_pidx (stag c' i) = s_pidx (stag c i);
  sl_cs i : (s_cs (stag c' i) =? L2_CS_INVALID) = (s_cs (stag c i) =? L2_CS_INVALID);
}.

#[export] Instance same_lines_preorder : PreOrder same_lines.
Proof. split; [by split|]. intros c1 c2 c3 [] []. split; intros; congruence. Qed.

Lemma same_H2 c c' a : same_lines c c' -> H2 c' a = H2 c a.
Proof. intros [_ Hp _ Hc]. unfold l2_holds. by rewrite Hp, Hc. Qed.

Lemma same_place c c' a : same_lines c c' -> place c' a = place c a.
Proof. intros [_ _ Hp _]. unfold place. by rewrite Hp. Qed.

Lemma same_H1 c c' a : same_lines c c' -> H1 c' a = H1 c a.
Proof. intros Hs. unfold H1, d_matches_line. by rewrite (same_H2 _ _ _ Hs), (same_place _ _ _ Hs), (sl_dptag _ _ Hs). Qed.

Lemma same_valid c c' d : same_lines c c' -> d_is_valid (dtag c' d) = d_is_valid (dtag c d).
Proof. intros Hs. unfold d_is_valid. by rewrite (sl_dptag _ _ Hs). Qed.

Lemma same_inv_l2 c c' : same_lines c c' -> (forall i, s_cs (stag c i) <> L2_CS_INVALID ->
    exists a, phys_ok a /\ a mod 2 ^ l2_line_shift g = 0 /\ si a = i /\ s_ptag (stag c i) = l2_ptag a) ->
  forall i, s_cs (stag c' i) <> L2_CS_INVALID ->
    exists a, phys_ok a /\ a mod 2 ^ l2_line_shift g = 0 /\ si a = i /\ s_ptag (stag c' i) = l2_ptag a.
Proof.
  intros [_ Hp _ Hc] H i Hi. rewrite Hp. apply H. apply Z.eqb_neq. rewrite <- Hc. by apply Z.eqb_neq.
Qed.

(** ** Held addresses *)

Lemma H2_line (c : C) a b : phys_ok a -> phys_ok b -> a / 2 ^ l2_line_shift g = b / 2 ^ l2_line_shift g -> H2 c a = H2 c b.
Proof. intros Ha Hb He. unfold l2_holds. by rewrite (line_index g a b Hg He), (line_ptag g a b Hg Ha Hb He). Qed.

Lemma place_block (c : C) a b : a / 2 ^ dc_line_shift g = b / 2 ^ dc_line_shift g -> place c a = place c b.
Proof.
  intros He. unfold place. rewrite (line_index g a b Hg (block_line g a b Hg He)). by apply block_vaddr.
Qed.

Lemma matches_page t a : phys_ok a -> d_ptag t = page_tag a -> forall b, phys_ok b -> d_matches_line t b = true <-> a / 4096 = b / 4096.
Proof.
  intros Ha Ht b Hb. unfold d_matches_line. rewrite Ht, page_tag_fast by (by apply phys_fits). rewrite Z.eqb_eq.
  apply page_tag_inj; by apply phys_fits.
Qed.

(** A primary line matches only addresses whose lines it can hold. *)
Lemma matches_valid c d a : inv c -> phys_ok a -> d_matches_line (dtag c d) a = true -> d_is_valid (dtag c d) = true.
Proof.
  intros Hi Ha Hm. unfold d_matches_line in Hm. apply Z.eqb_eq in Hm. unfold d_is_valid.
  assert (Hb : (d_ptag (dtag c d) .& bnot 64 SLOW) .& 1 = d_ptag (dtag c d) .& 1) by (rewrite <- Z.land_assoc; f_equal).
  rewrite <- Hb, Hm. apply page_tag_valid. by apply phys_fits.
Qed.

(** The block a held address is in. *)
Lemma held_block c a : inv c -> phys_ok a -> H1 c a = true ->
  exists b, phys_ok b /\ b mod 2 ^ dc_line_shift g = 0 /\ a / 2 ^ dc_line_shift g = b / 2 ^ dc_line_shift g /\
    place c a = place c b /\ d_ptag (dtag c (place c a)) = page_tag b /\ H2 c b = true.
Proof.
  intros Hi Ha Hh. apply andb_prop in Hh as [Hh Hm].
  destruct (iv_l1 c Hi _ (matches_valid c _ a Hi Ha Hm)) as (b & Hb & Hal & Hhb & Hpl & Ht).
  exists b. split_and!; try done.
  apply (same_block g (s_pidx (stag c (si a))) (s_pidx (stag c (si b)))); [done| |done].
  symmetry. by apply (matches_page _ b Hb Ht a Ha).
Qed.

(** [a] is the block primary line [d] holds. *)
Record holds_block (c : C) (d a : Z) : Prop := {
  hb_phys : phys_ok a;
  hb_align : a mod 2 ^ dc_line_shift g = 0;
  hb_H2 : H2 c a = true;
  hb_place : place c a = d;
  hb_tag : d_ptag (dtag c d) = page_tag a;
}.

Lemma valid_block c d : inv c -> d_is_valid (dtag c d) = true -> exists a, holds_block c d a.
Proof. intros Hi Hv. destruct (iv_l1 c Hi d Hv) as (a & ? & ? & ? & ? & ?). by exists a. Qed.

Lemma block_H1 c d a x : holds_block c d a -> phys_ok x -> x / 2 ^ dc_line_shift g = a / 2 ^ dc_line_shift g ->
  H1 c x = true /\ place c x = d.
Proof.
  intros [Ha Hal Hh Hp Ht] Hx He. assert (Hpl : place c x = d) by (rewrite <- Hp; by apply place_block). split; [|done].
  unfold H1. apply andb_true_intro. split; [rewrite <- Hh; apply H2_line; auto; by apply block_line|].
  rewrite Hpl. apply (matches_page _ a Ha Ht x Hx). symmetry. by apply (block_page g).
Qed.

Lemma held_in c d a x : holds_block c d a -> phys_ok x -> H1 c x = true -> place c x = d ->
  x / 2 ^ dc_line_shift g = a / 2 ^ dc_line_shift g.
Proof.
  intros [Ha Hal Hh Hp Ht] Hx Hhx Hpl. apply andb_prop in Hhx as [_ Hm]. rewrite Hpl in Hm.
  apply (same_block g (s_pidx (stag c (si x))) (s_pidx (stag c (si a)))); [done| |unfold place in *; congruence].
  symmetry. by apply (matches_page _ a Ha Ht x Hx).
Qed.

(** Two held addresses at one secondary index share a line. *)
Lemma held_line (c : C) a b : phys_ok a -> phys_ok b -> H2 c a = true -> H2 c b = true -> si a = si b ->
  a / 2 ^ l2_line_shift g = b / 2 ^ l2_line_shift g.
Proof.
  intros Ha Hb Hha Hhb He. apply (same_line g); try done. unfold l2_holds in *.
  apply andb_prop in Hha as [_ Hpa%Z.eqb_eq]. apply andb_prop in Hhb as [_ Hpb%Z.eqb_eq]. congruence.
Qed.

(** ** Writing a primary line back *)

Lemma dirtied_cs cs : cs = 0 \/ 4 <= cs <= 7 ->
  (dirtied cs =? L2_CS_INVALID) = (cs =? L2_CS_INVALID) /\ (dirtied cs = 0 \/ 4 <= dirtied cs <= 7).
Proof.
  intros Hc. assert (Hx : cs = 0 \/ cs = 4 \/ cs = 5 \/ cs = 6 \/ cs = 7) by lia.
  destruct Hx as [->|[->|[->|[->| ->]]]]; vm_compute; (split; [done|]); (by left) || (right; by split).
Qed.

Lemma dirtied_clean t : (s_cs t = 0 \/ 4 <= s_cs t <= 7) -> s_cs t <> 0 -> clean_l2 (t <| s_cs := dirtied (s_cs t) |>) = false.
Proof.
  intros Hc Hn. assert (Hx : s_cs t = 4 \/ s_cs t = 5 \/ s_cs t = 6 \/ s_cs t = 7) by lia. unfold clean_l2. cbn.
  by destruct Hx as [->|[->|[->| ->]]].
Qed.

Lemma demote_tag t : d_ptag (demote t) = d_ptag t /\ d_dirty (demote t) = false.
Proof. unfold demote. case_match; done. Qed.

Lemma shift_chunks i : i .<< (dc_line_shift g - 3) = i * dc_chunks g.
Proof. rewrite Z.shiftl_mul_pow2 by (by geom Hg). done. Qed.

Lemma shift_l2_chunks i : i .<< (l2_line_shift g - 3) = i * l2_chunks g.
Proof. rewrite Z.shiftl_mul_pow2 by (by geom Hg). done. Qed.

Lemma off2_code a : (a .& Z.ones (l2_line_shift g)) .>> 3 = off2 g a.
Proof. unfold off2. rewrite Z.land_ones, Z.shiftr_div_pow2 by (by geom Hg). done. Qed.

Lemma stag_set (c : C) i t j : stag (set_stag c i t) j = if j =? i then t else stag c j.
Proof. apply cell_insert. Qed.

Lemma dtag_set (c : C) i t j : dtag (set_dtag c i t) j = if j =? i then t else dtag c j.
Proof. apply cell_insert. Qed.

Lemma set_chunks_fits m base l k : (forall j, fits 64 (cell 0 m j)) -> Forall (fits 64) l -> fits 64 (cell 0 (set_chunks m base l) k).
Proof.
  intros Hm Hl. rewrite set_chunks_cell. case_match; [|done]. destruct (l !! _) as [x|] eqn:E; [|by split].
  by apply (Forall_lookup_1 _ _ _ _ Hl) in E.
Qed.

Lemma get_chunks_fits m b n : (forall j, fits 64 (cell 0 m j)) -> Forall (fits 64) (get_chunks m b n).
Proof. intros Hm. unfold get_chunks. apply Forall_fmap, Forall_true. intros x. apply Hm. Qed.

(** What a write-back of [d] does, when there is something to write back. *)
Record wrote (c : C) (d a : Z) (c' : C) : Prop := {
  wr_block : holds_block c d a;
  wr_dirty : d_dirty (dtag c d) = true;
  wr_stag i : stag c' i = if i =? si a then (stag c i) <| s_cs := dirtied (s_cs (stag c i)) |> else stag c i;
  wr_dtag e : dtag c' e = if e =? d then demote (dtag c e) else dtag c e;
  wr_dcell : dc_data c' = dc_data c;
  wr_down : downstream c' = downstream c;
  wr_scell i o : 0 <= o < l2_chunks g -> scell c' i o =
    if (i =? si a) && (off2 g a <=? o) && (o <? off2 g a + dc_chunks g) then dcell c d (o - off2 g a) else scell c i o;
  wr_fits k : fits 64 (cell 0 (l2_data c') k);
  wr_slots : l2_instrs c' = set_slots (l2_instrs c) ((si a .<< (l2_line_shift g - 2)) + off2 g a * 2) (get_chunks (dc_data c) (d * dc_chunks g) (dc_chunks g));
  wr_itags : ic_tags c' = ic_tags c;
}.

Lemma writeback_l1d_cases c d : inv c -> let c' := (writeback_l1d g c d).1 in
  (c' = c /\ d_dirty (dtag c d) = false) \/ exists a, wrote c d a c'.
Proof.
  intros Hi. cbn zeta. unfold writeback_l1d. destruct (d_dirty (dtag c d)) eqn:Ed; cbn [negb]; [|by left]. right.
  destruct (valid_block c d Hi (iv_dirty c Hi d Ed)) as [a Hb]. exists a. pose proof Hb as [Ha Hal Hh Hp Ht].
  assert (Hphys : l1d_tag_to_phys (dtag c d) (d .<< dc_line_shift g) = a).
  { rewrite <- Hp at 2. unfold place. apply l1d_phys; try done. by apply iv_pidx. }
  rewrite Hphys, not_r5k. cbn [andb negb].
  assert (Hpt : s_ptag (stag c (si a)) = l2_ptag a) by (apply andb_prop in Hh as [_ Hh%Z.eqb_eq]; done).
  rewrite Hpt, Z.eqb_refl, off2_code, shift_chunks, shift_l2_chunks. cbn [negb fst]. split; try done.
  - intros i. unfold stag at 1. cbn. rewrite cell_insert. by destruct (Z.eqb_spec i (si a)) as [->|].
  - intros e. rewrite dtag_set. by destruct (Z.eqb_spec e d) as [->|].
  - intros i o Ho. unfold scell. cbn. pose proof (off2_range g a Hg). pose proof (off2_fit g a Hg Hal).
    rewrite copy_lcell by (done || lia || (unfold dc_chunks; by geom Hg)). done.
  - intros k. cbn. apply set_chunks_fits; [apply (iv_fits2 c Hi)|apply get_chunks_fits, (iv_fits1 c Hi)].
Qed.

Lemma wrote_same c d a c' : inv c -> wrote c d a c' -> same_lines c c'.
Proof.
  intros Hi [Hb Hd Hs Hdt _ _ _ _ _ _]. split; intros.
  - rewrite Hdt. case_match; [apply demote_tag|done].
  - rewrite Hs. by case_match.
  - rewrite Hs. by case_match.
  - rewrite Hs. case_match; [|done]. apply dirtied_cs, iv_cs, Hi.
Qed.

(** The secondary doublewords of another block are untouched. *)
Lemma wrote_other c d a c' x : wrote c d a c' -> phys_ok x -> H2 c x = true ->
  scell c' (si x) (off2 g x) = if decide (x / 2 ^ dc_line_shift g = a / 2 ^ dc_line_shift g) then dcell c d (off1 g x) else scell c (si x) (off2 g x).
Proof.
  intros [[Ha Hal Hh Hp Ht] _ _ _ _ _ Hsc _ _ _] Hx Hhx. rewrite Hsc by (by apply off2_range).
  destruct (decide _) as [He|Hne].
  - pose proof (proj2 (off2_block g x a Hg (block_line g x a Hg He) Hal) He) as Hr.
    rewrite (line_index g x a Hg (block_line g x a Hg He)), Z.eqb_refl. cbn [andb].
    rewrite (proj2 (Z.leb_le _ _)) by lia. rewrite (proj2 (Z.ltb_lt _ _)) by lia. cbn [andb].
    rewrite (off2_off1 g x a Hg He Hal). f_equal. lia.
  - case_match eqn:E; [|done]. exfalso. apply andb_prop in E as [E E3%Z.ltb_lt]. apply andb_prop in E as [E1%Z.eqb_eq E2%Z.leb_le].
    apply Hne, (off2_block g x a Hg); [|done|lia]. by apply (held_line c).
Qed.

Lemma wrote_inv c d a c' : inv c -> wrote c d a c' -> inv c'.
Proof.
  intros Hi Hw. pose proof (wrote_same c d a c' Hi Hw) as Hs. pose proof Hw as [Hb Hd Hst Hdt Hdd Hdn _ Hf _ _]. pose proof Hi as [J1 J2 J3 J4 J5 J6 J7 J8 J9 J10].
  assert (Hdc : forall e o, dcell c' e o = dcell c e o) by (intros; unfold dcell; by rewrite Hdd).
  split; try done.
  - by apply (same_inv_l2 c).
  - intros i. rewrite Hst. case_match; [|done]. apply dirtied_cs, J2.
  - intros i. rewrite (sl_pidx _ _ Hs). apply J3.
  - intros e He. rewrite (same_valid _ _ _ Hs) in He. destruct (J4 e He) as (x & H1' & H2' & H3' & H4' & H5').
    exists x. rewrite (same_H2 _ _ _ Hs), (same_place _ _ _ Hs), (sl_dptag _ _ Hs). done.
  - intros e. rewrite (same_valid c c' e Hs), Hdt. case_match; [by rewrite (proj2 (demote_tag _))|apply J5].
  - intros x Hx. rewrite (same_H1 _ _ _ Hs), (same_place _ _ _ Hs), Hdt, Hdc. intros Hh Hdirty.
    assert (Hh2 : H2 c x = true) by (by apply andb_prop in Hh as [? _]). rewrite (wrote_other c d a c' x Hw Hx Hh2).
    destruct (decide _) as [He|Hne].
    + destruct (block_H1 c d a x Hb Hx He) as [_ ->]. done.
    + apply J6; [done|done|]. destruct (Z.eqb_spec (place c x) d) as [E|E]; [|done].
      exfalso. apply Hne. by apply (held_in c d).
  - intros x Hram Hal. rewrite (same_H2 _ _ _ Hs), Hdn, Hst. intros Hh Hc. destruct (Z.eqb_spec (si x) (si a)) as [E|E].
    + rewrite dirtied_clean in Hc; [done|apply J2|]. apply andb_prop in Hh as [Hh _]. by apply negb_true_iff, Z.eqb_neq in Hh.
    + rewrite (wrote_other c d a c' x Hw (ram_phys _ Hram) Hh). destruct (decide _) as [He|Hne]; [|by apply J7].
      exfalso. apply E. apply (line_index g x a Hg). by apply block_line.
  - intros k. rewrite Hdd. apply J8.
  - intros x Hx. rewrite (same_H2 _ _ _ Hs), (sl_pidx _ _ Hs). by apply J10.
Qed.

Lemma wrote_content c d a c' x : inv c -> wrote c d a c' -> phys_ok x -> content c' x = content c x.
Proof.
  intros Hi Hw Hx. pose proof (wrote_same c d a c' Hi Hw) as Hs. pose proof Hw as [Hb Hd Hst Hdt Hdd Hdn _ Hf _ _].
  unfold content. rewrite (same_H1 _ _ _ Hs), (same_H2 _ _ _ Hs), (same_place _ _ _ Hs), Hdn.
  unfold dcell. rewrite Hdd. destruct (H1 c x) eqn:Eh; [done|]. destruct (H2 c x) eqn:Eh2; [|done].
  rewrite (wrote_other c d a c' x Hw Hx Eh2). destruct (decide _) as [He|Hne]; [|done].
  destruct (block_H1 c d a x Hb Hx He). congruence.
Qed.

(** A write-back of a primary line, in sum. *)
Lemma wrote_keeps c d a c' : inv c -> wrote c d a c' -> keeps c c'.
Proof.
  intros Hi Hw. pose proof (wrote_same c d a c' Hi Hw) as Hs. split; [intros x Hx _; apply (wrote_content c d a); auto; by apply ram_phys|].
  intros x Hx [Hh Hd]. rewrite (same_H1 _ _ _ Hs) in Hh. rewrite (same_place _ _ _ Hs), (wr_dtag _ _ _ _ Hw) in Hd.
  destruct (Z.eqb_spec (place c x) d) as [E|E]; [by rewrite (proj2 (demote_tag _)) in Hd|]. split; [by split|].
  rewrite (wrote_other c d a c' x Hw Hx) by (by apply andb_prop in Hh as [? _]). rewrite decide_False; [done|].
  intros Eb. apply E. by apply (block_H1 c d a x (wr_block _ _ _ _ Hw)).
Qed.

Lemma writeback_l1d_ok c d : inv c -> let c' := (writeback_l1d g c d).1 in
  inv c' /\ keeps c c' /\ same_lines c c' /\ downstream c' = downstream c /\
  d_dirty (dtag c' d) = false /\ (forall e, d_dirty (dtag c' e) = true -> d_dirty (dtag c e) = true).
Proof.
  intros Hi. cbn zeta. destruct (writeback_l1d_cases c d Hi) as [[-> Hd]|[a Hw]]; [by split_and!|].
  split_and!; [by apply (wrote_inv c d a)|by apply (wrote_keeps c d a)|by apply (wrote_same c d a)|apply Hw|..].
  - rewrite (wr_dtag _ _ _ _ Hw), Z.eqb_refl. apply demote_tag.
  - intros e. rewrite (wr_dtag _ _ _ _ Hw). case_match; [|done]. by rewrite (proj2 (demote_tag _)).
Qed.

(** ** Dropping primary lines *)

(** Some primary lines are gone; nothing else the invariant speaks of changed. *)
Record drops (c c' : C) : Prop := {
  dr_stag i : stag c' i = stag c i;
  dr_dc : dc_data c' = dc_data c;
  dr_l2 : l2_data c' = l2_data c;
  dr_down : downstream c' = downstream c;
  dr_dtag e : dtag c' e = dtag c e \/ dtag c' e = d_default;
}.

#[export] Instance drops_preorder : PreOrder drops.
Proof.
  split; [by split; auto|]. intros c1 c2 c3 [A1 A2 A3 A4 A5] [D1 D2 D3 D4 D5]. split; intros; try congruence.
  destruct (D5 e) as [->|]; auto.
Qed.

Lemma default_matches a : phys_ok a -> d_matches_line d_default a = false.
Proof.
  intros Ha. unfold d_matches_line. rewrite page_tag_eq by (by apply phys_fits). apply Z.eqb_neq. change (d_ptag d_default .& bnot 64 SLOW) with 0.
  destruct Ha. divmod.
Qed.

Lemma drops_H1 c c' a : phys_ok a -> drops c c' -> H1 c' a = true -> H1 c a = true /\ dtag c' (place c a) = dtag c (place c a).
Proof.
  intros Ha [Hs _ _ _ Hd] Hh. unfold H1, l2_holds, place in *. rewrite Hs in Hh. apply andb_prop in Hh as [Hh Hm].
  destruct (Hd (dc_index g (vaddr (s_pidx (stag c (si a))) a))) as [He|He]; rewrite He in Hm.
  - split; [by rewrite Hh, Hm|done].
  - by rewrite default_matches in Hm.
Qed.

Lemma drops_inv c c' : inv c -> drops c c' -> inv c'.
Proof.
  intros [J1 J2 J3 J4 J5 J6 J7 J8 J9 J10] Hdr. pose proof Hdr as [Hs Hdc Hl2 Hdn Hd].
  assert (Hh2 : forall a, H2 c' a = H2 c a) by (intros; unfold l2_holds; by rewrite Hs).
  assert (Hpl : forall a, place c' a = place c a) by (intros; unfold place; by rewrite Hs).
  split.
  - intros i. rewrite Hs. apply J1.
  - intros i. rewrite Hs. apply J2.
  - intros i. rewrite Hs. apply J3.
  - intros e. destruct (Hd e) as [->| ->]; [|done]. intros Hv. destruct (J4 e Hv) as (a & ? & ? & ? & ? & ?).
    exists a. by rewrite Hh2, Hpl.
  - intros e. destruct (Hd e) as [->| ->]; [apply J5|done].
  - intros a Ha Hh. destruct (drops_H1 c c' a Ha Hdr Hh) as [Hh' He]. rewrite Hpl, He. unfold dcell, scell. rewrite Hdc, Hl2. by apply J6.
  - intros a Ha Hal. rewrite Hh2, Hs, Hdn. unfold scell. rewrite Hl2. by apply J7.
  - intros k. rewrite Hdc. apply J8.
  - intros k. rewrite Hl2. apply J9.
  - intros a Ha. rewrite Hh2, Hs. by apply J10.
Qed.

(** Dropping a line the level below agrees with shows the same memory. *)
Lemma drops_content c c' a : inv c -> drops c c' -> phys_ok a ->
  (H1 c a = true -> H1 c' a = false -> d_dirty (dtag c (place c a)) = false) -> content c' a = content c a.
Proof.
  intros Hi Hdr Ha Hcl. pose proof Hdr as [Hs Hdc Hl2 Hdn Hd]. unfold content.
  assert (Hh2 : H2 c' a = H2 c a) by (unfold l2_holds; by rewrite Hs).
  assert (Hpl : place c' a = place c a) by (unfold place; by rewrite Hs).
  unfold dcell, scell. rewrite Hh2, Hpl, Hdc, Hl2, Hdn. destruct (H1 c' a) eqn:E'.
  - by destruct (drops_H1 c c' a Ha Hdr E') as [-> _].
  - destruct (H1 c a) eqn:E; [|done]. assert (Hh : H2 c a = true) by (by apply andb_prop in E as [? _]). rewrite Hh.
    symmetry. apply (iv_clean1 c Hi); [done|done|by apply Hcl].
Qed.

Lemma drops_still c c' : drops c c' -> still c c'.
Proof.
  intros Hdr a Ha [Hh Hd]. destruct (drops_H1 c c' a Ha Hdr Hh) as [Hh' Ht]. pose proof Hdr as [Hs _ Hl2 _ _].
  assert (Hpl : place c' a = place c a) by (unfold place; by rewrite Hs). rewrite Hpl, Ht in Hd.
  split; [by split|]. unfold scell. by rewrite Hl2.
Qed.

Lemma invalidate_drops c d : drops c (invalidate_l1d_line c d).
Proof. split; try done. intros e. unfold invalidate_l1d_line. rewrite dtag_set. case_match; auto. Qed.

Lemma invalidate_l1d_ok c d : inv c -> d_dirty (dtag c d) = false -> inv (invalidate_l1d_line c d) /\ keeps c (invalidate_l1d_line c d).
Proof.
  intros Hi Hd. pose proof (invalidate_drops c d) as Hdr. split; [by apply (drops_inv c)|].
  split; [|by apply drops_still]. intros a Ha _. apply drops_content; [done|done|by apply ram_phys|]. intros Hh Hh'.
  destruct (decide (place c a = d)) as [->|Hne]; [done|]. exfalso.
  unfold H1, l2_holds, place in *. unfold invalidate_l1d_line in Hh'. change (stag (set_dtag c d d_default)) with (stag c) in Hh'.
  rewrite dtag_set in Hh'. rewrite (proj2 (Z.eqb_neq _ _) Hne) in Hh'. congruence.
Qed.

(** Write back, then drop. *)
Lemma evict_l1d_ok c d : inv c -> let c' := invalidate_l1d_line (writeback_l1d g c d).1 d in
  inv c' /\ keeps c c' /\ dtag c' d = d_default /\ downstream c' = downstream c /\
  (forall e, d_is_valid (dtag c' e) = true -> d_is_valid (dtag c e) = true) /\
  (forall i, s_ptag (stag c' i) = s_ptag (stag c i) /\ s_pidx (stag c' i) = s_pidx (stag c i) /\
    (s_cs (stag c' i) =? L2_CS_INVALID) = (s_cs (stag c i) =? L2_CS_INVALID)).
Proof.
  intros Hi. cbn zeta. destruct (writeback_l1d_ok c d Hi) as (Hi1 & Hk1 & Hs1 & Hd1 & Hc1 & _).
  destruct (invalidate_l1d_ok _ d Hi1 Hc1) as [Hi2 Hk2]. split_and!; [done|by etransitivity| |done| |].
  - unfold invalidate_l1d_line. by rewrite dtag_set, Z.eqb_refl.
  - intros e. unfold invalidate_l1d_line. rewrite dtag_set. case_match; [done|]. by rewrite (same_valid _ _ _ Hs1).
  - intros i. split_and!; apply Hs1.
Qed.

(** ** All primary lines of a secondary line *)

Notation line_of a x := (x / 2 ^ l2_line_shift g = a / 2 ^ l2_line_shift g).

(** [a] is the line secondary index [i] holds. *)
Record holds_line (c : C) (i a : Z) : Prop := {
  hl_phys : phys_ok a;
  hl_align : a mod 2 ^ l2_line_shift g = 0;
  hl_index : si a = i;
  hl_H2 : H2 c a = true;
}.

Lemma valid_line c i : inv c -> s_cs (stag c i) <> L2_CS_INVALID -> exists a, holds_line c i a.
Proof.
  intros Hi Hc. destruct (iv_l2 c Hi i Hc) as (a & Ha & Hal & <- & Hp). exists a. split; try done.
  unfold l2_holds. by rewrite Hp, Z.eqb_refl, (proj2 (Z.eqb_neq _ _) Hc).
Qed.

Lemma line_phys c i a : holds_line c i a -> l2_tag_to_phys (stag c i) (i .<< l2_line_shift g) = a.
Proof.
  intros [Ha Hal <- Hh]. apply l2_phys; try done. apply andb_prop in Hh as [_ Hh%Z.eqb_eq]. done.
Qed.

Lemma line_place (c : C) a x : line_of a x -> place c x = dc_index g (vaddr (s_pidx (stag c (si a))) x).
Proof. intros He. unfold place. by rewrite (line_index g x a Hg He). Qed.

(** Turn [j] of a loop over the primary lines of line [a]. *)
Lemma turn_index c i a j : inv c -> holds_line c i a -> 0 <= j < 2 ^ (l2_line_shift g - dc_line_shift g) ->
  (l2_idx_to_l1_base_idx g i (s_pidx (stag c i)) (dc_line_shift g) (dc_sets_shift g) + j) .& Z.ones (dc_sets_shift g) =
  place c (a + j * 2 ^ dc_line_shift g).
Proof.
  intros Hi [Ha Hal <- Hh] Hj. destruct (block_in_line g a j Hg Ha Hal Hj) as [_ Hl].
  rewrite (line_place c a _ Hl). apply sub_index; try done. apply iv_pidx, Hi.
Qed.

(** The block of turn [j] lives where the loop looks, and matches what it looks for. *)
Lemma turn_block c i a j x : inv c -> holds_line c i a -> 0 <= j < 2 ^ (l2_line_shift g - dc_line_shift g) -> phys_ok x ->
  x / 2 ^ dc_line_shift g = (a + j * 2 ^ dc_line_shift g) / 2 ^ dc_line_shift g ->
  place c x = (l2_idx_to_l1_base_idx g i (s_pidx (stag c i)) (dc_line_shift g) (dc_sets_shift g) + j) .& Z.ones (dc_sets_shift g) /\
  forall t, d_matches_line t (a + (j .<< dc_line_shift g)) = d_matches_line t x.
Proof.
  intros Hi Ha Hj Hx He. split; [rewrite (turn_index c i a j Hi Ha Hj); by apply place_block|].
  intros t. rewrite Z.shiftl_mul_pow2 by (by geom Hg).
  destruct (block_in_line g a j Hg (hl_phys _ _ _ Ha) (hl_align _ _ _ Ha) Hj) as [Hok _]. unfold d_matches_line.
  f_equal. apply page_tag_inj; [by apply phys_fits|by apply phys_fits|]. symmetry. by apply (block_page g).
Qed.

Lemma turns_nonneg : 0 <= 2 ^ (l2_line_shift g - dc_line_shift g).
Proof. by geom Hg. Qed.

Lemma flush_line_ok c i p pb : inv c -> let c' := each_l1d_of g (fun c i => (writeback_l1d g c i).1) i p pb c in
  inv c' /\ keeps c c' /\ same_lines c c' /\ downstream c' = downstream c /\
  (forall a, holds_line c i a -> p = s_pidx (stag c i) -> pb = a ->
     forall x, phys_ok x -> line_of a x -> H1 c' x = true -> d_dirty (dtag c' (place c' x)) = false).
Proof.
  intros Hi. cbn zeta. unfold each_l1d_of.
  set (f := fun (c : C) (k : Z) => _).
  cut (let n := 2 ^ (l2_line_shift g - dc_line_shift g) in let c' := for_each n f c in
    inv c' /\ keeps c c' /\ same_lines c c' /\ downstream c' = downstream c /\
    (forall a, holds_line c i a -> p = s_pidx (stag c i) -> pb = a -> forall j x, 0 <= j < n -> phys_ok x ->
       x / 2 ^ dc_line_shift g = (a + j * 2 ^ dc_line_shift g) / 2 ^ dc_line_shift g ->
       H1 c x = true -> d_dirty (dtag c' (place c x)) = false)).
  { cbn zeta. set (c' := for_each _ f c). intros (Hi' & Hk & Hs & Hd & Hc). split_and!; try done.
    intros a Ha Hp Hpb x Hx Hl Hh. destruct (line_blocks g a x Hg (hl_align _ _ _ Ha) Hl) as (j & Hj & He).
    rewrite (same_place _ _ _ Hs). apply (Hc a Ha Hp Hpb j); [done|done|done|]. by rewrite <- (same_H1 _ _ _ Hs). }
  cbn zeta. set (n := 2 ^ _).
  apply (for_each_ind (fun k c' => inv c' /\ keeps c c' /\ same_lines c c' /\ downstream c' = downstream c /\
    (forall a, holds_line c i a -> p = s_pidx (stag c i) -> pb = a -> forall j x, 0 <= j < k -> phys_ok x ->
       x / 2 ^ dc_line_shift g = (a + j * 2 ^ dc_line_shift g) / 2 ^ dc_line_shift g ->
       H1 c x = true -> d_dirty (dtag c' (place c x)) = false))).
  - apply turns_nonneg.
  - split_and!; try done. intros. lia.
  - intros k c1 Hk (Hi1 & Hk1 & Hs1 & Hd1 & Hc1). unfold f. set (e := _ .& Z.ones (dc_sets_shift g)).
    destruct (d_matches_line (dtag c1 e) (pb + (k .<< dc_line_shift g))) eqn:Em.
    + destruct (writeback_l1d_ok c1 e Hi1) as (Hi2 & Hk2 & Hs2 & Hd2 & Hc2 & Hm2).
      split_and!; [done|by etransitivity|by etransitivity|congruence|].
      intros a Ha Hp Hpb j x Hj Hx He Hh. destruct (decide (j = k)) as [->|Hne].
      * destruct (turn_block c i a k x Hi Ha Hk Hx He) as [-> _]. by rewrite <- Hp.
      * apply not_true_is_false. intros E%Hm2. rewrite (Hc1 a Ha Hp Hpb j x) in E; done || lia.
    + split_and!; try done. intros a Ha Hp Hpb j x Hj Hx He Hh. destruct (decide (j = k)) as [->|Hne]; [|apply (Hc1 a Ha Hp Hpb j); auto; lia].
      exfalso. destruct (turn_block c i a k x Hi Ha Hk Hx He) as [Hpe Hm]. rewrite Hpb, Hm in Em. unfold e in Em. rewrite Hp, <- Hpe in Em.
      apply andb_prop in Hh as [_ Hh]. unfold d_matches_line in *. rewrite (sl_dptag _ _ Hs1) in Em. congruence.
Qed.

(** ** Writing a secondary line back *)

Lemma line_128 : 2 ^ l2_line_shift g = 128 /\ l2_chunks g = 16.
Proof. unfold l2_chunks. by geom Hg. Qed.

Lemma ram_same a x : line_of a x -> ram x = ram a.
Proof. destruct line_128 as [-> _]. intros He. by apply ram_line. Qed.

Lemma mem64_frame (b b' : B) a x : (forall y, ram y = true -> y mod 4 = 0 -> y < a \/ a + 128 <= y -> word_at b' y = word_at b y) ->
  a mod 128 = 0 -> ram x = true -> x mod 8 = 0 -> x / 128 <> a / 128 -> mem64 b' x = mem64 b x.
Proof.
  intros Hw Ha Hx Hal Hne. unfold mem64.
  assert (Hx4 : ram (x + 4) = true) by (rewrite <- Hx; apply ram_line; divmod).
  rewrite !Hw; try done; divmod.
Qed.

Lemma l2_data_lookup (c : C) i k : 0 <= k < 16 -> get_chunks (l2_data c) (i * l2_chunks g) (l2_chunks g) !! Z.to_nat k = Some (scell c i k).
Proof. intros Hk. destruct line_128 as [_ E]. rewrite get_chunks_lookup by lia. done. Qed.

(** The line goes to memory; memory outside it does not change. *)
Lemma l2_store c i a b s : inv c -> holds_line c i a ->
  write_block (downstream c) a (get_chunks (l2_data c) (i * l2_chunks g) (l2_chunks g)) = (b, s) ->
  (forall x, ram x = true -> x mod 8 = 0 -> ~ line_of a x -> mem64 b x = mem64 (downstream c) x) /\
  (ram a = true -> s = BUS_OK /\ forall x, phys_ok x -> x mod 8 = 0 -> line_of a x -> mem64 b x = scell c i (off2 g x)).
Proof.
  intros Hi [Ha Hal Hidx Hh] Hw. destruct line_128 as [E128 E16]. rewrite E128 in *.
  assert (Hlen : Z.of_nat (length (get_chunks (l2_data c) (i * l2_chunks g) (l2_chunks g))) = 16) by (rewrite get_chunks_length; lia).
  assert (Hrng : 0 <= a /\ a + 8 * 16 <= 2 ^ 36) by (unfold phys_ok in Ha; divmod).
  assert (Hall : forall x, a <= x < a + 8 * 16 -> ram x = ram a) by (intros x Hx; apply ram_line; divmod).
  destruct (ram a) eqn:Er.
  - destruct (write_block_ram (get_chunks (l2_data c) (i * l2_chunks g) (l2_chunks g)) (downstream c) a) as (b' & Hb' & F & M);
      rewrite ?Hlen; try done; try lia; try (apply get_chunks_fits, (iv_fits2 c Hi)); try divmod.
    rewrite Hb' in Hw. injection Hw as <- <-. rewrite Hlen in *. split.
    + intros x Hx Hx8 Hl. by apply (mem64_frame _ _ a).
    + intros _. split; [done|]. intros x Hx Hx8 Hl.
      assert (Ho : x = a + 8 * off2 g x /\ 0 <= off2 g x < 16) by (unfold off2; rewrite E128; divmod).
      destruct Ho as [Hxe Ho]. rewrite Hxe at 1. rewrite M by lia. by rewrite l2_data_lookup.
  - split; [|done]. intros x Hx Hx8 Hl.
    assert (Hd := write_block_dev _ _ _ _ _ ltac:(by rewrite Hlen) ltac:(divmod) ltac:(lia) ltac:(lia) Hw).
    unfold mem64. rewrite !Hd; try done; [rewrite <- Hx; apply ram_line; divmod|divmod|divmod].
Qed.

(** Memory and the state of one line change. *)
Record cleans (c : C) (i a : Z) (c' : C) : Prop := {
  cl_dtag e : dtag c' e = dtag c e;
  cl_dc : dc_data c' = dc_data c;
  cl_l2 : l2_data c' = l2_data c;
  cl_stag j : j <> i -> stag c' j = stag c j;
  cl_same : same_lines c c';
  cl_cs : s_cs (stag c' i) = 0 \/ 4 <= s_cs (stag c' i) <= 7;
  cl_out x : ram x = true -> x mod 8 = 0 -> ~ line_of a x -> mem64 (downstream c') x = mem64 (downstream c) x;
  cl_in x : ram x = true -> x mod 8 = 0 -> line_of a x -> clean_l2 (stag c' i) = true -> scell c i (off2 g x) = mem64 (downstream c') x;
}.

Lemma cleans_inv c i a c' : inv c -> holds_line c i a -> cleans c i a c' -> inv c' /\ keeps c c'.
Proof.
  intros [J1 J2 J3 J4 J5 J6 J7 J8 J9 J10] Hl [Hdt Hdc Hl2 Hst Hs Hcs Hout Hin]. pose proof Hl as [Ha Hal Hidx Hh].
  assert (Hdcell : forall e o, dcell c' e o = dcell c e o) by (intros; unfold dcell; by rewrite Hdc).
  assert (Hscell : forall e o, scell c' e o = scell c e o) by (intros; unfold scell; by rewrite Hl2).
  split.
  - split.
    + by apply (same_inv_l2 c).
    + intros j. destruct (decide (j = i)) as [->|Hne]; [done|]. rewrite Hst by done. apply J2.
    + intros j. rewrite (sl_pidx _ _ Hs). apply J3.
    + intros e He. rewrite Hdt in He |- *. destruct (J4 e He) as (x & ? & ? & ? & ? & ?). exists x.
      by rewrite (same_H2 _ _ _ Hs), (same_place _ _ _ Hs).
    + intros e. rewrite Hdt. apply J5.
    + intros x Hx. rewrite (same_H1 _ _ _ Hs), (same_place _ _ _ Hs), Hdt, Hdcell, Hscell. by apply J6.
    + intros x Hx Hx8. rewrite (same_H2 _ _ _ Hs), Hscell. intros Hhx Hc. destruct (decide (si x = i)) as [E|E].
      * rewrite E in Hc |- *. apply Hin; try done. apply (held_line c); try done; [by apply ram_phys|congruence].
      * rewrite Hst in Hc by done. rewrite Hout; try done; [by apply J7|]. intros He. apply E. rewrite <- Hidx. by apply line_index.
    + intros k. rewrite Hdc. apply J8.
    + intros k. rewrite Hl2. apply J9.
    + intros x Hx. rewrite (same_H2 _ _ _ Hs), (sl_pidx _ _ Hs). by apply J10.
  - split; [|intros x Hx; unfold dirty1; rewrite (same_H1 _ _ _ Hs), (same_place _ _ _ Hs), Hdt, Hscell; done].
    intros x Hx Hx8. unfold content. rewrite (same_H1 _ _ _ Hs), (same_H2 _ _ _ Hs), (same_place _ _ _ Hs), Hdcell, Hscell.
    destruct (H1 c x); [done|]. destruct (H2 c x) eqn:E; [done|]. apply Hout; try done. intros He.
    rewrite (H2_line c x a (ram_phys _ Hx) Ha He) in E. congruence.
Qed.

(** The primary blocks of line [a] are clean. *)
Definition flushed (c : C) (a : Z) : Prop := forall x, phys_ok x -> line_of a x -> H1 c x = true -> d_dirty (dtag c (place c x)) = false.

Lemma same_holds c c' i a : same_lines c c' -> holds_line c i a -> holds_line c' i a.
Proof. intros Hs [? ? ? ?]. split; try done. by rewrite (same_H2 _ _ _ Hs). Qed.

(** A line goes to memory and its state becomes [cs]. *)
Lemma store_cleans c i a b s cs c' : inv c -> holds_line c i a ->
  write_block (downstream c) a (get_chunks (l2_data c) (i * l2_chunks g) (l2_chunks g)) = (b, s) -> 4 <= cs <= 7 ->
  downstream c' = b -> dc_tags c' = dc_tags c -> dc_data c' = dc_data c -> l2_data c' = l2_data c ->
  (forall j, stag c' j = if j =? i then (stag c i) <| s_cs := cs |> else stag c j) -> cleans c i a c'.
Proof.
  intros Hi Hl Hw Hcs Hb Hdt Hdc Hl2 Hst. destruct (l2_store c i a b s Hi Hl Hw) as [Hout Hin]. rewrite <- Hb in *.
  assert (Hn : s_cs (stag c i) <> L2_CS_INVALID).
  { destruct Hl as [_ _ <- Hh]. apply andb_prop in Hh as [Hh _]. by apply negb_true_iff, Z.eqb_neq in Hh. }
  split; try done.
  - intros e. unfold dtag. by rewrite Hdt.
  - intros j Hj. rewrite Hst. by rewrite (proj2 (Z.eqb_neq _ _) Hj).
  - split; intros j; try rewrite Hst; try (destruct (Z.eqb_spec j i) as [->|]; [|done]); try done.
    + unfold dtag. by rewrite Hdt.
    + cbn. rewrite (proj2 (Z.eqb_neq _ _) Hn). apply Z.eqb_neq. unfold L2_CS_INVALID. lia.
  - rewrite Hst, Z.eqb_refl. cbn. by right.
  - intros x Hx Hx8 Hxl _. symmetry. apply Hin; [by rewrite <- (ram_same a x Hxl)|by apply ram_phys|done|done].
Qed.

Lemma writeback_l2_ok c i : inv c -> let c' := (writeback_l2_line g c i).1 in
  inv c' /\ keeps c c' /\ same_lines c c' /\
  (forall a, holds_line c i a -> flushed c' a /\ (ram a = true -> clean_l2 (stag c' i) = true)).
Proof.
  intros Hi. cbn zeta. unfold writeback_l2_line. rewrite not_r5k. cbn [negb].
  set (t := stag c i). set (pb := l2_tag_to_phys t _).
  destruct (flush_line_ok c i (s_pidx t) pb Hi) as (Hi1 & Hk1 & Hs1 & Hd1 & Hc1). cbn zeta in *.
  set (c1 := each_l1d_of g _ i (s_pidx t) pb c) in *.
  assert (Hfl : forall a, holds_line c i a -> flushed c1 a).
  { intros a Ha x Hx Hl Hh. apply (Hc1 a Ha eq_refl); try done. by apply line_phys. }
  case_match eqn:Ecs; cbn [fst]; [split_and!; try done; intros a Ha; split; [by apply Hfl|done]|].
  destruct (valid_line c i Hi) as [a Ha].
  { intros E. pose proof (sl_cs _ _ Hs1 i) as E'. rewrite E in E'. apply Z.eqb_eq in E'. rewrite E' in Ecs. done. }
  assert (Hpb : pb = a) by (by apply line_phys). rewrite Hpb, shift_l2_chunks.
  assert (Ha1 := same_holds _ _ _ _ Hs1 Ha). unfold down_write_block.
  destruct (write_block (downstream c1) a _) as [b s] eqn:Ew.
  assert (Hcl : forall cs c2, 4 <= cs <= 7 -> downstream c2 = b -> dc_tags c2 = dc_tags c1 -> dc_data c2 = dc_data c1 -> l2_data c2 = l2_data c1 ->
    (forall j, stag c2 j = if j =? i then (stag c1 i) <| s_cs := cs |> else stag c1 j) ->
    inv c2 /\ keeps c c2 /\ same_lines c c2 /\ forall a, holds_line c i a -> flushed c2 a).
  { intros cs c2 Hcs E1 E2 E3 E4 E5. pose proof (store_cleans c1 i a b s cs c2 Hi1 Ha1 Ew Hcs E1 E2 E3 E4 E5) as Hcl.
    destruct (cleans_inv c1 i a c2 Hi1 Ha1 Hcl) as [Hi2 Hk2]. pose proof (cl_same _ _ _ _ Hcl) as Hs2.
    split_and!; [done|by etransitivity|by etransitivity|]. intros y Hy x Hx Hl Hh.
    rewrite (same_place _ _ _ Hs2), (cl_dtag _ _ _ _ Hcl). apply (Hfl y Hy); try done. by rewrite <- (same_H1 _ _ _ Hs2). }
  destruct (Z.eqb_spec s BUS_OK) as [Es|Es]; cbn [negb fst].
  - set (cs := if _ : bool then _ else _).
    destruct (Hcl cs (set_stag (c1 <| downstream := b |>) i ((stag c1 i) <| s_cs := cs |>))) as (? & ? & ? & Hf); try done.
    { unfold cs. by case_match. }
    { intros j. by rewrite stag_set. }
    split_and!; try done. intros y Hy. split; [by apply Hf|]. intros _. rewrite stag_set, Z.eqb_refl. unfold cs. by case_match.
  - destruct (Hcl (s_cs (stag c1 i)) (c1 <| downstream := b |>)) as (? & ? & ? & Hf); try done.
    { destruct (iv_cs c1 Hi1 i) as [E|]; [|done]. by rewrite E in Ecs. }
    { intros j. change (stag (c1 <| downstream := b |>) j) with (stag c1 j). destruct (Z.eqb_spec j i) as [->|]; [|done]. by destruct (stag c1 i). }
    split_and!; try done. intros y Hy. split; [by apply Hf|]. intros Hr. exfalso. apply Es.
    apply (l2_store c1 i a b s Hi1 Ha1 Ew). rewrite <- Hr. apply ram_same. apply (held_line c); try apply Ha; try apply Hy.
    by rewrite (hl_index _ _ _ Hy), (hl_index _ _ _ Ha).
Qed.

(** ** Caches that differ in what is not data *)

Record agree (c c' : C) : Prop := {
  ag_down : downstream c' = downstream c;
  ag_dtags : dc_tags c' = dc_tags c;
  ag_dc : dc_data c' = dc_data c;
  ag_stags : l2_tags c' = l2_tags c;
  ag_l2 : l2_data c' = l2_data c;
}.

#[export] Instance agree_preorder : PreOrder agree.
Proof. split; [by split|]. intros c1 c2 c3 [] []. split; congruence. Qed.

Lemma agree_drops c c' : agree c c' -> drops c c'.
Proof. intros [H1' H2' H3' H4' H5']. split; try done; intros; unfold stag, dtag; rewrite ?H2', ?H4'; auto. Qed.

Lemma agree_inv c c' : agree c c' -> inv c -> inv c' /\ keeps c c'.
Proof.
  intros Ha Hi. pose proof (agree_drops _ _ Ha) as Hd. split; [by apply (drops_inv c)|].
  split; [|by apply drops_still]. intros x Hx _. apply drops_content; [done|done|by apply ram_phys|]. intros E E'. exfalso.
  destruct Ha as [_ Hdt _ Hst _]. unfold H1, l2_holds, place, dtag, stag in *. rewrite Hdt, Hst in E'. congruence.
Qed.

Lemma drop_l1i_agree i p pb c : agree c (drop_l1i_of g i p pb c).
Proof.
  unfold drop_l1i_of. apply (for_each_ind (fun _ c' => agree c c')); [by geom Hg|done|].
  intros k c' _ Hc. case_match; [|done]. etransitivity; [done|]. by split.
Qed.

(** ** Fewer primary lines *)

(** The secondary lines are the same, the primary ones are among those there were. *)
Record fewer (c c' : C) : Prop := {
  fw_ptag i : s_ptag (stag c' i) = s_ptag (stag c i);
  fw_pidx i : s_pidx (stag c' i) = s_pidx (stag c i);
  fw_cs i : (s_cs (stag c' i) =? L2_CS_INVALID) = (s_cs (stag c i) =? L2_CS_INVALID);
  fw_dtag e : d_ptag (dtag c' e) = d_ptag (dtag c e) \/ d_ptag (dtag c' e) = 0;
}.

#[export] Instance fewer_preorder : PreOrder fewer.
Proof.
  split; [split; auto|]. intros c1 c2 c3 [A1 A2 A3 A4] [D1 D2 D3 D4]. split; intros; try congruence.
  destruct (D4 e) as [->|]; auto.
Qed.

Lemma same_fewer c c' : same_lines c c' -> fewer c c'.
Proof. intros []. split; auto. Qed.

Lemma drops_fewer c c' : drops c c' -> fewer c c'.
Proof. intros [Hs _ _ _ Hd]. split; intros; rewrite ?Hs; try done. destruct (Hd e) as [->| ->]; auto. Qed.

Lemma fewer_H2 c c' a : fewer c c' -> H2 c' a = H2 c a.
Proof. intros [Hp _ Hc _]. unfold l2_holds. by rewrite Hp, Hc. Qed.

Lemma fewer_place c c' a : fewer c c' -> place c' a = place c a.
Proof. intros [_ Hp _ _]. unfold place. by rewrite Hp. Qed.

Lemma fewer_holds c c' i a : fewer c c' -> holds_line c i a -> holds_line c' i a.
Proof. intros Hf [? ? ? ?]. split; try done. by rewrite (fewer_H2 _ _ _ Hf). Qed.

Lemma fewer_valid c c' e : fewer c c' -> d_is_valid (dtag c' e) = true -> d_is_valid (dtag c e) = true.
Proof. intros Hf. unfold d_is_valid. by destruct (fw_dtag _ _ Hf e) as [->| ->]. Qed.

Lemma fewer_H1 c c' a : phys_ok a -> fewer c c' -> H1 c' a = true -> H1 c a = true.
Proof.
  intros Ha Hf. unfold H1. rewrite (fewer_H2 _ _ _ Hf), (fewer_place _ _ _ Hf). unfold d_matches_line.
  destruct (fw_dtag _ _ Hf (place c a)) as [->| ->]; [done|]. pose proof (default_matches a Ha) as Hm. unfold d_matches_line in Hm. cbn in *.
  by rewrite Hm, andb_false_r.
Qed.

(** What a turn finds is a block of the line. *)
Lemma matched_block c i a k c1 e : inv c -> holds_line c i a -> 0 <= k < 2 ^ (l2_line_shift g - dc_line_shift g) -> inv c1 ->
  e = (l2_idx_to_l1_base_idx g i (s_pidx (stag c i)) (dc_line_shift g) (dc_sets_shift g) + k) .& Z.ones (dc_sets_shift g) ->
  d_matches_line (dtag c1 e) (a + (k .<< dc_line_shift g)) = true -> exists b, holds_block c1 e b /\ line_of a b.
Proof.
  intros Hi Ha Hk Hi1 He Hm. destruct (block_in_line g a k Hg (hl_phys _ _ _ Ha) (hl_align _ _ _ Ha) Hk) as [Hok Hl].
  rewrite (turn_index c i a k Hi Ha Hk) in He. rewrite Z.shiftl_mul_pow2 in Hm by (by geom Hg).
  destruct (valid_block c1 e Hi1 (matches_valid c1 e _ Hi1 Hok Hm)) as [b Hb]. exists b. split; [done|]. rewrite <- Hl.
  apply block_line; [done|].
  apply (same_block g (s_pidx (stag c1 (si b))) (s_pidx (stag c (si (a + k * 2 ^ dc_line_shift g))))); [done| |].
  - by apply (matches_page _ b (hb_phys _ _ _ Hb) (hb_tag _ _ _ Hb) _ Hok).
  - rewrite <- (hb_place _ _ _ Hb) in He. exact He.
Qed.

(** A loop that removes what it finds leaves no block of the line. *)
Lemma drop_loop (f : C -> Z -> C) (R : C -> C -> Prop) `{!PreOrder R} c i a : inv c -> holds_line c i a ->
  (forall c e b, inv c -> holds_block c e b -> line_of a b -> inv (f c e) /\ R c (f c e) /\ d_ptag (dtag (f c e) e) = 0) ->
  (forall c c', R c c' -> fewer c c') ->
  let c' := each_l1d_of g f i (s_pidx (stag c i)) a c in
  inv c' /\ R c c' /\ forall x, phys_ok x -> line_of a x -> H1 c' x = false.
Proof.
  intros Hi Ha Hf HRf. cbn zeta. unfold each_l1d_of. set (n := 2 ^ (l2_line_shift g - dc_line_shift g)). set (h := fun (c : C) (k : Z) => _).
  cut (let c' := for_each n h c in inv c' /\ R c c' /\ forall j x, 0 <= j < n -> phys_ok x ->
    x / 2 ^ dc_line_shift g = (a + j * 2 ^ dc_line_shift g) / 2 ^ dc_line_shift g -> H1 c' x = false).
  { cbn zeta. intros (? & ? & Hx). split_and!; try done. intros x Hok Hl.
    destruct (line_blocks g a x Hg (hl_align _ _ _ Ha) Hl) as (j & Hj & He). by apply (Hx j). }
  cbn zeta. apply (for_each_ind (fun k c' => inv c' /\ R c c' /\ forall j x, 0 <= j < k -> phys_ok x ->
    x / 2 ^ dc_line_shift g = (a + j * 2 ^ dc_line_shift g) / 2 ^ dc_line_shift g -> H1 c' x = false)).
  - apply turns_nonneg.
  - split_and!; try done. intros. lia.
  - intros k c1 Hk (Hi1 & HR1 & Hc1). unfold h. set (e := _ .& Z.ones (dc_sets_shift g)).
    assert (Hpe : forall x, phys_ok x -> x / 2 ^ dc_line_shift g = (a + k * 2 ^ dc_line_shift g) / 2 ^ dc_line_shift g ->
      place c x = e /\ forall t, d_matches_line t (a + (k .<< dc_line_shift g)) = d_matches_line t x).
    { intros x Hx He. by apply (turn_block c i a k x). }
    destruct (d_matches_line (dtag c1 e) (a + (k .<< dc_line_shift g))) eqn:Em.
    + destruct (matched_block c i a k c1 e Hi Ha Hk Hi1 eq_refl Em) as (b & Hb & Hlb).
      destruct (Hf c1 e b Hi1 Hb Hlb) as (Hi2 & HR2 & He2). split_and!; [done|by etransitivity|].
      intros j x Hj Hx He. destruct (decide (j = k)) as [->|Hne].
      * destruct (Hpe x Hx He) as [Hp _]. unfold H1. rewrite (fewer_place _ _ _ (HRf _ _ HR2)), (fewer_place _ _ _ (HRf _ _ HR1)), Hp.
        unfold d_matches_line. rewrite He2. pose proof (default_matches x Hx) as Hm. unfold d_matches_line in Hm. cbn in *. by rewrite Hm, andb_false_r.
      * apply not_true_is_false. intros E%(fewer_H1 c1); [|done|by apply HRf]. rewrite (Hc1 j x) in E; done || lia.
    + split_and!; try done. intros j x Hj Hx He. destruct (decide (j = k)) as [->|Hne]; [|apply (Hc1 j); done || lia].
      destruct (Hpe x Hx He) as [Hp Hm]. unfold H1. by rewrite (fewer_place _ _ _ (HRf _ _ HR1)), Hp, <- Hm, Em, andb_false_r.
Qed.

(** ** A new secondary tag *)

Definition tag_holds (t : L2Tag) (x : Z) : bool := negb (s_cs t =? L2_CS_INVALID) && (s_ptag t =? l2_ptag x).

(** A primary line does not match an address no block of whose line is held. *)
Lemma no_alias c p x : inv c -> phys_ok x -> (forall y, phys_ok y -> line_of x y -> H1 c y = false) ->
  d_matches_line (dtag c (dc_index g (vaddr p x))) x = false.
Proof.
  intros Hi Hx Hn. apply not_true_is_false. intros Hm. destruct (valid_block c _ Hi (matches_valid c _ x Hi Hx Hm)) as [b Hb].
  destruct (block_H1 c _ b b Hb (hb_phys _ _ _ Hb) eq_refl) as [Hh Hp]. rewrite Hn in Hh; [done|apply Hb|].
  apply block_line; [done|]. apply (same_block g (s_pidx (stag c (si b))) p); [done| |exact (hb_place _ _ _ Hb)].
  by apply (matches_page _ b (hb_phys _ _ _ Hb) (hb_tag _ _ _ Hb) x Hx).
Qed.

Lemma retag_H1 c i t x : inv c -> (forall y, phys_ok y -> si y = i -> H1 c y = false) -> phys_ok x ->
  H1 (set_stag c i t) x = H1 c x /\ (si x <> i -> place (set_stag c i t) x = place c x).
Proof.
  intros Hi Hn Hx. split; [|intros E; unfold place; by rewrite stag_set, (proj2 (Z.eqb_neq _ _) E)].
  destruct (decide (si x = i)) as [E|E].
  - rewrite (Hn x Hx E). unfold H1, place, l2_holds. change (dtag (set_stag c i t)) with (dtag c). rewrite stag_set.
    rewrite no_alias; [by rewrite andb_false_r|done|done|]. intros y Hy Hl. apply Hn; [done|]. rewrite <- E. by apply line_index.
  - unfold H1, place, l2_holds. rewrite stag_set, (proj2 (Z.eqb_neq _ _) E). done.
Qed.

(** Line [i] gets tag [t], while no block of it is in the primary cache. *)
Lemma retag_ok c i t : inv c ->
  (s_cs t <> L2_CS_INVALID -> exists a, phys_ok a /\ a mod 2 ^ l2_line_shift g = 0 /\ si a = i /\ s_ptag t = l2_ptag a) ->
  (s_cs t = 0 \/ 4 <= s_cs t <= 7) -> 0 <= s_pidx t < 8 ->
  (forall y, phys_ok y -> si y = i -> H1 c y = false) ->
  (forall x, ram x = true -> x mod 8 = 0 -> si x = i -> tag_holds t x = true ->
     scell c i (off2 g x) = content c x /\ (clean_l2 t = true -> scell c i (off2 g x) = mem64 (downstream c) x)) ->
  (forall x, ram x = true -> x mod 8 = 0 -> si x = i -> tag_holds t x = false -> content c x = mem64 (downstream c) x) ->
  (forall x, phys_ok x -> si x = i -> tag_holds t x = true -> tint (x / 2 ^ l2_line_shift g) (s_pidx t)) ->
  inv (set_stag c i t) /\ keeps c (set_stag c i t).
Proof.
  intros Hi T1 T2 T3 Hn Hin Hout T4. pose proof (fun x => retag_H1 c i t x Hi Hn) as HH.
  assert (Hh2 : forall x, H2 (set_stag c i t) x = if si x =? i then tag_holds t x else H2 c x).
  { intros x. unfold l2_holds, tag_holds. rewrite stag_set. by case_match. }
  pose proof Hi as [J1 J2 J3 J4 J5 J6 J7 J8 J9 J10]. split.
  - split; try done.
    + intros j. rewrite stag_set. destruct (Z.eqb_spec j i) as [->|]; [done|apply J1].
    + intros j. rewrite stag_set. case_match; [done|apply J2].
    + intros j. rewrite stag_set. case_match; [done|apply J3].
    + intros d Hd. change (dtag (set_stag c i t)) with (dtag c) in *. destruct (valid_block c d Hi Hd) as [b Hb].
      destruct (block_H1 c d b b Hb (hb_phys _ _ _ Hb) eq_refl) as [Hh _].
      assert (E : si b <> i) by (intros E; rewrite Hn in Hh; [done|apply Hb|done]).
      exists b. rewrite Hh2, (proj2 (Z.eqb_neq _ _) E). destruct (HH b (hb_phys _ _ _ Hb)) as [_ ->]; [|done]. by destruct Hb.
    + intros x Hx. destruct (HH x Hx) as [-> Hp]. intros Hh. rewrite Hp; [by apply J6|]. intros E. by rewrite Hn in Hh.
    + intros x Hx Hx8. rewrite Hh2, stag_set. destruct (Z.eqb_spec (si x) i) as [E|E]; [|by apply J7].
      intros Hh Hc. rewrite E. by apply Hin.
    + intros x Hx. rewrite Hh2, stag_set. destruct (Z.eqb_spec (si x) i) as [E|E]; [by apply T4|by apply J10].
  - split; [|intros x Hx [Hh Hd]; destruct (HH x Hx) as [E Hp]; rewrite E in Hh; rewrite Hp in Hd; [done|intros Ex; by rewrite Hn in Hh]].
    intros x Hx Hx8. unfold content at 1. destruct (HH x (ram_phys _ Hx)) as [-> Hp]. rewrite Hh2.
    destruct (Z.eqb_spec (si x) i) as [E|E].
    + rewrite (Hn x (ram_phys _ Hx) E). destruct (tag_holds t x) eqn:Et; [rewrite E; by apply Hin|symmetry; by apply Hout].
    + unfold content. by rewrite Hp.
Qed.

(** ** Dropping a secondary line *)

Lemma index_line c i a x : holds_line c i a -> phys_ok x -> si x = i -> H2 c x = true -> line_of a x.
Proof. intros Ha Hx E Hh. apply (held_line c); try done; try apply Ha. by rewrite E, (hl_index _ _ _ Ha). Qed.

(** RAM lines may go only when the level below has them. *)
Definition droppable (c : C) (i : Z) : Prop := forall a, holds_line c i a -> ram a = true -> flushed c a /\ clean_l2 (stag c i) = true.

(** Primary lines go, those of line [a] only. *)
Record drops_of (a : Z) (c c' : C) : Prop := {
  do_drops : drops c c';
  do_other x : phys_ok x -> ~ line_of a x -> H1 c x = true -> H1 c' x = true;
}.

#[export] Instance drops_of_preorder a : PreOrder (drops_of a).
Proof. split; [by split|]. intros c1 c2 c3 [? ?] [? ?]. split; [by etransitivity|auto]. Qed.

Lemma invalidate_drops_of a c e b : holds_block c e b -> line_of a b -> drops_of a c (invalidate_l1d_line c e).
Proof.
  intros Hb Hl. split; [apply invalidate_drops|]. intros x Hx Hn Hh. assert (Hp : place c x <> e).
  { intros Hp. apply Hn. rewrite <- Hl. apply block_line; [done|]. by apply (held_in c e b). }
  unfold H1, place, l2_holds, invalidate_l1d_line in *. change (stag (set_dtag c e d_default)) with (stag c).
  by rewrite dtag_set, (proj2 (Z.eqb_neq _ _) Hp).
Qed.

Lemma invalidate_l2_ok c i : inv c -> droppable c i -> let c' := invalidate_l2_line g c i in
  inv c' /\ keeps c c' /\ stag c' i = s_default /\ forall e, d_is_valid (dtag c' e) = true -> d_is_valid (dtag c e) = true.
Proof.
  intros Hi Hdr. cbn zeta. unfold invalidate_l2_line. rewrite not_r5k. cbn [negb].
  destruct (Z.eqb_spec (s_cs (stag c i)) L2_CS_INVALID) as [E|E].
  - assert (Hh : forall x, si x = i -> H2 c x = false) by (intros x Hx; unfold l2_holds; by rewrite Hx, E).
    destruct (retag_ok c i s_default) as [Hi' Hk]; try done; [by left|intros y _ Hy; unfold H1; by rewrite Hh| |].
    { intros x _ _ Hx _. unfold content, H1. by rewrite Hh. }
    split_and!; try done. by rewrite stag_set, Z.eqb_refl.
  - destruct (valid_line c i Hi E) as [a Ha]. rewrite (line_phys c i a Ha). pose proof (drop_l1i_agree i (s_pidx (stag c i)) a c) as Hag.
    set (c1 := drop_l1i_of g i (s_pidx (stag c i)) a c) in *. destruct (agree_inv c c1 Hag Hi) as [Hi1 Hk1].
    pose proof (drops_fewer _ _ (agree_drops _ _ Hag)) as Hf1. rewrite <- (fw_pidx _ _ Hf1 i).
    pose proof (fewer_holds _ _ _ _ Hf1 Ha) as Ha1.
    destruct (drop_loop invalidate_l1d_line (drops_of a) c1 i a Hi1 Ha1) as (Hi2 & [Hd2 Ho2] & Hg2).
    { intros c' e b Hi' Hb Hl. pose proof (invalidate_drops_of a c' e b Hb Hl) as Hd. split_and!; [by apply (drops_inv c'), Hd|done|].
      unfold invalidate_l1d_line. by rewrite dtag_set, Z.eqb_refl. }
    { intros ? ? [? _]. by apply drops_fewer. }
    cbn zeta in *. set (c2 := each_l1d_of g _ i _ a c1) in *. pose proof (drops_fewer _ _ Hd2) as Hf2.
    pose proof (fewer_holds _ _ _ _ Hf2 Ha1) as Ha2.
    assert (Hdr1 : ram a = true -> flushed c1 a /\ clean_l2 (stag c2 i) = true).
    { intros Hr. destruct (Hdr a Ha Hr) as [Hfl Hc]. split.
      - intros x Hx Hl Hh. pose proof (agree_drops _ _ Hag) as Hd1. destruct (drops_H1 c c1 x Hx Hd1 Hh) as [Hh' Hdt].
        rewrite (fewer_place _ _ _ Hf1), Hdt. by apply Hfl.
      - rewrite (dr_stag _ _ Hd2), (dr_stag _ _ (agree_drops _ _ Hag)). done. }
    assert (Hk2 : keeps c1 c2).
    { split; [|by apply drops_still]. intros x Hx Hx8. apply drops_content; try done; [by apply ram_phys|]. intros Hh Hh'.
      destruct (decide (line_of a x)) as [Hl|Hl]; [|rewrite Ho2 in Hh'; try done; by apply ram_phys].
      apply Hdr1; [by rewrite <- (ram_same a x Hl)|by apply ram_phys|done|done]. }
    assert (Hgone : forall y, phys_ok y -> si y = i -> H1 c2 y = false).
    { intros y Hy Hyi. apply not_true_is_false. intros Hh. rewrite Hg2 in Hh; [done|done|].
      apply (index_line c2 i a y Ha2); try done. by apply andb_prop in Hh as [? _]. }
    destruct (retag_ok c2 i s_default) as [Hi3 Hk3]; try done; [by left| |].
    { intros x Hx Hx8 Hxi _. unfold content. rewrite (Hgone x (ram_phys _ Hx) Hxi). destruct (H2 c2 x) eqn:Eh; [|done].
      pose proof (index_line c2 i a x Ha2 (ram_phys _ Hx) Hxi Eh) as Hl. apply (iv_clean2 c2 Hi2); try done. rewrite Hxi.
      apply Hdr1. by rewrite <- (ram_same a x Hl). }
    split_and!; [done|by repeat (etransitivity; [eassumption|])|by rewrite stag_set, Z.eqb_refl|].
    intros e He. by apply (fewer_valid c c1), (fewer_valid c1 c2).
Qed.

End Inv.

End CacheInv.
