(* ===== verification/CacheMem.v ===== *)
(** * Fills, loads and stores

    What a fill, an access and the loads and stores of an inclusive cache do
    to the memory it holds, on top of the invariant of [CacheInv]. *)

From S2P Require Import Prelude CpuDecode CpuExec CpuInstr CpuCache CacheProofs CacheInv.
Import CpuDecode CpuExec CpuInstr CpuCache CacheProofs CacheInv.

#[local] Open Scope Z_scope.
#[local] Open Scope word_scope.

Module CacheMem.

Section Mem.

Context (g : Geom) (Hg : inclusive g) {B : Type} `{HB : BusOps B} {HR : RamBus B} {T : Tints}.

Notation C := (CpuCache B).
Notation si := (l2_index g).
Notation line_of a x := (x / 2 ^ l2_line_shift g = a / 2 ^ l2_line_shift g).

(** No primary line that was not there. *)
Definition no_new (c c' : C) : Prop := forall e, d_is_valid (dtag c' e) = true -> d_is_valid (dtag c e) = true.

#[export] Instance no_new_preorder : PreOrder no_new.
Proof. split; unfold no_new; repeat intro; auto. Qed.

(** No block of the line of [a] is in the primary cache. *)
Definition vacant (c : C) (a : Z) : Prop := forall x, phys_ok x -> line_of a x -> H1 g c x = false.

(** ** Filling a secondary line *)

(** An invalid line's data, and memory outside RAM, are nobody's. *)
Lemma junk_ok (c c' : C) i : inv g c -> stag c i = s_default -> (forall e, dtag c' e = dtag c e) -> dc_data c' = dc_data c ->
  (forall j, stag c' j = stag c j) -> (forall j o, j <> i -> 0 <= o < l2_chunks g -> scell g c' j o = scell g c j o) ->
  (forall k, fits 64 (cell 0 (l2_data c') k)) ->
  (forall x, ram x = true -> x mod 8 = 0 -> mem64 (downstream c') x = mem64 (downstream c) x) -> inv g c' /\ keeps g c c'.
Proof.
  intros [J1 J2 J3 J4 J5 J6 J7 J8 J9 J10] Hi Hdt Hdc Hst Hsc Hf Hm.
  assert (Hh2 : forall x, l2_holds g c' x = l2_holds g c x) by (intros; unfold l2_holds; by rewrite Hst).
  assert (Hpl : forall x, place g c' x = place g c x) by (intros; unfold place; by rewrite Hst).
  assert (Hh1 : forall x, H1 g c' x = H1 g c x) by (intros; unfold H1; by rewrite Hh2, Hpl, Hdt).
  assert (Hno : forall x, l2_holds g c x = true -> si x <> i) by (intros x Hh E; unfold l2_holds in Hh; by rewrite E, Hi in Hh).
  assert (Hs : forall x, l2_holds g c x = true -> scell g c' (si x) (off2 g x) = scell g c (si x) (off2 g x)).
  { intros x Hh. apply Hsc; [by apply Hno|by apply off2_range]. }
  split.
  - split; try done.
    + intros j. rewrite Hst. apply J1.
    + intros j. rewrite Hst. apply J2.
    + intros j. rewrite Hst. apply J3.
    + intros d. rewrite Hdt. intros Hd. destruct (J4 d Hd) as (a & ? & ? & ? & ? & ?). exists a. by rewrite Hh2, Hpl.
    + intros d. rewrite Hdt. apply J5.
    + intros x Hx. rewrite Hh1, Hpl, Hdt. intros Hh Hd. unfold dcell. rewrite Hdc, Hs; [by apply J6|]. by apply andb_prop in Hh as [? _].
    + intros x Hx Hx8. rewrite Hh2, Hst, Hm by done. intros Hh Hc. rewrite Hs by done. by apply J7.
    + intros k. rewrite Hdc. apply J8.
    + intros x Hx. rewrite Hh2, Hst. by apply J10.
  - split; [|intros x Hx [Hh Hd]; rewrite Hh1 in Hh; rewrite Hpl, Hdt in Hd; split; [done|]; apply Hs; by apply andb_prop in Hh as [? _]].
    intros x Hx Hx8. unfold content. rewrite Hh1, Hh2, Hpl. unfold dcell. rewrite Hdc.
    destruct (H1 g c x); [done|]. destruct (l2_holds g c x) eqn:E; [by apply Hs|by apply Hm].
Qed.

Lemma writeback_droppable c i : inv g c -> droppable g (writeback_l2_line g c i).1 i.
Proof.
  intros Hi. destruct (writeback_l2_ok g Hg c i Hi) as (_ & _ & Hs & Hw). intros a Ha Hr.
  assert (Ha0 : holds_line g c i a).
  { destruct Ha as [? ? ? Hh]. split; try done. by rewrite <- (same_H2 g _ _ _ Hs). }
  destruct (Hw a Ha0) as [? Hc]. by split; [|apply Hc].
Qed.

(** Write back and drop. *)
Lemma evict_l2_ok c i : inv g c -> let c' := invalidate_l2_line g (writeback_l2_line g c i).1 i in
  inv g c' /\ keeps g c c' /\ stag c' i = s_default /\ no_new c c'.
Proof.
  intros Hi. cbn zeta. destruct (writeback_l2_ok g Hg c i Hi) as (Hi1 & Hk1 & Hs1 & _).
  destruct (invalidate_l2_ok g Hg _ i Hi1 (writeback_droppable c i Hi)) as (Hi2 & Hk2 & Hst & Hv).
  split_and!; [done|by etransitivity|done|]. intros e He%Hv. by rewrite <- (same_valid _ _ _ Hs1).
Qed.

Lemma line_base_eq k a : 0 <= k -> phys_ok a -> line_base k a = a - a mod 2 ^ k.
Proof. intros Hk Ha. apply land_bnot_ones; [done|by apply phys_fits]. Qed.

(** What a block read brings: the words of RAM. *)
Lemma fill_read (c : C) a b s l : phys_ok a -> a mod 2 ^ l2_line_shift g = 0 -> read_block (downstream c) a (Z.to_nat (l2_chunks g)) = (b, (s, l)) ->
  Forall (fits 64) l /\ Z.of_nat (length l) <= l2_chunks g /\
  (forall x, ram x = true -> x mod 8 = 0 -> mem64 b x = mem64 (downstream c) x) /\
  (ram a = true -> s = BUS_OK /\ forall k, 0 <= k < l2_chunks g -> l !! Z.to_nat k = Some (mem64 (downstream c) (a + 8 * k))).
Proof.
  intros Ha Hal Hr. destruct (line_128 g Hg) as [E128 E16]. rewrite E128 in Hal. rewrite E16 in *.
  assert (Hrng : 0 <= a /\ a + 8 * Z.of_nat (Z.to_nat 16) <= 2 ^ 36) by (unfold phys_ok in Ha; divmod).
  assert (Hall : forall x, a <= x < a + 8 * Z.of_nat (Z.to_nat 16) -> ram x = ram a) by (intros x Hx; apply ram_line; divmod).
  destruct (read_block_fits _ _ _ _ _ _ Hr) as [Hf Hl]. split; [done|]. split; [lia|]. destruct (ram a) eqn:Er.
  - rewrite read_block_ram in Hr by (done || lia || divmod). remember (map _ _) as l' eqn:El in Hr. injection Hr as <- <- <-. split; [done|]. intros _. split; [done|].
    intros k Hk. rewrite El. rewrite list_lookup_fmap, lookup_seqZ_lt by lia. cbn. do 3 f_equal. lia.
  - split; [|done]. intros x Hx Hx8. pose proof (read_block_dev _ _ _ _ _ Hall ltac:(lia) ltac:(lia) Hr) as Hd.
    unfold mem64. rewrite !Hd; try done; [rewrite <- Hx; apply ram_line; divmod|divmod|divmod].
Qed.

(** A line filled with [l]: other lines keep their data. *)
Lemma filled_cells m i l j o : Z.of_nat (length l) <= l2_chunks g -> 0 <= o < l2_chunks g ->
  lcell (set_chunks m (i * l2_chunks g) l) (l2_chunks g) j o =
  if (j =? i) && (o <? Z.of_nat (length l)) then default 0 (l !! Z.to_nat o) else lcell m (l2_chunks g) j o.
Proof.
  intros Hl Ho. unfold lcell. rewrite set_chunks_cell. destruct (Z.eqb_spec j i) as [->|Hne]; cbn [andb].
  - rewrite (proj2 (Z.leb_le _ _)) by lia. cbn [andb]. destruct (Z.ltb_spec o (Z.of_nat (length l))).
    + rewrite (proj2 (Z.ltb_lt _ _)) by lia. do 2 f_equal. lia.
    + by rewrite (proj2 (Z.ltb_ge _ _)) by lia.
  - case_match eqn:E; [|done]. apply andb_prop in E as [E1%Z.leb_le E2%Z.ltb_lt]. exfalso.
    destruct (Z.lt_total i j) as [H|[H|H]]; [nia|done|nia].
Qed.

(** The line of [phys] may be used under the virtual index of [virt]. *)
Definition used (virt phys : Z) : Prop := tint (phys / 2 ^ l2_line_shift g) (pidx virt).

Lemma fill_l2_ok c phys virt : inv g c -> phys_ok phys -> used virt phys -> let '(c', ok) := fill_l2_line g c phys virt in
  inv g c' /\ keeps g c c' /\ no_new c c' /\ (ram phys = true -> ok = true) /\
  (ok = true -> l2_holds g c' phys = true /\ s_pidx (stag c' (si phys)) = pidx virt /\ vacant c' phys).
Proof.
  intros Hi Hp Hu. unfold fill_l2_line. set (i := si phys). destruct (evict_l2_ok c i Hi) as (Hi1 & Hk1 & Hst1 & Hn1). cbn zeta in *.
  set (c1 := invalidate_l2_line g _ i) in *. unfold down_read_block. rewrite line_base_eq by (done || by geom Hg).
  set (a := phys - phys mod 2 ^ l2_line_shift g).
  assert (Ha : phys_ok a /\ a mod 2 ^ l2_line_shift g = 0 /\ line_of a phys).
  { unfold a, phys_ok in *. destruct (line_128 g Hg) as [-> _]. divmod. }
  destruct Ha as (Ha & Hal & Hline). destruct (read_block (downstream c1) a (Z.to_nat (l2_chunks g))) as [b [s l]] eqn:Er.
  destruct (fill_read c1 a b s l Ha Hal Er) as (Hf & Hlen & Hmem & Hram). rewrite shift_l2_chunks by done.
  set (c2 := (c1 <| downstream := b |>) <| l2_data ::= _ |>).
  destruct (junk_ok c1 c2 i Hi1 Hst1) as [Hi2 Hk2]; try done.
  { intros j o Hj Ho. unfold scell. cbn. rewrite filled_cells by done. by rewrite (proj2 (Z.eqb_neq _ _) Hj). }
  { intros k. cbn. apply set_chunks_fits; [apply (iv_fits2 g c1 Hi1)|done]. }
  assert (Hr : ram phys = ram a) by (by apply (ram_same g Hg)).
  assert (Hk12 : keeps g c c2) by (by etransitivity).
  destruct (Z.eqb_spec s BUS_OK) as [Es|Es]; cbn [negb].
  2:{ split_and!; try done. intros Hr'. exfalso. apply Es, Hram. congruence. }
  rewrite not_r5k by done. cbn [negb]. set (c3 := c2 <| l2_instrs ::= _ |>). set (t := mkS _ _ _ _).
  destruct (agree_inv g c2 c3) as [Hi3 Hk3]; [by split|done|].
  assert (Hno : forall x, si x = i -> l2_holds g c3 x = false).
  { intros x Hx. unfold l2_holds. rewrite Hx. change (stag c3 i) with (stag c1 i). by rewrite Hst1. }
  destruct (retag_ok g Hg c3 i t) as [Hi4 Hk4]; try done.
  { intros _. exists a. split_and!; try done; [by apply line_index|]. cbn. by apply (line_ptag g). }
  { right. by split. }
  { apply pidx_range. }
  { intros y _ Hy. unfold H1. by rewrite Hno. }
  { intros x Hx Hx8 Hxi Ht. assert (Hc : content g c3 x = mem64 (downstream c3) x) by (unfold content, H1; by rewrite Hno).
    assert (E : scell g c3 i (off2 g x) = mem64 (downstream c3) x); [|by rewrite Hc].
    pose proof (ram_phys _ Hx) as Hxp. assert (Hl : line_of a x).
    { rewrite <- Hline. apply (same_line g); try done. apply andb_prop in Ht as [_ Ht%Z.eqb_eq]. done. }
    destruct Hram as [_ Hram]; [by rewrite <- (ram_same g Hg a x Hl)|].
    pose proof (off2_range g x Hg) as Ho. unfold scell. change (l2_data c3) with (set_chunks (l2_data c1) (i * l2_chunks g) l).
    rewrite filled_cells, Z.eqb_refl by done. pose proof (Hram _ Ho) as Hlk. pose proof (lookup_lt_Some _ _ _ Hlk).
    rewrite (proj2 (Z.ltb_lt _ _)) by lia. cbn [andb]. rewrite Hlk. cbn.
    replace (a + 8 * off2 g x) with x; [symmetry; by apply Hmem|].
    unfold off2. destruct (line_128 g Hg) as [E128 _]. rewrite E128 in *. divmod. }
  { intros x _ _ Hx _. unfold content, H1. by rewrite Hno. }
  { intros x Hx Hxi [_ Ht%Z.eqb_eq]%andb_prop. unfold used in Hu. by rewrite (same_line g x phys) by done. }
  split_and!; [done|by repeat (etransitivity; [eassumption|])|done|done|]. intros _. split_and!.
  - unfold l2_holds. fold i. rewrite stag_set, Z.eqb_refl. cbn. by rewrite Z.eqb_refl.
  - fold i. by rewrite stag_set, Z.eqb_refl.
  - assert (Hno1 : forall y, phys_ok y -> si y = i -> H1 g c3 y = false) by (intros y _ Hy; unfold H1; by rewrite Hno).
    intros x Hx Hl. rewrite (proj1 (retag_H1 g Hg c3 i t x Hi3 Hno1 Hx)). apply Hno1; [done|]. by apply line_index.
Qed.

(** ** A line used under another virtual index *)

Lemma evict_fewer c e : inv g c -> let c' := invalidate_l1d_line (writeback_l1d g c e).1 e in
  inv g c' /\ (keeps g c c' /\ fewer c c') /\ d_ptag (dtag c' e) = 0.
Proof.
  intros Hi. cbn zeta. destruct (evict_l1d_ok g Hg c e Hi) as (Hi' & Hk & He & _). destruct (writeback_l1d_ok g Hg c e Hi) as (_ & _ & Hs & _).
  split_and!; [done|done| |by rewrite He]. etransitivity; [by apply same_fewer|]. apply drops_fewer, invalidate_drops.
Qed.

#[local] Instance keeps_fewer_preorder : PreOrder (fun c c' : C => keeps g c c' /\ fewer c c').
Proof. split; [by split|]. intros c1 c2 c3 [? ?] [? ?]. split; by etransitivity. Qed.

Lemma realias_ok c phys p : inv g c -> phys_ok phys -> l2_holds g c phys = true -> 0 <= p < 8 -> tint (phys / 2 ^ l2_line_shift g) p -> let c' := realias_l2_line g c (si phys) p in
  inv g c' /\ keeps g c c' /\ no_new c c' /\ l2_holds g c' phys = true /\ s_pidx (stag c' (si phys)) = p /\ vacant c' phys.
Proof.
  intros Hi Hp Hh Hr Hu. cbn zeta. unfold realias_l2_line. set (i := si phys).
  assert (Hv : s_cs (stag c i) <> L2_CS_INVALID) by (apply andb_prop in Hh as [Hh _]; by apply negb_true_iff, Z.eqb_neq in Hh).
  destruct (valid_line g c i Hi Hv) as [a Ha]. rewrite (line_phys g Hg c i a Ha).
  pose proof (drop_l1i_agree g Hg i (s_pidx (stag c i)) a c) as Hag. set (c1 := drop_l1i_of g i _ a c) in *.
  destruct (agree_inv g c c1 Hag Hi) as [Hi1 Hk1]. pose proof (drops_fewer _ _ (agree_drops _ _ Hag)) as Hf1.
  pose proof (fewer_holds g _ _ _ _ Hf1 Ha) as Ha1. rewrite <- (fw_pidx _ _ Hf1 i).
  destruct (drop_loop g Hg (fun c i => invalidate_l1d_line (writeback_l1d g c i).1 i) (fun c c' => keeps g c c' /\ fewer c c') c1 i a Hi1 Ha1
    (fun c' e b Hi' _ _ => evict_fewer c' e Hi') ltac:(by intros ? ? [_ ?])) as (Hi2 & [Hk2 Hf2] & Hg2).
  set (c2 := each_l1d_of g _ i _ a c1) in *. pose proof (fewer_holds g _ _ _ _ Hf2 Ha1) as Ha2. set (t := _ <| s_pidx := p |>).
  assert (Ht : forall x, si x = i -> l2_holds g c2 x = tag_holds t x) by (intros x Hx; unfold l2_holds; by rewrite Hx).
  assert (Hgone : forall y, phys_ok y -> si y = i -> H1 g c2 y = false).
  { intros y Hy Hyi. apply not_true_is_false. intros E. rewrite Hg2 in E; [done|done|].
    apply (index_line g Hg c2 i a y Ha2); try done. by apply andb_prop in E as [? _]. }
  destruct (retag_ok g Hg c2 i t) as [Hi3 Hk3]; try done.
  { exact (iv_l2 g c2 Hi2 i). }
  { exact (iv_cs g c2 Hi2 i). }
  { intros x Hx Hx8 Hxi Htx. rewrite <- Ht in Htx by done. unfold content. rewrite (Hgone x (ram_phys _ Hx) Hxi), Htx, Hxi.
    split; [done|]. intros Hc. rewrite <- Hxi. apply (iv_clean2 g c2 Hi2); try done. by rewrite Hxi. }
  { intros x Hx Hx8 Hxi Htx. rewrite <- Ht in Htx by done. unfold content. by rewrite (Hgone x (ram_phys _ Hx) Hxi), Htx. }
  { intros x Hx Hxi Htx. rewrite <- Ht in Htx by done. rewrite (index_line g Hg c2 i a x Ha2 Hx Hxi Htx).
    by rewrite <- (index_line g Hg c i a phys Ha Hp eq_refl Hh). }
  split_and!; [done|by repeat (etransitivity; [eassumption|])| | |by rewrite stag_set, Z.eqb_refl|].
  - intros e He. by apply (fewer_valid c c1), (fewer_valid c1 c2).
  - unfold l2_holds. fold i. rewrite stag_set, Z.eqb_refl. unfold t. cbn [s_cs s_ptag].
    rewrite <- Hh, <- (fewer_H2 g _ _ _ Hf1), <- (fewer_H2 g _ _ _ Hf2). done.
  - intros x Hx Hl. rewrite (proj1 (retag_H1 g Hg c2 i t x Hi2 Hgone Hx)). apply Hgone; [done|]. by apply line_index.
Qed.

(** The ways an access can fail: a virtual coherency exception, on the R4400
    and of a line used under another virtual index, or a bus error, outside RAM. *)
Definition refused (virt phys vce err st : Z) : Prop :=
  (st = vce /\ g = R4400 /\ exists p, tint (phys / 2 ^ l2_line_shift g) p /\ p <> pidx virt) \/ (st = err /\ ram phys = false).

Lemma has_vce : HAS_VCE g = true -> g = R4400.
Proof. unfold HAS_VCE. intros E%bool_decide_eq_true. by destruct Hg as [->| ->]. Qed.

Lemma ensure_l2_ok c virt phys vce err : inv g c -> phys_ok phys -> used virt phys -> let '(c', r) := ensure_l2 g c virt phys vce err in
  inv g c' /\ keeps g c c' /\ no_new c c' /\
  match r with
  | None => l2_holds g c' phys = true /\ s_pidx (stag c' (si phys)) = pidx virt /\ (c' = c \/ vacant c' phys)
  | Some st => refused virt phys vce err st
  end.
Proof.
  intros Hi Hp Hu. unfold ensure_l2. rewrite not_r5k by done. cbn [negb andb].
  destruct (l2_holds g c phys) eqn:Hh.
  - destruct (Z.eqb_spec (pidx virt) (s_pidx (stag c (si phys)))) as [E|E]; cbn [negb]; [split_and!; auto; done|].
    destruct (HAS_VCE g) eqn:Ev; [split_and!; try done; left; split_and!; [done|by apply has_vce|]; exists (s_pidx (stag c (si phys))); split; [by apply (iv_tint g c Hi)|done]|].
    destruct (realias_ok c phys (pidx virt) Hi Hp Hh (pidx_range virt) Hu) as (? & ? & ? & ? & ? & ?). split_and!; auto.
  - pose proof (fill_l2_ok c phys virt Hi Hp Hu) as Hf. destruct (fill_l2_line g c phys virt) as [c' ok].
    destruct Hf as (? & ? & ? & Hr & Hok). split_and!; try done. destruct ok; [destruct Hok as (? & ? & ?); auto|]. right. split; [done|].
    apply not_true_is_false. intros E%Hr. done.
Qed.

(** ** Filling a primary line *)

Notation block_of a x := (x / 2 ^ dc_line_shift g = a / 2 ^ dc_line_shift g).

(** The block of [phys], held by the secondary cache, copied to line [d]. *)
Record installed (c : C) (d phys : Z) (c' : C) : Prop := {
  in_phys : phys_ok phys;
  in_H2 : l2_holds g c phys = true;
  in_place : place g c phys = d;
  in_free : d_is_valid (dtag c d) = false;
  in_stag i : stag c' i = stag c i;
  in_dtag e : dtag c' e = if e =? d then d_valid phys L1D_CS_CLEAN_EXCLUSIVE false else dtag c e;
  in_l2 : l2_data c' = l2_data c;
  in_down : downstream c' = downstream c;
  in_cell e o : 0 <= o < dc_chunks g -> dcell g c' e o = if e =? d then scell g c (si phys) (off2 g (phys - phys mod 2 ^ dc_line_shift g) + o) else dcell g c e o;
  in_fits k : fits 64 (cell 0 (dc_data c') k);
}.

Lemma installed_H2 c d phys c' x : installed c d phys c' -> l2_holds g c' x = l2_holds g c x /\ place g c' x = place g c x.
Proof. intros [_ _ _ _ Hs _ _ _ _ _]. unfold l2_holds, place. by rewrite Hs. Qed.

(** Afterwards a held address is of that block or was held before. *)
Lemma installed_H1 c d phys c' x : inv g c -> installed c d phys c' -> phys_ok x ->
  (block_of phys x /\ H1 g c' x = true /\ place g c x = d /\ H1 g c x = false /\ l2_holds g c x = true) \/
  (~ block_of phys x /\ H1 g c' x = H1 g c x /\ (H1 g c x = true -> place g c x <> d)).
Proof.
  intros Hi Hin Hx. destruct (installed_H2 _ _ _ _ x Hin) as [Eh Ep]. pose proof Hin as [Hp Hh Hpl Hfr _ Hdt _ _ _ _].
  unfold H1 at 1 3. rewrite Eh, Ep, Hdt.
  assert (Hfree : H1 g c x = true -> place g c x <> d).
  { intros [_ Hm]%andb_prop E. apply (matches_valid g) in Hm; try done. rewrite E in Hm. congruence. }
  assert (Hmd : d_matches_line (d_valid phys L1D_CS_CLEAN_EXCLUSIVE false) x = true <-> phys / 4096 = x / 4096) by (by apply matches_page).
  destruct (decide (block_of phys x)) as [Eb|Nb].
  - left. assert (E : place g c x = d) by (rewrite <- Hpl; by apply place_block).
    assert (Hh2 : l2_holds g c x = true) by (rewrite <- Hh; apply H2_line; try done; by apply block_line).
    rewrite E, Z.eqb_refl, Hh2. split_and!; try done; [|by apply not_true_is_false; intros F; apply Hfree in F].
    apply Hmd. symmetry. by apply (block_page g).
  - right. split; [done|]. split; [|done]. destruct (Z.eqb_spec (place g c x) d) as [E|E]; [|done].
    assert (F : H1 g c x = false) by (apply not_true_is_false; intros F; by apply Hfree in F). rewrite F.
    apply not_true_is_false. intros [_ Hm]%andb_prop. apply Hmd in Hm. apply Nb.
    apply (same_block g (s_pidx (stag c (si x))) (s_pidx (stag c (si phys)))); [done|done|]. by unfold place in *; rewrite E.
Qed.

(** The doublewords of the block are the secondary cache's. *)
Lemma installed_cell c d phys c' x : installed c d phys c' -> phys_ok x -> block_of phys x ->
  dcell g c' d (off1 g x) = scell g c (si x) (off2 g x).
Proof.
  intros Hin Hx Eb. rewrite (in_cell _ _ _ _ Hin), Z.eqb_refl by (by apply off1_range).
  rewrite (line_index g x phys Hg (block_line g x phys Hg Eb)). f_equal. symmetry.
  apply (off2_off1 g x); [done| |]; destruct (in_phys _ _ _ _ Hin); geom Hg; divmod.
Qed.

Lemma installed_ok c d phys c' : inv g c -> installed c d phys c' ->
  inv g c' /\ keeps g c c' /\ H1 g c' phys = true /\ place g c' phys = d.
Proof.
  intros Hi Hin. pose proof Hin as [Hp Hh Hpl Hfr Hs Hdt Hl2 Hdn Hce Hf]. pose proof Hi as [J1 J2 J3 J4 J5 J6 J7 J8 J9 J10].
  pose proof (fun x => installed_H2 c d phys c' x Hin) as HH. pose proof (fun x => installed_H1 c d phys c' x Hi Hin) as HH1.
  assert (Hsc : forall i o, scell g c' i o = scell g c i o) by (intros; unfold scell; by rewrite Hl2).
  split_and!.
  - split; try done.
    + intros i. rewrite Hs. apply J1.
    + intros i. rewrite Hs. apply J2.
    + intros i. rewrite Hs. apply J3.
    + intros e. rewrite Hdt. destruct (Z.eqb_spec e d) as [->|]; intros He.
      * exists (phys - phys mod 2 ^ dc_line_shift g). set (b := _ - _).
        assert (Hb : phys_ok b /\ b mod 2 ^ dc_line_shift g = 0 /\ block_of phys b) by (unfold b, phys_ok in *; geom Hg; divmod).
        destruct Hb as (Hb & Hba & Hbb). destruct (HH b) as [-> ->]. split_and!; try done.
        -- rewrite <- Hh. apply H2_line; try done. by apply block_line.
        -- rewrite <- Hpl. by apply place_block.
        -- cbn. apply page_tag_inj; [by apply phys_fits|by apply phys_fits|]. symmetry. by apply (block_page g).
      * destruct (J4 e He) as (a & ? & ? & ? & ? & ?). exists a. destruct (HH a) as [-> ->]. done.
    + intros e. rewrite Hdt. case_match; [done|apply J5].
    + intros x Hx. destruct (HH x) as [_ ->]. rewrite Hsc, Hdt. destruct (HH1 x Hx) as [(Eb & _ & -> & _)|(Nb & -> & Hne)].
      * intros _ _. by apply (installed_cell c d phys).
      * intros Hh1. rewrite (Hce (place g c x)) by (by apply off1_range). rewrite (proj2 (Z.eqb_neq _ _) (Hne Hh1)). by apply J6.
    + intros x Hx Hx8. destruct (HH x) as [-> _]. rewrite Hs, Hdn, Hsc. by apply J7.
    + intros k. rewrite Hl2. apply J9.
    + intros x Hx. destruct (HH x) as [-> _]. rewrite Hs. by apply J10.
  - split.
    2:{ intros x Hx [Hhx Hdx]. destruct (HH x) as [_ Ex]. rewrite Ex, Hdt in Hdx. rewrite Hsc.
        destruct (HH1 x Hx) as [(_ & _ & Ep & _)|(_ & Eh & Hne)]; [by rewrite Ep, Z.eqb_refl in Hdx|]. rewrite Eh in Hhx.
        rewrite (proj2 (Z.eqb_neq _ _) (Hne Hhx)) in Hdx. done. }
    intros x Hx Hx8. pose proof (ram_phys _ Hx) as Hxp. unfold content. destruct (HH x) as [-> ->]. rewrite Hsc, Hdn.
    destruct (HH1 x Hxp) as [(Eb & -> & -> & -> & ->)|(Nb & -> & Hne)]; [by apply (installed_cell c d phys)|].
    destruct (H1 g c x) eqn:E; [|done]. rewrite Hce by (by apply off1_range). by rewrite (proj2 (Z.eqb_neq _ _) (Hne eq_refl)).
  - by destruct (HH1 phys Hp) as [(_ & ? & _)|(? & _)].
  - by destruct (HH phys) as [_ ->].
Qed.

(** [virt] is translated to [phys]. *)
Definition maps_to (virt phys : Z) : Prop := phys_ok phys /\ 0 <= virt /\ virt mod 4096 = phys mod 4096.

Lemma fill_l1d_ok c virt phys : inv g c -> maps_to virt phys -> used virt phys -> let '(c', r) := fill_l1d_line g c virt phys in
  inv g c' /\ keeps g c c' /\
  ((r = 0 /\ H1 g c' phys = true /\ place g c' phys = dc_index g virt) \/ refused virt phys BUS_VCE BUS_ERR r).
Proof.
  intros Hi (Hp & Hv & Hm) Hu. unfold fill_l1d_line. rewrite not_r5k, has_l2_true by done. set (d := dc_index g virt).
  destruct (evict_l1d_ok g Hg c d Hi) as (Hi1 & Hk1 & Hd1 & _). cbn zeta in *. set (c1 := invalidate_l1d_line _ d) in *.
  pose proof (ensure_l2_ok c1 virt phys BUS_VCE BUS_ERR Hi1 Hp Hu) as He. destruct (ensure_l2 g c1 virt phys BUS_VCE BUS_ERR) as [c2 st].
  destruct He as (Hi2 & Hk2 & Hn2 & Hst). destruct st as [st|]; [split_and!; [done|by etransitivity|by right]|].
  destruct Hst as (Hh & Hx & _). rewrite line_base_eq by (done || by geom Hg). set (b := phys - _).
  rewrite off2_code, shift_chunks, shift_l2_chunks by done. set (c3 := set_dtag _ d _).
  assert (Hin : installed c2 d phys c3).
  { split; try done.
    - unfold place. rewrite Hx. symmetry. by apply virt_index.
    - apply not_true_is_false. intros E%Hn2. by rewrite Hd1 in E.
    - intros e. unfold c3. rewrite dtag_set. by case_match.
    - intros e o Ho. unfold dcell, c3. cbn. pose proof (off1_range g 0 Hg).
      rewrite <- (Z.add_0_r (d * dc_chunks g)), copy_lcell by lia. rewrite (proj2 (Z.leb_le 0 o)), (proj2 (Z.ltb_lt o _)) by lia.
      rewrite !andb_true_r. case_match; [|done]. unfold scell, lcell. f_equal. fold b. lia.
    - intros k. cbn. apply set_chunks_fits; [apply (iv_fits1 g c2 Hi2)|apply get_chunks_fits, (iv_fits2 g c2 Hi2)]. }
  destruct (installed_ok c2 d phys c3 Hi2 Hin) as (Hi3 & Hk3 & Hh3 & Hp3).
  split_and!; [done|by repeat (etransitivity; [eassumption|])|by left].
Qed.

(** A hit: the primary line under the virtual index matches. *)
Lemma hit_H1 c virt phys : inv g c -> maps_to virt phys -> d_matches_phys (dtag c (dc_index g virt)) phys = true ->
  H1 g c phys = true /\ place g c phys = dc_index g virt.
Proof.
  intros Hi (Hp & Hv & Hm) Hh. rewrite (virt_index g virt phys Hg Hv Hm) in *. set (d := dc_index g (vaddr _ phys)) in *.
  assert (Hml : d_matches_line (dtag c d) phys = true).
  { unfold d_matches_phys in Hh. unfold d_matches_line. apply Z.eqb_eq in Hh. rewrite Hh, page_tag_fast, Z.eqb_refl by (by apply phys_fits). done. }
  destruct (valid_block g c d Hi (matches_valid g c d phys Hi Hp Hml)) as [b Hb]. apply (block_H1 g Hg c d b); [done|done|].
  symmetry. apply (same_block g (s_pidx (stag c (si b))) (pidx virt)); [done| |exact (hb_place _ _ _ _ Hb)].
  by apply (matches_page _ b (hb_phys _ _ _ _ Hb) (hb_tag _ _ _ _ Hb) phys Hp).
Qed.

Lemma access_ok c virt phys : inv g c -> maps_to virt phys -> used virt phys -> let '(c', (r, da)) := access g c virt phys in
  inv g c' /\ keeps g c c' /\ da = virt /\
  ((r = 0 /\ H1 g c' phys = true /\ place g c' phys = dc_index g virt) \/ refused virt phys BUS_VCE BUS_ERR r).
Proof.
  intros Hi Hm Hu. unfold access. rewrite not_r5k by done. cbn [negb].
  destruct (d_matches_phys (dtag c (dc_index g virt)) phys) eqn:E.
  - destruct (hit_H1 c virt phys Hi Hm E). split_and!; try done. by left.
  - pose proof (fill_l1d_ok c virt phys Hi Hm Hu) as Hf. destruct (fill_l1d_line g c virt phys) as [c' r]. destruct Hf as (? & ? & ?). by split_and!.
Qed.

(** ** Elements of a doubleword *)

(** The [size] bytes at [a] of the big-endian doubleword [v] around it. *)
Definition field (size a v : Z) : Z := wrap (8 * size) (v .>> (8 * (8 - size - a mod 8))).
Definition set_field (size a x v : Z) : Z :=
  let sh := 8 * (8 - size - a mod 8) in (v .& bnot 64 (Z.ones (8 * size) .<< sh)) .| (wrap (8 * size) x .<< sh).

Definition access_size (size : Z) : Prop := size = 1 \/ size = 2 \/ size = 4 \/ size = 8.

Lemma lxor_low k q : 0 <= k <= 3 -> 0 <= q -> (q .^ (2 ^ k - 1)) / 2 ^ k = q / 2 ^ k /\ (q .^ (2 ^ k - 1)) mod 2 ^ k = 2 ^ k - 1 - q mod 2 ^ k.
Proof.
  intros Hk Hq. rewrite <- !Z.shiftr_div_pow2, <- !Z.land_ones by lia. rewrite Z.shiftr_lxor, Z.land_comm, (Z.land_comm q).
  assert (Hr : forall r, 0 <= r < 2 ^ k -> r .^ (2 ^ k - 1) = 2 ^ k - 1 - r /\ (2 ^ k - 1) .>> k = 0).
  { assert (E : k = 0 \/ k = 1 \/ k = 2 \/ k = 3) by lia. intros r Hr.
    assert (Er : r = 0 \/ r = 1 \/ r = 2 \/ r = 3 \/ r = 4 \/ r = 5 \/ r = 6 \/ r = 7).
    { destruct E as [->|[->|[->| ->]]]; pow2; lia. }
    destruct E as [->|[->|[->| ->]]]; pow2; repeat (destruct Er as [->|Er]; [try (split; reflexivity); lia|]); subst r; (split; reflexivity) || lia. }
  destruct (Hr 0) as [_ ->]; [lia|]. rewrite Z.lxor_0_r. split; [done|].
  assert (Hd : Z.ones k .& (q .^ (2 ^ k - 1)) = (q .& Z.ones k) .^ (2 ^ k - 1)).
  { apply Z.bits_inj'. intros i Hi. rewrite Z.land_spec, !Z.lxor_spec, Z.land_spec. replace (2 ^ k - 1) with (Z.ones k) by (rewrite Z.ones_equiv; lia).
    by destruct (Z.testbit q i), (Z.testbit (Z.ones k) i). }
  rewrite Hd, (Z.land_comm (Z.ones k)), Z.land_ones by lia. apply Hr. apply Z.mod_pos_bound. lia.
Qed.

(** Which doubleword and which bits of it an element is. *)
Lemma element_pos size m : access_size size -> 0 <= m -> m mod size = 0 ->
  element size m / (8 / size) = m / 8 /\ 8 * size * (element size m mod (8 / size)) = 8 * (8 - size - m mod 8).
Proof.
  intros Hs Hm Ha. unfold element. destruct Hs as [->|[->|[->| ->]]]; cbn [Z.eqb Pos.eqb]; rewrite ?Z.shiftr_div_pow2 by done.
  - pose proof (lxor_low 3 m ltac:(lia) Hm) as [E1 E2]. change (8 / 1) with (2 ^ 3). change 7 with (2 ^ 3 - 1). rewrite E1, E2. pow2. split; [done|]. divmod.
  - pose proof (lxor_low 2 (m / 2 ^ 1) ltac:(lia) ltac:(divmod)) as [E1 E2]. change (8 / 2) with (2 ^ 2). change 3 with (2 ^ 2 - 1). rewrite E1, E2. split; divmod.
  - pose proof (lxor_low 1 (m / 2 ^ 2) ltac:(lia) ltac:(divmod)) as [E1 E2]. change (8 / 4) with (2 ^ 1). change (m / 2 ^ 2 .^ 1) with (m / 2 ^ 2 .^ (2 ^ 1 - 1)). rewrite E1, E2. split; divmod.
  - change (8 / 8) with 1. rewrite Z.div_1_r, Z.mod_1_r. split; divmod.
Qed.

Lemma field_set_same size a x v : access_size size -> a mod size = 0 -> field size a (set_field size a x v) = wrap (8 * size) x.
Proof.
  intros Hs Ha. unfold field, set_field. set (w := 8 * size). set (sh := 8 * (8 - _ - _)).
  assert (Hw : 0 <= w /\ 0 <= sh /\ sh + w <= 64) by (unfold w, sh; destruct Hs as [->|[->|[->| ->]]]; divmod). unfold bnot. zbits.
  cbn [orb]. f_equal. lia.
Qed.

Lemma set_field_fits size a x v : access_size size -> a mod size = 0 -> fits 64 v -> fits 64 (set_field size a x v).
Proof.
  intros Hs Ha Hv. unfold set_field. apply lor_fits; [done|by apply land_fits_l|].
  pose proof (wrap_fits (8 * size) x ltac:(destruct Hs as [->|[->|[->| ->]]]; lia)) as Hw. unfold fits in Hw.
  rewrite Z.shiftl_mul_pow2 by (destruct Hs as [->|[->|[->| ->]]]; divmod). split; [apply Z.mul_nonneg_nonneg; lia|].
  eapply Z.lt_le_trans; [apply Z.mul_lt_mono_pos_r; [|apply Hw]; apply Z.pow_pos_nonneg; [lia|]|rewrite <- Z.pow_add_r; [apply Z.pow_le_mono_r|..]];
    destruct Hs as [->|[->|[->| ->]]]; divmod.
Qed.

(** ** Loads and stores *)

Definition dword (a : Z) : Z := a - a mod 8.

Lemma dword_block a : phys_ok a -> phys_ok (dword a) /\ block_of a (dword a) /\ off1 g (dword a) = off1 g a.
Proof. intros Ha. unfold dword, off1, phys_ok in *. geom Hg; divmod. Qed.

Lemma H1_block (c : C) a b : phys_ok a -> phys_ok b -> block_of b a -> H1 g c a = H1 g c b /\ place g c a = place g c b.
Proof.
  intros Ha Hb E. assert (Hp : place g c a = place g c b) by (by apply place_block). split; [|done].
  unfold H1. rewrite (H2_line g Hg c a b Ha Hb (block_line g a b Hg E)), Hp. f_equal. unfold d_matches_line. f_equal.
  apply page_tag_inj; [by apply phys_fits|by apply phys_fits|]. by apply (block_page g).
Qed.

(** Where the data array keeps a virtual address. *)
Lemma data_index virt phys : maps_to virt phys -> let m := virt .& (dc_bytes g - 1) in
  0 <= m /\ m / 8 = dc_index g virt * dc_chunks g + off1 g phys /\ m mod 8 = phys mod 8.
Proof.
  intros (Hp & Hv & Hm). cbn zeta.
  assert (Hb : virt .& (dc_bytes g - 1) = virt mod 2 ^ (dc_line_shift g + dc_sets_shift g)).
  { unfold dc_bytes. geom Hg; cbn [dc_ways]; rewrite Z.mul_1_r; rewrite <- Z.land_ones by done; f_equal. }
  rewrite Hb, dc_index_eq by done. unfold dc_chunks, off1. geom Hg; divmod.
Qed.

Lemma data_element virt phys size : maps_to virt phys -> access_size size -> phys mod size = 0 ->
  let e := element size (virt .& (dc_bytes g - 1)) in
  e / (8 / size) = dc_index g virt * dc_chunks g + off1 g phys /\ 8 * size * (e mod (8 / size)) = 8 * (8 - size - phys mod 8).
Proof.
  intros Hm Hs Ha. destruct (data_index virt phys Hm) as (H0 & Hd & Hr). cbn zeta in *.
  rewrite <- Hd, <- Hr. apply element_pos; [done|done|]. revert Hr Ha. destruct Hs as [->|[->|[->| ->]]]; intros; divmod.
Qed.

Lemma read_content (c : C) virt phys size : maps_to virt phys -> access_size size -> phys mod size = 0 ->
  H1 g c phys = true -> place g c phys = dc_index g virt -> dc_read g c size virt = field size phys (content g c (dword phys)).
Proof.
  intros Hm Hs Ha Hh Hp. destruct Hm as [Hok Hm'] eqn:Em. clear Em. destruct (dword_block phys Hok) as (Hdk & Hdb & Hdo).
  unfold content. destruct (H1_block c (dword phys) phys Hdk Hok Hdb) as [-> ->]. rewrite Hh, Hp, Hdo.
  unfold dc_read, view_get. destruct (data_element virt phys size (conj Hok Hm') Hs Ha) as [-> ->]. done.
Qed.

(** One doubleword of a held block changes, and the line is marked dirty. *)
Definition poke (c : C) (d k v : Z) : C := mark_l1d_dirty (c <| dc_data ::= <[k := v]> |>) d.

Lemma poke_same c d k v : same_lines c (poke c d k v).
Proof. split; try done. intros e. unfold poke, mark_l1d_dirty. rewrite dtag_set. by destruct (Z.eqb_spec e d) as [->|]. Qed.

Lemma poke_cell c d phys v e o : 0 <= o < dc_chunks g ->
  dcell g (poke c d (d * dc_chunks g + off1 g phys) v) e o = if (e =? d) && (o =? off1 g phys) then v else dcell g c e o.
Proof.
  intros Ho. unfold dcell, lcell. cbn. rewrite cell_insert. pose proof (off1_range g phys Hg).
  destruct (Z.eqb_spec e d) as [->|Hne]; cbn [andb].
  - destruct (Z.eqb_spec (d * dc_chunks g + o) (d * dc_chunks g + off1 g phys)), (Z.eqb_spec o (off1 g phys)); done || lia.
  - destruct (Z.eqb_spec (e * dc_chunks g + o) (d * dc_chunks g + off1 g phys)) as [E|]; [|done].
    apply lcell_neq in E as [? _]; done.
Qed.

Lemma poke_ok c d phys v : inv g c -> phys_ok phys -> H1 g c phys = true -> place g c phys = d -> fits 64 v ->
  let c' := poke c d (d * dc_chunks g + off1 g phys) v in
  inv g c' /\ forall x, phys_ok x -> x mod 8 = 0 -> content g c' x = if x =? dword phys then v else content g c x.
Proof.
  intros Hi Hp Hh Hpl Hv. cbn zeta. set (c' := poke c d _ v). pose proof (poke_same c d (d * dc_chunks g + off1 g phys) v : same_lines c c') as Hs.
  assert (Hdt : forall e, dtag c' e = if e =? d then (dtag c e) <| d_dirty := true |> else dtag c e).
  { intros e. unfold c', poke, mark_l1d_dirty. rewrite dtag_set. by destruct (Z.eqb_spec e d) as [->|]. }
  assert (Hdc : forall x, dcell g c' (place g c x) (off1 g x) = if (place g c x =? d) && (off1 g x =? off1 g phys) then v else dcell g c (place g c x) (off1 g x)).
  { intros x. apply poke_cell. by apply off1_range. }
  destruct (held_block g Hg c phys Hi Hp Hh) as (b & Hb & Hba & Hbb & Hpb & Hbt & Hbh). rewrite Hpl in Hpb, Hbt.
  pose proof Hi as [J1 J2 J3 J4 J5 J6 J7 J8 J9 J10]. split.
  - split; try done.
    + intros e He. rewrite (same_valid _ _ _ Hs) in He. destruct (J4 e He) as (a & ? & ? & ? & ? & ?).
      exists a. by rewrite (same_H2 g _ _ _ Hs), (same_place g _ _ _ Hs), (sl_dptag _ _ Hs).
    + intros e. rewrite (same_valid _ _ _ Hs), Hdt. destruct (Z.eqb_spec e d) as [->|]; [|apply J5]. intros _.
      rewrite <- Hpl. apply (matches_valid g c _ phys Hi Hp). by apply andb_prop in Hh as [_ ?].
    + intros x Hx. rewrite (same_H1 g _ _ _ Hs), (same_place g _ _ _ Hs), Hdt, Hdc. destruct (Z.eqb_spec (place g c x) d); [done|]. cbn [andb]. by apply J6.
    + intros k. unfold c'. cbn. rewrite cell_insert. case_match; [done|apply J8].
  - intros x Hx Hx8. unfold content. rewrite (same_H1 g _ _ _ Hs), (same_H2 g _ _ _ Hs), (same_place g _ _ _ Hs), Hdc.
    destruct (dword_block phys Hp) as (Hdk & Hdb & Hdo). destruct (Z.eqb_spec x (dword phys)) as [->|Hne].
    + destruct (H1_block c (dword phys) phys Hdk Hp Hdb) as [-> ->]. by rewrite Hh, Hpl, Hdo, !Z.eqb_refl.
    + destruct (H1 g c x) eqn:Ex; [|done]. case_match eqn:E; [|done]. exfalso. apply andb_prop in E as [E1%Z.eqb_eq E2%Z.eqb_eq].
      apply Hne. assert (Hbk : block_of phys x).
      { rewrite Hbb. apply (held_in g Hg c d b); try done. }
      unfold off1, dword in *. geom Hg; divmod.
Qed.

Lemma refused_big virt phys r : refused virt phys BUS_VCE BUS_ERR r -> (1 <? r) = true.
Proof. by intros [[-> _]|[-> _]]. Qed.

Lemma read_ok c size virt phys : inv g c -> maps_to virt phys -> used virt phys -> access_size size -> phys mod size = 0 ->
  let '(c', (st, v)) := read g c size virt phys in
  inv g c' /\ keeps g c c' /\
  ((st = BUS_OK /\ (ram phys = true -> v = field size phys (content g c (dword phys)))) \/ refused virt phys BUS_VCE BUS_ERR st).
Proof.
  intros Hi Hm Hu Hs Ha. unfold read. pose proof (access_ok c virt phys Hi Hm Hu) as Hac. destruct (access g c virt phys) as [c' [r da]].
  destruct Hac as (Hi' & Hk & -> & [(-> & Hh & Hp)|Hr]).
  - cbn [Z.ltb Z.compare]. split_and!; try done. left. split; [done|]. intros Hram. rewrite (read_content c' virt phys) by done.
    f_equal. apply (kp_content g _ _ Hk); [|unfold dword; divmod]. rewrite <- Hram. apply ram_line. unfold dword. divmod.
  - rewrite (refused_big _ _ _ Hr). split_and!; try done. by right.
Qed.

(** RAM after a store: the primary cache has it, the levels below have what
    they had, or what was there before it. *)
Record stored (c c' : C) (a : Z) (f : Z -> Z) : Prop := {
  so_content x : ram x = true -> x mod 8 = 0 -> content g c' x = if x =? dword a then f (content g c x) else content g c x;
  so_below x : ram x = true -> x mod 8 = 0 -> below g c' x = below g c x \/ below g c' x = content g c x;
}.

Lemma poke_below (c : C) d k v x : below g (poke c d k v) x = below g c x.
Proof. unfold below. by rewrite (same_H2 g _ _ _ (poke_same c d k v)). Qed.

Lemma stored_poke c c1 phys virt v f : inv g c1 -> keeps g c c1 -> maps_to virt phys -> H1 g c1 phys = true -> place g c1 phys = dc_index g virt ->
  fits 64 v -> v = f (content g c1 (dword phys)) ->
  let c' := poke c1 (dc_index g virt) (dc_index g virt * dc_chunks g + off1 g phys) v in inv g c' /\ stored c c' phys f.
Proof.
  intros Hi Hk Hm Hh Hp Hv Ev. cbn zeta. destruct (poke_ok c1 _ phys v Hi (proj1 Hm) Hh Hp Hv) as [Hi' Hc]. split; [done|].
  split; [|intros x Hx Hx8; rewrite poke_below; by apply (keeps_below g _ _ _ Hi Hk)].
  intros x Hx Hx8. rewrite Hc by (done || by apply ram_phys). rewrite <- (kp_content g _ _ Hk x Hx Hx8). by destruct (Z.eqb_spec x (dword phys)) as [->|].
Qed.

Lemma held_cell (c : C) virt phys : maps_to virt phys -> H1 g c phys = true -> place g c phys = dc_index g virt ->
  cell 0 (dc_data c) (dc_index g virt * dc_chunks g + off1 g phys) = content g c (dword phys).
Proof.
  intros (Hok & _) Hh Hp. destruct (dword_block phys Hok) as (Hdk & Hdb & Hdo). unfold content.
  destruct (H1_block c (dword phys) phys Hdk Hok Hdb) as [-> ->]. by rewrite Hh, Hp, Hdo.
Qed.

Lemma dc_write_poke (c : C) virt phys size val : maps_to virt phys -> access_size size -> phys mod size = 0 ->
  H1 g c phys = true -> place g c phys = dc_index g virt ->
  mark_l1d_dirty (dc_write g c size virt val) (dc_index g virt) =
  poke c (dc_index g virt) (dc_index g virt * dc_chunks g + off1 g phys) (set_field size phys val (content g c (dword phys))).
Proof.
  intros Hm Hs Ha Hh Hp. destruct (data_element virt phys size Hm Hs Ha) as [He1 He2].
  unfold poke, dc_write, view_set. rewrite He1, He2. unfold set_field. by rewrite <- (held_cell c virt phys) by done.
Qed.

Lemma write_ok c size virt phys val : inv g c -> maps_to virt phys -> used virt phys -> access_size size -> phys mod size = 0 ->
  let '(c', st) := write g c size virt phys val in
  inv g c' /\ ((st = BUS_OK /\ stored c c' phys (set_field size phys val)) \/ (refused virt phys BUS_VCE BUS_ERR st /\ keeps g c c')).
Proof.
  intros Hi Hm Hu Hs Ha. unfold write. pose proof (access_ok c virt phys Hi Hm Hu) as Hac. destruct (access g c virt phys) as [c1 [r da]].
  destruct Hac as (Hi1 & Hk & -> & [(-> & Hh & Hp)|Hr]); [|rewrite (refused_big _ _ _ Hr); split; [done|by right]].
  cbn [Z.ltb Z.compare]. unfold eidx_of. rewrite not_r5k by done.
  destruct (stored_poke c c1 phys virt (set_field size phys val (content g c1 (dword phys))) (set_field size phys val)) as [Hi' Hst]; try done.
  { apply set_field_fits; [done|done|]. rewrite <- (held_cell c1 virt phys) by done. apply (iv_fits1 g c1 Hi1). }
  rewrite (dc_write_poke c1 virt phys) by done. split; [done|by left].
Qed.

Lemma masked_store_ok c virt phys val mask : inv g c -> maps_to virt phys -> used virt phys -> phys mod 8 = 0 -> fits 64 val ->
  let '(c', st) := write64_masked g c virt phys val mask in
  inv g c' /\ ((st = BUS_OK /\ stored c c' phys (fun v => (v .& bnot 64 mask) .| (val .& mask))) \/ (refused virt phys BUS_VCE BUS_ERR st /\ keeps g c c')).
Proof.
  intros Hi Hm Hu Ha Hval. unfold write64_masked. pose proof (access_ok c virt phys Hi Hm Hu) as Hac. destruct (access g c virt phys) as [c1 [r da]].
  destruct Hac as (Hi1 & Hk & -> & [(-> & Hh & Hp)|Hr]); [|rewrite (refused_big _ _ _ Hr); split; [done|by right]].
  cbn [Z.ltb Z.compare]. unfold eidx_of. rewrite not_r5k by done. assert (Hs : access_size 8) by (unfold access_size; lia).
  assert (Hf : fits 64 (content g c1 (dword phys))) by (rewrite <- (held_cell c1 virt phys) by done; apply (iv_fits1 g c1 Hi1)).
  rewrite (read_content c1 virt phys 8) by done. set (v0 := content g c1 (dword phys)) in *.
  assert (Hfld : field 8 phys v0 = v0) by (unfold field; rewrite Ha; cbn [Z.sub Z.opp Z.add Z.mul Z.pos_sub]; rewrite Z.shiftr_0_r; by apply wrap_small).
  rewrite Hfld. set (v := _ .| _). assert (Hv : fits 64 v) by (apply lor_fits; [done|by apply land_fits_l|by apply land_fits_l]).
  destruct (stored_poke c c1 phys virt v (fun v => (v .& bnot 64 mask) .| (val .& mask))) as [Hi' Hst]; try done.
  assert (Ev : set_field 8 phys v v0 = v).
  { unfold set_field. rewrite Ha. change (8 * 8) with 64. rewrite wrap_small by done. change (8 * (8 - 8 - 0)) with 0. rewrite !Z.shiftl_0_r.
    change (bnot 64 (Z.ones 64)) with 0. by rewrite Z.land_0_r. }
  rewrite (dc_write_poke c1 virt phys) by done. fold v0. rewrite Ev. split; [done|by left].
Qed.

End Mem.
End CacheMem.
