(* ===== verification/CacheFetch.v ===== *)
(** * Instruction fetch

    The primary instruction cache keeps tags only; the words are in the decode
    slots of the secondary cache.  [finv] says that a valid secondary line's
    slots hold the words of its data and that the secondary cache includes the
    instruction lines.  Every operation keeps it, so a fetch returns the word
    the secondary cache, or memory, holds. *)

From S2P Require Import Prelude CpuDecode CpuExec CpuInstr CpuCache CacheProofs CacheInv CacheMem.

(** ** Cleaning

    After [writeback_all], or [writeback_range] by physical address, memory
    holds what the caches hold: of everything, or of the range. *)

Module CacheClean.

Import CpuDecode CpuExec CpuInstr CpuCache CacheProofs CacheInv CacheMem.
#[local] Open Scope Z_scope.
#[local] Open Scope word_scope.

Section Clean.

Context (g : Geom) (Hg : inclusive g) {B : Type} `{HB : BusOps B} {HR : RamBus B} {T : Tints}.

Notation C := (CpuCache B).
Notation si := (l2_index g).
Notation line_of a x := (x / 2 ^ l2_line_shift g = a / 2 ^ l2_line_shift g).
Notation block_of a x := (x / 2 ^ dc_line_shift g = a / 2 ^ dc_line_shift g).

(** ** Lines do not become dirty *)

Record calmer (c c' : C) : Prop := {
  ca_same : same_lines c c';
  ca_dirty e : d_dirty (dtag c' e) = true -> d_dirty (dtag c e) = true;
}.

#[export] Instance calmer_preorder : PreOrder calmer.
Proof. split; [by split|]. intros c1 c2 c3 [? ?] [? ?]. split; [by etransitivity|auto]. Qed.

(** What every write-back keeps. *)
Definition tidy (c c' : C) : Prop := inv g c' /\ keeps g c c' /\ calmer c c'.

Lemma tidy_refl c : inv g c -> tidy c c.
Proof. intros Hi. unfold tidy. by split_and!. Qed.

Lemma tidy_trans c1 c2 c3 : tidy c1 c2 -> tidy c2 c3 -> tidy c1 c3.
Proof. unfold tidy. intros (? & ? & ?) (? & ? & ?). split_and!; [done|by etransitivity|by etransitivity]. Qed.

Lemma writeback_l1d_tidy c d : inv g c -> tidy c (writeback_l1d g c d).1.
Proof. intros Hi. destruct (writeback_l1d_ok g Hg c d Hi) as (? & ? & ? & _ & _ & ?). unfold tidy. by split_and!. Qed.

(** A loop of turns that are tidy. *)
Lemma loop_tidy n (f : C -> Z -> C) c : 0 <= n -> inv g c -> (forall c i, inv g c -> tidy c (f c i)) -> tidy c (for_each n f c).
Proof.
  intros Hn Hi Hf. apply (for_each_ind (fun _ c' => tidy c c')); [done|by apply tidy_refl|].
  intros k c' _ Hc. eapply tidy_trans; [done|]. apply Hf, Hc.
Qed.

Lemma flush_tidy c i p pb : inv g c -> tidy c (each_l1d_of g (fun c i => (writeback_l1d g c i).1) i p pb c).
Proof.
  intros Hi. apply loop_tidy; [apply (turns_nonneg g Hg)|done|]. intros c' k Hc. cbv beta zeta. case_match; [by apply writeback_l1d_tidy|by apply tidy_refl].
Qed.

Lemma writeback_l2_tidy c i : inv g c -> tidy c (writeback_l2_line g c i).1.
Proof.
  intros Hi. destruct (writeback_l2_ok g Hg c i Hi) as (? & ? & ? & _). unfold tidy. split_and!; try done. split; [done|].
  intros e. unfold writeback_l2_line, down_write_block. rewrite not_r5k by done. cbn [negb].
  set (c1 := each_l1d_of _ _ _ _ _ c).
  assert (Hc1 : d_dirty (dtag c1 e) = true -> d_dirty (dtag c e) = true) by (by apply flush_tidy).
  case_match; [done|]. destruct (write_block _ _ _) as [b s]. by case_match.
Qed.

Lemma writeback_l1d_line_tidy c d cascade : inv g c -> tidy c (writeback_l1d_line g c d cascade).
Proof.
  intros Hi. unfold writeback_l1d_line, writeback_l2_line_phys. pose proof (writeback_l1d_tidy c d Hi) as Ht.
  destruct (writeback_l1d g c d) as [c' took]. cbn in Ht. case_match; [|done]. case_match; [|done].
  eapply tidy_trans; [done|]. apply writeback_l2_tidy, Ht.
Qed.

Lemma writeback_l1d_line_calm c d cascade : inv g c -> d_dirty (dtag (writeback_l1d_line g c d cascade) d) = false.
Proof.
  intros Hi. unfold writeback_l1d_line, writeback_l2_line_phys. destruct (writeback_l1d_ok g Hg c d Hi) as (Hi2 & _ & _ & _ & Hd & _).
  destruct (writeback_l1d g c d) as [c2 took]. cbn in Hd, Hi2. destruct (took && cascade); [|done]. destruct (l2_holds g c2 _); [|done].
  match goal with |- context [writeback_l2_line g c2 ?i] => destruct (writeback_l2_tidy c2 i Hi2) as (_ & _ & Hc2) end.
  apply not_true_is_false. intros E%(ca_dirty _ _ Hc2). congruence.
Qed.

(** ** Lines the level below has *)

(** If it is held, no block of the line of [x] is dirty, nor is the line, in RAM. *)
Definition settled (c : C) (x : Z) : Prop :=
  l2_holds g c x = true -> flushed g c x /\ (ram x = true -> clean_l2 (stag c (si x)) = true).

(** The block of [x] is not dirty. *)
Definition calm (c : C) (x : Z) : Prop := H1 g c x = true -> d_dirty (dtag c (place g c x)) = false.

(** Then memory holds [x]. *)
Lemma published c x : inv g c -> ram x = true -> x mod 8 = 0 -> calm c x -> (l2_holds g c x = true -> clean_l2 (stag c (si x)) = true) ->
  mem64 (downstream c) x = content g c x.
Proof.
  intros Hi Hx Hx8 Hcalm Hc. unfold content. destruct (H1 g c x) eqn:E1.
  - assert (E2 : l2_holds g c x = true) by (by apply andb_prop in E1 as [? _]).
    rewrite (iv_clean1 g c Hi) by (done || by apply ram_phys || by apply Hcalm). symmetry. apply (iv_clean2 g c Hi); try done. by apply Hc.
  - destruct (l2_holds g c x) eqn:E2; [|done]. symmetry. apply (iv_clean2 g c Hi); try done. by apply Hc.
Qed.

Lemma settled_calm c x : phys_ok x -> settled c x -> calm c x.
Proof. intros Hx Hs Hh. by apply Hs; [apply andb_prop in Hh as [? _]|..]. Qed.

(** Of a block that is not dirty the levels below have everything. *)
Lemma calm_below c x : inv g c -> phys_ok x -> calm c x -> below g c x = content g c x.
Proof. intros Hi Hx Hc. apply (below_clean g c x Hi Hx). intros [Hh Hd]. rewrite (Hc Hh) in Hd. done. Qed.

Lemma settled_published c x : inv g c -> ram x = true -> x mod 8 = 0 -> settled c x -> mem64 (downstream c) x = content g c x.
Proof.
  intros Hi Hx Hx8 Hs. apply published; try done.
  - apply settled_calm; [by apply ram_phys|done].
  - intros Hh. by apply Hs.
Qed.

Lemma calmer_calm c c' x : calmer c c' -> calm c x -> calm c' x.
Proof.
  intros [Hs Hd] Hc. unfold calm. rewrite (same_H1 g _ _ _ Hs), (same_place g _ _ _ Hs). intros Hh.
  apply not_true_is_false. intros E%Hd. rewrite (Hc Hh) in E. done.
Qed.

Lemma calmer_flushed c c' x : calmer c c' -> flushed g c x -> flushed g c' x.
Proof. intros Hc Hf y Hy Hl. apply (calmer_calm c c' y Hc). intros Hh. by apply Hf. Qed.

Lemma writeback_l1d_settled c d x : inv g c -> phys_ok x -> settled c x -> settled (writeback_l1d g c d).1 x.
Proof.
  intros Hi Hx Hs. pose proof (writeback_l1d_tidy c d Hi) as (_ & _ & Hc).
  destruct (writeback_l1d_cases g Hg c d Hi) as [[-> _]|[a Hw]]; [done|]. intros Hh. rewrite (same_H2 g _ _ _ (ca_same _ _ Hc)) in Hh.
  destruct (Hs Hh) as [Hf Hcl]. split; [by apply (calmer_flushed c)|]. intros Hr. rewrite (wr_stag _ _ _ _ _ Hw).
  destruct (Z.eqb_spec (si x) (si a)) as [E|E]; [|by apply Hcl]. exfalso.
  pose proof (wr_block _ _ _ _ _ Hw) as Hb. pose proof (hb_phys _ _ _ _ Hb) as Ha.
  destruct (block_H1 g Hg c d a a Hb Ha eq_refl) as [Hha Hp]. pose proof (wr_dirty _ _ _ _ _ Hw) as Hd. rewrite <- Hp in Hd.
  rewrite (Hf a) in Hd; [done|done| |done]. apply (held_line g Hg c); try done. apply Hb.
Qed.

Lemma flush_settled c i p pb x : inv g c -> phys_ok x -> settled c x -> settled (each_l1d_of g (fun c i => (writeback_l1d g c i).1) i p pb c) x.
Proof.
  intros Hi Hx Hs. unfold each_l1d_of. apply (for_each_ind (fun _ c' => inv g c' /\ settled c' x)); [apply (turns_nonneg g Hg)|done|].
  intros k c' _ [Hi' Hs']. case_match; [|done]. split; [by apply writeback_l1d_tidy|by apply writeback_l1d_settled].
Qed.

Lemma writeback_l2_settles c i x : inv g c -> phys_ok x -> si x = i -> settled (writeback_l2_line g c i).1 x.
Proof.
  intros Hi Hx Hxi Hh. destruct (writeback_l2_ok g Hg c i Hi) as (_ & _ & Hs & Hw). cbn zeta in *.
  rewrite (same_H2 g _ _ _ Hs) in Hh. assert (Hv : s_cs (stag c i) <> L2_CS_INVALID).
  { apply andb_prop in Hh as [Hh _]. rewrite Hxi in Hh. by apply negb_true_iff, Z.eqb_neq in Hh. }
  destruct (valid_line g c i Hi Hv) as [a Ha]. destruct (Hw a Ha) as [Hf Hc]. pose proof (index_line g Hg c i a x Ha Hx Hxi Hh) as Hl.
  split; [intros y Hy Hly; apply Hf; [done|congruence]|]. intros Hr. rewrite Hxi. apply Hc. by rewrite <- (ram_same g Hg a x Hl).
Qed.

Lemma writeback_l2_settled c i x : inv g c -> phys_ok x -> settled c x -> settled (writeback_l2_line g c i).1 x.
Proof.
  intros Hi Hx Hs. destruct (decide (si x = i)) as [E|E]; [by apply writeback_l2_settles|].
  unfold writeback_l2_line, down_write_block. rewrite not_r5k by done. cbn [negb].
  pose proof (flush_settled c i (s_pidx (stag c i)) (l2_tag_to_phys (stag c i) (i .<< l2_line_shift g)) x Hi Hx Hs) as Hs1.
  set (c1 := each_l1d_of _ _ _ _ _ c) in *. case_match; [done|]. destruct (write_block _ _ _) as [b s]. case_match; [done|].
  assert (Hst : forall j t c2, j <> i -> stag (set_stag c2 i t) j = stag (c2 : C) j).
  { intros j t c2 Hj. rewrite stag_set. by rewrite (proj2 (Z.eqb_neq _ _) Hj). }
  intros Hh. unfold l2_holds in Hh. cbn [fst] in *. rewrite Hst in Hh by done. destruct (Hs1 Hh) as [Hf Hc].
  split; [|by rewrite Hst by done]. intros y Hy Hl. assert (Ey : si y <> i) by (by rewrite (line_index g y x Hg Hl)).
  unfold H1, place, l2_holds. rewrite Hst by done. by apply Hf.
Qed.

(** ** Everything *)

Lemma writeback_all_ok c : inv g c -> let c' := writeback_all g c in
  inv g c' /\ keeps g c c' /\
  forall x, ram x = true -> x mod 8 = 0 -> mem64 (downstream c') x = content g c x /\ below g c' x = content g c x.
Proof.
  intros Hi. cbn zeta. unfold writeback_all. rewrite has_l2_true by done.
  assert (Ht : tidy c (for_each (dc_ways g * 2 ^ dc_sets_shift g) (fun c e => if d_is_valid (dtag c e) then writeback_l1d_line g c e false else c) c)).
  { apply loop_tidy; [by geom Hg|done|]. intros c' i Hi'. case_match; [by apply writeback_l1d_line_tidy|by apply tidy_refl]. }
  set (c1 := for_each _ _ c) in *. destruct Ht as (Hi1 & Hk1 & _). set (n := 2 ^ l2_lines_shift g).
  assert (Hl : let c' := for_each n (fun c i => (writeback_l2_line g c i).1) c1 in
    inv g c' /\ keeps g c1 c' /\ forall x, phys_ok x -> si x < n -> settled c' x).
  { apply (for_each_ind (fun k c' => inv g c' /\ keeps g c1 c' /\ forall x, phys_ok x -> si x < k -> settled c' x)).
    - unfold n. by geom Hg.
    - split_and!; try done. intros x _ Hx. rewrite l2_index_eq in Hx by done. exfalso.
      pose proof (Z.mod_pos_bound (x / 2 ^ l2_line_shift g) (2 ^ l2_lines_shift g) ltac:(by geom Hg)). lia.
    - intros k c' Hk (Hi' & Hk' & Hs'). destruct (writeback_l2_tidy c' k Hi') as (? & ? & _). split_and!; [done|by etransitivity|].
      intros x Hx Hxk. destruct (decide (si x = k)); [by apply writeback_l2_settles|]. apply writeback_l2_settled; try done. apply Hs'; [done|lia]. }
  cbn zeta in Hl. destruct Hl as (Hi2 & Hk2 & Hs2). assert (Hk : keeps g c (for_each n (fun c i => (writeback_l2_line g c i).1) c1)) by (by etransitivity).
  split_and!; [done|done|]. intros x Hx Hx8. rewrite <- (kp_content g _ _ Hk) by done.
  assert (Hst : settled (for_each n (fun c i => (writeback_l2_line g c i).1) c1) x).
  { apply Hs2; [by apply ram_phys|]. rewrite l2_index_eq by done. apply Z.mod_pos_bound. by geom Hg. }
  split; [by apply settled_published|]. apply (calm_below _ _ Hi2 (ram_phys _ Hx)), settled_calm; [by apply ram_phys|done].
Qed.

(** ** A physical range *)

Lemma land_clear low k x : 0 <= low -> 0 <= k -> low + k <= 64 -> fits (low + k) x -> x .& bnot 64 (Z.ones k .<< low) = x mod 2 ^ low.
Proof.
  intros Hl Hk H64 Hx. rewrite <- Z.land_ones by done. apply Z.bits_inj'. intros i Hi. unfold bnot.
  rewrite !Z.land_spec, Z.lnot_spec, Z.shiftl_spec, (ones_testbit 64), (ones_testbit low) by lia. destruct (Z.ltb_spec i low).
  - rewrite (Z.testbit_neg_r _ (i - low)) by lia. rewrite (proj2 (Z.ltb_lt i 64)) by lia. done.
  - rewrite andb_false_r. destruct (Z.ltb_spec i (low + k)).
    + rewrite ones_testbit by lia. rewrite (proj2 (Z.ltb_lt (i - low) k)) by lia. by rewrite andb_false_r.
    + by rewrite (fits_testbit (low + k) x i) by (done || lia).
Qed.

(** The index that alias [k] of a physical line has. *)
Definition alias_index (line k : Z) : Z :=
  let low := 12 - dc_line_shift g in
  ((dc_index g line .& bnot 64 ((2 ^ Z.max 0 (dc_sets_shift g - low) - 1) .<< low)) .| (k .<< low)) .| (0 .<< dc_sets_shift g).

Lemma alias_found line p x : 0 <= p < 8 -> block_of line x ->
  let k := dc_index g (vaddr p x) / 2 ^ (12 - dc_line_shift g) in
  0 <= k < 2 ^ Z.max 0 (dc_sets_shift g - (12 - dc_line_shift g)) /\ alias_index line k = dc_index g (vaddr p x).
Proof.
  intros Hp Hb. cbn zeta. unfold alias_index. rewrite Z.shiftl_0_l, Z.lor_0_r.
  assert (E : forall k, 2 ^ k - 1 = Z.ones k) by (intros; rewrite Z.ones_equiv; lia). rewrite E.
  assert (Hf : fits (12 - dc_line_shift g + Z.max 0 (dc_sets_shift g - (12 - dc_line_shift g))) (dc_index g line)).
  { rewrite dc_index_eq by done. unfold fits. geom Hg; apply Z.mod_pos_bound; done. }
  rewrite land_clear by (done || by geom Hg). rewrite Z.lor_comm, Z.shiftl_mul_pow2 by (by geom Hg).
  rewrite lor_block; [|by geom Hg|apply Z.mod_pos_bound; by geom Hg].
  rewrite !dc_index_eq by done. unfold vaddr. geom Hg; divmod.
Qed.

Lemma one_way {S} (f : S -> Z -> S) s : for_each (dc_ways g) f s = f s 0.
Proof. by destruct Hg as [->| ->]. Qed.

(** Every block of the physical line is clean afterwards. *)
Lemma phys_line_ok c line : inv g c -> phys_ok line -> let c' := (writeback_dc_phys_line g c line).1 in
  tidy c c' /\ forall x, phys_ok x -> block_of line x -> calm c' x.
Proof.
  intros Hi Hline. cbn zeta. unfold writeback_dc_phys_line. set (n := 2 ^ Z.max 0 _). set (f := fun (cn : C * Z) (alias : Z) => _).
  assert (Hl : let c' := (for_each n f (c, 0)).1 in tidy c c' /\ forall x, phys_ok x -> block_of line x -> place g c x / 2 ^ (12 - dc_line_shift g) < n -> calm c' x).
  { apply (for_each_ind (fun k cn => tidy c cn.1 /\ forall x, phys_ok x -> block_of line x -> place g c x / 2 ^ (12 - dc_line_shift g) < k -> calm cn.1 x)).
    - unfold n. by geom Hg.
    - split; [by apply tidy_refl|]. intros x _ Hb Hx. exfalso.
      destruct (alias_found line (s_pidx (stag c (si x))) x (iv_pidx g c Hi _) Hb) as [Hr _]. unfold place in Hx. lia.
    - intros k [c1 m] Hk [Ht Hc]. cbn [fst] in *. set (e := alias_index line k).
      assert (Ef : f (c1, m) k = if d_dirty (dtag c1 e) && d_matches_line (dtag c1 e) line then (writeback_l1d_line g c1 e true, m + 1) else (c1, m))
        by (unfold f; by rewrite one_way). rewrite Ef.
      assert (Hnew : forall c2, tidy c1 c2 -> (d_matches_line (dtag c1 e) line = true -> d_dirty (dtag c2 e) = false) ->
        tidy c c2 /\ forall x, phys_ok x -> block_of line x -> place g c x / 2 ^ (12 - dc_line_shift g) < k + 1 -> calm c2 x).
      { intros c2 Ht2 Hd. split; [by eapply tidy_trans|]. intros x Hx Hb Hlt. destruct Ht2 as (_ & _ & Hc2). destruct Ht as (Hi1 & _ & Hc1).
        destruct (decide (place g c x / 2 ^ (12 - dc_line_shift g) = k)) as [E|]; [|apply (calmer_calm c1); [done|]; apply Hc; done || lia].
        destruct (alias_found line (s_pidx (stag c (si x))) x (iv_pidx g c Hi _) Hb) as [_ He]. fold (place g c x) in He. rewrite E in He. fold e in He.
        intros Hh. rewrite (same_place g _ _ _ (ca_same _ _ Hc2)), (same_place g _ _ _ (ca_same _ _ Hc1)), <- He. apply Hd.
        rewrite (same_H1 g _ _ _ (ca_same _ _ Hc2)) in Hh. apply andb_prop in Hh as [_ Hm].
        rewrite (same_place g _ _ _ (ca_same _ _ Hc1)), <- He in Hm. rewrite <- Hm. unfold d_matches_line. f_equal.
        apply page_tag_inj; [by apply phys_fits|by apply phys_fits|]. symmetry. by apply (block_page g). }
      destruct (d_dirty (dtag c1 e) && d_matches_line (dtag c1 e) line) eqn:Em; cbn [fst].
      + apply Hnew; [apply writeback_l1d_line_tidy, Ht|]. intros _. apply writeback_l1d_line_calm, Ht.
      + apply Hnew; [apply tidy_refl, Ht|]. intros Hm. rewrite Hm, andb_true_r in Em. done. }
  cbn zeta in Hl. destruct Hl as [Ht Hc]. split; [done|]. intros x Hx Hb. apply Hc; try done.
  destruct (alias_found line (s_pidx (stag c (si x))) x (iv_pidx g c Hi _) Hb) as [Hr _]. apply Hr.
Qed.

(** A valid line's write-back touches no other line's state. *)
Lemma writeback_l2_other c i j : inv g c -> s_cs (stag c i) <> L2_CS_INVALID -> j <> i -> stag (writeback_l2_line g c i).1 j = stag c j.
Proof.
  intros Hi Hv Hj. destruct (valid_line g c i Hi Hv) as [a Ha]. unfold writeback_l2_line, down_write_block. rewrite not_r5k by done. cbn [negb].
  rewrite (line_phys g Hg c i a Ha). set (f := fun (c : C) (i : Z) => (writeback_l1d g c i).1).
  assert (H1c : stag (each_l1d_of g f i (s_pidx (stag c i)) a c) j = stag c j).
  { unfold each_l1d_of. apply (for_each_ind (fun _ c' => inv g c' /\ stag c' j = stag c j)); [apply (turns_nonneg g Hg)|done|].
    intros k c' Hk [Hi' Hs']. cbv zeta. case_match eqn:Em; [|done]. split; [by apply writeback_l1d_tidy|]. rewrite <- Hs'.
    destruct (matched_block g Hg c i a k c' _ Hi Ha Hk Hi' eq_refl Em) as (b & Hb & Hl). set (e := _ .& _) in *.
    destruct (writeback_l1d_cases g Hg c' e Hi') as [[E _]|[a' Hw]]; [by apply (f_equal (fun c => stag c j)) in E|].
    unfold f. rewrite (wr_stag _ _ _ _ _ Hw). destruct (Z.eqb_spec j (si a')) as [E|]; [|done]. exfalso. apply Hj. rewrite E, <- (hl_index _ _ _ _ Ha).
    apply line_index; [done|]. rewrite <- Hl. apply block_line; [done|]. pose proof (wr_block _ _ _ _ _ Hw) as Hb'.
    destruct (block_H1 g Hg c' _ a' a' Hb' (hb_phys _ _ _ _ Hb') eq_refl) as [Hh Hp]. by apply (held_in g Hg c' _ b a' Hb (hb_phys _ _ _ _ Hb') Hh). }
  set (c1 := each_l1d_of _ _ _ _ _ c) in *. case_match; [done|]. destruct (write_block _ _ _) as [b s]. case_match; [done|]. cbn [fst].
  rewrite stag_set. by rewrite (proj2 (Z.eqb_neq _ _) Hj).
Qed.

Definition l2_clean (c : C) (x : Z) : Prop := ram x = true -> l2_holds g c x = true -> clean_l2 (stag c (si x)) = true.

(** One secondary line of the range. *)
Definition range_l2 (ck : C * Z) (line : Z) : C * Z :=
  match hit_l2 g ck.1 line with
  | Some idx => let cs := s_cs (stag ck.1 idx) in
      if (cs =? L2_CS_DIRTY_EXCLUSIVE) || (cs =? L2_CS_DIRTY_SHARED) then ((writeback_l2_line g ck.1 idx).1, ck.2 + 1) else ck
  | None => ck
  end.

Lemma range_l2_ok ck line : inv g ck.1 -> phys_ok line -> tidy ck.1 (range_l2 ck line).1 /\
  (forall x, phys_ok x -> line_of line x \/ l2_clean ck.1 x -> l2_clean (range_l2 ck line).1 x).
Proof.
  intros Hi Hline. unfold range_l2, hit_l2. rewrite has_l2_true by done. cbn [andb].
  destruct (l2_holds g ck.1 line) eqn:Hh.
  - cbv zeta. case_match eqn:Ec; cbn [fst].
    + pose proof (writeback_l2_tidy ck.1 (si line) Hi) as Ht. split; [done|]. intros x Hx Hor Hr.
      destruct Ht as (_ & _ & Hc). rewrite (same_H2 g _ _ _ (ca_same _ _ Hc)). intros Hhx.
      destruct (decide (si x = si line)) as [E|E].
      * apply (writeback_l2_settles ck.1 (si line) x Hi Hx E); [by rewrite (same_H2 g _ _ _ (ca_same _ _ Hc))|done].
      * rewrite writeback_l2_other; [|done|by apply andb_prop in Hh as [Hh%negb_true_iff%Z.eqb_neq _]|done].
        destruct Hor as [Hl|Hc']; [|by apply Hc']. exfalso. apply E. by apply line_index.
    + split; [by apply tidy_refl|]. intros x Hx [Hl|Hc]; [|done]. intros _ _. rewrite (line_index g x line Hg Hl).
      unfold clean_l2. apply orb_false_iff in Ec as [-> ->]. done.
  - split; [by apply tidy_refl|]. intros x Hx [Hl|Hc]; [|done]. intros _ Hhx. by rewrite (H2_line g Hg _ x line Hx Hline Hl), Hh in Hhx.
Qed.

Lemma lines_cover shift start stop x : 0 <= shift -> start <= x < stop -> 0 <= (x - start) / 2 ^ shift < lines_between shift start stop.
Proof.
  intros Hs Hx. unfold lines_between. pose proof (Z.pow_pos_nonneg 2 shift ltac:(lia) Hs) as Hp. split; [apply Z.div_pos; lia|].
  apply Z.lt_le_trans with ((x - start) / 2 ^ shift + 1); [lia|]. rewrite <- Z.div_add by lia. apply Z.div_le_mono; lia.
Qed.

(** Sweep [n] lines of [2 ^ shift] bytes from [start]. *)
Lemma sweep_ok (P : C -> Z -> Prop) (f : C * Z -> Z -> C * Z) shift start n c k0 : 0 <= n -> 0 <= shift -> inv g c -> start mod 2 ^ shift = 0 ->
  (forall ck i, 0 <= i < n -> inv g ck.1 -> tidy ck.1 (f ck i).1 /\
     forall x, phys_ok x -> x / 2 ^ shift = (start + (i .<< shift)) / 2 ^ shift \/ P ck.1 x -> P (f ck i).1 x) ->
  let c' := (for_each n f (c, k0)).1 in tidy c c' /\ forall x, phys_ok x -> 0 <= (x - start) / 2 ^ shift < n -> P c' x.
Proof.
  intros Hn Hs Hi Hal Hf. cbn zeta. pose proof (Z.pow_pos_nonneg 2 shift ltac:(lia) Hs) as Hp.
  apply (for_each_ind (fun k ck => tidy c ck.1 /\ forall x, phys_ok x -> 0 <= (x - start) / 2 ^ shift < k -> P ck.1 x)).
  - done.
  - split; [by apply tidy_refl|]. intros. lia.
  - intros i ck Hi' [Ht Hc]. destruct (Hf ck i Hi' (proj1 Ht)) as [Ht' Hc']. split; [by eapply tidy_trans|].
    intros x Hx Hr. apply Hc'; [done|]. destruct (decide ((x - start) / 2 ^ shift = i)) as [E|E]; [left|right; apply Hc; [done|lia]].
    rewrite Z.shiftl_mul_pow2, Z.div_add by lia. rewrite <- E. apply Z.mod_divide in Hal as [q ->]; [|lia].
    rewrite Z.div_mul by lia. replace (x - q * 2 ^ shift) with (x + (- q) * 2 ^ shift) by lia. rewrite Z.div_add by lia. lia.
Qed.

Lemma writeback_range_ok c phys size : inv g c -> 0 <= phys -> 0 < size -> phys + size <= 2 ^ 36 -> let c' := (writeback_range g c None phys size).1 in
  inv g c' /\ keeps g c c' /\
  forall x, ram x = true -> x mod 8 = 0 -> phys - phys mod 8 <= x < phys + size ->
    mem64 (downstream c') x = content g c x /\ below g c' x = content g c x.
Proof.
  intros Hi Hp Hs He. cbn zeta. unfold writeback_range. rewrite (proj2 (Z.eqb_neq size 0)), has_l2_true by (done || lia).
  rewrite !line_base_eq by ((unfold phys_ok; lia) || by geom Hg).
  set (start1 := phys - phys mod 2 ^ dc_line_shift g). set (start2 := phys - phys mod 2 ^ l2_line_shift g). set (stop := phys + size).
  set (ck := for_each (lines_between (dc_line_shift g) start1 stop) _ (c, 0)).
  assert (HA : tidy c ck.1 /\ forall x, phys_ok x -> 0 <= (x - start1) / 2 ^ dc_line_shift g < lines_between (dc_line_shift g) start1 stop -> calm ck.1 x).
  { apply (sweep_ok calm); [unfold lines_between, start1, stop; geom Hg; divmod|by geom Hg|done|unfold start1; geom Hg; divmod|].
    intros [c1 k] i Hr Hi1. cbn [fst] in *. assert (Hok : phys_ok (start1 + (i .<< dc_line_shift g))).
    { rewrite Z.shiftl_mul_pow2 by (by geom Hg). unfold phys_ok, lines_between, start1, stop in *. geom Hg; divmod. }
    destruct (phys_line_ok c1 _ Hi1 Hok) as [Ht Hc]. destruct (writeback_dc_phys_line g c1 _) as [c2 d]. cbn [fst] in *. split; [done|].
    intros x Hx [Hb|Hcx]; [by apply Hc|]. by apply (calmer_calm c1); [apply Ht|]. }
  destruct ck as [c1 k1]. cbn [fst] in HA. destruct HA as [Ht1 Hc1].
  match goal with |- context [for_each _ ?h (c1, k1)] => set (f := h) end.
  assert (HB2 : let c' := (for_each (lines_between (l2_line_shift g) start2 stop) f (c1, k1)).1 in
    tidy c1 c' /\ forall x, phys_ok x -> 0 <= (x - start2) / 2 ^ l2_line_shift g < lines_between (l2_line_shift g) start2 stop -> l2_clean c' x).
  { apply (sweep_ok l2_clean); [unfold lines_between, start2, stop; geom Hg; divmod|by geom Hg|apply Ht1|unfold start2; geom Hg; divmod|].
    intros ck i Hr Hi1. assert (Hok : phys_ok (start2 + (i .<< l2_line_shift g))).
    { rewrite Z.shiftl_mul_pow2 by (by geom Hg). unfold phys_ok, lines_between, start2, stop in *. geom Hg; divmod. }
    assert (Ef : f ck i = range_l2 ck (start2 + (i .<< l2_line_shift g))) by (destruct ck; unfold f, range_l2; cbn [fst snd]; done).
    rewrite Ef. by apply range_l2_ok. }
  cbn zeta in HB2. destruct HB2 as [Ht2 Hc2]. pose proof (tidy_trans _ _ _ Ht1 Ht2) as (Hi2 & Hk2 & _). split_and!; [done|done|].
  intros x Hx Hx8 Hr. pose proof (ram_phys _ Hx) as Hxp. rewrite <- (kp_content g _ _ Hk2) by done.
  match goal with |- context [downstream ?c2] => assert (Hcalm : calm c2 x) end.
  { apply (calmer_calm c1); [apply Ht2|]. apply Hc1; [done|]. apply lines_cover; [by geom Hg|]. unfold start1, stop. geom Hg; divmod. }
  split; [|by apply (calm_below _ _ Hi2)]. apply published; try done.
  - apply Hc2; [done| |done]. apply lines_cover; [by geom Hg|]. unfold start2, stop. geom Hg; divmod.
Qed.

End Clean.

End CacheClean.

Module CacheFetch.

Import CpuDecode CpuExec CpuInstr CpuCache CacheProofs CacheInv CacheMem CacheClean.
#[local] Open Scope Z_scope.
#[local] Open Scope word_scope.

(** ** Slots *)

Lemma set_slots_other l : forall m base j, j < base \/ base + 2 * Z.of_nat (length l) <= j -> cell instr_default (set_slots m base l) j = cell instr_default m j.
Proof.
  induction l as [|x l IH]; intros m base j Hj; cbn [set_slots length] in *; [done|]. rewrite IH by lia. rewrite !cell_insert.
  by rewrite (proj2 (Z.eqb_neq j (base + 1))), (proj2 (Z.eqb_neq j base)) by lia.
Qed.

(** The slots of chunk [k] hold its words. *)
Lemma set_slots_words l : forall m base k v, l !! k = Some v ->
  raw (cell instr_default (set_slots m base l) (base + 2 * Z.of_nat k)) = hi_word v /\
  raw (cell instr_default (set_slots m base l) (base + 2 * Z.of_nat k + 1)) = lo_word v.
Proof.
  induction l as [|x l IH]; intros m base k v Hk; [done|]. cbn [set_slots]. destruct k as [|k].
  - injection Hk as ->. rewrite Z.mul_0_r, Z.add_0_r, !set_slots_other by lia. rewrite !cell_insert, Z.eqb_refl.
    rewrite (proj2 (Z.eqb_neq base (base + 1))), Z.eqb_refl by lia. done.
  - replace (base + 2 * Z.of_nat (S k)) with (base + 2 + 2 * Z.of_nat k) by lia. by apply IH.
Qed.

Section Fetch.

Context (g : Geom) (Hg : inclusive g) {B : Type} `{HB : BusOps B} {HR : RamBus B} {T : Tints}.

Notation C := (CpuCache B).
Notation si := (l2_index g).
Notation line_of a x := (x / 2 ^ l2_line_shift g = a / 2 ^ l2_line_shift g).

Definition slot_raw (c : C) (j : Z) : Z := raw (cell instr_default (l2_instrs c) j).

(** Line [i]'s slots hold the words of its data. *)
Definition mirrors (c : C) (i : Z) : Prop := forall o, 0 <= o < l2_chunks g ->
  slot_raw c (i * (2 * l2_chunks g) + 2 * o) = hi_word (scell g c i o) /\ slot_raw c (i * (2 * l2_chunks g) + 2 * o + 1) = lo_word (scell g c i o).

(** Where an instruction line of a secondary line is. *)
Definition iplace (c : C) (a : Z) : Z := ic_index g (vaddr (s_pidx (stag c (si a))) a).

Record finv (c : C) : Prop := {
  fi_slots i : s_cs (stag c i) <> L2_CS_INVALID -> mirrors c i;
  fi_incl k : i_is_valid (itag c k) = true -> exists a, phys_ok a /\ l2_holds g c a = true /\ iplace c a = k /\ itag c k = page_tag a;
}.

Lemma shift_slots i : i .<< (l2_line_shift g - 2) = i * (2 * l2_chunks g).
Proof. rewrite Z.shiftl_mul_pow2 by (by geom Hg). unfold l2_chunks. by geom Hg. Qed.

(** Nothing [finv] speaks of changed but tags that keep their lines. *)
Lemma finv_same c c' : same_lines c c' -> ic_tags c' = ic_tags c -> l2_instrs c' = l2_instrs c -> l2_data c' = l2_data c -> finv c -> finv c'.
Proof.
  intros Hs Hit Hin Hd [F1 F2]. split.
  - intros i Hi o Ho. unfold slot_raw, scell. rewrite Hin, Hd. apply F1; [|done]. apply Z.eqb_neq. rewrite <- (sl_cs _ _ Hs). by apply Z.eqb_neq.
  - intros k. unfold itag. rewrite Hit. intros Hv. destruct (F2 k Hv) as (a & ? & ? & ? & ?). exists a.
    unfold iplace. by rewrite (same_H2 g _ _ _ Hs), (sl_pidx _ _ Hs).
Qed.

Lemma wrote_finv c d a c' : inv g c -> wrote g c d a c' -> finv c -> finv c'.
Proof.
  intros Hi Hw [F1 F2]. pose proof (wrote_same g c d a c' Hi Hw) as Hs. split.
  - intros i Hv o Ho. assert (Hv' : s_cs (stag c i) <> L2_CS_INVALID) by (apply Z.eqb_neq; rewrite <- (sl_cs _ _ Hs); by apply Z.eqb_neq).
    rewrite (wr_scell _ _ _ _ _ Hw) by done. unfold slot_raw. rewrite (wr_slots _ _ _ _ _ Hw), shift_slots.
    pose proof (hb_align _ _ _ _ (wr_block _ _ _ _ _ Hw)) as Hal. pose proof (off2_range g a Hg) as Hr. pose proof (off2_fit g a Hg Hal) as Hfit.
    pose proof (off1_range g a Hg) as Hr1. set (n := l2_chunks g) in *. set (l := get_chunks _ _ _).
    assert (Hlen : Z.of_nat (length l) = dc_chunks g) by (apply get_chunks_length; lia).
    case_match eqn:E.
    + apply andb_prop in E as [E E3%Z.ltb_lt]. apply andb_prop in E as [->%Z.eqb_eq E2%Z.leb_le].
      assert (Hlk : l !! Z.to_nat (o - off2 g a) = Some (dcell g c d (o - off2 g a))) by (unfold l; by rewrite get_chunks_lookup by lia).
      replace (si a * (2 * n) + 2 * o) with (si a * (2 * n) + off2 g a * 2 + 2 * Z.of_nat (Z.to_nat (o - off2 g a))) by lia.
      by apply set_slots_words.
    + assert (Hout : forall j, j = i * (2 * n) + 2 * o \/ j = i * (2 * n) + 2 * o + 1 -> j < si a * (2 * n) + off2 g a * 2 \/ si a * (2 * n) + off2 g a * 2 + 2 * Z.of_nat (length l) <= j).
      { intros j Hj. rewrite Hlen. destruct (decide (i = si a)) as [->|Hne].
        - rewrite Z.eqb_refl in E. cbn [andb] in E. apply andb_false_iff in E as [E%Z.leb_gt|E%Z.ltb_ge]; lia.
        - destruct (Z.lt_total i (si a)) as [H|[H|H]]; [left; nia|done|right; nia]. }
      rewrite !set_slots_other by auto. by apply F1.
  - intros k. unfold itag. rewrite (wr_itags _ _ _ _ _ Hw). intros Hv. destruct (F2 k Hv) as (x & ? & ? & ? & ?). exists x.
    unfold iplace. by rewrite (same_H2 g _ _ _ Hs), (sl_pidx _ _ Hs).
Qed.

Lemma writeback_l1d_finv c d : inv g c -> finv c -> finv (writeback_l1d g c d).1.
Proof. intros Hi Hf. destruct (writeback_l1d_cases g Hg c d Hi) as [[-> _]|[a Hw]]; [done|by eapply wrote_finv]. Qed.

(** Fewer data lines are nothing to the instruction side. *)
Lemma invalidate_l1d_finv c d : finv c -> finv (invalidate_l1d_line c d).
Proof. intros [F1 F2]. by split. Qed.

Lemma flush_finv c i p pb : inv g c -> finv c -> finv (each_l1d_of g (fun c i => (writeback_l1d g c i).1) i p pb c).
Proof.
  intros Hi Hf. unfold each_l1d_of. apply (for_each_ind (fun _ c' => inv g c' /\ finv c')); [apply (turns_nonneg g Hg)|done|].
  intros k c' _ [Hi' Hf']. cbv zeta. case_match; [|done]. split; [by apply writeback_l1d_tidy|by apply writeback_l1d_finv].
Qed.

Lemma writeback_l2_finv c i : inv g c -> finv c -> finv (writeback_l2_line g c i).1.
Proof.
  intros Hi Hf. unfold writeback_l2_line, down_write_block. rewrite not_r5k by done. cbn [negb].
  pose proof (flush_finv c i (s_pidx (stag c i)) (l2_tag_to_phys (stag c i) (i .<< l2_line_shift g)) Hi Hf) as Hf1.
  set (c1 := each_l1d_of _ _ _ _ _ c) in *. case_match eqn:Ec; [done|]. destruct (write_block _ _ _) as [b s].
  case_match; [by apply (finv_same c1)|]. cbn [fst]. apply (finv_same c1); try done. split; try done; intros j; rewrite stag_set; destruct (Z.eqb_spec j i) as [->|]; try done.
  cbn. apply andb_false_iff in Ec as [Ec%negb_false_iff%Z.eqb_eq|Ec%negb_false_iff%Z.eqb_eq]; rewrite Ec; reflexivity.
Qed.

Lemma writeback_l1d_line_finv c d cascade : inv g c -> finv c -> finv (writeback_l1d_line g c d cascade).
Proof.
  intros Hi Hf. unfold writeback_l1d_line, writeback_l2_line_phys. pose proof (writeback_l1d_finv c d Hi Hf) as Hf1.
  pose proof (writeback_l1d_tidy g Hg c d Hi) as (Hi1 & _). destruct (writeback_l1d g c d) as [c' took]. cbn in Hf1, Hi1.
  destruct (took && cascade); [|done]. destruct (l2_holds g c' _); [by apply writeback_l2_finv|done].
Qed.

(** ** Secondary lines come and go *)

(** No instruction line of secondary line [i] is in the primary cache. *)
Definition no_insn (c : C) (i : Z) : Prop := forall a, phys_ok a -> l2_holds g c a = true -> si a = i -> itag c (iplace c a) <> page_tag a.

Lemma retag_finv c i t : finv c -> no_insn c i -> (s_cs t <> L2_CS_INVALID -> mirrors c i) -> finv (set_stag c i t).
Proof.
  intros [F1 F2] Hn Hm. split.
  - intros j. rewrite stag_set. destruct (Z.eqb_spec j i) as [->|]; [done|apply F1].
  - intros k Hv. destruct (F2 k Hv) as (a & Ha & Hh & Hp & Ht). assert (E : si a <> i) by (intros E; apply (Hn a Ha Hh E); by rewrite Hp).
    exists a. unfold iplace, l2_holds. rewrite stag_set, (proj2 (Z.eqb_neq _ _) E). done.
Qed.

Lemma no_insn_invalid (c : C) i : s_cs (stag c i) = L2_CS_INVALID -> no_insn c i.
Proof. intros Hv a _ Hh E. unfold l2_holds in Hh. by rewrite E, Hv in Hh. Qed.

Lemma itag_set (c : C) i t j : itag (set_itag c i t) j = if j =? i then t else itag c j.
Proof. apply cell_insert. Qed.

Lemma tag_not_zero a : phys_ok a -> page_tag a <> 0.
Proof. intros Ha. rewrite page_tag_eq by (by apply phys_fits). destruct Ha. divmod. Qed.

(** The loop over the instruction lines of a secondary line. *)
Lemma drop_l1i_gone c i a : inv g c -> holds_line g c i a -> let c' := drop_l1i_of g i (s_pidx (stag c i)) a c in
  l2_instrs c' = l2_instrs c /\ (forall k, itag c' k = itag c k \/ itag c' k = 0) /\
  forall x, phys_ok x -> line_of a x -> itag c' (iplace c x) <> page_tag x.
Proof.
  intros Hi [Ha Hal Hidx Hh]. cbn zeta. unfold drop_l1i_of. set (n := 2 ^ _). set (f := fun (c : C) (k : Z) => _).
  assert (Hl : let c' := for_each n f c in l2_instrs c' = l2_instrs c /\ (forall k, itag c' k = itag c k \/ itag c' k = 0) /\
    forall x, phys_ok x -> line_of a x -> (x - a) / 2 ^ ic_line_shift g < n -> itag c' (iplace c x) <> page_tag x).
  { apply (for_each_ind (fun m c' => l2_instrs c' = l2_instrs c /\ (forall k, itag c' k = itag c k \/ itag c' k = 0) /\
      forall x, phys_ok x -> line_of a x -> (x - a) / 2 ^ ic_line_shift g < m -> itag c' (iplace c x) <> page_tag x)).
    - unfold n. by geom Hg.
    - split_and!; auto. intros x Hx Hl Hlt. pose proof (line_iblock g a x Hg Ha Hal Hl) as [? _]. lia.
    - intros m c' Hm (E1 & E2 & E3). unfold f. rewrite <- Hidx, sub_iindex by (done || apply (iv_pidx g c Hi)). rewrite Z.shiftl_mul_pow2 by (by geom Hg).
      set (y := a + m * 2 ^ ic_line_shift g). set (e := ic_index g _).
      assert (Hcase : forall x, phys_ok x -> line_of a x -> (x - a) / 2 ^ ic_line_shift g = m -> iplace c x = e /\ page_tag x = page_tag y).
      { intros x Hx Hl E. pose proof (line_iblock g a x Hg Ha Hal Hl) as (_ & Hy & Hpg & Hix). rewrite E in Hy, Hpg, Hix. unfold iplace.
        rewrite (line_index g x a Hg Hl). split; [apply Hix|]. apply page_tag_inj; [by apply phys_fits|by apply phys_fits|done]. }
      destruct (i_matches_phys (itag c' e) y) eqn:Em.
      + split_and!; [done| |].
        * intros k. unfold invalidate_l1i_line. rewrite itag_set. case_match; auto.
        * intros x Hx Hl Hlt. unfold invalidate_l1i_line. rewrite itag_set. case_match; [by apply not_eq_sym, tag_not_zero|].
          apply E3; try done. destruct (decide ((x - a) / 2 ^ ic_line_shift g = m)) as [E|]; [|lia].
          destruct (Hcase x Hx Hl E) as [E' _]. by rewrite E', Z.eqb_refl in H.
      + split_and!; try done. intros x Hx Hl Hlt. destruct (decide ((x - a) / 2 ^ ic_line_shift g = m)) as [E|]; [|apply E3; done || lia].
        destruct (Hcase x Hx Hl E) as [-> ->]. intros E'. unfold i_matches_phys in Em. by rewrite E', Z.eqb_refl in Em. }
  cbn zeta in Hl. destruct Hl as (E1 & E2 & E3). split_and!; try done. intros x Hx Hl. apply E3; try done. by apply (line_iblock g a x).
Qed.

(** After it the line has none. *)
Lemma drop_l1i_finv c i a : inv g c -> holds_line g c i a -> finv c -> let c' := drop_l1i_of g i (s_pidx (stag c i)) a c in
  finv c' /\ no_insn c' i.
Proof.
  intros Hi Ha [F1 F2]. cbn zeta. destruct (drop_l1i_gone c i a Hi Ha) as (E1 & E2 & E3). cbn zeta in *.
  pose proof (drop_l1i_agree g Hg i (s_pidx (stag c i)) a c) as [_ _ _ Hst Hd]. set (c' := drop_l1i_of g _ _ a c) in *.
  assert (Hs : forall j, stag c' j = stag c j) by (intros j; unfold stag; by rewrite Hst).
  assert (Hh : forall x, l2_holds g c' x = l2_holds g c x) by (intros x; unfold l2_holds; by rewrite Hs).
  assert (Hp : forall x, iplace c' x = iplace c x) by (intros x; unfold iplace; by rewrite Hs).
  split; [split|].
  - intros j. rewrite Hs. intros Hj o Ho. unfold slot_raw, scell. rewrite E1, Hd. by apply F1.
  - intros k Hv. destruct (E2 k) as [E|E]; rewrite E in Hv |- *; [|done]. destruct (F2 k Hv) as (x & ? & ? & ? & ?). exists x. by rewrite Hh, Hp.
  - intros x Hx Hhx Hxi. rewrite Hp. apply E3; [done|]. rewrite Hh in Hhx. by apply (index_line g Hg c i a).
Qed.

(** Data lines going does not change what [no_insn] is about. *)
Lemma each_finv (f : C -> Z -> C) i p pb j c : (forall c e, inv g c -> finv c -> no_insn c j -> inv g (f c e) /\ finv (f c e) /\ no_insn (f c e) j) ->
  inv g c -> finv c -> no_insn c j -> finv (each_l1d_of g f i p pb c) /\ no_insn (each_l1d_of g f i p pb c) j.
Proof.
  intros Hf Hi Hc Hn. unfold each_l1d_of.
  assert (Hl : forall n h, 0 <= n -> (forall c k, inv g c -> finv c -> no_insn c j -> inv g (h c k) /\ finv (h c k) /\ no_insn (h c k) j) ->
    inv g (for_each n h c) /\ finv (for_each n h c) /\ no_insn (for_each n h c) j).
  { intros n h Hn' Hh. apply (for_each_ind (fun _ c' => inv g c' /\ finv c' /\ no_insn c' j)); [done|done|]. intros k c' _ (? & ? & ?). by apply Hh. }
  apply Hl; [apply (turns_nonneg g Hg)|]. intros c' k Hi' Hf' Hn'. cbv zeta. case_match; [by apply Hf|done].
Qed.

Lemma no_insn_same c c' i : same_lines c c' -> ic_tags c' = ic_tags c -> no_insn c i -> no_insn c' i.
Proof.
  intros Hs Hit Hn a Ha. rewrite (same_H2 g _ _ _ Hs). unfold iplace, itag. rewrite (sl_pidx _ _ Hs), Hit. by apply Hn.
Qed.

Lemma writeback_l1d_itags c d : inv g c -> ic_tags (writeback_l1d g c d).1 = ic_tags c.
Proof. intros Hi. destruct (writeback_l1d_cases g Hg c d Hi) as [[-> _]|[a Hw]]; [done|apply Hw]. Qed.

Lemma invalidate_l2_finv c i : inv g c -> finv c -> finv (invalidate_l2_line g c i).
Proof.
  intros Hi Hf. unfold invalidate_l2_line. rewrite not_r5k by done. cbn [negb].
  destruct (Z.eqb_spec (s_cs (stag c i)) L2_CS_INVALID) as [E|E]; [by apply retag_finv; [|apply no_insn_invalid|]|].
  destruct (valid_line g c i Hi E) as [a Ha]. rewrite (line_phys g Hg c i a Ha). destruct (drop_l1i_finv c i a Hi Ha Hf) as [Hf1 Hn1]. cbn zeta in *.
  set (c1 := drop_l1i_of g _ _ a c) in *. assert (Hi1 : inv g c1) by (by apply (agree_inv g c), Hi; apply drop_l1i_agree).
  destruct (each_finv invalidate_l1d_line i (s_pidx (stag c i)) a i c1) as [Hf2 Hn2]; try done.
  { intros c' e Hi' Hf' Hn'. split_and!; [by apply (drops_inv g c'), invalidate_drops|by apply invalidate_l1d_finv|done]. }
  by apply retag_finv.
Qed.

Lemma realias_finv c phys p : inv g c -> finv c -> l2_holds g c phys = true -> finv (realias_l2_line g c (si phys) p).
Proof.
  intros Hi Hf Hh. unfold realias_l2_line. set (i := si phys).
  assert (Hv : s_cs (stag c i) <> L2_CS_INVALID) by (apply andb_prop in Hh as [Hh _]; by apply negb_true_iff, Z.eqb_neq in Hh).
  destruct (valid_line g c i Hi Hv) as [a Ha]. rewrite (line_phys g Hg c i a Ha). destruct (drop_l1i_finv c i a Hi Ha Hf) as [Hf1 Hn1]. cbn zeta in *.
  set (c1 := drop_l1i_of g _ _ a c) in *. assert (Hi1 : inv g c1) by (by apply (agree_inv g c), Hi; apply drop_l1i_agree).
  destruct (each_finv (fun c i => invalidate_l1d_line (writeback_l1d g c i).1 i) i (s_pidx (stag c i)) a i c1) as [Hf2 Hn2]; try done.
  { intros c' e Hi' Hf' Hn'. split_and!; [by apply evict_fewer|by apply invalidate_l1d_finv, writeback_l1d_finv|].
    pose proof (no_insn_same c' (writeback_l1d g c' e).1 i) as Hsame.
    destruct (writeback_l1d_ok g Hg c' e Hi') as (_ & _ & Hsl & _). apply Hsame; [done|by apply writeback_l1d_itags|done]. }
  apply retag_finv; [done|done|]. intros Hcs. apply Hf2. done.
Qed.

Lemma read_block_full n : forall (b : B) a b' l, read_block b a n = (b', (BUS_OK, l)) -> length l = n.
Proof.
  induction n as [|n IH]; intros b a b' l Hr; cbn [read_block] in Hr; [by injection Hr as _ <-|].
  destruct (bus_read b 4 a) as [b1 [s1 hi]]. destruct (Z.eqb_spec s1 BUS_OK); cbn [negb] in Hr; [|congruence].
  destruct (bus_read b1 4 _) as [b2 [s2 lo]]. destruct (Z.eqb_spec s2 BUS_OK); cbn [negb] in Hr; [|congruence].
  destruct (read_block b2 _ n) as [b3 [s3 l3]] eqn:E3. injection Hr as _ -> <-. cbn. f_equal. by eapply IH.
Qed.

(** New data in an invalid line, and in no other. *)
Lemma filled_finv (c c' : C) i l : finv c -> s_cs (stag c i) = L2_CS_INVALID -> Z.of_nat (length l) <= l2_chunks g ->
  l2_tags c' = l2_tags c -> ic_tags c' = ic_tags c -> l2_data c' = set_chunks (l2_data c) (i * l2_chunks g) l ->
  l2_instrs c' = l2_instrs c \/ l2_instrs c' = set_slots (l2_instrs c) (i * (2 * l2_chunks g)) l -> finv c'.
Proof.
  intros [F1 F2] Hv Hl Hst Hit Hd Hin. assert (Hs : forall j, stag c' j = stag c j) by (intros j; unfold stag; by rewrite Hst). split.
  - intros j. rewrite Hs. intros Hj o Ho. assert (Hne : j <> i) by (intros ->; done). unfold scell. rewrite Hd, filled_cells by done.
    rewrite (proj2 (Z.eqb_neq _ _) Hne). cbn [andb]. unfold slot_raw. destruct Hin as [->| ->]; [by apply F1|].
    rewrite !set_slots_other; [by apply F1|..]; destruct (Z.lt_total i j) as [H|[H|H]]; [right; nia|done|left; nia|right; nia|done|left; nia].
  - intros k. unfold itag. rewrite Hit. intros Hk. destruct (F2 k Hk) as (a & ? & ? & ? & ?). exists a. unfold l2_holds, iplace. by rewrite Hs.
Qed.

Lemma fill_l2_finv c phys virt : inv g c -> finv c -> phys_ok phys -> finv (fill_l2_line g c phys virt).1.
Proof.
  intros Hi Hf Hp. unfold fill_l2_line. set (i := si phys). destruct (evict_l2_ok g Hg c i Hi) as (Hi1 & _ & Hst1 & _). cbn zeta in *.
  assert (Hf1 : finv (invalidate_l2_line g (writeback_l2_line g c i).1 i)).
  { apply invalidate_l2_finv; [by apply (writeback_l2_ok g Hg)|by apply writeback_l2_finv]. }
  set (c1 := invalidate_l2_line g _ i) in *. unfold down_read_block. destruct (read_block (downstream c1) _ _) as [b [s l]] eqn:Er.
  destruct (read_block_fits _ _ _ _ _ _ Er) as [_ Hlen]. pose proof (off2_range g 0 Hg) as Hpos.
  assert (Hlen' : Z.of_nat (length l) <= l2_chunks g) by lia. rewrite shift_l2_chunks, shift_slots by done.
  assert (Hv : s_cs (stag c1 i) = L2_CS_INVALID) by (by rewrite Hst1).
  destruct (Z.eqb_spec s BUS_OK) as [->|]; cbn [negb fst]; [|by eapply (filled_finv c1 _ i l); auto].
  rewrite not_r5k by done. cbn [negb fst]. apply read_block_full in Er. set (c3 := (_ <| l2_instrs ::= _ |>)).
  apply retag_finv; [by eapply (filled_finv c1 c3 i l); auto|by apply no_insn_invalid|]. intros _ o Ho.
  unfold slot_raw, scell. change (l2_data c3) with (set_chunks (l2_data c1) (i * l2_chunks g) l). rewrite filled_cells, Z.eqb_refl by done.
  rewrite (proj2 (Z.ltb_lt _ _)) by lia. cbn [andb]. destruct (lookup_lt_is_Some_2 l (Z.to_nat o)) as [v Hv']; [lia|]. rewrite Hv'. cbn [default from_option id].
  change (l2_instrs c3) with (set_slots (l2_instrs c1) (i * (2 * l2_chunks g)) l).
  replace (2 * o) with (2 * Z.of_nat (Z.to_nat o)) by lia. by apply set_slots_words.
Qed.

Lemma ensure_l2_finv c virt phys vce err : inv g c -> finv c -> phys_ok phys -> finv (ensure_l2 g c virt phys vce err).1.
Proof.
  intros Hi Hf Hp. unfold ensure_l2. destruct (l2_holds g c phys) eqn:Hh.
  - case_match; [|done]. case_match; [done|by apply realias_finv].
  - pose proof (fill_l2_finv c phys virt Hi Hf Hp) as Hf'. by destruct (fill_l2_line g c phys virt).
Qed.

(** ** The data side *)

Lemma access_finv c virt phys : inv g c -> finv c -> maps_to virt phys -> finv (access g c virt phys).1.
Proof.
  intros Hi Hf (Hp & _). unfold access. rewrite not_r5k by done. cbn [negb]. case_match; [done|].
  unfold fill_l1d_line. rewrite not_r5k, has_l2_true by done. destruct (evict_l1d_ok g Hg c (dc_index g virt) Hi) as (Hi1 & _). cbn zeta in *.
  pose proof (ensure_l2_finv _ virt phys BUS_VCE BUS_ERR Hi1 (invalidate_l1d_finv _ (dc_index g virt) (writeback_l1d_finv c (dc_index g virt) Hi Hf)) Hp) as Hf2.
  destruct (ensure_l2 g _ virt phys BUS_VCE BUS_ERR) as [c2 [st|]]; cbn [fst] in *; [done|]. by destruct Hf2 as [F1 F2].
Qed.

Lemma read_finv c size virt phys : inv g c -> finv c -> maps_to virt phys -> finv (read g c size virt phys).1.
Proof.
  intros Hi Hf Hm. unfold read. pose proof (access_finv c virt phys Hi Hf Hm) as Hf1. destruct (access g c virt phys) as [c1 [r da]]. by case_match.
Qed.

Lemma write_finv c size virt phys val : inv g c -> finv c -> maps_to virt phys -> finv (write g c size virt phys val).1.
Proof.
  intros Hi Hf Hm. unfold write. pose proof (access_finv c virt phys Hi Hf Hm) as Hf1. destruct (access g c virt phys) as [c1 [r da]].
  case_match; [done|]. by destruct Hf1.
Qed.

Lemma write64_masked_finv c virt phys val mask : inv g c -> finv c -> maps_to virt phys -> finv (write64_masked g c virt phys val mask).1.
Proof.
  intros Hi Hf Hm. unfold write64_masked. pose proof (access_finv c virt phys Hi Hf Hm) as Hf1. destruct (access g c virt phys) as [c1 [r da]].
  case_match; [done|]. by destruct Hf1.
Qed.

(** ** Fetching *)

Lemma snapshot_agree (c : C) eidx phys : agree c (snapshot_l1i_line g c eidx phys) /\
  ic_tags (snapshot_l1i_line g c eidx phys) = ic_tags c /\ l2_instrs (snapshot_l1i_line g c eidx phys) = l2_instrs c.
Proof.
  unfold snapshot_l1i_line. apply (for_each_ind (fun _ c' => agree c c' /\ ic_tags c' = ic_tags c /\ l2_instrs c' = l2_instrs c)).
  - unfold ic_instrs_per_line. by geom Hg.
  - done.
  - intros k c' _ (Ha & Ht & Hi). split_and!; [|done|done]. etransitivity; [done|]. by split.
Qed.

Lemma agree_same (c c' : C) : agree c c' -> same_lines c c'.
Proof. intros [_ Hd _ Hs _]. split; intros; unfold dtag, stag; by rewrite ?Hd, ?Hs. Qed.

Lemma invalidate_l1i_finv c k : finv c -> finv (invalidate_l1i_line c k).
Proof.
  intros [F1 F2]. split; [done|]. intros j. unfold invalidate_l1i_line. rewrite itag_set. case_match; [done|]. apply F2.
Qed.

(** Why a fetch can fail. *)
Definition fetch_refused (virt phys st : Z) : Prop := refused g virt phys (exec_exception EXC_VCEI) (exec_exception EXC_IBE) st.

Lemma fill_l1i_ok c virt phys : inv g c -> finv c -> maps_to virt phys -> used g virt phys -> let '(c', r) := fill_l1i_line g c virt phys in
  inv g c' /\ finv c' /\ keeps g c c' /\ ((r = 0 /\ l2_holds g c' phys = true /\ (calm g c phys -> calm g c' phys)) \/ fetch_refused virt phys r).
Proof.
  intros Hi Hf (Hp & Hv & Hm) Hu. unfold fill_l1i_line. rewrite not_r5k, has_l2_true by done. cbn [negb andb]. set (k := ic_index g virt).
  pose proof (invalidate_l1i_finv c k Hf) as Hf1. destruct (agree_inv g c (invalidate_l1i_line c k)) as [Hi1 Hk1]; [by split|done|].
  set (c1 := invalidate_l1i_line c k) in *. pose proof (ensure_l2_ok g Hg c1 virt phys (exec_exception EXC_VCEI) (exec_exception EXC_IBE) Hi1 Hp Hu) as He.
  pose proof (ensure_l2_finv c1 virt phys (exec_exception EXC_VCEI) (exec_exception EXC_IBE) Hi1 Hf1 Hp) as Hf2.
  destruct (ensure_l2 g c1 virt phys _ _) as [c2 st]. cbn [fst] in Hf2. destruct He as (Hi2 & Hk2 & _ & Hst).
  assert (Hk12 : keeps g c c2) by (by etransitivity). destruct st as [st|]; [split_and!; try done; by right|].
  destruct Hst as (Hh & Hx & Hq). destruct (snapshot_agree c2 k phys) as (Ha3 & Ht3 & Hn3). set (c3 := snapshot_l1i_line g c2 k phys) in *.
  destruct (agree_inv g c2 c3 Ha3 Hi2) as [Hi3 Hk3]. pose proof (agree_same _ _ Ha3) as Hs3.
  assert (Hf3 : finv c3) by (by apply (finv_same c2); [| | |apply (ag_l2 _ _ Ha3)|]).
  assert (Hh3 : l2_holds g c3 phys = true) by (by rewrite (same_H2 g _ _ _ Hs3)).
  assert (Hpl : iplace c3 phys = k) by (unfold iplace; rewrite (sl_pidx _ _ Hs3), Hx; symmetry; by apply virt_iindex).
  destruct (agree_inv g c3 (set_itag c3 k (i_valid phys))) as [Hi4 Hk4]; [by split|done|].
  split_and!; [done| |by repeat (etransitivity; [eassumption|])|left; split_and!; [|done|]].
  - destruct Hf3 as [F1 F2]. split; [done|]. intros j. rewrite itag_set. destruct (Z.eqb_spec j k) as [->|]; [by exists phys|apply F2].
  - unfold k. rewrite ic_index_eq, Z.shiftr_div_pow2 by (done || by geom Hg). apply Z.div_small, Z.mod_pos_bound. by geom Hg.
  - intros Hc. destruct Hq as [Eq|Hq].
    + intros Hh1. change (H1 g c3 phys = true) in Hh1. change (d_dirty (dtag c3 (place g c3 phys)) = false).
      rewrite (same_H1 g _ _ _ Hs3) in Hh1. unfold dtag. rewrite (ag_dtags _ _ Ha3), (same_place g _ _ _ Hs3). rewrite Eq in *. by apply Hc.
    + intros Hh1. change (H1 g c3 phys = true) in Hh1. rewrite (same_H1 g _ _ _ Hs3), (Hq phys) in Hh1; done.
Qed.

(** The word at [phys] as the secondary cache holds it. *)
Definition iword (c : C) (phys : Z) : Z := field 4 phys (scell g c (si phys) (off2 g phys)).

Lemma slot_word_of c phys : inv g c -> finv c -> phys_ok phys -> phys mod 4 = 0 -> l2_holds g c phys = true -> slot_raw c (l2_slot g phys) = iword c phys.
Proof.
  intros Hi Hf Hp Ha Hh. assert (Hv : s_cs (stag c (si phys)) <> L2_CS_INVALID) by (apply andb_prop in Hh as [Hh _]; by apply negb_true_iff, Z.eqb_neq in Hh).
  destruct (fi_slots c Hf _ Hv _ (off2_range g phys Hg)) as [S1 S2].
  assert (E : l2_slot g phys = si phys * (2 * l2_chunks g) + 2 * off2 g phys + phys mod 8 / 4).
  { unfold l2_slot. rewrite Z.land_ones, Z.shiftr_div_pow2 by (by geom Hg). rewrite l2_index_eq by done. unfold off2, l2_chunks. geom Hg; divmod. }
  assert (Hm : phys mod 8 = 0 \/ phys mod 8 = 4) by divmod. rewrite E. unfold iword, field. destruct Hm as [Hm|Hm]; rewrite Hm.
  - change (0 / 4) with 0. rewrite Z.add_0_r, S1. done.
  - change (4 / 4) with 1. rewrite S2. unfold lo_word, u32. change (8 * (8 - 4 - 4)) with 0. by rewrite Z.shiftr_0_r.
Qed.

(** The secondary cache has what the hierarchy has, of a block that is not dirty. *)
Lemma iword_content c phys : inv g c -> phys_ok phys -> l2_holds g c phys = true -> calm g c phys -> iword c phys = field 4 phys (content g c (dword phys)).
Proof.
  intros Hi Hp Hh Hc. destruct (dword_block g Hg phys Hp) as (Hdk & Hdb & Hdo). unfold iword, content.
  assert (Ho : off2 g (dword phys) = off2 g phys) by (unfold off2, dword; geom Hg; divmod).
  destruct (H1_block g Hg c (dword phys) phys Hdk Hp Hdb) as [-> ->]. rewrite (H2_line g Hg c _ _ Hdk Hp (block_line g _ _ Hg Hdb)), Hh.
  rewrite (line_index g _ _ Hg (block_line g _ _ Hg Hdb)), Ho, Hdo. f_equal.
  destruct (H1 g c phys) eqn:E; [|done]. symmetry. apply (iv_clean1 g c Hi); [done|done|by apply Hc].
Qed.

Lemma iword_below (c : C) phys : phys_ok phys -> l2_holds g c phys = true -> iword c phys = field 4 phys (below g c (dword phys)).
Proof.
  intros Hp Hh. destruct (dword_block g Hg phys Hp) as (Hdk & Hdb & Hdo). unfold iword, below.
  assert (Ho : off2 g (dword phys) = off2 g phys) by (unfold off2, dword; geom Hg; divmod).
  by rewrite (H2_line g Hg c _ _ Hdk Hp (block_line g _ _ Hg Hdb)), Hh, (line_index g _ _ Hg (block_line g _ _ Hg Hdb)), Ho.
Qed.

Lemma fetch_ok c virt phys : inv g c -> finv c -> maps_to virt phys -> used g virt phys -> phys mod 4 = 0 -> let '(c', (st, d)) := fetch g c virt phys in
  inv g c' /\ finv c' /\ keeps g c c' /\
  ((st = EXEC_COMPLETE /\ l2_holds g c' phys = true /\ d = cell instr_default (l2_instrs c') (l2_slot g phys) /\ raw d = iword c' phys /\
    (calm g c phys -> ram phys = true -> raw d = field 4 phys (content g c (dword phys)))) \/ fetch_refused virt phys st).
Proof.
  intros Hi Hf Hm Hu Ha. unfold fetch. rewrite not_r5k by done. pose proof Hm as (Hp & Hv & Hmod).
  assert (Hend : forall c', inv g c' -> finv c' -> keeps g c c' -> l2_holds g c' phys = true -> (calm g c phys -> calm g c' phys) ->
    raw (cell instr_default (l2_instrs c') (l2_slot g phys)) = iword c' phys /\
    (calm g c phys -> ram phys = true -> raw (cell instr_default (l2_instrs c') (l2_slot g phys)) = field 4 phys (content g c (dword phys)))).
  { intros c' Hi' Hf' Hk' Hh' Hc'. pose proof (slot_word_of c' phys Hi' Hf' Hp Ha Hh') as E. unfold slot_raw in E. split; [done|]. intros Hc Hr.
    rewrite E, iword_content by auto. f_equal. apply (kp_content g _ _ Hk'); [|unfold dword; divmod]. rewrite <- Hr. apply ram_line. unfold dword. divmod. }
  destruct (i_matches_phys (itag c (ic_index g virt)) phys) eqn:Em.
  - cbn [Z.eqb negb]. assert (Hh : l2_holds g c phys = true).
    { unfold i_matches_phys in Em. apply Z.eqb_eq in Em. destruct (fi_incl c Hf (ic_index g virt)) as (a & Hpa & Hha & Hpl & Ht).
      - unfold i_is_valid. rewrite Em. apply page_tag_valid. by apply phys_fits.
      - rewrite <- Hha. apply H2_line; try done. symmetry. apply (same_iline g (s_pidx (stag c (si a))) (pidx virt)); [done| |].
        + apply page_tag_inj; [by apply phys_fits|by apply phys_fits|congruence].
        + rewrite <- (virt_iindex g virt phys) by done. exact Hpl. }
    destruct (Hend c) as [? ?]; try done. split_and!; try done. left. by split_and!.
  - pose proof (fill_l1i_ok c virt phys Hi Hf Hm Hu) as Hfill. destruct (fill_l1i_line g c virt phys) as [c' r].
    destruct Hfill as (Hi' & Hf' & Hk' & [(-> & Hh' & Hc')|Hr]).
    + cbn [Z.eqb negb]. destruct (Hend c') as [? ?]; try done. split_and!; try done. left. by split_and!.
    + assert (E : (r =? 0) = false) by (by destruct Hr as [[-> _]|[-> _]]). rewrite E. cbn [negb]. split_and!; try done. by right.
Qed.

(** The decoder leaves the word as it found it. *)
Lemma put_ok c virt phys d : inv g c -> finv c -> raw d = slot_raw c (l2_slot g phys) ->
  inv g (put g c virt phys d) /\ finv (put g c virt phys d) /\ keeps g c (put g c virt phys d).
Proof.
  intros Hi [F1 F2] Hd. unfold put. rewrite not_r5k by done.
  destruct (agree_inv g c (c <| l2_instrs ::= <[l2_slot g phys := d]> |>)) as [Hi' Hk']; [by split|done|]. split_and!; try done.
  split; [|done]. intros i Hv o Ho.
  assert (E : forall j, slot_raw (c <| l2_instrs ::= <[l2_slot g phys := d]> |>) j = slot_raw c j).
  { intros j. unfold slot_raw. cbn. rewrite cell_insert. by destruct (Z.eqb_spec j (l2_slot g phys)) as [->|]. }
  rewrite !E. by apply F1.
Qed.

End Fetch.

End CacheFetch.
