(* ===== verification/CacheClaims.v ===== *)
(** * What the caches promise

    Over a bus with RAM, the R4400's and the R10000's caches are memory: loads
    return what was stored, whatever is cached, evicted, written back or used
    under another virtual address in between, and cleaning makes RAM agree. *)

From S2P Require Import Prelude CpuDecode CpuExec CpuInstr CpuCache CacheProofs CacheInv CacheMem CacheFetch CpuPages CpuLaws CpuInv CpuInvMem CpuInvInstr CpuNew CpuRam.

(** ** The operations together

    The CACHE instruction's operations that discard no data, and the cleaning
    loops, keep both invariants and the memory the caches hold. *)

Module CacheOps.

Import CpuDecode CpuExec CpuInstr CpuCache CacheProofs CacheInv CacheMem CacheClean CacheFetch.
#[local] Open Scope Z_scope.
#[local] Open Scope word_scope.

Section Ops.

Context (g : Geom) (Hg : inclusive g) {B : Type} `{HB : BusOps B} {HR : RamBus B} {T : Tints}.

Notation C := (CpuCache B).
Notation si := (l2_index g).

Definition good (c : C) : Prop := inv g c /\ finv g c.

(** A state as good that holds the same memory. *)
Definition safe (c c' : C) : Prop := good c' /\ keeps g c c'.

Lemma safe_refl c : good c -> safe c c.
Proof. by split. Qed.

Lemma safe_trans c1 c2 c3 : safe c1 c2 -> safe c2 c3 -> safe c1 c3.
Proof. intros [_ K1] [? K2]. split; [done|by etransitivity]. Qed.

Lemma loop_safe {S} (p : S -> C) n (f : S -> Z -> S) s : good (p s) -> (forall s i, good (p s) -> safe (p s) (p (f s i))) -> safe (p s) (p (for_each n f s)).
Proof.
  intros Hs Hf. unfold for_each. generalize (seqZ 0 n). intros l. revert s Hs. induction l as [|i l IH]; intros s Hs; [by apply safe_refl|].
  cbn. pose proof (Hf s i Hs) as H1. eapply safe_trans; [done|]. apply IH, H1.
Qed.

Lemma writeback_l1d_line_safe c e cascade : good c -> safe c (writeback_l1d_line g c e cascade).
Proof.
  intros [Hi Hf]. destruct (writeback_l1d_line_tidy g Hg c e cascade Hi) as (? & ? & _). by split; [split; [|by eapply writeback_l1d_line_finv]|].
Qed.

Lemma writeback_l2_safe c i : good c -> safe c (writeback_l2_line g c i).1.
Proof. intros [Hi Hf]. destruct (writeback_l2_tidy g Hg c i Hi) as (? & ? & _). by split; [split; [|by eapply writeback_l2_finv]|]. Qed.

Lemma invalidate_l1i_safe c i : good c -> safe c (invalidate_l1i_line c i).
Proof. intros [Hi Hf]. destruct (agree_inv g c (invalidate_l1i_line c i)) as [? ?]; [by split|done|]. by split; [split; [|apply invalidate_l1i_finv]|]. Qed.

Lemma evict_l1d_safe c i : good c -> safe c (writeback_invalidate_l1d g c i).
Proof.
  intros Hc. unfold writeback_invalidate_l1d. pose proof (writeback_l1d_line_safe c i false Hc) as [[Hi1 Hf1] Hk1].
  pose proof (writeback_l1d_line_calm g Hg c i false (proj1 Hc)) as Hd.
  destruct (invalidate_l1d_ok g _ i Hi1 Hd) as [Hi2 Hk2]. split; [split; [done|by apply invalidate_l1d_finv]|by etransitivity].
Qed.

Lemma evict_l2_safe c i : good c -> safe c (writeback_invalidate_l2 g c i).
Proof.
  intros [Hi Hf]. destruct (evict_l2_ok g Hg c i Hi) as (? & ? & _). split; [|done]. split; [done|].
  destruct (writeback_l2_ok g Hg c i Hi) as (Hi1 & _). eapply invalidate_l2_finv; [done|done|by eapply writeback_l2_finv].
Qed.

(** ** The CACHE instruction *)

(** Index and hit operations that write data back before they drop it, the
    ones that only read tags, and those on the instruction cache that write
    nothing below it. *)
Definition safe_cache_op (op : Z) : bool :=
  let sel := op .& 3 in
  let operation := op .& 0x1C in
  (operation =? C_IINV) || (operation =? C_ILT) || (operation =? C_HWBINV) ||
  ((operation =? C_HINV) && (sel =? CACH_PI)) || ((operation =? C_HWB) && negb (sel =? CACH_PI)).

Lemma on_hit_safe o f c : good c -> (forall c i, good c -> safe c (f c i)) -> safe c (on_hit o f c).
Proof. intros Hc Hf. destruct o; [by apply Hf|by apply safe_refl]. Qed.

Lemma r4k_op_safe c t operation virt phys : good c -> maps_to virt phys -> used g virt phys ->
  (operation = C_IINV \/ operation = C_ILT \/ operation = C_HWBINV \/ (operation = C_HINV /\ t = TInsn) \/ (operation = C_HWB /\ t <> TInsn)) ->
  safe c (r4k_op g c t operation virt phys).1.
Proof.
  intros Hc Hm Hu Hop. unfold r4k_op. destruct Hop as [->|[->|[->|[[-> ->]|[-> Ht]]]]]; cbn [Z.eqb Pos.eqb C_IINV C_ILT C_HWBINV C_HINV C_HWB C_IST C_CDX fst].
  - destruct t; [by apply invalidate_l1i_safe|by apply evict_l1d_safe|by apply evict_l2_safe].
  - by apply safe_refl.
  - destruct t; [|apply on_hit_safe; [done|apply evict_l1d_safe]|apply on_hit_safe; [done|apply evict_l2_safe]].
    pose proof (fill_l1i_ok g Hg c virt phys (proj1 Hc) (proj2 Hc) Hm Hu) as Hf. destruct (fill_l1i_line g c virt phys) as [c' r].
    destruct Hf as (? & ? & ? & _). by split; [split|].
  - apply on_hit_safe; [done|apply invalidate_l1i_safe].
  - destruct t; [done|apply on_hit_safe; [done|]; intros; by apply writeback_l1d_line_safe|apply on_hit_safe; [done|]; intros; by apply writeback_l2_safe].
Qed.

Lemma cache_op_safe c op virt phys : good c -> maps_to virt phys -> used g virt phys -> safe_cache_op op = true -> safe c (cache_op g c op virt phys).1.
Proof.
  intros Hc Hm Hu Hop. unfold cache_op. rewrite has_l2_true by done. rewrite andb_false_r.
  unfold safe_cache_op in Hop. set (sel := op .& 3) in *. set (operation := op .& 0x1C) in *.
  destruct (R10K_CACHE_OPS g && (operation =? C_R10K_CBARRIER) && (sel =? CACH_PI)); [by apply safe_refl|].
  destruct (R10K_CACHE_OPS g && (operation =? C_R10K_ILD) && _); [by apply safe_refl|].
  destruct (Z.eqb_spec operation C_R10K_ISD) as [E|E]; [by rewrite E in Hop|]. rewrite andb_false_r. cbn [andb].
  apply r4k_op_safe; [done|done|done|]. unfold target_of. repeat setoid_rewrite orb_true_iff in Hop. repeat setoid_rewrite andb_true_iff in Hop.
  rewrite !Z.eqb_eq, negb_true_iff in Hop. destruct Hop as [[[[H|H]|H]|[H H']]|[H H']]; auto.
  - right; right; right; left. by rewrite H'.
  - right; right; right; right. rewrite H'. split; [done|]. by case_match.
Qed.

(** ** Cleaning *)

Lemma writeback_all_safe c : good c -> safe c (writeback_all g c).
Proof.
  intros Hc. unfold writeback_all. rewrite has_l2_true by done.
  assert (H1 : safe c (for_each (dc_ways g * 2 ^ dc_sets_shift g) (fun c e => if d_is_valid (dtag c e) then writeback_l1d_line g c e false else c) c)).
  { apply (loop_safe id); [done|]. intros s i Hs. unfold id. case_match; [by apply writeback_l1d_line_safe|by apply safe_refl]. }
  eapply safe_trans; [done|]. apply (loop_safe id); [apply H1|]. intros s i Hs. by apply writeback_l2_safe.
Qed.

Lemma writeback_dc_phys_line_safe c line : good c -> safe c (writeback_dc_phys_line g c line).1.
Proof.
  intros Hc. unfold writeback_dc_phys_line. apply (loop_safe fst _ _ (c, 0)); [done|]. intros s i Hs.
  apply (loop_safe fst); [done|]. intros [c' n] w Hc'. cbv zeta. case_match; [by apply writeback_l1d_line_safe|by apply safe_refl].
Qed.

Lemma writeback_range_safe c virt phys size : good c -> safe c (writeback_range g c virt phys size).1.
Proof.
  intros Hc. unfold writeback_range. case_match; [by apply safe_refl|]. rewrite has_l2_true by done.
  match goal with |- context [for_each _ _ ?x] => set (cn := x) end.
  assert (H1 : safe c cn.1).
  { unfold cn. destruct virt as [va|]; apply (loop_safe fst _ _ (c, 0)); try done; intros [c' k] i Hc'; cbn [fst] in *.
    - cbv zeta. destruct (hit_l1d g c' _ _) as [e|]; [|by apply safe_refl]. unfold writeback_dc_eidx.
      destruct (d_dirty (dtag c' e)); [by apply writeback_l1d_line_safe|by apply safe_refl].
    - pose proof (writeback_dc_phys_line_safe c' ((line_base (dc_line_shift g) phys) + (i .<< dc_line_shift g)) Hc') as Hs.
      by destruct (writeback_dc_phys_line g c' _) as [c2 d]. }
  eapply safe_trans; [done|]. apply (loop_safe fst); [apply H1|]. intros [c' k] i Hc'. cbn [fst] in *.
  destruct (hit_l2 g c' _) as [e|]; [|by apply safe_refl]. cbv zeta. case_match; [by apply writeback_l2_safe|by apply safe_refl].
Qed.

End Ops.

End CacheOps.

Module CacheClaims.

Import CpuDecode CpuExec CpuInstr CpuRam CpuCache CacheProofs CacheInv CacheMem CacheClean CacheFetch CacheOps.
#[local] Open Scope Z_scope.
#[local] Open Scope word_scope.

(** ** A bus to evaluate on: the RAM of [CpuRam] up to 512 MB. *)

Lemma load_be_4 m a : load_be m a 4 0 = ((byte_at m a * 256 + byte_at m (a + 1)) * 256 + byte_at m (a + 2)) * 256 + byte_at m (a + 3).
Proof. cbn [load_be]. by rewrite <- !Z.add_assoc. Qed.

Lemma store_be_4 m a v x : byte_at (store_be m a 4 v) x =
  if x =? a + 3 then wrap 8 v else if x =? a + 2 then wrap 8 (v .>> 8) else if x =? a + 1 then wrap 8 (v .>> 16)
  else if x =? a then wrap 8 (v .>> 24) else byte_at m x.
Proof.
  assert (Hi : forall (m : gmap Z Z) i w, byte_at (<[i := wrap 8 w]> m) x = if x =? i then wrap 8 w else byte_at m x).
  { intros m' i w. unfold byte_at. destruct (Z.eqb_spec x i) as [->|Hne].
    - rewrite (lookup_insert_eq m' i (wrap 8 w) : (<[i := wrap 8 w]> m' : Ram) !! i = _). cbn. apply wrap_small. by apply wrap_fits.
    - by rewrite (lookup_insert_ne m' i x (wrap 8 w) (not_eq_sym Hne) : (<[i := wrap 8 w]> m' : Ram) !! x = _). }
  cbn [store_be]. rewrite <- !Z.add_assoc. rewrite !Hi. cbn. by rewrite Z.shiftr_0_r.
Qed.

Lemma store_load_4 m a v : fits 32 v -> load_be (store_be m a 4 v) a 4 0 = v.
Proof.
  intros Hv. rewrite load_be_4, !store_be_4.
  repeat match goal with |- context [?x =? ?y] => first [rewrite (Z.eqb_refl x) | rewrite (proj2 (Z.eqb_neq x y)) by lia] end.
  unfold wrap. rewrite !Z.shiftr_div_pow2 by done. unfold fits in Hv. divmod.
Qed.

Lemma store_load_other m a v x : a mod 4 = 0 -> x mod 4 = 0 -> x <> a -> load_be (store_be m a 4 v) x 4 0 = load_be m x 4 0.
Proof.
  intros Ha Hx Hne. assert (Hd : x + 4 <= a \/ a + 4 <= x) by divmod. rewrite !load_be_4, !store_be_4.
  repeat match goal with |- context [?p =? ?q] => rewrite (proj2 (Z.eqb_neq p q)) by lia end. done.
Qed.

#[export] Program Instance ram_rambus : RamBus Ram := {|
  ram := fun a => (0 <=? a) && (a <? 2 ^ 29);
  word_at := fun m a => load_be m a 4 0;
|}.
Next Obligation. cbn. intros a [H1%Z.leb_le H2%Z.ltb_lt]%andb_prop. unfold phys_ok. pow2. lia. Qed.
Next Obligation.
  cbn. intros a b E. destruct (Z.leb_spec 0 a), (Z.leb_spec 0 b), (Z.ltb_spec a (2 ^ 29)), (Z.ltb_spec b (2 ^ 29)); cbn; try done; exfalso; divmod.
Qed.
Next Obligation. cbn. intros m a. apply (load_be_fits m 4 a 0 0); [done|by split]. Qed.
Next Obligation. done. Qed.
Next Obligation.
  cbn. intros m a v _ Ha Hv. eexists. split; [reflexivity|]. split; [by apply store_load_4|]. intros x _ Hx Hne. by apply store_load_other.
Qed.
Next Obligation. cbn. intros m a b' s d [= _ _ <-]. apply (load_be_fits m 4 a 0 0); [done|by split]. Qed.
Next Obligation. cbn. by intros m a b' r _ [= <- _] x _ _. Qed.
Next Obligation.
  cbn. intros m a v b' r Hr Ha [= <- _] x Hx Hx4. apply store_load_other; try done. intros ->. congruence.
Qed.

(** ** Flat memory *)

(** What the processor asks of its caches.  A fetch may leave the instruction
    decoded ([dec]) in the slot it got. *)
Inductive Op : Type :=
| OLoad (size virt phys : Z)
| OStore (size virt phys val : Z)
| OMasked (virt phys val mask : Z)
| OFetch (virt phys : Z) (dec : DecodedInstr -> DecodedInstr)
| OCache (op virt phys : Z)
| ORange (virt : option Z) (phys size : Z)
| OAll.

Inductive Resp : Type := RValue (st v : Z) | RStatus (st : Z) | RInstr (st : Z) (d : DecodedInstr) | RDone.

(** Doublewords of RAM. *)
Definition Memory : Type := Z -> Z.

Definition update (M : Memory) (phys : Z) (f : Z -> Z) : Memory := fun x => if x =? dword phys then f (M x) else M x.

Section Claims.

Context (g : Geom) {B : Type} `{HB : BusOps B} {HR : RamBus B}.

Notation C := (CpuCache B).

Definition valid_op (o : Op) : Prop :=
  match o with
  | OLoad size virt phys | OStore size virt phys _ => maps_to virt phys /\ access_size size /\ phys mod size = 0
  | OMasked virt phys val _ => maps_to virt phys /\ phys mod 8 = 0 /\ fits 64 val
  | OFetch virt phys dec => maps_to virt phys /\ phys mod 4 = 0 /\ forall d, raw (dec d) = raw d
  | OCache op virt phys => maps_to virt phys /\ safe_cache_op op = true
  | ORange _ _ _ | OAll => True
  end.

Definition step (c : C) (o : Op) : C * Resp :=
  match o with
  | OLoad size virt phys => let '(c, (st, v)) := read g c size virt phys in (c, RValue st v)
  | OStore size virt phys val => let '(c, st) := write g c size virt phys val in (c, RStatus st)
  | OMasked virt phys val mask => let '(c, st) := write64_masked g c virt phys val mask in (c, RStatus st)
  | OFetch virt phys dec =>
      let '(c, (st, d)) := fetch g c virt phys in
      (if st =? EXEC_COMPLETE then put g c virt phys (dec d) else c, RInstr st d)
  | OCache op virt phys => ((cache_op g c op virt phys).1, RDone)
  | ORange virt phys size => ((writeback_range g c virt phys size).1, RDone)
  | OAll => (writeback_all g c, RDone)
  end.

Fixpoint run (c : C) (ops : list Op) : C * list Resp :=
  match ops with
  | [] => (c, [])
  | o :: l => let '(c, r) := step c o in let '(c, rs) := run c l in (c, r :: rs)
  end.

(** Memory without caches: what loads see, what fetches see, which may lag
    behind, and under which virtual indices lines have been used. *)
Record Flat : Type := { m_data : Memory; m_code : Memory; m_seen : Tints }.

Definition touch (S : Tints) (virt phys : Z) : Tints := fun l p => S l p \/ (l = phys / 2 ^ l2_line_shift g /\ p = pidx virt).

(** The uses so far with those of the request. *)
Definition seen_after (S : Tints) (o : Op) : Tints :=
  match o with
  | OLoad _ virt phys | OStore _ virt phys _ | OMasked virt phys _ _ | OFetch virt phys _ | OCache _ virt phys => touch S virt phys
  | ORange _ _ _ | OAll => S
  end.

(** Doublewords of RAM. *)
Definition ram8 (x : Z) : Prop := ram x = true /\ x mod 8 = 0.

(** The answers: RAM loads what was stored last and a fetch returns a word of
    the instruction view; a request may be refused, by the R4400 with a virtual
    coherency exception when an earlier request used the line under another
    virtual index, and by either outside RAM.  Nothing but a store changes the
    data, and cleaning, of everything or of a physical range, makes the
    instruction view that data. *)
Inductive answer (s : Flat) (code : Memory) : Op -> Resp -> Memory -> Prop :=
| an_load size virt phys v : (ram phys = true -> v = field size phys (m_data s (dword phys))) -> answer s code (OLoad size virt phys) (RValue BUS_OK v) (m_data s)
| an_no_load size virt phys st v : refused g (T := m_seen s) virt phys BUS_VCE BUS_ERR st -> answer s code (OLoad size virt phys) (RValue st v) (m_data s)
| an_store size virt phys val : answer s code (OStore size virt phys val) (RStatus BUS_OK) (update (m_data s) phys (set_field size phys val))
| an_no_store size virt phys val st : refused g (T := m_seen s) virt phys BUS_VCE BUS_ERR st -> answer s code (OStore size virt phys val) (RStatus st) (m_data s)
| an_masked virt phys val mask :
    answer s code (OMasked virt phys val mask) (RStatus BUS_OK) (update (m_data s) phys (fun v => (v .& bnot 64 mask) .| (val .& mask)))
| an_no_masked virt phys val mask st :
    refused g (T := m_seen s) virt phys BUS_VCE BUS_ERR st -> answer s code (OMasked virt phys val mask) (RStatus st) (m_data s)
| an_fetch virt phys dec d : (ram phys = true -> raw d = field 4 phys (code (dword phys))) -> answer s code (OFetch virt phys dec) (RInstr EXEC_COMPLETE d) (m_data s)
| an_no_fetch virt phys dec st d : fetch_refused g (T := m_seen s) virt phys st -> answer s code (OFetch virt phys dec) (RInstr st d) (m_data s)
| an_cache op virt phys : answer s code (OCache op virt phys) RDone (m_data s)
| an_range virt phys size :
    (virt = None -> 0 <= phys -> 0 < size -> phys + size <= 2 ^ 36 -> forall x, ram8 x -> phys - phys mod 8 <= x < phys + size -> code x = m_data s x) ->
    answer s code (ORange virt phys size) RDone (m_data s)
| an_all : (forall x, ram8 x -> code x = m_data s x) -> answer s code OAll RDone (m_data s).

(** One request: the instruction view keeps a doubleword, or takes the one
    loads saw. *)
Record flat (s : Flat) (o : Op) (r : Resp) (s' : Flat) : Prop := {
  fl_answer : answer s (m_code s') o r (m_data s');
  fl_code x : ram8 x -> m_code s' x = m_code s x \/ m_code s' x = m_data s x;
  fl_seen : m_seen s' = seen_after (m_seen s) o;
}.

Inductive flat_run : Flat -> list Op -> list Resp -> Flat -> Prop :=
| fr_nil s : flat_run s [] [] s
| fr_cons s s' s'' o r ops rs : flat s o r s' -> flat_run s' ops rs s'' -> flat_run s (o :: ops) (r :: rs) s''.

(** Before the first request both views are RAM. *)
Definition fresh (b : B) : Flat := {| m_data := mem64 b; m_code := mem64 b; m_seen := fun _ _ => False |}.

(** The caches hold [s]. *)
Record holds (c : C) (s : Flat) : Prop := {
  ho_data x : ram8 x -> content g c x = m_data s x;
  ho_code x : ram8 x -> below g c x = m_code s x;
}.

(** The invariants, over the uses so far. *)
Definition sound (c : C) (S : Tints) : Prop := good g (T := S) c.

Hypothesis Hg : inclusive g.

Lemma inv_mono (S S' : Tints) c : (forall l p, S l p -> S' l p) -> inv g (T := S) c -> inv g (T := S') c.
Proof. intros HS [J1 J2 J3 J4 J5 J6 J7 J8 J9 J10]. split; try done. intros a Ha Hh. by apply HS, J10. Qed.

Lemma sound_mono (S S' : Tints) c : (forall l p, S l p -> S' l p) -> sound c S -> sound c S'.
Proof. intros HS [Hi Hf]. split; [by apply (inv_mono S)|done]. Qed.

Lemma sound_after (S : Tints) o c : sound c S -> sound c (seen_after S o).
Proof. apply sound_mono. intros l p Hl. destruct o; (by left) || done. Qed.

Lemma used_touch (S : Tints) virt phys : used g (T := touch S virt phys) virt phys.
Proof. by right. Qed.

(** A refusal is of an index used before the request. *)
Lemma refused_before (S : Tints) virt phys vce err st : refused g (T := touch S virt phys) virt phys vce err st -> refused g (T := S) virt phys vce err st.
Proof. intros [(-> & Eg & p & [Hp|[_ Hp]] & Hne)|[-> Hr]]; [left; split_and!; [done|done|by exists p]|done|by right]. Qed.

Lemma new_good b : sound (new b : C) (m_seen (fresh b)) /\ holds (new b) (fresh b).
Proof.
  assert (Hs : forall i, stag (new b : C) i = s_default) by (intros; apply cell_empty).
  assert (Hh : forall x, l2_holds g (new b : C) x = false) by (intros x; unfold l2_holds; by rewrite Hs).
  assert (Hd : forall e, dtag (new b : C) e = d_default) by (intros; apply cell_empty).
  assert (Hf : forall k, fits 64 (cell 0 (∅ : gmap Z Z) k)) by (intros; rewrite cell_empty; by split).
  split; [split; split|split].
  - intros i. by rewrite Hs.
  - intros i. rewrite Hs. by left.
  - intros i. by rewrite Hs.
  - intros d. by rewrite Hd.
  - intros d. by rewrite Hd.
  - intros a _. unfold H1. by rewrite Hh.
  - intros a _ _. by rewrite Hh.
  - done.
  - done.
  - intros a _. by rewrite Hh.
  - intros i. by rewrite Hs.
  - intros k. unfold itag. cbn. by rewrite cell_empty.
  - intros x _. unfold content, H1. by rewrite Hh.
  - intros x _. unfold below. by rewrite Hh.
Qed.

(** ** One request *)

(** The data of flat memory next to what the levels below the primary cache hold now. *)
Definition seen_by (c : C) (M : Memory) (S : Tints) : Flat := {| m_data := M; m_code := below g c; m_seen := S |}.

(** A request that stores nothing. *)
Lemma step_kept c c' s o r : holds c s -> safe g (T := seen_after (m_seen s) o) c c' -> answer s (below g c') o r (m_data s) ->
  exists s', flat s o r s' /\ sound c' (m_seen s') /\ holds c' s'.
Proof.
  intros Hc [Hs Hk] Ha. exists (seen_by c' (m_data s) (seen_after (m_seen s) o)). split_and!; [split; [done| |done]|done|split; [|done]].
  - intros x Hx. cbn. destruct (keeps_below g c c' x (proj1 Hs) Hk (proj1 Hx) (proj2 Hx)) as [->| ->]; [left; by apply ho_code|right; by apply ho_data].
  - intros x Hx. cbn. rewrite (kp_content g _ _ Hk) by apply Hx. by apply ho_data.
Qed.

(** A request that stores. *)
Lemma step_stored c c' s o r phys f : holds c s -> sound c' (seen_after (m_seen s) o) -> stored g c c' phys f ->
  answer s (below g c') o r (update (m_data s) phys f) -> exists s', flat s o r s' /\ sound c' (m_seen s') /\ holds c' s'.
Proof.
  intros Hc Hs [S1 S2] Ha. exists (seen_by c' (update (m_data s) phys f) (seen_after (m_seen s) o)). split_and!; [split; [done| |done]|done|split; [|done]].
  - intros x Hx. cbn. destruct (S2 x (proj1 Hx) (proj2 Hx)) as [->| ->]; [left; by apply ho_code|right; by apply ho_data].
  - intros x Hx. cbn. unfold update. rewrite (S1 x (proj1 Hx) (proj2 Hx)), (ho_data _ _ Hc x Hx). done.
Qed.

Lemma ram_dword phys : ram phys = true -> ram8 (dword phys).
Proof. intros Hr. split; [rewrite <- Hr; apply ram_line; unfold dword; divmod|unfold dword; divmod]. Qed.

Lemma put_below (c : C) virt phys d x : below g (put g c virt phys d) x = below g c x.
Proof. unfold put. by rewrite not_r5k. Qed.

Lemma fetch_refines c s virt phys dec : sound c (m_seen s) -> holds c s -> valid_op (OFetch virt phys dec) ->
  let '(c', r) := step c (OFetch virt phys dec) in exists s', flat s (OFetch virt phys dec) r s' /\ sound c' (m_seen s') /\ holds c' s'.
Proof.
  intros Hs Hc (Hm & Ha & Hdec). destruct (sound_after _ (OFetch virt phys dec) c Hs) as [Hi Hf]. cbn [step].
  pose proof (fetch_ok g Hg c virt phys Hi Hf Hm (used_touch _ _ _) Ha) as Hr. destruct (fetch g c virt phys) as [c' [st d]].
  destruct Hr as (Hi' & Hf' & Hk & Hr). destruct Hr as [(-> & Hh & Hd & Hw & _)|Hr].
  - rewrite Z.eqb_refl. destruct (put_ok g Hg c' virt phys (dec d) Hi' Hf') as (? & ? & Hk2); [rewrite Hdec, Hd; done|].
    apply (step_kept c); [done|split; [by split|by etransitivity]|]. apply an_fetch. intros _. rewrite put_below, Hw. by apply iword_below; [|apply Hm|].
  - assert (E : (st =? EXEC_COMPLETE) = false) by (by destruct Hr as [[-> _]|[-> _]]). rewrite E.
    apply (step_kept c); [done|by split; [split|]|]. by apply an_no_fetch, refused_before.
Qed.

(** The caches answer as flat memory does. *)
Lemma step_refines c s o : sound c (m_seen s) -> holds c s -> valid_op o -> let '(c', r) := step c o in
  exists s', flat s o r s' /\ sound c' (m_seen s') /\ holds c' s'.
Proof.
  intros Hs Hc Hv. destruct (sound_after _ o c Hs) as [Hi Hf].
  destruct o as [size virt phys|size virt phys val|virt phys val mask|virt phys dec|op virt phys|virt phys size|]; [| | |by apply fetch_refines|..]; cbn [step valid_op] in *.
  - destruct Hv as (Hm & Hsz & Ha). pose proof (read_ok g Hg c size virt phys Hi Hm (used_touch _ _ _) Hsz Ha) as Hr. pose proof (read_finv g Hg c size virt phys Hi Hf Hm) as Hf'.
    destruct (read g c size virt phys) as [c' [st v]]. destruct Hr as (Hi' & Hk & Hr). apply (step_kept c); [done|by split; [split|]|].
    destruct Hr as [[-> Hr]|Hr]; [|by apply an_no_load, refused_before]. apply an_load. intros Hram. rewrite Hr by done. f_equal. by apply ho_data, ram_dword.
  - destruct Hv as (Hm & Hsz & Ha). pose proof (write_ok g Hg c size virt phys val Hi Hm (used_touch _ _ _) Hsz Ha) as Hr. pose proof (write_finv g Hg c size virt phys val Hi Hf Hm) as Hf'.
    destruct (write g c size virt phys val) as [c' st]. destruct Hr as (Hi' & [[-> Hst]|[Hr Hk]]).
    + eapply (step_stored c); [done|by split|done|constructor].
    + apply (step_kept c); [done|by split; [split|]|]. by apply an_no_store, refused_before.
  - destruct Hv as (Hm & Ha & Hval). pose proof (masked_store_ok g Hg c virt phys val mask Hi Hm (used_touch _ _ _) Ha Hval) as Hr.
    pose proof (write64_masked_finv g Hg c virt phys val mask Hi Hf Hm) as Hf'.
    destruct (write64_masked g c virt phys val mask) as [c' st]. destruct Hr as (Hi' & [[-> Hst]|[Hr Hk]]).
    + eapply (step_stored c); [done|by split|done|constructor].
    + apply (step_kept c); [done|by split; [split|]|]. by apply an_no_masked, refused_before.
  - destruct Hv as [Hm Hop]. apply (step_kept c); [done|by apply (cache_op_safe g Hg); [| |apply used_touch|]|constructor].
  - apply (step_kept c); [done|by apply writeback_range_safe|]. constructor. intros -> Hp Hz He x Hx Hr.
    destruct (writeback_range_ok g Hg c phys size Hi Hp Hz He) as (_ & _ & Hw). rewrite (proj2 (Hw x (proj1 Hx) (proj2 Hx) Hr)). by apply ho_data.
  - apply (step_kept c); [done|by apply writeback_all_safe|]. constructor. intros x Hx.
    destruct (writeback_all_ok g Hg c Hi) as (_ & _ & Hw). rewrite (proj2 (Hw x (proj1 Hx) (proj2 Hx))). by apply ho_data.
Qed.

Lemma run_refines ops : forall c s, sound c (m_seen s) -> holds c s -> Forall valid_op ops ->
  exists s', flat_run s ops (run c ops).2 s' /\ sound (run c ops).1 (m_seen s') /\ holds (run c ops).1 s'.
Proof.
  induction ops as [|o ops IH]; intros c s Hc HM Hv; [exists s; split; [constructor|done]|]. apply Forall_cons in Hv as [Ho Hv]. cbn [run].
  pose proof (step_refines c s o Hc HM Ho) as Hs. destruct (step c o) as [c1 r]. destruct Hs as (s1 & Hfl & Hc1 & HM1).
  destruct (IH c1 s1 Hc1 HM1 Hv) as (s2 & Hfr & Hc2 & HM2). destruct (run c1 ops) as [c2 rs]. exists s2. split; [by econstructor|done].
Qed.

(** ** Stores that are to be executed *)

(** A store leaves its block in the data cache, under its virtual index. *)
Lemma write_held {T : Tints} c size virt phys val c' : good g c -> maps_to virt phys -> used g virt phys -> access_size size -> phys mod size = 0 ->
  write g c size virt phys val = (c', BUS_OK) -> H1 g c' phys = true /\ place g c' phys = dc_index g virt.
Proof.
  intros [Hi _] Hm Hu Hs Ha Hw. unfold write in Hw. pose proof (access_ok g Hg c virt phys Hi Hm Hu) as Hac. destruct (access g c virt phys) as [c1 [r da]].
  destruct Hac as (Hi1 & _ & -> & [(-> & Hh & Hp)|Hr]); [|rewrite (refused_big g _ _ _ Hr) in Hw; injection Hw as _ ->; by destruct Hr as [[? _]|[? _]]].
  cbn [Z.ltb Z.compare] in Hw. unfold eidx_of in Hw. rewrite not_r5k in Hw by done. injection Hw as <-.
  rewrite (dc_write_poke g Hg c1 virt phys) by done.
  match goal with |- context [poke c1 ?d ?k ?v] => pose proof (poke_same c1 d k v) as Hsl end.
  by rewrite (same_H1 g _ _ _ Hsl), (same_place g _ _ _ Hsl).
Qed.

(** Hit_Writeback_Invalidate on the data cache. *)
Definition HIT_WRITEBACK_INVALIDATE_D : Z := C_HWBINV .| CACH_PD.

Lemma flush_block {T : Tints} c virt phys : good g c -> maps_to virt phys -> H1 g c phys = true -> place g c phys = dc_index g virt ->
  let c' := (cache_op g c HIT_WRITEBACK_INVALIDATE_D virt phys).1 in H1 g c' phys = false.
Proof.
  intros [Hi _] Hm Hh Hp. cbn zeta. unfold cache_op. rewrite has_l2_true by done. change (HIT_WRITEBACK_INVALIDATE_D .& 3) with CACH_PD.
  change (HIT_WRITEBACK_INVALIDATE_D .& 0x1C) with C_HWBINV. cbn [Z.eqb Pos.eqb C_HWBINV C_R10K_CBARRIER C_R10K_ILD C_R10K_ISD CACH_PD CACH_PI is_secondary CACH_SI CACH_SD orb andb negb].
  rewrite !andb_false_r. cbn [andb]. unfold r4k_op. cbn [Z.eqb Pos.eqb C_IINV C_ILT C_IST C_CDX C_HINV C_HWBINV target_of CACH_PD CACH_PI fst].
  assert (E : hit_l1d g c virt phys = Some (dc_index g virt)).
  { unfold hit_l1d. assert (Ew : seqZ 0 (dc_ways g) = [0]) by (by destruct Hg as [->| ->]). rewrite Ew. cbn [map].
    rewrite Z.shiftl_0_l, Z.lor_0_r, filter_cons, decide_True; [done|]. rewrite <- Hp. by apply andb_prop in Hh as [_ ?]. }
  rewrite E. cbn [on_hit]. unfold writeback_invalidate_l1d, writeback_l1d_line. destruct (writeback_l1d_ok g Hg c (dc_index g virt) Hi) as (_ & _ & Hsl & _).
  destruct (writeback_l1d g c (dc_index g virt)) as [c1 took]. cbn [fst] in Hsl. rewrite andb_false_r.
  unfold H1. apply andb_false_intro2. change (place g (invalidate_l1d_line c1 (dc_index g virt)) phys) with (place g c1 phys).
  rewrite (same_place g _ _ _ Hsl), Hp. unfold invalidate_l1d_line. rewrite dtag_set, Z.eqb_refl. apply default_matches, Hm.
Qed.

(** ** The claims *)

(** C2: Whatever valid sequence of loads, stores, masked stores, fetches,
    data-preserving CACHE operations and cleanings runs on a new R4400 or
    R10000 cache, every answer is one that memory without caches gives: a load
    returns what was stored last; a fetch returns the word of an instruction
    view that, doubleword by doubleword, is what it was or what loads see, and
    is what loads see once everything, or the physical range around it, was
    cleaned; an access to RAM is refused only by the R4400, with a virtual
    coherency exception, and only when an earlier request used the line under
    another virtual index.  Writing everything back leaves RAM with the data
    flat memory ends with. *)
Theorem cache_refines_memory (b : B) ops : Forall valid_op ops ->
  exists s, flat_run (fresh b) ops (run (new b) ops).2 s /\
    forall x, ram8 x -> mem64 (downstream (writeback_all g (run (new b) ops).1)) x = m_data s x.
Proof.
  intros Hv. destruct (new_good b) as [Hc HM]. destruct (run_refines ops _ _ Hc HM Hv) as (s & Hfr & [Hi _] & HM').
  exists s. split; [done|]. intros x Hx. destruct (writeback_all_ok g Hg _ Hi) as (_ & _ & Hw). rewrite (proj1 (Hw x (proj1 Hx) (proj2 Hx))). by apply HM'.
Qed.

(** C9: After any valid sequence, cleaning a physical range makes RAM hold, in
    the range, what flat memory holds there: whatever virtual index the lines
    are cached under. *)
Theorem range_reaches_memory (b : B) ops phys size : Forall valid_op ops -> 0 <= phys -> 0 < size -> phys + size <= 2 ^ 36 ->
  exists s, flat_run (fresh b) ops (run (new b) ops).2 s /\
    forall x, ram x = true -> x mod 8 = 0 -> phys - phys mod 8 <= x < phys + size ->
      mem64 (downstream (writeback_range g (run (new b) ops).1 None phys size).1) x = m_data s x.
Proof.
  intros Hv Hp Hs He. destruct (new_good b) as [Hc HM]. destruct (run_refines ops _ _ Hc HM Hv) as (s & Hfr & [Hi _] & HM').
  exists s. split; [done|]. intros x Hx Hx8 Hr. destruct (writeback_range_ok g Hg _ phys size Hi Hp Hs He) as (_ & _ & Hw).
  rewrite (proj1 (Hw x Hx Hx8 Hr)). by apply HM'.
Qed.

(** C8: A word stored to RAM, once its data line is flushed with
    Hit_Writeback_Invalidate, is what a fetch of that address returns, also
    under another virtual address; the R4400 may answer the fetch with a
    virtual coherency exception, the R10000 answers it. *)
Theorem flushed_store_is_fetched (b : B) ops virt phys val c1 virt' : Forall valid_op ops -> maps_to virt phys -> maps_to virt' phys ->
  phys mod 4 = 0 -> ram phys = true -> write g (run (new b) ops).1 4 virt phys val = (c1, BUS_OK) ->
  let '(_, (st, d)) := fetch g (cache_op g c1 HIT_WRITEBACK_INVALIDATE_D virt phys).1 virt' phys in
  (st = EXEC_COMPLETE /\ raw d = u32 val) \/ (st = exec_exception EXC_VCEI /\ g = R4400).
Proof.
  intros Hv Hm Hm' Ha Hr Hw. destruct (new_good b) as [Hc0 HM]. destruct (run_refines ops _ _ Hc0 HM Hv) as (M & _ & Hc' & _).
  set (c := (run (new b) ops).1) in *. assert (Hs : access_size 4) by (unfold access_size; lia). set (T := (fun _ _ => True) : Tints).
  assert (Hc : good g (T := T) c) by (by apply (sound_mono (m_seen M))). clear Hc'. assert (Hu : forall v p, used g (T := T) v p) by done.
  pose proof (write_ok g Hg c 4 virt phys val (proj1 Hc) Hm (Hu _ _) Hs Ha) as Hwo. pose proof (write_finv g Hg c 4 virt phys val (proj1 Hc) (proj2 Hc) Hm) as Hwf.
  destruct (write_held c 4 virt phys val c1 Hc Hm (Hu _ _) Hs Ha Hw) as [Hh Hp]. rewrite Hw in Hwo, Hwf. destruct Hwo as (Hi1 & [[_ Hst]|[Hx _]]); [|by destruct Hx as [[? _]|[? _]]].
  assert (Hc1 : good g (T := T) c1) by (by split). pose proof (flush_block c1 virt phys Hc1 Hm Hh Hp) as Hgone. cbn zeta in Hgone.
  destruct (cache_op_safe g Hg c1 HIT_WRITEBACK_INVALIDATE_D virt phys Hc1 Hm (Hu _ _) eq_refl) as [[Hi2 Hf2] Hk2].
  set (c2 := (cache_op g c1 _ virt phys).1) in *. pose proof (fetch_ok g Hg c2 virt' phys Hi2 Hf2 Hm' (Hu _ _) Ha) as Hfe.
  destruct (fetch g c2 virt' phys) as [c3 [st d]]. destruct Hfe as (_ & _ & _ & [(-> & _ & _ & _ & Hd)|[(-> & -> & _)|[_ Hr']]]); [left|by right|congruence].
  split; [done|]. rewrite Hd; [|by intros E; rewrite Hgone in E|done]. destruct (ram_dword phys Hr) as [Hrd Hd8].
  rewrite (kp_content g _ _ Hk2 _ Hrd Hd8), (so_content _ _ _ _ _ Hst _ Hrd Hd8), Z.eqb_refl. by apply field_set_same.
Qed.

End Claims.

(** A store, a load under another virtual index after a flush, a fetch, a
    masked store and a cleaning. *)
Definition sample_ops : list Op :=
  [OStore 4 0x88002000 0x8002000 0xDEADBEEF; OLoad 2 0x88002002 0x8002002; OCache (C_HWBINV .| CACH_SD) 0x88002000 0x8002000;
   OLoad 1 0x3001 0x8002001; OFetch 0x3000 0x8002000 id; OMasked 0x3000 0x8002000 (Z.ones 64) 0xFF; ORange None 0x8002000 0x80].

Lemma sample_valid : Forall valid_op sample_ops.
Proof. repeat constructor; unfold access_size; lia || done. Qed.

Lemma sample_answers : (run R4400 (new (∅ : Ram)) sample_ops).2 =
  [RStatus BUS_OK; RValue BUS_OK 0xBEEF; RDone; RValue BUS_OK 0xAD; RInstr EXEC_COMPLETE (slot_word instr_default 0xDEADBEEF); RStatus BUS_OK; RDone].
Proof. vm_compute. reflexivity. Qed.

Lemma cache_refines_memory_witness : exists s, flat_run R4400 (fresh (∅ : Ram)) sample_ops (run R4400 (new (∅ : Ram)) sample_ops).2 s /\
  forall x, ram8 x -> mem64 (downstream (writeback_all R4400 (run R4400 (new (∅ : Ram)) sample_ops).1)) x = m_data s x.
Proof. apply (cache_refines_memory R4400); [by left|apply sample_valid]. Defined.

Lemma range_reaches_memory_witness : exists s, flat_run R10000 (fresh (∅ : Ram)) sample_ops (run R10000 (new (∅ : Ram)) sample_ops).2 s /\
  forall x, ram x = true -> x mod 8 = 0 -> 0x8002000 - 0x8002000 mod 8 <= x < 0x8002000 + 0x40 ->
    mem64 (downstream (writeback_range R10000 (run R10000 (new (∅ : Ram)) sample_ops).1 None 0x8002000 0x40).1) x = m_data s x.
Proof. apply (range_reaches_memory R10000); [by right|apply sample_valid|lia|lia|lia]. Defined.

(** What the instruction view is for: an unflushed store is not fetched on the
    R4400 until the data cache is cleaned, and a line used under one virtual
    index refuses another. *)
Example fetch_lags : (run R4400 (new (∅ : Ram)) [OFetch 0x3000 0x8002000 id; OStore 4 0x3000 0x8002000 0xDEADBEEF; OFetch 0x3000 0x8002000 id; OAll;
    OFetch 0x3000 0x8002000 id; OLoad 4 0x4000 0x8002000]).2 =
  [RInstr EXEC_COMPLETE (slot_word instr_default 0); RStatus BUS_OK; RInstr EXEC_COMPLETE (slot_word instr_default 0); RDone;
   RInstr EXEC_COMPLETE (slot_word instr_default 0xDEADBEEF); RValue BUS_VCE 0].
Proof. vm_compute. reflexivity. Qed.

Definition sample_store : CpuCache Ram := (write R4400 (run R4400 (new (∅ : Ram)) sample_ops).1 4 0x3000 0x8002000 0x24020001).1.

Lemma sample_store_ok : write R4400 (run R4400 (new (∅ : Ram)) sample_ops).1 4 0x3000 0x8002000 0x24020001 = (sample_store, BUS_OK).
Proof. vm_compute. reflexivity. Qed.

Lemma sample_maps v : v mod 4096 = 0 -> 0 <= v -> maps_to v 0x8002000.
Proof. intros Hv H0. split; [by split|]. split; [done|]. by rewrite Hv. Qed.

Lemma flushed_store_is_fetched_witness :
  let '(_, (st, d)) := fetch R4400 (cache_op R4400 sample_store HIT_WRITEBACK_INVALIDATE_D 0x3000 0x8002000).1 0x88003000 0x8002000 in
  (st = EXEC_COMPLETE /\ raw d = u32 0x24020001) \/ (st = exec_exception EXC_VCEI /\ R4400 = R4400).
Proof.
  pose proof (flushed_store_is_fetched R4400 (B := Ram) (or_introl eq_refl) ∅ sample_ops 0x3000 0x8002000 0x24020001 sample_store 0x88003000 sample_valid
    (sample_maps 0x3000 eq_refl ltac:(lia)) (sample_maps 0x88003000 eq_refl ltac:(lia)) eq_refl eq_refl sample_store_ok) as H.
  exact H.
Defined.

End CacheClaims.
