(* ===== verification/CacheTags.v ===== *)
(** * TagLo

    Index_Store_Tag followed by Index_Load_Tag on the R4400's and the R5000's
    caches, which keep decoded tags, against the functions by which the shadow
    cache keeps TagLo words. *)

From S2P Require Import Prelude CpuDecode CpuExec CpuInstr CpuCache CacheProofs.
Import CpuDecode CpuExec CpuInstr CpuCache CacheProofs.

#[local] Open Scope Z_scope.
#[local] Open Scope word_scope.

Module CacheTags.

Lemma u32_word t : fits 32 t -> u32 t = t.
Proof. intros Ht. by apply wrap_small. Qed.

(** The page field of TagLo. *)
Lemma taglo_page t : fits 32 t -> t .& 0xFFFFFF00 = (t .>> 8) .<< 8 /\ (t .>> 8) .& L1_PTAG_MASK = t .>> 8 /\ fits 24 (t .>> 8).
Proof.
  intros Ht. assert (Hf : fits 24 (t .>> 8)) by (unfold fits in *; rewrite Z.shiftr_div_pow2 by done; divmod). split_and!; [| |done].
  - change 0xFFFFFF00 with (Z.ones 24 .<< 8). zbits. symmetry. apply (fits_testbit 32); done || lia.
  - change L1_PTAG_MASK with (Z.ones 24). rewrite Z.land_ones by done. by apply Z.mod_small.
Qed.

Lemma tag_fields q s : fits 24 q -> fits 2 s -> ((q .<< 8) .| (s .<< 6)) .>> 8 = q /\ (((q .<< 8) .| (s .<< 6)) .>> 6) .& 3 = s.
Proof.
  intros Hq Hs. unfold fits in *. assert (E : (q .<< 8) .| (s .<< 6) = q * 2 ^ 8 + s * 2 ^ 6).
  { rewrite !Z.shiftl_mul_pow2 by done. apply lor_block; [done|]. split; pow2; lia. }
  rewrite E. change 3 with (Z.ones 2). rewrite Z.land_ones, !Z.shiftr_div_pow2 by done. split; divmod.
Qed.

Lemma page_line q : fits 24 q -> (page_tag (q .<< L1_PTAG_SHIFT) .>> L1_PTAG_SHIFT) .& L1_PTAG_MASK = q /\ negb (page_tag (q .<< L1_PTAG_SHIFT) .& 1 =? 0) = true.
Proof.
  intros Hq. unfold L1_PTAG_SHIFT. change L1_PTAG_MASK with (Z.ones 24). rewrite !Z.shiftl_mul_pow2 by done.
  assert (Hf : fits 64 (q * 2 ^ 12)) by (unfold fits in *; pow2; lia). split; [|by apply page_tag_valid].
  rewrite page_tag_eq, Z.land_ones, Z.shiftr_div_pow2 by done. unfold fits in Hq. divmod.
Qed.

Section Tags.

Context (g : Geom) (Hg : g = R4400 \/ g = R5000).

Lemma l1i_taglo t : fits 32 t -> load_tag_l1i g (store_tag_l1i t) = r4k_load_taglo (IS_R5K g) CACH_PI (r4k_store_taglo (IS_R5K g) CACH_PI t).
Proof.
  intros Ht. unfold load_tag_l1i, store_tag_l1i, r4k_load_taglo, r4k_store_taglo. destruct (taglo_page t Ht) as (E1 & E2 & Hq).
  rewrite E1, E2. set (q := t .>> 8) in *. cbn [is_secondary CACH_PI CACH_SI CACH_SD Z.eqb orb].
  destruct (Z.eqb_spec ((t .>> 6) .& 3) 0); cbn [negb]; [by destruct Hg as [->| ->]|].
  destruct (page_line q Hq) as [P1 P2]. destruct (tag_fields q 2 Hq ltac:(by split)) as [T1 T2]. unfold i_valid, i_is_valid. by rewrite P1, P2, T1, T2.
Qed.

Lemma l1d_taglo t : fits 32 t -> load_tag_l1d g (store_tag_l1d g t) = r4k_load_taglo (IS_R5K g) CACH_PD (r4k_store_taglo (IS_R5K g) CACH_PD t).
Proof.
  intros Ht. unfold load_tag_l1d, store_tag_l1d, r4k_load_taglo, r4k_store_taglo. destruct (taglo_page t Ht) as (E1 & E2 & Hq).
  rewrite E1, E2. set (q := t .>> 8) in *. set (p := (t .>> 6) .& 3). cbn [is_secondary CACH_PD CACH_PI CACH_SI CACH_SD Z.eqb Pos.eqb orb].
  destruct (page_line q Hq) as [P1 P2].
  assert (Hp : p = 0 \/ p = 1 \/ p = 2 \/ p = 3).
  { pose proof (Z.mod_pos_bound (t .>> 6) 4 ltac:(done)). assert (E : p = (t .>> 6) mod 4) by exact (Z.land_ones (t .>> 6) 2 ltac:(done)). lia. }
  destruct (tag_fields q 1 Hq ltac:(by split)) as [T1 T1']. destruct (tag_fields q 2 Hq ltac:(by split)) as [T2 T2'].
  destruct (tag_fields q 3 Hq ltac:(by split)) as [T3 T3']. unfold d_valid.
  assert (E5 : IS_R5K g = false \/ IS_R5K g = true) by (destruct (IS_R5K g); auto). unfold L1D_CS_INVALID, L1D_CS_CLEAN_EXCLUSIVE, L1D_CS_SHARED, L1D_CS_DIRTY_EXCLUSIVE.
  destruct Hp as [->|[->|[->| ->]]]; destruct E5 as [->| ->]; cbn [Z.eqb Pos.eqb andb negb d_ptag d_cs d_dirty];
    rewrite ?P1, ?T1, ?T1', ?T2, ?T2', ?T3, ?T3'; reflexivity.
Qed.

Lemma l2_taglo t : fits 32 t -> load_tag_l2 R4400 (store_tag_l2 t) = r4k_load_taglo false CACH_SD (r4k_store_taglo false CACH_SD t).
Proof.
  intros Ht. unfold load_tag_l2, store_tag_l2, r4k_load_taglo, r4k_store_taglo. cbn [is_secondary CACH_SD CACH_SI Z.eqb Pos.eqb orb s_cs s_pidx s_ptag].
  set (s := (t .>> 10) .& 7). set (state := if 4 <=? s then s else 0).
  assert (Hs : fits 3 state).
  { unfold state, s. change 7 with (Z.ones 3). rewrite Z.land_ones by done. pose proof (Z.mod_pos_bound (t .>> 10) (2 ^ 3) ltac:(done)). case_match; [done|by split]. }
  assert (E : (if 4 <=? (if 4 <=? s then s else L2_CS_INVALID) then if 4 <=? s then s else L2_CS_INVALID else 0) = state).
  { unfold state, L2_CS_INVALID. destruct (4 <=? s) eqn:E; [by rewrite E|done]. }
  rewrite E. set (q := (t .>> 13) .& L2_PTAG_MASK). set (p := (t .>> 7) .& L2_PIDX_VADDR_MASK).
  assert (Hq : fits 19 q) by (apply (land_fits_r 19); [done|by split]). assert (Hp : fits 3 p) by (apply (land_fits_r 3); [done|by split]).
  assert (E1 : (t .& 0xFFFFE000) .| (state .<< 10) .| (t .& 0x380) = (q .<< 13) .| (state .<< 10) .| (p .<< 7)).
  { unfold q, p. change L2_PTAG_MASK with (Z.ones 19). change L2_PIDX_VADDR_MASK with (Z.ones 3). change 0xFFFFE000 with (Z.ones 19 .<< 13). change 0x380 with (Z.ones 3 .<< 7). zbits; cbn [orb]; repeat f_equal; lia. }
  rewrite E1. set (w := (q .<< 13) .| (state .<< 10) .| (p .<< 7)).
  assert (F : (w .>> 10) .& 7 = state /\ (w .>> 7) .& 7 = p /\ w .>> 13 = q).
  { assert (Ew : w = q * 2 ^ 13 + state * 2 ^ 10 + p * 2 ^ 7).
    { unfold w, fits in *. rewrite !Z.shiftl_mul_pow2, lor_block by (done || (split; pow2; lia)).
      replace (q * 2 ^ 13 + state * 2 ^ 10) with ((q * 8 + state) * 2 ^ 10) by (pow2; lia). apply lor_block; [done|]. split; pow2; lia. }
    rewrite Ew. unfold fits in *.
    pose proof (Z.land_ones (w .>> 10) 3 ltac:(done)) as L1. pose proof (Z.land_ones (w .>> 7) 3 ltac:(done)) as L2. rewrite Ew in L1, L2.
    rewrite !Z.shiftr_div_pow2 in * by done. change (Z.ones 3) with 7 in *. rewrite L1, L2. split_and!; divmod. }
  destruct F as (-> & -> & ->). reflexivity.
Qed.

End Tags.

(** The operation and the cache it names, out of the instruction's field. *)
Lemma op_fields operation sel : (operation = C_IST \/ operation = C_ILT) -> (sel = CACH_PI \/ sel = CACH_PD \/ sel = CACH_SD) ->
  (operation .| sel) .& 3 = sel /\ (operation .| sel) .& 0x1C = operation.
Proof. by intros [->| ->] [->|[->| ->]]. Qed.

Lemma cell_set {A} (d : A) m k t : cell d (<[k := t]> m) k = t.
Proof. by rewrite cell_insert, Z.eqb_refl. Qed.

(** C10: On the R4400 and the R5000, Index_Load_Tag after Index_Store_Tag
    returns, check bits included, the word by which the shadow cache answers
    the same two operations: the R4400's secondary cache too. *)
Theorem taglo_shadow_agrees g {B} `{BusOps B} (c : CpuCache B) sel virt phys taglo : (g = R4400 \/ g = R5000) -> fits 32 taglo ->
  (sel = CACH_PI \/ sel = CACH_PD \/ (sel = CACH_SD /\ g = R4400 /\ l2_index g phys = l2_index g virt)) ->
  (cache_op g (cache_op g c (C_IST .| sel) virt taglo).1 (C_ILT .| sel) virt phys).2 =
  r4k_load_taglo (IS_R5K g) sel (r4k_store_taglo (IS_R5K g) sel taglo).
Proof.
  intros Hg Ht Hsel. assert (Hs : sel = CACH_PI \/ sel = CACH_PD \/ sel = CACH_SD) by tauto.
  assert (Hr : R10K_CACHE_OPS g = false) by (by destruct Hg as [->| ->]).
  assert (Hop : forall c operation p, (operation = C_IST \/ operation = C_ILT) ->
    cache_op g c (operation .| sel) virt p = r4k_op g c (target_of sel) operation virt p).
  { intros c' operation p Ho. unfold cache_op. destruct (op_fields operation sel Ho Hs) as [-> ->]. rewrite Hr. cbn [andb].
    destruct Hsel as [->|[->|(-> & -> & _)]]; done. }
  rewrite !Hop by auto. unfold r4k_op. cbn [C_IST C_ILT C_IINV Z.eqb Pos.eqb fst snd]. unfold op_index. rewrite Hr. cbn [andb]. rewrite (u32_word taglo Ht).
  destruct Hsel as [->|[->|(-> & -> & Hi)]]; cbn [target_of CACH_SD CACH_PD CACH_PI C_ILT C_IST Z.eqb Pos.eqb].
  - rewrite (fun c k t => cell_set 0 (ic_tags c) k t : itag (set_itag (c : CpuCache B) k t) k = t). by apply l1i_taglo.
  - rewrite (fun c k t => cell_set d_default (dc_tags c) k t : dtag (set_dtag (c : CpuCache B) k t) k = t). by apply l1d_taglo.
  - rewrite Hi, (fun c k t => cell_set s_default (l2_tags c) k t : stag (set_stag (c : CpuCache B) k t) k = t). by apply l2_taglo.
Qed.

(** A bus with nothing on it. *)
#[local] Instance void_busops : BusOps unit := {|
  bus_read := fun b _ _ => (b, (BUS_ERR, 0)); bus_write := fun b _ _ _ => (b, BUS_ERR); bus_write64_masked := fun b _ _ _ => (b, BUS_ERR) |}.

Lemma taglo_shadow_agrees_witness :
  (cache_op R4400 (cache_op R4400 (new tt) (C_IST .| CACH_SD) 0x2080 0x08002F80).1 (C_ILT .| CACH_SD) 0x2080 0x2080).2 =
  r4k_load_taglo false CACH_SD (r4k_store_taglo false CACH_SD 0x08002F80).
Proof. exact (taglo_shadow_agrees R4400 (new tt) CACH_SD 0x2080 0x2080 0x08002F80 (or_introl eq_refl) ltac:(by split) (or_intror (or_intror (conj eq_refl (conj eq_refl eq_refl))))). Defined.

(** The ways of the R5000's primaries, as a fill answers them. *)
Lemma r5000_way_bit b : bool_to_Z b <= 1.
Proof. by destruct b. Qed.

Lemma r5000_fill_l1d {B} `{BusOps B} (c : CpuCache B) virt phys : (fill_l1d_line R5000 c virt phys).2 <= 1.
Proof. unfold fill_l1d_line. cbn [IS_R5K has_l2 R5000 model]. destruct (down_read_block _ _ _) as [? [? ?]]. cbn. apply r5000_way_bit. Qed.

Lemma r5000_access {B} `{BusOps B} (c : CpuCache B) virt phys : (access R5000 c virt phys).2.1 <= 1.
Proof.
  unfold access, ensure_l1d_line. cbn [IS_R5K R5000 model negb].
  repeat case_match; simplify_eq/=; try lia. all: match goal with E : fill_l1d_line _ _ _ _ = _ |- _ => pose proof (r5000_fill_l1d c virt phys) as F; by rewrite E in F end.
Qed.

(** The index of a way holds the way above the set. *)
Lemma r5000_way set b : fits 9 set -> (set .| (bool_to_Z b .<< 9)) .>> 9 = bool_to_Z b.
Proof.
  intros Hs. rewrite Z.shiftr_lor. assert (set .>> 9 = 0) as ->.
  { unfold fits in Hs. rewrite Z.shiftr_div_pow2 by done. by apply Z.div_small. }
  by destruct b.
Qed.

Lemma r5000_hit_way {B} `{BusOps B} (c : CpuCache B) virt phys e : hit_l1i R5000 c virt phys = Some e -> exists b, e = ic_index R5000 virt .| (bool_to_Z b .<< 9).
Proof.
  unfold hit_l1i. intros E%head_Some_elem_of%list_elem_of_filter. destruct E as [_ E]. apply list_elem_of_fmap in E as (w & -> & Hw).
  apply elem_of_seqZ in Hw. cbn [ic_ways R5000 ic_sets_shift] in *. assert (w = 0 \/ w = 1) as [-> | ->] by lia; [by exists false|by exists true].
Qed.

Lemma r5000_fill_l1i {B} `{BusOps B} (c : CpuCache B) virt phys : (fill_l1i_line R5000 c virt phys).2 <= 1.
Proof.
  assert (Hs : fits 9 (ic_index R5000 virt)).
  { unfold ic_index, fits. cbn [ic_sets_shift R5000]. rewrite Z.land_ones by done. by apply Z.mod_pos_bound. }
  unfold fill_l1i_line. change (IS_R5K R5000) with true. cbn [has_l2 R5000 ic_sets_shift negb andb snd].
  destruct (hit_l1i R5000 c virt phys) as [e|] eqn:E; cbn [default from_option id].
  - apply r5000_hit_way in E as [b ->]. rewrite r5000_way by done. apply r5000_way_bit.
  - rewrite r5000_way by done. apply r5000_way_bit.
Qed.

(** The R5000's caches never report a bus error: whatever bus is behind
    them, every cached load, store and masked store is answered BUS_OK and
    every cached fetch completes, because a fill without a secondary cache
    drops the status of the block it reads. *)
Theorem r5000_never_reports {B} `{BusOps B} (c : CpuCache B) size virt phys val mask :
  (read R5000 c size virt phys).2.1 = BUS_OK /\ (write R5000 c size virt phys val).2 = BUS_OK /\
  (write64_masked R5000 c virt phys val mask).2 = BUS_OK /\ (fetch R5000 c virt phys).2.1 = EXEC_COMPLETE.
Proof.
  pose proof (r5000_access c virt phys) as A. unfold read, write, write64_masked.
  destruct (access R5000 c virt phys) as [c' [r da]]. cbn [fst snd] in A. assert ((1 <? r) = false) as -> by lia.
  split_and!; try done. unfold fetch. change (IS_R5K R5000) with true. repeat case_match; try done.
  match goal with E : fill_l1i_line _ _ _ _ = _ |- _ => pose proof (r5000_fill_l1i c virt phys) as F; rewrite E in F end.
  cbn in F. lia.
Qed.

End CacheTags.
