(* ===== verification/CacheLaws.v ===== *)
(** * The caches behind the executor

    The caches of every geometry keep their state in its machine widths, so
    they satisfy the interface [MemLaws] the executor's theorems are proved
    against: the CPU's invariant holds over the real caches. *)

From S2P Require Import Prelude Tlb TlbOps TlbShape CpuTimer CpuCore CpuDecode CpuExec CpuInstr.
From S2P Require Import CpuPages CpuLaws CpuInv CpuInvMem CpuInvInstr CpuNew CpuRam CpuClaims.
From S2P Require Import CpuCache CacheProofs.
Import CpuDecode CpuExec CpuInstr CpuLaws CpuCache CacheProofs.

#[local] Open Scope Z_scope.
#[local] Open Scope word_scope.

Module CacheLaws.

Section Laws.

Context (g : Geom) {B : Type} `{HB : BusOps B} {HL : BusLaws B}.

Notation C := (CpuCache B).

Definition l2_tag_ok (t : L2Tag) : Prop := fits 19 (s_ptag t) /\ fits 3 (s_pidx t) /\ fits 3 (s_cs t).

Record cache_ok (c : C) : Prop := {
  co_bus : bus_ok (downstream c);
  co_dc k : fits 64 (cell 0 (dc_data c) k);
  co_l2 k : fits 64 (cell 0 (l2_data c) k);
  co_slots k : slot_fits (cell instr_default (l2_instrs c) k);
  co_islots k : slot_fits (cell instr_default (ic_instrs c) k);
  co_raw k : fits 32 (cell 0 (ic_raw c) k);
  co_itag k : fits 64 (itag c k);
  co_dtag k : fits 64 (d_ptag (dtag c k));
  co_stag k : l2_tag_ok (stag c k);
}.

(** ** Pieces of the state *)

Lemma page_tag_fits a : fits 64 (page_tag a).
Proof. unfold page_tag. apply lor_fits; [done|apply land_fits_r; [done|by apply bnot_fits]|by split]. Qed.

Lemma cell_insert_all {A} (P : A -> Prop) (d : A) m i x : P x -> (forall k, P (cell d m k)) -> forall k, P (cell d (<[i := x]> m) k).
Proof. intros Hx Hm k. rewrite cell_insert. by case_match. Qed.

Lemma set_itag_ok c i t : cache_ok c -> fits 64 t -> cache_ok (set_itag c i t).
Proof. intros [] Ht. split; try done. by apply (cell_insert_all (fits 64)). Qed.

Lemma set_dtag_ok c i t : cache_ok c -> fits 64 (d_ptag t) -> cache_ok (set_dtag c i t).
Proof. intros [] Ht. split; try done. by apply (cell_insert_all (fun t => fits 64 (d_ptag t))). Qed.

Lemma set_stag_ok c i t : cache_ok c -> l2_tag_ok t -> cache_ok (set_stag c i t).
Proof. intros [] Ht. split; try done. by apply (cell_insert_all l2_tag_ok). Qed.

Lemma set_chunks_ok l : forall m base k, Forall (fits 64) l -> (forall j, fits 64 (cell 0 m j)) -> fits 64 (cell 0 (set_chunks m base l) k).
Proof.
  induction l as [|x l IH]; intros m base k Hl Hm; [done|]. apply Forall_cons in Hl as [Hx Hl]. cbn [set_chunks].
  apply IH; [done|]. by apply (cell_insert_all (fits 64)).
Qed.

Lemma slot_word_ok d w : slot_fits d -> fits 32 w -> slot_fits (slot_word d w).
Proof. intros [Hi _ _] Hw. by split. Qed.

Lemma set_slots_ok l : forall m base k, (forall j, slot_fits (cell instr_default m j)) -> slot_fits (cell instr_default (set_slots m base l) k).
Proof.
  induction l as [|x l IH]; intros m base k Hm; [done|]. cbn [set_slots].
  apply IH. apply (cell_insert_all slot_fits); [apply slot_word_ok; [|apply u32_fits]|]; [|];
    repeat apply (cell_insert_all slot_fits); try done; apply slot_word_ok; done || apply u32_fits.
Qed.

Lemma get_chunks_ok m b n : (forall k, fits 64 (cell 0 m k)) -> Forall (fits 64) (get_chunks m b n).
Proof. intros Hm. unfold get_chunks. apply Forall_fmap, Forall_true. intros x. apply Hm. Qed.

Lemma loop_ok {S} (P : S -> Prop) n (f : S -> Z -> S) s : P s -> (forall s i, P s -> P (f s i)) -> P (for_each n f s).
Proof. intros Hs Hf. unfold for_each. generalize (seqZ 0 n). intros l. revert s Hs. induction l; intros s Hs; [done|]. cbn. by apply IHl, Hf. Qed.

(** The bus. *)
Lemma read_block_ok n : forall b a b' s l, bus_ok b -> read_block b a n = (b', (s, l)) -> bus_ok b' /\ Forall (fits 64) l.
Proof.
  assert (H4 : size_ok 4) by (unfold size_ok; lia).
  induction n as [|n IH]; intros b a b' s l Hb Hr; cbn [read_block] in Hr; [injection Hr as <- _ <-; by split|].
  destruct (bus_read b 4 a) as [b1 [s1 hi]] eqn:E1. destruct (law_bus_read _ _ _ _ _ _ Hb H4 E1) as [Hb1 Hhi].
  destruct (negb (s1 =? BUS_OK)); [injection Hr as <- _ <-; by split|].
  destruct (bus_read b1 4 _) as [b2 [s2 lo]] eqn:E2. destruct (law_bus_read _ _ _ _ _ _ Hb1 H4 E2) as [Hb2 Hlo].
  destruct (negb (s2 =? BUS_OK)); [injection Hr as <- _ <-; by split|].
  destruct (read_block b2 _ n) as [b3 [s3 l3]] eqn:E3. injection Hr as <- _ <-. destruct (IH _ _ _ _ _ Hb2 E3) as [Hb3 Hl].
  split; [done|]. constructor; [by apply join_fits|done].
Qed.

Lemma write_block_ok l : forall b a, bus_ok b -> bus_ok (write_block b a l).1.
Proof.
  induction l as [|v l IH]; intros b a Hb; cbn [write_block]; [done|]. destruct (bus_write b 4 a _) as [b1 s1] eqn:E1.
  pose proof (law_bus_write _ _ _ _ _ _ Hb E1) as Hb1. destruct (negb (s1 =? BUS_OK)); [done|].
  destruct (bus_write b1 4 _ _) as [b2 s2] eqn:E2. pose proof (law_bus_write _ _ _ _ _ _ Hb1 E2) as Hb2.
  destruct (negb (s2 =? BUS_OK)); [done|]. by apply IH.
Qed.

Lemma down_write_block_ok c a l : cache_ok c -> cache_ok (down_write_block c a l).1.
Proof.
  intros [Hb ? ? ? ? ? ? ? ?]. unfold down_write_block. pose proof (write_block_ok l (downstream c) a Hb) as Hb'.
  destruct (write_block _ _ _) as [b s]. by split.
Qed.

(** ** Invalidation and write-back *)

Lemma s_default_ok : l2_tag_ok s_default.
Proof. by repeat split. Qed.

Lemma invalidate_l1i_line_ok c i : cache_ok c -> cache_ok (invalidate_l1i_line c i).
Proof. intros Hc. by apply set_itag_ok. Qed.

Lemma invalidate_l1d_line_ok c i : cache_ok c -> cache_ok (invalidate_l1d_line c i).
Proof. intros Hc. by apply set_dtag_ok. Qed.

Lemma drop_l1i_of_ok i p pb c : cache_ok c -> cache_ok (drop_l1i_of g i p pb c).
Proof. intros Hc. unfold drop_l1i_of. apply loop_ok; [done|]. intros s k Hs. cbv zeta. case_match; [by apply invalidate_l1i_line_ok|done]. Qed.

Lemma each_l1d_of_ok (f : C -> Z -> C) i p pb c : (forall c i, cache_ok c -> cache_ok (f c i)) -> cache_ok c -> cache_ok (each_l1d_of g f i p pb c).
Proof. intros Hf Hc. unfold each_l1d_of. apply loop_ok; [done|]. intros s k Hs. cbv zeta. case_match; [by apply Hf|done]. Qed.

Lemma invalidate_l2_line_ok c i : cache_ok c -> cache_ok (invalidate_l2_line g c i).
Proof.
  intros Hc. unfold invalidate_l2_line. case_match; [apply set_stag_ok; [done|apply s_default_ok]|].
  apply set_stag_ok; [|apply s_default_ok]. case_match; [|done]. apply each_l1d_of_ok; [apply invalidate_l1d_line_ok|by apply drop_l1i_of_ok].
Qed.

Lemma dirtied_fits cs : fits 3 cs -> fits 3 (dirtied cs).
Proof. intros Hc. unfold dirtied. case_match; [by split|]. case_match; [by split|done]. Qed.

Lemma demote_ptag t : d_ptag (demote t) = d_ptag t.
Proof. unfold demote. by case_match. Qed.

(** Data and slots of the secondary cache together. *)
Lemma l2_update_ok c base l slots : cache_ok c -> Forall (fits 64) l ->
  cache_ok (c <| l2_data ::= (fun m => set_chunks m base l) |>) /\
  cache_ok (c <| l2_data ::= (fun m => set_chunks m base l) |> <| l2_instrs ::= (fun m => set_slots m slots l) |>).
Proof. intros [] Hl. split; (split; try done); intros k; cbn; first [by apply set_chunks_ok|by apply set_slots_ok]. Qed.

Lemma writeback_l1d_typed c i : cache_ok c -> cache_ok (writeback_l1d g c i).1.
Proof.
  intros Hc. unfold writeback_l1d. destruct (negb (d_dirty (dtag c i))); [done|]. cbv zeta.
  set (l := get_chunks _ _ _). assert (Hl : Forall (fits 64) l) by (apply get_chunks_ok, Hc).
  case_match; cbn [fst]; [apply set_dtag_ok; [by apply down_write_block_ok|rewrite demote_ptag; by apply down_write_block_ok]|].
  case_match; cbn [fst]; [done|].
  match goal with |- cache_ok (set_dtag (set_stag ?c1 ?j ?t) i _) => assert (H2 : cache_ok (set_stag c1 j t)) end.
  { apply set_stag_ok; [case_match; by apply l2_update_ok|]. pose proof (co_stag _ Hc (l2_index g (l1d_tag_to_phys (dtag c i) (i .<< dc_line_shift g)))) as (? & ? & ?).
    split_and!; [done|done|by apply dirtied_fits]. }
  apply set_dtag_ok; [done|]. rewrite demote_ptag. apply H2.
Qed.

Lemma writeback_l2_line_ok c i : cache_ok c -> cache_ok (writeback_l2_line g c i).1.
Proof.
  intros Hc. unfold writeback_l2_line. cbv zeta.
  match goal with |- context [down_write_block ?x] => set (c1 := x) end.
  assert (H1 : cache_ok c1) by (unfold c1; case_match; [apply each_l1d_of_ok; [apply writeback_l1d_typed|done]|done]).
  case_match; [done|]. match goal with |- context [down_write_block c1 ?a ?l] => pose proof (down_write_block_ok c1 a l H1) as H2; destruct (down_write_block c1 a l) as [c2 s] end.
  case_match; [done|]. apply set_stag_ok; [done|]. destruct (co_stag _ H1 i) as (? & ? & ?). split_and!; [done|done|]. cbn. by case_match.
Qed.

Lemma writeback_l1d_line_ok c i cascade : cache_ok c -> cache_ok (writeback_l1d_line g c i cascade).
Proof.
  intros Hc. unfold writeback_l1d_line, writeback_l2_line_phys. pose proof (writeback_l1d_typed c i Hc) as H1. destruct (writeback_l1d g c i) as [c1 took].
  destruct (took && cascade); [|done]. destruct (l2_holds g c1 _); [by apply writeback_l2_line_ok|done].
Qed.

Lemma realias_l2_line_ok c i v : cache_ok c -> cache_ok (realias_l2_line g c i (pidx v)).
Proof.
  intros Hc. unfold realias_l2_line. cbv zeta.
  match goal with |- context [set_stag ?x] => assert (H1 : cache_ok x) end.
  { apply each_l1d_of_ok; [|by apply drop_l1i_of_ok]. intros. by apply invalidate_l1d_line_ok, writeback_l1d_typed. }
  apply set_stag_ok; [done|]. destruct (co_stag _ H1 i) as (? & ? & ?). split_and!; [done|apply (land_fits_r 3); [done|by split]|done].
Qed.

(** ** Fills *)

Lemma down_read_block_ok c a n c' s l : cache_ok c -> down_read_block c a n = (c', (s, l)) -> cache_ok c' /\ Forall (fits 64) l.
Proof.
  intros [Hb ? ? ? ? ? ? ? ?]. unfold down_read_block. destruct (read_block _ _ _) as [b [s' l']] eqn:E. intros [= <- <- <-].
  destruct (read_block_ok _ _ _ _ _ _ Hb E). split; [by split|done].
Qed.

Lemma fill_tag_ok phys virt cs b : fits 3 cs -> l2_tag_ok (mkS (l2_ptag phys) (pidx virt) cs b).
Proof. intros Hc. split_and!; [apply (land_fits_r 19); [done|by split]|apply (land_fits_r 3); [done|by split]|done]. Qed.

Lemma fill_l2_line_ok c phys virt : cache_ok c -> cache_ok (fill_l2_line g c phys virt).1.
Proof.
  intros Hc. unfold fill_l2_line. cbv zeta. set (c1 := invalidate_l2_line g _ _).
  assert (H1 : cache_ok c1) by (by apply invalidate_l2_line_ok, writeback_l2_line_ok).
  destruct (down_read_block c1 _ _) as [c2 [s l]] eqn:E. destruct (down_read_block_ok _ _ _ _ _ _ H1 E) as [H2 Hl].
  case_match; cbn [fst]; [by apply (l2_update_ok c2 _ l 0)|]. apply set_stag_ok; [case_match; [by apply l2_update_ok|by apply (l2_update_ok c2 _ l 0)]|by apply fill_tag_ok].
Qed.

Lemma ensure_l2_typed c virt phys vce err : cache_ok c -> cache_ok (ensure_l2 g c virt phys vce err).1.
Proof.
  intros Hc. unfold ensure_l2. case_match.
  - case_match; [|done]. case_match; [done|by apply realias_l2_line_ok].
  - pose proof (fill_l2_line_ok c phys virt Hc). by destruct (fill_l2_line g c phys virt).
Qed.

Lemma fill_l1d_line_ok c virt phys : cache_ok c -> cache_ok (fill_l1d_line g c virt phys).1.
Proof.
  intros Hc. unfold fill_l1d_line. cbv zeta. set (idx := if IS_R5K g then _ else _). set (c1 := invalidate_l1d_line _ _).
  assert (H1 : cache_ok c1) by (by apply invalidate_l1d_line_ok, writeback_l1d_typed).
  destruct (if has_l2 g then ensure_l2 g c1 virt phys BUS_VCE BUS_ERR else (c1, None)) as [c2 st] eqn:E2.
  assert (H2 : cache_ok c2).
  { pose proof (ensure_l2_typed c1 virt phys BUS_VCE BUS_ERR H1) as H2. destruct (has_l2 g); [by rewrite E2 in H2|by injection E2 as <- _]. }
  destruct st as [st|]; [done|].
  match goal with |- context [if has_l2 g then (c2, ?l2) else ?r] => destruct (if has_l2 g then (c2, l2) else r) as [c3 l] eqn:E3 end.
  assert (H3 : cache_ok c3 /\ Forall (fits 64) l).
  { destruct (has_l2 g); [injection E3 as <- <-; split; [done|apply get_chunks_ok, H2]|].
    destruct (down_read_block c2 _ _) as [c4 [s l4]] eqn:E. injection E3 as <- <-. by destruct (down_read_block_ok _ _ _ _ _ _ H2 E). }
  destruct H3 as [H3 Hl]. cbn [fst snd] in *.
  assert (H4 : cache_ok (set_dtag (c3 <| dc_data ::= (fun m => set_chunks m (idx .<< (dc_line_shift g - 3)) l) |>) idx (d_valid phys L1D_CS_CLEAN_EXCLUSIVE false))).
  { apply set_dtag_ok; [|apply page_tag_fits]. destruct H3. split; try done. intros k. cbn. by apply set_chunks_ok. }
  cbn [fst]. clearbody c1 idx. destruct (IS_R5K g); [|done]. by destruct H4.
Qed.

Lemma access_typed c virt phys : cache_ok c -> cache_ok (access g c virt phys).1.
Proof.
  intros Hc. pose proof (fill_l1d_line_ok c virt phys Hc) as Hf. unfold access, ensure_l1d_line. destruct (fill_l1d_line g c virt phys) as [c' r].
  repeat case_match; simplify_eq; try done; by destruct Hc.
Qed.

(** ** Loads and stores *)

Lemma view_get_fits m size j : size_ok size -> fits (8 * size) (view_get m size j).
Proof. intros Hs. apply wrap_fits. destruct Hs as [->|[->|[->| ->]]]; lia. Qed.

Lemma view_set_ok m size j v k : size_ok size -> (forall k, fits 64 (cell 0 m k)) -> fits 64 (cell 0 (view_set m size j v) k).
Proof.
  intros Hs Hm. unfold view_set. apply (cell_insert_all (fits 64)); [|done]. apply lor_fits; [done|by apply land_fits_l|].
  pose proof (wrap_fits (8 * size) v ltac:(destruct Hs as [->|[->|[->| ->]]]; lia)) as Hw. unfold fits in Hw.
  assert (Hd : 0 <= 8 * size * (j mod (8 / size)) /\ 8 * size + 8 * size * (j mod (8 / size)) <= 64).
  { pose proof (Z.mod_pos_bound j (8 / size) ltac:(by destruct Hs as [->|[->|[->| ->]]])) as Hb. destruct Hs as [->|[->|[->| ->]]];
      match type of Hb with context [?a / ?b] => let q := eval vm_compute in (a / b) in change (a / b) with q in * end; lia. }
  set (r := 8 * size * (j mod (8 / size))) in *. clearbody r. rewrite Z.shiftl_mul_pow2 by lia. split; [apply Z.mul_nonneg_nonneg; lia|].
  eapply Z.lt_le_trans; [apply Z.mul_lt_mono_pos_r; [|apply Hw]; apply Z.pow_pos_nonneg; lia|].
  rewrite <- Z.pow_add_r by (destruct Hs as [->|[->|[->| ->]]]; lia). apply Z.pow_le_mono_r; lia.
Qed.

Lemma dc_write_ok c size a v : size_ok size -> cache_ok c -> cache_ok (dc_write g c size a v).
Proof. intros Hs []. split; try done. intros k. cbn. by apply view_set_ok. Qed.

Lemma mark_ok c e : cache_ok c -> cache_ok (mark_l1d_dirty c e).
Proof. intros Hc. apply set_dtag_ok; [done|]. apply Hc. Qed.

Lemma read_typed c size virt phys c' st v : cache_ok c -> size_ok size -> read g c size virt phys = (c', (st, v)) -> cache_ok c' /\ fits (8 * size) v.
Proof.
  intros Hc Hs. unfold read. pose proof (access_typed c virt phys Hc) as H1. destruct (access g c virt phys) as [c1 [r da]].
  case_match; intros [= <- <- <-]; (split; [done|]); [|by apply view_get_fits]. split; [done|]. apply Z.pow_pos_nonneg; destruct Hs as [->|[->|[->| ->]]]; lia.
Qed.

Lemma write_typed c size virt phys v : cache_ok c -> size_ok size -> cache_ok (write g c size virt phys v).1.
Proof.
  intros Hc Hs. unfold write. pose proof (access_typed c virt phys Hc) as H1. destruct (access g c virt phys) as [c1 [r da]].
  case_match; [done|]. by apply mark_ok, dc_write_ok.
Qed.

Lemma write64_masked_typed c virt phys v m : cache_ok c -> cache_ok (write64_masked g c virt phys v m).1.
Proof.
  intros Hc. unfold write64_masked. pose proof (access_typed c virt phys Hc) as H1. destruct (access g c virt phys) as [c1 [r da]].
  case_match; [done|]. apply mark_ok, dc_write_ok; [unfold size_ok; lia|done].
Qed.

(** ** Instructions *)

Lemma snapshot_ok c e phys : cache_ok c -> cache_ok (snapshot_l1i_line g c e phys).
Proof.
  intros Hc. unfold snapshot_l1i_line. cbv zeta. apply loop_ok; [done|]. intros c1 i H1. pose proof (co_slots _ H1) as Hsl. destruct H1. split; try done.
  apply (cell_insert_all (fits 32)); [|done]. apply Hsl.
Qed.

Lemma fill_ic_instrs_ok c e phys : cache_ok c -> cache_ok (fill_ic_instrs g c e phys).
Proof.
  intros Hc. unfold fill_ic_instrs. cbv zeta. case_match.
  - destruct Hc. split; try done. intros k. cbn. by apply set_slots_ok.
  - apply loop_ok; [done|]. intros c1 i H1. destruct (bus_read (downstream c1) 4 _) as [b [s d]] eqn:E.
    destruct (law_bus_read _ 4 _ _ _ _ (co_bus _ H1) ltac:(unfold size_ok; lia) E) as [Hb Hd]. pose proof (co_islots _ H1) as Hsl. destruct H1. split; try done.
    intros k. cbn. apply (cell_insert_all slot_fits); [|done]. apply slot_word_ok; [apply Hsl|]. case_match; [done|by split].
Qed.

Lemma fill_l1i_line_ok c virt phys : cache_ok c -> cache_ok (fill_l1i_line g c virt phys).1.
Proof.
  intros Hc. unfold fill_l1i_line. cbv zeta. set (e := if IS_R5K g then _ else _). clearbody e.
  pose proof (invalidate_l1i_line_ok c e Hc) as H1. set (c1 := invalidate_l1i_line c e) in *. clearbody c1.
  destruct (if has_l2 g then _ else (c1, None)) as [c2 st] eqn:E2. assert (H2 : cache_ok c2).
  { pose proof (ensure_l2_typed c1 virt phys (exec_exception EXC_VCEI) (exec_exception EXC_IBE) H1) as H2.
    destruct (has_l2 g); [by rewrite E2 in H2|by injection E2 as <- _]. }
  destruct st as [st|]; [done|]. cbn [fst]. apply set_itag_ok; [|apply page_tag_fits].
  assert (H3 : cache_ok (fill_ic_instrs g c2 e phys)) by (by apply fill_ic_instrs_ok).
  destruct (IS_R5K g); cbn [negb andb]; [by destruct H3|]. case_match; [by apply snapshot_ok|done].
Qed.

Lemma instr_default_ok : slot_fits instr_default.
Proof. by repeat split. Qed.

Lemma fetch_typed c virt phys c' st d : cache_ok c -> fetch g c virt phys = (c', (st, d)) -> cache_ok c' /\ slot_fits d.
Proof.
  intros Hc. unfold fetch. cbv zeta. pose proof (fill_l1i_line_ok c virt phys Hc) as Hf. pose proof instr_default_ok as Hd.
  destruct (fill_l1i_line g c virt phys) as [c1 way]. cbn [fst] in Hf. case_match.
  - assert (Hl : forall m, cache_ok (c <| ic_lru := m |>)) by (intros; by destruct Hc).
    repeat case_match; intros E; inversion E; subst; (split; [apply Hl || done|]); done || apply (co_islots _ Hc) || apply (co_islots _ Hf).
  - destruct (i_matches_phys _ _); [|destruct (negb (way =? 0))]; intros E; inversion E; subst; (split; [done|]); done || apply (co_slots _ Hc) || apply (co_slots _ Hf).
Qed.

Lemma put_typed c virt phys d : cache_ok c -> instr_ok d -> cache_ok (put g c virt phys d).
Proof.
  intros Hc Hd. assert (Hs : slot_fits d) by (split; [apply Hd|apply Hd|done]). unfold put. case_match; destruct Hc; split; try done;
    intros k; cbn; by apply (cell_insert_all slot_fits).
Qed.

(** ** The CACHE instruction *)

Lemma writeback_l1i_line_ok c e base : cache_ok c -> cache_ok (writeback_l1i_line g c e base).
Proof.
  intros Hc. unfold writeback_l1i_line. cbv zeta. set (l := map _ _).
  assert (Hl : Forall (fits 64) l).
  { unfold l. apply Forall_fmap, Forall_true. intros k. cbn. apply join_fits; unfold l1i_word; (case_match; [apply (co_islots _ Hc)|apply (co_raw _ Hc)]). }
  case_match; [|by apply down_write_block_ok]. clearbody l.
  match goal with |- cache_ok (set_stag ?x _ _) => assert (H1 : cache_ok x) by (case_match; [by apply l2_update_ok|by apply (l2_update_ok c _ l 0)]) end.
  apply set_stag_ok; [done|]. destruct (co_stag _ H1 (l2_index g base)) as (? & ? & ?). split_and!; [done|done|by apply dirtied_fits].
Qed.

Lemma parity_fits v : fits 1 (even_parity v).
Proof. apply (land_fits_r 1); [done|by split]. Qed.

Lemma xor_bit_fits a b : fits 1 a -> fits 1 b -> fits 1 (a .^ b).
Proof. intros Ha Hb. by apply lxor_fits. Qed.

Lemma shifted_fits w n k x : 0 <= n -> 0 <= w -> fits w x -> w + n <= k -> fits k (x .<< n).
Proof.
  intros Hn Hw [Hx Hx'] Hk. rewrite Z.shiftl_mul_pow2 by done. split; [apply Z.mul_nonneg_nonneg; lia|].
  eapply Z.lt_le_trans; [apply Z.mul_lt_mono_pos_r; [apply Z.pow_pos_nonneg; lia|exact Hx']|].
  rewrite <- Z.pow_add_r by lia. apply Z.pow_le_mono_r; lia.
Qed.

Lemma ecc_fits t : fits 64 (l2_tag_ecc t).
Proof.
  unfold l2_tag_ecc, L2_TAG_ECC_MASKS. cbn -[Z.lor Z.shiftl even_parity Z.land].
  repeat (apply lor_fits; [done| |apply (shifted_fits 1); [done|done|apply parity_fits|done]]). by split.
Qed.

Lemma land_ones_fits w x : 0 <= w -> fits w (x .& Z.ones w).
Proof. intros Hw. apply land_fits_r; [done|]. rewrite Z.ones_equiv. unfold fits. pose proof (Z.pow_pos_nonneg 2 w). lia. Qed.

Lemma load_tags_fit c i : cache_ok c -> fits 64 (load_tag_l1i g (itag c i)) /\ fits 64 (load_tag_l1d g (dtag c i)) /\ fits 64 (load_tag_l2 g (stag c i)).
Proof.
  intros Hc. assert (Hb : forall b : bool, fits 1 (bool_to_Z b)) by (intros []; by split).
  assert (Hsm : forall x, fits 1 x -> fits 64 x) by (intros x Hx; by apply (fits_mono 1)).
  assert (Hp : forall x, fits 24 (x .& L1_PTAG_MASK)) by (intros; by apply (land_ones_fits 24)).
  assert (Hps : forall x, 0 <= x <= 3 -> fits 2 x) by (intros; unfold fits; pow2; lia). split_and!.
  - unfold load_tag_l1i. apply lor_fits; [done|apply lor_fits; [done|by apply (shifted_fits 24)|apply (shifted_fits 2); [done|done|case_match; by split|done]]|].
    apply Hsm, xor_bit_fits; [apply parity_fits|]. case_match; [by split|apply Hb].
  - unfold load_tag_l1d. apply lor_fits; [done|apply lor_fits; [done|by apply (shifted_fits 24)|apply (shifted_fits 2); [done|done|apply Hps; repeat case_match; lia|done]]|].
    apply Hsm, xor_bit_fits; [apply parity_fits|]. case_match; [by split|apply parity_fits].
  - unfold load_tag_l2. destruct (co_stag _ Hc i) as (H1 & H2 & H3).
    repeat apply lor_fits; try done; [by apply (shifted_fits 19)|apply (shifted_fits 3); [done|done|case_match; [done|by split]|done]|by apply (shifted_fits 3)|].
    case_match; [apply ecc_fits|by split].
Qed.

Lemma store_tags_ok t : fits 64 (store_tag_l1i t) /\ fits 64 (d_ptag (store_tag_l1d g t)) /\ l2_tag_ok (store_tag_l2 t).
Proof.
  split_and!.
  - unfold store_tag_l1i. case_match; [apply page_tag_fits|by split].
  - unfold store_tag_l1d. cbv zeta. destruct (negb _); [apply page_tag_fits|by split].
  - split_and!; [by apply (land_ones_fits 19)|by apply (land_ones_fits 3)|]. cbn. case_match; [by apply (land_ones_fits 3)|by split].
Qed.

Lemma on_hit_ok o f c : cache_ok c -> (forall c i, cache_ok c -> cache_ok (f c i)) -> cache_ok (on_hit o f c).
Proof. intros Hc Hf. destruct o; [by apply Hf|done]. Qed.

Lemma evict_l1d_typed c i : cache_ok c -> cache_ok (writeback_invalidate_l1d g c i).
Proof. intros Hc. by apply invalidate_l1d_line_ok, writeback_l1d_line_ok. Qed.

Lemma evict_l2_typed c i : cache_ok c -> cache_ok (writeback_invalidate_l2 g c i).
Proof. intros Hc. by apply invalidate_l2_line_ok, writeback_l2_line_ok. Qed.

Lemma r4k_op_ok c t operation virt phys : cache_ok c -> cache_ok (r4k_op g c t operation virt phys).1 /\ fits 64 (r4k_op g c t operation virt phys).2.
Proof.
  intros Hc. assert (H0 : fits 64 0) by (by split). unfold r4k_op. cbv zeta. set (idx := op_index g t operation virt phys). clearbody idx.
  destruct (store_tags_ok (u32 phys)) as (S1 & S2 & S3). destruct (load_tags_fit c idx Hc) as (L1 & L2 & L3).
  repeat (case_match; [destruct t|]); cbn [fst snd]; (split; [|done]);
    auto using invalidate_l1i_line_ok, invalidate_l1d_line_ok, invalidate_l2_line_ok, evict_l1d_typed, evict_l2_typed, set_itag_ok, set_dtag_ok, set_stag_ok, on_hit_ok,
      writeback_l1d_line_ok, writeback_l2_line_ok, fill_l1i_line_ok, writeback_l1i_line_ok, page_tag_fits, fill_tag_ok.
  - apply set_dtag_ok; [by apply writeback_l1d_line_ok|apply page_tag_fits].
  - apply set_stag_ok; [by apply evict_l2_typed|by apply fill_tag_ok].
  - case_match; [|done]. apply set_stag_ok; [done|]. destruct (co_stag _ Hc idx) as (? & ? & ?). split_and!; [done|by apply (land_ones_fits 3)|done].
Qed.

Lemma cache_op_ok c op virt phys c' r : cache_ok c -> cache_op g c op virt phys = (c', r) -> cache_ok c' /\ fits 64 r.
Proof.
  intros Hc E. assert (H0 : fits 64 0) by (by split). apply (f_equal (fun p => (p.1, p.2))) in E. cbn [fst snd] in E. injection E as <- <-.
  unfold cache_op. cbv zeta. case_match; [done|]. case_match.
  { cbn [fst snd]. split; [done|]. case_match; [apply (co_l2 _ Hc)|apply (co_dc _ Hc)]. }
  case_match; [|case_match; [done|by apply r4k_op_ok]]. cbn [fst snd]. split; [|done]. case_match; [|done]. destruct Hc. split; try done.
  apply (cell_insert_all (fits 64)); [apply u64_fits|done].
Qed.


(** ** The interface *)

#[local] Instance ops : MemOps C := cache_memops g.

#[export] Program Instance cache_bus_laws : BusLaws C := {| bus_ok := cache_ok |}.
Next Obligation.
  intros c size pa c' st data Hc Hs. simpl. unfold down_read. destruct (bus_read _ _ _) as [b [s d]] eqn:E. intros [= <- <- <-].
  destruct (law_bus_read _ _ _ _ _ _ (co_bus _ Hc) Hs E). split; [|done]. by destruct Hc.
Qed.
Next Obligation.
  intros c size pa v c' st Hc. simpl. unfold down_write. destruct (bus_write _ _ _ _) as [b s] eqn:E. intros [= <- <-].
  pose proof (law_bus_write _ _ _ _ _ _ (co_bus _ Hc) E). by destruct Hc.
Qed.
Next Obligation.
  intros c pa v m c' st Hc. simpl. unfold down_write64_masked. destruct (bus_write64_masked _ _ _ _) as [b s] eqn:E. intros [= <- <-].
  pose proof (law_bus_write64 _ _ _ _ _ _ (co_bus _ Hc) E). by destruct Hc.
Qed.

#[export] Program Instance cache_laws : MemLaws C := {| mem_laws_bus := cache_bus_laws |}.
Next Obligation. intros c va pa c' st d. apply fetch_typed. Qed.
Next Obligation. intros c va pa d. apply put_typed. Qed.
Next Obligation. intros c size va pa c' st data. apply read_typed. Qed.
Next Obligation. intros c size va pa v c' st Hc Hs E. pose proof (write_typed c size va pa v Hc Hs) as H. simpl in E. by rewrite E in H. Qed.
Next Obligation. intros c va pa v m c' st Hc E. pose proof (write64_masked_typed c va pa v m Hc) as H. simpl in E. by rewrite E in H. Qed.
Next Obligation. intros c op va pa c' r. apply cache_op_ok. Qed.
Next Obligation. intros. by split. Qed.
Next Obligation. intros c v Hc. by destruct Hc. Qed.
Next Obligation. simpl. intros c c' v Hc [= <- <-]. split; [done|]. by split. Qed.
Next Obligation. intros c b Hc. by destruct Hc. Qed.
Next Obligation. done. Qed.
Next Obligation. intros c a Hc. by destruct Hc. Qed.
Next Obligation. simpl. intros c size pa o n c' r Hc [= <- <-]. done. Qed.

(** ** The CPU over the real caches *)


End Laws.

(** ** A program on the R4400's caches *)

Import CpuRam.


#[local] Instance r4400_ops : MemOps (CpuCache Ram) := ops R4400.
#[local] Instance r4400_laws : MemLaws (CpuCache Ram) := cache_laws R4400.








End CacheLaws.
