(* ===== verification/GFifo.v ===== *)
(** * The register FIFO of the graphics boards

    src/src/gfifo.rs: a ring of register writes with several producers, which
    take a lock, and several consumers, each with a head of its own that sees
    every entry.  A method is a program of atomic accesses to the shared
    fields, in the source's order; threads interleave access by access.  The
    accesses are sequentially consistent: what the Release and Acquire
    orderings of the source give its single-writer fields.

    A loop that spins is unrolled [fuel] times; running out answers that the
    caller is still spinning. *)

From S2P Require Import Prelude.
From stdpp Require Import functions.

#[local] Open Scope Z_scope.
#[local] Open Scope word_scope.

Module GFifo.

Definition GFIFO_PAYLOAD : Z := 0xFFFF0003.

Record GFIFOEntry : Type := mkEntry { addr : Z; val : Z }.

#[export] Instance GFIFOEntry_eq_dec : EqDecision GFIFOEntry.
Proof. solve_decision. Defined.

(** The shared fields; the arrays are functions of the index. *)
Record GFifo : Type := mkFifo {
  lock : bool;
  active : Z;
  head : Z -> Z;
  tail : Z;
  shadow_head : Z;
  shadow_tail : Z -> Z;
  local_head : Z -> Z;
  buf : Z -> GFIFOEntry;
}.

#[global] Instance eta_GFifo : Settable GFifo := fun r =>
  mkFifo (lock r) (active r) (head r) (tail r) (shadow_head r) (shadow_tail r) (local_head r) (buf r).

(** Zeroed memory. *)
Definition new : GFifo := mkFifo false 0 (fun _ => 0) 0 0 (fun _ => 0) (fun _ => 0) (fun _ => mkEntry 0 0).

(** ** Atomic accesses *)

Inductive act : Type -> Type :=
| LockCas : act bool                        (* compare_exchange(false, true).is_ok() *)
| LockStore (b : bool) : act unit
| ActiveLoad : act Z
| ActiveStore (n : Z) : act unit
| HeadLoad (h : Z) : act Z
| HeadStore (h v : Z) : act unit
| TailLoad : act Z
| TailStore (v : Z) : act unit
| ShadowHeadGet : act Z
| ShadowHeadSet (v : Z) : act unit
| ShadowTailGet (h : Z) : act Z
| ShadowTailSet (h v : Z) : act unit
| LocalHeadGet (h : Z) : act Z
| LocalHeadSet (h v : Z) : act unit
| SlotAddr (i : Z) : act Z
| SlotVal (i : Z) : act Z
| SlotSetAddr (i a : Z) : act unit
| SlotSetVal (i v : Z) : act unit.

Definition exec {X} (a : act X) (s : GFifo) : GFifo * X :=
  match a with
  | LockCas => (s <| lock := true |>, negb (lock s))
  | LockStore b => (s <| lock := b |>, tt)
  | ActiveLoad => (s, active s)
  | ActiveStore n => (s <| active := n |>, tt)
  | HeadLoad h => (s, head s h)
  | HeadStore h v => (s <| head ::= <[h := v]> |>, tt)
  | TailLoad => (s, tail s)
  | TailStore v => (s <| tail := v |>, tt)
  | ShadowHeadGet => (s, shadow_head s)
  | ShadowHeadSet v => (s <| shadow_head := v |>, tt)
  | ShadowTailGet h => (s, shadow_tail s h)
  | ShadowTailSet h v => (s <| shadow_tail ::= <[h := v]> |>, tt)
  | LocalHeadGet h => (s, local_head s h)
  | LocalHeadSet h v => (s <| local_head ::= <[h := v]> |>, tt)
  | SlotAddr i => (s, addr (buf s i))
  | SlotVal i => (s, val (buf s i))
  | SlotSetAddr i a => (s <| buf ::= (fun b => <[i := mkEntry a (val (b i))]> b) |>, tt)
  | SlotSetVal i v => (s <| buf ::= (fun b => <[i := mkEntry (addr (b i)) v]> b) |>, tt)
  end.

(** A method: its accesses, each with what follows from the answer. *)
Inductive prog (A : Type) : Type :=
| Ret (a : A)
| Vis (X : Type) (a : act X) (k : X -> prog A).

Arguments Ret {A} a.
Arguments Vis {A X} a k.

Fixpoint bind {A B} (p : prog A) (f : A -> prog B) : prog B :=
  match p with Ret a => f a | Vis a k => Vis a (fun x => bind (k x) f) end.

#[global] Instance prog_ret : MRet prog := fun A a => Ret a.
#[global] Instance prog_bind : MBind prog := fun A B f p => bind p f.

Definition do {X} (a : act X) : prog X := Vis a Ret.

(** A method on its own, with no other thread. *)
Fixpoint run {A} (p : prog A) (s : GFifo) : GFifo * A :=
  match p with Ret a => (s, a) | Vis a k => let '(s, x) := exec a s in run (k x) s end.

Section Fifo.

Context (DEPTH HEADS : Z).

Definition MASK : Z := DEPTH - 1.

(** [x & Self::MASK] after wrapping arithmetic. *)
Definition masked (x : Z) : Z := u64 x .& MASK.

Definition set_heads (n : Z) : prog (option unit) :=
  if (1 <=? n) && (n <=? HEADS) then do (ActiveStore n);; Ret (Some tt) else Ret None.

Definition heads : prog Z :=
  if HEADS =? 1 then Ret 1 else n ← do ActiveLoad; Ret (if n =? 0 then HEADS else n).

Fixpoint scan_heads (t slow : Z) (hs : list Z) : prog Z :=
  match hs with
  | [] => Ret slow
  | h :: hs => v ← do (HeadLoad h); scan_heads t (if masked (t - slow) <? masked (t - v) then v else slow) hs
  end.

Definition slowest_head (t : Z) : prog Z :=
  slow ← do (HeadLoad 0);
  n ← heads;
  scan_heads t slow (seqZ 1 (n - 1)).

Definition consumed : prog Z := t ← do TailLoad; slowest_head t.

Definition len : prog Z := t ← do TailLoad; h ← slowest_head t; Ret (masked (t - h)).

Definition len_at (h : Z) : prog Z := t ← do TailLoad; v ← do (HeadLoad h); Ret (masked (t - v)).

(** ** Producers *)

Definition write_slot (i : Z) (e : GFIFOEntry) : prog unit := do (SlotSetAddr i (addr e));; do (SlotSetVal i (val e)).

(** Entries from slot [i] on, around the ring. *)
Fixpoint write_slots (i : Z) (es : list GFIFOEntry) : prog unit :=
  match es with [] => Ret tt | e :: es => write_slot i e;; write_slots (masked (i + 1)) es end.

Definition unlock (b : bool) : prog bool := do (LockStore false);; Ret b.

Definition try_push (e : GFIFOEntry) : prog bool :=
  ok ← do LockCas;
  if negb ok then Ret false
  else
    t ← do TailLoad;
    let next := masked (t + 1) in
    c ← do ShadowHeadGet;
    full ← (if next =? c then c ← slowest_head t; do (ShadowHeadSet c);; Ret (next =? c) else Ret false);
    if full : bool then unlock false
    else write_slot t e;; do (TailStore next);; unlock true.

Definition try_push2 (e0 e1 : GFIFOEntry) : prog bool :=
  ok ← do LockCas;
  if negb ok then Ret false
  else
    t ← do TailLoad;
    let next := masked (t + 1) in
    let next2 := masked (t + 2) in
    c ← do ShadowHeadGet;
    full ← (if (next =? c) || (next2 =? c) then c ← slowest_head t; do (ShadowHeadSet c);; Ret ((next =? c) || (next2 =? c)) else Ret false);
    if full : bool then unlock false
    else write_slot t e0;; write_slot next e1;; do (TailStore next2);; unlock true.

Definition room (h t : Z) : Z := masked (h - t - 1).

(** The debug assertion that the slice is shorter than the ring is another build's. *)
Definition try_push_slice (es : list GFIFOEntry) : prog bool :=
  let n := Z.of_nat (length es) in
  if n =? 0 then Ret true
  else
    ok ← do LockCas;
    if negb ok then Ret false
    else
      t ← do TailLoad;
      c ← do ShadowHeadGet;
      full ← (if room c t <? n then h ← slowest_head t; do (ShadowHeadSet h);; Ret (room h t <? n) else Ret false);
      if full : bool then unlock false
      else write_slots t es;; do (TailStore ((t + n) .& MASK));; unlock true.

(** One turn of [push_batch]'s loop. *)
Definition try_batch (es : list GFIFOEntry) : prog bool :=
  let need := Z.of_nat (length es) in
  ok ← do LockCas;
  if negb ok then Ret false
  else
    t ← do TailLoad;
    h ← slowest_head t;
    do (ShadowHeadSet h);;
    if MASK - masked (t - h) <? need then unlock false
    else write_slots t es;; do (TailStore (masked (t + need)));; unlock true.

Fixpoint until (fuel : nat) (p : prog bool) : prog bool :=
  ok ← p;
  if ok : bool then Ret true else match fuel with O => Ret false | S fuel => until fuel p end.

Definition batch (token count : Z) (vals : list Z) : list GFIFOEntry := mkEntry token count :: map (mkEntry GFIFO_PAYLOAD) vals.

(** [None] is the failed assertion that the batch is smaller than the ring. *)
Definition push_batch (fuel : nat) (token count : Z) (vals : list Z) : prog (option bool) :=
  if Z.of_nat (length vals) + 1 <? DEPTH then ok ← until fuel (try_batch (batch token count vals)); Ret (Some ok) else Ret None.

Definition push (fuel : nat) (e : GFIFOEntry) : prog bool := until fuel (try_push e).

Definition publish_tail : prog bool :=
  ok ← do LockCas;
  if negb ok then Ret false else t ← do TailLoad; do (TailStore t);; unlock true.

(** ** Consumers *)

Definition read_slot (i : Z) : prog GFIFOEntry := a ← do (SlotAddr i); v ← do (SlotVal i); Ret (mkEntry a v).

Definition peek_at (h : Z) : prog (option GFIFOEntry) :=
  hd ← do (LocalHeadGet h);
  c ← do (ShadowTailGet h);
  empty ← (if hd =? c then c ← do TailLoad; do (ShadowTailSet h c);; Ret (hd =? c) else Ret false);
  if empty : bool then Ret None else e ← read_slot hd; Ret (Some e).

(** The tail once it is past [hd], or [None] while the consumer spins. *)
Fixpoint await_tail (fuel : nat) (hd t : Z) : prog (option Z) :=
  if hd =? t then
    t ← do TailLoad;
    if hd =? t then match fuel with O => Ret None | S fuel => await_tail fuel hd t end else Ret (Some t)
  else Ret (Some t).

(** The next [n] values, the head after them and the tail last seen. *)
Fixpoint drain_loop (fuel n : nat) (hd t : Z) : prog (option (list Z * Z * Z)) :=
  match n with
  | O => Ret (Some ([], hd, t))
  | S n =>
      w ← await_tail fuel hd t;
      match w with
      | None => Ret None
      | Some t =>
          v ← do (SlotVal hd);
          r ← drain_loop fuel n (masked (hd + 1)) t;
          Ret (match r with Some (vs, hd, t) => Some (v :: vs, hd, t) | None => None end)
      end
  end.

(** The values drained; [None] while the consumer spins. *)
Definition drain_payload_at (h : Z) (fuel n : nat) : prog (option (list Z)) :=
  hd ← do (LocalHeadGet h);
  t ← do TailLoad;
  r ← drain_loop fuel n (masked (hd + 1)) t;
  match r with
  | None => Ret None
  | Some (vs, hd, t) => do (ShadowTailSet h t);; do (LocalHeadSet h (masked (hd - 1)));; Ret (Some vs)
  end.

Definition consume_at (h : Z) : prog unit :=
  hd ← do (LocalHeadGet h);
  let next := masked (hd + 1) in
  do (LocalHeadSet h next);;
  t ← do TailLoad;
  if (next .& 63 =? 0) || (next =? t) then do (HeadStore h next) else Ret tt.

Definition flush_head_at (h : Z) : prog unit := v ← do (LocalHeadGet h); do (HeadStore h v).

(** ** Observers *)

Fixpoint all_at (t : Z) (hs : list Z) : prog bool :=
  match hs with [] => Ret true | h :: hs => v ← do (HeadLoad h); if v =? t then all_at t hs else Ret false end.

Definition is_empty : prog bool := t ← do TailLoad; n ← heads; all_at t (seqZ 0 n).

Definition is_empty_at (h : Z) : prog bool := v ← do (HeadLoad h); t ← do TailLoad; Ret (v =? t).

Fixpoint reset_heads (t : Z) (hs : list Z) : prog unit :=
  match hs with
  | [] => Ret tt
  | h :: hs => do (HeadStore h t);; do (LocalHeadSet h t);; do (ShadowTailSet h t);; reset_heads t hs
  end.

Definition reset : prog unit := t ← do TailLoad; reset_heads t (seqZ 0 HEADS);; do (ShadowHeadSet t).

End Fifo.

End GFifo.
