(* ===== verification/GFifoSpec.v ===== *)
(** * Threads on the register FIFO, and the queue they should see

    [step] interleaves the methods of [GFifo] access by access; [astep] is the
    same threads on a broadcast queue whose methods take effect at once, some
    time between the call and the return. *)

From S2P Require Import Prelude GFifo.
From stdpp Require Import functions.
Import GFifo.

#[local] Open Scope Z_scope.

Module GFifoSpec.

(** ** Calls *)

Inductive call : Type :=
| TryPush (e : GFIFOEntry)
| TryPush2 (e0 e1 : GFIFOEntry)
| TryPushSlice (es : list GFIFOEntry)
| Push (fuel : nat) (e : GFIFOEntry)
| PushBatch (fuel : nat) (token count : Z) (vals : list Z)
| PublishTail
| Len
| IsEmpty
| IsEmptyAt (h : Z)
| Peek (h : Z)
| Drain (h : Z) (fuel n : nat)
| Consume (h : Z)
| Flush (h : Z).

Inductive reply : Type :=
| RBool (b : bool)
| RNum (n : Z)
| RSlot (e : option GFIFOEntry)
| RVals (vs : option (list Z))
| RUnit
| RPanic.

Definition lift {A} (f : A -> reply) (p : prog A) : prog reply := x ← p; Ret (f x).

Section Spec.

Context (DEPTH HEADS : Z).

Definition prog_of (c : call) : prog reply :=
  match c with
  | TryPush e => lift RBool (try_push DEPTH HEADS e)
  | TryPush2 e0 e1 => lift RBool (try_push2 DEPTH HEADS e0 e1)
  | TryPushSlice es => lift RBool (try_push_slice DEPTH HEADS es)
  | Push fuel e => lift RBool (push DEPTH HEADS fuel e)
  | PushBatch fuel token count vals =>
      lift (fun r => match r with Some b => RBool b | None => RPanic end) (push_batch DEPTH HEADS fuel token count vals)
  | PublishTail => lift RBool publish_tail
  | Len => lift RNum (len DEPTH HEADS)
  | IsEmpty => lift RBool (is_empty HEADS)
  | IsEmptyAt h => lift RBool (is_empty_at h)
  | Peek h => lift RSlot (peek_at h)
  | Drain h fuel n => lift RVals (drain_payload_at DEPTH h fuel n)
  | Consume h => lift (fun _ => RUnit) (consume_at DEPTH h)
  | Flush h => lift (fun _ => RUnit) (flush_head_at h)
  end.

(** The head whose consumer alone may make the call. *)
Definition call_head (c : call) : option Z :=
  match c with Peek h | Drain h _ _ | Consume h | Flush h | IsEmptyAt h => Some h | _ => None end.

(** The calls that must follow a successful [Peek]. *)
Definition on_entry (c : call) : bool := match c with Drain _ _ _ | Consume _ => true | _ => false end.

(** ** Threads *)

Record thread : Type := mkThread { running : option (call * prog reply); ready : bool }.

Record sys : Type := mkSys { fifo : GFifo; pool : Z -> thread }.

Inductive event : Type :=
| ECall (t : Z) (c : call)
| EReturn (t : Z) (c : call) (r : reply).

(** [role t] is the head that thread [t] consumes. *)
Context (role : Z -> option Z).

Definition allowed (t : Z) (th : thread) (c : call) : Prop :=
  running th = None /\ (forall h, call_head c = Some h -> role t = Some h) /\ (on_entry c = true -> ready th = true).

Definition next_ready (c : call) (r : reply) (b : bool) : bool :=
  match c, r with
  | Peek _, RSlot (Some _) => true
  | Peek _, _ | Consume _, _ => false
  | _, _ => b
  end.

Inductive step : sys -> list event -> sys -> Prop :=
| step_call s p t c : allowed t (p t) c ->
    step (mkSys s p) [ECall t c] (mkSys s (<[t := mkThread (Some (c, prog_of c)) (ready (p t))]> p))
| step_act s p t c X (a : act X) k : running (p t) = Some (c, Vis a k) ->
    step (mkSys s p) [] (mkSys (exec a s).1 (<[t := mkThread (Some (c, k (exec a s).2)) (ready (p t))]> p))
| step_return s p t c r : running (p t) = Some (c, Ret r) ->
    step (mkSys s p) [EReturn t c r] (mkSys s (<[t := mkThread None (next_ready c r (ready (p t)))]> p)).

(** ** A scheduler, to run the threads in a given order *)

Inductive choice : Type :=
| Start (t : Z) (c : call)
| Tick (t : Z).

Definition allowed_b (t : Z) (th : thread) (c : call) : bool :=
  match running th with Some _ => false | None => true end &&
  match call_head c with Some h => bool_decide (role t = Some h) | None => true end && (negb (on_entry c) || ready th).

Definition choose (ch : choice) (s : sys) : option (list event * sys) :=
  match ch with
  | Start t c =>
      if allowed_b t (pool s t) c then Some ([ECall t c], mkSys (fifo s) (<[t := mkThread (Some (c, prog_of c)) (ready (pool s t))]> (pool s))) else None
  | Tick t =>
      match running (pool s t) with
      | Some (c, Vis a f) => Some ([], mkSys (exec a (fifo s)).1 (<[t := mkThread (Some (c, f (exec a (fifo s)).2)) (ready (pool s t))]> (pool s)))
      | Some (c, Ret r) => Some ([EReturn t c r], mkSys (fifo s) (<[t := mkThread None (next_ready c r (ready (pool s t)))]> (pool s)))
      | None => None
      end
  end.

Fixpoint schedule (l : list choice) (s : sys) : option (list event * sys) :=
  match l with
  | [] => Some ([], s)
  | ch :: l => '(es, s) ← choose ch s; '(tr, s) ← schedule l s; Some (es ++ tr, s)
  end.

(** ** The queue *)

Record queue : Type := mkQueue { log : list GFIFOEntry; pos : Z -> Z }.

Notation size q := (Z.of_nat (length (log q))).

(** The number of consumers. *)
Context (n : Z).

(** [es] at once, which leaves no consumer more than the ring behind. *)
Definition appended (es : list GFIFOEntry) (q q' : queue) : Prop :=
  q' = mkQueue (log q ++ es) (pos q) /\ forall h, 0 <= h < n -> size q' - pos q h <= DEPTH - 1.

Definition pushed (es : list GFIFOEntry) (b : bool) (q q' : queue) : Prop := if b then appended es q q' else q' = q.

(** What a call that started with [n0] entries in the log may answer and do. *)
Definition effect (c : call) (n0 : Z) (r : reply) (q q' : queue) : Prop :=
  match c, r with
  | TryPush e, RBool b | Push _ e, RBool b => pushed [e] b q q'
  | TryPush2 e0 e1, RBool b => pushed [e0; e1] b q q'
  | TryPushSlice es, RBool b => pushed es b q q'
  | PushBatch _ token count vals, RBool b => pushed (batch token count vals) b q q'
  | PushBatch _ _ _ vals, RPanic => q' = q /\ DEPTH <= Z.of_nat (length vals) + 1
  | PublishTail, RBool _ => q' = q
  | Len, RNum v => q' = q /\ 0 <= v < DEPTH
  | IsEmpty, RBool b => q' = q /\ (b = true -> forall h, 0 <= h < n -> n0 <= pos q h)
  | IsEmptyAt h, RBool b => q' = q /\ (b = true -> n0 <= pos q h)
  | Peek h, RSlot (Some e) => q' = q /\ log q !! Z.to_nat (pos q h) = Some e
  | Peek h, RSlot None => q' = q /\ pos q h = size q
  | Drain h _ k, RVals (Some vs) =>
      q' = mkQueue (log q) (<[h := pos q h + Z.of_nat k]> (pos q)) /\
      vs = map val (take k (drop (Z.to_nat (pos q h + 1)) (log q))) /\ length vs = k
  | Drain h _ k, RVals None => q' = q /\ n0 < pos q h + 1 + Z.of_nat k
  | Consume h, RUnit => q' = mkQueue (log q) (<[h := pos q h + 1]> (pos q)) /\ pos q h < size q
  | Flush _, RUnit => q' = q
  | _, _ => False
  end.

Inductive status : Type :=
| Idle
| Pending (c : call) (n0 : Z)
| Finished (c : call) (r : reply).

Record asys : Type := mkA { queue_of : queue; status_of : Z -> status }.

Inductive astep : asys -> list event -> asys -> Prop :=
| astep_call q st t c : st t = Idle -> astep (mkA q st) [ECall t c] (mkA q (<[t := Pending c (size q)]> st))
| astep_effect q st t c n0 r q' : st t = Pending c n0 -> effect c n0 r q q' -> astep (mkA q st) [] (mkA q' (<[t := Finished c r]> st))
| astep_return q st t c r : st t = Finished c r -> astep (mkA q st) [EReturn t c r] (mkA q (<[t := Idle]> st)).

(** A run and what is seen of it. *)
Inductive runs {S} (R : S -> list event -> S -> Prop) (s : S) : list event -> S -> Prop :=
| runs_nil : runs R s [] s
| runs_snoc tr s' es s'' : runs R s tr s' -> R s' es s'' -> runs R s (tr ++ es) s''.

(** A new FIFO on which [n] heads are in use, and no thread running. *)
Definition start : sys := mkSys (run (set_heads HEADS n) new).1 (fun _ => mkThread None false).

Definition astart : asys := mkA (mkQueue [] (fun _ => 0)) (fun _ => Idle).

(** Each head in use has at most one consumer. *)
Definition roles_ok : Prop := (forall t h, role t = Some h -> 0 <= h < n) /\ (forall t u h, role t = Some h -> role u = Some h -> t = u).

End Spec.

End GFifoSpec.
