(* ===== verification/GFifoProofs.v ===== *)
(** * Reasoning about the register FIFO

    A rely-guarantee logic for programs of atomic accesses ([wp]), the
    invariant that ties the ring to the queue of [GFifoSpec], and what each
    method does to both while other threads run. *)

From S2P Require Import Prelude GFifo GFifoSpec.
From stdpp Require Import functions.
Import GFifo GFifoSpec.

#[local] Open Scope Z_scope.
#[local] Open Scope word_scope.

Module GFifoProofs.

(** ** Positions around a ring *)

Section Ring.

Context (D : Z).

Lemma ring_eq a b : 0 <= b - a < D -> (a mod D = b mod D <-> a = b).
Proof.
  intros H. split; [|by intros ->]. intros E. assert (Hz : (b - a) mod D = 0) by (rewrite Zminus_mod, E, Z.sub_diag; apply Zmod_0_l).
  rewrite Z.mod_small in Hz by done. lia.
Qed.

Lemma ring_eqb a b : 0 <= b - a < D -> (a mod D =? b mod D) = (a =? b).
Proof. intros H. apply eq_bool_prop_intro. rewrite !Is_true_true, !Z.eqb_eq. by apply ring_eq. Qed.

(** The slot one lap on. *)
Lemma ring_lap a b : b - a = D -> b mod D = a mod D.
Proof. intros H. replace b with (a + 1 * D) by lia. apply Z_mod_plus_full. Qed.

Lemma ring_sub a b : 0 <= a - b < D -> (a mod D - b mod D) mod D = a - b.
Proof. intros H. rewrite <- Zminus_mod. by apply Z.mod_small. Qed.

Lemma ring_add a c : (a mod D + c) mod D = (a + c) mod D.
Proof. apply Zplus_mod_idemp_l. Qed.

End Ring.

(** ** The logic *)

Record ghost : Type := mkG {
  gq : queue;                (* the queue *)
  gst : Z -> status;         (* what the threads have done to it *)
  gP : Z -> Z;               (* where the published heads stand *)
  gS : Z -> Z;               (* the tails that the consumers last saw *)
  gSH : Z;                   (* the head that the producers last saw *)
  gown : option Z;           (* who holds the lock *)
}.

#[global] Instance eta_queue : Settable queue := fun r => mkQueue (log r) (pos r).
#[global] Instance eta_ghost : Settable ghost := fun r => mkG (gq r) (gst r) (gP r) (gS r) (gSH r) (gown r).

Notation size q := (Z.of_nat (length (log q))).

Section Logic.

Context (k HEADS : Z) (Hk : 0 <= k <= 63) (role : Z -> option Z) (n : Z) (Hn : 1 <= n <= HEADS) (Hroles : roles_ok role n).

Notation D := (2 ^ k).
Notation state := (GFifo * ghost)%type.

Lemma D_pos : 0 < D.
Proof. apply Z.pow_pos_nonneg; lia. Qed.


Lemma masked_mod x : masked D x = x mod D.
Proof.
  unfold masked, MASK. rewrite Z.sub_1_r, <- Z.ones_equiv, Z.land_ones by lia. unfold u64, wrap.
  apply Z.mod_mod_divide. exists (2 ^ (64 - k)). rewrite <- Z.pow_add_r by lia. f_equal. lia.
Qed.

(** *** Invariant *)

Record head_ok (s : GFifo) (g : ghost) (h : Z) : Prop := mkHead {
  ho_head : head s h = gP g h mod D;
  ho_local : local_head s h = pos (gq g) h mod D;
  ho_tail : shadow_tail s h = gS g h mod D;
  ho_order : gSH g <= gP g h <= pos (gq g) h /\ pos (gq g) h <= gS g h <= size (gq g);
}.

Record inv (x : state) : Prop := mkInv {
  i_lock : lock x.1 = bool_decide (is_Some (gown x.2));
  i_active : active x.1 = n;
  i_tail : tail x.1 = size (gq x.2) mod D;
  i_shadow : shadow_head x.1 = gSH x.2 mod D;
  i_room : 0 <= gSH x.2 <= size (gq x.2) /\ size (gq x.2) - gSH x.2 <= D - 1;
  i_heads h : 0 <= h < n -> head_ok x.1 x.2 h;
  i_buf i : gSH x.2 <= i < size (gq x.2) -> log (gq x.2) !! Z.to_nat i = Some (buf x.1 (i mod D));
}.

(** The conjuncts that a step leaves alone. *)
Ltac keep_inv I :=
  split; cbn; [try exact (i_lock _ I)|try exact (i_active _ I)|try exact (i_tail _ I)|try exact (i_shadow _ I)|try exact (i_room _ I)|
    try (let h := fresh "h" in let Hh := fresh "Hh" in intros h Hh; destruct (i_heads _ I h Hh); by split)|try exact (i_buf _ I)].

(** *** What a thread may rely on *)

Record rely (t : Z) (x x' : state) : Prop := mkRely {
  r_status : gst x'.2 t = gst x.2 t;
  r_mine h : role t = Some h -> gP x'.2 h = gP x.2 h /\ gS x'.2 h = gS x.2 h /\ pos (gq x'.2) h = pos (gq x.2) h;
  r_heads h : gP x.2 h <= gP x'.2 h;
  r_pos h : pos (gq x.2) h <= pos (gq x'.2) h;
  r_log : log (gq x.2) `prefix_of` log (gq x'.2);
  r_own : gown x.2 = Some t -> gown x'.2 = Some t /\ log (gq x'.2) = log (gq x.2) /\ gSH x'.2 = gSH x.2 /\ buf x'.1 = buf x.1;
  r_free : gown x.2 <> Some t -> gown x'.2 <> Some t;
}.

Lemma rely_refl t x : rely t x x.
Proof. by split. Qed.

Lemma rely_trans t x y z : rely t x y -> rely t y z -> rely t x z.
Proof.
  intros R1 R2. split.
  - by rewrite (r_status _ _ _ R2), (r_status _ _ _ R1).
  - intros h E. destruct (r_mine _ _ _ R2 h E) as (-> & -> & ->). by apply (r_mine _ _ _ R1).
  - intros h. pose proof (r_heads _ _ _ R1 h). pose proof (r_heads _ _ _ R2 h). lia.
  - intros h. pose proof (r_pos _ _ _ R1 h). pose proof (r_pos _ _ _ R2 h). lia.
  - etrans; [apply (r_log _ _ _ R1)|apply (r_log _ _ _ R2)].
  - intros E. destruct (r_own _ _ _ R1 E) as (E1 & L1 & S1 & B1). destruct (r_own _ _ _ R2 E1) as (E2 & L2 & S2 & B2). split_and!; congruence.
  - intros E. apply (r_free _ _ _ R2), (r_free _ _ _ R1), E.
Qed.

(** What it owes the others, and how the queue may move. *)
Definition evolves (t : Z) (g g' : ghost) : Prop :=
  (gq g' = gq g /\ gst g' = gst g) \/
  exists c n0 r, gst g t = Pending c n0 /\ effect D n c n0 r (gq g) (gq g') /\ gst g' = <[t := Finished c r]> (gst g).

Definition guar (t : Z) (x x' : state) : Prop := (forall u, u <> t -> rely u x x') /\ evolves t x.2 x'.2.

Fixpoint wp {A} (t : Z) (p : prog A) (Q : A -> state -> Prop) (x : state) : Prop :=
  match p with
  | Ret a => forall x', inv x' -> rely t x x' -> Q a x'
  | Vis a f => forall x', inv x' -> rely t x x' ->
      exists g', inv ((exec a x'.1).1, g') /\ guar t x' ((exec a x'.1).1, g') /\ wp t (f (exec a x'.1).2) Q ((exec a x'.1).1, g')
  end.

Lemma wp_rely {A} t (p : prog A) Q x x' : rely t x x' -> wp t p Q x -> wp t p Q x'.
Proof. intros R W. destruct p as [a|X a f]; cbn in *; intros y Iy Ry; apply W; [done| |done|]; by eapply rely_trans. Qed.

Lemma wp_mono {A} t (p : prog A) (Q Q' : A -> state -> Prop) x : (forall a y, inv y -> Q a y -> Q' a y) -> wp t p Q x -> wp t p Q' x.
Proof.
  intros HQ. revert x. induction p as [a|X a f IH]; cbn; intros x W y Iy Ry; [by apply HQ, W|].
  destruct (W y Iy Ry) as (g' & I' & G & W'). exists g'. split_and!; try done. by apply IH.
Qed.

Lemma wp_bind {A B} t (p : prog A) (f : A -> prog B) Q x : wp t p (fun a y => wp t (f a) Q y) x -> inv x -> wp t (bind p f) Q x.
Proof.
  revert x. induction p as [a|X a f' IH]; cbn; intros x W I.
  - apply W; [done|apply rely_refl].
  - intros y Iy Ry. destruct (W y Iy Ry) as (g' & I' & G & W'). exists g'. split_and!; try done. by apply IH.
Qed.

Lemma wp_ret {A} t (a : A) Q x : (forall x', inv x' -> rely t x x' -> Q a x') -> wp t (Ret a) Q x.
Proof. done. Qed.

(** An access that changes nothing. *)
Lemma wp_read {A X} t (a : act X) (f : X -> prog A) Q x :
  (forall s, (exec a s).1 = s) -> (forall x', inv x' -> rely t x x' -> wp t (f (exec a x'.1).2) Q x') -> wp t (Vis a f) Q x.
Proof.
  intros Ha W y Iy Ry. exists y.2. rewrite Ha. destruct y as [s g]. split_and!; [done| |by apply W].
  split; [intros; apply rely_refl|by left].
Qed.

(** What outlives a thread's own use of the lock. *)
Record sees (t : Z) (x x' : state) : Prop := mkSees {
  s_mine h : role t = Some h -> gP x'.2 h = gP x.2 h /\ gS x'.2 h = gS x.2 h /\ pos (gq x'.2) h = pos (gq x.2) h;
  s_heads h : gP x.2 h <= gP x'.2 h;
  s_pos h : pos (gq x.2) h <= pos (gq x'.2) h;
  s_log : log (gq x.2) `prefix_of` log (gq x'.2);
}.

Lemma rely_sees t x x' : rely t x x' -> sees t x x'.
Proof. intros []. by split. Qed.

Lemma sees_refl t x : sees t x x.
Proof. apply rely_sees, rely_refl. Qed.

Lemma sees_trans t x y z : sees t x y -> sees t y z -> sees t x z.
Proof.
  intros R1 R2. split.
  - intros h E. destruct (s_mine _ _ _ R2 h E) as (-> & -> & ->). by apply (s_mine _ _ _ R1).
  - intros h. pose proof (s_heads _ _ _ R1 h). pose proof (s_heads _ _ _ R2 h). lia.
  - intros h. pose proof (s_pos _ _ _ R1 h). pose proof (s_pos _ _ _ R2 h). lia.
  - etrans; [apply (s_log _ _ _ R1)|apply (s_log _ _ _ R2)].
Qed.

Lemma sees_size t x x' : sees t x x' -> size (gq x.2) <= size (gq x'.2).
Proof. intros R%s_log%prefix_length. lia. Qed.

Lemma guar_intro t x x' :
  (forall u, u <> t -> gst x'.2 u = gst x.2 u) ->
  (forall h, role t <> Some h -> gP x'.2 h = gP x.2 h /\ gS x'.2 h = gS x.2 h /\ pos (gq x'.2) h = pos (gq x.2) h) ->
  (forall h, gP x.2 h <= gP x'.2 h) -> (forall h, pos (gq x.2) h <= pos (gq x'.2) h) ->
  log (gq x.2) `prefix_of` log (gq x'.2) ->
  (gown x.2 = Some t \/ (log (gq x'.2) = log (gq x.2) /\ gSH x'.2 = gSH x.2 /\ buf x'.1 = buf x.1)) ->
  (forall u, u <> t -> gown x.2 = Some u <-> gown x'.2 = Some u) ->
  evolves t x.2 x'.2 -> guar t x x'.
Proof.
  intros Hst Hmine HP Hpos Hlog Hown Hlock Hev. split; [|done]. intros u Hu. split; auto.
  - intros h Hh. apply Hmine. intros E. apply Hu. by apply (proj2 Hroles) with h.
  - intros E. destruct Hown as [E'|(-> & -> & ->)]; [congruence|]. split_and!; try done. by apply Hlock.
  - intros E E'. by apply E, Hlock.
Qed.

(** The owner of the lock alone changes the ring. *)
Lemma guar_owner t s g s' g' :
  gown g = Some t -> gown g' = Some t -> gst g' = gst g -> gq g' = gq g -> gP g' = gP g -> gS g' = gS g -> guar t (s, g) (s', g').
Proof.
  intros E E' Est Eq EP ES. apply guar_intro; cbn; rewrite ?Est, ?Eq, ?EP, ?ES; try done; [by left|intros; by rewrite E, E'|by left].
Qed.

(** *** The lock *)

Lemma wp_lock {A} t (f : bool -> prog A) Q x :
  gown x.2 <> Some t ->
  (forall b y, inv y -> sees t x y -> gst y.2 t = gst x.2 t -> (gown y.2 = Some t <-> b = true) -> wp t (f b) Q y) ->
  wp t (Vis LockCas f) Q x.
Proof.
  intros Hx W y Iy Ry. cbn [exec fst snd]. pose proof (i_lock _ Iy) as L. pose proof (r_free _ _ _ Ry Hx) as Hy.
  destruct (gown y.2) as [u|] eqn:E; cbn in L.
  - exists y.2. assert (Es : y.1 <| lock := true |> = y.1) by (destruct y as [[] ?]; cbn in *; by subst). rewrite Es, L. cbn [negb].
    split_and!; [by destruct y| |].
    + destruct y. split; [intros; apply rely_refl|by left].
    + apply W; [by destruct y|by destruct y; apply rely_sees|apply (r_status _ _ _ Ry)|cbn; rewrite E; split; congruence].
  - exists (y.2 <| gown := Some t |>). rewrite L. cbn [negb].
    assert (I' : inv (y.1 <| lock := true |>, y.2 <| gown := Some t |>)) by by keep_inv Iy.
    split_and!; [done| |apply W; [done| |apply (r_status _ _ _ Ry)|done]].
    + apply guar_intro; cbn; try done; [by right| |by left]. intros u Hu. rewrite E. split; congruence.
    + destruct (rely_sees _ _ _ Ry). by split.
Qed.

Lemma wp_unlock {A} t (f : unit -> prog A) Q x :
  gown x.2 = Some t ->
  (forall y, inv y -> sees t x y -> gst y.2 t = gst x.2 t -> gown y.2 <> Some t -> wp t (f tt) Q y) ->
  wp t (Vis (LockStore false) f) Q x.
Proof.
  intros Hx W y Iy Ry. cbn [exec fst snd]. destruct (r_own _ _ _ Ry Hx) as (Hy & _). exists (y.2 <| gown := None |>).
  assert (I' : inv (y.1 <| lock := false |>, y.2 <| gown := None |>)) by by keep_inv Iy.
  split_and!; [done| |apply W; [done| |apply (r_status _ _ _ Ry)|done]].
  - apply guar_intro; cbn; try done; [by left| |by left]. intros u Hu. rewrite Hy. split; congruence.
  - destruct (rely_sees _ _ _ Ry). by split.
Qed.

(** [y] after [x] while [t] holds the lock throughout and adds nothing. *)
Record held (t : Z) (x y : state) : Prop := mkHeld {
  h_own : gown y.2 = Some t;
  h_sees : sees t x y;
  h_status : gst y.2 t = gst x.2 t;
  h_log : log (gq y.2) = log (gq x.2);
}.

Lemma held_trans t x y z : held t x y -> held t y z -> held t x z.
Proof. intros [] [? ? E1 E2]. split; [done|by eapply sees_trans|congruence|congruence]. Qed.

Lemma rely_held t x y : rely t x y -> gown x.2 = Some t -> held t x y /\ gSH y.2 = gSH x.2 /\ buf y.1 = buf x.1.
Proof.
  intros R E. destruct (r_own _ _ _ R E) as (? & ? & ? & ?). split_and!; try done. split; try done; [by apply rely_sees|apply (r_status _ _ _ R)].
Qed.

(** A thread's part of the invariant when the slot of position [i] changes. *)
Lemma inv_slot s g i e : inv (s, g) -> size (gq g) <= i -> i - gSH g <= D - 1 -> inv (s <| buf ::= <[i mod D := e]> |>, g).
Proof.
  intros I Hi Hr. keep_inv I. intros j Hj. pose proof (i_buf _ I). rewrite fn_lookup_insert_ne; [auto|].
  intros E. symmetry in E. apply ring_eq in E; lia.
Qed.

Lemma wp_slot t i e x :
  gown x.2 = Some t -> size (gq x.2) <= i -> i - gSH x.2 <= D - 1 ->
  wp t (write_slot (i mod D) e) (fun _ y => held t x y /\ gSH y.2 = gSH x.2 /\ forall j, buf y.1 j = <[i mod D := e]> (buf x.1) j) x.
Proof.
  intros E Hi Hr y Iy Ry. destruct (rely_held t x y Ry E) as (Hh & HS & HB). cbn [exec fst snd]. exists y.2.
  assert (Hi' : size (gq y.2) <= i) by (by rewrite (h_log _ _ _ Hh)). rewrite <- HS in Hr.
  split_and!; [destruct y; by apply inv_slot|by destruct y; apply guar_owner; try apply (h_own _ _ _ Hh)|].
  intros z Iz Rz. destruct (rely_held t _ z Rz (h_own _ _ _ Hh)) as (Hh' & HS' & HB'). cbn [exec fst snd]. cbn in HS', HB'. exists z.2.
  assert (Hz : size (gq z.2) <= i) by (rewrite (h_log _ _ _ Hh'); cbn; done). rewrite <- HS' in Hr.
  split_and!; [destruct z; by apply inv_slot|by destruct z; apply guar_owner; try apply (h_own _ _ _ Hh')|].
  intros w Iw Rw. destruct (rely_held t _ w Rw (h_own _ _ _ Hh')) as (Hh'' & HS'' & HB''). cbn in HS'', HB''. split_and!; [|congruence|].
  - apply (held_trans t x y); [done|]. apply (held_trans t y z).
    + destruct Hh' as [? [] ? ?]. split; try done; by split.
    + destruct Hh'' as [? [] ? ?]. split; try done; by split.
  - intros j. rewrite HB'', HB', HB, !fn_lookup_insert. cbn. destruct e, (decide (i mod D = j)) as [->|]; by rewrite ?fn_lookup_insert, ?fn_lookup_insert_ne.
Qed.

Lemma held_refl t x : gown x.2 = Some t -> held t x x.
Proof. intros. split; done || apply sees_refl. Qed.

Lemma held_heads t x y h : held t x y -> gP x.2 h <= gP y.2 h.
Proof. intros H. apply (s_heads _ _ _ (h_sees _ _ _ H)). Qed.

Lemma wp_slots t es : forall j x,
  gown x.2 = Some t -> inv x -> 0 <= j -> size (gq x.2) + j + Z.of_nat (length es) - gSH x.2 <= D ->
  wp t (write_slots D ((size (gq x.2) + j) mod D) es) (fun _ y => held t x y /\ gSH y.2 = gSH x.2 /\
    (forall i e, es !! i = Some e -> buf y.1 ((size (gq x.2) + j + Z.of_nat i) mod D) = e) /\
    (forall i, gSH x.2 <= i < size (gq x.2) + j -> buf y.1 (i mod D) = buf x.1 (i mod D))) x.
Proof.
  induction es as [|e es IH]; intros j x E I Hj Hr; cbn [write_slots].
  { intros y Iy Ry. destruct (rely_held _ _ _ Ry E) as (? & ? & ->). split_and!; try done. }
  cbn [length] in Hr. pose proof (i_room _ I). apply wp_bind; [|done]. eapply wp_mono; [|apply wp_slot; [done|lia|lia]].
  intros _ y Iy (Hh & HS & HB). cbv beta. rewrite masked_mod, ring_add. pose proof (h_log _ _ _ Hh) as HL.
  replace (size (gq x.2) + j + 1) with (size (gq y.2) + (j + 1)) by (rewrite HL; lia).
  eapply wp_mono; [|apply IH; [apply (h_own _ _ _ Hh)|done|lia|rewrite HL, HS; lia]].
  intros _ z Iz (Hh' & HS' & HW & HK). rewrite HL, HS in *. split_and!; [by eapply held_trans|congruence| |].
  - intros [|i] e' Hi; cbn in Hi; [|apply (HW i e') in Hi as <-; do 2 f_equal; lia]. simplify_eq.
    rewrite Z.add_0_r, HK by lia. by rewrite HB, fn_lookup_insert.
  - intros i Hi. rewrite HK by lia. rewrite HB, fn_lookup_insert_ne; [done|]. intros A. symmetry in A. apply ring_eq in A; lia.
Qed.

Lemma wp_shadow {A} t q (f : unit -> prog A) Q x :
  gown x.2 = Some t -> gSH x.2 <= q <= size (gq x.2) -> (forall h, 0 <= h < n -> q <= gP x.2 h) ->
  (forall y, inv y -> held t x y -> gSH y.2 = q -> wp t (f tt) Q y) -> wp t (Vis (ShadowHeadSet (q mod D)) f) Q x.
Proof.
  intros E Hq HP W y Iy Ry. destruct (rely_held _ _ _ Ry E) as (Hh & HS & _). pose proof (h_log _ _ _ Hh) as HL.
  exists (y.2 <| gSH := q |>). cbn [exec fst snd]. rewrite <- HL, <- HS in Hq. pose proof (i_room _ Iy).
  assert (I' : inv (y.1 <| shadow_head := q mod D |>, y.2 <| gSH := q |>)).
  { keep_inv Iy; [done|lia| |].
    - intros h Hh'. destruct (i_heads _ Iy h Hh') as [? ? ? ?]. split; try done. cbn. pose proof (HP h Hh'). pose proof (held_heads _ _ _ h Hh). lia.
    - intros i Hi. apply (i_buf _ Iy). lia. }
  split_and!; [done| |apply W; [done| |done]].
  - destruct y. apply guar_owner; try done; apply (h_own _ _ _ Hh).
  - destruct Hh as [? [] ? ?]. split; try done; by split.
Qed.

Lemma wp_scan t hs : forall q x,
  gown x.2 = Some t -> inv x -> (forall h, h ∈ hs -> 0 <= h < n) -> gSH x.2 <= q <= size (gq x.2) ->
  wp t (scan_heads D (size (gq x.2) mod D) (q mod D) hs) (fun v y => held t x y /\ gSH y.2 = gSH x.2 /\
    exists q', v = q' mod D /\ gSH x.2 <= q' <= q /\ forall h, h ∈ hs -> q' <= gP y.2 h) x.
Proof.
  induction hs as [|h hs IH]; intros q x E I Hhs Hq; cbn [scan_heads].
  { intros y Iy Ry. destruct (rely_held _ _ _ Ry E) as (? & ? & ?). split_and!; try done. exists q. split_and!; try done; [lia|]. intros ? []%not_elem_of_nil. }
  apply wp_read; [done|]. intros y Iy Ry. destruct (rely_held _ _ _ Ry E) as (Hh & HS & _). pose proof (h_log _ _ _ Hh) as HL.
  assert (Hh0 : 0 <= h < n) by (apply Hhs; left). destruct (i_heads _ Iy h Hh0) as [Eh _ _ Ho]. pose proof (i_room _ Iy).
  cbn [exec snd]. rewrite Eh, !masked_mod, !ring_sub by (rewrite <- HL, ?HS in *; lia). rewrite <- HL.
  set (q1 := if size (gq y.2) - q <? size (gq y.2) - gP y.2 h then gP y.2 h else q).
  replace (if _ <? _ then gP y.2 h mod D else q mod D) with (q1 mod D) by (unfold q1; by destruct (_ <? _)).
  assert (Hq1 : gSH y.2 <= q1 <= q /\ q1 <= gP y.2 h) by (unfold q1; destruct (Z.ltb_spec (size (gq y.2) - q) (size (gq y.2) - gP y.2 h)); rewrite ?HS in *; lia).
  eapply wp_mono; [|apply IH; [apply (h_own _ _ _ Hh)|done|intros; apply Hhs; by right|rewrite HL; lia]].
  intros v z Iz (Hh' & HS' & q' & -> & Hq' & HP). split_and!; [by eapply held_trans|congruence|]. exists q'. rewrite HS in *. split_and!; try done; try lia.
  intros h' [->|]%elem_of_cons; [|by apply HP]. pose proof (held_heads _ _ _ h Hh'). lia.
Qed.

Lemma wp_slowest t x : gown x.2 = Some t -> inv x ->
  wp t (slowest_head D HEADS (size (gq x.2) mod D)) (fun v y => held t x y /\ gSH y.2 = gSH x.2 /\
    exists q, v = q mod D /\ gSH x.2 <= q <= size (gq x.2) /\ forall h, 0 <= h < n -> q <= gP y.2 h) x.
Proof.
  intros E I. apply wp_read; [done|]. intros y Iy Ry. destruct (rely_held _ _ _ Ry E) as (Hh & HS & _). pose proof (h_log _ _ _ Hh) as HL.
  destruct (i_heads _ Iy 0 ltac:(lia)) as [E0 _ _ Ho]. cbn [exec snd]. rewrite E0.
  assert (Fin : forall z, inv z -> held t y z -> gSH z.2 = gSH y.2 ->
    wp t (scan_heads D (size (gq x.2) mod D) (gP y.2 0 mod D) (seqZ 1 (n - 1))) (fun v w => held t x w /\ gSH w.2 = gSH x.2 /\
      exists q, v = q mod D /\ gSH x.2 <= q <= size (gq x.2) /\ forall h, 0 <= h < n -> q <= gP w.2 h) z).
  { intros z Iz Hz HSz. pose proof (h_log _ _ _ Hz) as HLz. rewrite <- HL, <- HLz.
    eapply wp_mono; [|apply wp_scan; [apply (h_own _ _ _ Hz)|done|intros h Hh'%elem_of_seqZ; lia|rewrite HLz, HSz; lia]].
    intros v w Iw (Hw & HSw & q & -> & Hq & HP). split_and!; [eapply held_trans; [done|by eapply held_trans]|congruence|].
    exists q. split_and!; try done; [lia|rewrite HLz; lia|]. intros h Hh'. destruct (decide (h = 0)) as [->|].
    - pose proof (held_heads _ _ _ 0 Hz). pose proof (held_heads _ _ _ 0 Hw). lia.
    - apply HP, elem_of_seqZ. lia. }
  unfold heads. destruct (Z.eqb_spec HEADS 1).
  - assert (Hn1 : seqZ 1 (1 - 1) = seqZ 1 (n - 1)) by (f_equal; lia). cbn [mbind prog_bind bind]. rewrite Hn1. apply Fin; [done|apply held_refl, (h_own _ _ _ Hh)|done].
  - apply wp_read; [done|]. intros z Iz Rz. destruct (rely_held _ _ _ Rz (h_own _ _ _ Hh)) as (Hz & HSz & _).
    cbn [exec snd]. rewrite (i_active _ Iz). destruct (Z.eqb_spec n 0); [lia|]. by apply Fin.
Qed.

(** *** Pushing *)

Lemma wp_commit {A} t c n0 es (f : unit -> prog A) Q x :
  gown x.2 = Some t -> gst x.2 t = Pending c n0 ->
  (forall q q', appended D n es q q' -> effect D n c n0 (RBool true) q q') ->
  size (gq x.2) + Z.of_nat (length es) - gSH x.2 <= D - 1 ->
  (forall i e, es !! i = Some e -> buf x.1 ((size (gq x.2) + Z.of_nat i) mod D) = e) ->
  (forall y, inv y -> gown y.2 = Some t -> sees t x y -> gst y.2 t = Finished c (RBool true) -> wp t (f tt) Q y) ->
  wp t (Vis (TailStore ((size (gq x.2) + Z.of_nat (length es)) mod D)) f) Q x.
Proof.
  intros E Hst Heff Hr HB W y Iy Ry. destruct (rely_held _ _ _ Ry E) as (Hh & HS & HBy). pose proof (h_log _ _ _ Hh) as HL.
  rewrite <- HL, <- HS in Hr. rewrite <- HL, <- HBy in HB. rewrite <- HL. set (q' := mkQueue (log (gq y.2) ++ es) (pos (gq y.2))).
  assert (Hsz : size q' = size (gq y.2) + Z.of_nat (length es)) by (cbn; rewrite length_app; lia). pose proof (i_room _ Iy).
  exists (y.2 <| gq := q' |> <| gst ::= <[t := Finished c (RBool true)]> |>). cbn [exec fst snd].
  assert (I' : inv (y.1 <| tail := (size (gq y.2) + Z.of_nat (length es)) mod D |>, y.2 <| gq := q' |> <| gst ::= <[t := Finished c (RBool true)]> |>)).
  { keep_inv Iy; [by rewrite length_app, Nat2Z.inj_add|rewrite length_app; lia| |].
    - intros h Hh'. destruct (i_heads _ Iy h Hh'). split; try done. cbn. rewrite length_app. lia.
    - rewrite length_app. intros i Hi. destruct (Z.lt_ge_cases i (size (gq y.2))).
      + rewrite lookup_app_l by lia. apply (i_buf _ Iy). lia.
      + rewrite lookup_app_r by lia. destruct (lookup_lt_is_Some_2 es (Z.to_nat i - length (log (gq y.2)))) as [e He]; [lia|].
        rewrite He. f_equal. rewrite <- (HB _ _ He). do 2 f_equal. lia. }
  split_and!; [done| |apply W; [done|apply (h_own _ _ _ Hh)| |apply fn_lookup_insert]].
  - apply guar_intro; cbn; try done; [intros u Hu; by rewrite fn_lookup_insert_ne|by apply prefix_app_r|left; apply (h_own _ _ _ Hh)|].
    right. exists c, n0, (RBool true). cbn. split_and!; [by rewrite (h_status _ _ _ Hh)| |done]. apply Heff. split; [done|].
    intros h Hh'. rewrite Hsz. pose proof (ho_order _ _ _ (i_heads _ Iy h Hh')). lia.
  - destruct (h_sees _ _ _ Hh) as [? ? ? HLs]. split; try done. cbn. by apply prefix_app_r.
Qed.

(** A push that has room for [es], with the lock. *)
Lemma wp_publish t c n0 es Q x :
  gown x.2 = Some t -> inv x -> gst x.2 t = Pending c n0 ->
  (forall q q', appended D n es q q' -> effect D n c n0 (RBool true) q q') ->
  size (gq x.2) + Z.of_nat (length es) - gSH x.2 <= D - 1 ->
  (forall y, inv y -> gown y.2 <> Some t -> sees t x y -> gst y.2 t = Finished c (RBool true) -> Q true y) ->
  wp t (write_slots D (size (gq x.2) mod D) es;; do (TailStore ((size (gq x.2) + Z.of_nat (length es)) mod D));; unlock true) Q x.
Proof.
  intros E I Hst Heff Hr HQ. apply wp_bind; [|done]. rewrite <- (Z.add_0_r (size (gq x.2))) at 1.
  eapply wp_mono; [|apply wp_slots; [done|done|done|lia]]. intros _ y Iy (Hh & HS & HB & _). pose proof (h_log _ _ _ Hh) as HL.
  rewrite <- HL. eapply wp_commit; [apply (h_own _ _ _ Hh)|by rewrite (h_status _ _ _ Hh)|done|rewrite HL, HS; lia| |].
  - intros i e He. rewrite HL, <- (HB _ _ He). do 2 f_equal. lia.
  - intros z Iz Ez Sz Fz. eapply wp_unlock; [done|]. intros w Iw Sw Fw Ew v Iv Rv. apply HQ; try done; [by apply (r_free _ _ _ Rv)| |].
    + eapply sees_trans; [apply (h_sees _ _ _ Hh)|]. eapply sees_trans; [done|]. eapply sees_trans; [done|]. by apply rely_sees.
    + by rewrite (r_status _ _ _ Rv), Fw.
Qed.

(** Giving up, with the lock. *)
Lemma wp_refuse t Q x :
  gown x.2 = Some t -> (forall y, inv y -> gown y.2 <> Some t -> sees t x y -> gst y.2 t = gst x.2 t -> Q false y) -> wp t (unlock false) Q x.
Proof.
  intros E HQ. apply wp_unlock; [done|]. intros w Iw Sw Fw Ew v Iv Rv. apply HQ; [done|by apply (r_free _ _ _ Rv)| |by rewrite (r_status _ _ _ Rv)].
  eapply sees_trans; [done|]. by apply rely_sees.
Qed.

(** The test for room, on the head the producers know and then on the heads. *)
Lemma wp_check t L (full : Z -> bool) x :
  gown x.2 = Some t -> inv x ->
  (forall q, gSH x.2 <= q <= size (gq x.2) -> full (q mod D) = (D - 1 <? size (gq x.2) + L - q)) ->
  wp t (if full (gSH x.2 mod D) then c ← slowest_head D HEADS (size (gq x.2) mod D); do (ShadowHeadSet c);; Ret (full c) else Ret false)
    (fun b y => held t x y /\ (b = false -> size (gq y.2) + L - gSH y.2 <= D - 1)) x.
Proof.
  intros E I Hfull. pose proof (i_room _ I). destruct (full _) eqn:F.
  - apply wp_bind; [|done]. eapply wp_mono; [|by apply wp_slowest]. intros v y Iy (Hh & HS & q & -> & Hq & HP). pose proof (h_log _ _ _ Hh) as HL.
    apply wp_shadow; [apply (h_own _ _ _ Hh)|rewrite HL, HS; lia|done|]. intros z Iz Hz HSz w Iw Rw.
    destruct (rely_held _ _ _ Rw (h_own _ _ _ Hz)) as (Hw & HSw & _). pose proof (h_log _ _ _ Hz) as HLz. pose proof (h_log _ _ _ Hw) as HLw.
    split; [by eapply held_trans; [|eapply held_trans]|]. rewrite (Hfull q Hq), HSw, HSz, HLw, HLz, HL. lia.
  - intros y Iy Ry. destruct (rely_held _ _ _ Ry E) as (Hh & HS & _). split; [done|]. intros _. rewrite (h_log _ _ _ Hh), HS.
    rewrite Hfull in F by lia. lia.
Qed.

(** What a push of the pending call [c] has done when it answers [b]. *)
Definition push_post (t : Z) (c : call) (x : state) (b : bool) (y : state) : Prop :=
  gown y.2 <> Some t /\ sees t x y /\ gst y.2 t = if b then Finished c (RBool true) else gst x.2 t.

Lemma push_post_sees t c x x' b y : sees t x x' -> gst x'.2 t = gst x.2 t -> push_post t c x' b y -> push_post t c x b y.
Proof. intros S E (? & ? & F). split_and!; [done|by eapply sees_trans|]. by rewrite F, E. Qed.

(** Taking the lock and reading the tail. *)
Lemma wp_critical t c x (p : Z -> prog bool) :
  gown x.2 <> Some t -> (forall y, inv y -> gown y.2 = Some t -> gst y.2 t = gst x.2 t -> wp t (p (size (gq y.2) mod D)) (push_post t c y) y) ->
  wp t (ok ← do LockCas; if negb ok then Ret false else l ← do TailLoad; p l) (push_post t c x) x.
Proof.
  intros E W. apply wp_lock; [done|]. intros [] y Iy Sy Fy Ey; cbn [negb].
  - apply wp_read; [done|]. intros z Iz Rz. destruct (rely_held _ _ _ Rz (proj2 Ey eq_refl)) as (Hh & _ & _). cbn [exec snd]. rewrite (i_tail _ Iz).
    eapply wp_mono; [|apply W; [done|apply (h_own _ _ _ Hh)|]].
    + intros b w Iw. apply push_post_sees; [eapply sees_trans; [done|apply (h_sees _ _ _ Hh)]|by rewrite (h_status _ _ _ Hh)].
    + by rewrite (h_status _ _ _ Hh).
  - intros z Iz Rz. split_and!; [apply (r_free _ _ _ Rz); intros A; by apply Ey in A|eapply sees_trans; [done|by apply rely_sees]|].
    by rewrite (r_status _ _ _ Rz), Fy.
Qed.

Section Push.

Context (t : Z) (c : call) (n0 : Z) (es : list GFIFOEntry).
Hypothesis Heff : forall q q', appended D n es q q' -> effect D n c n0 (RBool true) q q'.

Notation L := (Z.of_nat (length es)).

(** With the answer to the test for room. *)
Lemma wp_decide (b : bool) (rest : prog bool) x y :
  held t x y -> inv y -> gst x.2 t = Pending c n0 -> (b = false -> size (gq y.2) + L - gSH y.2 <= D - 1) ->
  rest = (write_slots D (size (gq y.2) mod D) es;; do (TailStore ((size (gq y.2) + L) mod D));; unlock true) ->
  wp t (if b then unlock false else rest) (push_post t c x) y.
Proof.
  intros Hh Iy Hst Hr ->. destruct Hh as [Ey Sy Fy _]. destruct b.
  - apply wp_refuse; [done|]. intros z Iz Ez Sz Fz. split_and!; [done|by eapply sees_trans|]. by rewrite Fz.
  - eapply wp_publish; [done|done|by rewrite Fy|done|by apply Hr|]. intros z Iz Ez Sz Fz. split_and!; [done|by eapply sees_trans|done].
Qed.

Lemma wp_room (full : Z -> bool) (rest : prog bool) x :
  gown x.2 = Some t -> gst x.2 t = Pending c n0 ->
  (forall q, gSH x.2 <= q <= size (gq x.2) -> size (gq x.2) - q <= D - 1 -> full (q mod D) = (D - 1 <? size (gq x.2) + L - q)) ->
  rest = (write_slots D (size (gq x.2) mod D) es;; do (TailStore ((size (gq x.2) + L) mod D));; unlock true) ->
  wp t (h ← do ShadowHeadGet;
        b ← (if full h then h ← slowest_head D HEADS (size (gq x.2) mod D); do (ShadowHeadSet h);; Ret (full h) else Ret false);
        if b : bool then unlock false else rest) (push_post t c x) x.
Proof.
  intros E Hst Hfull Hrest. apply wp_read; [done|]. intros y Iy Ry. destruct (rely_held _ _ _ Ry E) as (Hh & HS & _). pose proof (h_log _ _ _ Hh) as HL.
  cbn [exec snd]. rewrite (i_shadow _ Iy), <- HL. rewrite <- HL in Hfull, Hrest. rewrite <- HS in Hfull. pose proof (i_room _ Iy).
  apply wp_bind; [|done]. eapply wp_mono; [|apply (wp_check t L); [apply (h_own _ _ _ Hh)|done|intros; apply Hfull; lia]].
  intros b z Iz (Hz & Hr). pose proof (h_log _ _ _ Hz) as HLz. apply wp_decide; [by eapply held_trans|done|done|done|]. by rewrite HLz.
Qed.

(** One attempt of each kind. *)
Lemma wp_try_batch x : gown x.2 <> Some t -> gst x.2 t = Pending c n0 -> wp t (try_batch D HEADS es) (push_post t c x) x.
Proof.
  intros E Hst. apply wp_critical; [done|]. intros y Iy Ey Fy. apply wp_bind; [|done]. eapply wp_mono; [|by apply wp_slowest].
  intros v z Iz (Hh & HS & q & -> & Hq & HP). pose proof (h_log _ _ _ Hh) as HL.
  apply wp_shadow; [apply (h_own _ _ _ Hh)|rewrite HL, HS; lia|done|]. intros w Iw Hw HSw. pose proof (h_log _ _ _ Hw) as HLw.
  pose proof (i_room _ Iw). rewrite HSw, HLw, HL in *. unfold MASK. rewrite !masked_mod, ring_sub, ring_add by lia.
  apply wp_decide; [by eapply held_trans|done|by rewrite Fy|rewrite HSw, HLw; lia|by rewrite HLw].
Qed.

Lemma wp_try_push_slice x : es <> [] -> gown x.2 <> Some t -> gst x.2 t = Pending c n0 -> wp t (try_push_slice D HEADS es) (push_post t c x) x.
Proof.
  intros Hes E Hst. unfold try_push_slice. destruct (Z.eqb_spec L 0); [by destruct es|].
  apply wp_critical; [done|]. intros y Iy Ey Fy. apply (wp_room (fun h => room D h (size (gq y.2) mod D) <? L)); [done|by rewrite Fy| |].
  - intros q Hq Hr. unfold room. rewrite masked_mod, <- Zminus_mod_idemp_l, <- Zminus_mod, Zminus_mod_idemp_l.
    replace ((q - size (gq y.2) - 1) mod D) with (q - size (gq y.2) - 1 + D); [lia|].
    apply (Z.mod_unique _ _ (-1)); lia.
  - do 3 f_equal. unfold MASK. rewrite Z.sub_1_r, <- Z.ones_equiv, Z.land_ones by lia. by rewrite ring_add.
Qed.

End Push.

Lemma wp_try_push t c n0 e x :
  (forall q q', appended D n [e] q q' -> effect D n c n0 (RBool true) q q') ->
  gown x.2 <> Some t -> gst x.2 t = Pending c n0 -> wp t (try_push D HEADS e) (push_post t c x) x.
Proof.
  intros Heff E Hst. apply wp_critical; [done|]. intros y Iy Ey Fy.
  apply (wp_room t c n0 [e] Heff (fun h => masked D (size (gq y.2) mod D + 1) =? h)); [done|by rewrite Fy| |by rewrite masked_mod, ring_add].
  intros q Hq Hr. rewrite masked_mod, ring_add, Z.eqb_sym. cbn [length]. destruct (Z.eq_dec (size (gq y.2) + 1 - q) D).
  - rewrite (ring_lap D q (size (gq y.2) + 1)) by lia. rewrite Z.eqb_refl. symmetry. apply Z.ltb_lt. lia.
  - rewrite ring_eqb by lia. destruct (Z.eqb_spec q (size (gq y.2) + 1)), (Z.ltb_spec (D - 1) (size (gq y.2) + Z.of_nat 1 - q)); lia || done.
Qed.

Lemma wp_try_push2 t c n0 e0 e1 x :
  (forall q q', appended D n [e0; e1] q q' -> effect D n c n0 (RBool true) q q') ->
  gown x.2 <> Some t -> gst x.2 t = Pending c n0 -> wp t (try_push2 D HEADS e0 e1) (push_post t c x) x.
Proof.
  intros Heff E Hst. apply wp_critical; [done|]. intros y Iy Ey Fy.
  apply (wp_room t c n0 [e0; e1] Heff (fun h => (masked D (size (gq y.2) mod D + 1) =? h) || (masked D (size (gq y.2) mod D + 2) =? h)));
    [done|by rewrite Fy| |by cbn [write_slots]; rewrite !masked_mod, !ring_add].
  intros q Hq Hr. rewrite !masked_mod, !ring_add, !(Z.eqb_sym _ (q mod D)). cbn [length]. destruct (Z.eq_dec (size (gq y.2) + 1 - q) D).
  - rewrite (ring_lap D q (size (gq y.2) + 1)) by lia. rewrite Z.eqb_refl. symmetry. apply Z.ltb_lt. lia.
  - rewrite ring_eqb by lia. destruct (Z.eq_dec (size (gq y.2) + 2 - q) D).
    + rewrite (ring_lap D q (size (gq y.2) + 2)), Z.eqb_refl by lia. rewrite orb_true_r. symmetry. apply Z.ltb_lt. lia.
    + rewrite ring_eqb by lia. destruct (Z.eqb_spec q (size (gq y.2) + 1)), (Z.eqb_spec q (size (gq y.2) + 2)), (Z.ltb_spec (D - 1) (size (gq y.2) + Z.of_nat 2 - q)); lia || done.
Qed.

(** Spinning: attempts until one succeeds. *)
Lemma wp_until t c n0 (p : prog bool) fuel :
  (forall x, inv x -> gown x.2 <> Some t -> gst x.2 t = Pending c n0 -> wp t p (push_post t c x) x) ->
  forall x, inv x -> gown x.2 <> Some t -> gst x.2 t = Pending c n0 -> wp t (until fuel p) (push_post t c x) x.
Proof.
  intros W. induction fuel as [|fuel IH]; intros x I E Hst; cbn [until]; (apply wp_bind; [|done]);
    (eapply wp_mono; [|by apply W]); intros b y Iy (Ey & Sy & Fy).
  all: assert (Done : forall d : bool, d = b -> wp t (Ret d) (push_post t c x) y)
    by (intros d -> z Iz Rz; split_and!; [by apply (r_free _ _ _ Rz)|eapply sees_trans; [done|by apply rely_sees]|by rewrite (r_status _ _ _ Rz)]).
  - destruct b; by apply Done.
  - destruct b; [by apply Done|]. eapply wp_mono; [|apply IH; [done|done|by rewrite Fy]]. intros b z Iz. by apply push_post_sees.
Qed.

(** *** Reading only *)

Fixpoint reads {A} (V : A -> Prop) (p : prog A) : Prop :=
  match p with Ret a => V a | Vis a f => (forall s, (exec a s).1 = s) /\ forall v, reads V (f v) end.

Lemma wp_reads {A} t V (p : prog A) x : reads V p -> wp t p (fun a y => V a /\ rely t x y) x.
Proof.
  revert x. induction p as [a|X a f IH]; cbn [reads]; intros x Hp; [by intros y Iy Ry|]. destruct Hp as [Ha Hf].
  apply wp_read; [done|]. intros y Iy Ry. eapply wp_mono; [|by apply IH]. intros v z Iz [Hv Rz]. split; [done|]. by eapply rely_trans.
Qed.

Lemma reads_bind {A B} U V (p : prog A) (f : A -> prog B) : reads U p -> (forall a, U a -> reads V (f a)) -> reads V (bind p f).
Proof. intros Hp Hf. induction p as [a|X a g IH]; cbn in *; [by apply Hf|]. destruct Hp. split; auto. Qed.

Lemma reads_scan l slow hs : reads (fun _ => True) (scan_heads D l slow hs).
Proof. revert slow. induction hs; cbn; auto. Qed.

Lemma reads_heads : reads (fun _ => True) (heads HEADS).
Proof. unfold heads. by destruct (_ =? _). Qed.

Lemma reads_len : reads (fun v => 0 <= v < D) (len D HEADS).
Proof.
  split; [done|]. intros l. apply (reads_bind (fun _ => True) _ (slowest_head D HEADS l)).
  - split; [done|]. intros slow. apply (reads_bind (fun _ => True) _ (heads HEADS)); [apply reads_heads|]. intros; apply reads_scan.
  - intros h _. cbn. rewrite masked_mod. apply Z.mod_pos_bound, D_pos.
Qed.

(** *** Consuming *)

(** A consumer's view across its own steps that leave its position alone. *)
Record mine (t h : Z) (x y : state) : Prop := mkMine {
  m_free : gown x.2 <> Some t -> gown y.2 <> Some t;
  m_status : gst y.2 t = gst x.2 t;
  m_P : gP y.2 h = gP x.2 h;
  m_pos : pos (gq y.2) h = pos (gq x.2) h;
  m_log : log (gq x.2) `prefix_of` log (gq y.2);
}.

Lemma mine_trans t h x y z : mine t h x y -> mine t h y z -> mine t h x z.
Proof. intros [] []. split; [auto|congruence|congruence|congruence|by etrans]. Qed.

Lemma mine_size t h x y : mine t h x y -> size (gq x.2) <= size (gq y.2).
Proof. intros M%m_log%prefix_length. lia. Qed.

Section Consumer.

Context (t h : Z) (Hrole : role t = Some h).

Lemma role_head : 0 <= h < n.
Proof. by apply (proj1 Hroles t). Qed.

Lemma rely_mine x y : rely t x y -> mine t h x y /\ gS y.2 h = gS x.2 h.
Proof. intros R. destruct (r_mine _ _ _ R h Hrole) as (? & ? & ?). split; [|done]. split; try done; [apply (r_free _ _ _ R)|apply (r_status _ _ _ R)|apply (r_log _ _ _ R)]. Qed.

(** Where the consumer stands. *)
Lemma span x : inv x -> gP x.2 h <= pos (gq x.2) h <= gS x.2 h /\ gS x.2 h <= size (gq x.2) /\ size (gq x.2) - gP x.2 h <= D - 1 /\ 0 <= gP x.2 h.
Proof. intros I. pose proof (ho_order _ _ _ (i_heads _ I h role_head)). pose proof (i_room _ I). lia. Qed.

Lemma at_head x : inv x -> local_head x.1 h = pos (gq x.2) h mod D /\ shadow_tail x.1 h = gS x.2 h mod D /\ head x.1 h = gP x.2 h mod D.
Proof. intros I. by destruct (i_heads _ I h role_head). Qed.

Lemma slot_at x i : inv x -> gP x.2 h <= i < size (gq x.2) -> log (gq x.2) !! Z.to_nat i = Some (buf x.1 (i mod D)).
Proof. intros I Hi. apply (i_buf _ I). pose proof (ho_order _ _ _ (i_heads _ I h role_head)). lia. Qed.

(** The other heads do not notice. *)
Lemma inv_head s s' g g' :
  inv (s, g) -> lock s' = lock s -> active s' = active s -> tail s' = tail s -> shadow_head s' = shadow_head s -> buf s' = buf s ->
  gown g' = gown g -> gSH g' = gSH g -> log (gq g') = log (gq g) -> head_ok s' g' h ->
  (forall j, j <> h -> head s' j = head s j /\ local_head s' j = local_head s j /\ shadow_tail s' j = shadow_tail s j /\
    gP g' j = gP g j /\ gS g' j = gS g j /\ pos (gq g') j = pos (gq g) j) -> inv (s', g').
Proof.
  intros I E1 E2 E3 E4 E5 E6 E7 E8 Hh Hj. destruct I; cbn in *. split; cbn; rewrite ?E1, ?E2, ?E3, ?E4, ?E5, ?E6, ?E7, ?E8; try done.
  intros j Hj'. destruct (decide (j = h)) as [->|Hne]; [done|]. destruct (Hj j Hne) as (A1 & A2 & A3 & A4 & A5 & A6). destruct (i_heads0 j Hj').
  by split; rewrite ?A1, ?A2, ?A3, ?A4, ?A5, ?A6, ?E7, ?E8.
Qed.

Lemma guar_head s s' g g' :
  buf s' = buf s -> gown g' = gown g -> gSH g' = gSH g -> log (gq g') = log (gq g) ->
  (forall u, u <> t -> gst g' u = gst g u) ->
  (forall j, j <> h -> gP g' j = gP g j /\ gS g' j = gS g j /\ pos (gq g') j = pos (gq g) j) ->
  gP g h <= gP g' h -> pos (gq g) h <= pos (gq g') h -> evolves t g g' -> guar t (s, g) (s', g').
Proof.
  intros E1 E2 E3 E4 Est Hj HP Hpos Hev. apply guar_intro; cbn; rewrite ?E1, ?E2, ?E3, ?E4; try done; auto.
  - intros j Hne. apply Hj. congruence.
  - intros j. destruct (decide (j = h)) as [->|Hne]; [done|]. by destruct (Hj j Hne) as (-> & _ & _).
  - intros j. destruct (decide (j = h)) as [->|Hne]; [done|]. by destruct (Hj j Hne) as (_ & _ & ->).
Qed.

Lemma wp_shadow_tail {A} v (f : unit -> prog A) Q x :
  pos (gq x.2) h <= v <= size (gq x.2) ->
  (forall y, inv y -> mine t h x y -> gS y.2 h = v -> wp t (f tt) Q y) -> wp t (Vis (ShadowTailSet h (v mod D)) f) Q x.
Proof.
  intros Hv W y Iy Ry. destruct (rely_mine x y Ry) as [M _]. cbn [exec fst snd]. exists (y.2 <| gS ::= <[h := v]> |>).
  pose proof (mine_size _ _ _ _ M). rewrite <- (m_pos _ _ _ _ M) in Hv.
  assert (I' : inv (y.1 <| shadow_tail ::= <[h := v mod D]> |>, y.2 <| gS ::= <[h := v]> |>)).
  { destruct y as [s g]. apply (inv_head s _ g); try done; cbn.
    - pose proof (i_heads _ Iy h role_head) as Hok. destruct Hok. split; cbn in *; rewrite ?fn_lookup_insert; try done. lia.
    - intros j Hj. by rewrite !fn_lookup_insert_ne by done. }
  split_and!; [done| |apply W; [done| |apply fn_lookup_insert]].
  - destruct y as [s g]. apply guar_head; try done; cbn; [|by left]. intros j Hj. by rewrite fn_lookup_insert_ne.
  - by destruct M.
Qed.

(** Publishing the head. *)
Lemma wp_head {A} (f : unit -> prog A) Q x :
  (forall y, inv y -> (gown x.2 <> Some t -> gown y.2 <> Some t) -> gst y.2 t = gst x.2 t -> pos (gq y.2) h = pos (gq x.2) h -> gP y.2 h = pos (gq y.2) h ->
    gS y.2 h = gS x.2 h -> log (gq x.2) `prefix_of` log (gq y.2) -> wp t (f tt) Q y) ->
  wp t (Vis (HeadStore h (pos (gq x.2) h mod D)) f) Q x.
Proof.
  intros W y Iy Ry. destruct (rely_mine x y Ry) as [M MS]. cbn [exec fst snd]. rewrite <- (m_pos _ _ _ _ M). set (v := pos (gq y.2) h).
  exists (y.2 <| gP ::= <[h := v]> |>). pose proof (span y Iy) as Hs.
  assert (I' : inv (y.1 <| head ::= <[h := v mod D]> |>, y.2 <| gP ::= <[h := v]> |>)).
  { destruct y as [s g]. apply (inv_head s _ g); try done; cbn.
    - pose proof (i_heads _ Iy h role_head) as Hok. destruct Hok. split; cbn in *; rewrite ?fn_lookup_insert; try done. subst v. lia.
    - intros j Hj. by rewrite !fn_lookup_insert_ne by done. }
  split_and!; [done| |apply W; try done; cbn; [apply (m_free _ _ _ _ M)|apply (m_status _ _ _ _ M)|apply (m_pos _ _ _ _ M)|apply fn_lookup_insert|apply (m_log _ _ _ _ M)]].
  destruct y as [s g]. apply guar_head; try done; cbn; [intros j Hj; by rewrite fn_lookup_insert_ne|rewrite fn_lookup_insert; cbn in *; lia|by left].
Qed.

(** Moving on to [v], which takes the call's effect. *)
Lemma wp_advance {A} v c n0 r (f : unit -> prog A) Q x :
  pos (gq x.2) h <= v <= gS x.2 h -> gst x.2 t = Pending c n0 ->
  (forall q, log (gq x.2) `prefix_of` log q -> pos q h = pos (gq x.2) h -> effect D n c n0 r q (mkQueue (log q) (<[h := v]> (pos q)))) ->
  (forall y, inv y -> (gown x.2 <> Some t -> gown y.2 <> Some t) -> gst y.2 t = Finished c r -> pos (gq y.2) h = v -> gP y.2 h = gP x.2 h ->
    gS y.2 h = gS x.2 h -> log (gq x.2) `prefix_of` log (gq y.2) -> wp t (f tt) Q y) ->
  wp t (Vis (LocalHeadSet h (v mod D)) f) Q x.
Proof.
  intros Hv Hst Heff W y Iy Ry. destruct (rely_mine x y Ry) as [M MS]. cbn [exec fst snd]. rewrite <- (m_pos _ _ _ _ M), <- MS in Hv.
  set (q' := mkQueue (log (gq y.2)) (<[h := v]> (pos (gq y.2)))). exists (y.2 <| gq := q' |> <| gst ::= <[t := Finished c r]> |>).
  assert (I' : inv (y.1 <| local_head ::= <[h := v mod D]> |>, y.2 <| gq := q' |> <| gst ::= <[t := Finished c r]> |>)).
  { destruct y as [s g]. apply (inv_head s _ g); try done; cbn.
    - pose proof (i_heads _ Iy h role_head) as Hok. destruct Hok. split; cbn in *; rewrite ?fn_lookup_insert; try done. lia.
    - intros j Hj. by rewrite !fn_lookup_insert_ne by done. }
  split_and!; [done| |apply W; try done; cbn; [apply (m_free _ _ _ _ M)|apply fn_lookup_insert|apply fn_lookup_insert|apply (m_P _ _ _ _ M)|apply (m_log _ _ _ _ M)]].
  destruct y as [s g]. apply guar_head; try done; cbn in *.
  - intros u Hu. by rewrite fn_lookup_insert_ne.
  - intros j Hj. by rewrite !fn_lookup_insert_ne.
  - rewrite fn_lookup_insert. lia.
  - right. exists c, n0, r. cbn. split_and!; [by rewrite <- Hst, <- (m_status _ _ _ _ M)| |done]. apply Heff; [apply (m_log _ _ _ _ M)|apply (m_pos _ _ _ _ M)].
Qed.

End Consumer.

(** Nothing is owed to the other threads: everything consumed is published
    whenever the consumer has caught up. *)
Definition quiet (h : Z) (x : state) : Prop := pos (gq x.2) h < size (gq x.2) \/ gP x.2 h = pos (gq x.2) h.

Section ConsumerOps.

Context (t h : Z) (Hrole : role t = Some h).

Definition peek_post (n0 : Z) (x : state) (r : option GFIFOEntry) (y : state) : Prop :=
  gown y.2 <> Some t /\ gP y.2 h = gP x.2 h /\ pos (gq y.2) h = pos (gq x.2) h /\ log (gq x.2) `prefix_of` log (gq y.2) /\
  match r with
  | Some e => gst y.2 t = Pending (Peek h) n0 /\ log (gq y.2) !! Z.to_nat (pos (gq y.2) h) = Some e /\ pos (gq y.2) h < gS y.2 h
  | None => gst y.2 t = Finished (Peek h) (RSlot None)
  end.

(** The entry under the head. *)
Lemma wp_entry n0 x y :
  inv y -> gown y.2 <> Some t -> mine t h x y -> gst y.2 t = Pending (Peek h) n0 -> pos (gq y.2) h < gS y.2 h ->
  wp t (e ← read_slot (pos (gq x.2) h mod D); Ret (Some e)) (peek_post n0 x) y.
Proof.
  intros Iy Ey M Hst Hlt. rewrite <- (m_pos _ _ _ _ M).
  apply wp_read; [done|]. intros z Iz Rz. destruct (rely_mine t h Hrole y z Rz) as [Mz Sz].
  apply wp_read; [done|]. intros w Iw Rw. destruct (rely_mine t h Hrole z w Rw) as [Mw Sw].
  pose proof (span t h Hrole y Iy). pose proof (span t h Hrole z Iz). pose proof (span t h Hrole w Iw).
  pose proof (m_pos _ _ _ _ Mz) as Pz. pose proof (m_pos _ _ _ _ Mw) as Pw. rewrite Pz in Pw.
  pose proof (slot_at t h Hrole z (pos (gq y.2) h) Iz ltac:(rewrite <- Sz in *; lia)) as Az.
  pose proof (slot_at t h Hrole w (pos (gq y.2) h) Iw ltac:(rewrite Sw, <- Sz in *; lia)) as Aw.
  pose proof (prefix_lookup_Some _ _ _ _ Az (m_log _ _ _ _ Mw)) as Az'.
  intros v Iv Rv. destruct (rely_mine t h Hrole w v Rv) as [Mv Sv]. cbn [exec snd] in *.
  assert (Mxv : mine t h x v) by (eapply mine_trans; [done|]; eapply mine_trans; [done|]; by eapply mine_trans).
  split_and!; [apply (r_free _ _ _ Rv), (r_free _ _ _ Rw), (r_free _ _ _ Rz), Ey|apply (m_P _ _ _ _ Mxv)|apply (m_pos _ _ _ _ Mxv)|apply (m_log _ _ _ _ Mxv)| | |].
  - by rewrite (m_status _ _ _ _ Mv), (m_status _ _ _ _ Mw), (m_status _ _ _ _ Mz).
  - rewrite (m_pos _ _ _ _ Mv), Pw. eapply prefix_lookup_Some; [|apply (m_log _ _ _ _ Mv)].
    assert (Eb : buf w.1 (pos (gq y.2) h mod D) = buf z.1 (pos (gq y.2) h mod D)) by congruence. rewrite Eb, Az'. f_equal. by destruct (buf z.1 _).
  - rewrite (m_pos _ _ _ _ Mv), Pw, Sv, Sw, Sz. done.
Qed.

Lemma wp_peek n0 x : inv x -> gown x.2 <> Some t -> gst x.2 t = Pending (Peek h) n0 -> wp t (peek_at h) (peek_post n0 x) x.
Proof.
  intros I E Hst. apply wp_read; [done|]. intros y Iy Ry. destruct (rely_mine t h Hrole x y Ry) as [My Sy].
  apply wp_read; [done|]. intros z Iz Rz. destruct (rely_mine t h Hrole y z Rz) as [Mz Sz]. cbn [exec snd].
  destruct (at_head t h Hrole y Iy) as (-> & _ & _). destruct (at_head t h Hrole z Iz) as (_ & -> & _).
  assert (Mxz : mine t h x z) by (by eapply mine_trans). pose proof (span t h Hrole z Iz) as Hz. pose proof (m_pos _ _ _ _ Mz) as Pz.
  rewrite <- Pz, ring_eqb by lia. destruct (Z.eqb_spec (pos (gq z.2) h) (gS z.2 h)) as [Eq|Ne].
  2:{ cbn. rewrite (m_pos _ _ _ _ Mxz). apply wp_entry; try done; [by apply (m_free _ _ _ _ Mxz)|by rewrite (m_status _ _ _ _ Mxz)|lia]. }
  intros w Iw Rw. destruct (rely_mine t h Hrole z w Rw) as [Mw Sw]. cbn [exec fst snd]. rewrite (i_tail _ Iw).
  pose proof (span t h Hrole w Iw) as Hw. pose proof (m_pos _ _ _ _ Mw) as Pw.
  assert (Mxw : mine t h x w) by (by eapply mine_trans). destruct (Z.eq_dec (pos (gq w.2) h) (size (gq w.2))) as [Eq'|Ne'].
  - exists (w.2 <| gst ::= <[t := Finished (Peek h) (RSlot None)]> |>). split_and!; [by keep_inv Iw| |].
    { apply guar_intro; cbn; try done; [intros; by rewrite fn_lookup_insert_ne|by right|]. right. exists (Peek h), n0, (RSlot None). cbn.
      split_and!; [by rewrite (m_status _ _ _ _ Mxw)|done|done|done]. }
    apply (wp_shadow_tail t h Hrole); [cbn; lia|]. intros v Iv Mv Sv. rewrite <- Eq', Pw, Z.eqb_refl. intros u Iu Ru.
    destruct (rely_mine t h Hrole v u Ru) as [Mu _]. destruct Mv as [F1 F2 F3 F4 F5], Mu as [G1 G2 G3 G4 G5], Mxw as [H1 H2 H3 H4 H5]. cbn in *.
    split_and!; [auto|congruence|congruence|by do 2 (etrans; [done|])|rewrite G2, F2; apply fn_lookup_insert].
  - exists w.2. split_and!; [by destruct w|destruct w; split; [intros; apply rely_refl|by left]|].
    apply (wp_shadow_tail t h Hrole); [cbn; lia|]. intros v Iv Mv Sv. cbn in Sv. rewrite <- Pw, ring_eqb by lia. destruct (Z.eqb_spec (pos (gq w.2) h) (size (gq w.2))) as [|_]; [done|].
    assert (Mxv : mine t h x v) by (eapply mine_trans; [done|]; destruct Mv; by split). rewrite Pw, (m_pos _ _ _ _ Mxz).
    apply wp_entry; try done; [by apply (m_free _ _ _ _ Mxv)|by rewrite (m_status _ _ _ _ Mxv)|rewrite Sv, (m_pos _ _ _ _ Mv); cbn; lia].
Qed.

Lemma wp_consume n0 x :
  inv x -> gown x.2 <> Some t -> gst x.2 t = Pending (Consume h) n0 -> pos (gq x.2) h < gS x.2 h ->
  wp t (consume_at D h) (fun _ y => gown y.2 <> Some t /\ gst y.2 t = Finished (Consume h) RUnit /\ quiet h y) x.
Proof.
  intros I E Hst Hlt. apply wp_read; [done|]. intros y Iy Ry. destruct (rely_mine t h Hrole x y Ry) as [My Sy]. cbn [exec snd].
  destruct (at_head t h Hrole y Iy) as (-> & _ & _). rewrite masked_mod, ring_add. pose proof (span t h Hrole y Iy). pose proof (m_pos _ _ _ _ My) as Py.
  eapply (wp_advance t h Hrole _ (Consume h) n0 RUnit); [lia|by rewrite (m_status _ _ _ _ My)| |].
  { intros q Hq Ep. cbn [effect]. rewrite Ep. split; [done|]. apply prefix_length in Hq. lia. }
  intros z Iz Ez Fz Pz HPz Sz Lz. apply wp_read; [done|]. intros w Iw Rw. destruct (rely_mine t h Hrole z w Rw) as [Mw Sw]. cbn [exec snd].
  rewrite (i_tail _ Iw). pose proof (span t h Hrole w Iw). pose proof (m_pos _ _ _ _ Mw) as Pw. rewrite <- Pz, <- Pw, ring_eqb by lia.
  assert (Ew : gown w.2 <> Some t) by (by apply (m_free _ _ _ _ Mw), Ez, (m_free _ _ _ _ My)). pose proof (m_status _ _ _ _ Mw) as Fw. rewrite Fz in Fw.
  destruct (_ || _) eqn:B.
  - apply (wp_head t h Hrole). intros v Iv Ev Fv Pv HPv Sv Lv u Iu Ru. destruct (rely_mine t h Hrole v u Ru) as [[] _]. split_and!; [auto|congruence|]. right. congruence.
  - intros u Iu Ru. destruct (rely_mine t h Hrole w u Ru) as [Mu _]. split_and!; [by apply (m_free _ _ _ _ Mu)|by rewrite (m_status _ _ _ _ Mu)|]. left.
    apply orb_false_iff in B as [_ B]. rewrite (m_pos _ _ _ _ Mu). pose proof (mine_size _ _ _ _ Mu). lia.
Qed.

Lemma wp_flush x : inv x -> gown x.2 <> Some t ->
  wp t (flush_head_at h) (fun _ y => gown y.2 <> Some t /\ gst y.2 t = gst x.2 t /\ quiet h y /\ pos (gq y.2) h = pos (gq x.2) h /\ gS y.2 h = gS x.2 h) x.
Proof.
  intros I E. apply wp_read; [done|]. intros y Iy Ry. destruct (rely_mine t h Hrole x y Ry) as [My Sy]. cbn [exec snd].
  destruct (at_head t h Hrole y Iy) as (-> & _ & _). apply (wp_head t h Hrole). intros v Iv Ev Fv Pv HPv Sv Lv u Iu Ru.
  destruct (rely_mine t h Hrole v u Ru) as [[] Su]. destruct My. split_and!; [auto|congruence| |congruence|congruence]. right. congruence.
Qed.

End ConsumerOps.

Lemma prefix_window {A} (l l' : list A) p m : l `prefix_of` l' -> (p + m <= length l)%nat -> take m (drop p l') = take m (drop p l).
Proof. intros [r ->] H. rewrite drop_app_le, take_app_le by (rewrite ?length_drop; lia). done. Qed.

Section Drain.

Context (t h : Z) (Hrole : role t = Some h).

(** The tail is seen past position [p], or the queue ended there. *)
Lemma wp_await fuel p : forall l x,
  inv x -> pos (gq x.2) h < p <= l -> l <= size (gq x.2) ->
  wp t (await_tail fuel (p mod D) (l mod D)) (fun r y => rely t x y /\
    match r with Some v => exists l', v = l' mod D /\ p < l' <= size (gq y.2) | None => size (gq x.2) <= p end) x.
Proof.
  assert (Stop : forall x l, inv x -> pos (gq x.2) h < p < l -> l <= size (gq x.2) ->
    wp t (Ret (Some (l mod D))) (fun r y => rely t x y /\ match r with Some v => exists l', v = l' mod D /\ p < l' <= size (gq y.2) | None => size (gq x.2) <= p end) x).
  { intros x l I Hp Hl y Iy Ry. split; [done|]. exists l. split; [done|]. pose proof (sees_size _ _ _ (rely_sees _ _ _ Ry)). lia. }
  induction fuel as [|fuel IH]; intros l x I Hp Hl; pose proof (span t h Hrole x I); cbn [await_tail]; rewrite ring_eqb by lia;
    (destruct (Z.eqb_spec p l) as [<-|Ne]; [|apply Stop; lia || done]).
  all: apply wp_read; [done|]; intros y Iy Ry; destruct (rely_mine t h Hrole x y Ry) as [My _]; pose proof (mine_size _ _ _ _ My);
    cbn [exec snd]; rewrite (i_tail _ Iy); pose proof (span t h Hrole y Iy); pose proof (m_pos _ _ _ _ My) as Py; rewrite ring_eqb by lia.
  all: destruct (Z.eqb_spec p (size (gq y.2))) as [Ep|Ne].
  - intros z Iz Rz. split; [by eapply rely_trans|]. lia.
  - eapply wp_mono; [|apply Stop; lia || done]. intros r z Iz [Rz Hr]. split; [by eapply rely_trans|]. destruct r; [done|lia].
  - rewrite <- Ep. eapply wp_mono; [|apply (IH p y); lia || done]. intros r z Iz [Rz Hr]. split; [by eapply rely_trans|]. destruct r; [done|lia].
  - eapply wp_mono; [|apply Stop; lia || done]. intros r z Iz [Rz Hr]. split; [by eapply rely_trans|]. destruct r; [done|lia].
Qed.

Lemma wp_drain_loop fuel m : forall p l x,
  inv x -> pos (gq x.2) h < p <= l -> l <= size (gq x.2) ->
  wp t (drain_loop D fuel m (p mod D) (l mod D)) (fun r y => rely t x y /\
    match r with
    | Some (vs, hd, v) => exists l', hd = (p + Z.of_nat m) mod D /\ v = l' mod D /\ p + Z.of_nat m <= l' <= size (gq y.2) /\
        vs = map val (take m (drop (Z.to_nat p) (log (gq y.2))))
    | None => size (gq x.2) < p + Z.of_nat m
    end) x.
Proof.
  induction m as [|m IH]; intros p l x I Hp Hl; cbn [drain_loop].
  { intros y Iy Ry. split; [done|]. exists l. pose proof (sees_size _ _ _ (rely_sees _ _ _ Ry)). rewrite Z.add_0_r. split_and!; lia || done. }
  apply wp_bind; [|done]. eapply wp_mono; [|by apply wp_await]. intros [v|] y Iy [Ry Hv].
  2:{ intros z Iz Rz. split; [by eapply rely_trans|]. lia. }
  destruct Hv as (l' & -> & Hl'). destruct (rely_mine t h Hrole x y Ry) as [My _]. pose proof (m_pos _ _ _ _ My) as Py.
  apply wp_read; [done|]. intros z Iz Rz. destruct (rely_mine t h Hrole y z Rz) as [Mz _]. pose proof (m_pos _ _ _ _ Mz) as Pz. pose proof (mine_size _ _ _ _ Mz).
  rewrite masked_mod, ring_add. apply wp_bind; [|done]. eapply wp_mono; [|apply IH; [done|lia|lia]].
  pose proof (span t h Hrole z Iz). pose proof (slot_at t h Hrole z p Iz ltac:(lia)) as Hslot.
  intros r w Iw [Rw Hr] u Iu Ru. pose proof (mine_size _ _ _ _ My). split; [by do 3 (eapply rely_trans; [done|])|].
  destruct r as [[[vs hd] v]|]; [|lia]. destruct Hr as (l2 & -> & -> & Hl2 & ->). pose proof (sees_size _ _ _ (rely_sees _ _ _ Ru)).
  exists l2. split_and!; [f_equal; lia|done|lia|lia|].
  assert (Hw : log (gq u.2) !! Z.to_nat p = Some (buf z.1 (p mod D))) by (eapply prefix_lookup_Some; [done|]; etrans; [apply (r_log _ _ _ Rw)|apply (r_log _ _ _ Ru)]).
  rewrite (drop_S _ _ _ Hw). cbn [take map exec snd]. f_equal. replace (S (Z.to_nat p)) with (Z.to_nat (p + 1)) by lia.
  f_equal. symmetry. apply prefix_window; [apply (r_log _ _ _ Ru)|lia].
Qed.

Definition drain_post (n0 : Z) (fuel m : nat) (x : state) (r : option (list Z)) (y : state) : Prop :=
  gown y.2 <> Some t /\ gP y.2 h = gP x.2 h /\ log (gq x.2) `prefix_of` log (gq y.2) /\
  match r with
  | Some vs => gst y.2 t = Finished (Drain h fuel m) (RVals (Some vs)) /\ pos (gq y.2) h < gS y.2 h
  | None => gst y.2 t = Pending (Drain h fuel m) n0 /\ n0 < pos (gq y.2) h + 1 + Z.of_nat m /\ pos (gq y.2) h = pos (gq x.2) h /\ gS y.2 h = gS x.2 h
  end.

Lemma wp_drain n0 fuel m x :
  inv x -> gown x.2 <> Some t -> gst x.2 t = Pending (Drain h fuel m) n0 -> n0 <= size (gq x.2) -> pos (gq x.2) h < gS x.2 h ->
  wp t (drain_payload_at D h fuel m) (drain_post n0 fuel m x) x.
Proof.
  intros I E Hst Hn0 Hlt. apply wp_read; [done|]. intros y Iy Ry. destruct (rely_mine t h Hrole x y Ry) as [My Sy].
  apply wp_read; [done|]. intros z Iz Rz. destruct (rely_mine t h Hrole y z Rz) as [Mz Sz]. cbn [exec snd].
  destruct (at_head t h Hrole y Iy) as (-> & _ & _). rewrite (i_tail _ Iz), masked_mod, ring_add. pose proof (m_pos _ _ _ _ My) as Py. pose proof (m_pos _ _ _ _ Mz) as Pz.
  pose proof (span t h Hrole z Iz). assert (Mxz : mine t h x z) by (by eapply mine_trans). pose proof (mine_size _ _ _ _ Mxz).
  rewrite <- Pz. apply wp_bind; [|done]. eapply wp_mono; [|apply wp_drain_loop; [done|lia|lia]].
  intros r w Iw [Rw Hr]. destruct (rely_mine t h Hrole z w Rw) as [Mw Sw]. pose proof (m_pos _ _ _ _ Mw) as Pw. assert (Mxw : mine t h x w) by (by eapply mine_trans).
  destruct r as [[[vs hd] v]|].
  - destruct Hr as (l & -> & -> & Hl & Hvs). apply (wp_shadow_tail t h Hrole); [lia|]. intros v Iv Mv Sv. pose proof (m_pos _ _ _ _ Mv) as Pv.
    assert (Mxv : mine t h x v) by (by eapply mine_trans). rewrite masked_mod, Zminus_mod_idemp_l.
    replace (pos (gq z.2) h + 1 + Z.of_nat m - 1) with (pos (gq v.2) h + Z.of_nat m) by lia.
    eapply (wp_advance t h Hrole _ (Drain h fuel m) n0 (RVals (Some vs))); [lia|by rewrite (m_status _ _ _ _ Mxv)| |].
    + intros q Hq Ep. cbn [effect]. rewrite Ep. split_and!; [done| |].
      * rewrite Hvs, Pv, Pw. f_equal. symmetry. apply prefix_window; [etrans; [apply (m_log _ _ _ _ Mv)|done]|lia].
      * rewrite Hvs, length_map, length_take, length_drop. lia.
    + intros u Iu Eu Fu Pu HPu Su Lu a Ia Ra. destruct (rely_mine t h Hrole u a Ra) as [Ma Sa].
      split_and!; [by apply (m_free _ _ _ _ Ma), Eu, (m_free _ _ _ _ Mxv)|by rewrite (m_P _ _ _ _ Ma), HPu, (m_P _ _ _ _ Mxv)| |by rewrite (m_status _ _ _ _ Ma)|rewrite (m_pos _ _ _ _ Ma), Sa, Su, Pu; lia].
      etrans; [apply (m_log _ _ _ _ Mxv)|]. etrans; [done|apply (m_log _ _ _ _ Ma)].
  - intros u Iu Ru. destruct (rely_mine t h Hrole w u Ru) as [Mu Su]. assert (Mxu : mine t h x u) by (by eapply mine_trans).
    split_and!; [by apply (m_free _ _ _ _ Mxu)|apply (m_P _ _ _ _ Mxu)|apply (m_log _ _ _ _ Mxu)|by rewrite (m_status _ _ _ _ Mxu)| |apply (m_pos _ _ _ _ Mxu)|congruence].
    rewrite (m_pos _ _ _ _ Mu). lia.
Qed.

Lemma wp_is_empty_at x : inv x -> wp t (is_empty_at h) (fun b y => rely t x y /\ (b = true -> size (gq x.2) <= pos (gq y.2) h)) x.
Proof.
  intros I. apply wp_read; [done|]. intros y Iy Ry. apply wp_read; [done|]. intros z Iz Rz w Iw Rw.
  assert (Rxw : rely t x w) by (by do 2 (eapply rely_trans; [done|])). split; [done|]. cbn [exec snd]. destruct (at_head t h Hrole y Iy) as (_ & _ & ->).
  rewrite (i_tail _ Iz). destruct (rely_mine t h Hrole y z Rz) as [Mz _]. destruct (rely_mine t h Hrole z w Rw) as [Mw _].
  pose proof (span t h Hrole z Iz). rewrite <- (m_P _ _ _ _ Mz), ring_eqb by lia. intros E%Z.eqb_eq. rewrite (m_pos _ _ _ _ Mw).
  pose proof (sees_size _ _ _ (rely_sees _ _ _ Ry)). pose proof (sees_size _ _ _ (rely_sees _ _ _ Rz)). lia.
Qed.

End Drain.

(** *** Observing *)

Lemma wp_all_at t l hs : forall x,
  inv x -> (forall j, j ∈ hs -> 0 <= j < n) -> (forall j, 0 <= j < n -> l - gP x.2 j < D) ->
  wp t (all_at (l mod D) hs) (fun b y => rely t x y /\ (b = true -> forall j, j ∈ hs -> l <= pos (gq y.2) j)) x.
Proof.
  induction hs as [|j hs IH]; intros x I Hhs Hl; cbn [all_at].
  { intros y Iy Ry. split; [done|]. by intros _ j ?%not_elem_of_nil. }
  apply wp_read; [done|]. intros y Iy Ry. assert (Hj : 0 <= j < n) by (apply Hhs; left). destruct (i_heads _ Iy j Hj) as [Ej _ _ Ho].
  cbn [exec snd]. rewrite Ej. pose proof (r_heads _ _ _ Ry) as HP. destruct (Z.eqb_spec (gP y.2 j mod D) (l mod D)) as [Eq|_].
  - eapply wp_mono; [|apply IH; [done|intros; apply Hhs; by right|intros i Hi; pose proof (HP i); pose proof (Hl i Hi); lia]].
    intros b z Iz [Rz Hb]. split; [by eapply rely_trans|]. intros Eb i [->|Hi]%elem_of_cons; [|by apply Hb].
    pose proof (r_pos _ _ _ Rz j). pose proof (HP j). pose proof (Hl j Hj). destruct (Z.lt_ge_cases (gP y.2 j) l); [|lia].
    apply ring_eq in Eq; lia.
  - intros z Iz Rz. split; [by eapply rely_trans|done].
Qed.

Lemma wp_is_empty t x : inv x -> wp t (is_empty HEADS) (fun b y => rely t x y /\ (b = true -> forall j, 0 <= j < n -> size (gq x.2) <= pos (gq y.2) j)) x.
Proof.
  intros I. apply wp_read; [done|]. intros y Iy Ry. cbn [exec snd]. rewrite (i_tail _ Iy). pose proof (sees_size _ _ _ (rely_sees _ _ _ Ry)).
  assert (Fin : forall z, inv z -> rely t y z -> wp t (all_at (size (gq y.2) mod D) (seqZ 0 n))
    (fun b w => rely t x w /\ (b = true -> forall j, 0 <= j < n -> size (gq x.2) <= pos (gq w.2) j)) z).
  { intros z Iz Rz. eapply wp_mono; [|apply wp_all_at; [done|intros j Hj%elem_of_seqZ; lia|]].
    - intros b w Iw [Rw Hb]. split; [by do 2 (eapply rely_trans; [done|])|]. intros Eb j Hj. pose proof (Hb Eb j ltac:(apply elem_of_seqZ; lia)). lia.
    - intros j Hj. pose proof (r_heads _ _ _ Rz j). pose proof (ho_order _ _ _ (i_heads _ Iy j Hj)). pose proof (i_room _ Iy). lia. }
  unfold heads. destruct (Z.eqb_spec HEADS 1).
  - assert (Hn1 : seqZ 0 1 = seqZ 0 n) by (f_equal; lia). cbn [mbind prog_bind bind]. rewrite Hn1. apply Fin; [done|apply rely_refl].
  - apply wp_read; [done|]. intros z Iz Rz. cbn [exec snd]. rewrite (i_active _ Iz). destruct (Z.eqb_spec n 0); [lia|]. by apply Fin.
Qed.

Lemma wp_publish_tail t x : gown x.2 <> Some t -> wp t publish_tail (fun _ y => gown y.2 <> Some t /\ sees t x y /\ gst y.2 t = gst x.2 t) x.
Proof.
  intros E. apply wp_lock; [done|]. intros [] y Iy Sy Fy Ey; cbn [negb].
  - apply wp_read; [done|]. intros z Iz Rz. destruct (rely_held _ _ _ Rz (proj2 Ey eq_refl)) as (Hz & _ & _). cbn [exec snd]. rewrite (i_tail _ Iz).
    intros w Iw Rw. destruct (rely_held _ _ _ Rw (h_own _ _ _ Hz)) as (Hw & _ & _). exists w.2. cbn [exec fst snd].
    rewrite <- (h_log _ _ _ Hw), <- (i_tail _ Iw). assert (Es : w.1 <| tail := tail w.1 |> = w.1) by (by destruct w as [[] ?]). rewrite Es.
    split_and!; [by destruct w|destruct w; split; [intros; apply rely_refl|by left]|]. apply wp_unlock; [apply (h_own _ _ _ Hw)|].
    intros v Iv Sv Fv Ev u Iu Ru. split_and!; [by apply (r_free _ _ _ Ru)| |].
    + eapply sees_trans; [done|]. eapply sees_trans; [apply (h_sees _ _ _ Hz)|]. eapply sees_trans; [apply (h_sees _ _ _ Hw)|]. eapply sees_trans; [|by apply rely_sees]. by destruct w.
    + rewrite (r_status _ _ _ Ru), Fv. cbn. by rewrite (h_status _ _ _ Hw), (h_status _ _ _ Hz).
  - intros z Iz Rz. split_and!; [apply (r_free _ _ _ Rz); intros A; by apply Ey in A|eapply sees_trans; [done|by apply rely_sees]|by rewrite (r_status _ _ _ Rz)].
Qed.

End Logic.

End GFifoProofs.
