(* ===== verification/GFifoClaims.v ===== *)
(** * Theorems about the register FIFO *)

From S2P Require Import Prelude GFifo GFifoSpec GFifoProofs.
From stdpp Require Import functions.
Import GFifo GFifoSpec GFifoProofs.

#[local] Open Scope Z_scope.

Module GFifoClaims.

Notation size q := (Z.of_nat (length (log q))).

Section Sim.

Context (k HEADS : Z) (Hk : 0 <= k <= 63) (role : Z -> option Z) (n : Z) (Hn : 1 <= n <= HEADS) (Hroles : roles_ok role n).

Notation D := (2 ^ k).
Notation state := (GFifo * ghost)%type.
Notation inv := (inv k n).
Notation rely := (rely role).
Notation wp := (wp k role n).
Notation sees := (sees role).

(** ** A thread between calls and within one *)

Definition idle_ok (t : Z) (rd : bool) (x : state) : Prop :=
  gown x.2 <> Some t /\ forall h, role t = Some h -> (rd = true -> pos (gq x.2) h < gS x.2 h) /\ quiet h x.

Lemma idle_sees t rd x y : idle_ok t rd x -> gown y.2 <> Some t -> sees t x y -> idle_ok t rd y.
Proof.
  intros [_ Hi] E S. split; [done|]. intros h Hh. destruct (Hi h Hh) as [Hr Hq]. destruct (s_mine _ _ _ _ S h Hh) as (EP & ES & Ep).
  rewrite Ep, ES. split; [done|]. unfold quiet in *. rewrite EP, Ep. pose proof (sees_size _ _ _ _ S). lia.
Qed.

(** What a call that returns [r] leaves: its effect taken, or still to take on the queue as it is. *)
Definition call_post (t : Z) (c : call) (n0 : Z) (rd : bool) (r : reply) (x : state) : Prop :=
  (gst x.2 t = Finished c r \/ (gst x.2 t = Pending c n0 /\ forall y, inv y -> rely t x y -> effect D n c n0 r (gq y.2) (gq y.2))) /\
  idle_ok t (next_ready c r rd) x.

Lemma call_post_rely t c n0 rd r x y : inv y -> rely t x y -> call_post t c n0 rd r x -> call_post t c n0 rd r y.
Proof.
  intros Iy R [Hst Hi]. split.
  - rewrite (r_status _ _ _ _ R). destruct Hst as [|[? He]]; [by left|right]. split; [done|]. intros z Iz Rz. apply He; [done|]. by eapply rely_trans.
  - eapply idle_sees; [done|apply (r_free _ _ _ _ R), Hi|by apply rely_sees].
Qed.

Lemma wp_lift {A} t c n0 rd (f : A -> reply) p x :
  inv x -> wp t p (fun a y => call_post t c n0 rd (f a) y) x -> wp t (lift f p) (call_post t c n0 rd) x.
Proof.
  intros I W. apply wp_bind; [|done]. eapply wp_mono; [|done]. intros a y Iy P z Iz Rz. by eapply call_post_rely.
Qed.

(** A push that answered. *)
Lemma push_call t c n0 rd x b y :
  (forall q, effect D n c n0 (RBool false) q q) -> (forall b, next_ready c (RBool b) rd = rd) ->
  gst x.2 t = Pending c n0 -> idle_ok t rd x -> push_post role t c x b y -> call_post t c n0 rd (RBool b) y.
Proof.
  intros Hf Hr Hst Hi (E & S & F). split; [|by rewrite Hr; eapply idle_sees].
  destruct b; [by left|right]. split; [by rewrite F|]. intros; apply Hf.
Qed.

(** A call that only looked. *)
Lemma look_call t c n0 rd x r y :
  next_ready c r rd = rd -> gst x.2 t = Pending c n0 -> idle_ok t rd x -> gown y.2 <> Some t -> sees t x y -> gst y.2 t = gst x.2 t ->
  (forall z, inv z -> rely t y z -> effect D n c n0 r (gq z.2) (gq z.2)) -> call_post t c n0 rd r y.
Proof. intros Hr Hst Hi E S F He. split; [right; by rewrite F|]. rewrite Hr. by eapply idle_sees. Qed.

Lemma rely_look t rd x y : idle_ok t rd x -> rely t x y -> gown y.2 <> Some t /\ sees t x y /\ gst y.2 t = gst x.2 t.
Proof. intros [E _] R. split_and!; [by apply (r_free _ _ _ _ R)|by apply rely_sees|apply (r_status _ _ _ _ R)]. Qed.

Lemma peek_call t h n0 rd x : inv x -> role t = Some h -> idle_ok t rd x -> gst x.2 t = Pending (Peek h) n0 ->
  wp t (lift RSlot (peek_at h)) (call_post t (Peek h) n0 rd) x.
Proof.
  intros I Hh Hi Hst. apply wp_lift; [done|]. eapply wp_mono; [|by apply wp_peek; try done; apply Hi]. intros r y Iy (E & EP & Ep & EL & Hr).
  assert (Hq : quiet h y).
  { destruct (proj2 Hi h Hh) as [_ Hq]. unfold quiet in *. rewrite EP, Ep. apply prefix_length in EL. lia. }
  destruct r as [e|].
  - destruct Hr as (Hst' & He & Hlt). split.
    + right. split; [done|]. intros z Iz R. cbn [effect]. destruct (r_mine _ _ _ _ R h Hh) as (_ & _ & ->). split; [done|]. eapply prefix_lookup_Some; [done|apply (r_log _ _ _ _ R)].
    + split; [done|]. intros h' Hh'. by simplify_eq.
  - split; [by left|]. split; [done|]. intros h' Hh'. by simplify_eq.
Qed.

Lemma drain_call t h fuel m n0 rd x : inv x -> role t = Some h -> idle_ok t rd x -> rd = true -> n0 <= size (gq x.2) -> gst x.2 t = Pending (Drain h fuel m) n0 ->
  wp t (lift RVals (drain_payload_at D h fuel m)) (call_post t (Drain h fuel m) n0 rd) x.
Proof.
  intros I Hh Hi Hrd Hn0 Hst. destruct (proj2 Hi h Hh) as [Hlt Hq]. apply wp_lift; [done|].
  eapply wp_mono; [|by apply wp_drain; try done; [apply Hi|apply Hlt]]. intros r y Iy (E & EP & EL & Hr). destruct r as [vs|].
  - destruct Hr as [Hst' Hlt']. split; [by left|]. split; [done|]. intros h' Hh'. simplify_eq. split; [done|]. left.
    pose proof (ho_order _ _ _ _ (i_heads _ _ _ Iy h (proj1 Hroles t h Hh))). lia.
  - destruct Hr as (Hst' & Hno & Ep & ES). split.
    + right. split; [done|]. intros z Iz R. destruct (r_mine _ _ _ _ R h Hh) as (_ & _ & Ez). cbn. rewrite Ez. done.
    + split; [done|]. intros h' Hh'. simplify_eq. rewrite Ep, ES. split; [done|]. unfold quiet in *. rewrite EP, Ep. apply prefix_length in EL. lia.
Qed.

Lemma wp_call t c n0 rd x :
  inv x -> idle_ok t rd x -> gst x.2 t = Pending c n0 -> n0 <= size (gq x.2) ->
  (forall h, call_head c = Some h -> role t = Some h) -> (on_entry c = true -> rd = true) -> wp t (prog_of D HEADS c) (call_post t c n0 rd) x.
Proof.
  intros I Hi Hst Hn0 Hh Hrd. pose proof (proj1 Hi) as E.
  destruct c as [e|e0 e1|es|fuel e|fuel token count vals| | | |h|h|h fuel m|h|h]; cbn [prog_of call_head on_entry] in *.
  - apply wp_lift; [done|]. eapply wp_mono; [|by apply (wp_try_push _ _ Hk _ _ Hn Hroles _ (TryPush e) n0)]. intros b y Iy. by apply push_call.
  - apply wp_lift; [done|]. eapply wp_mono; [|by apply (wp_try_push2 _ _ Hk _ _ Hn Hroles _ (TryPush2 e0 e1) n0)]. intros b y Iy. by apply push_call.
  - apply wp_lift; [done|]. destruct (decide (es = [])) as [->|Hne].
    + intros y Iy R. destruct (rely_look t rd x y Hi R) as (? & ? & ?). eapply look_call; try done. intros z Iz Rz. split.
      * rewrite app_nil_r. by destruct (gq z.2).
      * intros h Hh'. pose proof (ho_order _ _ _ _ (i_heads _ _ _ Iz h Hh')). pose proof (i_room _ _ _ Iz). lia.
    + eapply wp_mono; [|by apply (wp_try_push_slice _ _ Hk _ _ Hn Hroles _ (TryPushSlice es) n0)]. intros b y Iy. by apply push_call.
  - apply wp_lift; [done|]. eapply wp_mono; [|eapply wp_until; [|done|done|done]]; [intros b y Iy; by apply push_call|]. intros. by apply (wp_try_push _ _ Hk _ _ Hn Hroles _ (Push fuel e) n0).
  - apply wp_lift; [done|]. unfold push_batch. destruct (Z.ltb_spec (Z.of_nat (length vals) + 1) D).
    + apply wp_bind; [|done]. eapply wp_mono; [|eapply wp_until; [|done|done|done]].
      * intros b y Iy P z Iz R. eapply call_post_rely; [done|done|]. by eapply push_call.
      * intros. by apply (wp_try_batch _ _ Hk _ _ Hn Hroles _ (PushBatch fuel token count vals) n0).
    + intros y Iy R. destruct (rely_look t rd x y Hi R) as (? & ? & ?). by eapply look_call.
  - apply wp_lift; [done|]. eapply wp_mono; [|by apply wp_publish_tail]. intros b y Iy (? & ? & ?). by eapply look_call.
  - apply wp_lift; [done|]. eapply wp_mono; [|by apply wp_reads, reads_len]. intros v y Iy [Hv R]. destruct (rely_look t rd x y Hi R) as (? & ? & ?). by eapply look_call.
  - apply wp_lift; [done|]. eapply wp_mono; [|by apply wp_is_empty]. intros b y Iy [R Hb]. destruct (rely_look t rd x y Hi R) as (? & ? & ?).
    eapply look_call; try done. intros z Iz Rz. split; [done|]. intros Eb h Hh'. pose proof (Hb Eb h Hh'). pose proof (r_pos _ _ _ _ Rz h). lia.
  - apply wp_lift; [done|]. eapply wp_mono; [|apply (wp_is_empty_at k Hk role n Hroles t h (Hh h eq_refl)); done]. intros b y Iy [R Hb].
    destruct (rely_look t rd x y Hi R) as (? & ? & ?). eapply look_call; try done. intros z Iz Rz. split; [done|]. intros Eb. pose proof (Hb Eb). pose proof (r_pos _ _ _ _ Rz h). lia.
  - apply peek_call; auto.
  - apply drain_call; auto.
  - apply wp_lift; [done|]. destruct (proj2 Hi h (Hh h eq_refl)) as [Hlt _]. eapply wp_mono; [|by eapply wp_consume; try done; auto].
    intros _ y Iy (? & ? & ?). split; [by left|]. split; [done|]. intros h' Hh'. rewrite (Hh h eq_refl) in Hh'. by simplify_eq.
  - apply wp_lift; [done|]. destruct (proj2 Hi h (Hh h eq_refl)) as [Hlt _]. eapply wp_mono; [|by eapply wp_flush; auto].
    intros _ y Iy (? & F & ? & Ep & ES). split; [right; by rewrite F|]. split; [done|]. intros h' Hh'. rewrite (Hh h eq_refl) in Hh'. simplify_eq. by rewrite Ep, ES.
Qed.

(** ** Simulation *)

Definition thread_ok (t : Z) (th : thread) (x : state) : Prop :=
  match running th with
  | None => gst x.2 t = Idle /\ idle_ok t (ready th) x
  | Some (c, p) => exists n0, wp t p (call_post t c n0 (ready th)) x
  end.

Lemma thread_rely t th x y : rely t x y -> thread_ok t th x -> thread_ok t th y.
Proof.
  unfold thread_ok. intros R. destruct (running th) as [[c p]|].
  - intros [n0 W]. exists n0. by eapply wp_rely.
  - intros [E Hi]. split; [by rewrite (r_status _ _ _ _ R)|]. eapply idle_sees; [done|apply (r_free _ _ _ _ R), Hi|by apply rely_sees].
Qed.

Definition sys_ok (s : sys) (g : ghost) : Prop := inv (fifo s, g) /\ forall t, thread_ok t (pool s t) (fifo s, g).

(** The queue as the ghost state has it. *)
Definition shown (g : ghost) : asys := mkA (gq g) (gst g).

Lemma start_ok : exists g, sys_ok (start HEADS n) g /\ shown g = astart.
Proof.
  exists (mkG (mkQueue [] (fun _ => 0)) (fun _ => Idle) (fun _ => 0) (fun _ => 0) 0 None). unfold start, set_heads.
  destruct (Z.leb_spec 1 n), (Z.leb_spec n HEADS); try lia. cbn. pose proof (D_pos k Hk). split; [|done]. split; cbn.
  - split; cbn; try done; lia.
  - intros t. split; [done|]. split; [done|]. intros h Hh. split; [done|by right].
Qed.

(** The threads other than [t] do not mind. *)
Lemma pool_ok t th p s g s' g' :
  (forall u, u <> t -> rely u (s, g) (s', g')) -> (forall u, thread_ok u (p u) (s, g)) -> thread_ok t th (s', g') ->
  forall u, thread_ok u (<[t := th]> p u) (s', g').
Proof.
  intros R Hp Ht u. destruct (decide (u = t)) as [->|Hu]; [by rewrite fn_lookup_insert|]. rewrite fn_lookup_insert_ne by done.
  eapply thread_rely; [by apply R|done].
Qed.

(** Changing what thread [t] is seen to do. *)
Lemma restatus t s g st : (forall u, u <> t -> st u = gst g u) -> forall u, u <> t -> rely u (s, g) (s, g <| gst := st |>).
Proof. intros Hst u Hu. split; cbn; done || auto. Qed.

Lemma inv_status s g st : inv (s, g) -> inv (s, g <| gst := st |>).
Proof. intros I. destruct I; split; try done. intros h Hh. destruct (i_heads0 h Hh). by split. Qed.

Lemma step_sim s g es s' :
  sys_ok s g -> step D HEADS role s es s' -> exists g', sys_ok s' g' /\ forall tr, runs (astep D n) astart tr (shown g) -> runs (astep D n) astart (tr ++ es) (shown g').
Proof.
  intros [I Hp] St. destruct St as [s p t c Ha|s p t c X a f Hr|s p t c r Hr]; cbn [fifo pool] in *.
  - destruct Ha as (Hnone & Hhead & Hentry). pose proof (Hp t) as Ht. unfold thread_ok in Ht. rewrite Hnone in Ht. destruct Ht as [Hidle Hi].
    exists (g <| gst := <[t := Pending c (size (gq g))]> (gst g) |>). split.
    + split; cbn [fifo pool]; [by apply inv_status|]. eapply pool_ok; [apply (restatus t); intros; by rewrite fn_lookup_insert_ne|done|].
      exists (size (gq g)). apply wp_call; [by apply inv_status|done|apply fn_lookup_insert|done|done|done].
    + intros tr Htr. eapply runs_snoc; [done|]. by apply astep_call.
  - pose proof (Hp t) as Ht. unfold thread_ok in Ht. rewrite Hr in Ht. destruct Ht as [n0 W]. destruct (W (s, g) I (rely_refl _ _ _)) as (g' & I' & [R Ev] & W').
    exists g'. split.
    + split; cbn [fifo pool]; [done|]. eapply pool_ok; [done|done|]. by exists n0.
    + cbn [fst snd] in Ev. intros tr Htr. destruct Ev as [[Eq Est]|(c' & m0 & r & Est & He & Est')].
      * rewrite app_nil_r. unfold shown. by rewrite Eq, Est.
      * eapply runs_snoc; [done|]. unfold shown. rewrite Est'. by eapply astep_effect.
  - pose proof (Hp t) as Ht. unfold thread_ok in Ht. rewrite Hr in Ht. destruct Ht as [n0 W]. destruct (W (s, g) I (rely_refl _ _ _)) as [Hst Hi].
    assert (Go : forall st, (forall u, u <> t -> st u = gst g u) -> sys_ok (mkSys s (<[t := mkThread None (next_ready c r (ready (p t)))]> p)) (g <| gst := <[t := Idle]> st |>)).
    { intros st Hst'. split; cbn [fifo pool]; [by apply inv_status|]. eapply pool_ok; [apply (restatus t); intros; by rewrite fn_lookup_insert_ne, Hst' by done|done|].
      split; [apply fn_lookup_insert|done]. }
    destruct Hst as [Hst|[Hst He]].
    + exists (g <| gst := <[t := Idle]> (gst g) |>). split; [by apply Go|]. intros tr Htr. eapply runs_snoc; [done|]. by apply astep_return.
    + exists (g <| gst := <[t := Idle]> (<[t := Finished c r]> (gst g)) |>). split; [apply Go; intros; by rewrite fn_lookup_insert_ne|]. intros tr Htr.
      eapply runs_snoc; [rewrite <- (app_nil_r tr); eapply runs_snoc; [done|eapply astep_effect; [done|]]|apply astep_return, fn_lookup_insert].
      apply (He (s, g)); [done|apply rely_refl].
Qed.

Lemma runs_sim tr s : runs (step D HEADS role) (start HEADS n) tr s -> exists g, sys_ok s g /\ runs (astep D n) astart tr (shown g).
Proof.
  induction 1 as [|tr s es s' _ (g & Hs & Ha) St].
  - destruct start_ok as (g & Hs & E). exists g. split; [done|]. rewrite E. apply runs_nil.
  - destruct (step_sim s g es s' Hs St) as (g' & Hs' & Hsim). exists g'. split; [done|]. by apply Hsim.
Qed.

(** With every consumer caught up and no call running, the heads are published. *)
Lemma settled s g :
  sys_ok s g -> (forall t h, role t = Some h -> running (pool s t) = None) -> (forall h, 0 <= h < n -> exists t, role t = Some h) ->
  (forall h, 0 <= h < n -> local_head (fifo s) h = tail (fifo s)) -> forall h, 0 <= h < n -> head (fifo s) h = tail (fifo s).
Proof.
  intros [I Hp] Hnone Hrole Hcaught h Hh. destruct (Hrole h Hh) as [t Ht]. pose proof (Hp t) as Ok. unfold thread_ok in Ok. rewrite (Hnone t h Ht) in Ok.
  destruct Ok as (_ & _ & Hq). destruct (Hq h Ht) as [_ Q]. destruct (i_heads _ _ _ I h Hh) as [E1 E2 E3 Ho]. pose proof (i_room _ _ _ I). pose proof (i_tail _ _ _ I) as Et.
  unfold quiet in Q. cbn [fst snd] in *. pose proof (Hcaught h Hh) as Ec. rewrite E2, Et in Ec. apply ring_eq in Ec; [|lia]. rewrite E1, Et. f_equal. lia.
Qed.

Lemma run_all_at l hs s : (forall h, h ∈ hs -> head s h = l) -> run (all_at l hs) s = (s, true).
Proof.
  induction hs as [|h hs IH]; intros H; cbn; [done|]. rewrite (H h) by left. rewrite Z.eqb_refl. apply IH. intros; apply H; by right.
Qed.

Lemma run_bind {A B} (p : prog A) (f : A -> prog B) s : run (bind p f) s = run (f (run p s).2) (run p s).1.
Proof. revert s. induction p as [a|X a g IH]; intros s; cbn; [done|]. destruct (exec a s). by rewrite IH. Qed.

End Sim.

(** ** The scheduler follows the steps *)

Lemma choose_step D HEADS role ch s es s' : choose D HEADS role ch s = Some (es, s') -> step D HEADS role s es s'.
Proof.
  destruct s as [f p], ch as [t c|t]; cbn; intros H.
  - destruct (allowed_b role t (p t) c) eqn:A; [|done]. simplify_eq. apply step_call. unfold allowed_b in A.
    apply andb_prop in A as [[A1 A2]%andb_prop A3]. split_and!.
    + by destruct (running (p t)).
    + intros h Hh. rewrite Hh in A2. by apply bool_decide_eq_true in A2.
    + intros Ho. by rewrite Ho in A3.
  - destruct (running (p t)) as [[c [r|X a g]]|] eqn:R; simplify_eq; [by apply step_return|by apply step_act].
Qed.

Lemma runs_cons D HEADS role s0 es s l tr s' tr0 :
  runs (step D HEADS role) s0 tr0 s -> step D HEADS role s es s' -> (forall t0, runs (step D HEADS role) s0 t0 s' -> runs (step D HEADS role) s0 (t0 ++ tr) l) ->
  runs (step D HEADS role) s0 (tr0 ++ es ++ tr) l.
Proof. intros R St K. rewrite app_assoc. apply K. by eapply runs_snoc. Qed.

Lemma schedule_runs D HEADS role s0 l : forall s tr s' tr0, schedule D HEADS role l s = Some (tr, s') ->
  runs (step D HEADS role) s0 tr0 s -> runs (step D HEADS role) s0 (tr0 ++ tr) s'.
Proof.
  induction l as [|ch l IH]; intros s tr s' tr0 H R; cbn in H; [simplify_eq; by rewrite app_nil_r|].
  destruct (choose D HEADS role ch s) as [[es s1]|] eqn:C; cbn in H; [|done]. destruct (schedule D HEADS role l s1) as [[tr1 s2]|] eqn:E; cbn in H; [|done]. simplify_eq.
  eapply runs_cons; [done|by eapply choose_step|]. intros t0 R0. by eapply IH.
Qed.

(** Thread 1 consumes the only head. *)
Definition w_role (t : Z) : option Z := if t =? 1 then Some 0 else None.

Lemma w_roles : roles_ok w_role 1.
Proof.
  unfold w_role. split; [intros t h|intros t u h]; repeat case_match; intros; simplify_eq; lia.
Qed.

(** A pair pushed while the consumer looks, then looked at and consumed. *)
Definition w_choices : list choice :=
  Start 0 (TryPush2 (mkEntry 1 10) (mkEntry 2 20)) :: Start 1 (Peek 0) :: concat (replicate 5 [Tick 0; Tick 1]) ++ replicate 5 (Tick 0) ++
  Start 1 (Peek 0) :: replicate 7 (Tick 1) ++ Start 1 (Consume 0) :: replicate 4 (Tick 1).

Definition w_trace : list event :=
  let pair := TryPush2 (mkEntry 1 10) (mkEntry 2 20) in
  [ECall 0 pair; ECall 1 (Peek 0); EReturn 1 (Peek 0) (RSlot None); EReturn 0 pair (RBool true); ECall 1 (Peek 0);
   EReturn 1 (Peek 0) (RSlot (Some (mkEntry 1 10))); ECall 1 (Consume 0); EReturn 1 (Consume 0) RUnit].

Lemma observed {A} D HEADS role n l (f : list event * sys -> A) v : f <$> schedule D HEADS role l (start HEADS n) = Some v ->
  exists tr s, f (tr, s) = v /\ runs (step D HEADS role) (start HEADS n) tr s.
Proof.
  destruct (schedule _ _ _ _ _) as [[tr s]|] eqn:E; cbn; intros H; [|done]. simplify_eq. exists tr, s. split; [done|].
  change tr with ([] ++ tr). by eapply schedule_runs, runs_nil.
Qed.

(** C17: The register FIFO is linearizable.  Whatever the threads do, each
    producer pushing single entries, pairs, slices or batches and each consumer
    looking, draining, consuming and flushing at its own head, their accesses
    interleaved one by one in any order, the calls and the answers are those
    of a queue on which every call takes effect at once between its start and
    its return: a push appends all its entries or none and only where no
    consumer is the ring behind, every consumer sees every entry in that one
    order, a drain waits only for entries not yet pushed, and an observer is
    told the queue is empty only if all that was in it has been consumed. *)
Theorem gfifo_linearizable k HEADS role n tr s :
  0 <= k <= 63 -> 1 <= n <= HEADS -> roles_ok role n ->
  runs (step (2 ^ k) HEADS role) (start HEADS n) tr s -> exists a, runs (astep (2 ^ k) n) astart tr a.
Proof. intros Hk Hn Hr H. destruct (runs_sim k HEADS Hk role n Hn Hr tr s H) as (g & _ & Ha). by exists (shown g). Qed.

Lemma gfifo_linearizable_witness : exists a, runs (astep (2 ^ 3) 1) astart w_trace a.
Proof.
  destruct (observed (2 ^ 3) 1 w_role 1 w_choices fst w_trace ltac:(by vm_compute)) as (tr & s & Htr & H). cbn in Htr. rewrite Htr in H.
  exact (gfifo_linearizable 3 1 w_role 1 w_trace s ltac:(lia) ltac:(lia) w_roles H).
Defined.

(** ** A drained FIFO *)

Section Drained.

Context (k HEADS n : Z) (Hk : 0 <= k <= 63) (Hn : 1 <= n <= HEADS) (s : GFifo).
Hypothesis Hact : active s = n.
Hypothesis Hheads : forall h, 0 <= h < n -> head s h = tail s.

Lemma run_heads s' : active s' = n -> run (heads HEADS) s' = (s', n).
Proof.
  intros E. unfold heads. destruct (Z.eqb_spec HEADS 1); cbn; [f_equal; lia|]. rewrite E. destruct (Z.eqb_spec n 0); [lia|done].
Qed.

Lemma run_scan hs : (forall h, h ∈ hs -> 0 <= h < n) -> forall s', head s' = head s -> run (scan_heads (2 ^ k) (tail s) (tail s) hs) s' = (s', tail s).
Proof.
  induction hs as [|h hs IH]; intros H s' E; cbn; [done|]. rewrite E, (Hheads h) by (apply H; left).
  destruct (_ <? _); (apply IH; [intros; apply H; by right|done]).
Qed.

Lemma run_slowest s' : active s' = n -> head s' = head s -> run (slowest_head (2 ^ k) HEADS (tail s)) s' = (s', tail s).
Proof.
  intros Ea Eh. unfold slowest_head, mbind, prog_bind. cbn. rewrite Eh, (Hheads 0) by lia. rewrite run_bind, run_heads by done. cbn. apply run_scan; [|done].
  intros h Hh%elem_of_seqZ. lia.
Qed.

Lemma run_empty : run (is_empty HEADS) s = (s, true).
Proof. unfold is_empty, mbind, prog_bind. cbn. rewrite run_bind, run_heads by done. cbn. apply run_all_at. intros h Hh%elem_of_seqZ. apply Hheads. lia. Qed.

Lemma run_len : run (len (2 ^ k) HEADS) s = (s, 0).
Proof.
  change (run (len (2 ^ k) HEADS) s) with (run (bind (slowest_head (2 ^ k) HEADS (tail s)) (fun h => Ret (masked (2 ^ k) (tail s - h)))) s).
  rewrite run_bind, run_slowest by done. cbn. rewrite masked_mod, Z.sub_diag by done. by rewrite Zmod_0_l.
Qed.

#[local] Arguments slowest_head : simpl never.
#[local] Arguments write_slots : simpl never.

(** Every slot but one is free. *)
Lemma run_slice es : lock s = false -> Z.of_nat (length es) < 2 ^ k -> (run (try_push_slice (2 ^ k) HEADS es) s).2 = true.
Proof.
  intros El Hlen. unfold try_push_slice, mbind, prog_bind. destruct (Z.eqb_spec (Z.of_nat (length es)) 0); [done|]. cbn. rewrite El. cbn. rewrite run_bind.
  assert (Hroom : room (2 ^ k) (tail s) (tail s) = 2 ^ k - 1).
  { unfold room. rewrite masked_mod by done. replace (tail s - tail s - 1) with (-1) by lia. symmetry. apply (Z.mod_unique _ _ (-1)); lia. }
  destruct (Z.ltb_spec (room (2 ^ k) (shadow_head s) (tail s)) (Z.of_nat (length es))).
  - cbn. rewrite run_bind, run_slowest by done. cbn. rewrite Hroom. destruct (Z.ltb_spec (2 ^ k - 1) (Z.of_nat (length es))); [lia|]. by rewrite run_bind.
  - cbn. by rewrite run_bind.
Qed.

End Drained.

(** C33: Whatever went before, once every consumer is between calls and has
    caught up with the tail, the published heads have caught up too: an
    observer is told that the FIFO is empty and that its length is 0, and with
    the lock free a push of any length below the depth is accepted. *)
Theorem gfifo_drained k HEADS role n tr s es :
  0 <= k <= 63 -> 1 <= n <= HEADS -> roles_ok role n ->
  runs (step (2 ^ k) HEADS role) (start HEADS n) tr s ->
  (forall t h, role t = Some h -> running (pool s t) = None) -> (forall h, 0 <= h < n -> exists t, role t = Some h) ->
  (forall h, 0 <= h < n -> local_head (fifo s) h = tail (fifo s)) ->
  (run (is_empty HEADS) (fifo s)).2 = true /\ (run (len (2 ^ k) HEADS) (fifo s)).2 = 0 /\
  (lock (fifo s) = false -> Z.of_nat (length es) < 2 ^ k -> (run (try_push_slice (2 ^ k) HEADS es) (fifo s)).2 = true).
Proof.
  intros Hk Hn Hr H Hidle Hall Hc. destruct (runs_sim k HEADS Hk role n Hn Hr tr s H) as (g & Ok & _).
  pose proof (settled k Hk role n s g Ok Hidle Hall Hc) as Hh. pose proof (i_active _ _ _ (proj1 Ok)) as Ha. cbn in Ha.
  rewrite (run_empty HEADS n Hn _ Ha Hh), (run_len k HEADS n Hk Hn _ Ha Hh). split_and!; [done|done|]. by apply (run_slice k HEADS n Hk Hn).
Qed.

(** After the pair of [w_choices] is consumed. *)
Definition w_drained : list choice := w_choices ++ Start 1 (Peek 0) :: replicate 5 (Tick 1) ++ Start 1 (Consume 0) :: replicate 5 (Tick 1).

Lemma gfifo_drained_witness : exists s, (run (is_empty 1) (fifo s)).2 = true /\ (run (len (2 ^ 3) 1) (fifo s)).2 = 0 /\
  (run (try_push_slice (2 ^ 3) 1 (replicate 7 (mkEntry 5 5))) (fifo s)).2 = true.
Proof.
  destruct (observed (2 ^ 3) 1 w_role 1 w_drained (fun r => (match running (pool r.2 1) with None => true | Some _ => false end, local_head (fifo r.2) 0, tail (fifo r.2), lock (fifo r.2)))
    (true, 2, 2, false) ltac:(vm_compute; reflexivity)) as (tr & s & F & H).
  cbn in F. injection F as F1 F2 F3 F4. exists s.
  destruct (gfifo_drained 3 1 w_role 1 tr s (replicate 7 (mkEntry 5 5)) ltac:(lia) ltac:(lia) w_roles H) as (? & ? & Hp).
  - intros t h. unfold w_role. destruct (Z.eqb_spec t 1) as [->|]; [|done]. by destruct (running (pool s 1)).
  - intros h Hh. exists 1. unfold w_role. cbn. f_equal. lia.
  - intros h Hh. assert (h = 0) as -> by lia. congruence.
  - split_and!; [done|done|]. by apply Hp.
Defined.

End GFifoClaims.
