(* ===== verification/Scsi.v ===== *)
(** * SCSI disks and CD-ROM drives

    The targets of src/src/scsi.rs and the tray of src/src/block_node.rs over
    the disk images of [BlockNode].  A command is a descriptor block, with the
    data a write sends; it answers a status and data, or the host's I/O error.
    [None] is a panic.  Sizes are [usize]s and [u64]s that stay far below
    their width, wrapped only where a subtraction can go below zero. *)

From stdpp Require Import strings.
From S2P Require Import Prelude BlockNode.
Import BlockNode.

#[local] Open Scope Z_scope.
#[local] Open Scope word_scope.

Module Scsi.

Definition get_cdb_length (opcode : Z) : Z :=
  let group := (opcode .>> 5) .& 7 in
  if group =? 0 then 6 else if (group =? 1) || (group =? 2) then 10 else if group =? 5 then 12 else 6.

Definition TEST_UNIT_READY : Z := 0x00.
Definition REQUEST_SENSE : Z := 0x03.
Definition READ_6 : Z := 0x08.
Definition WRITE_6 : Z := 0x0a.
Definition INQUIRY : Z := 0x12.
Definition MODE_SELECT_6 : Z := 0x15.
Definition RESERVE_6 : Z := 0x16.
Definition RELEASE_6 : Z := 0x17.
Definition MODE_SENSE_6 : Z := 0x1a.
Definition START_STOP_UNIT : Z := 0x1b.
Definition SEND_DIAGNOSTIC : Z := 0x1d.
Definition PREVENT_ALLOW_MEDIUM_REMOVAL : Z := 0x1e.
Definition READ_CAPACITY_10 : Z := 0x25.
Definition READ_10 : Z := 0x28.
Definition WRITE_10 : Z := 0x2a.
Definition VERIFY_10 : Z := 0x2f.
Definition SYNCHRONIZE_CACHE_10 : Z := 0x35.
Definition MODE_SELECT_10 : Z := 0x55.
Definition MODE_SENSE_10 : Z := 0x5a.
Definition SET_CD_SPEED : Z := 0xbb.
Definition WRITE_BUFFER : Z := 0x3b.
Definition READ_BUFFER : Z := 0x3c.
Definition READ_TOC_PMA_ATIP : Z := 0x43.
Definition GET_CONFIGURATION : Z := 0x46.
Definition SGI_EJECT : Z := 0xc4.
Definition SGI_HD2CDROM : Z := 0xc9.

Definition CDROM_SECTOR : Z := 2048.
Definition SCSI_BUFFER_SIZE : Z := 0x4000.

Inductive ScsiDataLength : Type := Unlimited | FixedLength (n : Z).

Record ScsiRequest : Type := mkReq { cdb : list Z; data_len : ScsiDataLength; data_in : option (list Z) }.

Record ScsiResponse : Type := mkResp { status : Z; data : list Z }.

Inductive DeviceKind : Type := KDisk | KCdrom.

#[export] Instance DeviceKind_eq_dec : EqDecision DeviceKind.
Proof. solve_decision. Defined.

Record ScsiIdentity : Type := mkIdentity { vendor : list Z; product : list Z; revision : list Z }.

(** ** The tray of a CD-ROM drive *)

Record ChangerNode : Type := mkChanger { discs : list string; active : option Node; changed : bool }.

#[global] Instance eta_ChangerNode : Settable ChangerNode := fun r => mkChanger (discs r) (active r) (changed r).

Definition changer_empty : ChangerNode := mkChanger [] None false.

Definition changer_loaded (node : Node) (path : string) (ds : list string) : ChangerNode :=
  mkChanger (if decide (head ds = Some path) then ds else path :: filter (fun d => d <> path) ds) (Some node) false.

Definition changer_current (c : ChangerNode) : option string := match active c with Some _ => head (discs c) | None => None end.

Definition changer_unload (c : ChangerNode) : ChangerNode := c <| active := None |> <| changed := true |>.

(** [Path::exists] of the file to queue; [false] is the error. *)
Definition changer_add (fs : FS) (c : ChangerNode) (path : string) : ChangerNode * bool :=
  match fs !! path with
  | None => (c, false)
  | Some _ => (c <| discs := match discs c with [] => [path] | d :: ds => d :: path :: ds end |>, true)
  end.

Definition changer_remove (c : ChangerNode) (ordinal : nat) : ChangerNode * option string :=
  match discs c !! ordinal with
  | None => (c, None)
  | Some d => (c <| discs := delete ordinal (discs c) |>, Some d)
  end.

Definition changer_move_next (c : ChangerNode) (ordinal : nat) : ChangerNode * bool :=
  if (ordinal =? 0)%nat then (c, false)
  else match discs c !! ordinal with
       | None => (c, false)
       | Some path =>
           match delete ordinal (discs c) with
           | [] => (c, true)
           | d :: ds => (c <| discs := d :: path :: ds |>, true)
           end
       end.

(** The next disc turns up, or the tray empties; a disc that does not open
    leaves the drive as it was. *)
Definition changer_eject (fs : FS) (c : ChangerNode) : ChangerNode * result (option string) :=
  match discs c with
  | d0 :: d1 :: ds =>
      match (open_file_image fs d1 Cdrom false None).2 with
      | Err e => (c, Err e)
      | Ok node => (mkChanger (d1 :: ds ++ [d0]) (Some node) true, Ok (Some d1))
      end
  | _ => (changer_unload c <| discs := [] |>, Ok None)
  end.

Definition changer_load (fs : FS) (c : ChangerNode) (path : string) : ChangerNode * result unit :=
  match (open_file_image fs path Cdrom false None).2 with
  | Err e => (c, Err e)
  | Ok node =>
      let ds := match discs c with
                | [] => [path]
                | [d] => if decide (d = path) then [d] else [path; d]
                | ds => path :: filter (fun d => d <> path) ds
                end in
      (mkChanger ds (Some node) true, Ok tt)
  end.

(** ** Media *)

Inductive Media : Type :=
| Fixed (n : Node) (path : string)
| Changer (c : ChangerNode).

Definition media_node (m : Media) : option Node := match m with Fixed n _ => Some n | Changer c => active c end.

Definition present (m : Media) : bool := match m with Fixed _ _ => true | Changer c => match active c with Some _ => true | None => false end end.

Definition take_changed (m : Media) : Media * bool :=
  match m with Fixed _ _ => (m, false) | Changer c => (Changer (c <| changed := false |>), changed c) end.

Definition media_size (m : Media) : Z := match media_node m with Some n => node_size n | None => 0 end.

Definition set_node (m : Media) (n : Node) : Media := match m with Fixed _ p => Fixed n p | Changer c => Changer (c <| active := Some n |>) end.

Definition media_read (fs : FS) (m : Media) (offset len : Z) : result (list Z) :=
  match media_node m with Some n => node_read fs n offset len | None => Err NotConnected end.

Definition media_write (fs : FS) (m : Media) (offset : Z) (buf : list Z) : FS * Media * result unit :=
  match media_node m with
  | Some n => let '(fs, n, r) := node_write fs n offset buf in (fs, set_node m n, r)
  | None => (fs, m, Err NotConnected)
  end.

(** ** The device *)

Record ScsiDevice : Type := mkDevice {
  media : Media;
  kind : DeviceKind;
  buffer : list Z;
  pending_sense : list Z;
  phys_block_size : Z;
  logical_block_size : Z;
  identity : ScsiIdentity;
}.

#[global] Instance eta_ScsiDevice : Settable ScsiDevice := fun r =>
  mkDevice (media r) (kind r) (buffer r) (pending_sense r) (phys_block_size r) (logical_block_size r) (identity r).

Definition zeros (n : Z) : list Z := replicate (Z.to_nat n) 0.

Definition new_device (node : Node) (is_cdrom : bool) (path : string) (ds : list string) (id : ScsiIdentity) : ScsiDevice :=
  mkDevice (if is_cdrom then Changer (changer_loaded node path ds) else Fixed node path)
    (if is_cdrom then KCdrom else KDisk) (zeros SCSI_BUFFER_SIZE) (zeros 18)
    (if is_cdrom then CDROM_SECTOR else 512) (if is_cdrom then 2048 else 512) id.

Definition new_empty_cdrom (id : ScsiIdentity) : ScsiDevice :=
  mkDevice (Changer changer_empty) KCdrom (zeros SCSI_BUFFER_SIZE) (zeros 18) CDROM_SECTOR 2048 id.

Definition is_cdrom (d : ScsiDevice) : bool := bool_decide (kind d = KCdrom).
Definition size (d : ScsiDevice) : Z := media_size (media d).
Definition power_on_block_size (d : ScsiDevice) : ScsiDevice := d <| logical_block_size := if is_cdrom d then 2048 else 512 |>.
Definition reset_block_size (d : ScsiDevice) (cdrom_512 : bool) : ScsiDevice :=
  if cdrom_512 && is_cdrom d then d <| logical_block_size := 512 |> else power_on_block_size d.

(** What a command leaves: the files, the device, and the answer. *)
Definition outcome : Type := FS * ScsiDevice * result ScsiResponse.

Definition good (fs : FS) (d : ScsiDevice) (bytes : list Z) : outcome := (fs, d, Ok (mkResp 0x00 bytes)).

Definition set_sense (d : ScsiDevice) (key asc ascq : Z) : ScsiDevice :=
  d <| pending_sense := [0x70; 0; key; 0; 0; 0; 0; 10; 0; 0; 0; 0; asc; ascq; 0; 0; 0; 0] |>.

Definition check_condition (fs : FS) (d : ScsiDevice) (key asc ascq : Z) : outcome :=
  (fs, set_sense d key asc ascq, Ok (mkResp 0x02 [])).

(** A failure that leaves the sense data alone. *)
Definition bare_failure (fs : FS) (d : ScsiDevice) : outcome := (fs, d, Ok (mkResp 0x02 [])).

Definition truncate (l : list Z) (n : Z) : list Z := take (Z.to_nat n) l.

Definition be32 (v : Z) : list Z := [u8 (v .>> 24); u8 (v .>> 16); u8 (v .>> 8); u8 v].

Definition be (bytes : list Z) : Z := foldl (fun a b => (a .<< 8) .| b) 0 bytes.

(** The bytes [i .. j] of the descriptor block as a number. *)
Definition field (c : list Z) (i j : Z) : option Z := be <$> mapM (aget c) (seqZ i (j - i + 1)).

Definition alloc_len_10 (c : list Z) : option Z := field c 7 8.

Definition request_sense_alloc_len (c : list Z) : option Z := b ← aget c 4; Some (if b =? 0 then 4 else b).

(** *** Status *)

Definition exec_test_unit_ready (fs : FS) (d : ScsiDevice) : outcome :=
  let '(m, ch) := take_changed (media d) in
  let d := d <| media := m |> in
  if ch then check_condition fs d 0x06 0x28 0x00
  else if negb (present (media d)) then check_condition fs d 0x02 0x3A 0x00
  else good fs d [].

Definition exec_request_sense (fs : FS) (d : ScsiDevice) (c : list Z) : option outcome :=
  n ← request_sense_alloc_len c;
  Some (good fs (d <| pending_sense := 0x70 :: zeros 17 |>) (truncate (pending_sense d) n)).

Definition exec_inquiry (fs : FS) (d : ScsiDevice) (c : list Z) : option outcome :=
  n ← aget c 4;
  b1 ← aget c 1;
  let bytes :=
    if (b1 .>> 5) .& 7 =? 0 then
      (if is_cdrom d then [0x05; 0x80] else [0x00; 0x00]) ++ [0x02; 0x02; 31; 0; 0; 0] ++ vendor (identity d) ++ product (identity d) ++ revision (identity d)
    else [0x7F; 0; 0x02; 0x02; 31] ++ zeros 31 in
  Some (good fs d (truncate bytes n)).

Definition exec_read_capacity_10 (fs : FS) (d : ScsiDevice) : outcome :=
  if negb (present (media d)) then check_condition fs d 0x02 0x3A 0x00
  else
    let last_lba := u32 (Z.max 0 (size d / logical_block_size d - 1)) in
    good fs d (be32 last_lba ++ be32 (u32 (logical_block_size d))).

(** *** Blocks *)

Definition perform_read (fs : FS) (d : ScsiDevice) (lba count : Z) : outcome :=
  if negb (present (media d)) then check_condition fs d 0x02 0x3A 0x00
  else
    let last_lba := size d / logical_block_size d in
    if (0 <? count) && ((last_lba <=? lba) || (last_lba <? lba + count)) then check_condition fs d 0x05 0x21 0x00
    else
      match media_read fs (media d) (lba * logical_block_size d) (count * logical_block_size d) with
      | Err e => (fs, d, Err e)
      | Ok bytes => good fs d bytes
      end.

(** The data goes to 512 times the block number, whatever the block size. *)
Definition perform_write (fs : FS) (d : ScsiDevice) (lba count : Z) (din : option (list Z)) : outcome :=
  if is_cdrom d then check_condition fs d 0x07 0x27 0x00
  else if size d <? (lba + count) * logical_block_size d then check_condition fs d 0x05 0x21 0x00
  else
    match din with
    | None => bare_failure fs d
    | Some bytes =>
        if negb (Z.of_nat (length bytes) =? count * logical_block_size d) then bare_failure fs d
        else if negb (present (media d)) then check_condition fs d 0x02 0x3A 0x00
        else
          let '(fs, m, r) := media_write fs (media d) (lba * 512) bytes in
          let d := d <| media := m |> in
          match r with Err _ => check_condition fs d 0x03 0x0c 0x00 | Ok _ => good fs d [] end
    end.

Definition lba_6 (c : list Z) : option Z :=
  b1 ← aget c 1; b2 ← aget c 2; b3 ← aget c 3; Some (((b1 .& 0x1F) .<< 16) .| (b2 .<< 8) .| b3).

Definition count_6 (c : list Z) : option Z := b ← aget c 4; Some (if b =? 0 then 256 else b).

Definition exec_read_6 (fs : FS) (d : ScsiDevice) (c : list Z) : option outcome :=
  lba ← lba_6 c; count ← count_6 c; Some (perform_read fs d lba count).

Definition exec_read_10 (fs : FS) (d : ScsiDevice) (c : list Z) : option outcome :=
  lba ← field c 2 5; count ← field c 7 8; Some (perform_read fs d lba count).

Definition exec_write_6 (fs : FS) (d : ScsiDevice) (c : list Z) (din : option (list Z)) : option outcome :=
  lba ← lba_6 c; count ← count_6 c; Some (perform_write fs d lba count din).

Definition exec_write_10 (fs : FS) (d : ScsiDevice) (c : list Z) (din : option (list Z)) : option outcome :=
  lba ← field c 2 5; count ← field c 7 8; Some (perform_write fs d lba count din).

(** *** Ejecting *)

Definition eject (fs : FS) (d : ScsiDevice) : ScsiDevice :=
  match media d with Changer c => d <| media := Changer (changer_eject fs c).1 |> | Fixed _ _ => d end.

Definition exec_start_stop_unit (fs : FS) (d : ScsiDevice) (c : list Z) : option outcome :=
  b ← aget c 4;
  Some (good fs (if has b 0x02 && negb (has b 0x01) && is_cdrom d then eject fs d else d) []).

Definition exec_sgi_eject (fs : FS) (d : ScsiDevice) : outcome :=
  if negb (is_cdrom d) then check_condition fs d 0x05 0x20 0x00 else good fs (eject fs d) [].

(** *** Mode pages *)

Definition want_page (page_code pc : Z) : bool := (page_code =? 0x3F) || (page_code =? pc).

Definition page_01 : list Z := [0x01; 0x0A; 0x00; 0x01; 0x00; 0x00; 0x00; 0x00; 0x01; 0x00; 0x00; 0x00].

Definition page_2a : list Z :=
  [0x2a; 0x12; 0x00; 0x00; 0x71; 0x00; 0x00; 0x00; 0x01; 0x00; 0x00; 0x00; 0x00; 0x00; 0x01; 0x00; 0x00; 0x00; 0x00; 0x00; 0x00; 0x00].

Definition page_0e : list Z := [0x0e; 0x0e; 0x04; 0x00; 0x00; 0x00; 0x00; 0x4b; 0x01; 0xff; 0x02; 0xff; 0x00; 0x00; 0x00; 0x00].

Definition page_03 (lbs : Z) : list Z :=
  let bps := u16 lbs in
  [0x03; 0x16] ++ zeros 8 ++ [0; 63; u8 (bps .>> 8); u8 bps; 0x00; 0x01] ++ zeros 8.

Definition page_04 (cyl : Z) : list Z :=
  [0x04; 0x16; u8 (cyl .>> 16); u8 (cyl .>> 8); u8 cyl; 16] ++ zeros 14 ++ [0x1C; 0x20; 0x00; 0x00].

Definition page_08 : list Z :=
  [0x08; 0x12; 0x04; 0x00; 0x00; 0x00; 0x00; 0x00; 0xff; 0xff; 0xff; 0xff] ++ zeros 8.

Definition block_descriptor (d : ScsiDevice) : list Z :=
  let total := u32 (size d / logical_block_size d) in
  let lbs := u32 (logical_block_size d) in
  [0x00; u8 (total .>> 16); u8 (total .>> 8); u8 total; 0x00; u8 (lbs .>> 16); u8 (lbs .>> 8); u8 lbs].

(** The block descriptor and the pages, or [None] for a page the drive does
    not have. *)
Definition build_mode_sense_pages (d : ScsiDevice) (page_code : Z) (dbd : bool) : option (list Z * list Z) :=
  if is_cdrom d && ((page_code =? 0x08) || (page_code =? 0x03) || (page_code =? 0x04)) then None
  else
    let lbs := u32 (logical_block_size d) in
    let desc := if dbd then [] else block_descriptor d in
    let cylinders := u32 ((size d / logical_block_size d + (16 * 63 - 1)) / (16 * 63)) in
    let want := want_page page_code in
    let pages :=
      (if want 0x01 then page_01 else []) ++
      (if is_cdrom d && want 0x2a then page_2a else []) ++
      (if is_cdrom d && want 0x0e then page_0e else []) ++
      (if negb (is_cdrom d) then
         (if want 0x03 then page_03 lbs else []) ++ (if want 0x04 then page_04 cylinders else []) ++ (if want 0x08 then page_08 else [])
       else []) in
    Some (desc, pages).

Definition exec_mode_sense_6 (fs : FS) (d : ScsiDevice) (c : list Z) : option outcome :=
  b2 ← aget c 2; b1 ← aget c 1; alloc ← aget c 4;
  match build_mode_sense_pages d (b2 .& 0x3F) (has b1 0x08) with
  | None => Some (check_condition fs d 0x05 0x24 0x00)
  | Some (desc, pages) =>
      let bd_len := Z.of_nat (length desc) in
      let total := 4 + bd_len + Z.of_nat (length pages) in
      let header := u8 (total - 1) :: (if is_cdrom d then [0x01; 0x80] else [0x00; 0x00]) ++ [u8 bd_len] in
      Some (good fs d (truncate (header ++ desc ++ pages) alloc))
  end.

Definition exec_mode_sense_10 (fs : FS) (d : ScsiDevice) (c : list Z) : option outcome :=
  b2 ← aget c 2; b1 ← aget c 1; alloc ← field c 7 8;
  match build_mode_sense_pages d (b2 .& 0x3F) (has b1 0x08) with
  | None => Some (check_condition fs d 0x05 0x24 0x00)
  | Some (desc, pages) =>
      let bd_len := Z.of_nat (length desc) in
      let total := 8 + bd_len + Z.of_nat (length pages) in
      let len := u16 (total - 2) in
      let header := [u8 (len .>> 8); u8 len] ++ (if is_cdrom d then [0x01; 0x80] else [0x00; 0x00]) ++ [0; 0; u8 (bd_len .>> 8); u8 bd_len] in
      Some (good fs d (truncate (header ++ desc ++ pages) (Z.min alloc 65535)))
  end.

Definition select_block_descriptor (d : ScsiDevice) (bytes : list Z) (at_ len : Z) : option ScsiDevice :=
  if (8 <=? len) && (at_ + len <=? Z.of_nat (length bytes)) then
    new_lbs ← field bytes (at_ + 5) (at_ + 7);
    Some (if (new_lbs =? 512) || (new_lbs =? 1024) || (new_lbs =? 2048) then d <| logical_block_size := new_lbs |> else d)
  else Some d.

Definition exec_mode_select_6 (fs : FS) (d : ScsiDevice) (c : list Z) (din : option (list Z)) : option outcome :=
  param_len ← aget c 4;
  match din with
  | None => Some (good fs d [])
  | Some bytes =>
      if (Z.of_nat (length bytes) <? param_len) || (param_len <? 4) then Some (good fs d [])
      else len ← aget bytes 3; d ← select_block_descriptor d bytes 4 len; Some (good fs d [])
  end.

Definition exec_mode_select_10 (fs : FS) (d : ScsiDevice) (c : list Z) (din : option (list Z)) : option outcome :=
  param_len ← field c 7 8;
  match din with
  | None => Some (good fs d [])
  | Some bytes =>
      if (param_len <=? Z.of_nat (length bytes)) && (8 <=? param_len)
      then len ← field bytes 6 7; d ← select_block_descriptor d bytes 8 len; Some (good fs d [])
      else Some (good fs d [])
  end.

(** *** The buffer *)

Definition exec_write_buffer (fs : FS) (d : ScsiDevice) (c : list Z) (din : option (list Z)) : option outcome :=
  b1 ← aget c 1;
  offset ← field c 3 5;
  len ← field c 6 8;
  let mode := b1 .& 0x1F in
  if mode <=? 2 then
    match din with
    | None => Some (good fs d [])
    | Some bytes =>
        let data_offset := if mode =? 0 then 4 else 0 in
        if Z.of_nat (length bytes) <? data_offset then None
        else
          let actual := drop (Z.to_nat data_offset) bytes in
          let n := Z.max 0 (len - data_offset) in
          if (offset + n <=? SCSI_BUFFER_SIZE) && (n <=? Z.of_nat (length actual))
          then Some (good fs (d <| buffer ::= (fun b => copy_at b offset (truncate actual n)) |>) [])
          else Some (bare_failure fs d)
    end
  else Some (bare_failure fs d).

(** The release build wraps the subtraction of an offset past the buffer. *)
Definition exec_read_buffer (fs : FS) (d : ScsiDevice) (c : list Z) : option outcome :=
  b1 ← aget c 1;
  offset ← field c 3 5;
  alloc ← field c 6 8;
  let mode := b1 .& 0x1F in
  let capacity := [u8 (SCSI_BUFFER_SIZE .>> 16); u8 (SCSI_BUFFER_SIZE .>> 8); u8 SCSI_BUFFER_SIZE] in
  if mode =? 0 then
    let n := Z.min (Z.max 0 (alloc - 4)) (u64 (SCSI_BUFFER_SIZE - offset)) in
    let body := if (offset <? SCSI_BUFFER_SIZE) && (0 <? n) then slice (buffer d) offset n else [] in
    Some (good fs d (truncate (0x00 :: capacity ++ body) alloc))
  else if mode <=? 2 then
    if SCSI_BUFFER_SIZE <? offset + alloc then Some (bare_failure fs d) else Some (good fs d (slice (buffer d) offset alloc))
  else if mode =? 3 then Some (good fs d (0x00 :: capacity))
  else Some (bare_failure fs d).

(** *** CD-ROM *)

Definition exec_read_toc_pma_atip (fs : FS) (d : ScsiDevice) (c : list Z) : option outcome :=
  if negb (present (media d)) then Some (check_condition fs d 0x02 0x3A 0x00)
  else
    b1 ← aget c 1; b2 ← aget c 2; alloc ← alloc_len_10 c;
    let msf := has b1 0x02 in
    let total := u32 (size d / phys_block_size d) in
    let format := b2 .& 0x0F in
    if format =? 0 then
      let track1 := if msf then [0x00; 0x00; 0x02; 0x00] else be32 0 in
      let lead_out := if msf then [0x00; u8 (total / 75 / 60); u8 (total / 75 mod 60); u8 (total mod 75)] else be32 total in
      Some (good fs d (truncate ([0x00; 0x12; 0x01; 0x01; 0x00; 0x14; 0x01; 0x00] ++ track1 ++ [0x00; 0x14; 0xAA; 0x00] ++ lead_out) alloc))
    else if format =? 1 then Some (good fs d (truncate ([0x00; 0x0A; 0x01; 0x01; 0x00; 0x14; 0x01; 0x00] ++ be32 0) alloc))
    else Some (check_condition fs d 0x05 0x24 0x00).

Definition exec_get_configuration (fs : FS) (d : ScsiDevice) (c : list Z) : option outcome :=
  if negb (is_cdrom d) then Some (check_condition fs d 0x05 0x20 0x00)
  else
    alloc ← alloc_len_10 c;
    Some (good fs d (truncate (be32 12 ++ [0x00; 0x00; 0x00; 0x08; 0x00; 0x00; 0x03; 0x04; 0x00; 0x08; 0x01; 0x00]) alloc)).

(** ** One command *)

Definition dispatch (fs : FS) (d : ScsiDevice) (c : list Z) (din : option (list Z)) (op : Z) : option outcome :=
  if op =? TEST_UNIT_READY then Some (exec_test_unit_ready fs d)
  else if op =? REQUEST_SENSE then exec_request_sense fs d c
  else if op =? INQUIRY then exec_inquiry fs d c
  else if op =? READ_CAPACITY_10 then Some (exec_read_capacity_10 fs d)
  else if op =? READ_6 then exec_read_6 fs d c
  else if op =? READ_10 then exec_read_10 fs d c
  else if op =? WRITE_6 then exec_write_6 fs d c din
  else if op =? WRITE_10 then exec_write_10 fs d c din
  else if op =? START_STOP_UNIT then exec_start_stop_unit fs d c
  else if op =? MODE_SENSE_6 then exec_mode_sense_6 fs d c
  else if op =? MODE_SENSE_10 then exec_mode_sense_10 fs d c
  else if op =? WRITE_BUFFER then exec_write_buffer fs d c din
  else if op =? READ_BUFFER then exec_read_buffer fs d c
  else if (op =? SEND_DIAGNOSTIC) || (op =? PREVENT_ALLOW_MEDIUM_REMOVAL) || (op =? SYNCHRONIZE_CACHE_10) then Some (good fs d [])
  else if op =? MODE_SELECT_6 then exec_mode_select_6 fs d c din
  else if op =? MODE_SELECT_10 then exec_mode_select_10 fs d c din
  else if (op =? RESERVE_6) || (op =? RELEASE_6) || (op =? VERIFY_10) || (op =? SET_CD_SPEED) then Some (good fs d [])
  else if op =? READ_TOC_PMA_ATIP then exec_read_toc_pma_atip fs d c
  else if op =? GET_CONFIGURATION then exec_get_configuration fs d c
  else if op =? SGI_EJECT then Some (exec_sgi_eject fs d)
  else if op =? SGI_HD2CDROM then Some (good fs d [])
  else Some (check_condition fs d 0x05 0x20 0x00).

Definition cut (l : ScsiDataLength) (r : ScsiResponse) : ScsiResponse :=
  match l with FixedLength n => mkResp (status r) (truncate (data r) n) | Unlimited => r end.

Definition request (fs : FS) (d : ScsiDevice) (req : ScsiRequest) : option outcome :=
  match cdb req with
  | [] => Some (check_condition fs d 0x05 0x20 0x00)
  | op :: _ =>
      b1 ← aget (cdb req) 1;
      let spared := (op =? INQUIRY) || (op =? REQUEST_SENSE) in
      if negb ((b1 .>> 5) .& 7 =? 0) && negb spared then Some (check_condition fs d 0x05 0x25 0x00)
      else
        let '(m, ch) := if spared then (media d, false) else take_changed (media d) in
        let d := d <| media := m |> in
        if ch then Some (check_condition fs d 0x06 0x28 0x00)
        else
          '(fs, d, r) ← dispatch fs d (cdb req) (data_in req) op;
          Some (fs, d, match r with Ok r => Ok (cut (data_len req) r) | Err e => Err e end)
  end.

(** ** The copy-on-write layer *)

Definition cow_commit (order : gset Z -> list Z) (fs : FS) (d : ScsiDevice) : FS * ScsiDevice * result nat :=
  match media_node (media d) with
  | Some n => let '(fs, n, r) := node_commit order fs n in (fs, d <| media ::= (fun m => set_node m n) |>, r)
  | None => (fs, d, Ok 0%nat)
  end.

Definition cow_reset (fs : FS) (d : ScsiDevice) : FS * ScsiDevice :=
  match media_node (media d) with
  | Some n => let '(fs, n) := node_rollback fs n in (fs, d <| media ::= (fun m => set_node m n) |>)
  | None => (fs, d)
  end.

End Scsi.
