(* ===== verification/ScsiClaims.v ===== *)
(** * Theorems about SCSI targets

    A disk answers the block commands as an array of bytes does, over anything
    that stores blocks as [DiskLaws] says; the overlays of [BlockNode] do. *)

From stdpp Require Import strings.
From S2P Require Import Prelude BlockNode BlockProofs BlockClaims Scsi.
Import BlockNode Scsi.

#[local] Open Scope Z_scope.
#[local] Open Scope word_scope.

Module ScsiClaims.

(** ** What a target relies on of its image *)

Class DiskLaws (R : FS -> Node -> list Z -> Prop) : Prop := {
  disk_size fs n b : R fs n b -> node_size n = Z.of_nat (length b);
  disk_read fs n b off len : R fs n b -> 0 <= off -> 0 <= len ->
    node_read fs n off len = if bool_decide (off + len <= Z.of_nat (length b)) then Ok (slice b off len) else Err InvalidInput;
  disk_write fs n b off buf : R fs n b -> 0 <= off -> off + Z.of_nat (length buf) <= Z.of_nat (length b) ->
    exists fs' n', node_write fs n off buf = (fs', n', Ok tt) /\ R fs' n' (copy_at b off buf);
}.

(** An image of whole sectors mounted copy-on-write. *)
#[export] Instance overlay_disk path ov (Hpath : path <> ov /\ path <> sidecar_path_for ov /\ path <> sidecar_tmp ov) :
  DiskLaws (fun fs n b => exists dur, BlockClaims.mounted path ov (fs, n) {| BlockClaims.durable := dur; BlockClaims.current := b |}).
Proof.
  split.
  - intros fs n b [dur M]. destruct (BlockClaims.mounted_length path ov fs n _ M) as (Hl & Hs & _). cbn in *. congruence.
  - intros fs n b off len [dur M] Ho Hl. by rewrite (BlockClaims.sim_read path ov fs n _ off len M Ho Hl).
  - intros fs n b off buf [dur M] Ho Hl. pose proof (BlockClaims.sim_write path ov Hpath fs n _ off buf M Ho) as S.
    destruct (node_write fs n off buf) as [[fs' n'] r]. cbn [BlockClaims.flat_step] in S. unfold BlockClaims.in_range in S. cbn in S.
    rewrite bool_decide_true in S by done. destruct S as [E M']. destruct r as [[]|]; [|done]. exists fs', n'. split; [done|]. by exists dur.
Qed.

(** ** Numbers in descriptor blocks *)

Definition value (l : list Z) : Z := foldl (fun a b => a * 256 + b) 0 l.

Lemma be_value l : Forall (fits 8) l -> be l = value l.
Proof.
  unfold be, value. assert (H : forall a, 0 <= a -> Forall (fits 8) l -> foldl (fun a b => (a .<< 8) .| b) a l = foldl (fun a b => a * 256 + b) a l).
  { induction l as [|x l IH]; intros a Ha Hl; cbn; [done|]. inversion_clear Hl as [|? ? Hx Hl']. rewrite Z.shiftl_mul_pow2 by done.
    assert ((a * 2 ^ 8) .| x = a * 256 + x) as ->.
    { change (a * 256 + x) with (a * 2 ^ 8 + x). apply lor_block; [done|exact Hx]. }
    apply IH; [unfold fits in Hx; lia|done]. }
  intros Hl. by apply H.
Qed.

Lemma mapM_aget (c : list Z) i n : 0 <= i -> 0 <= n -> i + n <= Z.of_nat (length c) -> mapM (aget c) (seqZ i n) = Some (slice c i n).
Proof.
  intros Hi Hn Hl. apply mapM_Some_2, Forall2_same_length_lookup. split.
  - rewrite length_seqZ. unfold slice. rewrite length_take, length_drop. lia.
  - intros k x y [-> Hk]%lookup_seqZ. unfold slice. intros [Hy _]%lookup_take_Some. rewrite lookup_drop in Hy.
    unfold aget. rewrite (proj2 (Z.leb_le 0 _)) by lia. rewrite <- Hy. f_equal. lia.
Qed.

Lemma Forall_slice (P : Z -> Prop) l i n : Forall P l -> Forall P (slice l i n).
Proof. intros. by apply Forall_take, Forall_drop. Qed.

(** The bytes [i .. j] of a block are a big-endian number. *)
Lemma field_value c i j : 0 <= i <= j -> j < Z.of_nat (length c) -> Forall (fits 8) c ->
  field c i j = Some (value (slice c i (j - i + 1))).
Proof. intros. unfold field. rewrite mapM_aget by lia. cbn. f_equal. apply be_value. by apply Forall_slice. Qed.

Lemma field_total c i j : 0 <= i <= j -> j < Z.of_nat (length c) -> exists v, field c i j = Some v.
Proof. intros. unfold field. rewrite mapM_aget by lia. by eexists. Qed.

Lemma value_nonneg l : Forall (fits 8) l -> 0 <= value l.
Proof.
  unfold value. assert (H : forall a, 0 <= a -> Forall (fits 8) l -> 0 <= foldl (fun a b => a * 256 + b) a l).
  { induction l as [|x l IH]; intros a Ha Hl; [done|]. inversion_clear Hl as [|? ? Hx Hl']. apply IH; [unfold fits in Hx; lia|done]. }
  intros. by apply H.
Qed.

(** ** A disk as an array of bytes

    The contents, and the sense data kept for REQUEST SENSE. *)

Record Disk : Type := mkDisk { contents : list Z; sense : list Z }.

Inductive Command : Type := CReady | CRead (lba count : Z) | CWrite (lba count : Z) | CSense (len : Z) | CCapacity.

(** A length byte of zero stands for [z]. *)
Definition or_default (z n : Z) : Z := if n =? 0 then z else n.

(** The commands the specification answers in full; the number fields are
    big-endian, and the 6-byte block address shares its first byte with the
    logical unit. *)
Definition command (c : list Z) : option Command :=
  let op := value (slice c 0 1) in
  if op =? 0x00 then Some CReady
  else if op =? 0x03 then Some (CSense (or_default 4 (value (slice c 4 1))))
  else if op =? 0x08 then Some (CRead (value (slice c 1 3)) (or_default 256 (value (slice c 4 1))))
  else if op =? 0x0a then Some (CWrite (value (slice c 1 3)) (or_default 256 (value (slice c 4 1))))
  else if op =? 0x25 then Some CCapacity
  else if op =? 0x28 then Some (CRead (value (slice c 2 4)) (value (slice c 7 2)))
  else if op =? 0x2a then Some (CWrite (value (slice c 2 4)) (value (slice c 7 2)))
  else None.

(** The logical unit a descriptor block names; only INQUIRY and REQUEST SENSE
    may name another than 0. *)
Definition lun (c : list Z) : Z := value (slice c 1 1) / 32.
Definition any_lun (c : list Z) : bool := let op := value (slice c 0 1) in (op =? 0x03) || (op =? 0x12).

Definition answer (s : Disk) (bytes : list Z) : Disk * result ScsiResponse := (s, Ok (mkResp 0 bytes)).

Definition refuse (s : Disk) (asc : Z) : Disk * result ScsiResponse :=
  (mkDisk (contents s) [0x70; 0; 5; 0; 0; 0; 0; 10; 0; 0; 0; 0; asc; 0; 0; 0; 0; 0], Ok (mkResp 2 [])).

Definition fits_disk (s : Disk) (lba count : Z) : bool := (lba + count) * 512 <=? Z.of_nat (length (contents s)).

Definition command_step (s : Disk) (k : Command) (din : option (list Z)) : Disk * result ScsiResponse :=
  match k with
  | CReady => answer s []
  | CSense n => answer (mkDisk (contents s) (0x70 :: repeat 0 17)) (take (Z.to_nat n) (sense s))
  | CCapacity => answer s (be32 (u32 (Z.max 0 (Z.of_nat (length (contents s)) / 512 - 1))) ++ [0; 0; 2; 0])
  | CRead lba count =>
      if fits_disk s lba count then answer s (slice (contents s) (lba * 512) (count * 512))
      else if count =? 0 then (s, Err InvalidInput) else refuse s 0x21
  | CWrite lba count =>
      if negb (fits_disk s lba count) then refuse s 0x21
      else match din with
           | Some bytes =>
               if Z.of_nat (length bytes) =? count * 512 then answer (mkDisk (copy_at (contents s) (lba * 512) bytes) (sense s)) []
               else (s, Ok (mkResp 2 []))
           | None => (s, Ok (mkResp 2 []))
           end
  end.

(** The answer and what it leaves; a command outside [command] keeps the
    contents. *)
Definition allowed (s : Disk) (req : ScsiRequest) (r : result ScsiResponse) (s' : Disk) : Prop :=
  if negb (lun (cdb req) =? 0) && negb (any_lun (cdb req)) then (s', r) = refuse s 0x25
  else match command (cdb req) with
       | Some k => let '(s1, r1) := command_step s k (data_in req) in
                   s' = s1 /\ r = match r1 with Ok a => Ok (cut (data_len req) a) | Err e => Err e end
       | None => contents s' = contents s
       end.

(** ** Requests *)

Fixpoint scsi_run (fs : FS) (d : ScsiDevice) (reqs : list ScsiRequest) : option (FS * ScsiDevice * list (result ScsiResponse)) :=
  match reqs with
  | [] => Some (fs, d, [])
  | req :: reqs =>
      '(fs, d, r) ← request fs d req;
      '(fs, d, rs) ← scsi_run fs d reqs;
      Some (fs, d, r :: rs)
  end.

Inductive history : Disk -> list ScsiRequest -> list (result ScsiResponse) -> Disk -> Prop :=
| history_nil s : history s [] [] s
| history_cons s req r s1 reqs rs s2 : allowed s req r s1 -> history s1 reqs rs s2 -> history s (req :: reqs) (r :: rs) s2.

(** The block length a MODE SELECT's parameter list names: its header takes
    [hdr] bytes. *)
Definition selects (hdr : Z) (bytes : list Z) : Z := value (slice bytes (hdr + 5) 3).

(** A block of the length its opcode has, of bytes; a MODE SELECT does not
    name blocks of 1024 or 2048 bytes, and a WRITE BUFFER in combined mode
    brings its header. *)
Definition well_formed (req : ScsiRequest) : Prop :=
  let op := value (slice (cdb req) 0 1) in
  Z.of_nat (length (cdb req)) = get_cdb_length op /\ Forall (fits 8) (cdb req) /\
  match data_in req with
  | Some bytes =>
      Forall (fits 8) bytes /\
      (op = MODE_SELECT_6 -> selects 4 bytes <> 1024 /\ selects 4 bytes <> 2048) /\
      (op = MODE_SELECT_10 -> selects 8 bytes <> 1024 /\ selects 8 bytes <> 2048) /\
      (op = WRITE_BUFFER -> value (slice (cdb req) 1 1) mod 32 = 0 -> 4 <= Z.of_nat (length bytes))
  | None => True
  end.

#[export] Instance well_formed_dec req : Decision (well_formed req).
Proof. unfold well_formed, fits. destruct (data_in req); apply _. Defined.

(** ** The refinement *)

Lemma get_cdb_length_bounds op : 6 <= get_cdb_length op.
Proof. unfold get_cdb_length. by repeat case_match. Qed.

Lemma aget_value c i : 0 <= i < Z.of_nat (length c) -> aget c i = Some (value (slice c i 1)).
Proof.
  intros [Hi Hl]. unfold slice. destruct (aget_Some c i ltac:(lia)) as [x Hx]. rewrite Hx. apply aget_inv in Hx as [_ Hx].
  rewrite (drop_S _ _ _ Hx). by cbn.
Qed.

Lemma byte_at c i : 0 <= i < Z.of_nat (length c) -> Forall (fits 8) c -> fits 8 (value (slice c i 1)).
Proof. intros Hi Hc. pose proof (aget_value c i Hi) as [_ Hx]%aget_inv. eapply Forall_lookup_1; eauto. Qed.

Lemma slice_cons3 c i : 0 <= i -> i + 3 <= Z.of_nat (length c) ->
  value (slice c i 3) = value (slice c i 1) * 65536 + value (slice c (i + 1) 1) * 256 + value (slice c (i + 2) 1).
Proof.
  intros Hi Hl. pose proof (aget_value c i ltac:(lia)) as Ha. pose proof (aget_value c (i + 1) ltac:(lia)) as Hb. pose proof (aget_value c (i + 2) ltac:(lia)) as Hc.
  apply aget_inv in Ha as [_ Ha], Hb as [_ Hb], Hc as [_ Hc].
  set (x := value (slice c i 1)) in *. set (y := value (slice c (i + 1) 1)) in *. set (z := value (slice c (i + 2) 1)) in *. unfold slice.
  replace (Z.to_nat (i + 1)) with (S (Z.to_nat i)) in Hb by lia. replace (Z.to_nat (i + 2)) with (S (S (Z.to_nat i))) in Hc by lia.
  rewrite (drop_S _ _ _ Ha), (drop_S _ _ _ Hb), (drop_S _ _ _ Hc). change (Z.to_nat 3) with 3%nat. clearbody x y z. unfold value. cbn. rewrite take_0. cbn. lia.
Qed.

Lemma byte_lun b : fits 8 b -> (b .>> 5) .& 7 = b / 32.
Proof.
  intros Hb. unfold fits in Hb. rewrite Z.shiftr_div_pow2 by done. change 7 with (Z.ones 3). rewrite Z.land_ones by done.
  change (2 ^ 5) with 32. apply Z.mod_small. change (2 ^ 8) with 256 in Hb. change (2 ^ 3) with 8. split; [apply Z.div_pos; lia|apply Z.div_lt_upper_bound; lia].
Qed.

(** The address of the 6-byte commands, once the logical unit is 0. *)
Lemma lba_6_value c : 4 <= Z.of_nat (length c) -> Forall (fits 8) c -> lun c = 0 -> lba_6 c = Some (value (slice c 1 3)).
Proof.
  intros Hl Hc Hz. unfold lba_6. rewrite !aget_value by lia. cbn -[slice]. f_equal. rewrite (slice_cons3 c 1) by lia.
  pose proof (byte_at c 1 ltac:(lia) Hc) as H1. pose proof (byte_at c 2 ltac:(lia) Hc) as H2. pose proof (byte_at c 3 ltac:(lia) Hc) as H3.
  unfold lun in Hz. change (1 + 1) with 2. change (1 + 2) with 3. set (x := value (slice c 1 1)) in *. set (y := value (slice c 2 1)) in *. set (z := value (slice c 3 1)) in *.
  assert (x .& 31 = x) as ->. { change 31 with (Z.ones 5). rewrite Z.land_ones by done. apply Z.mod_small. unfold fits in H1. change (2 ^ 5) with 32. apply Z.div_small_iff in Hz; lia. }
  rewrite !Z.shiftl_mul_pow2 by done. rewrite lor_block; [|done|unfold fits in *; lia].
  replace (x * 2 ^ 16 + y * 2 ^ 8) with ((x * 256 + y) * 2 ^ 8) by lia. rewrite lor_block by done. lia.
Qed.

Section Refinement.

Context (R : FS -> Node -> list Z -> Prop) `{!DiskLaws R}.

Definition holds (fs : FS) (d : ScsiDevice) (s : Disk) : Prop :=
  kind d = KDisk /\ logical_block_size d = 512 /\ pending_sense d = sense s /\
  exists n p, media d = Fixed n p /\ R fs n (contents s).

Lemma holds_size fs d s : holds fs d s -> size d = Z.of_nat (length (contents s)).
Proof. intros (_ & _ & _ & n & p & Em & Hr). unfold size. rewrite Em. by apply (disk_size fs). Qed.

Lemma holds_disk fs d s : holds fs d s -> is_cdrom d = false.
Proof. intros (E & _). unfold is_cdrom. by rewrite E. Qed.

(** A command that answers [o] as the specification's [x] does. *)
Definition implements (o : outcome) (x : Disk * result ScsiResponse) : Prop := holds o.1.1 o.1.2 x.1 /\ o.2 = x.2.

Lemma refuse_ok fs d s asc : holds fs d s -> implements (check_condition fs d 5 asc 0) (refuse s asc).
Proof. intros (Ek & El & Es & Hm). repeat split; done. Qed.

Lemma disk_read_ok fs d s lba count : holds fs d s -> 0 <= lba -> 0 <= count -> implements (perform_read fs d lba count) (command_step s (CRead lba count) None).
Proof.
  intros H Hl Hc. pose proof (holds_size _ _ _ H) as Hs. pose proof H as (Ek & El & Es & n & p & Em & Hr).
  unfold perform_read. rewrite Hs, El, Em. cbn [present negb]. unfold command_step, fits_disk.
  destruct (Z.ltb_spec 0 count), (Z.leb_spec ((lba + count) * 512) (Z.of_nat (length (contents s)))); cbn [andb].
  all: try rewrite (proj2 (Z.eqb_neq count 0)) by lia.
  all: pose proof (Z.div_mod (Z.of_nat (length (contents s))) 512 ltac:(lia)); pose proof (Z.mod_pos_bound (Z.of_nat (length (contents s))) 512 ltac:(lia)).
  1,2: destruct (Z.leb_spec (Z.of_nat (length (contents s)) / 512) lba), (Z.ltb_spec (Z.of_nat (length (contents s)) / 512) (lba + count)); cbn [orb]; try lia; try by apply refuse_ok.
  all: unfold media_read; cbn [media_node]; rewrite (disk_read fs n (contents s)) by (done || lia).
  - rewrite bool_decide_true by lia. by split.
  - replace count with 0 in * by lia. rewrite bool_decide_true by lia. by split.
  - replace count with 0 in * by lia. rewrite bool_decide_false by lia. by split.
Qed.

Lemma disk_write_ok fs d s lba count din : holds fs d s -> 0 <= lba -> 0 <= count -> implements (perform_write fs d lba count din) (command_step s (CWrite lba count) din).
Proof.
  intros H Hl Hc. pose proof (holds_size _ _ _ H) as Hs. pose proof (holds_disk _ _ _ H) as Hd. pose proof H as (Ek & El & Es & n & p & Em & Hr).
  unfold perform_write. rewrite Hd, Hs, El. cbn [command_step]. unfold fits_disk. rewrite <- Z.ltb_antisym.
  destruct (Z.ltb_spec (Z.of_nat (length (contents s))) ((lba + count) * 512)); [by apply refuse_ok|].
  destruct din as [bytes|]; [|by split]. destruct (Z.eqb_spec (Z.of_nat (length bytes)) (count * 512)) as [Eb|]; cbn [negb]; [|by split].
  rewrite Em. cbn [present negb]. unfold media_write. cbn [media_node].
  destruct (disk_write fs n (contents s) (lba * 512) bytes Hr) as (fs' & n' & -> & Hr'); [lia|lia|].
  split; [|done]. cbn. repeat split; try done. by exists n', p.
Qed.

(** A command that leaves the blocks, their size and the kind of the drive. *)
Definition quiet (fs : FS) (d : ScsiDevice) (o : option outcome) : Prop :=
  exists d' r, o = Some (fs, d', r) /\ media d' = media d /\ kind d' = kind d /\ logical_block_size d' = logical_block_size d.

Lemma quiet_some fs d d' r : media d' = media d -> kind d' = kind d -> logical_block_size d' = logical_block_size d -> quiet fs d (Some (fs, d', r)).
Proof. intros. by exists d', r. Qed.

Lemma quiet_holds fs d s o : holds fs d s -> quiet fs d o -> exists d' r s', o = Some (fs, d', r) /\ holds fs d' s' /\ contents s' = contents s.
Proof.
  intros (Ek & El & Es & Hm) (d' & r & -> & Em & Ek' & El'). exists d', r, (mkDisk (contents s) (pending_sense d')).
  split; [done|]. split; [|done]. unfold holds. rewrite Ek', El', Em. done.
Qed.

Lemma select_quiet d bytes hdr n : 0 <= hdr -> Forall (fits 8) bytes -> selects hdr bytes <> 1024 -> selects hdr bytes <> 2048 -> logical_block_size d = 512 ->
  exists d', select_block_descriptor d bytes hdr n = Some d' /\ media d' = media d /\ kind d' = kind d /\ logical_block_size d' = logical_block_size d.
Proof.
  intros Hh Hb H1 H2 El. unfold select_block_descriptor. destruct (Z.leb_spec 8 n), (Z.leb_spec (hdr + n) (Z.of_nat (length bytes))); cbn [andb]; try by exists d.
  rewrite field_value by (done || lia). replace (hdr + 7 - (hdr + 5) + 1) with 3 by lia. fold (selects hdr bytes). cbn.
  rewrite (proj2 (Z.eqb_neq _ 1024)), (proj2 (Z.eqb_neq _ 2048)) by done. destruct (Z.eqb_spec (selects hdr bytes) 512) as [E|]; cbn; eexists; split; try done. cbn. by rewrite E.
Qed.

Section Quiet.

Context (fs : FS) (d : ScsiDevice) (c : list Z) (Hc : Forall (fits 8) c).

Lemma mode_select_6_quiet din : 5 <= Z.of_nat (length c) -> logical_block_size d = 512 ->
  (forall bytes, din = Some bytes -> Forall (fits 8) bytes /\ selects 4 bytes <> 1024 /\ selects 4 bytes <> 2048) -> quiet fs d (exec_mode_select_6 fs d c din).
Proof.
  intros Hl El Hd. unfold exec_mode_select_6. rewrite aget_value by lia. cbn [mbind option_bind]. destruct din as [bytes|]; [|by apply quiet_some]. destruct (Hd bytes eq_refl) as (Hb & H1 & H2).
  destruct (Z.ltb_spec (Z.of_nat (length bytes)) (value (slice c 4 1))), (Z.ltb_spec (value (slice c 4 1)) 4); cbn [orb]; try by apply quiet_some.
  rewrite aget_value by lia. cbn [mbind option_bind]. destruct (select_quiet d bytes 4 (value (slice bytes 3 1))) as (d' & -> & Hq); try done. cbn [mbind option_bind]. apply quiet_some; naive_solver.
Qed.

Lemma mode_select_10_quiet din : 10 <= Z.of_nat (length c) -> logical_block_size d = 512 ->
  (forall bytes, din = Some bytes -> Forall (fits 8) bytes /\ selects 8 bytes <> 1024 /\ selects 8 bytes <> 2048) -> quiet fs d (exec_mode_select_10 fs d c din).
Proof.
  intros Hl El Hd. unfold exec_mode_select_10. rewrite field_value by (done || lia). cbn [mbind option_bind]. destruct din as [bytes|]; [|by apply quiet_some]. destruct (Hd bytes eq_refl) as (Hb & H1 & H2).
  destruct (Z.leb_spec (value (slice c 7 (8 - 7 + 1))) (Z.of_nat (length bytes))), (Z.leb_spec 8 (value (slice c 7 (8 - 7 + 1)))); cbn [andb]; try by apply quiet_some.
  rewrite field_value by (done || lia). cbn [mbind option_bind]. destruct (select_quiet d bytes 8 (value (slice bytes 6 (7 - 6 + 1)))) as (d' & -> & Hq); try done. cbn [mbind option_bind]. apply quiet_some; naive_solver.
Qed.

Lemma write_buffer_quiet din : 10 <= Z.of_nat (length c) ->
  (forall bytes, din = Some bytes -> value (slice c 1 1) mod 32 = 0 -> 4 <= Z.of_nat (length bytes)) -> quiet fs d (exec_write_buffer fs d c din).
Proof.
  intros Hl Hd. unfold exec_write_buffer. rewrite aget_value by lia. rewrite !field_value by (done || lia). cbn [mbind option_bind]. change 31 with (Z.ones 5). rewrite Z.land_ones by done. change (2 ^ 5) with 32.
  destruct (_ <=? 2); [|by apply quiet_some]. destruct din as [bytes|]; [|by apply quiet_some].
  destruct (Z.eqb_spec (value (slice c 1 1) mod 32) 0) as [Em|].
  1: rewrite (proj2 (Z.ltb_ge _ 4)) by (by apply Hd). 2: rewrite (proj2 (Z.ltb_ge _ 0)) by lia.
  all: case_match; by apply quiet_some.
Qed.

Lemma read_buffer_quiet : 10 <= Z.of_nat (length c) -> quiet fs d (exec_read_buffer fs d c).
Proof.
  intros Hl. unfold exec_read_buffer. rewrite aget_value by lia. rewrite !field_value by (done || lia). cbn [mbind option_bind].
  destruct (_ =? 0); [by apply quiet_some|]. destruct (_ <=? 2); [case_match; by apply quiet_some|]. case_match; by apply quiet_some.
Qed.

Lemma mode_sense_quiet : 6 <= Z.of_nat (length c) -> quiet fs d (exec_mode_sense_6 fs d c).
Proof.
  intros Hl. unfold exec_mode_sense_6. rewrite !aget_value by lia. cbn [mbind option_bind]. destruct (build_mode_sense_pages _ _ _) as [[desc pages]|]; by apply quiet_some.
Qed.

Lemma mode_sense_10_quiet : 10 <= Z.of_nat (length c) -> quiet fs d (exec_mode_sense_10 fs d c).
Proof.
  intros Hl. unfold exec_mode_sense_10. rewrite !aget_value, field_value by (done || lia). cbn [mbind option_bind]. destruct (build_mode_sense_pages _ _ _) as [[desc pages]|]; by apply quiet_some.
Qed.

Lemma inquiry_quiet : 6 <= Z.of_nat (length c) -> quiet fs d (exec_inquiry fs d c).
Proof. intros Hl. unfold exec_inquiry. rewrite !aget_value by lia. by apply quiet_some. Qed.

Lemma start_stop_quiet : 6 <= Z.of_nat (length c) -> is_cdrom d = false -> quiet fs d (exec_start_stop_unit fs d c).
Proof. intros Hl E. unfold exec_start_stop_unit. rewrite !aget_value by lia. cbn [mbind option_bind]. rewrite E, andb_false_r. by apply quiet_some. Qed.

Lemma toc_quiet : 10 <= Z.of_nat (length c) -> quiet fs d (exec_read_toc_pma_atip fs d c).
Proof.
  intros Hl. unfold exec_read_toc_pma_atip. case_match; [by apply quiet_some|]. unfold alloc_len_10. rewrite !aget_value, field_value by (done || lia). cbn [mbind option_bind].
  case_match; [by apply quiet_some|]. case_match; by apply quiet_some.
Qed.

End Quiet.

(** *** One command *)

Definition steps (s : Disk) (k : option Command) (din : option (list Z)) (o : option outcome) : Prop :=
  exists fs' d' r s', o = Some (fs', d', r) /\ holds fs' d' s' /\
    match k with Some k => command_step s k din = (s', r) | None => contents s' = contents s end.

Lemma steps_quiet fs d s din o : holds fs d s -> quiet fs d o -> steps s None din o.
Proof. intros H Hq. destruct (quiet_holds fs d s o H Hq) as (d' & r & s' & -> & Hd & Hs). by exists fs, d', r, s'. Qed.

Lemma steps_implements s k din o : implements o (command_step s k din) -> steps s (Some k) din (Some o).
Proof. destruct o as [[fs' d'] r]. intros [H E]. cbn in *. exists fs', d', r, (command_step s k din).1. split; [done|]. split; [done|]. subst r. by destruct (command_step s k din). Qed.

Lemma ready_ok fs d s : holds fs d s -> implements (exec_test_unit_ready fs d) (command_step s CReady None).
Proof. intros (Ek & El & Es & n & p & Em & Hr). unfold exec_test_unit_ready. rewrite Em. cbn. repeat split; try done. by exists n, p. Qed.

Lemma sense_ok fs d s n : holds fs d s -> implements (good fs (d <| pending_sense := 0x70 :: zeros 17 |>) (truncate (pending_sense d) n)) (command_step s (CSense n) None).
Proof. intros (Ek & El & Es & Hm). cbn. unfold truncate. rewrite Es. by repeat split. Qed.

Lemma capacity_ok fs d s : holds fs d s -> implements (exec_read_capacity_10 fs d) (command_step s CCapacity None).
Proof.
  intros H. pose proof (holds_size _ _ _ H) as Hs. pose proof H as (Ek & El & Es & n & p & Em & Hr). unfold exec_read_capacity_10. rewrite Hs, El, Em. by split.
Qed.

Lemma default_nonneg z n : 0 <= z -> 0 <= n -> 0 <= or_default z n.
Proof. intros. unfold or_default. by case_match. Qed.

Section Dispatch.

Context (fs : FS) (d : ScsiDevice) (s : Disk) (c : list Z) (din : option (list Z)) (op : Z).
Hypotheses (H : holds fs d s) (Hop : value (slice c 0 1) = op) (Hlen : Z.of_nat (length c) = get_cdb_length op) (Hc : Forall (fits 8) c).

Lemma slice_nonneg i n : 0 <= value (slice c i n).
Proof. by apply value_nonneg, Forall_slice. Qed.

Hint Resolve slice_nonneg default_nonneg : core.

Lemma dispatch_blocks k : command c = Some k -> lun c = 0 \/ op = 0x03 -> steps s (Some k) din (dispatch fs d c din op).
Proof.
  intros E Hz. unfold command in E. rewrite Hop in E. pose proof (get_cdb_length_bounds op).
  destruct (Z.eqb_spec op 0x00) as [->|_]; [injection E as <-; by apply steps_implements, ready_ok|].
  destruct (Z.eqb_spec op 0x03) as [->|N3].
  { injection E as <-. change (dispatch fs d c din 0x03) with (exec_request_sense fs d c). unfold exec_request_sense, request_sense_alloc_len. rewrite aget_value by lia. cbn [mbind option_bind]. by apply steps_implements, sense_ok. }
  destruct Hz as [Hz|]; [|done].
  destruct (Z.eqb_spec op 0x08) as [->|_].
  { injection E as <-. change (dispatch fs d c din 0x08) with (exec_read_6 fs d c). unfold exec_read_6, count_6. rewrite lba_6_value, aget_value by (done || lia). cbn [mbind option_bind].
    apply steps_implements, disk_read_ok; auto. apply default_nonneg; [done|apply slice_nonneg]. }
  destruct (Z.eqb_spec op 0x0a) as [->|_].
  { injection E as <-. change (dispatch fs d c din 0x0a) with (exec_write_6 fs d c din). unfold exec_write_6, count_6. rewrite lba_6_value, aget_value by (done || lia). cbn [mbind option_bind].
    apply steps_implements, disk_write_ok; auto. apply default_nonneg; [done|apply slice_nonneg]. }
  destruct (Z.eqb_spec op 0x25) as [->|_]; [injection E as <-; by apply steps_implements, capacity_ok|].
  destruct (Z.eqb_spec op 0x28) as [->|_].
  { change (get_cdb_length 0x28) with 10 in Hlen. injection E as <-. change (dispatch fs d c din 0x28) with (exec_read_10 fs d c). unfold exec_read_10. rewrite !field_value by (done || lia). apply steps_implements, disk_read_ok; auto. }
  destruct (Z.eqb_spec op 0x2a) as [->|_]; [|done].
  change (get_cdb_length 0x2a) with 10 in Hlen. injection E as <-. change (dispatch fs d c din 0x2a) with (exec_write_10 fs d c din). unfold exec_write_10. rewrite !field_value by (done || lia). apply steps_implements, disk_write_ok; auto.
Qed.

Hypothesis (Hdata : forall bytes, din = Some bytes -> Forall (fits 8) bytes /\
      (op = MODE_SELECT_6 -> selects 4 bytes <> 1024 /\ selects 4 bytes <> 2048) /\
      (op = MODE_SELECT_10 -> selects 8 bytes <> 1024 /\ selects 8 bytes <> 2048) /\
      (op = WRITE_BUFFER -> value (slice c 1 1) mod 32 = 0 -> 4 <= Z.of_nat (length bytes))).

#[local] Ltac next op x := destruct (Z.eqb_spec op x) as [->|?]; cbn [orb].

Lemma dispatch_others : command c = None -> quiet fs d (dispatch fs d c din op).
Proof.
  intros E. unfold command in E. rewrite Hop in E. pose proof (get_cdb_length_bounds op). pose proof H as (_ & El & _). pose proof (holds_disk _ _ _ H) as Hd.
  repeat match type of E with context [if ?b then _ else _] => destruct b eqn:?; [discriminate|] end. rewrite !Z.eqb_neq in *.
  unfold dispatch. rewrite !(proj2 (Z.eqb_neq op _)) by done.
  next op INQUIRY; [apply inquiry_quiet; lia|]. rewrite ?(proj2 (Z.eqb_neq op _)) by done.
  next op START_STOP_UNIT; [apply start_stop_quiet; [lia|done]|].
  next op MODE_SENSE_6; [apply mode_sense_quiet; lia|].
  next op MODE_SENSE_10; [apply mode_sense_10_quiet; [done|by rewrite Hlen]|].
  next op WRITE_BUFFER; [apply write_buffer_quiet; [done|by rewrite Hlen|]; intros; by eapply Hdata|].
  next op READ_BUFFER; [apply read_buffer_quiet; [done|by rewrite Hlen]|].
  case_match; [by apply quiet_some|].
  next op MODE_SELECT_6; [apply mode_select_6_quiet; [lia|done|]; intros bytes Eb; destruct (Hdata bytes Eb) as (? & Hs & _); by destruct (Hs eq_refl)|].
  next op MODE_SELECT_10; [apply mode_select_10_quiet; [done|by rewrite Hlen|done|]; intros bytes Eb; destruct (Hdata bytes Eb) as (? & _ & Hs & _); by destruct (Hs eq_refl)|].
  case_match; [by apply quiet_some|].
  next op READ_TOC_PMA_ATIP; [apply toc_quiet; [done|by rewrite Hlen]|].
  unfold exec_get_configuration, exec_sgi_eject. rewrite Hd. cbn [negb].
  repeat (case_match; [by apply quiet_some|]). by apply quiet_some.
Qed.

End Dispatch.

Lemma holds_same_media fs d s : holds fs d s -> take_changed (media d) = (media d, false) /\ d <| media := media d |> = d.
Proof. intros (_ & _ & _ & n & p & Em & _). rewrite Em. split; [done|]. destruct d; cbn in *; by subst. Qed.

Lemma disk_request_ok fs d s req : holds fs d s -> well_formed req ->
  exists fs' d' r s', request fs d req = Some (fs', d', r) /\ holds fs' d' s' /\ allowed s req r s'.
Proof.
  intros Hh (Hlen & Hc & Hdata). pose proof (get_cdb_length_bounds (value (slice (cdb req) 0 1))) as Hb.
  destruct (holds_same_media _ _ _ Hh) as [Et Ed]. unfold request, allowed, any_lun, lun.
  rewrite aget_value by lia. rewrite <- byte_lun by (apply byte_at; [lia|done]).
  destruct (cdb req) as [|op c'] eqn:Ec; [cbn in Hlen; lia|]. rewrite <- Ec in *. cbn [mbind option_bind].
  assert (Hop : value (slice (cdb req) 0 1) = op) by (rewrite Ec; done). rewrite Hop in *.
  assert (Hlun : lun (cdb req) = ((value (slice (cdb req) 1 1)) .>> 5) .& 7) by (symmetry; apply byte_lun, byte_at; [lia|done]).
  change ((op =? INQUIRY) || (op =? REQUEST_SENSE)) with ((op =? 0x12) || (op =? 0x03)). rewrite (orb_comm (op =? 0x12)).
  destruct (negb _ && negb _) eqn:Eg.
  { eexists _, _, _, _. split; [done|]. split; [|done]. by apply refuse_ok. }
  rewrite Et. assert (Hif : forall b : bool, (if b then (media d, false) else (media d, false)) = (media d, false)) by (by intros []). rewrite Hif. cbn beta iota zeta. rewrite Ed.
  assert (Hs : steps s (command (cdb req)) (data_in req) (dispatch fs d (cdb req) (data_in req) op)).
  { destruct (command (cdb req)) as [k|] eqn:Ek.
    - apply dispatch_blocks; try done. rewrite Hlun. apply andb_false_iff in Eg as [Eg|Eg]; rewrite negb_false_iff in Eg; [left; by apply Z.eqb_eq|].
      apply orb_true_iff in Eg as [Eg|Eg]; apply Z.eqb_eq in Eg; [by right|]. unfold command in Ek. by rewrite Hop, Eg in Ek.
    - eapply steps_quiet; [done|]. apply dispatch_others with s; try done. intros bytes Eb. by rewrite Eb in Hdata. }
  destruct Hs as (fs' & d' & r & s' & -> & Hh' & Hk). eexists _, _, _, s'. split; [done|]. split; [done|].
  destruct (command (cdb req)) as [k|]; [|done]. by rewrite Hk.
Qed.

Lemma disk_run_ok reqs : forall fs d s, holds fs d s -> Forall well_formed reqs ->
  exists fs' d' rs s', scsi_run fs d reqs = Some (fs', d', rs) /\ history s reqs rs s' /\ holds fs' d' s'.
Proof.
  induction reqs as [|req reqs IH]; intros fs d s Hh Hw; [exists fs, d, [], s; repeat constructor; apply Hh|].
  inversion_clear Hw as [|? ? Hq Hw']. destruct (disk_request_ok fs d s req Hh Hq) as (fs1 & d1 & r & s1 & Er & Hh1 & Ha).
  destruct (IH fs1 d1 s1 Hh1 Hw') as (fs2 & d2 & rs & s2 & Es & Hs & Hh2). exists fs2, d2, (r :: rs), s2.
  cbn. rewrite Er. cbn. rewrite Es. split; [done|]. split; [by eapply history_cons|done].
Qed.

(** C18: A hard disk answers its commands as an array of bytes does.  Over any
    image that stores blocks, with 512-byte blocks, every sequence of commands
    of the right lengths is answered without a panic.  Blocks read with the
    6-byte or the 10-byte commands are the bytes last written there, at 512
    times the big-endian address; a transfer that reaches past the end of the
    disk is refused as an illegal request with the sense data that says so,
    and a REQUEST SENSE reports it once; other commands keep the contents. *)
Theorem scsi_disk_blocks fs d s reqs : holds fs d s -> Forall well_formed reqs ->
  exists fs' d' rs s', scsi_run fs d reqs = Some (fs', d', rs) /\ history s reqs rs s' /\ holds fs' d' s'.
Proof. intros. by apply disk_run_ok. Qed.

(** *** Blocks that are not sectors *)

Lemma read_blocks fs d n p b lba count : media d = Fixed n p -> R fs n b -> 0 < logical_block_size d -> 0 <= lba -> 0 < count ->
  (lba + count) * logical_block_size d <= Z.of_nat (length b) ->
  perform_read fs d lba count = good fs d (slice b (lba * logical_block_size d) (count * logical_block_size d)).
Proof.
  intros Em Hr Hb Hl Hc Hend. unfold perform_read, size. rewrite Em. cbn. rewrite (disk_size fs n b Hr).
  assert (lba + count <= Z.of_nat (length b) / logical_block_size d) by (apply Z.div_le_lower_bound; lia).
  rewrite (proj2 (Z.leb_gt _ lba)), (proj2 (Z.ltb_ge _ (lba + count))), andb_false_r by lia.
  unfold media_read. cbn [media_node]. rewrite (disk_read fs n b) by (done || nia). by rewrite bool_decide_true by nia.
Qed.

Lemma write_blocks fs d n p b lba count bytes : kind d = KDisk -> media d = Fixed n p -> R fs n b -> 512 <= logical_block_size d -> 0 <= lba -> 0 <= count ->
  (lba + count) * logical_block_size d <= Z.of_nat (length b) -> Z.of_nat (length bytes) = count * logical_block_size d ->
  exists fs' n', perform_write fs d lba count (Some bytes) = good fs' (d <| media := Fixed n' p |>) [] /\ R fs' n' (copy_at b (lba * 512) bytes).
Proof.
  intros Ek Em Hr Hb Hl Hc Hend Hlen. unfold perform_write, is_cdrom, size. rewrite Ek, Em. cbn -[Z.mul]. rewrite (disk_size fs n b Hr).
  rewrite (proj2 (Z.ltb_ge _ _)), (proj2 (Z.eqb_eq _ _)) by lia. cbn -[Z.mul]. unfold media_write. cbn [media_node].
  destruct (disk_write fs n b (lba * 512) bytes Hr) as (fs' & n' & -> & Hr'); [lia|nia|]. by exists fs', n'.
Qed.

End Refinement.

(** ** Witnesses and examples *)

Definition example_identity : ScsiIdentity := mkIdentity (replicate 8 0x20) (replicate 16 0x20) (replicate 4 0x20).
Definition example_disk : ScsiDevice := new_device BlockClaims.example_node false "d" [] example_identity.
Definition mounted_d (fs : FS) (n : Node) (b : list Z) : Prop :=
  exists dur, BlockClaims.mounted "d" "o" (fs, n) {| BlockClaims.durable := dur; BlockClaims.current := b |}.

Lemma example_holds : holds mounted_d BlockClaims.example_overlay_fs example_disk (mkDisk (BlockClaims.current BlockClaims.example_flat) (zeros 18)).
Proof.
  unfold holds. split; [done|]. split; [done|]. split; [done|]. eexists _, _. split; [done|].
  exists BlockClaims.example_base. apply BlockClaims.example_mounted.
Qed.

(** A block is written, read back, read past the end, and the sense fetched. *)
Definition example_requests : list ScsiRequest :=
  [mkReq [0x0a; 0; 0; 1; 1; 0] (FixedLength 512) (Some (replicate 512 5)); mkReq [0x28; 0; 0; 0; 0; 0; 0; 0; 2; 0] Unlimited None;
   mkReq [0x08; 0; 0; 2; 1; 0] Unlimited None; mkReq [0x03; 0; 0; 0; 18; 0] Unlimited None].

Lemma scsi_disk_blocks_witness :
  exists fs' d' rs s', scsi_run BlockClaims.example_overlay_fs example_disk example_requests = Some (fs', d', rs) /\
    history (mkDisk (BlockClaims.current BlockClaims.example_flat) (zeros 18)) example_requests rs s' /\ holds mounted_d fs' d' s'.
Proof.
  assert (Hlaws : DiskLaws mounted_d) by (apply overlay_disk; done).
  apply (scsi_disk_blocks mounted_d); [apply example_holds|]. apply (bool_decide_unpack _). vm_compute. exact I.
Defined.

End ScsiClaims.
