(* ===== verification/ScsiTargets.v ===== *)
(** * Drives, trays and mode pages

    The tray of a CD-ROM drive as a queue of discs, how a change of disc
    reaches the guest, what a guest finds when it walks the mode pages, and
    where the block commands depart from the blocks the guest selected. *)

From stdpp Require Import strings.
From S2P Require Import Prelude BlockNode BlockProofs BlockClaims Scsi ScsiClaims.
Import BlockNode Scsi ScsiClaims.

#[local] Open Scope Z_scope.
#[local] Open Scope word_scope.

Module ScsiTargets.

(** ** The tray *)

Section Tray.

Context (fs : FS).

Definition opens (path : string) : Prop := exists n, (open_file_image fs path Cdrom false None).2 = Ok n.

Definition holds_disc (path : string) (c : ChangerNode) : Prop :=
  exists n, (open_file_image fs path Cdrom false None).2 = Ok n /\ active c = Some n.

Definition ejects (k : nat) (c : ChangerNode) : ChangerNode := Nat.iter k (fun c => (changer_eject fs c).1) c.

Lemma eject_next c d0 d1 ds : discs c = d0 :: d1 :: ds -> opens d1 ->
  exists n, (open_file_image fs d1 Cdrom false None).2 = Ok n /\
    changer_eject fs c = (mkChanger (d1 :: ds ++ [d0]) (Some n) true, Ok (Some d1)).
Proof. intros Ec [n En]. exists n. split; [done|]. unfold changer_eject. by rewrite Ec, En. Qed.

Lemma ejects_rotate k : forall c xs ys, discs c = xs ++ ys -> length xs = k -> (2 <= length (xs ++ ys))%nat -> Forall opens (xs ++ ys) ->
  discs (ejects k c) = ys ++ xs /\ ((0 < k)%nat -> changed (ejects k c) = true /\ exists d, head (ys ++ xs) = Some d /\ holds_disc d (ejects k c)).
Proof.
  induction k as [|k IH]; intros c xs ys Ec Hk Hl Ho.
  { destruct xs; [|done]. split; [by rewrite app_nil_r|lia]. }
  destruct (exists_last (l := xs)) as (xs' & x & ->); [by destruct xs|]. rewrite length_app in Hk. cbn in Hk.
  rewrite <- app_assoc in Ec, Hl, Ho. destruct (IH c xs' (x :: ys) Ec ltac:(lia) Hl Ho) as [Ed _].
  change (ejects (S k) c) with (changer_eject fs (ejects k c)).1.
  destruct (ys ++ xs') as [|d1 ds] eqn:Ey. { rewrite !length_app in Hl. apply (f_equal length) in Ey. rewrite length_app in Ey. cbn in *. lia. }
  assert (Hd1 : opens d1). { apply Forall_app in Ho as [H1 H2]. apply Forall_app in H2 as [_ H2]. eapply Forall_inv. rewrite <- Ey. by apply Forall_app. }
  cbn [app] in Ed. rewrite Ey in Ed. destruct (eject_next _ _ _ _ Ed Hd1) as (n & En & Ee). rewrite Ee. cbn [fst discs changed].
  rewrite app_assoc, Ey. split; [done|]. intros _. split; [done|]. exists d1. split; [done|]. by exists n.
Qed.

(** Ejecting walks the queue of discs and comes back.  With at least two
    discs in the queue that all open, each eject loads the next one and the
    disc that was in the drive goes to the end, so after as many ejects as
    there are discs the queue is as it was, with its first disc in the drive. *)
Theorem eject_cycles c d0 ds : discs c = d0 :: ds -> ds <> [] -> Forall opens (d0 :: ds) ->
  let c' := ejects (length (d0 :: ds)) c in discs c' = d0 :: ds /\ changed c' = true /\ holds_disc d0 c'.
Proof.
  intros Ec Hne Ho. destruct (ejects_rotate (length (d0 :: ds)) c (d0 :: ds) []) as [Ed Hn]; rewrite ?app_nil_r; try done.
  { destruct ds; [done|cbn; lia]. }
  destruct (Hn ltac:(cbn; lia)) as (Hch & d & E & Hh). injection E as <-. done.
Qed.

End Tray.

(** ** A change of disc *)

(** The command may run while a change of disc is unreported. *)
Definition spared (req : ScsiRequest) : bool := match cdb req with op :: _ => (op =? 0x12) || (op =? 0x03) | [] => false end.

Definition eject_command : ScsiRequest := mkReq [START_STOP_UNIT; 0; 0; 0; 0x02; 0] Unlimited None.

(** The request is to logical unit 0, of bytes. *)
Definition addressed (req : ScsiRequest) : Prop :=
  match cdb req with _ :: b1 :: _ => 0 <= b1 < 32 | _ => False end.

Lemma lun_zero b : 0 <= b < 32 -> (b .>> 5) .& 7 = 0.
Proof. intros. rewrite byte_lun by (unfold fits; lia). by apply Z.div_small. Qed.

Lemma request_attention fs d req c : media d = Changer c -> changed c = true -> addressed req -> spared req = false ->
  request fs d req = Some (check_condition fs (d <| media := Changer (c <| changed := false |>) |>) 0x06 0x28 0x00).
Proof.
  intros Em Ech Ha Hs. unfold request, spared, addressed in *. destruct (cdb req) as [|op [|b1 c']]; try done.
  cbn [aget mbind option_bind]. change (aget (op :: b1 :: c') 1) with (Some b1). cbn [mbind option_bind].
  rewrite lun_zero by done. cbn [negb andb Z.eqb]. change ((op =? INQUIRY) || (op =? REQUEST_SENSE)) with ((op =? 0x12) || (op =? 0x03)). rewrite Hs, Em. cbn [take_changed].
  by rewrite Ech.
Qed.

(** A request to logical unit 0 with no change to report is carried out. *)
Lemma request_runs fs d op b1 rest dl din : 0 <= b1 < 32 -> take_changed (media d) = (media d, false) ->
  request fs d (mkReq (op :: b1 :: rest) dl din) =
    ('(fs, d, r) ← dispatch fs d (op :: b1 :: rest) din op; Some (fs, d, match r with Ok r => Ok (cut dl r) | Err e => Err e end)).
Proof.
  intros Hb Et. unfold request. cbn [cdb data_len data_in]. change (aget (op :: b1 :: rest) 1) with (Some b1). cbn [mbind option_bind].
  rewrite lun_zero, Et by done. cbn [negb andb Z.eqb]. 
  assert (Ed : d <| media := media d |> = d) by (by destruct d).
  destruct ((op =? INQUIRY) || (op =? REQUEST_SENSE)); cbn beta iota zeta; rewrite Ed; reflexivity.
Qed.

Lemma dispatch_eject fs d c : is_cdrom d = true -> media d = Changer c ->
  dispatch fs d (cdb eject_command) None START_STOP_UNIT = Some (good fs (d <| media := Changer (changer_eject fs c).1 |>) []).
Proof.
  intros Ek Em. change (dispatch fs d _ None START_STOP_UNIT) with (Some (good fs (if is_cdrom d then eject fs d else d) [])).
  rewrite Ek. unfold eject. by rewrite Em.
Qed.

(** A change of disc is announced once, before anything else happens.
    When a CD-ROM drive with a queue ejects, it loads the next disc; the
    next command other than INQUIRY and REQUEST SENSE is not carried out but
    refused with UNIT ATTENTION, medium changed; the command after that one
    runs on the new disc, and a READ of it answers the new disc's sectors. *)
Theorem disc_change_announced fs d c d0 d1 ds n req lba count bytes :
  kind d = KCdrom -> media d = Changer c -> changed c = false -> discs c = d0 :: d1 :: ds ->
  (open_file_image fs d1 Cdrom false None).2 = Ok n -> addressed req -> spared req = false ->
  let bs := logical_block_size d in
  0 <= lba -> 0 < count -> lba + count <= node_size n / bs -> node_read fs n (lba * bs) (count * bs) = Ok bytes ->
  let c' := mkChanger (d1 :: ds ++ [d0]) (Some n) false in
  exists dE dA, request fs d eject_command = Some (good fs dE []) /\
    request fs dE req = Some (check_condition fs dA 0x06 0x28 0x00) /\ media dA = Changer c' /\
    (let dS := set_sense dA 0x06 0x28 0x00 in
     request fs dS (mkReq [READ_10; 0; 0; 0; 0; lba; 0; 0; count; 0] Unlimited None) =
       Some (good fs dS bytes)).
Proof.
  intros Ek Em Ech Ed Eo Ha Hs bs Hl Hc Hend Hrd c'.
  set (dE := d <| media := Changer (mkChanger (d1 :: ds ++ [d0]) (Some n) true) |>).
  exists dE, (dE <| media := Changer c' |>).
  assert (Ee : request fs d eject_command = Some (good fs dE [])).
  { unfold eject_command. rewrite request_runs; [|lia|by rewrite Em; cbn; destruct c; cbn in *; subst].
    change (START_STOP_UNIT :: 0 :: [0; 0; 2; 0]) with (cdb eject_command).
    rewrite (dispatch_eject fs d c) by (done || unfold is_cdrom; by rewrite Ek). unfold changer_eject. by rewrite Ed, Eo. }
  split; [done|]. split; [by erewrite request_attention by done|]. split; [done|].
  intros dS. rewrite request_runs by (done || lia).
  change (dispatch fs dS (READ_10 :: _) None READ_10) with (Some (perform_read fs dS lba count)). cbn [mbind option_bind].
  assert (Ep : perform_read fs dS lba count = good fs dS bytes); [|by rewrite Ep].
  unfold perform_read, size. cbn -[Z.mul]. fold bs. rewrite (proj2 (Z.leb_gt _ lba)), (proj2 (Z.ltb_ge _ (lba + count))), andb_false_r by lia.
  unfold media_read. cbn -[Z.mul]. by rewrite Hrd.
Qed.

(** ** Mode pages *)

(** The codes a guest finds by stepping from page to page: the second byte of
    a page is the number of bytes that follow it.  [None] when a page runs
    past the end. *)
Fixpoint page_codes (fuel : nat) (l : list Z) : option (list Z) :=
  match fuel, l with
  | _, [] => Some []
  | S fuel, code :: len :: l =>
      if Z.of_nat (length l) <? len then None else codes ← page_codes fuel (drop (Z.to_nat len) l); Some ((code .& 0x3F) :: codes)
  | _, _ => None
  end.

(** The mode pages of a hard disk can be walked: asked for all pages, it
    answers error recovery, format, geometry and caching, each as long as it
    declares, whatever its size and its block length. *)
Theorem disk_pages_walk d dbd : kind d = KDisk ->
  exists desc pages, build_mode_sense_pages d 0x3F dbd = Some (desc, pages) /\ page_codes 8 pages = Some [0x01; 0x03; 0x04; 0x08] /\
    length desc = if dbd then 0%nat else 8%nat.
Proof. intros E. unfold build_mode_sense_pages, is_cdrom. rewrite E. eexists _, _. split; [reflexivity|]. split; [reflexivity|]. by destruct dbd. Qed.

(** A CD-ROM drive's capabilities page declares 18 bytes and 20 follow, so the
    walk reads its last two as a page of no bytes, and finds a page 0 before
    the audio page. *)
Theorem cdrom_pages_misframed d dbd : kind d = KCdrom ->
  exists desc pages, build_mode_sense_pages d 0x3F dbd = Some (desc, pages) /\ page_codes 8 pages = Some [0x01; 0x2a; 0x00; 0x0e].
Proof. intros E. unfold build_mode_sense_pages, is_cdrom. rewrite E. eexists _, _. split; reflexivity. Qed.

(** ** Where the commands depart from the selected blocks *)

Definition select_1024 : ScsiRequest := mkReq [MODE_SELECT_6; 0; 0; 0; 12; 0] Unlimited (Some [0; 0; 0; 8; 0; 0; 0; 0; 0; 0; 4; 0]).
Definition write_block_1 (bytes : list Z) : ScsiRequest := mkReq [WRITE_6; 0; 0; 1; 1; 0] Unlimited (Some bytes).
Definition read_block (lba : Z) : ScsiRequest := mkReq [READ_6; 0; 0; lba; 1; 0] Unlimited None.

Lemma halves b bytes : 2048 <= Z.of_nat (length b) -> length bytes = 1024%nat ->
  slice (copy_at b (1 * 512) bytes) (0 * 1024) 1024 = slice b 0 512 ++ take 512 bytes /\
  slice (copy_at b (1 * 512) bytes) (1 * 1024) 1024 = drop 512 bytes ++ slice b 1536 512.
Proof.
  intros Hl Hb. unfold slice, copy_at. set (h := Z.to_nat (1 * 512)). assert (Hh : Z.of_nat h = 512) by lia.
  replace (Z.to_nat (0 * 1024)) with 0%nat by lia. replace (Z.to_nat 1024) with (h + h)%nat by lia. replace (Z.to_nat (1 * 1024)) with (h + h)%nat by lia.
  replace (Z.to_nat 512) with h by lia. replace 512%nat with h by lia. replace (Z.to_nat 1536) with (h + length bytes)%nat by lia. replace (Z.to_nat 0) with 0%nat by lia.
  rewrite !drop_0. split.
  - rewrite take_app, length_take, take_take. rewrite Nat.min_r by lia. f_equal. rewrite take_app_le by lia. f_equal; lia.
  - rewrite drop_app, length_take. rewrite drop_ge by (rewrite length_take; lia). cbn [app]. replace (h + h - h `min` length b)%nat with h by lia.
    rewrite drop_app_le by lia. rewrite take_app. rewrite take_ge by (rewrite length_drop; lia). f_equal. f_equal. rewrite length_drop. lia.
Qed.

(** On a disk whose guest selected 1024-byte blocks, the block written to
    address 1 is stored at byte 512: reading block 0 back shows its first half
    there, and reading block 1 gives its second half and 512 old bytes. *)
Theorem resized_disk_misplaces (R : FS -> Node -> list Z -> Prop) `{!DiskLaws R} fs d n p b bytes :
  kind d = KDisk -> media d = Fixed n p -> R fs n b -> 2048 <= Z.of_nat (length b) -> length bytes = 1024%nat ->
  exists fs' d', scsi_run fs d [select_1024; write_block_1 bytes; read_block 0; read_block 1] =
    Some (fs', d', [Ok (mkResp 0 []); Ok (mkResp 0 []); Ok (mkResp 0 (slice b 0 512 ++ take 512 bytes)); Ok (mkResp 0 (drop 512 bytes ++ slice b 1536 512))]).
Proof.
  intros Ek Em Hr Hl Hb. set (d1 := d <| logical_block_size := 1024 |>).
  assert (E1 : request fs d select_1024 = Some (good fs d1 [])).
  { unfold select_1024. rewrite request_runs by (done || by rewrite Em). reflexivity. }
  destruct (write_blocks R fs d1 n p b 1 1 bytes) as (fs2 & n2 & E2 & R2); try done; [cbn; lia|].
  set (d2 := d1 <| media := Fixed n2 p |>) in *. set (b2 := copy_at b (1 * 512) bytes) in *.
  assert (Hb2 : length b2 = length b) by (apply BlockProofs.copy_at_length; lia).
  assert (Ew : request fs d1 (write_block_1 bytes) = Some (good fs2 d2 [])).
  { unfold write_block_1. rewrite request_runs; [|lia|by cbn; rewrite Em].
    change (dispatch fs d1 (WRITE_6 :: _) _ WRITE_6) with (Some (perform_write fs d1 1 1 (Some bytes))). by rewrite E2. }
  assert (Er : forall lba, lba = 0 \/ lba = 1 -> request fs2 d2 (read_block lba) = Some (good fs2 d2 (slice b2 (lba * 1024) 1024))).
  { intros lba Hlba. unfold read_block. rewrite request_runs by (done || lia).
    change (dispatch fs2 d2 (READ_6 :: _) None READ_6) with (Some (perform_read fs2 d2 lba 1)).
    rewrite (read_blocks R fs2 d2 n2 p b2) by (done || cbn; lia). done. }
  exists fs2, d2. cbn [scsi_run]. rewrite E1. cbn [mbind option_bind good]. rewrite Ew. cbn [mbind option_bind good]. rewrite (Er 0) by auto. cbn [mbind option_bind good].
  rewrite (Er 1) by auto. cbn [mbind option_bind good]. unfold b2. destruct (halves b bytes Hl Hb) as [-> ->]. done.
Qed.

(** A WRITE BUFFER in combined mode with fewer than four bytes of data stops
    the program: the data is sliced past its end. *)
Theorem short_write_buffer_panics fs d id o1 o2 o3 l1 l2 l3 ctl dl bytes :
  take_changed (media d) = (media d, false) -> (length bytes < 4)%nat ->
  request fs d (mkReq [WRITE_BUFFER; 0; id; o1; o2; o3; l1; l2; l3; ctl] dl (Some bytes)) = None.
Proof.
  intros Et Hb. rewrite request_runs by (done || lia). change (dispatch fs d (WRITE_BUFFER :: ?r) ?x WRITE_BUFFER) with (exec_write_buffer fs d (WRITE_BUFFER :: r) x).
  unfold exec_write_buffer. set (c := WRITE_BUFFER :: _). change (aget c 1) with (Some 0).
  destruct (field_total c 3 5) as [o Eo]; [lia|cbn; lia|]. destruct (field_total c 6 8) as [l El]; [lia|cbn; lia|].
  cbn [mbind option_bind]. rewrite Eo. cbn [mbind option_bind]. rewrite El. cbn [mbind option_bind].
  change (0 .& 0x1F) with 0. cbn beta iota zeta delta [Z.leb Z.eqb Z.compare]. by rewrite (proj2 (Z.ltb_lt _ 4)) by lia.
Qed.

(** ** Witness *)

(** Two discs of one sector each. *)
Definition two_discs : FS := {[ "a" := replicate 2048 1; "b" := replicate 2048 2 ]}.
Definition disc (path : string) : Node := RawNode path false 2048.
Definition example_drive : ScsiDevice := new_device (disc "a") true "a" ["a"; "b"] example_identity.

Lemma disc_change_announced_witness :
  exists dE dA, request two_discs example_drive eject_command = Some (good two_discs dE []) /\
    request two_discs dE (mkReq [TEST_UNIT_READY; 0; 0; 0; 0; 0] Unlimited None) = Some (check_condition two_discs dA 0x06 0x28 0x00) /\
    media dA = Changer (mkChanger ["b"; "a"] (Some (disc "b")) false) /\
    (let dS := set_sense dA 0x06 0x28 0x00 in
     request two_discs dS (mkReq [READ_10; 0; 0; 0; 0; 0; 0; 0; 1; 0] Unlimited None) = Some (good two_discs dS (replicate 2048 2))).
Proof.
  apply (disc_change_announced two_discs example_drive (changer_loaded (disc "a") "a" ["a"; "b"]) "a" "b" [] (disc "b")
    (mkReq [TEST_UNIT_READY; 0; 0; 0; 0; 0] Unlimited None) 0 1 (replicate 2048 2)); try reflexivity; try (cbn; lia); try (vm_compute; congruence).
Defined.

End ScsiTargets.
