(* ===== verification/Calendar.v ===== *)
(** * The Gregorian calendar

    The reference the clocks are checked against: a date is valid or not, the
    day after a date is another, and 1970-01-01 is day 0.  [day_number] counts
    days in closed form; that it counts one per day is [day_number_next], and
    that it tells valid dates apart [day_number_inj]. *)

From S2P Require Import Prelude.

#[local] Open Scope Z_scope.

Module Calendar.

Record Date : Type := mkDate { year : Z; month : Z; day : Z }.

#[export] Instance Date_eq_dec : EqDecision Date.
Proof. solve_decision. Defined.

Definition leap (y : Z) : bool := ((y mod 4 =? 0) && negb (y mod 100 =? 0)) || (y mod 400 =? 0).

Definition month_days (y m : Z) : Z :=
  if m =? 2 then if leap y then 29 else 28
  else if (m =? 4) || (m =? 6) || (m =? 9) || (m =? 11) then 30 else 31.

Definition valid (x : Date) : Prop := 1 <= month x <= 12 /\ 1 <= day x <= month_days (year x) (month x).

#[export] Instance valid_dec x : Decision (valid x).
Proof. unfold valid. apply _. Defined.

Definition next_day (x : Date) : Date :=
  if day x <? month_days (year x) (month x) then mkDate (year x) (month x) (day x + 1)
  else if month x <? 12 then mkDate (year x) (month x + 1) 1
  else mkDate (year x + 1) 1 1.

(** Days from 0001-01-01 to the first of a year, and from the first of a year
    to the first of a month. *)
Definition year_start (y : Z) : Z := 365 * (y - 1) + (y - 1) / 4 - (y - 1) / 100 + (y - 1) / 400.

Definition month_start (y m : Z) : Z := (367 * m - 362) / 12 - (if m <=? 2 then 0 else if leap y then 1 else 2).

Definition day_number (x : Date) : Z := year_start (year x) + month_start (year x) (month x) + day x - 1 - 719162.

(** ** One day at a time *)

Lemma leap_spec y : leap y = true <-> (y mod 4 = 0 /\ y mod 100 <> 0) \/ y mod 400 = 0.
Proof. unfold leap. rewrite orb_true_iff, andb_true_iff, negb_true_iff, !Z.eqb_eq, Z.eqb_neq. done. Qed.

(** Division facts of one year, for [lia]. *)
Ltac year_facts y :=
  pose proof (Z.div_mod (y - 1) 4 ltac:(lia)); pose proof (Z.mod_pos_bound (y - 1) 4 ltac:(lia));
  pose proof (Z.div_mod (y - 1) 100 ltac:(lia)); pose proof (Z.mod_pos_bound (y - 1) 100 ltac:(lia));
  pose proof (Z.div_mod (y - 1) 400 ltac:(lia)); pose proof (Z.mod_pos_bound (y - 1) 400 ltac:(lia)).

Lemma year_length y : year_start (y + 1) = year_start y + (if leap y then 366 else 365).
Proof.
  unfold year_start. replace (y + 1 - 1) with y by lia. year_facts y.
  pose proof (Z.div_mod y 4 ltac:(lia)). pose proof (Z.mod_pos_bound y 4 ltac:(lia)).
  pose proof (Z.div_mod y 100 ltac:(lia)). pose proof (Z.mod_pos_bound y 100 ltac:(lia)).
  pose proof (Z.div_mod y 400 ltac:(lia)). pose proof (Z.mod_pos_bound y 400 ltac:(lia)).
  destruct (leap y) eqn:E; [apply leap_spec in E|apply not_true_iff_false in E; rewrite leap_spec in E]; lia.
Qed.

(** The months, one by one. *)
Lemma months m : 1 <= m <= 12 ->
  m = 1 \/ m = 2 \/ m = 3 \/ m = 4 \/ m = 5 \/ m = 6 \/ m = 7 \/ m = 8 \/ m = 9 \/ m = 10 \/ m = 11 \/ m = 12.
Proof. lia. Qed.

Ltac each_month Hm :=
  apply months in Hm; destruct Hm as [->|[->|[->|[->|[->|[->|[->|[->|[->|[->|[->| ->]]]]]]]]]]].

Lemma month_length y m : 1 <= m <= 12 -> (if m =? 12 then (if leap y then 366 else 365) else month_start y (m + 1)) = month_start y m + month_days y m.
Proof. intros Hm. each_month Hm; unfold month_start, month_days; cbn; by destruct (leap y). Qed.

Lemma month_start_1 y : month_start y 1 = 0.
Proof. done. Qed.

(** The day after a valid date is valid, and one more day from the epoch. *)
Lemma next_day_valid x : valid x -> valid (next_day x).
Proof.
  intros [Hm Hd]. unfold next_day. destruct (Z.ltb_spec (day x) (month_days (year x) (month x))); [split; cbn; lia|].
  assert (Hp : forall y m, 1 <= m <= 12 -> 28 <= month_days y m) by (intros y m _; unfold month_days; repeat case_match; lia).
  destruct (Z.ltb_spec (month x) 12).
  - pose proof (Hp (year x) (month x + 1) ltac:(lia)). split; cbn; lia.
  - pose proof (Hp (year x + 1) 1 ltac:(lia)). split; cbn [year month day]; lia.
Qed.

Lemma day_number_next x : valid x -> day_number (next_day x) = day_number x + 1.
Proof.
  intros [Hm Hd]. pose proof (month_length (year x) (month x) Hm) as Hml. unfold next_day, day_number.
  destruct (Z.ltb_spec (day x) (month_days (year x) (month x))); cbn [year month day]; [lia|].
  destruct (Z.ltb_spec (month x) 12); cbn [year month day].
  - rewrite (proj2 (Z.eqb_neq _ _)) in Hml by lia. lia.
  - rewrite (proj2 (Z.eqb_eq _ _)) in Hml by lia. rewrite year_length, month_start_1. lia.
Qed.

(** ** Telling dates apart *)

Lemma year_start_mono y y' : y < y' -> year_start y + 365 <= year_start y'.
Proof. intros. unfold year_start. year_facts y. year_facts y'. lia. Qed.

Lemma month_start_mono y m m' : 1 <= m <= 12 -> 1 <= m' <= 12 -> m < m' -> month_start y m + month_days y m <= month_start y m'.
Proof. intros Hm Hm' Hlt. each_month Hm; each_month Hm'; try lia; unfold month_start, month_days; destruct (leap y); vm_compute; congruence. Qed.

(** A valid date lies within its year. *)
Lemma in_year x : valid x -> year_start (year x) <= day_number x + 719162 < year_start (year x + 1).
Proof.
  intros [Hm Hd]. unfold day_number. rewrite year_length.
  assert (0 <= month_start (year x) (month x) /\ month_start (year x) (month x) + month_days (year x) (month x) <= if leap (year x) then 366 else 365); [|lia].
  clear Hd. each_month Hm; unfold month_start, month_days; destruct (leap (year x)); vm_compute; split; congruence.
Qed.

Lemma year_unique n y y' : year_start y <= n < year_start (y + 1) -> year_start y' <= n < year_start (y' + 1) -> y = y'.
Proof.
  intros H H'. destruct (Z.lt_trichotomy y y') as [Hlt|[?|Hlt]]; [|done|].
  - destruct (Z.eq_dec (y + 1) y') as [<-|]; [lia|]. pose proof (year_start_mono (y + 1) y' ltac:(lia)). lia.
  - destruct (Z.eq_dec (y' + 1) y) as [<-|]; [lia|]. pose proof (year_start_mono (y' + 1) y ltac:(lia)). lia.
Qed.

Lemma day_number_inj x x' : valid x -> valid x' -> day_number x = day_number x' -> x = x'.
Proof.
  intros Hx Hx' E. pose proof (in_year x Hx). pose proof (in_year x' Hx').
  assert (Ey : year x = year x') by (apply (year_unique (day_number x + 719162)); lia).
  destruct x as [y m d], x' as [y' m' d']. cbn in Ey. subst y'. destruct Hx as [Hm Hd], Hx' as [Hm' Hd']. unfold day_number in E. cbn in *.
  destruct (Z.lt_trichotomy m m') as [Hlt|[->|Hlt]].
  - pose proof (month_start_mono y m m' Hm Hm' Hlt). lia.
  - f_equal. lia.
  - pose proof (month_start_mono y m' m Hm' Hm Hlt). lia.
Qed.

(** A function that inverts [day_number] is the calendar: it starts at the
    epoch and goes from each day to the next. *)
Lemma inverse_counts (f : Z -> Date) : (forall z, valid (f z) /\ day_number (f z) = z) ->
  f 0 = mkDate 1970 1 1 /\ forall z, f (z + 1) = next_day (f z).
Proof.
  intros H. split.
  - destruct (H 0) as [Hv He]. apply day_number_inj; [done|by apply (bool_decide_unpack _)|by rewrite He].
  - intros z. destruct (H z) as [Hv He], (H (z + 1)) as [Hv' He'].
    apply day_number_inj; [done|by apply next_day_valid|]. rewrite day_number_next by done. lia.
Qed.

Lemma inverse_unique (f : Z -> Date) x : (forall z, valid (f z) /\ day_number (f z) = z) -> valid x -> f (day_number x) = x.
Proof. intros H Hx. destruct (H (day_number x)). by apply day_number_inj. Qed.

End Calendar.
