(* ===== verification/RtcOffset.v ===== *)
(** * The configured clock offset

    The offset between host and guest time of src/src/config.rs, with the
    calendar arithmetic it is built on.  Seconds and days are [i64]s; the
    additions the source saturates are saturated here, the others cannot leave
    their width for the times a clock can hold (only a count of days at the very
    ends of [i64] would overflow in [civil_from_days]). *)

From S2P Require Import Prelude Calendar.
Import Calendar.

#[local] Open Scope Z_scope.

Module RtcOffset.

Definition clamp (x lo hi : Z) : Z := Z.max lo (Z.min x hi).

Definition saturate (x : Z) : Z := clamp x (- 2 ^ 63) (2 ^ 63 - 1).

Definition saturating_add (x y : Z) : Z := saturate (x + y).
Definition saturating_mul (x y : Z) : Z := saturate (x * y).

Definition RTC_MIN_UNIX : Z := 0.
Definition RTC_MAX_UNIX : Z := 2208988799.

Definition is_leap_year (y : Z) : bool := ((Z.rem y 4 =? 0) && negb (Z.rem y 100 =? 0)) || (Z.rem y 400 =? 0).

Definition days_in_month (y m : Z) : Z :=
  if m =? 2 then if is_leap_year y then 29 else 28
  else if (m =? 4) || (m =? 6) || (m =? 9) || (m =? 11) then 30 else 31.

(** [/] truncates; its arguments here are never negative. *)
Definition days_from_civil (y m d : Z) : Z :=
  let y := if m <=? 2 then y - 1 else y in
  let era := y / 400 in
  let yoe := y - era * 400 in
  let mp := Z.rem (m + 9) 12 in
  let doy := Z.quot (153 * mp + 2) 5 + d - 1 in
  let doe := yoe * 365 + Z.quot yoe 4 - Z.quot yoe 100 + doy in
  era * 146097 + doe - 719468.

Definition civil_from_days (z : Z) : Z * Z * Z :=
  let z := z + 719468 in
  let era := z / 146097 in
  let doe := z - era * 146097 in
  let yoe := Z.quot (doe - Z.quot doe 1460 + Z.quot doe 36524 - Z.quot doe 146096) 365 in
  let doy := doe - (365 * yoe + Z.quot yoe 4 - Z.quot yoe 100) in
  let mp := Z.quot (5 * doy + 2) 153 in
  let d := doy - Z.quot (153 * mp + 2) 5 + 1 in
  let m := if mp <? 10 then mp + 3 else mp - 9 in
  (if m <=? 2 then yoe + era * 400 + 1 else yoe + era * 400, m, d).

Record RtcOffset : Type := mkOffset { years : Z; months : Z; days : Z; hours : Z; minutes : Z; seconds : Z }.

Definition offset_default : RtcOffset := mkOffset 0 0 0 0 0 0.

#[export] Instance RtcOffset_eq_dec : EqDecision RtcOffset.
Proof. solve_decision. Defined.

Definition is_zero (o : RtcOffset) : bool := bool_decide (o = offset_default).

Definition apply (o : RtcOffset) (unix_secs : Z) : Z :=
  let ds := unix_secs / 86400 in
  let secs_of_day := unix_secs mod 86400 in
  let '(y, m, d) := civil_from_days ds in
  let total_months :=
    clamp (saturating_add (saturating_add (y * 12 + (m - 1)) (saturating_mul (years o) 12)) (months o)) 0 (10000 * 12) in
  let y := Z.quot total_months 12 in
  let m := Z.rem total_months 12 + 1 in
  let d := Z.min d (days_in_month y m) in
  saturating_add
    (saturating_add
       (saturating_add
          (saturating_add (days_from_civil y m d * 86400 + secs_of_day) (saturating_mul (days o) 86400))
          (saturating_mul (hours o) 3600))
       (saturating_mul (minutes o) 60))
    (seconds o).

Definition apply_clamped (o : RtcOffset) (unix_secs : Z) : Z * bool :=
  let t := apply o unix_secs in
  let c := clamp t RTC_MIN_UNIX RTC_MAX_UNIX in
  (c, negb (c =? t)).

(** ** The calendar is the Gregorian one *)

(** A date as the functions pass it. *)
Definition date_of (x : Z * Z * Z) : Date := let '(y, m, d) := x in mkDate y m d.

Lemma rem_mod_zero y k : 0 < k -> (Z.rem y k =? 0) = (y mod k =? 0).
Proof.
  intros Hk. destruct (Z.eqb_spec (Z.rem y k) 0) as [E|E], (Z.eqb_spec (y mod k) 0) as [E'|E']; try done.
  - apply Z.rem_divide in E; [|lia]. apply Z.mod_divide in E; lia.
  - apply Z.mod_divide in E'; [|lia]. apply Z.rem_divide in E'; lia.
Qed.

Lemma is_leap_year_ok y : is_leap_year y = leap y.
Proof. unfold is_leap_year, leap. by rewrite !rem_mod_zero by lia. Qed.

Lemma days_in_month_ok y m : days_in_month y m = month_days y m.
Proof. unfold days_in_month. by rewrite is_leap_year_ok. Qed.

(** The years of the algorithm start in March, four hundred to an era. *)
Lemma era_start y : let era := y / 400 in let yoe := y - era * 400 in
  era * 146097 + (yoe * 365 + Z.quot yoe 4 - Z.quot yoe 100) = 365 * y + y / 4 - y / 100 + y / 400.
Proof.
  intros era yoe. assert (Hy : y = era * 400 + yoe) by (unfold yoe; lia).
  assert (0 <= yoe < 400) by (pose proof (Z.div_mod y 400 ltac:(lia)); pose proof (Z.mod_pos_bound y 400 ltac:(lia)); unfold yoe, era; lia).
  fold era. clearbody yoe era. subst y. rewrite !Z.quot_div_nonneg by lia.
  replace (era * 400 + yoe) with (era * 100 * 4 + yoe) at 2 by lia. replace (era * 400 + yoe) with (era * 4 * 100 + yoe) at 2 by lia.
  rewrite !Z.div_add_l by lia. lia.
Qed.

(** The days from the first of March to the first of a month. *)
Lemma march_start y m : 1 <= m <= 12 ->
  Z.quot (153 * Z.rem (m + 9) 12 + 2) 5 = month_start y m + (if m <=? 2 then 306 else if leap y then -60 else -59).
Proof. intros Hm. each_month Hm; unfold month_start; destruct (leap y); reflexivity. Qed.

Lemma days_from_civil_ok y m d : 1 <= m <= 12 -> days_from_civil y m d = day_number (mkDate y m d).
Proof.
  intros Hm. unfold days_from_civil. pose proof (era_start (if m <=? 2 then y - 1 else y)) as E. cbn zeta in E |- *.
  assert (Hassoc : forall e a b, e * 146097 + (a + (b + d - 1)) - 719468 = e * 146097 + a + b + d - 1 - 719468) by (intros; lia).
  rewrite Hassoc, E. unfold day_number, year_start. cbn [year month day].
  pose proof (year_length (y)) as Hy. unfold year_start in Hy. replace (y + 1 - 1) with y in Hy by lia.
  rewrite (march_start y m Hm). destruct (Z.leb_spec m 2); [lia|]. destruct (leap y); lia.
Qed.

(** The year of an era a day falls in. *)
Lemma year_of_era doe : 0 <= doe < 146097 ->
  let yoe := (doe - doe / 1460 + doe / 36524 - doe / 146096) / 365 in
  let doy := doe - (365 * yoe + yoe / 4 - yoe / 100) in
  0 <= yoe < 400 /\ 0 <= doy <= 365 /\ (doy = 365 -> (yoe + 1) mod 4 = 0 /\ ((yoe + 1) mod 100 <> 0 \/ yoe = 399)).
Proof.
  intros Hd yoe doy. unfold doy.
  assert (Hy : (doe - doe / 1460 + doe / 36524 - doe / 146096) / 365 = yoe) by done. clearbody yoe. clear doy.
  Z.div_mod_to_equations. lia.
Qed.

(** The month of a March year a day falls in. *)
Lemma month_of_year y doy : 0 <= doy <= 365 -> (doy = 365 -> leap y = true) ->
  let mp := (5 * doy + 2) / 153 in
  let m := if mp <? 10 then mp + 3 else mp - 9 in
  let d := doy - (153 * mp + 2) / 5 + 1 in
  1 <= m <= 12 /\ 1 <= d <= month_days (if m <=? 2 then y else y - 1) m.
Proof.
  intros Hd Hl mp m d. assert (Hm : 0 <= mp <= 11) by (unfold mp; Z.div_mod_to_equations; lia).
  assert (Hr : 153 * mp <= 5 * doy + 2 < 153 * mp + 153) by (unfold mp; Z.div_mod_to_equations; lia). clearbody mp.
  assert (Hc : mp = 0 \/ mp = 1 \/ mp = 2 \/ mp = 3 \/ mp = 4 \/ mp = 5 \/ mp = 6 \/ mp = 7 \/ mp = 8 \/ mp = 9 \/ mp = 10 \/ mp = 11) by lia.
  unfold m, d. clear m d.
  destruct Hc as [->|[->|[->|[->|[->|[->|[->|[->|[->|[->|[->| ->]]]]]]]]]]].
  all: match goal with |- context [if ?k <? 10 then ?k + 3 else ?k - 9] => let v := eval vm_compute in (if k <? 10 then k + 3 else k - 9) in change (if k <? 10 then k + 3 else k - 9) with v end.
  all: match goal with |- context [(153 * ?k + 2) / 5] => let v := eval vm_compute in ((153 * k + 2) / 5) in change ((153 * k + 2) / 5) with v end.
  all: split; [lia|]; unfold month_days; cbn [Z.eqb Z.leb Pos.eqb Pos.compare Pos.compare_cont Z.compare orb]; try lia.
  destruct (leap y) eqn:E; [lia|]. destruct (Z.eq_dec doy 365) as [e|]; [by specialize (Hl e)|lia].
Qed.

(** [civil_from_days] is the calendar, for every day before and after 1970. *)
Lemma civil_from_days_ok z : valid (date_of (civil_from_days z)) /\ day_number (date_of (civil_from_days z)) = z.
Proof.
  unfold civil_from_days. set (era := (z + 719468) / 146097). set (doe := z + 719468 - era * 146097).
  assert (Hdoe : 0 <= doe < 146097) by (unfold doe, era; Z.div_mod_to_equations; lia).
  destruct (year_of_era doe Hdoe) as (Hy & Hdoy & Hleap). cbn zeta.
  rewrite (Z.quot_div_nonneg doe 1460), (Z.quot_div_nonneg doe 36524), (Z.quot_div_nonneg doe 146096) by lia.
  rewrite (Z.quot_div_nonneg _ 365) by (Z.div_mod_to_equations; lia). set (yoe := _ / 365) in *.
  rewrite (Z.quot_div_nonneg yoe 4), (Z.quot_div_nonneg yoe 100) by lia. set (doy := doe - (365 * yoe + yoe / 4 - yoe / 100)) in *.
  assert (Hl : doy = 365 -> leap (yoe + era * 400 + 1) = true).
  { intros E. apply leap_spec. destruct (Hleap E) as [H4 Hc]. clear - H4 Hc. Z.div_mod_to_equations. lia. }
  rewrite (Z.quot_div_nonneg _ 153) by lia.
  destruct (month_of_year (yoe + era * 400 + 1) doy Hdoy Hl) as [Hm Hd]. set (mp := (5 * doy + 2) / 153) in *.
  assert (Hmp : 0 <= mp <= 11) by (unfold mp; clear - Hdoy; Z.div_mod_to_equations; lia).
  rewrite (Z.quot_div_nonneg _ 5) by lia. set (m := if mp <? 10 then _ else _) in *. cbn [date_of].
  split; [split; cbn [year month day]; [done|]; destruct (Z.leb_spec m 2); [done|]; by replace (yoe + era * 400 + 1 - 1) with (yoe + era * 400) in Hd by lia|].
  rewrite <- days_from_civil_ok by done. unfold days_from_civil.
  replace (if m <=? 2 then (if m <=? 2 then yoe + era * 400 + 1 else yoe + era * 400) - 1 else if m <=? 2 then yoe + era * 400 + 1 else yoe + era * 400)
    with (yoe + era * 400) by (case_match; lia).
  rewrite Z.div_add, (Z.div_small yoe 400) by lia. replace (yoe + era * 400 - (0 + era) * 400) with yoe by lia.
  assert (Z.rem (m + 9) 12 = mp) as ->.
  { unfold m. destruct (Z.ltb_spec mp 10); rewrite Z.rem_mod_nonneg by lia; [|rewrite Z.mod_small; lia].
    replace (mp + 3 + 9) with (mp + 1 * 12) by lia. by rewrite Z.mod_add, Z.mod_small by lia. }
  rewrite !Z.quot_div_nonneg by lia. unfold doy, doe. lia.
Qed.

Lemma saturate_id x : - 2 ^ 63 <= x < 2 ^ 63 -> saturate x = x.
Proof. intros. unfold saturate, clamp. lia. Qed.

(** No offset leaves the time alone, in the years the calendar step covers. *)
Lemma apply_default t : -62167219200 <= t < 253402300800 -> apply offset_default t = t.
Proof.
  intros Ht. unfold apply. pose proof (civil_from_days_ok (t / 86400)) as [Hv Hn]. destruct (civil_from_days (t / 86400)) as [[y m] d]. cbn [date_of] in *.
  pose proof (in_year _ Hv) as Hin. destruct Hv as [Hm Hd]. cbn [year month day] in *. rewrite Hn in Hin.
  assert (Hy : 0 <= y <= 9999).
  { assert (Hdays : -719528 <= t / 86400 <= 2932896) by (Z.div_mod_to_equations; lia).
    assert (year_start 0 = -366) by reflexivity. assert (year_start 10000 = 3652059) by reflexivity.
    destruct (Z.lt_ge_cases y 0); [|destruct (Z.le_gt_cases y 9999); [lia|]].
    - destruct (Z.eq_dec (y + 1) 0) as [E|]; [rewrite E in Hin; lia|]. pose proof (year_start_mono (y + 1) 0 ltac:(lia)). lia.
    - destruct (Z.eq_dec y 10000) as [->|]; [lia|]. pose proof (year_start_mono 10000 y ltac:(lia)). lia. }
  cbn [years months days hours minutes seconds offset_default]. change (saturating_mul 0 _) with 0. unfold saturating_add. rewrite !Z.add_0_r.
  rewrite (saturate_id (y * 12 + (m - 1))), (saturate_id (y * 12 + (m - 1))) by lia. 
  replace (clamp (y * 12 + (m - 1)) 0 (10000 * 12)) with (y * 12 + (m - 1)) by (unfold clamp; lia).
  rewrite Z.quot_div_nonneg, Z.rem_mod_nonneg by lia.
  assert ((y * 12 + (m - 1)) / 12 = y) as -> by (Z.div_mod_to_equations; lia). assert ((y * 12 + (m - 1)) mod 12 + 1 = m) as -> by (Z.div_mod_to_equations; lia).
  rewrite days_in_month_ok, Z.min_l, days_from_civil_ok, Hn by lia.
  replace (t / 86400 * 86400 + t mod 86400) with t by (Z.div_mod_to_equations; lia). by do 4 rewrite (saturate_id t) by lia.
Qed.

Lemma apply_clamped_range o t : RTC_MIN_UNIX <= (apply_clamped o t).1 <= RTC_MAX_UNIX.
Proof. unfold apply_clamped, clamp, RTC_MIN_UNIX, RTC_MAX_UNIX. cbn [fst]. lia. Qed.

End RtcOffset.
