(* ===== verification/Ds1687.v ===== *)
(** * The O2's real-time clock

    The DS1687 of src/src/dev/ds1687.rs: clock registers over a count of guest
    seconds that runs with the host's monotonic clock, 256 battery-backed
    cells, and the software power switch.  Host instants are nanoseconds, and
    arguments: a write that reads the clock and then restarts it takes both. *)

From Stdlib Require Import String.
From S2P Require Import Prelude Calendar Snapshot.
Import Snapshot.

#[local] Open Scope Z_scope.
#[local] Open Scope word_scope.

Module Ds1687.

Definition SEC : Z := 0x00.
Definition MIN : Z := 0x02.
Definition HOUR : Z := 0x04.
Definition WDAY : Z := 0x06.
Definition MDAY : Z := 0x07.
Definition MONTH : Z := 0x08.
Definition YEAR : Z := 0x09.
Definition REG_A : Z := 0x0a.
Definition A_DV0 : Z := 0x10.
Definition CENTURY : Z := 0x48.
Definition XCTRL4A : Z := 0x4a.
Definition XCTRL4A_PAB : Z := 0x08.
Definition REG_B : Z := 0x0b.
Definition B_SET : Z := 0x80.
Definition B_BINARY : Z := 0x04.
Definition B_24H : Z := 0x02.
Definition TIME : list Z := [SEC; MIN; HOUR; WDAY; MDAY; MONTH; YEAR].
Definition REGS : nat := 256.

Definition days_from_civil (y m d : Z) : Z :=
  let y := if m <=? 2 then y - 1 else y in
  let era := y / 400 in
  let yoe := y - era * 400 in
  let doy := Z.quot (153 * (m + (if 2 <? m then -3 else 9)) + 2) 5 + d - 1 in
  let doe := yoe * 365 + Z.quot yoe 4 - Z.quot yoe 100 + doy in
  era * 146097 + doe - 719468.

Definition civil_from_days (z : Z) : Z * Z * Z :=
  let z := z + 719468 in
  let era := z / 146097 in
  let doe := z - era * 146097 in
  let yoe := Z.quot (doe - Z.quot doe 1460 + Z.quot doe 36524 - Z.quot doe 146096) 365 in
  let doy := doe - (365 * yoe + Z.quot yoe 4 - Z.quot yoe 100) in
  let mp := Z.quot (5 * doy + 2) 153 in
  let d := doy - Z.quot (153 * mp + 2) 5 + 1 in
  let m := if mp <? 10 then mp + 3 else mp - 9 in
  (yoe + era * 400 + (if m <=? 2 then 1 else 0), m, d).

Record MaceRtc : Type := mkRtc { cells : list Z; clock : Z * Z; powered_off : bool }.

#[global] Instance eta_MaceRtc : Settable MaceRtc := fun r => mkRtc (cells r) (clock r) (powered_off r).

(** The host's seconds since 1970, 0 for a host clock before that. *)
Definition new (host now : Z) : MaceRtc :=
  mkRtc (<[Z.to_nat REG_B := B_24H]> (<[Z.to_nat 0x0d := 0x80]> (replicate REGS 0))) (Z.max 0 host, now) false.

Definition peek (r : MaceRtc) (reg : Z) : Z := cells r !!! Z.to_nat (reg .& 0xff).
Definition poke (r : MaceRtc) (reg v : Z) : MaceRtc := r <| cells ::= <[Z.to_nat (reg .& 0xff) := v]> |>.

(** Guest time at host instant [t]. *)
Definition now (r : MaceRtc) (t : Z) : Z := let '(secs, at_) := clock r in secs + Z.max 0 (t - at_) / 1000000000.

(** Whole numbers as the registers hold them. *)
Definition to_reg (b v : Z) : Z := if has b B_BINARY then v else u8 ((v / 10) .<< 4) .| (v mod 10).
Definition from_reg (b raw : Z) : Z := if has b B_BINARY then raw else (raw .>> 4) * 10 + (raw .& 0x0f).

Definition field (reg t b : Z) : Z :=
  let days := t / 86400 in
  let secs := t mod 86400 in
  let '(y, m, d) := civil_from_days days in
  let hour := u8 (secs / 3600) in
  let twelve := (reg =? HOUR) && negb (has b B_24H) in
  let pm := if twelve && (12 <=? hour) then 0x80 else 0 in
  let hour := if twelve then (let h := hour mod 12 in if h =? 0 then 12 else h) else hour in
  let v :=
    if reg =? SEC then u8 (secs mod 60)
    else if reg =? MIN then u8 (secs / 60 mod 60)
    else if reg =? HOUR then hour
    else if reg =? WDAY then u8 ((days + 4) mod 7 + 1)
    else if reg =? MDAY then u8 d
    else if reg =? MONTH then u8 m
    else u8 (y mod 100) in
  to_reg b v .| pm.

Definition clamp (x lo hi : Z) : Z := Z.max lo (Z.min x hi).

(** The time the cells hold, with the century given or guessed. *)
Definition cells_time (r : MaceRtc) (century : option Z) : Z :=
  let b := peek r REG_B in
  let get reg := from_reg b (peek r reg .& (if (reg =? HOUR) && negb (has b B_24H) then 0x7f else 0xff)) in
  let hour := if has b B_24H then get HOUR else get HOUR mod 12 + (if has (peek r HOUR) 0x80 then 12 else 0) in
  let yy := get YEAR in
  let year := match century with Some c => c * 100 + yy | None => if yy <? 70 then 2000 + yy else 1900 + yy end in
  let month := clamp (get MONTH) 1 12 in
  let mday := clamp (get MDAY) 1 31 in
  days_from_civil year month mday * 86400 + hour * 3600 + get MIN * 60 + get SEC.

Definition set_from_cells_in (r : MaceRtc) (century : option Z) (t : Z) : MaceRtc := r <| clock := (cells_time r century, t) |>.
Definition set_from_cells (r : MaceRtc) (t : Z) : MaceRtc := set_from_cells_in r None t.

Definition reg_of (addr : Z) : option Z := if negb (addr .& 7 =? 7) then None else Some ((addr .>> 8) .& 0xff).

(** The time registers [fs] frozen at guest time [t], in the mode of [b]. *)
Definition freeze (r : MaceRtc) (fs : list Z) (t b : Z) : MaceRtc := foldl (fun r f => poke r f (field f t b)) r fs.

Definition bank1 (r : MaceRtc) : bool := has (peek r REG_A) A_DV0.

Definition read8 (r : MaceRtc) (t addr : Z) : Z :=
  match reg_of (u32 addr) with
  | None => 0
  | Some reg =>
      let b := peek r REG_B in
      if (reg =? CENTURY) && bank1 r then
        let '(y, _, _) := civil_from_days (now r t / 86400) in to_reg b (u8 (Z.quot y 100))
      else if bool_decide (reg ∈ TIME) && negb (has b B_SET) then field reg (now r t) b
      else peek r reg
  end.

(** [t] is when the clock is read, [t'] when it is restarted. *)
Definition write8 (r : MaceRtc) (t t' addr v : Z) : MaceRtc :=
  match reg_of (u32 addr) with
  | None => r
  | Some reg =>
      let b := peek r REG_B in
      if (reg =? XCTRL4A) && bank1 r then (if has v XCTRL4A_PAB then r <| powered_off := true |> else r)
      else if (reg =? CENTURY) && bank1 r then
        set_from_cells_in (freeze r TIME (now r t) b) (Some (from_reg b v)) t'
      else
        let r := if (reg =? REG_B) && negb (has b B_SET) && has v B_SET then freeze r TIME (now r t) b else r in
        let r := poke r reg v in
        if (reg =? REG_B) && has b B_SET && negb (has v B_SET) then set_from_cells r t'
        else if bool_decide (reg ∈ TIME) && negb (has b B_SET) then
          set_from_cells (freeze r (filter (fun f => f <> reg) TIME) (now r t) b) t'
        else r
  end.

(** Wider accesses reach the byte lane of the register. *)
Definition read_wide (r : MaceRtc) (t addr : Z) : Z := read8 r t (addr .| 7).
Definition write_wide (r : MaceRtc) (t t' addr v : Z) : MaceRtc := write8 r t t' (addr .| 7) (u8 v).

Definition power_on (r : MaceRtc) : MaceRtc := r <| powered_off := false |>.

Definition K_cells : list Ascii.ascii := list_ascii_of_string "cells".
Definition K_time : list Ascii.ascii := list_ascii_of_string "time".
Definition K_powered_off : list Ascii.ascii := list_ascii_of_string "powered_off".

Definition save_state (r : MaceRtc) (t : Z) : Value :=
  VTable [(K_cells, u8_slice_to_toml (cells r)); (K_time, VInteger (now r t)); (K_powered_off, VBoolean (powered_off r))].

Definition load_state (r : MaceRtc) (v : Value) (t : Z) : MaceRtc :=
  let r := match get_field v K_cells with Some c => r <| cells ::= load_u8_slice c |> | None => r end in
  let r := match get_field v K_time with Some (VInteger s) => r <| clock := (s, t) |> | _ => r end in
  r <| powered_off := match get_field v K_powered_off with Some (VBoolean b) => b | _ => false end |>.

End Ds1687.
