(* ===== verification/Ds1x86.v ===== *)
(** * The Indy's real-time clock

    The DS1286 and DS1386 of src/src/dev/ds1x86.rs: time registers in decimal
    digits over a count of centiseconds, and battery-backed storage kept in a
    file.  Indices out of range are panics ([None]); unsigned arithmetic wraps,
    as it does in the release build.  Host instants are nanoseconds of the
    monotonic clock, host time ([wall]) nanoseconds since 1970. *)

From Stdlib Require Import String.
From stdpp Require Import strings.
From S2P Require Import Prelude BlockNode Snapshot Calendar RtcOffset.
Import BlockNode Snapshot RtcOffset.

#[local] Open Scope Z_scope.
#[local] Open Scope word_scope.

Module Ds1x86.

Definition CMD_REG_OFFSET : Z := 0xB.
Definition TE_BIT : Z := 0x80.
Definition MAC_REGS_OFFSET : Z := 314.

Record RtcData : Type := mkData { regs : list Z; base_centiseconds : Z; time_base : Z }.

#[global] Instance eta_RtcData : Settable RtcData := fun d => mkData (regs d) (base_centiseconds d) (time_base d).

Record Ds1x86 : Type := mkRtc { data : RtcData; size : Z; nvram_path : string; offset : RtcOffset }.

#[global] Instance eta_Ds1x86 : Settable Ds1x86 := fun r => mkRtc (data r) (size r) (nvram_path r) (offset r).

Definition to_bcd (v : Z) : Z := u8 ((v / 10) .<< 4) .| (v mod 10).
Definition from_bcd (v : Z) : Z := (v .>> 4) * 10 + (v .& 0x0f).

Definition is_leap (y : Z) : bool := ((y mod 4 =? 0) && negb (y mod 100 =? 0)) || (y mod 400 =? 0).
Definition days_in_year (y : Z) : Z := if is_leap y then 366 else 365.
Definition days_in_month (y : Z) : list Z := [31; if is_leap y then 29 else 28; 31; 30; 31; 30; 31; 31; 30; 31; 30; 31].

(** ** Registers from a time *)

(** Whole years off the count of days; every turn takes off at least 365. *)
Fixpoint year_loop (fuel : nat) (year remaining : Z) : Z * Z :=
  match fuel with
  | O => (year, remaining)
  | S fuel => if remaining <? days_in_year year then (year, remaining) else year_loop fuel (year + 1) (remaining - days_in_year year)
  end.

Fixpoint month_loop (dims : list Z) (month day : Z) : Z * Z :=
  match dims with
  | [] => (month, day)
  | dim :: dims => if day <=? dim then (month, day) else month_loop dims (month + 1) (day - dim)
  end.

Definition date_of_days (total_days : Z) : Z * Z * Z :=
  let '(year, remaining) := year_loop (Z.to_nat (total_days / 365 + 1)) 1970 total_days in
  let '(month, day) := month_loop (days_in_month year) 1 (remaining + 1) in
  (year, month, day).

Definition put_all (rs : list Z) (l : list (Z * Z)) : option (list Z) := foldl (fun rs x => rs ← rs; aset rs x.1 x.2) (Some rs) l.

Definition centiseconds_to_regs (total : Z) (rs : list Z) : option (list Z) :=
  let total_seconds := total / 100 in
  let total_minutes := total_seconds / 60 in
  let total_hours := total_minutes / 60 in
  let total_days := total_hours / 24 in
  let '(year, month, day) := date_of_days total_days in
  put_all rs
    [(0x00, to_bcd (u8 (total mod 100))); (0x01, to_bcd (u8 (total_seconds mod 60))); (0x02, to_bcd (u8 (total_minutes mod 60)));
     (0x04, to_bcd (u8 (total_hours mod 24))); (0x06, u8 ((total_days + 4) mod 7 + 1)); (0x08, to_bcd (u8 day)); (0x09, to_bcd (u8 month));
     (0x0A, to_bcd (u8 ((year - 1940) mod 100)))].

(** ** A time from registers *)

(** [1970..year] is empty for an earlier year. *)
Definition years_days (year : Z) : Z := foldl (fun d y => d + days_in_year y) 0 (seqZ 1970 (year - 1970)).

(** Months past the table are out of bounds. *)
Definition months_days (year month : Z) : option Z :=
  let n := u64 (month - 1) in
  if 12 <? n then None else Some (foldl Z.add 0 (take (Z.to_nat n) (days_in_month year))).

Definition regs_to_centiseconds (rs : list Z) : option Z :=
  centiseconds ← from_bcd <$> aget rs 0x00;
  seconds ← from_bcd <$> aget rs 0x01;
  minutes ← from_bcd <$> aget rs 0x02;
  hours ← from_bcd <$> aget rs 0x04;
  day ← from_bcd <$> aget rs 0x08;
  month ← from_bcd <$> aget rs 0x09;
  yy ← from_bcd <$> aget rs 0x0A;
  let year := yy + 1940 in
  md ← months_days year month;
  let days := u64 (years_days year + md + u64 (day - 1)) in
  Some (u64 (((days * 24 + hours) * 60 + minutes) * 60 * 100 + seconds * 100 + centiseconds)).

(** ** The clock *)

(** A host clock before 1970 leaves the registers alone. *)
Definition set_current_time (o : RtcOffset) (wall : Z) (rs : list Z) : option (list Z) :=
  if wall <? 0 then Some rs
  else centiseconds_to_regs ((apply_clamped o (wall / 1000000000)).1 * 100 + wall mod 1000000000 / 10000000) rs.

Definition update_time (d : RtcData) (now : Z) : option RtcData :=
  let elapsed := Z.max 0 (now - time_base d) in
  let elapsed_centiseconds := elapsed / 1000000000 * 100 + elapsed mod 1000000000 / 10000000 in
  rs ← centiseconds_to_regs (u64 (base_centiseconds d + elapsed_centiseconds)) (regs d);
  Some (d <| regs := rs |>).

Definition rebase (d : RtcData) (now : Z) : option RtcData :=
  c ← regs_to_centiseconds (regs d); Some (d <| base_centiseconds := c |> <| time_base := now |>).

Definition te (d : RtcData) : option bool := b ← aget (regs d) CMD_REG_OFFSET; Some (has b TE_BIT).

Definition update_if_enabled (d : RtcData) (now : Z) : option RtcData :=
  on ← te d; if (on : bool) then update_time d now else Some d.

(** The file is replaced whole, through a temporary beside it whose name is
    fresh. *)
Definition nv_save (fs : FS) (temp filename : string) (bytes : list Z) : FS * result unit :=
  match fs !! temp with
  | Some _ => (fs, Err OtherError)
  | None => (<[filename := bytes]> (delete temp (<[temp := bytes]> fs)), Ok tt)
  end.

Definition save_nvram (fs : FS) (r : Ds1x86) (temp filename : string) (now : Z) : option (FS * Ds1x86 * result unit) :=
  d ← update_if_enabled (data r) now;
  let '(fs, res) := nv_save fs temp filename (regs d) in
  Some (fs, r <| data := d |>, res).

Definition load_nvram (fs : FS) (r : Ds1x86) (filename : string) (wall now : Z) : option (Ds1x86 * result unit) :=
  match fs !! filename with
  | None => Some (r, Err NotFound)
  | Some buffer =>
      let n := Nat.min (length (regs (data r))) (length buffer) in
      rs ← set_current_time (offset r) wall (take n buffer ++ drop n (regs (data r)));
      d ← rebase ((data r) <| regs := rs |>) now;
      Some (r <| data := d |>, Ok tt)
  end.

Definition new (fs : FS) (size : Z) (path : string) (o : RtcOffset) (wall now wall' now' : Z) : option Ds1x86 :=
  rs ← set_current_time o wall (replicate (Z.to_nat size) 0);
  d ← rebase (mkData rs 0 now) now;
  let r := mkRtc d size path o in
  match fs !! path with
  | None => Some r
  | Some _ => '(r, _) ← load_nvram fs r path wall' now'; Some r
  end.

(** [false]: the slot is taken. *)
Definition backdoor_set_mac_if_blank (r : Ds1x86) (mac : list Z) : option (Ds1x86 * bool) :=
  slot ← mapM (aget (regs (data r))) (seqZ MAC_REGS_OFFSET 6);
  if decide (slot = replicate 6 0)
  then rs ← put_all (regs (data r)) (zip (seqZ MAC_REGS_OFFSET 6) mac); Some (r <| data ::= (fun d => d <| regs := rs |>) |>, true)
  else Some (r, false).

(** ** The bus *)

(** The inner [None] is a bus error. *)
Definition read (r : Ds1x86) (now addr : Z) : option (Ds1x86 * option Z) :=
  if size r <=? addr then Some (r, None)
  else
    on ← te (data r);
    d ← if (on : bool) && (addr <? 14) then update_time (data r) now else Some (data r);
    v ← aget (regs d) addr;
    Some (r <| data := d |>, Some v).

Definition write (r : Ds1x86) (now addr v : Z) : option (Ds1x86 * bool) :=
  if size r <=? addr then Some (r, false)
  else
    old_cmd ← aget (regs (data r)) CMD_REG_OFFSET;
    rs ← aset (regs (data r)) addr v;
    let d := (data r) <| regs := rs |> in
    d ←
      if addr <=? 0x0A then rebase d now
      else if (addr =? CMD_REG_OFFSET) && has (old_cmd .^ v) TE_BIT && negb (has v TE_BIT) then update_time d now
      else Some d;
    Some (r <| data := d |>, true).

Definition read8 (r : Ds1x86) (now addr : Z) : option (Ds1x86 * option Z) := read r now (u32 addr).
Definition write8 (r : Ds1x86) (now addr v : Z) : option (Ds1x86 * bool) := write r now (u32 addr) v.

Fixpoint read_bytes (r : Ds1x86) (now addr : Z) (n : nat) (acc : Z) : option (Ds1x86 * option Z) :=
  match n with
  | O => Some (r, Some acc)
  | S n => '(r, v) ← read8 r now addr;
           match v with None => Some (r, None) | Some v => read_bytes r now (addr + 1) n (acc .| (v .<< (8 * Z.of_nat n))) end
  end.

Definition read32 (r : Ds1x86) (now addr : Z) : option (Ds1x86 * option Z) := read_bytes r now addr 4 0.

Fixpoint write_bytes (r : Ds1x86) (now addr v : Z) (n : nat) : option (Ds1x86 * bool) :=
  match n with
  | O => Some (r, true)
  | S n => '(r, ok) ← write8 r now addr ((v .>> (8 * Z.of_nat n)) .& 0xff);
           if (ok : bool) then write_bytes r now (addr + 1) v n else Some (r, false)
  end.

Definition write32 (r : Ds1x86) (now addr v : Z) : option (Ds1x86 * bool) := write_bytes r now addr v 4.

(** ** Snapshots *)

Definition K_regs : list Ascii.ascii := list_ascii_of_string "regs".

Definition save_state (r : Ds1x86) (now : Z) : option (Ds1x86 * Value) :=
  d ← update_if_enabled (data r) now;
  Some (r <| data := d |>, VTable [(K_regs, u8_slice_to_toml (regs d))]).

Definition load_state (r : Ds1x86) (v : Value) (now : Z) : option Ds1x86 :=
  let d := match get_field v K_regs with Some x => (data r) <| regs ::= load_u8_slice x |> | None => data r end in
  d ← rebase d now;
  Some (r <| data := d |>).

Definition stop (fs : FS) (r : Ds1x86) (temp : string) (now : Z) : option (FS * Ds1x86) :=
  if bool_decide (nvram_path r = "") then Some (fs, r)
  else '(fs, r, _) ← save_nvram fs r temp (nvram_path r) now; Some (fs, r).

End Ds1x86.
