(* ===== verification/RtcClaims.v ===== *)
(** * The clocks' calendars agree

    The program converts between days and dates in three places: the clock
    offset, the O2's clock and the Indy's.  All three are the Gregorian
    calendar. *)

From stdpp Require Import strings.
From S2P Require Import Prelude Calendar RtcOffset Snapshot Ds1687 BlockNode Ds1x86.

(** ** Theorems about the DS1687

    Its calendar is the Gregorian one; what a driver reads is the guest's time
    in whichever mode register B selects; and a time set under SET runs on
    from there. *)

Module Ds1687Claims.

Import Calendar RtcOffset Snapshot Ds1687.
#[local] Open Scope Z_scope.
#[local] Open Scope word_scope.

(** ** The calendar *)

Lemma civil_same z : date_of (Ds1687.civil_from_days z) = date_of (RtcOffset.civil_from_days z).
Proof. unfold Ds1687.civil_from_days, RtcOffset.civil_from_days. cbn zeta. cbn [date_of]. f_equal. case_match; lia. Qed.

Lemma days_same y m d : 1 <= m <= 12 -> Ds1687.days_from_civil y m d = RtcOffset.days_from_civil y m d.
Proof. intros Hm. unfold Ds1687.days_from_civil, RtcOffset.days_from_civil. each_month Hm; reflexivity. Qed.

Lemma civil_ok z : valid (date_of (Ds1687.civil_from_days z)) /\ day_number (date_of (Ds1687.civil_from_days z)) = z.
Proof. rewrite civil_same. apply civil_from_days_ok. Qed.

Lemma days_ok y m d : 1 <= m <= 12 -> Ds1687.days_from_civil y m d = day_number (mkDate y m d).
Proof. intros. by rewrite days_same, days_from_civil_ok. Qed.

(** ** What a driver does with the registers *)

Definition reg_addr (reg : Z) : Z := reg * 256 + 7.

(** Numbers in binary or in decimal digits; hours by twelve or by
    twenty-four. *)
Definition digits (b v : Z) : Z := if has b 4 then v else v / 10 * 16 + v mod 10.
Definition undigits (b v : Z) : Z := if has b 4 then v else v / 16 * 10 + v mod 16.

Definition hour_code (b h : Z) : Z :=
  if has b 2 then digits b h else digits b ((h + 11) mod 12 + 1) + (if 12 <=? h then 128 else 0).
Definition hour_value (b v : Z) : Z :=
  if has b 2 then undigits b v else undigits b (v mod 128) mod 12 + (if 128 <=? v then 12 else 0).

(** A time as a driver handles it. *)
Record Moment : Type := mkMoment { date : Date; hour : Z; minute : Z; second : Z }.

Definition moment_ok (x : Moment) : Prop := valid (date x) /\ 0 <= hour x < 24 /\ 0 <= minute x < 60 /\ 0 <= second x < 60.

#[export] Instance moment_ok_dec x : Decision (moment_ok x).
Proof. unfold moment_ok. apply _. Defined.

Definition unix_of (x : Moment) : Z := day_number (date x) * 86400 + hour x * 3600 + minute x * 60 + second x.

(** The fields read at instant [t], in a year of the given century. *)
Definition driver_read (r : MaceRtc) (t century : Z) : Moment :=
  let b := read8 r t (reg_addr 0x0b) in
  let get reg := read8 r t (reg_addr reg) in
  mkMoment (mkDate (century * 100 + undigits b (get 9)) (undigits b (get 8)) (undigits b (get 7)))
    (hour_value b (get 4)) (undigits b (get 2)) (undigits b (get 0)).

(** The writes that set the clock to [x] in mode [m]; the clock is stopped at
    [t] and started at [t']. *)
Definition moment_writes (m : Z) (x : Moment) : list (Z * Z) :=
  [(0, digits m (second x)); (2, digits m (minute x)); (4, hour_code m (hour x));
   (7, digits m (day (date x))); (8, digits m (month (date x))); (9, digits m (year (date x) mod 100))].

Definition driver_set (r : MaceRtc) (t t' m : Z) (x : Moment) : MaceRtc :=
  let r := write8 r t t (reg_addr 0x0b) (128 + m) in
  let r := foldl (fun r y => write8 r t t (reg_addr y.1) y.2) r (moment_writes m x) in
  write8 r t t' (reg_addr 0x0b) m.

(** ** Registers *)

(** A drive of 256 byte cells. *)
Definition rtc_ok (r : MaceRtc) : Prop := length (cells r) = 256%nat /\ Forall (fits 8) (cells r).

Lemma reg_of_addr reg : 0 <= reg < 256 -> reg_of (u32 (reg_addr reg)) = Some reg.
Proof.
  intros Hr. unfold reg_of, reg_addr, u32, wrap. rewrite Z.mod_small by lia.
  change 7 with (Z.ones 3) at 2. change 255 with (Z.ones 8). rewrite !Z.land_ones, Z.shiftr_div_pow2 by done.
  assert ((reg * 256 + 7) mod 2 ^ 3 = 7) as -> by (change (2 ^ 3) with 8; Z.div_mod_to_equations; lia). cbn [Z.eqb negb Pos.eqb].
  f_equal. change (2 ^ 8) with 256. rewrite Z.div_add_l by lia. change (7 / 256) with 0. rewrite Z.add_0_r. by apply Z.mod_small.
Qed.

(** Case analysis on a small number. *)
Lemma below_ind (P : Z -> bool) n : forallb P (seqZ 0 n) = true -> forall v, 0 <= v < n -> P v = true.
Proof. intros H v Hv. rewrite forallb_forall in H. apply H. apply list_elem_of_In, elem_of_seqZ. lia. Qed.

Lemma to_reg_digits b v : 0 <= v < 100 -> to_reg b v = digits b v.
Proof.
  intros Hv. unfold to_reg, digits, B_BINARY. destruct (has b 4); [done|]. apply Z.eqb_eq.
  apply (below_ind (fun v => u8 ((v / 10) .<< 4) .| (v mod 10) =? v / 10 * 16 + v mod 10) 100); [reflexivity|done].
Qed.

Lemma from_reg_undigits b v : 0 <= v < 256 -> from_reg b v = undigits b v.
Proof.
  intros Hv. unfold from_reg, undigits, B_BINARY. destruct (has b 4); [done|]. rewrite Z.shiftr_div_pow2 by done.
  change 15 with (Z.ones 4). by rewrite Z.land_ones by done.
Qed.

Lemma digits_range b v : 0 <= v < 100 -> 0 <= digits b v < 256.
Proof. intros. unfold digits. destruct (has b 4); [lia|]. Z.div_mod_to_equations. lia. Qed.

Lemma undigits_digits b v : 0 <= v < 100 -> undigits b (digits b v) = v.
Proof. intros. unfold undigits, digits. destruct (has b 4); [done|]. Z.div_mod_to_equations. lia. Qed.

Lemma hour_code_range b h : 0 <= h < 24 -> 0 <= hour_code b h < 256.
Proof.
  intros. unfold hour_code, digits. destruct (has b 2), (has b 4); [lia|Z.div_mod_to_equations; lia|..]; destruct (Z.leb_spec 12 h); Z.div_mod_to_equations; lia.
Qed.

Lemma hour_value_code b h : 0 <= h < 24 -> hour_value b (hour_code b h) = h.
Proof.
  intros Hh. unfold hour_value, hour_code, undigits, digits. destruct (has b 2), (has b 4); apply Z.eqb_eq.
  - by apply Z.eqb_eq.
  - by apply (below_ind (fun h => (h / 10 * 16 + h mod 10) / 16 * 10 + (h / 10 * 16 + h mod 10) mod 16 =? h) 24).
  - by apply (below_ind (fun h => (((h + 11) mod 12 + 1 + (if 12 <=? h then 128 else 0)) mod 128) mod 12 + (if 128 <=? (h + 11) mod 12 + 1 + (if 12 <=? h then 128 else 0) then 12 else 0) =? h) 24).
  - by apply (below_ind (fun h => let c := ((h + 11) mod 12 + 1) / 10 * 16 + ((h + 11) mod 12 + 1) mod 10 + (if 12 <=? h then 128 else 0) in
      (c mod 128 / 16 * 10 + (c mod 128) mod 16) mod 12 + (if 128 <=? c then 12 else 0) =? h) 24).
Qed.

(** ** The registers over a time *)

Definition moment_of (t : Z) : Moment :=
  let s := t mod 86400 in mkMoment (date_of (Ds1687.civil_from_days (t / 86400))) (s / 3600) (s / 60 mod 60) (s mod 60).

Lemma moment_of_ok t : moment_ok (moment_of t) /\ unix_of (moment_of t) = t.
Proof.
  destruct (civil_ok (t / 86400)) as [Hv Hn]. unfold moment_ok, unix_of, moment_of. cbn [date hour minute second]. rewrite Hn.
  split; [split; [done|]|]; Z.div_mod_to_equations; lia.
Qed.

Lemma moment_unique x : moment_ok x -> moment_of (unix_of x) = x.
Proof.
  intros (Hv & Hh & Hm & Hs). unfold moment_of, unix_of.
  assert ((day_number (date x) * 86400 + hour x * 3600 + minute x * 60 + second x) / 86400 = day_number (date x)) as -> by (Z.div_mod_to_equations; lia).
  assert ((day_number (date x) * 86400 + hour x * 3600 + minute x * 60 + second x) mod 86400 = hour x * 3600 + minute x * 60 + second x) as -> by (Z.div_mod_to_equations; lia).
  destruct x as [dt h mi s]. cbn [date hour minute second] in *. f_equal; [|Z.div_mod_to_equations; lia..].
  destruct (civil_ok (day_number dt)). by apply day_number_inj.
Qed.

Lemma u8_small v : 0 <= v < 256 -> u8 v = v.
Proof. intros. unfold u8, wrap. by apply Z.mod_small. Qed.

Lemma lor_128 v : 0 <= v < 128 -> v .| 128 = v + 128.
Proof. intros. apply Z.eqb_eq. by apply (below_ind (fun v => v .| 128 =? v + 128) 128). Qed.

Lemma field_hour b h : 0 <= h < 24 ->
  to_reg b (if negb (has b B_24H) then (let x := h mod 12 in if x =? 0 then 12 else x) else h) .| (if negb (has b B_24H) && (12 <=? h) then 128 else 0) = hour_code b h.
Proof.
  intros Hh. unfold hour_code, B_24H. destruct (has b 2); cbn [negb andb]; [rewrite Z.lor_0_r; apply to_reg_digits; lia|]. cbn zeta.
  assert ((if h mod 12 =? 0 then 12 else h mod 12) = (h + 11) mod 12 + 1) as -> by (destruct (Z.eqb_spec (h mod 12) 0); Z.div_mod_to_equations; lia).
  assert (1 <= (h + 11) mod 12 + 1 <= 12) by (Z.div_mod_to_equations; lia). rewrite to_reg_digits by lia.
  destruct (12 <=? h); [|by rewrite Z.lor_0_r, Z.add_0_r]. apply lor_128.
  unfold digits. destruct (has b 4); [lia|]. set (v := (h + 11) mod 12 + 1) in *. clearbody v. Z.div_mod_to_equations. lia.
Qed.

(** A time register holds its part of the moment. *)
Lemma field_codes t b : let x := moment_of t in
  field SEC t b = digits b (second x) /\ field MIN t b = digits b (minute x) /\ field HOUR t b = hour_code b (hour x) /\
  field MDAY t b = digits b (day (date x)) /\ field MONTH t b = digits b (month (date x)) /\ field YEAR t b = digits b (year (date x) mod 100).
Proof.
  intros x. destruct (moment_of_ok t) as [(Hv & Hh & Hm & Hs) _]. fold x in Hv, Hh, Hm, Hs. unfold field, x, moment_of in *. cbn [date hour minute second] in *.
  destruct (Ds1687.civil_from_days (t / 86400)) as [[y m] d]. cbn [date_of year month day] in *. destruct Hv as [Hm' Hd]. cbn [year month day] in Hm', Hd.
  assert (Hd' : day (mkDate y m d) <= 31) by (unfold month_days in Hd; cbn; repeat case_match; lia). cbn [day] in Hd'.
  pose proof (Z.mod_pos_bound y 100 ltac:(lia)).
  cbn [SEC MIN HOUR WDAY MDAY MONTH YEAR Z.eqb Pos.eqb andb]. rewrite !Z.lor_0_r, !u8_small by lia.
  repeat split; first [by apply field_hour | apply to_reg_digits; lia].
Qed.

(** ** Reading *)

Lemma time_regs reg : bool_decide (reg ∈ TIME) = (reg =? 0) || (reg =? 2) || (reg =? 4) || (reg =? 6) || (reg =? 7) || (reg =? 8) || (reg =? 9).
Proof.
  unfold TIME, SEC, MIN, HOUR, WDAY, MDAY, MONTH, YEAR.
  destruct (_ || _) eqn:E.
  - apply bool_decide_eq_true_2. rewrite !orb_true_iff, !Z.eqb_eq in E. set_solver.
  - apply bool_decide_eq_false_2. rewrite !orb_false_iff, !Z.eqb_neq in E. set_solver.
Qed.

Lemma read_time r t reg : 0 <= reg < 256 -> reg ∈ TIME -> has (peek r REG_B) B_SET = false -> read8 r t (reg_addr reg) = field reg (now r t) (peek r REG_B).
Proof.
  intros Hr Ht Hs. unfold read8. rewrite reg_of_addr by done. rewrite (bool_decide_true _ Ht), Hs. cbn [andb negb].
  rewrite (proj2 (Z.eqb_neq reg CENTURY)); [done|]. unfold TIME, SEC, MIN, HOUR, WDAY, MDAY, MONTH, YEAR, CENTURY in *. set_solver.
Qed.

Lemma read_mode r t : read8 r t (reg_addr 0x0b) = peek r REG_B.
Proof. unfold read8. by rewrite reg_of_addr. Qed.

(** What a driver reads while the clock runs is the guest's time. *)
Lemma driver_read_now r t : has (peek r REG_B) B_SET = false ->
  driver_read r t (year (date (moment_of (now r t))) / 100) = moment_of (now r t).
Proof.
  intros Hs. unfold driver_read. rewrite read_mode. rewrite !read_time by (done || lia || by apply (bool_decide_unpack _)).
  set (b := peek r REG_B). destruct (field_codes (now r t) b) as (E0 & E2 & E4 & E7 & E8 & E9).
  change (field 0) with (field SEC). change (field 2) with (field MIN). change (field 4) with (field HOUR). change (field 7) with (field MDAY). change (field 8) with (field MONTH). change (field 9) with (field YEAR).
  rewrite E0, E2, E4, E7, E8, E9. destruct (moment_of_ok (now r t)) as [(Hv & Hh & Hm & Hsec) _]. set (x := moment_of (now r t)) in *. clearbody x.
  destruct x as [[y m d] h mi sc]. cbn [date hour minute second year month day] in *. destruct Hv as [Hm' Hd]. cbn [year month day] in *.
  assert (d <= 31) by (unfold month_days in Hd; repeat case_match; lia).
  rewrite hour_value_code, !undigits_digits by (pose proof (Z.mod_pos_bound y 100 ltac:(lia)); lia).
  f_equal. f_equal. Z.div_mod_to_equations. lia.
Qed.

(** ** Setting *)

Lemma land_255 reg : 0 <= reg < 256 -> reg .& 255 = reg.
Proof. intros. change 255 with (Z.ones 8). rewrite Z.land_ones by done. by apply Z.mod_small. Qed.

Lemma peek_poke r i j v : length (cells r) = 256%nat -> 0 <= i < 256 -> 0 <= j < 256 -> peek (poke r i v) j = if i =? j then v else peek r j.
Proof.
  intros Hl Hi Hj. unfold peek, poke. cbn -[Z.land]. rewrite !land_255 by done.
  destruct (Z.eqb_spec i j) as [->|]; [by rewrite list_lookup_total_insert_eq by lia|]. rewrite list_lookup_total_insert_ne by lia. done.
Qed.

Lemma poke_length r i v : length (cells (poke r i v)) = length (cells r).
Proof. unfold poke. cbn. by rewrite length_insert. Qed.

Lemma clock_poke r i v : clock (poke r i v) = clock r.
Proof. done. Qed.

Lemma freeze_length r fs t b : length (cells (freeze r fs t b)) = length (cells r).
Proof. unfold freeze. revert r. induction fs as [|f fs IH]; intros r; [done|]. cbn. rewrite IH. apply poke_length. Qed.

(** With SET up, a time register takes what is written and nothing else
    happens. *)
Lemma write_set r t t' reg v : 0 <= reg < 256 -> reg ∈ TIME -> has (peek r REG_B) B_SET = true ->
  write8 r t t' (reg_addr reg) v = poke r reg v.
Proof.
  intros Hr Ht Hs. unfold write8. rewrite reg_of_addr by done. rewrite Hs, (bool_decide_true _ Ht).
  assert (reg <> XCTRL4A /\ reg <> CENTURY /\ reg <> REG_B) as (H1 & H2 & H3).
  { unfold TIME, SEC, MIN, HOUR, WDAY, MDAY, MONTH, YEAR, CENTURY, XCTRL4A, REG_B in *. set_solver. }
  rewrite !(proj2 (Z.eqb_neq reg _)) by done. done.
Qed.

(** Register B with SET raised, and with SET dropped. *)
Lemma write_mode_up r t t' m : 0 <= m < 128 -> length (cells r) = 256%nat ->
  let r' := write8 r t t' (reg_addr REG_B) (128 + m) in peek r' REG_B = 128 + m /\ length (cells r') = 256%nat.
Proof.
  intros Hm Hl. unfold write8. rewrite reg_of_addr by done. cbn [REG_B XCTRL4A CENTURY Z.eqb Pos.eqb andb].
  assert (has (128 + m) B_SET = true) as -> by (apply (below_ind (fun m => has (128 + m) B_SET) 128); [reflexivity|done]).
  change (bool_decide (REG_B ∈ TIME)) with false. rewrite andb_true_r, andb_false_r. cbn [andb].
  destruct (negb (has (peek r REG_B) B_SET)); cbn zeta; rewrite peek_poke, poke_length; rewrite ?freeze_length; done || lia.
Qed.

Lemma write_mode_down r t t' m : 0 <= m < 128 -> has (peek r REG_B) B_SET = true ->
  write8 r t t' (reg_addr REG_B) m = set_from_cells (poke r REG_B m) t'.
Proof.
  intros Hm Hs. unfold write8. rewrite reg_of_addr by done. rewrite Hs. cbn [REG_B XCTRL4A CENTURY Z.eqb Pos.eqb andb negb].
  assert (has m B_SET = false) as ->; [|done].
  apply negb_true_iff. apply (below_ind (fun m => negb (has m B_SET)) 128); [reflexivity|done].
Qed.

Definition no_century (x : Moment) : Prop := 1970 <= year (date x) < 2070.

Lemma hour_mask b h : 0 <= h < 24 ->
  (if has b B_24H then from_reg b (hour_code b h .& 0xff) else from_reg b (hour_code b h .& 0x7f) mod 12 + (if has (hour_code b h) 0x80 then 12 else 0)) = h.
Proof.
  intros Hh. pose proof (hour_code_range b h Hh) as Hr. rewrite land_255 by done.
  assert (hour_code b h .& 0x7f = hour_code b h mod 128) as -> by (change 0x7f with (Z.ones 7); by rewrite Z.land_ones by done).
  assert (has (hour_code b h) 0x80 = (128 <=? hour_code b h)) as ->.
  { apply eqb_prop. apply (below_ind (fun v => eqb (has v 128) (128 <=? v)) 256); [reflexivity|done]. }
  rewrite !from_reg_undigits by (done || pose proof (Z.mod_pos_bound (hour_code b h) 128 ltac:(lia)); lia).
  exact (hour_value_code b h Hh).
Qed.

(** The time a drive holds once its time cells are those of a moment. *)
Lemma cells_time_moment r x : moment_ok x -> no_century x ->
  let b := peek r REG_B in
  peek r SEC = digits b (second x) -> peek r MIN = digits b (minute x) -> peek r HOUR = hour_code b (hour x) ->
  peek r MDAY = digits b (day (date x)) -> peek r MONTH = digits b (month (date x)) -> peek r YEAR = digits b (year (date x) mod 100) ->
  cells_time r None = unix_of x.
Proof.
  intros (Hv & Hh & Hm & Hs) Hc b E0 E2 E4 E7 E8 E9. unfold cells_time. fold b. rewrite E0, E2, E4, E7, E8, E9.
  destruct Hv as [Hm' Hd]. assert (day (date x) <= 31) by (unfold month_days in Hd; repeat case_match; lia).
  pose proof (Z.mod_pos_bound (year (date x)) 100 ltac:(lia)) as Hy.
  assert (Hg : forall v, 0 <= v < 100 -> from_reg b (digits b v .& 255) = v).
  { intros v Hv'. rewrite land_255 by (by apply digits_range). rewrite from_reg_undigits by (by apply digits_range). by apply undigits_digits. }
  cbn [SEC MIN HOUR MDAY MONTH YEAR Z.eqb Pos.eqb andb]. rewrite !Hg by lia.
  unfold Ds1687.clamp. rewrite (Z.min_l (month _)), (Z.min_l (day _)), !Z.max_r by lia. rewrite days_ok by done.
  pose proof (hour_mask b (hour x) Hh) as Hhm. destruct (has b B_24H); cbn [negb]; rewrite Hhm.
  all: assert (Ey : (if year (date x) mod 100 <? 70 then 2000 + year (date x) mod 100 else 1900 + year (date x) mod 100) = year (date x))
    by (unfold no_century in Hc; destruct (Z.ltb_spec (year (date x) mod 100) 70); Z.div_mod_to_equations; lia).
  all: rewrite Ey; unfold unix_of; by destruct x as [[y m d] h mi sc].
Qed.

(** A run of writes to time registers with SET up. *)
Definition pokes (r : MaceRtc) (l : list (Z * Z)) : MaceRtc := foldl (fun r x => poke r x.1 x.2) r l.

Lemma pokes_length r l : length (cells (pokes r l)) = length (cells r).
Proof. revert r. induction l as [|x l IH]; intros r; [done|]. cbn. rewrite IH. apply poke_length. Qed.

Lemma peek_pokes l : forall r j, length (cells r) = 256%nat -> 0 <= j < 256 -> Forall (fun x => 0 <= x.1 < 256) l -> NoDup l.*1 ->
  peek (pokes r l) j = match list_find (fun x => x.1 = j) l with Some (_, x) => x.2 | None => peek r j end.
Proof.
  induction l as [|x l IH]; intros r j Hl Hj Hr Hn; [done|]. inversion_clear Hr. cbn in Hn. apply NoDup_cons in Hn as [Hx Hn].
  cbn [pokes foldl]. change (foldl _ ?a l) with (pokes a l). rewrite IH; [|by rewrite poke_length|done..]. cbn [list_find].
  rewrite peek_poke by done. destruct (decide (x.1 = j)) as [<-|Hne].
  - destruct (list_find (fun y => y.1 = x.1) l) as [[i y]|] eqn:E; [|by rewrite Z.eqb_refl].
    apply list_find_Some in E as (E & Ey & _). exfalso. apply Hx. apply list_elem_of_fmap. exists y. split; [done|]. by eapply list_elem_of_lookup_2.
  - rewrite (proj2 (Z.eqb_neq _ _)) by done. destruct (list_find _ l) as [[i y]|]; done.
Qed.

Lemma writes_set l : forall r t, length (cells r) = 256%nat -> has (peek r REG_B) B_SET = true -> Forall (fun x => 0 <= x.1 < 256 /\ x.1 ∈ TIME) l ->
  foldl (fun r x => write8 r t t (reg_addr x.1) x.2) r l = pokes r l.
Proof.
  induction l as [|x l IH]; intros r t Hl Hs Hr; [done|]. inversion_clear Hr as [|? ? [Hx Ht] Hr']. cbn. rewrite write_set by done.
  apply IH; [by rewrite poke_length| |done]. rewrite peek_poke by done. rewrite (proj2 (Z.eqb_neq _ _)); [done|]. intros E. rewrite E in Ht. pose proof (bool_decide_eq_true_2 _ Ht) as Hf. discriminate Hf.
Qed.

Lemma driver_set_ok r t t' m x : length (cells r) = 256%nat -> 0 <= m < 128 -> moment_ok x -> no_century x ->
  let r' := driver_set r t t' m x in clock r' = (unix_of x, t') /\ has (peek r' REG_B) B_SET = false.
Proof.
  intros Hl Hm Hx Hc. set (r1 := write8 r t t (reg_addr REG_B) (128 + m)).
  destruct (write_mode_up r t t m Hm Hl) as [Hb Hl1]. fold r1 in Hb, Hl1.
  assert (Hs : has (peek r1 REG_B) B_SET = true) by (rewrite Hb; apply (below_ind (fun m => has (128 + m) B_SET) 128); [reflexivity|done]).
  assert (Hr : Forall (fun y : Z * Z => 0 <= y.1 < 256 /\ y.1 ∈ TIME) (moment_writes m x))
    by (repeat (apply Forall_cons; split; [split; [done|by apply (bool_decide_unpack _)]|]); by apply Forall_nil).
  assert (Hr' : Forall (fun y : Z * Z => 0 <= y.1 < 256) (moment_writes m x)) by (eapply Forall_impl; [exact Hr|by intros ? []]).
  pose proof (writes_set (moment_writes m x) r1 t Hl1 Hs Hr) as Hw. set (r2 := pokes r1 (moment_writes m x)) in *.
  assert (Hn : NoDup (moment_writes m x).*1) by (by apply (bool_decide_unpack _)).
  assert (Hp : forall j, 0 <= j < 256 -> peek r2 j = match list_find (fun y => y.1 = j) (moment_writes m x) with Some (_, y) => y.2 | None => peek r1 j end)
    by (intros; by apply peek_pokes).
  assert (Hl2 : length (cells r2) = 256%nat) by (unfold r2; by rewrite pokes_length).
  assert (Hd : driver_set r t t' m x = set_from_cells (poke r2 REG_B m) t').
  { rewrite <- (write_mode_down r2 t t' m); [|done|by rewrite Hp]. unfold driver_set. by rewrite <- Hw. }
  rewrite Hd. cbn zeta. split.
  - change (clock (set_from_cells ?a t')) with (cells_time a None, t'). f_equal. apply cells_time_moment; try done.
    all: rewrite !peek_poke by done; cbn [REG_B SEC MIN HOUR MDAY MONTH YEAR Z.eqb Pos.eqb]; by rewrite Hp.
  - change (peek (set_from_cells ?a t')) with (peek a). rewrite peek_poke, Z.eqb_refl by done.
    apply negb_true_iff. apply (below_ind (fun m => negb (has m B_SET)) 128); [reflexivity|done].
Qed.

(** Two moments of the calendar at the same second are the same. *)
Lemma unix_of_inj x y : moment_ok x -> moment_ok y -> unix_of x = unix_of y -> x = y.
Proof. intros Hx Hy E. by rewrite <- (moment_unique x Hx), <- (moment_unique y Hy), E. Qed.

(** C38: The DS1687 keeps the time a driver sets.  From any state, in any of its
    modes (binary or decimal digits, twelve or twenty-four hours), a date and
    time of 1970 to 2069 written under SET is what the clock starts from when
    SET drops: at every later instant the clock has moved on by the whole
    seconds elapsed; the Gregorian calendar has exactly one valid date and
    time that many seconds after 1970, and it is what the registers read then
    decode to, digit by digit (the chip's year being two digits, in the
    century of that date). *)
Theorem ds1687_set_runs r t t' m x u : length (cells r) = 256%nat -> 0 <= m < 128 -> moment_ok x -> no_century x -> t' <= u ->
  let r' := driver_set r t t' m x in
  let s := unix_of x + (u - t') / 1000000000 in
  now r' u = s /\
  exists y, moment_ok y /\ unix_of y = s /\ (forall z, moment_ok z -> unix_of z = s -> z = y) /\
    driver_read r' u (year (date y) / 100) = y.
Proof.
  intros Hl Hm Hx Hc Hu r' s. destruct (driver_set_ok r t t' m x Hl Hm Hx Hc) as [Hk Hs]. fold r' in Hk, Hs.
  assert (Hn : now r' u = s) by (unfold now; rewrite Hk; unfold s; rewrite Z.max_r by lia; done).
  split; [done|]. destruct (moment_of_ok s) as [Hok Hus]. exists (moment_of s).
  split_and!; [done|done|intros z Hz Ez; apply unix_of_inj; congruence|]. rewrite <- Hn. by apply driver_read_now.
Qed.

(** ** One field at a time *)

(** What the time register [reg] holds for a moment. *)
Definition code (reg b : Z) (x : Moment) : Z :=
  match list_find (fun y => y.1 = reg) (moment_writes b x) with Some (_, y) => y.2 | None => 0 end.

Lemma field_code reg t b : reg ∈ [0; 2; 4; 7; 8; 9] -> field reg t b = code reg b (moment_of t).
Proof.
  intros Hr. destruct (field_codes t b) as (E0 & E2 & E4 & E7 & E8 & E9).
  repeat (apply elem_of_cons in Hr as [->|Hr]); [exact E0|exact E2|exact E4|exact E7|exact E8|exact E9|by apply not_elem_of_nil in Hr].
Qed.

Lemma freeze_pokes r fs t b : freeze r fs t b = pokes r (map (fun f => (f, field f t b)) fs).
Proof. unfold freeze, pokes. revert r. induction fs as [|f fs IH]; intros r; [done|]. cbn. apply IH. Qed.

Lemma peek_freeze r fs t b j : length (cells r) = 256%nat -> 0 <= j < 256 -> Forall (fun f => 0 <= f < 256) fs -> NoDup fs ->
  peek (freeze r fs t b) j = if bool_decide (j ∈ fs) then field j t b else peek r j.
Proof.
  intros Hl Hj Hr. revert r Hl. induction Hr as [|f fs Hf Hr IH]; intros r Hl Hn; [done|].
  apply NoDup_cons in Hn as [Hx Hn]. cbn [freeze foldl]. change (foldl _ ?a fs) with (freeze a fs t b). rewrite IH; [|by rewrite poke_length|done].
  rewrite peek_poke by done. destruct (decide (f = j)) as [->|Hne].
  - rewrite (bool_decide_false (j ∈ fs)), (bool_decide_true (j ∈ j :: fs)) by set_solver. by rewrite Z.eqb_refl.
  - rewrite (proj2 (Z.eqb_neq _ _)) by done. by rewrite (bool_decide_ext (j ∈ f :: fs) (j ∈ fs)) by set_solver.
Qed.

Lemma others_ok reg : Forall (fun f => 0 <= f < 256) (filter (fun f => f <> reg) TIME) /\ NoDup (filter (fun f => f <> reg) TIME).
Proof.
  split; [|apply NoDup_filter; by apply (bool_decide_unpack _)]. apply Forall_forall. intros f [_ Hf]%list_elem_of_filter. revert f Hf.
  apply Forall_forall. by apply (bool_decide_unpack _).
Qed.

Lemma write_field r t t' reg v : length (cells r) = 256%nat -> reg ∈ [0; 2; 4; 7; 8; 9] -> has (peek r REG_B) B_SET = false ->
  exists r1, write8 r t t' (reg_addr reg) v = set_from_cells r1 t' /\ peek r1 REG_B = peek r REG_B /\
    forall f, f ∈ [0; 2; 4; 7; 8; 9] -> peek r1 f = if f =? reg then v else code f (peek r REG_B) (moment_of (now r t)).
Proof.
  intros Hl Hr Hs. assert (Hb : 0 <= reg < 256 /\ reg ∈ TIME /\ reg <> XCTRL4A /\ reg <> CENTURY /\ reg <> REG_B).
  { repeat (apply elem_of_cons in Hr as [->|Hr]); [..|by apply not_elem_of_nil in Hr]; repeat split; try done; by apply (bool_decide_unpack _). }
  destruct Hb as (Hreg & Ht & H1 & H2 & H3). exists (freeze (poke r reg v) (filter (fun f => f <> reg) TIME) (now r t) (peek r REG_B)). split; [|split].
  - unfold write8. rewrite reg_of_addr by done. rewrite Hs, (bool_decide_true _ Ht), !(proj2 (Z.eqb_neq reg _)) by done. done.
  - rewrite peek_freeze; [|by rewrite poke_length|done|apply others_ok..].
    rewrite bool_decide_false by (intros [_ Hf]%list_elem_of_filter; pose proof (bool_decide_eq_true_2 _ Hf) as E; discriminate E).
    rewrite peek_poke by done. by rewrite (proj2 (Z.eqb_neq _ _)).
  - intros f Hf. assert (0 <= f < 256 /\ f ∈ TIME) as [Hf' Hft].
    { repeat (apply elem_of_cons in Hf as [->|Hf]); [..|by apply not_elem_of_nil in Hf]; split; try done; by apply (bool_decide_unpack _). }
    rewrite peek_freeze; [|by rewrite poke_length|done|apply others_ok..].
    destruct (Z.eqb_spec f reg) as [->|Hne].
    + rewrite bool_decide_false by (intros [? _]%list_elem_of_filter; done). rewrite peek_poke, Z.eqb_refl by done. done.
    + rewrite bool_decide_true by (by apply list_elem_of_filter). by apply field_code.
Qed.

(** A field of the DS1687 written while the clock runs changes that field.
    In any mode, at any guest time [x], writing one of the six time registers
    the value it has in [x'], where [x'] is [x] in every other register and
    lies in 1970 to 2069, restarts the clock at [x']. *)
Theorem ds1687_field_write r t t' reg x' : length (cells r) = 256%nat -> reg ∈ [0; 2; 4; 7; 8; 9] -> has (peek r REG_B) B_SET = false ->
  let b := peek r REG_B in
  moment_ok x' -> no_century x' -> (forall f, f <> reg -> code f b x' = code f b (moment_of (now r t))) ->
  clock (write8 r t t' (reg_addr reg) (code reg b x')) = (unix_of x', t').
Proof.
  intros Hl Hr Hs b Hx Hc He. destruct (write_field r t t' reg (code reg b x') Hl Hr Hs) as (r1 & -> & Hb & Hp). fold b in Hb, Hp.
  assert (Hp' : forall f, f ∈ [0; 2; 4; 7; 8; 9] -> peek r1 f = code f b x').
  { intros f Hf. rewrite Hp by done. destruct (Z.eqb_spec f reg) as [->|]; [done|]. symmetry. by apply He. }
  change (clock (set_from_cells ?a t')) with (cells_time a None, t'). f_equal. apply cells_time_moment; try done.
  all: rewrite Hb; apply Hp'; by apply (bool_decide_unpack _).
Qed.

(** A field written in a year of the last century before 1970, which the
    century register can set, moves the clock on by a hundred years. *)
Theorem ds1687_field_write_forgets_century r t t' s :
  let b := peek r REG_B in let x := moment_of (now r t) in
  length (cells r) = 256%nat -> has b B_SET = false -> 0 <= s < 60 -> 1900 < year (date x) < 1970 ->
  clock (write8 r t t' (reg_addr 0) (digits b s)) =
    (unix_of (mkMoment (mkDate (year (date x) + 100) (month (date x)) (day (date x))) (hour x) (minute x) s), t').
Proof.
  intros b x Hl Hs Hsec Hy. destruct (moment_of_ok (now r t)) as [(Hv & Hh & Hm & Hsc) _]. fold x in Hv, Hh, Hm, Hsc.
  set (x' := mkMoment _ _ _ _). assert (Hmod : (year (date x) + 100) mod 100 = year (date x) mod 100) by (Z.div_mod_to_equations; lia).
  assert (Hx' : moment_ok x').
  { destruct Hv as [Hm' Hd]. assert (El : leap (year (date x) + 100) = leap (year (date x))).
    { apply eq_true_iff_eq. rewrite !leap_spec. clear - Hy. Z.div_mod_to_equations. lia. }
    unfold month_days in Hd. unfold moment_ok, valid, month_days, x'. cbn [date year month day hour minute second]. rewrite El. lia. }
  assert (Hc : no_century x') by (unfold no_century, x'; cbn [date year]; lia).
  destruct (write_field r t t' 0 (digits b s) Hl ltac:(by apply (bool_decide_unpack _)) Hs) as (r1 & -> & Hb & Hp). fold b x in Hb, Hp.
  change (clock (set_from_cells ?a t')) with (cells_time a None, t'). f_equal. apply cells_time_moment; try done.
  all: rewrite Hb, Hp by (by apply (bool_decide_unpack _)); unfold x'; cbn [date year hour minute second month day]; rewrite ?Hmod; reflexivity.
Qed.

(** ** Snapshots *)

Lemma load_cells slice dst : Forall (fits 8) slice -> length slice = length dst -> load_u8_slice (u8_slice_to_toml slice) dst = slice.
Proof.
  intros Hs Hl. unfold load_u8_slice, load_slice, u8_slice_to_toml.
  rewrite load_items_map; [|eapply Forall_impl; [exact Hs|apply toml_hex_u8]|lia]. by rewrite drop_ge, app_nil_r by lia.
Qed.

(** A drive restored from a snapshot, whatever it held before, has the cells
    and the power switch of the one saved, and its clock runs on from the
    moment of the snapshot. *)
Theorem ds1687_snapshot r t r2 t2 u : rtc_ok r -> length (cells r2) = 256%nat -> t2 <= u ->
  let r' := load_state r2 (save_state r t) t2 in
  cells r' = cells r /\ powered_off r' = powered_off r /\ now r' u = now r t + (u - t2) / 1000000000.
Proof.
  intros [Hl Hc] Hl2 Hu r'. assert (E : r' = mkRtc (load_u8_slice (u8_slice_to_toml (cells r)) (cells r2)) (now r t, t2) (powered_off r)) by reflexivity.
  rewrite E. cbn [cells powered_off]. rewrite load_cells by congruence. split; [done|]. split; [done|].
  unfold now at 1. cbn [clock]. by rewrite Z.max_r by lia.
Qed.

(** ** Witnesses *)

(** New year's eve, in decimal digits and twelve hours. *)
Definition eve : Moment := mkMoment (mkDate 1999 12 31) 23 59 58.

Lemma ds1687_set_runs_witness :
  let r' := driver_set (new 0 0) 5 10 0 eve in
  now r' 3000000010 = 946684801 /\ driver_read r' 3000000010 20 = mkMoment (mkDate 2000 1 1) 0 0 1.
Proof.
  destruct (ds1687_set_runs (new 0 0) 5 10 0 eve 3000000010) as (Hn & y & _ & _ & Hu & Hd);
    [reflexivity|lia|by apply (bool_decide_unpack _)|split; vm_compute; congruence|lia|].
  split; [exact Hn|]. assert (mkMoment (mkDate 2000 1 1) 0 0 1 = y) as E by (apply Hu; [by apply (bool_decide_unpack _)|reflexivity]).
  rewrite <- E in Hd. exact Hd.
Defined.

(** The minutes of the clock started at 1970-01-01 00:00:00. *)
Lemma ds1687_field_write_witness :
  clock (write8 (new 0 0) 0 7 (reg_addr 2) 0x25) = (25 * 60, 7).
Proof.
  apply (ds1687_field_write (new 0 0) 0 7 2 (mkMoment (mkDate 1970 1 1) 0 25 0)); try done; try by apply (bool_decide_unpack _).
  intros f Hf. unfold code. cbn. repeat (case_decide; cbn; [done|]). done.
Defined.

End Ds1687Claims.

(** ** Theorems about the DS1x86

    Its loops compute the Gregorian calendar; its registers hold a time and
    give it back; the clock keeps the time it is set to; and the bytes around
    the time registers survive the file they are kept in. *)

Module Ds1x86Claims.

Import BlockNode Snapshot Calendar RtcOffset Ds1x86.
#[local] Open Scope Z_scope.
#[local] Open Scope word_scope.

(** ** The calendar *)

Lemma is_leap_ok y : is_leap y = leap y.
Proof. done. Qed.

Lemma days_in_year_ok y : year_start (y + 1) = year_start y + days_in_year y.
Proof. apply year_length. Qed.

Lemma days_in_year_pos y : 365 <= days_in_year y <= 366.
Proof. unfold days_in_year. case_match; lia. Qed.

Lemma year_loop_ok fuel : forall y n, 0 <= n -> n < 365 * Z.of_nat fuel ->
  let '(y', n') := year_loop fuel y n in y <= y' /\ 0 <= n' < days_in_year y' /\ n' = n - (year_start y' - year_start y).
Proof.
  induction fuel as [|fuel IH]; intros y n Hn Hf; [lia|]. cbn [year_loop]. pose proof (days_in_year_pos y).
  destruct (Z.ltb_spec n (days_in_year y)); [lia|]. specialize (IH (y + 1) (n - days_in_year y) ltac:(lia) ltac:(lia)).
  destruct (year_loop fuel (y + 1) (n - days_in_year y)) as [y' n']. rewrite days_in_year_ok in IH. lia.
Qed.

Lemma month_table y m : 1 <= m <= 12 -> drop (Z.to_nat (m - 1)) (Ds1x86.days_in_month y) = month_days y m :: drop (Z.to_nat m) (Ds1x86.days_in_month y).
Proof. intros Hm. each_month Hm; reflexivity. Qed.

(** The month loop stops in the month the day falls in. *)
Lemma month_loop_from y k : forall m d, 1 <= m <= 12 -> Z.of_nat k = 12 - m -> 1 <= d -> month_start y m + d - 1 < days_in_year y ->
  let '(m', d') := month_loop (drop (Z.to_nat (m - 1)) (Ds1x86.days_in_month y)) m d in
  1 <= m' <= 12 /\ 1 <= d' <= month_days y m' /\ month_start y m' + d' = month_start y m + d.
Proof.
  induction k as [|k IH]; intros m d Hm Hk Hd Hn; rewrite month_table by done; cbn [month_loop]; pose proof (month_length y m Hm) as Hl.
  - replace m with 12 in * by lia. cbn [Z.eqb Pos.eqb] in Hl. unfold days_in_year in Hn. rewrite is_leap_ok in Hn.
    rewrite (proj2 (Z.leb_le d _)) by lia. lia.
  - rewrite (proj2 (Z.eqb_neq m 12)) in Hl by lia. destruct (Z.leb_spec d (month_days y m)); [lia|].
    specialize (IH (m + 1) (d - month_days y m) ltac:(lia) ltac:(lia) ltac:(lia) ltac:(lia)). replace (m + 1 - 1) with m in IH by lia.
    destruct (month_loop _ (m + 1) _) as [m' d']. lia.
Qed.

(** The date loops are the calendar. *)
Lemma date_of_days_ok n : 0 <= n -> valid (date_of (date_of_days n)) /\ day_number (date_of (date_of_days n)) = n /\ 1970 <= year (date_of (date_of_days n)).
Proof.
  intros Hn. unfold date_of_days. pose proof (year_loop_ok (Z.to_nat (n / 365 + 1)) 1970 n Hn) as Hy.
  destruct (year_loop _ 1970 n) as [y r]. destruct Hy as (Hle & Hr & Er); [assert (0 <= n / 365) by (apply Z.div_pos; lia); rewrite Z2Nat.id by lia; Z.div_mod_to_equations; lia|].
  pose proof (month_loop_from y 11 1 (r + 1) ltac:(lia) ltac:(lia) ltac:(lia)) as Hm. rewrite month_start_1 in Hm. specialize (Hm ltac:(lia)).
  change (drop (Z.to_nat (1 - 1)) (Ds1x86.days_in_month y)) with (Ds1x86.days_in_month y) in Hm.
  destruct (month_loop _ 1 (r + 1)) as [m d]. destruct Hm as (Hm & Hd & Es). cbn [date_of]. split; [by split|]. split; [|done].
  unfold day_number. cbn [year month day]. change (year_start 1970) with 719162 in Er. lia.
Qed.

Lemma years_days_ok y : 1970 <= y -> years_days y = year_start y - 719162.
Proof.
  intros Hy. unfold years_days. assert (H : forall k a acc, foldl (fun d y => d + days_in_year y) acc (seqZ a (Z.of_nat k)) = acc + year_start (a + Z.of_nat k) - year_start a).
  { induction k as [|k IH]; intros a acc; [change (Z.of_nat 0) with 0; rewrite Z.add_0_r; change (seqZ a 0) with (@nil Z); cbn [foldl]; lia|]. rewrite seqZ_cons by lia. cbn [foldl].
    replace (Z.of_nat (S k) - 1) with (Z.of_nat k) by lia. replace (Z.pred (Z.of_nat (S k))) with (Z.of_nat k) by lia. rewrite IH.
    replace (Z.succ a) with (a + 1) by lia. rewrite days_in_year_ok. replace (a + 1 + Z.of_nat k) with (a + Z.of_nat (S k)) by lia. lia. }
  specialize (H (Z.to_nat (y - 1970)) 1970 0). rewrite Z2Nat.id in H by lia. rewrite H. replace (1970 + (y - 1970)) with y by lia.
  change (year_start 1970) with 719162. lia.
Qed.

Lemma months_days_ok y m : 1 <= m <= 12 -> months_days y m = Some (month_start y m).
Proof.
  intros Hm. unfold months_days, Ds1x86.days_in_month, month_start. rewrite is_leap_ok. each_month Hm; destruct (leap y); reflexivity.
Qed.

(** ** Times in registers *)

Record Moment : Type := mkMoment { date : Date; hour : Z; minute : Z; second : Z; centi : Z }.

Definition moment_ok (x : Moment) : Prop :=
  valid (date x) /\ 0 <= hour x < 24 /\ 0 <= minute x < 60 /\ 0 <= second x < 60 /\ 0 <= centi x < 100.

#[export] Instance moment_ok_dec x : Decision (moment_ok x).
Proof. unfold moment_ok. apply _. Defined.

Definition cs_of (x : Moment) : Z := ((day_number (date x) * 24 + hour x) * 60 + minute x) * 6000 + second x * 100 + centi x.

(** The years the registers can hold. *)
Definition in_range (x : Moment) : Prop := 1970 <= year (date x) <= 2039.

#[export] Instance in_range_dec x : Decision (in_range x).
Proof. unfold in_range. apply _. Defined.

Definition moment_of (c : Z) : Moment :=
  mkMoment (date_of (date_of_days (c / 8640000))) (c / 360000 mod 24) (c / 6000 mod 60) (c / 100 mod 60) (c mod 100).

Lemma reg_moment_ok c : 0 <= c -> moment_ok (moment_of c) /\ cs_of (moment_of c) = c /\ 1970 <= year (date (moment_of c)).
Proof.
  intros Hc. destruct (date_of_days_ok (c / 8640000)) as (Hv & Hn & Hy); [Z.div_mod_to_equations; lia|].
  unfold moment_ok, cs_of, moment_of. cbn [date hour minute second centi]. rewrite Hn.
  split; [split; [done|]|split; [|done]]; Z.div_mod_to_equations; lia.
Qed.

Lemma reg_moment_unique x : moment_ok x -> 1970 <= year (date x) -> moment_of (cs_of x) = x.
Proof.
  intros (Hv & Hh & Hm & Hs & Hc) Hy. assert (Hn : 0 <= day_number (date x)).
  { destruct (in_year (date x) Hv) as [Hy' _]. destruct (Z.eq_dec (year (date x)) 1970) as [E|]; [rewrite E in Hy'; change (year_start 1970) with 719162 in Hy'; lia|].
    pose proof (year_start_mono 1970 (year (date x)) ltac:(lia)) as H. change (year_start 1970) with 719162 in H. lia. }
  unfold moment_of, cs_of.
  assert ((((day_number (date x) * 24 + hour x) * 60 + minute x) * 6000 + second x * 100 + centi x) / 8640000 = day_number (date x)) as -> by (Z.div_mod_to_equations; lia).
  destruct x as [dt h mi s c]. cbn [date hour minute second centi] in *. f_equal; [|Z.div_mod_to_equations; lia..].
  destruct (date_of_days_ok (day_number dt) Hn) as (Hv' & Hn' & _). by apply day_number_inj.
Qed.

Lemma cs_range x : moment_ok x -> in_range x -> 0 <= cs_of x < 220898880000.
Proof.
  intros (Hv & Hh & Hm & Hs & Hc) Hy. destruct (in_year (date x) Hv) as [H1 H2]. unfold in_range in Hy.
  assert (719162 <= year_start (year (date x)) /\ year_start (year (date x) + 1) <= 744729); [|unfold cs_of; lia].
  unfold year_start. split; Z.div_mod_to_equations; lia.
Qed.

(** Two decimal digits. *)
Definition bcd (v : Z) : Z := v / 10 * 16 + v mod 10.

Lemma to_bcd_ok v : 0 <= v < 100 -> to_bcd v = bcd v.
Proof.
  intros Hv. apply Z.eqb_eq. assert (H : forallb (fun v => to_bcd v =? bcd v) (seqZ 0 100) = true) by reflexivity.
  rewrite forallb_forall in H. apply H, list_elem_of_In, elem_of_seqZ. lia.
Qed.

Lemma from_bcd_ok v : 0 <= v < 100 -> from_bcd (bcd v) = v.
Proof.
  intros Hv. apply Z.eqb_eq. assert (H : forallb (fun v => from_bcd (bcd v) =? v) (seqZ 0 100) = true) by reflexivity.
  rewrite forallb_forall in H. apply (H v), list_elem_of_In, elem_of_seqZ. lia.
Qed.

Lemma year_start_2040 : year_start 2040 = 744729.
Proof. reflexivity. Qed.

#[local] Opaque from_bcd to_bcd bcd years_days date_of_days Z.div Z.modulo Z.mul.

Lemma months_days_total y m : 1 <= m <= 13 -> exists d, months_days y m = Some d.
Proof. intros. unfold months_days, u64, wrap. rewrite Z.mod_small, (proj2 (Z.ltb_ge 12 _)) by lia. by eexists. Qed.

Lemma months_days_none y m : 12 < u64 (m - 1) -> months_days y m = None.
Proof. intros. unfold months_days. by rewrite (proj2 (Z.ltb_lt 12 _)). Qed.

#[local] Opaque months_days.

(** The writes that put a moment in the registers. *)
Definition moment_regs (x : Moment) : list (Z * Z) :=
  [(0x00, bcd (centi x)); (0x01, bcd (second x)); (0x02, bcd (minute x)); (0x04, bcd (hour x));
   (0x08, bcd (day (date x))); (0x09, bcd (month (date x))); (0x0A, bcd ((year (date x) - 1940) mod 100))].

Definition shows (rs : list Z) (x : Moment) : Prop := Forall (fun y => aget rs y.1 = Some y.2) (moment_regs x).

Lemma day_le_31 y m d : d <= month_days y m -> d <= 31.
Proof. unfold month_days. repeat case_match; lia. Qed.

Lemma regs_to_centiseconds_ok rs x : moment_ok x -> in_range x -> shows rs x -> regs_to_centiseconds rs = Some (cs_of x).
Proof.
  intros Hx Hy Hs. pose proof (cs_range x Hx Hy) as Hr. destruct Hx as ([Hm' Hd] & Hh & Hm & Hsec & Hc). unfold in_range in Hy.
  unfold shows, moment_regs in Hs. rewrite !Forall_cons in Hs. destruct Hs as (E0 & E1 & E2 & E4 & E8 & E9 & EA & _). cbn [fst snd] in *.
  unfold regs_to_centiseconds. rewrite E0, E1, E2, E4, E8, E9, EA. cbn [fmap option_fmap option_map mbind option_bind].
  pose proof (day_le_31 _ _ _ (proj2 Hd)). rewrite !from_bcd_ok by (try lia; Z.div_mod_to_equations; lia).
  assert ((year (date x) - 1940) mod 100 + 1940 = year (date x)) as -> by (Z.div_mod_to_equations; lia).
  rewrite months_days_ok by done. cbn [mbind option_bind]. f_equal. rewrite years_days_ok by lia.
  unfold u64, wrap. rewrite (Z.mod_small (day _ - 1)) by lia.
  replace (year_start (year (date x)) - 719162 + month_start (year (date x)) (month (date x)) + (day (date x) - 1)) with (day_number (date x)) by (unfold day_number; lia).
  unfold cs_of in *. rewrite (Z.mod_small (day_number (date x))) by lia. rewrite Z.mod_small; lia.
Qed.

Lemma put_all_cons rs x l : put_all rs (x :: l) = (rs' ← aset rs x.1 x.2; put_all rs' l).
Proof.
  unfold put_all. cbn. destruct (aset rs x.1 x.2); [done|]. cbn. induction l as [|y l IH]; [done|]. cbn. exact IH.
Qed.

Lemma put_all_ok l : forall rs, Forall (fun x => 0 <= x.1 < Z.of_nat (length rs)) l -> NoDup l.*1 ->
  exists rs', put_all rs l = Some rs' /\ length rs' = length rs /\ Forall (fun y => aget rs' y.1 = Some y.2) l /\ (forall i, i ∉ l.*1 -> aget rs' i = aget rs i).
Proof.
  induction l as [|x l IH]; intros rs Hr Hn; [by exists rs|]. inversion_clear Hr as [|? ? Hx Hr']. cbn in Hn. apply NoDup_cons in Hn as [Hx' Hn].
  rewrite put_all_cons. pose proof (aset_Some rs x.1 x.2 Hx) as Ea. rewrite Ea. cbn [mbind option_bind].
  destruct (IH (<[Z.to_nat x.1:=x.2]> rs)) as (rs' & E & Hl & Hf & Ho); [by rewrite length_insert|done|].
  exists rs'. rewrite length_insert in Hl. split; [done|]. split; [done|]. split.
  - apply Forall_cons. split; [|done]. rewrite Ho by done. by rewrite (aget_aset_eq _ _ _ _ Ea).
  - intros i Hi. cbn in Hi. rewrite Ho by set_solver. apply (aget_aset_ne _ _ _ _ _ Ea). set_solver.
Qed.

(** The registers that show the time. *)
Definition time_regs : list Z := [0x00; 0x01; 0x02; 0x04; 0x06; 0x08; 0x09; 0x0A].

Lemma centiseconds_to_regs_ok c rs : 0 <= c -> (11 <= length rs)%nat ->
  exists rs', centiseconds_to_regs c rs = Some rs' /\ length rs' = length rs /\ shows rs' (moment_of c) /\ (forall i, i ∉ time_regs -> aget rs' i = aget rs i).
Proof.
  intros Hc Hl. destruct (reg_moment_ok c Hc) as ((Hv & Hh & Hm & Hs & Hce) & _ & _). unfold centiseconds_to_regs.
  replace (c / 100 / 60 / 60 / 24) with (c / 8640000) by (Z.div_mod_to_equations; lia).
  replace (c / 100 / 60 / 60) with (c / 360000) by (Z.div_mod_to_equations; lia). replace (c / 100 / 60) with (c / 6000) by (Z.div_mod_to_equations; lia).
  unfold shows, moment_regs, moment_of in *. cbn [date hour minute second centi] in *.
  destruct (date_of_days (c / 8640000)) as [[y m] d]. cbn [date_of year month day] in *. destruct Hv as [Hm' Hd]. cbn [year month day] in *.
  pose proof (day_le_31 _ _ _ (proj2 Hd)). pose proof (Z.mod_pos_bound (y - 1940) 100 ltac:(lia)).
  unfold u8, wrap. rewrite !(Z.mod_small _ (2 ^ 8)) by (try lia; Z.div_mod_to_equations; lia). rewrite !to_bcd_ok by lia.
  match goal with |- context [put_all rs ?l] => destruct (put_all_ok l rs) as (rs' & E & Hl' & Hf & Ho) end; [| |rewrite E; exists rs'; split; [done|]; split; [done|]; split; [|exact Ho]].
  - repeat (apply Forall_cons; split; [cbn [fst]; lia|]). apply Forall_nil; done.
  - cbn. by apply (bool_decide_unpack _).
  - rewrite !Forall_cons in Hf. destruct Hf as (F0 & F1 & F2 & F4 & _ & F8 & F9 & FA & _). by repeat (apply Forall_cons; split; [done|]).
Qed.

(** A time within the range comes back from the registers. *)
Lemma regs_roundtrip c rs : 0 <= c < 220898880000 -> (11 <= length rs)%nat ->
  exists rs', centiseconds_to_regs c rs = Some rs' /\ regs_to_centiseconds rs' = Some c.
Proof.
  intros Hc Hl. destruct (centiseconds_to_regs_ok c rs ltac:(lia) Hl) as (rs' & E & _ & Hs & _). exists rs'. split; [done|].
  destruct (reg_moment_ok c ltac:(lia)) as (Hx & Hcs & Hy). transitivity (Some (cs_of (moment_of c))); [|by rewrite Hcs]. apply regs_to_centiseconds_ok; try done.
  split; [done|]. destruct Hx as (Hv & Hh & Hm & Hsc & Hce). destruct (in_year _ Hv) as [H1 _].
  destruct (Z.le_gt_cases (year (date (moment_of c))) 2039); [done|]. exfalso.
  destruct (Z.eq_dec (year (date (moment_of c))) 2040) as [E'|].
  - rewrite E' in H1. rewrite year_start_2040 in H1. unfold cs_of in Hcs. lia.
  - pose proof (year_start_mono 2040 (year (date (moment_of c))) ltac:(lia)) as H2. rewrite year_start_2040 in H2. unfold cs_of in Hcs. lia.
Qed.

(** ** The clock *)

(** A part whose month register the calendar's table covers. *)
Definition settable (r : Ds1x86) : Prop :=
  12 <= size r /\ size r = Z.of_nat (length (regs (data r))) /\ exists m, aget (regs (data r)) 0x09 = Some m /\ 1 <= from_bcd m <= 13.

Lemma time_regs_total rs m : (12 <= length rs)%nat -> aget rs 0x09 = Some m -> 1 <= from_bcd m <= 13 -> exists c, regs_to_centiseconds rs = Some c.
Proof.
  intros Hl Hm Hr. unfold regs_to_centiseconds.
  destruct (aget_Some rs 0) as [? E0], (aget_Some rs 1) as [? E1], (aget_Some rs 2) as [? E2], (aget_Some rs 4) as [? E4], (aget_Some rs 8) as [? E8], (aget_Some rs 10) as [yy EA]; try lia.
  rewrite E0, E1, E2, E4, E8, Hm, EA.
  cbn [fmap option_fmap option_map mbind option_bind]. destruct (months_days_total (from_bcd yy + 1940) (from_bcd m) Hr) as [? ->]. by eexists.
Qed.

(** Writes in turn, each at its own instant. *)
Fixpoint write_all (r : Ds1x86) (instant : Z -> Z) (l : list (Z * Z)) : option Ds1x86 :=
  match l with
  | [] => Some r
  | x :: l => '(r, _) ← write r (instant x.1) x.1 x.2; write_all r instant l
  end.

(** A driver stops the clock, writes the seven registers of a moment, and lets
    the clock run; [c] is the command register it keeps. *)
Definition driver_set (r : Ds1x86) (instant : Z -> Z) (t t' c : Z) (x : Moment) : option Ds1x86 :=
  '(r, _) ← write r t 0xB (c .& 0x7f);
  r ← write_all r instant (moment_regs x);
  '(r, _) ← write r t' 0xB (c .| 0x80);
  Some r.

Lemma rebase_with d rs t : rebase (d <| regs := rs |>) t = (c ← regs_to_centiseconds rs; Some (mkData rs c t)).
Proof. done. Qed.

Definition elapsed_cs (d : RtcData) (now : Z) : Z := Z.max 0 (now - time_base d) / 10000000.

Lemma update_time_at d now : update_time d now = (rs ← centiseconds_to_regs (u64 (base_centiseconds d + elapsed_cs d now)) (regs d); Some (mkData rs (base_centiseconds d) (time_base d))).
Proof.
  unfold update_time. set (e := Z.max 0 (now - time_base d)). replace (e / 1000000000 * 100 + e mod 1000000000 / 10000000) with (elapsed_cs d now); [done|].
  unfold elapsed_cs. fold e. clearbody e. Z.div_mod_to_equations. lia.
Qed.

Lemma write_time r t a v : settable r -> 0 <= a <= 0xA -> (a = 9 -> 1 <= from_bcd v <= 13) ->
  exists r' rs, write r t a v = Some (r', true) /\ settable r' /\ aset (regs (data r)) a v = Some rs /\ regs (data r') = rs /\ time_base (data r') = t /\
    regs_to_centiseconds (regs (data r')) = Some (base_centiseconds (data r')).
Proof.
  intros (Hs & Hl & m & Hm & Hr) Ha Hv. unfold write. rewrite (proj2 (Z.leb_gt (size r) a)) by lia.
  destruct (aget_Some (regs (data r)) CMD_REG_OFFSET) as [old ->]; [unfold CMD_REG_OFFSET; lia|]. cbn [mbind option_bind].
  pose proof (aset_Some (regs (data r)) a v ltac:(lia)) as Ea. rewrite Ea. cbn [mbind option_bind]. rewrite (proj2 (Z.leb_le a 10)) by lia.
  set (rs := <[Z.to_nat a:=v]> (regs (data r))) in *. assert (Hl' : length rs = length (regs (data r))) by apply length_insert.
  assert (Hm' : exists m', aget rs 9 = Some m' /\ 1 <= from_bcd m' <= 13).
  { destruct (Z.eq_dec a 9) as [->|]; [exists v; split; [exact (aget_aset_eq _ _ _ _ Ea)|by apply Hv]|]. exists m. split; [|done]. by rewrite (aget_aset_ne _ _ _ _ _ Ea) by done. }
  destruct Hm' as (m' & Em & Hr'). destruct (time_regs_total rs m') as [c Ec]; [lia|done|done|].
  eexists _, rs. rewrite rebase_with, Ec. cbn [mbind option_bind]. split; [reflexivity|]. split; [|done].
  split; [done|]. split; [cbn; lia|]. by exists m'.
Qed.

Lemma write_all_ok l instant : forall r, settable r -> Forall (fun x => 0 <= x.1 <= 0xA /\ (x.1 = 9 -> 1 <= from_bcd x.2 <= 13)) l -> l <> [] ->
  exists r' rs, write_all r instant l = Some r' /\ settable r' /\ put_all (regs (data r)) l = Some rs /\ regs (data r') = rs /\
    (forall x, last l = Some x -> time_base (data r') = instant x.1) /\ regs_to_centiseconds rs = Some (base_centiseconds (data r')).
Proof.
  induction l as [|x l IH]; intros r Hs Hf Hne; [done|]. inversion_clear Hf as [|? ? [Hx Hm] Hf'].
  destruct (write_time r (instant x.1) x.1 x.2 Hs Hx Hm) as (r1 & rs & Ew & Hs1 & Ea & Er & Et & Ec). cbn [write_all]. rewrite Ew. cbn [mbind option_bind].
  rewrite put_all_cons, Ea. cbn [mbind option_bind]. destruct l as [|y l].
  - exists r1, rs. split; [done|]. split; [done|]. split; [done|]. split; [done|]. split; [by intros ? [= <-]|]. by rewrite <- Er.
  - destruct (IH r1 Hs1 Hf' ltac:(done)) as (r' & rs' & E & Hs' & Ep & Er' & Ht & Ec'). rewrite Er in Ep. exists r', rs'. done.
Qed.

(** The command register with transfers off and on. *)
Lemma write_cmd_off r t c : settable r -> exists r', write r t 0xB (c .& 0x7f) = Some (r', true) /\ settable r' /\
  forall i, 0xB < i -> aget (regs (data r')) i = aget (regs (data r)) i.
Proof.
  intros (Hs & Hl & m & Hm & Hr). unfold write. rewrite (proj2 (Z.leb_gt (size r) 11)) by lia.
  destruct (aget_Some (regs (data r)) CMD_REG_OFFSET) as [old ->]; [unfold CMD_REG_OFFSET; lia|]. cbn [mbind option_bind].
  pose proof (aset_Some (regs (data r)) 11 (c .& 0x7f) ltac:(lia)) as Ea. rewrite Ea. cbn [mbind option_bind]. change (11 <=? 10) with false. change (11 =? CMD_REG_OFFSET) with true.
  set (rs := <[Z.to_nat 11:=_]> (regs (data r))) in *. assert (Hl' : length rs = length (regs (data r))) by apply length_insert.
  assert (Em : aget rs 9 = Some m) by (by rewrite (aget_aset_ne _ _ _ _ _ Ea)).
  destruct (_ && _).
  - rewrite update_time_at. cbn [regs]. change (regs ((data r) <| regs := rs |>)) with rs. set (n := u64 _). destruct (centiseconds_to_regs_ok n rs) as (rs' & E & Hl2 & Hsh & Ho); [unfold n, u64, wrap; by apply Z.mod_pos_bound|lia|].
    rewrite E. cbn [mbind option_bind]. eexists. split; [reflexivity|].
    split; [|intros i Hi; change (aget rs' i = aget (regs (data r)) i); rewrite Ho by (unfold time_regs; set_solver by lia); by rewrite (aget_aset_ne _ _ _ _ _ Ea) by lia].
    split; [done|]. split; [cbn; lia|].
    destruct (reg_moment_ok n ltac:(unfold n, u64, wrap; by apply Z.mod_pos_bound)) as ((Hv & _) & _). destruct Hv as [Hv _].
    unfold shows, moment_regs in Hsh. rewrite !Forall_cons in Hsh. destruct Hsh as (_ & _ & _ & _ & _ & H9 & _). eexists. split; [exact H9|]. cbn [snd].
    rewrite from_bcd_ok by lia. lia.
  - eexists. split; [reflexivity|]. split; [split; [done|]; split; [cbn; lia|]; by exists m|].
    intros i Hi. change (aget rs i = aget (regs (data r)) i). by rewrite (aget_aset_ne _ _ _ _ _ Ea) by lia.
Qed.

Lemma write_cmd_on r t c : settable r -> exists r' rs, write r t 0xB (c .| 0x80) = Some (r', true) /\ settable r' /\ aset (regs (data r)) 0xB (c .| 0x80) = Some rs /\
  data r' = mkData rs (base_centiseconds (data r)) (time_base (data r)) /\ te (data r') = Some true.
Proof.
  intros (Hs & Hl & m & Hm & Hr). unfold write. rewrite (proj2 (Z.leb_gt (size r) 11)) by lia.
  destruct (aget_Some (regs (data r)) CMD_REG_OFFSET) as [old ->]; [unfold CMD_REG_OFFSET; lia|]. cbn [mbind option_bind].
  pose proof (aset_Some (regs (data r)) 11 (c .| 0x80) ltac:(lia)) as Ea. rewrite Ea. cbn [mbind option_bind]. change (11 <=? 10) with false. change (11 =? CMD_REG_OFFSET) with true.
  assert (Hon : has (c .| 128) TE_BIT = true).
  { unfold has, TE_BIT. apply negb_true_iff, Z.eqb_neq. intros E. apply (f_equal (fun z => Z.testbit z 7)) in E.
    rewrite Z.land_spec, Z.lor_spec in E. change (Z.testbit 128 7) with true in E. by rewrite orb_true_r in E. }
  rewrite Hon. cbn [negb]. rewrite andb_false_r. set (rs := <[Z.to_nat 11:=_]> (regs (data r))) in *.
  assert (Hl' : length rs = length (regs (data r))) by apply length_insert. eexists _, rs. split; [reflexivity|]. split.
  - split; [done|]. split; [cbn; lia|]. exists m. split; [|done]. cbn [data regs]. by rewrite (aget_aset_ne _ _ _ _ _ Ea).
  - split; [done|]. split; [done|]. change (te _) with (b ← aget rs 11; Some (has b TE_BIT)). rewrite (aget_aset_eq _ _ _ _ Ea). cbn [mbind option_bind]. by rewrite Hon.
Qed.

(** A time register read while the clock runs. *)
Lemma read_running r u y s : settable r -> te (data r) = Some true -> 0 <= s < 2 ^ 64 -> base_centiseconds (data r) + elapsed_cs (data r) u = s ->
  y ∈ moment_regs (moment_of s) -> exists r', read r u y.1 = Some (r', Some y.2).
Proof.
  intros (Hs & Hl & _) Hon Hr Es Hy. assert (Ha : 0 <= y.1 <= 10).
  { unfold moment_regs in Hy. repeat (apply elem_of_cons in Hy as [->|Hy]); [cbn; lia..|by apply not_elem_of_nil in Hy]. }
  unfold read. rewrite (proj2 (Z.leb_gt (size r) y.1)) by lia. rewrite Hon. cbn [mbind option_bind andb]. rewrite (proj2 (Z.ltb_lt y.1 14)) by lia.
  rewrite update_time_at, Es. unfold u64, wrap. rewrite Z.mod_small by done.
  destruct (centiseconds_to_regs_ok s (regs (data r))) as (rs & E & _ & Hsh & _); [lia|lia|]. rewrite E. cbn [mbind option_bind regs].
  unfold shows in Hsh. rewrite Forall_forall in Hsh. rewrite (Hsh y Hy). by eexists.
Qed.

(** Two moments of the calendar at the same centisecond are the same. *)
Lemma cs_of_inj x y : moment_ok x -> moment_ok y -> cs_of x = cs_of y -> x = y.
Proof.
  intros (Hx & ? & ? & ? & ?) (Hy & ? & ? & ? & ?) E. unfold cs_of in E.
  assert (day_number (date x) = day_number (date y)) as En by lia. pose proof (day_number_inj _ _ Hx Hy En) as Ed.
  rewrite En in E. destruct x, y. cbn [date hour minute second centi] in *. f_equal; [done|lia..].
Qed.

(** C37: The DS1x86 keeps the time a driver sets.  A driver that stops transfers,
    writes the seven time registers of a moment of 1970 to 2039, each at any
    instant, and starts transfers again, does so without a panic.  At any
    later instant (while the count of centiseconds fits 64 bits) the Gregorian
    calendar has exactly one valid date and time as many centiseconds after
    1970 as the moment set and the whole centiseconds since the last register
    was written make, and each time register read then shows its digits of
    that date and time; no byte of the storage above the command register
    changes. *)
Theorem ds1x86_set_runs r instant t t' c x u : settable r -> moment_ok x -> in_range x -> instant 0xA <= u ->
  let s := cs_of x + (u - instant 0xA) / 10000000 in
  s < 2 ^ 64 ->
  exists r' x', driver_set r instant t t' c x = Some r' /\
    moment_ok x' /\ cs_of x' = s /\ (forall z, moment_ok z -> cs_of z = s -> z = x') /\
    (forall y, y ∈ moment_regs x' -> exists r'', read r' u y.1 = Some (r'', Some y.2)) /\
    (forall i, 0xB < i -> aget (regs (data r')) i = aget (regs (data r)) i).
Proof.
  intros Hr Hx Hy Hu s Hs. unfold driver_set. destruct (write_cmd_off r t c Hr) as (r1 & E1 & Hr1 & Ho1). rewrite E1. cbn [mbind option_bind].
  pose proof Hx as ([Hm Hd] & _). destruct (write_all_ok (moment_regs x) instant r1 Hr1) as (r2 & rs & E2 & Hr2 & Ep & Er & Ht & Ec); [|done|].
  { repeat (apply Forall_cons; split; [cbn [fst snd]; split; [lia|intros E; try discriminate E]|]); [|by apply Forall_nil]. rewrite from_bcd_ok; lia. }
  rewrite E2. cbn [mbind option_bind]. destruct (write_cmd_on r2 t' c Hr2) as (r3 & rs3 & E3 & Hr3 & Ea & Ed & Hte). rewrite E3. cbn [mbind option_bind].
  exists r3, (moment_of s). split; [done|].
  assert (Hs0 : 0 <= s) by (pose proof (cs_range x Hx Hy); unfold s; assert (0 <= (u - instant 10) / 10000000) by (apply Z.div_pos; lia); lia).
  destruct (reg_moment_ok s Hs0) as (Hok & Hcs & _). split; [done|]. split; [done|]. split; [intros z Hz Ez; apply cs_of_inj; congruence|].
  destruct (put_all_ok (moment_regs x) (regs (data r1))) as (rs' & Ep' & _ & Hf & Ho).
  { destruct Hr1 as (? & ? & _). repeat (apply Forall_cons; split; [cbn [fst]; lia|]). by apply Forall_nil. }
  { by apply (bool_decide_unpack _). }
  rewrite Ep in Ep'. injection Ep' as <-. rewrite (regs_to_centiseconds_ok rs x Hx Hy Hf) in Ec. injection Ec as Ec.
  pose proof (Ht _ eq_refl) as Ht'. cbn [fst] in Ht'. split.
  - intros y Hin. apply (read_running r3 u y s); try done.
    + unfold elapsed_cs. rewrite Ed. cbn [base_centiseconds time_base]. rewrite <- Ec, Ht', Z.max_r by lia. done.
  - intros i Hi. rewrite Ed. cbn [regs]. rewrite (aget_aset_ne _ _ _ _ _ Ea) by lia. rewrite Er, Ho; [by apply Ho1|].
    cbn. repeat (apply not_elem_of_cons; split; [lia|]). apply not_elem_of_nil.
Qed.

(** ** Seeding and storage *)

(** The time a clock seeded at host time [wall] starts from. *)
Definition seed_cs (o : RtcOffset) (wall : Z) : Z := (apply_clamped o (wall / 1000000000)).1 * 100 + wall mod 1000000000 / 10000000.

Lemma seed_range o wall : 0 <= seed_cs o wall < 220898880000.
Proof.
  unfold seed_cs. pose proof (apply_clamped_range o (wall / 1000000000)) as H. unfold RTC_MIN_UNIX, RTC_MAX_UNIX in H.
  assert (0 <= wall mod 1000000000 / 10000000 < 100) by (Z.div_mod_to_equations; lia). lia.
Qed.

Lemma seed_regs o wall rs t : 0 <= wall -> (12 <= length rs)%nat ->
  exists rs', set_current_time o wall rs = Some rs' /\ length rs' = length rs /\ shows rs' (moment_of (seed_cs o wall)) /\
    regs_to_centiseconds rs' = Some (seed_cs o wall) /\ (forall i, i ∉ time_regs -> aget rs' i = aget rs i) /\
    forall d, rebase (d <| regs := rs' |>) t = Some (mkData rs' (seed_cs o wall) t).
Proof.
  intros Hw Hl. pose proof (seed_range o wall) as Hr. unfold set_current_time. rewrite (proj2 (Z.ltb_ge wall 0)) by lia. fold (seed_cs o wall).
  destruct (centiseconds_to_regs_ok (seed_cs o wall) rs) as (rs' & E & Hl' & Hs & Ho); [lia|lia|].
  destruct (regs_roundtrip (seed_cs o wall) rs) as (rs2 & E2 & Hc); [lia|lia|]. rewrite E in E2. injection E2 as <-.
  exists rs'. do 5 (split; [done|]). intros d. by rewrite rebase_with, Hc.
Qed.

(** The DS1x86 starts at the host's time.  Built with no file, it holds the
    host time moved by the configured offset and held within 1970 to 2039:
    its registers show that moment, and its clock starts from there; without
    an offset, and with a host clock in that range, it is the host's time to
    the centisecond. *)
Theorem ds1x86_seeded fs size path o wall t wall' t' : 12 <= size -> 0 <= wall -> fs !! path = None ->
  exists r, new fs size path o wall t wall' t' = Some r /\ base_centiseconds (data r) = seed_cs o wall /\ time_base (data r) = t /\
    shows (regs (data r)) (moment_of (seed_cs o wall)) /\ cs_of (moment_of (seed_cs o wall)) = seed_cs o wall /\
    (o = offset_default -> wall / 1000000000 <= RTC_MAX_UNIX -> seed_cs o wall = wall / 10000000).
Proof.
  intros Hs Hw Hf. unfold new. destruct (seed_regs o wall (replicate (Z.to_nat size) 0) t Hw) as (rs & E & Hl & Hsh & _ & _ & Hb); [rewrite length_replicate; lia|].
  rewrite E. cbn [mbind option_bind]. change (mkData rs 0 t) with ((mkData [] 0 t) <| regs := rs |>). rewrite Hb. cbn [mbind option_bind]. rewrite Hf.
  eexists. split; [reflexivity|]. cbn [data base_centiseconds time_base regs]. do 3 (split; [done|]).
  split; [apply reg_moment_ok; pose proof (seed_range o wall); lia|]. intros -> Hmax. unfold seed_cs, apply_clamped.
  rewrite apply_default by (unfold RTC_MAX_UNIX in Hmax; Z.div_mod_to_equations; lia). unfold clamp, RTC_MIN_UNIX, RTC_MAX_UNIX in *. cbn [fst].
  assert (0 <= wall / 1000000000) by (apply Z.div_pos; lia). rewrite Z.min_l, Z.max_r by lia. clear - Hw. Z.div_mod_to_equations. lia.
Qed.

Lemma update_if_enabled_ok d t : (12 <= length (regs d))%nat -> exists d', update_if_enabled d t = Some d' /\ length (regs d') = length (regs d) /\
  (forall i, i ∉ time_regs -> aget (regs d') i = aget (regs d) i).
Proof.
  intros Hl. unfold update_if_enabled, te. destruct (aget_Some (regs d) CMD_REG_OFFSET) as [b ->]; [unfold CMD_REG_OFFSET; lia|]. cbn [mbind option_bind].
  destruct (has b TE_BIT); [|by exists d]. rewrite update_time_at.
  destruct (centiseconds_to_regs_ok (u64 (base_centiseconds d + elapsed_cs d t)) (regs d)) as (rs & E & Hl' & _ & Ho); [unfold u64, wrap; by apply Z.mod_pos_bound|lia|].
  rewrite E. by eexists.
Qed.

(** The storage of the DS1x86 survives its file.  Saved to a file and loaded
    from it into a part of the same size, at any times, every byte but those
    of the time registers is as it was; the time registers are seeded from
    the host anew. *)
Theorem ds1x86_nvram_roundtrip fs r temp path t r2 wall t2 : 12 <= Z.of_nat (length (regs (data r))) -> fs !! temp = None -> temp <> path ->
  length (regs (data r2)) = length (regs (data r)) -> 0 <= wall ->
  exists fs' r' r3, save_nvram fs r temp path t = Some (fs', r', Ok tt) /\ load_nvram fs' r2 path wall t2 = Some (r3, Ok tt) /\
    fs' !! temp = None /\ (forall i, i ∉ time_regs -> aget (regs (data r3)) i = aget (regs (data r)) i) /\
    base_centiseconds (data r3) = seed_cs (offset r2) wall.
Proof.
  intros Hl Ht Hne Hl2 Hw. unfold save_nvram. destruct (update_if_enabled_ok (data r) t) as (d & Ed & Hld & Hod); [lia|]. rewrite Ed. cbn [mbind option_bind].
  unfold nv_save. rewrite Ht. eexists _, _. unfold load_nvram. rewrite lookup_insert_eq.
  replace (Nat.min (length (regs (data r2))) (length (regs d))) with (length (regs (data r2))) by lia.
  rewrite (take_ge (regs d)), (drop_ge (regs (data r2))), app_nil_r by lia.
  destruct (seed_regs (offset r2) wall (regs d) t2 Hw) as (rs & E & Hls & Hsh & _ & Ho & Hb); [lia|]. rewrite E. cbn [mbind option_bind]. rewrite Hb. cbn [mbind option_bind].
  eexists. split; [reflexivity|]. split; [reflexivity|]. split; [rewrite lookup_insert_ne by done; by rewrite lookup_delete_eq|].
  split; [|done]. intros i Hi. cbn [data regs]. change (aget rs i = aget (regs (data r)) i). rewrite Ho by done. by apply Hod.
Qed.

(** ** Where the part departs from the chip *)

(** A guest that writes the month register a value that is not the digits of a
    month, such as one with the oscillator bit of the chip set, stops the
    program. *)
Theorem month_write_panics r t v : 12 <= size r -> size r = Z.of_nat (length (regs (data r))) -> fits 8 v ->
  from_bcd v = 0 \/ 13 < from_bcd v -> write r t 0x09 v = None.
Proof.
  intros Hs Hl Hv Hm. unfold write. rewrite (proj2 (Z.leb_gt (size r) 9)) by lia.
  destruct (aget_Some (regs (data r)) CMD_REG_OFFSET) as [old ->]; [unfold CMD_REG_OFFSET; lia|]. cbn [mbind option_bind].
  pose proof (aset_Some (regs (data r)) 9 v ltac:(lia)) as Ea. rewrite Ea. cbn [mbind option_bind]. change (9 <=? 10) with true.
  rewrite rebase_with. set (rs := <[Z.to_nat 9:=v]> (regs (data r))) in *. assert (Hl' : length rs = length (regs (data r))) by apply length_insert.
  assert (E : regs_to_centiseconds rs = None); [|by rewrite E]. unfold regs_to_centiseconds. rewrite (aget_aset_eq _ _ _ _ Ea).
  destruct (aget_Some rs 0) as [? E0], (aget_Some rs 1) as [? E1], (aget_Some rs 2) as [? E2], (aget_Some rs 4) as [? E4], (aget_Some rs 8) as [? E8], (aget_Some rs 10) as [yy EA]; try lia.
  rewrite E0, E1, E2, E4, E8, EA. cbn [fmap option_fmap option_map mbind option_bind].
  assert (H12 : 12 < u64 (from_bcd v - 1)).
  { assert (0 <= from_bcd v < 256).
    { assert (Hb : forallb (fun v => (0 <=? from_bcd v) && (from_bcd v <? 256)) (seqZ 0 256) = true) by (vm_compute; reflexivity).
      rewrite forallb_forall in Hb. specialize (Hb v). rewrite andb_true_iff, Z.leb_le, Z.ltb_lt in Hb. apply Hb, list_elem_of_In, elem_of_seqZ. unfold fits in Hv. lia. }
    unfold u64, wrap. destruct Hm as [->|Hm]; [by vm_compute|]. rewrite Z.mod_small by lia. lia. }
  by rewrite months_days_none.
Qed.

(** Setting an alarm sets the clock: a write to one of the three alarm
    registers restarts the clock from what the time registers showed when they
    were last read, so the time since is lost. *)
Theorem alarm_write_loses_time r t a v x : settable r -> a ∈ [0x03; 0x05; 0x07] -> moment_ok x -> in_range x -> shows (regs (data r)) x ->
  exists r', write r t a v = Some (r', true) /\ base_centiseconds (data r') = cs_of x /\ time_base (data r') = t.
Proof.
  intros Hs Ha Hx Hy Hsh. assert (Ha' : 0 <= a <= 10 /\ a ∉ time_regs).
  { repeat (apply elem_of_cons in Ha as [->|Ha]); [..|by apply not_elem_of_nil in Ha]; split; try lia; by apply (bool_decide_unpack _). }
  destruct (write_time r t a v Hs) as (r' & rs & E & _ & Ea & Er & Et & Ec); [lia|intros ->; exfalso; apply Ha'; by apply (bool_decide_unpack _)|].
  exists r'. split; [done|]. split; [|done]. rewrite Er, (regs_to_centiseconds_ok rs x Hx Hy) in Ec; [by injection Ec|].
  unfold shows in *. rewrite Forall_forall in *. intros y Hin. rewrite (aget_aset_ne _ _ _ _ _ Ea); [by apply Hsh|]. intros ->. apply Ha'.
  unfold moment_regs in Hin. repeat (apply elem_of_cons in Hin as [->|Hin]); [by apply (bool_decide_unpack _)..|by apply not_elem_of_nil in Hin].
Qed.

(** ** Witnesses *)

Definition no_files : FS := ∅.
Definition example_part : Ds1x86 := mkRtc (mkData (<[9%nat:=1]> (replicate 16 0)) 0 0) 16 "nv" offset_default.
Definition eve : Moment := mkMoment (mkDate 1999 12 31) 23 59 59 99.

Lemma ds1x86_seeded_witness :
  exists r, new no_files 64 "nv" offset_default 946684800500000000 7 0 0 = Some r /\ base_centiseconds (data r) = 94668480050 /\ time_base (data r) = 7 /\
    shows (regs (data r)) (moment_of 94668480050) /\ cs_of (moment_of 94668480050) = 94668480050 /\
    (offset_default = offset_default -> 946684800500000000 / 1000000000 <= RTC_MAX_UNIX -> 94668480050 = 946684800500000000 / 10000000).
Proof. exact (ds1x86_seeded no_files 64 "nv" offset_default 946684800500000000 7 0 0 ltac:(lia) ltac:(lia) eq_refl). Defined.

Lemma ds1x86_set_runs_witness :
  exists r', driver_set example_part (fun i => i * 1000) 0 20000 0 eve = Some r' /\
    (forall y, y ∈ moment_regs (mkMoment (mkDate 2000 1 1) 0 0 0 0) -> exists r'', read r' 10010000 y.1 = Some (r'', Some y.2)).
Proof.
  destruct (ds1x86_set_runs example_part (fun i => i * 1000) 0 20000 0 eve 10010000) as (r' & x' & Hd & _ & _ & Hu & Hr & _);
    [|by apply (bool_decide_unpack _)|split; vm_compute; congruence|vm_compute; congruence|vm_compute; congruence|].
  { split; [vm_compute; congruence|]. split; [reflexivity|]. exists 1. split; [reflexivity|]. vm_compute. split; congruence. }
  exists r'. split; [exact Hd|]. assert (mkMoment (mkDate 2000 1 1) 0 0 0 0 = x') as E by (apply Hu; [by apply (bool_decide_unpack _)|reflexivity]).
  rewrite E. exact Hr.
Defined.

Lemma ds1x86_nvram_roundtrip_witness :
  exists fs' r' r3, save_nvram no_files example_part "nv.tmp" "nv" 5 = Some (fs', r', Ok tt) /\ load_nvram fs' example_part "nv" 946684800000000000 9 = Some (r3, Ok tt) /\
    fs' !! "nv.tmp" = None /\ (forall i, i ∉ time_regs -> aget (regs (data r3)) i = aget (regs (data example_part)) i) /\
    base_centiseconds (data r3) = seed_cs offset_default 946684800000000000.
Proof. apply (ds1x86_nvram_roundtrip no_files example_part "nv.tmp" "nv" 5 example_part 946684800000000000 9); try done; vm_compute; congruence. Defined.

End Ds1x86Claims.

Module RtcClaims.

Import Calendar.
#[local] Open Scope Z_scope.

Lemma date_of_inj x y : RtcOffset.date_of x = RtcOffset.date_of y -> x = y.
Proof. destruct x as [[? ?] ?], y as [[? ?] ?]. cbn. by intros [= -> -> ->]. Qed.

Lemma civil_inverse y m d : valid (mkDate y m d) -> RtcOffset.civil_from_days (RtcOffset.days_from_civil y m d) = (y, m, d).
Proof.
  intros Hv. pose proof Hv as [Hm _]. apply date_of_inj. rewrite RtcOffset.days_from_civil_ok by done.
  by apply (inverse_unique (fun z => RtcOffset.date_of (RtcOffset.civil_from_days z)) (mkDate y m d) RtcOffset.civil_from_days_ok).
Qed.

(** C36: The calendars of the clocks are the Gregorian calendar.  Day 0 is
    1970-01-01, and each day's date is the day after the date before it, for
    all days before and after; the date functions of the clock offset, of the
    DS1687 and (from 1970 on) the loops of the DS1x86 agree day for day; and a
    date turned into a day comes back. *)
Theorem calendars_gregorian :
  RtcOffset.date_of (RtcOffset.civil_from_days 0) = mkDate 1970 1 1 /\
  (forall z, RtcOffset.date_of (RtcOffset.civil_from_days (z + 1)) = next_day (RtcOffset.date_of (RtcOffset.civil_from_days z))) /\
  (forall z, Ds1687.civil_from_days z = RtcOffset.civil_from_days z) /\
  (forall n, 0 <= n -> Ds1x86.date_of_days n = RtcOffset.civil_from_days n) /\
  (forall y m d, valid (mkDate y m d) ->
    RtcOffset.civil_from_days (RtcOffset.days_from_civil y m d) = (y, m, d) /\ Ds1687.civil_from_days (Ds1687.days_from_civil y m d) = (y, m, d)).
Proof.
  destruct (inverse_counts (fun z => RtcOffset.date_of (RtcOffset.civil_from_days z)) RtcOffset.civil_from_days_ok) as [H0 Hn].
  assert (Hs : forall z, Ds1687.civil_from_days z = RtcOffset.civil_from_days z) by (intros; apply date_of_inj, Ds1687Claims.civil_same).
  split; [exact H0|]. split; [exact Hn|]. split; [exact Hs|]. split.
  - intros n Hn'. apply date_of_inj. destruct (Ds1x86Claims.date_of_days_ok n Hn') as (Hv & He & _), (RtcOffset.civil_from_days_ok n) as [Hv' He'].
    apply day_number_inj; [done..|congruence].
  - intros y m d Hv. split; [by apply civil_inverse|]. rewrite Hs, Ds1687Claims.days_same by apply Hv. by apply civil_inverse.
Qed.

(** The last day of February of a leap year. *)
Lemma calendars_gregorian_witness : Ds1x86.date_of_days 11016 = RtcOffset.civil_from_days 11016 /\
  Ds1687.civil_from_days (Ds1687.days_from_civil 2000 2 29) = (2000, 2, 29).
Proof.
  destruct calendars_gregorian as (_ & _ & _ & Hl & Hi). split; [by apply Hl|]. apply Hi. by apply (bool_decide_unpack _).
Defined.

End RtcClaims.
