(* ===== verification/SFlash.v ===== *)
(** * The Octane's boot flash

    The command machine of src/src/dev/sflash.rs: a 16-bit part with the
    Intel command set, its array kept in a file.  Addresses that leave the
    array are bus errors ([None]); the host's files are those of [BlockNode].
    [filling] is the reader's thread-local flag: a cache fill sees the array
    whatever the mode. *)

From stdpp Require Import strings.
From S2P Require Import Prelude BlockNode.
Import BlockNode.

#[local] Open Scope Z_scope.
#[local] Open Scope word_scope.

Module SFlash.

Definition FLASH_SIZE : Z := 2 ^ 20.
Definition BLOCK_SIZE : Z := 64 * 1024.
Definition MANUFACTURER_ID : Z := 0x00b0.
Definition DEVICE_ID : Z := 0x66a8.

Definition CMD_PROGRAM : Z := 0x40.
Definition CMD_PROGRAM_ALT : Z := 0x10.
Definition CMD_ERASE : Z := 0x20.
Definition CMD_CONFIRM : Z := 0xd0.
Definition CMD_READ_STATUS : Z := 0x70.
Definition CMD_CLEAR_STATUS : Z := 0x50.
Definition CMD_READ_ID : Z := 0x90.
Definition CMD_READ_ARRAY : Z := 0xff.

Definition SR_READY : Z := 0x80.
Definition SR_ERASE_ERR : Z := 0x20.
Definition SR_PROGRAM_ERR : Z := 0x10.

Inductive Mode : Type := MArray | MId | MStatus | MProgramData | MEraseConfirm.

#[export] Instance Mode_eq_dec : EqDecision Mode.
Proof. solve_decision. Defined.

Record State : Type := mkState { data : list Z; mode : Mode; status : Z; file : option string; gen : Z }.

#[global] Instance eta_State : Settable State := fun s => mkState (data s) (mode s) (status s) (file s) (gen s).

Definition power_of_two (n : Z) : bool := (0 <? n) && (n .& (n - 1) =? 0).

(** [None]: the assertions on the size and the image fail. *)
Definition new (image : list Z) (size : Z) : option State :=
  if power_of_two size && (BLOCK_SIZE <=? size) && (Z.of_nat (length image) <=? size)
  then Some (mkState (copy_at (replicate (Z.to_nat size) 0xff) 0 image) MArray SR_READY None 0)
  else None.

Definition reset (s : State) : State := s <| mode := MArray |> <| status := SR_READY |>.

(** The file is created if it is missing. *)
Definition with_file (fs : FS) (image : list Z) (size : Z) (path : string) : option (FS * result State) :=
  s ← new image size;
  let f := default [] (fs !! path) in
  let fs := <[path := f]> fs in
  if Z.of_nat (length f) =? size then Some (fs, Ok (s <| data := f |> <| file := Some path |>))
  else if Z.of_nat (length f) =? 0 then Some (<[path := data s]> fs, Ok (s <| file := Some path |>))
  else Some (fs, Err OtherError).

Definition sync (fs : FS) (s : State) (off len : Z) : FS :=
  match file s with
  | None => fs
  | Some p => match fs !! p with Some f => <[p := copy_at f off (slice (data s) off len)]> fs | None => fs end
  end.

(** Big-endian words; a byte past the end is never asked for. *)
Definition word (s : State) (off : Z) : Z := ((data s !!! Z.to_nat off) .<< 8) .| (data s !!! Z.to_nat (off + 1)).

Definition be16 (v : Z) : list Z := [u8 (v .>> 8); u8 v].

Definition flash_read (s : State) (filling : bool) (off : Z) : Z :=
  if negb (bool_decide (mode s = MArray)) && filling then word s off
  else match mode s with
       | MArray => word s off
       | MId => if off =? 0 then MANUFACTURER_ID else if off =? 2 then DEVICE_ID else 0
       | MStatus | MProgramData | MEraseConfirm => (status s .<< 8) .| status s
       end.

Definition command (s : State) (cmd : Z) : State :=
  if cmd =? CMD_READ_ARRAY then s <| mode := MArray |>
  else if cmd =? CMD_READ_ID then s <| mode := MId |>
  else if cmd =? CMD_READ_STATUS then s <| mode := MStatus |>
  else if cmd =? CMD_CLEAR_STATUS then s <| status := status s .& 0xc7 |> <| mode := MStatus |>
  else if (cmd =? CMD_PROGRAM) || (cmd =? CMD_PROGRAM_ALT) then s <| mode := MProgramData |>
  else if cmd =? CMD_ERASE then s <| mode := MEraseConfirm |>
  else s.

Definition flash_write (fs : FS) (s : State) (off v : Z) : FS * State :=
  let cmd := u8 v in
  match mode s with
  | MProgramData =>
      let s := s <| data ::= (fun d => copy_at d off (be16 (word s off .& v))) |> in
      (sync fs s off 2, s <| mode := MStatus |>)
  | MEraseConfirm =>
      if cmd =? CMD_CONFIRM then
        let base := off - off mod BLOCK_SIZE in
        let s := s <| data ::= (fun d => copy_at d base (replicate (Z.to_nat BLOCK_SIZE) 0xff)) |> in
        (sync fs s base BLOCK_SIZE, s <| mode := MStatus |>)
      else (fs, s <| status := status s .| (SR_ERASE_ERR .| SR_PROGRAM_ERR) |> <| mode := MStatus |>)
  | _ => (fs, command s cmd)
  end.

(** [addr & !1] *)
Definition even (addr : Z) : Z := addr - addr mod 2.

Definition read16 (s : State) (filling : bool) (addr : Z) : option Z :=
  let off := even addr in
  if Z.of_nat (length (data s)) <=? off then None else Some (flash_read s filling off).

(** The generation counter is 64 bits wide; [None] is a bus error. *)
Definition write16 (fs : FS) (s : State) (addr v : Z) : option (FS * State) :=
  let off := even addr in
  if Z.of_nat (length (data s)) <=? off then None
  else let '(fs, s) := flash_write fs s off v in Some (fs, s <| gen ::= (fun g => u64 (g + 1)) |>).

End SFlash.
