(* ===== verification/SFlashClaims.v ===== *)
(** * Theorems about the boot flash

    A driver's commands act on the array as on a chip of NOR cells, and the
    file follows the array through any bus activity. *)

From stdpp Require Import strings.
From S2P Require Import Prelude BlockNode BlockProofs SFlash.
Import BlockNode BlockProofs SFlash.

#[local] Open Scope Z_scope.
#[local] Open Scope word_scope.

Module SFlashClaims.

(** ** The file follows the array *)

Definition synced (fs : FS) (s : State) : Prop := forall p, file s = Some p -> fs !! p = Some (data s).

Definition even_size (s : State) : Prop := exists k, Z.of_nat (length (data s)) = k * BLOCK_SIZE.

Lemma copy_at_len (d : list Z) off b : 0 <= off -> off + Z.of_nat (length b) <= Z.of_nat (length d) -> length (copy_at d off b) = length d.
Proof. intros. by apply copy_at_length. Qed.

Lemma slice_copy_at (d : list Z) off b n : 0 <= off -> off <= Z.of_nat (length d) -> n = Z.of_nat (length b) -> slice (copy_at d off b) off n = b.
Proof.
  intros Ho Hl ->. unfold slice, copy_at. rewrite Nat2Z.id. rewrite drop_app_length' by (rewrite length_take; lia). by rewrite take_app_length.
Qed.

(** Writing part of the array and then that part to the file keeps them the
    same. *)
Lemma sync_synced fs (s : State) off b n m : synced fs s -> 0 <= off -> off <= Z.of_nat (length (data s)) -> n = Z.of_nat (length b) ->
  let s' := s <| data ::= (fun d => copy_at d off b) |> in
  synced (sync fs s' off n) (s' <| mode := m |>).
Proof.
  intros Hs Ho Hl Hn s' p Hp. unfold sync. assert (Hf : file s' = Some p) by exact Hp. rewrite Hf.
  rewrite (Hs p Hp). rewrite lookup_insert_eq. f_equal.
  change (data s') with (copy_at (data s) off b). by rewrite slice_copy_at.
Qed.

Lemma even_bounds addr : addr - 1 <= even addr <= addr.
Proof. unfold even. Z.div_mod_to_equations. lia. Qed.

Lemma even_nonneg addr : 0 <= addr -> 0 <= even addr.
Proof. intros. unfold even. Z.div_mod_to_equations. lia. Qed.

Lemma block_size_pos : 0 < BLOCK_SIZE.
Proof. done. Qed.

Lemma block_size : BLOCK_SIZE = 2 ^ 16.
Proof. done. Qed.

#[local] Opaque BLOCK_SIZE.

Lemma block_base off k : 0 <= off < k * BLOCK_SIZE -> 0 <= off - off mod BLOCK_SIZE /\ off - off mod BLOCK_SIZE + BLOCK_SIZE <= k * BLOCK_SIZE.
Proof. intros H. rewrite block_size in *. change (2 ^ 16) with 65536 in *. Z.div_mod_to_equations. lia. Qed.

Lemma even_room s addr : even_size s -> 0 <= addr -> even addr < Z.of_nat (length (data s)) -> even addr + 2 <= Z.of_nat (length (data s)).
Proof. intros [k E] Ha H. unfold even in *. rewrite block_size in *. change (2 ^ 16) with 65536 in *. Z.div_mod_to_equations. lia. Qed.

Lemma write16_synced fs s addr v fs' s' : write16 fs s addr v = Some (fs', s') -> 0 <= addr -> even_size s -> synced fs s ->
  synced fs' s' /\ length (data s') = length (data s) /\ file s' = file s.
Proof.
  unfold write16. destruct (Z.leb_spec (Z.of_nat (length (data s))) (even addr)) as [|Hlt]; [done|]. intros E Ha He Hs.
  pose proof (even_nonneg addr Ha). pose proof (even_room s addr He Ha Hlt). set (off := even addr) in *.
  destruct (flash_write fs s off v) as [fs1 s1] eqn:Ef. injection E as <- <-.
  assert (H' : synced fs1 s1 /\ length (data s1) = length (data s) /\ file s1 = file s); [|done]. unfold flash_write in Ef.
  destruct (mode s); [injection Ef as <- <-; unfold command; by repeat case_match..| |].
  - injection Ef as <- <-. split; [apply (sync_synced fs s off (be16 _) 2); [done|lia|lia|done]|]. split; [|done]. apply copy_at_len; [done|cbn; lia].
  - destruct (u8 v =? CMD_CONFIRM); injection Ef as <- <-; [|done]. destruct He as [k Ek]. destruct (block_base off k ltac:(lia)) as [Hb1 Hb2].
    assert (Hr : Z.of_nat (length (replicate (Z.to_nat BLOCK_SIZE) 255)) = BLOCK_SIZE) by (rewrite length_replicate; pose proof block_size_pos; lia).
    split; [apply (sync_synced fs s (off - off mod BLOCK_SIZE) (replicate (Z.to_nat BLOCK_SIZE) 255) BLOCK_SIZE); [done|lia|pose proof block_size_pos; lia|done]|].
    split; [|done]. apply copy_at_len; [done|rewrite Hr; lia].
Qed.

(** Bus cycles in turn; one that leaves the array changes nothing. *)
Fixpoint cycles (fs : FS) (s : State) (l : list (Z * Z)) : FS * State :=
  match l with
  | [] => (fs, s)
  | (addr, v) :: l => match write16 fs s addr v with Some (fs, s) => cycles fs s l | None => cycles fs s l end
  end.

Lemma cycles_synced l : forall fs s, Forall (fun x => 0 <= x.1) l -> even_size s -> synced fs s ->
  let '(fs', s') := cycles fs s l in synced fs' s' /\ length (data s') = length (data s) /\ file s' = file s.
Proof.
  induction l as [|[addr v] l IH]; intros fs s Hl He Hs; [done|]. inversion_clear Hl as [|? ? Ha Hl']. cbn [cycles fst] in *.
  destruct (write16 fs s addr v) as [[fs1 s1]|] eqn:E; [|by apply IH].
  destruct (write16_synced fs s addr v fs1 s1 E Ha He Hs) as (Hs1 & Hd & Hf).
  specialize (IH fs1 s1 Hl' ltac:(unfold even_size in *; rewrite Hd; done) Hs1). destruct (cycles fs1 s1 l) as [fs' s'].
  destruct IH as (? & ? & ?). split; [done|]. split; congruence.
Qed.

Lemma power_of_two_blocks n : power_of_two n = true -> BLOCK_SIZE <= n -> exists k, n = k * BLOCK_SIZE.
Proof.
  unfold power_of_two. rewrite andb_true_iff, Z.ltb_lt, Z.eqb_eq. intros [Hp Hz] Hn.
  assert (Hlog : n = 2 ^ Z.log2 n).
  { destruct (Z.log2_spec n Hp) as [H1 H2]. destruct (Z.eq_dec n (2 ^ Z.log2 n)) as [|Hne]; [done|exfalso].
    assert (Hb : Z.testbit (n .& (n - 1)) (Z.log2 n) = true).
    { rewrite Z.land_spec, (Z.bit_log2 n) by done. cbn. assert (Z.log2 (n - 1) = Z.log2 n) as <- by (apply Z.log2_unique; [apply Z.log2_nonneg|lia]).
      apply Z.bit_log2. pose proof (Z.pow_pos_nonneg 2 (Z.log2 n) ltac:(lia) (Z.log2_nonneg n)). lia. }
    rewrite Hz, Z.bits_0 in Hb. done. }
  assert (16 <= Z.log2 n) by (change 16 with (Z.log2 (2 ^ 16)); apply Z.log2_le_mono; by rewrite <- block_size).
  exists (2 ^ (Z.log2 n - 16)). rewrite block_size, <- Z.pow_add_r by lia. replace (Z.log2 n - 16 + 16) with (Z.log2 n) by lia. done.
Qed.

Lemma with_file_ok fs image size p fs0 s0 : with_file fs image size p = Some (fs0, Ok s0) ->
  synced fs0 s0 /\ even_size s0 /\ Z.of_nat (length (data s0)) = size /\ file s0 = Some p /\ mode s0 = MArray /\ power_of_two size = true /\ BLOCK_SIZE <= size.
Proof.
  unfold with_file, new. destruct (power_of_two size) eqn:Ep; [|done]. destruct (Z.leb_spec BLOCK_SIZE size) as [Hb|]; [|done].
  destruct (Z.leb_spec (Z.of_nat (length image)) size) as [Hi|]; [|done]. cbn [andb mbind option_bind].
  destruct (power_of_two_blocks size Ep Hb) as [k Ek].
  assert (Hlen : Z.of_nat (length (copy_at (replicate (Z.to_nat size) 255) 0 image)) = size).
  { pose proof block_size_pos. rewrite copy_at_len by (rewrite ?length_replicate; lia). rewrite length_replicate. lia. }
  destruct (Z.eqb_spec (Z.of_nat (length (default [] (fs !! p)))) size) as [El|]; [|case_match; [|done]]; intros [= <- <-].
  - split; [intros q [= <-]; by rewrite lookup_insert_eq|]. split; [exists k; cbn; lia|]. done.
  - split; [intros q [= <-]; by rewrite lookup_insert_eq|]. split; [exists k; cbn [data]; rewrite Hlen; lia|]. done.
Qed.

(** What the flash held is what it holds after a restart.  A part opened
    over a file, driven by any bus cycles at all, program, erase, half-finished
    command or stray write, and then opened again over the same file, whatever
    image it is seeded with, comes up reading the array it went down with. *)
Theorem flash_file_durable fs image size p fs0 s0 l image' : with_file fs image size p = Some (fs0, Ok s0) -> Forall (fun x => 0 <= x.1) l ->
  Z.of_nat (length image') <= size ->
  let '(fs1, s1) := cycles fs0 s0 l in
  exists s2, with_file fs1 image' size p = Some (fs1, Ok s2) /\ data s2 = data s1 /\ mode s2 = MArray.
Proof.
  intros E Hl Hi. destruct (with_file_ok _ _ _ _ _ _ E) as (Hs & He & Hlen & Hf & Hm & Hp & Hb).
  pose proof (cycles_synced l fs0 s0 Hl He Hs) as Hc. destruct (cycles fs0 s0 l) as [fs1 s1]. destruct Hc as (Hs1 & Hd & Hf1).
  pose proof (Hs1 p ltac:(congruence)) as Hp1. unfold with_file, new. rewrite Hp, (proj2 (Z.leb_le _ _)), (proj2 (Z.leb_le _ _)) by lia. cbn [andb mbind option_bind].
  rewrite Hp1. cbn [default from_option id]. rewrite Hd, (proj2 (Z.eqb_eq _ size)) by lia. rewrite insert_id by done. by eexists.
Qed.

(** ** The chip a driver sees *)

Record Chip : Type := mkChip { cells : list Z; failed : bool }.

Inductive Command : Type :=
| FRead (a : Z)
| FProgram (a v : Z)
| FErase (a : Z)
| FAbandon (a v : Z)
| FClear
| FIdentify.

(** A status word, on both lanes: ready, and the two error bits. *)
Definition status_word (failed : bool) : Z := if failed then 0xb0b0 else 0x8080.

(** Programming clears bits, erasing a block sets them, and an erase that is
    not confirmed is remembered until it is cleared. *)
Definition chip_step (c : Chip) (k : Command) : Chip * list Z :=
  match k with
  | FRead a => (c, [(cells c !!! Z.to_nat a) * 256 + cells c !!! Z.to_nat (a + 1)])
  | FProgram a v =>
      (mkChip (copy_at (cells c) a [cells c !!! Z.to_nat a .& (v / 256); cells c !!! Z.to_nat (a + 1) .& (v mod 256)]) (failed c), [status_word (failed c)])
  | FErase a => (mkChip (copy_at (cells c) (a - a mod BLOCK_SIZE) (replicate (Z.to_nat BLOCK_SIZE) 255)) (failed c), [status_word (failed c)])
  | FAbandon _ _ => (mkChip (cells c) true, [status_word true])
  | FClear => (mkChip (cells c) false, [status_word false])
  | FIdentify => (c, [0xb0; 0x66a8])
  end.

(** The bus cycles of each. *)
Definition drive (fs : FS) (s : State) (k : Command) : option (FS * State * list Z) :=
  let setup a c := write16 fs s a c in
  match k with
  | FRead a => '(fs, s) ← setup a 0xffff; v ← read16 s false a; Some (fs, s, [v])
  | FProgram a v => '(fs, s) ← setup a 0x4040; '(fs, s) ← write16 fs s a v; st ← read16 s false a; Some (fs, s, [st])
  | FErase a => '(fs, s) ← setup a 0x2020; '(fs, s) ← write16 fs s a 0xd0d0; st ← read16 s false a; Some (fs, s, [st])
  | FAbandon a v => '(fs, s) ← setup a 0x2020; '(fs, s) ← write16 fs s a v; st ← read16 s false a; Some (fs, s, [st])
  | FClear => '(fs, s) ← setup 0 0x5050; st ← read16 s false 0; Some (fs, s, [st])
  | FIdentify => '(fs, s) ← setup 0 0x9090; m ← read16 s false 0; d ← read16 s false 2; Some (fs, s, [m; d])
  end.

Definition address (k : Command) : Z := match k with FRead a | FProgram a _ | FErase a | FAbandon a _ => a | FClear | FIdentify => 0 end.

(** Even addresses in the array; data words; an abandoned erase is followed by
    anything but the confirmation. *)
Definition command_ok (size : Z) (k : Command) : Prop :=
  0 <= address k < size /\ address k mod 2 = 0 /\
  match k with FProgram _ v => fits 16 v | FAbandon _ v => u8 v <> CMD_CONFIRM | _ => True end.

#[export] Instance command_ok_dec size k : Decision (command_ok size k).
Proof. unfold command_ok, fits. destruct k; apply _. Defined.

Definition matches (s : State) (c : Chip) : Prop :=
  data s = cells c /\ Forall (fits 8) (cells c) /\ even_size s /\ mode s ∈ [MArray; MId; MStatus] /\ status s = if failed c then 0xb0 else 0x80.

(** ** Words and bytes *)

Lemma byte_land x v : fits 8 x -> 0 <= v -> fits 8 (x .& v).
Proof.
  unfold fits. intros Hx Hv. split; [by apply Z.land_nonneg; lia|]. destruct (Z.eq_dec (x .& v) 0) as [->|]; [done|].
  apply Z.log2_lt_pow2; [pose proof (proj2 (Z.land_nonneg x v) (or_introl (proj1 Hx))); lia|].
  destruct (Z.eq_dec x 0) as [->|]; [by rewrite Z.land_0_l in *|]. pose proof (Z.log2_land x v ltac:(lia) Hv).
  assert (Z.log2 x < 8) by (apply Z.log2_lt_pow2; lia). lia.
Qed.

Lemma word_value h l : fits 8 h -> fits 8 l -> (h .<< 8) .| l = h * 256 + l.
Proof. intros Hh Hl. rewrite Z.shiftl_mul_pow2 by done. by rewrite (lor_block h 8 l). Qed.

(** A word programmed is its bytes programmed. *)
Lemma be16_land h l v : fits 8 h -> fits 8 l -> fits 16 v -> be16 (((h .<< 8) .| l) .& v) = [h .& (v / 256); l .& (v mod 256)].
Proof.
  intros Hh Hl Hv. pose proof Hl as Hl'. unfold fits in Hh, Hl, Hv. unfold be16, u8, wrap. rewrite <- !(Z.land_ones _ 8) by done. f_equal; [|f_equal].
  - rewrite Z.shiftr_land, Z.shiftr_lor, Z.shiftr_shiftl_l by done. rewrite Z.sub_diag, Z.shiftl_0_r.
    rewrite (Z.shiftr_div_pow2 l), (Z.div_small l) by lia. rewrite Z.lor_0_r. rewrite (Z.shiftr_div_pow2 v) by done. change (2 ^ 8) with 256 at 1.
    rewrite Z.land_ones by done. apply Z.mod_small. apply byte_land; [done|]. apply Z.div_pos; lia.
  - rewrite <- Z.land_assoc. rewrite Z.land_ones by done. change (2 ^ 8) with 256.
    rewrite (Z.land_comm (_ .| l)), Z.land_lor_distr_r.
    assert (Hz : (v mod 256) .& (h .<< 8) = 0).
    { apply Z.bits_inj'. intros n Hn. rewrite Z.land_spec, Z.bits_0. change 256 with (2 ^ 8). destruct (Z.lt_ge_cases n 8).
      - rewrite Z.shiftl_spec_low by lia. apply andb_false_r.
      - rewrite Z.mod_pow2_bits_high by lia. done. }
    rewrite Hz, Z.lor_0_l. apply Z.land_comm.
Qed.

(** ** The refinement *)

Definition bump (s : State) : State := s <| gen ::= (fun g => u64 (g + 1)) |>.

Lemma write16_at fs s a v : 0 <= a < Z.of_nat (length (data s)) -> a mod 2 = 0 ->
  write16 fs s a v = Some ((flash_write fs s a v).1, bump (flash_write fs s a v).2).
Proof.
  intros Ha He. unfold write16, even. rewrite He, Z.sub_0_r, (proj2 (Z.leb_gt _ a)) by lia. by destruct (flash_write fs s a v).
Qed.

Lemma read16_at s f a : 0 <= a < Z.of_nat (length (data s)) -> a mod 2 = 0 -> read16 s f a = Some (flash_read s f a).
Proof. intros Ha He. unfold read16, even. by rewrite He, Z.sub_0_r, (proj2 (Z.leb_gt _ a)) by lia. Qed.

(** A first cycle is a command, whatever idle mode the part is in. *)
Lemma first_cycle fs s a v : mode s ∈ [MArray; MId; MStatus] -> flash_write fs s a v = (fs, command s (u8 v)).
Proof. intros Hm. unfold flash_write. destruct (mode s); try done; exfalso; set_solver. Qed.

Lemma status_read s a : mode s = MStatus -> flash_read s false a = (status s .<< 8) .| status s.
Proof. intros E. unfold flash_read. by rewrite E. Qed.

Lemma status_lanes (f : bool) : let st := if f then 0xb0 else 0x80 in (st .<< 8) .| st = status_word f.
Proof. by destruct f. Qed.

Lemma lookup_byte (l : list Z) i : Forall (fits 8) l -> (i < length l)%nat -> fits 8 (l !!! i).
Proof. intros Hl Hi. eapply Forall_lookup_1; [exact Hl|]. by apply list_lookup_lookup_total_lt. Qed.

Lemma Forall_copy_at (P : Z -> Prop) d off b : Forall P d -> Forall P b -> Forall P (copy_at d off b).
Proof. intros Hd Hb. unfold copy_at. rewrite !Forall_app. split; [by apply Forall_take|]. split; [done|by apply Forall_drop]. Qed.

Section Drive.

Context (fs : FS) (s : State) (c : Chip).
Hypothesis Hm : matches s c.

Lemma room a : 0 <= a < Z.of_nat (length (data s)) -> a mod 2 = 0 -> a + 2 <= Z.of_nat (length (cells c)).
Proof. intros Ha He. destruct Hm as (Hd & _ & [k Ek] & _). rewrite <- Hd. rewrite block_size in Ek. change (2 ^ 16) with 65536 in Ek. Z.div_mod_to_equations. lia. Qed.

(** The part left in status mode after its second cycle. *)
Lemma finish (fs' : FS) s2 a b (f : bool) : data s2 = b -> length b = length (data s) -> Forall (fits 8) b -> mode s2 = MStatus -> (status s2 = if f then 0xb0 else 0x80) ->
  0 <= a < Z.of_nat (length (data s)) -> a mod 2 = 0 ->
  (st ← read16 s2 false a; Some (fs', s2, [st])) = Some (fs', s2, [status_word f]) /\ matches s2 (mkChip b f) /\ length (data s2) = length (data s).
Proof.
  intros E Hl Hb Hmode Hst Ha He. assert (Hl2 : length (data s2) = length (data s)) by congruence. rewrite read16_at by (by rewrite ?Hl2).
  cbn [mbind option_bind]. rewrite status_read, Hst, status_lanes by done. split; [done|]. split; [|done].
  split; [done|]. split; [done|]. split; [unfold even_size; rewrite Hl2; apply Hm|]. split; [rewrite Hmode; set_solver|done].
Qed.

Lemma drive_read a : 0 <= a < Z.of_nat (length (data s)) -> a mod 2 = 0 -> exists fs' s', drive fs s (FRead a) = Some (fs', s', (chip_step c (FRead a)).2) /\ matches s' c /\ length (data s') = length (data s).
Proof.
  intros Ha He. pose proof Hm as (Hd & Hb & Hz & Hi & Hst). pose proof (room _ Ha He) as Hroom. cbn [drive].
  rewrite write16_at, first_cycle by done. change (command s (u8 0xffff)) with (s <| mode := MArray |>). cbn [fst snd mbind option_bind].
  rewrite read16_at by done. cbn [mbind option_bind]. exists fs, (bump (s <| mode := MArray |>)). split; [|split; [repeat split; try done; set_solver|done]].
  cbn [chip_step snd]. change (flash_read _ false a) with (word s a). unfold word. rewrite Hd, word_value; [done|apply lookup_byte; [done|lia]..].
Qed.

Lemma drive_program a v : 0 <= a < Z.of_nat (length (data s)) -> a mod 2 = 0 -> fits 16 v ->
  exists fs' s', drive fs s (FProgram a v) = Some (fs', s', (chip_step c (FProgram a v)).2) /\ matches s' (chip_step c (FProgram a v)).1 /\ length (data s') = length (data s).
Proof.
  intros Ha He Hv. pose proof Hm as (Hd & Hb & Hz & Hi & Hst). pose proof (room _ Ha He) as Hroom. cbn [drive].
  rewrite write16_at, first_cycle by done. change (command s (u8 0x4040)) with (s <| mode := MProgramData |>). cbn [fst snd mbind option_bind].
  rewrite write16_at by done. cbn [fst snd mbind option_bind]. eexists _, _. cbn [chip_step fst snd].
  assert (Hw : be16 (word s a .& v) = [cells c !!! Z.to_nat a .& (v / 256); cells c !!! Z.to_nat (a + 1) .& (v mod 256)]).
  { unfold word. rewrite Hd. apply be16_land; [apply lookup_byte; [done|lia]..|done]. }
  apply finish; try done.
  - change (copy_at (data s) a (be16 (word s a .& v)) = copy_at (cells c) a [cells c !!! Z.to_nat a .& (v / 256); cells c !!! Z.to_nat (a + 1) .& (v mod 256)]). by rewrite Hw, Hd.
  - rewrite copy_at_len by (cbn; lia). by rewrite Hd.
  - apply Forall_copy_at; [done|]. pose proof Hv as Hv'. unfold fits in Hv'. apply Forall_cons; split; [apply byte_land; [apply lookup_byte; [done|lia]|apply Z.div_pos; lia]|].
    apply Forall_cons; split; [apply byte_land; [apply lookup_byte; [done|lia]|by apply Z.mod_pos_bound]|by apply Forall_nil].
Qed.

Lemma drive_erase a : 0 <= a < Z.of_nat (length (data s)) -> a mod 2 = 0 ->
  exists fs' s', drive fs s (FErase a) = Some (fs', s', (chip_step c (FErase a)).2) /\ matches s' (chip_step c (FErase a)).1 /\ length (data s') = length (data s).
Proof.
  intros Ha He. pose proof Hm as (Hd & Hb & [q Eq] & Hi & Hst). cbn [drive].
  rewrite write16_at, first_cycle by done. change (command s (u8 0x2020)) with (s <| mode := MEraseConfirm |>). cbn [fst snd mbind option_bind].
  rewrite write16_at by done. cbn [fst snd mbind option_bind]. eexists _, _. cbn [chip_step fst snd].
  destruct (block_base a q ltac:(lia)) as [Hb1 Hb2]. pose proof block_size_pos.
  apply finish; try done.
  - change (copy_at (data s) (a - a mod BLOCK_SIZE) (replicate (Z.to_nat BLOCK_SIZE) 255) = copy_at (cells c) (a - a mod BLOCK_SIZE) (replicate (Z.to_nat BLOCK_SIZE) 255)). by rewrite Hd.
  - rewrite copy_at_len; [by rewrite Hd|done|]. rewrite length_replicate, <- Hd. lia.
  - apply Forall_copy_at; [done|]. by apply Forall_replicate.
Qed.

Lemma drive_abandon a v : 0 <= a < Z.of_nat (length (data s)) -> a mod 2 = 0 -> u8 v <> CMD_CONFIRM ->
  exists fs' s', drive fs s (FAbandon a v) = Some (fs', s', (chip_step c (FAbandon a v)).2) /\ matches s' (chip_step c (FAbandon a v)).1 /\ length (data s') = length (data s).
Proof.
  intros Ha He Hv. pose proof Hm as (Hd & Hb & _ & Hi & Hst). cbn [drive].
  rewrite write16_at, first_cycle by done. change (command s (u8 0x2020)) with (s <| mode := MEraseConfirm |>). cbn [fst snd mbind option_bind].
  rewrite write16_at by done. cbn [fst snd mbind option_bind].
  assert (Ew : flash_write fs (bump (s <| mode := MEraseConfirm |>)) a v =
    (fs, (bump (s <| mode := MEraseConfirm |>)) <| status := status s .| (SR_ERASE_ERR .| SR_PROGRAM_ERR) |> <| mode := MStatus |>)).
  { unfold flash_write. change (mode (bump _)) with MEraseConfirm. cbn beta iota. by rewrite (proj2 (Z.eqb_neq _ _)) by done. }
  rewrite Ew. cbn [fst snd]. eexists _, _. cbn [chip_step fst snd]. apply finish; try done; [by rewrite Hd|].
  change (status s .| 48 = 176). rewrite Hst. by destruct (failed c).
Qed.

Lemma drive_ok k : command_ok (Z.of_nat (length (data s))) k ->
  exists fs' s', drive fs s k = Some (fs', s', (chip_step c k).2) /\ matches s' (chip_step c k).1 /\ length (data s') = length (data s).
Proof.
  intros (Ha & He & Hk). pose proof Hm as (Hd & Hb & Hz & Hi & Hst).
  destruct k as [a|a v|a|a v| |]; cbn [address] in *; [by apply drive_read|by apply drive_program|by apply drive_erase|by apply drive_abandon|..]; cbn [drive]; rewrite write16_at, first_cycle by done.
  - change (command s (u8 0x5050)) with (s <| status := status s .& 0xc7 |> <| mode := MStatus |>). cbn [fst snd mbind option_bind].
    eexists _, _. cbn [chip_step fst snd]. apply finish; try done; [by rewrite Hd|]. change (status s .& 199 = 128). rewrite Hst. by destruct (failed c).
  - change (command s (u8 0x9090)) with (s <| mode := MId |>). cbn [fst snd mbind option_bind].
    assert (Hbig : 2 < Z.of_nat (length (cells c))) by (destruct Hz as [q Eq]; rewrite block_size, Hd in Eq; rewrite Hd in Ha; lia).
    assert (Hl : length (data (bump (s <| mode := MId |>))) = length (cells c)) by (change (length (data s) = length (cells c)); by rewrite Hd).
    rewrite (read16_at _ _ 0), (read16_at _ _ 2); [|rewrite Hl; lia|done|rewrite Hl; lia|done].
    cbn [mbind option_bind]. exists fs, (bump (s <| mode := MId |>)). split; [done|]. split; [|done]. repeat split; try done. set_solver.
Qed.

End Drive.

Fixpoint drive_all (fs : FS) (s : State) (ks : list Command) : option (FS * State * list (list Z)) :=
  match ks with
  | [] => Some (fs, s, [])
  | k :: ks => '(fs, s, a) ← drive fs s k; '(fs, s, l) ← drive_all fs s ks; Some (fs, s, a :: l)
  end.

Fixpoint chip_all (c : Chip) (ks : list Command) : Chip * list (list Z) :=
  match ks with
  | [] => (c, [])
  | k :: ks => let '(c, a) := chip_step c k in let '(c, l) := chip_all c ks in (c, a :: l)
  end.

(** C35: The boot flash does what a driver commands.  From any idle mode, any
    sequence of commands, each as its bus cycles, is answered as by a chip of
    NOR cells: a word read is the two bytes of the array, programming a word
    clears in it the bits that are clear in the data, erasing sets a 64 KiB
    block, every operation reports ready, an erase that is not confirmed
    changes nothing and is reported until it is cleared. *)
Theorem flash_refines ks : forall fs s c, matches s c -> Forall (command_ok (Z.of_nat (length (data s)))) ks ->
  exists fs' s', drive_all fs s ks = Some (fs', s', (chip_all c ks).2) /\ matches s' (chip_all c ks).1.
Proof.
  induction ks as [|k ks IH]; intros fs s c Hm Hk; [by exists fs, s|]. inversion_clear Hk as [|? ? Hk1 Hk2].
  destruct (drive_ok fs s c Hm k Hk1) as (fs1 & s1 & E & Hm1 & Hl). cbn [drive_all chip_all]. rewrite E. cbn [mbind option_bind].
  destruct (chip_step c k) as [c1 a]. cbn [fst snd] in *. rewrite <- Hl in Hk2. destruct (IH fs1 s1 c1 Hm1 Hk2) as (fs2 & s2 & E2 & Hm2).
  rewrite E2. cbn [mbind option_bind]. exists fs2, s2. by destruct (chip_all c1 ks).
Qed.

(** ** Witnesses *)

(** A part of one block. *)
Definition example_state : State := mkState (replicate (Z.to_nat BLOCK_SIZE) 7) MStatus 0x80 None 0.
Definition example_chip : Chip := mkChip (replicate (Z.to_nat BLOCK_SIZE) 7) false.
Definition example_commands : list Command := [FProgram 2 0x0503; FRead 2; FAbandon 0 0xff; FErase 4; FClear; FRead 0; FIdentify].

Lemma example_size : Z.of_nat (length (data example_state)) = BLOCK_SIZE.
Proof. cbn [example_state data]. rewrite length_replicate. pose proof block_size_pos. lia. Qed.

Lemma flash_refines_witness :
  exists fs' s', drive_all ∅ example_state example_commands = Some (fs', s', (chip_all example_chip example_commands).2) /\ matches s' (chip_all example_chip example_commands).1.
Proof.
  apply (flash_refines example_commands).
  - split; [done|]. split; [by apply Forall_replicate|]. split; [exists 1; rewrite example_size; lia|]. split; [set_solver|done].
  - rewrite example_size. by apply (bool_decide_unpack _).
Defined.

#[local] Transparent BLOCK_SIZE.

Lemma flash_file_durable_witness :
  let s0 := mkState (copy_at (replicate (Z.to_nat BLOCK_SIZE) 0xff) 0 [1; 2]) MArray SR_READY (Some "f") 0 in
  let '(fs1, s1) := cycles {[ "f" := data s0 ]} s0 [(0, 0x40); (0, 0x1234); (70000, 0x20)] in
  exists s2, with_file fs1 [] BLOCK_SIZE "f" = Some (fs1, Ok s2) /\ data s2 = data s1 /\ mode s2 = MArray.
Proof.
  apply (flash_file_durable ∅ [1; 2] BLOCK_SIZE "f"); [reflexivity|repeat constructor; cbn; lia|done].
Defined.

End SFlashClaims.
