(* ===== verification/ChunkStore.v ===== *)
(** * The chunk store of snapshots

    The content-addressed store of src/src/chunk_store.rs.  The store's
    directory is a map from a shard's name and a file's name to the file's
    bytes; BLAKE3 is a parameter.  Writing a chunk is the three states its file
    passes through, so that a crash can be placed between them. *)

From Stdlib Require Import Ascii.
From stdpp Require Import strings.
From S2P Require Import Prelude BlockNode Snapshot.
Import BlockNode.

#[local] Open Scope Z_scope.
#[local] Open Scope word_scope.

Module ChunkStore.

Definition CHUNK_SIZE : Z := 64 * 1024.
Definition CHUNK_EXT : string := "chunk".

(** 32 bytes. *)
Definition ChunkHash : Type := list Z.

(** The directory: a shard and a file in it. *)
Notation ChunkStore := (gmap (string * string) (list Z)).

(** ** Names *)

Definition HEX (d : Z) : ascii := Snapshot.hex_digit d.

Fixpoint hex_encode (bytes : list Z) : string :=
  match bytes with
  | [] => ""
  | b :: bytes => String (HEX (b .>> 4)) (String (HEX (b .& 0x0f)) (hex_encode bytes))
  end.

Definition hex_nibble (c : ascii) : option Z :=
  let n := Z.of_nat (nat_of_ascii c) in
  if (48 <=? n) && (n <=? 57) then Some (n - 48)
  else if (97 <=? n) && (n <=? 102) then Some (10 + n - 97)
  else if (65 <=? n) && (n <=? 70) then Some (10 + n - 65)
  else None.

Fixpoint parse_pairs (s : string) : option (list Z) :=
  match s with
  | String a (String b s) => h ← hex_nibble a; l ← hex_nibble b; rest ← parse_pairs s; Some (((h .<< 4) .| l) :: rest)
  | _ => Some []
  end.

Definition parse_hex62 (tail head : string) : option ChunkHash :=
  if (String.length tail =? 62)%nat && (String.length head =? 2)%nat then parse_pairs (head +:+ tail) else None.

(** The shard of the first byte, and the file in it. *)
Definition path_for (hash : ChunkHash) : string * string :=
  let hex := hex_encode hash in
  (String.substring 0 2 hex, String.substring 2 (String.length hex - 2) hex +:+ "." +:+ CHUNK_EXT).

(** [with_extension] of a name that ends in the chunk's. *)
Definition tmp_for (hash : ChunkHash) : string * string := ((path_for hash).1, (path_for hash).2 +:+ ".tmp").

(** What is left of the last dot; nothing when there is none to the left of
    which something stands. *)
Fixpoint before_last_dot (s : string) : string :=
  match s with
  | EmptyString => ""
  | String c s' =>
      match String.index 0 "." s' with
      | Some _ => String c (before_last_dot s')
      | None => if (c =? ".")%char then "" else String c s'
      end
  end.

(** A name whose only dot leads it is all stem. *)
Definition file_stem (s : string) : string := match before_last_dot s with EmptyString => s | stem => stem end.

Section Store.

Context (blake3 : list Z -> ChunkHash).

(** ** Chunks *)

Definition put (st : ChunkStore) (data : list Z) : ChunkStore * ChunkHash :=
  let hash := blake3 data in
  match st !! path_for hash with
  | Some _ => (st, hash)
  | None => (<[path_for hash := data]> (delete (tmp_for hash) (<[tmp_for hash := data]> st)), hash)
  end.

(** What the process dying in it can leave: part of the temporary file.  A loss
    of power is not covered: the source does not wait for the disk before the
    rename, so the host could keep the name and lose the bytes. *)
Definition put_crashed (st : ChunkStore) (data : list Z) (n : nat) : ChunkStore :=
  match st !! path_for (blake3 data) with Some _ => st | None => <[tmp_for (blake3 data) := take n data]> st end.

Definition get (st : ChunkStore) (hash : ChunkHash) : result (list Z) :=
  match st !! path_for hash with Some d => Ok d | None => Err NotFound end.

Definition has_chunk (st : ChunkStore) (hash : ChunkHash) : bool := bool_decide (is_Some (st !! path_for hash)).

(** A file whose name parses as a chunk that is not live goes. *)
Definition dead (live : list ChunkHash) (p : string * string) : bool :=
  match parse_hex62 (file_stem p.2) p.1 with Some h => negb (bool_decide (h ∈ live)) | None => false end.

Definition gc (st : ChunkStore) (live : list ChunkHash) : ChunkStore * (nat * Z) :=
  let gone := filter (fun x => dead live x.1 = true) st in
  (filter (fun x => dead live x.1 = false) st, (base.size gone, map_fold (fun _ d n => n + Z.of_nat (length d)) 0 gone)).

Definition total_size (st : ChunkStore) : Z := map_fold (fun _ d n => n + Z.of_nat (length d)) 0 st.

(** ** Words *)

Definition to_be_bytes (w : Z) : list Z := [u8 (w .>> 24); u8 (w .>> 16); u8 (w .>> 8); u8 w].

Definition chunk_words : nat := Z.to_nat (CHUNK_SIZE / 4).

(** The loop takes a chunk's worth of words a turn. *)
Fixpoint put_loop (fuel : nat) (st : ChunkStore) (words : list Z) : ChunkStore * list ChunkHash :=
  match fuel, words with
  | _, [] => (st, [])
  | O, _ => (st, [])
  | S fuel, _ =>
      let '(st, h) := put st (mjoin (to_be_bytes <$> take chunk_words words)) in
      let '(st, hs) := put_loop fuel st (drop chunk_words words) in
      (st, h :: hs)
  end.

Definition put_words_as_chunks (st : ChunkStore) (words : list Z) : ChunkStore * list ChunkHash := put_loop (length words) st words.

Fixpoint from_be_chunks (bytes : list Z) : list Z :=
  match bytes with
  | a :: b :: c :: d :: bytes => ((a .<< 24) .| (b .<< 16) .| (c .<< 8) .| d) :: from_be_chunks bytes
  | _ => []
  end.

Fixpoint get_chunks_as_words (st : ChunkStore) (hashes : list ChunkHash) : result (list Z) :=
  match hashes with
  | [] => Ok []
  | h :: hashes =>
      match get st h with
      | Err e => Err e
      | Ok bytes =>
          if negb (Z.of_nat (length bytes) mod 4 =? 0) then Err InvalidData
          else match get_chunks_as_words st hashes with Ok ws => Ok (from_be_chunks bytes ++ ws) | Err e => Err e end
      end
  end.

End Store.

End ChunkStore.
