(* ===== verification/ChunkClaims.v ===== *)
(** * Correctness of the chunk store

    What is proved of ChunkStore.v: a chunk's name is its hash and no temporary
    file has a chunk's name, so words written as chunks read back after any
    later writes, crashes and collections that keep them, and a collection
    removes exactly the chunks that are not live. *)

From Stdlib Require Import Ascii.
From stdpp Require Import strings.
From S2P Require Import Prelude BlockNode Snapshot Packet PacketProofs ChunkStore.
Import BlockNode ChunkStore.

#[local] Open Scope Z_scope.
#[local] Open Scope word_scope.

Module ChunkClaims.

(** ** Names *)

Definition is_byte (b : Z) : Prop := 0 <= b < 256.
Definition is_hash (h : ChunkHash) : Prop := length h = 32%nat /\ Forall is_byte h.

Definition pair_ok (b : Z) : bool :=
  bool_decide (hex_nibble (HEX (b .>> 4)) = Some (b .>> 4)) && bool_decide (hex_nibble (HEX (b .& 0x0f)) = Some (b .& 0x0f)) &&
  (((b .>> 4) .<< 4) .| (b .& 0x0f) =? b).

Lemma byte_pair (b : Z) : is_byte b ->
  hex_nibble (HEX (b .>> 4)) = Some (b .>> 4) /\ hex_nibble (HEX (b .& 0x0f)) = Some (b .& 0x0f) /\
  ((b .>> 4) .<< 4) .| (b .& 0x0f) = b.
Proof.
  intros [Hb Hb'].
  assert (forallb (fun n => pair_ok (Z.of_nat n)) (seq 0 256) = true) as H by (vm_compute; reflexivity).
  rewrite forallb_forall in H. specialize (H (Z.to_nat b)). rewrite Z2Nat.id in H by done.
  specialize (H ltac:(apply in_seq; lia)). unfold pair_ok in H.
  rewrite !andb_true_iff, !bool_decide_eq_true, Z.eqb_eq in H. tauto.
Qed.

Lemma parse_encode (h : list Z) : Forall is_byte h -> parse_pairs (hex_encode h) = Some h.
Proof.
  induction 1 as [|b h Hb _ IH]; [done|]. destruct (byte_pair b Hb) as (H1 & H2 & H3).
  cbn [hex_encode parse_pairs]. rewrite H1, H2, IH. cbn. by rewrite H3.
Qed.

Lemma encode_length (h : list Z) : String.length (hex_encode h) = (2 * length h)%nat.
Proof. induction h as [|b h IH]; [done|]. cbn [hex_encode String.length length]. rewrite IH. lia. Qed.

Lemma substring_all (s : string) : String.substring 0 (String.length s) s = s.
Proof. induction s as [|c s IH]; [done|]. cbn. by rewrite IH. Qed.

(** The two parts of a chunk's path. *)
Lemma path_parts (b : Z) (h : list Z) :
  path_for (b :: h) = (hex_encode [b], hex_encode h +:+ ".chunk").
Proof. unfold path_for. cbn [hex_encode String.length Nat.sub String.substring]. rewrite Nat.sub_0_r, substring_all. by destruct (hex_encode h). Qed.

Lemma app_cons (c : ascii) (s t : string) : String c s +:+ t = String c (s +:+ t).
Proof. reflexivity. Qed.

Lemma append_length (s t : string) : String.length (s +:+ t) = (String.length s + String.length t)%nat.
Proof. induction s as [|c s IH]; [done|]. rewrite app_cons. cbn [String.length]. by rewrite IH. Qed.

Lemma index_dot (s e : string) : is_Some (String.index 0 "." (s +:+ String "." e)).
Proof.
  induction s as [|c s [n Hn]]; [exists 0%nat; by destruct e|]. rewrite app_cons.
  cbn [String.index]. destruct (String.prefix _ _); [by eexists|]. rewrite Hn. by eexists.
Qed.

Lemma cut_at_dot (s e : string) : String.index 0 "." e = None -> before_last_dot (s +:+ String "." e) = s.
Proof.
  intros He. induction s as [|c s IH]; [change ("" +:+ String "." e) with (String "." e); cbn [before_last_dot]; by rewrite He|].
  rewrite app_cons. cbn [before_last_dot].
  destruct (index_dot s e) as [n ->]. by rewrite IH.
Qed.

Lemma stem_at_dot (s e : string) : s <> "" -> String.index 0 "." e = None -> file_stem (s +:+ String "." e) = s.
Proof. intros Hs He. unfold file_stem. rewrite cut_at_dot by done. by destruct s. Qed.

Definition chunk_of (p : string * string) : option ChunkHash := parse_hex62 (file_stem p.2) p.1.

Lemma path_is_chunk (h : ChunkHash) : is_hash h -> chunk_of (path_for h) = Some h.
Proof.
  intros [Hl Hb]. destruct h as [|b h]; [done|]. rewrite path_parts. unfold chunk_of. cbn [fst snd].
  injection Hl as Hl. rewrite stem_at_dot; [|by destruct h|done].
  unfold parse_hex62. rewrite !encode_length, Hl. cbn [length Nat.mul Nat.add Nat.eqb andb].
  change (hex_encode [b] +:+ hex_encode h) with (hex_encode (b :: h)). by apply parse_encode.
Qed.

Lemma tmp_no_chunk (h : ChunkHash) : is_hash h -> chunk_of (tmp_for h) = None.
Proof.
  intros [Hl _]. destruct h as [|b h]; [done|]. unfold tmp_for. rewrite path_parts. unfold chunk_of. cbn [fst snd].
  injection Hl as Hl. change ".tmp"%string with (String "." "tmp").
  rewrite stem_at_dot; [|by destruct (hex_encode h)|done].
  unfold parse_hex62. by rewrite append_length, !encode_length, Hl.
Qed.

Lemma path_inj (h h' : ChunkHash) : is_hash h -> is_hash h' -> path_for h = path_for h' -> h = h'.
Proof. intros H H' E. apply path_is_chunk in H, H'. rewrite E in H. congruence. Qed.

Lemma tmp_not_path (h h' : ChunkHash) : is_hash h -> is_hash h' -> tmp_for h <> path_for h'.
Proof. intros H H' E. apply tmp_no_chunk in H. apply path_is_chunk in H'. rewrite E in H. congruence. Qed.

(** ** Histories *)

(** What happens to a store: a write, a bank's words written, a write cut off,
    a collection. *)
Inductive op : Type :=
| Put (data : list Z)
| PutWords (words : list Z)
| Crash (data : list Z) (n : nat)
| Gc (live : list ChunkHash).

(** The chunks a bank is cut into. *)
Fixpoint cut (fuel : nat) (words : list Z) : list (list Z) :=
  match fuel, words with
  | _, [] => []
  | O, _ => []
  | S fuel, _ => mjoin (to_be_bytes <$> take chunk_words words) :: cut fuel (drop chunk_words words)
  end.

Definition bank_chunks (words : list Z) : list (list Z) := cut (length words) words.

Definition written (o : op) : list (list Z) :=
  match o with Put d => [d] | PutWords ws => bank_chunks ws | Crash _ _ => [] | Gc _ => [] end.

Definition keeps (hs : list ChunkHash) (o : op) : Prop := match o with Gc live => hs ⊆ live | _ => True end.

Definition crash_free (o : op) : Prop := match o with Crash _ _ => False | _ => True end.

Section Laws.

Context (blake3 : list Z -> ChunkHash) (hash_ok : forall d, is_hash (blake3 d)).

Definition step (st : ChunkStore) (o : op) : ChunkStore :=
  match o with
  | Put d => (put blake3 st d).1
  | PutWords ws => (put_words_as_chunks blake3 st ws).1
  | Crash d n => put_crashed blake3 st d n
  | Gc live => (gc st live).1
  end.

Definition history (st : ChunkStore) (os : list op) : ChunkStore := foldl step st os.

Definition no_collision (D : list (list Z)) : Prop :=
  forall d d', d ∈ D -> d' ∈ D -> blake3 d = blake3 d' -> d = d'.

Definition puts (st : ChunkStore) (ds : list (list Z)) : ChunkStore := foldl (fun st d => (put blake3 st d).1) st ds.

Lemma put_words_puts (st : ChunkStore) (words : list Z) :
  put_words_as_chunks blake3 st words = (puts st (bank_chunks words), blake3 <$> bank_chunks words).
Proof.
  unfold put_words_as_chunks, bank_chunks. generalize (length words) as fuel. intros fuel. revert st words.
  induction fuel as [|fuel IH]; intros st [|w ws]; try done.
  cbn [put_loop cut]. destruct (put _ st _) as [st' h] eqn:E. rewrite IH.
  assert (h = blake3 (mjoin (to_be_bytes <$> take chunk_words (w :: ws)))) as ->.
  { unfold put in E. destruct (st !! _); congruence. }
  unfold puts. cbn [foldl fmap list_fmap]. by rewrite E.
Qed.

(** *** What a write and a collection do to a chunk *)

Lemma put_lookup (st : ChunkStore) (d : list Z) (h : ChunkHash) : is_hash h ->
  (put blake3 st d).1 !! path_for h =
    match st !! path_for h with Some x => Some x | None => if decide (h = blake3 d) then Some d else None end.
Proof.
  intros Hh. unfold put. destruct (decide (h = blake3 d)) as [->|Hne].
  - destruct (st !! _) eqn:E; cbn [fst]; [by rewrite E|]. apply lookup_insert_eq.
  - destruct (st !! path_for (blake3 d)) eqn:E; cbn [fst]; [by destruct (st !! path_for h)|].
    rewrite lookup_insert_ne by (intros Hp; apply Hne; symmetry; by apply path_inj).
    rewrite lookup_delete_ne, lookup_insert_ne by (by apply tmp_not_path). by destruct (st !! path_for h).
Qed.

Lemma crash_lookup (st : ChunkStore) (d : list Z) (n : nat) (h : ChunkHash) : is_hash h ->
  put_crashed blake3 st d n !! path_for h = st !! path_for h.
Proof.
  intros Hh. unfold put_crashed. destruct (st !! path_for (blake3 d)); [done|].
  by rewrite lookup_insert_ne by (by apply tmp_not_path).
Qed.

Lemma gc_lookup (st : ChunkStore) (live : list ChunkHash) (p : string * string) :
  (gc st live).1 !! p = if dead live p then None else st !! p.
Proof.
  unfold gc. cbn [fst]. rewrite map_lookup_filter. destruct (st !! p); cbn; [|by destruct (dead live p)].
  destruct (dead live p) eqn:E; [by rewrite option_guard_False by (cbn; congruence)|by rewrite option_guard_True].
Qed.

Lemma dead_path (live : list ChunkHash) (h : ChunkHash) : is_hash h ->
  dead live (path_for h) = negb (bool_decide (h ∈ live)).
Proof. intros Hh. unfold dead. pose proof (path_is_chunk h Hh) as E. unfold chunk_of in E. by rewrite E. Qed.

(** *** What every history keeps *)

(** A stored chunk is one that was written, under its own hash. *)
Definition sound (D : list (list Z)) (st : ChunkStore) : Prop :=
  forall h d, is_hash h -> st !! path_for h = Some d -> blake3 d = h /\ d ∈ D.

Lemma put_sound (D : list (list Z)) (st : ChunkStore) (d : list Z) : sound D st -> d ∈ D -> sound D (put blake3 st d).1.
Proof.
  intros Hs Hd h x Hh. rewrite put_lookup by done. destruct (st !! path_for h) eqn:E; [intros [= <-]; by apply Hs|].
  case_decide; [|done]. intros [= <-]. done.
Qed.

Lemma puts_sound (D : list (list Z)) (st : ChunkStore) (ds : list (list Z)) : sound D st -> ds ⊆ D -> sound D (puts st ds).
Proof.
  revert st. induction ds as [|d ds IH]; intros st Hs Hd; [done|]. apply IH; [apply put_sound; set_solver|set_solver].
Qed.

Lemma step_sound (D : list (list Z)) (st : ChunkStore) (o : op) : sound D st -> written o ⊆ D -> sound D (step st o).
Proof.
  intros Hs Hw. destruct o as [d|ws|d n|live]; cbn [step].
  - apply put_sound; set_solver.
  - rewrite put_words_puts. by apply puts_sound.
  - intros h x Hh. rewrite crash_lookup by done. by apply Hs.
  - intros h x Hh. rewrite gc_lookup. destruct (dead _ _); [done|]. by apply Hs.
Qed.

Lemma history_sound (D : list (list Z)) (os : list op) (st : ChunkStore) :
  sound D st -> mjoin (written <$> os) ⊆ D -> sound D (history st os).
Proof.
  revert st. induction os as [|o os IH]; intros st Hs Hw; [done|]. cbn in Hw. apply IH; [apply step_sound|]; set_solver.
Qed.

(** A chunk's contents are there. *)
Definition stored (st : ChunkStore) (d : list Z) : Prop := st !! path_for (blake3 d) = Some d.

Lemma put_keeps (st : ChunkStore) (d x : list Z) : stored st x -> stored (put blake3 st d).1 x.
Proof. unfold stored. intros E. by rewrite put_lookup, E. Qed.

Lemma puts_keeps (st : ChunkStore) (ds : list (list Z)) (x : list Z) : stored st x -> stored (puts st ds) x.
Proof. revert st. induction ds as [|d ds IH]; intros st E; [done|]. by apply IH, put_keeps. Qed.

Lemma step_keeps (hs : list ChunkHash) (st : ChunkStore) (o : op) (x : list Z) :
  keeps hs o -> blake3 x ∈ hs -> stored st x -> stored (step st o) x.
Proof.
  intros Hk Hx E. destruct o as [d|ws|d n|live]; cbn [step].
  - by apply put_keeps.
  - rewrite put_words_puts. by apply puts_keeps.
  - unfold stored. by rewrite crash_lookup.
  - unfold stored. rewrite gc_lookup, dead_path, bool_decide_true by (done || by apply Hk). done.
Qed.

Lemma history_keeps (hs : list ChunkHash) (os : list op) (st : ChunkStore) (x : list Z) :
  Forall (keeps hs) os -> blake3 x ∈ hs -> stored st x -> stored (history st os) x.
Proof.
  intros Hk Hx. revert st. induction Hk as [|o os Ho _ IH]; intros st E; [done|]. by apply IH, (step_keeps hs).
Qed.

Lemma puts_store (D : list (list Z)) (st : ChunkStore) (ds : list (list Z)) :
  no_collision D -> sound D st -> ds ⊆ D -> Forall (stored (puts st ds)) ds.
Proof.
  intros Hn. revert st. induction ds as [|d ds IH]; intros st Hs Hd; [done|].
  change (puts st (d :: ds)) with (puts (put blake3 st d).1 ds). constructor.
  - apply puts_keeps. unfold stored. rewrite put_lookup by done. destruct (st !! _) eqn:E; [|by rewrite decide_True].
    destruct (Hs _ _ (hash_ok d) E) as [E1 E2]. f_equal. apply Hn; [done|set_solver|done].
  - apply IH; [apply put_sound; set_solver|set_solver].
Qed.

(** *** Banks *)

Lemma join_bytes (x : list Z) (l : list (list Z)) : mjoin (x :: l) = x ++ mjoin l.
Proof. reflexivity. Qed.

Lemma bytes_words (ws : list Z) : Forall PacketProofs.is_u32 ws -> from_be_chunks (mjoin (to_be_bytes <$> ws)) = ws.
Proof.
  induction 1 as [|w ws Hw _ IH]; [done|]. cbn [fmap list_fmap mjoin list_join app to_be_bytes from_be_chunks].
  f_equal; [|done]. by apply PacketProofs.be32_split.
Qed.

Lemma bytes_whole (ws : list Z) : Z.of_nat (length (mjoin (to_be_bytes <$> ws))) mod 4 =? 0 = true.
Proof.
  apply Z.eqb_eq. assert (length (mjoin (to_be_bytes <$> ws)) = (length ws * 4)%nat) as ->.
  { induction ws as [|w ws IH]; [done|]. rewrite fmap_cons. rewrite join_bytes. rewrite length_app, IH. cbn. lia. }
  rewrite Nat2Z.inj_mul. apply Z_mod_mult.
Qed.

Lemma get_cut (st : ChunkStore) (fuel : nat) (words : list Z) : (length words <= fuel)%nat -> Forall PacketProofs.is_u32 words ->
  Forall (stored st) (cut fuel words) -> get_chunks_as_words st (blake3 <$> cut fuel words) = Ok words.
Proof.
  revert words. induction fuel as [|fuel IH]; intros [|w ws] Hl Hw; try done; [cbn in Hl; lia|].
  set (words := w :: ws) in *. change (cut (S fuel) words) with
    (mjoin (to_be_bytes <$> take chunk_words words) :: cut fuel (drop chunk_words words)).
  intros [Hd Hr]%Forall_cons. rewrite fmap_cons. cbn [get_chunks_as_words]. unfold get.
  rewrite Hd, bytes_whole. cbn [negb]. rewrite IH; [|rewrite length_drop|by apply Forall_drop|done].
  - rewrite bytes_words by (by apply Forall_take). by rewrite take_drop.
  - assert (0 < chunk_words)%nat by (vm_compute; lia). lia.
Qed.

(** *** Collections *)

Definition size_of (st : ChunkStore) : Z := map_fold (fun _ d n => n + Z.of_nat (length d)) 0 st.

Lemma size_insert (st : ChunkStore) (p : string * string) (d : list Z) :
  st !! p = None -> size_of (<[p := d]> st) = size_of st + Z.of_nat (length d).
Proof. intros E. unfold size_of. rewrite map_fold_insert_L; [done|intros; lia|done]. Qed.

Lemma size_split (f : string * string -> bool) (st : ChunkStore) :
  size_of (filter (fun x => f x.1 = false) st) + size_of (filter (fun x => f x.1 = true) st) = size_of st.
Proof.
  induction st as [|p d st Hp IH] using map_ind; [done|]. rewrite size_insert by done. rewrite <- IH.
  destruct (f p) eqn:E.
  - rewrite map_filter_insert_False by (cbn; congruence). rewrite delete_id by done.
    rewrite map_filter_insert_True, size_insert by (done || by rewrite map_lookup_filter, Hp). lia.
  - rewrite map_filter_insert_True, size_insert by (done || by rewrite map_lookup_filter, Hp).
    rewrite map_filter_insert_False by (cbn; congruence). rewrite delete_id by done. lia.
Qed.

(** Every file is a chunk's. *)
Definition only_chunks (st : ChunkStore) : Prop := forall p, is_Some (st !! p) -> exists h, is_hash h /\ p = path_for h.

Lemma put_only (st : ChunkStore) (d : list Z) : only_chunks st -> only_chunks (put blake3 st d).1.
Proof.
  intros Ho p. unfold put. destruct (st !! path_for _); [apply Ho|]. cbn [fst].
  destruct (decide (p = path_for (blake3 d))) as [->|Hp]; [intros _; by exists (blake3 d)|].
  rewrite lookup_insert_ne by done. destruct (decide (p = tmp_for (blake3 d))) as [->|Ht].
  - rewrite lookup_delete_eq. by intros [].
  - rewrite lookup_delete_ne, lookup_insert_ne by done. apply Ho.
Qed.

Lemma history_only (os : list op) (st : ChunkStore) :
  Forall crash_free os -> only_chunks st -> only_chunks (history st os).
Proof.
  intros Hc. revert st. induction Hc as [|o os Hc _ IH]; intros st Ho; [done|]. apply IH.
  destruct o as [d|ws|d n|live]; cbn [step]; [by apply put_only| |done|].
  - rewrite put_words_puts. cbn [fst]. revert st Ho. induction (bank_chunks ws) as [|d ds IHd]; intros st Ho; [done|].
    by apply IHd, put_only.
  - intros p. rewrite gc_lookup. destruct (dead live p); [by intros []|apply Ho].
Qed.

End Laws.

(** ** The claims *)

(** C34: a bank of memory written as chunks reads back.  In a store with any
    history, words written are read back from the hashes the write returned
    after any further writes, writes cut off by a crash and collections that
    are told of those hashes, when the hash function does not collide on what
    the store was given. *)
Theorem chunks_survive (blake3 : list Z -> ChunkHash) (before after : list op) (words : list Z) :
  (forall d, is_hash (blake3 d)) ->
  no_collision blake3 (mjoin (written <$> before) ++ bank_chunks words ++ mjoin (written <$> after)) ->
  Forall PacketProofs.is_u32 words ->
  let saved := put_words_as_chunks blake3 (history blake3 ∅ before) words in
  Forall (keeps saved.2) after ->
  get_chunks_as_words (history blake3 saved.1 after) saved.2 = Ok words.
Proof.
  intros Hh Hn Hw saved. subst saved. rewrite put_words_puts. cbn [fst snd]. intros Hk. apply get_cut; [done|done|].
  set (D := _ ++ _ ++ _) in Hn. assert (sound blake3 D (history blake3 ∅ before)) as Hs.
  { apply history_sound; [done|intros h d _; by rewrite lookup_empty|subst D; set_solver]. }
  apply puts_store with (ds := bank_chunks words) in Hs; [|done|done|subst D; set_solver].
  rewrite Forall_forall in Hs |- *. intros d Hd. eapply history_keeps; [done|exact Hk| |by apply Hs].
  apply list_elem_of_fmap. by exists d.
Qed.

(** A collection frees what it says and no more.  After any history without
    a crash, exactly the chunks that are live are left, their contents
    unchanged; and in every store what is left and the bytes reported as
    freed add up to what was there. *)
Theorem gc_exact (blake3 : list Z -> ChunkHash) (os : list op) (live : list ChunkHash) :
  (forall d, is_hash (blake3 d)) ->
  (forall st, total_size (gc st live).1 + (gc st live).2.2 = total_size st) /\
  (Forall crash_free os -> Forall is_hash live -> forall p,
    (gc (history blake3 ∅ os) live).1 !! p =
      if bool_decide (p ∈ path_for <$> live) then history blake3 ∅ os !! p else None).
Proof.
  intros Hh. split; [intros st; apply size_split|]. intros Hc Hl p. rewrite gc_lookup.
  assert (only_chunks (history blake3 ∅ os)) as Ho.
  { apply history_only; [done|done|]. intros q. rewrite lookup_empty. by intros []. }
  destruct (history blake3 ∅ os !! p) as [d|] eqn:E; [|by destruct (dead live p), (bool_decide _)].
  destruct (Ho p ltac:(by eexists)) as (h & Hh' & ->). rewrite dead_path by done.
  assert (path_for h ∈ path_for <$> live <-> h ∈ live) as Hiff.
  { rewrite list_elem_of_fmap. split; [|by exists h]. intros (h' & Hp & Hin). rewrite Forall_forall in Hl.
    apply path_inj in Hp; [by subst|done|by apply Hl]. }
  rewrite (bool_decide_ext _ _ Hiff). by destruct (bool_decide (h ∈ live)).
Qed.

(** A write cut off leaves a file that no collection removes: its stem still
    carries the chunk's extension, so that it does not parse as a hash. *)
Theorem orphan_survives_gc (blake3 : list Z -> ChunkHash) (st : ChunkStore) (d : list Z) (n : nat) (live : list ChunkHash) :
  (forall d, is_hash (blake3 d)) -> st !! path_for (blake3 d) = None ->
  (gc (put_crashed blake3 st d n) live).1 !! tmp_for (blake3 d) = Some (take n d).
Proof.
  intros Hh E. rewrite gc_lookup. unfold put_crashed. rewrite E. unfold dead.
  pose proof (tmp_no_chunk _ (Hh d)) as Ht. unfold chunk_of in Ht. rewrite Ht. apply lookup_insert_eq.
Qed.

(** ** Witnesses *)

(** A checksum in the first byte, the rest the data's first bytes. *)
Definition toy_hash (d : list Z) : ChunkHash :=
  u8 (foldr Z.add (Z.of_nat (length d)) d) :: take 31 ((u8 <$> d) ++ replicate 31 0).

Lemma toy_hash_ok (d : list Z) : is_hash (toy_hash d).
Proof.
  split.
  - unfold toy_hash. cbn [length]. rewrite length_take, length_app, length_replicate. lia.
  - assert (forall x, is_byte (u8 x)) as Hu by (intros x; unfold is_byte, u8, wrap; change (2 ^ 8) with 256; apply Z.mod_pos_bound; lia).
    constructor; [apply Hu|]. apply Forall_take, Forall_app; split.
    + apply Forall_fmap, Forall_true, Hu.
    + apply Forall_replicate. unfold is_byte. lia.
Qed.

Definition old_bank : list op := [Put [7; 8]; PutWords [5; 6]].

Definition later : list op := [Put [1]; Crash [9; 9] 1; Gc [toy_hash [0; 0; 0; 1; 255; 255; 255; 255]]; PutWords [5; 6]].

Lemma chunks_survive_witness :
  let saved := put_words_as_chunks toy_hash (history toy_hash ∅ old_bank) [1; 2 ^ 32 - 1] in
  get_chunks_as_words (history toy_hash saved.1 later) saved.2 = Ok [1; 2 ^ 32 - 1].
Proof.
  apply (chunks_survive toy_hash old_bank later [1; 2 ^ 32 - 1] toy_hash_ok).
  - intros d d' Hd Hd'. vm_compute in Hd, Hd'. rewrite ?list_elem_of_cons in Hd, Hd'.
    set_solver.
  - repeat constructor; vm_compute; discriminate || reflexivity.
  - repeat (apply Forall_cons; split); try done. cbn [keeps later]. intros h Hh. vm_compute in Hh |- *. exact Hh.
Defined.

Lemma gc_exact_witness : forall p,
  (gc (history toy_hash ∅ old_bank) [toy_hash [7; 8]]).1 !! p =
    if bool_decide (p ∈ path_for <$> [toy_hash [7; 8]]) then history toy_hash ∅ old_bank !! p else None.
Proof.
  apply (gc_exact toy_hash old_bank [toy_hash [7; 8]] toy_hash_ok); [repeat constructor|].
  constructor; [apply toy_hash_ok|constructor].
Defined.

End ChunkClaims.
