(* ===== verification/DevMap.v ===== *)
(** * The sparse decode table of the physical bus

    [SparseDeviceMap] of src/src/ppmem/devmap.rs: one entry per 4 KB of a
    40-bit space, stored as host mappings of shared pages.  The host's part is
    explicit: what each page of the reservation is mapped to, and which calls
    into the host fail. *)

From S2P Require Import Prelude BlockNode.
Import BlockNode.

#[local] Open Scope Z_scope.
#[local] Open Scope word_scope.

Module DevMap.

Definition PHYS_BITS : Z := 40.
Definition PHYS_MASK : Z := (1 .<< PHYS_BITS) - 1.
Definition SLOT_SHIFT : Z := 12.
Definition SLOTS : Z := 1 .<< (PHYS_BITS - SLOT_SHIFT).
Definition ENTRY_BYTES : Z := 16.
Definition TABLE_BYTES : Z := SLOTS * ENTRY_BYTES.
Definition MIN_PAGE_BYTES : Z := 64 * 1024.
Definition POOL_PAGES : Z := 16.
Definition FIRST_FAULTS : Z := 8.

Inductive PageState : Type := Unmapped | Lazy (k : Z) | Const (k : Z) | Private (slot : Z).

#[export] Instance PageState_eq_dec : EqDecision PageState.
Proof. solve_decision. Defined.

(** What a page of the reservation is a view of. *)
Inductive View : Type := ConstView (k : Z) | PoolView (slot : Z).

Section Table.

Context {Entry : Type} `{EqDecision Entry}.

(** A shared page whose entries are all one device. *)
Record ConstObj : Type := mkConst { dev : Entry; mem : list Entry }.

(** [State] and [Inner].  The pool's pages are numbered through its objects;
    [pool_mem] has the contents of those written.  [free] has the end of the
    vector first.  [views] is the host's mapping of the reservation, [host] how
    the coming calls into the host turn out, all well when it is used up. *)
Record Inner : Type := mkInner {
  per_page : Z;
  pages : list PageState;
  consts : list ConstObj;
  pool : Z;
  pool_mem : gmap Z (list Entry);
  free : list Z;
  dflt : option Z;
  views : gmap Z View;
  faults : Z;
  first_faults : list Z;
  host : list bool;
}.

#[local] Instance eta_Inner : Settable Inner := fun m =>
  mkInner (per_page m) (pages m) (consts m) (pool m) (pool_mem m) (free m) (dflt m) (views m) (faults m) (first_faults m) (host m).

(** A computation on the table: a panic is [None], an [io::Error] keeps the
    state it was raised in. *)
Definition M (A : Type) : Type := Inner -> option (Inner * result A).

#[local] Instance M_ret : MRet M := fun A a m => Some (m, Ok a).
#[local] Instance M_bind : MBind M := fun A B f x m =>
  match x m with
  | None => None
  | Some (m, Err e) => Some (m, Err e)
  | Some (m, Ok a) => f a m
  end.

Definition gets {A} (f : Inner -> A) : M A := fun m => Some (m, Ok (f m)).
Definition upd (f : Inner -> Inner) : M unit := fun m => Some (f m, Ok tt).
Definition lift {A} (x : option A) : M A := fun m => (fun a => (m, Ok a)) <$> x.
Definition fail {A} : M A := fun m => Some (m, Err OtherError).
Definition or_else {A} (x : M A) (cleanup : M unit) : M A := fun m =>
  match x m with
  | Some (m, Err e) => match cleanup m with Some (m, _) => Some (m, Err e) | None => None end
  | r => r
  end.

(** A call into the host. *)
Definition host_call : M unit := fun m =>
  match host m with
  | [] => Some (m, Ok tt)
  | b :: l => Some (m <| host := l |>, if b then Ok tt else Err OtherError)
  end.

(** [view]: the page of the table becomes a read-only view. *)
Definition view (page : Z) (v : View) : M unit := host_call ≫= fun _ => upd (fun m => m <| views ::= <[page := v]> |>).

(** [consts.iter().position] *)
Fixpoint position (cs : list ConstObj) (d : Entry) (i : Z) : option Z :=
  match cs with
  | [] => None
  | c :: cs => if decide (dev c = d) then Some i else position cs d (i + 1)
  end.

(** A new object, its page written through the staging view. *)
Definition const_for (d : Entry) : M Z :=
  cs ← gets consts;
  match position cs d 0 with
  | Some k => mret k
  | None =>
      host_call;;
      host_call;;
      upd (fun m => m <| consts := cs ++ [mkConst d (replicate (Z.to_nat (per_page m)) d)] |>);;
      mret (Z.of_nat (length cs))
  end.

Definition alloc_slot : M Z :=
  fr ← gets free;
  match fr with
  | s :: fr => upd (fun m => m <| free := fr |>);; mret s
  | [] =>
      obj ← gets pool;
      host_call;;
      upd (fun m => m <| pool := obj + 1 |> <| free := seqZ (obj * POOL_PAGES + 1) (POOL_PAGES - 1) |>);;
      mret (obj * POOL_PAGES)
  end.

Definition release (old : PageState) : M unit :=
  match old with Private s => upd (fun m => m <| free ::= cons s |>) | _ => mret tt end.

Definition set_page (page : Z) (p : PageState) : M unit := upd (fun m => m <| pages ::= <[Z.to_nat page := p]> |>).

Definition page_state (page : Z) : M PageState := ps ← gets pages; lift (aget ps page).

Definition map_const (page : Z) (d : Entry) : M unit :=
  k ← const_for d;
  old ← page_state page;
  match old with
  | Const j | Lazy j => if j =? k then mret tt else
      match old with
      | Lazy _ => set_page page (Lazy k)
      | _ => view page (ConstView k);; set_page page (Const k);; release old
      end
  | Unmapped => set_page page (Lazy k)
  | Private _ => view page (ConstView k);; set_page page (Const k);; release old
  end.

(** What is read through a view. *)
Definition view_page (m : Inner) (v : View) : option (list Entry) :=
  match v with
  | ConstView k => mem <$> aget (consts m) k
  | PoolView s => pool_mem m !! s
  end.

Definition uniform (k : Z) : M (list Entry) :=
  m ← gets id; c ← lift (aget (consts m) k); mret (replicate (Z.to_nat (per_page m)) (dev c)).

(** A private page is read through the table. *)
Definition contents (page : Z) : M (list Entry) :=
  p ← page_state page;
  match p with
  | Unmapped => d ← gets dflt; match d with Some k => uniform k | None => fail end
  | Const k | Lazy k => uniform k
  | Private _ => m ← gets id; lift (v ← views m !! page; view_page m v)
  end.

(** [buf[lo..hi].fill(dev)] *)
Definition overwrite (buf : list Entry) (lo hi : Z) (d : Entry) : list Entry :=
  take (Z.to_nat lo) buf ++ replicate (Z.to_nat (hi - lo)) d ++ drop (Z.to_nat hi) buf.

Definition all_same (l : list Entry) (d : Entry) : bool := forallb (fun e => bool_decide (e = d)) l.

Definition modify (page lo hi : Z) (d : Entry) : M unit :=
  buf ← contents page;
  old ← page_state page;
  if all_same (drop (Z.to_nat lo) (take (Z.to_nat hi) buf)) d && negb (bool_decide (old = Unmapped)) then mret tt
  else
    let buf := overwrite buf lo hi d in
    first ← lift (buf !! 0%nat);
    if all_same buf first then map_const page first
    else
      slot ← alloc_slot;
      or_else (host_call;; upd (fun m => m <| pool_mem ::= <[slot := buf]> |>);; view page (PoolView slot))
        (upd (fun m => m <| free ::= cons slot |>));;
      set_page page (Private slot);;
      release old.

(** The page becomes a view of constant page [k]; a miss is counted. *)
Definition fault_view (slot k : Z) (miss : bool) (m : Inner) : option (Inner * bool) :=
  let page := slot / per_page m in
  match view page (ConstView k) m with
  | Some (m, Ok _) =>
      let m := m <| pages ::= <[Z.to_nat page := Const k]> |> in
      Some (if miss then
              m <| faults ::= (fun n => u64 (n + 1)) |>
                <| first_faults ::= (fun l => if Z.of_nat (length l) <? FIRST_FAULTS then l ++ [slot .<< SLOT_SHIFT] else l) |>
            else m, true)
  | Some (m, Err _) => Some (m, false)
  | None => None
  end.

(** A load from a reserved page: the handler maps what was filled there or the
    default, and answers whether to try again. *)
Definition fault (slot : Z) (m : Inner) : option (Inner * bool) :=
  p ← aget (pages m) (slot / per_page m);
  match p with
  | Unmapped => match dflt m with Some k => fault_view slot k true m | None => Some (m, false) end
  | Lazy k => fault_view slot k false m
  | Const _ | Private _ => Some (m, true)
  end.

(** [*base().add(slot)]: one load, retried once the handler has mapped the
    page; [None] when it cannot. *)
Definition entry_at (m : Inner) (slot : Z) : option Entry :=
  v ← views m !! (slot / per_page m); l ← view_page m v; aget l (slot mod per_page m).

Definition load (m : Inner) (slot : Z) : option (Inner * Entry) :=
  match views m !! (slot / per_page m) with
  | Some _ => e ← entry_at m slot; Some (m, e)
  | None => '(m, again) ← fault slot m; if again : bool then e ← entry_at m slot; Some (m, e) else None
  end.

Definition new (granularity : Z) (hostcalls : list bool) : Inner :=
  let page_bytes := Z.max granularity MIN_PAGE_BYTES in
  mkInner (page_bytes / ENTRY_BYTES) (replicate (Z.to_nat (TABLE_BYTES / page_bytes)) Unmapped) [] 0 ∅ [] None ∅ 0 [] hostcalls.

Definition set_default (d : Entry) : M unit := k ← const_for d; upd (fun m => m <| dflt := Some k |>).

(** A turn per page. *)
Fixpoint fill_loop (fuel : nat) (slot stop : Z) (d : Entry) : M unit :=
  match fuel with
  | O => mret tt
  | S fuel =>
      if slot <? stop then
        per ← gets per_page;
        let page := slot / per in
        let page_start := page * per in
        let hi := Z.min stop (page_start + per) in
        (if (slot =? page_start) && (hi =? page_start + per) then map_const page d
         else modify page (slot - page_start) (hi - page_start) d);;
        fill_loop fuel hi stop d
      else mret tt
  end.

Definition turns (per count : Z) : nat := Z.to_nat (count / per + 2).

Definition fill (first count : Z) (d : Entry) : M unit :=
  if (first + count <? 2 ^ 64) && (first + count <=? SLOTS) then
    per ← gets per_page; fill_loop (turns per count) first (first + count) d
  else lift None.

Definition fill_bytes (start stop : Z) (d : Entry) : M unit :=
  if start <? stop then
    let first := start .>> SLOT_SHIFT in
    let last := (stop - 1) .>> SLOT_SHIFT in
    fill first (last - first + 1) d
  else lift None.

Definition is_mapped (m : Inner) (slot : Z) : option bool :=
  p ← aget (pages m) (slot / per_page m); Some (negb (bool_decide (p = Unmapped))).

Definition get (m : Inner) (slot : Z) : option (option Entry) :=
  p ← aget (pages m) (slot / per_page m);
  match p with
  | Unmapped => Some None
  | Lazy k => c ← aget (consts m) k; Some (Some (dev c))
  | Const _ | Private _ => e ← entry_at m slot; Some (Some e)
  end.

(** [for s in slot..hi] *)
Definition slots_are (m : Inner) (slot hi : Z) (d : Entry) : option bool :=
  foldl (fun r s => ok ← r; if ok : bool then e ← entry_at m s; Some (bool_decide (e = d)) else Some false)
    (Some true) (seqZ slot (hi - slot)).

Fixpoint all_loop (fuel : nat) (m : Inner) (slot stop : Z) (d : Entry) : option bool :=
  match fuel with
  | O => Some true
  | S fuel =>
      if slot <? stop then
        let page := slot / per_page m in
        let hi := Z.min stop ((page + 1) * per_page m) in
        p ← aget (pages m) page;
        ok ← match p with
             | Unmapped => Some false
             | Const k | Lazy k => c ← aget (consts m) k; Some (bool_decide (dev c = d))
             | Private _ => slots_are m slot hi d
             end;
        if ok : bool then all_loop fuel m hi stop d else Some false
      else Some true
  end.

Definition all_are (m : Inner) (first count : Z) (d : Entry) : option bool :=
  all_loop (turns (per_page m) count) m first (first + count) d.

(** [Physical::fill_slots] *)
Definition fill_slots (first count : Z) (d : Entry) : M unit :=
  m ← gets id; same ← lift (all_are m first count d); if same : bool then mret tt else fill first count d.

End Table.

#[global] Arguments Inner : clear implicits.
#[global] Arguments ConstObj : clear implicits.
#[global] Instance settable_inner {Entry} : Settable (Inner Entry) := eta_Inner.

End DevMap.
