(* ===== verification/DevMapClaims.v ===== *)
(** * The sparse decode table is a table

    What is proved of DevMap.v: through any history of fills and loads, host
    failures included, a load finds the device last filled in at its slot, or
    the default; and the pages behind the table are neither shared nor lost. *)

From S2P Require Import Prelude BlockNode DevMap.

(** ** The sparse decode table: its invariant

    Every page of the table is backed by what its state says, a pool page is
    either free or the backing of exactly one page, and each operation changes
    what the table answers only where it should, also when the host fails it. *)

Module DevMapProofs.

Import BlockNode DevMap.
#[local] Open Scope Z_scope.

Section Laws.

Context {Entry : Type} `{EqDecision Entry}.

Implicit Types (m : Inner Entry) (d e : Entry) (p : PageState).

(** ** Postconditions *)

Definition post {A} (x : M A) (m : Inner Entry) (Q : Inner Entry -> result A -> Prop) : Prop :=
  exists m' r, x m = Some (m', r) /\ Q m' r.

Lemma post_bind {A B} (x : M A) (f : A -> M B) m Q :
  post x m (fun m' r => match r with Ok a => post (f a) m' Q | Err e => Q m' (Err e) end) -> post (M_bind A B f x) m Q.
Proof.
  intros (m' & [a|e] & E & H); unfold post, M_bind; rewrite E; [exact H|]. by exists m', (Err e).
Qed.

Lemma post_mono {A} (x : M A) m Q Q' : post x m Q -> (forall m' r, Q m' r -> Q' m' r) -> post x m Q'.
Proof. intros (m' & r & E & H) HQ. exists m', r. auto. Qed.

Lemma post_ret {A} (a : A) m Q : Q m (Ok a) -> post (M_ret A a) m Q.
Proof. intros H. by exists m, (Ok a). Qed.

Lemma post_upd f m Q : Q (f m) (Ok tt) -> post (upd f) m Q.
Proof. intros H. by exists (f m), (Ok tt). Qed.

Lemma post_gets {A} (f : Inner Entry -> A) m Q : Q m (Ok (f m)) -> post (gets f) m Q.
Proof. intros H. by exists m, (Ok (f m)). Qed.

Lemma post_lift {A} (x : option A) a m Q : x = Some a -> Q m (Ok a) -> post (lift x) m Q.
Proof. intros -> H. by exists m, (Ok a). Qed.

(** ** The invariant *)

Definition slots_of p : list Z := match p with Private s => [s] | _ => [] end.

Definition privates (ps : list PageState) : list Z := mjoin (slots_of <$> ps).

Definition has_const m (k : Z) : Prop := is_Some (aget (consts m) k).

Definition page_ok m (i : Z) p : Prop :=
  match p with
  | Unmapped => views m !! i = None
  | Lazy k => views m !! i = None /\ has_const m k
  | Const k => views m !! i = Some (ConstView k) /\ has_const m k
  | Private s => views m !! i = Some (PoolView s) /\ exists l, pool_mem m !! s = Some l /\ Z.of_nat (length l) = per_page m
  end.

(** [held]: pool pages taken from the free list and not yet in the table. *)
Record inv (held : list Z) m : Prop := {
  i_per : 0 < per_page m;
  i_size : Z.of_nat (length (pages m)) * per_page m = SLOTS;
  i_const k c : aget (consts m) k = Some c -> mem c = replicate (Z.to_nat (per_page m)) (dev c);
  i_dev : NoDup (dev <$> consts m);
  i_page i p : aget (pages m) i = Some p -> page_ok m i p;
  i_dflt k : dflt m = Some k -> has_const m k;
  i_pool : held ++ free m ++ privates (pages m) ≡ₚ seqZ 0 (pool m * POOL_PAGES);
  i_pool0 : 0 <= pool m;
}.

(** ** What the table answers *)

Definition uniform_page m (k : Z) : option (list Entry) :=
  c ← aget (consts m) k; Some (replicate (Z.to_nat (per_page m)) (dev c)).

Definition page_entries m p : option (list Entry) :=
  match p with
  | Unmapped => k ← dflt m; uniform_page m k
  | Lazy k | Const k => uniform_page m k
  | Private s => pool_mem m !! s
  end.

Definition look m (slot : Z) : option Entry :=
  p ← aget (pages m) (slot / per_page m); l ← page_entries m p; aget l (slot mod per_page m).

(** From [m] to [m'] the slots of [a..b] became [d] and no other changed. *)
Record changed (a b : Z) (d : Entry) m m' : Prop := {
  ch_per : per_page m' = per_page m;
  ch_dflt : dflt m' = dflt m;
  ch_len : length (pages m') = length (pages m);
  ch_look slot : 0 <= slot < SLOTS -> look m' slot = if (a <=? slot) && (slot <? b) then Some d else look m slot;
}.

(** Nothing changed. *)
Definition unchanged m m' : Prop :=
  per_page m' = per_page m /\ dflt m' = dflt m /\ length (pages m') = length (pages m) /\ forall slot, look m' slot = look m slot.

Lemma unchanged_trans m m1 m2 : unchanged m m1 -> unchanged m1 m2 -> unchanged m m2.
Proof. intros (?&?&?&Hk) (?&?&?&Hk'). unfold unchanged. split_and!; [congruence..|]. intros slot. by rewrite Hk', Hk. Qed.

Lemma unchanged_changed a d m m' : unchanged m m' -> changed a a d m m'.
Proof.
  intros (?&?&?&Hk). constructor; try done. intros slot _. rewrite Hk. destruct (Z.leb_spec a slot), (Z.ltb_spec slot a); done || lia.
Qed.

Lemma changed_none a d m : changed a a d m m.
Proof. by apply unchanged_changed. Qed.

Lemma changed_trans a b c d m m1 m2 : a <= b <= c -> changed a b d m m1 -> changed b c d m1 m2 -> changed a c d m m2.
Proof.
  intros H [P1 D1 L1 K1] [P2 D2 L2 K2]. constructor; [congruence..|]. intros slot Hs. rewrite K2, K1 by done.
  destruct (Z.leb_spec a slot), (Z.leb_spec b slot), (Z.ltb_spec slot b), (Z.ltb_spec slot c); done || lia.
Qed.

(** The calls into the host leave the table alone. *)
Lemma inv_host h m l : inv h m -> inv h (m <| host := l |>).
Proof. intros []. by constructor. Qed.

Lemma post_host m Q : Q m (Ok tt) -> (forall l, Q (m <| host := l |>) (Ok tt)) -> (forall l, Q (m <| host := l |>) (Err OtherError)) ->
  post host_call m Q.
Proof.
  intros H1 H2 H3. unfold host_call, post. destruct (host m) as [|[] l]; eexists _, _; (split; [done|]); auto.
Qed.

(** ** Constant pages *)

Lemma position_ok (cs : list (ConstObj Entry)) d i :
  match position cs d i with
  | Some k => exists c, i <= k /\ cs !! Z.to_nat (k - i) = Some c /\ dev c = d
  | None => d ∉ dev <$> cs
  end.
Proof.
  revert i. induction cs as [|c cs IH]; intros i; cbn [position]; [cbn; by apply not_elem_of_nil|].
  case_decide as Hd; [exists c; by rewrite Z.sub_diag|].
  specialize (IH (i + 1)). destruct (position cs d (i + 1)) as [k|].
  - destruct IH as (c' & Hk & Hc & Hd'). exists c'. split; [lia|]. split; [|done].
    replace (Z.to_nat (k - i)) with (S (Z.to_nat (k - (i + 1)))) by lia. done.
  - rewrite fmap_cons, not_elem_of_cons. by split.
Qed.

(** Only the constant pages grow. *)
Record grows m m' : Prop := {
  g_per : per_page m' = per_page m;
  g_pages : pages m' = pages m;
  g_pool : pool m' = pool m;
  g_mem : pool_mem m' = pool_mem m;
  g_free : free m' = free m;
  g_dflt : dflt m' = dflt m;
  g_views : views m' = views m;
  g_consts k c : aget (consts m) k = Some c -> aget (consts m') k = Some c;
}.

Lemma grows_const m m' k : grows m m' -> has_const m k -> uniform_page m' k = uniform_page m k /\ has_const m' k.
Proof.
  intros G [c Hc]. pose proof (g_consts _ _ G _ _ Hc) as Hc'. unfold uniform_page. rewrite Hc, Hc', (g_per _ _ G).
  split; [done|by exists c].
Qed.

Lemma grows_changed h m m' a d : inv h m -> grows m m' -> changed a a d m m'.
Proof.
  intros I G. apply unchanged_changed. split_and!; [apply G|apply G|by rewrite (g_pages _ _ G)|]. intros slot.
  unfold look. rewrite (g_pages _ _ G), (g_per _ _ G). destruct (aget (pages m) _) as [p|] eqn:Ep; [|done]. cbn.
  assert (page_entries m' p = page_entries m p) as ->; [|done].
  pose proof (i_page _ _ I _ _ Ep) as Hp. destruct p as [|k|k|s]; cbn in Hp |- *.
  - rewrite (g_dflt _ _ G). destruct (dflt m) as [k|] eqn:Ek; [|done]. cbn. by apply grows_const; [|eapply i_dflt].
  - by apply grows_const, Hp.
  - by apply grows_const, Hp.
  - by rewrite (g_mem _ _ G).
Qed.

Lemma grows_host m l : grows m (m <| host := l |>).
Proof. by constructor. Qed.

Lemma grown_trans m m1 m2 : grows m m1 -> grows m1 m2 -> grows m m2.
Proof. intros [] []. constructor; (congruence || auto). Qed.

Lemma const_for_ok h m d : inv h m ->
  post (const_for d) m (fun m' r => inv h m' /\ grows m m' /\ forall k, r = Ok k -> exists c, aget (consts m') k = Some c /\ dev c = d).
Proof.
  intros I. unfold const_for. apply post_bind, post_gets.
  pose proof (position_ok (consts m) d 0) as Hp. destruct (position _ d 0) as [k|].
  { apply post_ret. split; [done|]. split; [by constructor|]. intros ? [= <-]. destruct Hp as (c & Hk & Hc & Hd).
    exists c. rewrite Z.sub_0_r in Hc. unfold aget. by rewrite (proj2 (Z.leb_le 0 k)). }
  assert (forall m', inv h m' -> grows m m' -> consts m' = consts m -> post
    (M_bind _ _ (fun _ => M_ret _ (Z.of_nat (length (consts m))))
      (upd (fun m1 => m1 <| consts := consts m ++ [mkConst d (replicate (Z.to_nat (per_page m1)) d)] |>))) m'
    (fun m' r => inv h m' /\ grows m m' /\ forall k, r = Ok k -> exists c, aget (consts m') k = Some c /\ dev c = d)) as Hpush.
  { intros m' I' G Hc. rewrite <- Hc. apply post_bind, post_upd, post_ret. set (m2 := _ <| consts := _ |>).
    assert (grows m' m2) as G2.
    { constructor; try done. intros k c E. subst m2. cbn. rewrite aget_app_one. case_decide; [|done].
      subst. unfold aget in E. rewrite (proj2 (Z.leb_le 0 _)), Nat2Z.id, lookup_ge_None_2 in E by lia. done. }
    split; [|split; [by eapply grown_trans|]].
    - constructor; try apply I'.
      + intros k c. subst m2. cbn. rewrite aget_app_one. case_decide; [by intros [= <-]|apply I'].
      + subst m2. cbn. rewrite fmap_app. apply NoDup_app. split; [apply I'|]. split; [|apply NoDup_singleton].
        intros x Hx ->%list_elem_of_singleton. by rewrite Hc in Hx.
      + intros i p Ep. pose proof (i_page _ _ I' i p Ep) as Hp'. destruct p; cbn in Hp' |- *; try done.
        * split; [apply Hp'|]. by apply (grows_const m' m2 _ G2), Hp'.
        * split; [apply Hp'|]. by apply (grows_const m' m2 _ G2), Hp'.
      + intros k Ek. apply (grows_const m' m2 _ G2). by apply I'.
    - intros k [= <-]. exists (mkConst d (replicate (Z.to_nat (per_page m')) d)). split; [|done].
      subst m2. cbn. by rewrite aget_app_one, decide_True. }
  apply post_bind, post_host; [|intros l|intros l; split; [by apply inv_host|]; split; [apply grows_host|done]].
  - apply post_bind, post_host; [|intros l|intros l; split; [by apply inv_host|]; split; [apply grows_host|done]].
    + by apply Hpush; [|constructor|].
    + apply (Hpush (m <| host := l |>)); [by apply inv_host|apply grows_host|done].
  - apply post_bind, post_host; [|intros l'|intros l'; split; [by apply inv_host, inv_host|]; split; [apply (grows_host m l')|done]].
    + apply (Hpush (m <| host := l |>)); [by apply inv_host|apply grows_host|done].
    + apply (Hpush (m <| host := l |> <| host := l' |>)); [by apply inv_host, inv_host|apply (grows_host m l')|done].
Qed.

(** ** Changing a page's state *)

Lemma privates_app ps qs : privates (ps ++ qs) = privates ps ++ privates qs.
Proof. unfold privates. by rewrite fmap_app, join_app. Qed.

Lemma privates_insert ps (i : Z) p0 : aget ps i = Some p0 ->
  exists R, privates ps ≡ₚ slots_of p0 ++ R /\ forall p, privates (<[Z.to_nat i := p]> ps) ≡ₚ slots_of p ++ R.
Proof.
  intros [_ E]%aget_inv. exists (privates (take (Z.to_nat i) ps) ++ privates (drop (S (Z.to_nat i)) ps)).
  assert (forall p, privates (p :: drop (S (Z.to_nat i)) ps) = slots_of p ++ privates (drop (S (Z.to_nat i)) ps)) as Hc by done.
  split.
  - rewrite <- (take_drop_middle _ _ _ E) at 1. rewrite privates_app, Hc. solve_Permutation.
  - intros p. rewrite insert_take_drop by (by eapply lookup_lt_Some). rewrite privates_app, Hc. solve_Permutation.
Qed.

Definition set_state m (i : Z) p (vs : gmap Z View) : Inner Entry := m <| views := vs |> <| pages ::= <[Z.to_nat i := p]> |>.

Lemma set_state_inv h m i p0 p vs : inv (slots_of p ++ h) m -> aget (pages m) i = Some p0 ->
  (forall j, j <> i -> vs !! j = views m !! j) -> page_ok (m <| views := vs |>) i p -> inv (slots_of p0 ++ h) (set_state m i p vs).
Proof.
  intros I E Hv Hp. destruct (privates_insert _ _ _ E) as (R & H1 & H2). constructor; try apply I.
  - cbn. rewrite length_insert. apply I.
  - intros j q. cbn. rewrite (aget_insert _ _ _ _ _ E). case_decide as Hj; [subst; by intros [= <-]|].
    intros Eq. pose proof (i_page _ _ I j q Eq) as Hq. destruct q; cbn in Hq |- *; by rewrite Hv by done.
  - cbn. rewrite (H2 p). pose proof (i_pool _ _ I) as Hpool. rewrite <- Hpool, H1. solve_Permutation.
Qed.

Lemma set_state_look m i p0 p vs slot : aget (pages m) i = Some p0 ->
  look (set_state m i p vs) slot =
    if decide (slot / per_page m = i) then l ← page_entries m p; aget l (slot mod per_page m) else look m slot.
Proof.
  intros E. unfold look at 1. cbn [pages per_page set_state]. cbn. rewrite (aget_insert _ _ _ _ _ E). by case_decide.
Qed.

Lemma page_range (per i slot : Z) : 0 < per -> (i * per <=? slot) && (slot <? (i + 1) * per) = bool_decide (slot / per = i).
Proof.
  intros Hp. symmetry. apply Bool.eq_iff_eq_true. rewrite bool_decide_eq_true, andb_true_iff, Z.leb_le, Z.ltb_lt.
  split; [intros <-; pose proof (Z.div_mod slot per); pose proof (Z.mod_pos_bound slot per); nia|].
  intros [H1 H2]. symmetry. apply Z.div_unique with (slot - i * per); lia.
Qed.

Lemma page_replicate (n x : Z) d : 0 <= x < n -> aget (replicate (Z.to_nat n) d) x = Some d.
Proof. intros [H1 H2]. unfold aget. rewrite (proj2 (Z.leb_le 0 x)) by done. apply lookup_replicate. split; [done|lia]. Qed.

Lemma uniform_entry m k c slot : 0 < per_page m -> aget (consts m) k = Some c ->
  (l ← uniform_page m k; aget l (slot mod per_page m)) = Some (dev c).
Proof. intros Hp E. unfold uniform_page. rewrite E. cbn. apply page_replicate. by apply Z.mod_pos_bound. Qed.

(** A page that becomes a constant one. *)
Lemma set_const_changed m i p0 p vs k c : 0 < per_page m -> aget (pages m) i = Some p0 -> aget (consts m) k = Some c ->
  page_entries m p = uniform_page m k -> changed (i * per_page m) ((i + 1) * per_page m) (dev c) m (set_state m i p vs).
Proof.
  intros Hper E Ec Hp. constructor; try done; [cbn; apply length_insert|]. intros slot _.
  rewrite (set_state_look _ _ _ _ _ _ E), page_range, Hp by done.
  case_decide as Hi; [rewrite bool_decide_true by done; by apply uniform_entry|by rewrite bool_decide_false].
Qed.

(** What an operation on the slots of [a..b] promises: all of them, or, when
    the host fails it, none. *)
Definition served {A} (h : list Z) (a b : Z) d m m' (r : result A) : Prop :=
  inv h m' /\ match r with Ok _ => changed a b d m m' | Err _ => changed a a d m m' end.

Lemma inv_free h s m : inv (s :: h) m -> inv h (m <| free ::= cons s |>).
Proof. intros I. constructor; try apply I. cbn. rewrite <- (i_pool _ _ I). solve_Permutation. Qed.

Lemma release_ok h p0 m Q : inv (slots_of p0 ++ h) m ->
  (forall m', inv h m' -> unchanged m m' -> Q m' (Ok tt)) -> post (release p0) m Q.
Proof.
  intros I HQ. destruct p0 as [|k|k|s]; cbn [release];
    [apply post_ret; by apply HQ..|].
  by apply post_upd, HQ; [apply inv_free|].
Qed.

(** ** Filling a page *)

Lemma post_view m i v Q : (forall l, Q (m <| host := l |> <| views ::= <[i := v]> |>) (Ok tt)) ->
  (forall l, Q (m <| host := l |>) (Err OtherError)) -> post (view i v) m Q.
Proof.
  intros H1 H2. unfold view. apply post_bind. unfold post, host_call. destruct (host m) as [|b l] eqn:E.
  - exists (m <| host := [] |>), (Ok tt). split; [|exists (m <| host := [] |> <| views ::= <[i := v]> |>), (Ok tt); by split].
    destruct m; cbn in *. by subst.
  - exists (m <| host := l |>), (if b then Ok tt else Err OtherError). split; [done|]. destruct b; [|apply H2].
    by apply post_upd.
Qed.

Lemma post_page m i p0 Q : aget (pages m) i = Some p0 -> Q m (Ok p0) -> post (page_state i) m Q.
Proof. intros E H. apply post_bind, post_gets. by eapply post_lift. Qed.

Lemma changed_host a b d m l m' : changed a b d (m <| host := l |>) m' -> changed a b d m m'.
Proof. intros []. by constructor. Qed.

(** A page that is mapped becomes a view of a constant page. *)
Lemma replace_ok h m i p0 k c : inv h m -> aget (pages m) i = Some p0 -> aget (consts m) k = Some c ->
  post (M_bind _ _ (fun _ => M_bind _ _ (fun _ => release p0) (set_page i (Const k))) (view i (ConstView k))) m
    (served h (i * per_page m) ((i + 1) * per_page m) (dev c) m).
Proof.
  intros I E Ec. apply post_bind, post_view; intros l; [|split; [by apply inv_host|by apply unchanged_changed]].
  apply post_bind, post_upd. set (m1 := m <| host := l |>).
  change (post (release p0) (set_state m1 i (Const k) (<[i := ConstView k]> (views m))) (served h (i * per_page m) ((i + 1) * per_page m) (dev c) m)).
  apply (release_ok h).
  - apply (set_state_inv h m1); [by apply inv_host|done|intros j Hj; by apply lookup_insert_ne|].
    split; [apply lookup_insert_eq|by exists c].
  - intros m' I' C'. split; [done|]. apply (changed_host _ _ _ _ l). pose proof (i_per _ _ I).
    apply (changed_trans _ ((i + 1) * per_page m) _ _ _ (set_state m1 i (Const k) (<[i := ConstView k]> (views m)))); [lia| |by apply unchanged_changed].
    by apply (set_const_changed m1 i p0 (Const k) _ k c).
Qed.

(** A page that is not mapped is left to its first access. *)
Lemma set_lazy_ok h m i p0 k c : inv h m -> aget (pages m) i = Some p0 -> aget (consts m) k = Some c -> slots_of p0 = [] -> views m !! i = None ->
  post (set_page i (Lazy k)) m (served h (i * per_page m) ((i + 1) * per_page m) (dev c) m).
Proof.
  intros I E Ec Hs Hv. apply post_upd. change (served h (i * per_page m) ((i + 1) * per_page m) (dev c) m (set_state m i (Lazy k) (views m)) (Ok tt)). split.
  - assert (inv (slots_of p0 ++ h) (set_state m i (Lazy k) (views m))) as Hi; [|by rewrite Hs in Hi].
    apply set_state_inv; [done|done|done|]. split; [done|by exists c].
  - eapply set_const_changed; [apply I|done|done|done].
Qed.

Lemma map_const_ok h m i p0 d : inv h m -> aget (pages m) i = Some p0 ->
  post (map_const i d) m (served h (i * per_page m) ((i + 1) * per_page m) d m).
Proof.
  intros I E. pose proof (i_per _ _ I) as Hper. unfold map_const. apply post_bind.
  eapply post_mono; [by apply (const_for_ok h)|]. intros m1 r (I1 & G & Hk).
  pose proof (grows_changed _ _ _ (i * per_page m) d I G) as C. destruct r as [k|e]; [|by split].
  destruct (Hk k eq_refl) as (c & Ec & <-). apply post_bind, (post_page _ _ p0); [by rewrite (g_pages _ _ G)|].
  assert (forall x : M unit, post x m1 (served h (i * per_page m) ((i + 1) * per_page m) (dev c) m1) ->
    post x m1 (served h (i * per_page m) ((i + 1) * per_page m) (dev c) m)) as Hstep.
  { intros x Hx. eapply post_mono; [exact Hx|]. intros m2 [[]|e] [I2 C2]; (split; [done|]); (eapply changed_trans; [|exact C|exact C2]; lia). }
  assert (aget (pages m1) i = Some p0) as E1 by (by rewrite (g_pages _ _ G)).
  pose proof (i_page _ _ I1 _ _ E1) as Hp. rewrite <- (g_per _ _ G) in *.
  assert (forall p, p = Lazy k \/ p = Const k -> p0 = p ->
    post (M_ret _ tt) m1 (served h (i * per_page m1) ((i + 1) * per_page m1) (dev c) m1)) as Hnop.
  { intros p Hpk ->. apply post_ret. split; [done|]. constructor; try done. intros slot _. rewrite page_range by done.
    case_bool_decide as Hi; [|done]. unfold look. rewrite Hi, E1. cbn.
    destruct Hpk as [-> | ->]; by apply uniform_entry. }
  destruct p0 as [|j|j|s]; cbn in Hp; try destruct (Z.eqb_spec j k) as [->|Hj]; apply Hstep.
  - by eapply set_lazy_ok.
  - eapply Hnop; [|done]; auto.
  - eapply set_lazy_ok; try done. apply Hp.
  - eapply Hnop; [|done]; auto.
  - by apply replace_ok.
  - by apply replace_ok.
Qed.

(** ** Pool pages *)

Lemma alloc_slot_ok h m Q : inv h m ->
  (forall m' s, inv (s :: h) m' -> unchanged m m' -> pages m' = pages m -> Q m' (Ok s)) ->
  (forall m', inv h m' -> unchanged m m' -> Q m' (Err OtherError)) -> post alloc_slot m Q.
Proof.
  intros I H1 H2. unfold alloc_slot. apply post_bind, post_gets. pose proof (i_pool _ _ I) as Hp. destruct (free m) as [|s fr] eqn:Ef.
  - apply post_bind, post_gets.
    assert (forall l, post (M_bind _ _ (fun _ => M_ret _ (pool m * POOL_PAGES))
      (upd (fun m0 => m0 <| pool := pool m + 1 |> <| free := seqZ (pool m * POOL_PAGES + 1) (POOL_PAGES - 1) |>))) (m <| host := l |>) Q) as Hok.
    { intros l. apply post_bind, post_upd, post_ret, H1; [|done|done].
      pose proof (i_pool0 _ _ I). constructor; try apply I; [|cbn; lia]. cbn.
      replace ((pool m + 1) * POOL_PAGES) with (pool m * POOL_PAGES + POOL_PAGES) by lia.
      rewrite seqZ_app, <- Hp by (unfold POOL_PAGES; lia). rewrite Z.add_0_l, (seqZ_cons (pool m * POOL_PAGES)) by done.
      rewrite <- Z.add_1_r, <- Z.sub_1_r. cbn [app]. solve_Permutation. }
    apply post_bind, post_host; [|intros l; apply Hok|intros l; apply H2; [by apply inv_host|done]].
    specialize (Hok (host m)). by destruct m.
  - apply post_bind, post_upd, post_ret, H1; [|done|done]. constructor; try apply I.
    cbn. rewrite <- Hp. solve_Permutation.
Qed.

Lemma private_in ps i s : aget ps i = Some (Private s) -> s ∈ privates ps.
Proof. intros E. destruct (privates_insert _ _ _ E) as (R & -> & _). apply elem_of_app. left. by apply list_elem_of_singleton. Qed.

Lemma held_fresh h s m i s' : inv (s :: h) m -> aget (pages m) i = Some (Private s') -> s' <> s.
Proof.
  intros I E ->. apply private_in in E. assert (NoDup ((s :: h) ++ free m ++ privates (pages m))) as Hn.
  { rewrite (i_pool _ _ I). apply NoDup_seqZ. }
  apply NoDup_cons in Hn as [Hn _]. apply Hn. rewrite !elem_of_app. auto.
Qed.

(** Writing a held pool page changes nothing the table shows. *)
Lemma pool_write_ok h s m buf : inv (s :: h) m ->
  inv (s :: h) (m <| pool_mem ::= <[s := buf]> |>) /\ unchanged m (m <| pool_mem ::= <[s := buf]> |>).
Proof.
  intros I. split.
  - constructor; try apply I. intros i p E. pose proof (i_page _ _ I i p E) as Hp. destruct p as [| | |s']; try done.
    cbn in Hp |- *. by rewrite lookup_insert_ne by (symmetry; by eapply held_fresh).
  - split_and!; try done. intros slot. unfold look. cbn. destruct (aget (pages m) _) as [p|] eqn:E; [|done].
    cbn. destruct p as [| | |s']; try done. cbn. by rewrite lookup_insert_ne by (symmetry; by eapply held_fresh).
Qed.

(** ** Filling part of a page *)

Lemma uniform_ok m k c Q : aget (consts m) k = Some c -> Q m (Ok (replicate (Z.to_nat (per_page m)) (dev c))) -> post (uniform k) m Q.
Proof. intros E H. apply post_bind, post_gets, post_bind. eapply post_lift; [done|]. by apply post_ret. Qed.

Lemma contents_ok h m i p Q : inv h m -> aget (pages m) i = Some p ->
  (forall buf, page_entries m p = Some buf -> Z.of_nat (length buf) = per_page m -> Q m (Ok buf)) -> Q m (Err OtherError) ->
  post (contents i) m Q.
Proof.
  intros I E H1 H2. pose proof (i_per _ _ I) as Hper.
  assert (forall k, has_const m k -> (page_entries m p = uniform_page m k) -> post (uniform k) m Q) as Hu.
  { intros k [c Ec] Hp. eapply uniform_ok; [done|]. apply H1; [by rewrite Hp; unfold uniform_page; rewrite Ec|].
    rewrite length_replicate. lia. }
  unfold contents. apply post_bind, (post_page _ _ p); [done|]. pose proof (i_page _ _ I _ _ E) as Hp.
  destruct p as [|k|k|s]; cbn in Hp.
  - apply post_bind, post_gets. destruct (dflt m) as [k|] eqn:Ek; [|by exists m, (Err OtherError)].
    apply Hu; [by eapply i_dflt|]. cbn. by rewrite Ek.
  - apply Hu; [apply Hp|done].
  - apply Hu; [apply Hp|done].
  - destruct Hp as (Hv & l & Hl & Hlen). apply post_bind, post_gets. eapply post_lift; [|by apply H1].
    cbn. by rewrite Hv.
Qed.

Lemma aget_overwrite (buf : list Entry) lo hi d x : 0 <= lo <= hi -> hi <= Z.of_nat (length buf) -> 0 <= x < Z.of_nat (length buf) ->
  aget (overwrite buf lo hi d) x = if (lo <=? x) && (x <? hi) then Some d else aget buf x.
Proof.
  intros H1 H2 H3. unfold overwrite, aget. rewrite !(proj2 (Z.leb_le 0 x)) by lia.
  assert (length (take (Z.to_nat lo) buf) = Z.to_nat lo) as Ht by (rewrite length_take; lia).
  destruct (Z.leb_spec lo x) as [Hlo|Hlo]; [|rewrite lookup_app_l by lia; cbn; apply lookup_take_lt; lia].
  rewrite lookup_app_r by lia. rewrite Ht. destruct (Z.ltb_spec x hi) as [Hhi|Hhi].
  - rewrite lookup_app_l by (rewrite length_replicate; lia). cbn. apply lookup_replicate. split; [done|lia].
  - rewrite lookup_app_r by (rewrite length_replicate; lia). rewrite length_replicate, lookup_drop. cbn. f_equal. lia.
Qed.

Lemma overwrite_length (buf : list Entry) lo hi d : 0 <= lo <= hi -> hi <= Z.of_nat (length buf) -> length (overwrite buf lo hi d) = length buf.
Proof. intros H1 H2. unfold overwrite. rewrite !length_app, length_take, length_replicate, length_drop. lia. Qed.

Lemma all_same_spec (l : list Entry) d : all_same l d = true <-> forall x, x ∈ l -> x = d.
Proof. unfold all_same. rewrite forallb_forall. setoid_rewrite <- list_elem_of_In. by setoid_rewrite bool_decide_eq_true. Qed.

(** A page whose entries became [overwrite buf lo hi d]. *)
Lemma page_changed m m' i p0 buf lo hi d : 0 < per_page m -> aget (pages m) i = Some p0 -> page_entries m p0 = Some buf ->
  Z.of_nat (length buf) = per_page m -> 0 <= lo <= hi -> hi <= per_page m ->
  per_page m' = per_page m -> dflt m' = dflt m -> length (pages m') = length (pages m) ->
  (forall slot, 0 <= slot < SLOTS -> look m' slot = if decide (slot / per_page m = i) then aget (overwrite buf lo hi d) (slot mod per_page m) else look m slot) ->
  changed (i * per_page m + lo) (i * per_page m + hi) d m m'.
Proof.
  intros Hper E Hb Hlen H1 H2 Hp Hd Hl Hk. constructor; [done..|]. intros slot Hs. rewrite Hk by done.
  pose proof (Z.div_mod slot (per_page m) ltac:(lia)) as Hdm. pose proof (Z.mod_pos_bound slot (per_page m) Hper) as Hm.
  case_decide as Hi.
  - rewrite aget_overwrite by lia. unfold look. rewrite Hi, E. cbn. rewrite Hb. cbn.
    assert ((lo <=? slot mod per_page m) && (slot mod per_page m <? hi) = (i * per_page m + lo <=? slot) && (slot <? i * per_page m + hi)) as ->; [|done].
    apply Bool.eq_iff_eq_true. rewrite !andb_true_iff, !Z.leb_le, !Z.ltb_lt. nia.
  - assert ((i * per_page m + lo <=? slot) && (slot <? i * per_page m + hi) = false) as ->; [|done].
    apply andb_false_iff. rewrite Z.leb_gt, Z.ltb_ge. assert (slot / per_page m < i \/ i < slot / per_page m) as [|] by lia; [left|right]; nia.
Qed.

Lemma slice_same (buf : list Entry) lo hi d x : 0 <= lo <= hi -> hi <= Z.of_nat (length buf) ->
  all_same (drop (Z.to_nat lo) (take (Z.to_nat hi) buf)) d = true -> lo <= x < hi -> aget buf x = Some d.
Proof.
  intros H1 H2 Ha Hx. destruct (aget_Some buf x ltac:(lia)) as [e He]. rewrite He. f_equal.
  rewrite all_same_spec in Ha. apply Ha. apply aget_inv in He as [_ He]. apply list_elem_of_lookup. exists (Z.to_nat (x - lo)).
  rewrite lookup_drop, lookup_take_lt by lia. rewrite <- He. f_equal. lia.
Qed.

(** The held page is written and shown at table page [i], or given back. *)
Lemma write_page_ok h s m i buf : inv (s :: h) m ->
  post (or_else (M_bind _ _ (fun _ => M_bind _ _ (fun _ => view i (PoolView s)) (upd (fun m => m <| pool_mem ::= <[s := buf]> |>))) host_call)
      (upd (fun m => m <| free ::= cons s |>))) m
    (fun m' r => match r with
     | Ok _ => exists m1, inv (s :: h) m1 /\ unchanged m m1 /\ pages m1 = pages m /\ pool_mem m1 !! s = Some buf /\
                 m' = m1 <| views ::= <[i := PoolView s]> |>
     | Err e => e = OtherError /\ inv h m' /\ unchanged m m' end).
Proof.
  intros I.
  assert (post (M_bind _ _ (fun _ => M_bind _ _ (fun _ => view i (PoolView s)) (upd (fun m => m <| pool_mem ::= <[s := buf]> |>))) host_call) m
    (fun m' r => match r with
     | Ok _ => exists m1, inv (s :: h) m1 /\ unchanged m m1 /\ pages m1 = pages m /\ pool_mem m1 !! s = Some buf /\
                 m' = m1 <| views ::= <[i := PoolView s]> |>
     | Err e => e = OtherError /\ inv (s :: h) m' /\ unchanged m m' end)) as (m' & r & Em & Hr).
  { assert (forall l, inv (s :: h) (m <| host := l |>) /\ unchanged m (m <| host := l |>)) as Hh by (intros l; split; [by apply inv_host|done]).
    assert (forall m1, inv (s :: h) m1 -> unchanged m m1 -> pages m1 = pages m ->
      post (M_bind _ _ (fun _ => view i (PoolView s)) (upd (fun m => m <| pool_mem ::= <[s := buf]> |>))) m1
      (fun m' r => match r with
       | Ok _ => exists m1, inv (s :: h) m1 /\ unchanged m m1 /\ pages m1 = pages m /\ pool_mem m1 !! s = Some buf /\
                   m' = m1 <| views ::= <[i := PoolView s]> |>
       | Err e => e = OtherError /\ inv (s :: h) m' /\ unchanged m m' end)) as Hw.
    { intros m1 I1 U1 P1. destruct (pool_write_ok h s m1 buf I1) as [I2 U2]. apply post_bind, post_upd, post_view; intros l.
      - eexists. split; [by apply inv_host, I2|]. split; [by eapply unchanged_trans|]. split; [done|]. split; [apply lookup_insert_eq|done].
      - split; [done|]. split; [by apply inv_host|by eapply unchanged_trans]. }
    apply post_bind, post_host; [by apply Hw|intros l; apply Hw; (apply Hh || done)|intros l; split; [done|apply Hh]]. }
  destruct r as [[]|e].
  - exists m', (Ok tt). split; [unfold or_else; by rewrite Em|exact Hr].
  - destruct Hr as (-> & I' & U'). exists (m' <| free ::= cons s |>), (Err OtherError).
    split; [unfold or_else; by rewrite Em|]. split; [done|]. split; [by apply inv_free|exact U'].
Qed.

(** The page becomes private: its new entries are written before it is shown. *)
Lemma privatize_ok h m i p0 buf Q : inv h m -> aget (pages m) i = Some p0 -> Z.of_nat (length buf) = per_page m ->
  (forall m', inv h m' -> per_page m' = per_page m -> dflt m' = dflt m -> length (pages m') = length (pages m) ->
    (forall slot, 0 <= slot < SLOTS -> look m' slot = if decide (slot / per_page m = i) then aget buf (slot mod per_page m) else look m slot) -> Q m' (Ok tt)) ->
  (forall m', inv h m' -> unchanged m m' -> Q m' (Err OtherError)) ->
  post (M_bind _ _ (fun slot => M_bind _ _ (fun _ => M_bind _ _ (fun _ => release p0) (set_page i (Private slot)))
    (or_else (M_bind _ _ (fun _ => M_bind _ _ (fun _ => view i (PoolView slot)) (upd (fun m => m <| pool_mem ::= <[slot := buf]> |>))) host_call)
      (upd (fun m => m <| free ::= cons slot |>)))) alloc_slot) m Q.
Proof.
  intros I E Hlen H1 H2. apply post_bind, (alloc_slot_ok h); [done| |exact H2]. intros m1 s I1 U1 Hpg. apply post_bind.
  eapply post_mono; [apply (write_page_ok h s m1 i buf I1)|]. intros m2 [[]|e].
  2: { intros (-> & I2 & U2). apply H2; [done|]. by eapply unchanged_trans. }
  intros (m3 & I3 & U3 & Hpg3 & Hs3 & ->). apply post_bind, post_upd. set (vs := <[i := PoolView s]> (views m3)).
  change (post (release p0) (set_state m3 i (Private s) vs) Q).
  pose proof (unchanged_trans _ _ _ U1 U3) as U. destruct U as (Hper & Hd & Hl & Hk). apply (release_ok h).
  - apply (set_state_inv h); [done|by rewrite Hpg3, Hpg|intros j Hj; by apply lookup_insert_ne|].
    split; [apply lookup_insert_eq|]. exists buf. split; [done|]. cbn. lia.
  - intros m' I' (Hp' & Hd' & Hl' & Hk'). apply H1; [done|by rewrite Hp'|by rewrite Hd'|rewrite Hl'; cbn; by rewrite length_insert|].
    intros slot _. rewrite Hk', (set_state_look _ _ p0), Hper, Hk by (by rewrite Hpg3, Hpg). cbn [page_entries]. by rewrite Hs3.
Qed.

Lemma modify_ok h m i p0 lo hi d : inv h m -> aget (pages m) i = Some p0 -> 0 <= lo < hi -> hi <= per_page m ->
  post (modify i lo hi d) m (served h (i * per_page m + lo) (i * per_page m + hi) d m).
Proof.
  intros I E Hlo Hhi. pose proof (i_per _ _ I) as Hper. unfold modify.
  apply post_bind, (contents_ok h _ _ p0); [done|done| |split; [done|apply changed_none]]. intros buf Hb Hlen.
  apply post_bind, (post_page _ _ p0); [done|].
  assert (forall m', inv h m' -> per_page m' = per_page m -> dflt m' = dflt m -> length (pages m') = length (pages m) ->
    (forall slot, 0 <= slot < SLOTS -> look m' slot = if decide (slot / per_page m = i) then aget (overwrite buf lo hi d) (slot mod per_page m) else look m slot) ->
    served h (i * per_page m + lo) (i * per_page m + hi) d m m' (@Ok unit tt)) as Hdone.
  { intros m' I' ? ? ? ?. split; [done|]. eapply page_changed; (done || lia). }
  destruct (all_same _ d && _) eqn:Ea.
  { apply andb_true_iff in Ea as [Ea _]. apply post_ret, Hdone; try done. intros slot _. case_decide as Hi; [|done].
    pose proof (Z.mod_pos_bound slot _ Hper). rewrite aget_overwrite by lia. unfold look. rewrite Hi, E. cbn. rewrite Hb. cbn.
    destruct (Z.leb_spec lo (slot mod per_page m)), (Z.ltb_spec (slot mod per_page m) hi); try done. cbn.
    by apply (slice_same buf lo hi d); [lia..| |lia]. }
  clear Ea. pose proof (overwrite_length buf lo hi d ltac:(lia) ltac:(lia)) as Hol. set (buf' := overwrite buf lo hi d) in *.
  destruct (aget_Some buf' 0 ltac:(lia)) as [first Hf]. apply post_bind. eapply post_lift; [exact Hf|].
  destruct (all_same buf' first) eqn:Eu.
  - eapply post_mono; [by apply (map_const_ok h _ _ p0)|]. intros m' [[]|e] [I' C'].
    + apply Hdone; [done|apply C'..|]. intros slot Hs. rewrite (ch_look _ _ _ _ _ C'), page_range by done.
      case_decide as Hi; [rewrite bool_decide_true by done|by rewrite bool_decide_false].
      pose proof (Z.mod_pos_bound slot _ Hper). destruct (aget_Some buf' (slot mod per_page m) ltac:(lia)) as [e He]. rewrite He. f_equal.
      rewrite all_same_spec in Eu. symmetry. apply Eu. apply aget_inv in He as [_ He]. by eapply list_elem_of_lookup_2.
    + split; [done|]. destruct C' as [? ? ? Hk]. constructor; try done. intros slot Hs. rewrite Hk by done.
      destruct (Z.leb_spec (i * per_page m) slot), (Z.ltb_spec slot (i * per_page m)),
        (Z.leb_spec (i * per_page m + lo) slot), (Z.ltb_spec slot (i * per_page m + lo)); done || lia.
  - apply (privatize_ok h m i p0 buf'); [done|done|lia|exact Hdone|].
    intros m' I' U'. split; [done|]. by apply unchanged_changed.
Qed.

(** ** Filling a range *)

(** Pages a range still has. *)
Definition pages_left (per slot stop : Z) : Z := if slot <? stop then (stop - 1) / per - slot / per + 1 else 0.

Lemma pages_left_step per slot stop : 0 < per -> slot < stop ->
  pages_left per (Z.min stop (slot / per * per + per)) stop <= pages_left per slot stop - 1.
Proof.
  intros Hp Hs. unfold pages_left. rewrite (proj2 (Z.ltb_lt slot stop)) by done.
  pose proof (Z.div_le_mono slot (stop - 1) per Hp ltac:(lia)).
  destruct (Z.ltb_spec (Z.min stop (slot / per * per + per)) stop) as [Hm|Hm]; [|lia].
  rewrite Z.min_r by lia. replace (slot / per * per + per) with ((slot / per + 1) * per) by lia. rewrite Z.div_mul by lia. lia.
Qed.

Lemma pages_left_turns per first count : 0 < per -> 0 <= count -> pages_left per first (first + count) <= Z.of_nat (turns per count).
Proof.
  intros Hp Hc. pose proof (Z.div_pos count per Hc Hp). unfold pages_left, turns. rewrite Z2Nat.id by lia. destruct (Z.ltb_spec first (first + count)); [|lia].
  assert ((first + count - 1) / per <= first / per + count / per + 1); [|lia].
  apply Z.lt_succ_r, Z.div_lt_upper_bound; [done|].
  pose proof (Z.div_mod first per ltac:(lia)). pose proof (Z.mod_pos_bound first per Hp).
  pose proof (Z.div_mod count per ltac:(lia)). pose proof (Z.mod_pos_bound count per Hp). nia.
Qed.

Lemma page_valid h m slot : inv h m -> 0 <= slot < SLOTS -> exists p, aget (pages m) (slot / per_page m) = Some p.
Proof.
  intros I Hs. pose proof (i_per _ _ I). apply aget_Some. split; [apply Z.div_pos; lia|].
  apply Z.div_lt_upper_bound; [done|]. pose proof (i_size _ _ I). lia.
Qed.

(** How far a fill got: all the way, or to the page the host failed at. *)
Definition filled (h : list Z) (a b : Z) d m m' (r : result unit) : Prop :=
  inv h m' /\ exists n, a <= n <= b /\ changed a n d m m' /\ (r = Ok tt -> n = b).

Lemma fill_loop_ok h d fuel : forall m slot stop, inv h m -> 0 <= slot <= stop -> stop <= SLOTS ->
  pages_left (per_page m) slot stop <= Z.of_nat fuel -> post (fill_loop fuel slot stop d) m (filled h slot stop d m).
Proof.
  induction fuel as [|fuel IH]; intros m slot stop I Hs Hstop Hf; pose proof (i_per _ _ I) as Hper; cbn [fill_loop].
  { unfold pages_left in Hf. destruct (Z.ltb_spec slot stop) as [Hlt|]; [pose proof (Z.div_le_mono slot (stop - 1) _ Hper ltac:(lia)); lia|].
    apply post_ret. split; [done|]. exists slot. split; [lia|]. split; [apply changed_none|intros _; lia]. }
  destruct (Z.ltb_spec slot stop) as [Hlt|]; [|apply post_ret; split; [done|]; exists slot; split; [lia|]; split; [apply changed_none|intros _; lia]].
  apply post_bind, post_gets. set (per := per_page m) in *. set (hi := Z.min stop (slot / per * per + per)).
  pose proof (Z.div_mod slot per ltac:(lia)). pose proof (Z.mod_pos_bound slot per Hper).
  pose proof (pages_left_step per slot stop Hper Hlt) as Hstep. fold hi in Hstep.
  destruct (page_valid h m slot I ltac:(lia)) as [p0 E]. fold per in E.
  assert (slot < hi <= stop) as Hhi by lia.
  assert (post (if (slot =? slot / per * per) && (hi =? slot / per * per + per) then map_const (slot / per) d
      else modify (slot / per) (slot - slot / per * per) (hi - slot / per * per) d) m (served h slot hi d m)) as Hone.
  { destruct (Z.eqb_spec slot (slot / per * per)) as [H1|H1], (Z.eqb_spec hi (slot / per * per + per)) as [H2|H2]; cbn [andb];
      [pose proof (map_const_ok h m (slot / per) p0 d I E) as Hm
      |pose proof (modify_ok h m (slot / per) p0 (slot - slot / per * per) (hi - slot / per * per) d I E ltac:(lia) ltac:(fold per; lia)) as Hm..];
      fold per in Hm.
    1: replace (slot / per * per) with slot in Hm by lia; replace ((slot / per + 1) * per) with hi in Hm by lia; exact Hm.
    all: rewrite !Zplus_minus in Hm; exact Hm. }
  apply post_bind. eapply post_mono; [exact Hone|]. intros m1 [[]|e] [I1 C1].
  - pose proof (ch_per _ _ _ _ _ C1) as Hp1. eapply post_mono; [apply IH; [done|lia|done|rewrite Hp1; fold per; lia]|].
    intros m2 r (I2 & n & Hn & C2 & Hr). split; [done|]. exists n. split; [lia|]. split; [|done]. eapply changed_trans; [|done|done]. lia.
  - split; [done|]. exists slot. split; [lia|]. by split.
Qed.

Lemma fill_ok h m first count d : inv h m -> 0 <= first -> 0 <= count -> first + count <= SLOTS ->
  post (fill first count d) m (filled h first (first + count) d m).
Proof.
  intros I H1 H2 H3. assert (SLOTS = 2 ^ 28) as HS by reflexivity.
  unfold fill. rewrite (proj2 (Z.ltb_lt _ _)), (proj2 (Z.leb_le _ _)) by lia.
  apply post_bind, post_gets, fill_loop_ok; [done|lia|done|]. apply pages_left_turns; [apply I|done].
Qed.

End Laws.

End DevMapProofs.

Module DevMapClaims.

Import BlockNode DevMap DevMapProofs.
#[local] Open Scope Z_scope.

Section Laws.

Context {Entry : Type} `{EqDecision Entry}.

Implicit Types (m : Inner Entry) (d e : Entry) (t : Z -> Entry).

(** ** Loads *)

Lemma view_entry h m slot v : inv h m -> 0 <= slot < SLOTS -> views m !! (slot / per_page m) = Some v ->
  entry_at m slot = look m slot /\ is_Some (entry_at m slot).
Proof.
  intros I Hs Hv. pose proof (i_per _ _ I) as Hper. pose proof (Z.mod_pos_bound slot _ Hper) as Hm.
  destruct (page_valid h m slot I Hs) as [p Ep]. pose proof (i_page _ _ I _ _ Ep) as Hp.
  unfold entry_at, look. rewrite Hv, Ep. cbn. destruct p as [|k|k|s]; cbn in Hp; try (rewrite Hv in Hp; by destruct Hp).
  - congruence.
  - destruct Hp as [Hv' [c Hc]]. rewrite Hv in Hv'. injection Hv' as ->. cbn. unfold uniform_page. rewrite Hc. cbn.
    rewrite (i_const _ _ I _ _ Hc). split; [done|]. rewrite page_replicate by done. by eexists.
  - destruct Hp as (Hv' & l & Hl & Hlen). rewrite Hv in Hv'. injection Hv' as ->. cbn. rewrite Hl. cbn. split; [done|].
    destruct (aget_Some l (slot mod per_page m) ltac:(lia)) as [e He]. rewrite He. by eexists.
Qed.

(** The handler maps the page to what it already answered. *)
Lemma map_page_ok h m i p k c : inv h m -> aget (pages m) i = Some p -> aget (consts m) k = Some c -> slots_of p = [] ->
  page_entries m p = uniform_page m k ->
  forall l, inv h (set_state (m <| host := l |>) i (Const k) (<[i := ConstView k]> (views m))) /\
    unchanged m (set_state (m <| host := l |>) i (Const k) (<[i := ConstView k]> (views m))).
Proof.
  intros I E Hc Hs Hp l. split.
  - assert (inv (slots_of p ++ h) (set_state (m <| host := l |>) i (Const k) (<[i := ConstView k]> (views m)))) as Hi; [|by rewrite Hs in Hi].
    apply (set_state_inv h (m <| host := l |>)); [by apply inv_host|done|intros j Hj; by apply lookup_insert_ne|].
    split; [apply lookup_insert_eq|by exists c].
  - split_and!; [done|done|cbn; apply length_insert|]. intros slot. rewrite (set_state_look (m <| host := l |>) i p) by done.
    case_decide as Hi; [|done]. unfold look. cbn in Hi. rewrite Hi, E. cbn. by rewrite Hp.
Qed.

Lemma view_cases m i v :
  view i v m = Some (m <| host := tail (host m) |> <| views ::= <[i := v]> |>, Ok tt) \/
  view i v m = Some (m <| host := tail (host m) |>, Err OtherError) /\ host m <> [].
Proof.
  destruct m as [? ? ? ? ? ? ? ? ? ? [|[] l]]; [left|left|right]; done.
Qed.

Lemma fault_view_ok h m slot p k miss : inv h m -> aget (pages m) (slot / per_page m) = Some p -> has_const m k -> slots_of p = [] ->
  page_entries m p = uniform_page m k ->
  exists m' again, fault_view slot k miss m = Some (m', again) /\ inv h m' /\ unchanged m m' /\
    (again = true -> is_Some (views m' !! (slot / per_page m'))) /\ (host m = [] -> again = true /\ host m' = []).
Proof.
  intros I Ep [c Hc] Hsl Hpe.
  assert (forall l miss, exists m', inv h m' /\ unchanged m m' /\ is_Some (views m' !! (slot / per_page m')) /\ host m' = l /\
    (let m1 := m <| host := l |> <| views ::= <[slot / per_page m := ConstView k]> |> <| pages ::= <[Z.to_nat (slot / per_page m) := Const k]> |> in
     m' = if miss : bool then m1 <| faults ::= (fun n => u64 (n + 1)) |>
            <| first_faults ::= (fun l => if Z.of_nat (length l) <? FIRST_FAULTS then l ++ [Z.shiftl slot SLOT_SHIFT] else l) |> else m1)) as Hset.
  { intros l b. destruct (map_page_ok h m (slot / per_page m) p k c I Ep Hc Hsl Hpe l) as [I' U'].
    eexists. split; [|split; [|split; [|split; [|reflexivity]]]]; destruct b;
      try exact I'; try exact U'; try done; try (cbn; rewrite lookup_insert_eq; by eexists).
    destruct I'; by constructor. }
  unfold fault_view. destruct (view_cases m (slot / per_page m) (ConstView k)) as [->|[-> Hh]].
  - destruct (Hset (tail (host m)) miss) as (m' & I' & U' & V' & Hh & ->). eexists _, true. split; [reflexivity|].
    split; [exact I'|]. split; [exact U'|]. split; [intros _; exact V'|]. intros H0. rewrite Hh, H0. done.
  - eexists _, false. split; [done|]. split; [by apply inv_host|]. split; [done|]. by split.
Qed.

Lemma fault_ok h m slot : inv h m -> is_Some (dflt m) -> 0 <= slot < SLOTS ->
  exists m' again, fault slot m = Some (m', again) /\ inv h m' /\ unchanged m m' /\
    (again = true -> is_Some (views m' !! (slot / per_page m'))) /\ (host m = [] -> again = true /\ host m' = []).
Proof.
  intros I [k0 Hd] Hs. destruct (page_valid h m slot I Hs) as [p Ep]. pose proof (i_page _ _ I _ _ Ep) as Hp.
  unfold fault. rewrite Ep. cbn [mbind option_bind]. destruct p as [|k|k|s]; cbn in Hp.
  - rewrite Hd. eapply fault_view_ok; [done|done|by apply I|done|]. cbn. by rewrite Hd.
  - by eapply fault_view_ok; [|done|apply Hp| |].
  - exists m, true. destruct Hp as [Hv _]. do 3 (split; [done|]). split; [intros _; rewrite Hv; by eexists|done].
  - exists m, true. destruct Hp as [Hv _]. do 3 (split; [done|]). split; [intros _; rewrite Hv; by eexists|done].
Qed.

Lemma table_load_ok h m slot : inv h m -> is_Some (dflt m) -> 0 <= slot < SLOTS ->
  (forall m' e, load m slot = Some (m', e) -> inv h m' /\ unchanged m m' /\ look m slot = Some e) /\
  (host m = [] -> exists m' e, load m slot = Some (m', e) /\ host m' = []).
Proof.
  intros I Hd Hs. unfold load. destruct (views m !! (slot / per_page m)) as [v|] eqn:Ev.
  - destruct (view_entry h m slot v I Hs Ev) as [E [e He]]. rewrite He. cbn. split.
    + intros m' e' [= <- <-]. split; [done|]. split; [done|]. by rewrite <- E.
    + intros Hh. by exists m, e.
  - destruct (fault_ok h m slot I Hd Hs) as (m1 & again & -> & I1 & U1 & Hv & Hh). cbn. destruct again; [|split; [done|]].
    2: { intros H0. by destruct (Hh H0). }
    destruct (Hv eq_refl) as [v Hv']. destruct (view_entry h m1 slot v I1 Hs Hv') as [E [e He]]. rewrite He. cbn.
    split.
    + intros m' e' [= <- <-]. split; [done|]. split; [done|]. destruct U1 as (_ & _ & _ & Hk). by rewrite <- Hk, <- E.
    + intros H0. exists m1, e. split; [done|]. by apply Hh.
Qed.

(** ** Questions *)

Lemma get_ok h m slot : inv h m -> 0 <= slot < SLOTS ->
  exists x, get m slot = Some x /\ (x = None \/ exists e, x = Some e /\ look m slot = Some e).
Proof.
  intros I Hs. destruct (page_valid h m slot I Hs) as [p Ep]. pose proof (i_page _ _ I _ _ Ep) as Hp.
  assert (forall v, views m !! (slot / per_page m) = Some v -> exists x, (e ← entry_at m slot; Some (Some e)) = Some x /\
    (x = None \/ exists e, x = Some e /\ look m slot = Some e)) as Hv.
  { intros v Hv. destruct (view_entry h m slot v I Hs Hv) as [E [e He]]. rewrite He. exists (Some e). split; [done|]. right.
    exists e. by rewrite <- E. }
  unfold get. rewrite Ep. cbn. destruct p as [|k|k|s]; cbn in Hp.
  - exists None. by split; [|left].
  - destruct Hp as [_ [c Hc]]. rewrite Hc. exists (Some (dev c)). split; [done|]. right. exists (dev c). split; [done|].
    unfold look. rewrite Ep. cbn. apply uniform_entry; [apply I|done].
  - eapply Hv, Hp.
  - eapply Hv, Hp.
Qed.

Lemma slots_are_ok h m a b d v : inv h m -> 0 <= a <= b -> b <= SLOTS ->
  (forall s, a <= s < b -> views m !! (s / per_page m) = Some v) ->
  exists r, slots_are m a b d = Some r /\ (r = true -> forall s, a <= s < b -> look m s = Some d).
Proof.
  intros I Hab Hb Hv. unfold slots_are.
  assert (forall n, 0 <= n -> a + n <= b -> exists r,
    foldl (fun r s => ok ← r; if ok : bool then e ← entry_at m s; Some (bool_decide (e = d)) else Some false) (Some true) (seqZ a n) = Some r /\
    (r = true -> forall s, a <= s < a + n -> look m s = Some d)) as H.
  { intros n Hn. pattern n. apply natlike_ind; [|clear n Hn|done].
    - intros _. exists true. split; [done|]. lia.
    - intros n Hn IH Hb'. destruct (IH ltac:(lia)) as (r & Er & Hr). rewrite <- Z.add_1_r, seqZ_snoc, foldl_app, Er by lia. cbn.
      destruct r; [|by exists false]. destruct (view_entry h m (a + n) v I ltac:(lia) (Hv (a + n) ltac:(lia))) as [E [e He]].
      rewrite He. cbn. eexists. split; [done|]. intros ->%bool_decide_eq_true s Hs.
      destruct (decide (s = a + n)) as [->|]; [by rewrite <- E|apply Hr; [done|lia]]. }
  destruct (H (b - a)) as (r & Er & Hr); [lia|lia|]. exists r. split; [exact Er|]. intros Ht s Hs. apply Hr; [done|lia].
Qed.

Lemma all_loop_ok h m d fuel : forall slot stop, inv h m -> 0 <= slot <= stop -> stop <= SLOTS ->
  pages_left (per_page m) slot stop <= Z.of_nat fuel ->
  exists r, all_loop fuel m slot stop d = Some r /\ (r = true -> forall s, slot <= s < stop -> look m s = Some d).
Proof.
  induction fuel as [|fuel IH]; intros slot stop I Hs Hstop Hf; pose proof (i_per _ _ I) as Hper; cbn [all_loop].
  { unfold pages_left in Hf. destruct (Z.ltb_spec slot stop) as [Hlt|]; [pose proof (Z.div_le_mono slot (stop - 1) _ Hper ltac:(lia)); lia|].
    exists true. split; [done|]. lia. }
  destruct (Z.ltb_spec slot stop) as [Hlt|]; [|exists true; split; [done|]; lia].
  set (per := per_page m) in *. replace ((slot / per + 1) * per) with (slot / per * per + per) by lia.
  set (hi := Z.min stop (slot / per * per + per)).
  pose proof (Z.div_mod slot per ltac:(lia)). pose proof (Z.mod_pos_bound slot per Hper).
  pose proof (pages_left_step per slot stop Hper Hlt) as Hstep. fold hi in Hstep.
  destruct (page_valid h m slot I ltac:(lia)) as [p Ep]. fold per in Ep. rewrite Ep. cbn [mbind option_bind].
  assert (forall s, slot <= s < hi -> s / per = slot / per) as Hpage.
  { intros s Hsl. symmetry. apply Z.div_unique with (s - slot / per * per); lia. }
  assert (exists r, match p with
             | Unmapped => Some false
             | Const k | Lazy k => c ← aget (consts m) k; Some (bool_decide (dev c = d))
             | Private _ => slots_are m slot hi d
             end = Some r /\ (r = true -> forall s, slot <= s < hi -> look m s = Some d)) as (r & -> & Hr).
  { pose proof (i_page _ _ I _ _ Ep) as Hp.
    assert (forall k, has_const m k -> page_entries m p = uniform_page m k ->
      exists r, (c ← aget (consts m) k; Some (bool_decide (dev c = d))) = Some r /\ (r = true -> forall s, slot <= s < hi -> look m s = Some d)) as Hc.
    { intros k [c Hc] Hpe. rewrite Hc. eexists. split; [done|]. intros <-%bool_decide_eq_true s Hsl.
      unfold look. fold per. rewrite (Hpage s Hsl), Ep. cbn. rewrite Hpe. by apply uniform_entry. }
    destruct p as [|k|k|s]; cbn in Hp; [by exists false|apply Hc; [apply Hp|done]|apply Hc; [apply Hp|done]|].
    apply (slots_are_ok h m slot hi d (PoolView s)); [done|lia|lia|]. intros x Hx. fold per. rewrite (Hpage x Hx). apply Hp. }
  cbn. destruct r; [|by exists false]. destruct (IH hi stop I ltac:(lia) Hstop ltac:(fold per; lia)) as (r & Er & Hr').
  exists r. split; [exact Er|]. intros Ht s Hsl. destruct (Z.lt_ge_cases s hi); [apply Hr; [done|lia]|apply Hr'; [done|lia]].
Qed.

Lemma fill_slots_ok h m first count d : inv h m -> 0 <= first -> 0 <= count -> first + count <= SLOTS ->
  post (fill_slots first count d) m (filled h first (first + count) d m).
Proof.
  intros I H1' H2' H3'. pose proof (i_per _ _ I) as Hper. unfold fill_slots. apply post_bind, post_gets, post_bind.
  destruct (all_loop_ok h m d (turns (per_page m) count) first (first + count) I ltac:(lia) H3' (pages_left_turns _ _ _ Hper H2')) as (r & Er & Hr).
  eapply post_lift; [exact Er|]. destruct r; [|by apply fill_ok]. apply post_ret. split; [done|]. exists (first + count).
  split; [lia|]. split; [|done]. constructor; try done. intros slot _.
  destruct (Z.leb_spec first slot), (Z.ltb_spec slot (first + count)); try done. apply Hr; [done|lia].
Qed.

(** ** Histories *)

Inductive op : Type :=
| Fill (first count : Z) (d : Entry)
| FillSlots (first count : Z) (d : Entry)
| Load (slot : Z)
| Get (slot : Z).

Inductive answer : Type := Filled (r : result unit) | Loaded (e : Entry) | Seen (x : option Entry).

Definition step m (o : op) : option (Inner Entry * answer) :=
  match o with
  | Fill first count d => '(m, r) ← fill first count d m; Some (m, Filled r)
  | FillSlots first count d => '(m, r) ← fill_slots first count d m; Some (m, Filled r)
  | Load slot => '(m, e) ← load m slot; Some (m, Loaded e)
  | Get slot => x ← get m slot; Some (m, Seen x)
  end.

Fixpoint run m (os : list op) : option (Inner Entry * list answer) :=
  match os with
  | [] => Some (m, [])
  | o :: os => '(m, a) ← step m o; '(m, l) ← run m os; Some (m, a :: l)
  end.

Definition in_space (o : op) : Prop :=
  match o with
  | Fill first count _ | FillSlots first count _ => 0 <= first /\ 0 <= count /\ first + count <= SLOTS
  | Load slot | Get slot => 0 <= slot < SLOTS
  end.

(** A plain table: one device per slot.  A fill the host fails stops on the way. *)
Definition paint t (a b : Z) d : Z -> Entry := fun s => if (a <=? s) && (s <? b) then d else t s.

Fixpoint allowed t (os : list op) (l : list answer) : Prop :=
  match os, l with
  | [], [] => True
  | Fill first count d :: os, Filled r :: l | FillSlots first count d :: os, Filled r :: l =>
      exists n, first <= n <= first + count /\ (r = Ok tt -> n = first + count) /\ allowed (paint t first n d) os l
  | Load slot :: os, Loaded e :: l => e = t slot /\ allowed t os l
  | Get slot :: os, Seen x :: l => (x = None \/ x = Some (t slot)) /\ allowed t os l
  | _, _ => False
  end.

Definition shows m t : Prop := inv [] m /\ is_Some (dflt m) /\ forall slot, 0 <= slot < SLOTS -> look m slot = Some (t slot).

Lemma unchanged_shows m m' t : inv [] m' -> unchanged m m' -> shows m t -> shows m' t.
Proof. intros I' (? & Hd & ? & Hk) (_ & Hs & Ht). split; [done|]. rewrite Hd. split; [done|]. intros slot Hr. by rewrite Hk, Ht. Qed.

Lemma filled_shows m m' t a b d r : filled [] a b d m m' r -> shows m t ->
  exists n, a <= n <= b /\ (r = Ok tt -> n = b) /\ shows m' (paint t a n d).
Proof.
  intros (I' & n & Hn & C & Hr) (_ & Hs & Ht). exists n. split; [done|]. split; [done|]. split; [done|].
  rewrite (ch_dflt _ _ _ _ _ C). split; [done|]. intros slot Hsl. rewrite (ch_look _ _ _ _ _ C), Ht by done. unfold paint.
  by destruct (_ && _).
Qed.

Lemma run_allowed os : forall m t m' l, Forall in_space os -> shows m t -> run m os = Some (m', l) ->
  allowed t os l /\ exists t', shows m' t'.
Proof.
  induction os as [|o os IH]; intros m t m' l Hos Hm Hr; [injection Hr as <- <-; split; [done|by exists t]|].
  apply Forall_cons in Hos as [Ho Hos]. cbn in Hr. destruct (step m o) as [[m1 a]|] eqn:E; [|done]. cbn in Hr.
  destruct (run m1 os) as [[m2 l2]|] eqn:E2; [|done]. injection Hr as <- <-. pose proof (proj1 Hm) as I.
  destruct o as [first count d|first count d|slot|slot]; cbn in E, Ho |- *.
  - destruct Ho as (H1' & H2' & H3'). destruct (fill_ok [] m first count d I H1' H2' H3') as (m3 & r & Ef & Hf). rewrite Ef in E. injection E as <- <-.
    destruct (filled_shows _ _ _ _ _ _ _ Hf Hm) as (n & Hn & Hnr & Hs). destruct (IH _ _ _ _ Hos Hs E2) as [Ha Ht]. split; [by exists n|done].
  - destruct Ho as (H1' & H2' & H3'). destruct (fill_slots_ok [] m first count d I H1' H2' H3') as (m3 & r & Ef & Hf). rewrite Ef in E. injection E as <- <-.
    destruct (filled_shows _ _ _ _ _ _ _ Hf Hm) as (n & Hn & Hnr & Hs). destruct (IH _ _ _ _ Hos Hs E2) as [Ha Ht]. split; [by exists n|done].
  - destruct (table_load_ok [] m slot I (proj1 (proj2 Hm)) Ho) as [Hl _]. destruct (load m slot) as [[m3 e]|]; [|done]. injection E as <- <-.
    destruct (Hl _ _ eq_refl) as (I3 & U3 & He). destruct (IH _ _ _ _ Hos (unchanged_shows _ _ _ I3 U3 Hm) E2) as [Ha Ht].
    split; [|done]. split; [|done]. destruct Hm as (_ & _ & Hk). rewrite Hk in He by done. congruence.
  - destruct (get_ok [] m slot I Ho) as (x & Ex & Hx). rewrite Ex in E. injection E as <- <-.
    destruct (IH _ _ _ _ Hos Hm E2) as [Ha Ht]. split; [|done]. split; [|done]. destruct Hx as [->|(e & -> & He)]; [by left|].
    right. destruct Hm as (_ & _ & Hk). rewrite Hk in He by done. congruence.
Qed.

(** ** A new table *)

Lemma new_inv (j : Z) calls : 0 <= j <= 32 -> inv [] (@new Entry (2 ^ j) calls).
Proof.
  intros Hj. assert (exists i, 16 <= i <= 32 /\ Z.max (2 ^ j) MIN_PAGE_BYTES = 2 ^ i) as (i & Hi & E).
  { change MIN_PAGE_BYTES with (2 ^ 16). destruct (Z.le_gt_cases j 16) as [H|H].
    - exists 16. split; [lia|]. apply Z.max_r, Z.pow_le_mono_r; lia.
    - exists j. split; [lia|]. apply Z.max_l, Z.pow_le_mono_r; lia. }
  unfold new. rewrite E. change ENTRY_BYTES with (2 ^ 4). change TABLE_BYTES with (2 ^ 32).
  rewrite <- !Z.pow_sub_r by lia. constructor; cbn.
  - apply Z.pow_pos_nonneg; lia.
  - rewrite length_replicate, Z2Nat.id by (apply Z.pow_nonneg; lia). rewrite <- Z.pow_add_r by lia. replace (32 - i + (i - 4)) with 28 by lia. done.
  - intros k c [_ Hk]%aget_inv. by destruct (Z.to_nat k).
  - constructor.
  - intros x p [_ Hx]%aget_inv. apply lookup_replicate in Hx as [-> _]. by apply lookup_empty.
  - done.
  - assert (forall n, mjoin (slots_of <$> replicate n Unmapped) = []) as Hp by (intros n; induction n; done). by rewrite Hp.
  - done.
Qed.

Lemma set_default_shows (j : Z) calls d m : 0 <= j <= 32 -> set_default d (new (2 ^ j) calls) = Some (m, Ok tt) -> shows m (fun _ => d).
Proof.
  intros Hj E. pose proof (new_inv j calls Hj) as I. unfold set_default in E.
  assert (post (M_bind _ _ (fun k => upd (fun m => m <| dflt := Some k |>)) (const_for d)) (new (2 ^ j) calls)
    (fun m' r => r = Ok tt -> shows m' (fun _ => d))) as (m' & r & E' & Hr).
  { apply post_bind. eapply post_mono; [by apply (const_for_ok [])|]. intros m1 [k|e] (I1 & G & Hk); [|done].
    destruct (Hk k eq_refl) as (c & Hc & Hd). apply post_upd. intros _. split; [|split; [by eexists|]].
    - destruct I1. constructor; try done. intros k' [= <-]. by exists c.
    - intros slot Hs. destruct (page_valid [] m1 slot I1 Hs) as [p Ep]. unfold look. cbn. rewrite Ep. cbn.
      assert (p = Unmapped) as ->.
      { rewrite (g_pages _ _ G) in Ep. apply aget_inv in Ep as [_ Ep]. by apply lookup_replicate in Ep as [-> _]. }
      cbn. rewrite <- Hd. apply (uniform_entry m1); [apply I1|done]. }
  unfold mbind, M_bind in *. rewrite E' in E. injection E as <- ->. by apply Hr.
Qed.

(** ** Who has a pool page *)

Lemma privates_elem ps s : s ∈ privates ps -> exists i, aget ps i = Some (Private s).
Proof.
  unfold privates. intros (l & Hs & Hl)%list_elem_of_join. apply list_elem_of_fmap in Hl as (p & -> & Hp).
  apply list_elem_of_lookup in Hp as [n Hn]. exists (Z.of_nat n). unfold aget. rewrite (proj2 (Z.leb_le 0 _)), Nat2Z.id, Hn by lia.
  destruct p; try by apply not_elem_of_nil in Hs. by apply list_elem_of_singleton in Hs as ->.
Qed.

Lemma pool_view_state h m i p s : inv h m -> aget (pages m) i = Some p -> views m !! i = Some (PoolView s) -> p = Private s.
Proof. intros I E V. pose proof (i_page _ _ I _ _ E) as Hp. destruct p; cbn in Hp; [|destruct Hp as [Hp _]..]; rewrite V in Hp; by inversion Hp. Qed.

Lemma private_unique h m i k s : inv h m -> aget (pages m) i = Some (Private s) -> aget (pages m) k = Some (Private s) -> i = k.
Proof.
  intros I Hi Hk. destruct (decide (k = i)) as [->|Hne]; [done|]. destruct (privates_insert _ _ _ Hi) as (R & Hall & Hrest).
  assert (NoDup (privates (pages m))) as Hn.
  { assert (NoDup (h ++ free m ++ privates (pages m))) as Hn by (rewrite (i_pool _ _ I); apply NoDup_seqZ).
    apply NoDup_app in Hn as (_ & _ & Hn). by apply NoDup_app in Hn as (_ & _ & Hn). }
  rewrite Hall in Hn. apply NoDup_cons in Hn as [Hn _]. exfalso. apply Hn. specialize (Hrest Unmapped). cbn in Hrest. rewrite <- Hrest.
  apply (private_in _ k). by rewrite (aget_insert _ _ _ _ _ Hi), decide_False.
Qed.

(** ** When the host does not fail *)

Definition calm m : Prop := host m = [] /\ is_Some (dflt m).

Definition steady {A} (x : M A) : Prop := forall m m' r, calm m -> x m = Some (m', r) -> calm m' /\ exists a, r = Ok a.

Lemma steady_bind {A B} (x : M A) (f : A -> M B) : steady x -> (forall a, steady (f a)) -> steady (M_bind _ _ f x).
Proof.
  intros Hx Hf m m' r Hm. unfold M_bind. destruct (x m) as [[m1 [a|e]]|] eqn:E; [| |done].
  - intros Hr. eapply Hf; [|exact Hr]. by eapply Hx.
  - destruct (Hx _ _ _ Hm E) as [_ [a Ha]]. done.
Qed.

Lemma steady_ret {A} (a : A) : steady (M_ret _ a).
Proof. intros m m' r Hm [= <- <-]. split; [done|by exists a]. Qed.

Lemma steady_gets {A} (f : Inner Entry -> A) : steady (gets f).
Proof. intros m m' r Hm [= <- <-]. split; [done|by eexists]. Qed.

Lemma steady_lift {A} (x : option A) : steady (lift x).
Proof. intros m m' r Hm. unfold lift. destruct x as [a|]; [|done]. intros [= <- <-]. split; [done|by eexists]. Qed.

Lemma steady_upd f : (forall m, calm m -> calm (f m)) -> steady (upd f).
Proof. intros Hf m m' r Hm [= <- <-]. split; [by apply Hf|by eexists]. Qed.

Lemma steady_host : steady host_call.
Proof. intros m m' r [Hm Hd]. unfold host_call. rewrite Hm. intros [= <- <-]. split; [done|by eexists]. Qed.

Lemma steady_or_else {A} (x : M A) c : steady x -> steady (or_else x c).
Proof.
  intros Hx m m' r Hm. unfold or_else. destruct (x m) as [[m1 [a|e]]|] eqn:E; [| |done].
  - intros [= <- <-]. by eapply Hx.
  - destruct (Hx _ _ _ Hm E) as [_ [a Ha]]. done.
Qed.

Ltac steady_step :=
  lazymatch goal with
  | |- steady (@mbind _ _ _ _ _ _) => apply steady_bind; [|intros ?]
  | |- steady (@mret _ _ _ _) => apply steady_ret
  | |- steady (gets _) => apply steady_gets
  | |- steady (lift _) => apply steady_lift
  | |- steady host_call => apply steady_host
  | |- steady (or_else _ _) => apply steady_or_else
  | |- steady (upd _) => apply steady_upd; intros ? ?; assumption
  | |- steady (match ?x with _ => _ end) => destruct x
  end.
Ltac steady := repeat steady_step.

Lemma const_for_steady d : steady (const_for d).
Proof. unfold const_for. steady. Qed.

Lemma map_const_steady i d : steady (map_const i d).
Proof. unfold map_const, page_state, set_page, view, release. apply steady_bind; [apply const_for_steady|intros k]. steady. Qed.

(** The default is there to be used. *)
Lemma steady_dflt {A} (f : Z -> M A) : (forall k, steady (f k)) ->
  steady (M_bind _ _ (fun x => match x with Some k => f k | None => fail end) (gets dflt)).
Proof.
  intros Hf m m' r Hm. unfold M_bind, gets. destruct (dflt m) as [k|] eqn:E; [by apply Hf|].
  destruct Hm as [_ [k Hk]]. congruence.
Qed.

Lemma contents_steady i : steady (contents i).
Proof.
  unfold contents, page_state, uniform. apply steady_bind; [steady|]. intros p. destruct p; [|steady..].
  apply steady_dflt. intros k. steady.
Qed.

Lemma modify_steady i lo hi d : steady (modify i lo hi d).
Proof.
  unfold modify, page_state, alloc_slot, view, set_page, release. apply steady_bind; [apply contents_steady|intros buf].
  steady. apply map_const_steady.
Qed.

Lemma fill_steady first count d : steady (fill first count d).
Proof.
  unfold fill. destruct (_ && _); [|apply steady_lift]. apply steady_bind; [apply steady_gets|intros per].
  generalize (turns per count). intros fuel. generalize (first + count). intros stop. revert stop first.
  induction fuel as [|fuel IH]; intros stop first; cbn [fill_loop]; steady; [apply map_const_steady|apply modify_steady|apply IH].
Qed.

Lemma fill_slots_steady first count d : steady (fill_slots first count d).
Proof. unfold fill_slots. steady. apply fill_steady. Qed.

(** Every history runs. *)
Lemma run_total os : forall m t, Forall in_space os -> shows m t -> host m = [] ->
  exists m' l, run m os = Some (m', l) /\ forall r, Filled r ∈ l -> r = Ok tt.
Proof.
  induction os as [|o os IH]; intros m t Hos Hm Hh; [exists m, []; split; [done|]; by intros r ?%not_elem_of_nil|].
  apply Forall_cons in Hos as [Ho Hos]. pose proof (proj1 Hm) as I. pose proof (proj1 (proj2 Hm)) as Hd.
  assert (exists m1 a t1, step m o = Some (m1, a) /\ shows m1 t1 /\ host m1 = [] /\ forall r, a = Filled r -> r = Ok tt) as (m1 & a & t1 & Es & Hm1 & Hh1 & Ha).
  { destruct o as [first count d|first count d|slot|slot]; cbn in Ho |- *.
    - destruct Ho as (H1' & H2' & H3'). destruct (fill_ok [] m first count d I H1' H2' H3') as (m1 & r & Ef & Hf). rewrite Ef.
      destruct (filled_shows _ _ _ _ _ _ _ Hf Hm) as (n & _ & _ & Hs). destruct (fill_steady _ _ _ _ _ _ (conj Hh Hd) Ef) as [[? _] [[] ->]].
      eexists _, _, _. split; [done|]. split; [done|]. split; [done|]. by intros r [= <-].
    - destruct Ho as (H1' & H2' & H3'). destruct (fill_slots_ok [] m first count d I H1' H2' H3') as (m1 & r & Ef & Hf). rewrite Ef.
      destruct (filled_shows _ _ _ _ _ _ _ Hf Hm) as (n & _ & _ & Hs). destruct (fill_slots_steady _ _ _ _ _ _ (conj Hh Hd) Ef) as [[? _] [[] ->]].
      eexists _, _, _. split; [done|]. split; [done|]. split; [done|]. by intros r [= <-].
    - destruct (table_load_ok [] m slot I Hd Ho) as [Hl Ht]. destruct (Ht Hh) as (m1 & e & El & Hh1). rewrite El.
      destruct (Hl _ _ El) as (I1 & U1 & _). exists m1, (Loaded e), t. split; [done|]. split; [by eapply unchanged_shows|]. by split.
    - destruct (get_ok [] m slot I Ho) as (x & Ex & _). rewrite Ex. exists m, (Seen x), t. by split. }
  destruct (IH m1 t1 Hos Hm1 Hh1) as (m' & l & Er & Hr). exists m', (a :: l). split; [cbn; rewrite Es; cbn; by rewrite Er|].
  intros r [Hin|Hin]%elem_of_cons; [by apply Ha|by apply Hr].
Qed.

End Laws.

Arguments op : clear implicits.

(** ** The claims *)

Section Claims.

Context {Entry : Type} `{EqDecision Entry}.

(** C12: the sparse table is a table of one device per 4 KB.  Whatever was filled
    and looked up before, with every page size the host can have, a load finds
    the device of the last fill over its slot, or the default; a fill that the
    host fails has filled a beginning of its range and nothing else; and when
    the host does not fail, everything succeeds. *)
Theorem decode_table_refines (j : Z) (calls : list bool) (d0 : Entry) (m0 : Inner Entry) (os : list (op Entry)) :
  0 <= j <= 32 -> set_default d0 (new (2 ^ j) calls) = Some (m0, Ok tt) -> Forall in_space os ->
  (forall m l, run m0 os = Some (m, l) -> allowed (fun _ => d0) os l) /\
  (calls = [] -> exists m l, run m0 os = Some (m, l) /\ forall r, Filled r ∈ l -> r = Ok tt).
Proof.
  intros Hj Hd Hos. pose proof (set_default_shows j calls d0 m0 Hj Hd) as Hs. split.
  - intros m l Hr. by eapply run_allowed.
  - intros ->. eapply run_total; [done|done|]. unfold set_default, mbind, M_bind, const_for, mbind, M_bind in Hd. cbn in Hd. by injection Hd as <-.
Qed.

(** The pages behind the table are accounted for.  After any history every
    page of the pool is on the free list once or backs exactly one page of the
    table, and no device has two constant pages. *)
Theorem decode_table_pages (j : Z) (calls : list bool) (d0 : Entry) (m0 m : Inner Entry) (os : list (op Entry)) (l : list answer) :
  0 <= j <= 32 -> set_default d0 (new (2 ^ j) calls) = Some (m0, Ok tt) -> Forall in_space os -> run m0 os = Some (m, l) ->
  NoDup (free m) /\ NoDup (dev <$> consts m) /\
  (forall s, 0 <= s < pool m * POOL_PAGES -> s ∉ free m -> exists i, views m !! i = Some (PoolView s)) /\
  (forall i k p q s, aget (pages m) i = Some p -> aget (pages m) k = Some q ->
    views m !! i = Some (PoolView s) -> views m !! k = Some (PoolView s) -> i = k /\ s ∉ free m).
Proof.
  intros Hj Hd Hos Hr. destruct (run_allowed os m0 (fun _ => d0) m l Hos (set_default_shows j calls d0 m0 Hj Hd) Hr) as [_ [t (I & _ & _)]].
  pose proof (i_pool _ _ I) as Hp. cbn in Hp. assert (NoDup (free m ++ privates (pages m))) as Hn by (rewrite Hp; apply NoDup_seqZ).
  apply NoDup_app in Hn as (Hf & Hfp & _). split; [done|]. split; [apply I|]. split.
  - intros s Hs Hsf. assert (s ∈ free m ++ privates (pages m)) as [|(i & Hi)%privates_elem]%elem_of_app; [|done|].
    + rewrite Hp. apply elem_of_seqZ. lia.
    + exists i. apply (i_page _ _ I _ _ Hi).
  - intros i k p q s Hi Hk Vi Vk. pose proof (pool_view_state _ _ _ _ _ I Hi Vi) as ->. pose proof (pool_view_state _ _ _ _ _ I Hk Vk) as ->.
    split; [by eapply private_unique|]. intros Hsf. apply (Hfp s Hsf). by eapply private_in.
Qed.

End Claims.

(** ** Witnesses *)

Definition probes : list (op Z) := [Fill 3 5 7; Load 4; FillSlots 0 4096 9; Load 4; Load 8; Get 5000; Load 4100].

Lemma probes_in_space : Forall in_space probes.
Proof. repeat constructor; vm_compute; discriminate || reflexivity. Qed.

(** A new table with its default set. *)
Definition ready (j d0 : Z) : Inner Z :=
  (new (2 ^ j) []) <| consts := [mkConst d0 (replicate (Z.to_nat (per_page (@new Z (2 ^ j) []))) d0)] |> <| dflt := Some 0 |>.

Lemma table_ready_ok (j d0 : Z) : set_default d0 (new (2 ^ j) []) = Some (ready j d0, Ok tt).
Proof. reflexivity. Qed.

Lemma decode_table_refines_witness :
  (forall m l, run (ready 12 1) probes = Some (m, l) -> allowed (fun _ => 1) probes l) /\
  (exists m l, run (ready 12 1) probes = Some (m, l) /\ forall r, Filled r ∈ l -> r = Ok tt).
Proof.
  destruct (decode_table_refines 12 [] 1 (ready 12 1) probes ltac:(lia) (table_ready_ok 12 1) probes_in_space) as [H1 H2].
  split; [exact H1|exact (H2 eq_refl)].
Defined.

Lemma decode_table_pages_witness : exists m l, run (ready 12 1) probes = Some (m, l) /\ NoDup (free m) /\ NoDup (dev <$> consts m).
Proof.
  destruct (run_total probes (ready 12 1) (fun _ => 1) probes_in_space (set_default_shows 12 [] 1 _ ltac:(lia) (table_ready_ok 12 1)) eq_refl) as (m & l & Er & _).
  exists m, l. split; [exact Er|].
  destruct (decode_table_pages 12 [] 1 (ready 12 1) m probes l ltac:(lia) (table_ready_ok 12 1) probes_in_space Er) as (H1 & H2 & _).
  exact (conj H1 H2).
Defined.

End DevMapClaims.
