(* ===== verification/PpMem.v ===== *)
(** * RAM banks and the window over them

    [PpMemory] and [PpMemSpace] of src/src/ppmem/ppmem.rs, on a little-endian
    host: a bank keeps guest words in the host's byte order, so that guest byte
    [o] is host byte [o ^ 3].  The window is a range of host addresses that
    banks are mapped into; its mappings are listed with the newest first.  The
    host's mapping calls succeed, and what is mapped is aligned to its pages.
    Generation counters belong to the JIT and are left out. *)

From stdpp Require Import strings.
From S2P Require Import Prelude BlockNode.
Import BlockNode.

#[local] Open Scope Z_scope.
#[local] Open Scope word_scope.

Module PpMem.

Definition WINDOW_SIZE : Z := 1 .<< 32.
Definition BITMAP_SHIFT : Z := 26.

Definition bitmap_maps (bitmap phys : Z) : bool :=
  let region := phys .>> BITMAP_SHIFT in
  (region <? 64) && negb (bitmap .& (1 .<< region) =? 0).

(** ** A bank *)

(** [mem]: the host bytes written so far, zero elsewhere. *)
Record PpMemory : Type := mkBank { mem : gmap Z Z; size_bytes : Z; addr_mask : Z }.

#[global] Instance eta_PpMemory : Settable PpMemory := fun b => mkBank (mem b) (size_bytes b) (addr_mask b).

(** Loads and stores of the host, [n] bytes from host byte [o]. *)
Definition host_byte (b : PpMemory) (o : Z) : Z := default 0 (mem b !! o).

Fixpoint le_load (b : PpMemory) (o : Z) (n : nat) : Z :=
  match n with O => 0 | S n => host_byte b o + 256 * le_load b (o + 1) n end.

Fixpoint le_store (b : PpMemory) (o : Z) (n : nat) (v : Z) : PpMemory :=
  match n with O => b | S n => le_store (b <| mem ::= <[o := u8 v]> |>) (o + 1) n (v .>> 8) end.

Definition rotate_left32 (v : Z) : Z := u64 (v .<< 32) .| (v .>> 32).

Definition new (granularity size_mb : Z) : option PpMemory :=
  let size_bytes := size_mb * 1024 * 1024 in
  if (0 <? size_bytes) && (size_bytes mod granularity =? 0) then Some (mkBank ∅ size_bytes (size_bytes - 1)) else None.

Definition off (b : PpMemory) (addr : Z) : Z := addr .& addr_mask b.

Definition set_addr_mask (b : PpMemory) (mask : Z) : PpMemory := b <| addr_mask := mask .& (size_bytes b - 1) |>.

(** A host access of [n] bytes from byte [o]: [None] when it leaves the storage,
    where the source dereferences a raw pointer. *)
Definition in_bank (b : PpMemory) (o : Z) (n : nat) : bool := (0 <=? o) && (o + Z.of_nat n <=? size_bytes b).
Definition host_load (b : PpMemory) (o : Z) (n : nat) : option Z := if in_bank b o n then Some (le_load b o n) else None.
Definition host_store (b : PpMemory) (o : Z) (n : nat) (v : Z) : option PpMemory := if in_bank b o n then Some (le_store b o n v) else None.

Definition read8 (b : PpMemory) (addr : Z) : option Z := host_load b (off b addr .^ 3) 1.
Definition write8 (b : PpMemory) (addr val : Z) : option PpMemory := host_store b (off b addr .^ 3) 1 val.

(** A pointer to halfwords, words or doublewords counts in those. *)
Definition read16 (b : PpMemory) (addr : Z) : option Z := host_load b (2 * ((off b addr .>> 1) .^ 1)) 2.
Definition write16 (b : PpMemory) (addr val : Z) : option PpMemory := host_store b (2 * ((off b addr .>> 1) .^ 1)) 2 val.
Definition read32 (b : PpMemory) (addr : Z) : option Z := host_load b (4 * (off b addr .>> 2)) 4.
Definition write32 (b : PpMemory) (addr val : Z) : option PpMemory := host_store b (4 * (off b addr .>> 2)) 4 val.
Definition read64 (b : PpMemory) (addr : Z) : option Z := rotate_left32 <$> host_load b (8 * (off b addr .>> 3)) 8.
Definition write64 (b : PpMemory) (addr val : Z) : option PpMemory := host_store b (8 * (off b addr .>> 3)) 8 (rotate_left32 val).

Definition write64_masked (b : PpMemory) (addr val mask : Z) : option PpMemory :=
  let o := 8 * (off b addr .>> 3) in
  let v := rotate_left32 val in
  let m := rotate_left32 mask in
  old ← host_load b o 8; host_store b o 8 ((old .& bnot 64 m) .| (v .& m)).

(** [n] doublewords through a pointer to host byte [o]. *)
Fixpoint load_block (b : PpMemory) (o : Z) (n : nat) : option (list Z) :=
  match n with
  | O => Some []
  | S n => v ← host_load b o 8; l ← load_block b (o + 8) n; Some (rotate_left32 v :: l)
  end.

Fixpoint store_block (b : PpMemory) (o : Z) (buf : list Z) : option PpMemory :=
  match buf with [] => Some b | v :: buf => b ← host_store b o 8 (rotate_left32 v); store_block b (o + 8) buf end.

Definition read_block (b : PpMemory) (addr : Z) (n : nat) : option (list Z) := load_block b (8 * (off b addr .>> 3)) n.
Definition write_block (b : PpMemory) (addr : Z) (buf : list Z) : option PpMemory := store_block b (8 * (off b addr .>> 3)) buf.

(** *** Whole banks *)

Definition snapshot_words (b : PpMemory) : list Z := (fun i => le_load b (4 * i) 4) <$> seqZ 0 (size_bytes b / 4).

Definition restore_words (b : PpMemory) (src : list Z) : PpMemory :=
  foldl (fun b '(i, w) => le_store b (4 * Z.of_nat i) 4 w) b (zip (seq 0 (length src)) (take (Z.to_nat (size_bytes b / 4)) src)).

Definition power_on (b : PpMemory) : PpMemory := b <| mem := ∅ |>.

Definition to_be (w : Z) : list Z := [u8 (w .>> 24); u8 (w .>> 16); u8 (w .>> 8); u8 w].

Definition save_bin (fs : FS) (b : PpMemory) (path : string) : FS := <[path := mjoin (to_be <$> snapshot_words b)]> fs.

Fixpoint from_be (bytes : list Z) : list Z :=
  match bytes with
  | b0 :: b1 :: b2 :: b3 :: bytes => ((b0 .<< 24) .| (b1 .<< 16) .| (b2 .<< 8) .| b3) :: from_be bytes
  | _ => []
  end.

Definition load_bin (fs : FS) (b : PpMemory) (path : string) : result PpMemory :=
  match fs !! path with Some bytes => Ok (restore_words b (from_be bytes)) | None => Err NotFound end.

(** ** The window *)

(** A host mapping of the window: a bank from an offset on, or memory of no
    bank that reads as zero. *)
Record View : Type := mkView { v_at : Z; v_len : Z; v_to : option (nat * Z) }.

Record Mapping : Type := mkMapping { m_at : Z; m_len : Z }.

#[export] Instance Mapping_eq_dec : EqDecision Mapping.
Proof. solve_decision. Defined.

Record PpMemSpace : Type := mkSpace { space : list View; mappings : list Mapping; bitmap : Z }.

#[global] Instance eta_PpMemSpace : Settable PpMemSpace := fun s => mkSpace (space s) (mappings s) (bitmap s).

Definition over : PpMemSpace := mkSpace [] [] 0.

(** The bank and the byte of it that window address [p] is, if it is mapped. *)
Fixpoint resolve (vs : list View) (p : Z) : option (option (nat * Z)) :=
  match vs with
  | [] => None
  | v :: vs =>
      if (v_at v <=? p) && (p <? v_at v + v_len v) then Some ('(bank, src) ← v_to v; Some (bank, src + (p - v_at v)))
      else resolve vs p
  end.

Definition covers (m : Mapping) (p : Z) : bool := (m_at m <=? p) && (p <? m_at m + m_len m).

(** [loop]: each mapping moves [covered] past itself, so it is used once. *)
Fixpoint covered_to (fuel : nat) (ms : list Mapping) (covered stop : Z) : bool :=
  match fuel with
  | O => false
  | S fuel =>
      match list_find (fun m => covers m covered = true) ms with
      | None => false
      | Some (_, m) => if stop <=? m_at m + m_len m then true else covered_to fuel ms (m_at m + m_len m) stop
      end
  end.

Definition REGION : Z := 1 .<< BITMAP_SHIFT.

Definition recompute_bitmap (s : PpMemSpace) : PpMemSpace :=
  s <| bitmap := foldl (fun bits bit => if covered_to (S (length (mappings s))) (mappings s) (bit * REGION) (bit * REGION + REGION)
                                        then bits .| (1 .<< bit) else bits) 0 (seqZ 0 64) |>.

Definition record (s : PpMemSpace) (at_ len : Z) : PpMemSpace :=
  recompute_bitmap (s <| mappings := filter (fun m => negb ((at_ <=? m_at m) && (m_at m + m_len m <=? at_ + len)) = true) (mappings s) ++ [mkMapping at_ len] |>).

Definition map_view (s : PpMemSpace) (at_ len : Z) (to : option (nat * Z)) : PpMemSpace := s <| space ::= cons (mkView at_ len to) |>.

Definition clear_mappings (s : PpMemSpace) : PpMemSpace :=
  (foldl (fun s m => map_view s (m_at m) (m_len m) None) (s <| mappings := [] |>) (mappings s)) <| bitmap := 0 |>.

(** [while placed < size]: a view of the bank's first [period] bytes a turn. *)
Fixpoint place (fuel : nat) (s : PpMemSpace) (bank : nat) (offset size period placed : Z) : PpMemSpace :=
  match fuel with
  | O => s
  | S fuel =>
      if placed <? size then
        let chunk := Z.min period (size - placed) in
        place fuel (map_view s (offset + placed) chunk (Some (bank, 0))) bank offset size period (placed + chunk)
      else s
  end.

Definition map_bank (s : PpMemSpace) (bank_size : Z) (bank : nat) (offset size period : Z) : option PpMemSpace :=
  if (0 <? size) && (0 <? period) && (period <=? bank_size) && (offset + size <=? WINDOW_SIZE) then
    Some (record (place (Z.to_nat (size / period + 1)) s bank offset size period 0) offset size)
  else None.

Definition map_range (s : PpMemSpace) (bank_size : Z) (bank : nat) (src offset size : Z) : option PpMemSpace :=
  if (src + size <=? bank_size) && (offset + size <=? WINDOW_SIZE) then
    Some (record (map_view s offset size (Some (bank, src))) offset size)
  else None.

Definition map_alias (s : PpMemSpace) (bank_size : Z) (bank : nat) (offset size : Z) : option PpMemSpace :=
  if (size <=? bank_size) && (offset + size <=? WINDOW_SIZE) then
    Some (record (map_view s offset size (Some (bank, 0))) offset size)
  else None.

End PpMem.
