(* ===== verification/PpMemClaims.v ===== *)
(** * A RAM bank is an array of bytes

    The refinement of PpMem.v's banks to guest bytes: any run of accesses and
    mask changes returns what it would from an array of bytes addressed most
    significant first, and never leaves the bank's storage; a bank saved and
    loaded is the bank.  Then the window: which bank byte an address is. *)

From stdpp Require Import strings.
From S2P Require Import Prelude BlockNode PpMem.

(** ** RAM banks are big-endian memory

    What is proved of PpMem.v: through every access a bank is an array of guest
    bytes, most significant first, and the window's bitmap and mappings say
    where the banks are. *)

Module PpMemProofs.

Import BlockNode PpMem.
#[local] Open Scope Z_scope.
#[local] Open Scope word_scope.

(** ** A reference memory *)

(** [n] bytes of [f] from [a], most significant first. *)
Fixpoint be_read (f : Z -> Z) (a : Z) (n : nat) : Z :=
  match n with O => 0 | S n => f a * 256 ^ Z.of_nat n + be_read f (a + 1) n end.

Definition be_write (f : Z -> Z) (a n v : Z) : Z -> Z :=
  fun x => if (a <=? x) && (x <? a + n) then u8 (v .>> (8 * (a + n - 1 - x))) else f x.

(** The bits of [m] from [v], the rest as they were. *)
Definition be_merge (f : Z -> Z) (a v m : Z) : Z -> Z :=
  fun x => if (a <=? x) && (x <? a + 8) then
             (f x .& bnot 8 (u8 (m .>> (8 * (a + 7 - x))))) .| (u8 (v .>> (8 * (a + 7 - x))) .& u8 (m .>> (8 * (a + 7 - x)))) else f x.

(** ** Host bytes *)

Definition bytes_ok (b : PpMemory) : Prop := forall o x, mem b !! o = Some x -> fits 8 x.

Lemma host_fits b o : bytes_ok b -> fits 8 (host_byte b o).
Proof. intros H. unfold host_byte. destruct (mem b !! o) as [x|] eqn:E; [by eapply H|by split]. Qed.

Lemma le_store_byte n : forall b o v x,
  host_byte (le_store b o n v) x = if (o <=? x) && (x <? o + Z.of_nat n) then u8 (v .>> (8 * (x - o))) else host_byte b x.
Proof.
  induction n as [|n IH]; intros b o v x; cbn [le_store].
  - destruct (Z.leb_spec o x), (Z.ltb_spec x (o + Z.of_nat 0)); done || lia.
  - rewrite IH. unfold host_byte at 1. cbn.
    destruct (Z.leb_spec (o + 1) x), (Z.ltb_spec x (o + 1 + Z.of_nat n)), (Z.leb_spec o x), (Z.ltb_spec x (o + Z.of_nat (S n))); try lia; cbn [andb].
    + rewrite Z.shiftr_shiftr by lia. f_equal. f_equal. lia.
    + rewrite lookup_insert_ne by lia. done.
    + assert (x = o) as -> by lia. by rewrite lookup_insert_eq, Z.sub_diag, Z.mul_0_r, Z.shiftr_0_r.
    + rewrite lookup_insert_ne by lia. done.
Qed.

Lemma le_store_ok n : forall b o v, bytes_ok b -> bytes_ok (le_store b o n v).
Proof.
  induction n as [|n IH]; intros b o v H; [done|]. apply IH. intros x y. cbn.
  destruct (decide (o = x)) as [->|Hne]; [rewrite lookup_insert_eq; intros [= <-]; by apply wrap_fits|].
  rewrite lookup_insert_ne by done. apply H.
Qed.

Lemma le_store_frame n : forall b o v, size_bytes (le_store b o n v) = size_bytes b /\ addr_mask (le_store b o n v) = addr_mask b.
Proof. induction n as [|n IH]; intros b o v; [done|]. exact (IH (b <| mem ::= <[o := u8 v]> |>) (o + 1) (v .>> 8)). Qed.

(** ** Where a guest byte is *)

Lemma xor3 x : x .^ 3 = 4 * (x / 4) + (3 - x mod 4).
Proof.
  pose proof (Z.mod_pos_bound x 4 ltac:(lia)) as Hm. pose proof (Z.div_mod (x .^ 3) 4 ltac:(lia)) as Hd.
  assert ((x .^ 3) / 4 = x / 4) as E1.
  { change 4 with (2 ^ 2). rewrite <- !Z.shiftr_div_pow2, Z.shiftr_lxor by lia. by rewrite Z.lxor_0_r. }
  assert ((x .^ 3) mod 4 = (x mod 4) .^ 3) as E2.
  { change 4 with (2 ^ 2). rewrite <- !Z.land_ones by lia. change 3 with (Z.ones 2). zbits. }
  assert (x mod 4 = 0 \/ x mod 4 = 1 \/ x mod 4 = 2 \/ x mod 4 = 3) as [E|[E|[E|E]]] by lia; rewrite E in E2 |- *; rewrite E1, E2 in Hd; rewrite Hd; reflexivity.
Qed.

Lemma xor1 x : x .^ 1 = 2 * (x / 2) + (1 - x mod 2).
Proof.
  pose proof (Z.mod_pos_bound x 2 ltac:(lia)) as Hm. pose proof (Z.div_mod (x .^ 1) 2 ltac:(lia)) as Hd.
  assert ((x .^ 1) / 2 = x / 2) as E1.
  { change 2 with (2 ^ 1). rewrite <- !Z.shiftr_div_pow2, Z.shiftr_lxor by lia. by rewrite Z.lxor_0_r. }
  assert ((x .^ 1) mod 2 = (x mod 2) .^ 1) as E2.
  { rewrite <- !Z.bit0_mod, Z.lxor_spec. by destruct (Z.testbit x 0). }
  assert (x mod 2 = 0 \/ x mod 2 = 1) as [E|E] by lia; rewrite E in E2 |- *; rewrite E1, E2 in Hd; rewrite Hd; reflexivity.
Qed.

Definition guest (b : PpMemory) (o : Z) : Z := host_byte b (o .^ 3).

(** Word-aligned [o]: the four bytes of its word. *)
Lemma word_bytes b o i : o mod 4 = 0 -> 0 <= i < 4 -> guest b (o + i) = host_byte b (o + 3 - i).
Proof.
  intros Ho Hi. unfold guest. rewrite xor3. f_equal. pose proof (Z.div_mod o 4 ltac:(lia)).
  assert ((o + i) / 4 = o / 4 /\ (o + i) mod 4 = i) as [-> ->]; [|lia].
  assert (o + i = i + o / 4 * 4) as -> by lia. rewrite Z.div_add, Z.mod_add, Z.div_small, Z.mod_small by lia. lia.
Qed.

Lemma rotate_join lo hi : fits 32 lo -> fits 32 hi -> rotate_left32 (lo + 2 ^ 32 * hi) = lo * 2 ^ 32 + hi.
Proof.
  intros Hl Hh. unfold rotate_left32. rewrite Z.shiftr_div_pow2, Z.shiftl_mul_pow2 by lia.
  assert ((lo + 2 ^ 32 * hi) / 2 ^ 32 = hi) as ->.
  { rewrite Z.mul_comm, Z.div_add, Z.div_small by (done || lia). lia. }
  assert (u64 ((lo + 2 ^ 32 * hi) * 2 ^ 32) = lo * 2 ^ 32) as ->.
  { unfold u64, wrap. replace ((lo + 2 ^ 32 * hi) * 2 ^ 32) with (lo * 2 ^ 32 + hi * 2 ^ 64) by lia.
    rewrite Z.mod_add by lia. apply Z.mod_small. unfold fits in *. lia. }
  by apply lor_block.
Qed.

Lemma rotate_low v k : 0 <= k < 4 -> u8 (rotate_left32 v .>> (8 * k)) = u8 (v .>> (8 * (k + 4))).
Proof. intros Hk. unfold rotate_left32, u8, u64. zbits. Qed.

Lemma rotate_high v k : fits 64 v -> 4 <= k < 8 -> u8 (rotate_left32 v .>> (8 * k)) = u8 (v .>> (8 * (k - 4))).
Proof. intros Hv Hk. rewrite <- (wrap_small 64 v Hv). unfold rotate_left32, u8, u64. zbits. Qed.

(** ** Offsets in a bank *)

Lemma off_aligned b a k : 0 <= k -> a mod 2 ^ k = 0 -> off b a mod 2 ^ k = 0.
Proof.
  intros Hk Ha. unfold off. rewrite <- Z.land_ones in * by done.
  rewrite <- Z.land_assoc, (Z.land_comm (addr_mask b)), Z.land_assoc, Ha. apply Z.land_0_l.
Qed.

Lemma scale_aligned o k : 0 <= k -> o mod 2 ^ k = 0 -> 2 ^ k * (o .>> k) = o.
Proof. intros Hk Ho. rewrite Z.shiftr_div_pow2 by done. pose proof (Z.div_mod o (2 ^ k) ltac:(lia)). lia. Qed.

(** Halfwords trade places in their word. *)
Lemma half_place o : o mod 2 = 0 -> 2 * ((o .>> 1) .^ 1) = 4 * (o / 4) + (2 - o mod 4).
Proof.
  intros Ho. rewrite xor1, Z.shiftr_div_pow2 by lia. change (2 ^ 1) with 2. rewrite Z.div_div by lia. change (2 * 2) with 4.
  Z.to_euclidean_division_equations. lia.
Qed.

(** ** Reads *)

Lemma le_load_4 b o : le_load b o 4 = host_byte b o + 256 * (host_byte b (o + 1) + 256 * (host_byte b (o + 2) + 256 * host_byte b (o + 3))).
Proof. cbn [le_load]. replace (o + 1 + 1) with (o + 2) by lia. replace (o + 2 + 1) with (o + 3) by lia. lia. Qed.

Lemma be_read_4 f a : be_read f a 4 = f a * 16777216 + f (a + 1) * 65536 + f (a + 2) * 256 + f (a + 3).
Proof.
  cbn [be_read]. replace (a + 1 + 1) with (a + 2) by lia. replace (a + 2 + 1) with (a + 3) by lia.
  change (256 ^ Z.of_nat 3) with 16777216. change (256 ^ Z.of_nat 2) with 65536. change (256 ^ Z.of_nat 1) with 256. change (256 ^ Z.of_nat 0) with 1. lia.
Qed.

Lemma load_word b o : o mod 4 = 0 -> le_load b o 4 = be_read (guest b) o 4.
Proof.
  intros Ho. rewrite le_load_4, be_read_4, <- (Z.add_0_r o) at 1.
  pose proof (word_bytes b o 0 Ho ltac:(lia)) as E0. rewrite Z.add_0_r in E0. rewrite E0, !(word_bytes b o) by lia.
  replace (o + 0) with o by lia. replace (o + 3 - 0) with (o + 3) by lia. replace (o + 3 - 1) with (o + 2) by lia.
  replace (o + 3 - 2) with (o + 1) by lia. replace (o + 3 - 3) with o by lia. lia.
Qed.

Lemma load_half b o : o mod 2 = 0 -> le_load b (2 * ((o .>> 1) .^ 1)) 2 = be_read (guest b) o 2.
Proof.
  intros Ho. rewrite half_place by done. cbn [le_load be_read]. unfold guest. rewrite !xor3.
  assert ((o + 1) / 4 = o / 4 /\ (o + 1) mod 4 = o mod 4 + 1) as [-> ->] by (Z.to_euclidean_division_equations; lia).
  change (256 ^ Z.of_nat 1) with 256. change (256 ^ Z.of_nat 0) with 1.
  replace (4 * (o / 4) + (2 - o mod 4) + 1) with (4 * (o / 4) + (3 - o mod 4)) by lia.
  replace (4 * (o / 4) + (3 - (o mod 4 + 1))) with (4 * (o / 4) + (2 - o mod 4)) by lia. lia.
Qed.

Lemma le_load_fits n : forall b o, bytes_ok b -> fits (8 * Z.of_nat n) (le_load b o n).
Proof.
  induction n as [|n IH]; intros b o Hb; cbn [le_load]; [by split|].
  pose proof (IH b (o + 1) Hb) as [? ?]. pose proof (host_fits b o Hb) as [? ?].
  split; [lia|]. replace (8 * Z.of_nat (S n)) with (8 + 8 * Z.of_nat n) by lia. rewrite Z.pow_add_r by lia. change (2 ^ 8) with 256 in *. lia.
Qed.

Lemma le_load_app m : forall n b o, le_load b o (m + n) = le_load b o m + 2 ^ (8 * Z.of_nat m) * le_load b (o + Z.of_nat m) n.
Proof.
  induction m as [|m IH]; intros n b o; cbn [Nat.add le_load].
  - change (2 ^ (8 * Z.of_nat 0)) with 1. rewrite Z.add_0_r. lia.
  - rewrite IH. replace (8 * Z.of_nat (S m)) with (8 + 8 * Z.of_nat m) by lia. rewrite Z.pow_add_r by lia. change (2 ^ 8) with 256.
    replace (o + 1 + Z.of_nat m) with (o + Z.of_nat (S m)) by lia. lia.
Qed.

Lemma be_read_app m : forall n f a, be_read f a (m + n) = be_read f a m * 256 ^ Z.of_nat n + be_read f (a + Z.of_nat m) n.
Proof.
  induction m as [|m IH]; intros n f a; cbn [Nat.add be_read].
  - by rewrite Z.add_0_r.
  - rewrite IH, Nat2Z.inj_add, Z.pow_add_r by lia. replace (a + 1 + Z.of_nat m) with (a + Z.of_nat (S m)) by lia. lia.
Qed.

Lemma load_double b o : bytes_ok b -> o mod 8 = 0 -> rotate_left32 (le_load b o 8) = be_read (guest b) o 8.
Proof.
  intros Hb Ho. change 8%nat with (4 + 4)%nat. rewrite le_load_app, be_read_app.
  rewrite rotate_join by (by apply (le_load_fits 4)).
  rewrite !load_word by (Z.to_euclidean_division_equations; lia). done.
Qed.

Lemma le_load_byte n : forall b o k, bytes_ok b -> 0 <= k < Z.of_nat n -> u8 (le_load b o n .>> (8 * k)) = host_byte b (o + k).
Proof.
  induction n as [|n IH]; intros b o k Hb Hk; [lia|]. cbn [le_load]. pose proof (host_fits b o Hb) as Hh.
  destruct (decide (k = 0)) as [->|Hk0].
  - rewrite Z.mul_0_r, Z.shiftr_0_r, Z.add_0_r. unfold u8, wrap. change (2 ^ 8) with 256. unfold fits in Hh. change (2 ^ 8) with 256 in Hh.
    rewrite (Z.mul_comm 256), Z.mod_add, Z.mod_small by lia. done.
  - replace (8 * k) with (8 + 8 * (k - 1)) by lia. rewrite <- Z.shiftr_shiftr by lia.
    assert ((host_byte b o + 256 * le_load b (o + 1) n) .>> 8 = le_load b (o + 1) n) as ->.
    { rewrite Z.shiftr_div_pow2 by lia. change (2 ^ 8) with 256. unfold fits in Hh. change (2 ^ 8) with 256 in Hh.
      rewrite (Z.mul_comm 256), Z.div_add, Z.div_small by lia. lia. }
    rewrite IH by (done || lia). f_equal. lia.
Qed.

(** ** Writes *)

(** A guest byte of a naturally aligned run of [n] host bytes from [h]. *)
Lemma guest_store b h n v x :
  guest (le_store b h n v) x = if (h <=? x .^ 3) && (x .^ 3 <? h + Z.of_nat n) then u8 (v .>> (8 * (x .^ 3 - h))) else guest b x.
Proof. apply le_store_byte. Qed.

(** Case analysis on whether the byte is in the run, on both sides. *)
Ltac in_run :=
  unfold be_write, be_merge; rewrite guest_store;
  match goal with |- context [(?a <=? ?x .^ 3) && (?x .^ 3 <? ?b)] =>
    destruct (Z.leb_spec a (x .^ 3)), (Z.ltb_spec (x .^ 3) b) end;
  match goal with |- context [(?a <=? ?x) && (?x <? ?b)] => destruct (Z.leb_spec a x), (Z.ltb_spec x b) end;
  rewrite ?xor3 in *; cbn [andb]; try done; try (Z.to_euclidean_division_equations; lia).

Lemma store_half b o v x : o mod 2 = 0 -> guest (le_store b (2 * ((o .>> 1) .^ 1)) 2 v) x = be_write (guest b) o 2 v x.
Proof.
  intros Ho. rewrite half_place by done. in_run. do 3 f_equal. Z.to_euclidean_division_equations; lia.
Qed.

Lemma bank_store_word b o v x : o mod 4 = 0 -> guest (le_store b o 4 v) x = be_write (guest b) o 4 v x.
Proof. intros Ho. in_run. do 3 f_equal. Z.to_euclidean_division_equations; lia. Qed.

Lemma store_byte b o v x : guest (le_store b (o .^ 3) 1 v) x = be_write (guest b) o 1 v x.
Proof. in_run. do 3 f_equal. Z.to_euclidean_division_equations; lia. Qed.

(** Byte [x] of a doubleword is in the half the rotation brought there. *)
Lemma rotated v o x : fits 64 v -> o mod 8 = 0 -> o <= x < o + 8 -> u8 (rotate_left32 v .>> (8 * (x .^ 3 - o))) = u8 (v .>> (8 * (o + 7 - x))).
Proof.
  intros Hv Ho Hx. rewrite xor3. destruct (Z.lt_ge_cases x (o + 4)).
  - rewrite rotate_low by (Z.to_euclidean_division_equations; lia). do 3 f_equal. Z.to_euclidean_division_equations; lia.
  - rewrite rotate_high by (done || Z.to_euclidean_division_equations; lia). do 3 f_equal. Z.to_euclidean_division_equations; lia.
Qed.

Lemma store_double b o v x : fits 64 v -> o mod 8 = 0 -> guest (le_store b o 8 (rotate_left32 v)) x = be_write (guest b) o 8 v x.
Proof.
  intros Hv Ho. unfold be_write. rewrite guest_store. change (Z.of_nat 8) with 8. replace (o + 8 - 1 - x) with (o + 7 - x) by lia.
  destruct (Z.leb_spec o x), (Z.ltb_spec x (o + 8)); cbn [andb].
  1: rewrite rotated by (done || lia). all: rewrite xor3; destruct (Z.leb_spec o (4 * (x / 4) + (3 - x mod 4))), (Z.ltb_spec (4 * (x / 4) + (3 - x mod 4)) (o + 8)); cbn [andb]; try done; Z.to_euclidean_division_equations; lia.
Qed.

Lemma masked_byte l v m k : 0 <= k < 8 -> u8 (((l .& bnot 64 m) .| (v .& m)) .>> (8 * k)) =
  (u8 (l .>> (8 * k)) .& bnot 8 (u8 (m .>> (8 * k)))) .| (u8 (v .>> (8 * k)) .& u8 (m .>> (8 * k))).
Proof. intros Hk. unfold bnot, u8. zbits. Qed.

Lemma store_masked b o v m x : bytes_ok b -> fits 64 v -> fits 64 m -> o mod 8 = 0 ->
  guest (le_store b o 8 ((le_load b o 8 .& bnot 64 (rotate_left32 m)) .| (rotate_left32 v .& rotate_left32 m))) x = be_merge (guest b) o v m x.
Proof.
  intros Hb Hv Hm Ho. unfold be_merge. rewrite guest_store. change (Z.of_nat 8) with 8.
  destruct (decide (o <= x < o + 8)) as [Hx|Hx].
  - assert (o <= x .^ 3 < o + 8) as Hx3 by (rewrite xor3; Z.to_euclidean_division_equations; lia).
    rewrite masked_byte, !rotated, le_load_byte by (done || lia). unfold guest. replace (o + (x .^ 3 - o)) with (x .^ 3) by lia.
    destruct (Z.leb_spec o x), (Z.ltb_spec x (o + 8)), (Z.leb_spec o (x .^ 3)), (Z.ltb_spec (x .^ 3) (o + 8)); done || lia.
  - assert (~ o <= x .^ 3 < o + 8) as Hx3 by (rewrite xor3; Z.to_euclidean_division_equations; lia).
    destruct (Z.leb_spec o x), (Z.ltb_spec x (o + 8)), (Z.leb_spec o (x .^ 3)), (Z.ltb_spec (x .^ 3) (o + 8)); done || lia.
Qed.

End PpMemProofs.

Module PpMemClaims.

Import BlockNode PpMem PpMemProofs.
#[local] Open Scope Z_scope.
#[local] Open Scope word_scope.

(** ** Runs of accesses *)

Inductive Access : Type :=
  | Read8 (addr : Z) | Read16 (addr : Z) | Read32 (addr : Z) | Read64 (addr : Z) | ReadBlock (addr : Z) (n : nat)
  | Write8 (addr val : Z) | Write16 (addr val : Z) | Write32 (addr val : Z) | Write64 (addr val : Z)
  | WriteMasked (addr val mask : Z) | WriteBlock (addr : Z) (buf : list Z) | SetMask (mask : Z) | PowerOn.

(** [None]: an access left the storage. *)
Definition step (b : PpMemory) (a : Access) : option (PpMemory * list Z) :=
  let got o := v ← o; Some (b, [v]) in
  let stored o := b ← o; Some (b, []) in
  match a with
  | Read8 a => got (read8 b a)
  | Read16 a => got (read16 b a)
  | Read32 a => got (read32 b a)
  | Read64 a => got (read64 b a)
  | ReadBlock a n => l ← read_block b a n; Some (b, l)
  | Write8 a v => stored (write8 b a v)
  | Write16 a v => stored (write16 b a v)
  | Write32 a v => stored (write32 b a v)
  | Write64 a v => stored (write64 b a v)
  | WriteMasked a v m => stored (write64_masked b a v m)
  | WriteBlock a buf => stored (write_block b a buf)
  | SetMask m => Some (set_addr_mask b m, [])
  | PowerOn => Some (power_on b, [])
  end.

Fixpoint run (b : PpMemory) (l : list Access) : option (PpMemory * list (list Z)) :=
  match l with
  | [] => Some (b, [])
  | a :: l => '(b, out) ← step b a; '(b, outs) ← run b l; Some (b, out :: outs)
  end.

(** The array: what every guest byte holds, and the mask. *)
Record Array : Type := mkArray { at_ : Z -> Z; mask : Z }.

Fixpoint be_write_block (f : Z -> Z) (a : Z) (buf : list Z) : Z -> Z :=
  match buf with [] => f | v :: buf => be_write_block (be_write f a 8 v) (a + 8) buf end.

Definition array_step (size : Z) (s : Array) (a : Access) : Array * list Z :=
  let put f := (mkArray f (mask s), []) in
  match a with
  | Read8 a => (s, [be_read (at_ s) (a .& mask s) 1])
  | Read16 a => (s, [be_read (at_ s) (a .& mask s) 2])
  | Read32 a => (s, [be_read (at_ s) (a .& mask s) 4])
  | Read64 a => (s, [be_read (at_ s) (a .& mask s) 8])
  | ReadBlock a n => (s, (fun i => be_read (at_ s) ((a .& mask s) + 8 * i) 8) <$> seqZ 0 (Z.of_nat n))
  | Write8 a v => put (be_write (at_ s) (a .& mask s) 1 v)
  | Write16 a v => put (be_write (at_ s) (a .& mask s) 2 v)
  | Write32 a v => put (be_write (at_ s) (a .& mask s) 4 v)
  | Write64 a v => put (be_write (at_ s) (a .& mask s) 8 v)
  | WriteMasked a v m => put (be_merge (at_ s) (a .& mask s) v m)
  | WriteBlock a buf => put (be_write_block (at_ s) (a .& mask s) buf)
  | SetMask m => (mkArray (at_ s) (m .& (size - 1)), [])
  | PowerOn => (mkArray (fun _ => 0) (mask s), [])
  end.

Fixpoint array_run (size : Z) (s : Array) (l : list Access) : Array * list (list Z) :=
  match l with
  | [] => (s, [])
  | a :: l => let '(s, out) := array_step size s a in let '(s, outs) := array_run size s l in (s, out :: outs)
  end.

(** Accesses the bus makes: aligned to their width, values of their width, and
    blocks that end inside the bank. *)
Definition asked (size : Z) (s : Array) (a : Access) : Prop :=
  match a with
  | Read8 a | Write8 a _ => True
  | Read16 a | Write16 a _ => a mod 2 = 0
  | Read32 a | Write32 a _ => a mod 4 = 0
  | Read64 a => a mod 8 = 0
  | Write64 a v => a mod 8 = 0 /\ fits 64 v
  | WriteMasked a v m => a mod 8 = 0 /\ fits 64 v /\ fits 64 m
  | ReadBlock a n => a mod 8 = 0 /\ (a .& mask s) + 8 * Z.of_nat n <= size
  | WriteBlock a buf => a mod 8 = 0 /\ Forall (fits 64) buf /\ (a .& mask s) + 8 * Z.of_nat (length buf) <= size
  | SetMask m => 0 <= m
  | PowerOn => True
  end.

#[export] Instance asked_dec size s a : Decision (asked size s a).
Proof. destruct a; cbn; apply _. Defined.

Fixpoint all_asked (size : Z) (s : Array) (l : list Access) : Prop :=
  match l with [] => True | a :: l => asked size s a /\ all_asked size (array_step size s a).1 l end.

#[export] Instance all_asked_dec size l : forall s, Decision (all_asked size s l).
Proof. induction l as [|a l IH]; intros s; cbn [all_asked]; apply _. Defined.

(** ** The invariant of a bank *)

Definition bank_ok (b : PpMemory) : Prop :=
  bytes_ok b /\ (forall o x, mem b !! o = Some x -> 0 <= o < size_bytes b) /\ 0 <= addr_mask b < size_bytes b /\ size_bytes b mod 8 = 0.

Definition agrees (b : PpMemory) (s : Array) : Prop := (forall x, guest b x = at_ s x) /\ addr_mask b = mask s.

Lemma land_at_most m a : 0 <= m -> 0 <= m .& a <= m.
Proof.
  intros Hm. pose proof (proj2 (Z.land_nonneg m a) (or_introl Hm)) as H1. pose proof (proj2 (Z.ldiff_nonneg m a) (or_introl Hm)) as H2.
  assert (Z.land (m .& a) (Z.ldiff m a) = 0) as Hd.
  { apply Z.bits_inj'. intros i _. rewrite Z.land_spec, Z.land_spec, Z.ldiff_spec, Z.bits_0. by destruct (Z.testbit m i), (Z.testbit a i). }
  pose proof (Z.add_nocarry_lxor _ _ Hd) as E. assert (Z.lxor (m .& a) (Z.ldiff m a) = m) as E2; [|lia].
  apply Z.bits_inj'. intros i _. rewrite Z.lxor_spec, Z.land_spec, Z.ldiff_spec. by destruct (Z.testbit m i), (Z.testbit a i).
Qed.

Lemma off_bounds b a : bank_ok b -> 0 <= off b a < size_bytes b.
Proof.
  intros (_ & _ & Hm & _). unfold off. rewrite Z.land_comm. pose proof (land_at_most (addr_mask b) a ltac:(lia)). lia.
Qed.

Lemma bank_new_ok g mb b : new g mb = Some b -> bank_ok b /\ agrees b (mkArray (fun _ => 0) (size_bytes b - 1)).
Proof.
  unfold new. destruct (_ && _) eqn:E; [|done]. apply andb_prop in E as [E%Z.ltb_lt _]. intros [= <-].
  split; [|split; [|done]]; [|intros x; apply (f_equal (default 0) (lookup_empty _))].
  split_and!; try (intros ? ?; cbn; rewrite lookup_empty; done); cbn [size_bytes addr_mask]; [lia..|].
  replace (mb * 1024 * 1024) with (mb * 131072 * 8) by lia. apply Z.mod_mul. lia.
Qed.

(** Stores keep the invariant when they stay in the bank. *)
Lemma le_store_dom n : forall b o v x y, mem (le_store b o n v) !! x = Some y -> o <= x < o + Z.of_nat n \/ mem b !! x = Some y.
Proof.
  induction n as [|n IH]; intros b o v x y; [by right|]. intros [H|H]%IH; [lia|]. cbn in H.
  destruct (decide (o = x)) as [->|Hne]; [lia|]. rewrite lookup_insert_ne in H by done. by right.
Qed.

Lemma store_keeps b o n v : bank_ok b -> 0 <= o -> o + Z.of_nat n <= size_bytes b -> bank_ok (le_store b o n v).
Proof.
  intros (H1 & H2 & H3 & H4) Ho Hn. pose proof (le_store_frame n b o v) as [Es Em].
  split; [by apply le_store_ok|]. rewrite Es, Em. split; [|done].
  intros x y [H|H]%le_store_dom; [lia|by eapply H2].
Qed.

Lemma store_agrees b o n v s f :
  agrees b s -> (forall x, guest (le_store b o n v) x = f (guest b) x) -> (forall g g' x, (forall y, g y = g' y) -> f g x = f g' x) ->
  agrees (le_store b o n v) (mkArray (f (at_ s)) (mask s)).
Proof.
  intros [Hg Hm] Hf Hext. split; cbn; [|by rewrite (proj2 (le_store_frame n b o v))].
  intros x. rewrite Hf. by apply Hext.
Qed.

(** ** The array's operations look at bytes only *)

Lemma be_read_ext n : forall f g a, (forall x, f x = g x) -> be_read f a n = be_read g a n.
Proof. induction n as [|n IH]; intros f g a H; cbn [be_read]; [done|]. by rewrite H, (IH f g). Qed.

Lemma be_write_ext f g a n v x : (forall y, f y = g y) -> be_write f a n v x = be_write g a n v x.
Proof. intros H. unfold be_write. by rewrite H. Qed.

Lemma be_merge_ext f g a v m x : (forall y, f y = g y) -> be_merge f a v m x = be_merge g a v m x.
Proof. intros H. unfold be_merge. by rewrite H. Qed.

Lemma be_write_block_ext buf : forall f g a x, (forall y, f y = g y) -> be_write_block f a buf x = be_write_block g a buf x.
Proof. induction buf as [|v buf IH]; intros f g a x H; cbn [be_write_block]; [done|]. apply IH. intros y. by apply be_write_ext. Qed.

(** ** Blocks *)

(** What one access leaves: the invariant, the abstraction, the size. *)
Definition kept (b b' : PpMemory) (s' : Array) : Prop := bank_ok b' /\ agrees b' s' /\ size_bytes b' = size_bytes b.

Lemma in_bank_true b o n : 0 <= o -> o + Z.of_nat n <= size_bytes b -> in_bank b o n = true.
Proof. intros. apply andb_true_intro. split; apply Z.leb_le; lia. Qed.

Lemma host_load_in b o n : 0 <= o -> o + Z.of_nat n <= size_bytes b -> host_load b o n = Some (le_load b o n).
Proof. intros. unfold host_load. by rewrite in_bank_true. Qed.

Lemma host_store_in b o n v : 0 <= o -> o + Z.of_nat n <= size_bytes b -> host_store b o n v = Some (le_store b o n v).
Proof. intros. unfold host_store. by rewrite in_bank_true. Qed.

Lemma store_block_ok buf : forall b o s,
  bank_ok b -> agrees b s -> Forall (fits 64) buf -> o mod 8 = 0 -> 0 <= o -> o + 8 * Z.of_nat (length buf) <= size_bytes b ->
  exists b', store_block b o buf = Some b' /\ kept b b' (mkArray (be_write_block (at_ s) o buf) (mask s)).
Proof.
  induction buf as [|v buf IH]; intros b o s Hb Ha Hf Ho H0 Hl; cbn [store_block be_write_block length] in *.
  - exists b. split_and!; try done; apply Ha.
  - apply Forall_cons in Hf as [Hv Hf]. pose proof (le_store_frame 8 b o (rotate_left32 v)) as [Es Em].
    rewrite host_store_in by lia. cbn [mbind option_bind].
    destruct (IH (le_store b o 8 (rotate_left32 v)) (o + 8) (mkArray (be_write (at_ s) o 8 v) (mask s))) as (b' & E & ? & ? & ?); rewrite ?Es; try done; try lia.
    + apply store_keeps; done || lia.
    + apply (store_agrees _ _ _ _ _ (fun f => be_write f o 8 v)); [done| |intros; by apply be_write_ext].
      intros x. by apply store_double.
    + rewrite Z.add_mod, Ho, Z_mod_same_full by lia. done.
    + exists b'. split_and!; done || congruence.
Qed.

Lemma load_block_ok b n : forall o, bytes_ok b -> o mod 8 = 0 -> 0 <= o -> o + 8 * Z.of_nat n <= size_bytes b ->
  load_block b o n = Some ((fun i => be_read (guest b) (o + 8 * i) 8) <$> seqZ 0 (Z.of_nat n)).
Proof.
  induction n as [|n IH]; intros o Hb Ho H0 Hl; [done|]. cbn [load_block]. rewrite host_load_in by lia. cbn [mbind option_bind].
  rewrite IH by (done || lia || (rewrite Z.add_mod, Ho, Z_mod_same_full by lia; done)). cbn [mbind option_bind].
  rewrite Nat2Z.inj_succ, (seqZ_cons 0 (Z.succ _)) by lia. cbn [fmap list_fmap]. rewrite Z.mul_0_r, Z.add_0_r, load_double by done. do 2 f_equal.
  rewrite Z.pred_succ, <- (fmap_add_seqZ 1 0), <- list_fmap_compose. apply list_fmap_ext. intros i x _. unfold compose. f_equal. lia.
Qed.

(** ** One access *)

Lemma aligned_room k o size : 0 <= k <= 3 -> o mod 2 ^ k = 0 -> size mod 8 = 0 -> 0 <= o < size -> o + 2 ^ k <= size.
Proof.
  intros Hk. assert (k = 0 \/ k = 1 \/ k = 2 \/ k = 3) as [->|[->|[->| ->]]] by lia; cbn; intros; Z.to_euclidean_division_equations; lia.
Qed.

Lemma place_of b a k : bank_ok b -> 0 <= k <= 3 -> a mod 2 ^ k = 0 ->
  2 ^ k * (off b a .>> k) = off b a /\ off b a mod 2 ^ k = 0 /\ 0 <= off b a /\ off b a + 2 ^ k <= size_bytes b.
Proof.
  intros Hb Hk Ha. pose proof (off_bounds b a Hb) as Ho. pose proof (off_aligned b a k ltac:(lia) Ha) as Hm.
  split_and!; [apply scale_aligned; done || lia|done|lia|]. eapply aligned_room; eauto. by apply Hb.
Qed.

Lemma store_kept b o n v s f :
  bank_ok b -> agrees b s -> 0 <= o -> o + Z.of_nat n <= size_bytes b ->
  (forall x, guest (le_store b o n v) x = f (guest b) x) -> (forall g g' x, (forall y, g y = g' y) -> f g x = f g' x) ->
  exists b', host_store b o n v = Some b' /\ kept b b' (mkArray (f (at_ s)) (mask s)).
Proof. intros Hb Ha H0 Hn Hf He. rewrite host_store_in by done. eexists. split; [done|]. split_and!; [by apply store_keeps|by apply store_agrees|apply le_store_frame]. Qed.

Lemma byte_room o size : 0 <= o < size -> size mod 8 = 0 -> 0 <= o .^ 3 /\ o .^ 3 + 1 <= size.
Proof. rewrite xor3. intros. Z.to_euclidean_division_equations; lia. Qed.

Lemma half_room o size : o mod 2 = 0 -> 0 <= o < size -> size mod 8 = 0 -> 0 <= 2 * ((o .>> 1) .^ 1) /\ 2 * ((o .>> 1) .^ 1) + 2 <= size.
Proof. intros Ho. rewrite half_place by done. intros. Z.to_euclidean_division_equations; lia. Qed.

(** A store's outcome as a step's. *)
Lemma stored_step b o (s' : Array) :
  (exists b', o = Some b' /\ kept b b' s') -> exists b', (b ← o; Some (b, [] : list Z)) = Some (b', []) /\ kept b b' s'.
Proof. intros (b' & -> & H). by exists b'. Qed.

Lemma read_step b s a : bank_ok b -> agrees b s ->
  match a with
  | Read8 _ | Read16 _ | Read32 _ | Read64 _ | ReadBlock _ _ => asked (size_bytes b) s a -> step b a = Some (b, (array_step (size_bytes b) s a).2) /\ (array_step (size_bytes b) s a).1 = s
  | _ => True
  end.
Proof.
  intros Hb [Hg Hm]. destruct a as [a|a|a|a|a n| | | | | | | |]; try done; cbn [step array_step asked]; intros Hal; (split; [|done]); rewrite <- Hm; fold (off b a); cbn [snd].
  - destruct (byte_room (off b a) (size_bytes b)) as [? ?]; [by apply off_bounds|apply Hb|].
    rewrite <- (be_read_ext 1 _ _ _ Hg). unfold read8. rewrite host_load_in by lia. cbn [mbind option_bind le_load be_read]. change (256 ^ Z.of_nat 0) with 1. do 3 f_equal. unfold guest. lia.
  - destruct (place_of b a 1 Hb ltac:(lia) Hal) as (_ & Ho & _). destruct (half_room (off b a) (size_bytes b)) as [? ?]; [done|by apply off_bounds|apply Hb|].
    unfold read16. rewrite host_load_in by lia. cbn [mbind option_bind]. by rewrite <- (be_read_ext 2 _ _ _ Hg), <- load_half.
  - destruct (place_of b a 2 Hb ltac:(lia) Hal) as (E & Ho & ? & ?). unfold read32. change 4 with (2 ^ 2) at 1. rewrite E, host_load_in by lia. cbn [mbind option_bind]. by rewrite <- (be_read_ext 4 _ _ _ Hg), <- load_word.
  - destruct (place_of b a 3 Hb ltac:(lia) Hal) as (E & Ho & ? & ?). unfold read64. change 8 with (2 ^ 3) at 1. rewrite E, host_load_in by lia. cbn [mbind option_bind fmap option_fmap option_map].
    rewrite <- (be_read_ext 8 _ _ _ Hg), <- load_double; [done|apply Hb|done].
  - destruct Hal as [Hal Hlen]. rewrite <- Hm in Hlen. fold (off b a) in Hlen. destruct (place_of b a 3 Hb ltac:(lia) Hal) as (E & Ho & ? & ?). unfold read_block. change 8 with (2 ^ 3) at 1. rewrite E, load_block_ok by (done || apply Hb). cbn [mbind option_bind].
    do 2 f_equal. apply list_fmap_ext. intros i x _. by apply be_read_ext.
Qed.

Lemma write_step b s a : bank_ok b -> agrees b s ->
  match a with
  | Read8 _ | Read16 _ | Read32 _ | Read64 _ | ReadBlock _ _ => True
  | _ => asked (size_bytes b) s a -> exists b', step b a = Some (b', []) /\ kept b b' (array_step (size_bytes b) s a).1
  end.
Proof.
  intros Hb Ha. pose proof (proj2 Ha) as Hm.
  destruct a as [| | | | |a v|a v|a v|a v|a v m|a buf|m|]; try done; cbn [step array_step asked fst snd]; intros Hal; try apply stored_step.
  - rewrite <- Hm. fold (off b a). destruct (byte_room (off b a) (size_bytes b)) as [? ?]; [by apply off_bounds|apply Hb|]. rewrite Hm.
    apply (store_kept b _ 1 v s (fun f => be_write f (off b a) 1 v)); [done|done|done|done|intros x; apply store_byte|intros; by apply be_write_ext].
  - rewrite <- Hm. fold (off b a). destruct (place_of b a 1 Hb ltac:(lia) Hal) as (_ & Ho & _).
    destruct (half_room (off b a) (size_bytes b)) as [? ?]; [done|by apply off_bounds|apply Hb|]. rewrite Hm.
    apply (store_kept b _ 2 v s (fun f => be_write f (off b a) 2 v)); [done|done|done|done|intros x; by apply store_half|intros; by apply be_write_ext].
  - rewrite <- Hm. fold (off b a). destruct (place_of b a 2 Hb ltac:(lia) Hal) as (E & Ho & H0 & Hl). rewrite Hm. unfold write32. change 4 with (2 ^ 2) at 1. rewrite E.
    apply (store_kept b _ 4 v s (fun f => be_write f (off b a) 4 v)); [done|done|done|done|intros x; by apply bank_store_word|intros; by apply be_write_ext].
  - destruct Hal as [Hal Hv]. rewrite <- Hm. fold (off b a). destruct (place_of b a 3 Hb ltac:(lia) Hal) as (E & Ho & H0 & Hl). rewrite Hm. unfold write64. change 8 with (2 ^ 3) at 1. rewrite E.
    apply (store_kept b _ 8 _ s (fun f => be_write f (off b a) 8 v)); [done|done|done|done|intros x; by apply store_double|intros; by apply be_write_ext].
  - destruct Hal as (Hal & Hv & Hmk). rewrite <- Hm. fold (off b a). destruct (place_of b a 3 Hb ltac:(lia) Hal) as (E & Ho & H0 & Hl). rewrite Hm. unfold write64_masked. cbv zeta.
    change (8 * (off b a .>> 3)) with (2 ^ 3 * (off b a .>> 3)). rewrite !E, host_load_in by lia. cbn [mbind option_bind].
    apply (store_kept b _ 8 _ s (fun f => be_merge f (off b a) v m)); [done|done|done|done|intros x; apply store_masked; [apply Hb|done..]|intros; by apply be_merge_ext].
  - destruct Hal as (Hal & Hf & Hlen). rewrite <- Hm in Hlen |- *. fold (off b a) in Hlen |- *. destruct (place_of b a 3 Hb ltac:(lia) Hal) as (E & Ho & H0 & Hl). rewrite Hm.
    unfold write_block. change 8 with (2 ^ 3) at 1. rewrite E. by apply store_block_ok.
  - eexists; split; [done|]. destruct Hb as (H1 & H2 & H3 & H4). destruct Ha as [Hg _]. pose proof (land_at_most (size_bytes b - 1) m ltac:(lia)).
    split; [|by split; [split|]]. split; [done|split; [done|split; [|done]]]. cbn. rewrite Z.land_comm. lia.
  - eexists; split; [done|]. destruct Hb as (H1 & H2 & H3 & H4). split_and!; try done; try lia; intros ? ?; cbn; rewrite lookup_empty; done.
Qed.

Lemma bank_step_refines b s a : bank_ok b -> agrees b s -> asked (size_bytes b) s a ->
  exists b', step b a = Some (b', (array_step (size_bytes b) s a).2) /\ kept b b' (array_step (size_bytes b) s a).1.
Proof.
  intros Hb Ha Hq. pose proof (read_step b s a Hb Ha) as Hr. pose proof (write_step b s a Hb Ha) as Hw.
  destruct a; (by apply Hw) || (destruct (Hr Hq) as [-> ->]; exists b; split; [done|by split_and!]).
Qed.

Lemma bank_run_refines l : forall b s, bank_ok b -> agrees b s -> all_asked (size_bytes b) s l ->
  exists b', run b l = Some (b', (array_run (size_bytes b) s l).2) /\ kept b b' (array_run (size_bytes b) s l).1.
Proof.
  induction l as [|a l IH]; intros b s Hb Ha; cbn [all_asked]; [intros _; exists b; split; [done|by split_and!]|]. intros [Hq Hl].
  destruct (bank_step_refines b s a Hb Ha Hq) as (b' & E & Hb' & Ha' & Es). cbn [run array_run]. rewrite E. cbn [mbind option_bind].
  destruct (array_step (size_bytes b) s a) as [s' out]. cbn [fst snd] in *.
  rewrite <- Es in Hl |- *. destruct (IH b' s' Hb' Ha' Hl) as (b2 & E2 & ? & ? & Es2). rewrite E2. cbn [mbind option_bind].
  destruct (array_run (size_bytes b') s' l) as [s2 outs]. cbn [fst snd] in *.
  exists b2. split; [done|split_and!; congruence].
Qed.

(** ** Saving and loading *)

Lemma from_to_be ws : Forall (fits 32) ws -> from_be (mjoin (to_be <$> ws)) = ws.
Proof.
  induction 1 as [|w ws Hw _ IH]; [done|]. cbn [fmap list_fmap mjoin list_join to_be app from_be]. f_equal; [|done].
  rewrite <- (wrap_small 32 w Hw) at 5. unfold u8. zbits.
Qed.

Lemma snapshot_fits b : bytes_ok b -> Forall (fits 32) (snapshot_words b).
Proof. intros Hb. apply Forall_fmap, Forall_forall. intros i _. by apply (le_load_fits 4). Qed.

Definition put_words (b : PpMemory) (l : list (nat * Z)) : PpMemory := foldl (fun b '(i, w) => le_store b (4 * Z.of_nat i) 4 w) b l.

Lemma put_words_byte ws : forall i k b x,
  host_byte (put_words b (zip (seq i (length ws + k)) ws)) x =
  if (4 * Z.of_nat i <=? x) && (x <? 4 * Z.of_nat (i + length ws)) then u8 ((ws !!! Z.to_nat (x / 4 - Z.of_nat i)) .>> (8 * (x mod 4))) else host_byte b x.
Proof.
  induction ws as [|w ws IH]; intros i k b x; cbn [length Nat.add seq zip zip_with put_words foldl].
  - destruct (Z.leb_spec (4 * Z.of_nat i) x), (Z.ltb_spec x (4 * Z.of_nat (i + 0))); cbn [andb]; try lia; by destruct (seq i k).
  - fold (put_words (le_store b (4 * Z.of_nat i) 4 w) (zip (seq (S i) (length ws + k)) ws)). rewrite IH, le_store_byte.
    destruct (decide (4 * Z.of_nat (S i) <= x < 4 * Z.of_nat (S i + length ws))) as [Hx|Hx].
    + replace (Z.to_nat (x / 4 - Z.of_nat i)) with (S (Z.to_nat (x / 4 - Z.of_nat (S i)))) by (Z.to_euclidean_division_equations; lia).
      destruct (Z.leb_spec (4 * Z.of_nat (S i)) x), (Z.ltb_spec x (4 * Z.of_nat (S i + length ws))), (Z.leb_spec (4 * Z.of_nat i) x), (Z.ltb_spec x (4 * Z.of_nat (i + S (length ws)))); done || lia.
    + destruct (decide (4 * Z.of_nat i <= x < 4 * Z.of_nat (S i))) as [Hy|Hy].
      * replace (Z.to_nat (x / 4 - Z.of_nat i)) with 0%nat by (Z.to_euclidean_division_equations; lia).
        replace (x - 4 * Z.of_nat i) with (x mod 4) by (Z.to_euclidean_division_equations; lia).
        destruct (Z.leb_spec (4 * Z.of_nat (S i)) x), (Z.ltb_spec x (4 * Z.of_nat (S i + length ws))), (Z.leb_spec (4 * Z.of_nat i) x), (Z.ltb_spec x (4 * Z.of_nat (i + S (length ws)))), (Z.ltb_spec x (4 * Z.of_nat i + Z.of_nat 4)); done || lia.
      * destruct (Z.leb_spec (4 * Z.of_nat (S i)) x), (Z.ltb_spec x (4 * Z.of_nat (S i + length ws))), (Z.leb_spec (4 * Z.of_nat i) x), (Z.ltb_spec x (4 * Z.of_nat (i + S (length ws)))), (Z.ltb_spec x (4 * Z.of_nat i + Z.of_nat 4)); done || lia.
Qed.

Lemma snapshot_at b x : bank_ok b -> 0 <= x < size_bytes b -> u8 ((snapshot_words b !!! Z.to_nat (x / 4)) .>> (8 * (x mod 4))) = host_byte b x.
Proof.
  intros (Hb & _ & _ & Hs) Hx. assert (snapshot_words b !! Z.to_nat (x / 4) = Some (le_load b (4 * (x / 4)) 4)) as E.
  { unfold snapshot_words. apply list_lookup_fmap_Some. exists (x / 4). split; [done|].
    apply lookup_seqZ. split; Z.to_euclidean_division_equations; lia. }
  rewrite (list_lookup_total_correct _ _ _ E), le_load_byte; [|done|Z.to_euclidean_division_equations; lia].
  f_equal. Z.to_euclidean_division_equations; lia.
Qed.

Lemma snapshot_length b : 0 <= size_bytes b -> Z.of_nat (length (snapshot_words b)) = size_bytes b / 4.
Proof. intros H. unfold snapshot_words. rewrite length_fmap, length_seqZ. pose proof (Z.div_pos (size_bytes b) 4). lia. Qed.

Lemma bank_load_saved b b' x :
  bank_ok b -> size_bytes b' = size_bytes b -> 0 <= x < size_bytes b -> host_byte (restore_words b' (snapshot_words b)) x = host_byte b x.
Proof.
  intros Hb Es Hx. unfold restore_words. rewrite Es. pose proof (snapshot_length b ltac:(lia)) as Hl.
  rewrite take_ge by lia. fold (put_words b' (zip (seq 0 (length (snapshot_words b))) (snapshot_words b))).
  rewrite <- (Nat.add_0_r (length (snapshot_words b))) at 1. rewrite put_words_byte, Z.sub_0_r, snapshot_at by done.
  destruct Hb as (_ & _ & _ & Hs).
  destruct (Z.leb_spec (4 * Z.of_nat 0) x), (Z.ltb_spec x (4 * Z.of_nat (0 + length (snapshot_words b)))); try done; Z.to_euclidean_division_equations; lia.
Qed.

Lemma saved_bank_loads fs b b' path :
  bank_ok b -> size_bytes b' = size_bytes b ->
  exists b2, load_bin (save_bin fs b path) b' path = Ok b2 /\ forall x, 0 <= x < size_bytes b -> guest b2 x = guest b x.
Proof.
  intros Hb Es. unfold load_bin, save_bin. rewrite lookup_insert_eq, from_to_be by (apply snapshot_fits, Hb). eexists; split; [done|].
  intros x Hx. unfold guest. apply bank_load_saved; [done|done|]. destruct (byte_room x (size_bytes b)); [done|apply Hb|lia].
Qed.

(** C13: a bank that [new] made is an array of [size_bytes] zero bytes: any
    run of aligned accesses of 1, 2, 4 and 8 bytes, masked stores, block
    transfers that end inside the bank, mask changes and power cycles goes
    through, no access of it leaving the storage (an access that did would
    stop the run), and returns what it returns of the array with multi-byte
    values most significant byte first, although the storage holds words in
    the host's order; the bank saved to a file and loaded into any bank of its
    size is that array again. *)
Theorem ram_bank_is_bytes g mb b l :
  new g mb = Some b ->
  all_asked (size_bytes b) (mkArray (fun _ => 0) (size_bytes b - 1)) l ->
  exists b', run b l = Some (b', (array_run (size_bytes b) (mkArray (fun _ => 0) (size_bytes b - 1)) l).2) /\
  (forall o x, mem b' !! o = Some x -> 0 <= o < size_bytes b /\ fits 8 x) /\
  (forall x, guest b' x = at_ (array_run (size_bytes b) (mkArray (fun _ => 0) (size_bytes b - 1)) l).1 x) /\
  (forall fs b0 path, size_bytes b0 = size_bytes b ->
     exists b2, load_bin (save_bin fs b' path) b0 path = Ok b2 /\ forall x, 0 <= x < size_bytes b -> guest b2 x = guest b' x).
Proof.
  intros Hn Hl. destruct (bank_new_ok g mb b Hn) as [Hb Ha]. destruct (bank_run_refines l b _ Hb Ha Hl) as (b' & E & Hk & [Hg _] & Es).
  exists b'. split_and!; [done|intros; rewrite <- Es; split; by eapply Hk|done|]. intros fs b0 path Eb. rewrite <- Es in Eb |- *. by apply saved_bank_loads.
Qed.

(** Writes of every width to one doubleword, across a mask change. *)
Definition example : list Access :=
  [Write64 0 0x0102030405060708; Write8 1 0xAA; Write16 6 0xBBCC; WriteMasked 0 0x1100000000000022 0xFF000000000000FF; Read32 4; Read64 0;
   WriteBlock 16 [1; 2]; SetMask 0xFFF; Read16 0x1002; ReadBlock 16 2].

Lemma ram_bank_is_bytes_witness : exists b b', new 4096 1 = Some b /\ run b example = Some (b', [[]; []; []; []; [0x0506BB22]; [0x11AA03040506BB22]; []; []; [0x0304]; [1; 2]]).
Proof.
  destruct (new 4096 1) as [b|] eqn:E; [|discriminate]. exists b.
  assert (all_asked (size_bytes b) (mkArray (fun _ => 0) (size_bytes b - 1)) example) as Hl.
  { injection E as <-. apply (bool_decide_unpack _). vm_compute. exact I. }
  destruct (ram_bank_is_bytes 4096 1 b example E Hl) as (b' & Hr & _). exists b'. split; [done|]. rewrite Hr. injection E as <-. vm_compute. reflexivity.
Defined.

(** A block read past the end of the bank leaves the storage. *)
Example block_read_past_end :
  new 4096 1 = Some (mkBank ∅ 0x100000 0xFFFFF) /\ read_block (mkBank ∅ 0x100000 0xFFFFF) 0xFFFF8 1 = Some [0] /\ read_block (mkBank ∅ 0x100000 0xFFFFF) 0xFFFF8 2 = None.
Proof. split; [reflexivity|]. split; reflexivity. Qed.

End PpMemClaims.
