(* ===== verification/PpWindowClaims.v ===== *)
(** * The window says where the banks are

    What is proved of the window of PpMem.v: after any run of mappings and
    clears, an address reads a bank exactly when a recorded mapping covers it,
    the bitmap has a bit for exactly the 64 MB regions that banks cover, and a
    placed bank answers with the byte the bus would reach. *)

From stdpp Require Import strings.
From S2P Require Import Prelude BlockNode PpMem PpMemClaims.
Import BlockNode PpMem PpMemProofs.

#[local] Open Scope Z_scope.
#[local] Open Scope word_scope.

Module PpWindowClaims.

(** ** Views *)

Definition is_bank (r : option (option (nat * Z))) : bool := match r with Some (Some _) => true | _ => false end.

Definition within (at_ len p : Z) : bool := (at_ <=? p) && (p <? at_ + len).

Lemma within_spec at_ len p : within at_ len p = true <-> at_ <= p < at_ + len.
Proof. unfold within. rewrite andb_true_iff, Z.leb_le, Z.ltb_lt. lia. Qed.

Lemma resolve_map s at_ len to p :
  resolve (space (map_view s at_ len to)) p = if within at_ len p then Some ('(bank, src) ← to; Some (bank, src + (p - at_))) else resolve (space s) p.
Proof. done. Qed.

(** The loop of [map_bank] repeats the bank's first [period] bytes. *)
Lemma place_resolve bank offset size period p : 0 < period -> forall fuel s placed,
  0 <= placed -> placed mod period = 0 \/ size <= placed -> size - placed <= Z.of_nat fuel * period ->
  resolve (space (place fuel s bank offset size period placed)) p =
  if within (offset + placed) (size - placed) p then Some (Some (bank, (p - offset) mod period)) else resolve (space s) p.
Proof.
  intros Hp. induction fuel as [|fuel IH]; intros s placed H0 Hm Hf; cbn [place].
  - destruct (within _ _ _) eqn:E; [|done]. apply within_spec in E. lia.
  - destruct (Z.ltb_spec placed size) as [Hlt|Hge].
    2: { destruct (within _ _ _) eqn:E; [|done]. apply within_spec in E. lia. }
    destruct Hm as [Hm|]; [|lia]. assert (period <= size - placed -> (placed + period) mod period = 0) as Hm'.
    { intros _. by rewrite Z.add_mod, Hm, Z_mod_same_full by lia. }
    rewrite IH; [|lia|destruct (Z.le_gt_cases period (size - placed)); [left; rewrite Z.min_l by lia; auto|right; lia]|].
    2: { destruct (Z.le_gt_cases period (size - placed)); [rewrite Z.min_l by lia; lia|rewrite Z.min_r by lia; lia]. }
    rewrite resolve_map. destruct (within (offset + placed) (size - placed) p) eqn:E.
    + destruct (within (offset + (placed + _)) _ p) eqn:E2; [done|].
      assert (within (offset + placed) (Z.min period (size - placed)) p = true) as ->.
      { apply within_spec. apply within_spec in E. apply not_true_iff_false in E2. rewrite within_spec in E2. lia. }
      cbn. do 3 f_equal. apply within_spec in E. apply not_true_iff_false in E2. rewrite within_spec in E2.
      pose proof (Z.div_mod placed period ltac:(lia)) as Ed. rewrite Hm in Ed.
      replace (p - offset) with (p - (offset + placed) + placed / period * period) by lia.
      rewrite Z.mod_add, Z.mod_small by lia. done.
    + apply not_true_iff_false in E. rewrite within_spec in E.
      destruct (within (offset + (placed + _)) _ p) eqn:E2; [apply within_spec in E2; lia|].
      destruct (within (offset + placed) (Z.min _ _) p) eqn:E3; [apply within_spec in E3; lia|done].
Qed.

Lemma place_frame bank offset size period : forall fuel s placed,
  mappings (place fuel s bank offset size period placed) = mappings s /\ bitmap (place fuel s bank offset size period placed) = bitmap s.
Proof.
  induction fuel as [|fuel IH]; intros s placed; cbn [place]; [done|]. destruct (_ <? _); [|done].
  exact (IH (map_view s (offset + placed) (Z.min period (size - placed)) (Some (bank, 0))) _).
Qed.

Lemma record_space s at_ len : space (record s at_ len) = space s.
Proof. done. Qed.

(** Mapping a bank: mirrored over the range, nothing else changed. *)
Lemma map_bank_resolve s bank_size bank offset size period s' p :
  map_bank s bank_size bank offset size period = Some s' ->
  resolve (space s') p = if within offset size p then Some (Some (bank, (p - offset) mod period)) else resolve (space s) p.
Proof.
  unfold map_bank. destruct (_ && _) eqn:E; [|done]. rewrite !andb_true_iff, !Z.ltb_lt, !Z.leb_le in E. destruct E as [[[Hs Hp] _] _].
  intros [= <-]. rewrite record_space, place_resolve; try lia.
  - by rewrite Z.add_0_r, Z.sub_0_r.
  - left. by apply Z.mod_0_l; lia.
  - pose proof (Z.div_pos size period ltac:(lia) Hp). rewrite Z2Nat.id by lia. pose proof (Z.mod_pos_bound size period Hp). pose proof (Z.div_mod size period). lia.
Qed.

(** ** The bitmap *)

Definition covered (ms : list Mapping) (p : Z) : bool := existsb (fun m => covers m p) ms.

Lemma covered_spec ms p : covered ms p = true <-> exists m, m ∈ ms /\ m_at m <= p < m_at m + m_len m.
Proof.
  unfold covered. rewrite existsb_exists. apply exist_proper. intros m. rewrite list_elem_of_In. apply and_iff_compat_l, within_spec.
Qed.

Lemma covers_spec m p : covers m p = true <-> m_at m <= p < m_at m + m_len m.
Proof. apply within_spec. Qed.

(** A step of the loop ends past one mapping more. *)
Lemma covered_to_sound ms stop : forall fuel at_, covered_to fuel ms at_ stop = true -> forall p, at_ <= p < stop -> covered ms p = true.
Proof.
  induction fuel as [|fuel IH]; intros at_; cbn [covered_to]; [done|].
  destruct (list_find _ ms) as [[i m]|] eqn:E; [|done]. apply list_find_Some in E as (Hi & Hc & _). apply covers_spec in Hc.
  assert (forall p, at_ <= p < m_at m + m_len m -> covered ms p = true) as Hm.
  { intros p Hp. apply covered_spec. exists m. split; [by eapply list_elem_of_lookup_2|lia]. }
  destruct (Z.leb_spec stop (m_at m + m_len m)); intros Hrest p Hp; [apply Hm; lia|].
  destruct (Z.lt_ge_cases p (m_at m + m_len m)); [apply Hm; lia|apply (IH _ Hrest); lia].
Qed.

(** The mappings not yet passed. *)
Definition ahead (ms : list Mapping) (p : Z) : nat := length (filter (fun m => p < m_at m + m_len m) ms).

Lemma ahead_cons m ms p : ahead (m :: ms) p = ((if bool_decide (p < m_at m + m_len m)%Z then 1 else 0) + ahead ms p)%nat.
Proof. unfold ahead. rewrite filter_cons. case_decide; [rewrite bool_decide_eq_true_2|rewrite bool_decide_eq_false_2]; done. Qed.

Lemma ahead_mono ms p p' : p <= p' -> (ahead ms p' <= ahead ms p)%nat.
Proof. intros Hp. induction ms as [|m ms IH]; [done|]. rewrite !ahead_cons. repeat case_bool_decide; lia. Qed.

Lemma ahead_less ms p p' m : m ∈ ms -> p < m_at m + m_len m -> m_at m + m_len m <= p' -> p <= p' -> (ahead ms p' < ahead ms p)%nat.
Proof.
  intros Hm H1 H2 Hp. induction ms as [|m' ms IH]; [by apply not_elem_of_nil in Hm|]. pose proof (ahead_mono ms p p' Hp).
  rewrite !ahead_cons. apply elem_of_cons in Hm as [->|Hm]; [|specialize (IH Hm)]; repeat case_bool_decide; lia.
Qed.

Lemma covered_to_complete ms stop : forall fuel at_, (ahead ms at_ < fuel)%nat -> at_ < stop ->
  (forall p, at_ <= p < stop -> covered ms p = true) -> covered_to fuel ms at_ stop = true.
Proof.
  induction fuel as [|fuel IH]; intros at_ Hf Hs Hc; [lia|]. cbn [covered_to].
  pose proof (Hc at_ ltac:(lia)) as [m0 [Hm0 Hc0]]%covered_spec.
  destruct (list_find _ ms) as [[i m]|] eqn:E.
  - apply list_find_Some in E as (Hi & Hcm & _). apply covers_spec in Hcm.
    destruct (Z.leb_spec stop (m_at m + m_len m)); [done|]. apply IH; [|lia|intros p Hp; apply Hc; lia].
    enough (ahead ms (m_at m + m_len m) < ahead ms at_)%nat by lia. eapply ahead_less; [by eapply list_elem_of_lookup_2|lia..].
  - apply list_find_None in E. rewrite Forall_forall in E. exfalso. apply (E m0 Hm0). by apply covers_spec.
Qed.

Lemma covered_to_spec ms start stop : start < stop ->
  covered_to (S (length ms)) ms start stop = true <-> forall p, start <= p < stop -> covered ms p = true.
Proof.
  intros Hs. split; [apply covered_to_sound|]. intros H. apply covered_to_complete; [|done|done].
  unfold ahead. pose proof (length_filter (fun m => start < m_at m + m_len m) ms). lia.
Qed.

(** The loop over the 64 bits sets those that are asked for. *)
Lemma bits_testbit (f : Z -> bool) n : forall i bits k, 0 <= i -> 0 <= bits -> 0 <= k ->
  Z.testbit (foldl (fun bits bit => if f bit then bits .| (1 .<< bit) else bits) bits (seqZ i (Z.of_nat n))) k =
  Z.testbit bits k || ((i <=? k) && (k <? i + Z.of_nat n) && f k).
Proof.
  induction n as [|n IH]; intros i bits k Hi Hb Hk.
  - replace (seqZ i (Z.of_nat 0)) with (@nil Z) by done. cbn [foldl]. replace (i + Z.of_nat 0) with i by lia.
    destruct (Z.leb_spec i k), (Z.ltb_spec k i); cbn; rewrite ?orb_false_r; done || lia.
  - rewrite seqZ_cons by lia. cbn [foldl]. replace (Z.pred (Z.of_nat (S n))) with (Z.of_nat n) by lia.
    rewrite IH; [|lia| |done].
    2: { destruct (f i); [|done]. apply Z.lor_nonneg. split; [done|]. by apply Z.shiftl_nonneg. }
    assert (Z.testbit (if f i then bits .| (1 .<< i) else bits) k = Z.testbit bits k || ((i =? k) && f k)) as ->.
    { destruct (Z.eqb_spec i k) as [->|Hne]; destruct (f _) eqn:Ef; rewrite ?orb_false_r; cbn; try done;
        rewrite ?Z.lor_spec, ?Z.shiftl_spec by done.
      - by rewrite Z.sub_diag.
      - assert (Z.testbit 1 (k - i) = false) as ->; [|by rewrite orb_false_r].
        destruct (Z.lt_ge_cases k i); [by apply Z.testbit_neg_r; lia|]. apply (Z.bits_above_log2 1); cbn; lia. }
    destruct (Z.eqb_spec i k), (Z.leb_spec i k), (Z.leb_spec (Z.succ i) k), (Z.ltb_spec k (Z.succ i + Z.of_nat n)), (Z.ltb_spec k (i + Z.of_nat (S n))); try lia; cbn;
      rewrite ?orb_false_r; try done.
Qed.

Lemma recompute_bit s k : 0 <= k -> Z.testbit (bitmap (recompute_bitmap s)) k =
  (k <? 64) && covered_to (S (length (mappings s))) (mappings s) (k * REGION) (k * REGION + REGION).
Proof.
  intros Hk. unfold recompute_bitmap. cbn [bitmap]. change 64 with (Z.of_nat 64) at 1.
  pose proof (bits_testbit (fun bit => covered_to (S (length (mappings s))) (mappings s) (bit * REGION) (bit * REGION + REGION)) 64 0 0 k ltac:(lia) ltac:(lia) Hk) as E.
  rewrite Z.bits_0 in E. cbn [orb] in E. rewrite (proj2 (Z.leb_le 0 k) Hk), Z.add_0_l in E. exact E.
Qed.

(** The bit test of the fast path. *)
Lemma maps_bit bits p : 0 <= p -> bitmap_maps bits p = (p .>> BITMAP_SHIFT <? 64) && Z.testbit bits (p .>> BITMAP_SHIFT).
Proof.
  intros Hp. unfold bitmap_maps. f_equal. assert (0 <= p .>> BITMAP_SHIFT) as H0 by (by apply Z.shiftr_nonneg). set (r := p .>> BITMAP_SHIFT) in *.
  destruct (Z.eqb_spec (bits .& (1 .<< r)) 0) as [E|E]; cbn [negb].
  - symmetry. pose proof (f_equal (fun z => Z.testbit z r) E) as Et. cbn beta in Et.
    rewrite Z.land_spec, Z.bits_0, Z.shiftl_spec, Z.sub_diag in Et by done. by rewrite andb_true_r in Et.
  - symmetry. destruct (Z.testbit bits r) eqn:Et; [done|]. exfalso. apply E. apply Z.bits_inj'. intros i Hi.
    rewrite Z.land_spec, Z.bits_0, Z.shiftl_spec by done. destruct (decide (i = r)) as [->|Hne]; [by rewrite Et|].
    destruct (Z.lt_ge_cases i r); [rewrite (Z.testbit_neg_r 1) by lia; apply andb_false_r|].
    rewrite (Z.bits_above_log2 1 (i - r)) by (cbn; lia). apply andb_false_r.
Qed.

Lemma REGION_pos : 0 < REGION.
Proof. done. Qed.

(** ** The invariant *)

Definition window_ok (s : PpMemSpace) : Prop :=
  (forall p, is_bank (resolve (space s) p) = covered (mappings s) p) /\
  (forall k, 0 <= k < 64 -> Z.testbit (bitmap s) k = true <-> forall p, k * REGION <= p < k * REGION + REGION -> is_bank (resolve (space s) p) = true).

Lemma over_ok : window_ok over.
Proof.
  split; [done|]. intros k Hk. cbn [over bitmap]. rewrite Z.bits_0. split; [done|]. intros H.
  exfalso. specialize (H (k * REGION) ltac:(pose proof REGION_pos; lia)). done.
Qed.

Lemma record_ok s s' at_ len :
  (forall p, is_bank (resolve (space s') p) = within at_ len p || is_bank (resolve (space s) p)) ->
  mappings s' = mappings s -> window_ok s -> window_ok (record s' at_ len).
Proof.
  intros Hr Hm [H1 _].
  assert (forall p, is_bank (resolve (space (record s' at_ len)) p) = covered (mappings (record s' at_ len)) p) as HA.
  { intros p. rewrite record_space, Hr, H1. unfold record. cbn [mappings]. change (mappings (recompute_bitmap ?x)) with (mappings x). cbn [mappings]. rewrite Hm.
    unfold covered. apply eq_true_iff_eq. rewrite orb_true_iff, !existsb_exists. setoid_rewrite <- list_elem_of_In. setoid_rewrite elem_of_app. setoid_rewrite list_elem_of_filter. setoid_rewrite list_elem_of_singleton.
    setoid_rewrite covers_spec. rewrite within_spec. split.
    - intros [Hw|(m & Hm' & Hc)]; [exists (mkMapping at_ len); split; [by right|done]|].
      destruct ((at_ <=? m_at m) && (m_at m + m_len m <=? at_ + len)) eqn:E.
      + apply andb_prop in E as [E1%Z.leb_le E2%Z.leb_le]. exists (mkMapping at_ len). split; [by right|cbn; lia].
      + exists m. split; [left; split; [by rewrite E|done]|done].
    - intros (m & [[_ Hm']| ->] & Hc); [right; by exists m|by left]. }
  split; [done|]. intros k Hk. unfold record. rewrite recompute_bit by lia. rewrite (proj2 (Z.ltb_lt k 64)) by lia. cbn [andb].
  rewrite covered_to_spec by (pose proof REGION_pos; lia). by setoid_rewrite HA.
Qed.

(** Clearing: every recorded range reads as no bank. *)
Lemma scrub_resolve ms : forall s p,
  is_bank (resolve (space (foldl (fun s m => map_view s (m_at m) (m_len m) None) s ms)) p) = negb (covered ms p) && is_bank (resolve (space s) p) /\
  mappings (foldl (fun s m => map_view s (m_at m) (m_len m) None) s ms) = mappings s.
Proof.
  induction ms as [|m ms IH]; intros s p; cbn [foldl]; [done|].
  destruct (IH (map_view s (m_at m) (m_len m) None) p) as [-> ->]. split; [|done].
  rewrite resolve_map. cbn [covered existsb]. fold (covered ms p). change (covers m p) with (within (m_at m) (m_len m) p).
  destruct (within (m_at m) (m_len m) p); cbn; [apply andb_false_r|done].
Qed.

Lemma clear_ok s : window_ok s -> window_ok (clear_mappings s) /\ forall p, is_bank (resolve (space (clear_mappings s)) p) = false.
Proof.
  intros [H1 _]. assert (forall p, is_bank (resolve (space (clear_mappings s)) p) = false) as HA.
  { intros p. unfold clear_mappings. destruct (scrub_resolve (mappings s) (mkSpace (space s) [] (bitmap s)) p) as [E _]. etransitivity; [exact E|]. cbn [space].
    rewrite H1. by destruct (covered _ _). }
  split; [|done]. split.
  - intros p. rewrite HA. unfold clear_mappings. destruct (scrub_resolve (mappings s) (mkSpace (space s) [] (bitmap s)) p) as [_ E]. symmetry.
    transitivity (covered [] p); [f_equal; exact E|done].
  - intros k Hk. change (bitmap (clear_mappings s)) with 0. rewrite Z.bits_0. split; [done|]. intros H.
    specialize (H (k * REGION) ltac:(pose proof REGION_pos; lia)). by rewrite HA in H.
Qed.

Lemma map_bank_ok s bank_size bank offset size period s' :
  map_bank s bank_size bank offset size period = Some s' -> window_ok s -> window_ok s'.
Proof.
  intros E Hs. pose proof (fun p => map_bank_resolve _ _ _ _ _ _ _ p E) as Hr. unfold map_bank in E. destruct (_ && _); [|done]. injection E as <-.
  eapply record_ok; [|apply place_frame|exact Hs]. intros p. specialize (Hr p). rewrite record_space in Hr. rewrite Hr. by destruct (within _ _ _).
Qed.

(** ** Histories of the window *)

Inductive WindowOp : Type :=
  | MapBank (bank : nat) (offset size period : Z)
  | MapRange (bank : nat) (src offset size : Z)
  | MapAlias (bank : nat) (offset size : Z)
  | ClearMappings.

Section Sizes.

(** The banks' sizes. *)
Context (sizes : nat -> Z).

Definition window_step (s : PpMemSpace) (o : WindowOp) : option PpMemSpace :=
  match o with
  | MapBank bank offset size period => map_bank s (sizes bank) bank offset size period
  | MapRange bank src offset size => map_range s (sizes bank) bank src offset size
  | MapAlias bank offset size => map_alias s (sizes bank) bank offset size
  | ClearMappings => Some (clear_mappings s)
  end.

Definition window_run (s : PpMemSpace) (os : list WindowOp) : option PpMemSpace := foldl (fun s o => s ← s; window_step s o) (Some s) os.

Definition unsigned (o : WindowOp) : Prop :=
  match o with
  | MapBank _ offset size _ => 0 <= offset
  | MapRange _ src offset size => 0 <= src /\ 0 <= offset /\ 0 <= size
  | MapAlias _ offset size => 0 <= offset /\ 0 <= size
  | ClearMappings => True
  end.

(** Every view is of bytes its bank has. *)
Definition in_banks (s : PpMemSpace) : Prop := forall p bank o, resolve (space s) p = Some (Some (bank, o)) -> 0 <= o < sizes bank /\ 0 <= p < WINDOW_SIZE.

Lemma scrub_in_banks ms : forall s, in_banks s -> in_banks (foldl (fun s m => map_view s (m_at m) (m_len m) None) s ms).
Proof.
  induction ms as [|m ms IH]; intros s Hs; cbn [foldl]; [done|]. apply IH. intros p bank o. rewrite resolve_map. destruct (within _ _ _); [done|apply Hs].
Qed.

Lemma range_ok s bank src offset size :
  0 <= src -> 0 <= offset -> src + size <= sizes bank -> offset + size <= WINDOW_SIZE ->
  window_ok s -> in_banks s -> window_ok (record (map_view s offset size (Some (bank, src))) offset size) /\ in_banks (record (map_view s offset size (Some (bank, src))) offset size).
Proof.
  intros H1 H2 H3 H4 Hw Hb. split.
  - apply (record_ok s); [|done|exact Hw]. intros p. rewrite resolve_map. by destruct (within _ _ _).
  - intros p b o. rewrite record_space, resolve_map. destruct (within _ _ _) eqn:E; [|apply Hb].
    apply within_spec in E. cbn. intros [= <- <-]. lia.
Qed.

Lemma window_step_ok s o s' : unsigned o -> window_step s o = Some s' -> window_ok s -> in_banks s -> window_ok s' /\ in_banks s'.
Proof.
  intros Hu Hs Hw Hb. destruct o as [bank offset size period|bank src offset size|bank offset size|]; cbn [unsigned window_step] in *.
  - split; [by eapply map_bank_ok|]. intros p b o. rewrite (map_bank_resolve _ _ _ _ _ _ _ p Hs). destruct (within _ _ _) eqn:E; [|apply Hb].
    apply within_spec in E. intros [= <- <-]. unfold map_bank in Hs. destruct (_ && _) eqn:Ec; [|done].
    rewrite !andb_true_iff, !Z.ltb_lt, !Z.leb_le in Ec. pose proof (Z.mod_pos_bound (p - offset) period ltac:(lia)). lia.
  - unfold map_range in Hs. destruct (_ && _) eqn:Ec; [|done]. injection Hs as <-. rewrite andb_true_iff, !Z.leb_le in Ec. apply range_ok; done || lia.
  - unfold map_alias in Hs. destruct (_ && _) eqn:Ec; [|done]. injection Hs as <-. rewrite andb_true_iff, !Z.leb_le in Ec. apply range_ok; done || lia.
  - injection Hs as <-. destruct (clear_ok s Hw) as [Hc _]. split; [done|]. exact (scrub_in_banks (mappings s) (mkSpace (space s) [] (bitmap s)) Hb).
Qed.

Lemma window_run_ok os : forall s s', Forall unsigned os -> window_run s os = Some s' -> window_ok s -> in_banks s -> window_ok s' /\ in_banks s'.
Proof.
  induction os as [|o os IH]; intros s s' Hos Hr Hw Hb; [by injection Hr as <-|].
  apply Forall_cons in Hos as [Ho Hos]. unfold window_run in Hr. cbn [foldl] in Hr. change (Some s ≫= ?f) with (f s) in Hr. cbn beta in Hr.
  destruct (window_step s o) as [s1|] eqn:E.
  - destruct (window_step_ok s o s1 Ho E Hw Hb) as [Hw1 Hb1]. by apply (IH s1 s').
  - exfalso. clear -Hr. induction os as [|o os IH]; [done|by apply IH].
Qed.

Lemma region_range p k : p .>> BITMAP_SHIFT = k <-> k * REGION <= p < k * REGION + REGION.
Proof.
  unfold BITMAP_SHIFT. rewrite Z.shiftr_div_pow2 by lia. change (2 ^ 26) with REGION. pose proof REGION_pos.
  pose proof (Z.div_mod p REGION ltac:(lia)). pose proof (Z.mod_pos_bound p REGION ltac:(lia)). split; [intros <-; lia|].
  intros Hk. symmetry. apply (Z.div_unique_pos p REGION k (p - k * REGION)); lia.
Qed.

(** C15: the bitmap the CPU tests before it reads memory through a pointer is
    exact.  After any mappings and clears that did not panic, an address below
    4 GB passes the test exactly when every byte of its 64 MB region is a byte
    of a bank, and no address above passes; the bytes are within their bank;
    and an address reads a bank exactly when a recorded mapping covers it, so
    clearing the recorded ranges leaves no bank behind. *)
Theorem window_bitmap_exact (os : list WindowOp) (s : PpMemSpace) :
  Forall unsigned os -> window_run over os = Some s ->
  (forall p, 0 <= p -> bitmap_maps (bitmap s) p = true <->
     p < WINDOW_SIZE /\ forall q, q .>> BITMAP_SHIFT = p .>> BITMAP_SHIFT -> is_bank (resolve (space s) q) = true) /\
  (forall p bank o, resolve (space s) p = Some (Some (bank, o)) -> 0 <= o < sizes bank) /\
  (forall p, is_bank (resolve (space s) p) = existsb (fun m => covers m p) (mappings s)).
Proof.
  intros Hu Hr. destruct (window_run_ok os over s Hu Hr over_ok) as [[H1 H2] H3]; [by intros ? ? ?|]. split_and!; [|intros p b o Hp; by eapply H3|exact H1].
  intros p Hp. rewrite maps_bit, andb_true_iff, Z.ltb_lt by done. pose proof (proj1 (region_range p _) eq_refl) as Hrng.
  assert (0 <= p .>> BITMAP_SHIFT) as H0 by (by apply Z.shiftr_nonneg). change WINDOW_SIZE with (64 * REGION). set (k := p .>> BITMAP_SHIFT) in *.
  assert (k < 64 <-> p < 64 * REGION) as Hk by (pose proof REGION_pos; nia). rewrite <- Hk. split; intros [Hk' Hb]; (split; [done|]).
  - intros q Hq%region_range. by apply (proj1 (H2 k ltac:(lia)) Hb).
  - apply (H2 k); [lia|]. intros q Hq. by apply Hb, region_range.
Qed.

End Sizes.

(** Two 64 MB banks beside each other, the second a 16 MB one mirrored, then
    the alias at zero. *)
Definition banks_at : list WindowOp := [MapBank 0 0x8000000 0x4000000 0x4000000; MapBank 1 0xC000000 0x4000000 0x1000000; MapAlias 0 0 0x80000].

Definition bank_sizes (i : nat) : Z := match i with O => 0x4000000 | _ => 0x1000000 end.

Lemma window_bitmap_exact_witness : exists s, window_run bank_sizes over banks_at = Some s /\
  bitmap_maps (bitmap s) 0xD123456 = true /\ bitmap_maps (bitmap s) 0 = false /\ (forall q, q .>> BITMAP_SHIFT = 3 -> is_bank (resolve (space s) q) = true).
Proof.
  destruct (window_run bank_sizes over banks_at) as [s|] eqn:E; [|vm_compute in E; discriminate E]. exists s. split; [done|].
  assert (bitmap_maps (bitmap s) 0xD123456 = true /\ bitmap_maps (bitmap s) 0 = false) as [B1 B2].
  { vm_compute in E. injection E as <-. split; reflexivity. }
  split; [exact B1|split; [exact B2|]].
  assert (Forall unsigned banks_at) as Hu by (repeat constructor; vm_compute; discriminate).
  exact (proj2 (proj1 (proj1 (window_bitmap_exact bank_sizes banks_at s Hu E) 0xD123456 ltac:(vm_compute; discriminate)) B1)).
Defined.

End PpWindowClaims.
