(* ===== verification/Ip22Mem.v ===== *)
(** * Memory configuration of the Indy and Indigo2

    The MEMCFG registers of src/src/dev/mc.rs, which say where the four RAM
    banks appear, and [Ip22Bus::remap_banks] of src/src/ip22_bus.rs, which puts
    them there: in each bank's address mask, in the bus's decode table and in
    the window of host mappings.  The decode table is used through an
    interface.  A panic is [None]. *)

From stdpp Require Import strings sorting.
From S2P Require Import Prelude BlockNode DevMap PpMem.
Import BlockNode PpMem.

#[local] Open Scope Z_scope.
#[local] Open Scope word_scope.

Module Ip22Mem.

(** ** MEMCFG *)

Definition memcfg_size_rank_at (shift size_mb : Z) : option (Z * Z) :=
  if shift =? 24 then
    match size_mb with
    | 16 => Some (0, 0)
    | 32 => Some (1, 0)
    | 64 => Some (3, 0)
    | 128 => Some (7, 0)
    | 256 => Some (15, 0)
    | 512 => Some (31, 1)
    | _ => None
    end
  else
    match size_mb with
    | 8 => Some (0, 1)
    | 16 => Some (3, 0)
    | 32 => Some (3, 1)
    | 64 => Some (15, 0)
    | 128 => Some (15, 1)
    | _ => None
    end.

Definition encode_memcfg_half_at (shift base size_mb : Z) : option Z :=
  if size_mb =? 0 then None else
  '(simm_size_field, simm_rank) ← memcfg_size_rank_at shift size_mb;
  let base_byte := (base .>> shift) .& 0xFF in
  Some (base_byte .| (1 .<< 13) .| (simm_rank .<< 14) .| (simm_size_field .<< 8)).

(** Base, address mask and limit. *)
Definition Placement : Type := Z * Z * Z.

Definition memcfg_bank_info_at (shift half size_mb : Z) : option Placement :=
  if size_mb =? 0 then None else
  if (half .>> 13) .& 1 =? 0 then None else
  let base := (half .& 0xFF) .<< shift in
  let conf_rank := (half .>> 14) .& 1 in
  let conf_size_field := (half .>> 8) .& 0x1F in
  let conf_total := (conf_size_field + 1) .<< shift in
  '(simm_size_field, simm_rank) ← memcfg_size_rank_at shift size_mb;
  let conf_size := conf_total .>> conf_rank in
  let minus_size := (simm_size_field + 1) .<< (shift - simm_rank) in
  let plus_size := size_mb .<< 20 in
  let addr_mask := if conf_rank =? 0 then minus_size - 1 else plus_size - 1 in
  let limit := conf_size .<< (conf_rank .& simm_rank) in
  Some (base, addr_mask, limit).

(** The controller's part: its profile and the two registers. *)
Record Mc : Type := mkMc { base_shift : Z; ram_sizes : list Z; memcfg0 : Z; memcfg1 : Z }.

#[global] Instance eta_Mc : Settable Mc := fun m => mkMc (base_shift m) (ram_sizes m) (memcfg0 m) (memcfg1 m).

Definition ram_size (m : Mc) (i : nat) : Z := nth i (ram_sizes m) 0.

Definition halves (m0 m1 : Z) : list Z := [m0 .>> 16; m0 .& 0xFFFF; m1 .>> 16; m1 .& 0xFFFF].

Definition parse_memcfg (m : Mc) (m0 m1 : Z) : list (option Placement) :=
  imap (fun i half => memcfg_bank_info_at (base_shift m) half (ram_size m i)) (halves m0 m1).

Definition LOMEM_BASE : Z := 0x08000000.
Definition HIMEM_BASE : Z := 0x20000000.
Definition BANK_SIZE : Z := 0x08000000.
Definition ALIAS_BASE : Z := 0x00000000.
Definition ALIAS_END : Z := 0x00080000.

(** One bank's half of MEMCFG1, if it is the emulator's to write. *)
Definition synthesized (m : Mc) (i : nat) (base half : Z) : option Z :=
  if (0 <? ram_size m i) && ((half .>> 13) .& 1 =? 0) then encode_memcfg_half_at (base_shift m) base (ram_size m i) else None.

Definition synthesize_himem_banks (m : Mc) : Mc :=
  if negb (base_shift m =? 22) then m else
  let h0 := memcfg0 m .>> 16 in
  let h1 := memcfg0 m .& 0xFFFF in
  if ((h0 .>> 13) .& 1 =? 0) || ((h1 .>> 13) .& 1 =? 0) then m else
  let h2 := memcfg1 m .>> 16 in
  let h3 := memcfg1 m .& 0xFFFF in
  match synthesized m 2 HIMEM_BASE h2, synthesized m 3 (HIMEM_BASE + BANK_SIZE) h3 with
  | None, None => m
  | e2, e3 => m <| memcfg1 := (default h2 e2 .<< 16) .| default h3 e3 |>
  end.

(** ** Which slot answers *)

Inductive BankSlot : Type := Unmapped | Bank (i : nat).

#[export] Instance BankSlot_eq_dec : EqDecision BankSlot.
Proof. solve_decision. Defined.

Definition WINDOW : Z := 0x10000000.

Definition in_window (phys : Z) : bool :=
  ((LOMEM_BASE <=? phys) && (phys <? LOMEM_BASE + WINDOW)) || ((HIMEM_BASE <=? phys) && (phys <? HIMEM_BASE + WINDOW)).

Definition window_slots (base : Z) : list Z := seqZ (base .>> DevMap.SLOT_SHIFT) (((base + WINDOW) .>> DevMap.SLOT_SHIFT) - (base .>> DevMap.SLOT_SHIFT)).

(** The addresses of a bank's slots, in order. *)
Definition bank_phys (base limit : Z) : list Z :=
  (fun slot => u32 (base + (slot .<< DevMap.SLOT_SHIFT))) <$> seqZ 0 (limit .>> DevMap.SLOT_SHIFT).

Definition insert_all (t : BankSlot) (idx : list Z) (plan : gmap Z BankSlot) : gmap Z BankSlot := foldl (fun plan i => <[i := t]> plan) plan idx.

Definition plan_bank (st : gmap Z BankSlot * list Z) (e : nat * option Placement) : gmap Z BankSlot * list Z :=
  match e with
  | (_, None) => st
  | (bank, Some (conf_base, _, limit)) =>
      foldl (fun '(plan, outside) phys =>
               (<[phys .>> DevMap.SLOT_SHIFT := Bank bank]> plan,
                if in_window phys then outside else outside ++ [phys .>> DevMap.SLOT_SHIFT]))
            st (bank_phys conf_base limit)
  end.

Definition numbered (addrs : list (option Placement)) : list (nat * option Placement) := zip (seq 0 (length addrs)) addrs.

Definition by_slot (a b : Z * BankSlot) : Prop := a.1 <= b.1.
#[export] Instance by_slot_dec : RelDecision by_slot.
Proof. unfold by_slot. solve_decision. Defined.

Definition plan_bank_slots (addrs : list (option Placement)) (previously_outside : list Z) : list (Z * BankSlot) * list Z :=
  let plan := insert_all Unmapped (window_slots HIMEM_BASE) (insert_all Unmapped (window_slots LOMEM_BASE) ∅) in
  let plan := insert_all Unmapped previously_outside plan in
  let '(plan, outside) := foldl plan_bank (plan, []) (numbered addrs) in
  (merge_sort by_slot (map_to_list plan), outside).

(** ** The bus *)

(** What a decode-table entry points at. *)
Inductive BusEntry : Type := UnmappedEntry | BankEntry (i : nat) | DeviceEntry (id : Z).

#[export] Instance BusEntry_eq_dec : EqDecision BusEntry.
Proof. solve_decision. Defined.

Definition entry_of (t : BankSlot) : BusEntry := match t with Unmapped => UnmappedEntry | Bank b => BankEntry b end.

(** What a decode table promises to the bus: filling changes the entries of a
    range and no other, and only a failing host stops it. *)
Class DecodeTable (T : Type) : Type := {
  fill_slots : Z -> Z -> BusEntry -> T -> option T;
  shows : T -> (Z -> BusEntry) -> Prop;
  reliable : T -> Prop;
  fill_shows : forall m t first count d m', shows m t -> 0 <= first -> 0 <= count -> first + count <= DevMap.SLOTS ->
    fill_slots first count d m = Some m' -> shows m' (fun s => if (first <=? s) && (s <? first + count) then d else t s);
  fill_runs : forall m t first count d, shows m t -> reliable m -> 0 <= first -> 0 <= count -> first + count <= DevMap.SLOTS ->
    exists m', fill_slots first count d m = Some m' /\ reliable m';
}.

Section Bus.

Context {T : Type} `{DecodeTable T}.

Record Ip22Bus : Type := mkBus {
  table : T;
  banks : list PpMemory;
  ppmem_space : option PpMemSpace;
  alias_offset : Z;
  banks_outside_windows : list Z;
  ppmem_last_placement : option (list (option Placement) * list Z);
}.

#[local] Instance eta_Bus : Settable Ip22Bus := fun b =>
  mkBus (table b) (banks b) (ppmem_space b) (alias_offset b) (banks_outside_windows b) (ppmem_last_placement b).

Definition alias_offset_for (ip28 : bool) : Z := if ip28 then HIMEM_BASE else LOMEM_BASE.

(** The body of the loop over the banks. *)
Definition place_bank (changed : bool) (b : Ip22Bus) (e : nat * option Placement) : option Ip22Bus :=
  match e with
  | (_, None) => Some b
  | (i, Some (conf_base, addr_mask, limit)) =>
      bank ← banks b !! i;
      let b := b <| banks ::= <[i := set_addr_mask bank addr_mask]> |> in
      match changed, ppmem_space b with
      | true, Some sp =>
          let period := addr_mask + 1 in
          let bank_bytes := size_bytes bank in
          if (0 <? period) && (period <=? bank_bytes) then
            sp ← map_bank sp bank_bytes i conf_base limit period; Some (b <| ppmem_space := Some sp |>)
          else Some b
      | _, _ => Some b
      end
  end.

(** The end of a run: as long as the target is the same and the slots follow. *)
Fixpoint take_run (prev : Z) (target : BankSlot) (plan : list (Z * BankSlot)) : Z * list (Z * BankSlot) :=
  match plan with
  | (slot, t) :: rest => if bool_decide (t = target) && (slot =? prev + 1) then let '(n, rest) := take_run slot target rest in (n + 1, rest) else (0, plan)
  | [] => (0, [])
  end.

Fixpoint apply_plan (fuel : nat) (plan : list (Z * BankSlot)) (m : T) : option T :=
  match fuel, plan with
  | S fuel, (start, target) :: rest =>
      let '(n, rest) := take_run start target rest in
      m ← fill_slots start (n + 1) (entry_of target) m; apply_plan fuel rest m
  | _, _ => Some m
  end.

Definition map_low_alias (b : Ip22Bus) (addrs : list (option Placement)) : option Ip22Bus :=
  match ppmem_space b with
  | None => Some b
  | Some sp =>
      let bank0_mapped := match mjoin (addrs !! O) with Some (base, _, _) => base =? alias_offset b | None => false end in
      if bank0_mapped then
        bank ← banks b !! O;
        let alias_len := ALIAS_END - ALIAS_BASE in
        if alias_len <=? size_bytes bank then
          sp ← map_alias sp (size_bytes bank) O ALIAS_BASE alias_len; Some (b <| ppmem_space := Some sp |>)
        else Some b
      else Some b
  end.

Definition remap_banks (b : Ip22Bus) (addrs : list (option Placement)) : option Ip22Bus :=
  let key := (addrs, size_bytes <$> banks b) in
  let changed := bool_decide (ppmem_last_placement b <> Some key) in
  let b := b <| ppmem_last_placement := Some key |> in
  let b := if changed then b <| ppmem_space ::= fmap clear_mappings |> else b in
  b ← foldl (fun b e => b ← b; place_bank changed b e) (Some b) (numbered addrs);
  let '(plan, outside) := plan_bank_slots addrs (banks_outside_windows b) in
  let b := b <| banks_outside_windows := outside |> in
  m ← apply_plan (length plan) plan (table b);
  let b := b <| table := m |> in
  if changed then map_low_alias b addrs else Some b.

(** A guest's write to a MEMCFG register. *)
Definition on_memcfg_updated (m : Mc) (b : Ip22Bus) : option (Mc * Ip22Bus) :=
  let m := synthesize_himem_banks m in
  b ← remap_banks b (parse_memcfg m (memcfg0 m) (memcfg1 m)); Some (m, b).

Definition write_memcfg0 (v : Z) (m : Mc) (b : Ip22Bus) : option (Mc * Ip22Bus) := on_memcfg_updated (m <| memcfg0 := v |>) b.
Definition write_memcfg1 (v : Z) (m : Mc) (b : Ip22Bus) : option (Mc * Ip22Bus) := on_memcfg_updated (m <| memcfg1 := v |>) b.

Definition post_map_banks (m : Mc) (b : Ip22Bus) : option (Mc * Ip22Bus * bool) :=
  if negb (memcfg0 m =? 0) || negb (memcfg1 m =? 0) then Some (m, b, false) else
  let half (i : nat) base := default 0 (encode_memcfg_half_at (base_shift m) base (ram_size m i)) in
  let v := (half O LOMEM_BASE .<< 16) .| half 1%nat (LOMEM_BASE + BANK_SIZE) in
  if v =? 0 then Some (m, b, false) else '(m, b) ← write_memcfg0 v m b; Some (m, b, true).

End Bus.

#[global] Arguments Ip22Bus : clear implicits.
#[global] Instance settable_bus {T} : Settable (Ip22Bus T) := eta_Bus.

End Ip22Mem.
