(* ===== verification/Ip22MemClaims.v ===== *)
(** * Both ways to memory reach the same bytes

    What a guest's writes to MEMCFG do on an Indy or Indigo2: the decode table
    holds the banks where the registers put them and nowhere else, and the
    window of host mappings finds the same byte of the same bank. *)

From stdpp Require Import strings sorting.
From S2P Require Import Prelude BlockNode DevMap DevMapClaims PpMem Ip22Mem PpMemClaims PpWindowClaims.

(** ** Placing the banks in the decode table

    What is proved of the plan of Ip22Mem.v and of its application to a decode
    table, and that the sparse table of DevMap.v is such a table. *)

Module Ip22MemProofs.

Import BlockNode PpMem Ip22Mem.
#[local] Open Scope Z_scope.
#[local] Open Scope word_scope.

(** ** The sparse table is a decode table *)

Definition sparse_fill (first count : Z) (d : BusEntry) (m : DevMap.Inner BusEntry) : option (DevMap.Inner BusEntry) :=
  '(m, r) ← DevMap.fill_slots first count d m; match r with Ok _ => Some m | Err _ => None end.

#[export] Program Instance sparse_table : DecodeTable (DevMap.Inner BusEntry) := {|
  fill_slots := sparse_fill;
  shows := DevMapClaims.shows;
  reliable := fun m => DevMap.host m = [];
|}.
Next Obligation.
  intros m t first count d m' Hm H0 Hc Hr Hf. unfold sparse_fill in Hf.
  destruct (DevMapClaims.fill_slots_ok [] m first count d (proj1 Hm) H0 Hc Hr) as (m1 & r & Ef & Hfl). rewrite Ef in Hf. cbn in Hf.
  destruct r as [[]|]; [|done]. injection Hf as <-. destruct (DevMapClaims.filled_shows _ _ _ _ _ _ _ Hfl Hm) as (n & _ & En & Hs).
  by rewrite (En eq_refl) in Hs.
Qed.
Next Obligation.
  intros m t first count d Hm Hh H0 Hc Hr. unfold sparse_fill.
  destruct (DevMapClaims.fill_slots_ok [] m first count d (proj1 Hm) H0 Hc Hr) as (m1 & r & Ef & _).
  destruct (DevMapClaims.fill_slots_steady _ _ _ _ _ _ (conj Hh (proj1 (proj2 Hm))) Ef) as [[Hh1 _] [[] ->]].
  exists m1. by rewrite Ef.
Qed.

(** ** The plan *)

Definition bank_slots (base limit : Z) : list Z := (fun phys => phys .>> DevMap.SLOT_SHIFT) <$> bank_phys base limit.

Definition place_slot (s : Z) (acc : option nat) (e : nat * option Placement) : option nat :=
  match e with
  | (i, Some (base, _, limit)) => if bool_decide (s ∈ bank_slots base limit) then Some i else acc
  | (_, None) => acc
  end.

(** The bank MEMCFG puts at slot [s]: the last one, when several overlap. *)
Definition placed (addrs : list (option Placement)) (s : Z) : option nat := foldl (place_slot s) None (numbered addrs).

Lemma insert_all_lookup t idx : forall plan s, insert_all t idx plan !! s = if bool_decide (s ∈ idx) then Some t else plan !! s.
Proof.
  unfold insert_all. induction idx as [|i idx IH]; intros plan s; cbn [foldl]; [by rewrite bool_decide_eq_false_2 by apply not_elem_of_nil|].
  rewrite IH. destruct (decide (s ∈ idx)) as [Hs|Hs].
  - rewrite !bool_decide_eq_true_2 by (by (right || done)). done.
  - rewrite (bool_decide_eq_false_2 (s ∈ idx)) by done. destruct (decide (i = s)) as [->|Hne].
    + rewrite bool_decide_eq_true_2 by left. by rewrite lookup_insert_eq.
    + rewrite bool_decide_eq_false_2 by (rewrite elem_of_cons; naive_solver). by rewrite lookup_insert_ne.
Qed.

Definition outside_of (l : list Z) : list Z := (fun phys => phys .>> DevMap.SLOT_SHIFT) <$> filter (fun phys => in_window phys = false) l.

Lemma plan_slots_spec bank l : forall st,
  foldl (fun '(plan, outside) phys => (<[phys .>> DevMap.SLOT_SHIFT := Bank bank]> plan, if in_window phys then outside else outside ++ [phys .>> DevMap.SLOT_SHIFT])) st l =
  (insert_all (Bank bank) ((fun phys => phys .>> DevMap.SLOT_SHIFT) <$> l) st.1, st.2 ++ outside_of l).
Proof.
  induction l as [|phys l IH]; intros [plan outside]; cbn [foldl fmap list_fmap fst snd]; [by rewrite app_nil_r|].
  rewrite IH. cbn [fst snd]. f_equal. unfold outside_of. rewrite filter_cons. destruct (in_window phys); cbn; [done|]. by rewrite <- app_assoc.
Qed.

Lemma plan_bank_spec st i e :
  plan_bank st (i, e) = match e with
    | None => st
    | Some (base, _, limit) => (insert_all (Bank i) (bank_slots base limit) st.1, st.2 ++ outside_of (bank_phys base limit)) end.
Proof. destruct e as [[[base mask] limit]|]; [|done]. apply plan_slots_spec. Qed.

Lemma plan_lookup l : forall st s,
  (foldl plan_bank st l).1 !! s = match foldl (place_slot s) None l with Some i => Some (Bank i) | None => st.1 !! s end.
Proof.
  induction l as [|[i e] l IH] using rev_ind; intros st s; [done|]. rewrite !foldl_app. cbn [foldl]. rewrite plan_bank_spec.
  destruct e as [[[base mask] limit]|]; cbn [place_slot]; [|apply IH]. cbn [fst]. rewrite insert_all_lookup. destruct (bool_decide _); [done|apply IH].
Qed.

(** The slots of a placement outside the two windows. *)
Definition outside_slots (addrs : list (option Placement)) : list Z :=
  mjoin ((fun e : option Placement => match e with Some (base, _, limit) => outside_of (bank_phys base limit) | None => [] end) <$> addrs).

Lemma numbered_snd addrs : (numbered addrs).*2 = addrs.
Proof. unfold numbered. apply snd_zip. rewrite length_seq. lia. Qed.

Lemma plan_outside l : forall st, (foldl plan_bank st l).2 = st.2 ++ outside_slots l.*2.
Proof.
  induction l as [|[i e] l IH]; intros st; cbn [foldl fmap list_fmap snd]; [by rewrite app_nil_r|]. rewrite IH, plan_bank_spec.
  unfold outside_slots. cbn [fmap list_fmap mjoin list_join]. destruct e as [[[base mask] limit]|]; cbn [snd]; [by rewrite <- app_assoc|done].
Qed.

(** ** Applying it *)

Definition paint (t : Z -> BusEntry) (e : Z * BankSlot) : Z -> BusEntry := fun s => if s =? e.1 then entry_of e.2 else t s.

Definition painted (plan : list (Z * BankSlot)) (t : Z -> BusEntry) : Z -> BusEntry := foldl paint t plan.

Lemma painted_ext plan : forall t t' s, (forall x, t x = t' x) -> painted plan t s = painted plan t' s.
Proof. induction plan as [|e plan IH]; intros t t' s Ht; [by apply Ht|]. apply IH. intros x. unfold paint. by rewrite Ht. Qed.

Lemma take_run_spec target plan : forall prev n rest t s,
  take_run prev target plan = (n, rest) -> 0 <= n /\ (length rest <= length plan)%nat /\ (exists run, plan = run ++ rest /\ Forall (fun e => prev < e.1 <= prev + n) run) /\
  painted plan t s = painted rest (fun s => if (prev <? s) && (s <=? prev + n) then entry_of target else t s) s.
Proof.
  induction plan as [|[slot tg] plan IH]; intros prev n rest t s; cbn [take_run].
  - intros [= <- <-]. split_and!; [done|done|by exists []|]. cbn. destruct (Z.ltb_spec prev s), (Z.leb_spec s (prev + 0)); done || lia.
  - destruct (bool_decide (tg = target) && (slot =? prev + 1)) eqn:E.
    + apply andb_prop in E as [->%bool_decide_eq_true ->%Z.eqb_eq]. destruct (take_run (prev + 1) target plan) as [k r] eqn:Et.
      intros [= <- <-]. destruct (IH _ _ _ (paint t (prev + 1, target)) s Et) as (Hk & Hl & (run & -> & Hrun) & Hp). split_and!; [lia|cbn; lia| |].
      * exists ((prev + 1, target) :: run). split; [done|]. constructor; [cbn; lia|]. eapply Forall_impl; [exact Hrun|]. cbn. lia.
      * cbn [painted foldl]. unfold painted in Hp |- *. rewrite Hp. apply painted_ext. intros x. unfold paint. cbn [fst snd].
        destruct (Z.ltb_spec (prev + 1) x), (Z.leb_spec x (prev + 1 + k)), (Z.eqb_spec x (prev + 1)), (Z.ltb_spec prev x), (Z.leb_spec x (prev + (k + 1))); cbn; done || lia.
    + intros [= <- <-]. split_and!; [done|done|by exists []|]. apply painted_ext. intros x.
      destruct (Z.ltb_spec prev x), (Z.leb_spec x (prev + 0)); done || lia.
Qed.

Lemma painted_map plan t s : NoDup plan.*1 ->
  painted plan t s = match (list_to_map plan : gmap Z BankSlot) !! s with Some tg => entry_of tg | None => t s end.
Proof.
  revert t. induction plan as [|[k tg] plan IH]; intros t Hnd; cbn [painted foldl list_to_map foldr]; [by rewrite lookup_empty|].
  cbn [fmap list_fmap fst] in Hnd. apply NoDup_cons in Hnd as [Hk Hnd]. unfold painted in IH. rewrite IH by done. cbn.
  destruct (decide (k = s)) as [->|Hne].
  - rewrite lookup_insert_eq, (not_elem_of_list_to_map_1 plan s) by done. unfold paint. cbn. by rewrite Z.eqb_refl.
  - rewrite lookup_insert_ne by done. destruct (_ !! s); [done|]. unfold paint. cbn. destruct (Z.eqb_spec s k); [by subst|done].
Qed.

Lemma sorted_map (m : gmap Z BankSlot) : NoDup (merge_sort by_slot (map_to_list m)).*1 /\ list_to_map (merge_sort by_slot (map_to_list m)) = m.
Proof.
  assert (NoDup (merge_sort by_slot (map_to_list m)).*1) as Hnd by (rewrite merge_sort_Permutation; apply NoDup_fst_map_to_list).
  split; [done|]. rewrite <- (list_to_map_to_list m) at 2. by apply list_to_map_proper, merge_sort_Permutation.
Qed.

Definition in_windows (s : Z) : bool := bool_decide (s ∈ window_slots LOMEM_BASE) || bool_decide (s ∈ window_slots HIMEM_BASE).

(** The first plan, before the banks. *)
Definition cleared (prev : list Z) : gmap Z BankSlot :=
  insert_all Unmapped prev (insert_all Unmapped (window_slots HIMEM_BASE) (insert_all Unmapped (window_slots LOMEM_BASE) ∅)).

Lemma cleared_lookup prev s : cleared prev !! s = if in_windows s || bool_decide (s ∈ prev) then Some Unmapped else None.
Proof.
  unfold cleared, in_windows. rewrite !insert_all_lookup, lookup_empty.
  by destruct (bool_decide (s ∈ prev)), (bool_decide (s ∈ window_slots HIMEM_BASE)), (bool_decide (s ∈ window_slots LOMEM_BASE)).
Qed.

Lemma plan_bank_slots_spec addrs prev :
  plan_bank_slots addrs prev = (merge_sort by_slot (map_to_list (foldl plan_bank (cleared prev, []) (numbered addrs)).1), outside_slots addrs).
Proof.
  unfold plan_bank_slots. fold (cleared prev). pose proof (plan_outside (numbered addrs) (cleared prev, [])) as Ho. rewrite numbered_snd in Ho.
  destruct (foldl plan_bank _ _) as [plan out]. cbn in Ho. by subst out.
Qed.

(** The table after a remap. *)
Definition target_of (addrs : list (option Placement)) (prev : list Z) (t : Z -> BusEntry) (s : Z) : BusEntry :=
  match placed addrs s with
  | Some i => BankEntry i
  | None => if in_windows s || bool_decide (s ∈ prev) then UnmappedEntry else t s
  end.

Lemma plan_painted addrs prev t s : painted (plan_bank_slots addrs prev).1 t s = target_of addrs prev t s.
Proof.
  rewrite plan_bank_slots_spec. cbn [fst]. destruct (sorted_map (foldl plan_bank (cleared prev, []) (numbered addrs)).1) as [Hnd Em].
  rewrite painted_map, Em, plan_lookup by done. cbn [fst]. rewrite cleared_lookup. unfold target_of, placed.
  destruct (foldl (place_slot s) None _); [done|]. by destruct (_ || _).
Qed.

(** Every planned slot is below 4 GB. *)
Lemma bank_slot_range base limit s : s ∈ bank_slots base limit -> 0 <= s < 2 ^ 20.
Proof.
  unfold bank_slots. intros (phys & -> & (slot & -> & _)%list_elem_of_fmap)%list_elem_of_fmap.
  pose proof (wrap_fits 32 (base + (slot .<< DevMap.SLOT_SHIFT)) ltac:(lia)) as Hf. fold (u32 (base + (slot .<< DevMap.SLOT_SHIFT))) in Hf.
  revert Hf. generalize (u32 (base + (slot .<< DevMap.SLOT_SHIFT))). intros z [H0 H1].
  unfold DevMap.SLOT_SHIFT. rewrite Z.shiftr_div_pow2 by lia. split; [by apply Z.div_pos; lia|]. apply Z.div_lt_upper_bound; [lia|]. exact H1.
Qed.

Lemma in_windows_spec s : in_windows s = true <-> 0x8000 <= s < 0x18000 \/ 0x20000 <= s < 0x30000.
Proof.
  unfold in_windows. rewrite orb_true_iff, !bool_decide_eq_true. unfold window_slots. rewrite !elem_of_seqZ.
  change (LOMEM_BASE .>> DevMap.SLOT_SHIFT) with 0x8000. change (HIMEM_BASE .>> DevMap.SLOT_SHIFT) with 0x20000.
  change ((LOMEM_BASE + WINDOW) .>> DevMap.SLOT_SHIFT) with 0x18000. change ((HIMEM_BASE + WINDOW) .>> DevMap.SLOT_SHIFT) with 0x30000. lia.
Qed.

Lemma window_slot_range s : in_windows s = true -> 0 <= s < 2 ^ 20.
Proof. rewrite in_windows_spec. lia. Qed.

(** A slot is in a window with its addresses. *)
Lemma in_window_slot phys : in_window phys = in_windows (phys .>> DevMap.SLOT_SHIFT).
Proof.
  apply eq_true_iff_eq. rewrite in_windows_spec. unfold in_window. rewrite orb_true_iff, !andb_true_iff, !Z.leb_le, !Z.ltb_lt.
  unfold DevMap.SLOT_SHIFT, LOMEM_BASE, HIMEM_BASE, WINDOW. rewrite Z.shiftr_div_pow2 by lia. change (2 ^ 12) with 4096.
  Z.to_euclidean_division_equations; lia.
Qed.

Lemma placed_some l s acc i : foldl (place_slot s) acc l = Some i ->
  acc = Some i \/ exists base mask limit, (i, Some (base, mask, limit)) ∈ l /\ s ∈ bank_slots base limit.
Proof.
  revert acc. induction l as [|[k e] l IH]; intros acc; cbn [foldl]; [by left|]. intros [Ha|(base & mask & limit & Hin & Hs)]%IH.
  - destruct e as [[[base mask] limit]|]; cbn in Ha; [|by left]. destruct (bool_decide_reflect (s ∈ bank_slots base limit)) as [Hs|]; [|by left].
    injection Ha as <-. right. exists base, mask, limit. split; [left|done].
  - right. exists base, mask, limit. split; [by right|done].
Qed.

Lemma plan_range addrs prev : Forall (fun s => 0 <= s < 2 ^ 20) prev -> Forall (fun e => 0 <= e.1 < DevMap.SLOTS) (plan_bank_slots addrs prev).1.
Proof.
  intros Hp. rewrite plan_bank_slots_spec. cbn [fst]. apply Forall_forall. intros [s tg]. rewrite merge_sort_Permutation.
  rewrite elem_of_map_to_list, plan_lookup. cbn [fst]. change DevMap.SLOTS with (2 ^ 28). intros Hs.
  enough (0 <= s < 2 ^ 20) by lia. destruct (foldl (place_slot s) None _) as [i|] eqn:E.
  - apply placed_some in E as [|(base & mask & limit & _ & Hin)]; [done|by eapply bank_slot_range].
  - rewrite cleared_lookup in Hs. destruct (in_windows s) eqn:Ew; [by apply window_slot_range|].
    destruct (bool_decide_reflect (s ∈ prev)) as [Hin|]; [|done]. rewrite Forall_forall in Hp. by apply Hp.
Qed.

Lemma outside_elem addrs s : s ∈ outside_slots addrs <->
  exists base mask limit phys, Some (base, mask, limit) ∈ addrs /\ phys ∈ bank_phys base limit /\ in_window phys = false /\ s = phys .>> DevMap.SLOT_SHIFT.
Proof.
  unfold outside_slots. rewrite list_elem_of_join. split.
  - intros (l & Hs & (e & -> & He)%list_elem_of_fmap). destruct e as [[[base mask] limit]|]; [|by apply not_elem_of_nil in Hs].
    unfold outside_of in Hs. apply list_elem_of_fmap in Hs as (phys & -> & [Hw Hin]%list_elem_of_filter). by exists base, mask, limit, phys.
  - intros (base & mask & limit & phys & He & Hin & Hw & ->). exists (outside_of (bank_phys base limit)). split.
    + apply list_elem_of_fmap. exists phys. split; [done|]. by apply list_elem_of_filter.
    + apply list_elem_of_fmap. by exists (Some (base, mask, limit)).
Qed.

Section Apply.

Context {T : Type} `{DecodeTable T}.

Lemma apply_plan_shows fuel : forall plan m t, (length plan <= fuel)%nat -> Forall (fun e => 0 <= e.1 < DevMap.SLOTS) plan -> shows m t ->
  (forall m', apply_plan fuel plan m = Some m' -> exists t', shows m' t' /\ forall s, t' s = painted plan t s) /\
  (reliable m -> exists m', apply_plan fuel plan m = Some m' /\ reliable m').
Proof.
  induction fuel as [|fuel IH]; intros plan m t Hl Hp Hs.
  { destruct plan; [|cbn in Hl; lia]. split; [intros m' [= <-]; by exists t|intros Hr; by exists m]. }
  destruct plan as [|[start target] plan]; cbn [apply_plan].
  { split; [intros m' [= <-]; by exists t|intros Hr; by exists m]. }
  apply Forall_cons in Hp as [Hst Hp]. cbn in Hst, Hl. destruct (take_run start target plan) as [n rest] eqn:Et.
  pose proof (fun t s => take_run_spec target plan start n rest t s Et) as Hrun.
  destruct (Hrun t 0) as (Hn & Hlen & (run & Epl & Hrg) & _).
  assert (start + (n + 1) <= DevMap.SLOTS) as Hend.
  { clear -Et Hp Hst. revert start n rest Et Hst. induction plan as [|[slot tg] plan IH]; intros start n rest; cbn [take_run]; [intros [= <- <-]; lia|].
    apply Forall_cons in Hp as [Hslot Hp]. destruct (_ && _) eqn:E; [|intros [= <- <-]; lia]. apply andb_prop in E as [_ E%Z.eqb_eq].
    destruct (take_run slot target plan) as [k r] eqn:Et. intros [= <- <-] _. specialize (IH Hp slot k r Et Hslot). lia. }
  assert (Forall (fun e => 0 <= e.1 < DevMap.SLOTS) rest) as Hrest by (subst plan; by apply Forall_app in Hp as [_ ?]).
  assert (forall t' s, (forall x, t' x = if (start <=? x) && (x <? start + (n + 1)) then entry_of target else t x) -> painted rest t' s = painted ((start, target) :: plan) t s) as Hpt.
  { intros t' s Ht'. change (painted ((start, target) :: plan) t s) with (painted plan (paint t (start, target)) s).
    rewrite (proj2 (proj2 (proj2 (Hrun (paint t (start, target)) s)))). apply painted_ext. intros x. rewrite Ht'. unfold paint. cbn [fst snd].
    destruct (Z.leb_spec start x), (Z.ltb_spec x (start + (n + 1))), (Z.ltb_spec start x), (Z.leb_spec x (start + n)), (Z.eqb_spec x start); cbn; done || lia. }
  split.
  - intros m' Ha. destruct (fill_slots start (n + 1) (entry_of target) m) as [m1|] eqn:Ef; [|done]. cbn in Ha.
    pose proof (fill_shows m t start (n + 1) _ m1 Hs ltac:(lia) ltac:(lia) Hend Ef) as Hs1.
    destruct (proj1 (IH rest m1 _ ltac:(lia) Hrest Hs1) m' Ha) as (t' & Hs' & Ht'). exists t'. split; [done|]. intros s. rewrite Ht'. by apply Hpt.
  - intros Hr. destruct (fill_runs m t start (n + 1) (entry_of target) Hs Hr ltac:(lia) ltac:(lia) Hend) as (m1 & Ef & Hr1). rewrite Ef. cbn.
    pose proof (fill_shows m t start (n + 1) _ m1 Hs ltac:(lia) ltac:(lia) Hend Ef) as Hs1. by apply (IH rest m1 _ ltac:(lia) Hrest Hs1).
Qed.

End Apply.

End Ip22MemProofs.

Module Ip22MemClaims.

Import BlockNode PpMem PpWindowClaims Ip22Mem Ip22MemProofs.
#[local] Open Scope Z_scope.
#[local] Open Scope word_scope.

(** ** Placements that fit *)

Definition pow2 (z : Z) : Prop := exists k, 19 <= k /\ z = 2 ^ k.

(** A placement of a bank of [size] bytes that is inside 4 GB and whose mirror
    period a power of two that the bank has. *)
Definition sane (size : Z) (e : Placement) : Prop :=
  let '(base, mask, limit) := e in
  0 <= base /\ base mod 4096 = 0 /\ 0 < limit /\ limit mod 4096 = 0 /\ base + limit <= WINDOW_SIZE /\ pow2 (mask + 1) /\ mask + 1 <= size /\ pow2 size.

Lemma pow2_pos z : pow2 z -> ALIAS_END <= z.
Proof. intros (k & Hk & ->). change ALIAS_END with (2 ^ 19). by apply Z.pow_le_mono_r. Qed.

Lemma slot_of_page p a b : a mod 4096 = 0 -> b mod 4096 = 0 -> (a / 4096 <= p / 4096 < a / 4096 + b / 4096 <-> a <= p < a + b).
Proof. intros. Z.to_euclidean_division_equations; lia. Qed.

(** The slots of a placement are those of its addresses. *)
Lemma sane_slots size base mask limit s : sane size (base, mask, limit) ->
  s ∈ bank_slots base limit <-> base / 4096 <= s < base / 4096 + limit / 4096.
Proof.
  intros (H0 & Hb & Hl & Hlm & Hw & _). unfold bank_slots, bank_phys, DevMap.SLOT_SHIFT. rewrite Z.shiftr_div_pow2 by lia. change (2 ^ 12) with 4096.
  assert (forall slot, 0 <= slot < limit / 4096 -> u32 (base + (slot .<< 12)) .>> 12 = base / 4096 + slot) as Hphys.
  { intros slot Hs. rewrite Z.shiftl_mul_pow2 by lia. change (2 ^ 12) with 4096. unfold u32. rewrite wrap_small.
    - rewrite Z.shiftr_div_pow2 by lia. change (2 ^ 12) with 4096. rewrite Z.div_add by lia. lia.
    - split; [lia|]. change WINDOW_SIZE with (2 ^ 32) in Hw. Z.to_euclidean_division_equations; lia. }
  rewrite list_elem_of_fmap. split.
  - intros (phys & -> & (slot & -> & Hs)%list_elem_of_fmap). apply elem_of_seqZ in Hs. rewrite Hphys by lia. lia.
  - intros Hs. exists (u32 (base + ((s - base / 4096) .<< 12))). rewrite Hphys by lia. split; [lia|].
    apply list_elem_of_fmap. exists (s - base / 4096). split; [done|]. apply elem_of_seqZ. lia.
Qed.

Lemma sane_within size base mask limit p : sane size (base, mask, limit) ->
  bool_decide (p .>> DevMap.SLOT_SHIFT ∈ bank_slots base limit) = within base limit p.
Proof.
  intros Hs. apply eq_true_iff_eq. rewrite bool_decide_eq_true, (sane_slots size base mask limit _ Hs), within_spec.
  destruct Hs as (H0 & Hb & Hl & Hlm & _). unfold DevMap.SLOT_SHIFT. rewrite Z.shiftr_div_pow2 by lia. by apply slot_of_page.
Qed.

(** ** The window of a placement *)

Definition win_step (p : Z) (acc : option (nat * Z)) (e : nat * option Placement) : option (nat * Z) :=
  match e with
  | (i, Some (base, mask, limit)) => if within base limit p then Some (i, (p - base) mod (mask + 1)) else acc
  | (_, None) => acc
  end.

Definition win_at (l : list (nat * option Placement)) (p : Z) : option (nat * Z) := foldl (win_step p) None l.

Definition sane_at (sizes : list Z) (e : nat * option Placement) : Prop :=
  match e with (i, Some pl) => exists size, sizes !! i = Some size /\ sane size pl | (_, None) => True end.

(** Table and window agree on the bank, overlaps included. *)
Lemma placed_win sizes l p : Forall (sane_at sizes) l -> foldl (place_slot (p .>> DevMap.SLOT_SHIFT)) None l = fst <$> win_at l p.
Proof.
  unfold win_at. induction l as [|[i e] l IH] using rev_ind; [done|]. intros [Hl He]%Forall_app. rewrite Forall_singleton in He. rewrite !foldl_app. cbn [foldl].
  rewrite IH by done. destruct e as [[[base mask] limit]|]; [|done]. cbn. destruct He as (size & _ & Hs). rewrite (sane_within size base mask limit p Hs). by destruct (within _ _ _).
Qed.

Lemma win_at_some l p i o : win_at l p = Some (i, o) ->
  exists base mask limit, (i, Some (base, mask, limit)) ∈ l /\ within base limit p = true /\ o = (p - base) mod (mask + 1).
Proof.
  unfold win_at. induction l as [|[k e] l IH] using rev_ind; [done|]. rewrite foldl_app. cbn [foldl]. destruct e as [[[base mask] limit]|]; cbn [win_step].
  - destruct (within base limit p) eqn:E; [intros [= <- <-]|intros (b & m & lm & Hin & Hw & Ho)%IH].
    + exists base, mask, limit. split_and!; [|done|done]. apply elem_of_app. right. by apply list_elem_of_singleton.
    + exists b, m, lm. split_and!; [|done|done]. apply elem_of_app. by left.
  - intros (b & m & lm & Hin & Hw & Ho)%IH. exists b, m, lm. split_and!; [|done|done]. apply elem_of_app. by left.
Qed.

(** ** The loop over the banks *)

Definition mask_step (bs : list PpMemory) (e : nat * option Placement) : list PpMemory :=
  match e with (i, Some (_, mask, _)) => alter (fun b => set_addr_mask b mask) i bs | (_, None) => bs end.

Section Remap.

Context {T : Type} `{DecodeTable T}.

(** What the loop leaves alone. *)
Definition same_rest (b b' : Ip22Bus T) : Prop :=
  table b' = table b /\ alias_offset b' = alias_offset b /\ banks_outside_windows b' = banks_outside_windows b /\ ppmem_last_placement b' = ppmem_last_placement b.

(** The window after the entries [l]. *)
Definition maps (l : list (nat * option Placement)) (sp sp' : PpMemSpace) : Prop :=
  (window_ok sp -> window_ok sp') /\
  forall p, resolve (space sp') p = match win_at l p with Some x => Some (Some x) | None => resolve (space sp) p end.

Lemma place_bank_runs changed b e : sane_at (size_bytes <$> banks b) e ->
  exists b', place_bank changed b e = Some b' /\ same_rest b b' /\ banks b' = mask_step (banks b) e /\
    (changed = false -> ppmem_space b' = ppmem_space b) /\
    (changed = true -> match ppmem_space b with None => ppmem_space b' = None | Some sp => exists sp', ppmem_space b' = Some sp' /\ maps [e] sp sp' end).
Proof.
  destruct e as [i [[[base mask] limit]|]]; cbn [sane_at place_bank mask_step].
  2: { intros _. exists b. split_and!; try done. intros _. destruct (ppmem_space b) as [sp|]; [|done]. by exists sp. }
  intros (size & Hsz & Hs). apply list_lookup_fmap_Some in Hsz as (bank & -> & Hbank). rewrite Hbank. cbn [mbind option_bind].
  set (b1 := b <| banks ::= <[i := set_addr_mask bank mask]> |>).
  assert (banks b1 = alter (fun b => set_addr_mask b mask) i (banks b)) as Eb.
  { unfold b1. cbn. apply list_eq. intros k. destruct (decide (k = i)) as [->|Hne].
    - rewrite list_lookup_insert_eq, list_lookup_alter_eq by (by eapply lookup_lt_Some). by rewrite Hbank.
    - by rewrite list_lookup_insert_ne, list_lookup_alter_ne by done. }
  destruct changed; [|exists b1; split_and!; done].
  change (ppmem_space b1) with (ppmem_space b). destruct (ppmem_space b) as [sp|] eqn:Esp; [|exists b1; split_and!; done].
  destruct Hs as (H0 & Hb & Hl & Hlm & Hw & Hp & Hps & _). pose proof (pow2_pos _ Hp) as Hpp. change ALIAS_END with 524288 in Hpp.
  assert ((0 <? mask + 1) && (mask + 1 <=? size_bytes bank) = true) as -> by (rewrite andb_true_iff, Z.ltb_lt, Z.leb_le; lia).
  destruct (map_bank sp (size_bytes bank) i base limit (mask + 1)) as [sp'|] eqn:Em.
  2: { exfalso. unfold map_bank in Em. destruct (_ && _) eqn:Ec; [done|]. apply not_true_iff_false in Ec. apply Ec.
       rewrite !andb_true_iff, !Z.ltb_lt, !Z.leb_le. lia. }
  eexists. split; [done|]. split_and!; try done. intros _. exists sp'. split; [done|]. split; [by eapply map_bank_ok|].
  intros p. rewrite (map_bank_resolve _ _ _ _ _ _ _ p Em). unfold win_at. cbn. by destruct (within _ _ _).
Qed.

Lemma mask_step_sizes bs e : size_bytes <$> mask_step bs e = size_bytes <$> bs.
Proof.
  destruct e as [i [[[base mask] limit]|]]; cbn [mask_step]; [|done]. apply list_eq. intros k. rewrite !list_lookup_fmap.
  destruct (decide (i = k)) as [->|Hne]; [rewrite list_lookup_alter_eq; by destruct (bs !! k)|by rewrite list_lookup_alter_ne].
Qed.

Lemma maps_app l e sp sp1 sp2 : maps [e] sp sp1 -> maps l sp1 sp2 -> maps (e :: l) sp sp2.
Proof.
  intros [H1 H2] [H3 H4]. split; [auto|]. intros p. rewrite H4, H2. unfold win_at. cbn [foldl].
  assert (forall acc, foldl (win_step p) acc l = match foldl (win_step p) None l with Some x => Some x | None => acc end) as Ha.
  { clear. induction l as [|[i e] l IH] using rev_ind; intros acc; [done|]. rewrite !foldl_app. cbn [foldl].
    destruct e as [[[base mask] limit]|]; cbn [win_step]; [|apply IH]. destruct (within base limit p); [done|apply IH]. }
  rewrite (Ha (win_step p None e)). by destruct (foldl (win_step p) None l).
Qed.

Lemma place_all_runs changed l : forall b, Forall (sane_at (size_bytes <$> banks b)) l ->
  exists b', foldl (fun b e => b ← b; place_bank changed b e) (Some b) l = Some b' /\ same_rest b b' /\ banks b' = foldl mask_step (banks b) l /\
    (changed = false -> ppmem_space b' = ppmem_space b) /\
    (changed = true -> match ppmem_space b with None => ppmem_space b' = None | Some sp => exists sp', ppmem_space b' = Some sp' /\ maps l sp sp' end).
Proof.
  induction l as [|e l IH]; intros b Hl; cbn [foldl].
  { exists b. split_and!; try done. intros _. destruct (ppmem_space b) as [sp|]; [|done]. by exists sp. }
  apply Forall_cons in Hl as [He Hl]. destruct (place_bank_runs changed b e He) as (b1 & E1 & (R1 & R2 & R3 & R4) & B1 & F1 & W1).
  cbn [mbind option_bind]. rewrite E1. destruct (IH b1) as (b2 & E2 & (S1 & S2 & S3 & S4) & B2 & F2 & W2); [by rewrite B1, mask_step_sizes|].
  exists b2. split; [done|]. split; [split_and!; congruence|]. split; [by rewrite B2, B1|]. split; [intros Hc; by rewrite F2, F1|].
  intros Hc. specialize (W1 Hc). specialize (W2 Hc). destruct (ppmem_space b) as [sp|]; [|by rewrite W1 in W2].
  destruct W1 as (sp1 & Es1 & M1). rewrite Es1 in W2. destruct W2 as (sp2 & Es2 & M2). exists sp2. split; [done|by eapply maps_app].
Qed.

(** ** The masks *)

Lemma masks_from addrs : forall k bs i,
  foldl mask_step bs (zip (seq k (length addrs)) addrs) !! i =
  match (if (k <=? i)%nat then mjoin (addrs !! (i - k)%nat) else None) with Some (_, mask, _) => (fun b => set_addr_mask b mask) <$> bs !! i | None => bs !! i end.
Proof.
  induction addrs as [|e addrs IH]; intros k bs i; cbn [length seq zip zip_with foldl]; [by destruct (k <=? i)%nat; rewrite ?lookup_nil|].
  change (zip_with pair (seq (S k) (length addrs)) addrs) with (zip (seq (S k) (length addrs)) addrs). rewrite IH.
  destruct (decide (i = k)) as [->|Hne].
  - rewrite (leb_correct_conv k (S k)), leb_correct, Nat.sub_diag by lia. cbn. destruct e as [[[base mask] limit]|]; cbn; [|done]. by rewrite list_lookup_alter_eq.
  - assert (mask_step bs (k, e) !! i = bs !! i) as ->.
    { destruct e as [[[base mask] limit]|]; cbn [mask_step]; [|done]. by rewrite list_lookup_alter_ne. }
    destruct (Nat.leb_spec (S k) i), (Nat.leb_spec k i); try lia; [|done]. replace (i - k)%nat with (S (i - S k)) by lia. done.
Qed.

Lemma masks_of addrs bs i : foldl mask_step bs (numbered addrs) !! i =
  match mjoin (addrs !! i) with Some (_, mask, _) => (fun b => set_addr_mask b mask) <$> bs !! i | None => bs !! i end.
Proof. unfold numbered. rewrite masks_from. cbn. by rewrite Nat.sub_0_r. Qed.

Lemma masks_sizes l : forall bs, size_bytes <$> foldl mask_step bs l = size_bytes <$> bs.
Proof. induction l as [|e l IH]; intros bs; cbn [foldl]; [done|]. by rewrite IH, mask_step_sizes. Qed.

(** ** The low alias *)

Definition bank_of (r : option (option (nat * Z))) : option (nat * Z) := match r with Some x => x | None => None end.

Definition aliased (b : Ip22Bus T) (addrs : list (option Placement)) : bool :=
  match mjoin (addrs !! O), banks b !! O with
  | Some (base, _, _), Some bank => (base =? alias_offset b) && (ALIAS_END <=? size_bytes bank)
  | _, _ => false
  end.

Lemma alias_runs b addrs : Forall (sane_at (size_bytes <$> banks b)) (numbered addrs) ->
  exists b', map_low_alias b addrs = Some b' /\ same_rest b b' /\ banks b' = banks b /\
    match ppmem_space b with
    | None => ppmem_space b' = None
    | Some sp => exists sp', ppmem_space b' = Some sp' /\ (window_ok sp -> window_ok sp') /\
        forall p, resolve (space sp') p = if aliased b addrs && within 0 ALIAS_END p then Some (Some (O, p)) else resolve (space sp) p
    end.
Proof.
  intros Hs. unfold map_low_alias, aliased. destruct (ppmem_space b) as [sp|] eqn:Esp; [|by exists b].
  assert (forall base mask limit, mjoin (addrs !! O) = Some (base, mask, limit) -> is_Some (banks b !! O)) as Hb.
  { intros base mask limit He. destruct addrs as [|e addrs]; [done|]. cbn in He. subst e. cbn in Hs. apply Forall_cons in Hs as [(size & Hsz & _) _].
    apply list_lookup_fmap_Some in Hsz as (bank & _ & Hbank). by exists bank. }
  assert (exists sp', Some sp = Some sp' /\ (window_ok sp -> window_ok sp') /\ forall p, resolve (space sp') p = resolve (space sp) p) as Hid by (by exists sp).
  destruct (mjoin (addrs !! O)) as [[[base mask] limit]|]; [|exists b; rewrite Esp; by split_and!].
  destruct (Hb base mask limit eq_refl) as [bank Hbank]. rewrite Hbank. destruct (base =? alias_offset b); cbn [andb]; [|exists b; rewrite Esp; by split_and!].
  cbn [mbind option_bind]. change (ALIAS_END - ALIAS_BASE) with ALIAS_END. destruct (Z.leb_spec ALIAS_END (size_bytes bank)) as [Hsz|Hsz]; [|exists b; rewrite Esp; by split_and!].
  unfold map_alias. assert ((ALIAS_END <=? size_bytes bank) && (ALIAS_BASE + ALIAS_END <=? WINDOW_SIZE) = true) as ->
    by (rewrite andb_true_iff, Z.leb_le; split; [done|reflexivity]).
  cbn [mbind option_bind]. eexists. split; [done|]. split_and!; try done. eexists. split; [done|]. split.
  - intros Hw. apply (record_ok sp); [|done|done]. intros p. rewrite resolve_map. by destruct (within _ _ _).
  - intros p. rewrite record_space, resolve_map. change ALIAS_BASE with 0. destruct (within 0 ALIAS_END p); [|done]. cbn. by rewrite Z.sub_0_r.
Qed.

(** ** The invariant between writes *)

(** The byte the window has at [p] for a placement. *)
Definition view_of (b : Ip22Bus T) (addrs : list (option Placement)) (p : Z) : option (nat * Z) :=
  if aliased b addrs && within 0 ALIAS_END p then Some (O, p) else win_at (numbered addrs) p.

(** The decode table that a history of placements leaves, the newest first: the
    banks where the newest puts them, unmapped in the two windows and where a
    bank once was, the first table elsewhere. *)
Definition ever_placed (hist : list (list (option Placement))) (s : Z) : bool := existsb (fun addrs => bool_decide (is_Some (placed addrs s))) hist.

Definition table_spec (hist : list (list (option Placement))) (t0 : Z -> BusEntry) (s : Z) : BusEntry :=
  match hist with
  | [] => t0 s
  | addrs :: hist =>
      match placed addrs s with
      | Some i => BankEntry i
      | None => if in_windows s || ever_placed hist s then UnmappedEntry else t0 s
      end
  end.

Definition current (hist : list (list (option Placement))) : list (option Placement) := default [] (head hist).

Record bus_ok (hist : list (list (option Placement))) (t0 : Z -> BusEntry) (b : Ip22Bus T) : Prop := {
  ok_table : exists t, shows (table b) t /\ forall s, t s = table_spec hist t0 s;
  ok_outside : banks_outside_windows b = outside_slots (current hist);
  ok_last : ppmem_last_placement b = (if hist is [] then None else Some (current hist, size_bytes <$> banks b));
  ok_masks : forall i base mask limit bank, current hist !! i = Some (Some (base, mask, limit)) -> banks b !! i = Some bank -> addr_mask bank = mask .& (size_bytes bank - 1);
  ok_window : forall sp, ppmem_space b = Some sp -> window_ok sp /\ forall p, bank_of (resolve (space sp) p) = view_of b (current hist) p;
}.

Lemma numbered_elem addrs i e : (i, e) ∈ numbered addrs <-> addrs !! i = Some e.
Proof.
  unfold numbered. rewrite list_elem_of_lookup. setoid_rewrite lookup_zip_Some. setoid_rewrite lookup_seq. split.
  - intros (k & (-> & Hk) & He). done.
  - intros He. exists i. split; [split; [done|by eapply lookup_lt_Some]|done].
Qed.

Lemma placed_is_Some l s : is_Some (foldl (place_slot s) None l) <-> exists i base mask limit, (i, Some (base, mask, limit)) ∈ l /\ s ∈ bank_slots base limit.
Proof.
  split; [intros [i [|(base & mask & limit & ? & ?)]%placed_some]; [done|by exists i, base, mask, limit]|].
  intros (i & base & mask & limit & Hin & Hs). induction l as [|[k e] l IH] using rev_ind; [by apply not_elem_of_nil in Hin|].
  rewrite foldl_app. cbn [foldl]. apply elem_of_app in Hin as [Hin|Hin%list_elem_of_singleton].
  - specialize (IH Hin). destruct e as [[[? ?] ?]|]; cbn [place_slot]; [|done]. destruct (bool_decide _); [by eexists|done].
  - injection Hin as <- <-. cbn [place_slot]. rewrite bool_decide_eq_true_2 by done. by eexists.
Qed.

Lemma outside_placed addrs s : s ∈ outside_slots addrs <-> in_windows s = false /\ is_Some (placed addrs s).
Proof.
  rewrite outside_elem. unfold placed. rewrite placed_is_Some. split.
  - intros (base & mask & limit & phys & He & Hp & Hw & ->). rewrite in_window_slot in Hw. split; [done|].
    apply list_elem_of_lookup in He as [i Hi]. exists i, base, mask, limit. split; [by apply numbered_elem|]. apply list_elem_of_fmap. by exists phys.
  - intros (Hw & i & base & mask & limit & Hin & (phys & -> & Hp)%list_elem_of_fmap). exists base, mask, limit, phys.
    rewrite in_window_slot. apply numbered_elem in Hin. split_and!; try done. by eapply list_elem_of_lookup_2.
Qed.

Lemma target_spec hist t0 addrs t s : (forall s, t s = table_spec hist t0 s) ->
  target_of addrs (outside_slots (current hist)) t s = table_spec (addrs :: hist) t0 s.
Proof.
  intros Ht. unfold target_of. cbn [table_spec]. destruct (placed addrs s) as [i|]; [done|].
  destruct (in_windows s) eqn:Ew; [done|]. cbn [orb]. destruct (bool_decide_reflect (s ∈ outside_slots (current hist))) as [Hin|Hin].
  - apply outside_placed in Hin as [_ Hin]. destruct hist as [|cur hist]; [by destruct Hin|]. change (current (cur :: hist)) with cur in Hin. cbn [ever_placed existsb].
    by rewrite bool_decide_eq_true_2.
  - rewrite Ht. destruct hist as [|cur hist]; [done|]. cbn [table_spec ever_placed existsb]. change (current (cur :: hist)) with cur in Hin.
    destruct (placed cur s) as [i|] eqn:Ep; [exfalso; apply Hin; apply outside_placed; by rewrite Ep|]. rewrite Ew. done.
Qed.

Lemma aliased_ext (b b' : Ip22Bus T) addrs : size_bytes <$> banks b' = size_bytes <$> banks b -> alias_offset b' = alias_offset b -> aliased b' addrs = aliased b addrs.
Proof.
  intros Es Ea. unfold aliased. rewrite Ea. pose proof (f_equal (lookup O) Es) as E0. rewrite !list_lookup_fmap in E0.
  destruct (mjoin (addrs !! O)) as [[[base mask] limit]|]; [|done]. destruct (banks b !! O), (banks b' !! O); try done. cbn in E0. congruence.
Qed.

Lemma outside_range addrs : Forall (fun s => 0 <= s < 2 ^ 20) (outside_slots addrs).
Proof.
  apply Forall_forall. intros s [_ Hs]%outside_placed. apply placed_is_Some in Hs as (i & base & mask & limit & _ & Hin). by eapply bank_slot_range.
Qed.

(** The last part of a remap: the table, then the alias. *)
Lemma remap_finish_ok hist t0 addrs (b : Ip22Bus T) (changed : bool) :
  (exists t, shows (table b) t /\ forall s, t s = table_spec hist t0 s) -> banks_outside_windows b = outside_slots (current hist) ->
  Forall (sane_at (size_bytes <$> banks b)) (numbered addrs) ->
  let fin := let '(plan, outside) := plan_bank_slots addrs (banks_outside_windows b) in
    let b := b <| banks_outside_windows := outside |> in
    m ← apply_plan (length plan) plan (table b);
    let b := b <| table := m |> in
    if changed then map_low_alias b addrs else Some b in
  (forall b', fin = Some b' ->
     (exists t, shows (table b') t /\ forall s, t s = table_spec (addrs :: hist) t0 s) /\ banks_outside_windows b' = outside_slots addrs /\
     banks b' = banks b /\ alias_offset b' = alias_offset b /\ ppmem_last_placement b' = ppmem_last_placement b /\
     (changed = false -> ppmem_space b' = ppmem_space b) /\ (is_Some (ppmem_space b) -> is_Some (ppmem_space b')) /\
     (changed = true -> forall sp', ppmem_space b' = Some sp' -> exists sp, ppmem_space b = Some sp /\ (window_ok sp -> window_ok sp') /\
        forall p, resolve (space sp') p = if aliased b addrs && within 0 ALIAS_END p then Some (Some (O, p)) else resolve (space sp) p)) /\
  (reliable (table b) -> exists b', fin = Some b' /\ reliable (table b')).
Proof.
  intros (t & Hs & Ht) Ho Hsane. cbv zeta. rewrite plan_bank_slots_spec, Ho.
  pose proof (plan_range addrs (outside_slots (current hist)) (outside_range _)) as Hrng. pose proof (plan_painted addrs (outside_slots (current hist)) t) as Hpt.
  rewrite plan_bank_slots_spec in Hrng, Hpt. cbn [fst] in Hrng, Hpt. set (plan := merge_sort _ _) in *.
  destruct (apply_plan_shows (length plan) plan (table b) t ltac:(lia) Hrng Hs) as [Hsome Hrun]. set (b1 := b <| banks_outside_windows := outside_slots addrs |>).
  change (table b1) with (table b). split.
  - intros b' Hf. destruct (apply_plan (length plan) plan (table b)) as [m|] eqn:Em; [|done]. cbn [mbind option_bind] in Hf.
    destruct (Hsome m eq_refl) as (t' & Hs' & Ht'). assert (exists t, shows m t /\ forall s, t s = table_spec (addrs :: hist) t0 s) as Htab.
    { exists t'. split; [done|]. intros s. rewrite Ht', Hpt. by apply target_spec. }
    set (b2 := b1 <| table := m |>) in *. destruct changed; [|injection Hf as <-; split_and!; done].
    destruct (alias_runs b2 addrs Hsane) as (b3 & E3 & (R1 & R2 & R3 & R4) & B3 & W3). rewrite E3 in Hf. injection Hf as <-.
    rewrite R1, R2, R3, R4, B3. change (ppmem_space b2) with (ppmem_space b) in W3.
    split_and!; try done; [destruct (ppmem_space b); [destruct W3 as (sp3 & -> & _); by eexists|by intros []]|]. intros _ sp' Esp'.
    destruct (ppmem_space b) as [sp|]; [|congruence]. destruct W3 as (sp3 & Es3 & W3 & V3). exists sp. rewrite Es3 in Esp'. injection Esp' as <-. by split_and!.
  - intros Hr. destruct (Hrun Hr) as (m & -> & Hr'). cbn [mbind option_bind]. destruct changed; [|by eexists].
    match goal with |- context [map_low_alias ?x addrs] => destruct (alias_runs x addrs Hsane) as (b3 & E3 & (R1 & _) & _) end.
    exists b3. split; [exact E3|]. by rewrite R1.
Qed.

Lemma cleared_window sp : window_ok sp -> window_ok (clear_mappings sp) /\ forall p, bank_of (resolve (space (clear_mappings sp)) p) = None.
Proof.
  intros [Hw Hb]%clear_ok. split; [done|]. intros p. specialize (Hb p). by destruct (resolve _ p) as [[x|]|].
Qed.

Lemma remap_ok hist t0 (b : Ip22Bus T) addrs : bus_ok hist t0 b -> Forall (sane_at (size_bytes <$> banks b)) (numbered addrs) ->
  (forall b', remap_banks b addrs = Some b' -> bus_ok (addrs :: hist) t0 b' /\ size_bytes <$> banks b' = size_bytes <$> banks b /\ alias_offset b' = alias_offset b /\ (is_Some (ppmem_space b) -> is_Some (ppmem_space b'))) /\
  (reliable (table b) -> exists b', remap_banks b addrs = Some b' /\ reliable (table b')).
Proof.
  intros [Ht Ho Hlast Hm Hw] Hs. unfold remap_banks. set (key := (addrs, size_bytes <$> banks b)).
  set (changed := bool_decide (ppmem_last_placement b <> Some key)). set (b1 := b <| ppmem_last_placement := Some key |>).
  set (b2 := if changed then b1 <| ppmem_space ::= fmap clear_mappings |> else b1).
  assert (table b2 = table b /\ banks b2 = banks b /\ alias_offset b2 = alias_offset b /\ banks_outside_windows b2 = banks_outside_windows b /\
    ppmem_last_placement b2 = Some key /\ ppmem_space b2 = if changed then clear_mappings <$> ppmem_space b else ppmem_space b) as (T2 & B2 & A2 & O2 & L2 & W2)
    by (unfold b2; destruct changed; split_and!; done).
  destruct (place_all_runs changed (numbered addrs) b2) as (b3 & E3 & (R1 & R2 & R3 & R4) & B3 & F3 & W3); [by rewrite B2|].
  assert (size_bytes <$> banks b3 = size_bytes <$> banks b) as Esz by (by rewrite B3, masks_sizes, B2).
  rewrite E3. cbn [mbind option_bind].
  destruct (remap_finish_ok hist t0 addrs b3 changed) as [Hf Hr]; [by rewrite R1, T2|by rewrite R3, O2|by rewrite Esz|]. split; [|intros Hrel; apply Hr; by rewrite R1, T2].
  intros b' Hb'. destruct (Hf b' Hb') as (Ht' & Ho' & Bk & Al & La & Wf & Wsome & Wt).
  split; [|split; [by rewrite Bk|split; [by rewrite Al, R2, A2|]]].
  2: { intros [sp Esp]. apply Wsome. rewrite Esp in W2. destruct changed eqn:Ec.
       - specialize (W3 eq_refl). rewrite W2 in W3. destruct W3 as (sp3 & -> & _). by eexists.
       - rewrite F3, W2 by done. by eexists. }
  constructor.
  - done.
  - done.
  - rewrite La, R4, L2, Bk, Esz. done.
  - intros i base mask limit bank Hi Hbank. change (current (addrs :: hist)) with addrs in Hi. rewrite Bk, B3, masks_of, Hi in Hbank. cbn in Hbank.
    destruct (banks b2 !! i) as [bank0|]; [|done]. injection Hbank as <-. done.
  - intros sp' Hsp'. change (current (addrs :: hist)) with addrs.
    assert (aliased b' addrs = aliased b3 addrs) as Eal by (apply aliased_ext; [by rewrite Bk|done]). unfold view_of. rewrite Eal.
    destruct changed eqn:Ec.
    + destruct (Wt eq_refl sp' Hsp') as (sp3 & Es3 & Wk & V3). specialize (W3 eq_refl). rewrite W2 in W3.
      destruct (ppmem_space b) as [sp|] eqn:Esp; cbn in W3; [|congruence]. destruct W3 as (sp3' & Es3' & Wk3 & Vm). rewrite Es3 in Es3'. injection Es3' as <-.
      destruct (cleared_window sp (proj1 (Hw sp eq_refl))) as [Hcw Hcv]. split; [by apply Wk, Wk3|]. intros p. rewrite V3.
      destruct (aliased b3 addrs && within 0 ALIAS_END p); [done|]. rewrite Vm. destruct (win_at (numbered addrs) p); [done|apply Hcv].
    + rewrite Wf, F3, W2 in Hsp' by done. destruct (Hw sp' Hsp') as [Hok Hv]. split; [done|]. intros p. rewrite Hv.
      unfold changed in Ec. apply bool_decide_eq_false, dec_stable in Ec. rewrite Ec in Hlast. destruct hist as [|cur hist]; [done|].
      injection Hlast as Ecur. change (current (cur :: hist)) with cur in *. subst cur. unfold view_of. rewrite <- Eal.
      rewrite (aliased_ext b b' addrs); [done|by rewrite Bk|by rewrite Al, R2, A2].
Qed.

End Remap.

(** ** What the registers say *)

Lemma size_rank_22 mb f r : memcfg_size_rank_at 22 mb = Some (f, r) ->
  (mb = 8 /\ f = 0 /\ r = 1) \/ (mb = 16 /\ f = 3 /\ r = 0) \/ (mb = 32 /\ f = 3 /\ r = 1) \/ (mb = 64 /\ f = 15 /\ r = 0) \/ (mb = 128 /\ f = 15 /\ r = 1).
Proof. unfold memcfg_size_rank_at. cbn. repeat case_match; intros [= <- <-]; tauto. Qed.

Lemma bit_of x : x .& 1 = 0 \/ x .& 1 = 1.
Proof. pose proof (Z.land_ones x 1 ltac:(lia)) as E. change (Z.ones 1) with 1 in E. rewrite E. pose proof (Z.mod_pos_bound x 2). change (2 ^ 1) with 2. lia. Qed.

Lemma units_sane base l mask limit size : 0 <= base < 256 -> 0 < l <= 64 -> limit = l * 2097152 -> pow2 (mask + 1) -> mask + 1 <= size -> pow2 size -> sane size (base * 4194304, mask, limit).
Proof.
  intros Hb Hl -> Hp Hs Hz. change WINDOW_SIZE with 4294967296 in *. split_and!; try done; try lia.
  - replace (base * 4194304) with (base * 1024 * 4096) by lia. apply Z.mod_mul. lia.
  - replace (l * 2097152) with (l * 512 * 4096) by lia. apply Z.mod_mul. lia.
  - change WINDOW_SIZE with 4294967296. lia.
Qed.

Lemma halved n : ((n * 4194304) .>> 1) .<< (1 .& 0) = n * 2097152.
Proof. rewrite Z.land_0_r, Z.shiftl_0_r, Z.shiftr_div_pow2 by lia. replace (n * 4194304) with (n * 2097152 * 2 ^ 1) by lia. apply Z.div_mul. lia. Qed.

Lemma halved_doubled n : ((n * 4194304) .>> 1) .<< (1 .& 1) = 2 * n * 2097152.
Proof. change (1 .& 1) with 1. rewrite Z.shiftl_mul_pow2, Z.shiftr_div_pow2 by lia. replace (n * 4194304) with (n * 2097152 * 2 ^ 1) by lia. rewrite Z.div_mul by lia. lia. Qed.

(** MEMCFG of the machines with 4 MB units never leaves the window. *)
Lemma bank_info_sane half mb pl : memcfg_bank_info_at 22 half mb = Some pl -> sane (mb .<< 20) pl.
Proof.
  unfold memcfg_bank_info_at. destruct (mb =? 0); [done|]. destruct (_ =? 0); [done|].
  destruct (memcfg_size_rank_at 22 mb) as [[f r]|] eqn:E; [|done]. cbn [mbind option_bind]. intros [= <-].
  assert (0 <= half .& 0xFF < 256) as Hb by (change 0xFF with (Z.ones 8); rewrite Z.land_ones by lia; by apply Z.mod_pos_bound).
  assert (0 <= (half .>> 8) .& 0x1F < 32) as Hf by (change 0x1F with (Z.ones 5); rewrite Z.land_ones by lia; by apply Z.mod_pos_bound).
  revert Hb Hf. generalize (half .& 0xFF), ((half .>> 8) .& 0x1F). intros base field Hb Hf.
  rewrite !(Z.shiftl_mul_pow2 base), !(Z.shiftl_mul_pow2 (field + 1)) by lia. change (2 ^ 22) with 4194304.
  destruct (bit_of (half .>> 14)) as [-> | ->]; cbn [Z.eqb];
    apply size_rank_22 in E as [(-> & -> & ->)|[(-> & -> & ->)|[(-> & -> & ->)|[(-> & -> & ->)|(-> & -> & ->)]]]].
  1-5: eapply (units_sane base (2 * (field + 1))); [lia|lia|rewrite Z.land_0_l, Z.shiftr_0_r, Z.shiftl_0_r; lia| |discriminate|].
  all: try (eapply (units_sane base (2 * (field + 1))); [lia|lia|apply (halved_doubled (field + 1))| |discriminate|]).
  all: try (eapply (units_sane base (field + 1)); [lia|lia|apply (halved (field + 1))| |discriminate|]).
  all: first [exists 21; split; [lia|reflexivity] | exists 23; split; [lia|reflexivity] | exists 24; split; [lia|reflexivity] | exists 25; split; [lia|reflexivity] | exists 26; split; [lia|reflexivity] | exists 27; split; [lia|reflexivity]].
Qed.

(** ** Histories of MEMCFG writes *)

Inductive MemcfgWrite : Type := Write0 (v : Z) | Write1 (v : Z).

(** The registers alone. *)
Definition registers_after (m : Mc) (w : MemcfgWrite) : Mc :=
  synthesize_himem_banks (match w with Write0 v => m <| memcfg0 := v |> | Write1 v => m <| memcfg1 := v |> end).

(** The placements that writes ask for, the newest first. *)
Fixpoint history (m : Mc) (ws : list MemcfgWrite) (hist : list (list (option Placement))) : list (list (option Placement)) :=
  match ws with
  | [] => hist
  | w :: ws => let m := registers_after m w in history m ws (parse_memcfg m (memcfg0 m) (memcfg1 m) :: hist)
  end.

Section Histories.

Context {T : Type} `{DecodeTable T}.

Fixpoint memcfg_run (m : Mc) (b : Ip22Bus T) (ws : list MemcfgWrite) : option (Mc * Ip22Bus T) :=
  match ws with
  | [] => Some (m, b)
  | w :: ws => '(m, b) ← match w with Write0 v => write_memcfg0 v m b | Write1 v => write_memcfg1 v m b end; memcfg_run m b ws
  end.

(** A machine before the first write: every bank is of its configured size and
    the table has been filled with devices. *)
Record powered_on (m : Mc) (b : Ip22Bus T) (t0 : Z -> BusEntry) : Prop := {
  on_shift : base_shift m = 22;
  on_four : length (ram_sizes m) = 4%nat;
  on_sizes : Forall2 (fun mb bank => mb = 0 \/ size_bytes bank = mb .<< 20) (ram_sizes m) (banks b);
  on_outside : banks_outside_windows b = [];
  on_alias : alias_offset b = alias_offset_for false;
  on_last : ppmem_last_placement b = None;
  on_window : ppmem_space b = None \/ ppmem_space b = Some over;
  on_shows : shows (table b) t0;
  on_devices : forall s i, t0 s <> BankEntry i;
}.

Lemma powered_on_ok m b t0 : powered_on m b t0 -> bus_ok [] t0 b.
Proof.
  intros [? ? ? Ho ? Hl Hw Hs]. constructor; [by exists t0|done|done|by intros|]. intros sp Hsp. destruct Hw as [Hw|Hw]; rewrite Hw in Hsp; [done|injection Hsp as <-].
  split; [apply over_ok|]. intros p. unfold view_of, aliased. by destruct (banks b !! O).
Qed.

Definition sized (m : Mc) (bs : list PpMemory) : Prop := length (ram_sizes m) = 4%nat /\ Forall2 (fun mb size => mb = 0 \/ size = mb .<< 20) (ram_sizes m) (size_bytes <$> bs).

Lemma parse_sane m bs m0 m1 : base_shift m = 22 -> sized m bs -> Forall (sane_at (size_bytes <$> bs)) (numbered (parse_memcfg m m0 m1)).
Proof.
  intros Hsh [H4 Hsz]. apply Forall_forall. intros [i e] He%numbered_elem. destruct e as [pl|]; cbn [sane_at]; [|done].
  unfold parse_memcfg in He. rewrite list_lookup_imap_Some in He. destruct He as (half & Hh & Hpl). rewrite Hsh in Hpl. symmetry in Hpl.
  pose proof (bank_info_sane _ _ _ Hpl) as Hs. assert (ram_size m i <> 0) as Hne by (unfold memcfg_bank_info_at in Hpl; by destruct (Z.eqb_spec (ram_size m i) 0)).
  assert (i < length (ram_sizes m))%nat as Hi by (rewrite H4; apply lookup_lt_Some in Hh; exact Hh).
  destruct (lookup_lt_is_Some_2 _ _ Hi) as [mb Hmb]. assert (ram_size m i = mb) as Er by (unfold ram_size; by apply nth_lookup_Some).
  destruct (Forall2_lookup_l _ _ _ _ _ Hsz Hmb) as (size & Hsize & [->| ->]); [done|]. exists (mb .<< 20). split; [done|]. by rewrite <- Er.
Qed.

Lemma registers_keep m w : base_shift (registers_after m w) = base_shift m /\ ram_sizes (registers_after m w) = ram_sizes m.
Proof.
  unfold registers_after, synthesize_himem_banks. destruct w as [v|v]; cbn; repeat case_match; done.
Qed.

Lemma memcfg_run_ok ws : forall m b hist t0, bus_ok hist t0 b -> base_shift m = 22 -> sized m (banks b) ->
  (forall m' b', memcfg_run m b ws = Some (m', b') -> bus_ok (history m ws hist) t0 b' /\ sized m (banks b') /\ alias_offset b' = alias_offset b /\ (is_Some (ppmem_space b) -> is_Some (ppmem_space b'))) /\
  (reliable (table b) -> exists m' b', memcfg_run m b ws = Some (m', b')).
Proof.
  induction ws as [|w ws IH]; intros m b hist t0 Hb Hsh Hsz; cbn [memcfg_run history].
  { split; [by intros m' b' [= <- <-]|intros _; by exists m, b]. }
  assert (match w with Write0 v => write_memcfg0 v m b | Write1 v => write_memcfg1 v m b end =
    (b' ← remap_banks b (parse_memcfg (registers_after m w) (memcfg0 (registers_after m w)) (memcfg1 (registers_after m w))); Some (registers_after m w, b'))) as -> by (by destruct w).
  destruct (registers_keep m w) as [Ksh Ksz]. set (m1 := registers_after m w) in *.
  assert (sized m1 (banks b)) as Hsz1 by (unfold sized; by rewrite Ksz).
  destruct (remap_ok hist t0 b (parse_memcfg m1 (memcfg0 m1) (memcfg1 m1)) Hb) as [Hsome Hrun]; [apply parse_sane; [congruence|done]|].
  destruct (remap_banks b _) as [b1|] eqn:Er; cbn [mbind option_bind].
  - destruct (Hsome b1 eq_refl) as (Hb1 & Es1 & Ea1 & Ew1). assert (sized m1 (banks b1)) as Hsz2 by (unfold sized; by rewrite Es1).
    destruct (IH m1 b1 _ t0 Hb1 ltac:(congruence) Hsz2) as [IH1 IH2]. split.
    + intros m' b' Hr. destruct (IH1 m' b' Hr) as (? & [? ?] & ? & ?). split; [done|]. unfold sized. rewrite <- Ksz. split; [done|split; [congruence|auto]].
    + intros Hr. apply IH2. destruct (Hrun Hr) as (b2 & [= <-] & ?). done.
  - split; [done|]. intros Hr. by destruct (Hrun Hr) as (b2 & ? & _).
Qed.

Lemma powered_on_sized m b t0 : powered_on m b t0 -> sized m (banks b).
Proof. intros [? ? Hsz]. split; [done|]. by apply Forall2_fmap_r. Qed.

Lemma histories_sane m bs ws : forall hist, base_shift m = 22 -> sized m bs -> Forall (fun addrs => Forall (sane_at (size_bytes <$> bs)) (numbered addrs)) hist ->
  Forall (fun addrs => Forall (sane_at (size_bytes <$> bs)) (numbered addrs)) (history m ws hist).
Proof.
  revert m. induction ws as [|w ws IH]; intros m hist Hsh Hsz Hh; cbn [history]; [done|]. destruct (registers_keep m w) as [Ksh Ksz].
  assert (sized (registers_after m w) bs) as Hsz1 by (unfold sized; by rewrite Ksz). apply IH; [congruence|done|]. constructor; [|done]. apply parse_sane; [congruence|done].
Qed.

(** C14: on an Indy or Indigo2 the decode table holds the banks where MEMCFG puts
    them and nowhere else.  From power-on, with a host that maps what it is
    asked to, any writes to MEMCFG0 and MEMCFG1, whatever their values, are
    carried out, and every 4 KB slot then answers with the last bank the
    registers place there; without one it reads as unmapped in the two memory
    windows and wherever a bank has been, and else as it did at power-on. *)
Theorem memcfg_places_banks (m : Mc) (b : Ip22Bus T) (t0 : Z -> BusEntry) (ws : list MemcfgWrite) :
  powered_on m b t0 -> reliable (table b) ->
  exists m' b' t, memcfg_run m b ws = Some (m', b') /\ shows (table b') t /\ forall s, t s = table_spec (history m ws []) t0 s.
Proof.
  intros Hon Hr. destruct (memcfg_run_ok ws m b [] t0 (powered_on_ok _ _ _ Hon) (on_shift _ _ _ Hon) (powered_on_sized _ _ _ Hon)) as [H1 H2].
  destruct (H2 Hr) as (m' & b' & Er). destruct (H1 m' b' Er) as [Hok _]. destruct (ok_table _ _ _ Hok) as (t & Hs & Ht). by exists m', b', t.
Qed.

(** A placed bank's mask picks the byte its base and period do. *)
Lemma off_placed (bank : PpMemory) base mask limit p : sane (size_bytes bank) (base, mask, limit) ->
  addr_mask bank = mask .& (size_bytes bank - 1) -> base mod (mask + 1) = 0 -> off bank p = (p - base) mod (mask + 1).
Proof.
  intros (_ & _ & _ & _ & _ & (k & Hk & Ek) & Hs & (n & Hn & En)) Em Hb. unfold off. rewrite Em. assert (mask = Z.ones k) as -> by (rewrite Z.ones_equiv; lia).
  rewrite En in Hs |- *. replace (2 ^ n - 1) with (Z.ones n) by (rewrite Z.ones_equiv; lia). rewrite Ek in Hb, Hs |- *.
  assert (k <= n) as Hkn by (apply (Z.pow_le_mono_r_iff 2); [lia|lia|done]).
  assert (Z.land (Z.ones k) (Z.ones n) = Z.ones k) as ->.
  { rewrite Z.land_ones by lia. apply Z.mod_small. rewrite Z.ones_equiv. lia. }
  rewrite Z.land_ones, Zminus_mod, Hb, Z.sub_0_r, Z.mod_mod by lia. done.
Qed.

Lemma table_bank hist (t0 : Z -> BusEntry) s i : (forall s i, t0 s <> BankEntry i) -> table_spec hist t0 s = BankEntry i <-> placed (current hist) s = Some i.
Proof.
  intros Ht0. destruct hist as [|cur hist]; cbn [table_spec]; [split; [intros E; by apply Ht0 in E|done]|]. change (current (cur :: hist)) with cur.
  destruct (placed cur s) as [k|]; [split; congruence|]. split; [|done]. destruct (_ || _); [done|]. intros E. by apply Ht0 in E.
Qed.

(** The window's byte is in a placed bank. *)
Lemma view_byte hist t0 (b : Ip22Bus T) sp p i o : bus_ok hist t0 b -> Forall (sane_at (size_bytes <$> banks b)) (numbered (current hist)) ->
  ppmem_space b = Some sp -> aliased b (current hist) = false \/ ALIAS_END <= p -> resolve (space sp) p = Some (Some (i, o)) ->
  placed (current hist) (p .>> DevMap.SLOT_SHIFT) = Some i /\
  exists base mask limit bank, current hist !! i = Some (Some (base, mask, limit)) /\ banks b !! i = Some bank /\ o = (p - base) mod (mask + 1) /\
    (base mod (mask + 1) = 0 -> o = off bank p).
Proof.
  intros Hb Hs Hsp Ha Hr. destruct (ok_window _ _ _ Hb sp Hsp) as [_ Hv]. specialize (Hv p). rewrite Hr in Hv. cbn [bank_of] in Hv. unfold view_of in Hv.
  assert (aliased b (current hist) && within 0 ALIAS_END p = false) as Ea.
  { destruct Ha as [->|Hp]; [done|]. apply andb_false_iff. right. apply not_true_iff_false. rewrite within_spec. lia. }
  rewrite Ea in Hv. symmetry in Hv. unfold placed. rewrite (placed_win _ _ p Hs), Hv. split; [done|].
  destruct (win_at_some _ _ _ _ Hv) as (base & mask & limit & Hin & Hw & ->). rewrite Forall_forall in Hs. destruct (Hs _ Hin) as (size & Hsz & Hsane).
  apply numbered_elem in Hin. apply list_lookup_fmap_Some in Hsz as (bank & -> & Hbank). exists base, mask, limit, bank. split_and!; try done.
  intros Hm. symmetry. apply (off_placed bank base mask limit p Hsane); [|done]. by eapply ok_masks.
Qed.

Lemma view_placed hist t0 (b : Ip22Bus T) sp p i : bus_ok hist t0 b -> Forall (sane_at (size_bytes <$> banks b)) (numbered (current hist)) ->
  ppmem_space b = Some sp -> aliased b (current hist) = false \/ ALIAS_END <= p -> placed (current hist) (p .>> DevMap.SLOT_SHIFT) = Some i ->
  exists o, resolve (space sp) p = Some (Some (i, o)).
Proof.
  intros Hb Hs Hsp Ha Hp. destruct (ok_window _ _ _ Hb sp Hsp) as [_ Hv]. specialize (Hv p). unfold view_of in Hv.
  assert (aliased b (current hist) && within 0 ALIAS_END p = false) as Ea.
  { destruct Ha as [->|Hp']; [done|]. apply andb_false_iff. right. apply not_true_iff_false. rewrite within_spec. lia. }
  rewrite Ea in Hv. unfold placed in Hp. rewrite (placed_win _ _ p Hs) in Hp. destruct (win_at _ p) as [[k o]|]; [|done]. injection Hp as ->. exists o.
  destruct (resolve _ p) as [[x|]|]; try done. cbn in Hv. by injection Hv as ->.
Qed.

Lemma view_alias hist t0 (b : Ip22Bus T) sp p : bus_ok hist t0 b -> Forall (sane_at (size_bytes <$> banks b)) (numbered (current hist)) ->
  alias_offset b = alias_offset_for false -> ppmem_space b = Some sp -> aliased b (current hist) = true -> 0 <= p < ALIAS_END ->
  placed (current hist) ((p + alias_offset b) .>> DevMap.SLOT_SHIFT) = Some O -> resolve (space sp) p = resolve (space sp) (p + alias_offset b).
Proof.
  intros Hb Hs Eo Hsp Ha Hp Hpl. assert (aliased b (current hist) = false \/ ALIAS_END <= p + alias_offset b) as Hout.
  { right. rewrite Eo. unfold alias_offset_for, LOMEM_BASE, ALIAS_END in *. lia. }
  destruct (view_placed hist t0 b sp (p + alias_offset b) O Hb Hs Hsp Hout Hpl) as [o Ho].
  destruct (view_byte hist t0 b sp _ _ _ Hb Hs Hsp Hout Ho) as (_ & base & mask & limit & bank & Hc & Hbank & -> & _).
  destruct (ok_window _ _ _ Hb sp Hsp) as [_ Hv]. specialize (Hv p). unfold view_of in Hv. rewrite Ha, (proj2 (within_spec 0 ALIAS_END p)) in Hv by lia. cbn [andb] in Hv.
  rewrite Ho. unfold aliased in Ha. rewrite Hc in Ha. cbn in Ha. rewrite Hbank in Ha. apply andb_prop in Ha as [->%Z.eqb_eq _].
  rewrite Z.add_simpl_r. assert (ALIAS_END <= mask + 1) as Hmk.
  { rewrite Forall_forall in Hs. destruct (Hs (O, Some (alias_offset b, mask, limit))) as (size & _ & Hsane); [by apply numbered_elem|]. apply pow2_pos. apply Hsane. }
  rewrite Z.mod_small by lia. destruct (resolve _ p) as [[x|]|]; try done. cbn in Hv. by injection Hv as ->.
Qed.

(** C11: the CPU's two ways to RAM, through the decode table and through the
    window of host mappings, agree.  After any MEMCFG writes, where the window
    has a bank the table has that bank, overlapping banks included, and where
    the table has a bank the window has one; and when the bank's base is a
    multiple of its mirror period, the window is at the very byte the bus would
    access.  The low 512 KB, when they are an alias, are the bytes at the base
    of memory.  The fast path's bitmap is set only where the window is RAM. *)
Theorem memory_paths_agree (m m' : Mc) (b b' : Ip22Bus T) (t0 : Z -> BusEntry) (ws : list MemcfgWrite) (sp : PpMemSpace) :
  powered_on m b t0 -> memcfg_run m b ws = Some (m', b') -> ppmem_space b' = Some sp ->
  exists t, shows (table b') t /\
  (forall p, 0 <= p -> bitmap_maps (bitmap sp) p = true -> is_bank (resolve (space sp) p) = true) /\
  (forall p, aliased b' (current (history m ws [])) = false \/ ALIAS_END <= p ->
     (forall i, t (p .>> DevMap.SLOT_SHIFT) = BankEntry i -> is_bank (resolve (space sp) p) = true) /\
     (forall i o, resolve (space sp) p = Some (Some (i, o)) -> t (p .>> DevMap.SLOT_SHIFT) = BankEntry i /\
        exists base mask limit bank, current (history m ws []) !! i = Some (Some (base, mask, limit)) /\ banks b' !! i = Some bank /\
          (base mod (mask + 1) = 0 -> o = off bank p))) /\
  (forall p, aliased b' (current (history m ws [])) = true -> 0 <= p < ALIAS_END ->
     t ((p + alias_offset b') .>> DevMap.SLOT_SHIFT) = BankEntry O -> resolve (space sp) p = resolve (space sp) (p + alias_offset b')).
Proof.
  intros Hon Er Hsp. destruct (memcfg_run_ok ws m b [] t0 (powered_on_ok _ _ _ Hon) (on_shift _ _ _ Hon) (powered_on_sized _ _ _ Hon)) as [H1 _].
  destruct (H1 m' b' Er) as (Hok & Hsz & Eal & _). rewrite (on_alias _ _ _ Hon) in Eal. 
  assert (Forall (sane_at (size_bytes <$> banks b')) (numbered (current (history m ws [])))) as Hs.
  { pose proof (histories_sane m (banks b') ws [] (on_shift _ _ _ Hon) Hsz ltac:(constructor)) as Hh. destruct (history m ws []); [constructor|by apply Forall_cons in Hh as [? _]]. }
 
  destruct (ok_table _ _ _ Hok) as (t & Ht & Et). pose proof (fun s i => table_bank (history m ws []) t0 s i (on_devices _ _ _ Hon)) as Htb.
  exists t. split; [done|]. split_and!.
  - intros p Hp Hbm. destruct (ok_window _ _ _ Hok sp Hsp) as [[_ Hw] _]. rewrite maps_bit, andb_true_iff, Z.ltb_lt in Hbm by done. destruct Hbm as [Hk Hbit].
    apply (proj1 (Hw (p .>> BITMAP_SHIFT) (conj (proj2 (Z.shiftr_nonneg _ _) Hp) Hk)) Hbit). by apply region_range.
  - intros p Ha. setoid_rewrite Et. setoid_rewrite Htb. split.
    + intros i Hi. by destruct (view_placed _ _ _ _ _ _ Hok Hs Hsp Ha Hi) as [o ->].
    + intros i o Ho. destruct (view_byte _ _ _ _ _ _ _ Hok Hs Hsp Ha Ho) as (Hi & base & mask & limit & bank & Hc & Hbk & _ & Hoff). split; [done|]. by exists base, mask, limit, bank.
  - intros p Ha Hp. rewrite Et, Htb. intros Hpl. by eapply view_alias.
Qed.

End Histories.

(** ** Computing a table *)

Lemma placed_at sizes addrs s : Forall (sane_at sizes) (numbered addrs) -> placed addrs s = fst <$> win_at (numbered addrs) (s * 4096).
Proof.
  intros Hs. rewrite <- (placed_win sizes _ _ Hs). unfold DevMap.SLOT_SHIFT. rewrite Z.shiftr_div_pow2 by lia. change (2 ^ 12) with 4096. by rewrite Z.div_mul.
Qed.

Definition table_at (hist : list (list (option Placement))) (t0 : Z -> BusEntry) (s : Z) : BusEntry :=
  match hist with
  | [] => t0 s
  | addrs :: hist =>
      match win_at (numbered addrs) (s * 4096) with
      | Some (i, _) => BankEntry i
      | None => if (((0x8000 <=? s) && (s <? 0x18000)) || ((0x20000 <=? s) && (s <? 0x30000))) || existsb (fun addrs => match win_at (numbered addrs) (s * 4096) with Some _ => true | None => false end) hist then UnmappedEntry else t0 s
      end
  end.

Lemma table_spec_at sizes hist t0 s : Forall (fun addrs => Forall (sane_at sizes) (numbered addrs)) hist -> table_spec hist t0 s = table_at hist t0 s.
Proof.
  destruct hist as [|addrs hist]; [done|]. intros [Ha Hh]%Forall_cons. cbn [table_spec table_at]. rewrite (placed_at _ _ _ Ha).
  assert (ever_placed hist s = existsb (fun addrs => match win_at (numbered addrs) (s * 4096) with Some _ => true | None => false end) hist) as ->.
  { clear Ha. induction hist as [|a hist IH]; [done|]. apply Forall_cons in Hh as [Ha Hh]. cbn [ever_placed existsb]. fold (ever_placed hist s). rewrite IH by done. f_equal.
    rewrite (placed_at _ _ _ Ha). by destruct (win_at _ _). }
  assert (in_windows s = ((0x8000 <=? s) && (s <? 0x18000)) || ((0x20000 <=? s) && (s <? 0x30000))) as ->.
  { apply eq_true_iff_eq. rewrite in_windows_spec, orb_true_iff, !andb_true_iff, !Z.leb_le, !Z.ltb_lt. done. }
  by destruct (win_at (numbered addrs) _) as [[? ?]|].
Qed.

(** ** Where the two paths part *)

(** A 128 MB bank placed as one of two ranks at a base that is not a multiple of
    128 MB: the window has the bank's first byte there, the bus the byte 64 MB
    on. *)
Lemma unaligned_bank_paths_differ :
  memcfg_bank_info_at 22 0x6F30 128 = Some (0x0C000000, 0x07FFFFFF, 0x04000000) /\
  (sp ← map_bank over 0x08000000 O 0x0C000000 0x04000000 0x08000000; resolve (space sp) 0x0C000000) = Some (Some (O, 0)) /\
  off (set_addr_mask (mkBank ∅ 0x08000000 0x07FFFFFF) 0x07FFFFFF) 0x0C000000 = 0x04000000.
Proof. split_and!; vm_compute; reflexivity. Qed.

(** What is synthesized for a bank of two ranks describes half of it. *)
Lemma synthesized_bank_is_half :
  Forall (fun mb => exists half mask, encode_memcfg_half_at 22 HIMEM_BASE mb = Some half /\ memcfg_bank_info_at 22 half mb = Some (HIMEM_BASE, mask, (mb .<< 20) / 2))
    [8; 32; 128].
Proof. repeat constructor; eexists _, _; split; vm_compute; reflexivity. Qed.

(** ** A machine *)

Definition machine_mc : Mc := mkMc 22 [64; 64; 0; 0] 0 0.

Definition machine_bank (mb : Z) : PpMemory := mkBank ∅ (mb .<< 20) ((mb .<< 20) - 1).

(** A new sparse table whose default is unmapped memory. *)
Definition machine_table : DevMap.Inner BusEntry :=
  (DevMap.new (2 ^ 12) []) <| DevMap.consts := [DevMap.mkConst UnmappedEntry (replicate (Z.to_nat (DevMap.per_page (@DevMap.new BusEntry (2 ^ 12) []))) UnmappedEntry)] |> <| DevMap.dflt := Some 0 |>.

Definition machine_bus : Ip22Bus (DevMap.Inner BusEntry) := mkBus machine_table (machine_bank <$> [64; 64; 8; 8]) (Some over) (alias_offset_for false) [] None.

Lemma machine_on : powered_on machine_mc machine_bus (fun _ => UnmappedEntry).
Proof.
  constructor; [reflexivity|reflexivity| |reflexivity|reflexivity|reflexivity| | |done].
  - constructor; [by right|]. constructor; [by right|]. constructor; [by left|]. constructor; [by left|constructor].
  - by right.
  - apply (DevMapClaims.set_default_shows 12 [] UnmappedEntry machine_table); [lia|reflexivity].
Qed.

Lemma machine_sane ws : Forall (fun addrs => Forall (sane_at (size_bytes <$> banks machine_bus)) (numbered addrs)) (history machine_mc ws []).
Proof. apply histories_sane; [done|exact (powered_on_sized _ _ _ machine_on)|constructor]. Qed.

(** A bank that stood over a device leaves unmapped memory when it moves. *)
Lemma device_lost_under_bank :
  let t0 s := if s =? 0x1FA00 then DeviceEntry 1 else UnmappedEntry in
  table_spec (history machine_mc [Write0 0x237E0000] []) t0 0x1FA00 = BankEntry O /\
  table_spec (history machine_mc [Write0 0x237E0000; Write0 0x2F200000] []) t0 0x1FA00 = UnmappedEntry.
Proof. cbv zeta. rewrite !(table_spec_at _ _ _ _ (machine_sane _)). split; vm_compute; reflexivity. Qed.

(** Two 64 MB banks, at the base of memory and above. *)
Definition post_writes : list MemcfgWrite := [Write0 0x2F202F30; Write1 0].

Lemma memcfg_places_banks_witness : exists m' b' t, memcfg_run machine_mc machine_bus post_writes = Some (m', b') /\ shows (table b') t /\
  t 0x8000 = BankEntry 0 /\ t 0xC123 = BankEntry 1 /\ t 0x10000 = UnmappedEntry.
Proof.
  destruct (memcfg_places_banks machine_mc machine_bus (fun _ => UnmappedEntry) post_writes machine_on eq_refl) as (m' & b' & t & Er & Hs & Ht).
  exists m', b', t. split; [exact Er|]. split; [exact Hs|]. rewrite !Ht, !(table_spec_at _ _ _ _ (machine_sane _)). split; [vm_compute; reflexivity|]. split; vm_compute; reflexivity.
Defined.

Lemma memory_paths_agree_witness : exists m' b' sp, memcfg_run machine_mc machine_bus post_writes = Some (m', b') /\ ppmem_space b' = Some sp /\
  forall p i o, ALIAS_END <= p -> resolve (space sp) p = Some (Some (i, o)) -> exists bank, banks b' !! i = Some bank.
Proof.
  destruct (memcfg_run_ok post_writes machine_mc machine_bus [] (fun _ => UnmappedEntry) (powered_on_ok _ _ _ machine_on) eq_refl (powered_on_sized _ _ _ machine_on)) as [Hk H].
  destruct (H eq_refl) as (m' & b' & Er). destruct (Hk m' b' Er) as (_ & _ & _ & Hw). destruct Hw as [sp Esp]; [exists over; reflexivity|].
  exists m', b', sp. split; [exact Er|]. split; [exact Esp|]. intros p i o Hp Ho.
  destruct (memory_paths_agree machine_mc m' machine_bus b' _ post_writes sp machine_on Er Esp) as (t & _ & _ & Hv & _).
  destruct (Hv p (or_intror Hp)) as [_ Hb]. destruct (Hb i o Ho) as (_ & base & mask & limit & bank & _ & Hbk & _). exists bank. exact Hbk.
Defined.

End Ip22MemClaims.
